(* ===== verification/_CoqProject ===== *)
-Q . S2P
Prelude.v
Effects.v
SortedTable.v
NetText.v
ClientRace.v
Rendezvous.v
Transfer.v
Lifecycle.v
DirectHandoff.v
Cursor.v
Addons.v
VlessRequest.v
VlessClient.v
Socks5.v
Vision.v
Padding.v
VisionEncode.v
VisionWrite.v
Uplink.v
Nested.v
Downlink.v
Xudp.v
Crypto.v
Window.v
Pmtu.v
Replay.v
UdpWire.v
Nxr.v
NxrUdp.v
NxrOpen.v
NxrAssoc.v
ClientHello.v
HelloSpec.v
HelloExact.v
ServerName.v
RealityAuth.v
ClientOffer.v
RealityAgree.v
HelloRead.v
RealityReplay.v
Frag.v
Tls13Keys.v
BlobCodec.v
HandoffPolicy.v
UserMap.v
HandoffBlob.v
HandoffTransfer.v
Tls13Record.v
SessionHandoff.v
TlsReader.v
TlsWriter.v
TlsChannel.v
Threads.v
Ceiling.v
DialGate.v
FdBudget.v
Pressure.v
FdPlan.v
Policy.v
Admission.v
Adaptive.v
Routing.v
RoutingExact.v
TlsMessages.v
ServerHello.v
ServerHelloExact.v
RecordRead.v
ServerFlight.v
ClientVerify.v
ClientHandshake.v
HandshakeAgree.v
HandshakeSound.v
Dat.v
DatExact.v
DatDomains.v
Assets.v
