(* ===== verification/Prelude.v ===== *)
(** * Verification of the rust-reality protocol core

    rust-reality is a proxy server. A client authenticates inside a REALITY
    TLS 1.3 session and sends a VLESS request; application bytes then travel in
    padded Vision frames inside outer TLS records until one side asks for the
    raw relay, at which point the two relay directions give their socket halves
    back and one of them copies bytes between the bare sockets. A LINE node may
    hand an authenticated session to a LANDING node, over TCP (one sealed
    message per attempt) or over a native UDP channel with its own key
    schedule, replay protection, fragmentation and path MTU discovery. The
    crate [crates/rr-session] holds the pure policies of these components.

    ** Files, in dependency order

    - [Prelude]: this file. Results with explicit panics, byte and big-endian
      integer conversions, slices, list lemmas, tactics and hint databases.
    - [SortedTable], [NetText]: sorting, searching and removing duplicates by a
      key, and the text forms of numbers and addresses, as the Rust standard
      library has them.
    - [ClientRace] (crates/rr-session/src/client_race.rs): which of two
      candidate transports a connection adopts. State [ClientRace], one
      definition per operation, events folded by [run].
    - [Rendezvous] (crates/rr-session/src/rendezvous.rs and the loop of
      [decide_raw_relay]): how long a direction waits for its peer.
    - [Transfer] (crates/rr-session/src/transfer.rs,
      src/server/counted_write.rs, src/server/handoff/line.rs): counted writes
      and the warm-then-cold attempts of one TCP handoff.
    - [Lifecycle] (crates/rr-session/src/vision.rs): the state machine of one
      relay direction and the raw-relay plan.
    - [DirectHandoff] (src/server/direct.rs, src/server/vision/relay.rs,
      relay_uplink.rs, relay_downlink.rs): the shared coordinator and the two
      direction programs as an interleaving step relation [session_step]; it
      uses [Lifecycle] and [Rendezvous].
    - [Cursor]: the state-and-error monad of the parsers, the writer monad of
      the encoders, and the program logics over them.
    - [Addons], [VlessRequest], [VlessClient] (src/protocol/vless/addons.rs,
      types.rs, decode.rs, read.rs, client.rs, response.rs, validate.rs): the
      VLESS codecs, the stream reader and authorization.
    - [Effects]: the monad of the asynchronous loops and of encoders that append
      to a caller's buffer, which keeps the state on an error, and its triples.
    - [Socks5] (src/protocol/socks5.rs): the codec of the client inbound.
    - [Vision], [Padding], [VisionEncode], [VisionWrite]
      (src/protocol/vless/vision.rs, padding.rs, src/server/vision/framing.rs):
      the Vision decoder, the padding generator, the encoder and the packing of
      frames into outer records. The encoder is proved against the class
      [Padding.PaddingSource]; [PaddingRng] is its instance.
    - [Uplink] (src/server/vision/relay_uplink.rs), [Nested], [Downlink]
      (src/server/vision/nested.rs, relay_downlink.rs, framing.rs): the two
      framed relay loops, the reader of the destination's own TLS records and
      the detector that ends padding.
    - [Xudp] (src/protocol/vless/xudp.rs): the UDP carrier's metadata codec.
    - [Crypto]: the classes [CryptoOps] and [CryptoLaws], with a toy instance.
    - [Window], [Pmtu], [Frag] (src/protocol/handoff/udp/window.rs, pmtu.rs,
      frag.rs): replay bitmap, path MTU prober, fragmentation.
    - [Replay] (src/protocol/handoff/replay.rs, src/server/nxr/replay.rs): the
      sharded nonce cache as a concurrent system; it discharges the class
      [ReplayGuard], against which [UdpWire] is proved.
    - [UdpWire] (src/protocol/handoff/udp/wire.rs, src/protocol/handoff/keys.rs):
      packets, the OPEN handshake and the sealed channel.
    - [Tls13Keys] (src/protocol/reality/tls13/keys.rs): the key schedule over
      the class [Tls13Ops] of hash and AEAD primitives.
    - [BlobCodec], [HandoffPolicy], [HandoffBlob] (src/protocol/handoff/blob,
      policy.rs, state.rs): the continuation a session is handed over as, and
      the sealed route policy inside it.
    - [HandoffTransfer] (src/protocol/handoff/layout.rs, wire.rs, transfer.rs):
      the sealed TCP message; it takes the nonce cache as a [ReplayGuard].
    - [Tls13Record] (src/protocol/reality/tls13/record.rs): one direction's
      record layer.
    - [SessionHandoff] (src/server/vision/handoff_relay.rs,
      src/server/handoff/landing.rs): record layers, blob and transfer composed.
    - [TlsReader], [TlsWriter], [TlsChannel]
      (src/protocol/reality/tls13/application_io.rs, record_read.rs, idle.rs):
      application reads and writes over the record layer, and the two ends
      composed.
    - [Threads]: interleaving of threads over shared atomic cells, used by the
      next four files.
    - [Ceiling], [DialGate], [FdBudget], [Pressure] (src/runtime/ceiling.rs,
      admission.rs, pressure.rs, src/transport/fd_budget.rs): the soft-ceiling
      semaphore, the dial rate gate, the descriptor budget and the pressure
      gauge, one step per atomic operation.
    - [FdPlan], [Policy] (src/runtime/fd_plan.rs, machine.rs, policy.rs, plan):
      the descriptor plan and the startup policy derived from the machine.
    - [Admission], [Adaptive] (src/runtime/admission.rs, adaptive.rs): the
      governor and the dial barrier over the pools, call by call, and the
      controller that moves their ceilings.
    - [UserMap] (src/user_map.rs), [Routing], [RoutingExact]
      (src/server/routing.rs, src/config/node/routing.rs): the table of users;
      rules, the candidate index and the selection of an outbound, and the proof
      that they decide as the rules say.
    - [Dat], [DatExact], [DatDomains] (src/assets/dat.rs), [Assets]
      (src/assets/mod.rs, src/config/node/assets.rs): the GeoIP and GeoSite files,
      the prefix trie and the compiled sets; the labels a configuration needs,
      the loading of a generation and its publication. [Assets.snapshot_matcher]
      is the [AssetMatcher] that [Routing] asks.
    - [Nxr], [NxrUdp], [NxrOpen], [NxrAssoc] (src/protocol/nxr,
      src/protocol/nxr_udp, src/server/nxr, the NXR parts of
      src/server/outbound.rs and of the XUDP carrier): open requests and their
      authenticator, UDP frames, the landing's dispatch with LINE's dial, and
      the two loops of a UDP association.
    - [ClientHello], [HelloSpec], [HelloExact]
      (src/protocol/reality/client_hello.rs): the parser, the reference grammar
      of a ClientHello, and the proof that they agree.
    - [ServerName] (src/server_name.rs), [RealityAuth]
      (src/protocol/reality/auth.rs): name patterns and the authenticator
      compiled from the configuration.
    - [ClientOffer] (src/protocol/reality/client_offer.rs, browser_profile.rs):
      the client's key agreement and hello; [RealityAgree] composes it with the
      parser and the authenticator.
    - [HelloRead] (src/protocol/reality/read.rs): the reader of the first
      records of a connection.
    - [RealityReplay] (src/protocol/reality/replay.rs): the two-phase replay
      cache as a concurrent system.
    - [TlsMessages], [ServerHello], [ServerHelloExact]
      (src/protocol/reality/tls13/messages.rs, server_hello.rs): the handshake
      messages and the forged certificate; the ServerHello parser, the patching
      of a cover's hello and the stored profile, and their reference grammar.
    - [RecordRead], [ServerFlight] (src/protocol/reality/tls13/record_read.rs,
      handshake.rs, handshake_read.rs): one whole record from the stream; the
      server's key agreement and flight, shaped after a cover, and its check of
      the client's Finished.
    - [ClientVerify], [ClientHandshake] (src/protocol/reality/client_verify.rs,
      client_handshake.rs): the client's checks and its handshake.
    - [HandshakeAgree], [HandshakeSound]: the two ends composed, and what a
      completed handshake has checked.

    ** Modelling conventions

    Lengths and machine integers are [Z] with their wrap-around, saturation or
    checked arithmetic written out; bytes are [Init.Byte.byte]; a Rust [str]
    is its byte list. A fallible function returns [result E A], and an
    out-of-range index or slice, like a loop that runs out of fuel, is [Panic].
    Allocation failures, short reads and writes, spurious compare-and-swap
    failures, entropy failures and clock readings are inputs chosen by an
    adversary, over which the theorems quantify. Instants and durations are
    integers. Code outside the repository (SHA-2, HKDF, HMAC, AES-GCM,
    ChaCha20-Poly1305, ChaCha12, Ed25519, P-256, ML-KEM-768, regular expressions,
    the Aho-Corasick search) and the vendored X25519 assembly are class or section
    parameters; the laws assumed are output lengths, decryption of what was
    encrypted, verification of what was signed, and agreement of the two
    Diffie-Hellman or encapsulated shares. Nothing is
    assumed about secrecy or forgery: where a theorem speaks of a packet that
    was not sealed by the peer, the statement says what the receiver does with
    the verdict of the cipher.

    ** What the theorems show

    - Relay pairing ([DirectHandoff], [Lifecycle], [Rendezvous]): at most one
      direction owns the reunited sockets, no half is lost when both directions
      hand off, every execution is finite, and the state machine only moves
      forward.
    - Codecs ([VlessRequest], [Addons], [VlessClient], [Socks5], [Xudp],
      [UdpWire]): a decoder accepts exactly the encodings of well-formed values,
      never panics, and inverts its encoder; the owned and borrowed request decoders agree;
      the stream reader's answer does not depend on how bytes arrive.
    - Vision ([Vision], [VisionEncode], [VisionWrite], [Padding]): decoding does
      not depend on fragmentation, decoding inverts encoding for every sequence
      of frames and padding choices, packing keeps the content and the record
      bound, padding lengths are uniform.
    - Replay and delivery ([Window], [Replay], [UdpWire]): the bitmap refines a
      set of counters; the concurrent cache never accepts a nonce twice within
      its retention and never exceeds its capacity under any schedule; the
      channel delivers each sealed message at most once and unaltered; an OPEN is
      accepted once and gives both ends the same channel.
    - TLS ([Tls13Keys], [Tls13Record], [TlsReader], [TlsWriter], [TlsChannel]):
      the key schedule is total and typed; the three seals are one function; no
      nonce repeats under a key; only an authentic record moves the reader; the
      buffered and the record-exact reader are the same reader; an interrupted
      write ends its direction for good; what the reader of one end delivers is
      a prefix of what the writer of the other was asked to write, and all of
      it when every write completed, across KeyUpdates.
    - Session handoff ([HandoffPolicy], [HandoffBlob], [HandoffTransfer],
      [SessionHandoff]): the sealed policy authorizes exactly what its rules
      say and its decoder never widens it; blob and transfer invert; an opened
      transfer is fresh, authentic and accepted once; LANDING resumes with the
      keys, sequences and pending bytes LINE had.
    - Relay loops ([Uplink], [Nested], [Downlink]): the destination receives the
      decoded content of exactly the records read, a prefix of it after a failure,
      and the client's decoder the destination's
      bytes; the record reader loses nothing; the detector refines a parser of
      ServerHello.
    - NXR ([Nxr], [NxrUdp], [NxrOpen], [NxrAssoc]): an open is accepted exactly
      when it is a fresh encoding under the key, in one mode only, and is served
      once; both ends agree on destination and session key; the association
      carries datagrams exactly, and the landing sends nothing unauthenticated,
      reordered or repeated.
    - Handshake ([ServerHelloExact], [HandshakeAgree], [HandshakeSound]): the
      ServerHello parser accepts exactly the grammar and a patched or stored
      cover hello is such a hello; the flight the server builds for an
      authenticated client is accepted by that client, both ends then hold the
      same traffic keys, and the server accepts the client's answer; for any
      other bytes neither side panics, the client completes only on a flight
      bound to its authentication key and transcript, and the server accepts
      exactly the expected Finished.
    - REALITY ([HelloExact], [RealityAuth], [RealityAgree], [HelloRead],
      [RealityReplay]): the parser accepts exactly the grammar; the reader keeps
      every byte for the fallback and finds the message however it is cut; the
      authenticator accepts exactly the hellos that satisfy the stated
      conditions; the client's hello is always such a hello and gives both ends
      the same key; a committed hello is refused for its retention under every
      schedule.
    - Routing ([RoutingExact], [UserMap]): the selection is the first match of the
      global rules, then of the user's policy, then its default, through the index
      and both resolution passes; the exception is a name in which keywords of
      different rules overlap, where the index of a long list loses a rule.
    - Assets ([DatExact], [DatDomains], [Assets]): a file is read back as the
      lists it encodes and its sets answer as a scan of those lists; no bytes make
      the parsers panic; a reload publishes a generation that has every label the
      router's matchers name, or changes nothing.
    - Bounded resources ([Frag], [Pmtu], [Transfer], [ClientRace]): reassembly
      memory bounds and round trip, convergence of the MTU search, at most one
      committed transfer, at most one adopted candidate.
    - Admission ([Ceiling], [DialGate], [FdBudget], [Pressure], [FdPlan],
      [Policy], [Admission], [Adaptive]): under every interleaving the pools and
      the descriptor budget never exceed their bounds and leak nothing, dials
      stay within the rate in every window, nobody sleeps through a wakeup as long
      as loads return the latest values;
      every derived policy is consistent; admission decides exactly by pressure
      and ceiling; the controller stays within the startup bounds, its decisions
      are in effect, and it recovers at the designed pace.

    ** Fuel

    [Vision.decode_loop] gets [2 * length input + 1]: every iteration consumes
    a byte or finishes a frame. [Addons.parse_loop], [Frag.expire_loop],
    [Frag.room_loop] and [Window.clear_loop] get the length of what they consume.
    The request reader gets one round per byte of its buffer. The theorems about
    these functions prove that the fuel suffices. [TlsReader.fill_to] and
    [TlsReader.read_exact_loop] get one round per missing byte,
    [TlsWriter.write_chunks] one per plaintext byte, [Nested]'s loops one per
    byte of the header or record and [Downlink]'s the bytes left plus one. [ClientHello.while_more] and
    [HelloRead.read_exact_loop] get one round per byte left, and the binary
    search of [RealityAuth] one per element. [ServerHello]'s extension loop gets
    the length of the block plus one, [ClientVerify.selected_loop] and
    [claimed_loop] the length of their vector, [ClientHandshake.next_message] the
    length of the stream plus one, as each round consumes a record.
    [Dat.proto_loop] gets the length of its message, as each field takes a byte.
    [Padding.below_loop] and the
    rejection loops of [ClientOffer] end when the keystream or the entropy
    allows; their theorems speak of the runs that return.

    ** Not modelled

    The probing of cover targets and the fallback relay (measurement of a remote
    server, and I/O), the DNS client and the connectors (sockets and background
    tasks), the writing of asset cache files, JSON configuration, the command line, the accept loops,
    the developer tools, system-call wrappers and error texts. The relay loops
    treat the outer TLS layer as their environment: [VisionWrite], [Uplink] and
    [Downlink] are not composed with [TlsChannel].
    Timing is an input: a deadline is an answer of the environment.
    Concurrency is sequentially consistent: one step per atomic operation or
    critical section, in some total order. The exception is [FdBudget], whose
    Relaxed loads may return older values when the schedule says so: strictness is
    proved with them, the absence of lost wakeups without them. *)

From stdpp Require Export base tactics decidable numbers list strings.
From Stdlib Require Export ZArith Lia.
From Stdlib Require Export Strings.Byte.

#[global] Open Scope Z_scope.

(** ** Results: [Result<A, E>] with panics made explicit

    Every fallible Rust function is a [result E A]. [Panic] is the outcome of
    an out-of-range index or slice, so that "never panics" is a theorem and not
    a modelling assumption. *)

Inductive result (E A : Type) : Type :=
| Ok (a : A)
| Err (e : E)
| Panic.
Arguments Ok {E A} a.
Arguments Err {E A} e.
Arguments Panic {E A}.

#[export] Instance result_ret E : MRet (result E) := fun A a => Ok a.

#[export] Instance result_bind E : MBind (result E) :=
  fun A B f m => match m with Ok a => f a | Err e => Err e | Panic => Panic end.

#[export] Instance result_fmap E : FMap (result E) :=
  fun A B f m => match m with Ok a => Ok (f a) | Err e => Err e | Panic => Panic end.

(** [Option::ok_or]. *)
Definition ok_or {E A} (e : E) (o : option A) : result E A :=
  match o with Some a => Ok a | None => Err e end.

(** [Result::map_err]. *)
Definition map_err {E F A} (f : E -> F) (m : result E A) : result F A :=
  match m with Ok a => Ok a | Err e => Err (f e) | Panic => Panic end.

(** An early [return Err(e)] guarded by a condition. *)
Definition reject_if {E} (b : bool) (e : E) : result E unit :=
  if b then Err e else Ok tt.

(** The outcome is a value or a reported error, never a panic. *)
Definition no_panic {E A} (m : result E A) : Prop := m <> Panic.

Definition is_ok {E A} (m : result E A) : bool :=
  match m with Ok _ => true | _ => false end.

Declare Scope rust_scope.
Delimit Scope rust_scope with rust.
Notation "'guard!' b 'else' e ; k" :=
  (mbind (fun _ : unit => k) (reject_if b e))
  (at level 10, b at level 100, e at level 100, k at level 200,
   format "'guard!'  b  'else'  e ;  '/' k") : rust_scope.
#[global] Open Scope rust_scope.

Create HintDb rust discriminated.

Lemma bind_ok {E A B} (m : result E A) (f : A -> result E B) (b : B) :
  (x ← m; f x) = Ok b <-> exists a, m = Ok a /\ f a = Ok b.
Proof. destruct m; cbn; split; naive_solver. Qed.

(** A step that succeeds, and a guard that does not fire. *)
Lemma bind_step {E A B} (m : result E A) (a : A) (f : A -> result E B) :
  m = Ok a -> (x ← m; f x) = f a.
Proof. by intros ->. Qed.

Lemma guard_pass {E B} b (e : E) (k : unit -> result E B) :
  b = false -> (u ← reject_if b e; k u) = k tt.
Proof. by intros ->. Qed.

Lemma reject_ok {E} b (e : E) u : reject_if b e = Ok u <-> b = false.
Proof. destruct b, u; cbn; naive_solver. Qed.

Lemma ok_or_ok {E A} (e : E) (o : option A) a : ok_or e o = Ok a <-> o = Some a.
Proof. destruct o; cbn; naive_solver. Qed.

Lemma map_err_ok {E F A} (f : E -> F) (m : result E A) a :
  map_err f m = Ok a <-> m = Ok a.
Proof. destruct m; cbn; naive_solver. Qed.

Lemma no_panic_ok {E A} (a : A) : no_panic (Ok a : result E A).
Proof. discriminate. Qed.

Lemma no_panic_err {E A} (e : E) : no_panic (Err e : result E A).
Proof. discriminate. Qed.

Lemma no_panic_ret {E A} (a : A) : no_panic (mret a : result E A).
Proof. discriminate. Qed.

Lemma no_panic_bind {E A B} (m : result E A) (f : A -> result E B) :
  no_panic m -> (forall a, m = Ok a -> no_panic (f a)) -> no_panic (x ← m; f x).
Proof. unfold no_panic. destruct m; cbn; naive_solver. Qed.

Lemma no_panic_guard {E B} b (e : E) (k : unit -> result E B) :
  (b = false -> no_panic (k tt)) -> no_panic (u ← reject_if b e; k u).
Proof. destruct b; cbn; [intros _; discriminate | naive_solver]. Qed.

Lemma no_panic_ok_or {E A} (e : E) (o : option A) : no_panic (ok_or e o).
Proof. destruct o; discriminate. Qed.

Lemma no_panic_map_err {E F A} (f : E -> F) (m : result E A) :
  no_panic m -> no_panic (map_err f m).
Proof. unfold no_panic. destruct m; cbn; congruence. Qed.

#[export] Hint Resolve no_panic_ok no_panic_err no_panic_ret no_panic_ok_or
  no_panic_map_err : rust.

(** Breaks a successful monadic computation into its steps. *)
Ltac inv_ok H :=
  lazymatch type of H with
  | (_ ← _; _) = Ok _ =>
      let a := fresh "x" in let Ha := fresh "Hstep" in
      apply bind_ok in H as (a & Ha & H); inv_ok Ha; inv_ok H
  | reject_if _ _ = Ok _ => apply reject_ok in H
  | ok_or _ _ = Ok _ => apply ok_or_ok in H
  | map_err _ _ = Ok _ => apply map_err_ok in H; inv_ok H
  | Ok _ = Ok _ => first [injection H as H; try subst | clear H]
  | mret _ = Ok _ => first [injection H as H; try subst | clear H]
  | Err _ = Ok _ => discriminate H
  | Panic = Ok _ => discriminate H
  | _ => idtac
  end.

(** ** Machine integers *)

Definition U8_MAX : Z := 255.
Definition U16_MAX : Z := 65535.
Definition U32_MAX : Z := 4294967295.
Definition U64_MAX : Z := 18446744073709551615.
Definition USIZE_MAX : Z := U64_MAX.

Definition u16_range (z : Z) : Prop := 0 <= z <= U16_MAX.
Definition u32_range (z : Z) : Prop := 0 <= z <= U32_MAX.
Definition u64_range (z : Z) : Prop := 0 <= z <= U64_MAX.

(** [a.checked_add(b)] at a width whose largest value is [m]. *)
Definition checked_add (m a b : Z) : option Z :=
  if a + b <=? m then Some (a + b) else None.
(** [a.checked_sub(b)] on an unsigned type. *)
Definition checked_sub (a b : Z) : option Z :=
  if b <=? a then Some (a - b) else None.
(** [a.saturating_sub(b)] on an unsigned type. *)
Definition saturating_sub (a b : Z) : Z := Z.max 0 (a - b).
(** [a.saturating_add(b)] and [a.saturating_mul(b)] on a u64. *)
Definition saturating_add_u64 (a b : Z) : Z := Z.min U64_MAX (a + b).
Definition saturating_mul_u64 (a b : Z) : Z := Z.min U64_MAX (a * b).
(** [a.wrapping_add(b)] at a width whose largest value is [m]. *)
Definition wrapping_add (m a b : Z) : Z := (a + b) mod (m + 1).
(** [fetch_add] and [fetch_sub] on an [AtomicU64] wrap around. *)
Definition fetch_add_u64 (a b : Z) : Z := (a + b) mod (U64_MAX + 1).
Definition fetch_sub_u64 (a b : Z) : Z := (a - b) mod (U64_MAX + 1).
(** [a.abs_diff(b)]. *)
Definition abs_diff (a b : Z) : Z := Z.abs (a - b).
(** [a.div_ceil(b)] for a positive [b]. *)
Definition div_ceil (a b : Z) : Z := (a + b - 1) / b.
(** [a.clamp(lo, hi)] for [lo <= hi]. *)
Definition clamp (lo hi a : Z) : Z := Z.max lo (Z.min hi a).
(** [T::try_from(z)] into an unsigned type whose largest value is [m]. *)
Definition try_from (m z : Z) : option Z :=
  if (0 <=? z) && (z <=? m) then Some z else None.

Lemma try_from_some m z r : try_from m z = Some r <-> r = z /\ 0 <= z <= m.
Proof. unfold try_from. destruct (Z.leb_spec 0 z), (Z.leb_spec z m); cbn; naive_solver lia. Qed.

Lemma checked_add_some m a b r : checked_add m a b = Some r <-> r = a + b /\ a + b <= m.
Proof. unfold checked_add. destruct (Z.leb_spec (a + b) m); naive_solver lia. Qed.

Lemma checked_sub_some a b r : checked_sub a b = Some r <-> r = a - b /\ b <= a.
Proof. unfold checked_sub. destruct (Z.leb_spec b a); naive_solver lia. Qed.

Lemma fetch_add_exact a b : 0 <= a + b <= U64_MAX -> fetch_add_u64 a b = a + b.
Proof. intros H. unfold fetch_add_u64. apply Z.mod_small. unfold U64_MAX in *. lia. Qed.

Lemma fetch_sub_exact a b : 0 <= a - b <= U64_MAX -> fetch_sub_u64 a b = a - b.
Proof. intros H. unfold fetch_sub_u64. apply Z.mod_small. unfold U64_MAX in *. lia. Qed.

(** ** Bytes and byte slices *)

#[export] Instance byte_eq_dec : EqDecision byte := Byte.byte_eq_dec.
#[export] Instance byte_inhabited : Inhabited byte := populate x00.

(** A byte as the number it is, and [z as u8] (truncation). *)
Definition u8 (b : byte) : Z := Z.of_N (Byte.to_N b).
Definition as_u8 (z : Z) : byte :=
  match Byte.of_N (Z.to_N (z mod 256)) with Some b => b | None => x00 end.

Lemma u8_range b : 0 <= u8 b < 256.
Proof. unfold u8. pose proof (Byte.to_N_bounded b). lia. Qed.

Lemma u8_as_u8 z : u8 (as_u8 z) = z mod 256.
Proof.
  unfold u8, as_u8. pose proof (Z.mod_pos_bound z 256 ltac:(lia)) as Hb.
  destruct (Byte.of_N (Z.to_N (z mod 256))) as [b|] eqn:Hof.
  - apply Byte.to_of_N in Hof. rewrite Hof. lia.
  - apply Byte.of_N_None_iff in Hof. lia.
Qed.

Lemma as_u8_u8 b : as_u8 (u8 b) = b.
Proof.
  unfold u8, as_u8. pose proof (u8_range b) as Hb. unfold u8 in Hb.
  rewrite Z.mod_small, N2Z.id, Byte.of_to_N by lia. done.
Qed.

Lemma u8_inj b c : u8 b = u8 c -> b = c.
Proof. intros H. rewrite <- (as_u8_u8 b), <- (as_u8_u8 c). by rewrite H. Qed.

(** The length of a slice as a [usize]. *)
Definition len {A} (l : list A) : Z := Z.of_nat (length l).

Lemma len_nonneg {A} (l : list A) : 0 <= len l.
Proof. unfold len; lia. Qed.
Lemma len_nil {A} : len ([] : list A) = 0.
Proof. done. Qed.
Lemma len_cons {A} (x : A) l : len (x :: l) = 1 + len l.
Proof. unfold len; cbn [length]; lia. Qed.
Lemma len_app {A} (k l : list A) : len (k ++ l) = len k + len l.
Proof. unfold len. rewrite length_app. lia. Qed.
Lemma len_replicate {A} n (x : A) : len (replicate n x) = Z.of_nat n.
Proof. unfold len. by rewrite length_replicate. Qed.
Lemma len_take {A} n (l : list A) : len (take n l) = Z.min (Z.of_nat n) (len l).
Proof. unfold len. rewrite length_take. lia. Qed.
Lemma len_drop {A} n (l : list A) : len (drop n l) = Z.max 0 (len l - Z.of_nat n).
Proof. unfold len. rewrite length_drop. lia. Qed.

#[export] Hint Rewrite @len_nil @len_cons @len_app @len_replicate @len_take @len_drop : lens.

(** Solves linear goals about slice lengths. *)
Ltac slen := autorewrite with lens in *; repeat match goal with
  | |- context [len ?l] => lazymatch goal with
       | _ : 0 <= len l |- _ => fail | _ => pose proof (len_nonneg l) end
  | _ : context [len ?l] |- _ => lazymatch goal with
       | _ : 0 <= len l |- _ => fail | _ => pose proof (len_nonneg l) end
  end; lia.

(** [l.get(i..j)]. *)
Definition get_range {A} (l : list A) (i j : Z) : option (list A) :=
  if (0 <=? i) && (i <=? j) && (j <=? len l)
  then Some (take (Z.to_nat (j - i)) (drop (Z.to_nat i) l)) else None.
(** [&l[i..j]], [&l[i..]], [l[i]]: out of range is a panic. *)
Definition slice {E A} (l : list A) (i j : Z) : result E (list A) :=
  match get_range l i j with Some s => Ok s | None => Panic end.
Definition slice_from {E A} (l : list A) (i : Z) : result E (list A) :=
  slice l i (len l).
Definition index {E A} (l : list A) (i : Z) : result E A :=
  if 0 <=? i then match l !! Z.to_nat i with Some a => Ok a | None => Panic end else Panic.

Lemma get_range_some {A} (l : list A) i j :
  0 <= i -> i <= j -> j <= len l ->
  get_range l i j = Some (take (Z.to_nat (j - i)) (drop (Z.to_nat i) l)).
Proof.
  intros. unfold get_range.
  rewrite (proj2 (Z.leb_le 0 i)), (proj2 (Z.leb_le i j)), (proj2 (Z.leb_le j (len l))) by lia.
  done.
Qed.

Lemma get_range_none {A} (l : list A) i j :
  ~ (0 <= i /\ i <= j /\ j <= len l) -> get_range l i j = None.
Proof.
  intros H. unfold get_range.
  destruct (Z.leb_spec 0 i), (Z.leb_spec i j), (Z.leb_spec j (len l)); cbn; naive_solver lia.
Qed.

Lemma get_range_inv {A} (l : list A) i j s :
  get_range l i j = Some s ->
  0 <= i /\ i <= j /\ j <= len l /\ len s = j - i /\
  l = take (Z.to_nat i) l ++ s ++ drop (Z.to_nat j) l.
Proof.
  unfold get_range.
  destruct (Z.leb_spec 0 i), (Z.leb_spec i j), (Z.leb_spec j (len l)); cbn; try discriminate.
  intros [= <-]. split_and!; try lia.
  - autorewrite with lens. lia.
  - replace (Z.to_nat j) with (Z.to_nat i + Z.to_nat (j - i))%nat by lia.
    rewrite <- drop_drop, take_drop, take_drop. done.
Qed.

Lemma get_range_app_l {A} (k l : list A) i j :
  j <= len k -> get_range (k ++ l) i j = get_range k i j.
Proof.
  intros Hj. destruct (decide (0 <= i /\ i <= j)) as [[H1 H2]|Hn].
  - rewrite !get_range_some by slen. f_equal. unfold len in Hj.
    rewrite drop_app_le by lia. rewrite take_app_le; [done|]. rewrite length_drop. lia.
  - rewrite !get_range_none by naive_solver. done.
Qed.

Lemma get_range_app_r {A} (k l : list A) i j :
  len k <= i -> get_range (k ++ l) i j = get_range l (i - len k) (j - len k).
Proof.
  intros Hi. pose proof (len_nonneg k).
  destruct (decide (i <= j /\ j <= len k + len l)) as [[H1 H2]|Hn].
  - rewrite !get_range_some by slen. f_equal. unfold len in *.
    rewrite drop_app_ge by lia. do 2 f_equal; lia.
  - rewrite !get_range_none; [done| slen | slen].
Qed.

Lemma get_range_all {A} (l : list A) j : j = len l -> get_range l 0 j = Some l.
Proof.
  intros ->. rewrite get_range_some by slen. f_equal.
  rewrite Z.sub_0_r. unfold len. rewrite Nat2Z.id. cbn. apply take_ge. lia.
Qed.

Lemma get_range_prefix {A} (k l : list A) j :
  j = len k -> get_range (k ++ l) 0 j = Some k.
Proof. intros ->. rewrite get_range_app_l by lia. by apply get_range_all. Qed.

Lemma slice_ok {E A} (l : list A) i j s :
  (slice l i j : result E _) = Ok s <-> get_range l i j = Some s.
Proof. unfold slice. destruct (get_range l i j); naive_solver. Qed.

Lemma slice_mid {E A} (k o rest : list A) i j :
  i = len k -> j = i + len o -> (slice (k ++ o ++ rest) i j : result E _) = Ok o.
Proof.
  intros -> ->. apply slice_ok. rewrite get_range_app_r by lia. rewrite Z.sub_diag.
  apply get_range_prefix. lia.
Qed.

Lemma slice_tail {E A} (k t s : list A) i j :
  i = len k -> (slice (k ++ t) i j : result E _) = Ok s -> exists r, t = s ++ r /\ len s = j - i.
Proof.
  intros -> H. apply slice_ok in H. rewrite get_range_app_r in H by lia.
  apply get_range_inv in H as (H1 & H2 & H3 & H4 & H5). rewrite Z.sub_diag in H5. cbn in H5.
  eexists. split; [exact H5|lia].
Qed.

Lemma slice_from_app {E A} (k t : list A) i : i = len k -> (slice_from (k ++ t) i : result E _) = Ok t.
Proof.
  intros ->. unfold slice_from. rewrite len_app. rewrite <- (app_nil_r t) at 1. by apply slice_mid.
Qed.

Lemma slice_no_panic {E A} (l : list A) i j :
  0 <= i -> i <= j -> j <= len l -> no_panic (slice l i j : result E _).
Proof. intros. unfold slice. rewrite get_range_some by done. discriminate. Qed.

Lemma slice_from_no_panic {E A} (l : list A) i :
  0 <= i -> i <= len l -> no_panic (slice_from l i : result E _).
Proof. intros. by apply slice_no_panic. Qed.

Lemma index_no_panic {E A} (l : list A) i :
  0 <= i -> i < len l -> no_panic (index l i : result E _).
Proof.
  intros H1 H2. unfold index. rewrite (proj2 (Z.leb_le 0 i)) by done.
  unfold len in H2. destruct (lookup_lt_is_Some_2 l (Z.to_nat i)) as [x ->]; [lia|].
  discriminate.
Qed.

Lemma index_ok {E A} (l : list A) i a :
  (index l i : result E _) = Ok a <-> 0 <= i /\ l !! Z.to_nat i = Some a.
Proof.
  unfold index. destruct (Z.leb_spec 0 i); [|naive_solver lia].
  destruct (l !! Z.to_nat i); naive_solver.
Qed.

Lemma index_app_l {E A} (k l : list A) i :
  i < len k -> (index (k ++ l) i : result E _) = index k i.
Proof.
  intros H. unfold index. destruct (Z.leb_spec 0 i); [|done].
  unfold len in H. rewrite lookup_app_l by lia. done.
Qed.

Lemma index_app_r {E A} (k l : list A) i :
  len k <= i -> (index (k ++ l) i : result E _) = index l (i - len k).
Proof.
  intros H. unfold index. pose proof (len_nonneg k).
  rewrite (proj2 (Z.leb_le 0 i)), (proj2 (Z.leb_le 0 (i - len k))) by lia.
  unfold len in *. rewrite lookup_app_r by lia.
  replace (Z.to_nat (i - Z.of_nat (length k))) with (Z.to_nat i - length k)%nat by lia. done.
Qed.

Lemma index_cons_0 {E A} (x : A) l : (index (x :: l) 0 : result E _) = Ok x.
Proof. done. Qed.

Lemma index_cons_S {E A} (x : A) l i :
  0 < i -> (index (x :: l) i : result E _) = index l (i - 1).
Proof. intros. change (x :: l) with ([x] ++ l). rewrite index_app_r by slen. done. Qed.

(** ** Big-endian integers: [to_be_bytes] and [from_be_bytes] *)

Fixpoint to_be (n : nat) (z : Z) : list byte :=
  match n with
  | O => []
  | S n => to_be n (z / 256) ++ [as_u8 z]
  end.

Definition from_be (l : list byte) : Z :=
  foldl (fun acc b => acc * 256 + u8 b) 0 l.

Lemma length_to_be n z : length (to_be n z) = n.
Proof. revert z; induction n; intros; cbn; rewrite ?length_app, ?IHn; cbn; lia. Qed.

Lemma len_to_be n z : len (to_be n z) = Z.of_nat n.
Proof. unfold len. by rewrite length_to_be. Qed.

#[export] Hint Rewrite len_to_be : lens.

Lemma from_be_snoc l b : from_be (l ++ [b]) = from_be l * 256 + u8 b.
Proof. unfold from_be. by rewrite foldl_app. Qed.

Lemma from_be_range l : 0 <= from_be l < 256 ^ len l.
Proof.
  induction l as [|b l IH] using rev_ind; [done|].
  rewrite from_be_snoc, len_app. pose proof (u8_range b).
  change (len [b]) with 1. rewrite Z.pow_add_r, Z.pow_1_r by slen. lia.
Qed.

Lemma from_be_range_n l n : len l = Z.of_nat n -> 0 <= from_be l < 256 ^ Z.of_nat n.
Proof. intros <-. apply from_be_range. Qed.

Lemma from_be_to_be n z : 0 <= z < 256 ^ Z.of_nat n -> from_be (to_be n z) = z.
Proof.
  revert z; induction n as [|n IH]; intros z Hz; [cbn in *; lia|].
  cbn [to_be]. rewrite from_be_snoc, u8_as_u8, IH.
  - pose proof (Z.div_mod z 256). lia.
  - rewrite Nat2Z.inj_succ, Z.pow_succ_r in Hz by lia.
    split; [apply Z.div_pos; lia | apply Z.div_lt_upper_bound; lia].
Qed.

Lemma to_be_from_be l n : length l = n -> to_be n (from_be l) = l.
Proof.
  revert n; induction l as [|b l IH] using rev_ind; intros n <-; [done|].
  rewrite length_app, Nat.add_comm. cbn [length Nat.add to_be].
  rewrite from_be_snoc. pose proof (u8_range b). f_equal.
  - rewrite Z.div_add_l, Z.div_small, Z.add_0_r by lia. by apply IH.
  - f_equal. rewrite <- (as_u8_u8 b) at 2. apply u8_inj. rewrite !u8_as_u8.
    rewrite Z.add_comm, Z_mod_plus_full. done.
Qed.

Lemma to_be_inj n a b :
  0 <= a < 256 ^ Z.of_nat n -> 0 <= b < 256 ^ Z.of_nat n -> to_be n a = to_be n b -> a = b.
Proof. intros Ha Hb H. rewrite <- (from_be_to_be n a), <- (from_be_to_be n b), H by done. done. Qed.

Lemma u8_as_u8_small z : 0 <= z <= U8_MAX -> u8 (as_u8 z) = z.
Proof. unfold U8_MAX. intros. rewrite u8_as_u8, Z.mod_small by lia. done. Qed.

Lemma from_be_u16 z : u16_range z -> from_be (to_be 2 z) = z.
Proof. unfold u16_range, U16_MAX. intros. apply from_be_to_be. cbn; lia. Qed.
Lemma from_be_u32 z : u32_range z -> from_be (to_be 4 z) = z.
Proof. unfold u32_range, U32_MAX. intros. apply from_be_to_be. cbn; lia. Qed.
Lemma from_be_u64 z : u64_range z -> from_be (to_be 8 z) = z.
Proof. unfold u64_range, U64_MAX. intros. apply from_be_to_be. cbn; lia. Qed.

Lemma from_be_u16_range l : len l = 2 -> u16_range (from_be l).
Proof. intros H. pose proof (from_be_range_n l 2 H). unfold u16_range, U16_MAX. cbn in *; lia. Qed.
Lemma from_be_u32_range l : len l = 4 -> u32_range (from_be l).
Proof. intros H. pose proof (from_be_range_n l 4 H). unfold u32_range, U32_MAX. cbn in *; lia. Qed.
Lemma from_be_u64_range l : len l = 8 -> u64_range (from_be l).
Proof. intros H. pose proof (from_be_range_n l 8 H). unfold u64_range, U64_MAX. cbn in *; lia. Qed.

(** A two-byte read is the [u16] it encodes, wherever it was sliced from. *)
Lemma from_be_two a b : from_be [a; b] = u8 a * 256 + u8 b.
Proof. done. Qed.

(** ** Text: ASCII tests and UTF-8 validity ([str::from_utf8]) *)

(** The bytes of a Rust string literal. *)
Definition bytes_of (s : string) : list byte := String.list_byte_of_string s.

Definition is_ascii_byte (b : byte) : bool := u8 b <? 128.
Definition is_ascii (l : list byte) : bool := forallb is_ascii_byte l.

Definition in_rangeb (lo hi : Z) (b : byte) : bool := (lo <=? u8 b) && (u8 b <=? hi).

Definition is_ascii_digit (b : byte) : bool := in_rangeb 48 57 b.
Definition is_ascii_uppercase (b : byte) : bool := in_rangeb 65 90 b.
Definition is_ascii_lowercase (b : byte) : bool := in_rangeb 97 122 b.
Definition is_ascii_alphanumeric (b : byte) : bool :=
  is_ascii_digit b || is_ascii_uppercase b || is_ascii_lowercase b.
Definition to_ascii_lowercase_byte (b : byte) : byte :=
  if is_ascii_uppercase b then as_u8 (u8 b + 32) else b.
Definition to_ascii_lowercase (l : list byte) : list byte := map to_ascii_lowercase_byte l.

(** Well-formed UTF-8: the byte ranges of the Unicode standard, table 3-7. *)
Fixpoint from_utf8 (l : list byte) : bool :=
  match l with
  | [] => true
  | b0 :: t0 =>
    if u8 b0 <? 128 then from_utf8 t0
    else if in_rangeb 194 223 b0 then
      match t0 with b1 :: t1 => in_rangeb 128 191 b1 && from_utf8 t1 | _ => false end
    else if in_rangeb 224 239 b0 then
      match t0 with
      | b1 :: b2 :: t2 =>
        in_rangeb (if u8 b0 =? 224 then 160 else 128) (if u8 b0 =? 237 then 159 else 191) b1
        && in_rangeb 128 191 b2 && from_utf8 t2
      | _ => false end
    else if in_rangeb 240 244 b0 then
      match t0 with
      | b1 :: b2 :: b3 :: t3 =>
        in_rangeb (if u8 b0 =? 240 then 144 else 128) (if u8 b0 =? 244 then 143 else 191) b1
        && in_rangeb 128 191 b2 && in_rangeb 128 191 b3 && from_utf8 t3
      | _ => false end
    else false
  end.

Lemma ascii_from_utf8 l : is_ascii l = true -> from_utf8 l = true.
Proof.
  unfold is_ascii, is_ascii_byte. induction l as [|b l IH]; [done|]. cbn.
  intros [-> H]%andb_true_iff. by apply IH.
Qed.

(** Byte-string equality, [==] on slices. *)
Definition bytes_eqb (a b : list byte) : bool := bool_decide (a = b).

Lemma bytes_eqb_eq a b : bytes_eqb a b = true <-> a = b.
Proof. apply bool_decide_eq_true. Qed.

Lemma bytes_eqb_refl a : bytes_eqb a a = true.
Proof. by apply bytes_eqb_eq. Qed.

(** [l.starts_with(k)], [l.ends_with(k)]. *)
Definition starts_with (l k : list byte) : bool := bytes_eqb (take (length k) l) k.
Definition ends_with (l k : list byte) : bool :=
  (len k <=? len l) && bytes_eqb (drop (length l - length k) l) k.

(** ** Sums over a list *)

Definition zsum {A} (f : A -> Z) (l : list A) : Z := foldr (fun x acc => f x + acc) 0 l.

Lemma zsum_app {A} (f : A -> Z) k l : zsum f (k ++ l) = zsum f k + zsum f l.
Proof. unfold zsum. induction k; cbn; lia. Qed.

Lemma zsum_insert {A} (f : A -> Z) l i x y :
  l !! i = Some x -> zsum f (<[i := y]> l) = zsum f l - f x + f y.
Proof.
  intros Hi. rewrite <- (take_drop_middle l i x Hi) at 2.
  rewrite insert_take_drop by (by eapply lookup_lt_Some).
  rewrite !zsum_app. unfold zsum. cbn. lia.
Qed.

Lemma zsum_zero {A} (f : A -> Z) l : (forall x, x ∈ l -> f x = 0) -> zsum f l = 0.
Proof.
  unfold zsum. induction l as [|x l IH]; intros H; cbn; [done|].
  rewrite (H x) by (by left). rewrite IH; [done|]. intros y Hy. apply H. by right.
Qed.

Lemma zsum_le {A} (f g : A -> Z) l : (forall x, f x <= g x) -> zsum f l <= zsum g l.
Proof. intros H. unfold zsum. induction l as [|x l IH]; cbn; [lia|]. pose proof (H x). lia. Qed.

Lemma zsum_plus {A} (f g : A -> Z) l : zsum (fun x => f x + g x) l = zsum f l + zsum g l.
Proof. unfold zsum. induction l as [|x l IH]; cbn; lia. Qed.

Lemma zsum_member {A} (f : A -> Z) l i x : (forall y, 0 <= f y) -> l !! i = Some x -> f x <= zsum f l.
Proof.
  intros Hf. revert i. induction l as [|y l IH]; intros [|i]; cbn; try done.
  - intros [= ->]. fold (zsum f l). assert (0 <= zsum f l); [|lia].
    clear IH. unfold zsum. induction l as [|z l IHl]; cbn; [lia|]. pose proof (Hf z). lia.
  - intros Hi%IH. fold (zsum f l). pose proof (Hf y). lia.
Qed.

Lemma zsum_pos {A} (f : A -> Z) l : 0 < zsum f l -> exists i x, l !! i = Some x /\ 0 < f x.
Proof.
  induction l as [|y l IH]; [unfold zsum; cbn; lia|]. change (zsum f (y :: l)) with (f y + zsum f l). intros H.
  destruct (Z_lt_le_dec 0 (f y)) as [Hy|Hy]; [by exists O, y|]. destruct IH as (i & x & Hi & Hx); [lia|]. by exists (S i), x.
Qed.

Lemma zsum_nonneg {A} (f : A -> Z) l : (forall x, x ∈ l -> 0 <= f x) -> 0 <= zsum f l.
Proof.
  unfold zsum. induction l as [|x l IH]; intros H; cbn; [lia|].
  pose proof (H x ltac:(left)). assert (0 <= foldr (fun x acc => f x + acc) 0 l); [|lia].
  apply IH. intros y Hy. apply H. by right.
Qed.
