(* ===== verification/Effects.v ===== *)
(** * Effectful operations

    The monad of the asynchronous relay loops: unlike the parsers' monad it
    keeps the state on an error, because what a failed loop already wrote to a
    socket stays written. Programs are verified by triples with a
    postcondition for success and one for errors; a panic satisfies neither. *)

From S2P Require Import Prelude.

Definition IO (S E A : Type) : Type := S -> result E A * S.

#[export] Instance IO_ret S E : MRet (IO S E) := fun A a s => (Ok a, s).
#[export] Instance IO_bind S E : MBind (IO S E) :=
  fun A B f m s =>
    match m s with
    | (Ok a, s) => f a s
    | (Err e, s) => (Err e, s)
    | (Panic, s) => (Panic, s)
    end.

Definition io_get {S E} : IO S E S := fun s => (Ok s, s).
(** A computation that starts by reading the state. *)
Definition io_reads {S E A} (f : S -> IO S E A) : IO S E A := io_get ≫= f.
Definition io_put {S E} (s : S) : IO S E unit := fun _ => (Ok tt, s).
Definition io_throw {S E A} (e : E) : IO S E A := fun s => (Err e, s).
(** [operation?] where the operation is the environment's and reports success. *)
Definition io_check {S E} (ok : bool) (e : E) : IO S E unit :=
  if ok then mret tt else io_throw e.

Lemma io_bind_ok {S E A B} (m : IO S E A) (f : A -> IO S E B) s a s' : m s = (Ok a, s') -> (m ≫= f) s = f a s'.
Proof. intros H. unfold mbind, IO_bind. by rewrite H. Qed.
Lemma io_bind_err {S E A B} (m : IO S E A) (f : A -> IO S E B) s e s' : m s = (Err e, s') -> (m ≫= f) s = (Err e, s').
Proof. intros H. unfold mbind, IO_bind. by rewrite H. Qed.
Lemma io_get_bind {S E B} (f : S -> IO S E B) s : (io_get ≫= f) s = f s s.
Proof. done. Qed.

Section Triples.
Context {S E : Type}.

Definition triple {A} (P : S -> Prop) (m : IO S E A) (Q : A -> S -> Prop) (X : S -> Prop) : Prop :=
  forall s, P s ->
    match m s with
    | (Ok a, s') => Q a s'
    | (Err _, s') => X s'
    | (Panic, _) => False
    end.

Lemma triple_ret {A} (a : A) (P : S -> Prop) (Q : A -> S -> Prop) X :
  (forall s, P s -> Q a s) -> triple P (mret a) Q X.
Proof. intros H s Hs. by apply H. Qed.

Lemma triple_throw {A} (e : E) (P : S -> Prop) (Q : A -> S -> Prop) (X : S -> Prop) :
  (forall s, P s -> X s) -> triple P (io_throw e) Q X.
Proof. intros H s Hs. by apply H. Qed.

Lemma triple_bind {A B} (m : IO S E A) (f : A -> IO S E B) P R Q X :
  triple P m R X -> (forall a, triple (R a) (f a) Q X) -> triple P (m ≫= f) Q X.
Proof.
  intros Hm Hf s Hs. specialize (Hm s Hs). unfold mbind, IO_bind.
  destruct (m s) as [[a|e|] s']; [by apply Hf | done | done].
Qed.

Lemma triple_get_bind {B} (f : S -> IO S E B) (P : S -> Prop) Q X :
  (forall s, P s -> triple (fun s' => s' = s) (f s) Q X) -> triple P (io_get ≫= f) Q X.
Proof. intros Hf s Hs. unfold mbind, IO_bind, io_get. by apply (Hf s Hs). Qed.

Lemma triple_consequence {A} (m : IO S E A) (P P' : S -> Prop) (Q Q' : A -> S -> Prop) (X X' : S -> Prop) :
  triple P' m Q' X' -> (forall s, P s -> P' s) -> (forall a s, Q' a s -> Q a s) ->
  (forall s, X' s -> X s) -> triple P m Q X.
Proof.
  intros H HP HQ HX s Hs. specialize (H s (HP s Hs)).
  destruct (m s) as [[a|e|] s']; [by apply HQ | by apply HX | done].
Qed.

Lemma triple_check (ok : bool) (e : E) (P : S -> Prop) (Q : unit -> S -> Prop) (X : S -> Prop) :
  (forall s, ok = true -> P s -> Q tt s) -> (forall s, P s -> X s) -> triple P (io_check ok e) Q X.
Proof.
  intros HQ HX. unfold io_check. destruct ok;
    [apply triple_ret; intros s; by apply HQ | by apply triple_throw].
Qed.
End Triples.

(** ** Triples that also name the error *)

Section ErrorTriples.
Context {S E : Type}.

Definition etriple {A} (P : S -> Prop) (m : IO S E A) (Q : A -> S -> Prop) (X : E -> S -> Prop) : Prop :=
  forall s, P s ->
    match m s with
    | (Ok a, s') => Q a s'
    | (Err e, s') => X e s'
    | (Panic, _) => False
    end.

Lemma etriple_ret {A} (a : A) (P : S -> Prop) (Q : A -> S -> Prop) X :
  (forall s, P s -> Q a s) -> etriple P (mret a) Q X.
Proof. intros H s Hs. by apply H. Qed.

Lemma etriple_throw {A} (e : E) (P : S -> Prop) (Q : A -> S -> Prop) (X : E -> S -> Prop) :
  (forall s, P s -> X e s) -> etriple P (io_throw e) Q X.
Proof. intros H s Hs. by apply H. Qed.

Lemma etriple_bind {A B} (m : IO S E A) (f : A -> IO S E B) P R Q X :
  etriple P m R X -> (forall a, etriple (R a) (f a) Q X) -> etriple P (m ≫= f) Q X.
Proof.
  intros Hm Hf s Hs. specialize (Hm s Hs). unfold mbind, IO_bind.
  destruct (m s) as [[a|e|] s']; [by apply Hf | done | done].
Qed.

(** The program reads the state first. *)
Lemma etriple_get_bind {B} (f : S -> IO S E B) (P : S -> Prop) Q X :
  (forall s, P s -> etriple (fun s' => s' = s) (f s) Q X) -> etriple P (io_get ≫= f) Q X.
Proof. intros Hf s Hs. unfold mbind, IO_bind, io_get. by apply (Hf s Hs). Qed.

Lemma etriple_consequence {A} (m : IO S E A) (P P' : S -> Prop) (Q Q' : A -> S -> Prop) (X X' : E -> S -> Prop) :
  etriple P' m Q' X' -> (forall s, P s -> P' s) -> (forall a s, Q' a s -> Q a s) ->
  (forall e s, X' e s -> X e s) -> etriple P m Q X.
Proof.
  intros H HP HQ HX s Hs. specialize (H s (HP s Hs)).
  destruct (m s) as [[a|e|] s']; [by apply HQ | by apply HX | done].
Qed.

(** An operation of the environment that succeeded. *)
Lemma etriple_check_bind {B} (ok : bool) (e : E) (f : unit -> IO S E B) P Q X :
  ok = true -> etriple P (f tt) Q X -> etriple P (io_check ok e ≫= f) Q X.
Proof. by intros ->. Qed.
End ErrorTriples.
