(* ===== verification/SortedTable.v ===== *)
(** * Sorting by a key and searching a sorted slice

    [sort_unstable_by_key] and [binary_search_by_key] of the Rust standard
    library, over an integer key; shared by the short-identifier index and the
    user map. *)

From stdpp Require Import gmap sorting.
From S2P Require Import Prelude.
#[local] Open Scope Z_scope.

Section Table.
Context {A : Type} (key : A -> Z).

(** The halving loop. Every iteration shrinks [size], so [size] itself is enough
    fuel. *)
Fixpoint search_loop {E} (fuel : nat) (l : list A) (k : Z) (base size : nat) : result E nat :=
  if (size <=? 1)%nat then Ok base
  else match fuel with
  | O => Panic
  | S fuel =>
    let half := (size / 2)%nat in
    let mid := (base + half)%nat in
    match l !! mid with
    | None => Panic
    | Some b => search_loop fuel l k (if k <? key b then base else mid) (size - half)
    end
  end.

Definition binary_search {E} (l : list A) (k : Z) : result E (option nat) :=
  if (length l =? 0)%nat then Ok None
  else
    base ← search_loop (length l) l k 0 (length l);
    match l !! base with
    | None => Panic
    | Some b => Ok (if key b =? k then Some base else None)
    end.

(** Where equal keys may occur, the order among them is not specified by the
    source; its callers refuse or merge them. *)
Fixpoint insert_by_key (b : A) (l : list A) : list A :=
  match l with
  | [] => [b]
  | c :: l => if key b <=? key c then b :: c :: l else c :: insert_by_key b l
  end.

Definition sort_by_key (l : list A) : list A := foldr insert_by_key [] l.

(** ** Searching *)

Definition strictly_sorted (l : list A) : Prop :=
  forall i j a b, (i < j)%nat -> l !! i = Some a -> l !! j = Some b -> key a < key b.

Lemma strictly_sorted_tail b l : strictly_sorted (b :: l) -> strictly_sorted l.
Proof. intros H i j x y Hij. apply (H (S i) (S j)). lia. Qed.

(** The halving loop ends inside its window, at the key when it is there. *)
Lemma search_loop_spec {E} l k : strictly_sorted l -> forall fuel base size,
  (size <= fuel)%nat -> (0 < size)%nat -> (base + size <= length l)%nat ->
  exists r, search_loop (E := E) fuel l k base size = Ok r /\ (base <= r < base + size)%nat /\
    forall i b, l !! i = Some b -> key b = k -> (base <= i < base + size)%nat -> i = r.
Proof.
  intros Hs. induction fuel as [|fuel IH]; intros base size Hf Hp Hl; [lia|]. cbn [search_loop].
  destruct (Nat.leb_spec size 1) as [H1|H1]; [exists base; split_and!; try lia; done || (intros; lia)|].
  assert (Hh : (0 < size / 2 < size)%nat) by (split; [apply Nat.div_str_pos; lia|apply Nat.div_lt; lia]).
  assert (Hhalf : (size / 2 <= size - size / 2)%nat) by (pose proof (Nat.div_mod_eq size 2); lia).
  destruct (lookup_lt_is_Some_2 l (base + size / 2)) as [m Hm]; [lia|]. rewrite Hm.
  destruct (Z.ltb_spec k (key m)) as [Hk|Hk].
  - destruct (IH base (size - size / 2)%nat) as (r & Hr & Hb & Hi); [lia..|]. exists r. split_and!; [done|lia|lia|].
    intros i b Hlk Heq Hin. apply (Hi i b); [done|done|]. split; [lia|].
    destruct (decide (i < base + size / 2)%nat); [lia|]. exfalso.
    assert (key m <= key b); [|lia]. destruct (decide (i = base + size / 2)%nat) as [->|]; [naive_solver lia|].
    pose proof (Hs (base + size / 2)%nat i m b ltac:(lia) Hm Hlk). lia.
  - destruct (IH (base + size / 2)%nat (size - size / 2)%nat) as (r & Hr & Hb & Hi); [lia..|]. exists r. split_and!; [done|lia|lia|].
    intros i b Hlk Heq Hin. apply (Hi i b); [done|done|]. split; [|lia].
    destruct (decide (base + size / 2 <= i)%nat); [lia|]. exfalso.
    pose proof (Hs i (base + size / 2)%nat b m ltac:(lia) Hlk Hm). lia.
Qed.

Lemma binary_search_spec {E} l k : strictly_sorted l ->
  exists o, binary_search (E := E) l k = Ok o /\
    match o with
    | Some i => exists b, l !! i = Some b /\ key b = k
    | None => forall i b, l !! i = Some b -> key b <> k
    end.
Proof.
  intros Hs. unfold binary_search. destruct (Nat.eqb_spec (length l) 0) as [H0|H0].
  { exists None. split; [done|]. apply length_zero_iff_nil in H0 as ->. done. }
  destruct (search_loop_spec (E := E) l k Hs (length l) 0 (length l)) as (r & Hr & Hb & Hi); [lia..|]. rewrite Hr. cbn.
  destruct (lookup_lt_is_Some_2 l r) as [b Hbk]; [lia|]. rewrite Hbk.
  destruct (Z.eqb_spec (key b) k) as [He|He]; eexists; (split; [done|]); [by exists b|].
  intros i b' Hi' He'. assert (i = r) as -> by (apply (Hi i b'); [done..|apply lookup_lt_Some in Hi'; lia]). congruence.
Qed.

(** ** Sorting *)

Lemma insert_by_key_perm b l : insert_by_key b l ≡ₚ b :: l.
Proof.
  induction l as [|c l IH]; [done|]. cbn. destruct (_ <=? _); [done|]. rewrite IH. apply Permutation_swap.
Qed.

Lemma sort_by_key_perm l : sort_by_key l ≡ₚ l.
Proof. induction l as [|b l IH]; [done|]. cbn. rewrite insert_by_key_perm. by constructor. Qed.

Definition weakly_sorted : list A -> Prop := StronglySorted (fun a b => key a <= key b).

Lemma insert_by_key_sorted b l : weakly_sorted l -> weakly_sorted (insert_by_key b l).
Proof.
  induction 1 as [|c l Hl IH Hc]; cbn; [repeat constructor|]. destruct (Z.leb_spec (key b) (key c)) as [H|H].
  - constructor; [by constructor|]. constructor; [done|]. eapply Forall_impl; [exact Hc|]. cbn. lia.
  - constructor; [done|]. rewrite insert_by_key_perm. constructor; [lia|done].
Qed.

Lemma sort_by_key_sorted l : weakly_sorted (sort_by_key l).
Proof. induction l as [|b l IH]; [constructor|]. by apply insert_by_key_sorted. Qed.

(** Sorted entries with distinct keys are strictly sorted. *)
Lemma sorted_distinct l : weakly_sorted l -> NoDup (key <$> l) -> strictly_sorted l.
Proof.
  intros Hw. induction Hw as [|a l Hl IH Ha]; intros Hd; [intros i j x y _ H; by destruct i|].
  cbn in Hd. apply NoDup_cons in Hd as [Hn Hd]. specialize (IH Hd). intros [|i] [|j] x y Hij Hx Hy; try lia; [|by apply (IH i j x y); [lia|..]].
  cbn in Hx, Hy. injection Hx as <-. assert (Hin : y ∈ l) by (by eapply list_elem_of_lookup_2).
  assert (key a <= key y) by (by apply (proj1 (Forall_forall _ _) Ha)).
  destruct (decide (key a = key y)) as [E|]; [|lia]. destruct Hn. rewrite E. by apply list_elem_of_fmap_2.
Qed.

(** ** Removing duplicates *)

(** [dedup_by_key]: the first of each run of equal keys stays. *)
Fixpoint dedup_after (k : Z) (l : list A) : list A :=
  match l with
  | [] => []
  | a :: l => if key a =? k then dedup_after k l else a :: dedup_after (key a) l
  end.

Definition dedup_by_key (l : list A) : list A := match l with [] => [] | a :: l => a :: dedup_after (key a) l end.

Lemma dedup_after_sub k l x : x ∈ dedup_after k l -> x ∈ l.
Proof.
  revert k. induction l as [|a l IH]; intros k; [done|]. cbn. destruct (_ =? _); [intros H; right; by apply IH in H|].
  intros [->|H]%elem_of_cons; [left|right; by apply IH in H].
Qed.

Lemma dedup_after_repr l x : forall k, x ∈ l -> key x = k \/ exists y, y ∈ dedup_after k l /\ key y = key x.
Proof.
  induction l as [|a l IH]; intros k Hx; [by apply elem_of_nil in Hx|]. cbn. destruct (Z.eqb_spec (key a) k) as [Ha|Ha].
  - apply elem_of_cons in Hx as [->|Hx]; [by left|by apply IH].
  - right. apply elem_of_cons in Hx as [->|Hx]; [exists a; split; [left|done]|].
    destruct (IH (key a) Hx) as [H|(y & Hy & H)]; [exists a; split; [left|done]|exists y; split; [by right|done]].
Qed.

Lemma dedup_after_sorted l : forall k, weakly_sorted l -> Forall (fun x => k <= key x) l ->
  StronglySorted (fun a b => key a < key b) (dedup_after k l) /\ Forall (fun x => k < key x) (dedup_after k l).
Proof.
  induction l as [|a l IH]; intros k Hs Hk; [split; constructor|]. inversion Hs as [|? ? Hs' Ha]; subst. apply Forall_cons in Hk as [Hka Hk]. cbn.
  destruct (Z.eqb_spec (key a) k) as [E|E]; [by apply IH|]. destruct (IH (key a) Hs' Ha) as [H1 H2].
  split; [by constructor|]. constructor; [lia|]. eapply Forall_impl; [exact H2|]. cbn. lia.
Qed.

Lemma strongly_strict l : StronglySorted (fun a b => key a < key b) l -> strictly_sorted l.
Proof.
  induction 1 as [|a l Hl IH Ha]; intros [|i] [|j] x y Hij Hx Hy; try (done || lia); cbn in *.
  - injection Hx as <-. apply (proj1 (Forall_forall _ _) Ha). by eapply list_elem_of_lookup_2.
  - by apply (IH i j x y); [lia|..].
Qed.

(** Sorting and removing duplicates leaves one entry for each key. *)
Lemma dedup_sorted l : StronglySorted (fun a b => key a < key b) (dedup_by_key (sort_by_key l)).
Proof.
  pose proof (sort_by_key_sorted l) as Hs. destruct (sort_by_key l) as [|a t]; [constructor|]. inversion Hs as [|? ? Hs' Ha]; subst.
  by destruct (dedup_after_sorted t (key a) Hs' Ha); constructor.
Qed.

Lemma dedup_elem l x : x ∈ dedup_by_key (sort_by_key l) -> x ∈ l.
Proof.
  intros H. rewrite <- sort_by_key_perm. destruct (sort_by_key l) as [|a t]; [done|]. apply elem_of_cons in H as [->|H]; [left|right].
  by eapply dedup_after_sub.
Qed.

Lemma dedup_repr l x : x ∈ l -> exists y, y ∈ dedup_by_key (sort_by_key l) /\ key y = key x.
Proof.
  intros H. rewrite <- (sort_by_key_perm l) in H. destruct (sort_by_key l) as [|a t]; [by apply elem_of_nil in H|]. cbn.
  apply elem_of_cons in H as [->|H]; [exists a; split; [left|done]|].
  destruct (dedup_after_repr t x (key a) H) as [E|(y & Hy & E)]; [exists a; split; [left|done]|exists y; split; [by right|done]].
Qed.
End Table.
