(* ===== verification/NetText.v ===== *)
(** * Numbers and addresses as text

    [str::parse] of the Rust standard library at [u8], [u16] and [IpAddr], and
    the string operations the routing compiler uses. *)

From S2P Require Import Prelude.
#[local] Open Scope Z_scope.

(** [IpAddr]; an address is its octets. *)
Inductive IpAddr := IpV4 (octets : list byte) | IpV6 (octets : list byte).

#[export] Instance IpAddr_eq_dec : EqDecision IpAddr.
Proof. solve_decision. Defined.

(** ** Strings *)

Definition strip_prefix (p l : list byte) : option (list byte) :=
  if bytes_eqb (take (length p) l) p then Some (drop (length p) l) else None.

Fixpoint trim_start_matches (c : byte) (l : list byte) : list byte :=
  match l with
  | b :: t => if bool_decide (b = c) then trim_start_matches c t else l
  | [] => []
  end.

(** ** Numbers *)

(** [char::to_digit]. *)
Definition digit_value (radix : Z) (b : byte) : option Z :=
  let v := if in_rangeb 48 57 b then u8 b - 48 else if in_rangeb 97 122 b then u8 b - 87
           else if in_rangeb 65 90 b then u8 b - 55 else radix in
  if v <? radix then Some v else None.

Fixpoint parse_digits (maximum : Z) (l : list byte) (value : Z) : option Z :=
  match l with
  | [] => Some value
  | b :: t => d ← digit_value 10 b; let value := value * 10 + d in if maximum <? value then None else parse_digits maximum t value
  end.

(** [str::parse] at an unsigned width: a leading [+] is accepted. *)
Definition parse_unsigned (maximum : Z) (l : list byte) : option Z :=
  match l with
  | [] => None
  | b :: t => if bool_decide (b = x2b) then match t with [] => None | _ => parse_digits maximum t 0 end else parse_digits maximum l 0
  end.

(** ** Addresses *)

(** [Parser::read_number] with at most [most] digits. *)
Fixpoint read_digits (radix : Z) (most : nat) (l : list byte) (value : Z) (count : nat) : option (Z * nat * list byte) :=
  match l with
  | [] => Some (value, count, [])
  | b :: t =>
    match digit_value radix b with
    | None => Some (value, count, l)
    | Some d => if (most <? S count)%nat then None else read_digits radix most t (value * radix + d) (S count)
    end
  end.

Definition read_number (radix maximum : Z) (most : nat) (zero_prefix : bool) (l : list byte) : option (Z * list byte) :=
  '(value, count, rest) ← read_digits radix most l 0 0;
  if (count =? 0)%nat then None
  else if negb zero_prefix && bool_decide (head l = Some x30) && (1 <? count)%nat then None
  else if maximum <? value then None else Some (value, rest).

Definition read_given_char (c : byte) (l : list byte) : option (list byte) :=
  match l with b :: t => if bool_decide (b = c) then Some t else None | [] => None end.

Definition read_separator {A} (c : byte) (i : nat) (p : list byte -> option (A * list byte)) (l : list byte) : option (A * list byte) :=
  match i with O => p l | _ => l ← read_given_char c l; p l end.

Fixpoint read_octets (room i : nat) (l : list byte) : option (list byte * list byte) :=
  match room with
  | O => Some ([], l)
  | S room =>
    '(octet, l) ← read_separator x2e i (read_number 10 255 3 false) l;
    '(octets, l) ← read_octets room (S i) l;
    Some (as_u8 octet :: octets, l)
  end.

Definition read_ipv4_addr (l : list byte) : option (list byte * list byte) := read_octets 4 0 l.

(** The octets of the groups read, whether they end in a dotted quad, and the
    rest. A quad needs two groups of room. *)
Fixpoint read_groups (room i : nat) (l : list byte) : list byte * bool * list byte :=
  match room with
  | O => ([], false, l)
  | S room =>
    match (if (1 <=? room)%nat then read_separator x3a i read_ipv4_addr l else None) with
    | Some (octets, rest) => (octets, true, rest)
    | None =>
      match read_separator x3a i (read_number 16 65535 4 true) l with
      | Some (group, rest) =>
        let '(groups, quad, rest) := read_groups room (S i) rest in (to_be 2 group ++ groups, quad, rest)
      | None => ([], false, l)
      end
    end
  end.

Definition read_ipv6_addr (l : list byte) : option (list byte * list byte) :=
  let '(head, quad, l) := read_groups 8 0 l in
  if (length head =? 16)%nat then Some (head, l)
  else if quad then None
  else
    l ← read_given_char x3a l;
    l ← read_given_char x3a l;
    let '(tail, _, l) := read_groups (8 - (length head / 2 + 1)) 0 l in
    Some (head ++ replicate (16 - length head - length tail) x00 ++ tail, l).

Definition parse_ip (l : list byte) : option IpAddr :=
  '(a, rest) ← match read_ipv4_addr l with
               | Some (o, rest) => Some (IpV4 o, rest)
               | None => '(o, rest) ← read_ipv6_addr l; Some (IpV6 o, rest)
               end;
  match rest with [] => Some a | _ => None end.

(** The parsed octets have the width of their family. *)
Definition ip_wf (a : IpAddr) : Prop := match a with IpV4 o => length o = 4%nat | IpV6 o => length o = 16%nat end.

Lemma read_octets_len room : forall i l o rest, read_octets room i l = Some (o, rest) -> length o = room.
Proof.
  induction room as [|room IH]; intros i l o rest; cbn [read_octets]; [by intros [= <- _]|].
  destruct (read_separator _ _ _ _) as [[x r]|]; cbn; [|done]. destruct (read_octets room (S i) r) as [[os r']|] eqn:E; cbn; [|done].
  intros [= <- _]. cbn. by rewrite (IH _ _ _ _ E).
Qed.

Lemma read_groups_len room : forall i l o q rest, read_groups room i l = (o, q, rest) -> (length o <= 2 * room)%nat /\ Nat.even (length o) = true.
Proof.
  induction room as [|room IH]; intros i l o q rest; cbn [read_groups]; [by intros [= <- _ _]|].
  destruct (if (1 <=? room)%nat then _ else _) as [[v4 r]|] eqn:E4.
  - intros [= <- _ _]. destruct (Nat.leb_spec 1 room) as [Hl|]; [|done]. destruct i; unfold read_separator in E4.
    + apply read_octets_len in E4. rewrite E4. split; [lia|done].
    + destruct (read_given_char _ _) as [l'|]; [|done]. change (read_ipv4_addr l' = Some (v4, r)) in E4. apply read_octets_len in E4. rewrite E4. split; [lia|done].
  - clear E4. destruct (read_separator _ _ _ _) as [[g r]|]; [|intros H; simplify_eq; split; [cbn; lia|done]].
    destruct (read_groups room (S i) r) as [[gs q'] r'] eqn:E. intros H. assert (o = to_be 2 g ++ gs) as -> by congruence. apply IH in E as [Hl He].
    rewrite length_app, length_to_be. split; [lia|]. done.
Qed.

Lemma parse_ip_wf l a : parse_ip l = Some a -> ip_wf a.
Proof.
  unfold parse_ip. destruct (read_ipv4_addr l) as [[o rest]|] eqn:E4; cbn.
  - destruct rest; [|done]. intros [= <-]. by apply read_octets_len in E4.
  - destruct (read_ipv6_addr l) as [[o rest]|] eqn:E6; cbn; [|done]. destruct rest; [|done]. intros [= <-]. cbn.
    unfold read_ipv6_addr in E6. destruct (read_groups 8 0 l) as [[h q] r] eqn:Eh. apply read_groups_len in Eh as [Hh Heven].
    destruct (Nat.eqb_spec (length h) 16) as [H16|H16]; [by injection E6 as <- _|]. destruct q; [done|].
    destruct (read_given_char _ r) as [r1|]; cbn [mbind option_bind] in E6; [|done]. destruct (read_given_char _ r1) as [r2|]; cbn [mbind option_bind] in E6; [|done].
    destruct (read_groups (8 - _) 0 r2) as [[t q] r3] eqn:Et. apply read_groups_len in Et as [Ht _]. injection E6 as <- _.
    rewrite !length_app, length_replicate. apply Nat.even_spec in Heven as [k Hk].
    assert (Hd : (length h / 2 = k)%nat) by (rewrite Hk, Nat.mul_comm, Nat.div_mul; lia). rewrite Hd in Ht. lia.
Qed.

Example parse_ip_examples :
  parse_ip (bytes_of "10.0.0.1") = Some (IpV4 [x0a; x00; x00; x01]) /\ parse_ip (bytes_of "10.0.0.01") = None /\
  parse_ip (bytes_of "256.0.0.1") = None /\ parse_ip (bytes_of "1.2.3.4.5") = None /\
  parse_ip (bytes_of "::1") = Some (IpV6 (replicate 15 x00 ++ [x01])) /\
  parse_ip (bytes_of "2001:DB8::/32") = None /\
  parse_ip (bytes_of "::ffff:1.2.3.4") = Some (IpV6 (replicate 10 x00 ++ [xff; xff; x01; x02; x03; x04])) /\
  parse_ip (bytes_of "1:2:3:4:5:6:7:8") = Some (IpV6 [x00; x01; x00; x02; x00; x03; x00; x04; x00; x05; x00; x06; x00; x07; x00; x08]) /\
  parse_ip (bytes_of "1:2:3:4:5:6:7::8") = None /\ parse_unsigned 255 (bytes_of "+24") = Some 24 /\ parse_unsigned 255 (bytes_of "256") = None.
Proof. split_and!; vm_compute; reflexivity. Qed.
