(* ===== verification/ClientRace.v ===== *)
(** * Multi-LINE establishment race ([crates/rr-session/src/client_race.rs])

    The engine that decides which of at most two candidate transports a logical
    connection adopts. State, operations and results follow the source; events
    are the public mutating operations, and [run] is the owning task that
    serialises them. *)

From S2P Require Import Prelude.

(** ** Data *)

Inductive ClientCandidate := Primary | Alternate.

Inductive State := Unstarted | Pending | Failed | Retired.

#[export] Instance ClientCandidate_eq_dec : EqDecision ClientCandidate.
Proof. solve_decision. Defined.
#[export] Instance State_eq_dec : EqDecision State.
Proof. solve_decision. Defined.

Record ClientCancellations := { primary : bool; alternate : bool }.

Definition no_cancellations : ClientCancellations :=
  {| primary := false; alternate := false |}.

Definition contains (c : ClientCancellations) (candidate : ClientCandidate) : bool :=
  match candidate with Primary => primary c | Alternate => alternate c end.

Record ClientAdoption := { candidate : ClientCandidate; cancel_set : ClientCancellations }.

(** [states: [State; 2]] is the pair of its two slots. *)
Record ClientRace := { state0 : State; state1 : State; terminal : bool }.

Definition slot_state (r : ClientRace) (c : ClientCandidate) : State :=
  match c with Primary => state0 r | Alternate => state1 r end.

Definition set_slot (r : ClientRace) (c : ClientCandidate) (s : State) : ClientRace :=
  match c with
  | Primary => {| state0 := s; state1 := state1 r; terminal := terminal r |}
  | Alternate => {| state0 := state0 r; state1 := s; terminal := terminal r |}
  end.

(** ** Operations *)

Definition new_race : ClientRace :=
  {| state0 := Pending; state1 := Unstarted; terminal := false |}.

Definition start_alternate (r : ClientRace) : bool * ClientRace :=
  if terminal r || negb (bool_decide (state1 r = Unstarted)) then (false, r)
  else (true, set_slot r Alternate Pending).

Definition fail (r : ClientRace) (c : ClientCandidate) : bool * ClientRace :=
  if terminal r || negb (bool_decide (slot_state r c = Pending)) then (false, r)
  else
    let r := set_slot r c Failed in
    (true, {| state0 := state0 r; state1 := state1 r;
              terminal := bool_decide (state0 r = Failed /\ state1 r = Failed) |}).

Definition cancel (r : ClientRace) : ClientCancellations * ClientRace :=
  ({| primary := bool_decide (state0 r = Pending);
      alternate := bool_decide (state1 r = Pending) |},
   {| state0 := Retired; state1 := Retired; terminal := true |}).

Definition adopt (r : ClientRace) (c : ClientCandidate) : option ClientAdoption * ClientRace :=
  if terminal r || negb (bool_decide (slot_state r c = Pending)) then (None, r)
  else
    let r := set_slot r c Retired in
    let '(cancelled, r) := cancel r in
    (Some {| candidate := c; cancel_set := cancelled |}, r).

Definition is_terminal (r : ClientRace) : bool := terminal r.

(** ** Event sequences *)

Inductive Event := StartAlternate | Fail (c : ClientCandidate) | Adopt (c : ClientCandidate) | Cancel.

Inductive Outcome :=
| Started (accepted : bool)
| FailAccepted (accepted : bool)
| Adopted (grant : option ClientAdoption)
| Cancelled (c : ClientCancellations).

Definition apply_event (r : ClientRace) (e : Event) : Outcome * ClientRace :=
  match e with
  | StartAlternate => let '(b, r) := start_alternate r in (Started b, r)
  | Fail c => let '(b, r) := fail r c in (FailAccepted b, r)
  | Adopt c => let '(g, r) := adopt r c in (Adopted g, r)
  | Cancel => let '(c, r) := cancel r in (Cancelled c, r)
  end.

Fixpoint run (r : ClientRace) (es : list Event) : list Outcome * ClientRace :=
  match es with
  | [] => ([], r)
  | e :: es =>
    let '(o, r) := apply_event r e in
    let '(os, r) := run r es in (o :: os, r)
  end.

Definition is_grant (o : Outcome) : bool :=
  match o with Adopted (Some _) => true | _ => false end.
Definition is_start (o : Outcome) : bool :=
  match o with Started true => true | _ => false end.
(** The outcome reports that the engine took the event into account. *)
Definition is_accepted (o : Outcome) : bool :=
  match o with
  | Started b => b
  | FailAccepted b => b
  | Adopted g => bool_decide (is_Some g)
  | Cancelled c => primary c || alternate c
  end.

Definition count (p : Outcome -> bool) (os : list Outcome) : nat := length (filter p os).

(** ** Invariant

    A terminal race has no pending slot, and a race with two failed slots is
    terminal. *)
Definition race_inv (r : ClientRace) : Prop :=
  (terminal r = true -> state0 r <> Pending /\ state1 r <> Pending) /\
  (state0 r = Failed /\ state1 r = Failed -> terminal r = true).

Lemma new_race_inv : race_inv new_race.
Proof. split; naive_solver. Qed.

Lemma apply_event_inv r e o r' :
  race_inv r -> apply_event r e = (o, r') -> race_inv r'.
Proof.
  unfold race_inv. destruct r as [s0 s1 t], e as [|c|c|]; cbn;
    unfold start_alternate, fail, adopt, cancel; intros [Hp Hf];
    destruct t, s0, s1; try destruct c; cbn; intros [= <- <-]; cbn; naive_solver.
Qed.

(** A terminal race accepts nothing and stays terminal. *)
Lemma terminal_step r e o r' :
  race_inv r -> terminal r = true -> apply_event r e = (o, r') ->
  terminal r' = true /\ is_accepted o = false.
Proof.
  intros [Hp _] Ht. destruct r as [s0 s1 t], e as [|c|c|]; cbn in *; subst t;
    unfold start_alternate, fail, adopt, cancel; cbn; destruct (Hp eq_refl) as [H0 H1];
    intros [= <- <-]; cbn; try done.
  rewrite !bool_decide_eq_false_2 by done. done.
Qed.

(** A grant ends the race. *)
Lemma grant_step r e o r' :
  apply_event r e = (o, r') -> is_grant o = true -> terminal r' = true.
Proof.
  destruct r as [s0 s1 t], e as [|c|c|]; cbn;
    unfold start_alternate, fail, adopt, cancel; destruct t, s0, s1; try destruct c; cbn;
    intros [= <- <-]; cbn; congruence.
Qed.

(** Only an unstarted alternate slot can be started, and no event makes a slot
    unstarted again. *)
Lemma start_step r e o r' :
  apply_event r e = (o, r') ->
  (is_start o = true -> state1 r = Unstarted /\ state1 r' <> Unstarted) /\
  (state1 r <> Unstarted -> state1 r' <> Unstarted).
Proof.
  destruct r as [s0 s1 t], e as [|c|c|]; cbn;
    unfold start_alternate, fail, adopt, cancel; destruct t, s0, s1; try destruct c; cbn;
    intros [= <- <-]; cbn; naive_solver.
Qed.

Lemma count_cons p o os : count p (o :: os) = ((if p o then 1 else 0) + count p os)%nat.
Proof. unfold count. cbn. destruct (p o); done. Qed.

Lemma accepted_grant o : is_accepted o = false -> is_grant o = false.
Proof. destruct o as [| |[]|]; cbn; try done. Qed.

Lemma run_terminal es : forall r os r',
  race_inv r -> terminal r = true -> run r es = (os, r') ->
  Forall (fun o => is_accepted o = false) os /\ terminal r' = true /\ count is_grant os = 0%nat.
Proof.
  induction es as [|e es IH]; cbn; intros r os r' Hinv Ht.
  - intros [= <- <-]. done.
  - destruct (apply_event r e) as [o r1] eqn:He, (run r1 es) as [os1 r2] eqn:Hr.
    intros [= <- <-]. destruct (terminal_step _ _ _ _ Hinv Ht He) as [Ht1 Ho].
    destruct (IH _ _ _ (apply_event_inv _ _ _ _ Hinv He) Ht1 Hr) as (Hall & Ht2 & Hc).
    rewrite count_cons, (accepted_grant _ Ho). auto.
Qed.

Lemma run_started es : forall r os r',
  state1 r <> Unstarted -> run r es = (os, r') -> count is_start os = 0%nat.
Proof.
  induction es as [|e es IH]; cbn; intros r os r' Hs.
  - by intros [= <- <-].
  - destruct (apply_event r e) as [o r1] eqn:He, (run r1 es) as [os1 r2] eqn:Hr.
    intros [= <- <-]. destruct (start_step _ _ _ _ He) as [H1 H2].
    rewrite count_cons, (IH _ _ _ (H2 Hs) Hr). destruct (is_start o); naive_solver.
Qed.

Lemma run_inv es : forall r os r',
  race_inv r -> run r es = (os, r') -> race_inv r'.
Proof.
  induction es as [|e es IH]; cbn; intros r os r' Hinv.
  - by intros [= <- <-].
  - destruct (apply_event r e) as [o r1] eqn:He, (run r1 es) as [os1 r2] eqn:Hr.
    intros [= <- <-]. eauto using apply_event_inv.
Qed.

Lemma run_at_most_one es : forall r os r',
  race_inv r -> run r es = (os, r') ->
  (count is_grant os <= 1)%nat /\ (count is_start os <= 1)%nat.
Proof.
  induction es as [|e es IH]; cbn; intros r os r' Hinv.
  - intros [= <- <-]. cbn. lia.
  - destruct (apply_event r e) as [o r1] eqn:He, (run r1 es) as [os1 r2] eqn:Hr.
    intros [= <- <-]. rewrite !count_cons.
    pose proof (apply_event_inv _ _ _ _ Hinv He) as Hinv1.
    destruct (IH _ _ _ Hinv1 Hr) as [Hg Hs]. split.
    + destruct (is_grant o) eqn:Eg; [|lia].
      destruct (run_terminal _ _ _ _ Hinv1 (grant_step _ _ _ _ He Eg) Hr) as (_ & _ & ->). lia.
    + destruct (is_start o) eqn:Es; [|lia].
      destruct (start_step _ _ _ _ He) as [H1 _]. destruct (H1 Es) as [_ H2].
      rewrite (run_started _ _ _ _ H2 Hr). lia.
Qed.

(** Over any sequence of events, one establishment issues at most one
    adoption grant and starts its alternate at most once; this holds for
    sequences of every length. *)
Theorem race_at_most_one_grant (es : list Event) :
  (count is_grant (run new_race es).1 <= 1)%nat /\
  (count is_start (run new_race es).1 <= 1)%nat.
Proof.
  destruct (run new_race es) as [os r] eqn:H.
  apply (run_at_most_one es new_race os r); [apply new_race_inv | done].
Qed.

(** A terminal race is absorbing: after any prefix of events that ends
    terminal, every later event is rejected (no start, no failure, no grant, an
    empty cancellation set) and the race stays terminal. *)
Lemma race_terminal_absorbing (before after : list Event) :
  is_terminal (run new_race before).2 = true ->
  Forall (fun o => is_accepted o = false) (run (run new_race before).2 after).1 /\
  is_terminal (run (run new_race before).2 after).2 = true.
Proof.
  destruct (run new_race before) as [os r] eqn:H. cbn [snd]. intros Ht.
  destruct (run r after) as [os' r'] eqn:H'.
  destruct (run_terminal after r os' r') as (? & ? & _); eauto using run_inv, new_race_inv.
Qed.


(** An adoption picks a pending candidate and reports as cancellations exactly
    the other candidate's pending attempt, never the winner. *)
Theorem adopt_cancels_pending_loser (r : ClientRace) (c : ClientCandidate)
    (g : ClientAdoption) (r' : ClientRace) :
  adopt r c = (Some g, r') ->
  candidate g = c /\ slot_state r c = Pending /\ terminal r' = true /\
  contains (cancel_set g) c = false /\
  forall other, other <> c ->
    contains (cancel_set g) other = bool_decide (slot_state r other = Pending).
Proof.
  unfold adopt, cancel. destruct r as [s0 s1 t]. cbn. destruct t; [done|]. cbn.
  case_bool_decide as Hp; cbn; [|done]. intros [= <- <-]. cbn.
  split_and!; try done; destruct c; cbn in *; subst; try done;
    intros [] Hne; cbn; congruence.
Qed.
