(* ===== verification/Rendezvous.v ===== *)
(** * Raw-boundary rendezvous budget ([crates/rr-session/src/rendezvous.rs])

    The pure policy [PairRendezvous] and the adapter loop of
    [decide_raw_relay] (src/server/vision/relay.rs) that drives it: observe the
    peer, step, yield until the policy commits. *)

From S2P Require Import Prelude.

Inductive RendezvousStep := Yield | Commit.

#[export] Instance RendezvousStep_eq_dec : EqDecision RendezvousStep.
Proof. solve_decision. Defined.

Record PairRendezvous := { yields_remaining : Z; committed : bool }.

Definition YIELD_BUDGET : Z := 2.

Definition new_rendezvous : PairRendezvous :=
  {| yields_remaining := YIELD_BUDGET; committed := false |}.

Definition step (r : PairRendezvous) (peer_can_pair : bool) : RendezvousStep * PairRendezvous :=
  if committed r || peer_can_pair || (yields_remaining r =? 0)
  then (Commit, {| yields_remaining := yields_remaining r; committed := true |})
  else (Yield, {| yields_remaining := yields_remaining r - 1; committed := committed r |}).

Definition yields_spent (r : PairRendezvous) : Z := YIELD_BUDGET - yields_remaining r.

(** The [while rendezvous.step(..) == Yield { yield_now().await }] loop; the
    [k]-th observation of the peer is [observe k]. [None] is fuel exhaustion. *)
Fixpoint rendezvous_loop (fuel : nat) (observe : nat -> bool) (k : nat) (r : PairRendezvous)
    : option (nat * PairRendezvous) :=
  match fuel with
  | O => None
  | S fuel =>
    match step r (observe k) with
    | (Commit, r) => Some (k, r)
    | (Yield, r) => rendezvous_loop fuel observe (S k) r
    end
  end.

(** The budget is an unsigned byte that never exceeds its initial value. *)
Definition rendezvous_inv (r : PairRendezvous) : Prop :=
  0 <= yields_remaining r <= YIELD_BUDGET.

Lemma step_inv r peer : rendezvous_inv r -> rendezvous_inv (step r peer).2.
Proof.
  unfold rendezvous_inv, step. intros H.
  destruct (committed r), peer; cbn; try done.
  destruct (Z.eqb_spec (yields_remaining r) 0); cbn; lia.
Qed.

Lemma rendezvous_loop_spec fuel observe : forall k r,
  rendezvous_inv r -> committed r = false -> yields_remaining r < Z.of_nat fuel ->
  exists k' r', rendezvous_loop fuel observe k r = Some (k', r') /\
    committed r' = true /\ (k <= k')%nat /\
    yields_remaining r - yields_remaining r' = Z.of_nat k' - Z.of_nat k /\
    rendezvous_inv r' /\
    (forall j, (k <= j < k')%nat -> observe j = false) /\
    (observe k' = true \/ yields_remaining r' = 0).
Proof.
  induction fuel as [|fuel IH]; intros k r Hinv Hc Hf; [unfold rendezvous_inv in Hinv; lia|].
  cbn. unfold step. rewrite Hc. cbn.
  destruct (observe k) eqn:Ho; cbn.
  - do 2 eexists. split; [done|]. cbn. split_and!; try done; try lia; auto.
  - destruct (Z.eqb_spec (yields_remaining r) 0); cbn.
    + do 2 eexists. split; [done|]. cbn. split_and!; try done; try lia; auto.
    + destruct (IH (S k) {| yields_remaining := yields_remaining r - 1; committed := false |})
        as (k' & r' & -> & Hc' & Hk & Hy & Hi & Hall & Hend).
      * unfold rendezvous_inv in *. cbn. lia.
      * done.
      * cbn. lia.
      * cbn in Hy. exists k', r'. split_and!; try done; try lia.
        intros j Hj. destruct (decide (j = k)) as [->|]; [done|]. apply Hall. lia.
Qed.

(** The adapter's rendezvous loop always commits, whatever the peer does: three
    observations are enough fuel, at most [YIELD_BUDGET] scheduling points are
    spent, and it stops early exactly because the peer was observed pairable. *)
Lemma rendezvous_terminates (observe : nat -> bool) :
  exists k r, rendezvous_loop 3 observe 0 new_rendezvous = Some (k, r) /\
    committed r = true /\ yields_spent r = Z.of_nat k /\ 0 <= yields_spent r <= YIELD_BUDGET /\
    (forall j, (j < k)%nat -> observe j = false) /\
    (observe k = true \/ yields_spent r = YIELD_BUDGET).
Proof.
  destruct (rendezvous_loop_spec 3 observe 0 new_rendezvous)
    as (k & r & H & Hc & Hk & Hy & Hi & Hall & Hend).
  - unfold rendezvous_inv, new_rendezvous, YIELD_BUDGET. cbn. lia.
  - done.
  - unfold new_rendezvous, YIELD_BUDGET. cbn. lia.
  - exists k, r. cbn in Hy. unfold yields_spent, rendezvous_inv, YIELD_BUDGET in *.
    split_and!; try done; try (intros; apply Hall); try lia.
    destruct Hend; [by left | right; lia].
Qed.
