(* ===== verification/Transfer.v ===== *)
(** * One authenticated single-message transfer

    [crates/rr-session/src/transfer.rs] (write-progress ownership rules),
    [src/server/counted_write.rs] (the counted write loop) and the attempt
    sequence of [HandoffLine::transfer] (src/server/handoff/line.rs): a warm
    attempt from the pool, then the mandatory cold dial. *)

From S2P Require Import Prelude.

(** ** Write progress *)

Inductive WriteProgress :=
| NoBytesWritten
| PartialWrite (bytes_written : Z)
| CompleteWrite.

(** [CommittedWrite] carries only a private unit. *)
Inductive CommittedWrite := committed_write.

Inductive RetryableProgress :=
| RetryNoBytes
| RetryPartial (bytes_written : Z).

Definition from_written (bytes_written message_len : Z) : WriteProgress :=
  if message_len <=? bytes_written then CompleteWrite
  else if bytes_written =? 0 then NoBytesWritten
  else PartialWrite bytes_written.

Definition permits_fresh_attempt (p : WriteProgress) : bool :=
  match p with CompleteWrite => false | _ => true end.

Definition split (p : WriteProgress) : result RetryableProgress CommittedWrite :=
  match p with
  | NoBytesWritten => Err RetryNoBytes
  | PartialWrite n => Err (RetryPartial n)
  | CompleteWrite => Ok committed_write
  end.

Definition progress (r : RetryableProgress) : WriteProgress :=
  match r with RetryNoBytes => NoBytesWritten | RetryPartial n => PartialWrite n end.

Definition bytes_discarded (r : RetryableProgress) : Z :=
  match r with RetryNoBytes => 0 | RetryPartial n => n end.

Inductive AttemptTransport := Warm | Cold.

Definition permits_alternate_attempt (t : AttemptTransport) : bool :=
  match t with Warm => true | Cold => false end.

Definition alternate_attempt (t : AttemptTransport) : option AttemptTransport :=
  match t with Warm => Some Cold | Cold => None end.

(** ** The counted write loop

    One answer of [timeout_at(deadline, stream.write(..))]. The stream is not
    program code: it is the sequence of its answers. *)

Inductive IoErrorKind := WriteZero | TimedOut | OtherIo.

Inductive WriteAnswer :=
| Wrote (count : Z)
| WriteFailed
| DeadlineElapsed.

Record CountedWriteError := { source : IoErrorKind; error_progress : RetryableProgress }.

Definition failure (source : IoErrorKind) (written message_len : Z) : CountedWriteError :=
  {| source := source;
     error_progress :=
       match split (from_written written message_len) with
       | Err retryable => retryable
       | _ => RetryNoBytes
       end |}.

(** [written] is also returned, so that a theorem can speak of what the peer
    received. [None] is fuel exhaustion. *)
Fixpoint write_loop (fuel : nat) (answers : nat -> WriteAnswer) (k : nat)
    (written message_len : Z) : option (Z * result CountedWriteError CommittedWrite) :=
  if written <? message_len then
    match fuel with
    | O => None
    | S fuel =>
      match answers k with
      | Wrote count =>
        if count =? 0 then Some (written, Err (failure WriteZero written message_len))
        else write_loop fuel answers (S k) (Z.min USIZE_MAX (written + count)) message_len
      | WriteFailed => Some (written, Err (failure OtherIo written message_len))
      | DeadlineElapsed => Some (written, Err (failure TimedOut written message_len))
      end
    end
  else
    Some (written,
      match split (from_written written message_len) with
      | Ok committed => Ok committed
      | Err retryable => Err {| source := WriteZero; error_progress := retryable |}
      | Panic => Panic
      end).

Definition write_all_counted_before (answers : nat -> WriteAnswer) (bytes : list byte)
    : option (Z * result CountedWriteError CommittedWrite) :=
  write_loop (length bytes) answers 0 0 (len bytes).

(** ** The attempt sequence of [HandoffLine::transfer] *)

Inductive HandoffLineError :=
| LineTimeout | LineClock | LineTransfer | LineConnect (kind : IoErrorKind) | LineDescriptorBudget.

(** What the environment answers: whether a pool is configured and what its
    checkout yields (the warm stream's write answers), whether each deadline is
    representable, the two fresh seals, and the cold dial. *)
Record TransferEnv := {
  pool : option (option (nat -> WriteAnswer));
  warm_deadline_ok : bool;
  warm_seal : result HandoffLineError (list byte);
  cold_deadline_ok : bool;
  cold_connect : result HandoffLineError (nat -> WriteAnswer);
  cold_seal : result HandoffLineError (list byte);
}.

(** One write attempt: its transport, the message it carried, the bytes the
    transport accepted. *)
Record Attempt := { transport : AttemptTransport; message : list byte; accepted : Z }.

Definition complete (a : Attempt) : bool := len (message a) <=? accepted a.

Definition run_attempt (t : AttemptTransport) (answers : nat -> WriteAnswer) (m : list byte)
    : option (Attempt * result CountedWriteError CommittedWrite) :=
  match write_all_counted_before answers m with
  | None => None
  | Some (n, r) => Some ({| transport := t; message := m; accepted := n |}, r)
  end.

Definition cold_path (env : TransferEnv) (log : list Attempt)
    : option (result HandoffLineError AttemptTransport * list Attempt) :=
  if negb (cold_deadline_ok env) then Some (Err LineTimeout, log)
  else match cold_connect env with
  | Err e => Some (Err e, log)
  | Panic => Some (Panic, log)
  | Ok answers =>
    match cold_seal env with
    | Err e => Some (Err e, log)
    | Panic => Some (Panic, log)
    | Ok m =>
      match run_attempt Cold answers m with
      | None => None
      | Some (a, Ok _) => Some (Ok Cold, log ++ [a])
      | Some (a, Err e) =>
        Some (Err (match source e with TimedOut => LineTimeout | k => LineConnect k end), log ++ [a])
      | Some (a, Panic) => Some (Panic, log ++ [a])
      end
    end
  end.

(** The pool counters the sequence bumps, in order. *)
Inductive PoolEvent := RecordStaleCheckout | RecordColdFallback.

Definition transfer (env : TransferEnv)
    : option (result HandoffLineError AttemptTransport * list Attempt) * list PoolEvent :=
  match pool env with
  | None => (cold_path env [], [])
  | Some None => (cold_path env [], [RecordColdFallback])
  | Some (Some answers) =>
    if negb (warm_deadline_ok env) then (Some (Err LineTimeout, []), [])
    else match warm_seal env with
    | Err e => (Some (Err e, []), [])
    | Panic => (Some (Panic, []), [])
    | Ok m =>
      match run_attempt Warm answers m with
      | None => (None, [])
      | Some (a, Ok _) => (Some (Ok Warm, [a]), [])
      | Some (a, Err _) => (cold_path env [a], [RecordStaleCheckout; RecordColdFallback])
      | Some (a, Panic) => (Some (Panic, [a]), [])
      end
    end
  end.

(** ** Lemmas *)

Lemma split_from_written w n :
  split (from_written w n) =
    if n <=? w then Ok committed_write
    else Err (if w =? 0 then RetryNoBytes else RetryPartial w).
Proof.
  unfold from_written. destruct (n <=? w); [done|]. destruct (w =? 0); done.
Qed.

(** A stream accepts at least one byte per successful non-zero write. *)
Definition stream_ok (answers : nat -> WriteAnswer) : Prop :=
  forall k n, answers k = Wrote n -> 0 <= n.

Lemma write_loop_spec fuel answers : stream_ok answers -> forall k w n,
  0 <= w -> n <= USIZE_MAX -> n - w <= Z.of_nat fuel ->
  exists w' r, write_loop fuel answers k w n = Some (w', r) /\ w <= w' /\
    match r with
    | Ok _ => n <= w'
    | Err e => w' < n /\ bytes_discarded (error_progress e) = w'
               /\ permits_fresh_attempt (progress (error_progress e)) = true
    | Panic => False
    end.
Proof.
  intros Hs. induction fuel as [|fuel IH]; intros k w n Hw Hn Hf; cbn.
  - destruct (Z.ltb_spec w n); [lia|]. rewrite split_from_written.
    rewrite (proj2 (Z.leb_le n w)) by lia. do 2 eexists. split; [done|]. cbn. lia.
  - destruct (Z.ltb_spec w n) as [Hlt|Hge].
    + assert (Hfail : forall s, bytes_discarded (error_progress (failure s w n)) = w /\
        permits_fresh_attempt (progress (error_progress (failure s w n))) = true).
      { intros s. unfold failure. rewrite split_from_written.
        rewrite (proj2 (Z.leb_gt n w)) by lia. cbn.
        destruct (Z.eqb_spec w 0); cbn; split; done || lia. }
      destruct (answers k) as [c| |] eqn:Ha.
      * destruct (Z.eqb_spec c 0).
        -- do 2 eexists. split; [done|]. split; [lia|]. cbn. split; [lia|exact (Hfail OtherIo)].
        -- pose proof (Hs _ _ Ha).
           destruct (IH (S k) (Z.min USIZE_MAX (w + c)) n) as (w' & r & -> & Hle & Hr);
             [unfold USIZE_MAX, U64_MAX in *; lia.. |].
           exists w', r. split; [done|]. split; [unfold USIZE_MAX, U64_MAX in *; lia | done].
      * do 2 eexists. split; [done|]. split; [lia|]. cbn. split; [lia|exact (Hfail OtherIo)].
      * do 2 eexists. split; [done|]. split; [lia|]. cbn. split; [lia|exact (Hfail OtherIo)].
    + rewrite split_from_written, (proj2 (Z.leb_le n w)) by lia.
      do 2 eexists. split; [done|]. cbn. lia.
Qed.

Lemma run_attempt_spec t answers m :
  stream_ok answers -> len m <= USIZE_MAX ->
  exists a r, run_attempt t answers m = Some (a, r) /\ transport a = t /\ message a = m /\
    r <> Panic /\ complete a = is_ok r.
Proof.
  intros Hs Hm. unfold run_attempt, write_all_counted_before.
  destruct (write_loop_spec (length m) answers Hs 0 0 (len m))
    as (w & r & -> & _ & Hr); [lia | done | unfold len in *; lia |].
  do 2 eexists. split; [done|]. cbn. split_and!; try done; [by destruct r|].
  unfold complete. cbn. destruct r as [c|e|]; cbn; [|destruct Hr as [Hr _]|done].
  - by apply Z.leb_le.
  - by apply Z.leb_gt.
Qed.

(** The environment answers as its interfaces document: streams report
    non-negative counts and sealed messages fit in memory. *)
Record env_ok (env : TransferEnv) : Prop := {
  warm_stream_ok : forall a, pool env = Some (Some a) -> stream_ok a;
  cold_stream_ok : forall a, cold_connect env = Ok a -> stream_ok a;
  warm_seal_ok : forall m, warm_seal env = Ok m -> len m <= USIZE_MAX;
  cold_seal_ok : forall m, cold_seal env = Ok m -> len m <= USIZE_MAX;
  env_no_panic : no_panic (warm_seal env) /\ no_panic (cold_seal env) /\ no_panic (cold_connect env);
}.

(** The attempts of a transfer that ended with [r]: every attempt before the last
    is incomplete, and the last is complete exactly when the transfer succeeded. *)
Definition log_ok (r : result HandoffLineError AttemptTransport) (log : list Attempt) : Prop :=
  match r with
  | Ok t => exists before a, log = before ++ [a] /\ complete a = true /\ transport a = t /\
              Forall (fun b => complete b = false) before
  | Err _ => Forall (fun b => complete b = false) log
  | Panic => False
  end.

Lemma cold_path_spec env log :
  env_ok env -> Forall (fun b => complete b = false) log ->
  exists r tail, cold_path env log = Some (r, log ++ tail) /\ log_ok r (log ++ tail) /\
    (length tail <= 1)%nat /\ Forall (fun b => transport b = Cold) tail.
Proof.
  intros Henv Hlog. destruct (env_no_panic env Henv) as (_ & Hcs & Hcc). unfold cold_path.
  assert (Hnone : forall e, exists r tail, Some (Err e, log) = Some (r, log ++ tail) /\
    log_ok r (log ++ tail) /\ (length tail <= 1)%nat /\ Forall (fun b => transport b = Cold) tail).
  { intros e. exists (Err e), []. rewrite app_nil_r. split_and!; try done. cbn; lia. }
  destruct (cold_deadline_ok env); cbn; [|apply Hnone].
  destruct (cold_connect env) as [answers|e|] eqn:Hc; [|apply Hnone|done].
  destruct (cold_seal env) as [m|e|] eqn:Hm; [|apply Hnone|done].
  destruct (run_attempt_spec Cold answers m) as (a & r & -> & Ht & Hmsg & Hnp & Hcomp);
    eauto using cold_stream_ok, cold_seal_ok.
  destruct r as [c|e|]; [| |done]; cbn in Hcomp; do 2 eexists;
    (split; [done|]; split; [|split; [cbn; lia | auto]]); cbn.
  - eauto 10.
  - apply Forall_app. auto.
Qed.

(** What [transfer] guarantees of its outcome, its attempts and the pool
    counters: the warm attempt is counted stale exactly when it was started and
    not written completely. *)
Definition transfer_ok (out : option (result HandoffLineError AttemptTransport * list Attempt))
    (events : list PoolEvent) : Prop :=
  exists r log, out = Some (r, log) /\ log_ok r log /\ (length log <= 2)%nat /\
    (RecordStaleCheckout ∈ events <->
      exists a rest, log = a :: rest /\ transport a = Warm /\ complete a = false).

Lemma transfer_no_warm env events :
  env_ok env -> RecordStaleCheckout ∉ events -> transfer_ok (cold_path env []) events.
Proof.
  intros Henv He. destruct (cold_path_spec env [] Henv) as (r & tail & -> & Hl & Hlen & Hcold); [done|].
  do 2 eexists. split; [done|]. cbn in *. split; [done|]. split; [lia|]. split; [done|].
  intros (a & rest & -> & Hw & _). inversion Hcold; congruence.
Qed.

Lemma transfer_spec env : env_ok env -> transfer_ok (transfer env).1 (transfer env).2.
Proof.
  intros Henv. destruct (env_no_panic env Henv) as (Hws & _ & _). unfold transfer.
  destruct (pool env) as [[answers|]|] eqn:Hp;
    [| apply transfer_no_warm; [done|]; by intros ?%list_elem_of_singleton
     | apply transfer_no_warm; [done|]; apply not_elem_of_nil].
  assert (Hnone : forall e, transfer_ok (Some (Err e, [])) []).
  { intros e. do 2 eexists. split; [done|]. split; [constructor|]. split; [cbn; lia|].
    split; [by intros ?%elem_of_nil | intros (? & ? & ? & _); done]. }
  destruct (warm_deadline_ok env); cbn; [|apply Hnone].
  destruct (warm_seal env) as [m|e|] eqn:Hm; [|apply Hnone|done].
  destruct (run_attempt_spec Warm answers m) as (a & r & -> & Ht & Hmsg & Hnp & Hcomp);
    eauto using warm_stream_ok, warm_seal_ok.
  destruct r as [c|e|]; [| |done]; cbn in Hcomp |- *.
  - do 2 eexists. split; [done|]. split; [exists [], a; auto|]. split; [cbn; lia|].
    split; [by intros ?%elem_of_nil | naive_solver congruence].
  - destruct (cold_path_spec env [a] Henv) as (r & tail & -> & ? & ? & _); [auto|].
    do 2 eexists. split; [done|]. split; [done|]. split; [cbn; lia|]. split.
    + intros _. eauto 10.
    + intros _. apply list_elem_of_here.
Qed.

Lemma filter_complete_none l : Forall (fun b => complete b = false) l -> filter complete l = [].
Proof. induction 1 as [|b l Hb _ IH]; [done|]. cbn. by rewrite Hb. Qed.

(** C38: a Handoff transfer always finishes within two attempts and commits at most
    one transport: only the last attempt can have been written completely, and
    it was exactly when the transfer succeeds, on the transport it returns; the
    cold fallback follows a warm attempt only after an incomplete write, which
    the pool then counts as a stale checkout. *)
Theorem transfer_commits_at_most_once (env : TransferEnv) :
  env_ok env ->
  transfer_ok (transfer env).1 (transfer env).2 /\
  forall r log, (transfer env).1 = Some (r, log) -> (length (filter complete log) <= 1)%nat.
Proof.
  intros Henv. pose proof (transfer_spec env Henv) as Hok. split; [done|].
  destruct Hok as (r & log & -> & Hlog & _). intros ? ? [= <- <-].
  destruct r as [t|e|]; cbn in Hlog; [|by rewrite filter_complete_none; [cbn; lia|]|done].
  destruct Hlog as (before & a & -> & Ha & _ & Hb).
  rewrite filter_app, (filter_complete_none before) by done. cbn. rewrite Ha. done.
Qed.

(** A warm attempt that breaks after two bytes, and the cold fallback. *)
Definition warm_break_env : TransferEnv :=
  {| pool := Some (Some (fun k => match k with O => Wrote 2 | _ => WriteFailed end));
     warm_deadline_ok := true; warm_seal := Ok [x01; x02; x03];
     cold_deadline_ok := true; cold_connect := Ok (fun _ => Wrote 3);
     cold_seal := Ok [x04; x05; x06] |}.

Lemma transfer_commits_at_most_once_witness :
  (exists log, (transfer warm_break_env).1 = Some (Ok Cold, log)) /\
  transfer_ok (transfer warm_break_env).1 (transfer warm_break_env).2.
Proof.
  split; [eexists; vm_compute; reflexivity|].
  apply (transfer_commits_at_most_once warm_break_env). constructor; cbn.
  - intros a [= <-] k n. destruct k; intros [= <-]; lia.
  - intros a [= <-] k n [= <-]. lia.
  - intros m [= <-]. vm_compute. discriminate.
  - intros m [= <-]. vm_compute. discriminate.
  - split_and!; discriminate.
Defined.
