(* ===== verification/Lifecycle.v ===== *)
(** * Vision direction lifecycle ([crates/rr-session/src/vision.rs])

    The bounded state machine of one relay direction, its byte representation
    used by the atomic cells, and the planning of the one raw-relay grant. *)

From S2P Require Import Prelude.
From stdpp Require Import relations.
#[local] Open Scope Z_scope.

Inductive Direction := Uplink | Downlink.

Inductive DirectionState :=
| Framed | DirectPending | RawReady | Outer | Closed | FailedState | PairPending | Relaying.

#[export] Instance Direction_eq_dec : EqDecision Direction.
Proof. solve_decision. Defined.
#[export] Instance DirectionState_eq_dec : EqDecision DirectionState.
Proof. solve_decision. Defined.

(** The [#[repr(u8)]] discriminants. *)
Definition repr (s : DirectionState) : Z :=
  match s with
  | Framed => 0 | DirectPending => 1 | RawReady => 2 | Outer => 3
  | Closed => 4 | FailedState => 5 | PairPending => 6 | Relaying => 7
  end.

Definition from_repr (value : Z) : DirectionState :=
  if value =? 1 then DirectPending
  else if value =? 2 then RawReady
  else if value =? 3 then Outer
  else if value =? 4 then Closed
  else if value =? 5 then FailedState
  else if value =? 6 then PairPending
  else if value =? 7 then Relaying
  else Framed.

Definition permits (s next : DirectionState) : bool :=
  match s, next with
  | Framed, DirectPending | Framed, Outer | Framed, Closed | Framed, FailedState
  | DirectPending, RawReady | DirectPending, Closed | DirectPending, FailedState
  | RawReady, PairPending | RawReady, Relaying | RawReady, Closed | RawReady, FailedState
  | PairPending, Closed | PairPending, FailedState
  | Relaying, Closed | Relaying, FailedState
  | Outer, Closed | Outer, FailedState => true
  | _, _ => false
  end.

Record InvalidTransition :=
  { it_direction : Direction; it_from : DirectionState; it_to : DirectionState }.

Inductive RawDecision := Pair | Directional.

#[export] Instance RawDecision_eq_dec : EqDecision RawDecision.
Proof. solve_decision. Defined.

Record RawRelayGrant := { grant_direction : Direction; grant_decision : RawDecision }.

Record RawRelayTransition := { transition_grant : RawRelayGrant; next_state : DirectionState }.

Definition plan (direction : Direction) (current peer : DirectionState)
    : result InvalidTransition RawRelayTransition :=
  let '(decision, next_state) :=
    match peer with
    | RawReady | PairPending => (Pair, PairPending)
    | _ => (Directional, Relaying)
    end in
  guard! negb (permits current next_state)
    else {| it_direction := direction; it_from := current; it_to := next_state |};
  Ok {| transition_grant := {| grant_direction := direction; grant_decision := decision |};
        next_state := next_state |}.

Definition into_grant (t : RawRelayTransition) : RawRelayGrant := transition_grant t.

(** ** Lemmas *)

Lemma from_repr_repr s : from_repr (repr s) = s.
Proof. by destruct s. Qed.

(** How far a state is along the lifecycle. *)
Definition rank (s : DirectionState) : nat :=
  match s with
  | Framed => 0 | DirectPending => 1 | RawReady => 2
  | Outer | PairPending | Relaying => 3
  | Closed | FailedState => 4
  end.

Lemma permits_rank a b : permits a b = true -> (rank a < rank b)%nat.
Proof. destruct a, b; cbn; (done || lia). Qed.

Lemma path_rank n a b :
  nsteps (fun a b => permits a b = true) n a b -> (rank a + n <= rank b)%nat.
Proof.
  induction 1 as [|n a b c Hab _ IH]; [lia|].
  pose proof (permits_rank _ _ Hab). lia.
Qed.

Lemma rank_bound s : (rank s <= 4)%nat.
Proof. destruct s; cbn; lia. Qed.

Lemma plan_ok d current peer t :
  plan d current peer = Ok t <->
  current = RawReady /\
  t = {| transition_grant :=
           {| grant_direction := d;
              grant_decision := match peer with RawReady | PairPending => Pair | _ => Directional end |};
         next_state := match peer with RawReady | PairPending => PairPending | _ => Relaying end |}.
Proof. destruct current, peer; cbn; naive_solver. Qed.

(** The lifecycle only moves forward and is bounded: a chain of permitted
    transitions from a fresh direction has at most four steps, none returns to a
    state it left, and the terminal states [Closed] and [Failed] have no
    successor; in particular an [Outer] direction never becomes [RawReady] and a
    [RawReady] one never returns to [Framed]. *)
Lemma lifecycle_forward_bounded (a b : DirectionState) (n : nat) :
  nsteps (fun a b => permits a b = true) n a b ->
  (n <= 4)%nat /\ (n <> 0%nat -> a <> b) /\
  ((a = Closed \/ a = FailedState) -> n = 0%nat) /\
  (a = Outer -> b <> RawReady) /\ (a = RawReady -> b <> Framed).
Proof.
  intros H%path_rank. pose proof (rank_bound b).
  split_and!; [lia | intros ? -> ; lia | intros [-> | ->]; cbn in H; lia | |];
    intros -> ->; cbn in H; lia.
Qed.

