(* ===== verification/DirectHandoff.v ===== *)
(** * Vision Direct handoff of two concurrent directions

    [src/server/direct.rs] (the shared coordinator: two atomic cells and a mutex
    over four socket-half slots) and the direction programs that drive it
    ([src/server/vision/relay.rs], [relay_uplink.rs], [relay_downlink.rs]), as
    an interleaving step relation: every atomic access and every critical
    section is a step of its own, so the two directions may interleave at any
    point between them. *)

From S2P Require Import Prelude Rendezvous Lifecycle.
From stdpp Require Import relations.
#[local] Open Scope Z_scope.

(** ** The coordinator *)

(** A half remembers the socket it was split from. *)
Inductive Socket := ClientSocket | DestinationSocket.
#[export] Instance Socket_eq_dec : EqDecision Socket.
Proof. solve_decision. Defined.

Record OwnedReadHalf := { read_of : Socket }.
Record OwnedWriteHalf := { write_of : Socket }.
Record RecoveredSockets := { client : Socket; destination : Socket }.

Record HandoffSlots := {
  client_reader : option OwnedReadHalf;
  client_writer : option OwnedWriteHalf;
  destination_reader : option OwnedReadHalf;
  destination_writer : option OwnedWriteHalf;
}.

Definition empty_slots : HandoffSlots :=
  {| client_reader := None; client_writer := None;
     destination_reader := None; destination_writer := None |}.

Definition slots_complete (s : HandoffSlots) : bool :=
  bool_decide (is_Some (client_reader s)) && bool_decide (is_Some (client_writer s)) &&
  bool_decide (is_Some (destination_reader s)) && bool_decide (is_Some (destination_writer s)).

Record DirectHandoff := { uplink : Z; downlink : Z; slots : HandoffSlots }.

Definition new_handoff : DirectHandoff :=
  {| uplink := repr Framed; downlink := repr Framed; slots := empty_slots |}.

Definition cell (h : DirectHandoff) (d : Direction) : Z :=
  match d with Uplink => uplink h | Downlink => downlink h end.

Definition set_cell (h : DirectHandoff) (d : Direction) (v : Z) : DirectHandoff :=
  match d with
  | Uplink => {| uplink := v; downlink := downlink h; slots := slots h |}
  | Downlink => {| uplink := uplink h; downlink := v; slots := slots h |}
  end.

Definition set_slots (h : DirectHandoff) (s : HandoffSlots) : DirectHandoff :=
  {| uplink := uplink h; downlink := downlink h; slots := s |}.

Definition state (h : DirectHandoff) (d : Direction) : DirectionState := from_repr (cell h d).

(** The compare-exchange loop of [advance]; [strong k] says that the [k]-th weak
    compare-exchange does not fail spuriously. [None] is fuel exhaustion. *)
Fixpoint advance_loop (fuel : nat) (strong : nat -> bool) (k : nat) (h : DirectHandoff)
    (direction : Direction) (next : DirectionState) (current : Z)
    : option (result InvalidTransition unit * DirectHandoff) :=
  match fuel with
  | O => None
  | S fuel =>
    let from := from_repr current in
    if negb (permits from next) then
      Some (Err {| it_direction := direction; it_from := from; it_to := next |}, h)
    else if (cell h direction =? current) && strong k then
      Some (Ok tt, set_cell h direction (repr next))
    else advance_loop fuel strong (S k) h direction next (cell h direction)
  end.

(** Its effect as one step (a direction's cell is written only by that
    direction): [advance_loop_advance] below. *)
Definition advance (h : DirectHandoff) (direction : Direction) (next : DirectionState)
    : result InvalidTransition unit * DirectHandoff :=
  let from := state h direction in
  if negb (permits from next)
  then (Err {| it_direction := direction; it_from := from; it_to := next |}, h)
  else (Ok tt, set_cell h direction (repr next)).

Definition peer (d : Direction) : Direction :=
  match d with Uplink => Downlink | Downlink => Uplink end.

Definition peer_can_pair (h : DirectHandoff) (d : Direction) : bool :=
  match state h (peer d) with RawReady | PairPending => true | _ => false end.

(** [decide]'s critical section is the steps [EnterDecide], [ReadStates] and
    [CommitDecision] of the session below; this is its sequential reading. *)
Definition decide_grant (h : DirectHandoff) (d : Direction)
    : result InvalidTransition RawRelayGrant * DirectHandoff :=
  match plan d (state h d) (state h (peer d)) with
  | Ok t =>
    match advance h d (next_state t) with
    | (Ok _, h) => (Ok (into_grant t), h)
    | (Err e, h) => (Err e, h)
    | (Panic, h) => (Panic, h)
    end
  | Err e => (Err e, h)
  | Panic => (Panic, h)
  end.

Inductive HandoffIoError := ClientHalvesMismatch | DestinationHalvesMismatch.

Definition reunite_half (r : OwnedReadHalf) (w : OwnedWriteHalf) : option Socket :=
  if bool_decide (read_of r = write_of w) then Some (read_of r) else None.

Definition reunite (s : HandoffSlots)
    : result HandoffIoError (option RecoveredSockets) * HandoffSlots :=
  if negb (slots_complete s) then (Ok None, s)
  else
    match client_reader s, client_writer s, destination_reader s, destination_writer s with
    | Some cr, Some cw, Some dr, Some dw =>
      match reunite_half cr cw with
      | None => (Err ClientHalvesMismatch, empty_slots)
      | Some c =>
        match reunite_half dr dw with
        | None => (Err DestinationHalvesMismatch, empty_slots)
        | Some d => (Ok (Some {| client := c; destination := d |}), empty_slots)
        end
      end
    | _, _, _, _ => (Ok None, s)
    end.

Definition deposit_uplink (s : HandoffSlots) (cr : OwnedReadHalf) (dw : OwnedWriteHalf)
    : result HandoffIoError (option RecoveredSockets) * HandoffSlots :=
  reunite {| client_reader := Some cr; client_writer := client_writer s;
             destination_reader := destination_reader s; destination_writer := Some dw |}.

Definition deposit_downlink (s : HandoffSlots) (dr : OwnedReadHalf) (cw : OwnedWriteHalf)
    : result HandoffIoError (option RecoveredSockets) * HandoffSlots :=
  reunite {| client_reader := client_reader s; client_writer := Some cw;
             destination_reader := Some dr; destination_writer := destination_writer s |}.

(** [settle]: a rejected transition is ignored. *)
Definition settle (h : DirectHandoff) (d : Direction) (s : DirectionState) : DirectHandoff :=
  (advance h d s).2.

(** ** The direction programs *)

Inductive SessionError := EnvironmentError | DirectTransition | HandoffError | RelayError.

(** Where one direction stands in [relay_uplink] / [relay_downlink]. *)
Inductive Pc :=
| FramedPhase
| OuterPhase
| Draining
| Observing (r : PairRendezvous)
| Deciding
| Locked
| Planned (t : RawRelayTransition)
| Depositing
| PairRelay (s : RecoveredSockets)
| DirectionalRelay
| Finished (r : result SessionError unit)
| Dropped.

(** What the environment answers at a step. *)
Inductive Event :=
| FramedEof | FramedEnd | FramedReadError | FramedError | FramedDirect
| OuterEof | OuterError
| DrainOk | DrainError
| Observe
| EnterDecide | ReadStates | CommitDecision
| Deposit
| RelayDone | RelayBroken
| Drop.

(** The whole session: the coordinator, the mutex holder, each direction's
    position, and (as ghosts) each direction's grant and whether it deposited,
    the number of bilateral relays started, and whether the session is being
    torn down (a direction failed, or the idle policy expired). *)
Record Session := {
  handoff : DirectHandoff;
  mutex : option Direction;
  pcs : Direction -> Pc;
  grants : Direction -> option RawDecision;
  deposited : Direction -> bool;
  bilateral_runs : nat;
  cancelled : bool;
}.

Definition upd {A} (f : Direction -> A) (d : Direction) (v : A) : Direction -> A :=
  fun x => if decide (x = d) then v else f x.

Definition start : Session :=
  {| handoff := new_handoff; mutex := None; pcs := fun _ => FramedPhase;
     grants := fun _ => None; deposited := fun _ => false; bilateral_runs := 0;
     cancelled := false |}.

Definition goto (s : Session) (h : DirectHandoff) (d : Direction) (pc : Pc) : Session :=
  {| handoff := h; mutex := mutex s; pcs := upd (pcs s) d pc; grants := grants s;
     deposited := deposited s; bilateral_runs := bilateral_runs s; cancelled := cancelled s |}.

(** Returning an error tears the session down ([try_join!]). *)
Definition finish_err (s : Session) (h : DirectHandoff) (d : Direction) (e : SessionError) : Session :=
  {| handoff := h; mutex := mutex s; pcs := upd (pcs s) d (Finished (Err e)); grants := grants s;
     deposited := deposited s; bilateral_runs := bilateral_runs s; cancelled := true |}.

Definition with_mutex (s : Session) (m : option Direction) : Session :=
  {| handoff := handoff s; mutex := m; pcs := pcs s; grants := grants s;
     deposited := deposited s; bilateral_runs := bilateral_runs s; cancelled := cancelled s |}.

Definition with_grant (s : Session) (d : Direction) (g : RawDecision) : Session :=
  {| handoff := handoff s; mutex := mutex s; pcs := pcs s; grants := upd (grants s) d (Some g);
     deposited := deposited s; bilateral_runs := bilateral_runs s; cancelled := cancelled s |}.

Definition with_deposit (s : Session) (d : Direction) (runs : nat) : Session :=
  {| handoff := handoff s; mutex := mutex s; pcs := pcs s; grants := grants s;
     deposited := upd (deposited s) d true; bilateral_runs := runs; cancelled := cancelled s |}.

(** [advance(..).map_err(VisionSessionError::DirectTransition)?], then [pc]. *)
Definition advance_to (s : Session) (d : Direction) (next : DirectionState) (pc : Pc) : Session :=
  match advance (handoff s) d next with
  | (Ok _, h) => goto s h d pc
  | (_, h) => finish_err s h d DirectTransition
  end.

(** The two halves each direction owns until it deposits them. *)
Definition deposit_halves (s : HandoffSlots) (d : Direction)
    : result HandoffIoError (option RecoveredSockets) * HandoffSlots :=
  match d with
  | Uplink => deposit_uplink s {| read_of := ClientSocket |} {| write_of := DestinationSocket |}
  | Downlink => deposit_downlink s {| read_of := DestinationSocket |} {| write_of := ClientSocket |}
  end.

(** The framed phase: a clean end of stream settles [Closed]; the downlink's
    padding end settles [Outer] and continues over outer TLS; the uplink settles
    [Failed] on a read error, any other error returns without settling; an
    authenticated Direct command enters the handoff. *)
Definition framed_step (d : Direction) (e : Event) (s : Session) : option Session :=
  let h := handoff s in
  match e with
  | FramedEof => Some (goto s (settle h d Closed) d (Finished (Ok tt)))
  | FramedEnd =>
    match d with
    | Downlink => Some (goto s (settle h d Outer) d OuterPhase)
    | Uplink => None
    end
  | FramedReadError =>
    match d with
    | Uplink => Some (finish_err s (settle h d FailedState) d EnvironmentError)
    | Downlink => None
    end
  | FramedError => Some (finish_err s h d EnvironmentError)
  | FramedDirect => Some (advance_to s d DirectPending Draining)
  | _ => None
  end.

Definition outer_step (d : Direction) (e : Event) (s : Session) : option Session :=
  match e with
  | OuterEof => Some (goto s (settle (handoff s) d Closed) d (Finished (Ok tt)))
  | OuterError => Some (finish_err s (handoff s) d EnvironmentError)
  | _ => None
  end.

(** [finish_uplink_direct] / [finish_downlink_direct] up to the raw boundary. *)
Definition draining_step (d : Direction) (e : Event) (s : Session) : option Session :=
  match e with
  | DrainOk => Some (advance_to s d RawReady (Observing new_rendezvous))
  | DrainError => Some (finish_err s (handoff s) d EnvironmentError)
  | _ => None
  end.

(** [decide_raw_relay]: the rendezvous loop, then the critical section of [decide]. *)
Definition decide_step (d : Direction) (e : Event) (s : Session) : option Session :=
  let h := handoff s in
  match pcs s d, e with
  | Observing r, Observe =>
    Some (match step r (peer_can_pair h d) with
          | (Yield, r) => goto s h d (Observing r)
          | (Commit, _) => goto s h d Deciding
          end)
  | Deciding, EnterDecide =>
    match mutex s with
    | None => Some (with_mutex (goto s h d Locked) (Some d))
    | Some _ => None
    end
  | Locked, ReadStates =>
    Some (match plan d (state h d) (state h (peer d)) with
          | Ok t => goto s h d (Planned t)
          | _ => with_mutex (finish_err s h d DirectTransition) None
          end)
  | Planned t, CommitDecision =>
    Some (match advance h d (next_state t) with
          | (Ok _, h) =>
            let g := grant_decision (into_grant t) in
            with_grant (with_mutex
              (goto s h d (match g with Pair => Depositing | Directional => DirectionalRelay end))
              None) d g
          | (_, h) => with_mutex (finish_err s h d DirectTransition) None
          end)
  | _, _ => None
  end.

(** Depositing, and [run_handoff] / [run_directional]: the first depositor returns
    at once and stays [PairPending]. *)
Definition relay_step (d : Direction) (e : Event) (s : Session) : option Session :=
  let h := handoff s in
  match pcs s d, e with
  | Depositing, Deposit =>
    match mutex s with
    | Some _ => None
    | None =>
      Some (match deposit_halves (slots h) d with
            | (Ok None, sl) =>
              with_deposit (goto s (set_slots h sl) d (Finished (Ok tt))) d (bilateral_runs s)
            | (Ok (Some socks), sl) =>
              with_deposit (goto s (set_slots h sl) d (PairRelay socks)) d (S (bilateral_runs s))
            | (_, sl) => finish_err s (set_slots h sl) d HandoffError
            end)
    end
  | PairRelay _, RelayDone | DirectionalRelay, RelayDone =>
    Some (goto s (settle h d Closed) d (Finished (Ok tt)))
  | PairRelay _, RelayBroken | DirectionalRelay, RelayBroken =>
    Some (finish_err s (settle h d FailedState) d RelayError)
  | _, _ => None
  end.

(** A torn-down session drops a direction at an await point. *)
Definition awaiting (pc : Pc) : bool :=
  match pc with
  | Locked | Planned _ | Finished _ | Dropped => false
  | _ => true
  end.

Definition exec (d : Direction) (e : Event) (s : Session) : option Session :=
  match e with
  | Drop =>
    if cancelled s && awaiting (pcs s d) then Some (goto s (handoff s) d Dropped) else None
  | _ =>
    match pcs s d with
    | FramedPhase => framed_step d e s
    | OuterPhase => outer_step d e s
    | Draining => draining_step d e s
    | Observing _ | Deciding | Locked | Planned _ => decide_step d e s
    | Depositing | PairRelay _ | DirectionalRelay => relay_step d e s
    | Finished _ | Dropped => None
    end
  end.

(** [activity.expired(..)]: the idle policy may end the session at any time. *)
Definition expire (s : Session) : Session :=
  {| handoff := handoff s; mutex := mutex s; pcs := pcs s; grants := grants s;
     deposited := deposited s; bilateral_runs := bilateral_runs s; cancelled := true |}.

Inductive session_step : Session -> Session -> Prop :=
| step_exec d e s s' : exec d e s = Some s' -> session_step s s'
| step_expire s : cancelled s = false -> session_step s (expire s).

Definition reachable (s : Session) : Prop := rtc session_step start s.

Definition ended (s : Session) (d : Direction) : Prop :=
  match pcs s d with Finished _ | Dropped => True | _ => False end.

(** ** The invariant

    What one direction shows of itself: its position, its cell, its grant and
    whether its halves went into the slots. *)
Record View := { v_pc : Pc; v_state : DirectionState; v_grant : option RawDecision; v_dep : bool }.

Definition view (s : Session) (d : Direction) : View :=
  {| v_pc := pcs s d; v_state := state (handoff s) d; v_grant := grants s d; v_dep := deposited s d |}.

Definition both_sockets : RecoveredSockets :=
  {| client := ClientSocket; destination := DestinationSocket |}.

(** The cell always agrees with the program position, and the protocol errors
    ([DirectTransition], [HandoffError]) are never the reason a direction ended. *)
Definition local_ok (cancelled : bool) (v : View) : Prop :=
  match v_pc v with
  | FramedPhase => v_state v = Framed /\ v_grant v = None /\ v_dep v = false
  | OuterPhase => v_state v = Outer /\ v_grant v = None /\ v_dep v = false
  | Draining => v_state v = DirectPending /\ v_grant v = None /\ v_dep v = false
  | Observing r => v_state v = RawReady /\ v_grant v = None /\ v_dep v = false /\ rendezvous_inv r
  | Deciding | Locked | Planned _ => v_state v = RawReady /\ v_grant v = None /\ v_dep v = false
  | Depositing => v_state v = PairPending /\ v_grant v = Some Pair /\ v_dep v = false
  | PairRelay socks =>
    v_state v = PairPending /\ v_grant v = Some Pair /\ v_dep v = true /\ socks = both_sockets
  | DirectionalRelay => v_state v = Relaying /\ v_grant v = Some Directional /\ v_dep v = false
  | Finished r =>
    (r = Ok tt \/ ((r = Err EnvironmentError \/ r = Err RelayError) /\ cancelled = true)) /\
    match v_grant v with
    | None => v_dep v = false /\ v_state v <> RawReady /\ v_state v <> PairPending
              /\ v_state v <> Relaying
    | Some Pair => v_dep v = true
    | Some Directional => v_dep v = false /\ (v_state v = Closed \/ v_state v = FailedState)
    end
  | Dropped =>
    cancelled = true /\
    match v_grant v with
    | None => v_dep v = false /\ v_state v <> PairPending /\ v_state v <> Relaying
    | Some Pair => v_state v = PairPending
    | Some Directional => v_dep v = false /\ v_state v = Relaying
    end
  end.

(** What the other direction may rely on: a pair grant is never met by a
    directional one, and a direction that has not decided yet while its peer
    holds a pair grant stands at its raw boundary. *)
Definition joint_ok (v w : View) : Prop :=
  (v_grant v = Some Pair ->
     v_grant w <> Some Directional /\ (v_grant w = None -> v_state w = RawReady) /\
     (v_state v <> PairPending -> v_dep w = true)) /\
  (forall t, v_pc v = Planned t ->
     (grant_decision (transition_grant t) = Pair /\ next_state t = PairPending /\
        v_grant w <> Some Directional /\ (v_state w = RawReady \/ v_state w = PairPending)) \/
     (grant_decision (transition_grant t) = Directional /\ next_state t = Relaying /\
        v_grant w <> Some Pair)) /\
  (forall socks, v_pc v = PairRelay socks ->
     v_dep w = true /\ forall socks', v_pc w <> PairRelay socks').

Definition in_section (pc : Pc) : bool :=
  match pc with Locked | Planned _ => true | _ => false end.

Definition expected_slots (up down : bool) : HandoffSlots :=
  match up, down with
  | true, false =>
    {| client_reader := Some {| read_of := ClientSocket |}; client_writer := None;
       destination_reader := None; destination_writer := Some {| write_of := DestinationSocket |} |}
  | false, true =>
    {| client_reader := None; client_writer := Some {| write_of := ClientSocket |};
       destination_reader := Some {| read_of := DestinationSocket |}; destination_writer := None |}
  | _, _ => empty_slots
  end.

Record inv (s : Session) : Prop := {
  inv_local : forall d, local_ok (cancelled s) (view s d);
  inv_joint : forall d, joint_ok (view s d) (view s (peer d));
  inv_mutex : forall d, mutex s = Some d <-> in_section (pcs s d) = true;
  inv_slots : slots (handoff s) = expected_slots (deposited s Uplink) (deposited s Downlink);
  inv_runs : bilateral_runs s = (if deposited s Uplink && deposited s Downlink then 1 else 0)%nat;
}.

Lemma upd_same {A} (f : Direction -> A) d v : upd f d v d = v.
Proof. unfold upd. by rewrite decide_True. Qed.

Lemma upd_peer {A} (f : Direction -> A) d v : upd f d v (peer d) = f (peer d).
Proof. unfold upd. rewrite decide_False; [done | by destruct d]. Qed.

Lemma peer_peer d : peer (peer d) = d.
Proof. by destruct d. Qed.

Lemma state_set_same h d v : state (set_cell h d (repr v)) d = v.
Proof. destruct d; apply from_repr_repr. Qed.

Lemma state_set_peer h d v : state (set_cell h d v) (peer d) = state h (peer d).
Proof. by destruct d. Qed.

Lemma slots_set_cell h d v : slots (set_cell h d v) = slots h.
Proof. by destruct d. Qed.

Lemma state_set_slots h sl d : state (set_slots h sl) d = state h d.
Proof. by destruct d. Qed.

#[local] Hint Rewrite @upd_same @upd_peer state_set_same state_set_peer slots_set_cell
  state_set_slots : session.

Lemma local_ok_mono c v : local_ok c v -> local_ok true v.
Proof. unfold local_ok. destruct (v_pc v); naive_solver. Qed.

(** A step of [d] re-establishes the invariant when the new view of [d] is
    locally right, compatible with the unchanged view of the peer, and the
    shared fields agree. *)
Lemma inv_preserved s s' d :
  inv s ->
  view s' (peer d) = view s (peer d) ->
  (cancelled s = true -> cancelled s' = true) ->
  local_ok (cancelled s') (view s' d) ->
  joint_ok (view s' d) (view s (peer d)) ->
  joint_ok (view s (peer d)) (view s' d) ->
  (mutex s' = Some d <-> in_section (pcs s' d) = true) ->
  (mutex s' = Some (peer d) <-> in_section (pcs s (peer d)) = true) ->
  slots (handoff s') = expected_slots (deposited s' Uplink) (deposited s' Downlink) ->
  bilateral_runs s' = (if deposited s' Uplink && deposited s' Downlink then 1 else 0)%nat ->
  inv s'.
Proof.
  intros Hinv Hv Hc Hl Hj Hj' Hm Hm' Hs Hr.
  assert (Hcases : forall x, x = d \/ x = peer d) by (intros []; destruct d; auto).
  constructor; try done.
  - intros x. destruct (Hcases x) as [-> | ->]; [done|]. rewrite Hv.
    pose proof (inv_local s Hinv (peer d)) as Hp.
    destruct (cancelled s'); [by eapply local_ok_mono|].
    destruct (cancelled s); [specialize (Hc eq_refl); done | done].
  - intros x. destruct (Hcases x) as [-> | ->]; rewrite ?peer_peer, Hv; done.
  - intros x. destruct (Hcases x) as [-> | ->]; [done|].
    assert (Hpc : pcs s' (peer d) = pcs s (peer d)) by (by injection Hv).
    by rewrite Hpc.
Qed.

(** A step that only moves [d] (and its own cell) and leaves the mutex, the
    deposits and the slots alone. *)
Lemma inv_move s h d pc (cancel : bool) :
  inv s ->
  slots h = slots (handoff s) ->
  state h (peer d) = state (handoff s) (peer d) ->
  in_section pc = in_section (pcs s d) ->
  let v := {| v_pc := pc; v_state := state h d; v_grant := grants s d; v_dep := deposited s d |} in
  local_ok (cancel || cancelled s) v ->
  joint_ok v (view s (peer d)) ->
  joint_ok (view s (peer d)) v ->
  inv {| handoff := h; mutex := mutex s; pcs := upd (pcs s) d pc; grants := grants s;
         deposited := deposited s; bilateral_runs := bilateral_runs s;
         cancelled := cancel || cancelled s |}.
Proof.
  intros Hinv Hs Hp Hsec v Hl Hj Hj'.
  apply (inv_preserved s _ d); unfold view; cbn; autorewrite with session; try done.
  - by rewrite Hp.
  - intros ->. apply orb_true_r.
  - rewrite Hsec. apply (inv_mutex s Hinv).
  - apply (inv_mutex s Hinv).
  - rewrite Hs. apply (inv_slots s Hinv).
  - apply (inv_runs s Hinv).
Qed.

(** The two directions' views, their joint facts in both orders. *)
Ltac facts s d Hinv :=
  let Hl := fresh "Hl" in let Hlp := fresh "Hlp" in let Hj := fresh "Hj" in let Hjp := fresh "Hjp" in
  pose proof (inv_local s Hinv d) as Hl; pose proof (inv_local s Hinv (peer d)) as Hlp;
  pose proof (inv_joint s Hinv d) as Hj; pose proof (inv_joint s Hinv (peer d)) as Hjp;
  rewrite peer_peer in Hjp.

Lemma advance_ok h d next :
  permits (state h d) next = true -> advance h d next = (Ok tt, set_cell h d (repr next)).
Proof. intros H. unfold advance. by rewrite H. Qed.

Lemma settle_ok h d next :
  permits (state h d) next = true -> settle h d next = set_cell h d (repr next).
Proof. intros H. unfold settle. by rewrite advance_ok. Qed.

Lemma plan_session s d :
  inv s -> pcs s d = Locked ->
  exists t, plan d (state (handoff s) d) (state (handoff s) (peer d)) = Ok t /\
    (forall v, v_grant v = None -> v_dep v = false -> v_pc v = Planned t ->
       joint_ok v (view s (peer d))).
Proof.
  intros Hinv Hpc. facts s d Hinv. unfold local_ok, view in Hl. cbn in Hl. rewrite Hpc in Hl.
  destruct Hl as (Hst & Hg & Hdep). rewrite Hst.
  eexists. split; [apply plan_ok; split; done|].
  intros v Hvg Hvd Hvp. unfold joint_ok. rewrite Hvg, Hvp. split; [done|]. split; [|done].
  intros t [= <-]. cbn.
  assert (Hnd : state (handoff s) (peer d) = RawReady \/ state (handoff s) (peer d) = PairPending ->
    grants s (peer d) <> Some Directional).
  { intros Hor Hd. unfold local_ok, view in Hlp. cbn in Hlp. rewrite Hd in Hlp.
    destruct (pcs s (peer d)); intuition congruence. }
  assert (Hnp : state (handoff s) (peer d) <> PairPending -> grants s (peer d) <> Some Pair).
  { intros Hn Hd. destruct Hjp as [Hjp _]. cbn in Hjp. destruct (Hjp Hd) as (_ & _ & H).
    rewrite Hdep in H. by specialize (H Hn). }
  destruct (state (handoff s) (peer d)) eqn:Hp;
    solve [left; split_and!; auto | right; split_and!; auto].
Qed.

Lemma joint_undecided v w :
  v_grant v = None -> in_section (v_pc v) = false -> (forall k, v_pc v <> PairRelay k) ->
  joint_ok v w.
Proof.
  intros Hg Hs Hp. unfold joint_ok. rewrite Hg. split; [done|]. split.
  - intros t Ht. by rewrite Ht in Hs.
  - intros k Hk. by destruct (Hp k).
Qed.

(** A direction that has not reached its raw boundary may move freely. *)
Lemma joint_early w v v' :
  joint_ok w v -> v_grant v = None -> v_dep v = false ->
  v_state v <> RawReady -> v_state v <> PairPending ->
  v_grant v' = None -> joint_ok w v'.
Proof.
  intros (Hp & Hpl & Hr) Hg Hd Hn1 Hn2 Hg'. unfold joint_ok. rewrite Hg'. split_and!.
  - intros Hw. destruct (Hp Hw) as (_ & H & _). by specialize (H Hg).
  - intros t Ht. destruct (Hpl t Ht) as [(_ & _ & _ & [|])|(? & ? & ?)]; [done..|].
    right. done.
  - intros k Hk. destruct (Hr k Hk) as [H _]. congruence.
Qed.

(** A direction at its raw boundary stays visibly so until it commits. *)
Lemma joint_boundary w v v' :
  joint_ok w v -> v_state v = RawReady -> v_dep v = false ->
  v_state v' = RawReady -> v_grant v' = v_grant v -> v_dep v' = v_dep v ->
  joint_ok w v'.
Proof.
  intros (Hp & Hpl & Hr) Hs Hd Hs' Hg Hd'. unfold joint_ok. rewrite Hg, Hs', Hd'.
  rewrite Hs in Hp, Hpl. split_and!; [done | naive_solver |].
  intros k Hk. destruct (Hr k Hk) as [H _]. congruence.
Qed.

Ltac early s d Hinv Hpc :=
  let Hl := fresh "Hl" in
  pose proof (inv_local s Hinv d) as Hl; unfold local_ok in Hl; cbn in Hl; rewrite Hpc in Hl;
  destruct Hl as (Hst & Hg & Hdep).

Lemma move_early s d h pc (cancel : bool) :
  inv s -> in_section (pcs s d) = false ->
  grants s d = None -> deposited s d = false ->
  state (handoff s) d <> RawReady -> state (handoff s) d <> PairPending ->
  slots h = slots (handoff s) -> state h (peer d) = state (handoff s) (peer d) ->
  in_section pc = false -> (forall k, pc <> PairRelay k) ->
  local_ok (cancel || cancelled s)
    {| v_pc := pc; v_state := state h d; v_grant := None; v_dep := false |} ->
  inv {| handoff := h; mutex := mutex s; pcs := upd (pcs s) d pc; grants := grants s;
         deposited := deposited s; bilateral_runs := bilateral_runs s;
         cancelled := cancel || cancelled s |}.
Proof.
  intros Hinv Hsec Hg Hd Hn1 Hn2 Hs Hp Hsec' Hpr Hl.
  apply inv_move; rewrite ?Hg, ?Hd; try done; [congruence | by apply joint_undecided |].
  pose proof (inv_joint s Hinv (peer d)) as Hj. rewrite peer_peer in Hj.
  by eapply joint_early.
Qed.

Lemma framed_step_inv s d e s' :
  inv s -> pcs s d = FramedPhase -> framed_step d e s = Some s' -> inv s'.
Proof.
  intros Hinv Hpc Hstep. early s d Hinv Hpc. cbn in Hst, Hg, Hdep.
  assert (Hmove : forall h pc (cancel : bool),
    (h = handoff s \/ exists st, h = set_cell (handoff s) d (repr st)) ->
    in_section pc = false -> (forall k, pc <> PairRelay k) ->
    local_ok (cancel || cancelled s)
      {| v_pc := pc; v_state := state h d; v_grant := None; v_dep := false |} ->
    inv {| handoff := h; mutex := mutex s; pcs := upd (pcs s) d pc; grants := grants s;
           deposited := deposited s; bilateral_runs := bilateral_runs s;
           cancelled := cancel || cancelled s |}).
  { intros h pc cancel [-> | [st ->]] ? ? ?; apply move_early; try done;
      rewrite ?Hpc, ?Hst; autorewrite with session; done. }
  unfold framed_step, advance_to in Hstep.
  destruct e; try done; [| destruct d; [done|] | destruct d; [|done] | |];
    rewrite ?settle_ok, ?advance_ok in Hstep by (rewrite Hst; done);
    apply (inj Some) in Hstep; subst s'.
  - apply (Hmove _ _ false); [eauto|done|done|]. autorewrite with session. cbn. intuition congruence.
  - apply (Hmove _ _ false); [eauto|done|done|]. autorewrite with session. done.
  - apply (Hmove _ _ true); [eauto|done|done|]. autorewrite with session. cbn. intuition congruence.
  - apply (Hmove _ _ true); [eauto|done|done|]. cbn. rewrite Hst. intuition congruence.
  - apply (Hmove _ _ false); [eauto|done|done|]. autorewrite with session. done.
Qed.

Lemma outer_step_inv s d e s' :
  inv s -> pcs s d = OuterPhase -> outer_step d e s = Some s' -> inv s'.
Proof.
  intros Hinv Hpc Hstep. early s d Hinv Hpc. cbn in Hst, Hg, Hdep.
  unfold outer_step in Hstep. destruct e; try done;
    rewrite ?settle_ok in Hstep by (rewrite Hst; done); apply (inj Some) in Hstep; subst s'.
  - apply (move_early _ _ _ _ false); rewrite ?Hpc, ?Hst; autorewrite with session; try done.
    cbn. intuition congruence.
  - apply (move_early _ _ _ _ true); rewrite ?Hpc, ?Hst; try done. cbn. intuition congruence.
Qed.

Lemma draining_step_inv s d e s' :
  inv s -> pcs s d = Draining -> draining_step d e s = Some s' -> inv s'.
Proof.
  intros Hinv Hpc Hstep. early s d Hinv Hpc. cbn in Hst, Hg, Hdep.
  unfold draining_step, advance_to in Hstep. destruct e; try done;
    rewrite ?advance_ok in Hstep by (rewrite Hst; done); apply (inj Some) in Hstep; subst s'.
  - apply (move_early _ _ _ _ false); rewrite ?Hpc, ?Hst; autorewrite with session; done.
  - apply (move_early _ _ _ _ true); rewrite ?Hpc, ?Hst; try done. cbn. intuition congruence.
Qed.

(** Moving at the raw boundary without deciding. *)
Lemma move_boundary s d pc (cancel : bool) :
  inv s -> state (handoff s) d = RawReady -> grants s d = None -> deposited s d = false ->
  in_section pc = in_section (pcs s d) ->
  local_ok (cancel || cancelled s)
    {| v_pc := pc; v_state := RawReady; v_grant := None; v_dep := false |} ->
  joint_ok {| v_pc := pc; v_state := RawReady; v_grant := None; v_dep := false |} (view s (peer d)) ->
  inv {| handoff := handoff s; mutex := mutex s; pcs := upd (pcs s) d pc; grants := grants s;
         deposited := deposited s; bilateral_runs := bilateral_runs s;
         cancelled := cancel || cancelled s |}.
Proof.
  intros Hinv Hst Hg Hd Hsec Hl Hj.
  apply inv_move; rewrite ?Hst, ?Hg, ?Hd; try done.
  pose proof (inv_joint s Hinv (peer d)) as Hjp. rewrite peer_peer in Hjp.
  eapply joint_boundary; [exact Hjp | done | done | done | done | done].
Qed.

(** A direction's grant, committed inside the critical section, is compatible
    with whatever the peer did and will see. *)
Lemma commit_inv s d t :
  inv s -> pcs s d = Planned t ->
  let g := grant_decision (transition_grant t) in
  permits RawReady (next_state t) = true /\
  inv (with_grant (with_mutex
    (goto s (set_cell (handoff s) d (repr (next_state t))) d
      (match g with Pair => Depositing | Directional => DirectionalRelay end)) None) d g).
Proof.
  intros Hinv Hpc g. early s d Hinv Hpc. cbn in Hst, Hg, Hdep.
  pose proof (inv_joint s Hinv d) as (_ & Hpl & _). specialize (Hpl t Hpc).
  pose proof (inv_joint s Hinv (peer d)) as (Hjp & Hplp & Hrp). rewrite peer_peer in Hjp, Hplp, Hrp.
  cbn in *. rewrite Hg, Hst, Hdep in *.
  assert (Hmx : mutex s = Some d) by (apply (inv_mutex s Hinv); by rewrite Hpc).
  assert (Hpsec : in_section (pcs s (peer d)) = false).
  { destruct (in_section (pcs s (peer d))) eqn:E; [|done]. apply (inv_mutex s Hinv) in E.
    rewrite Hmx in E. injection E. by destruct d. }
  assert (Hnp : forall tp, pcs s (peer d) <> Planned tp) by (intros tp E; by rewrite E in Hpsec).
  assert (Hnr : forall k, pcs s (peer d) <> PairRelay k).
  { intros k E. destruct (Hrp k E) as [? _]. done. }
  split; [destruct Hpl as [(_ & -> & _)|(_ & -> & _)]; done|].
  apply (inv_preserved s _ d); unfold view; cbn; autorewrite with session; try done;
    rewrite ?Hdep.
  - unfold g. destruct Hpl as [(-> & -> & _)|(-> & -> & _)]; done.
  - unfold joint_ok; cbn. unfold g.
    destruct Hpl as [(-> & -> & Hd & Hor)|(-> & -> & Hd)]; cbn; (split; [|split; [done|done]]); [|done].
    intros _. split; [done|]. split; [|done]. intros Hnone. destruct Hor as [|Hpp]; [done|].
    pose proof (inv_local s Hinv (peer d)) as Hlp. unfold local_ok in Hlp. cbn in Hlp.
    rewrite Hpp, Hnone in Hlp. destruct (pcs s (peer d)); intuition congruence.
  - unfold joint_ok; cbn. unfold g. split; [|split; [intros tp E; by destruct (Hnp tp)|
      intros k E; by destruct (Hnr k)]].
    intros Hw. destruct (Hjp Hw) as (_ & _ & H2).
    destruct Hpl as [(-> & -> & _)|(-> & -> & Hd)]; [|done]. cbn. split_and!; done.
  - unfold g. destruct (grant_decision _); done.
  - rewrite Hpsec. done.
  - apply (inv_slots s Hinv).
  - apply (inv_runs s Hinv).
Qed.

Lemma decide_step_inv s d e s' : inv s -> decide_step d e s = Some s' -> inv s'.
Proof.
  intros Hinv Hstep. unfold decide_step in Hstep.
  destruct (pcs s d) as [| | |r| | |t| | | | |] eqn:Hpc; try done; destruct e; try done.
  - pose proof (inv_local s Hinv d) as Hl. unfold local_ok in Hl. cbn in Hl. rewrite Hpc in Hl.
    destruct Hl as (Hst & Hg & Hdep & Hr).
    pose proof (step_inv r (peer_can_pair (handoff s) d) Hr) as Hr'.
    destruct (step r (peer_can_pair (handoff s) d)) as [[] r'];
      apply (inj Some) in Hstep; subst s'; apply (move_boundary _ _ _ false); rewrite ?Hpc; try done;
      by apply joint_undecided.
  - early s d Hinv Hpc. destruct (mutex s) eqn:Hm; [done|].
    apply (inj Some) in Hstep; subst s'.
    pose proof (inv_joint s Hinv (peer d)) as Hjp. rewrite peer_peer in Hjp.
    apply (inv_preserved s _ d); unfold view; cbn; autorewrite with session; try done;
      rewrite ?Hst, ?Hg, ?Hdep.
    + done.
    + eapply joint_boundary; [exact Hjp | done..].
    + pose proof (inv_mutex s Hinv (peer d)) as [_ H]. rewrite Hm in H.
      destruct (in_section _); [by specialize (H eq_refl)|]. split; [|done].
      intros [= E]. by destruct d.
    + apply (inv_slots s Hinv).
    + apply (inv_runs s Hinv).
  - early s d Hinv Hpc. destruct (plan_session s d Hinv Hpc) as (t & Ht & Hj). rewrite Ht in Hstep.
    apply (inj Some) in Hstep; subst s'.
    apply (move_boundary _ _ _ false); rewrite ?Hpc; try done. by apply Hj.
  - early s d Hinv Hpc. destruct (commit_inv s d t Hinv Hpc) as [Hperm Hres].
    rewrite advance_ok in Hstep by (rewrite Hst; done).
    apply (inj Some) in Hstep; subst s'. exact Hres.
Qed.

(** Depositing into the slots: the first depositor fills its two, the second
    reunites both sockets. *)
Lemma deposit_halves_spec d (mine other : bool) up down :
  mine = false ->
  (up, down) = (match d with Uplink => (mine, other) | Downlink => (other, mine) end) ->
  deposit_halves (expected_slots up down) d =
    (Ok (if other then Some both_sockets else None),
     match d with Uplink => expected_slots true other | Downlink => expected_slots other true end).
Proof. intros -> H. destruct d, other; injection H as -> ->; vm_compute; done. Qed.

Lemma deposit_step_inv s d s' :
  inv s -> pcs s d = Depositing -> relay_step d Deposit s = Some s' -> inv s'.
Proof.
  intros Hinv Hpc Hstep. early s d Hinv Hpc. unfold relay_step in Hstep. rewrite Hpc in Hstep.
  destruct (mutex s) eqn:Hm; [done|].
  pose proof (inv_joint s Hinv (peer d)) as (Hjp & Hplp & Hrp). rewrite peer_peer in Hjp, Hplp, Hrp.
  pose proof (inv_joint s Hinv d) as (Hj & _ & _).
  pose proof (inv_local s Hinv (peer d)) as Hlp. unfold local_ok in Hlp. cbn in *.
  rewrite Hg, Hst, Hdep in *. destruct (Hj eq_refl) as (Hj1 & Hj2 & _).
  assert (Hpsec : in_section (pcs s (peer d)) = false).
  { destruct (in_section (pcs s (peer d))) eqn:E; [|done]. apply (inv_mutex s Hinv) in E. congruence. }
  assert (Hnp : forall tp, pcs s (peer d) <> Planned tp) by (intros tp E; by rewrite E in Hpsec).
  assert (Hnr : forall k, pcs s (peer d) <> PairRelay k).
  { intros k E. destruct (Hrp k E) as [? _]. done. }
  assert (Hpg : deposited s (peer d) = true -> grants s (peer d) = Some Pair).
  { intros Hpd. rewrite Hpd in Hlp.
    destruct (pcs s (peer d)), (grants s (peer d)) as [[]|]; intuition congruence. }
  rewrite (inv_slots s Hinv) in Hstep.
  rewrite (deposit_halves_spec d false (deposited s (peer d))) in Hstep
    by (done || (destruct d; cbn; by rewrite Hdep)).
  assert (Hcore : forall pc runs,
    pc = (if deposited s (peer d) then PairRelay both_sockets else Finished (Ok tt)) ->
    runs = (if deposited s (peer d) then S (bilateral_runs s) else bilateral_runs s) ->
    inv (with_deposit (goto s (set_slots (handoff s)
           (match d with Uplink => expected_slots true (deposited s (peer d))
                       | Downlink => expected_slots (deposited s (peer d)) true end)) d pc) d runs)).
  { intros pc runs -> ->.
    apply (inv_preserved s _ d); unfold view; cbn; autorewrite with session; try done;
      rewrite ?Hst, ?Hg, ?Hm.
    - destruct (deposited s (peer d)); cbn; intuition congruence.
    - unfold joint_ok; cbn. split; [intuition congruence|]. split.
      + intros t. destruct (deposited s (peer d)); done.
      + intros k. destruct (deposited s (peer d)) eqn:E; [|done]. intros _. done.
    - unfold joint_ok; cbn. split; [|split; [intros tp E; by destruct (Hnp tp)|
        intros k E; by destruct (Hnr k)]].
      intros Hw. split; [done|]. split; [done|]. done.
    - destruct (deposited s (peer d)); done.
    - rewrite Hpsec. done.
    - destruct d; cbn; rewrite !upd_same, ?(upd_peer _ Uplink), ?(upd_peer _ Downlink); reflexivity.
    - rewrite (inv_runs s Hinv).
      unfold upd. destruct d; cbn in *; rewrite Hdep; destruct (deposited s _); reflexivity. }
  destruct (deposited s (peer d)) eqn:Hpd; apply (inj Some) in Hstep; subst s'; by apply Hcore.
Qed.

Lemma relay_end_inv s d h pc (cancel : bool) :
  inv s -> (exists k, pcs s d = PairRelay k) \/ pcs s d = DirectionalRelay ->
  (h = set_cell (handoff s) d (repr Closed) \/ h = set_cell (handoff s) d (repr FailedState)) ->
  (pc = Finished (Ok tt) \/ (pc = Finished (Err RelayError) /\ cancel = true)) ->
  inv {| handoff := h; mutex := mutex s; pcs := upd (pcs s) d pc; grants := grants s;
         deposited := deposited s; bilateral_runs := bilateral_runs s;
         cancelled := cancel || cancelled s |}.
Proof.
  intros Hinv Hpc Hh Hpc'. 
  assert (Hsec : in_section pc = false /\ (forall k, pc <> PairRelay k) /\ forall t, pc <> Planned t)
    by (destruct Hpc' as [-> | [-> _]]; done).
  destruct Hsec as (Hsec & Hnr & Hnp).
  assert (Hst : state h d = Closed \/ state h d = FailedState)
    by (destruct Hh as [-> | ->]; autorewrite with session; auto).
  pose proof (inv_joint s Hinv (peer d)) as (Hjp & Hplp & Hrp). rewrite peer_peer in Hjp, Hplp, Hrp.
  pose proof (inv_joint s Hinv d) as (Hj & _ & Hr).
  pose proof (inv_local s Hinv d) as Hl. unfold local_ok in Hl. cbn in *.
  apply inv_move; try done.
  - destruct Hh as [-> | ->]; autorewrite with session; done.
  - destruct Hh as [-> | ->]; autorewrite with session; done.
  - rewrite Hsec. by destruct Hpc as [[k ->]| ->].
  - destruct Hpc as [[k Hpc]|Hpc]; rewrite Hpc in Hl; destruct Hl as (_ & Hg & Hdep); [destruct Hdep as [Hdep _]|];
      rewrite Hg, Hdep; destruct Hpc' as [-> | [-> ->]]; cbn; intuition congruence.
  - unfold joint_ok. cbn. split; [|split; [intros t E; by destruct (Hnp t)|intros k E; by destruct (Hnr k)]].
    intros Hg. destruct (Hj Hg) as (? & ? & _). split; [done|]. split; [done|]. intros _.
    destruct Hpc as [[k Hpc]|Hpc]; [by destruct (Hr k Hpc)|]. rewrite Hpc in Hl. intuition congruence.
  - unfold joint_ok. cbn. destruct Hpc as [[k Hpc]|Hpc]; rewrite Hpc in Hl;
      destruct Hl as (Hs & Hg & Hdep); [destruct Hdep as [Hdep _]|]; rewrite Hg, Hdep, Hs in *;
      (split; [intuition congruence|]; split; [|intros k' E; split; [by destruct (Hrp k' E)|done]]).
    + intros t Ht. destruct (Hplp t Ht) as [(Hd & Hn & Hg' & Hor)|(? & ? & ?)]; [|done].
      pose proof (inv_local s Hinv (peer d)) as Hlp.
      unfold local_ok in Hlp. cbn in Hlp. rewrite Ht in Hlp. destruct Hlp as (_ & _ & Hlp).
      destruct (Hr k Hpc) as [Hr' _]. congruence.
    + intros t Ht. destruct (Hplp t Ht) as [(_ & _ & ? & _)|(? & ? & ?)]; [done|]. right. done.
Qed.

Lemma relay_step_inv s d e s' : inv s -> relay_step d e s = Some s' -> inv s'.
Proof.
  intros Hinv Hstep. destruct (pcs s d) eqn:Hpc;
    try (unfold relay_step in Hstep; rewrite Hpc in Hstep; done).
  - assert (e = Deposit) as -> by (unfold relay_step in Hstep; rewrite Hpc in Hstep; by destruct e).
    by eapply deposit_step_inv.
  - pose proof (inv_local s Hinv d) as Hl. unfold local_ok in Hl. cbn in Hl. rewrite Hpc in Hl.
    destruct Hl as (Hst & _). unfold relay_step in Hstep. rewrite Hpc in Hstep.
    destruct e; try done; rewrite settle_ok in Hstep by (by rewrite Hst);
      apply (inj Some) in Hstep; subst s'.
    + apply (relay_end_inv s d _ _ false); eauto.
    + apply (relay_end_inv s d _ _ true); eauto.
  - pose proof (inv_local s Hinv d) as Hl. unfold local_ok in Hl. cbn in Hl. rewrite Hpc in Hl.
    destruct Hl as (Hst & _). unfold relay_step in Hstep. rewrite Hpc in Hstep.
    destruct e; try done; rewrite settle_ok in Hstep by (by rewrite Hst);
      apply (inj Some) in Hstep; subst s'.
    + apply (relay_end_inv s d _ _ false); eauto.
    + apply (relay_end_inv s d _ _ true); eauto.
Qed.

Lemma drop_inv s d :
  inv s -> cancelled s = true -> awaiting (pcs s d) = true -> inv (goto s (handoff s) d Dropped).
Proof.
  intros Hinv Hc Haw.
  pose proof (inv_joint s Hinv (peer d)) as (Hjp & Hplp & Hrp). rewrite peer_peer in Hjp, Hplp, Hrp.
  pose proof (inv_joint s Hinv d) as (Hj & _ & _).
  pose proof (inv_local s Hinv d) as Hl. unfold local_ok in Hl. cbn in *.
  unfold goto. change (cancelled s) with (false || cancelled s). apply inv_move; try done.
  - by destruct (pcs s d).
  - rewrite Hc. unfold local_ok. cbn. split; [done|].
    destruct (pcs s d); try done; destruct Hl as (Hs & Hg & Hd); rewrite Hs, Hg; try destruct Hd as [Hd _];
      rewrite ?Hd; done.
  - unfold joint_ok. cbn. split; [done|]. split; [done|].
    intros k Hk. split; [by destruct (Hrp k Hk)|done].
Qed.

Lemma start_inv : inv start.
Proof. constructor; try done; intros []; vm_compute; intuition congruence. Qed.

Lemma exec_inv s d e s' : inv s -> exec d e s = Some s' -> inv s'.
Proof.
  intros Hinv Hstep. unfold exec in Hstep.
  assert (e = Drop \/ e <> Drop) as [-> | He] by (destruct e; auto; right; done).
  - destruct (cancelled s) eqn:Hc; [|done]. destruct (awaiting (pcs s d)) eqn:Ha; [|done].
    apply (inj Some) in Hstep; subst s'. by apply drop_inv.
  - destruct (pcs s d) eqn:Hpc;
      assert (Hstep' : match pcs s d with
        | FramedPhase => framed_step d e s | OuterPhase => outer_step d e s
        | Draining => draining_step d e s
        | Observing _ | Deciding | Locked | Planned _ => decide_step d e s
        | Depositing | PairRelay _ | DirectionalRelay => relay_step d e s
        | Finished _ | Dropped => None end = Some s') by (rewrite Hpc; by destruct e);
      rewrite Hpc in Hstep'; try done;
      eauto using framed_step_inv, outer_step_inv, draining_step_inv, decide_step_inv, relay_step_inv.
Qed.

Lemma reachable_inv s : reachable s -> inv s.
Proof.
  intros H. apply rtc_ind_r with (P := inv) in H; [done | exact start_inv |].
  intros y z _ Hstep Hy. destruct Hstep as [d e s1 s2 He|s1 Hc]; [by eapply exec_inv|].
  destruct Hy as [Hl Hj Hm Hs Hr]. constructor; try done.
  intros d. eapply local_ok_mono. apply (Hl d).
Qed.

(** Steps a direction can still take. *)
Definition weight (pc : Pc) : Z :=
  match pc with
  | FramedPhase => 11
  | Draining => 10
  | Observing r => 7 + yields_remaining r
  | Deciding => 6
  | Locked => 5
  | Planned _ => 4
  | Depositing => 3
  | PairRelay _ | DirectionalRelay | OuterPhase => 1
  | Finished _ | Dropped => 0
  end.

Definition session_weight (s : Session) : Z :=
  weight (pcs s Uplink) + weight (pcs s Downlink) + (if cancelled s then 0 else 1).

Lemma weight_nonneg s d : inv s -> 0 <= weight (pcs s d).
Proof.
  intros Hinv. pose proof (inv_local s Hinv d) as Hl. unfold local_ok in Hl. cbn in Hl.
  destruct (pcs s d); cbn; try lia. unfold rendezvous_inv in Hl. lia.
Qed.

(** Any step of a direction lowers its weight and leaves the peer's. *)
Lemma exec_weight s d e s' :
  inv s -> exec d e s = Some s' ->
  weight (pcs s' d) < weight (pcs s d) /\ pcs s' (peer d) = pcs s (peer d) /\
  (cancelled s = true -> cancelled s' = true).
Proof.
  intros Hinv Hstep. pose proof (inv_local s Hinv d) as Hl. unfold local_ok in Hl. cbn in Hl.
  unfold exec, framed_step, outer_step, draining_step, decide_step, relay_step, advance_to in Hstep.
  destruct (pcs s d) as [| | |r| | |t| |k| |fr|] eqn:Hpc; destruct e; try done;
    repeat case_match; simplify_eq; cbn; autorewrite with session;
    try (split; [cbn; lia | split; [done | done || (intros; congruence)]]).
  all: try (cbn in *; rewrite andb_false_r in *; done).
  all: try destruct Hl as (_ & _ & _ & Hl); unfold step in *;
    unfold new_rendezvous, rendezvous_inv, YIELD_BUDGET in *; repeat case_match; simplify_eq;
    cbn in *; (split; [lia | done]).
Qed.

Lemma session_step_weight s s' : inv s -> session_step s s' -> session_weight s' < session_weight s.
Proof.
  intros Hinv Hstep; destruct Hstep as [d e s1 s2 He|s1 Hc]; unfold session_weight.
  - destruct (exec_weight _ _ _ _ Hinv He) as (Hw & Hp & Hcc).
    assert (H : weight (pcs s2 Uplink) + weight (pcs s2 Downlink)
      < weight (pcs s1 Uplink) + weight (pcs s1 Downlink)) by (destruct d; cbn in Hp; rewrite Hp; lia).
    destruct (cancelled s1), (cancelled s2); (lia || discriminate (Hcc eq_refl)).
  - cbn. rewrite Hc. lia.
Qed.

(** A step of the direction's own program: not the teardown of the session, which
    the environment decides. *)
Definition own_step (d : Direction) (s s' : Session) : Prop := exists e, e <> Drop /\ exec d e s = Some s'.

(** The direction frees the mutex by its next two own steps at the latest. *)
Definition leaves_section (d : Direction) (s : Session) : Prop :=
  exists s1, own_step d s s1 /\ (mutex s1 = None \/ exists s2, own_step d s1 s2 /\ mutex s2 = None).

Lemma commit_leaves d s t : pcs s d = Planned t -> exists s', own_step d s s' /\ mutex s' = None.
Proof.
  intros Hp. destruct (exec d CommitDecision s) as [s'|] eqn:E; cbn in E; rewrite Hp in E; unfold decide_step in E; rewrite Hp in E; [|done].
  exists s'. split; [exists CommitDecision; split; [done|]; cbn; rewrite Hp; unfold decide_step; by rewrite Hp|].
  destruct (advance (handoff s) d (next_state t)) as [[]]; by injection E as <-.
Qed.

Lemma holder_leaves s d : inv s -> mutex s = Some d -> leaves_section d s.
Proof.
  intros Hinv Hx. pose proof (proj1 (inv_mutex s Hinv d) Hx) as Hsec. destruct (pcs s d) as [| | | | | |t| | | | |] eqn:Hp; try done.
  - assert (Hex : exists s1, exec d ReadStates s = Some s1 /\ (mutex s1 = None \/ exists t, pcs s1 d = Planned t)).
    { cbn. rewrite Hp. unfold decide_step. rewrite Hp. destruct (plan d _ _) as [t| |]; eexists; (split; [done|]); [right|by left..].
      exists t. apply upd_same. }
    destruct Hex as (s1 & He & Hs1). exists s1. split; [by exists ReadStates|]. destruct Hs1 as [?|[t Ht]]; [by left|right]. by apply (commit_leaves d s1 t).
  - destruct (commit_leaves d s t Hp) as (s1 & Ho & Hm). exists s1. split; [done|by left].
Qed.

(** A direction that has not returned can take a step of its own, or stands at
    the mutex while its peer is in the critical section and about to leave it. *)
Lemma can_step s d : inv s -> ~ ended s d -> (exists s', own_step d s s') \/ (mutex s = Some (peer d) /\ leaves_section (peer d) s).
Proof.
  intros Hinv Hne. unfold ended in Hne.
  assert (Hex : forall e, e <> Drop -> is_Some (exec d e s) -> exists s', own_step d s s') by (intros e He [s' Hs]; exists s', e; done).
  assert (Hheld : forall x, mutex s = Some x -> in_section (pcs s d) = false -> mutex s = Some (peer d) /\ leaves_section (peer d) s).
  { intros x Hx Hs. assert (Hxp : x = peer d).
    { destruct (decide (x = d)) as [->|Hn]; [|by destruct x, d]. apply (inv_mutex s Hinv) in Hx. congruence. }
    subst x. split; [done|by apply holder_leaves]. }
  destruct (pcs s d) as [| | |r| | |t| |k| |fr|] eqn:Hpc; try done.
  - left. apply (Hex FramedEof); [done|]. cbn. rewrite Hpc. eauto.
  - left. apply (Hex OuterEof); [done|]. cbn. rewrite Hpc. eauto.
  - left. apply (Hex DrainOk); [done|]. cbn. rewrite Hpc. eauto.
  - left. apply (Hex Observe); [done|]. cbn. rewrite Hpc. unfold decide_step. rewrite Hpc. eauto.
  - destruct (mutex s) as [x|] eqn:Hm; [right; by apply (Hheld x)|left].
    apply (Hex EnterDecide); [done|]. cbn. rewrite Hpc. unfold decide_step. rewrite Hpc, Hm. eauto.
  - left. apply (Hex ReadStates); [done|]. cbn. rewrite Hpc. unfold decide_step. rewrite Hpc. eauto.
  - left. apply (Hex CommitDecision); [done|]. cbn. rewrite Hpc. unfold decide_step. rewrite Hpc. eauto.
  - destruct (mutex s) as [x|] eqn:Hm; [right; by apply (Hheld x)|left].
    apply (Hex Deposit); [done|]. cbn. rewrite Hpc. unfold relay_step. rewrite Hpc, Hm. eauto.
  - left. apply (Hex RelayDone); [done|]. cbn. rewrite Hpc. unfold relay_step. rewrite Hpc. eauto.
  - left. apply (Hex RelayDone); [done|]. cbn. rewrite Hpc. unfold relay_step. rewrite Hpc. eauto.
Qed.

(** The weak compare-exchange loop has the one-step effect of [advance] as soon as
    one exchange does not fail spuriously. *)
Lemma advance_loop_advance n strong h d next : forall k,
  strong (k + n)%nat = true ->
  (forall j, (j < n)%nat -> strong (k + j)%nat = false) ->
  advance_loop (S n) strong k h d next (cell h d) = Some (advance h d next).
Proof.
  induction n as [|n IH]; intros k Hk Hj; unfold advance, state; cbn;
    destruct (permits (from_repr (cell h d)) next) eqn:Hp; cbn; try done; rewrite Z.eqb_refl; cbn.
  - rewrite Nat.add_0_r in Hk. by rewrite Hk.
  - pose proof (Hj 0%nat ltac:(lia)) as H0. rewrite Nat.add_0_r in H0. rewrite H0.
    replace (k + S n)%nat with (S k + n)%nat in Hk by lia.
    specialize (IH (S k) Hk). cbn [advance_loop] in IH. rewrite Hp, Z.eqb_refl in IH. cbn in IH.
    rewrite IH.
    + unfold advance, state. by rewrite Hp.
    + intros j Hlt. replace (S (k + j)) with (k + S j)%nat by lia. apply Hj. lia.
Qed.

Lemma ended_pair_deposited s d :
  inv s -> cancelled s = false -> ended s d ->
  match grants s d with
  | Some Pair => deposited s d = true
  | _ => deposited s d = false /\ state (handoff s) d <> RawReady
  end.
Proof.
  intros Hinv Hc He. pose proof (inv_local s Hinv d) as Hl. unfold local_ok in Hl. cbn in Hl.
  unfold ended in He. rewrite Hc in Hl.
  destruct (pcs s d); try done; destruct Hl as [H1 H2]; [|done].
  destruct (grants s d) as [[]|]; [done | | intuition congruence].
  destruct H2 as [? [-> | ->]]; done.
Qed.

(** C1: under every interleaving of the two directions (with spurious
    environment failures, teardown and cancellation) the directions never disagree on the raw-relay
    form, at most one of them ever runs the bilateral relay and it runs it on
    the two complete sockets, and neither [decide], [advance] at the raw
    boundary nor the reunion of the halves can fail. *)
Theorem handoff_no_split_brain (s : Session) (d : Direction) :
  reachable s ->
  (grants s d = Some Pair -> grants s (peer d) <> Some Directional) /\
  (bilateral_runs s <= 1)%nat /\
  (forall socks, pcs s d = PairRelay socks ->
     socks = both_sockets /\ bilateral_runs s = 1%nat /\
     forall socks', pcs s (peer d) <> PairRelay socks') /\
  pcs s d <> Finished (Err DirectTransition) /\ pcs s d <> Finished (Err HandoffError).
Proof.
  intros Hinv%reachable_inv.
  pose proof (inv_joint s Hinv d) as (Hj & _ & Hr). pose proof (inv_local s Hinv d) as Hl.
  pose proof (inv_runs s Hinv) as Hruns. unfold local_ok in Hl. cbn in *.
  split; [intros Hg; by destruct (Hj Hg)|]. split; [rewrite Hruns; destruct (deposited s Uplink && deposited s Downlink); lia|]. split.
  - intros k Hk. destruct (Hr k Hk) as [Hd Hn]. rewrite Hk in Hl. destruct Hl as (_ & _ & Hdep & ->).
    split; [done|]. split; [|done]. rewrite Hruns. destruct d; cbn in Hd; rewrite Hdep, Hd; done.
  - split; intros E; rewrite E in Hl; intuition congruence.
Qed.

(** C36: no socket half is ever stranded: once both directions of a session that
    was not torn down have returned, the slots are empty, either both directions
    paired or neither did, and the bilateral relay ran exactly once in the first
    case and never in the second. *)
Theorem handoff_no_stranded_halves (s : Session) :
  reachable s -> cancelled s = false -> ended s Uplink -> ended s Downlink ->
  slots (handoff s) = empty_slots /\
  (grants s Uplink = Some Pair <-> grants s Downlink = Some Pair) /\
  bilateral_runs s = (if decide (grants s Uplink = Some Pair) then 1 else 0)%nat.
Proof.
  intros Hinv%reachable_inv Hc Hu Hd.
  pose proof (ended_pair_deposited s Uplink Hinv Hc Hu) as Eu.
  pose proof (ended_pair_deposited s Downlink Hinv Hc Hd) as Ed.
  pose proof (inv_joint s Hinv Uplink) as (Ju & _ & _).
  pose proof (inv_joint s Hinv Downlink) as (Jd & _ & _). cbn in *.
  rewrite (inv_slots s Hinv), (inv_runs s Hinv).
  destruct (grants s Uplink) as [[]|]; destruct (grants s Downlink) as [[]|];
    destruct_and?; try (exfalso; intuition congruence);
    repeat match goal with H : deposited _ _ = _ |- _ => rewrite H end; cbn; done.
Qed.

(** A pairing run: both directions reach their boundaries, the uplink decides
    first and the downlink, last to deposit, runs the bilateral relay. *)
Definition paired_events : list (Direction * Event) :=
  [(Uplink, FramedDirect); (Downlink, FramedDirect); (Uplink, DrainOk); (Downlink, DrainOk);
   (Uplink, Observe); (Uplink, EnterDecide); (Uplink, ReadStates); (Uplink, CommitDecision);
   (Uplink, Deposit); (Downlink, Observe); (Downlink, EnterDecide); (Downlink, ReadStates);
   (Downlink, CommitDecision); (Downlink, Deposit); (Downlink, RelayDone)].

Definition run_events (s : Session) (es : list (Direction * Event)) : option Session :=
  foldl (fun o '(d, e) => match o with Some s => exec d e s | None => None end) (Some s) es.

Lemma run_events_none es :
  foldl (fun o '(d, e) => match o with Some s => exec d e s | None => None end) None es = None.
Proof. induction es as [|[d e] es IH]; cbn; done. Qed.

Lemma run_events_reachable es : forall s s',
  reachable s -> run_events s es = Some s' -> reachable s'.
Proof.
  induction es as [|[d e] es IH]; cbn; intros s s' Hs H; [by injection H as <-|].
  unfold run_events in H. cbn in H. destruct (exec d e s) as [s1|] eqn:He; [|by rewrite run_events_none in H].
  apply (IH s1); [|exact H]. unfold reachable in *. eapply rtc_r; [exact Hs|]. by eapply step_exec.
Qed.

Definition paired_end : Session := default start (run_events start paired_events).

Lemma paired_reachable : reachable paired_end.
Proof.
  apply (run_events_reachable paired_events start).
  - apply rtc_refl.
  - unfold paired_end. destruct (run_events start paired_events) eqn:E; [done|].
    vm_compute in E. discriminate E.
Qed.

Lemma handoff_no_split_brain_witness :
  grants paired_end Uplink = Some Pair /\ grants paired_end Downlink <> Some Directional.
Proof.
  split; [reflexivity|].
  destruct (handoff_no_split_brain paired_end Uplink paired_reachable) as [H _].
  apply H. reflexivity.
Defined.

Lemma handoff_no_stranded_halves_witness :
  slots (handoff paired_end) = empty_slots /\ bilateral_runs paired_end = 1%nat.
Proof.
  destruct (handoff_no_stranded_halves paired_end paired_reachable) as (H & _ & _);
    [vm_compute; reflexivity | exact I | exact I |].
  split; [exact H | vm_compute; reflexivity].
Defined.

(** C37: every execution of a session ends and no direction waits for ever. An
    execution takes at most 23 steps, the environment's included. A direction that
    has not returned can take a step of its own program (the session's teardown
    does not count); the one exception is a direction that stands at the
    coordinator's mutex while its peer holds it, and then the peer frees it by its
    next two steps at the latest. So no step of the pairing waits for the
    peer beyond the peer's own critical section. *)
Theorem handoff_terminates (s s' : Session) (n : nat) (d : Direction) :
  reachable s -> nsteps session_step n s s' ->
  (n <= 23)%nat /\
  (~ ended s' d -> (exists s'', own_step d s' s'') \/ (mutex s' = Some (peer d) /\ leaves_section (peer d) s')).
Proof.
  intros Hreach Hsteps.
  assert (Hreach' : reachable s').
  { unfold reachable in *. etrans; [exact Hreach|]. apply rtc_nsteps. eauto. }
  split; [|intros Hne; by eapply can_step, Hne; apply reachable_inv].
  assert (Hmono : forall n s s', nsteps session_step n s s' -> inv s ->
    session_weight s' + Z.of_nat n <= session_weight s).
  { induction 1 as [|m x y z Hxy _ IH]; intros Hinv; [lia|].
    assert (Hy : inv y) by (destruct Hxy as [x0 e x1 x2 He|x1 Hc]; [by eapply exec_inv|];
      destruct Hinv as [Hl Hj Hm Hs Hr]; constructor; try done; intros x2; eapply local_ok_mono, Hl).
    specialize (IH Hy). pose proof (session_step_weight _ _ Hinv Hxy). lia. }
  apply rtc_nsteps in Hreach as [m Hm].
  pose proof (Hmono _ _ _ (nsteps_trans m n _ _ _ Hm Hsteps) start_inv) as Hbound.
  pose proof (weight_nonneg s' Uplink (reachable_inv _ Hreach')).
  pose proof (weight_nonneg s' Downlink (reachable_inv _ Hreach')).
  unfold session_weight in Hbound. cbn in Hbound. destruct (cancelled s'); lia.
Qed.

(** The uplink holds the mutex; the downlink stands before it. *)
Definition contended_events : list (Direction * Event) :=
  [(Uplink, FramedDirect); (Downlink, FramedDirect); (Uplink, DrainOk); (Downlink, DrainOk);
   (Uplink, Observe); (Downlink, Observe); (Uplink, EnterDecide)].
Definition contended : Session := default start (run_events start contended_events).

Lemma run_events_steps es : forall s s', run_events s es = Some s' -> nsteps session_step (length es) s s'.
Proof.
  induction es as [|[d e] es IH]; intros s s' H; unfold run_events in H; cbn in H; [injection H as <-; constructor|].
  destruct (exec d e s) as [s1|] eqn:He; [|by rewrite run_events_none in H]. econstructor; [by eapply step_exec|]. by apply IH.
Qed.

Lemma contended_run : run_events start contended_events = Some contended.
Proof. unfold contended. destruct (run_events start contended_events) eqn:E; [done|]. vm_compute in E. discriminate E. Qed.

Lemma handoff_terminates_witness :
  (7 <= 23)%nat /\ pcs contended Downlink = Deciding /\ exec Downlink EnterDecide contended = None /\
  mutex contended = Some Uplink /\ leaves_section Uplink contended.
Proof.
  destruct (handoff_terminates start contended 7 Downlink (rtc_refl _ _) (run_events_steps contended_events start contended contended_run)) as [H1 H2].
  split; [exact H1|]. split; [vm_compute; reflexivity|]. split; [vm_compute; reflexivity|].
  destruct H2 as [(s'' & e & Hd & He)|H]; [vm_compute; intros []| |exact H].
  exfalso. destruct e; vm_compute in He; first [discriminate He|apply Hd; reflexivity].
Defined.
