(* ===== verification/Cursor.v ===== *)
(** * Cursor parsers

    The state-and-error monad of the source's parsers (a byte slice and a
    position that [?] threads through fallible reads) and the three program
    logics the parser components share: [safe] (never panics), [reads]
    (accepts a given encoding wherever it sits) and [sound] (what was consumed
    is an encoding of what was returned). *)

From S2P Require Import Prelude.

(** ** State passing with errors *)

Definition M (S E A : Type) : Type := S -> result E (A * S).

#[export] Instance M_ret S E : MRet (M S E) := fun A a s => Ok (a, s).
#[export] Instance M_bind S E : MBind (M S E) :=
  fun A B f m s => match m s with Ok (a, s) => f a s | Err e => Err e | Panic => Panic end.

(** A computation that does not touch the state. *)
Definition lift {S E A} (r : result E A) : M S E A :=
  fun s => match r with Ok a => Ok (a, s) | Err e => Err e | Panic => Panic end.
Definition throw {S E A} (e : E) : M S E A := fun _ => Err e.
Definition get_state {S E} : M S E S := fun s => Ok (s, s).
Definition put_state {S E} (s : S) : M S E unit := fun _ => Ok (tt, s).

(** An early [return Err(e)]. *)
Definition return_if {S E} (b : bool) (e : E) : M S E unit := lift (reject_if b e).

Notation "'return!' e 'when' b ; k" :=
  (mbind (fun _ : unit => k) (return_if b e))
  (at level 10, e at level 100, b at level 100, k at level 200,
   format "'return!'  e  'when'  b ;  '/' k") : rust_scope.

Lemma no_panic_M_bind {S E A B} (m : M S E A) (f : A -> M S E B) s :
  no_panic (m s) -> (forall a s', m s = Ok (a, s') -> no_panic (f a s')) -> no_panic ((m ≫= f) s).
Proof.
  intros Hm Hf. unfold mbind, M_bind. destruct (m s) as [[a s']|e|]; [by apply Hf | done | done].
Qed.

(** ** Cursors *)

Record Cursor := { input : list byte; position : Z }.

Definition new_cursor (l : list byte) : Cursor := {| input := l; position := 0 |}.

Definition cursor_ok (c : Cursor) : Prop := 0 <= position c <= len (input c).

(** The cursor at the boundary between [pre] and [rest]. *)
Definition at_pos (pre rest : list byte) : Cursor :=
  {| input := pre ++ rest; position := len pre |}.

Lemma at_pos_new l : at_pos [] l = new_cursor l.
Proof. done. Qed.

Lemma at_pos_ok pre rest : cursor_ok (at_pos pre rest).
Proof. unfold cursor_ok; cbn. slen. Qed.

Lemma cursor_ok_at_pos c : cursor_ok c -> exists pre rest, c = at_pos pre rest.
Proof.
  destruct c as [l p]. unfold cursor_ok; cbn. intros H.
  exists (take (Z.to_nat p) l), (drop (Z.to_nat p) l). unfold at_pos.
  rewrite take_drop. f_equal. slen.
Qed.

Section Logics.
Context {E : Type}.

(** Never panics, and leaves the cursor inside its input. *)
Definition safe {A} (m : M Cursor E A) : Prop :=
  forall c, cursor_ok c ->
    match m c with Ok (_, c') => cursor_ok c' | Err _ => True | Panic => False end.

(** Reads exactly the bytes [s], wherever they sit in a slice of addressable
    length, and yields [a]. *)
Definition reads {A} (m : M Cursor E A) (s : list byte) (a : A) : Prop :=
  forall pre rest, len (pre ++ s ++ rest) <= USIZE_MAX ->
    m (at_pos pre (s ++ rest)) = Ok (a, at_pos (pre ++ s) rest).

(** Whatever it yields, the bytes it consumed are related to it by [P]. *)
Definition sound {A} (m : M Cursor E A) (P : list byte -> A -> Prop) : Prop :=
  forall pre rest a c', m (at_pos pre rest) = Ok (a, c') ->
    exists s rest', rest = s ++ rest' /\ c' = at_pos (pre ++ s) rest' /\ P s a.

Lemma safe_ret {A} (a : A) : safe (mret a).
Proof. by intros c. Qed.

Lemma safe_throw {A} (e : E) : safe (throw e : M Cursor E A).
Proof. by intros c. Qed.

Lemma safe_bind {A B} (m : M Cursor E A) (f : A -> M Cursor E B) :
  safe m -> (forall a, safe (f a)) -> safe (x ← m; f x).
Proof.
  intros Hm Hf c Hc. specialize (Hm c Hc). unfold mbind, M_bind.
  destruct (m c) as [[a c']| |]; [|done|done]. by apply Hf.
Qed.

Lemma safe_lift {A} (r : result E A) : no_panic r -> safe (lift r : M Cursor E A).
Proof. intros H c Hc. unfold lift. by destruct r. Qed.

Lemma safe_return_if b (e : E) : safe (return_if b e : M Cursor E unit).
Proof. apply safe_lift. by destruct b. Qed.

Lemma reads_ret {A} (a : A) : reads (mret a) [] a.
Proof. intros pre rest _. cbn. by rewrite app_nil_r. Qed.

Lemma reads_bind {A B} (m : M Cursor E A) (f : A -> M Cursor E B) s1 a s2 b :
  reads m s1 a -> reads (f a) s2 b -> reads (x ← m; f x) (s1 ++ s2) b.
Proof.
  intros Hm Hf pre rest Hlen. unfold mbind, M_bind. rewrite <- !app_assoc in *.
  rewrite Hm, Hf, <- app_assoc by (rewrite <- ?app_assoc; done). done.
Qed.

Lemma reads_bind_nil {A B} (m : M Cursor E A) (f : A -> M Cursor E B) s1 a b :
  reads m s1 a -> reads (f a) [] b -> reads (x ← m; f x) s1 b.
Proof. intros Hm Hf. rewrite <- (app_nil_r s1). eapply reads_bind; eauto. Qed.

Lemma reads_lift_bind {A B} (r : result E A) (f : A -> M Cursor E B) a s b :
  r = Ok a -> reads (f a) s b -> reads (x ← lift r; f x) s b.
Proof. intros -> Hf pre rest Hlen. unfold mbind, M_bind. cbn. by apply Hf. Qed.

Lemma reads_return_if {B} (c : bool) (e : E) (k : unit -> M Cursor E B) s b :
  c = false -> reads (k tt) s b -> reads (x ← return_if c e; k x) s b.
Proof. intros -> Hk. by apply (reads_lift_bind _ _ tt). Qed.

Lemma sound_ret {A} (a : A) : sound (mret a) (fun s x => s = [] /\ x = a).
Proof.
  intros pre rest x c'. cbn. intros [= <- <-]. exists [], rest. rewrite app_nil_r. done.
Qed.

Lemma sound_throw {A} (e : E) P : sound (throw e : M Cursor E A) P.
Proof. intros pre rest x c'. discriminate. Qed.

Lemma sound_bind {A B} (m : M Cursor E A) (f : A -> M Cursor E B) P Q :
  sound m P -> (forall a, sound (f a) (Q a)) ->
  sound (x ← m; f x) (fun s b => exists s1 a s2, s = s1 ++ s2 /\ P s1 a /\ Q a s2 b).
Proof.
  intros Hm Hf pre rest b c'. unfold mbind, M_bind.
  destruct (m (at_pos pre rest)) as [[a c]| |] eqn:Hma; [|done|done]. intros Hfb.
  destruct (Hm _ _ _ _ Hma) as (s1 & rest1 & -> & -> & HP).
  destruct (Hf _ _ _ _ _ Hfb) as (s2 & rest2 & -> & -> & HQ).
  exists (s1 ++ s2), rest2. rewrite <- !app_assoc. split_and!; try done; eauto 10.
Qed.

Lemma sound_lift {A} (r : result E A) : sound (lift r : M Cursor E A) (fun s x => s = [] /\ r = Ok x).
Proof.
  intros pre rest x c'. unfold lift. destruct r; [|done|done]. intros [= <- <-].
  exists [], rest. rewrite app_nil_r. done.
Qed.

Lemma sound_return_if b (e : E) :
  sound (return_if b e : M Cursor E unit) (fun s _ => s = [] /\ b = false).
Proof.
  intros pre rest [] c'. unfold return_if, lift. destruct b; [done|]. intros [= <-].
  exists [], rest. rewrite app_nil_r. done.
Qed.

Lemma sound_weaken {A} (m : M Cursor E A) (P Q : list byte -> A -> Prop) :
  sound m P -> (forall s a, P s a -> Q s a) -> sound m Q.
Proof.
  intros Hm HPQ pre rest a c' H. destruct (Hm _ _ _ _ H) as (s & r & ? & ? & ?). eauto 10.
Qed.

(** ** The bounded read every cursor is built on

    [err n remaining] is the error reported when fewer than [n] bytes remain. *)
Definition take_bytes (err : Z -> Z -> E) (n : Z) : M Cursor E (list byte) :=
  fun c =>
    let remaining := saturating_sub (len (input c)) (position c) in
    if remaining <? n then Err (err n remaining)
    else
      let start := position c in
      match slice (input c) start (start + n) with
      | Ok s => Ok (s, {| input := input c; position := start + n |})
      | Err e => Err e
      | Panic => Panic
      end.

Lemma take_bytes_at err n pre rest :
  0 <= n ->
  take_bytes err n (at_pos pre rest) =
    if len rest <? n then Err (err n (len rest))
    else Ok (take (Z.to_nat n) rest, at_pos (pre ++ take (Z.to_nat n) rest) (drop (Z.to_nat n) rest)).
Proof.
  intros Hn. unfold take_bytes, saturating_sub. cbn.
  replace (Z.max 0 (len (pre ++ rest) - len pre)) with (len rest) by slen.
  destruct (Z.ltb_spec (len rest) n) as [|Hge]; [done|].
  unfold slice. rewrite get_range_app_r by lia.
  replace (len pre - len pre) with 0 by lia. replace (len pre + n - len pre) with n by lia.
  rewrite get_range_some by slen. rewrite Z.sub_0_r. cbn. do 2 f_equal. unfold at_pos.
  rewrite <- app_assoc, take_drop. f_equal. slen.
Qed.

Lemma safe_take_bytes err n : 0 <= n -> safe (take_bytes err n).
Proof.
  intros Hn c Hc. destruct (cursor_ok_at_pos c Hc) as (pre & rest & ->).
  rewrite take_bytes_at by done. destruct (_ <? _); [done|]. apply at_pos_ok.
Qed.

Lemma reads_take_bytes err n s : n = len s -> reads (take_bytes err n) s s.
Proof.
  intros -> pre rest _. rewrite take_bytes_at by apply len_nonneg.
  replace (len (s ++ rest) <? len s) with false by (symmetry; apply Z.ltb_ge; slen).
  unfold len. rewrite Nat2Z.id, take_app_length, drop_app_length. done.
Qed.

Lemma sound_take_bytes err n :
  0 <= n -> sound (take_bytes err n) (fun s a => s = a /\ len a = n).
Proof.
  intros Hn pre rest a c'. rewrite take_bytes_at by done.
  destruct (Z.ltb_spec (len rest) n); [done|]. intros [= <- <-].
  exists (take (Z.to_nat n) rest), (drop (Z.to_nat n) rest).
  rewrite take_drop. split_and!; try done. slen.
Qed.

(** Running a parser over a whole input. *)
Definition run_parser {A} (m : M Cursor E A) (l : list byte) : result E (A * Cursor) :=
  m (new_cursor l).

Lemma run_parser_no_panic {A} (m : M Cursor E A) l : safe m -> no_panic (run_parser m l).
Proof.
  intros Hm. specialize (Hm (new_cursor l)). unfold run_parser, no_panic.
  destruct (m (new_cursor l)) as [[]| |]; try done. intros _. apply Hm.
  unfold cursor_ok; cbn. slen.
Qed.

Lemma run_parser_reads {A} (m : M Cursor E A) s a rest :
  reads m s a -> len (s ++ rest) <= USIZE_MAX -> run_parser m (s ++ rest) = Ok (a, at_pos s rest).
Proof. intros Hm Hl. unfold run_parser. rewrite <- at_pos_new. rewrite Hm by done. done. Qed.

Lemma run_parser_sound {A} (m : M Cursor E A) P l a c :
  sound m P -> run_parser m l = Ok (a, c) ->
  exists s rest, l = s ++ rest /\ c = at_pos s rest /\ P s a.
Proof. intros Hm H. unfold run_parser in H. rewrite <- at_pos_new in H. by apply Hm in H. Qed.

End Logics.

(** ** Incremental parsing

    [incomplete e] marks the errors that only say the input ended too early. *)
Section Incremental.
Context {E : Type} (incomplete : E -> bool).

(** The same cursor after more input arrived. *)
Definition extend (c : Cursor) (x : list byte) : Cursor :=
  {| input := input c ++ x; position := position c |}.

(** Decided by a prefix: more input changes neither a result nor a real error. *)
Definition stable {A} (m : M Cursor E A) : Prop :=
  forall c x, cursor_ok c ->
    match m c with
    | Ok (a, c') => m (extend c x) = Ok (a, extend c' x)
    | Err e => incomplete e = true \/ m (extend c x) = Err e
    | Panic => False
    end.

(** Needs at most [n] bytes: it never asks for more once that many are there. *)
Definition bounded {A} (m : M Cursor E A) (n : Z) : Prop :=
  forall c, cursor_ok c ->
    match m c with
    | Ok (_, c') => cursor_ok c' /\ input c' = input c /\
                    position c <= position c' <= position c + n
    | Err e => incomplete e = true -> len (input c) - position c < n
    | Panic => False
    end.

Lemma stable_ret {A} (a : A) : stable (mret a).
Proof. by intros c x. Qed.

Lemma stable_bind {A B} (m : M Cursor E A) (f : A -> M Cursor E B) :
  safe m -> stable m -> (forall a, stable (f a)) -> stable (x ← m; f x).
Proof.
  intros Hs Hm Hf c x Hc. specialize (Hs c Hc). specialize (Hm c x Hc). unfold mbind, M_bind.
  destruct (m c) as [[a c']|e|]; [|destruct Hm as [?| ->]; auto|done].
  rewrite Hm. by apply Hf.
Qed.

Lemma stable_lift {A} (r : result E A) : no_panic r -> stable (lift r : M Cursor E A).
Proof. intros H c x Hc. unfold lift. destruct r; auto. Qed.

Lemma stable_return_if b (e : E) : stable (return_if b e : M Cursor E unit).
Proof. apply stable_lift. by destruct b. Qed.

Lemma stable_throw {A} (e : E) : stable (throw e : M Cursor E A).
Proof. intros c x _. by right. Qed.

Lemma stable_take_bytes err n :
  0 <= n -> (forall k r, incomplete (err k r) = true) -> stable (take_bytes err n).
Proof.
  intros Hn He c x Hc. destruct (cursor_ok_at_pos c Hc) as (pre & rest & ->).
  assert (Hext : forall p r, extend (at_pos p r) x = at_pos p (r ++ x))
    by (intros; unfold extend, at_pos; cbn; by rewrite <- app_assoc).
  rewrite Hext, !take_bytes_at by done. destruct (Z.ltb_spec (len rest) n); [auto|].
  rewrite Hext. replace (len (rest ++ x) <? n) with false by (symmetry; apply Z.ltb_ge; slen).
  unfold len in *. rewrite take_app_le, drop_app_le by lia. done.
Qed.

Lemma bounded_ret {A} (a : A) : bounded (mret a) 0.
Proof. intros c Hc. cbn. split_and!; try done; lia. Qed.

Lemma bounded_lift {A} (r : result E A) :
  no_panic r -> (forall e, r = Err e -> incomplete e = false) -> bounded (lift r : M Cursor E A) 0.
Proof.
  intros Hr He c Hc. unfold lift. destruct r as [a|e|]; [split_and!; (done || lia)| |done].
  rewrite (He e eq_refl). done.
Qed.

Lemma bounded_return_if b (e : E) :
  incomplete e = false -> bounded (return_if b e : M Cursor E unit) 0.
Proof. intros He. apply bounded_lift; [by destruct b|]. intros e'. by destruct b; intros [= <-]. Qed.

Lemma bounded_throw {A} (e : E) : incomplete e = false -> bounded (throw e : M Cursor E A) 0.
Proof. intros He c Hc. cbn. congruence. Qed.

Lemma bounded_bind {A B} (m : M Cursor E A) (f : A -> M Cursor E B) n1 n2 :
  bounded m n1 -> (forall a, bounded (f a) n2) -> 0 <= n2 -> bounded (x ← m; f x) (n1 + n2).
Proof.
  intros Hm Hf Hn c Hc. specialize (Hm c Hc). unfold mbind, M_bind.
  destruct (m c) as [[a c']|e|]; [|intros He; specialize (Hm He); lia|done].
  destruct Hm as (Hc' & Hi & Hp). specialize (Hf a c' Hc').
  destruct (f a c') as [[b c'']|e|]; [|intros He; specialize (Hf He)|done].
  - destruct Hf as (? & ? & ?). split_and!; try done; try congruence; lia.
  - rewrite Hi in Hf. lia.
Qed.

Lemma bounded_weaken {A} (m : M Cursor E A) n n' : bounded m n -> n <= n' -> bounded m n'.
Proof.
  intros Hm Hn c Hc. specialize (Hm c Hc).
  destruct (m c) as [[a c']|e|]; [|intros He; specialize (Hm He); lia|done].
  destruct Hm as (? & ? & ?). split_and!; try done; lia.
Qed.

Lemma bounded_take_bytes err n : 0 <= n -> bounded (take_bytes err n) n.
Proof.
  intros Hn c Hc. destruct (cursor_ok_at_pos c Hc) as (pre & rest & ->).
  rewrite take_bytes_at by done. destruct (Z.ltb_spec (len rest) n).
  - intros _. cbn. slen.
  - split; [apply at_pos_ok|]. cbn. rewrite <- app_assoc, take_drop. split; [done|]. slen.
Qed.
End Incremental.

#[export] Hint Resolve safe_ret safe_throw safe_bind safe_lift safe_return_if
  safe_take_bytes : rust.

(** Splits a [safe] goal along the parser's structure. *)
Ltac safe_parser :=
  repeat first
    [ match goal with |- forall _, _ => intro end
    | apply safe_bind
    | apply safe_return_if
    | apply safe_ret
    | apply safe_throw
    | (apply safe_take_bytes; try apply len_nonneg; try lia)
    | case_match
    | progress auto with rust ].

(** ** Stores into a borrowed buffer

    [output[i..j].copy_from_slice(bytes)]: out of range is a panic. *)

Definition writer (E A : Type) := M (list byte) E A.

Definition store {E} (i : Z) (bytes : list byte) : writer E unit := fun out =>
  if (0 <=? i) && (i + len bytes <=? len out)
  then Ok (tt, take (Z.to_nat i) out ++ bytes ++ drop (Z.to_nat (i + len bytes)) out)
  else Panic.

(** Fills the buffer with [s] from offset [i] on, touching nothing else. *)
Definition puts {E A} (m : writer E A) (i : Z) (s : list byte) (a : A) : Prop :=
  forall pre rest, len pre = i -> len s <= len rest ->
    m (pre ++ rest) = Ok (a, (pre ++ s) ++ drop (length s) rest).

Lemma puts_store {E} i bytes : puts (store i bytes : writer E unit) i bytes tt.
Proof.
  intros pre rest <- Hb. unfold store.
  rewrite (proj2 (Z.leb_le 0 _)), (proj2 (Z.leb_le _ (len (pre ++ rest)))) by slen. cbn.
  unfold len. rewrite Nat2Z.id, take_app_length.
  replace (Z.to_nat (Z.of_nat (length pre) + Z.of_nat (length bytes)))
    with (length pre + length bytes)%nat by lia.
  rewrite <- drop_drop, drop_app_length, <- app_assoc. done.
Qed.

Lemma puts_ret {E A} i (a : A) : puts (mret a : writer E A) i [] a.
Proof. intros pre rest _ _. cbn. by rewrite app_nil_r, drop_0. Qed.

Lemma puts_bind {E A B} (m : writer E A) (f : A -> writer E B) i s1 a j s2 b :
  puts m i s1 a -> j = i + len s1 -> puts (f a) j s2 b -> puts (x ← m; f x) i (s1 ++ s2) b.
Proof.
  intros Hm -> Hf pre rest Hi Hl. unfold mbind, M_bind. rewrite Hm by slen.
  rewrite Hf by (unfold len in *; rewrite ?length_app, ?length_drop in *; lia).
  rewrite drop_drop, length_app, <- !app_assoc. done.
Qed.


(** A store over [old], wherever it sits. *)
Lemma store_over {E} i bytes pre old post :
  i = len pre -> len old = len bytes ->
  (store i bytes : writer E unit) (pre ++ old ++ post) = Ok (tt, pre ++ bytes ++ post).
Proof.
  intros -> Ho. rewrite (puts_store (len pre) bytes pre (old ++ post)) by slen.
  unfold len in Ho. replace (length bytes) with (length old) by lia.
  rewrite drop_app_length, <- app_assoc. done.
Qed.
