(* ===== verification/Addons.v ===== *)
(** * VLESS Addons protobuf ([src/protocol/vless/addons.rs])

    The bounded parser of the Addons field: a key varint per field, field 1 the
    flow string, field 2 the opaque seed, every other field skipped. The
    reference semantics is a list of protobuf fields and its encoding. *)

From S2P Require Import Prelude Cursor.

Definition VISION_FLOW : list byte := bytes_of "xtls-rprx-vision".

Record Addons := { flow : option (list byte); seed : option (list byte) }.

Definition default_addons : Addons := {| flow := None; seed := None |}.

Inductive AddonsDecodeError :=
| VarintOverflow
| AddonsTruncated
| InvalidFieldNumber
| InvalidFlowUtf8
| UnsupportedWireType (wire_type : Z).

(** [input.get( *cursor ).ok_or(Truncated)?; *cursor += 1]. *)
Definition next_byte : M Cursor AddonsDecodeError byte := fun c =>
  match get_range (input c) (position c) (position c + 1) with
  | Some (b :: _) => Ok (b, {| input := input c; position := position c + 1 |})
  | _ => Err AddonsTruncated
  end.

Fixpoint varint_loop (shifts : list Z) (value : Z) : M Cursor AddonsDecodeError Z :=
  match shifts with
  | [] => throw VarintOverflow
  | shift :: shifts =>
    byte ← next_byte;
    return! VarintOverflow when (shift =? 63) && (1 <? u8 byte);
    let value := Z.lor value (Z.shiftl (Z.land (u8 byte) 127) shift) in
    if Z.land (u8 byte) 128 =? 0 then mret value else varint_loop shifts value
  end.

(** [(0..=63).step_by(7)]. *)
Definition varint_shifts : list Z := [0; 7; 14; 21; 28; 35; 42; 49; 56; 63].

Definition read_varint : M Cursor AddonsDecodeError Z := varint_loop varint_shifts 0.

(** The end of [read_length_delimited]: [input.get(cursor..cursor + length)]. *)
Definition take_checked (length : Z) : M Cursor AddonsDecodeError (list byte) := fun c =>
  length ← ok_or AddonsTruncated (try_from USIZE_MAX length);
  stop ← ok_or AddonsTruncated (checked_add USIZE_MAX (position c) length);
  value ← ok_or AddonsTruncated (get_range (input c) (position c) stop);
  Ok (value, {| input := input c; position := stop |}).

Definition read_length_delimited : M Cursor AddonsDecodeError (list byte) :=
  length ← read_varint;
  take_checked length.

Definition skip_bytes (length : Z) : M Cursor AddonsDecodeError unit := fun c =>
  stop ← ok_or AddonsTruncated (checked_add USIZE_MAX (position c) length);
  guard! len (input c) <? stop else AddonsTruncated;
  Ok (tt, {| input := input c; position := stop |}).

Definition skip_field (wire_type : Z) : M Cursor AddonsDecodeError unit :=
  if wire_type =? 0 then _ ← read_varint; mret tt
  else if wire_type =? 1 then skip_bytes 8
  else if wire_type =? 2 then _ ← read_length_delimited; mret tt
  else if wire_type =? 5 then skip_bytes 4
  else throw (UnsupportedWireType wire_type).

(** One iteration of the field loop. *)
Definition parse_field (addons : Addons) : M Cursor AddonsDecodeError Addons :=
  key ← read_varint;
  let field := Z.shiftr key 3 in
  let wire_type := Z.land key 7 in
  return! InvalidFieldNumber when field =? 0;
  if (field =? 1) && (wire_type =? 2) then
    value ← read_length_delimited;
    value ← lift (if from_utf8 value then Ok value else Err InvalidFlowUtf8);
    mret {| flow := Some value; seed := seed addons |}
  else if (field =? 2) && (wire_type =? 2) then
    value ← read_length_delimited;
    mret {| flow := flow addons; seed := Some value |}
  else
    _ ← skip_field wire_type;
    mret addons.

(** The [while cursor < input.len()] loop; running out of fuel is [Panic], which
    [parse_addons_no_panic] excludes. *)
Fixpoint parse_loop (fuel : nat) (addons : Addons) : M Cursor AddonsDecodeError Addons :=
  fun c =>
    if position c <? len (input c) then
      match fuel with
      | O => Panic
      | S fuel => (addons ← parse_field addons; parse_loop fuel addons) c
      end
    else Ok (addons, c).

Definition parse_addons (l : list byte) : result AddonsDecodeError Addons :=
  fst <$> parse_loop (length l) default_addons (new_cursor l).

(** ** Reference encoding *)

Inductive Field :=
| FVarint (number value : Z)
| FFixed64 (number : Z) (bytes : list byte)
| FBytes (number : Z) (bytes : list byte)
| FFixed32 (number : Z) (bytes : list byte).

Definition MAX_FIELD_NUMBER : Z := 2305843009213693951.

Definition field_number (f : Field) : Z :=
  match f with FVarint n _ | FFixed64 n _ | FBytes n _ | FFixed32 n _ => n end.

Definition field_ok (f : Field) : Prop :=
  1 <= field_number f <= MAX_FIELD_NUMBER /\
  match f with
  | FVarint _ v => u64_range v
  | FFixed64 _ b => len b = 8
  | FFixed32 _ b => len b = 4
  | FBytes n b => len b <= U32_MAX /\ (n = 1 -> from_utf8 b = true)
  end.

(** LEB128 of a value below [2 ^ (7 * S fuel)]. *)
Fixpoint enc_varint (fuel : nat) (v : Z) : list byte :=
  match fuel with
  | O => [as_u8 v]
  | S fuel => if v <? 128 then [as_u8 v] else as_u8 (v mod 128 + 128) :: enc_varint fuel (v / 128)
  end.

Definition varint (v : Z) : list byte := enc_varint 9 v.

Definition enc_field (f : Field) : list byte :=
  match f with
  | FVarint n v => varint (n * 8) ++ varint v
  | FFixed64 n b => varint (n * 8 + 1) ++ b
  | FBytes n b => varint (n * 8 + 2) ++ varint (len b) ++ b
  | FFixed32 n b => varint (n * 8 + 5) ++ b
  end.

(** The last flow and the last seed win; every other field is ignored. *)
Definition apply_field (a : Addons) (f : Field) : Addons :=
  match f with
  | FBytes n b =>
    if n =? 1 then {| flow := Some b; seed := seed a |}
    else if n =? 2 then {| flow := flow a; seed := Some b |}
    else a
  | _ => a
  end.

(** ** Varints *)

Lemma lor_shift a b n : 0 <= n -> 0 <= a < 2 ^ n -> Z.lor a (Z.shiftl b n) = a + b * 2 ^ n.
Proof.
  intros Hn Ha. rewrite <- Z.shiftl_mul_pow2 by done.
  assert (Hland : Z.land a (Z.shiftl b n) = 0).
  { apply Z.bits_inj_iff'. intros i Hi. rewrite Z.land_spec, Z.bits_0.
    destruct (Z.lt_ge_cases i n).
    - rewrite Z.shiftl_spec_low by done. apply andb_false_r.
    - rewrite <- (Z.mod_small a (2 ^ n)) by done. rewrite Z.mod_pow2_bits_high by lia. done. }
  pose proof (Z.add_lor_land a (Z.shiftl b n)). lia.
Qed.

Lemma land_127 z : Z.land z 127 = z mod 128.
Proof. change 127 with (Z.ones 7). by rewrite Z.land_ones. Qed.

Lemma land_7 z : Z.land z 7 = z mod 8.
Proof. change 7 with (Z.ones 3). by rewrite Z.land_ones. Qed.

(** The continuation bit of a byte. *)
Lemma land_128 z : 0 <= z < 256 -> (Z.land z 128 =? 0) = (z <? 128).
Proof.
  intros H. change 128 with (2 ^ 7) at 1.
  replace (Z.land z (2 ^ 7)) with ((z / 128 mod 2) * 2 ^ 7).
  - assert (z / 128 = 0 \/ z / 128 = 1) as [Hd|Hd].
    { pose proof (Z.div_pos z 128). pose proof (Z.div_lt_upper_bound z 128 2). lia. }
    + rewrite Hd. pose proof (Z.div_small_iff z 128). destruct (Z.ltb_spec z 128); [done|lia].
    + rewrite Hd. destruct (Z.ltb_spec z 128); [|done]. rewrite Z.div_small in Hd by lia. lia.
  - apply Z.bits_inj_iff'. intros i Hi. rewrite Z.land_spec, Z.pow2_bits_eqb by lia.
    rewrite <- Z.shiftl_mul_pow2 by lia. rewrite Z.shiftl_spec by done.
    destruct (Z.eqb_spec 7 i) as [<-|Hne].
    + rewrite andb_true_r. change 2 with (2 ^ 1). rewrite Z.mod_pow2_bits_low by lia.
      change 128 with (2 ^ 7). rewrite Z.div_pow2_bits by lia. done.
    + rewrite andb_false_r. destruct (Z.lt_ge_cases i 7).
      * apply Z.testbit_neg_r. lia.
      * change 2 with (2 ^ 1). apply Z.mod_pow2_bits_high. lia.
Qed.

(** ** Field reads *)

Lemma next_byte_at pre rest :
  next_byte (at_pos pre rest) =
    match rest with [] => Err AddonsTruncated | b :: rest => Ok (b, at_pos (pre ++ [b]) rest) end.
Proof.
  unfold next_byte. cbn. rewrite get_range_app_r by lia.
  replace (len pre - len pre) with 0 by lia. replace (len pre + 1 - len pre) with 1 by lia.
  destruct rest as [|b rest]; [done|]. rewrite get_range_some by slen. cbn. do 2 f_equal.
  unfold at_pos. rewrite <- app_assoc. f_equal. slen.
Qed.

Lemma reads_next_byte b : reads next_byte [b] b.
Proof. intros pre rest _. by rewrite next_byte_at. Qed.

Lemma safe_next_byte : safe next_byte.
Proof.
  intros c Hc. destruct (cursor_ok_at_pos c Hc) as (pre & rest & ->). rewrite next_byte_at.
  destruct rest; [done|]. apply at_pos_ok.
Qed.

Lemma sound_next_byte : sound next_byte (fun s b => s = [b]).
Proof.
  intros pre rest a c'. rewrite next_byte_at. destruct rest as [|b rest]; [done|].
  intros [= <- <-]. exists [b], rest. done.
Qed.

(** Consuming at least one byte. *)
Definition nonempty {A} (s : list byte) (_ : A) : Prop := s <> [].

Lemma sound_varint_loop shifts : forall v, sound (varint_loop shifts v) nonempty.
Proof.
  induction shifts as [|sh shifts IH]; intros v; [apply sound_throw|]. cbn [varint_loop].
  apply (sound_weaken _ (fun s b => exists s1 a s2, s = s1 ++ s2 /\ s1 = [a] /\ True)).
  - apply (sound_bind _ _ (fun s b => s = [b]) (fun _ _ _ => True)); [apply sound_next_byte|].
    intros b. eapply sound_weaken; [|done].
    eapply (sound_bind _ _ _ (fun _ _ _ => True)); [apply sound_return_if|]. intros u.
    destruct (_ =? 0); [eapply sound_weaken; [apply sound_ret|done] |
      eapply sound_weaken; [apply IH|done]].
  - intros s a (s1 & b & s2 & -> & -> & _). done.
Qed.

Lemma safe_varint_loop shifts : forall v, safe (varint_loop shifts v).
Proof.
  induction shifts as [|sh shifts IH]; intros v; [apply safe_throw|].
  apply safe_bind; [apply safe_next_byte|]. intros b.
  apply safe_bind; [apply safe_return_if|]. intros u. destruct (_ =? 0); [apply safe_ret | apply IH].
Qed.

(** The shift amounts that remain when [S n] bytes may still be read. *)
Fixpoint shifts_down (n : nat) : list Z :=
  match n with O => [63] | S m => (63 - 7 * Z.of_nat n) :: shifts_down m end.

Lemma reads_varint_loop n : forall acc v, (n <= 9)%nat ->
  0 <= acc < 2 ^ (63 - 7 * Z.of_nat n) -> 0 <= v < 2 ^ (7 * Z.of_nat n + 1) ->
  reads (varint_loop (shifts_down n) acc) (enc_varint n v) (acc + v * 2 ^ (63 - 7 * Z.of_nat n)).
Proof.
  induction n as [|n IH]; intros acc v Hn Hacc Hv.
  - cbn [shifts_down enc_varint varint_loop]. change (2 ^ (7 * Z.of_nat 0 + 1)) with 2 in Hv.
    change (63 - 7 * Z.of_nat 0) with 63 in *.
    assert (Hb : u8 (as_u8 v) = v) by (apply u8_as_u8_small; unfold U8_MAX; lia).
    eapply reads_bind_nil; [apply reads_next_byte|]. rewrite Hb.
    apply reads_return_if; [apply andb_false_iff; right; apply Z.ltb_ge; lia|].
    rewrite land_128, land_127, Z.mod_small, lor_shift by lia.
    rewrite (proj2 (Z.ltb_lt v 128)) by lia. apply reads_ret.
  - set (k := 63 - 7 * Z.of_nat (S n)) in *. assert (Hk : 0 <= k) by lia.
    cbn [shifts_down enc_varint varint_loop]. fold k.
    destruct (Z.ltb_spec v 128) as [Hlt|Hge].
    + assert (Hb : u8 (as_u8 v) = v) by (apply u8_as_u8_small; unfold U8_MAX; lia).
      eapply reads_bind_nil; [apply reads_next_byte|]. rewrite Hb.
      apply reads_return_if; [apply andb_false_iff; left; apply Z.eqb_neq; lia|].
      rewrite land_128, land_127, Z.mod_small, lor_shift by lia.
      rewrite (proj2 (Z.ltb_lt v 128)) by lia. apply reads_ret.
    + pose proof (Z.mod_pos_bound v 128 ltac:(lia)) as Hm.
      assert (Hb : u8 (as_u8 (v mod 128 + 128)) = v mod 128 + 128)
        by (apply u8_as_u8_small; unfold U8_MAX; lia).
      change (as_u8 (v mod 128 + 128) :: enc_varint n (v / 128))
        with ([as_u8 (v mod 128 + 128)] ++ enc_varint n (v / 128)).
      eapply reads_bind; [apply reads_next_byte|]. rewrite Hb.
      apply reads_return_if; [apply andb_false_iff; left; apply Z.eqb_neq; lia|].
      rewrite land_128, land_127, lor_shift by lia.
      rewrite (proj2 (Z.ltb_ge (v mod 128 + 128) 128)) by lia.
      replace ((v mod 128 + 128) mod 128) with (v mod 128)
        by (replace (v mod 128 + 128) with (v mod 128 + 1 * 128) by lia;
            rewrite Z.mod_add, Z.mod_mod by lia; reflexivity).
      assert (Hpow : 2 ^ (63 - 7 * Z.of_nat n) = 2 ^ k * 128).
      { replace (63 - 7 * Z.of_nat n) with (k + 7) by lia. rewrite Z.pow_add_r by lia. done. }
      replace (acc + v * 2 ^ k)
        with ((acc + v mod 128 * 2 ^ k) + v / 128 * 2 ^ (63 - 7 * Z.of_nat n)).
      2: { rewrite Hpow. pose proof (Z.div_mod v 128 ltac:(lia)). nia. }
      apply IH; [lia | rewrite Hpow; nia |].
      split; [apply Z.div_pos; lia|]. apply Z.div_lt_upper_bound; [lia|].
      replace (7 * Z.of_nat (S n) + 1) with (7 * Z.of_nat n + 1 + 7) in Hv by lia.
      rewrite Z.pow_add_r in Hv by lia. lia.
Qed.

Lemma reads_varint v : u64_range v -> reads read_varint (varint v) v.
Proof.
  intros Hv. unfold read_varint, varint. change varint_shifts with (shifts_down 9).
  replace v with (0 + v * 2 ^ (63 - 7 * Z.of_nat 9)) at 2 by (change (2 ^ _) with 1; lia).
  apply reads_varint_loop; [lia| change (2 ^ _) with 1; lia |].
  unfold u64_range, U64_MAX in Hv. change (2 ^ _) with 18446744073709551616. lia.
Qed.

Lemma take_checked_at n pre rest :
  0 <= n -> len (pre ++ rest) <= USIZE_MAX ->
  take_checked n (at_pos pre rest) =
    if len rest <? n then Err AddonsTruncated
    else Ok (take (Z.to_nat n) rest, at_pos (pre ++ take (Z.to_nat n) rest) (drop (Z.to_nat n) rest)).
Proof.
  intros Hn Hl. unfold take_checked. cbn [input position at_pos].
  assert (Hlen : len rest <= USIZE_MAX) by slen.
  destruct (Z.ltb_spec (len rest) n) as [Hlt|Hge].
  - unfold try_from. destruct (_ && _); cbn; [|done]. unfold checked_add.
    destruct (_ <=? _); cbn; [|done]. by rewrite get_range_none by slen.
  - rewrite (proj2 (try_from_some USIZE_MAX n n)) by lia. cbn.
    rewrite (proj2 (checked_add_some USIZE_MAX (len pre) n (len pre + n))) by slen. cbn.
    rewrite get_range_app_r by lia.
    replace (len pre - len pre) with 0 by lia. replace (len pre + n - len pre) with n by lia.
    rewrite get_range_some by slen. cbn. rewrite Z.sub_0_r. do 2 f_equal. unfold at_pos.
    rewrite <- app_assoc, take_drop. f_equal. slen.
Qed.

Lemma reads_take_checked s : reads (take_checked (len s)) s s.
Proof.
  intros pre rest Hl. rewrite take_checked_at by (done || apply len_nonneg).
  replace (len (s ++ rest) <? len s) with false by (symmetry; apply Z.ltb_ge; slen).
  unfold len. rewrite Nat2Z.id, take_app_length, drop_app_length. done.
Qed.

Lemma reads_skip_bytes s : reads (skip_bytes (len s)) s tt.
Proof.
  intros pre rest Hl. unfold skip_bytes. cbn [input position at_pos].
  rewrite (proj2 (checked_add_some USIZE_MAX (len pre) (len s) (len pre + len s))) by slen. cbn.
  replace (len (pre ++ s ++ rest) <? len pre + len s) with false by (symmetry; apply Z.ltb_ge; slen).
  cbn. unfold at_pos. rewrite <- app_assoc. do 3 f_equal. slen.
Qed.

(** A read whose end is found by a checked addition never leaves the input, and
    what it moved over is what it consumed. *)
Lemma sound_take_checked n : sound (take_checked n) (fun _ _ => True).
Proof.
  intros pre rest a c'. unfold take_checked. cbn [input position at_pos]. intros H. inv_ok H.
  apply try_from_some in Hstep as [-> Hn]. apply checked_add_some in Hstep0 as [-> _].
  destruct (get_range_inv _ _ _ _ Hstep1) as (_ & _ & Hle & Hla & _).
  rewrite get_range_app_r in Hstep1 by lia.
  replace (len pre - len pre) with 0 in Hstep1 by lia.
  replace (len pre + n - len pre) with n in Hstep1 by lia.
  apply get_range_inv in Hstep1 as (_ & _ & _ & _ & Hrest).
  change (take (Z.to_nat 0) rest) with (@nil byte) in Hrest. cbn [app] in Hrest.
  exists a, (drop (Z.to_nat n) rest). split_and!; try done. unfold at_pos.
  rewrite <- app_assoc, <- Hrest. f_equal. slen.
Qed.

Lemma sound_skip_bytes n : 0 <= n -> sound (skip_bytes n) (fun _ _ => True).
Proof.
  intros Hn pre rest a c'. unfold skip_bytes. cbn [input position at_pos]. intros H. inv_ok H.
  apply checked_add_some in Hstep as [-> _]. apply Z.ltb_ge in Hstep0.
  exists (take (Z.to_nat n) rest), (drop (Z.to_nat n) rest). unfold at_pos.
  rewrite <- app_assoc, take_drop. split_and!; try done. f_equal. slen.
Qed.

Lemma safe_take_checked n : safe (take_checked n).
Proof.
  intros c Hc. destruct (take_checked n c) as [[a c']| |] eqn:H; [|done|].
  - destruct (cursor_ok_at_pos c Hc) as (pre & rest & ->).
    destruct (sound_take_checked n _ _ _ _ H) as (s & r & _ & -> & _). apply at_pos_ok.
  - unfold take_checked in H. destruct (try_from _ _); cbn in H; [|done].
    destruct (checked_add _ _ _); cbn in H; [|done]. by destruct (get_range _ _ _).
Qed.

Lemma safe_skip_bytes n : 0 <= n -> safe (skip_bytes n).
Proof.
  intros Hn c Hc. destruct (skip_bytes n c) as [[a c']| |] eqn:H; [|done|].
  - destruct (cursor_ok_at_pos c Hc) as (pre & rest & ->).
    destruct (sound_skip_bytes n Hn _ _ _ _ H) as (s & r & _ & -> & _). apply at_pos_ok.
  - unfold skip_bytes in H. destruct (checked_add _ _ _); cbn in H; [|done]. by destruct (_ <? _).
Qed.

#[local] Hint Resolve safe_varint_loop safe_take_checked safe_skip_bytes : rust.

Lemma safe_parse_field a : safe (parse_field a).
Proof.
  assert (Hv : safe read_varint) by apply safe_varint_loop.
  assert (Hl : safe read_length_delimited) by (apply safe_bind; auto with rust).
  assert (Hs : forall w, safe (skip_field w)).
  { intros w. unfold skip_field. repeat case_match;
      first [apply safe_skip_bytes; lia | apply safe_throw | apply safe_bind; [done|intros; apply safe_ret]]. }
  apply safe_bind; [done|]. intros key. apply safe_bind; [apply safe_return_if|]. intros u.
  repeat case_match; (apply safe_bind; [done|]; intros v); auto with rust.
  apply safe_bind; [apply safe_lift; by destruct (from_utf8 v)|]. auto with rust.
Qed.

(** Every field consumes at least its key, so the field loop always ends. *)
Lemma sound_parse_field a : sound (parse_field a) nonempty.
Proof.
  assert (Hl : sound read_length_delimited (fun _ _ => True)).
  { eapply sound_weaken; [apply (sound_bind _ _ nonempty (fun _ _ _ => True));
      [apply sound_varint_loop | intros n; apply sound_take_checked] | done]. }
  assert (Hv : sound read_varint (fun _ _ => True)).
  { eapply sound_weaken; [apply sound_varint_loop | done]. }
  assert (Hunit : forall A B (m : M Cursor AddonsDecodeError A) (f : A -> B),
    sound m (fun _ _ => True) -> sound (x ← m; mret (f x)) (fun _ _ => True)).
  { intros A B m f Hm. eapply sound_weaken; [eapply sound_bind; [exact Hm|]; intros x; apply sound_ret|done]. }
  assert (Hs : forall w, sound (skip_field w) (fun _ _ => True)).
  { intros w. unfold skip_field. repeat case_match;
      first [apply sound_skip_bytes; lia | apply sound_throw | by apply (Hunit _ _ _ (fun _ => tt))]. }
  apply (sound_weaken _ (fun s b => exists s1 (a : Z) s2, s = s1 ++ s2 /\ nonempty s1 a /\ True)).
  2: { intros s x (s1 & k & s2 & -> & Hne & _). unfold nonempty in *. by destruct s1. }
  apply (sound_bind _ _ nonempty (fun _ _ _ => True)); [apply sound_varint_loop|]. intros key.
  eapply sound_weaken; [|done].
  eapply (sound_bind _ _ _ (fun _ _ _ => True)); [apply sound_return_if|]. intros u.
  repeat case_match; [|by apply Hunit|by apply (Hunit _ _ _ (fun _ => a))].
  eapply sound_weaken; [|done].
  eapply (sound_bind _ _ _ (fun _ _ _ => True)); [exact Hl|]. intros v.
  eapply sound_weaken; [|done].
  eapply (sound_bind _ _ _ (fun _ _ _ => True)); [apply sound_lift|]. intros w.
  eapply sound_weaken; [apply sound_ret | done].
Qed.

Lemma parse_loop_no_panic fuel : forall a pre rest,
  len rest <= Z.of_nat fuel -> no_panic (parse_loop fuel a (at_pos pre rest)).
Proof.
  induction fuel as [|fuel IH]; intros a pre rest Hf; cbn [parse_loop input position at_pos].
  - destruct rest; [|slen]. rewrite app_nil_r, (proj2 (Z.ltb_ge _ _)) by lia. done.
  - destruct (_ <? _); [|done]. unfold mbind, M_bind.
    pose proof (safe_parse_field a _ (at_pos_ok pre rest)) as Hsafe.
    destruct (parse_field a (at_pos pre rest)) as [[a' c']| |] eqn:Hp; [|done|done].
    destruct (sound_parse_field a _ _ _ _ Hp) as (s & r & -> & -> & Hne).
    apply IH. unfold nonempty in Hne. destruct s; [done|]. slen.
Qed.

Lemma shiftr_3 z : Z.shiftr z 3 = z / 8.
Proof. by rewrite Z.shiftr_div_pow2. Qed.

Lemma key_split n w : 0 <= w < 8 -> Z.shiftr (n * 8 + w) 3 = n /\ Z.land (n * 8 + w) 7 = w.
Proof.
  intros Hw. rewrite shiftr_3, land_7. split.
  - rewrite Z.div_add_l, Z.div_small by lia. lia.
  - rewrite Z.add_comm, Z.mod_add, Z.mod_small by lia. done.
Qed.

Lemma reads_length_delimited b : len b <= U32_MAX -> reads read_length_delimited (varint (len b) ++ b) b.
Proof.
  intros Hb. eapply reads_bind; [apply reads_varint|apply reads_take_checked].
  pose proof (len_nonneg b). unfold u64_range, U32_MAX, U64_MAX in *. lia.
Qed.

Lemma reads_parse_field a f : field_ok f -> reads (parse_field a) (enc_field f) (apply_field a f).
Proof.
  intros [Hn Hf]. unfold MAX_FIELD_NUMBER in Hn.
  assert (Hkey : forall w k s b, 0 <= w < 8 -> 1 <= k <= 2305843009213693951 ->
    reads (let field := k in let wire_type := w in
      if (field =? 1) && (wire_type =? 2) then
        value ← read_length_delimited;
        value ← lift (if from_utf8 value then Ok value else Err InvalidFlowUtf8);
        mret {| flow := Some value; seed := seed a |}
      else if (field =? 2) && (wire_type =? 2) then
        value ← read_length_delimited; mret {| flow := flow a; seed := Some value |}
      else _ ← skip_field wire_type; mret a) s b ->
    reads (parse_field a) (varint (k * 8 + w) ++ s) b).
  { intros w k s b Hw Hk Hr. eapply reads_bind.
    - apply reads_varint. unfold u64_range, U64_MAX. lia.
    - destruct (key_split k w Hw) as [-> ->]. apply reads_return_if; [apply Z.eqb_neq; lia|]. exact Hr. }
  destruct f as [n v|n b|n b|n b]; cbn [enc_field apply_field field_number] in *.
  - replace (n * 8) with (n * 8 + 0) by lia. apply Hkey; [lia|lia|]. cbn. rewrite !andb_false_r.
    eapply reads_bind_nil; [|apply reads_ret].
    eapply reads_bind_nil; [by apply reads_varint | apply reads_ret].
  - apply Hkey; [lia|lia|]. cbn. rewrite !andb_false_r.
    eapply reads_bind_nil; [|apply reads_ret]. rewrite <- Hf. apply reads_skip_bytes.
  - destruct Hf as [Hb Hutf]. apply Hkey; [lia|lia|]. cbn. rewrite !andb_true_r.
    destruct (Z.eqb_spec n 1) as [->|Hn1].
    + eapply reads_bind_nil; [by apply reads_length_delimited|]. rewrite (Hutf eq_refl).
      eapply reads_lift_bind; [done|apply reads_ret].
    + destruct (Z.eqb_spec n 2) as [->|Hn2].
      * eapply reads_bind_nil; [by apply reads_length_delimited|apply reads_ret].
      * eapply reads_bind_nil; [|apply reads_ret].
        eapply reads_bind_nil; [by apply reads_length_delimited|apply reads_ret].
  - apply Hkey; [lia|lia|]. cbn. rewrite !andb_false_r.
    eapply reads_bind_nil; [|apply reads_ret]. rewrite <- Hf. apply reads_skip_bytes.
Qed.

Lemma parse_loop_fields fuel : forall fields a pre,
  Forall field_ok fields ->
  len (concat (map enc_field fields)) <= Z.of_nat fuel ->
  len (pre ++ concat (map enc_field fields)) <= USIZE_MAX ->
  parse_loop fuel a (at_pos pre (concat (map enc_field fields))) =
    Ok (fold_left apply_field fields a, at_pos (pre ++ concat (map enc_field fields)) []).
Proof.
  induction fuel as [|fuel IH]; intros [|f fields] a pre Hall Hf Hl;
    cbn [map concat fold_left parse_loop input position at_pos];
    try (rewrite !app_nil_r, (proj2 (Z.ltb_ge _ _)) by lia; unfold at_pos; by rewrite app_nil_r).
  all: inversion Hall as [|? ? Hok Hall' ]; subst.
  all: assert (Hne : 0 < len (enc_field f)).
  1, 3: assert (Hvar : forall v, 0 < len (varint v)) by
      (intros v; unfold varint; cbn [enc_varint]; case_match; slen);
    destruct f as [n v|n b|n b|n b]; cbn [enc_field];
    [ specialize (Hvar (n * 8)) | specialize (Hvar (n * 8 + 1))
    | specialize (Hvar (n * 8 + 2)) | specialize (Hvar (n * 8 + 5)) ]; slen.
  - cbn in Hf. slen.
  - cbn [map concat] in Hf, Hl.
    replace (_ <? _) with true by (symmetry; apply Z.ltb_lt; slen).
    unfold mbind, M_bind. rewrite (reads_parse_field a f Hok) by done.
    rewrite IH; [by rewrite <- app_assoc | done | slen | rewrite <- app_assoc; done].
Qed.

Lemma parse_addons_no_panic l : no_panic (parse_addons l).
Proof.
  unfold parse_addons. rewrite <- at_pos_new.
  pose proof (parse_loop_no_panic (length l) default_addons [] l ltac:(unfold len; lia)) as H.
  destruct (parse_loop _ _ _) as [[]| |]; cbn; done.
Qed.

Lemma parse_addons_ok fields :
  Forall field_ok fields -> len (concat (map enc_field fields)) <= USIZE_MAX ->
  parse_addons (concat (map enc_field fields)) = Ok (fold_left apply_field fields default_addons).
Proof.
  intros Hall Hl. unfold parse_addons. rewrite <- at_pos_new.
  rewrite parse_loop_fields; done || (unfold len; lia).
Qed.

(** The Addons parser never panics and always terminates, and on every
    well-formed protobuf message (any fields, in any order, of any of the four
    supported wire types) it returns exactly the last flow and the last seed,
    ignoring all other fields. *)
Theorem addons_parse_refines_fields (fields : list Field) :
  Forall field_ok fields -> len (concat (map enc_field fields)) <= USIZE_MAX ->
  parse_addons (concat (map enc_field fields)) = Ok (fold_left apply_field fields default_addons) /\
  forall l, no_panic (parse_addons l).
Proof. intros. split; [by apply parse_addons_ok | apply parse_addons_no_panic]. Qed.

Lemma addons_parse_refines_fields_witness :
  parse_addons (concat (map enc_field
    [FVarint 9 300; FBytes 2 [x01; xff]; FBytes 1 VISION_FLOW; FFixed32 7 [x01; x02; x03; x04]]))
  = Ok {| flow := Some VISION_FLOW; seed := Some [x01; xff] |}.
Proof.
  destruct (addons_parse_refines_fields
    [FVarint 9 300; FBytes 2 [x01; xff]; FBytes 1 VISION_FLOW; FFixed32 7 [x01; x02; x03; x04]])
    as [H _].
  - repeat constructor; try (vm_compute; congruence).
  - vm_compute. congruence.
  - rewrite H. reflexivity.
Defined.
