(* ===== verification/VlessRequest.v ===== *)
(** * VLESS requests: types, decoders and the stream reader

    [src/protocol/vless/types.rs], [decode.rs] (the owned decoder of the public
    API and the borrowed decoder of the session path) and [read.rs] (the loop
    that buffers a request header from a stream). *)

From S2P Require Import Prelude Cursor.

(** ** Types *)

Definition VERSION : byte := x00.

(** [UserId([u8; 16])], IPv4 and IPv6 addresses are their octets. *)
Definition UserId := list byte.

Inductive Command := Tcp | Udp | Mux | Reverse.

#[export] Instance Command_eq_dec : EqDecision Command.
Proof. solve_decision. Defined.

Definition as_byte (c : Command) : byte :=
  match c with Tcp => x01 | Udp => x02 | Mux => x03 | Reverse => x04 end.

Definition requires_destination (c : Command) : bool :=
  match c with Tcp | Udp => true | _ => false end.

Inductive Address :=
| Ipv4 (octets : list byte)
| Domain (name : list byte)
| Ipv6 (octets : list byte).

Record Destination := { address : Address; port : Z }.

Record RequestHeader := {
  version : byte; user_id : UserId; addons : list byte; command : Command;
  destination : option Destination;
}.

(** ** The decoder *)

Definition ADDRESS_TYPE_IPV4 : byte := x01.
Definition ADDRESS_TYPE_DOMAIN : byte := x02.
Definition ADDRESS_TYPE_IPV6 : byte := x03.

Inductive DecodeError :=
| UnexpectedEnd (field : string) (needed remaining : Z)
| UnsupportedVersion (version : byte)
| UnknownCommand (command : byte)
| UnknownAddressType (address_type : byte)
| EmptyDomain
| InvalidDomainName.

Definition parser := M Cursor DecodeError.

Definition take_field (length : Z) (field : string) : parser (list byte) :=
  take_bytes (UnexpectedEnd field) length.

Definition read_u8 (field : string) : parser byte :=
  bytes ← take_field 1 field; lift (index bytes 0).

Definition read_array (length : Z) (field : string) : parser (list byte) :=
  take_field length field.

Definition read_u16 (field : string) : parser Z :=
  bytes ← read_array 2 field; mret (from_be bytes).

Definition remaining_slice : parser (list byte) := fun c =>
  match slice_from (input c) (position c) with
  | Ok s => Ok (s, c) | Err e => Err e | Panic => Panic
  end.

Definition is_domain_byte (b : byte) : bool :=
  is_ascii_alphanumeric b || (u8 b =? 45) || (u8 b =? 46) || (u8 b =? 95).

Definition decode_command (value : byte) : result DecodeError Command :=
  match value with
  | x01 => Ok Tcp
  | x02 => Ok Udp
  | x03 => Ok Mux
  | x04 => Ok Reverse
  | unknown => Err (UnknownCommand unknown)
  end.

Definition decode_domain_owned : parser Address :=
  length ← read_u8 "domain length";
  return! EmptyDomain when u8 length =? 0;
  bytes ← take_field (u8 length) "domain";
  return! InvalidDomainName when negb (forallb is_domain_byte bytes);
  return! InvalidDomainName when negb (from_utf8 bytes);
  mret (Domain bytes).

Definition decode_destination_owned : parser Destination :=
  port ← read_u16 "destination port";
  address_type ← read_u8 "address type";
  address ←
    (if decide (address_type = ADDRESS_TYPE_IPV4) then
       octets ← read_array 4 "IPv4 address"; mret (Ipv4 octets)
     else if decide (address_type = ADDRESS_TYPE_DOMAIN) then decode_domain_owned
     else if decide (address_type = ADDRESS_TYPE_IPV6) then
       octets ← read_array 16 "IPv6 address"; mret (Ipv6 octets)
     else throw (UnknownAddressType address_type));
  mret {| address := address; port := port |}.

Record DecodeRequest := { header : RequestHeader; payload : list byte }.

(** The header fields up to the payload, and the public decoder. *)
Definition decode_header : parser RequestHeader :=
  version ← read_u8 "protocol version";
  return! UnsupportedVersion version when negb (bool_decide (version = VERSION));
  user_id ← read_array 16 "user ID";
  addons_length ← read_u8 "addons length";
  addons ← take_field (u8 addons_length) "addons";
  byte ← read_u8 "command";
  command ← lift (decode_command byte);
  destination ←
    (if requires_destination command
     then destination ← decode_destination_owned; mret (Some destination)
     else mret None);
  mret {| version := version; user_id := user_id; addons := addons; command := command;
          destination := destination |}.

Definition decode_request (l : list byte) : result DecodeError DecodeRequest :=
  fst <$> run_parser
    (header ← decode_header; payload ← remaining_slice;
     mret {| header := header; payload := payload |}) l.

(** ** The borrowed decoder of the session path *)

Inductive AddressRef :=
| RefIpv4 (octets : list byte)
| RefDomain (name : list byte)
| RefIpv6 (octets : list byte).

Record DestinationRef := { ref_address : AddressRef; ref_port : Z }.

Definition into_owned (d : DestinationRef) : Destination :=
  {| address := match ref_address d with
                | RefIpv4 o => Ipv4 o | RefDomain n => Domain n | RefIpv6 o => Ipv6 o
                end;
     port := ref_port d |}.

Record DecodeRequestRef := {
  ref_version : byte; ref_user_id : UserId; ref_addons : list byte; ref_command : Command;
  ref_destination : option DestinationRef; ref_payload : list byte;
}.

Definition decode_domain_ref : parser AddressRef :=
  length ← read_u8 "domain length";
  return! EmptyDomain when u8 length =? 0;
  bytes ← take_field (u8 length) "domain";
  return! InvalidDomainName when negb (forallb is_domain_byte bytes);
  return! InvalidDomainName when negb (from_utf8 bytes);
  mret (RefDomain bytes).

Definition decode_destination_ref : parser DestinationRef :=
  port ← read_u16 "destination port";
  address_type ← read_u8 "address type";
  address ←
    (if decide (address_type = ADDRESS_TYPE_IPV4) then
       octets ← read_array 4 "IPv4 address"; mret (RefIpv4 octets)
     else if decide (address_type = ADDRESS_TYPE_DOMAIN) then decode_domain_ref
     else if decide (address_type = ADDRESS_TYPE_IPV6) then
       octets ← read_array 16 "IPv6 address"; mret (RefIpv6 octets)
     else throw (UnknownAddressType address_type));
  mret {| ref_address := address; ref_port := port |}.

Definition decode_request_ref_p : parser DecodeRequestRef :=
  version ← read_u8 "protocol version";
  return! UnsupportedVersion version when negb (bool_decide (version = VERSION));
  user_id ← read_array 16 "user ID";
  addons_length ← read_u8 "addons length";
  addons ← take_field (u8 addons_length) "addons";
  byte ← read_u8 "command";
  command ← lift (decode_command byte);
  destination ←
    (if requires_destination command
     then destination ← decode_destination_ref; mret (Some destination)
     else mret None);
  payload ← remaining_slice;
  mret {| ref_version := version; ref_user_id := user_id; ref_addons := addons;
          ref_command := command; ref_destination := destination; ref_payload := payload |}.

Definition decode_request_ref (l : list byte) : result DecodeError DecodeRequestRef :=
  fst <$> run_parser decode_request_ref_p l.

Definition request_to_owned (r : DecodeRequestRef) : DecodeRequest :=
  {| header := {| version := ref_version r; user_id := ref_user_id r; addons := ref_addons r;
                  command := ref_command r; destination := into_owned <$> ref_destination r |};
     payload := ref_payload r |}.

(** ** Reading a request from a stream ([read_request])

    The stream is the bytes still to arrive; [available k] is how many of them
    the [k]-th read could return at once ([None]: it fails). A read returns no
    byte only at the end of the stream. *)

Inductive ReadError :=
| ReadIo
| ReadDecode (e : DecodeError)
| ReadUnexpectedEof (e : DecodeError)
| HeaderToolLarge (limit : Z).

Definition MAX_REQUEST_HEADER_SIZE : Z := 533.

(** [reader.read(&mut chunk[..capacity])]. *)
Definition read_some (available capacity : Z) (stream : list byte) : list byte * list byte :=
  let n := Z.to_nat (Z.min (Z.max 1 available) capacity) in (take n stream, drop n stream).

(** The buffer and the unread stream are returned too. Out of fuel is [Panic]. *)
Fixpoint read_request_loop (fuel : nat) (available : nat -> option Z) (k : nat)
    (buffer stream : list byte) : result ReadError DecodeRequest * (list byte * list byte) :=
  match fuel with
  | O => (Panic, (buffer, stream))
  | S fuel =>
    match decode_request buffer with
    | Ok decoded => (Ok decoded, (buffer, stream))
    | Err (UnexpectedEnd field needed remaining) =>
      if MAX_REQUEST_HEADER_SIZE <=? len buffer
      then (Err (HeaderToolLarge MAX_REQUEST_HEADER_SIZE), (buffer, stream))
      else
        match available k with
        | None => (Err ReadIo, (buffer, stream))
        | Some n =>
          let '(chunk, stream) := read_some n (MAX_REQUEST_HEADER_SIZE - len buffer) stream in
          if len chunk =? 0
          then (Err (ReadUnexpectedEof (UnexpectedEnd field needed remaining)), (buffer, stream))
          else read_request_loop fuel available (S k) (buffer ++ chunk) stream
        end
    | Err error => (Err (ReadDecode error), (buffer, stream))
    | Panic => (Panic, (buffer, stream))
    end
  end.

Definition read_request (available : nat -> option Z) (stream : list byte)
    : result ReadError DecodeRequest * (list byte * list byte) :=
  read_request_loop (S (Z.to_nat MAX_REQUEST_HEADER_SIZE)) available 0 [] stream.

(** ** Reference encoding *)

Definition address_wf (a : Address) : Prop :=
  match a with
  | Ipv4 o => len o = 4
  | Ipv6 o => len o = 16
  | Domain n => 1 <= len n <= U8_MAX /\ forallb is_domain_byte n = true
  end.

Definition destination_wf (d : Destination) : Prop := address_wf (address d) /\ u16_range (port d).

Definition header_wf (h : RequestHeader) : Prop :=
  version h = VERSION /\ len (user_id h) = 16 /\ len (addons h) <= U8_MAX /\
  match destination h with
  | Some d => requires_destination (command h) = true /\ destination_wf d
  | None => requires_destination (command h) = false
  end.

Definition enc_address (a : Address) : list byte :=
  match a with
  | Ipv4 o => ADDRESS_TYPE_IPV4 :: o
  | Domain n => ADDRESS_TYPE_DOMAIN :: as_u8 (len n) :: n
  | Ipv6 o => ADDRESS_TYPE_IPV6 :: o
  end.

Definition enc_destination (d : Destination) : list byte := to_be 2 (port d) ++ enc_address (address d).

Definition enc_header (h : RequestHeader) : list byte :=
  [version h] ++ user_id h ++ [as_u8 (len (addons h))] ++ addons h ++ [as_byte (command h)] ++
  match destination h with Some d => enc_destination d | None => [] end.

(** ** Decoder lemmas *)

Lemma domain_ascii n : forallb is_domain_byte n = true -> from_utf8 n = true.
Proof.
  intros H. apply ascii_from_utf8. unfold is_ascii, is_ascii_byte.
  rewrite forallb_forall in *. intros b Hb. specialize (H b Hb). revert H.
  unfold is_domain_byte, is_ascii_alphanumeric, is_ascii_digit, is_ascii_uppercase,
    is_ascii_lowercase, in_rangeb.
  rewrite !orb_true_iff, !andb_true_iff, !Z.leb_le, !Z.eqb_eq, Z.ltb_lt. lia.
Qed.

Lemma decode_command_as_byte c : decode_command (as_byte c) = Ok c.
Proof. by destruct c. Qed.

Lemma decode_command_ok b c : decode_command b = Ok c -> b = as_byte c.
Proof. destruct b; cbn; intros H; try discriminate H; by injection H as <-. Qed.

Lemma decode_command_no_panic b : no_panic (decode_command b).
Proof. destruct b; done. Qed.

Lemma reads_read_u8 f b : reads (read_u8 f) [b] b.
Proof.
  eapply reads_bind_nil; [by apply reads_take_bytes|].
  intros pre rest _. cbn. by rewrite app_nil_r.
Qed.

Lemma reads_take_field f n s : len s = n -> reads (take_field n f) s s.
Proof. intros <-. by apply reads_take_bytes. Qed.

Lemma reads_read_u16 f z : u16_range z -> reads (read_u16 f) (to_be 2 z) z.
Proof.
  intros Hz. eapply reads_bind_nil; [apply reads_take_bytes; by rewrite len_to_be|].
  rewrite from_be_u16 by done. apply reads_ret.
Qed.

Lemma reads_domain n :
  1 <= len n <= U8_MAX -> forallb is_domain_byte n = true ->
  reads decode_domain_owned ([as_u8 (len n)] ++ n) (Domain n).
Proof.
  intros Hn Hd. unfold decode_domain_owned. eapply reads_bind; [apply reads_read_u8|].
  rewrite u8_as_u8_small by lia. apply reads_return_if; [apply Z.eqb_neq; lia|].
  eapply reads_bind_nil; [by apply reads_take_field|].
  apply reads_return_if; [by rewrite Hd|]. apply reads_return_if; [by rewrite domain_ascii|].
  apply reads_ret.
Qed.

Lemma reads_destination d : destination_wf d -> reads decode_destination_owned (enc_destination d) d.
Proof.
  destruct d as [a p]. intros [Ha Hp]. cbn in Ha, Hp. unfold decode_destination_owned, enc_destination. cbn [port address].
  eapply reads_bind; [by apply reads_read_u16|].
  destruct a as [o|n|o]; cbn [enc_address].
  - change (ADDRESS_TYPE_IPV4 :: o) with ([ADDRESS_TYPE_IPV4] ++ o).
    eapply reads_bind; [apply reads_read_u8|]. rewrite decide_True by done.
    eapply reads_bind_nil; [|apply reads_ret].
    eapply reads_bind_nil; [by apply reads_take_field | apply reads_ret].
  - destruct Ha as [Hn Hd].
    change (ADDRESS_TYPE_DOMAIN :: as_u8 (len n) :: n)
      with ([ADDRESS_TYPE_DOMAIN] ++ ([as_u8 (len n)] ++ n)).
    eapply reads_bind; [apply reads_read_u8|]. rewrite decide_False, decide_True by done.
    eapply reads_bind_nil; [by apply reads_domain | apply reads_ret].
  - change (ADDRESS_TYPE_IPV6 :: o) with ([ADDRESS_TYPE_IPV6] ++ o).
    eapply reads_bind; [apply reads_read_u8|]. rewrite !decide_False, decide_True by done.
    eapply reads_bind_nil; [|apply reads_ret].
    eapply reads_bind_nil; [by apply reads_take_field | apply reads_ret].
Qed.

Lemma reads_header h : header_wf h -> reads decode_header (enc_header h) h.
Proof.
  destruct h as [v u a c d]. intros (Hv & Hu & Ha & Hd). cbn in Hv, Hu, Ha, Hd. subst v.
  unfold decode_header, enc_header; cbn [version user_id addons command destination].
  pose proof (len_nonneg a).
  eapply reads_bind; [apply reads_read_u8|]. apply reads_return_if; [by rewrite bool_decide_true|].
  eapply reads_bind; [by apply reads_take_field|]. eapply reads_bind; [apply reads_read_u8|].
  rewrite u8_as_u8_small by lia.
  eapply reads_bind; [by apply reads_take_field|]. eapply reads_bind; [apply reads_read_u8|].
  eapply reads_lift_bind; [apply decode_command_as_byte|].
  destruct d as [d|].
  - destruct Hd as [-> Hd]. eapply reads_bind_nil; [|apply reads_ret].
    eapply reads_bind_nil; [by apply reads_destination | apply reads_ret].
  - rewrite Hd. eapply reads_bind_nil; [apply reads_ret | apply reads_ret].
Qed.

Lemma remaining_slice_at pre rest : remaining_slice (at_pos pre rest) = Ok (rest, at_pos pre rest).
Proof.
  unfold remaining_slice, slice_from, slice. cbn. rewrite get_range_app_r by lia.
  replace (len pre - len pre) with 0 by lia. rewrite get_range_all by slen. done.
Qed.

Lemma safe_remaining_slice : safe remaining_slice.
Proof.
  intros c Hc. destruct (cursor_ok_at_pos c Hc) as (pre & rest & ->).
  rewrite remaining_slice_at. apply at_pos_ok.
Qed.

Lemma safe_take_field n f : 0 <= n -> safe (take_field n f).
Proof. intros. by apply safe_take_bytes. Qed.

(** [take(1)?[0]] never indexes out of range. *)
Lemma read_u8_at f pre rest :
  read_u8 f (at_pos pre rest) =
    match rest with
    | [] => Err (UnexpectedEnd f 1 0)
    | b :: rest => Ok (b, at_pos (pre ++ [b]) rest)
    end.
Proof.
  unfold read_u8, take_field, mbind, M_bind. rewrite take_bytes_at by lia.
  destruct rest as [|b rest]; [done|].
  replace (len (b :: rest) <? 1) with false by (symmetry; apply Z.ltb_ge; slen). done.
Qed.

Lemma safe_read_u8 f : safe (read_u8 f).
Proof.
  intros c Hc. destruct (cursor_ok_at_pos c Hc) as (pre & rest & ->). rewrite read_u8_at.
  destruct rest; [done|apply at_pos_ok].
Qed.

Lemma sound_read_u8 f : sound (read_u8 f) (fun s b => s = [b]).
Proof.
  intros pre rest a c'. rewrite read_u8_at. destruct rest as [|b rest]; [done|].
  intros [= <- <-]. exists [b], rest. done.
Qed.

(** Only a premature end of input is worth waiting for. *)
Definition incomplete (e : DecodeError) : bool :=
  match e with UnexpectedEnd _ _ _ => true | _ => false end.

Lemma stable_read_u8 f : stable incomplete (read_u8 f).
Proof.
  intros c x Hc. destruct (cursor_ok_at_pos c Hc) as (pre & rest & ->).
  assert (Hext : forall p r, extend (at_pos p r) x = at_pos p (r ++ x))
    by (intros; unfold extend, at_pos; cbn; by rewrite <- app_assoc).
  rewrite Hext, !read_u8_at. destruct rest as [|b rest]; [by left|]. by rewrite Hext.
Qed.

Lemma bounded_read_u8 f : bounded incomplete (read_u8 f) 1.
Proof.
  intros c Hc. destruct (cursor_ok_at_pos c Hc) as (pre & rest & ->).
  rewrite read_u8_at. destruct rest as [|b rest]; [cbn; slen|].
  split; [apply at_pos_ok|]. cbn. rewrite <- app_assoc. split; [done|]. slen.
Qed.

Lemma stable_take_field n f : 0 <= n -> stable incomplete (take_field n f).
Proof. intros. by apply stable_take_bytes. Qed.

#[local] Hint Resolve safe_read_u8 safe_take_field safe_remaining_slice decode_command_no_panic
  stable_ret stable_lift stable_return_if stable_throw stable_read_u8 stable_take_field
  bounded_ret bounded_return_if bounded_throw bounded_read_u8 bounded_take_bytes : rust.

(** Walks along a parser built from the reads above. *)
Ltac walk bind :=
  repeat first
    [ match goal with |- forall _, _ => intro end
    | match goal with |- 0 <= u8 ?b => apply (u8_range b) end
    | solve [auto with rust]
    | apply bind
    | apply safe_bind
    | case_match
    | lia
    | apply safe_take_field | apply stable_take_field | apply safe_lift | apply stable_lift ].

Lemma safe_destination : safe decode_destination_owned.
Proof.
  unfold decode_destination_owned, decode_domain_owned, read_u16, read_array.
  walk (@safe_bind DecodeError).
Qed.

Lemma safe_header : safe decode_header.
Proof.
  pose proof safe_destination. unfold decode_header, read_array. walk (@safe_bind DecodeError).
Qed.

Lemma stable_header : stable incomplete decode_header.
Proof.
  assert (Hd : stable incomplete decode_destination_owned).
  { unfold decode_destination_owned, decode_domain_owned, read_u16, read_array.
    walk (@stable_bind DecodeError). }
  pose proof safe_destination. unfold decode_header, read_array.
  walk (@stable_bind DecodeError).
Qed.

Lemma bounded_field n f m : 0 <= n <= m -> bounded incomplete (take_field n f) m.
Proof. intros H. eapply bounded_weaken; [apply bounded_take_bytes; lia | lia]. Qed.

Lemma bounded_domain : bounded incomplete decode_domain_owned 256.
Proof.
  change 256 with (1 + (0 + (255 + (0 + (0 + 0))))).
  apply bounded_bind; [auto with rust | intros b | lia].
  apply bounded_bind; [by apply bounded_return_if | intros u | lia].
  apply bounded_bind; [apply bounded_field; pose proof (u8_range b); lia | intros l | lia].
  apply bounded_bind; [by apply bounded_return_if | intros u' | lia].
  apply bounded_bind; [by apply bounded_return_if | intros u'' | lia]. apply bounded_ret.
Qed.

Lemma bounded_destination : bounded incomplete decode_destination_owned 259.
Proof.
  change 259 with ((2 + 0) + (1 + (256 + 0))).
  apply bounded_bind; [ | intros p | lia].
  { apply bounded_bind; [by apply bounded_field | intros l; apply bounded_ret | lia]. }
  apply bounded_bind; [auto with rust | intros t | lia].
  apply bounded_bind; [ | intros a; apply bounded_ret | lia].
  repeat case_match.
  - apply (bounded_bind _ _ _ 256 0); [by apply bounded_field | intros; apply bounded_ret | lia].
  - apply bounded_domain.
  - apply (bounded_bind _ _ _ 256 0); [by apply bounded_field | intros; apply bounded_ret | lia].
  - eapply bounded_weaken; [by apply bounded_throw | lia].
Qed.

(** The largest header is the 533 bytes the reader reserves. *)
Lemma bounded_header : bounded incomplete decode_header MAX_REQUEST_HEADER_SIZE.
Proof.
  change MAX_REQUEST_HEADER_SIZE with (1 + (0 + (16 + (1 + (255 + (1 + (0 + ((259 + 0) + 0)))))))).
  apply bounded_bind; [auto with rust | intros v | lia].
  apply bounded_bind; [by apply bounded_return_if | intros u | lia].
  apply bounded_bind; [by apply bounded_field | intros uid | lia].
  apply bounded_bind; [auto with rust | intros al | lia].
  apply bounded_bind; [apply bounded_field; pose proof (u8_range al); lia | intros ad | lia].
  apply bounded_bind; [auto with rust | intros cb | lia].
  apply bounded_bind; [apply bounded_lift; [apply decode_command_no_panic|] | intros c | lia].
  { intros e He. destruct cb; try discriminate He; by injection He as <-. }
  apply bounded_bind; [ | intros d; apply bounded_ret | lia]. case_match.
  - apply bounded_bind; [apply bounded_destination | intros; apply bounded_ret | lia].
  - eapply bounded_weaken; [apply bounded_ret | lia].
Qed.

Lemma sound_domain : sound decode_domain_owned (fun s a =>
  exists n, a = Domain n /\ s = as_u8 (len n) :: n /\ address_wf a).
Proof.
  eapply sound_weaken.
  { eapply sound_bind; [apply sound_read_u8|]. intros b.
    eapply sound_bind; [apply sound_return_if|]. intros u.
    eapply sound_bind; [apply sound_take_bytes; apply (u8_range b)|]. intros n.
    eapply sound_bind; [apply sound_return_if|]. intros u'.
    eapply sound_bind; [apply sound_return_if|]. intros u''. apply sound_ret. }
  intros s a (s1 & b & s2 & -> & -> & s3 & u & s4 & -> & [-> Hz] & s5 & n & s6 & -> & [-> Hn] &
    s7 & u' & s8 & -> & [-> Hd] & s9 & u'' & s10 & -> & [-> _] & -> & ->).
  exists n. cbn. rewrite app_nil_r, Hn, as_u8_u8. split_and!; try done.
  - apply Z.eqb_neq in Hz. pose proof (u8_range b). lia.
  - pose proof (u8_range b). unfold U8_MAX. lia.
  - by apply negb_false_iff in Hd.
Qed.

Lemma sound_array n f : 0 <= n -> sound (read_array n f) (fun s a => s = a /\ len a = n).
Proof. intros. by apply sound_take_bytes. Qed.

Lemma sound_destination : sound decode_destination_owned
  (fun s d => destination_wf d /\ s = enc_destination d).
Proof.
  eapply sound_weaken.
  { eapply sound_bind. { eapply sound_bind; [by apply sound_array|]. intros p; apply sound_ret. }
    intros p. eapply sound_bind; [apply sound_read_u8|]. intros t.
    eapply (sound_bind _ _ (fun s a => address_wf a /\ t :: s = enc_address a)
      (fun a s d => s = [] /\ d = {| address := a; port := p |})); [|intros a; apply sound_ret].
    destruct (decide (t = ADDRESS_TYPE_IPV4)) as [->|];
      [|destruct (decide (t = ADDRESS_TYPE_DOMAIN)) as [->|];
        [|destruct (decide (t = ADDRESS_TYPE_IPV6)) as [->|]; [|apply sound_throw]]].
    - eapply sound_weaken; [eapply sound_bind; [by apply sound_array|]; intros o; apply sound_ret|].
      intros s a (s1 & o & s2 & -> & [-> Ho] & -> & ->). cbn. rewrite app_nil_r. done.
    - eapply sound_weaken; [apply sound_domain|].
      intros s a (nm & -> & -> & Hwf). done.
    - eapply sound_weaken; [eapply sound_bind; [by apply sound_array|]; intros o; apply sound_ret|].
      intros s a (s1 & o & s2 & -> & [-> Ho] & -> & ->). cbn. rewrite app_nil_r. done. }
  cbn. intros s d (s1 & p & s2 & -> & (s3 & ps & s4 & -> & [-> Hp] & -> & ->) &
    s5 & t & s6 & -> & -> & s7 & a & s8 & -> & [Ha He] & -> & ->).
  unfold enc_destination, destination_wf. cbn [address port]. split.
  - split; [done|]. by apply from_be_u16_range.
  - change (_ :: _ :: enc_address a) with (to_be 2 (from_be ps) ++ enc_address a).
    rewrite !app_nil_r, to_be_from_be by (unfold len in Hp; lia). cbn. by rewrite He.
Qed.

Lemma sound_header : sound decode_header (fun s h => header_wf h /\ s = enc_header h).
Proof.
  eapply sound_weaken.
  { eapply sound_bind; [apply sound_read_u8|]. intros v.
    eapply sound_bind; [apply sound_return_if|]. intros u.
    eapply sound_bind; [by apply sound_array|]. intros uid.
    eapply sound_bind; [apply sound_read_u8|]. intros al.
    eapply sound_bind; [apply sound_take_bytes; apply (u8_range al)|]. intros ad.
    eapply sound_bind; [apply sound_read_u8|]. intros cb.
    eapply sound_bind; [apply sound_lift|]. intros c.
    eapply (sound_bind _ _ (fun s od => match od with
      | Some d => requires_destination c = true /\ destination_wf d /\ s = enc_destination d
      | None => requires_destination c = false /\ s = [] end)); [|intros od; apply sound_ret].
    destruct (requires_destination c) eqn:Hc.
    - eapply sound_weaken; [eapply sound_bind; [apply sound_destination|]; intros d; apply sound_ret|].
      intros s od (s1 & d & s2 & -> & [Hd ->] & -> & ->). rewrite app_nil_r. done.
    - eapply sound_weaken; [apply sound_ret|]. intros s od [-> ->]. done. }
  cbn. intros s h (s1 & v & s2 & -> & -> & s3 & u & s4 & -> & [-> Hv] & s5 & uid & s6 & -> & [-> Hu] &
    s7 & al & s8 & -> & -> & s9 & ad & s10 & -> & [-> Ha] & s11 & cb & s12 & -> & -> &
    s13 & c & s14 & -> & [-> Hc] & s15 & od & s16 & -> & Hod & -> & ->).
  apply negb_false_iff, bool_decide_eq_true in Hv. apply decode_command_ok in Hc as ->.
  unfold header_wf, enc_header. cbn [version user_id addons command destination].
  pose proof (u8_range al). split.
  - split_and!; try done; [unfold U8_MAX; lia|]. destruct od; intuition.
  - rewrite Ha, as_u8_u8, app_nil_r. cbn. destruct od; [destruct Hod as (_ & _ & ->) | destruct Hod as [_ ->]]; done.
Qed.

(** The decoder is its header parser followed by the rest of the input. *)
Lemma decode_request_eq l :
  decode_request l =
    match run_parser decode_header l with
    | Ok (h, c) => Ok {| header := h; payload := drop (Z.to_nat (position c)) (input c) |}
    | Err e => Err e
    | Panic => Panic
    end.
Proof.
  unfold decode_request, run_parser, mbind, M_bind.
  destruct (decode_header (new_cursor l)) as [[h c]|e|] eqn:Hh; [|done|done].
  destruct (run_parser_sound decode_header _ l h c sound_header Hh) as (s & rest & -> & -> & _).
  rewrite remaining_slice_at. cbn. unfold len. rewrite Nat2Z.id, drop_app_length. done.
Qed.

Lemma decode_request_no_panic l : no_panic (decode_request l).
Proof.
  rewrite decode_request_eq. pose proof (run_parser_no_panic decode_header l safe_header) as H.
  destruct (run_parser decode_header l) as [[]| |]; done.
Qed.

Lemma decode_request_ok l r :
  decode_request l = Ok r -> header_wf (header r) /\ l = enc_header (header r) ++ payload r.
Proof.
  rewrite decode_request_eq.
  destruct (run_parser decode_header l) as [[h c]|e|] eqn:Hh; [|done|done]. intros [= <-].
  destruct (run_parser_sound decode_header _ l h c sound_header Hh) as (s & rest & -> & -> & Hwf & ->).
  unfold at_pos. cbn [header payload input position]. unfold len. rewrite Nat2Z.id, drop_app_length. done.
Qed.

Lemma decode_request_enc h p :
  header_wf h -> len (enc_header h ++ p) <= USIZE_MAX ->
  decode_request (enc_header h ++ p) = Ok {| header := h; payload := p |}.
Proof.
  intros Hwf Hl. rewrite decode_request_eq, (run_parser_reads _ _ h) by (done || by apply reads_header).
  unfold at_pos. cbn [input position]. unfold len. rewrite Nat2Z.id, drop_app_length. done.
Qed.

(** More input only extends the payload, and changes no real error. *)
Lemma decode_request_stable l x :
  match decode_request l with
  | Ok r => decode_request (l ++ x) = Ok {| header := header r; payload := payload r ++ x |}
  | Err e => incomplete e = true \/ decode_request (l ++ x) = Err e
  | Panic => False
  end.
Proof.
  rewrite !decode_request_eq. unfold run_parser.
  pose proof (stable_header (new_cursor l) x ltac:(unfold cursor_ok; cbn; slen)) as Hst.
  pose proof (safe_header (new_cursor l) ltac:(unfold cursor_ok; cbn; slen)) as Hsafe.
  change (extend (new_cursor l) x) with (new_cursor (l ++ x)) in Hst.
  destruct (decode_header (new_cursor l)) as [[h c]|e|]; [|by destruct Hst as [?| ->]; auto|done].
  rewrite Hst. cbn. rewrite drop_app_le; [done|]. unfold cursor_ok, len in Hsafe. lia.
Qed.

Lemma decode_request_incomplete l f n r :
  decode_request l = Err (UnexpectedEnd f n r) -> len l < MAX_REQUEST_HEADER_SIZE.
Proof.
  rewrite decode_request_eq. unfold run_parser.
  pose proof (bounded_header (new_cursor l) ltac:(unfold cursor_ok; cbn; slen)) as Hb.
  destruct (decode_header (new_cursor l)) as [[h c]|e|]; [done| |done].
  intros [= ->]. specialize (Hb eq_refl). cbn in Hb. lia.
Qed.

(** ** Owned and borrowed decoding *)

Definition parser_map {A B} (f : A -> B) (m : parser A) : parser B := x ← m; mret (f x).

Lemma fmap_bind {A B C} (f : B -> C) (m : parser A) (k : A -> parser B) c :
  parser_map f (x ← m; k x) c = (x ← m; parser_map f (k x)) c.
Proof. unfold parser_map, mbind, M_bind. by destruct (m c) as [[]| |]. Qed.

Lemma bind_ext {A B} (m : parser A) (k k' : A -> parser B) c :
  (forall a c, k a c = k' a c) -> (x ← m; k x) c = (x ← m; k' x) c.
Proof. intros H. unfold mbind, M_bind. destruct (m c) as [[]| |]; [apply H|done|done]. Qed.

Definition address_to_owned (a : AddressRef) : Address :=
  match a with RefIpv4 o => Ipv4 o | RefDomain n => Domain n | RefIpv6 o => Ipv6 o end.

Lemma decode_domain_owned_ref c : decode_domain_owned c = parser_map address_to_owned decode_domain_ref c.
Proof.
  unfold decode_domain_ref. rewrite fmap_bind. apply bind_ext. intros b c1.
  rewrite fmap_bind. apply bind_ext. intros u c2. rewrite fmap_bind. apply bind_ext. intros l c3.
  rewrite fmap_bind. apply bind_ext. intros u' c4. rewrite fmap_bind. apply bind_ext. intros u'' c5.
  reflexivity.
Qed.

Lemma decode_destination_owned_ref c :
  decode_destination_owned c = parser_map into_owned decode_destination_ref c.
Proof.
  unfold decode_destination_ref. rewrite fmap_bind. apply bind_ext. intros p c1.
  rewrite fmap_bind. apply bind_ext. intros t c2. rewrite fmap_bind.
  repeat case_match; try reflexivity;
    unfold parser_map, mbind, M_bind, mret, M_ret;
    rewrite ?decode_domain_owned_ref; unfold parser_map, mbind, M_bind, mret, M_ret.
  - by destruct (read_array 4 "IPv4 address" c2) as [[]| |].
  - by destruct (decode_domain_ref c2) as [[]| |].
  - by destruct (read_array 16 "IPv6 address" c2) as [[]| |].
Qed.

Lemma decode_request_owned_ref l : decode_request l = request_to_owned <$> decode_request_ref l.
Proof.
  unfold decode_request, decode_request_ref.
  assert (Hp : forall c, (header ← decode_header; payload ← remaining_slice;
      mret {| header := header; payload := payload |}) c
    = parser_map request_to_owned decode_request_ref_p c).
  { intros c. unfold decode_header, decode_request_ref_p. rewrite fmap_bind.
    assert (Hassoc : forall A B C (m : parser A) (k : A -> parser B) (j : B -> parser C) c,
      (y ← (x ← m; k x); j y) c = (x ← m; (y ← k x; j y)) c).
    { intros A B C m k j c'. unfold mbind, M_bind. by destruct (m c') as [[]| |]. }
    rewrite Hassoc. apply bind_ext. intros v c1. rewrite Hassoc, fmap_bind. apply bind_ext. intros u c2.
    rewrite Hassoc, fmap_bind. apply bind_ext. intros uid c3.
    rewrite Hassoc, fmap_bind. apply bind_ext. intros al c4.
    rewrite Hassoc, fmap_bind. apply bind_ext. intros ad c5.
    rewrite Hassoc, fmap_bind. apply bind_ext. intros cb c6.
    rewrite Hassoc, fmap_bind. apply bind_ext. intros cm c7. case_match.
    - rewrite !Hassoc, fmap_bind, Hassoc. unfold mbind at 1, M_bind at 1.
      rewrite decode_destination_owned_ref. unfold parser_map at 1, mbind, M_bind, mret, M_ret.
      destruct (decode_destination_ref c7) as [[d c8]| |]; [|done|done].
      unfold parser_map, mbind, M_bind. by destruct (remaining_slice c8) as [[]| |].
    - unfold parser_map, mbind, M_bind, mret, M_ret. by destruct (remaining_slice c7) as [[]| |]. }
  unfold run_parser. rewrite Hp. unfold parser_map, mbind, M_bind.
  by destruct (decode_request_ref_p (new_cursor l)) as [[]| |].
Qed.

(** What the reader must answer on [stream], having left [rest] unread. *)
Definition read_outcome (stream rest : list byte) (r : result ReadError DecodeRequest) : Prop :=
  match decode_request stream with
  | Ok d => exists p, r = Ok {| header := header d; payload := p |} /\ payload d = p ++ rest
  | Err e => r = Err (if incomplete e then ReadUnexpectedEof e else ReadDecode e)
  | Panic => False
  end.

Lemma read_request_loop_spec available : (forall k, is_Some (available k)) ->
  forall fuel k buffer stream,
  MAX_REQUEST_HEADER_SIZE - len buffer < Z.of_nat fuel -> len buffer <= MAX_REQUEST_HEADER_SIZE ->
  exists r buffer' rest, read_request_loop fuel available k buffer stream = (r, (buffer', rest)) /\
    buffer' ++ rest = buffer ++ stream /\ read_outcome (buffer ++ stream) rest r.
Proof.
  intros Hav. induction fuel as [|fuel IH]; intros k buffer stream Hf Hb; [lia|]. cbn.
  pose proof (decode_request_stable buffer stream) as Hst. unfold read_outcome.
  destruct (decode_request buffer) as [d|e|] eqn:Hd; [| |done].
  - do 3 eexists. split; [done|]. split; [done|]. rewrite Hst. cbn. destruct d; eauto.
  - assert (Hreal : incomplete e = false -> decode_request (buffer ++ stream) = Err e)
      by (intros He; destruct Hst as [?|?]; congruence).
    destruct e as [f n m| | | | |];
      try (do 3 eexists; split; [done|]; split; [done|]; by rewrite Hreal).
    pose proof (decode_request_incomplete _ _ _ _ Hd) as Hlt.
    rewrite (proj2 (Z.leb_gt _ _)) by lia. destruct (Hav k) as [av ->]. unfold read_some.
    set (w := Z.to_nat _). assert (Hw : (0 < w)%nat) by lia.
    destruct stream as [|b stream].
    + rewrite take_nil, drop_nil. cbn. do 3 eexists. split; [done|]. split; [done|].
      rewrite app_nil_r, Hd. done.
    + assert (Htake : len (take w (b :: stream)) <> 0).
      { destruct w; [lia|]. cbn [take]. slen. }
      rewrite (proj2 (Z.eqb_neq _ _)) by done.
      destruct (IH (S k) (buffer ++ take w (b :: stream)) (drop w (b :: stream)))
        as (r & buffer' & rest & -> & Heq & Hout).
      * assert (0 < len (take w (b :: stream))) by (pose proof (len_nonneg (take w (b :: stream))); lia).
        rewrite len_app. lia.
      * rewrite len_app, len_take. lia.
      * rewrite <- app_assoc, take_drop in Heq, Hout. do 3 eexists. done.
Qed.

(** C7: the VLESS request decoder never panics, and it accepts exactly the
    encodings of well-formed headers: what it returns re-encodes to the bytes it
    was given (canonical wire format, no byte skipped or duplicated), and every
    encoded header followed by any payload decodes to that header and payload. *)
Theorem decode_request_exact (l : list byte) (h : RequestHeader) (p : list byte) :
  len l <= USIZE_MAX ->
  no_panic (decode_request l) /\
  (decode_request l = Ok {| header := h; payload := p |} <-> header_wf h /\ l = enc_header h ++ p).
Proof.
  intros Hl. split; [apply decode_request_no_panic|]. split.
  - apply decode_request_ok.
  - intros [Hwf ->]. by apply decode_request_enc.
Qed.

Definition example_header : RequestHeader :=
  {| version := VERSION; user_id := replicate 16 x07; addons := [x0a; x00]; command := Tcp;
     destination := Some {| address := Domain (bytes_of "example.com"); port := 443 |} |}.

Lemma decode_request_exact_witness :
  decode_request (enc_header example_header ++ [x01; x02])
    = Ok {| header := example_header; payload := [x01; x02] |}.
Proof.
  apply (decode_request_exact (enc_header example_header ++ [x01; x02]) example_header [x01; x02]).
  - vm_compute. congruence.
  - split; [|reflexivity]. repeat split; vm_compute; congruence.
Defined.

(** The borrowed decoder used on the session path and the owned decoder of the
    public API are the same function up to copying: they accept the same inputs,
    return the same fields and payload and fail with the same error. *)
Theorem decode_request_ref_equiv (l : list byte) :
  decode_request l = request_to_owned <$> decode_request_ref l.
Proof. apply decode_request_owned_ref. Qed.

(** Reading a request from a stream gives the same answer however the stream
    is cut into reads: the header, payload or error is the one the decoder gives
    on the whole stream, no byte is lost (the buffered and the unread bytes make
    up the stream), it always terminates and the size limit is never what stops
    it. *)
Theorem read_request_chunking (available : nat -> option Z) (stream : list byte) :
  (forall k, is_Some (available k)) ->
  exists r buffer rest, read_request available stream = (r, (buffer, rest)) /\
    buffer ++ rest = stream /\ read_outcome stream rest r.
Proof.
  intros Hav. unfold read_request.
  apply (read_request_loop_spec available Hav _ 0 [] stream); vm_compute; congruence.
Qed.
