(* ===== verification/VlessClient.v ===== *)
(** * VLESS client encoding, responses and request authorization

    [src/protocol/vless/client.rs] (request encoders into a caller-owned buffer
    and the response decoder), [response.rs] (the server's response encoder) and
    [validate.rs] (what an authenticated request may ask for). *)

From S2P Require Import Prelude Cursor Addons VlessRequest.

(** ** Request encoders *)

Inductive RequestEncodeError :=
| ZeroPort
| InvalidDomain
| BufferTooSmall (needed : Z).

Definition encode_vision_tcp_request (user : UserId) (destination : Destination)
    : writer RequestEncodeError Z := fun output =>
  let body : writer RequestEncodeError Z :=
    return! ZeroPort when port destination =? 0;
    address_len ← lift
      match address destination with
      | Ipv4 _ => Ok 5
      | Ipv6 _ => Ok 17
      | Domain domain =>
        guard! (len domain =? 0) || (U8_MAX <? len domain) || negb (forallb is_domain_byte domain)
          else InvalidDomain;
        Ok (2 + len domain)
      end;
    let prefix_len := 1 + 16 + 1 + 2 + len VISION_FLOW + 1 + 2 in
    let needed := prefix_len + address_len in
    return! BufferTooSmall needed when len output <? needed;
    _ ← store 0 [VERSION];
    _ ← store 1 user;
    _ ← store 17 [as_u8 (2 + len VISION_FLOW)];
    _ ← store 18 [x0a];
    _ ← store 19 [as_u8 (len VISION_FLOW)];
    _ ← store 20 VISION_FLOW;
    let command := 20 + len VISION_FLOW in
    _ ← store command [as_byte Tcp];
    _ ← store (command + 1) (to_be 2 (port destination));
    _ ← match address destination with
        | Ipv4 address => _ ← store prefix_len [x01]; store (prefix_len + 1) address
        | Ipv6 address => _ ← store prefix_len [x03]; store (prefix_len + 1) address
        | Domain domain =>
          _ ← store prefix_len [x02];
          _ ← store (prefix_len + 1) [as_u8 (len domain)];
          store (prefix_len + 2) domain
        end;
    mret needed in
  body output.

Definition encode_vision_xudp_request (user : UserId) : writer RequestEncodeError Z := fun output =>
  let body : writer RequestEncodeError Z :=
    let needed := 1 + 16 + 1 + 2 + len VISION_FLOW + 1 in
    return! BufferTooSmall needed when len output <? needed;
    _ ← store 0 [VERSION];
    _ ← store 1 user;
    _ ← store 17 [as_u8 (2 + len VISION_FLOW)];
    _ ← store 18 [x0a];
    _ ← store 19 [as_u8 (len VISION_FLOW)];
    _ ← store 20 VISION_FLOW;
    _ ← store (20 + len VISION_FLOW) [as_byte Mux];
    mret needed in
  body output.

(** ** Responses *)

Inductive ResponseEncodeError := AddonsTooLong (length maximum : Z).

Definition MAX_ADDONS_LENGTH : Z := U8_MAX.

Definition encode_response_header (request : RequestHeader) (response_addons : list byte)
    : result ResponseEncodeError (list byte) :=
  addons_length ← ok_or (AddonsTooLong (len response_addons) MAX_ADDONS_LENGTH)
    (try_from U8_MAX (len response_addons));
  Ok ([version request] ++ [as_u8 addons_length] ++ response_addons).

Inductive ResponseDecodeError :=
| Incomplete (needed : Z)
| ResponseVersion (version : byte)
| InvalidAddons (e : AddonsDecodeError).

Record DecodeResponse := { response_addons : Addons; response_payload : list byte }.

Definition decode_response (l : list byte) : result ResponseDecodeError DecodeResponse :=
  version ← ok_or (Incomplete 1) (l !! 0%nat);
  guard! negb (bool_decide (version = VERSION)) else ResponseVersion version;
  length ← ok_or (Incomplete 2) (l !! 1%nat);
  let needed := 2 + u8 length in
  guard! len l <? needed else Incomplete needed;
  body ← slice l 2 needed;
  parsed ← map_err InvalidAddons (parse_addons body);
  payload ← slice_from l needed;
  Ok {| response_addons := parsed; response_payload := payload |}.

(** ** Authorization *)

Inductive RequestValidationError :=
| UnauthorizedUser
| ShortIdOwnerMismatch
| UnsupportedAddons (length : Z)
| AddonsError (e : AddonsDecodeError)
| VisionFlowRequired
| UnsupportedCommand (c : Command)
| MissingDestination
| UnexpectedMuxDestination.

(** [contains] is the registry's membership test. *)
Definition authorize_plain_tcp (contains : UserId -> bool) (request : RequestHeader)
    : result RequestValidationError Destination :=
  guard! negb (contains (user_id request)) else UnauthorizedUser;
  guard! negb (len (addons request) =? 0) else UnsupportedAddons (len (addons request));
  guard! negb (bool_decide (command request = Tcp)) else UnsupportedCommand (command request);
  ok_or MissingDestination (destination request).

Definition authorize_authenticated_vision_xudp (request : RequestHeader)
    (authenticated_user_id : UserId) : result RequestValidationError unit :=
  guard! negb (bytes_eqb (user_id request) authenticated_user_id) else ShortIdOwnerMismatch;
  parsed ← map_err AddonsError (parse_addons (addons request));
  guard! negb (bool_decide (flow parsed = Some VISION_FLOW)) else VisionFlowRequired;
  guard! negb (bool_decide (command request = Mux)) else UnsupportedCommand (command request);
  guard! bool_decide (is_Some (destination request)) else UnexpectedMuxDestination;
  Ok tt.

Definition validate_authenticated_vision_fields (request_user_id : UserId) (addons : list byte)
    (command : Command) (has_destination : bool) (authenticated_user_id : UserId)
    : result RequestValidationError unit :=
  guard! negb (bytes_eqb request_user_id authenticated_user_id) else ShortIdOwnerMismatch;
  parsed ← map_err AddonsError (parse_addons addons);
  guard! negb (bool_decide (flow parsed = Some VISION_FLOW)) else VisionFlowRequired;
  guard! negb (bool_decide (command = Tcp)) else UnsupportedCommand command;
  guard! negb has_destination else MissingDestination;
  Ok tt.

Definition authorize_authenticated_vision_tcp (request : RequestHeader)
    (authenticated_user_id : UserId) : result RequestValidationError Destination :=
  _ ← validate_authenticated_vision_fields (user_id request) (addons request) (command request)
        (bool_decide (is_Some (destination request))) authenticated_user_id;
  ok_or MissingDestination (destination request).

(** ** Lemmas *)

(** The header a client request stands for. *)
Definition vision_addons : list byte := [x0a; as_u8 (len VISION_FLOW)] ++ VISION_FLOW.

Definition tcp_header (user : UserId) (d : Destination) : RequestHeader :=
  {| version := VERSION; user_id := user; addons := vision_addons; command := Tcp;
     destination := Some d |}.

Definition mux_header (user : UserId) : RequestHeader :=
  {| version := VERSION; user_id := user; addons := vision_addons; command := Mux;
     destination := None |}.

Lemma parse_vision_addons :
  parse_addons vision_addons = Ok {| flow := Some VISION_FLOW; seed := None |}.
Proof. vm_compute. reflexivity. Qed.

Lemma len_flow : len VISION_FLOW = 16.
Proof. reflexivity. Qed.

Lemma length_flow : length VISION_FLOW = 16%nat.
Proof. reflexivity. Qed.

(** The shape Rust's types already give the arguments. *)
Definition typed_destination (d : Destination) : Prop :=
  u16_range (port d) /\
  match address d with Ipv4 o => len o = 4 | Ipv6 o => len o = 16 | Domain n => True end.

Definition domain_rejected (d : Destination) : bool :=
  match address d with
  | Domain n => (len n =? 0) || (U8_MAX <? len n) || negb (forallb is_domain_byte n)
  | _ => false
  end.

Lemma typed_destination_wf d :
  typed_destination d -> domain_rejected d = false -> destination_wf d.
Proof.
  destruct d as [[o|n|o] p]; intros [Hp Ha]; unfold domain_rejected; cbn in *; [done| |done].
  rewrite !orb_false_iff, negb_false_iff, Z.eqb_neq, Z.ltb_ge. intros [[? ?] ?].
  pose proof (len_nonneg n). unfold destination_wf. cbn. split; [split; [lia|done]|done].
Qed.

Lemma puts_address d :
  typed_destination d ->
  puts (match address d with
        | Ipv4 address => _ ← store 39 [x01]; store (39 + 1) address
        | Ipv6 address => _ ← store 39 [x03]; store (39 + 1) address
        | Domain domain =>
          _ ← store 39 [x02]; _ ← store (39 + 1) [as_u8 (len domain)]; store (39 + 2) domain
        end : writer RequestEncodeError unit) 39 (enc_address (address d)) tt.
Proof.
  destruct d as [[o|n|o] p]; intros [_ Ha]; cbn [address enc_address].
  - change (ADDRESS_TYPE_IPV4 :: o) with ([x01] ++ o).
    eapply puts_bind; [apply puts_store | reflexivity | apply puts_store].
  - change (ADDRESS_TYPE_DOMAIN :: as_u8 (len n) :: n) with ([x02] ++ ([as_u8 (len n)] ++ n)).
    eapply puts_bind; [apply puts_store | reflexivity |].
    eapply puts_bind; [apply puts_store | reflexivity | apply puts_store].
  - change (ADDRESS_TYPE_IPV6 :: o) with ([x03] ++ o).
    eapply puts_bind; [apply puts_store | reflexivity | apply puts_store].
Qed.

Lemma enc_tcp_header user d :
  enc_header (tcp_header user d) =
    [VERSION] ++ user ++ [as_u8 (2 + len VISION_FLOW)] ++ [x0a] ++ [as_u8 (len VISION_FLOW)] ++
    VISION_FLOW ++ [as_byte Tcp] ++ to_be 2 (port d) ++ enc_address (address d).
Proof. reflexivity. Qed.

(** The address length the encoder computes is the length of the address field. *)
Definition address_len_of (d : Destination) : result RequestEncodeError Z :=
  match address d with
  | Ipv4 _ => Ok 5
  | Ipv6 _ => Ok 17
  | Domain domain =>
    guard! (len domain =? 0) || (U8_MAX <? len domain) || negb (forallb is_domain_byte domain)
      else InvalidDomain;
    Ok (2 + len domain)
  end.

Lemma address_len_eq d :
  typed_destination d ->
  address_len_of d = if domain_rejected d then Err InvalidDomain
                     else Ok (len (enc_address (address d))).
Proof.
  destruct d as [[o|n|o] p]; intros [_ Ha]; unfold address_len_of, domain_rejected; cbn in *.
  - rewrite len_cons, Ha. done.
  - destruct (_ || _); cbn; [done|]. rewrite !len_cons. f_equal. lia.
  - rewrite len_cons, Ha. done.
Qed.

Lemma encode_tcp_spec user d out :
  len user = 16 -> typed_destination d ->
  encode_vision_tcp_request user d out =
    if port d =? 0 then Err ZeroPort
    else if domain_rejected d then Err InvalidDomain
    else
      let bytes := enc_header (tcp_header user d) in
      if len out <? len bytes then Err (BufferTooSmall (len bytes))
      else Ok (len bytes, bytes ++ drop (length bytes) out).
Proof.
  intros Hu Hd. unfold encode_vision_tcp_request. rewrite len_flow.
  change (1 + 16 + 1 + 2 + 16 + 1 + 2) with 39. fold (address_len_of d).
  rewrite (address_len_eq d Hd).
  unfold return_if at 1, mbind at 1, M_bind at 1, lift at 1.
  destruct (port d =? 0); cbn [reject_if]; [done|].
  unfold mbind at 1, M_bind at 1, lift at 1. destruct (domain_rejected d); [done|].
  assert (Hlen : len (enc_header (tcp_header user d)) = 39 + len (enc_address (address d)))
    by (rewrite enc_tcp_header; autorewrite with lens; rewrite Hu, len_flow; lia).
  rewrite Hlen. unfold return_if, mbind at 1, M_bind at 1, lift.
  cbn zeta. destruct (Z.ltb_spec (len out) (39 + len (enc_address (address d)))) as [|Hge];
    cbn [reject_if]; [done|].
  change out with ([] ++ out) at 1. change (enc_header (tcp_header user d)) with ([] ++ enc_header (tcp_header user d)) at 1.
  assert (Hputs : forall m, puts (m : writer RequestEncodeError Z) 0 (enc_header (tcp_header user d))
      (39 + len (enc_address (address d))) ->
    m ([] ++ out) = Ok (39 + len (enc_address (address d)),
      ([] ++ enc_header (tcp_header user d)) ++ drop (length (enc_header (tcp_header user d))) out)).
  { intros m Hm. apply Hm; [done | lia]. }
  apply Hputs. rewrite enc_tcp_header, len_flow.
  eapply puts_bind; [apply puts_store | reflexivity |].
  eapply puts_bind; [apply puts_store | rewrite Hu; reflexivity |].
  do 3 (eapply puts_bind; [apply puts_store | reflexivity |]).
  eapply puts_bind; [apply puts_store | reflexivity |].
  eapply puts_bind; [apply puts_store | reflexivity |].
  eapply puts_bind; [apply puts_store | rewrite len_to_be; reflexivity |].
  rewrite <- (app_nil_r (enc_address _)).
  eapply puts_bind; [by apply puts_address | reflexivity |]. apply puts_ret.
Qed.

Lemma enc_mux_header user :
  enc_header (mux_header user) =
    [VERSION] ++ user ++ [as_u8 (2 + len VISION_FLOW)] ++ [x0a] ++ [as_u8 (len VISION_FLOW)] ++
    VISION_FLOW ++ [as_byte Mux].
Proof. unfold enc_header. cbn [version user_id addons command destination mux_header]. done. Qed.

Lemma encode_xudp_spec user out :
  len user = 16 ->
  encode_vision_xudp_request user out =
    let bytes := enc_header (mux_header user) in
    if len out <? len bytes then Err (BufferTooSmall (len bytes))
    else Ok (len bytes, bytes ++ drop (length bytes) out).
Proof.
  intros Hu. unfold encode_vision_xudp_request. rewrite len_flow.
  assert (Hlen : len (enc_header (mux_header user)) = 37)
    by (rewrite enc_mux_header; autorewrite with lens; rewrite Hu, len_flow; lia).
  cbn zeta. rewrite Hlen. change (1 + 16 + 1 + 2 + 16 + 1) with 37.
  unfold return_if, mbind at 1, M_bind at 1, lift.
  destruct (Z.ltb_spec (len out) 37); cbn [reject_if]; [done|].
  change out with ([] ++ out) at 1.
  assert (Hputs : forall m, puts (m : writer RequestEncodeError Z) 0 (enc_header (mux_header user)) 37 ->
    m ([] ++ out) = Ok (37, enc_header (mux_header user) ++ drop (length (enc_header (mux_header user))) out)).
  { intros m Hm. apply Hm; [done | lia]. }
  apply Hputs. rewrite enc_mux_header, len_flow.
  eapply puts_bind; [apply puts_store | reflexivity |].
  eapply puts_bind; [apply puts_store | rewrite Hu; reflexivity |].
  do 4 (eapply puts_bind; [apply puts_store | reflexivity |]).
  rewrite <- (app_nil_r [as_byte Mux]).
  eapply puts_bind; [apply puts_store | reflexivity |]. apply puts_ret.
Qed.

Lemma vision_header_wf user c od :
  len user = 16 ->
  match od with
  | Some d => requires_destination c = true /\ destination_wf d
  | None => requires_destination c = false
  end ->
  header_wf {| version := VERSION; user_id := user; addons := vision_addons; command := c;
               destination := od |}.
Proof. intros Hu Hd. repeat split; [done | vm_compute; congruence | done]. Qed.

(** What the client encoder writes, the server decoder and authorizer accept:
    the header decodes to the user, the destination and exactly the payload that
    follows it, the authenticated owner is authorized for that destination, and
    the caller's buffer beyond the header is untouched. The Mux/XUDP encoder has
    the same property with no destination. *)
Theorem client_request_roundtrip (user : UserId) (d : Destination)
    (out out' mux' payload : list byte) (n m : Z) :
  len user = 16 -> typed_destination d -> len (out ++ payload) <= USIZE_MAX ->
  encode_vision_tcp_request user d out = Ok (n, out') ->
  encode_vision_xudp_request user out = Ok (m, mux') ->
  decode_request (take (Z.to_nat n) out' ++ payload)
    = Ok {| header := tcp_header user d; payload := payload |} /\
  authorize_authenticated_vision_tcp (tcp_header user d) user = Ok d /\
  drop (Z.to_nat n) out' = drop (Z.to_nat n) out /\
  decode_request (take (Z.to_nat m) mux' ++ payload)
    = Ok {| header := mux_header user; payload := payload |} /\
  authorize_authenticated_vision_xudp (mux_header user) user = Ok tt.
Proof.
  intros Hu Hd Hl. rewrite encode_tcp_spec, encode_xudp_spec by done. cbn zeta.
  destruct (Z.eqb_spec (port d) 0); [done|]. destruct (domain_rejected d) eqn:Hr; [done|].
  assert (Hwf : header_wf (tcp_header user d))
    by (apply vision_header_wf; [done|]; split; [done|by apply typed_destination_wf]).
  pose proof (decode_request_enc (tcp_header user d) payload Hwf) as Hdec.
  pose proof (decode_request_enc (mux_header user) payload (vision_header_wf user Mux None Hu eq_refl))
    as Hmux.
  remember (enc_header (tcp_header user d)) as bt eqn:Hbt.
  remember (enc_header (mux_header user)) as bm eqn:Hbm.
  destruct (Z.ltb_spec (len out) (len bt)) as [|Hge1]; [done|]. intros [= <- <-].
  destruct (Z.ltb_spec (len out) (len bm)) as [|Hge2]; [done|]. intros [= <- <-].
  assert (Hn : forall l : list byte, Z.to_nat (len l) = length l) by (intros; unfold len; lia).
  rewrite !Hn, !take_app_length, drop_app_length, Hdec, Hmux by slen.
  unfold authorize_authenticated_vision_tcp, validate_authenticated_vision_fields,
    authorize_authenticated_vision_xudp. cbn [user_id addons command destination tcp_header mux_header].
  rewrite bytes_eqb_refl, parse_vision_addons. cbn. done.
Qed.

Definition example_destination : Destination :=
  {| address := Domain (bytes_of "example.com"); port := 443 |}.

(** Authorization after REALITY: a Vision TCP request is granted its
    destination exactly when its user is the authenticated owner, its flow is
    [xtls-rprx-vision], its command is TCP and it carries that destination; a
    Mux/XUDP request exactly when user and flow agree, its command is Mux and it
    carries none. *)
Theorem authorize_vision_iff (r : RequestHeader) (owner : UserId) (d : Destination) :
  (authorize_authenticated_vision_tcp r owner = Ok d <->
     user_id r = owner /\ command r = Tcp /\ destination r = Some d /\
     exists a, parse_addons (addons r) = Ok a /\ flow a = Some VISION_FLOW) /\
  (authorize_authenticated_vision_xudp r owner = Ok tt <->
     user_id r = owner /\ command r = Mux /\ destination r = None /\
     exists a, parse_addons (addons r) = Ok a /\ flow a = Some VISION_FLOW).
Proof.
  split; split.
  - unfold authorize_authenticated_vision_tcp, validate_authenticated_vision_fields. intros H. inv_ok H.
    rewrite ?negb_false_iff, ?bool_decide_eq_true, ?bytes_eqb_eq in *. eauto 10.
  - intros (<- & Hc & Hd & a & Ha & Hf).
    unfold authorize_authenticated_vision_tcp, validate_authenticated_vision_fields.
    rewrite bytes_eqb_refl, Ha, Hc, Hd. cbn. rewrite Hf, bool_decide_true by done. done.
  - unfold authorize_authenticated_vision_xudp. intros H. inv_ok H.
    rewrite ?negb_false_iff, ?bool_decide_eq_true, ?bool_decide_eq_false, ?bytes_eqb_eq,
      <- ?eq_None_not_Some in *. eauto 10.
  - intros (<- & Hc & Hd & a & Ha & Hf). unfold authorize_authenticated_vision_xudp.
    rewrite bytes_eqb_refl, Ha, Hc, Hd. cbn. rewrite Hf, bool_decide_true by done. done.
Qed.

(** ** Responses *)

Lemma decode_response_spec (n : byte) (body rest : list byte) :
  decode_response (VERSION :: n :: body ++ rest) =
    if len (body ++ rest) <? u8 n then Err (Incomplete (2 + u8 n))
    else
      match parse_addons (take (Z.to_nat (u8 n)) (body ++ rest)) with
      | Ok a => Ok {| response_addons := a; response_payload := drop (Z.to_nat (u8 n)) (body ++ rest) |}
      | Err e => Err (InvalidAddons e)
      | Panic => Panic
      end.
Proof.
  pose proof (u8_range n) as Hn. unfold decode_response. cbn [lookup list_lookup ok_or mbind result_bind].
  rewrite bool_decide_true by done. cbn [negb reject_if].
  set (l := body ++ rest). rewrite !len_cons. cbn [mbind result_bind].
  replace (1 + (1 + len l) <? 2 + u8 n) with (len l <? u8 n)
    by (destruct (Z.ltb_spec (len l) (u8 n)), (Z.ltb_spec (1 + (1 + len l)) (2 + u8 n)); lia).
  destruct (Z.ltb_spec (len l) (u8 n)) as [|Hge]; [done|].
  change (VERSION :: n :: l) with ([VERSION; n] ++ l).
  unfold slice_from, slice. cbn [reject_if mbind result_bind].
  rewrite !get_range_app_r by (change (len [VERSION; n]) with 2; lia).
  change (len [VERSION; n]) with 2. rewrite len_app. change (len [VERSION; n]) with 2.
  replace (2 - 2) with 0 by lia. replace (2 + u8 n - 2) with (u8 n) by lia.
  replace (2 + len l - 2) with (len l) by lia.
  rewrite !get_range_some by lia. rewrite Z.sub_0_r. cbn [Z.to_nat drop].
  cbn [mbind result_bind]. destruct (parse_addons _) as [a|e|]; try done. cbn.
  rewrite take_ge; [done|]. rewrite length_drop. unfold len in *. lia.
Qed.

Lemma decode_response_no_panic l : no_panic (decode_response l).
Proof.
  destruct l as [|v l]; [done|]. destruct (decide (v = VERSION)) as [->|Hv].
  - destruct l as [|n l]; [done|]. rewrite <- (app_nil_r l), decode_response_spec.
    destruct (_ <? _); [done|].
    pose proof (parse_addons_no_panic (take (Z.to_nat (u8 n)) (l ++ []))) as Hp.
    destruct (parse_addons _); done.
  - unfold decode_response. cbn. rewrite bool_decide_false by done. done.
Qed.

(** The response header round-trips: the client recovers the Addons and every
    payload byte of what the server encoded, any proper prefix of the header is
    reported incomplete (with the total length needed, never above 257 bytes and
    always more than was given), and decoding never panics. *)
Theorem response_roundtrip (request : RequestHeader) (a : Addons)
    (fields bytes rest : list byte) (k : nat) :
  version request = VERSION ->
  encode_response_header request fields = Ok bytes ->
  parse_addons fields = Ok a ->
  decode_response (bytes ++ rest) = Ok {| response_addons := a; response_payload := rest |} /\
  ((k < length bytes)%nat ->
     exists needed, decode_response (take k bytes) = Err (Incomplete needed) /\
       Z.of_nat k < needed <= 257) /\
  (forall l, no_panic (decode_response l)).
Proof.
  intros Hv Henc Hp. unfold encode_response_header in Henc. inv_ok Henc. rewrite Hv in *.
  apply try_from_some in Hstep as [-> Hlen].
  assert (Hn : u8 (as_u8 (len fields)) = len fields) by (by apply u8_as_u8_small).
  cbn [app]. split; [|split; [|exact decode_response_no_panic]].
  - rewrite decode_response_spec, Hn.
    rewrite (proj2 (Z.ltb_ge _ _)) by slen.
    replace (Z.to_nat (len fields)) with (length fields) by (unfold len; lia).
    rewrite take_app_length, drop_app_length, Hp. done.
  - cbn. intros Hk. unfold U8_MAX in Hlen. destruct k as [|[|k]]; cbn [take].
    + exists 1. done.
    + exists 2. done.
    + exists (2 + len fields). rewrite <- (app_nil_r (take k fields)), decode_response_spec, Hn.
      rewrite app_nil_r. split; [|unfold len in *; lia].
      rewrite (proj2 (Z.ltb_lt _ _)); [done|]. rewrite len_take. unfold len in *. lia.
Qed.
