(* ===== verification/Socks5.v ===== *)
(** * The SOCKS5 codec ([src/protocol/socks5.rs])

    The method negotiation, the CONNECT and UDP ASSOCIATE requests, the UDP
    datagram header and the command reply of the client inbound. The canonical
    destination is the one of [VlessRequest]. *)

From S2P Require Import Prelude Cursor Effects VlessRequest.
#[local] Open Scope Z_scope.

Definition SOCKS_VERSION : byte := x05.
Definition MAX_CONNECT_REQUEST_LEN : Z := 4 + 1 + U8_MAX + 2.
Definition MAX_UDP_HEADER_LEN : Z := 2 + 1 + 1 + 1 + U8_MAX + 2.
Definition METHOD_NO_AUTHENTICATION : byte := x00.
Definition METHOD_NO_ACCEPTABLE_METHODS : byte := xff.
Definition COMMAND_CONNECT : byte := x01.
Definition COMMAND_UDP_ASSOCIATE : byte := x03.
Definition ADDRESS_IPV4 : byte := x01.
Definition ADDRESS_DOMAIN : byte := x03.
Definition ADDRESS_IPV6 : byte := x04.

Inductive SocksDecodeError :=
| IncompleteInput (field : string) (needed available : Z)
| InvalidVersion (v : byte) | InvalidMethodCount | UnsupportedMethod | UnsupportedCommand (c : byte) | InvalidReservedField (r : byte)
| UnsupportedAddressType (t : byte) | SocksEmptyDomain | ZeroPort | SocksInvalidDomainName | FragmentedUdp (frag : byte).

Inductive SocksEncodeError := OutputTooSmall (required available : Z) | EncodeZeroPort | EncodeInvalidDomainName.

Record MethodRequest := { mr_methods : list byte; mr_consumed : Z; mr_trailing : list byte }.
Inductive MethodResponse := NoAuthentication | NoAcceptableMethods.
Record ConnectRequest := { cq_destination : Destination; cq_consumed : Z; cq_payload : list byte }.
Record UdpAssociateRequest := { ua_destination : Destination; ua_consumed : Z }.
Record UdpDatagram := { ud_destination : Destination; ud_payload : list byte; ud_consumed : Z }.

(** ** The cursor *)

Notation P := (M Cursor SocksDecodeError).

Definition socks_take (length : Z) (field : string) : P (list byte) := take_bytes (IncompleteInput field) length.
Definition socks_u8 (field : string) : P byte := bytes ← socks_take 1 field; lift (index bytes 0).
Definition socks_array (length : Z) (field : string) : P (list byte) := socks_take length field.
Definition socks_u16 (field : string) : P Z := bytes ← socks_array 2 field; mret (from_be bytes).
Definition socks_remaining : P (list byte) := fun c =>
  match slice_from (input c) (position c) with Ok s => Ok (s, c) | Err e => Err e | Panic => Panic end.
Definition socks_position : P Z := fun c => Ok (position c, c).

(** ** Validation *)

Definition is_valid_domain_name (bytes : list byte) : bool :=
  negb (len bytes =? 0) && (len bytes <=? U8_MAX) && forallb is_domain_byte bytes && from_utf8 bytes.

(** [matches!(address, Address::Domain(d) if !is_valid_domain_name(d))]. *)
Definition bad_domain (d : Destination) : bool := match address d with Domain n => negb (is_valid_domain_name n) | Ipv4 _ | Ipv6 _ => false end.

Definition validate_destination (d : Destination) : result SocksDecodeError unit :=
  guard! port d =? 0 else ZeroPort;
  guard! bad_domain d else SocksInvalidDomainName;
  Ok tt.

Definition map_validation_to_encode (e : SocksDecodeError) : SocksEncodeError := match e with ZeroPort => EncodeZeroPort | _ => EncodeInvalidDomainName end.

(** ** Decoders *)

Definition decode_method_request (l : list byte) : result SocksDecodeError MethodRequest :=
  fst <$> run_parser
    (version ← socks_u8 "version";
     return! InvalidVersion version when negb (bool_decide (version = SOCKS_VERSION));
     method_count ← socks_u8 "method count";
     return! InvalidMethodCount when u8 method_count =? 0;
     methods ← socks_take (u8 method_count) "method list";
     return! UnsupportedMethod when negb (existsb (fun m => bool_decide (m = METHOD_NO_AUTHENTICATION)) methods);
     consumed ← socks_position;
     trailing ← socks_remaining;
     mret {| mr_methods := methods; mr_consumed := consumed; mr_trailing := trailing |}) l.

Definition socks_domain : P Address :=
  length ← socks_u8 "domain length";
  return! SocksEmptyDomain when u8 length =? 0;
  bytes ← socks_take (u8 length) "domain name";
  return! SocksInvalidDomainName when negb (is_valid_domain_name bytes);
  return! SocksInvalidDomainName when negb (from_utf8 bytes);
  mret (Domain bytes).

(** The address type and the address, as the three request decoders read it. *)
Definition socks_address : P Address :=
  address_type ← socks_u8 "address type";
  if decide (address_type = ADDRESS_IPV4) then octets ← socks_array 4 "IPv4 address"; mret (Ipv4 octets)
  else if decide (address_type = ADDRESS_DOMAIN) then socks_domain
  else if decide (address_type = ADDRESS_IPV6) then octets ← socks_array 16 "IPv6 address"; mret (Ipv6 octets)
  else throw (UnsupportedAddressType address_type).

(** Version, command and reserved byte. *)
Definition socks_command (expected : byte) : P unit :=
  version ← socks_u8 "version";
  return! InvalidVersion version when negb (bool_decide (version = SOCKS_VERSION));
  command ← socks_u8 "command";
  return! UnsupportedCommand command when negb (bool_decide (command = expected));
  reserved ← socks_u8 "reserved field";
  return! InvalidReservedField reserved when negb (bool_decide (reserved = x00));
  mret tt.

Definition decode_connect_request (l : list byte) : result SocksDecodeError ConnectRequest :=
  fst <$> run_parser
    (_ ← socks_command COMMAND_CONNECT;
     address ← socks_address;
     port ← socks_u16 "destination port";
     consumed ← socks_position;
     let destination := {| address := address; port := port |} in
     _ ← lift (validate_destination destination);
     payload ← socks_remaining;
     mret {| cq_destination := destination; cq_consumed := consumed; cq_payload := payload |}) l.

Definition decode_udp_associate_request (l : list byte) : result SocksDecodeError UdpAssociateRequest :=
  fst <$> run_parser
    (_ ← socks_command COMMAND_UDP_ASSOCIATE;
     address ← socks_address;
     port ← socks_u16 "destination port";
     let destination := {| address := address; port := port |} in
     return! SocksInvalidDomainName when bad_domain destination;
     consumed ← socks_position;
     mret {| ua_destination := destination; ua_consumed := consumed |}) l.

Definition decode_udp_datagram (l : list byte) : result SocksDecodeError UdpDatagram :=
  fst <$> run_parser
    (_ ← socks_u16 "UDP reserved";
     frag ← socks_u8 "UDP fragment";
     return! FragmentedUdp frag when negb (bool_decide (frag = x00));
     address ← socks_address;
     port ← socks_u16 "destination port";
     return! ZeroPort when port =? 0;
     let destination := {| address := address; port := port |} in
     return! SocksInvalidDomainName when bad_domain destination;
     consumed ← socks_position;
     payload ← socks_remaining;
     mret {| ud_destination := destination; ud_payload := payload; ud_consumed := consumed |}) l.

(** ** Encoders *)

(** The [&mut [u8]] argument is the state, and it outlives an error: what an
    encoder wrote before it failed stays written. *)
Notation W := (IO (list byte) SocksEncodeError).

(** [output[i..i + n].copy_from_slice(bytes)]. *)
Definition put (i : Z) (bytes : list byte) : W unit := fun out =>
  match store i bytes out with Ok (_, out') => (Ok tt, out') | Err e => (Err e, out) | Panic => (Panic, out) end.

(** [check?]. *)
Definition check {A} (r : result SocksEncodeError A) : W A := fun out => (r, out).

Definition ensure_capacity (required : Z) : W unit := fun out =>
  if len out <? required then (Err (OutputTooSmall required (len out)), out) else (Ok tt, out).

Definition encode_method_response (r : MethodResponse) : W Z :=
  _ ← ensure_capacity 2;
  _ ← put 0 [SOCKS_VERSION; match r with NoAuthentication => METHOD_NO_AUTHENTICATION | NoAcceptableMethods => METHOD_NO_ACCEPTABLE_METHODS end];
  mret 2.

Definition connect_request_len (d : Destination) : Z :=
  match address d with Ipv4 _ => 4 + 4 + 2 | Ipv6 _ => 4 + 16 + 2 | Domain n => 4 + 1 + len n + 2 end.

(** The [match destination.address()] of the two request encoders. *)
Definition store_destination (d : Destination) : W unit :=
  match address d with
  | Ipv4 o => _ ← put 3 [ADDRESS_IPV4]; _ ← put 4 o; put 8 (to_be 2 (port d))
  | Domain n => _ ← put 3 [ADDRESS_DOMAIN]; _ ← put 4 [as_u8 (len n)]; _ ← put 5 n; put (5 + len n) (to_be 2 (port d))
  | Ipv6 o => _ ← put 3 [ADDRESS_IPV6]; _ ← put 4 o; put 20 (to_be 2 (port d))
  end.

Definition store_request (command : byte) (d : Destination) : W Z :=
  let required := connect_request_len d in
  _ ← ensure_capacity required;
  _ ← put 0 [SOCKS_VERSION];
  _ ← put 1 [command];
  _ ← put 2 [x00];
  _ ← store_destination d;
  mret required.

Definition encode_connect_request (d : Destination) : W Z :=
  _ ← check (map_err map_validation_to_encode (validate_destination d));
  store_request COMMAND_CONNECT d.

Definition encode_udp_associate_request (d : Destination) : W Z :=
  _ ← check (reject_if match address d with
    | Domain n => (len n =? 0) || (U8_MAX <? len n) || negb (is_valid_domain_name n)
    | Ipv4 _ | Ipv6 _ => false end EncodeInvalidDomainName);
  store_request COMMAND_UDP_ASSOCIATE d.

(** Into a [Vec], which is cleared once the destination has passed; [reserve]
    cannot fail. *)
Definition encode_udp_datagram (d : Destination) (payload : list byte) : W unit :=
  _ ← check (map_err map_validation_to_encode (validate_destination d));
  io_put ([x00; x00; x00] ++
      match address d with
      | Ipv4 o => [ADDRESS_IPV4] ++ o
      | Domain n => [ADDRESS_DOMAIN] ++ [as_u8 (len n)] ++ n
      | Ipv6 o => [ADDRESS_IPV6] ++ o
      end ++ to_be 2 (port d) ++ payload).

(** [SocketAddr]: an address that is not a name, and a port. *)
Definition encode_command_reply (rep : byte) (bound : list byte * bool) (bound_port : Z) : W Z :=
  let '(octets, v6) := bound in
  if v6 then
    _ ← ensure_capacity 22; _ ← put 0 [SOCKS_VERSION]; _ ← put 1 [rep]; _ ← put 2 [x00]; _ ← put 3 [ADDRESS_IPV6];
    _ ← put 4 octets; _ ← put 20 (to_be 2 bound_port); mret 22
  else
    _ ← ensure_capacity 10; _ ← put 0 [SOCKS_VERSION]; _ ← put 1 [rep]; _ ← put 2 [x00]; _ ← put 3 [ADDRESS_IPV4];
    _ ← put 4 octets; _ ← put 8 (to_be 2 bound_port); mret 10.

(** ** Reference encoding *)

Definition enc_socks_address (a : Address) : list byte :=
  match a with Ipv4 o => [ADDRESS_IPV4] ++ o | Domain n => [ADDRESS_DOMAIN] ++ [as_u8 (len n)] ++ n | Ipv6 o => [ADDRESS_IPV6] ++ o end.
Definition enc_socks_destination (d : Destination) : list byte := enc_socks_address (address d) ++ to_be 2 (port d).
Definition enc_request (command : byte) (d : Destination) : list byte := [SOCKS_VERSION; command; x00] ++ enc_socks_destination d.

Lemma valid_domain n : is_valid_domain_name n = true <-> 1 <= len n <= U8_MAX /\ forallb is_domain_byte n = true.
Proof.
  unfold is_valid_domain_name. rewrite !andb_true_iff, negb_true_iff, Z.eqb_neq, Z.leb_le. pose proof (len_nonneg n).
  split; [intros [[[? ?] ?] _]; split; [lia|done]|]. intros [? Hd]. split_and!; [lia|lia|done|by apply domain_ascii].
Qed.

Lemma good_domain d : address_wf (address d) -> bad_domain d = false.
Proof. unfold bad_domain. destruct (address d) as [o|n|o]; try done. intros H. by rewrite (proj2 (valid_domain n)). Qed.

(** ** Reading *)

Lemma socks_u8_at f pre rest : socks_u8 f (at_pos pre rest) =
  match rest with [] => Err (IncompleteInput f 1 0) | b :: rest => Ok (b, at_pos (pre ++ [b]) rest) end.
Proof.
  unfold socks_u8, socks_take, mbind, M_bind. rewrite take_bytes_at by lia. destruct rest as [|b rest]; [done|].
  replace (len (b :: rest) <? 1) with false by (symmetry; apply Z.ltb_ge; slen). done.
Qed.

Lemma safe_socks_u8 f : safe (socks_u8 f).
Proof. intros c Hc. destruct (cursor_ok_at_pos c Hc) as (pre & rest & ->). rewrite socks_u8_at. destruct rest; [done|]. apply at_pos_ok. Qed.

Lemma sound_socks_u8 f : sound (socks_u8 f) (fun s b => s = [b]).
Proof. intros pre rest a c'. rewrite socks_u8_at. destruct rest as [|b rest]; [done|]. intros [= <- <-]. by exists [b], rest. Qed.

Lemma reads_socks_u8 f b : reads (socks_u8 f) [b] b.
Proof. intros pre rest _. by rewrite socks_u8_at. Qed.

Lemma reads_socks_u16 f z : u16_range z -> reads (socks_u16 f) (to_be 2 z) z.
Proof.
  intros Hz. eapply reads_bind_nil; [apply reads_take_bytes; by rewrite len_to_be|]. rewrite from_be_u16 by done. apply reads_ret.
Qed.

Lemma sound_socks_u16 f : sound (socks_u16 f) (fun s z => u16_range z /\ s = to_be 2 z).
Proof.
  eapply sound_weaken; [eapply sound_bind; [apply sound_take_bytes; lia|]; intros b; apply sound_ret|].
  intros s z (s1 & b & s2 & -> & [-> Hb] & -> & ->). rewrite app_nil_r, to_be_from_be by (unfold len in Hb; lia). split; [by apply from_be_u16_range|done].
Qed.

Lemma socks_remaining_at pre rest : socks_remaining (at_pos pre rest) = Ok (rest, at_pos pre rest).
Proof.
  unfold socks_remaining, slice_from, slice. cbn. rewrite get_range_app_r by lia. replace (len pre - len pre) with 0 by lia. by rewrite get_range_all by slen.
Qed.

Lemma safe_remaining : safe socks_remaining.
Proof. intros c Hc. destruct (cursor_ok_at_pos c Hc) as (pre & rest & ->). rewrite socks_remaining_at. apply at_pos_ok. Qed.

Lemma safe_position : safe socks_position.
Proof. by intros c. Qed.

#[export] Hint Resolve safe_socks_u8 safe_remaining safe_position : rust.

Lemma safe_array n f : 0 <= n -> safe (socks_array n f).
Proof. apply safe_take_bytes. Qed.

Lemma safe_socks_u16 f : safe (socks_u16 f).
Proof. apply safe_bind; [by apply safe_array|]. intros b. apply safe_ret. Qed.

Lemma safe_socks_domain : safe socks_domain.
Proof.
  apply safe_bind; [apply safe_socks_u8|]. intros n. apply safe_bind; [apply safe_return_if|]. intros _.
  apply safe_bind; [apply safe_take_bytes, (u8_range n)|]. intros b. do 2 (apply safe_bind; [apply safe_return_if|]; intros _). apply safe_ret.
Qed.

Lemma safe_socks_address : safe socks_address.
Proof.
  apply safe_bind; [apply safe_socks_u8|]. intros t. destruct (decide _); [|destruct (decide _); [|destruct (decide _)]].
  - apply safe_bind; [by apply safe_array|]. intros o. apply safe_ret.
  - apply safe_socks_domain.
  - apply safe_bind; [by apply safe_array|]. intros o. apply safe_ret.
  - apply safe_throw.
Qed.

Lemma safe_socks_command c : safe (socks_command c).
Proof.
  unfold socks_command. do 3 (apply safe_bind; [apply safe_socks_u8|]; intros ?; apply safe_bind; [apply safe_return_if|]; intros _). apply safe_ret.
Qed.

Lemma sound_socks_domain : sound socks_domain (fun s a => address_wf a /\ [ADDRESS_DOMAIN] ++ s = enc_socks_address a).
Proof.
  eapply sound_weaken.
  { eapply sound_bind; [apply sound_socks_u8|]. intros b. eapply sound_bind; [apply sound_return_if|]. intros u.
    eapply sound_bind; [apply sound_take_bytes; apply (u8_range b)|]. intros n. eapply sound_bind; [apply sound_return_if|]. intros u'.
    eapply sound_bind; [apply sound_return_if|]. intros u''. apply sound_ret. }
  intros s a (s1 & b & s2 & -> & -> & s3 & u & s4 & -> & [-> _] & s5 & n & s6 & -> & [-> Hn] & s7 & u' & s8 & -> & [-> Hd%negb_false_iff%valid_domain] &
    s9 & u'' & s10 & -> & [-> _] & -> & ->). split; [done|]. cbn. by rewrite app_nil_r, Hn, as_u8_u8.
Qed.

Lemma sound_socks_address : sound socks_address (fun s a => address_wf a /\ s = enc_socks_address a).
Proof.
  assert (Harr : forall t n f (k : list byte -> Address), 0 <= n -> (forall o, len o = n -> address_wf (k o) /\ [t] ++ o = enc_socks_address (k o)) ->
    sound (o ← socks_array n f; mret (k o) : P Address) (fun s a => address_wf a /\ [t] ++ s = enc_socks_address a)).
  { intros t n f k Hn Hk. eapply sound_weaken; [eapply sound_bind; [by apply sound_take_bytes|]; intros o; apply sound_ret|].
    intros s a (s1 & o & s2 & -> & [-> Ho] & -> & ->). rewrite app_nil_r. by apply Hk. }
  eapply sound_weaken.
  { eapply sound_bind; [apply sound_socks_u8|]. intros t.
    instantiate (1 := fun t s a => address_wf a /\ [t] ++ s = enc_socks_address a).
    destruct (decide (t = ADDRESS_IPV4)) as [->|]; [by apply Harr|]. destruct (decide (t = ADDRESS_DOMAIN)) as [->|]; [apply sound_socks_domain|].
    destruct (decide (t = ADDRESS_IPV6)) as [->|]; [by apply Harr|apply sound_throw]. }
  intros s a (s1 & t & s2 & -> & -> & H). exact H.
Qed.

Lemma sound_socks_command c : sound (socks_command c) (fun s _ => s = [SOCKS_VERSION; c; x00]).
Proof.
  eapply sound_weaken.
  { unfold socks_command. eapply sound_bind; [apply sound_socks_u8|]. intros v. eapply sound_bind; [apply sound_return_if|]. intros u.
    eapply sound_bind; [apply sound_socks_u8|]. intros b. eapply sound_bind; [apply sound_return_if|]. intros u'.
    eapply sound_bind; [apply sound_socks_u8|]. intros r. eapply sound_bind; [apply sound_return_if|]. intros u''. apply sound_ret. }
  intros s a (s1 & v & s2 & -> & -> & s3 & u & s4 & -> & [-> ->%negb_false_iff%bool_decide_eq_true] & s5 & b & s6 & -> & -> & s7 & u' & s8 & -> &
    [-> ->%negb_false_iff%bool_decide_eq_true] & s9 & r & s10 & -> & -> & s11 & u'' & s12 & -> & [-> ->%negb_false_iff%bool_decide_eq_true] & -> & _). done.
Qed.

Lemma reads_socks_address a : address_wf a -> reads socks_address (enc_socks_address a) a.
Proof.
  intros Ha. unfold socks_address. destruct a as [o|n|o]; cbn [enc_socks_address]; (eapply reads_bind; [apply reads_socks_u8|]).
  - rewrite decide_True by done. eapply reads_bind_nil; [by apply reads_take_bytes|apply reads_ret].
  - rewrite decide_False, decide_True by done. destruct Ha as [Hn Hd]. eapply reads_bind; [apply reads_socks_u8|]. rewrite u8_as_u8_small by lia.
    apply reads_return_if; [apply Z.eqb_neq; lia|]. eapply reads_bind_nil; [by apply reads_take_bytes|].
    apply reads_return_if; [by rewrite (proj2 (valid_domain n))|]. apply reads_return_if; [by rewrite domain_ascii|]. apply reads_ret.
  - rewrite !decide_False, decide_True by done. eapply reads_bind_nil; [by apply reads_take_bytes|apply reads_ret].
Qed.

Lemma reads_socks_command c : reads (socks_command c) [SOCKS_VERSION; c; x00] tt.
Proof.
  unfold socks_command. change [SOCKS_VERSION; c; x00] with ([SOCKS_VERSION] ++ [c] ++ [x00]).
  eapply reads_bind; [apply reads_socks_u8|]. apply reads_return_if; [by rewrite bool_decide_true|].
  eapply reads_bind; [apply reads_socks_u8|]. apply reads_return_if; [by rewrite bool_decide_true|].
  eapply reads_bind_nil; [apply reads_socks_u8|]. apply reads_return_if; [done|]. apply reads_ret.
Qed.

(** The fields before the payload. *)
Definition socks_header (c : byte) : P Destination :=
  _ ← socks_command c; address ← socks_address; port ← socks_u16 "destination port"; mret {| address := address; port := port |}.
Definition datagram_header : P Destination :=
  _ ← socks_u16 "UDP reserved"; frag ← socks_u8 "UDP fragment"; return! FragmentedUdp frag when negb (bool_decide (frag = x00));
  address ← socks_address; port ← socks_u16 "destination port"; mret {| address := address; port := port |}.

Lemma sound_address_port : sound (address ← socks_address; port ← socks_u16 "destination port"; mret {| address := address; port := port |} : P Destination)
  (fun s d => destination_wf d /\ s = enc_socks_destination d).
Proof.
  eapply sound_weaken; [eapply sound_bind; [apply sound_socks_address|]; intros a; eapply sound_bind; [apply sound_socks_u16|]; intros p; apply sound_ret|].
  intros s d (s1 & a & s2 & -> & [Ha ->] & s3 & p & s4 & -> & [Hp ->] & -> & ->). rewrite app_nil_r. done.
Qed.

Lemma reads_address_port d : destination_wf d ->
  reads (address ← socks_address; port ← socks_u16 "destination port"; mret {| address := address; port := port |} : P Destination) (enc_socks_destination d) d.
Proof.
  destruct d as [a p]. intros [Ha Hp]. eapply reads_bind; [by apply reads_socks_address|]. eapply reads_bind_nil; [by apply reads_socks_u16|apply reads_ret].
Qed.

Lemma safe_address_port : safe (address ← socks_address; port ← socks_u16 "destination port"; mret {| address := address; port := port |} : P Destination).
Proof. apply safe_bind; [apply safe_socks_address|]. intros a. apply safe_bind; [apply safe_socks_u16|]. intros p. apply safe_ret. Qed.

Lemma header_logic c : safe (socks_header c) /\ sound (socks_header c) (fun s d => destination_wf d /\ s = enc_request c d) /\
  forall d, destination_wf d -> reads (socks_header c) (enc_request c d) d.
Proof.
  split_and!.
  - apply safe_bind; [apply safe_socks_command|]. intros _. apply safe_address_port.
  - eapply sound_weaken; [eapply sound_bind; [apply sound_socks_command|]; intros u; apply sound_address_port|].
    intros s d (s1 & u & s2 & -> & -> & Hd & ->). done.
  - intros d Hd. eapply (reads_bind _ _ [SOCKS_VERSION; c; x00] tt); [apply reads_socks_command|by apply reads_address_port].
Qed.

Lemma datagram_logic : safe datagram_header /\
  sound datagram_header (fun s d => destination_wf d /\ exists rsv, u16_range rsv /\ s = to_be 2 rsv ++ [x00] ++ enc_socks_destination d) /\
  forall d rsv, u16_range rsv -> destination_wf d -> reads datagram_header (to_be 2 rsv ++ [x00] ++ enc_socks_destination d) d.
Proof.
  split_and!.
  - apply safe_bind; [apply safe_socks_u16|]. intros r. apply safe_bind; [apply safe_socks_u8|]. intros f. apply safe_bind; [apply safe_return_if|].
    intros _. apply safe_address_port.
  - eapply sound_weaken.
    { eapply sound_bind; [apply sound_socks_u16|]. intros r. eapply sound_bind; [apply sound_socks_u8|]. intros f. eapply sound_bind; [apply sound_return_if|].
      intros u. apply sound_address_port. }
    intros s d (s1 & r & s2 & -> & [Hr ->] & s3 & f & s4 & -> & -> & s5 & u & s6 & -> & [-> ->%negb_false_iff%bool_decide_eq_true] & Hd & ->).
    split; [done|]. by exists r.
  - intros d rsv Hr Hd. eapply reads_bind; [by apply reads_socks_u16|]. eapply reads_bind; [apply reads_socks_u8|].
    apply reads_return_if; [done|]. by apply reads_address_port.
Qed.

(** A decoder is its header, a check and what is left. *)
Definition with_rest {A} (hp : P Destination) (check : Destination -> result SocksDecodeError unit) (mk : Destination -> Z -> list byte -> A) : P A :=
  d ← hp; _ ← lift (check d); consumed ← socks_position; rest ← socks_remaining; mret (mk d consumed rest).

Lemma with_rest_exact {A} hp (R : list byte -> Destination -> Prop) check (mk : Destination -> Z -> list byte -> A) l :
  safe hp -> sound hp R -> (forall s d, R s d -> reads hp s d) -> (forall d, check d <> Panic) -> len l <= USIZE_MAX ->
  (fst <$> run_parser (with_rest hp check mk) l) <> Panic /\
  forall r, fst <$> run_parser (with_rest hp check mk) l = Ok r <-> exists d s rest, R s d /\ check d = Ok tt /\ l = s ++ rest /\ r = mk d (len s) rest.
Proof.
  intros Hsafe Hsound Hreads Hcheck Hl.
  assert (Hrun : forall d s rest, l = s ++ rest -> run_parser hp l = Ok (d, at_pos s rest) ->
    fst <$> run_parser (with_rest hp check mk) l = match check d with Ok _ => Ok (mk d (len s) rest) | Err e => Err e | Panic => Panic end).
  { intros d s rest _ H. unfold run_parser, with_rest, mbind, M_bind, lift in *. rewrite H. destruct (check d) as [u|e|]; [|done|done].
    cbn [socks_position]. rewrite socks_remaining_at. done. }
  destruct (run_parser hp l) as [[d c]|e|] eqn:E.
  - destruct (run_parser_sound hp R l d c Hsound E) as (s & rest & -> & -> & HR). rewrite (Hrun d s rest eq_refl eq_refl). specialize (Hcheck d). split.
    + by destruct (check d).
    + intros r. split.
      * destruct (check d) as [[]|e|] eqn:Ec; try done. intros [= <-]. by exists d, s, rest.
      * intros (d' & s' & rest' & HR' & Hc & Heq & ->). pose proof (run_parser_reads hp s' d' rest' (Hreads _ _ HR')) as Hr. rewrite <- Heq in Hr.
        rewrite E in Hr. specialize (Hr Hl). injection Hr as <- _ Hs. assert (s' = s) as ->.
        { apply (app_inj_1 s' s rest' rest); [unfold len in Hs; lia|done]. }
        apply app_inv_head in Heq as ->. by rewrite Hc.
  - assert (He : fst <$> run_parser (with_rest hp check mk) l = Err e) by (unfold run_parser, with_rest, mbind, M_bind in *; by rewrite E).
    rewrite He. split; [done|]. intros r. split; [done|]. intros (d & s & rest & HR & _ & -> & _). by rewrite (run_parser_reads hp s d rest (Hreads _ _ HR)) in E.
  - by destruct (run_parser_no_panic hp l Hsafe).
Qed.

Ltac decoder_steps := unfold run_parser, with_rest, socks_header, datagram_header, mbind, M_bind, mret, M_ret;
  repeat match goal with
  | |- context [socks_command ?b ?c] => destruct (socks_command b c) as [[]|?|]; [|done|done]
  | |- context [socks_address ?c] => destruct (socks_address c) as [[]|?|]; [|done|done]
  | |- context [socks_u16 ?f ?c] => destruct (socks_u16 f c) as [[]|?|]; [|done|done]
  | |- context [socks_u8 ?f ?c] => destruct (socks_u8 f c) as [[]|?|]; [|done|done]
  | |- context [bool_decide (?b = x00)] => case_bool_decide; cbn [negb return_if lift reject_if]; [|done]
  end.

Definition domain_check (d : Destination) : result SocksDecodeError unit := guard! bad_domain d else SocksInvalidDomainName; Ok tt.

Lemma connect_eq l : decode_connect_request l =
  fst <$> run_parser (with_rest (socks_header COMMAND_CONNECT) validate_destination (fun d n rest => {| cq_destination := d; cq_consumed := n; cq_payload := rest |})) l.
Proof. unfold decode_connect_request. decoder_steps. cbn [socks_position]. unfold lift. by destruct (validate_destination _). Qed.

Lemma datagram_eq l : decode_udp_datagram l =
  fst <$> run_parser (with_rest datagram_header validate_destination (fun d n rest => {| ud_destination := d; ud_payload := rest; ud_consumed := n |})) l.
Proof.
  unfold decode_udp_datagram. decoder_steps. unfold return_if, lift, validate_destination. cbn [port]. destruct (_ =? 0); [done|]. by destruct (bad_domain _).
Qed.

Lemma validate_ok d : destination_wf d -> validate_destination d = Ok tt <-> port d <> 0.
Proof.
  intros [Ha _]. unfold validate_destination. rewrite (good_domain d Ha). destruct (Z.eqb_spec (port d) 0); cbn; split; done.
Qed.

Lemma validate_socks_no_panic d : validate_destination d <> Panic.
Proof. unfold validate_destination, reject_if. by destruct (_ =? 0), (bad_domain d). Qed.

Lemma domain_check_no_panic d : domain_check d <> Panic.
Proof. unfold domain_check, reject_if. by destruct (bad_domain d). Qed.

(** The ASSOCIATE decoder leaves the rest of its input alone. *)
Lemma associate_eq l : len l <= USIZE_MAX -> decode_udp_associate_request l =
  fst <$> run_parser (with_rest (socks_header COMMAND_UDP_ASSOCIATE) domain_check (fun d n _ => {| ua_destination := d; ua_consumed := n |})) l.
Proof.
  intros Hl. destruct (run_parser (socks_header COMMAND_UDP_ASSOCIATE) l) as [[d c]|e|] eqn:E.
  - destruct (run_parser_sound _ _ l d c (proj1 (proj2 (header_logic _))) E) as (s & rest & -> & -> & _). revert E.
    unfold decode_udp_associate_request. decoder_steps. intros [= <- ->]. unfold return_if, lift, domain_check, reject_if. destruct (bad_domain _); [done|].
    cbn [socks_position mbind result_bind]. by rewrite socks_remaining_at.
  - revert E. unfold decode_udp_associate_request, run_parser, with_rest, socks_header, mbind, M_bind, mret, M_ret.
    destruct (socks_command _ _) as [[? c1]|?|]; [|done|done]. destruct (socks_address c1) as [[a c2]|?|]; [|done|done]. by destruct (socks_u16 _ c2) as [[p c3]|?|].
  - by destruct (run_parser_no_panic _ l (proj1 (header_logic COMMAND_UDP_ASSOCIATE))).
Qed.

(** ** Writing *)

(** The octets of an address have their width; a name may be anything. *)
Definition address_shape (a : Address) : Prop := match a with Ipv4 o => len o = 4 | Ipv6 o => len o = 16 | Domain _ => True end.

Lemma enc_request_len c d : address_shape (address d) -> len (enc_request c d) = connect_request_len d.
Proof.
  unfold enc_request, enc_socks_destination, enc_socks_address, connect_request_len. destruct (address d) as [o|n|o]; cbn [address_shape]; intros H;
    rewrite ?len_app, len_to_be; cbn [len length]; change (len [SOCKS_VERSION; c; x00]) with 3; rewrite ?H; try change (len [ADDRESS_IPV4]) with 1; try change (len [ADDRESS_IPV6]) with 1;
    try change (len [ADDRESS_DOMAIN]) with 1; try change (len [as_u8 (len n)]) with 1; lia.
Qed.

(** Fills the buffer with [s] from offset [i] on, touching nothing else. *)
Definition fills {A} (m : W A) (i : Z) (s : list byte) (a : A) : Prop :=
  forall pre rest, len pre = i -> len s <= len rest -> m (pre ++ rest) = (Ok a, (pre ++ s) ++ drop (length s) rest).

Lemma fills_put i bytes : fills (put i bytes) i bytes tt.
Proof. intros pre rest Hp Hl. unfold put. by rewrite (puts_store i bytes pre rest). Qed.

Lemma fills_ret {A} i (a : A) : fills (mret a) i [] a.
Proof. intros pre rest _ _. cbn. by rewrite app_nil_r, drop_0. Qed.

Lemma fills_bind {A B} (m : W A) (f : A -> W B) i s1 a j s2 b :
  fills m i s1 a -> j = i + len s1 -> fills (f a) j s2 b -> fills (x ← m; f x) i (s1 ++ s2) b.
Proof.
  intros Hm -> Hf pre rest Hi Hl. unfold mbind, IO_bind. rewrite Hm by slen.
  rewrite Hf by (unfold len in *; rewrite ?length_app, ?length_drop in *; lia).
  rewrite drop_drop, length_app, <- !app_assoc. done.
Qed.

Lemma fills_destination d : address_shape (address d) -> fills (store_destination d) 3 (enc_socks_destination d) tt.
Proof.
  unfold store_destination, enc_socks_destination, enc_socks_address. destruct (address d) as [o|n|o]; cbn [address_shape]; intros H; rewrite <- ?app_assoc.
  - eapply fills_bind; [apply fills_put|reflexivity|]. eapply fills_bind; [apply fills_put|rewrite H; reflexivity|apply fills_put].
  - do 2 (eapply fills_bind; [apply fills_put|reflexivity|]). eapply fills_bind; [apply fills_put|reflexivity|apply fills_put].
  - eapply fills_bind; [apply fills_put|reflexivity|]. eapply fills_bind; [apply fills_put|rewrite H; reflexivity|apply fills_put].
Qed.

(** Filling the start of a buffer, or refusing a short one untouched. *)
Lemma fills_request (m : W Z) n s out : fills m 0 s n -> len s = n ->
  (_ ← ensure_capacity n; m) out = if len out <? n then (Err (OutputTooSmall n (len out)), out) else (Ok n, s ++ drop (Z.to_nat n) out).
Proof.
  intros Hm Hs. unfold mbind, IO_bind, ensure_capacity. destruct (Z.ltb_spec (len out) n) as [|Hge]; [done|].
  change out with ([] ++ out) at 1. rewrite (Hm [] out) by (done || lia). cbn [app]. do 2 f_equal. rewrite <- Hs. unfold len. by rewrite Nat2Z.id.
Qed.

(** A request written at the start of a buffer, or refused for want of room. *)
Definition filled (command : byte) (d : Destination) (out : list byte) : result SocksEncodeError Z * list byte :=
  let n := len (enc_request command d) in
  if len out <? n then (Err (OutputTooSmall n (len out)), out) else (Ok n, enc_request command d ++ drop (Z.to_nat n) out).

Lemma store_request_exact c d out : address_shape (address d) -> store_request c d out = filled c d out.
Proof.
  intros Hs. unfold store_request, filled. cbv zeta. rewrite <- (enc_request_len c d Hs). apply fills_request; [|done].
  change (enc_request c d) with ([SOCKS_VERSION] ++ [c] ++ [x00] ++ enc_socks_destination d). rewrite <- (app_nil_r (enc_socks_destination d)).
  do 3 (eapply fills_bind; [apply fills_put|reflexivity|]). eapply fills_bind; [by apply fills_destination|reflexivity|apply fills_ret].
Qed.

Lemma bad_domain_spec d : address_shape (address d) -> bad_domain d = true <-> ~ address_wf (address d).
Proof.
  unfold bad_domain. destruct (address d) as [o|n|o]; cbn; intros H; try (split; [done|intros []; done]).
  rewrite negb_true_iff, <- not_true_iff_false, valid_domain. done.
Qed.

Lemma validate_encode d : map_err map_validation_to_encode (validate_destination d) =
  if port d =? 0 then Err EncodeZeroPort else if bad_domain d then Err EncodeInvalidDomainName else Ok tt.
Proof. unfold validate_destination. destruct (_ =? 0); [done|]. by destruct (bad_domain d). Qed.

Lemma wf_shape d : destination_wf d -> address_shape (address d).
Proof. intros [H _]. by destruct (address d). Qed.

(** ** The decoders *)

Lemma connect_decoder_exact l : len l <= USIZE_MAX ->
  decode_connect_request l <> Panic /\ forall r, decode_connect_request l = Ok r <->
    exists d s rest, (destination_wf d /\ s = enc_request COMMAND_CONNECT d) /\ port d <> 0 /\ l = s ++ rest /\
      r = {| cq_destination := d; cq_consumed := len s; cq_payload := rest |}.
Proof.
  intros Hl. destruct (header_logic COMMAND_CONNECT) as (Hs & Hso & Hr). rewrite connect_eq.
  destruct (with_rest_exact _ _ _ (fun d n rest => {| cq_destination := d; cq_consumed := n; cq_payload := rest |}) l Hs Hso
    ltac:(intros s x [? ->]; by apply Hr) validate_socks_no_panic Hl) as [Hp Hx]. split; [done|]. intros r. rewrite Hx.
  split; intros (x & s & rest & [Hw He] & Hc & H); exists x, s, rest; by rewrite ?(validate_ok x Hw) in *.
Qed.

Lemma associate_decoder_exact l : len l <= USIZE_MAX ->
  decode_udp_associate_request l <> Panic /\ forall r, decode_udp_associate_request l = Ok r <->
    exists d s rest, (destination_wf d /\ s = enc_request COMMAND_UDP_ASSOCIATE d) /\ l = s ++ rest /\ r = {| ua_destination := d; ua_consumed := len s |}.
Proof.
  intros Hl. destruct (header_logic COMMAND_UDP_ASSOCIATE) as (Hs & Hso & Hr). rewrite associate_eq by done.
  destruct (with_rest_exact _ _ _ (fun d n (_ : list byte) => {| ua_destination := d; ua_consumed := n |}) l Hs Hso
    ltac:(intros s x [? ->]; by apply Hr) domain_check_no_panic Hl) as [Hp Hx]. split; [done|]. intros r. rewrite Hx.
  split; [intros (x & s & rest & Hw & _ & H); by exists x, s, rest|]. intros (x & s & rest & Hw & H). exists x, s, rest. split; [done|]. split; [|done].
  unfold domain_check. by rewrite (good_domain x (proj1 (proj1 Hw))).
Qed.

Lemma datagram_decoder_exact l : len l <= USIZE_MAX ->
  decode_udp_datagram l <> Panic /\ forall r, decode_udp_datagram l = Ok r <->
    exists d s rest, (destination_wf d /\ exists rsv, u16_range rsv /\ s = to_be 2 rsv ++ [x00] ++ enc_socks_destination d) /\ port d <> 0 /\ l = s ++ rest /\
      r = {| ud_destination := d; ud_payload := rest; ud_consumed := len s |}.
Proof.
  intros Hl. destruct datagram_logic as (Hs & Hso & Hr). rewrite datagram_eq.
  destruct (with_rest_exact _ _ _ (fun d n rest => {| ud_destination := d; ud_payload := rest; ud_consumed := n |}) l Hs Hso
    ltac:(intros s x (? & rsv & ? & ->); by apply Hr) validate_socks_no_panic Hl) as [Hp Hx]. split; [done|]. intros r. rewrite Hx.
  split; intros (x & s & rest & [Hw He] & Hc & H); exists x, s, rest; by rewrite ?(validate_ok x Hw) in *.
Qed.

(** The check the ASSOCIATE encoder writes out is the one the others share. *)
Lemma associate_domain d :
  match address d with Domain n => (len n =? 0) || (U8_MAX <? len n) || negb (is_valid_domain_name n) | _ => false end = bad_domain d.
Proof.
  unfold bad_domain. destruct (address d) as [o|n|o]; try done. destruct (is_valid_domain_name n) eqn:E; [|by rewrite orb_true_r].
  apply valid_domain in E as [? _]. rewrite (proj2 (Z.eqb_neq _ _)), (proj2 (Z.ltb_ge _ _)) by lia. done.
Qed.

(** C18: the SOCKS5 codec is exact. No decoder panics on any input; CONNECT, UDP
    ASSOCIATE and datagram decoders accept exactly the encodings of well-formed
    destinations (with a port for CONNECT and datagrams, and any reserved bytes in
    a datagram), report the header's exact length and return what follows it
    unchanged. For any destination the encoders refuse a zero port (CONNECT and
    datagrams), a name that is not a domain name and, for the two requests, a
    buffer that is too short, each with its error and the caller's buffer as it
    was. Otherwise a request encoder writes exactly that encoding at the start of
    the buffer and nothing behind it, and the datagram encoder leaves exactly the
    header and the payload in its vector. *)
Theorem socks5_codec_exact (l : list byte) (d : Destination) (out payload : list byte) :
  len l <= USIZE_MAX -> address_shape (address d) ->
  (decode_connect_request l <> Panic /\ forall r, decode_connect_request l = Ok r <->
    exists d s rest, (destination_wf d /\ s = enc_request COMMAND_CONNECT d) /\ port d <> 0 /\ l = s ++ rest /\
      r = {| cq_destination := d; cq_consumed := len s; cq_payload := rest |}) /\
  (decode_udp_associate_request l <> Panic /\ forall r, decode_udp_associate_request l = Ok r <->
    exists d s rest, (destination_wf d /\ s = enc_request COMMAND_UDP_ASSOCIATE d) /\ l = s ++ rest /\ r = {| ua_destination := d; ua_consumed := len s |}) /\
  (decode_udp_datagram l <> Panic /\ forall r, decode_udp_datagram l = Ok r <->
    exists d s rest, (destination_wf d /\ exists rsv, u16_range rsv /\ s = to_be 2 rsv ++ [x00] ++ enc_socks_destination d) /\ port d <> 0 /\ l = s ++ rest /\
      r = {| ud_destination := d; ud_payload := rest; ud_consumed := len s |}) /\
  (port d = 0 -> encode_connect_request d out = (Err EncodeZeroPort, out) /\ encode_udp_datagram d payload out = (Err EncodeZeroPort, out)) /\
  (port d <> 0 -> ~ address_wf (address d) ->
    encode_connect_request d out = (Err EncodeInvalidDomainName, out) /\ encode_udp_datagram d payload out = (Err EncodeInvalidDomainName, out)) /\
  (~ address_wf (address d) -> encode_udp_associate_request d out = (Err EncodeInvalidDomainName, out)) /\
  (address_wf (address d) ->
    encode_udp_associate_request d out = filled COMMAND_UDP_ASSOCIATE d out /\
    (port d <> 0 -> encode_connect_request d out = filled COMMAND_CONNECT d out /\
       encode_udp_datagram d payload out = (Ok tt, to_be 2 0 ++ [x00] ++ enc_socks_destination d ++ payload))).
Proof.
  intros Hl Hsh. split; [by apply connect_decoder_exact|]. split; [by apply associate_decoder_exact|]. split; [by apply datagram_decoder_exact|].
  pose proof (bad_domain_spec d Hsh) as Hbad. pose proof (associate_domain d) as Has.
  unfold encode_connect_request, encode_udp_datagram, encode_udp_associate_request, check, mbind, IO_bind. rewrite validate_encode, Has.
  split_and!.
  - by intros ->.
  - intros Hp Hn. by rewrite (proj2 (Z.eqb_neq _ _) Hp), (proj2 Hbad Hn).
  - intros Hn. by rewrite (proj2 Hbad Hn).
  - intros Ha. rewrite (good_domain d Ha). cbn [reject_if]. split; [by apply store_request_exact|]. intros Hp. rewrite (proj2 (Z.eqb_neq _ _) Hp).
    split; [by apply store_request_exact|]. unfold io_put, enc_socks_destination, enc_socks_address. f_equal. cbn. do 3 f_equal. destruct (address d); by rewrite <- ?app_assoc.
Qed.

Definition example_target : Destination := {| address := Domain (bytes_of "example.com"); port := 443 |}.

Definition example_bad_target : Destination := {| address := Domain (bytes_of "a b"); port := 443 |}.

Lemma socks5_codec_exact_witness :
  decode_connect_request (enc_request COMMAND_CONNECT example_target ++ bytes_of "hi") =
    Ok {| cq_destination := example_target; cq_consumed := 18; cq_payload := bytes_of "hi" |} /\
  encode_connect_request example_target (replicate 17 x00) = (Err (OutputTooSmall 18 17), replicate 17 x00) /\
  encode_connect_request example_bad_target [x07] = (Err EncodeInvalidDomainName, [x07]).
Proof.
  assert (Hwf : destination_wf example_target) by (split; [split; [split; vm_compute; discriminate|reflexivity]|split; vm_compute; discriminate]).
  destruct (socks5_codec_exact (enc_request COMMAND_CONNECT example_target ++ bytes_of "hi") example_target (replicate 17 x00) []) as ([_ H] & _ & _ & _ & _ & _ & He);
    [vm_compute; discriminate|exact I|].
  destruct (socks5_codec_exact [] example_bad_target [x07] []) as (_ & _ & _ & _ & Hb & _); [vm_compute; discriminate|exact I|].
  split; [|split].
  - apply H. exists example_target, (enc_request COMMAND_CONNECT example_target), (bytes_of "hi").
    split; [split; [exact Hwf|reflexivity]|]. split; [discriminate|]. split; vm_compute; reflexivity.
  - destruct (He (proj1 Hwf)) as [_ Hc]. rewrite (proj1 (Hc ltac:(discriminate))). vm_compute. reflexivity.
  - apply Hb; [discriminate|]. intros [_ Ha]. vm_compute in Ha. discriminate Ha.
Defined.
