(* ===== verification/Vision.v ===== *)
(** * Vision padding decoder ([VisionDecoder] of src/protocol/vless/vision.rs)

    The incremental decoder of padding blocks. Its reference semantics is a
    byte-at-a-time automaton; the source's block-wise loop refines it, which
    makes the result independent of how the input is fragmented. *)

From S2P Require Import Prelude VlessRequest.

Definition VISION_FRAME_SIZE : Z := 8192.
Definition UUID_SIZE : Z := 16.
Definition HEADER_SIZE : Z := 5.

Inductive VisionCommand := Continue | End | Direct.

#[export] Instance VisionCommand_eq_dec : EqDecision VisionCommand.
Proof. solve_decision. Defined.

Inductive VisionDecodeError :=
| UserIdMismatch
| UnknownVisionCommand (command : byte)
| FrameTooLarge (content_length padding_length : Z)
| DecodeAllocationFailed
| DecoderFailed.

Definition command_byte (c : VisionCommand) : byte :=
  match c with Continue => x00 | End => x01 | Direct => x02 end.

Definition command_of (value : byte) : result VisionDecodeError VisionCommand :=
  match value with
  | x00 => Ok Continue
  | x01 => Ok End
  | x02 => Ok Direct
  | _ => Err (UnknownVisionCommand value)
  end.

Inductive VisionMode := FramedMode | RawMode | DirectMode.

#[export] Instance VisionMode_eq_dec : EqDecision VisionMode.
Proof. solve_decision. Defined.

Record VisionDecoder := {
  dec_user : UserId;
  first_frame : bool;
  uuid_read : Z;
  frame_header : list byte;
  header_read : Z;
  content_remaining : Z;
  padding_remaining : Z;
  frame_command : option VisionCommand;
  mode : VisionMode;
  failed : bool;
}.

Definition new_decoder (user : UserId) : VisionDecoder :=
  {| dec_user := user; first_frame := true; uuid_read := 0; frame_header := replicate 5 x00;
     header_read := 0; content_remaining := 0; padding_remaining := 0; frame_command := None;
     mode := FramedMode; failed := false |}.

(** Field updates. *)
Definition set_uuid_read (d : VisionDecoder) (n : Z) : VisionDecoder :=
  {| dec_user := dec_user d; first_frame := first_frame d; uuid_read := n;
     frame_header := frame_header d; header_read := header_read d;
     content_remaining := content_remaining d; padding_remaining := padding_remaining d;
     frame_command := frame_command d; mode := mode d; failed := failed d |}.
Definition set_header (d : VisionDecoder) (h : list byte) (n : Z) : VisionDecoder :=
  {| dec_user := dec_user d; first_frame := first_frame d; uuid_read := uuid_read d;
     frame_header := h; header_read := n;
     content_remaining := content_remaining d; padding_remaining := padding_remaining d;
     frame_command := frame_command d; mode := mode d; failed := failed d |}.
Definition set_remaining (d : VisionDecoder) (content padding : Z) (c : option VisionCommand)
    : VisionDecoder :=
  {| dec_user := dec_user d; first_frame := first_frame d; uuid_read := uuid_read d;
     frame_header := frame_header d; header_read := header_read d;
     content_remaining := content; padding_remaining := padding;
     frame_command := c; mode := mode d; failed := failed d |}.
Definition set_failed (d : VisionDecoder) : VisionDecoder :=
  {| dec_user := dec_user d; first_frame := first_frame d; uuid_read := uuid_read d;
     frame_header := frame_header d; header_read := header_read d;
     content_remaining := content_remaining d; padding_remaining := padding_remaining d;
     frame_command := frame_command d; mode := mode d; failed := true |}.

(** [self.first_frame as usize * UUID_SIZE]. *)
Definition uuid_prefix (first : bool) : Z := if first then UUID_SIZE else 0.

Definition start_frame (d : VisionDecoder) : result VisionDecodeError VisionDecoder :=
  h0 ← index (frame_header d) 0;
  command ← command_of h0;
  content ← slice (frame_header d) 1 3;
  padding ← slice (frame_header d) 3 5;
  let content_length := from_be content in
  let padding_length := from_be padding in
  let prefix_length := HEADER_SIZE + uuid_prefix (first_frame d) in
  wire_length ← ok_or (FrameTooLarge content_length padding_length)
    (match checked_add USIZE_MAX prefix_length content_length with
     | Some length => checked_add USIZE_MAX length padding_length
     | None => None
     end);
  guard! VISION_FRAME_SIZE <? wire_length else FrameTooLarge content_length padding_length;
  Ok (set_remaining d content_length padding_length (Some command)).

Definition frame_complete (d : VisionDecoder) : bool :=
  (header_read d =? HEADER_SIZE) && (content_remaining d =? 0) && (padding_remaining d =? 0)
  && bool_decide (is_Some (frame_command d)).

Definition finish_frame (d : VisionDecoder) : VisionDecoder :=
  match frame_command d with
  | None => d
  | Some command =>
    {| dec_user := dec_user d; first_frame := false; uuid_read := uuid_read d;
       frame_header := replicate 5 x00; header_read := 0;
       content_remaining := content_remaining d; padding_remaining := padding_remaining d;
       frame_command := None;
       mode := match command with Continue => FramedMode | End => RawMode | Direct => DirectMode end;
       failed := failed d |}
  end.

(** One iteration of the decoding loop on the bytes after the cursor: how far it
    advances and what it outputs, a protocol error, or a frame boundary. *)
Inductive LoopStep :=
| Advance (d : VisionDecoder) (count : Z) (out : list byte)
| Stop (e : VisionDecodeError) (d : VisionDecoder)
| Boundary (d : VisionDecoder)
| Crash.

Definition uuid_block (d : VisionDecoder) (input : list byte) : LoopStep :=
  let count := Z.min (len input) (UUID_SIZE - uuid_read d) in
  match (slice (dec_user d) (uuid_read d) (uuid_read d + count) : result unit (list byte)),
        (slice input 0 count : result unit (list byte)) with
  | Ok expected, Ok received =>
    if negb (bytes_eqb received expected) then Stop UserIdMismatch d
    else Advance (set_uuid_read d (uuid_read d + count)) count []
  | _, _ => Crash
  end.

Definition header_block (d : VisionDecoder) (input : list byte) : LoopStep :=
  let count := Z.min (len input) (HEADER_SIZE - header_read d) in
  let start := Z.to_nat (header_read d) in
  let header := take start (frame_header d) ++ take (Z.to_nat count) input ++
                drop (start + Z.to_nat count) (frame_header d) in
  let d := set_header d header (header_read d + count) in
  if header_read d =? HEADER_SIZE then
    match start_frame d with
    | Ok d => Advance d count []
    | Err e => Stop e d
    | Panic => Crash
    end
  else Advance d count [].

Definition content_block (d : VisionDecoder) (input : list byte) : LoopStep :=
  let count := Z.min (len input) (content_remaining d) in
  Advance (set_remaining d (content_remaining d - count) (padding_remaining d) (frame_command d))
    count (take (Z.to_nat count) input).

Definition padding_block (d : VisionDecoder) (input : list byte) : LoopStep :=
  let count := Z.min (len input) (padding_remaining d) in
  Advance (set_remaining d (content_remaining d) (padding_remaining d - count) (frame_command d))
    count [].

Definition loop_body (d : VisionDecoder) (input : list byte) : LoopStep :=
  if first_frame d && (uuid_read d <? UUID_SIZE) then uuid_block d input
  else if header_read d <? HEADER_SIZE then header_block d input
  else if 0 <? content_remaining d then content_block d input
  else if 0 <? padding_remaining d then padding_block d input
  else Boundary (finish_frame d).

(** The [while cursor < input.len()] loop; [input] is what follows the cursor.
    Returns the decoder, and the output appended so far. Out of fuel is [Panic]. *)
Fixpoint decode_loop (fuel : nat) (d : VisionDecoder) (input output : list byte)
    : result VisionDecodeError VisionDecoder * (VisionDecoder * list byte) :=
  match input with
  | [] => (Ok d, (d, output))
  | _ :: _ =>
    match fuel with
    | O => (Panic, (d, output))
    | S fuel =>
      match loop_body d input with
      | Advance d count out => decode_loop fuel d (drop (Z.to_nat count) input) (output ++ out)
      | Stop e d => (Err e, (d, output))
      | Boundary d =>
        if negb (bool_decide (mode d = FramedMode)) then (Ok d, (d, output ++ input))
        else decode_loop fuel d input output
      | Crash => (Panic, (d, output))
      end
    end
  end.

Definition decode_inner (d : VisionDecoder) (input output : list byte)
    : result VisionDecodeError VisionMode * (VisionDecoder * list byte) :=
  if negb (bool_decide (mode d = FramedMode)) then (Ok (mode d), (d, output ++ input))
  else
    match decode_loop (2 * length input + 1) d input output with
    | (Ok d, (_, output)) =>
      let d := if frame_complete d then finish_frame d else d in
      (Ok (mode d), (d, output))
    | (Err e, st) => (Err e, st)
    | (Panic, st) => (Panic, st)
    end.

(** [alloc n] answers [output.try_reserve(n)]. *)
Definition decode_append (alloc : Z -> bool) (d : VisionDecoder) (input output : list byte)
    : result VisionDecodeError VisionMode * (VisionDecoder * list byte) :=
  if failed d then (Err DecoderFailed, (d, output))
  else if negb (alloc (len input)) then (Err DecodeAllocationFailed, (set_failed d, output))
  else
    match decode_inner d input output with
    | (Ok m, st) => (Ok m, st)
    | (Err e, (d, output)) => (Err e, (set_failed d, output))
    | (Panic, st) => (Panic, st)
    end.

Definition decode (alloc : Z -> bool) (d : VisionDecoder) (input output : list byte)
    : result VisionDecodeError VisionMode * (VisionDecoder * list byte) :=
  decode_append alloc d input [].

Inductive VisionPayload := BorrowedPayload (bytes : list byte) | Staged.

Definition with_payload (m : VisionMode) : VisionMode * VisionPayload := (m, Staged).

Definition decode_borrowed (alloc : Z -> bool) (d : VisionDecoder) (input output : list byte)
    : result VisionDecodeError (VisionMode * VisionPayload) * (VisionDecoder * list byte) :=
  if negb (failed d) && negb (bool_decide (mode d = FramedMode))
  then (Ok (mode d, BorrowedPayload input), (d, output))
  else let '(r, st) := decode alloc d input output in (with_payload <$> r, st).

Definition decode_borrowed_append (alloc : Z -> bool) (d : VisionDecoder) (input output : list byte)
    : result VisionDecodeError (VisionMode * VisionPayload) * (VisionDecoder * list byte) :=
  if negb (failed d) && negb (bool_decide (mode d = FramedMode))
  then (Ok (mode d, BorrowedPayload input), (d, output))
  else let '(r, st) := decode_append alloc d input output in (with_payload <$> r, st).

(** ** The reference automaton *)

Definition settle_frame (d : VisionDecoder) : VisionDecoder :=
  if frame_complete d then finish_frame d else d.

(** One byte of the framed stream: the new state and the payload byte, if any. *)
Definition byte_step (d : VisionDecoder) (b : byte)
    : result VisionDecodeError (VisionDecoder * list byte) :=
  if negb (bool_decide (mode d = FramedMode)) then Ok (d, [b])
  else if first_frame d && (uuid_read d <? UUID_SIZE) then
    if bool_decide ((dec_user d : list byte) !! Z.to_nat (uuid_read d) = Some b)
    then Ok (set_uuid_read d (uuid_read d + 1), []) else Err UserIdMismatch
  else if header_read d <? HEADER_SIZE then
    let d := set_header d (<[Z.to_nat (header_read d) := b]> (frame_header d)) (header_read d + 1) in
    if header_read d =? HEADER_SIZE
    then d ← start_frame d; Ok (settle_frame d, [])
    else Ok (d, [])
  else if 0 <? content_remaining d then
    Ok (settle_frame
          (set_remaining d (content_remaining d - 1) (padding_remaining d) (frame_command d)), [b])
  else
    Ok (settle_frame
          (set_remaining d (content_remaining d) (padding_remaining d - 1) (frame_command d)), []).

Fixpoint byte_run (d : VisionDecoder) (l : list byte)
    : result VisionDecodeError (VisionDecoder * list byte) :=
  match l with
  | [] => Ok (d, [])
  | b :: l =>
    '(d, out) ← byte_step d b;
    '(d, out') ← byte_run d l;
    Ok (d, out ++ out')
  end.

(** ** Invariant *)

Record dec_wf (d : VisionDecoder) : Prop := {
  wf_user : len (dec_user d) = UUID_SIZE;
  wf_uuid : 0 <= uuid_read d <= UUID_SIZE;
  wf_header : length (frame_header d) = 5%nat;
  wf_header_read : 0 <= header_read d <= HEADER_SIZE;
  wf_content : 0 <= content_remaining d;
  wf_padding : 0 <= padding_remaining d;
  wf_command : header_read d = HEADER_SIZE <-> is_Some (frame_command d);
  wf_idle : header_read d < HEADER_SIZE -> content_remaining d = 0 /\ padding_remaining d = 0;
  wf_first : first_frame d = true -> uuid_read d < UUID_SIZE -> header_read d = 0;
  wf_mode : mode d <> FramedMode -> frame_command d = None;
}.

Lemma new_decoder_wf user : len user = UUID_SIZE -> dec_wf (new_decoder user).
Proof.
  intros Hu. constructor; cbn; unfold UUID_SIZE, HEADER_SIZE in *; try done; try lia.
Qed.

Lemma frame_complete_wf d :
  dec_wf d -> header_read d = HEADER_SIZE -> content_remaining d = 0 -> padding_remaining d = 0 ->
  frame_complete d = true.
Proof.
  intros Hwf H1 H2 H3. unfold frame_complete. rewrite H1, H2, H3, !Z.eqb_refl. cbn.
  apply bool_decide_eq_true. by apply (wf_command d Hwf).
Qed.

Lemma frame_complete_inv d :
  frame_complete d = true ->
  header_read d = HEADER_SIZE /\ content_remaining d = 0 /\ padding_remaining d = 0 /\
  is_Some (frame_command d).
Proof.
  unfold frame_complete. rewrite !andb_true_iff, !Z.eqb_eq, bool_decide_eq_true. tauto.
Qed.

Lemma settle_frame_wf d : dec_wf d -> dec_wf (settle_frame d).
Proof.
  intros Hwf. unfold settle_frame. destruct (frame_complete d) eqn:Hc; [|done].
  apply frame_complete_inv in Hc as (Hr & Hco & Hp & [c Hcmd]). unfold finish_frame. rewrite Hcmd.
  destruct Hwf. constructor; cbn; unfold HEADER_SIZE in *; try done; try lia.
Qed.

Lemma settle_frame_settled d : frame_complete (settle_frame d) = false.
Proof.
  unfold settle_frame. destruct (frame_complete d) eqn:Hc; [|done].
  apply frame_complete_inv in Hc as (_ & _ & _ & [c Hcmd]). unfold finish_frame. rewrite Hcmd. done.
Qed.

Lemma settle_frame_id d : frame_complete d = false -> settle_frame d = d.
Proof. intros H. unfold settle_frame. by rewrite H. Qed.

Lemma byte_run_app d a b :
  byte_run d (a ++ b) =
    ('(d1, o1) ← byte_run d a; '(d2, o2) ← byte_run d1 b; Ok (d2, o1 ++ o2)).
Proof.
  revert d; induction a as [|x a IH]; intros d; cbn.
  - destruct (byte_run d b) as [[]| |]; done.
  - destruct (byte_step d x) as [[d1 o1]| |]; cbn; [|done|done]. rewrite IH.
    destruct (byte_run d1 a) as [[d2 o2]| |]; cbn; [|done|done].
    destruct (byte_run d2 b) as [[d3 o3]| |]; cbn; [|done|done]. by rewrite app_assoc.
Qed.

(** Once padding has ended every byte is payload. *)
Lemma byte_run_raw d l : mode d <> FramedMode -> byte_run d l = Ok (d, l).
Proof.
  intros Hm. induction l as [|b l IH]; [done|]. cbn. unfold byte_step.
  rewrite bool_decide_false by done. cbn. by rewrite IH.
Qed.

(** ** Blocks

    Each branch of the loop handles several bytes as the automaton would. *)

Lemma run_uuid l : forall d,
  dec_wf d -> mode d = FramedMode -> first_frame d = true ->
  len l <= UUID_SIZE - uuid_read d ->
  byte_run d l =
    if bytes_eqb l (take (length l) (drop (Z.to_nat (uuid_read d)) (dec_user d)))
    then Ok (set_uuid_read d (uuid_read d + len l), []) else Err UserIdMismatch.
Proof.
  induction l as [|b l IH]; intros d Hwf Hm Hf Hl.
  - cbn. rewrite len_nil, Z.add_0_r. by destruct d.
  - pose proof (wf_uuid d Hwf). pose proof (wf_user d Hwf) as Hu. rewrite len_cons in Hl.
    pose proof (len_nonneg l). cbn [byte_run]. unfold byte_step.
    rewrite bool_decide_true by done. rewrite Hf, (proj2 (Z.ltb_lt _ _)) by lia. cbn [negb andb].
    destruct (lookup_lt_is_Some_2 (dec_user d) (Z.to_nat (uuid_read d))) as [x Hx];
      [unfold len in Hu; unfold UUID_SIZE in *; lia|].
    rewrite (drop_S _ x) by done. cbn [length take]. rewrite Hx.
    destruct (decide (x = b)) as [->|Hne].
    + rewrite bool_decide_true by done. cbn [mbind result_bind].
      rewrite (IH (set_uuid_read d (uuid_read d + 1))); cbn; try done; [| |lia].
      * replace (Z.to_nat (uuid_read d + 1)) with (S (Z.to_nat (uuid_read d))) by lia.
        generalize (take (length l) (drop (S (Z.to_nat (uuid_read d))) (dec_user d))) as ex.
        intros ex. unfold bytes_eqb. destruct (decide (l = ex)) as [->|Hle].
        -- rewrite !bool_decide_true by done. cbn. do 2 f_equal. unfold set_uuid_read; cbn. f_equal. slen.
        -- rewrite !bool_decide_false by congruence. done.
      * destruct Hwf. constructor; cbn; unfold UUID_SIZE in *; try done; try lia.
        intros H1 H2. apply wf_first0; [done|lia].
    + rewrite bool_decide_false by congruence. unfold bytes_eqb.
      rewrite bool_decide_false by congruence. done.
Qed.

Definition header_written (d : VisionDecoder) (l : list byte) : VisionDecoder :=
  set_header d (take (Z.to_nat (header_read d)) (frame_header d) ++ l ++
                drop (Z.to_nat (header_read d) + length l) (frame_header d))
    (header_read d + len l).

Definition past_uuid (d : VisionDecoder) : Prop := first_frame d && (uuid_read d <? UUID_SIZE) = false.

Lemma header_written_nil d : header_written d [] = d.
Proof.
  unfold header_written, set_header. cbn. rewrite Nat.add_0_r, take_drop, len_nil, Z.add_0_r.
  by destruct d.
Qed.

(** Overwriting one position and then the next [length l] ones. *)
Lemma overwrite_cons {A} (h : list A) n b l :
  (n < length h)%nat ->
  take (S n) (take n h ++ b :: drop (S n) h) ++ l ++
    drop (S n + length l) (take n h ++ b :: drop (S n) h)
  = take n h ++ (b :: l) ++ drop (n + S (length l)) h.
Proof.
  intros Hn. rewrite take_app, drop_app, length_take, Nat.min_l by lia.
  rewrite (take_ge (take n h)), (drop_ge (take n h)) by (rewrite length_take; lia).
  replace (S n - n)%nat with 1%nat by lia. replace (S n + length l - n)%nat with (S (length l)) by lia.
  cbn [take drop app]. rewrite <- app_assoc. cbn [app]. rewrite drop_drop. rewrite take_0. cbn [app]. do 4 f_equal. lia.
Qed.

Lemma header_written_cons d b l :
  length (frame_header d) = 5%nat -> 0 <= header_read d < 5 ->
  header_written (header_written d [b]) l = header_written d (b :: l).
Proof.
  intros Hh Hr. unfold header_written, set_header. cbn [frame_header header_read app length].
  f_equal; [|slen]. rewrite len_cons, len_nil.
  replace (Z.to_nat (header_read d + (1 + 0))) with (S (Z.to_nat (header_read d))) by lia.
  replace (Z.to_nat (header_read d) + 1)%nat with (S (Z.to_nat (header_read d))) by lia.
  apply overwrite_cons. lia.
Qed.

Lemma byte_step_header d b :
  dec_wf d -> mode d = FramedMode -> past_uuid d -> header_read d < HEADER_SIZE ->
  byte_step d b =
    if header_read d + 1 =? HEADER_SIZE
    then d' ← start_frame (header_written d [b]); Ok (settle_frame d', [])
    else Ok (header_written d [b], []).
Proof.
  intros Hwf Hm Hp Hr. unfold byte_step. rewrite bool_decide_true by done. cbn [negb].
  unfold past_uuid in Hp. rewrite Hp, (proj2 (Z.ltb_lt _ _)) by done.
  assert (Heq : set_header d (<[Z.to_nat (header_read d):=b]> (frame_header d)) (header_read d + 1)
    = header_written d [b]).
  { unfold header_written. rewrite len_cons, len_nil. f_equal.
    rewrite insert_take_drop by (pose proof (wf_header_read d Hwf); rewrite (wf_header d Hwf);
      unfold HEADER_SIZE in *; lia).
    cbn [app]. do 3 f_equal. cbn. lia. }
  rewrite Heq. done.
Qed.

Lemma header_written_wf d l :
  dec_wf d -> past_uuid d -> header_read d + len l < HEADER_SIZE -> dec_wf (header_written d l).
Proof.
  intros Hwf Hp Hl. pose proof (len_nonneg l). pose proof (wf_header_read d Hwf).
  pose proof (wf_header d Hwf) as Hh. destruct Hwf. constructor; cbn; try done; try lia.
  - rewrite !length_app, length_take, length_drop. unfold len, HEADER_SIZE in *. lia.
  - split; [lia|]. intros Hc. apply wf_command0 in Hc. lia.
  - intros Hf Hu. unfold past_uuid in Hp. rewrite Hf in Hp. cbn in Hp. apply Z.ltb_ge in Hp. lia.
Qed.

Lemma run_header l : forall d,
  dec_wf d -> mode d = FramedMode -> past_uuid d -> l <> [] ->
  header_read d + len l <= HEADER_SIZE ->
  byte_run d l =
    if header_read d + len l =? HEADER_SIZE
    then d' ← start_frame (header_written d l); Ok (settle_frame d', [])
    else Ok (header_written d l, []).
Proof.
  induction l as [|b l IH]; intros d Hwf Hm Hp Hne Hl; [done|].
  pose proof (len_nonneg l) as Hnn. rewrite len_cons in Hl |- *. cbn [byte_run].
  pose proof (wf_header_read d Hwf) as Hr0.
  rewrite byte_step_header by (done || lia).
  destruct (decide (l = [])) as [->|Hl'].
  - rewrite len_nil, Z.add_0_r. destruct (_ =? _); cbn [mbind result_bind byte_run]; [|done].
    by destruct (start_frame _).
  - assert (0 < len l) by (destruct l; [done|]; slen).
    rewrite (proj2 (Z.eqb_neq (header_read d + 1) _)) by lia. cbn [mbind result_bind].
    assert (Hwf' : dec_wf (header_written d [b])) by (apply header_written_wf; (done || rewrite len_cons, len_nil; lia)).
    rewrite IH; try done.
    + change (header_read (header_written d [b])) with (header_read d + 1).
      replace (header_read d + 1 + len l) with (header_read d + (1 + len l)) by lia.
      rewrite header_written_cons by (apply (wf_header d Hwf) || (unfold HEADER_SIZE in *; lia)).
      destruct (_ =? _); [|done]. by destruct (start_frame _).
    + change (header_read (header_written d [b])) with (header_read d + 1). lia.
Qed.

(** The decoder stands inside a frame body. *)
Definition in_body (d : VisionDecoder) : Prop :=
  mode d = FramedMode /\ past_uuid d /\ header_read d = HEADER_SIZE.

Lemma body_step_content d b :
  in_body d -> 0 < content_remaining d ->
  byte_step d b = Ok (settle_frame
    (set_remaining d (content_remaining d - 1) (padding_remaining d) (frame_command d)), [b]).
Proof.
  intros (Hm & Hp & Hr) Hc. unfold byte_step. rewrite bool_decide_true by done. unfold past_uuid in Hp.
  rewrite Hp, Hr, (proj2 (Z.ltb_lt 0 _)) by done. done.
Qed.

Lemma body_step_padding d b :
  in_body d -> content_remaining d = 0 ->
  byte_step d b = Ok (settle_frame
    (set_remaining d (content_remaining d) (padding_remaining d - 1) (frame_command d)), []).
Proof.
  intros (Hm & Hp & Hr) Hc. unfold byte_step. rewrite bool_decide_true by done. unfold past_uuid in Hp.
  rewrite Hp, Hr, Hc. done.
Qed.

Lemma settle_frame_open d :
  content_remaining d <> 0 \/ padding_remaining d <> 0 -> settle_frame d = d.
Proof.
  intros H. apply settle_frame_id. destruct (frame_complete d) eqn:E; [|done].
  apply frame_complete_inv in E as (_ & ? & ? & _). lia.
Qed.

Lemma run_content l : forall d,
  in_body d -> l <> [] -> len l <= content_remaining d ->
  byte_run d l = Ok (settle_frame
    (set_remaining d (content_remaining d - len l) (padding_remaining d) (frame_command d)), l).
Proof.
  induction l as [|b l IH]; intros d Hb Hne Hl; [done|]. rewrite len_cons in Hl |- *.
  pose proof (len_nonneg l). cbn [byte_run]. rewrite body_step_content by (done || lia).
  cbn [mbind result_bind]. destruct (decide (l = [])) as [->|Hl'].
  - cbn. do 4 f_equal.
  - assert (0 < len l) by (destruct l; [done|]; slen).
    rewrite (settle_frame_open (set_remaining d (content_remaining d - 1) _ _)) by (left; cbn; lia).
    rewrite IH; [| done | done | cbn; lia]. cbn. do 3 f_equal.
    unfold set_remaining; cbn. f_equal. lia.
Qed.

Lemma run_padding l : forall d,
  in_body d -> content_remaining d = 0 -> l <> [] -> len l <= padding_remaining d ->
  byte_run d l = Ok (settle_frame
    (set_remaining d (content_remaining d) (padding_remaining d - len l) (frame_command d)), []).
Proof.
  induction l as [|b l IH]; intros d Hb Hc Hne Hl; [done|]. rewrite len_cons in Hl |- *.
  pose proof (len_nonneg l). cbn [byte_run]. rewrite body_step_padding by done.
  cbn [mbind result_bind]. destruct (decide (l = [])) as [->|Hl'].
  - cbn. do 4 f_equal.
  - assert (0 < len l) by (destruct l; [done|]; slen).
    rewrite (settle_frame_open (set_remaining d _ (padding_remaining d - 1) _)) by (right; cbn; lia).
    rewrite IH; [| done | done | done | cbn; lia]. cbn. do 3 f_equal.
    unfold set_remaining; cbn. f_equal. lia.
Qed.

(** ** Starting a frame *)

Lemma start_frame_no_panic d : length (frame_header d) = 5%nat -> no_panic (start_frame d).
Proof.
  intros Hh. unfold start_frame.
  assert (Hlen : len (frame_header d) = 5) by (unfold len; lia).
  apply no_panic_bind; [apply index_no_panic; lia|]. intros h0 _.
  apply no_panic_bind; [by destruct h0|]. intros c _.
  apply no_panic_bind; [apply slice_no_panic; lia|]. intros cb _.
  apply no_panic_bind; [apply slice_no_panic; lia|]. intros pb _.
  apply no_panic_bind; [apply no_panic_ok_or|]. intros w _.
  apply no_panic_guard. intros _. apply no_panic_ok.
Qed.

Lemma start_frame_ok d d' :
  start_frame d = Ok d' -> exists c p k, d' = set_remaining d c p (Some k) /\ 0 <= c /\ 0 <= p.
Proof.
  unfold start_frame. intros H. inv_ok H. do 3 eexists. split; [done|].
  split; apply from_be_range.
Qed.

Lemma started_wf d l d' :
  dec_wf d -> mode d = FramedMode -> past_uuid d -> header_read d + len l = HEADER_SIZE ->
  start_frame (header_written d l) = Ok d' -> dec_wf d' /\ mode d' = FramedMode.
Proof.
  intros Hwf Hm Hp Hl Hs. destruct (start_frame_ok _ _ Hs) as (c & p & k & -> & Hc & Hpd).
  pose proof (len_nonneg l). pose proof (wf_header_read d Hwf). pose proof (wf_header d Hwf) as Hh.
  destruct Hwf. split; [|done]. constructor; cbn; try done; try lia.
  - rewrite !length_app, length_take, length_drop. unfold len, HEADER_SIZE in *. lia.
  - intros Hf Hu. unfold past_uuid in Hp. rewrite Hf in Hp. cbn in Hp. apply Z.ltb_ge in Hp. lia.
Qed.

(** ** The loop refines the automaton *)

(** [r] is what the automaton says of [input] from [d], with [output] already out. *)
Definition loop_agrees (d : VisionDecoder) (input output : list byte)
    (r : result VisionDecodeError VisionDecoder * (VisionDecoder * list byte)) : Prop :=
  match byte_run (settle_frame d) input with
  | Ok (d', out) =>
    exists d0, r = (Ok d0, (d0, output ++ out)) /\ settle_frame d0 = d' /\ dec_wf d0
  | Err e => exists d0 out0, r = (Err e, (d0, out0))
  | Panic => False
  end.

Lemma agrees_block d d1 block rest output o r :
  byte_run (settle_frame d) block = Ok (settle_frame d1, o) ->
  loop_agrees d1 rest (output ++ o) r -> loop_agrees d (block ++ rest) output r.
Proof.
  intros Hb. unfold loop_agrees. rewrite byte_run_app, Hb. cbn [mbind result_bind].
  destruct (byte_run (settle_frame d1) rest) as [[d' out]|e|]; cbn; [|done|done].
  rewrite <- app_assoc. done.
Qed.

Lemma agrees_err d block rest output e d0 out0 :
  byte_run (settle_frame d) block = Err e -> loop_agrees d (block ++ rest) output (Err e, (d0, out0)).
Proof. intros Hb. unfold loop_agrees. rewrite byte_run_app, Hb. cbn. eauto. Qed.

(** What an iteration may answer on the bytes [l]. *)
Definition step_ok (d : VisionDecoder) (l : list byte) (s : LoopStep) : Prop :=
  match s with
  | Advance d1 count o =>
    0 < count <= len l /\
    byte_run (settle_frame d) (take (Z.to_nat count) l) = Ok (settle_frame d1, o) /\
    dec_wf d1 /\ mode d1 = FramedMode
  | Stop e _ => exists count, byte_run (settle_frame d) (take count l) = Err e
  | Boundary d1 => d1 = settle_frame d /\ frame_complete d = true
  | Crash => False
  end.

Lemma uuid_block_ok d l :
  dec_wf d -> mode d = FramedMode -> first_frame d = true -> uuid_read d < UUID_SIZE ->
  0 < len l -> step_ok d l (uuid_block d l).
Proof.
  intros Hwf Hm Hff Hur Hl. pose proof (wf_uuid d Hwf). pose proof (wf_user d Hwf) as Hul.
  pose proof (wf_first d Hwf Hff Hur) as H0. unfold uuid_block.
  assert (Hnc : settle_frame d = d).
  { apply settle_frame_id. destruct (frame_complete d) eqn:E; [|done].
    apply frame_complete_inv in E as [E _]. unfold HEADER_SIZE in E. lia. }
  set (count := Z.min (len l) (UUID_SIZE - uuid_read d)).
  unfold slice. rewrite !get_range_some by lia.
  replace (uuid_read d + count - uuid_read d) with count by lia. rewrite Z.sub_0_r.
  change (drop (Z.to_nat 0) l) with l.
  assert (Hct : length (take (Z.to_nat count) l) = Z.to_nat count)
    by (rewrite length_take; unfold len in *; lia).
  pose proof (run_uuid (take (Z.to_nat count) l) d Hwf Hm Hff) as Hrun.
  unfold len in Hrun at 1 2. rewrite Hct in Hrun. specialize (Hrun ltac:(lia)).
  destruct (bytes_eqb _ _); cbn [negb step_ok].
  - split_and!; [lia | lia | | |done].
    + rewrite Hnc, Hrun, Z2Nat.id by lia. do 2 f_equal. symmetry. apply settle_frame_id.
      unfold frame_complete. cbn. by rewrite H0.
    + destruct Hwf. constructor; cbn; try done; try lia.
  - exists (Z.to_nat count). by rewrite Hnc.
Qed.

Lemma header_block_ok d l :
  dec_wf d -> mode d = FramedMode -> past_uuid d -> header_read d < HEADER_SIZE ->
  0 < len l -> step_ok d l (header_block d l).
Proof.
  intros Hwf Hm Hp Hlt Hl. pose proof (wf_header_read d Hwf). unfold header_block.
  assert (Hnc : settle_frame d = d).
  { apply settle_frame_id. destruct (frame_complete d) eqn:E; [|done].
    apply frame_complete_inv in E as [E _]. lia. }
  set (count := Z.min (len l) (HEADER_SIZE - header_read d)).
  assert (Hct : length (take (Z.to_nat count) l) = Z.to_nat count)
    by (rewrite length_take; unfold len in *; lia).
  assert (Hcl : len (take (Z.to_nat count) l) = count) by (unfold len at 1; lia).
  assert (Hw : set_header d (take (Z.to_nat (header_read d)) (frame_header d) ++
      take (Z.to_nat count) l ++ drop (Z.to_nat (header_read d) + Z.to_nat count) (frame_header d))
      (header_read d + count) = header_written d (take (Z.to_nat count) l))
    by (unfold header_written; rewrite Hct, Hcl; done).
  rewrite Hw. clear Hw.
  assert (Hne : take (Z.to_nat count) l <> []) by (intros E; rewrite E in Hct; cbn in Hct; lia).
  pose proof (run_header (take (Z.to_nat count) l) d Hwf Hm Hp Hne ltac:(lia)) as Hrun.
  change (header_read (header_written d (take (Z.to_nat count) l)))
    with (header_read d + len (take (Z.to_nat count) l)).
  destruct (Z.eqb_spec (header_read d + len (take (Z.to_nat count) l)) HEADER_SIZE) as [Hfull|Hpart].
  - destruct (start_frame (header_written d (take (Z.to_nat count) l))) as [d'|e|] eqn:Hs; cbn [step_ok].
    + destruct (started_wf _ _ _ Hwf Hm Hp Hfull Hs). rewrite Hnc, Hrun. split_and!; (done || lia).
    + exists (Z.to_nat count). by rewrite Hnc, Hrun.
    + eapply start_frame_no_panic; [|exact Hs]. cbn. pose proof (wf_header d Hwf).
      rewrite !length_app, Hct, length_take, length_drop. unfold HEADER_SIZE in *. lia.
  - cbn [step_ok]. rewrite Hnc, Hrun. split_and!; try lia; try done.
    + do 2 f_equal. symmetry. apply settle_frame_id. unfold frame_complete.
      rewrite (proj2 (Z.eqb_neq _ HEADER_SIZE)); [done | exact Hpart].
    + apply header_written_wf; (done || lia).
Qed.

Lemma content_block_ok d l :
  dec_wf d -> in_body d -> 0 < content_remaining d -> 0 < len l -> step_ok d l (content_block d l).
Proof.
  intros Hwf Hb Hc Hl. unfold content_block. cbn [step_ok].
  set (count := Z.min (len l) (content_remaining d)).
  assert (Hcl : len (take (Z.to_nat count) l) = count) by (rewrite len_take; lia).
  rewrite settle_frame_open by lia.
  split_and!; [lia | lia | | | apply Hb].
  - rewrite run_content, Hcl; [done | done | | lia]. intros E. rewrite E, len_nil in Hcl. lia.
  - destruct Hwf, Hb as (_ & _ & ?). constructor; cbn; try done; try lia.
Qed.

Lemma padding_block_ok d l :
  dec_wf d -> in_body d -> content_remaining d = 0 -> 0 < padding_remaining d -> 0 < len l ->
  step_ok d l (padding_block d l).
Proof.
  intros Hwf Hb Hc Hp Hl. unfold padding_block. cbn [step_ok].
  set (count := Z.min (len l) (padding_remaining d)).
  assert (Hcl : len (take (Z.to_nat count) l) = count) by (rewrite len_take; lia).
  rewrite settle_frame_open by lia.
  split_and!; [lia | lia | | | apply Hb].
  - rewrite run_padding, Hcl; [done | done | done | | lia]. intros E. rewrite E, len_nil in Hcl. lia.
  - destruct Hwf, Hb as (_ & _ & ?). constructor; cbn; try done; try lia.
Qed.

Lemma loop_body_ok d l :
  dec_wf d -> mode d = FramedMode -> 0 < len l -> step_ok d l (loop_body d l).
Proof.
  intros Hwf Hm Hl. unfold loop_body.
  destruct (first_frame d && (uuid_read d <? UUID_SIZE)) eqn:Hu.
  { apply andb_true_iff in Hu as [? ?%Z.ltb_lt]. by apply uuid_block_ok. }
  pose proof (wf_header_read d Hwf). pose proof (wf_content d Hwf). pose proof (wf_padding d Hwf).
  destruct (Z.ltb_spec (header_read d) HEADER_SIZE); [by apply header_block_ok|].
  assert (Hb : in_body d) by (split_and!; (done || lia)).
  destruct (Z.ltb_spec 0 (content_remaining d)); [by apply content_block_ok|].
  destruct (Z.ltb_spec 0 (padding_remaining d)); [apply padding_block_ok; (done || lia)|].
  assert (Hc : frame_complete d = true) by (apply frame_complete_wf; (done || lia)).
  cbn. unfold settle_frame. by rewrite Hc.
Qed.

Definition loop_fuel (d : VisionDecoder) (input : list byte) : nat :=
  2 * length input + (if frame_complete d then 1 else 0).

Lemma decode_loop_agrees fuel : forall d input output,
  dec_wf d -> mode d = FramedMode -> (loop_fuel d input <= fuel)%nat ->
  loop_agrees d input output (decode_loop fuel d input output).
Proof.
  induction fuel as [|fuel IH]; intros d input output Hwf Hm Hf.
  - destruct input as [|b input]; [|unfold loop_fuel in Hf; cbn in Hf; lia]. cbn.
    exists d. rewrite app_nil_r. done.
  - destruct input as [|b input]; [cbn; exists d; rewrite app_nil_r; done|].
    pose proof (loop_body_ok d (b :: input) Hwf Hm ltac:(slen)) as Hstep. cbn [decode_loop].
    destruct (loop_body d (b :: input)) as [d1 count o|e d1|d1|]; cbn [step_ok] in Hstep; [| | |done].
    + destruct Hstep as (Hc & Hrun & Hwf1 & Hm1).
      rewrite <- (take_drop (Z.to_nat count) (b :: input)) at 1.
      eapply agrees_block; [exact Hrun|]. apply IH; [done|done|].
      unfold loop_fuel in *. rewrite length_drop. unfold len in Hc.
      destruct (frame_complete d1), (frame_complete d); lia.
    + destruct Hstep as [count Hrun]. rewrite <- (take_drop count (b :: input)) at 1.
      by apply agrees_err.
    + destruct Hstep as [-> Hcomp]. pose proof (settle_frame_wf d Hwf) as Hwf1.
      case_bool_decide as Hmode; cbn [negb].
      * pose proof (IH (settle_frame d) (b :: input) output Hwf1 Hmode) as Hih. unfold loop_agrees in *.
        rewrite (settle_frame_id (settle_frame d)) in Hih by apply settle_frame_settled.
        apply Hih. unfold loop_fuel in *. rewrite settle_frame_settled. rewrite Hcomp in Hf. lia.
      * unfold loop_agrees. rewrite byte_run_raw by done. exists (settle_frame d).
        rewrite (settle_frame_id (settle_frame d)) by apply settle_frame_settled. done.
Qed.

(** Between calls the decoder is well formed and has no finished frame pending. *)
Definition dec_ready (d : VisionDecoder) : Prop :=
  dec_wf d /\ frame_complete d = false /\ failed d = false.

Lemma byte_step_failed d b d' o : byte_step d b = Ok (d', o) -> failed d' = failed d.
Proof.
  assert (Hs : forall d, failed (settle_frame d) = failed d).
  { intros x. unfold settle_frame, finish_frame. destruct (frame_complete x), (frame_command x); done. }
  unfold byte_step. intros H. repeat case_match; try done; inv_ok H; try (by injection H as <- _);
    rewrite ?Hs; try done.
  apply start_frame_ok in Hstep as (c & p & k & -> & _). done.
Qed.

Lemma byte_run_failed l : forall d d' o, byte_run d l = Ok (d', o) -> failed d' = failed d.
Proof.
  induction l as [|b l IH]; intros d d' o H; cbn in H; [by injection H as <- _|].
  destruct (byte_step d b) as [[d1 o1]| |] eqn:E1; cbn in H; [|done|done].
  destruct (byte_run d1 l) as [[d2 o2]| |] eqn:E2; cbn in H; [|done|done]. injection H as <- _.
  erewrite IH by done. by eapply byte_step_failed.
Qed.

Lemma decode_inner_agrees d input output :
  dec_ready d ->
  match byte_run d input with
  | Ok (d', out) => decode_inner d input output = (Ok (mode d'), (d', output ++ out)) /\ dec_ready d'
  | Err e => exists st, decode_inner d input output = (Err e, st)
  | Panic => False
  end.
Proof.
  intros (Hwf & Hset & Hfail). unfold decode_inner.
  pose proof (fun d' o => byte_run_failed input d d' o) as Hff.
  destruct (decide (mode d = FramedMode)) as [Hm|Hm].
  - rewrite bool_decide_true by done. cbn [negb].
    pose proof (decode_loop_agrees (2 * length input + 1) d input output Hwf Hm) as Hloop.
    specialize (Hloop ltac:(unfold loop_fuel; rewrite Hset; lia)).
    unfold loop_agrees in Hloop. rewrite settle_frame_id in Hloop by done.
    destruct (byte_run d input) as [[d' out]|e|]; [| |done].
    + destruct Hloop as (d0 & -> & Heq & Hwf0). fold (settle_frame d0). rewrite Heq. split; [done|].
      rewrite <- Heq. split_and!; [by apply settle_frame_wf | apply settle_frame_settled |].
      rewrite Heq, (Hff d' out) by done. done.
    + destruct Hloop as (d0 & out0 & ->). eauto.
  - rewrite bool_decide_false by done. cbn. rewrite byte_run_raw by done. done.
Qed.

(** Feeding fragments one after another, as a relay does. *)
Fixpoint feed (alloc : Z -> bool) (d : VisionDecoder) (fragments : list (list byte)) (output : list byte)
    : result VisionDecodeError VisionMode * (VisionDecoder * list byte) :=
  match fragments with
  | [] => (Ok (mode d), (d, output))
  | fragment :: fragments =>
    match decode_append alloc d fragment output with
    | (Ok _, (d, output)) => feed alloc d fragments output
    | failure => failure
    end
  end.

Section Fragments.
Context (alloc : Z -> bool) (Halloc : forall n, alloc n = true).

Lemma decode_append_agrees d input output :
  dec_ready d ->
  match byte_run d input with
  | Ok (d', out) => decode_append alloc d input output = (Ok (mode d'), (d', output ++ out)) /\ dec_ready d'
  | Err e => exists st, decode_append alloc d input output = (Err e, st)
  | Panic => False
  end.
Proof.
  intros Hd. pose proof (decode_inner_agrees d input output Hd) as H.
  unfold decode_append. destruct Hd as (_ & _ & ->). rewrite Halloc. cbn [negb].
  destruct (byte_run d input) as [[d' out]|e|]; [| |done].
  - destruct H as [-> ?]. done.
  - destruct H as [[d0 out0] ->]. eauto.
Qed.

Lemma feed_agrees fragments : forall d output,
  dec_ready d ->
  match byte_run d (concat fragments) with
  | Ok (d', out) => feed alloc d fragments output = (Ok (mode d'), (d', output ++ out)) /\ dec_ready d'
  | Err e => exists st, feed alloc d fragments output = (Err e, st)
  | Panic => False
  end.
Proof.
  induction fragments as [|f fs IH]; intros d output Hd; cbn [concat feed].
  - cbn. rewrite app_nil_r. done.
  - rewrite byte_run_app. pose proof (decode_append_agrees d f output Hd) as H.
    destruct (byte_run d f) as [[d1 o1]|e|]; cbn [mbind result_bind]; [| |done].
    + destruct H as [-> Hd1]. specialize (IH d1 (output ++ o1) Hd1).
      destruct (byte_run d1 (concat fs)) as [[d2 o2]|e|]; cbn; [|done|done].
      by rewrite app_assoc.
    + destruct H as [st ->]. eauto.
Qed.
End Fragments.

Lemma new_decoder_ready user : len user = UUID_SIZE -> dec_ready (new_decoder user).
Proof. intros Hu. split_and!; [by apply new_decoder_wf | done | done]. Qed.

(** C8: Vision decoding does not depend on how the stream is fragmented: feeding
    any fragments one by one gives the outcome (mode or error) of decoding their
    concatenation at once, and when they succeed the same decoder state and the
    same payload; the decoder never panics. The borrowed variant delivers the
    same bytes as the staging one. *)
Theorem vision_decode_fragmentation (alloc : Z -> bool) (user : UserId)
    (fragments : list (list byte)) :
  len user = UUID_SIZE -> (forall n, alloc n = true) ->
  let whole := decode alloc (new_decoder user) (concat fragments) [] in
  let parts := feed alloc (new_decoder user) fragments [] in
  parts.1 = whole.1 /\ no_panic whole.1 /\ (is_ok whole.1 = true -> parts = whole) /\
  forall d input output, failed d = false ->
    match decode_borrowed_append alloc d input output with
    | (Ok (m, BorrowedPayload b), (d', out)) => decode_append alloc d input output = (Ok m, (d', out ++ b))
    | (Ok (m, Staged), st) => decode_append alloc d input output = (Ok m, st)
    | (Err e, st) => decode_append alloc d input output = (Err e, st)
    | (Panic, st) => decode_append alloc d input output = (Panic, st)
    end.
Proof.
  intros Hu Ha. cbn zeta. pose proof (new_decoder_ready user Hu) as Hd. unfold decode.
  pose proof (decode_append_agrees alloc Ha _ (concat fragments) [] Hd) as Hw.
  pose proof (feed_agrees alloc Ha fragments _ [] Hd) as Hp.
  assert (Hb : forall d input output, failed d = false ->
    match decode_borrowed_append alloc d input output with
    | (Ok (m, BorrowedPayload b), (d', out)) => decode_append alloc d input output = (Ok m, (d', out ++ b))
    | (Ok (m, Staged), st) => decode_append alloc d input output = (Ok m, st)
    | (Err e, st) => decode_append alloc d input output = (Err e, st)
    | (Panic, st) => decode_append alloc d input output = (Panic, st)
    end).
  { intros d i o Hf. unfold decode_borrowed_append, decode_append, decode_inner. rewrite Hf, Ha. cbn [negb andb].
    case_bool_decide; cbn [negb]; [|done]. by destruct (decode_loop _ _ _ _) as [[] []]. }
  destruct (byte_run (new_decoder user) (concat fragments)) as [[d' out]|e|]; [| |done].
  - destruct Hw as [-> _], Hp as [-> _]. done.
  - destruct Hw as [st ->], Hp as [st' ->]. done.
Qed.

Lemma vision_decode_fragmentation_witness :
  let user := replicate 16 x07 in
  feed (fun _ => true) (new_decoder user) [take 9 user; drop 9 user ++ [x02; x00; x02; x00]; [x01; xaa; xbb; x00; xcc]] []
  = decode (fun _ => true) (new_decoder user) (user ++ [x02; x00; x02; x00; x01; xaa; xbb; x00; xcc]) [] /\
  (decode (fun _ => true) (new_decoder user) (user ++ [x02; x00; x02; x00; x01; xaa; xbb; x00; xcc]) []).1
  = Ok DirectMode.
Proof.
  destruct (vision_decode_fragmentation (fun _ => true) (replicate 16 x07)
    [take 9 (replicate 16 x07); drop 9 (replicate 16 x07) ++ [x02; x00; x02; x00]; [x01; xaa; xbb; x00; xcc]]
    eq_refl (fun _ => eq_refl)) as (_ & _ & H & _).
  split; [apply H; vm_compute; reflexivity | vm_compute; reflexivity].
Defined.
