(* ===== verification/Padding.v ===== *)
(** * Padding-length generator ([src/protocol/vless/padding.rs])

    The ChaCha12-backed generator and the interface the Vision encoder relies on.
    The cipher and the operating system's entropy are parameters. *)

From S2P Require Import Prelude.

Inductive EntropyUnavailable := entropy_unavailable.

(** What the encoder needs of its source of padding lengths. *)
Class PaddingSource (R : Type) := {
  below : R -> Z -> result EntropyUnavailable (Z * R);
  below_in_range : forall r upper v r',
    0 < upper -> below r upper = Ok (v, r') -> 0 <= v < upper;
}.

Section Rng.

(** ChaCha12: keyed by 32 bytes, with a 12-byte nonce, it yields the keystream in
    blocks; [entropy n] is the [n]-th answer of the operating system. *)
Context (Cipher : Type).
Context (chacha12_new : list byte -> list byte -> Cipher).
Context (apply_keystream : Cipher -> list byte * Cipher).
Context (entropy : nat -> option (list byte)).

Definition BLOCK_BYTES : Z := 256.
Definition RESEED_AFTER_BYTES : Z := Z.shiftl 1 20.

(** [os_draws] counts the entropy calls made so far. *)
Record PaddingRng := {
  cipher : Cipher;
  rng_buffer : list byte;
  rng_position : Z;
  issued : Z;
  os_draws : nat;
}.

Definition from_seed (seed : list byte) (draws : nat) : PaddingRng :=
  let cipher := chacha12_new (take 32 seed) (drop 32 seed) in
  let '(buffer, cipher) := apply_keystream cipher in
  {| cipher := cipher; rng_buffer := buffer; rng_position := 0; issued := BLOCK_BYTES; os_draws := draws |}.

Definition from_os (draws : nat) : result EntropyUnavailable PaddingRng :=
  seed ← ok_or entropy_unavailable (entropy draws);
  Ok (from_seed seed (S draws)).

Definition refill (r : PaddingRng) : result EntropyUnavailable PaddingRng :=
  if RESEED_AFTER_BYTES <=? issued r then from_os (os_draws r)
  else
    let '(buffer, cipher) := apply_keystream (cipher r) in
    Ok {| cipher := cipher; rng_buffer := buffer; rng_position := 0;
          issued := Z.min U64_MAX (issued r + BLOCK_BYTES); os_draws := os_draws r |}.

Definition next_four (r : PaddingRng) : result EntropyUnavailable (list byte * PaddingRng) :=
  r ← (if BLOCK_BYTES <? rng_position r + 4 then refill r else Ok r);
  value ← ok_or entropy_unavailable (get_range (rng_buffer r) (rng_position r) (rng_position r + 4));
  Ok (value, {| cipher := cipher r; rng_buffer := rng_buffer r; rng_position := rng_position r + 4;
                issued := issued r; os_draws := os_draws r |}).

(** [u32::from_ne_bytes] on the little-endian targets. *)
Definition from_ne_bytes (l : list byte) : Z := from_be (reverse l).

Definition acceptance_limit (upper : Z) : Z := U32_MAX - U32_MAX mod upper.

(** The rejection loop; out of fuel is [Panic]. *)
Fixpoint below_loop (fuel : nat) (r : PaddingRng) (upper : Z)
    : result EntropyUnavailable (Z * PaddingRng) :=
  match fuel with
  | O => Panic
  | S fuel =>
    '(four, r) ← next_four r;
    let value := from_ne_bytes four in
    if value <? acceptance_limit upper then Ok (value mod upper, r) else below_loop fuel r upper
  end.

Definition below_rng (fuel : nat) (r : PaddingRng) (upper : Z)
    : result EntropyUnavailable (Z * PaddingRng) :=
  if upper =? 0 then Ok (0, r) else below_loop fuel r upper.

(** ** Lemmas *)

Lemma below_loop_range fuel : forall r upper v r',
  0 < upper -> below_loop fuel r upper = Ok (v, r') -> 0 <= v < upper.
Proof.
  induction fuel as [|fuel IH]; intros r upper v r' Hu H; [done|]. cbn in H.
  destruct (next_four r) as [[four r1]| |]; cbn in H; [|done|done].
  destruct (_ <? _); [|by eapply IH]. injection H as <- _. by apply Z.mod_pos_bound.
Qed.

#[export] Instance PaddingRng_source (fuel : nat) : PaddingSource PaddingRng.
Proof.
  refine {| below := below_rng fuel |}. intros r upper v r' Hu. unfold below_rng.
  rewrite (proj2 (Z.eqb_neq _ _)) by lia. by apply below_loop_range.
Defined.

(** The keystream comes in whole blocks. *)
Context (keystream_block : forall c, len (apply_keystream c).1 = BLOCK_BYTES).

Definition rng_ok (r : PaddingRng) : Prop :=
  len (rng_buffer r) = BLOCK_BYTES /\ 0 <= rng_position r <= BLOCK_BYTES.

Lemma from_seed_ok seed n : rng_ok (from_seed seed n).
Proof.
  unfold from_seed, rng_ok. pose proof (keystream_block (chacha12_new (take 32 seed) (drop 32 seed))) as H.
  destruct (apply_keystream _) as [b c]. cbn in *. unfold BLOCK_BYTES in *. lia.
Qed.

Lemma refill_cases r :
  (exists r', refill r = Ok r' /\ rng_ok r' /\ rng_position r' = 0) \/
  (refill r = Err entropy_unavailable /\ RESEED_AFTER_BYTES <= issued r /\ entropy (os_draws r) = None).
Proof.
  unfold refill, from_os. destruct (Z.leb_spec RESEED_AFTER_BYTES (issued r)).
  - destruct (entropy (os_draws r)) as [seed|]; cbn; [left|by right].
    exists (from_seed seed (S (os_draws r))). split; [done|]. split; [apply from_seed_ok|].
    unfold from_seed. by destruct (apply_keystream _).
  - left. pose proof (keystream_block (cipher r)) as H1.
    destruct (apply_keystream (cipher r)) as [b c]. eexists. split; [done|]. cbn in *.
    unfold rng_ok. cbn. unfold BLOCK_BYTES in *. lia.
Qed.

Lemma next_four_cases r :
  rng_ok r ->
  (exists w r', next_four r = Ok (w, r') /\ rng_ok r' /\ len w = 4) \/
  (next_four r = Err entropy_unavailable /\ RESEED_AFTER_BYTES <= issued r /\ entropy (os_draws r) = None).
Proof.
  intros [Hb Hp]. unfold next_four.
  assert (Hread : forall r, rng_ok r -> rng_position r + 4 <= BLOCK_BYTES ->
    exists w r', (value ← ok_or entropy_unavailable (get_range (rng_buffer r) (rng_position r) (rng_position r + 4));
      Ok (value, {| cipher := cipher r; rng_buffer := rng_buffer r; rng_position := rng_position r + 4;
                    issued := issued r; os_draws := os_draws r |})) = Ok (w, r') /\ rng_ok r' /\ len w = 4).
  { intros x [Hx Hxp] Hle. destruct (get_range (rng_buffer x) _ _) as [w|] eqn:Hg.
    - apply get_range_inv in Hg as (_ & _ & _ & Hlen & _). do 2 eexists. split; [done|].
      unfold rng_ok. cbn. split_and!; (done || lia).
    - rewrite get_range_some in Hg by lia. done. }
  destruct (Z.ltb_spec BLOCK_BYTES (rng_position r + 4)) as [Hlt|Hge].
  - destruct (refill_cases r) as [(r' & -> & Hok & H0) | [-> ?]]; [left|right; auto].
    cbn [mbind result_bind]. apply Hread; [done|]. rewrite H0. unfold BLOCK_BYTES. lia.
  - left. apply Hread; [done|lia].
Qed.

Lemma from_ne_bytes_range w : len w = 4 -> u32_range (from_ne_bytes w).
Proof. intros H. apply from_be_u32_range. unfold len in *. by rewrite length_reverse. Qed.

(** The next [n] words of the generator, in order. *)
Fixpoint draw (n : nat) (r : PaddingRng) : result EntropyUnavailable (list Z * PaddingRng) :=
  match n with
  | O => Ok ([], r)
  | S n =>
    '(four, r) ← next_four r;
    '(words, r) ← draw n r;
    Ok (from_ne_bytes four :: words, r)
  end.

(** The verdict of the rejection loop on the words it draws: all but the last
    are rejected. *)
Definition sampled (fuel : nat) (r : PaddingRng) (upper : Z)
    (out : result EntropyUnavailable (Z * PaddingRng)) : Prop :=
  exists rejected r1,
    draw (length rejected) r = Ok (rejected, r1) /\
    Forall (fun w => acceptance_limit upper <= w) rejected /\
    match out with
    | Ok (v, r2) => (length rejected < fuel)%nat /\ exists four,
        next_four r1 = Ok (four, r2) /\ from_ne_bytes four < acceptance_limit upper /\
        v = from_ne_bytes four mod upper
    | Err _ => RESEED_AFTER_BYTES <= issued r1 /\ entropy (os_draws r1) = None
    | Panic => length rejected = fuel
    end.

Lemma below_loop_sampled upper fuel : forall r,
  rng_ok r -> sampled fuel r upper (below_loop fuel r upper).
Proof.
  induction fuel as [|fuel IH]; intros r Hr; cbn [below_loop].
  - by exists [], r.
  - destruct (next_four_cases r Hr) as [(w & r' & Hw & Hr' & _) | (Hn & H1 & H2)].
    + rewrite Hw. cbn [mbind result_bind].
      destruct (Z.ltb_spec (from_ne_bytes w) (acceptance_limit upper)) as [Hlt|Hge].
      * exists [], r. cbn. split_and!; [done|constructor|lia|]. by exists w.
      * destruct (IH r' Hr') as (rejected & r1 & Hd & Hall & Hout).
        exists (from_ne_bytes w :: rejected), r1. cbn [length draw].
        rewrite Hw. cbn [mbind result_bind]. rewrite Hd. split_and!; [done|by constructor|].
        destruct (below_loop fuel r' upper) as [[v r2]|e|]; [|done|by rewrite Hout].
        destruct Hout as [? Hex]. split; [lia|exact Hex].
    + rewrite Hn. exists [], r. split_and!; [done|constructor|]. done.
Qed.

(** Each value below [upper] is the remainder of exactly [limit / upper] accepted
    words. *)
Lemma accepted_words upper v word :
  0 < upper -> 0 <= v < upper -> u32_range word ->
  word < acceptance_limit upper /\ word mod upper = v <->
  exists k, 0 <= k < acceptance_limit upper / upper /\ word = v + k * upper.
Proof.
  intros Hu Hv Hw. unfold acceptance_limit, u32_range in *.
  pose proof (Z.mod_pos_bound U32_MAX upper ltac:(lia)) as Hm.
  pose proof (Z.div_mod U32_MAX upper ltac:(lia)) as Hdm.
  replace ((U32_MAX - U32_MAX mod upper) / upper) with (U32_MAX / upper)
    by (replace (U32_MAX - U32_MAX mod upper) with (U32_MAX / upper * upper) by lia;
        rewrite Z.div_mul by lia; done).
  pose proof (Z.div_mod word upper ltac:(lia)). pose proof (Z.mod_pos_bound word upper ltac:(lia)).
  split.
  - intros [Hlt Hmod]. exists (word / upper). split; [|lia]. split; [apply Z.div_pos; lia|]. nia.
  - intros (k & Hk & ->). rewrite Z.mod_add, (Z.mod_small v) by lia. split; [|done].
    assert ((k + 1) * upper <= U32_MAX / upper * upper) by (apply Z.mul_le_mono_nonneg_r; lia). lia.
Qed.

(** The padding sampler is unbiased and bounded. It draws words until one is
    below the acceptance limit and returns its remainder, which is below the bound;
    it fails only when a reseed is due and the operating system has no entropy, and
    goes on drawing only while every word was rejected. Each value is the remainder
    of exactly [limit / upper] accepted words (those of the form [v + k * upper]),
    and more than half of all words are accepted. *)
Theorem padding_sampler_uniform (upper : Z) (r : PaddingRng) (fuel : nat) :
  0 < upper <= 65536 -> rng_ok r ->
  sampled fuel r upper (below_rng fuel r upper) /\
  (forall v r', below_rng fuel r upper = Ok (v, r') -> 0 <= v < upper) /\
  (forall v word, 0 <= v < upper -> u32_range word ->
     (word < acceptance_limit upper /\ word mod upper = v <->
      exists k, 0 <= k < acceptance_limit upper / upper /\ word = v + k * upper)) /\
  2 * acceptance_limit upper > U32_MAX.
Proof.
  intros Hu Hr.
  assert (Hb : below_rng fuel r upper = below_loop fuel r upper)
    by (unfold below_rng; by rewrite (proj2 (Z.eqb_neq _ _)) by lia).
  rewrite Hb. split_and!.
  - by apply below_loop_sampled.
  - intros v r'. apply below_loop_range. lia.
  - intros v word. apply accepted_words. lia.
  - unfold acceptance_limit, U32_MAX. pose proof (Z.mod_pos_bound 4294967295 upper ltac:(lia)). lia.
Qed.

End Rng.
