(* ===== verification/VisionEncode.v ===== *)
(** * Vision padding encoder

    [VisionEncoder] of src/protocol/vless/vision.rs over any [PaddingSource]; the
    packing of its frames into outer TLS records is in [VisionWrite]. *)

From S2P Require Import Prelude Cursor VlessRequest Vision Padding.

Definition DEFAULT_LONG_PADDING_THRESHOLD : Z := 900.
Definition DEFAULT_LONG_PADDING_RANGE : Z := 500.
Definition DEFAULT_LONG_PADDING_TARGET : Z := 900.
Definition DEFAULT_SHORT_PADDING_RANGE : Z := 256.

Inductive VisionEncodeError :=
| ContentTooLarge (length maximum : Z)
| PaddingTooLarge (length : Z)
| EncodeEntropyUnavailable
| EncodeAllocationFailed
| EncoderFinished.

Record VisionFramePlan := {
  include_user_id : bool;
  plan_command : VisionCommand;
  content_length : Z;
  padding_length : Z;
}.

Definition wire_len (p : VisionFramePlan) : Z :=
  let prefix := HEADER_SIZE + (if include_user_id p then UUID_SIZE else 0) in
  prefix + content_length p + padding_length p.

Section Encoder.
Context {R : Type} {source : PaddingSource R}.

Record VisionEncoder := {
  enc_user : UserId;
  enc_first_frame : bool;
  finished : bool;
  padding : R;
}.

Definition encoder := M VisionEncoder VisionEncodeError.

(** [VisionEncoder::new] once its generator is seeded. *)
Definition new_encoder (user : UserId) (padding : R) : VisionEncoder :=
  {| enc_user := user; enc_first_frame := true; finished := false; padding := padding |}.

Definition random_below (upper : Z) : encoder Z := fun e =>
  match below (padding e) upper with
  | Ok (v, r) =>
    Ok (v, {| enc_user := enc_user e; enc_first_frame := enc_first_frame e; finished := finished e;
              padding := r |})
  | Err _ => Err EncodeEntropyUnavailable
  | Panic => Panic
  end.

Definition choose_padding_length (content_length : Z) (long_padding : bool) (maximum : Z) : encoder Z :=
  candidate ←
    (if (content_length <? DEFAULT_LONG_PADDING_THRESHOLD) && long_padding then
       v ← random_below DEFAULT_LONG_PADDING_RANGE;
       mret (v + DEFAULT_LONG_PADDING_TARGET - content_length)
     else random_below DEFAULT_SHORT_PADDING_RANGE);
  mret (Z.min candidate maximum).

Definition maximum_frame_padding (e : VisionEncoder) (content_length : Z)
    : result VisionEncodeError Z :=
  guard! finished e else EncoderFinished;
  let prefix_length := HEADER_SIZE + uuid_prefix (enc_first_frame e) in
  let maximum_content := VISION_FRAME_SIZE - prefix_length in
  guard! (maximum_content <? content_length) || (U16_MAX <? content_length)
    else ContentTooLarge content_length maximum_content;
  Ok (VISION_FRAME_SIZE - prefix_length - content_length).

Definition plan_capped (content_length : Z) (command : VisionCommand) (long_padding : bool)
    (maximum_padding : Z) : encoder VisionFramePlan :=
  padding_length ← choose_padding_length content_length long_padding maximum_padding;
  e ← get_state;
  c ← lift (ok_or (ContentTooLarge content_length content_length) (try_from U16_MAX content_length));
  p ← lift (ok_or (PaddingTooLarge padding_length) (try_from U16_MAX padding_length));
  mret {| include_user_id := enc_first_frame e; plan_command := command;
          content_length := c; padding_length := p |}.

Definition plan_frame (content_length : Z) (command : VisionCommand) (long_padding : bool)
    : encoder VisionFramePlan :=
  e ← get_state;
  maximum_padding ← lift (maximum_frame_padding e content_length);
  plan_capped content_length command long_padding maximum_padding.

Definition plan_within (content_length : Z) (command : VisionCommand) (long_padding : bool)
    (record_budget : Z) : encoder (option VisionFramePlan) :=
  e ← get_state;
  maximum_padding ← lift (maximum_frame_padding e content_length);
  let prefix_length := HEADER_SIZE + uuid_prefix (enc_first_frame e) in
  match (budget ← checked_sub record_budget prefix_length; checked_sub budget content_length) with
  | None => mret None
  | Some budget_padding =>
    plan ← plan_capped content_length command long_padding (Z.min maximum_padding budget_padding);
    mret (Some plan)
  end.

(** [assemble_layout]: the UUID, the header and the padding around a body that is
    already in place; mismatched lengths write nothing. *)
Definition assemble_layout (user : UserId) (p : VisionFramePlan) : writer unit unit := fun output =>
  if negb (len output =? wire_len p) then Ok (tt, output)
  else
    let prefix := uuid_prefix (include_user_id p) in
    (_ ← (if include_user_id p then store 0 user else mret tt);
     _ ← store prefix [command_byte (plan_command p)];
     _ ← store (prefix + 1) (to_be 2 (content_length p));
     _ ← store (prefix + 3) (to_be 2 (padding_length p));
     let tail := prefix + HEADER_SIZE + content_length p in
     store tail (replicate (Z.to_nat (len output - tail)) x00)) output.

Definition assemble (user : UserId) (p : VisionFramePlan) (content : list byte)
    : writer unit unit := fun output =>
  if negb (len output =? wire_len p) || negb (len content =? content_length p) then Ok (tt, output)
  else
    let prefix := HEADER_SIZE + uuid_prefix (include_user_id p) in
    (_ ← store prefix content; assemble_layout user p) output.

Definition commit (p : VisionFramePlan) : encoder unit := fun e =>
  Ok (tt, {| enc_user := enc_user e; enc_first_frame := false;
             finished := negb (bool_decide (plan_command p = Continue)); padding := padding e |}).

(** A frame assembled into a fresh buffer of the planned size. *)
Definition assembled (user : UserId) (p : VisionFramePlan) (content buffer : list byte)
    : result VisionEncodeError (list byte) :=
  match assemble user p content buffer with
  | Ok (_, out) => Ok out
  | Err _ => Panic
  | Panic => Panic
  end.

Definition encode (alloc : Z -> bool) (content : list byte) (command : VisionCommand)
    (long_padding : bool) : encoder (list byte) :=
  plan ← plan_frame (len content) command long_padding;
  return! EncodeAllocationFailed when negb (alloc (wire_len plan));
  e ← get_state;
  output ← lift (assembled (enc_user e) plan content (replicate (Z.to_nat (wire_len plan)) x00));
  _ ← commit plan;
  mret output.

(** ** The wire image of a plan *)

Definition frame_bytes (user : UserId) (p : VisionFramePlan) (content : list byte) : list byte :=
  (if include_user_id p then user else []) ++ [command_byte (plan_command p)] ++
  to_be 2 (content_length p) ++ to_be 2 (padding_length p) ++ content ++
  replicate (Z.to_nat (padding_length p)) x00.

(** A plan the encoder may issue: both lengths fit their fields and the frame its
    8 KiB bound. *)
Definition plan_ok (p : VisionFramePlan) : Prop :=
  u16_range (content_length p) /\ u16_range (padding_length p) /\ wire_len p <= VISION_FRAME_SIZE.

Lemma wire_len_nonneg p : plan_ok p -> 0 <= wire_len p.
Proof.
  intros (? & ? & _). unfold wire_len, u16_range, HEADER_SIZE, UUID_SIZE in *.
  destruct (include_user_id p); lia.
Qed.

Lemma split_at {A} n (l : list A) : (n <= length l)%nat -> exists a b, l = a ++ b /\ length a = n.
Proof.
  intros H. exists (take n l), (drop n l). rewrite take_drop, length_take. split; [done|lia].
Qed.

Lemma len_frame user p content :
  len user = UUID_SIZE -> len content = content_length p -> u16_range (padding_length p) ->
  len (frame_bytes user p content) = wire_len p.
Proof.
  intros Hu Hc Hp. unfold frame_bytes, wire_len, u16_range, HEADER_SIZE in *.
  autorewrite with lens. rewrite Hc. destruct (include_user_id p); rewrite ?Hu, ?len_nil; lia.
Qed.

Lemma assemble_frame user p content output :
  len user = UUID_SIZE -> plan_ok p -> len content = content_length p -> len output = wire_len p ->
  assemble user p content output = Ok (tt, frame_bytes user p content).
Proof.
  intros Hu (Hcl & Hpl & _) Hc Ho. unfold assemble. rewrite Ho, Hc, !Z.eqb_refl. cbn [negb orb].
  set (u := if include_user_id p then user else []).
  assert (Hul : len u = uuid_prefix (include_user_id p))
    by (unfold u, uuid_prefix; destruct (include_user_id p); done).
  unfold u16_range in *. unfold wire_len, HEADER_SIZE in Ho.
  change (if include_user_id p then UUID_SIZE else 0) with (uuid_prefix (include_user_id p)) in Ho.
  assert (Hlo : Z.of_nat (length output) = 5 + len u + len content + padding_length p)
    by (unfold len in *; lia).
  destruct (split_at (length u) output) as (o1 & r1 & -> & H1); [unfold len in *; lia|].
  rewrite length_app in Hlo.
  destruct (split_at 1 r1) as (o2 & r2 & -> & H2); [unfold len in *; lia|]. rewrite length_app in Hlo.
  destruct (split_at 2 r2) as (o3 & r3 & -> & H3); [unfold len in *; lia|]. rewrite length_app in Hlo.
  destruct (split_at 2 r3) as (o4 & r4 & -> & H4); [unfold len in *; lia|]. rewrite length_app in Hlo.
  destruct (split_at (length content) r4) as (o5 & o6 & -> & H5); [unfold len in *; lia|].
  rewrite length_app in Hlo. unfold mbind at 1, M_bind at 1.
  replace (o1 ++ o2 ++ o3 ++ o4 ++ o5 ++ o6) with ((o1 ++ o2 ++ o3 ++ o4) ++ o5 ++ o6)
    by (by rewrite <- !app_assoc).
  rewrite store_over by (unfold len, HEADER_SIZE in *; rewrite ?length_app; lia).
  unfold assemble_layout.
  replace (len ((o1 ++ o2 ++ o3 ++ o4) ++ content ++ o6)) with (wire_len p)
    by (unfold wire_len, len, HEADER_SIZE in *; rewrite !length_app;
        change (if include_user_id p then UUID_SIZE else 0) with (uuid_prefix (include_user_id p)); lia).
  rewrite Z.eqb_refl. cbn [negb].
  rewrite <- !app_assoc. unfold mbind at 1, M_bind at 1.
  assert (Hfirst : (if include_user_id p then store 0 user else mret tt : writer unit unit)
      (o1 ++ o2 ++ o3 ++ o4 ++ content ++ o6) = Ok (tt, u ++ o2 ++ o3 ++ o4 ++ content ++ o6)).
  { unfold u in *. destruct (include_user_id p).
    - change (o1 ++ ?x) with ([] ++ o1 ++ x). rewrite store_over by (done || (unfold len; lia)). done.
    - destruct o1; done. }
  rewrite Hfirst. unfold mbind, M_bind.
  rewrite store_over by (done || (unfold len in *; cbn [length]; lia)).
  replace (u ++ [command_byte (plan_command p)] ++ o3 ++ o4 ++ content ++ o6)
    with ((u ++ [command_byte (plan_command p)]) ++ o3 ++ o4 ++ content ++ o6) by (by rewrite <- !app_assoc).
  rewrite store_over by (autorewrite with lens; unfold len in *; lia).
  replace ((u ++ [command_byte (plan_command p)]) ++ to_be 2 (content_length p) ++ o4 ++ content ++ o6)
    with ((u ++ [command_byte (plan_command p)] ++ to_be 2 (content_length p)) ++ o4 ++ content ++ o6)
    by (by rewrite <- !app_assoc).
  rewrite store_over by (autorewrite with lens; unfold len in *; lia).
  replace ((u ++ [command_byte (plan_command p)] ++ to_be 2 (content_length p)) ++
      to_be 2 (padding_length p) ++ content ++ o6)
    with ((u ++ [command_byte (plan_command p)] ++ to_be 2 (content_length p) ++
      to_be 2 (padding_length p) ++ content) ++ o6 ++ []) by (rewrite app_nil_r; by rewrite <- !app_assoc).
  replace (wire_len p - (uuid_prefix (include_user_id p) + HEADER_SIZE + content_length p)) with (padding_length p)
    by (unfold wire_len;
        change (if include_user_id p then UUID_SIZE else 0) with (uuid_prefix (include_user_id p)); lia).
  rewrite store_over.
  - rewrite app_nil_r. unfold frame_bytes. fold u. by rewrite <- !app_assoc.
  - autorewrite with lens. unfold HEADER_SIZE, len in *. lia.
  - autorewrite with lens. unfold len in *. lia.
Qed.

(** ** Decoding what was encoded *)

(** The decoder between two frames. *)
Definition idle_decoder (user : UserId) (first : bool) (uuid : Z) (m : VisionMode) : VisionDecoder :=
  {| dec_user := user; first_frame := first; uuid_read := uuid; frame_header := replicate 5 x00;
     header_read := 0; content_remaining := 0; padding_remaining := 0; frame_command := None;
     mode := m; failed := false |}.

Definition mode_after (c : VisionCommand) : VisionMode :=
  match c with Continue => FramedMode | End => RawMode | Direct => DirectMode end.

Lemma idle_decoder_wf user first uuid m :
  len user = UUID_SIZE -> 0 <= uuid <= UUID_SIZE -> dec_wf (idle_decoder user first uuid m).
Proof.
  intros Hu Hr. constructor; cbn; unfold HEADER_SIZE; try done; try lia.
Qed.

Lemma command_of_byte c : command_of (command_byte c) = Ok c.
Proof. by destruct c. Qed.

Lemma start_frame_plan d p :
  plan_ok p -> include_user_id p = first_frame d ->
  frame_header d = [command_byte (plan_command p)] ++ to_be 2 (content_length p) ++ to_be 2 (padding_length p) ->
  start_frame d = Ok (set_remaining d (content_length p) (padding_length p) (Some (plan_command p))).
Proof.
  intros (Hc & Hp & Hw) Hf Hh. unfold start_frame. rewrite Hh.
  cbn [app]. rewrite index_cons_0. cbn [mbind result_bind]. rewrite command_of_byte. cbn [mbind result_bind].
  unfold slice.
  replace (get_range (command_byte (plan_command p) :: to_be 2 (content_length p) ++ to_be 2 (padding_length p)) 1 3)
    with (Some (to_be 2 (content_length p))) by reflexivity.
  replace (get_range (command_byte (plan_command p) :: to_be 2 (content_length p) ++ to_be 2 (padding_length p)) 3 5)
    with (Some (to_be 2 (padding_length p))) by reflexivity.
  cbn [mbind result_bind]. rewrite !from_be_u16 by done. rewrite <- Hf.
  unfold wire_len, VISION_FRAME_SIZE, u16_range, HEADER_SIZE, U16_MAX in *.
  change (if include_user_id p then UUID_SIZE else 0) with (uuid_prefix (include_user_id p)) in Hw.
  assert (0 <= uuid_prefix (include_user_id p)) by (unfold uuid_prefix, UUID_SIZE; destruct (include_user_id p); lia).
  rewrite (proj2 (checked_add_some USIZE_MAX _ _ _)) by (unfold USIZE_MAX, U64_MAX; split; [reflexivity|lia]).
  rewrite (proj2 (checked_add_some USIZE_MAX _ _ _)) by (unfold USIZE_MAX, U64_MAX; split; [reflexivity|lia]).
  cbn [ok_or mbind result_bind]. rewrite (proj2 (Z.ltb_ge _ _)) by lia. done.
Qed.

(** The body of a started frame, then the next boundary. *)
Lemma run_body user first uuid p content h :
  plan_ok p -> len content = content_length p -> (first && (uuid <? UUID_SIZE)) = false ->
  length h = 5%nat ->
  byte_run (settle_frame {| dec_user := user; first_frame := first; uuid_read := uuid; frame_header := h;
      header_read := HEADER_SIZE; content_remaining := content_length p;
      padding_remaining := padding_length p; frame_command := Some (plan_command p);
      mode := FramedMode; failed := false |})
    (content ++ replicate (Z.to_nat (padding_length p)) x00)
  = Ok (idle_decoder user false uuid (mode_after (plan_command p)), content).
Proof.
  intros (Hcl & Hpl & _) Hc Hpast Hh. unfold u16_range in *.
  set (d0 := {| dec_user := user |}). set (pad := replicate (Z.to_nat (padding_length p)) x00).
  assert (Hpadl : len pad = padding_length p) by (unfold pad; rewrite len_replicate; lia).
  set (d1 := set_remaining d0 0 (padding_length p) (Some (plan_command p))).
  assert (Hc1 : byte_run (settle_frame d0) content = Ok (settle_frame d1, content)).
  { destruct (decide (content = [])) as [->|Hne].
    - cbn in Hc. cbn. do 3 f_equal. unfold d1, d0, set_remaining. cbn. by rewrite <- Hc.
    - assert (0 < len content) by (destruct content; [done|slen]).
      change (content_length p) with (content_remaining d0) in Hc.
      rewrite settle_frame_open by (left; lia). rewrite run_content; [|split_and!; done|done|lia].
      cbn. rewrite Hc, Z.sub_diag. done. }
  assert (Hdone : settle_frame (set_remaining d0 0 0 (Some (plan_command p))) =
    idle_decoder user false uuid (mode_after (plan_command p))) by (destruct (plan_command p); reflexivity).
  assert (Hp1 : byte_run (settle_frame d1) pad = Ok (settle_frame (set_remaining d0 0 0 (Some (plan_command p))), [])).
  { destruct (decide (pad = [])) as [Hnil|Hne].
    - rewrite Hnil in Hpadl |- *. cbn in Hpadl. cbn. unfold d1. by rewrite <- Hpadl.
    - assert (0 < len pad) by (destruct pad; [done|slen]).
      change (padding_length p) with (padding_remaining d1) in Hpadl.
      rewrite settle_frame_open by (right; lia).
      rewrite run_padding; [|split_and!; done|done|done|lia].
      cbn. rewrite Hpadl, Z.sub_diag. done. }
  rewrite byte_run_app, Hc1. cbn [mbind result_bind]. rewrite Hp1, Hdone. cbn. by rewrite app_nil_r.
Qed.

(** A frame after the user id, from a decoder that expects a header. *)
Lemma run_frame_tail user first uuid p content :
  len user = UUID_SIZE -> 0 <= uuid <= UUID_SIZE -> (first && (uuid <? UUID_SIZE)) = false ->
  plan_ok p -> include_user_id p = first -> len content = content_length p ->
  byte_run (idle_decoder user first uuid FramedMode)
    ([command_byte (plan_command p)] ++ to_be 2 (content_length p) ++ to_be 2 (padding_length p) ++
     content ++ replicate (Z.to_nat (padding_length p)) x00)
  = Ok (idle_decoder user false uuid (mode_after (plan_command p)), content).
Proof.
  intros Hu Hr Hpast Hp Hi Hc.
  set (h := [command_byte (plan_command p)] ++ to_be 2 (content_length p) ++ to_be 2 (padding_length p)).
  replace ([command_byte (plan_command p)] ++ to_be 2 (content_length p) ++ to_be 2 (padding_length p) ++
     content ++ replicate (Z.to_nat (padding_length p)) x00)
    with (h ++ (content ++ replicate (Z.to_nat (padding_length p)) x00))
    by (unfold h; by rewrite <- !app_assoc).
  assert (Hhl : len h = HEADER_SIZE) by reflexivity.
  rewrite byte_run_app, run_header; [| by apply idle_decoder_wf | done | done | done | rewrite Hhl; done].
  rewrite Hhl. cbn [header_read idle_decoder Z.add]. rewrite Z.eqb_refl.
  assert (Hhw : header_written (idle_decoder user first uuid FramedMode) h =
    {| dec_user := user; first_frame := first; uuid_read := uuid; frame_header := h;
       header_read := HEADER_SIZE; content_remaining := 0; padding_remaining := 0;
       frame_command := None; mode := FramedMode; failed := false |}) by reflexivity.
  rewrite Hhw, (start_frame_plan _ p) by done. cbn [mbind result_bind]. unfold set_remaining. cbn.
  rewrite run_body by done. done.
Qed.

Lemma run_frame user p content :
  len user = UUID_SIZE -> plan_ok p -> len content = content_length p ->
  byte_run (idle_decoder user (include_user_id p) (if include_user_id p then 0 else UUID_SIZE) FramedMode)
    (frame_bytes user p content)
  = Ok (idle_decoder user false UUID_SIZE (mode_after (plan_command p)), content).
Proof.
  intros Hu Hp Hc. unfold frame_bytes. destruct (include_user_id p) eqn:Hi.
  - rewrite byte_run_app, run_uuid; [| by apply idle_decoder_wf | done | done | rewrite Hu; done].
    cbn [uuid_read idle_decoder dec_user]. change (drop (Z.to_nat 0) user) with user.
    rewrite firstn_all, bytes_eqb_refl. cbn [mbind result_bind].
    replace (set_uuid_read (idle_decoder user true 0 FramedMode) (0 + len user))
      with (idle_decoder user true UUID_SIZE FramedMode) by (rewrite Hu; reflexivity).
    rewrite run_frame_tail by (done || lia). done.
  - cbn [app]. apply (run_frame_tail user false UUID_SIZE p content); (done || lia).
Qed.

(** ** Planning *)

(** Planning draws padding and leaves the rest of the encoder alone. *)
Definition same_encoder (e e' : VisionEncoder) : Prop :=
  enc_user e' = enc_user e /\ enc_first_frame e' = enc_first_frame e /\ finished e' = finished e.

Lemma choose_padding_ok n long maximum e v e' :
  0 <= n -> 0 <= maximum ->
  choose_padding_length n long maximum e = Ok (v, e') -> 0 <= v <= maximum /\ same_encoder e e'.
Proof.
  intros Hn Hm. unfold choose_padding_length, mbind, M_bind, random_below.
  destruct (Z.ltb_spec n DEFAULT_LONG_PADDING_THRESHOLD), long; cbn [andb];
    (destruct (below (padding e) _) as [[x r]| |] eqn:Hb; [|done|done]);
    cbn; intros [= <- <-]; unfold same_encoder; cbn;
    apply below_in_range in Hb; unfold DEFAULT_LONG_PADDING_THRESHOLD, DEFAULT_LONG_PADDING_RANGE,
      DEFAULT_LONG_PADDING_TARGET, DEFAULT_SHORT_PADDING_RANGE in *; repeat split; (done || lia).
Qed.

(** What a successful plan for [n] content bytes guarantees. *)
Definition planned (e : VisionEncoder) (n : Z) (c : VisionCommand) (p : VisionFramePlan) : Prop :=
  plan_ok p /\ include_user_id p = enc_first_frame e /\ plan_command p = c /\ content_length p = n.

Lemma plan_capped_ok n c long maximum e p e' :
  0 <= n -> 0 <= maximum ->
  maximum + n + HEADER_SIZE + uuid_prefix (enc_first_frame e) <= VISION_FRAME_SIZE ->
  plan_capped n c long maximum e = Ok (p, e') ->
  planned e n c p /\ padding_length p <= maximum /\ same_encoder e e'.
Proof.
  intros Hn Hm Hfit. unfold plan_capped, mbind, M_bind, get_state.
  destruct (choose_padding_length n long maximum e) as [[v e1]| |] eqn:Hc; [|done|done].
  destruct (choose_padding_ok _ _ _ _ _ _ Hn Hm Hc) as [Hv (Hs1 & Hs2 & Hs3)].
  assert (Hpre : 0 <= uuid_prefix (enc_first_frame e))
    by (unfold uuid_prefix, UUID_SIZE; destruct (enc_first_frame e); lia).
  unfold VISION_FRAME_SIZE, HEADER_SIZE in *.
  rewrite !(proj2 (try_from_some U16_MAX _ _)) by (unfold U16_MAX; split; [reflexivity|lia]).
  cbn. intros [= <- <-]. unfold planned, plan_ok, wire_len, same_encoder. cbn.
  rewrite Hs2. unfold u16_range, U16_MAX, uuid_prefix, VISION_FRAME_SIZE, HEADER_SIZE in *.
  split_and!; (done || (destruct (enc_first_frame e); lia)).
Qed.

Lemma maximum_frame_padding_ok e n m :
  0 <= n -> maximum_frame_padding e n = Ok m ->
  finished e = false /\ 0 <= m /\ m + n + HEADER_SIZE + uuid_prefix (enc_first_frame e) = VISION_FRAME_SIZE.
Proof.
  intros Hn. unfold maximum_frame_padding. intros H. inv_ok H.
  apply orb_false_iff in Hstep0 as [?%Z.ltb_ge _]. lia || (split_and!; [done|lia|lia]).
Qed.

Lemma plan_frame_ok n c long e p e' :
  0 <= n -> plan_frame n c long e = Ok (p, e') ->
  planned e n c p /\ finished e = false /\ same_encoder e e'.
Proof.
  intros Hn. unfold plan_frame, mbind, M_bind, get_state, lift.
  destruct (maximum_frame_padding e n) as [m| |] eqn:Hm; [|done|done].
  destruct (maximum_frame_padding_ok _ _ _ Hn Hm) as (Hf & Hm0 & Hsum). intros Hp.
  destruct (plan_capped_ok n c long m e p e' Hn Hm0 ltac:(lia) Hp) as (? & _ & ?). done.
Qed.

Lemma plan_within_ok n c long budget e op e' :
  0 <= n -> plan_within n c long budget e = Ok (op, e') ->
  finished e = false /\ same_encoder e e' /\
  match op with
  | Some p => planned e n c p /\ wire_len p <= budget
  | None => budget < HEADER_SIZE + uuid_prefix (enc_first_frame e) + n
  end.
Proof.
  intros Hn. unfold plan_within, mbind at 1 2, M_bind at 1 2, get_state, lift.
  destruct (maximum_frame_padding e n) as [m| |] eqn:Hm; [|done|done].
  destruct (maximum_frame_padding_ok _ _ _ Hn Hm) as (Hf & Hm0 & Hsum).
  assert (Hpre : 0 <= uuid_prefix (enc_first_frame e))
    by (unfold uuid_prefix, UUID_SIZE; destruct (enc_first_frame e); lia).
  unfold mbind at 1, option_bind. unfold checked_sub.
  destruct (Z.leb_spec (HEADER_SIZE + uuid_prefix (enc_first_frame e)) budget);
    [destruct (Z.leb_spec n (budget - (HEADER_SIZE + uuid_prefix (enc_first_frame e))))|].
  - unfold mbind, M_bind. destruct (plan_capped _ _ _ _ e) as [[p e1]| |] eqn:Hp; [|done|done].
    intros [= <- <-].
    apply plan_capped_ok in Hp as (Hpl & Hpad & Hsame); [|lia|lia|lia].
    split_and!; try done. destruct Hpl as (_ & Hi & _ & Hcl). unfold wire_len.
    rewrite Hi, Hcl. fold (uuid_prefix (enc_first_frame e)). lia.
  - intros [= <- <-]. unfold HEADER_SIZE in *. split_and!; (done || lia).
  - intros [= <- <-]. unfold HEADER_SIZE in *. split_and!; (done || lia).
Qed.

Lemma encode_ok alloc content c long e out e' :
  len (enc_user e) = UUID_SIZE -> encode alloc content c long e = Ok (out, e') ->
  exists p, planned e (len content) c p /\ out = frame_bytes (enc_user e) p content /\
    finished e = false /\ enc_user e' = enc_user e /\ enc_first_frame e' = false /\
    finished e' = negb (bool_decide (c = Continue)).
Proof.
  intros Hu. unfold encode, mbind, M_bind.
  destruct (plan_frame (len content) c long e) as [[p e1]| |] eqn:Hp; [|done|done].
  destruct (plan_frame_ok _ _ _ _ _ _ (len_nonneg content) Hp) as (Hpl & Hf & Hs1 & Hs2 & Hs3).
  unfold return_if, lift. destruct (alloc (wire_len p)); cbn [negb reject_if get_state]; [|done].
  destruct Hpl as (Hok & Hi & Hcmd & Hcl). unfold assembled.
  pose proof (wire_len_nonneg p Hok) as Hw.
  rewrite assemble_frame; [| by rewrite Hs1 | done | done | rewrite len_replicate; lia].
  cbn. intros [= <- <-]. exists p. rewrite Hs1, Hcmd. unfold planned. cbn. rewrite ?Hs1. split_and!; done.
Qed.

(** ** Panic freedom: a source that does not panic is enough *)

Definition source_safe : Prop := forall (r : R) upper, no_panic (below r upper).

Section Safe.
Context (Hsafe : source_safe).

Lemma choose_padding_no_panic n long maximum e : no_panic (choose_padding_length n long maximum e).
Proof.
  assert (Hr : forall upper e, no_panic (random_below upper e)).
  { intros upper e0. unfold random_below. specialize (Hsafe (padding e0) upper).
    by destruct (below (padding e0) upper) as [[]| |]. }
  unfold choose_padding_length. apply no_panic_M_bind; [|done]. destruct (_ && _); [|apply Hr].
  by apply no_panic_M_bind.
Qed.

Lemma plan_capped_no_panic n c long maximum e : no_panic (plan_capped n c long maximum e).
Proof.
  unfold plan_capped. apply no_panic_M_bind; [apply choose_padding_no_panic|]. intros v e1 _.
  unfold mbind, M_bind, get_state, lift. by destruct (try_from _ _), (try_from _ _).
Qed.

Lemma maximum_frame_padding_no_panic e n : no_panic (maximum_frame_padding e n).
Proof. unfold maximum_frame_padding. apply no_panic_guard. intros _. by apply no_panic_guard. Qed.

Lemma plan_frame_no_panic n c long e : no_panic (plan_frame n c long e).
Proof.
  unfold plan_frame, mbind, M_bind, get_state, lift. pose proof (maximum_frame_padding_no_panic e n).
  destruct (maximum_frame_padding e n); [apply plan_capped_no_panic|done|done].
Qed.

Lemma plan_within_no_panic n c long budget e : no_panic (plan_within n c long budget e).
Proof.
  unfold plan_within, mbind at 1 2, M_bind at 1 2, get_state, lift. pose proof (maximum_frame_padding_no_panic e n).
  destruct (maximum_frame_padding e n); [|done|done]. destruct (mbind _ _); [|done].
  by apply no_panic_M_bind; [apply plan_capped_no_panic|].
Qed.
End Safe.

(** ** Totality: with a source that always answers, nothing else can fail *)

Definition source_total : Prop := forall (r : R) upper, exists v r', below r upper = Ok (v, r').

(** The largest content of one frame. *)
Definition maximum_content (first : bool) : Z := VISION_FRAME_SIZE - HEADER_SIZE - uuid_prefix first.

Section Total.
Context (Hsource : source_total).

Lemma choose_padding_total n long maximum e :
  exists v e', choose_padding_length n long maximum e = Ok (v, e').
Proof.
  unfold choose_padding_length, mbind, M_bind, random_below.
  destruct (_ && _);
    (edestruct (Hsource (padding e)) as (v & r' & ->)); do 2 eexists; reflexivity.
Qed.

Lemma plan_capped_total n c long maximum e :
  0 <= n -> 0 <= maximum ->
  maximum + n + HEADER_SIZE + uuid_prefix (enc_first_frame e) <= VISION_FRAME_SIZE ->
  exists p e', plan_capped n c long maximum e = Ok (p, e').
Proof.
  intros Hn Hm Hfit. unfold plan_capped, mbind, M_bind, get_state.
  destruct (choose_padding_total n long maximum e) as (v & e1 & Hc). rewrite Hc.
  destruct (choose_padding_ok _ _ _ _ _ _ Hn Hm Hc) as [Hv _].
  assert (0 <= uuid_prefix (enc_first_frame e))
    by (unfold uuid_prefix, UUID_SIZE; destruct (enc_first_frame e); lia).
  unfold VISION_FRAME_SIZE, HEADER_SIZE in *.
  rewrite !(proj2 (try_from_some U16_MAX _ _)) by (unfold U16_MAX; split; [reflexivity|lia]).
  do 2 eexists. reflexivity.
Qed.

Lemma maximum_frame_padding_total e n :
  finished e = false -> 0 <= n <= maximum_content (enc_first_frame e) ->
  exists m, maximum_frame_padding e n = Ok m.
Proof.
  intros Hf Hn. unfold maximum_frame_padding. rewrite Hf. cbn.
  assert (0 <= uuid_prefix (enc_first_frame e))
    by (unfold uuid_prefix, UUID_SIZE; destruct (enc_first_frame e); lia).
  unfold maximum_content, U16_MAX, VISION_FRAME_SIZE, HEADER_SIZE in *.
  rewrite !(proj2 (Z.ltb_ge _ _)) by lia. by eexists.
Qed.

Lemma plan_frame_total n c long e :
  finished e = false -> 0 <= n <= maximum_content (enc_first_frame e) ->
  exists p e', plan_frame n c long e = Ok (p, e').
Proof.
  intros Hf Hn. unfold plan_frame, mbind, M_bind, get_state, lift.
  destruct (maximum_frame_padding_total e n Hf Hn) as [m Hm]. rewrite Hm.
  destruct (maximum_frame_padding_ok _ _ _ (proj1 Hn) Hm) as (_ & ? & ?). apply plan_capped_total; lia.
Qed.

Lemma plan_within_total n c long budget e :
  finished e = false -> 0 <= n <= maximum_content (enc_first_frame e) ->
  exists op e', plan_within n c long budget e = Ok (op, e').
Proof.
  intros Hf Hn. unfold plan_within, mbind at 1 2, M_bind at 1 2, get_state, lift.
  destruct (maximum_frame_padding_total e n Hf Hn) as [m Hm]. rewrite Hm.
  destruct (maximum_frame_padding_ok _ _ _ (proj1 Hn) Hm) as (_ & Hm0 & Hsum).
  unfold mbind at 1, option_bind. unfold checked_sub.
  destruct (Z.leb_spec (HEADER_SIZE + uuid_prefix (enc_first_frame e)) budget);
    [destruct (Z.leb_spec n (budget - (HEADER_SIZE + uuid_prefix (enc_first_frame e))))|];
    [|do 2 eexists; reflexivity|do 2 eexists; reflexivity].
  destruct (plan_capped_total n c long
    (Z.min m (budget - (HEADER_SIZE + uuid_prefix (enc_first_frame e)) - n)) e ltac:(lia) ltac:(lia) ltac:(lia))
    as (p & e' & Hp).
  unfold mbind, M_bind. rewrite Hp. do 2 eexists. reflexivity.
Qed.

Lemma encode_total alloc content c long e :
  (forall n, alloc n = true) -> len (enc_user e) = UUID_SIZE ->
  finished e = false -> len content <= maximum_content (enc_first_frame e) ->
  exists out e', encode alloc content c long e = Ok (out, e').
Proof.
  intros Ha Hu Hf Hn. unfold encode, mbind, M_bind.
  destruct (plan_frame_total (len content) c long e Hf) as (p & e1 & Hp); [slen|]. rewrite Hp.
  destruct (plan_frame_ok _ _ _ _ _ _ (len_nonneg content) Hp) as ((Hok & Hi & Hcmd & Hcl) & _ & Hs1 & _).
  unfold return_if, lift. rewrite Ha. cbn [negb reject_if get_state]. unfold assembled.
  pose proof (wire_len_nonneg p Hok).
  rewrite assemble_frame; [| by rewrite Hs1 | done | done | rewrite len_replicate; lia].
  do 2 eexists. reflexivity.
Qed.
End Total.

(** ** Sequences of frames *)

Definition Call := (list byte * VisionCommand * bool)%type.

Fixpoint encode_all (alloc : Z -> bool) (calls : list Call) : encoder (list (list byte)) :=
  match calls with
  | [] => mret []
  | (content, command, long_padding) :: calls =>
    frame ← encode alloc content command long_padding;
    frames ← encode_all alloc calls;
    mret (frame :: frames)
  end.

Definition contents (calls : list Call) : list byte := concat (map (fun '(c, _, _) => c) calls).

Definition last_mode (calls : list Call) : VisionMode :=
  match last calls with Some (_, c, _) => mode_after c | None => FramedMode end.

Lemma encode_all_finished alloc calls e frames e' :
  finished e = true -> encode_all alloc calls e = Ok (frames, e') -> calls = [].
Proof.
  intros Hf. destruct calls as [|[[content c] long] calls]; [done|]. cbn.
  unfold encode, plan_frame, mbind, M_bind, get_state, lift, maximum_frame_padding. rewrite Hf. done.
Qed.

Lemma encode_all_decodes alloc calls : forall e frames e',
  len (enc_user e) = UUID_SIZE -> encode_all alloc calls e = Ok (frames, e') ->
  byte_run (idle_decoder (enc_user e) (enc_first_frame e) (if enc_first_frame e then 0 else UUID_SIZE) FramedMode)
    (concat frames)
  = Ok (match calls with
        | [] => idle_decoder (enc_user e) (enc_first_frame e) (if enc_first_frame e then 0 else UUID_SIZE) FramedMode
        | _ => idle_decoder (enc_user e) false UUID_SIZE (last_mode calls)
        end, contents calls).
Proof.
  induction calls as [|[[content c] long] calls IH]; intros e frames e' Hu; cbn [encode_all].
  - intros [= <- <-]. done.
  - unfold mbind, M_bind.
    destruct (encode alloc content c long e) as [[out e1]| |] eqn:He; [|done|done].
    destruct (encode_all alloc calls e1) as [[fs e2]| |] eqn:Ha; [|done|done].
    intros [= <- <-]. cbn [concat].
    destruct (encode_ok _ _ _ _ _ _ _ Hu He) as (p & (Hok & Hi & Hcmd & Hcl) & -> & Hf & Hu1 & Hf1 & Hfin1).
    rewrite byte_run_app, <- Hi, run_frame by done. cbn [mbind result_bind]. rewrite Hcmd.
    destruct calls as [|call calls].
    + cbn in Ha. injection Ha as <- <-. cbn. unfold contents. cbn. rewrite app_nil_r. done.
    + assert (Hc : c = Continue).
      { destruct (decide (c = Continue)) as [|Hn]; [done|]. rewrite bool_decide_false in Hfin1 by done.
        by apply (encode_all_finished _ _ _ _ _ Hfin1) in Ha. }
      rewrite Hc. cbn [mode_after]. specialize (IH e1 fs e2 ltac:(congruence) Ha).
      rewrite Hu1, Hf1 in IH. rewrite IH. cbn. unfold contents. cbn. done.
Qed.

(** The calls an encoder can serve: contents that fit a frame, and nothing after a
    command that ends the padding. *)
Fixpoint calls_ok (first : bool) (calls : list Call) : Prop :=
  match calls with
  | [] => True
  | (content, command, _) :: calls =>
    len content <= maximum_content first /\ (calls <> [] -> command = Continue) /\ calls_ok false calls
  end.

Lemma encode_all_total alloc calls : source_total -> (forall n, alloc n = true) ->
  forall e, len (enc_user e) = UUID_SIZE -> (calls <> [] -> finished e = false) ->
  calls_ok (enc_first_frame e) calls -> exists frames e', encode_all alloc calls e = Ok (frames, e').
Proof.
  intros Hsrc Ha. induction calls as [|[[content c] long] calls IH]; intros e Hu Hf Hok; cbn [encode_all].
  - do 2 eexists. reflexivity.
  - destruct Hok as (Hlen & Hc & Hok). unfold mbind, M_bind.
    destruct (encode_total Hsrc alloc content c long e Ha Hu (Hf ltac:(done)) Hlen) as (out & e1 & He).
    rewrite He. destruct (encode_ok _ _ _ _ _ _ _ Hu He) as (p & _ & _ & _ & Hu1 & Hf1 & Hfin).
    destruct (IH e1) as (frames & e' & Hall).
    + congruence.
    + intros Hne. rewrite Hfin, (Hc Hne). done.
    + by rewrite Hf1.
    + rewrite Hall. do 2 eexists. reflexivity.
Qed.
End Encoder.

(** Vision frames round-trip. With an entropy source that answers, the encoder
    serves every sequence of calls whose contents fit a frame and of which only the
    last ends the padding; and whatever sequence it accepted (with whatever padding
    it drew), a fresh decoder of the same user recovers exactly the concatenated
    contents and the mode the last command selects, however the wire bytes are
    fragmented, and bytes after an [End] or [Direct] frame pass through verbatim. *)
Theorem vision_encode_decode {R : Type} {source : PaddingSource R} (alloc : Z -> bool)
    (user : UserId) (r : R) (calls : list Call) :
  len user = UUID_SIZE -> (forall n, alloc n = true) -> calls <> [] ->
  (source_total -> calls_ok true calls ->
     exists frames e', encode_all alloc calls (new_encoder user r) = Ok (frames, e')) /\
  forall frames e' fragments tail,
    encode_all alloc calls (new_encoder user r) = Ok (frames, e') ->
    concat fragments = concat frames ++ tail ->
    (last_mode calls = FramedMode -> tail = []) ->
    exists d, feed alloc (new_decoder user) fragments []
      = (Ok (last_mode calls), (d, contents calls ++ tail)).
Proof.
  intros Hu Ha Hne. split; [intros; by apply encode_all_total|]. intros frames e' fragments tail Henc Hcat Htail.
  pose proof (encode_all_decodes alloc calls (new_encoder user r) frames e' Hu Henc) as Hrun.
  pose proof (feed_agrees alloc Ha fragments (new_decoder user) [] (new_decoder_ready user Hu)) as Hfeed.
  rewrite Hcat, byte_run_app in Hfeed. cbn [enc_user enc_first_frame new_encoder] in Hrun.
  change (idle_decoder user true 0 FramedMode) with (new_decoder user) in Hrun.
  rewrite Hrun in Hfeed. cbn [mbind result_bind] in Hfeed.
  destruct calls as [|call calls]; [done|].
  assert (Ht : byte_run (idle_decoder user false UUID_SIZE (last_mode (call :: calls))) tail
    = Ok (idle_decoder user false UUID_SIZE (last_mode (call :: calls)), tail)).
  { destruct (decide (last_mode (call :: calls) = FramedMode)) as [Hm|Hm].
    - rewrite (Htail Hm). done.
    - by apply byte_run_raw. }
  rewrite Ht in Hfeed. cbn [mbind result_bind] in Hfeed. destruct Hfeed as [-> _]. eauto.
Qed.

(** A source that always answers zero. *)
#[export] Instance zero_source : PaddingSource unit.
Proof.
  refine {| below := fun r upper => Ok (0, r) |}. intros r upper v r' Hu [= <- <-]. lia.
Defined.

Definition example_calls : list Call := [([x01; x02], Continue, false); ([x03], Direct, false)].

Definition example_frames : list (list byte) :=
  match encode_all (fun _ => true) example_calls (new_encoder (replicate 16 x07) tt) with
  | Ok (frames, _) => frames
  | _ => []
  end.
