(* ===== verification/VisionWrite.v ===== *)
(** * Packing Vision frames into outer TLS records

    [write_vision_content] and [write_vision_frame] of
    src/server/vision/framing.rs: content is cut into chunks, each chunk is one
    complete frame, and as many frames as fit are assembled into one record. *)

From S2P Require Import Prelude Cursor VlessRequest Vision Padding VisionEncode.

Definition VISION_HEADER_SIZE : Z := 5.
Definition MAX_VISION_CONTENT_AFTER_FIRST_FRAME : Z := VISION_FRAME_SIZE - VISION_HEADER_SIZE.
Definition MAX_FRAMES_PER_OUTER_RECORD : nat := 4.
(** [MAX_PLAINTEXT_LEN] of src/protocol/reality/tls13/record.rs. *)
Definition MAX_PLAINTEXT_LEN : Z := Z.shiftl 1 14.

Inductive VisionSessionError := SessionVisionEncode (e : VisionEncodeError) | SessionTls.

Section Write.
Context {R : Type} {source : PaddingSource R}.

(** [write_assembled] hands the closure a plaintext region of the record buffer
    ([region n] has [n] bytes of any content) and writes the record; [sent k]
    tells whether the [k]-th write succeeds. *)
Context (region : Z -> list byte) (sent : nat -> bool).

Definition map_encode {A} (m : result VisionEncodeError A) : result VisionSessionError A :=
  map_err SessionVisionEncode m.

Definition write_vision_frame (content : list byte) (command : VisionCommand) (long_padding : bool)
    (e : @VisionEncoder R) (k : nat) : result VisionSessionError (list (list byte) * @VisionEncoder R) :=
  '(plan, e) ← map_encode (plan_frame (len content) command long_padding e);
  record ← map_encode (assembled (enc_user e) plan content (region (wire_len plan)));
  guard! negb (sent k) else SessionTls;
  '(_, e) ← map_encode (commit plan e);
  Ok ([record], e).

(** One planned frame and the content range it carries. *)
Definition Slot := (VisionFramePlan * (Z * Z))%type.

(** The inner planning loop, from chunk [index] on with [slots] places left. *)
Fixpoint pack (slots : nat) (content : list byte) (final_command : VisionCommand)
    (long_padding : bool) (chunk_count index wire : Z) : @encoder R (list Slot * Z) :=
  match slots with
  | O => mret ([], wire)
  | S slots =>
    if index <? chunk_count then
      let start := index * MAX_VISION_CONTENT_AFTER_FIRST_FRAME in
      let stop := Z.min (len content) (start + MAX_VISION_CONTENT_AFTER_FIRST_FRAME) in
      let command := if index + 1 =? chunk_count then final_command else Continue in
      planned ← plan_within (stop - start) command long_padding (MAX_PLAINTEXT_LEN - wire);
      match planned with
      | None => mret ([], wire)
      | Some plan =>
        '(rest, wire) ← pack slots content final_command long_padding chunk_count (index + 1)
                          (Z.min USIZE_MAX (wire + wire_len plan));
        mret ((plan, (start, stop)) :: rest, wire)
      end
    else mret ([], wire)
  end.

(** The assembly closure. *)
Fixpoint assemble_slots (user : UserId) (content : list byte) (items : list Slot) (cursor : Z)
    (destination : list byte) : result VisionEncodeError (list byte) :=
  match items with
  | [] => Ok destination
  | (plan, (start, stop)) :: items =>
    match get_range destination cursor (cursor + wire_len plan), get_range content start stop with
    | Some frame, Some chunk =>
      frame ← assembled user plan chunk frame;
      assemble_slots user content items (cursor + wire_len plan)
        (take (Z.to_nat cursor) destination ++ frame ++
         drop (Z.to_nat (cursor + wire_len plan)) destination)
    | _, _ => Ok destination
    end
  end.

Fixpoint commit_all (items : list Slot) (e : @VisionEncoder R) : @VisionEncoder R :=
  match items with
  | [] => e
  | (plan, _) :: items =>
    match commit plan e with Ok (_, e) => commit_all items e | _ => e end
  end.

(** The outer loop; out of fuel is [Panic]. *)
Fixpoint write_loop_records (fuel : nat) (content : list byte) (final_command : VisionCommand)
    (long_padding : bool) (chunk_count index : Z) (e : @VisionEncoder R) (k : nat)
    : result VisionSessionError (list (list byte) * @VisionEncoder R) :=
  if index <? chunk_count then
    match fuel with
    | O => Panic
    | S fuel =>
      '(packed, e) ← map_encode
        (pack MAX_FRAMES_PER_OUTER_RECORD content final_command long_padding chunk_count index 0 e);
      let '(items, wire) := packed in
      record ← map_encode (assemble_slots (enc_user e) content items 0 (region wire));
      guard! negb (sent k) else SessionTls;
      '(records, e) ← write_loop_records fuel content final_command long_padding chunk_count
                        (index + len items) (commit_all items e) (S k);
      Ok (record :: records, e)
    end
  else Ok ([], e).

Definition write_vision_content (content : list byte) (final_command : VisionCommand)
    (long_padding : bool) (e : @VisionEncoder R) (k : nat)
    : result VisionSessionError (list (list byte) * @VisionEncoder R) :=
  if len content =? 0 then write_vision_frame [] final_command long_padding e k
  else
    let chunk_count := div_ceil (len content) MAX_VISION_CONTENT_AFTER_FIRST_FRAME in
    write_loop_records (Z.to_nat chunk_count) content final_command long_padding chunk_count 0 e k.

(** ** Lemmas *)

Context (Hregion : forall n, 0 <= n -> len (region n) = n).

Notation CHUNK := MAX_VISION_CONTENT_AFTER_FIRST_FRAME.

Lemma CHUNK_eq : CHUNK = 8187.
Proof. reflexivity. Qed.

Lemma MAX_PLAINTEXT_eq : MAX_PLAINTEXT_LEN = 16384.
Proof. reflexivity. Qed.

(** The [i]-th chunk of the content and its command. *)
Definition chunk (content : list byte) (i : Z) : list byte :=
  take (Z.to_nat CHUNK) (drop (Z.to_nat (i * CHUNK)) content).

Definition chunk_command (final : VisionCommand) (count i : Z) : VisionCommand :=
  if i + 1 =? count then final else Continue.

(** Consecutive chunks from [i] on, each planned for its own content. *)
Fixpoint slots_ok (content : list byte) (final : VisionCommand) (count i : Z) (items : list Slot) : Prop :=
  match items with
  | [] => True
  | (p, (start, stop)) :: items =>
    0 <= i < count /\ get_range content start stop = Some (chunk content i) /\
    plan_ok p /\ include_user_id p = false /\ plan_command p = chunk_command final count i /\
    content_length p = len (chunk content i) /\
    slots_ok content final count (i + 1) items
  end.

Definition slots_wire (items : list Slot) : Z := foldr (fun '(p, _) w => wire_len p + w) 0 items.

Lemma slots_wire_nonneg content final count items : forall i,
  slots_ok content final count i items -> 0 <= slots_wire items.
Proof.
  induction items as [|[q [a b]] items IH]; intros i Hok; [done|].
  destruct Hok as (_ & _ & Hp & _ & _ & _ & Hrest). specialize (IH _ Hrest).
  pose proof (wire_len_nonneg q Hp). unfold slots_wire. cbn [foldr]. fold (slots_wire items). lia.
Qed.

(** The chunks make up the content. *)
Definition count_ok (content : list byte) (count : Z) : Prop :=
  0 < len content /\ count = div_ceil (len content) CHUNK.

Lemma count_bounds content count :
  count_ok content count -> 0 < count /\ (count - 1) * CHUNK < len content <= count * CHUNK.
Proof.
  intros [Hl ->]. unfold div_ceil. rewrite CHUNK_eq.
  pose proof (Z.div_mod (len content + 8187 - 1) 8187 ltac:(lia)).
  pose proof (Z.mod_pos_bound (len content + 8187 - 1) 8187 ltac:(lia)). lia.
Qed.

Lemma chunk_range content count i :
  count_ok content count -> 0 <= i < count ->
  get_range content (i * CHUNK) (Z.min (len content) (i * CHUNK + CHUNK)) = Some (chunk content i) /\
  len (chunk content i) = Z.min (len content) (i * CHUNK + CHUNK) - i * CHUNK /\
  0 < len (chunk content i) <= CHUNK.
Proof.
  intros Hc Hi. destruct (count_bounds _ _ Hc) as [_ Hb]. rewrite CHUNK_eq in *.
  assert (Hlen : len (chunk content i) = Z.min (len content) (i * 8187 + 8187) - i * 8187)
    by (unfold chunk; rewrite CHUNK_eq; autorewrite with lens; lia).
  split_and!; [|done|lia|lia].
  rewrite get_range_some by lia. unfold chunk. rewrite CHUNK_eq. f_equal.
  set (d := drop (Z.to_nat (i * 8187)) content).
  assert (Hd : len d = len content - i * 8187) by (unfold d; rewrite len_drop; lia).
  destruct (Z.le_gt_cases (len content) (i * 8187 + 8187)).
  - rewrite !take_ge; [done | unfold len in *; lia | unfold len in *; lia].
  - f_equal. lia.
Qed.

Lemma chunk_drop content i : 0 <= i ->
  drop (Z.to_nat (i * CHUNK)) content = chunk content i ++ drop (Z.to_nat ((i + 1) * CHUNK)) content.
Proof.
  intros Hi. unfold chunk.
  rewrite <- (take_drop (Z.to_nat CHUNK) (drop (Z.to_nat (i * CHUNK)) content)) at 1.
  f_equal. rewrite drop_drop. f_equal. rewrite CHUNK_eq. lia.
Qed.

(** An encoder past its first frame and still framing. *)
Definition mid_stream (user : UserId) (e : @VisionEncoder R) : Prop :=
  enc_user e = user /\ enc_first_frame e = false.

Lemma pack_ok slots content final long count user : count_ok content count ->
  forall i w e items w' e', 0 <= i -> 0 <= w <= MAX_PLAINTEXT_LEN -> mid_stream user e ->
  pack slots content final long count i w e = Ok ((items, w'), e') ->
  slots_ok content final count i items /\ w' = w + slots_wire items /\ w' <= MAX_PLAINTEXT_LEN /\
  mid_stream user e' /\ i + len items <= Z.max i count /\
  (slots <> O -> i < count -> w = 0 -> items <> []).
Proof.
  intros Hcount. pose proof MAX_PLAINTEXT_eq as Hmp. induction slots as [|slots IH]; intros i w e items w' e' Hi Hw Hmid; cbn [pack].
  - intros [= <- <- <-]. unfold slots_wire; cbn [slots_ok foldr]; unfold len at 1; cbn [length Z.of_nat]. split_and!; (done || lia).
  - destruct (Z.ltb_spec i count) as [Hlt|Hge].
    2: { intros [= <- <- <-]. unfold slots_wire; cbn [slots_ok foldr]; unfold len at 1; cbn [length Z.of_nat]. split_and!; try done; lia. }
    destruct (chunk_range content count i Hcount ltac:(lia)) as (Hrange & Hlen & Hpos).
    rewrite <- Hlen. unfold mbind at 1, M_bind at 1.
    destruct (plan_within _ _ _ _ e) as [[op e1]| |] eqn:Hp; [|done|done].
    apply plan_within_ok in Hp as (Hf & (Hs1 & Hs2 & Hs3) & Hop); [|lia].
    destruct Hmid as [Hu Hff]. rewrite Hff in Hop. assert (Hmid1 : mid_stream user e1) by (split; congruence).
    destruct op as [p|].
    + destruct Hop as [(Hok & Hinc & Hcmd & Hcl) Hwire].
      pose proof (wire_len_nonneg p Hok) as Hw0.
      rewrite (Z.min_r USIZE_MAX) by (unfold USIZE_MAX, U64_MAX; lia).
      unfold mbind at 1, M_bind at 1.
      destruct (pack slots _ _ _ _ _ _ e1) as [[[rest w1] e2]| |] eqn:Hrec; [|done|done].
      intros [= <- <- <-].
      apply IH in Hrec as (Hsl & -> & Hle & Hmid2 & Hcnt & _); [|lia|lia|done].
      unfold slots_wire; cbn [slots_ok foldr]; fold (slots_wire rest). rewrite len_cons. unfold chunk_command. rewrite Hff in Hinc. split_and!; (done || lia).
    + intros [= <- <- <-]. unfold slots_wire; cbn [slots_ok foldr]; unfold len at 1; cbn [length Z.of_nat]. split_and!; try done; try lia.
      intros _ _ ->. exfalso. unfold HEADER_SIZE, uuid_prefix in *.
      rewrite CHUNK_eq in *. lia.
Qed.

(** The frames of a packed record. *)
Definition slots_frames (user : UserId) (content : list byte) (i : Z) (items : list Slot) : list (list byte) :=
  imap (fun j '(p, _) => frame_bytes user p (chunk content (i + Z.of_nat j))) items.

Lemma slots_frames_cons user content i p r items :
  slots_frames user content i ((p, r) :: items) =
    frame_bytes user p (chunk content i) :: slots_frames user content (i + 1) items.
Proof.
  unfold slots_frames. cbn. f_equal; [do 2 f_equal; lia|].
  apply imap_ext. intros j [q s] _. cbn. do 2 f_equal. lia.
Qed.

Lemma assemble_slots_spec user content final count items : forall i pre dest,
  len user = UUID_SIZE -> slots_ok content final count i items -> len dest = slots_wire items ->
  assemble_slots user content items (len pre) (pre ++ dest) =
    Ok (pre ++ concat (slots_frames user content i items)).
Proof.
  induction items as [|[p [start stop]] items IH]; intros i pre dest Hu Hok Hl.
  - cbn in *. assert (dest = []) as -> by (destruct dest; [done|slen]). done.
  - cbn [slots_ok] in Hok. destruct Hok as (Hi & Hr & Hp & Hinc & Hcmd & Hcl & Hrest).
    unfold slots_wire in Hl. cbn [foldr] in Hl. fold (slots_wire items) in Hl.
    pose proof (wire_len_nonneg p Hp) as Hw.
    pose proof (slots_wire_nonneg _ _ _ _ _ Hrest) as Hsw.
    cbn [assemble_slots]. rewrite Hr. rewrite get_range_app_r by lia.
    replace (len pre - len pre) with 0 by lia.
    replace (len pre + wire_len p - len pre) with (wire_len p) by lia.
    rewrite get_range_some by lia. rewrite Z.sub_0_r. cbn [Z.to_nat drop].
    unfold assembled. rewrite assemble_frame; [|done|done|done|].
    2: { rewrite len_take, len_drop. lia. }
    cbn [mbind result_bind]. set (f := frame_bytes user p (chunk content i)).
    assert (Hfl : len f = wire_len p) by (apply len_frame; [done|done|apply Hp]).
    replace (take (Z.to_nat (len pre)) (pre ++ dest)) with pre
      by (unfold len; rewrite Nat2Z.id, take_app_length; done).
    replace (drop (Z.to_nat (len pre + wire_len p)) (pre ++ dest)) with (drop (Z.to_nat (wire_len p)) dest).
    2: { replace (Z.to_nat (len pre + wire_len p)) with (length pre + Z.to_nat (wire_len p))%nat
           by (unfold len; lia). rewrite <- drop_drop, drop_app_length. done. }
    replace (len pre + wire_len p) with (len (pre ++ f)) by (rewrite len_app; lia).
    rewrite app_assoc, (IH (i + 1)); [|done|done|rewrite len_drop; lia].
    rewrite slots_frames_cons. cbn. by rewrite <- app_assoc.
Qed.

(** The mode after the chunks before [i]. *)
Definition mode_at (final : VisionCommand) (count i : Z) : VisionMode :=
  if i =? count then mode_after final else FramedMode.

Lemma run_slots user content final count items : forall i,
  len user = UUID_SIZE -> slots_ok content final count i items -> 0 <= i -> i + len items <= count ->
  (items = [] -> i < count) ->
  byte_run (idle_decoder user false UUID_SIZE FramedMode) (concat (slots_frames user content i items))
  = Ok (idle_decoder user false UUID_SIZE (mode_at final count (i + len items)),
        take (Z.to_nat (len items * CHUNK)) (drop (Z.to_nat (i * CHUNK)) content)).
Proof.
  induction items as [|[p [start stop]] items IH]; intros i Hu Hok Hi Hle Hne.
  - cbn. rewrite len_nil, Z.add_0_r. unfold mode_at. specialize (Hne eq_refl).
    rewrite (proj2 (Z.eqb_neq _ _)) by lia. done.
  - rewrite slots_frames_cons. cbn [slots_ok] in Hok.
    destruct Hok as (Hic & Hr & Hp & Hinc & Hcmd & Hcl & Hrest). cbn [concat].
    pose proof (run_frame user p (chunk content i) Hu Hp (eq_sym Hcl)) as Hrun. rewrite Hinc in Hrun.
    rewrite byte_run_app, Hrun. cbn [mbind result_bind]. rewrite Hcmd. rewrite len_cons in Hle |- *.
    assert (Hchunk : take (Z.to_nat ((1 + len items) * CHUNK)) (drop (Z.to_nat (i * CHUNK)) content) =
      chunk content i ++ take (Z.to_nat (len items * CHUNK)) (drop (Z.to_nat ((i + 1) * CHUNK)) content)).
    { pose proof (len_nonneg items). rewrite CHUNK_eq in *.
      replace (Z.to_nat ((1 + len items) * 8187)) with (Z.to_nat 8187 + Z.to_nat (len items * 8187))%nat by lia.
      rewrite <- take_take_drop. unfold chunk. rewrite CHUNK_eq, drop_drop. do 3 f_equal. lia. }
    rewrite Hchunk. unfold chunk_command. destruct (Z.eqb_spec (i + 1) count) as [Hlast|Hmore].
    + assert (items = []) as -> by (destruct items; [done|rewrite len_cons in Hle; pose proof (len_nonneg items); lia]).
      cbn. unfold mode_at. rewrite len_nil. replace (i + (1 + 0)) with count by lia. rewrite Z.eqb_refl. done.
    + cbn [mode_after]. rewrite IH; [|done|done|lia|lia|intros _; lia]. cbn [mbind result_bind].
      do 3 f_equal. f_equal. lia.
Qed.

Lemma commit_all_mid user items : forall e, mid_stream user e -> mid_stream user (commit_all items e).
Proof.
  induction items as [|[p r] items IH]; intros e He; [done|]. cbn. apply IH. split; [apply He | done].
Qed.

(** One iteration of the outer loop: the record it writes and where it leaves off. *)
Lemma record_decodes user content final long count i e items w e1 record :
  len user = UUID_SIZE -> count_ok content count -> 0 <= i < count -> mid_stream user e ->
  pack MAX_FRAMES_PER_OUTER_RECORD content final long count i 0 e = Ok ((items, w), e1) ->
  assemble_slots (enc_user e1) content items 0 (region w) = Ok record ->
  0 < len items /\ i + len items <= count /\ mid_stream user e1 /\
  len record <= MAX_PLAINTEXT_LEN /\
  byte_run (idle_decoder user false UUID_SIZE FramedMode) record
  = Ok (idle_decoder user false UUID_SIZE (mode_at final count (i + len items)),
        take (Z.to_nat (len items * CHUNK)) (drop (Z.to_nat (i * CHUNK)) content)).
Proof.
  intros Hu Hcount Hi Hmid Hpack Hasm.
  apply (pack_ok _ _ _ _ _ user) in Hpack as (Hsl & -> & Hle & Hmid1 & Hcnt & Hne);
    [|done|lia|rewrite MAX_PLAINTEXT_eq; lia|done].
  specialize (Hne ltac:(done) ltac:(lia) eq_refl). rewrite Z.add_0_l in *.
  assert (0 < len items) by (destruct items; [done|slen]).
  pose proof (slots_wire_nonneg _ _ _ _ _ Hsl) as Hw0.
  destruct Hmid1 as [Hu1 Hf1]. rewrite Hu1 in Hasm.
  rewrite <- (app_nil_l (region _)) in Hasm. change 0 with (len (@nil byte)) in Hasm at 1.
  rewrite (assemble_slots_spec user content final count items i []) in Hasm by (done || by apply Hregion).
  injection Hasm as <-. split_and!; try done; try lia.
  - assert (Hlen : forall items i, slots_ok content final count i items ->
      len (concat (slots_frames user content i items)) = slots_wire items).
    { clear - Hu. induction items as [|[q [a b]] items IH]; intros i Hok; [done|].
      destruct Hok as (_ & _ & Hp & _ & _ & Hcl & Hrest). rewrite slots_frames_cons. cbn [concat].
      rewrite len_app, (IH (i + 1)), len_frame by (done || apply Hp).
      unfold slots_wire. cbn [foldr]. lia. }
    cbn [app]. rewrite Hlen by done. done.
  - cbn [app]. apply run_slots; (done || lia).
Qed.

Lemma write_loop_decodes user content final long count : len user = UUID_SIZE -> count_ok content count ->
  forall fuel i e k records e', 0 <= i < count -> mid_stream user e ->
  write_loop_records fuel content final long count i e k = Ok (records, e') ->
  Forall (fun r => len r <= MAX_PLAINTEXT_LEN) records /\
  byte_run (idle_decoder user false UUID_SIZE FramedMode) (concat records)
  = Ok (idle_decoder user false UUID_SIZE (mode_after final), drop (Z.to_nat (i * CHUNK)) content).
Proof.
  intros Hu Hcount. induction fuel as [|fuel IH]; intros i e k records e' Hi Hmid; cbn [write_loop_records];
    rewrite (proj2 (Z.ltb_lt i count)) by lia; [done|].
  intros H. inv_ok H. destruct x as [[items w] e1]. cbn zeta in H. inv_ok H.
  destruct x1 as [rs e2]. injection H as <- <-. apply map_err_ok in Hstep, Hstep0.
  destruct (record_decodes _ _ _ _ _ _ _ _ _ _ _ Hu Hcount Hi Hmid Hstep Hstep0)
    as (Hpos & Hle & Hmid1 & Hlen & Hrun).
  cbn [concat]. rewrite byte_run_app, Hrun. cbn [mbind result_bind].
  destruct (Z.eqb_spec (i + len items) count) as [Hlast|Hmore].
  - assert (rs = []) as ->.
    { destruct fuel; cbn in Hstep2; rewrite Hlast, Z.ltb_irrefl in Hstep2; by injection Hstep2. }
    split; [auto|]. unfold mode_at. rewrite Hlast, Z.eqb_refl. cbn. rewrite app_nil_r.
    destruct (count_bounds _ _ Hcount) as [_ Hb]. rewrite CHUNK_eq in *. do 2 f_equal. apply take_ge.
    rewrite length_drop. unfold len in *. lia.
  - apply IH in Hstep2 as [Hall Hrest]; [|lia|by apply commit_all_mid].
    split; [auto|]. unfold mode_at. rewrite (proj2 (Z.eqb_neq _ _)) by done. rewrite Hrest. cbn.
    do 2 f_equal. rewrite CHUNK_eq.
    replace (Z.to_nat ((i + len items) * 8187)) with (Z.to_nat (i * 8187) + Z.to_nat (len items * 8187))%nat by lia.
    rewrite <- drop_drop, take_drop. done.
Qed.

Lemma commit_all_finished content final count items : forall i e,
  slots_ok content final count i items -> items <> [] ->
  finished (commit_all items e) = negb (bool_decide (chunk_command final count (i + len items - 1) = Continue)).
Proof.
  induction items as [|[p r] items IH]; intros i e Hok Hne; [done|].
  cbn [slots_ok] in Hok. destruct r as [start stop]. destruct Hok as (_ & _ & _ & _ & Hcmd & _ & Hrest).
  cbn [commit_all commit]. rewrite len_cons. destruct items as [|item items].
  - cbn. rewrite len_nil, Hcmd. do 3 f_equal. by replace (i + (1 + 0) - 1) with i by lia.
  - rewrite (IH (i + 1)) by done. by replace (i + 1 + len (item :: items) - 1) with (i + (1 + len (item :: items)) - 1) by lia.
Qed.

(** The command that ends the written chunks decides whether the encoder is done. *)
Definition done_with (final : VisionCommand) (user : UserId) (e : @VisionEncoder R) : Prop :=
  mid_stream user e /\ finished e = negb (bool_decide (final = Continue)).

Lemma write_loop_end user content final long count : len user = UUID_SIZE -> count_ok content count ->
  forall fuel i e k records e', 0 <= i < count -> mid_stream user e ->
  write_loop_records fuel content final long count i e k = Ok (records, e') -> done_with final user e'.
Proof.
  intros Hu Hcount. induction fuel as [|fuel IH]; intros i e k records e' Hi Hmid; cbn [write_loop_records];
    rewrite (proj2 (Z.ltb_lt i count)) by lia; [done|].
  intros H. inv_ok H. destruct x as [[items w] e1]. cbn zeta in H. inv_ok H.
  destruct x1 as [rs e2]. injection H as _ <-. apply map_err_ok in Hstep, Hstep0.
  destruct (record_decodes _ _ _ _ _ _ _ _ _ _ _ Hu Hcount Hi Hmid Hstep Hstep0) as (Hpos & Hle & Hmid1 & _).
  apply (pack_ok _ _ _ _ _ user) in Hstep as (Hsl & _); [|done|lia|rewrite MAX_PLAINTEXT_eq; lia|done].
  pose proof (commit_all_mid user items e1 Hmid1) as Hmid2.
  destruct (Z.eqb_spec (i + len items) count) as [Hlast|Hmore]; [|apply IH in Hstep2; [done|lia|done]].
  assert (e2 = commit_all items e1) as ->.
  { destruct fuel; cbn in Hstep2; rewrite Hlast, Z.ltb_irrefl in Hstep2; by injection Hstep2. }
  split; [done|]. rewrite (commit_all_finished content final count items i e1 Hsl) by (by intros ->).
  unfold chunk_command. rewrite Hlast. by replace (count - 1 + 1 =? count) with true by (symmetry; apply Z.eqb_eq; lia).
Qed.

(** What a successful call wrote and left. *)
Lemma write_content_spec user content final long e e' k records :
  len user = UUID_SIZE -> mid_stream user e ->
  write_vision_content content final long e k = Ok (records, e') ->
  Forall (fun r => len r <= MAX_PLAINTEXT_LEN) records /\
  byte_run (idle_decoder user false UUID_SIZE FramedMode) (concat records)
  = Ok (idle_decoder user false UUID_SIZE (mode_after final), content) /\ done_with final user e'.
Proof.
  intros Hu [Heu Hff]. unfold write_vision_content. destruct (Z.eqb_spec (len content) 0) as [H0|Hn0].
  - assert (content = []) as -> by (destruct content; [done|slen]).
    unfold write_vision_frame. intros H. inv_ok H. destruct x as [p e1]. inv_ok H.
    destruct x1 as [u e2]. injection H as <- <-. apply map_err_ok in Hstep, Hstep0, Hstep2.
    destruct (plan_frame_ok _ _ _ _ _ _ (len_nonneg []) Hstep) as ((Hok & Hi & Hc & Hcl) & _ & Hs1 & _).
    pose proof (wire_len_nonneg p Hok). unfold assembled in Hstep0.
    rewrite assemble_frame in Hstep0; [| congruence | done | done | by apply Hregion].
    injection Hstep0 as <-. rewrite Hs1, Heu. injection Hstep2 as _ <-.
    pose proof (run_frame user p [] Hu Hok (eq_sym Hcl)) as Hrun. rewrite Hi, Hff, Hc in Hrun.
    cbn [concat]. rewrite app_nil_r. split; [|split; [done|split; [split; cbn; congruence|cbn; by rewrite Hc]]].
    constructor; [|constructor].
    rewrite len_frame by (done || apply Hok). destruct Hok as (_ & _ & Hw).
    rewrite MAX_PLAINTEXT_eq. unfold VISION_FRAME_SIZE in Hw. lia.
  - intros H. pose proof (len_nonneg content).
    assert (Hcount : count_ok content (div_ceil (len content) CHUNK)) by (split; [lia|done]).
    destruct (count_bounds _ _ Hcount) as [Hpos _].
    pose proof (write_loop_end user content final long _ Hu Hcount _ 0 _ _ _ _ ltac:(lia) ltac:(by split) H) as Hend.
    eapply (write_loop_decodes user) in H as [? ?]; [done | done | done | lia | split; done].
Qed.

Section Total.
Context (Hsource : source_total) (Hsent : forall k, sent k = true).

Lemma pack_total slots content final long count user : count_ok content count ->
  forall i w e, 0 <= i -> 0 <= w <= MAX_PLAINTEXT_LEN -> mid_stream user e -> finished e = false ->
  exists items w' e', pack slots content final long count i w e = Ok ((items, w'), e').
Proof.
  intros Hcount. induction slots as [|slots IH]; intros i w e Hi Hw Hmid Hfin; cbn [pack].
  - do 3 eexists. reflexivity.
  - destruct (Z.ltb_spec i count) as [Hlt|Hge]; [|do 3 eexists; reflexivity].
    destruct (chunk_range content count i Hcount ltac:(lia)) as (_ & Hlen & Hpos). rewrite <- Hlen.
    unfold mbind at 1, M_bind at 1.
    destruct (plan_within_total Hsource (len (chunk content i)) (if i + 1 =? count then final else Continue)
      long (MAX_PLAINTEXT_LEN - w) e Hfin) as (op & e1 & Hp).
    { destruct Hmid as [_ ->]. rewrite CHUNK_eq in Hpos.
      unfold maximum_content, VISION_FRAME_SIZE, HEADER_SIZE, uuid_prefix. lia. }
    rewrite Hp. destruct op as [p|]; [|do 3 eexists; reflexivity].
    apply plan_within_ok in Hp as (_ & (Hs1 & Hs2 & Hs3) & (Hok & _) & Hwire); [|lia].
    pose proof (wire_len_nonneg p Hok) as Hw0.
    rewrite (Z.min_r USIZE_MAX) by (rewrite MAX_PLAINTEXT_eq in *; unfold USIZE_MAX, U64_MAX; lia).
    destruct (IH (i + 1) (w + wire_len p) e1) as (rest & w1 & e2 & Hrest);
      [lia | lia | destruct Hmid; split; congruence | congruence |].
    unfold mbind, M_bind. rewrite Hrest. do 3 eexists. reflexivity.
Qed.

Lemma write_loop_total user content final long count : len user = UUID_SIZE -> count_ok content count ->
  forall fuel i e k, 0 <= i -> count - i <= Z.of_nat fuel -> mid_stream user e -> (i < count -> finished e = false) ->
  exists records e', write_loop_records fuel content final long count i e k = Ok (records, e').
Proof.
  intros Hu Hcount. induction fuel as [|fuel IH]; intros i e k Hi Hfuel Hmid Hfin; cbn [write_loop_records];
    (destruct (Z.ltb_spec i count) as [Hlt|Hge]; [|by do 2 eexists]); [lia|].
  destruct (pack_total MAX_FRAMES_PER_OUTER_RECORD content final long count user Hcount i 0 e)
    as (items & w & e1 & Hp); [done | rewrite MAX_PLAINTEXT_eq; lia | done | by apply Hfin |].
  rewrite Hp. cbn [map_encode map_err mbind result_bind].
  pose proof Hp as Hpack. apply (pack_ok _ _ _ _ _ user) in Hpack as (Hsl & -> & _ & Hmid1 & Hcnt & Hne);
    [|done|lia|rewrite MAX_PLAINTEXT_eq; lia|done].
  specialize (Hne ltac:(done) Hlt eq_refl). pose proof (slots_wire_nonneg _ _ _ _ _ Hsl) as Hw0.
  pose proof (assemble_slots_spec user content final count items i [] (region (0 + slots_wire items)) Hu Hsl
    ltac:(rewrite Hregion; lia)) as Hasm.
  cbn [app] in Hasm. change (len []) with 0 in Hasm. rewrite (proj1 Hmid1), Hasm, Hsent. cbn.
  assert (0 < len items) by (destruct items; [done|slen]).
  destruct (IH (i + len items) (commit_all items e1) (S k)) as (rs & e' & Hrest).
  - lia.
  - lia.
  - by apply commit_all_mid.
  - intros Hmore. rewrite (commit_all_finished content final count items i e1 Hsl Hne). unfold chunk_command.
    by rewrite (proj2 (Z.eqb_neq _ _)) by lia.
  - rewrite Hrest. by do 2 eexists.
Qed.

Lemma write_content_total user content final long e k :
  len user = UUID_SIZE -> mid_stream user e -> finished e = false ->
  exists records e', write_vision_content content final long e k = Ok (records, e').
Proof.
  intros Hu Hmid Hfin. unfold write_vision_content. destruct (Z.eqb_spec (len content) 0) as [H0|Hn0].
  - unfold write_vision_frame.
    destruct (plan_frame_total Hsource (len (@nil byte)) final long e Hfin) as (p & e1 & Hp).
    { destruct Hmid as [_ ->]. done. }
    rewrite Hp. cbn [map_encode map_err mbind result_bind].
    destruct (plan_frame_ok _ _ _ _ _ _ (len_nonneg []) Hp) as ((Hok & _ & _ & Hcl) & _ & Hs1 & _).
    pose proof (wire_len_nonneg p Hok). unfold assembled.
    rewrite assemble_frame; [| destruct Hmid; congruence | done | done | by apply Hregion].
    rewrite Hsent. by do 2 eexists.
  - pose proof (len_nonneg content).
    assert (Hcount : count_ok content (div_ceil (len content) CHUNK)) by (split; [lia|done]).
    destruct (count_bounds _ _ Hcount) as [Hpos _].
    eapply write_loop_total; [done | done | lia | lia | done | done].
Qed.
End Total.

Section Safe.
Context (Hsafe : source_safe).

Lemma pack_no_panic slots content final long count : forall i w e,
  no_panic (pack slots content final long count i w e).
Proof.
  induction slots as [|slots IH]; intros i w e; cbn [pack]; [done|]. destruct (_ <? _); [|done].
  apply no_panic_M_bind; [by apply plan_within_no_panic|]. intros [p|] e1 _; [|done].
  apply no_panic_M_bind; [apply IH|]. by intros [rest w1] e2 _.
Qed.

Lemma write_loop_no_panic user content final long count : len user = UUID_SIZE -> count_ok content count ->
  forall fuel i e k, 0 <= i -> count - i <= Z.of_nat fuel -> mid_stream user e ->
  no_panic (write_loop_records fuel content final long count i e k).
Proof.
  intros Hu Hcount. induction fuel as [|fuel IH]; intros i e k Hi Hfuel Hmid; cbn [write_loop_records];
    (destruct (Z.ltb_spec i count) as [Hlt|Hge]; [|done]); [lia|].
  pose proof (pack_no_panic MAX_FRAMES_PER_OUTER_RECORD content final long count i 0 e) as Hsp.
  destruct (pack _ _ _ _ _ i 0 e) as [[[items w] e1]| |] eqn:Hpack; [|done|done].
  cbn [map_encode map_err mbind result_bind].
  apply (pack_ok _ _ _ _ _ user) in Hpack as (Hsl & -> & _ & Hmid1 & Hcnt & Hne);
    [|done|lia|rewrite MAX_PLAINTEXT_eq; lia|done].
  specialize (Hne ltac:(done) Hlt eq_refl). pose proof (slots_wire_nonneg _ _ _ _ _ Hsl) as Hw0.
  pose proof (assemble_slots_spec user content final count items i [] (region (0 + slots_wire items)) Hu Hsl
    ltac:(rewrite Hregion; lia)) as Hasm.
  cbn [app] in Hasm. change (len []) with 0 in Hasm. rewrite (proj1 Hmid1), Hasm. cbn [map_encode map_err mbind result_bind].
  apply no_panic_guard. intros _.
  assert (0 < len items) by (destruct items; [done|slen]).
  apply no_panic_bind; [apply IH; [lia|lia|by apply commit_all_mid]|]. by intros [rs e2] _.
Qed.

Lemma write_content_no_panic user content final long e k :
  len user = UUID_SIZE -> mid_stream user e -> no_panic (write_vision_content content final long e k).
Proof.
  intros Hu Hmid. unfold write_vision_content. destruct (Z.eqb_spec (len content) 0) as [H0|Hn0].
  - unfold write_vision_frame. pose proof (plan_frame_no_panic Hsafe (len (@nil byte)) final long e) as Hsp.
    destruct (plan_frame _ final long e) as [[p e1]| |] eqn:Hp; [|done|done].
    cbn [map_encode map_err mbind result_bind].
    destruct (plan_frame_ok _ _ _ _ _ _ (len_nonneg []) Hp) as ((Hok & _ & _ & Hcl) & _ & Hs1 & _).
    pose proof (wire_len_nonneg p Hok). unfold assembled.
    rewrite assemble_frame; [| destruct Hmid; congruence | done | done | by apply Hregion].
    by destruct (sent k).
  - pose proof (len_nonneg content).
    assert (Hcount : count_ok content (div_ceil (len content) CHUNK)) by (split; [lia|done]).
    destruct (count_bounds _ _ Hcount) as [Hpos _].
    eapply write_loop_no_panic; [done | done | lia | lia | done].
Qed.
End Safe.

(** Packing frames into outer records changes neither the framing nor the
    payload. On an encoder past its opening frame and still framing, with an
    entropy source that answers and a transport that accepts every record,
    [write_vision_content] succeeds on every content; it panics on none; and whenever it succeeds,
    every record it wrote fits a TLS plaintext and the records concatenated decode
    (from a decoder past the opening frame) to exactly the content, ending in the
    mode the final command selects. *)
Theorem write_vision_content_decodes (user : UserId) (content : list byte) (final : VisionCommand)
    (long : bool) (e : @VisionEncoder R) (k : nat) :
  len user = UUID_SIZE -> enc_user e = user -> enc_first_frame e = false ->
  (source_safe -> no_panic (write_vision_content content final long e k)) /\
  (source_total -> (forall j, sent j = true) -> finished e = false ->
     exists records e', write_vision_content content final long e k = Ok (records, e')) /\
  forall records e', write_vision_content content final long e k = Ok (records, e') ->
    Forall (fun r => len r <= MAX_PLAINTEXT_LEN) records /\
    byte_run (idle_decoder user false UUID_SIZE FramedMode) (concat records)
    = Ok (idle_decoder user false UUID_SIZE (mode_after final), content).
Proof.
  intros Hu Heu Hff. split_and!.
  - intros Hsafe. by apply (write_content_no_panic Hsafe user).
  - intros Hsrc Hsend. apply (write_content_total Hsrc Hsend user); done.
  - intros records e' H. by apply (write_content_spec user) in H as (? & ? & _).
Qed.
End Write.

Definition example_encoder : @VisionEncoder unit :=
  {| enc_user := replicate 16 x07; enc_first_frame := false; finished := false; padding := tt |}.

Lemma write_vision_content_decodes_witness :
  exists records e', write_vision_content (fun n => replicate (Z.to_nat n) xff) (fun _ => true)
      [x01; x02; x03] Direct false example_encoder 0 = Ok (records, e') /\
    byte_run (idle_decoder (replicate 16 x07) false UUID_SIZE FramedMode) (concat records)
    = Ok (idle_decoder (replicate 16 x07) false UUID_SIZE DirectMode, [x01; x02; x03]).
Proof.
  destruct (write_vision_content_decodes (fun n => replicate (Z.to_nat n) xff) (fun _ => true)
    (fun n Hn => eq_trans (len_replicate _ _) (Z2Nat.id n Hn))
    (replicate 16 x07) [x01; x02; x03] Direct false example_encoder 0) as (_ & Htotal & Hdecodes);
    [reflexivity | reflexivity | reflexivity |].
  destruct Htotal as (records & e' & H);
    [intros r upper; do 2 eexists; reflexivity | reflexivity | reflexivity |].
  exists records, e'. split; [exact H|]. by apply (Hdecodes records e').
Defined.
