(* ===== verification/Uplink.v ===== *)
(** * The framed uplink ([src/server/vision/relay_uplink.rs])

    From the client's TLS records to the destination socket: prefetched bytes,
    the staged and batched decoding loop, and the draining of the bytes the
    client pipelined behind its Direct boundary. The TLS reader and the sockets
    are the environment: the sequence of records read, and the outcome of each
    write. *)

From S2P Require Import Prelude Effects VlessRequest Vision VisionWrite.

Definition UPLINK_STAGE_CAPACITY : Z := 4 * MAX_PLAINTEXT_LEN.

Inductive UplinkError :=
| UpAllocationFailed | UpIdle | UpTls | UpVisionDecode (e : VisionDecodeError).

(** One answer of [client.read_application(timeout)]. *)
Inductive Read :=
| ReadRecord (plaintext : list byte)
| ReadCloseNotify
| ReadFailed.

(** The environment. Iteration [i] of the loop sees [has_buffered_record i],
    the allocator's capacity of the staging buffer [stage_capacity i], the
    outcome [grow_ok i] of growing it, and [decode_alloc i], the allocator's
    answers to the decoder; the [k]-th write to the destination succeeds when
    [write_fails k] is [None] and otherwise fails with that many bytes sent. *)
Record UplinkEnv := {
  stage_reserved : bool;
  prefetch_alloc : Z -> bool;
  has_buffered_record : nat -> bool;
  stage_capacity : nat -> Z;
  grow_ok : nat -> bool;
  decode_alloc : nat -> Z -> bool;
  write_fails : nat -> option nat;
  shutdown_ok : bool;
}.

(** The loop's locals; [up_written] is what the destination received so far and
    [up_writes] the number of writes made. *)
Record UplinkState := {
  up_decoder : VisionDecoder;
  up_stage : list byte;
  up_bytes : Z;
  up_written : list byte;
  up_writes : nat;
}.

Inductive UplinkStep := UpFramed (bytes : Z) | UpDirect (bytes : Z).

Definition uplink A := IO UplinkState UplinkError A.

Section Uplink.
Context (env : UplinkEnv).

(** [idle.reset(timeout)?; idle.write_all(destination, bytes).await?]. *)
Definition write_destination (bytes : list byte) : uplink unit := fun st =>
  let sent n :=
    {| up_decoder := up_decoder st; up_stage := up_stage st; up_bytes := up_bytes st;
       up_written := up_written st ++ take n bytes; up_writes := S (up_writes st) |} in
  match write_fails env (up_writes st) with
  | Some n => (Err UpIdle, sent n)
  | None => (Ok tt, sent (length bytes))
  end.

Definition flush_uplink : uplink unit :=
  st ← io_get;
  if bool_decide (up_stage st = []) then mret tt
  else
    _ ← write_destination (up_stage st);
    st ← io_get;
    io_put {| up_decoder := up_decoder st; up_stage := [];
              up_bytes := Z.min U64_MAX (up_bytes st + len (up_stage st));
              up_written := up_written st; up_writes := up_writes st |}.

Definition set_decoded (st : UplinkState) (d : VisionDecoder) (stage : list byte) : UplinkState :=
  {| up_decoder := d; up_stage := stage; up_bytes := up_bytes st; up_written := up_written st;
     up_writes := up_writes st |}.

(** [decoder.decode_append(initial, &mut stage)?]. *)
Definition decode_prefetched (initial : list byte) : uplink VisionMode := fun st =>
  match decode_append (prefetch_alloc env) (up_decoder st) initial (up_stage st) with
  | (Ok m, (d, stage)) => (Ok m, set_decoded st d stage)
  | (Err e, (d, stage)) => (Err (UpVisionDecode e), set_decoded st d stage)
  | (Panic, _) => (Panic, st)
  end.

(** [decoder.decode_borrowed_append(record, &mut stage)?] and the copy of a
    borrowed payload into the batch. *)
Definition decode_record (i : nat) (plaintext : list byte) : uplink VisionMode := fun st =>
  match decode_borrowed_append (decode_alloc env i) (up_decoder st) plaintext (up_stage st) with
  | (Ok (m, BorrowedPayload content), (d, stage)) => (Ok m, set_decoded st d (stage ++ content))
  | (Ok (m, Staged), (d, stage)) => (Ok m, set_decoded st d stage)
  | (Err e, (d, stage)) => (Err (UpVisionDecode e), set_decoded st d stage)
  | (Panic, _) => (Panic, st)
  end.

(** Makes room for a record: a full staging buffer is flushed and grown once. *)
Definition make_room (i : nat) (plaintext : list byte) : uplink unit :=
  st ← io_get;
  if stage_capacity env i <? len (up_stage st) + len plaintext then
    _ ← flush_uplink;
    if stage_capacity env i <? UPLINK_STAGE_CAPACITY
    then io_check (grow_ok env i) UpAllocationFailed
    else mret tt
  else mret tt.

(** The record loop, on the answers the reader gives; [None] means it waits for
    the next one. *)
Fixpoint uplink_loop (i : nat) (reads : list Read) : uplink (option UplinkStep) :=
  _ ← (if has_buffered_record env i then mret tt else flush_uplink);
  match reads with
  | [] => mret None
  | ReadCloseNotify :: _ =>
    _ ← flush_uplink;
    _ ← io_check (shutdown_ok env) UpIdle;
    st ← io_get;
    mret (Some (UpFramed (up_bytes st)))
  | ReadFailed :: _ => io_throw UpTls
  | ReadRecord plaintext :: reads =>
    if bool_decide (plaintext = []) then uplink_loop (S i) reads
    else
      _ ← make_room i plaintext;
      m ← decode_record i plaintext;
      if bool_decide (m = DirectMode) then
        _ ← flush_uplink;
        st ← io_get;
        mret (Some (UpDirect (up_bytes st)))
      else uplink_loop (S i) reads
  end.

Definition initial_uplink (user : UserId) : UplinkState :=
  {| up_decoder := new_decoder user; up_stage := []; up_bytes := 0; up_written := []; up_writes := 0 |}.

(** [relay_uplink_framed]; [prefetched] is the range of the request buffer behind
    the VLESS header. *)
Definition relay_uplink_framed (request_buffer : list byte) (prefetched : Z * Z) (reads : list Read)
    : uplink (option UplinkStep) :=
  _ ← io_check (stage_reserved env) UpAllocationFailed;
  match get_range request_buffer prefetched.1 prefetched.2 with
  | Some (b :: initial) =>
    m ← decode_prefetched (b :: initial);
    _ ← flush_uplink;
    if bool_decide (m = DirectMode) then
      st ← io_get;
      mret (Some (UpDirect (up_bytes st)))
    else uplink_loop 0 reads
  | _ => uplink_loop 0 reads
  end.

(** The drain of [finish_uplink_direct]: the bytes the reader buffered behind the
    boundary record go out before the raw boundary is declared. *)
Definition drain_pending (pending : list byte) (bytes : Z) : uplink Z :=
  _ ← (if bool_decide (pending = []) then mret tt else write_destination pending);
  mret (Z.min U64_MAX (bytes + len pending)).

(** [relay_uplink] up to the raw boundary: the total reported there. *)
Definition relay_uplink (request_buffer : list byte) (prefetched : Z * Z) (reads : list Read)
    (pending : list byte) : uplink (option (UplinkStep * Z)) :=
  step ← relay_uplink_framed request_buffer prefetched reads;
  match step with
  | None => mret None
  | Some (UpFramed bytes) => mret (Some (UpFramed bytes, bytes))
  | Some (UpDirect bytes) => total ← drain_pending pending bytes; mret (Some (UpDirect bytes, total))
  end.
End Uplink.

(** ** What the destination receives *)

Definition plaintext_of (r : Read) : list byte :=
  match r with ReadRecord plaintext => plaintext | _ => [] end.

Definition plaintexts (reads : list Read) : list byte := concat (map plaintext_of reads).

Lemma plaintexts_take_cons k r reads :
  plaintexts (take (S k) (r :: reads)) = plaintext_of r ++ plaintexts (take k reads).
Proof. done. Qed.

Definition is_record (r : Read) : Prop := match r with ReadRecord _ => True | _ => False end.

Section Delivery.
Context (env : UplinkEnv) (user : UserId).

(** [seen] was decoded to what was written and what is staged. *)
Definition uplink_inv (seen : list byte) (st : UplinkState) : Prop :=
  byte_run (new_decoder user) seen = Ok (up_decoder st, up_written st ++ up_stage st) /\
  up_bytes st = Z.min U64_MAX (len (up_written st)) /\ dec_ready (up_decoder st).

(** Whatever failed, only decoded payload was written, in order. *)
Definition uplink_broken (seen : list byte) (st : UplinkState) : Prop :=
  exists d payload, byte_run (new_decoder user) seen = Ok (d, payload) /\ up_written st `prefix_of` payload.

(** The decoding mode [seen] leads to. *)
Definition leads_to (seen : list byte) (m : VisionMode) : Prop :=
  exists d payload, byte_run (new_decoder user) seen = Ok (d, payload) /\ mode d = m.

Definition still_framed (seen : list byte) : Prop := ~ leads_to seen DirectMode.

Lemma inv_broken seen st : uplink_inv seen st -> uplink_broken seen st.
Proof. intros (H & _). do 2 eexists. split; [exact H|]. by exists (up_stage st). Qed.

Lemma inv_leads seen st : uplink_inv seen st -> leads_to seen (mode (up_decoder st)).
Proof. intros (H & _). do 2 eexists. split; [exact H|done]. Qed.

Lemma leads_to_unique seen m m' : leads_to seen m -> leads_to seen m' -> m = m'.
Proof. intros (d & p & H & <-) (d' & p' & H' & <-). congruence. Qed.

Definition flushed (seen : list byte) (st : UplinkState) : Prop :=
  uplink_inv seen st /\ up_stage st = [].

Lemma flush_triple seen :
  triple (uplink_inv seen) (flush_uplink env) (fun _ => flushed seen) (uplink_broken seen).
Proof.
  apply triple_get_bind. intros st (Hrun & Hb & Hr). case_bool_decide as Hs.
  - apply triple_ret. intros ? ->. split; [by split_and!|done].
  - intros ? ->. unfold mbind, IO_bind, write_destination.
    destruct (write_fails env (up_writes st)) as [n|]; cbn.
    + do 2 eexists. split; [exact Hrun|]. cbn. apply prefix_app, prefix_take.
    + unfold flushed, uplink_inv. cbn. rewrite firstn_all, app_nil_r. split_and!; [done| |done|done].
      rewrite Hb. slen.
Qed.

Lemma decode_append_spec alloc d l out :
  dec_ready d ->
  match decode_append alloc d l out with
  | (Ok m, (d', out')) => exists o, byte_run d l = Ok (d', o) /\ out' = out ++ o /\ m = mode d' /\ dec_ready d'
  | (Err _, _) => True
  | (Panic, _) => False
  end.
Proof.
  intros Hd. destruct (alloc (len l)) eqn:Ha.
  - assert (Heq : decode_append alloc d l out = decode_append (fun _ => true) d l out)
      by (unfold decode_append; by rewrite Ha).
    rewrite Heq. pose proof (decode_append_agrees (fun _ => true) (fun _ => eq_refl) d l out Hd) as H.
    destruct (byte_run d l) as [[d' o]|e|]; [| |done].
    + destruct H as [-> ?]. by exists o.
    + by destruct H as [st ->].
  - destruct Hd as (_ & _ & Hf). unfold decode_append. by rewrite Hf, Ha.
Qed.

(** Both decoding entry points extend the invariant by the bytes they decode. *)
Definition decodes (m : uplink VisionMode) (l : list byte) : Prop :=
  forall seen, triple (uplink_inv seen) m
    (fun mode' st => uplink_inv (seen ++ l) st /\ mode' = mode (up_decoder st)) (uplink_broken seen).

Lemma inv_extend seen l st d o :
  uplink_inv seen st -> byte_run (up_decoder st) l = Ok (d, o) -> dec_ready d ->
  uplink_inv (seen ++ l) (set_decoded st d (up_stage st ++ o)).
Proof.
  intros (Hrun & Hb & _) Hl Hd. unfold uplink_inv. cbn. split_and!; [|done|done].
  rewrite byte_run_app, Hrun. cbn. rewrite Hl. cbn. by rewrite app_assoc.
Qed.

Lemma broken_decoded seen st d stage : uplink_inv seen st -> uplink_broken seen (set_decoded st d stage).
Proof. intros H. destruct (inv_broken seen st H) as (d' & p & ? & ?). by exists d', p. Qed.

Lemma decode_prefetched_decodes l : decodes (decode_prefetched env l) l.
Proof.
  intros seen st Hi. unfold decode_prefetched.
  pose proof (decode_append_spec (prefetch_alloc env) (up_decoder st) l (up_stage st) ltac:(apply Hi)) as H.
  destruct (decode_append _ _ _ _) as [[m|e|] [d stage]]; [|by apply broken_decoded|done].
  destruct H as (o & Hl & -> & -> & Hd). split; [by apply inv_extend|done].
Qed.

Lemma decode_record_decodes i l : decodes (decode_record env i l) l.
Proof.
  intros seen st Hi. unfold decode_record, decode_borrowed_append.
  pose proof Hi as (_ & _ & Hd & Hfc & Hf). rewrite Hf. cbn [negb andb].
  case_bool_decide as Hm; cbn [negb].
  - pose proof (decode_append_spec (decode_alloc env i) (up_decoder st) l (up_stage st) ltac:(apply Hi)) as H.
    destruct (decode_append _ _ _ _) as [[m|e|] [d stage]]; [|by apply broken_decoded|done].
    destruct H as (o & Hl & -> & -> & Hd'). split; [by apply inv_extend|done].
  - split; [|done]. apply inv_extend; [done|by apply byte_run_raw|by split_and!].
Qed.

Lemma make_room_triple seen i l :
  triple (uplink_inv seen) (make_room env i l) (fun _ => uplink_inv seen) (uplink_broken seen).
Proof.
  apply triple_get_bind. intros st Hi. destruct (_ <? _); [|apply triple_ret; by intros ? ->].
  eapply triple_bind.
  - eapply triple_consequence; [apply (flush_triple seen) | by intros ? -> | done | done].
  - intros []. cbn. destruct (_ <? _).
    + apply triple_check; [intros s _ H; apply H | intros s H; apply inv_broken, H].
    + apply triple_ret. intros s H. apply H.
Qed.

(** The first [k] answers were records, and none but perhaps the last reached the
    Direct mode: the loop has consumed exactly these. *)
Definition reached (seen : list byte) (reads : list Read) (k : nat) : Prop :=
  (k <= length reads)%nat /\ Forall is_record (take k reads) /\
  forall j, (j < k)%nat -> still_framed (seen ++ plaintexts (take j reads)).

Lemma reached_here seen reads : reached seen reads 0.
Proof. split_and!; [lia|constructor|lia]. Qed.

Lemma reached_cons seen r reads k :
  is_record r -> still_framed seen -> reached (seen ++ plaintext_of r) reads k ->
  reached seen (r :: reads) (S k).
Proof.
  intros Hr Hf (Hk & Hall & Hj). split_and!; [cbn; lia|by constructor|]. intros [|j] Hlt.
  - cbn. by rewrite app_nil_r.
  - rewrite plaintexts_take_cons, app_assoc. apply Hj. lia.
Qed.

(** What a returned step says, with [seen] the plaintext consumed. *)
Definition loop_post (i : nat) (seen : list byte) (reads : list Read)
    (step : option UplinkStep) (st : UplinkState) : Prop :=
  exists k, reached seen reads k /\ let seen := seen ++ plaintexts (take k reads) in
    uplink_inv seen st /\
    match step with
    | None => k = length reads /\ still_framed seen /\
        (has_buffered_record env (i + length reads) = false -> up_stage st = [])
    | Some (UpFramed n) => reads !! k = Some ReadCloseNotify /\ still_framed seen /\
        up_stage st = [] /\ n = up_bytes st
    | Some (UpDirect n) => leads_to seen DirectMode /\ up_stage st = [] /\ n = up_bytes st
    end.

Definition loop_broken (seen : list byte) (reads : list Read) (st : UplinkState) : Prop :=
  exists k, uplink_broken (seen ++ plaintexts (take k reads)) st.

Lemma loop_post_cons i seen r reads step st :
  is_record r -> still_framed seen ->
  loop_post (S i) (seen ++ plaintext_of r) reads step st -> loop_post i seen (r :: reads) step st.
Proof.
  intros Hr Hsf (k & Hk & H). exists (S k). split; [by apply reached_cons|].
  cbn zeta in *. rewrite plaintexts_take_cons, app_assoc. destruct H as [Hi H]. split; [exact Hi|]. cbn [length lookup list_lookup].
  destruct step as [[n|n]|]; [exact H|exact H|].
  destruct H as (-> & Hf & Hs). split_and!; [done|done|]. by replace (i + S (length reads))%nat with (S i + length reads)%nat by lia.
Qed.

Lemma loop_broken_cons seen r reads st :
  loop_broken (seen ++ plaintext_of r) reads st -> loop_broken seen (r :: reads) st.
Proof. intros (k & H). exists (S k). by rewrite plaintexts_take_cons, app_assoc. Qed.

Lemma loop_broken_here seen reads st : uplink_broken seen st -> loop_broken seen reads st.
Proof. intros H. exists 0%nat. cbn. by rewrite app_nil_r. Qed.

(** The flush before a read that could block. *)
Lemma preflush_triple i seen reads :
  triple (uplink_inv seen) (if has_buffered_record env i then mret tt else flush_uplink env)
    (fun _ st => uplink_inv seen st /\ (has_buffered_record env i = false -> up_stage st = []))
    (loop_broken seen reads).
Proof.
  destruct (has_buffered_record env i); [by apply triple_ret|].
  eapply triple_consequence; [apply (flush_triple seen)|done|by intros _ s []|apply loop_broken_here].
Qed.

(** A flush followed by the report of the bytes written. *)
Lemma flush_report seen reads (tail : uplink unit) (mk : Z -> UplinkStep) (Q : option UplinkStep -> UplinkState -> Prop) :
  triple (flushed seen) tail (fun _ => flushed seen) (uplink_broken seen) ->
  (forall st, flushed seen st -> Q (Some (mk (up_bytes st))) st) ->
  triple (uplink_inv seen)
    (_ ← flush_uplink env; _ ← tail; st ← io_get; mret (Some (mk (up_bytes st)))) Q (loop_broken seen reads).
Proof.
  intros Ht HQ. eapply triple_bind.
  { eapply triple_consequence; [apply (flush_triple seen)|done|done|apply loop_broken_here]. }
  intros []. cbn. eapply triple_bind.
  { eapply triple_consequence; [exact Ht|done|done|apply loop_broken_here]. }
  intros []. cbn. apply triple_get_bind. intros st Hst. apply triple_ret. intros ? ->. by apply HQ.
Qed.

Lemma loop_post_here i seen reads step st :
  uplink_inv seen st ->
  match step with
  | None => reads = [] /\ still_framed seen /\ (has_buffered_record env i = false -> up_stage st = [])
  | Some (UpFramed n) => reads !! 0%nat = Some ReadCloseNotify /\ still_framed seen /\
      up_stage st = [] /\ n = up_bytes st
  | Some (UpDirect n) => leads_to seen DirectMode /\ up_stage st = [] /\ n = up_bytes st
  end -> loop_post i seen reads step st.
Proof.
  intros Hi H. exists 0%nat. split; [apply reached_here|]. cbn zeta. change (plaintexts (take 0 reads)) with ([] : list byte).
  rewrite app_nil_r. split; [done|]. destruct step as [[n|n]|]; [done|done|].
  destruct H as (-> & Hf & Hs). split_and!; [done|done|]. cbn. by rewrite Nat.add_0_r.
Qed.

Lemma mode_framed seen st m :
  uplink_inv seen st -> m = mode (up_decoder st) -> m <> DirectMode -> still_framed seen.
Proof. intros Hi -> Hm Hl. by eapply Hm, leads_to_unique; [apply inv_leads|]. Qed.

Lemma mode_direct seen st m :
  uplink_inv seen st -> m = mode (up_decoder st) -> m = DirectMode -> leads_to seen DirectMode.
Proof. intros Hi -> <-. by apply inv_leads. Qed.

(** After a decoded record or prefix: at the Direct mode the stage is flushed and
    the boundary reported, otherwise [rest] goes on. *)
Lemma direct_report seen reads i :
  leads_to seen DirectMode ->
  triple (uplink_inv seen)
    (_ ← flush_uplink env; st ← io_get; mret (Some (UpDirect (up_bytes st))))
    (loop_post i seen reads) (loop_broken seen reads).
Proof.
  intros Hd.
  assert (H := flush_report seen reads (mret tt) UpDirect (loop_post i seen reads)).
  intros s Hs0. apply H; [| |exact Hs0].
  - by apply triple_ret.
  - intros st [Hi Hs]. by apply loop_post_here.
Qed.

(** The rest of the loop, seen from before the record it follows. *)
Lemma loop_step_triple seen r reads i (m : uplink (option UplinkStep)) :
  is_record r -> still_framed seen ->
  triple (uplink_inv (seen ++ plaintext_of r)) m
    (loop_post (S i) (seen ++ plaintext_of r) reads) (loop_broken (seen ++ plaintext_of r) reads) ->
  triple (uplink_inv (seen ++ plaintext_of r)) m
    (loop_post i seen (r :: reads)) (loop_broken seen (r :: reads)).
Proof.
  intros Hr Hf H. eapply triple_consequence; [exact H | done | |].
  - intros a s. by apply loop_post_cons.
  - intros s. apply loop_broken_cons.
Qed.

Lemma uplink_loop_triple reads : forall i seen,
  still_framed seen ->
  triple (uplink_inv seen) (uplink_loop env i reads) (loop_post i seen reads) (loop_broken seen reads).
Proof.
  induction reads as [|r reads IH]; intros i seen Hf; cbn [uplink_loop];
    (eapply triple_bind; [apply preflush_triple|]; intros []; cbn).
  - apply triple_ret. intros st [Hi Hs]. by apply loop_post_here.
  - destruct r as [plaintext| |].
    + case_bool_decide as Hp.
      * subst. eapply triple_consequence; [apply (loop_step_triple seen (ReadRecord []) reads i); [done|done|] | | done | done].
        { cbn [plaintext_of]. rewrite app_nil_r. by apply IH. }
        { intros s [H _]. cbn. by rewrite app_nil_r. }
      * eapply triple_bind.
        { eapply triple_consequence; [apply (make_room_triple seen) | by intros s [] | done | apply loop_broken_here]. }
        intros []. cbn. eapply triple_bind.
        { eapply triple_consequence; [apply (decode_record_decodes i plaintext seen) | done | done | apply loop_broken_here]. }
        intros m. cbn. intros st [Hi Hm]. case_bool_decide as Hd.
        { apply (loop_step_triple seen (ReadRecord plaintext) reads i); [done|done| |done].
          by eapply direct_report, mode_direct. }
        { apply (loop_step_triple seen (ReadRecord plaintext) reads i); [done|done| |done].
          by eapply IH, mode_framed. }
    + intros st [Hi _]. revert st Hi.
      apply (flush_report seen (ReadCloseNotify :: reads) (io_check (shutdown_ok env) UpIdle) UpFramed).
      * apply triple_check; [done|]. intros s [H _]. by apply inv_broken.
      * intros st [Hi Hs]. by apply loop_post_here.
    + apply triple_throw. intros s [Hi _]. by apply loop_broken_here, inv_broken.
Qed.

Lemma new_decoder_framed : still_framed [].
Proof. intros (d & p & H & Hm). cbn in H. injection H as <- _. done. Qed.

Lemma initial_uplink_inv : len user = UUID_SIZE -> uplink_inv [] (initial_uplink user).
Proof. intros Hu. split_and!; [done|done|by apply new_decoder_ready]. Qed.

Lemma uplink_framed_triple request_buffer prefetched reads :
  let initial := default [] (get_range request_buffer prefetched.1 prefetched.2) in
  triple (uplink_inv []) (relay_uplink_framed env request_buffer prefetched reads)
    (loop_post 0 initial reads)
    (fun st => uplink_broken [] st \/ loop_broken initial reads st).
Proof.
  cbn zeta. unfold relay_uplink_framed. eapply (triple_bind _ _ _ (fun _ => uplink_inv [])).
  { apply triple_check; [done|]. intros s H. left. by apply inv_broken. }
  intros []. cbn. destruct (get_range _ _ _) as [[|b initial]|]; cbn [default].
  - eapply triple_consequence; [apply uplink_loop_triple, new_decoder_framed|done|done|by right].
  - eapply triple_bind.
    { eapply triple_consequence; [apply (decode_prefetched_decodes (b :: initial) [])|done|done|by left]. }
    intros m. cbn [app]. intros st [Hi Hm].
    assert (Hkeep : forall Q (f : unit -> uplink (option UplinkStep)),
      triple (flushed (b :: initial)) (f tt) Q (loop_broken (b :: initial) reads) ->
      triple (uplink_inv (b :: initial)) (_ ← flush_uplink env; f tt) Q
        (fun st => uplink_broken [] st \/ loop_broken (b :: initial) reads st)).
    { intros Q f Hq. eapply (triple_bind _ _ _ (fun _ => flushed (b :: initial))).
      - eapply triple_consequence; [apply (flush_triple (b :: initial))|done|done|].
        intros s H. right. by apply loop_broken_here.
      - intros []. eapply triple_consequence; [exact Hq|done|done|by right]. }
    apply (Hkeep _ (fun _ => if bool_decide (m = DirectMode)
      then st ← io_get; mret (Some (UpDirect (up_bytes st))) else uplink_loop env 0 reads)); [|exact Hi].
    case_bool_decide as Hd.
    + apply triple_get_bind. intros s [Hi' Hs]. apply triple_ret. intros ? ->.
      apply loop_post_here; [done|]. split_and!; [exact (mode_direct _ _ _ Hi Hm Hd)|done|done].
    + eapply triple_consequence; [exact (uplink_loop_triple reads 0 _ (mode_framed _ _ _ Hi Hm Hd))|by intros s []|done|done].
  - eapply triple_consequence; [apply uplink_loop_triple, new_decoder_framed|done|done|by right].
Qed.
End Delivery.

Lemma plaintexts_prefix k reads l : l ++ plaintexts (take k reads) `prefix_of` l ++ plaintexts reads.
Proof.
  apply prefix_app. rewrite <- (take_drop k reads) at 2. unfold plaintexts.
  rewrite map_app, concat_app. by apply prefix_app_r.
Qed.

(** The drain writes the pipelined bytes behind what was written, whole or, when
    the write fails, a prefix of them. *)
Lemma drain_pending_spec env pending st :
  match drain_pending env pending (up_bytes st) st with
  | (Ok total, st') => up_written st' = up_written st ++ pending /\
      total = Z.min U64_MAX (up_bytes st + len pending)
  | (Err _, st') => up_written st' `prefix_of` up_written st ++ pending
  | (Panic, _) => False
  end.
Proof.
  unfold drain_pending, mbind, IO_bind, write_destination. case_bool_decide as Hp; cbn.
  - subst pending. by rewrite app_nil_r.
  - destruct (write_fails env (up_writes st)); cbn; [apply prefix_app, prefix_take|by rewrite firstn_all].
Qed.

(** C30: the uplink delivers exactly what the client sent. Whatever the record
    boundaries, batching, buffer capacities and write outcomes, a run that does not
    fail has consumed the prefetched bytes and the plaintexts of exactly the first
    [k] answers of the reader, all of them records, none before the last reaching
    the Direct mode, and these decode without error to a payload. Waiting for the
    next record, [k] is the number of answers, everything decoded is written or
    staged, and nothing stays staged before a read that may block. On a clean close
    the answer after these [k] is the close, and the whole payload is written. At a
    Direct boundary the payload and then the bytes pipelined behind it have been
    written before the raw boundary is declared. The byte counts reported are the
    lengths written. After a failure the destination has received a prefix of the
    payload of some prefix of the input (of payload and pipelined bytes at a Direct
    boundary), and the loop never panics. *)
Theorem uplink_delivers (env : UplinkEnv) (user : UserId) (request_buffer : list byte) (prefetched : Z * Z)
    (reads : list Read) (pending : list byte) :
  len user = UUID_SIZE ->
  let initial := default [] (get_range request_buffer prefetched.1 prefetched.2) in
  let '(r, st) := relay_uplink env request_buffer prefetched reads pending (initial_uplink user) in
  match r with
  | Ok step =>
      exists k d payload,
        reached user initial reads k /\
        byte_run (new_decoder user) (initial ++ plaintexts (take k reads)) = Ok (d, payload) /\
        match step with
        | None =>
            k = length reads /\ mode d <> DirectMode /\ payload = up_written st ++ up_stage st /\
            (has_buffered_record env (length reads) = false -> up_stage st = [])
        | Some (UpFramed n, total) =>
            reads !! k = Some ReadCloseNotify /\ mode d <> DirectMode /\ up_written st = payload /\
            n = Z.min U64_MAX (len payload) /\ total = n
        | Some (UpDirect n, total) =>
            mode d = DirectMode /\ up_written st = payload ++ pending /\
            n = Z.min U64_MAX (len payload) /\ total = Z.min U64_MAX (len payload + len pending)
        end
  | Err _ =>
      exists consumed d payload,
        consumed `prefix_of` initial ++ plaintexts reads /\
        byte_run (new_decoder user) consumed = Ok (d, payload) /\
        (up_written st `prefix_of` payload \/
         mode d = DirectMode /\ up_written st `prefix_of` payload ++ pending)
  | Panic => False
  end.
Proof.
  intros Hu. unfold relay_uplink, mbind, IO_bind. cbn zeta.
  pose proof (uplink_framed_triple env user request_buffer prefetched reads _ (initial_uplink_inv user Hu)) as H.
  destruct (relay_uplink_framed _ _ _ _ _) as [[step|e|] st]; [| |done].
  - destruct H as (k & Hk & (Hrun & Hb & _) & H). cbn zeta in Hrun, H.
    destruct step as [[n|n]|].
    + destruct H as (Hc & Hf & Hs & ->). rewrite Hs, app_nil_r in Hrun.
      do 3 eexists. split_and!; [exact Hk|exact Hrun|done| |done|done|done].
      intros Hm. apply Hf. by do 2 eexists.
    + destruct H as ((d & p & Hd & Hm) & Hs & ->). rewrite Hs, app_nil_r in Hrun.
      assert (Hm' : mode (up_decoder st) = DirectMode) by congruence.
      pose proof (drain_pending_spec env pending st) as H. destruct (drain_pending _ _ _ _) as [[total|e|] st'];
        [destruct H as [Hw ->]| |done].
      * do 3 eexists. split_and!; [exact Hk|exact Hrun|done|done|done|]. rewrite Hb. slen.
      * do 3 eexists. split_and!; [apply plaintexts_prefix|exact Hrun|]. by right.
    + destruct H as (-> & Hf & Hs). do 3 eexists.
      split_and!; [exact Hk|exact Hrun|done| |done|exact Hs]. intros Hm. apply Hf. by do 2 eexists.
  - destruct H as [(d & p & Hd & Hw) | (k & d & p & Hd & Hw)].
    + exists [], d, p. split_and!; [apply prefix_nil|done|by left].
    + do 3 eexists. split_and!; [apply plaintexts_prefix|exact Hd|by left].
Qed.

(** A client that pipelines raw bytes behind a Direct frame split over two records. *)
Definition example_uplink_env : UplinkEnv :=
  {| stage_reserved := true; prefetch_alloc := fun _ => true; has_buffered_record := fun i => Nat.eqb i 1;
     stage_capacity := fun _ => MAX_PLAINTEXT_LEN; grow_ok := fun _ => true; decode_alloc := fun _ _ => true;
     write_fails := fun _ => None; shutdown_ok := true |}.

Definition example_prefetched : list byte := replicate 16 x07 ++ [x00; x00; x01; x00; x00; xaa].

(** The second run closes with the last record still staged: the flush on close
    writes it. *)
Lemma uplink_delivers_witness :
  let user := replicate 16 x07 in
  let buffer := example_prefetched in
  let direct := [ReadRecord [x02; x00; x02]; ReadRecord [x00; x01; xbb; xcc; x00]] in
  let closing := [ReadRecord [x00; x00; x02; x00; x00; xbb; xcc]; ReadCloseNotify] in
  (let '(r, st) := relay_uplink example_uplink_env buffer (0, 22) direct [xdd] (initial_uplink user) in
   r = Ok (Some (UpDirect 3, 4)) /\ up_written st = [xaa; xbb; xcc; xdd] /\
   exists k d payload, reached user buffer direct k /\
     byte_run (new_decoder user) (buffer ++ plaintexts (take k direct)) = Ok (d, payload) /\
     mode d = DirectMode /\ up_written st = payload ++ [xdd]) /\
  (let '(r, st) := relay_uplink example_uplink_env buffer (0, 22) closing [] (initial_uplink user) in
   r = Ok (Some (UpFramed 3, 3)) /\ up_written st = [xaa; xbb; xcc] /\
   exists k d payload, closing !! k = Some ReadCloseNotify /\
     byte_run (new_decoder user) (buffer ++ plaintexts (take k closing)) = Ok (d, payload) /\
     up_written st = payload).
Proof.
  cbn zeta. split.
  - pose proof (uplink_delivers example_uplink_env (replicate 16 x07) example_prefetched (0, 22)
      [ReadRecord [x02; x00; x02]; ReadRecord [x00; x01; xbb; xcc; x00]] [xdd] eq_refl) as H.
    replace (default _ _) with example_prefetched in H by reflexivity.
    cbn zeta in H. destruct (relay_uplink _ _ _ _ _ _) as [r st] eqn:E. vm_compute in E. injection E as <- <-.
    destruct H as (k & d & p & Hk & Hr & Hm & Hw & _). 
    split; [reflexivity|]. split; [reflexivity|]. exists k, d, p. split_and!; assumption.
  - pose proof (uplink_delivers example_uplink_env (replicate 16 x07) example_prefetched (0, 22)
      [ReadRecord [x00; x00; x02; x00; x00; xbb; xcc]; ReadCloseNotify] [] eq_refl) as H.
    replace (default _ _) with example_prefetched in H by reflexivity.
    cbn zeta in H. destruct (relay_uplink _ _ _ _ _ _) as [r st] eqn:E. vm_compute in E. injection E as <- <-.
    destruct H as (k & d & p & Hk & Hr & Hc & _ & Hw & _). 
    split; [reflexivity|]. split; [reflexivity|]. exists k, d, p. split_and!; assumption.
Defined.
