(* ===== verification/Nested.v ===== *)
(** * Nested TLS records of the destination ([src/server/vision/nested.rs])

    The buffered reader that classifies the destination's bytes into TLS records,
    and the detector that decides when Vision padding may end. The socket is the
    environment: the bytes still in the kernel, how many each read delivers and
    which reads fail. *)

From S2P Require Import Prelude Effects.

Definition NESTED_TLS_HEADER_SIZE : Z := 5.
Definition MAX_NESTED_TLS_RECORD_SIZE : Z := Z.shiftl 1 14 + 2048.
Definition MAX_NESTED_SERVER_HELLO_SIZE : Z := 8 * 1024.
Definition MAX_CLASSIFICATION_RECORDS : Z := 8.
Definition TLS_HANDSHAKE : Z := 22.
Definition TLS_APPLICATION_DATA : Z := 23.
Definition TLS_SERVER_HELLO : Z := 2.
Definition TLS13_VERSION : list byte := [x03; x04].
Definition TLS_AES_128_CCM_8_SHA256 : Z := 4869.
Definition NESTED_SOCKET_BUFFER_CAPACITY : Z := 4 * (NESTED_TLS_HEADER_SIZE + MAX_NESTED_TLS_RECORD_SIZE).

(** ** The reader *)

Inductive NestedRead := NestedEof | NestedRecord (bytes : list byte) | NestedUnframed (bytes : list byte).

Inductive NestedError := NestedAllocationFailed | NestedTimeout | NestedIdle | DestinationTruncatedTlsRecord.

(** [nr_kernel] is what the destination has still to deliver and [nr_reads] counts
    the socket reads made. *)
Record NestedRecordReader := {
  socket_buffer : list byte;
  buffered_start : Z;
  buffered_end : Z;
  nr_kernel : list byte;
  nr_reads : nat;
}.

Definition new_reader (stream : list byte) : NestedRecordReader :=
  {| socket_buffer := []; buffered_start := 0; buffered_end := 0; nr_kernel := stream; nr_reads := 0 |}.

(** What the [k]-th read does: whether allocations before it succeed, whether its
    deadline can be armed, and the bytes it delivers at most ([None]: it fails). *)
Record NestedEnv := {
  buffer_alloc : nat -> bool;
  idle_armed : nat -> bool;
  delivered : nat -> option nat;
}.

Definition nested A := IO NestedRecordReader NestedError A.

Definition could_be_tls_record_header (prefix : list byte) : bool :=
  match prefix !! 0%nat with Some b => in_rangeb 20 23 b | None => true end &&
  match prefix !! 1%nat with Some b => u8 b =? 3 | None => true end &&
  match prefix !! 2%nat with Some b => u8 b <=? 4 | None => true end.

Definition looks_like_tls_record_header (header : list byte) : bool := could_be_tls_record_header header.

Definition set_range (st : NestedRecordReader) (buffer : list byte) (start stop : Z) : NestedRecordReader :=
  {| socket_buffer := buffer; buffered_start := start; buffered_end := stop;
     nr_kernel := nr_kernel st; nr_reads := nr_reads st |}.

Definition zeros (n : Z) : list byte := replicate (Z.to_nat n) x00.

(** [copy_within(a..b, 0)]. *)
Definition copy_to_front (l : list byte) (a b : Z) : list byte :=
  take (Z.to_nat (b - a)) (drop (Z.to_nat a) l) ++ drop (Z.to_nat (b - a)) l.

(** The buffer maintenance of [refill]: allocate once, reset an empty range,
    compact when the free tail cannot hold a record, grow when there is none. *)
Definition allocate (ok : bool) : nested unit :=
  st ← io_get;
  if bool_decide (socket_buffer st = []) then
    _ ← io_check ok NestedAllocationFailed;
    io_put (set_range st (zeros NESTED_SOCKET_BUFFER_CAPACITY) (buffered_start st) (buffered_end st))
  else mret tt.

Definition compact : nested unit :=
  st ← io_get;
  if buffered_start st =? buffered_end st then io_put (set_range st (socket_buffer st) 0 0)
  else if len (socket_buffer st) - buffered_end st <? NESTED_TLS_HEADER_SIZE + MAX_NESTED_TLS_RECORD_SIZE then
    io_put (set_range st (copy_to_front (socket_buffer st) (buffered_start st) (buffered_end st)) 0
      (buffered_end st - buffered_start st))
  else mret tt.

Definition grow (ok : bool) : nested unit :=
  st ← io_get;
  if buffered_end st =? len (socket_buffer st) then
    _ ← io_check ok NestedAllocationFailed;
    io_put (set_range st (socket_buffer st ++ zeros NESTED_SOCKET_BUFFER_CAPACITY)
      (buffered_start st) (buffered_end st))
  else mret tt.

(** One socket read into the free tail: at least one byte unless the stream ended
    or the tail is empty. *)
Definition read_count (size free available : nat) : nat := Nat.min (Nat.min free available) (Nat.max 1 size).

Definition read_socket (answer : option nat) : nested Z := fun st =>
  let free := length (drop (Z.to_nat (buffered_end st)) (socket_buffer st)) in
  match answer with
  | None => (Err NestedIdle, {| socket_buffer := socket_buffer st; buffered_start := buffered_start st;
      buffered_end := buffered_end st; nr_kernel := nr_kernel st; nr_reads := S (nr_reads st) |})
  | Some size =>
    let n := read_count size free (length (nr_kernel st)) in
    (Ok (Z.of_nat n),
     {| socket_buffer := take (Z.to_nat (buffered_end st)) (socket_buffer st) ++ take n (nr_kernel st) ++
          drop (Z.to_nat (buffered_end st) + n) (socket_buffer st);
        buffered_start := buffered_start st; buffered_end := buffered_end st;
        nr_kernel := drop n (nr_kernel st); nr_reads := S (nr_reads st) |})
  end.

Section Reader.
Context (env : NestedEnv).

Definition refill : nested bool :=
  st ← io_get;
  let k := nr_reads st in
  _ ← allocate (buffer_alloc env k);
  _ ← compact;
  _ ← grow (buffer_alloc env k);
  _ ← io_check (idle_armed env k) NestedTimeout;
  st ← io_get;
  (* [get_mut(end..)] *)
  _ ← io_check (buffered_end st <=? len (socket_buffer st)) NestedAllocationFailed;
  read ← read_socket (delivered env k);
  if read =? 0 then mret false
  else
    st ← io_get;
    _ ← io_put (set_range st (socket_buffer st) (buffered_start st) (buffered_end st + read));
    mret true.

Definition buffered_slice (st : NestedRecordReader) (i j : Z) : list byte :=
  default [] (get_range (socket_buffer st) i j).

(** Consumes the range up to [stop] and returns the bytes from the old start. *)
Definition consume_to (stop : Z) : nested (list byte) :=
  st ← io_get;
  _ ← io_put (set_range st (socket_buffer st) stop (buffered_end st));
  mret (buffered_slice st (buffered_start st) stop).

(** The header loop of [next]: [Some] is an early return. Out of fuel is [Panic]. *)
Fixpoint header_loop (fuel : nat) : nested (option NestedRead) :=
  io_reads (fun st =>
  if buffered_end st - buffered_start st <? NESTED_TLS_HEADER_SIZE then
    match fuel with
    | O => fun st => (Panic, st)
    | S fuel =>
      if negb (could_be_tls_record_header (buffered_slice st (buffered_start st) (buffered_end st))) then
        bytes ← consume_to (buffered_end st); mret (Some (NestedUnframed bytes))
      else
        more ← refill;
        if (more : bool) then header_loop fuel
        else
          st ← io_get;
          if buffered_end st - buffered_start st =? 0 then mret (Some NestedEof)
          else bytes ← consume_to (buffered_end st); mret (Some (NestedUnframed bytes))
    end
  else mret None).

(** The body loop of [next]. *)
Fixpoint body_loop (fuel : nat) (record_length : Z) : nested unit :=
  io_reads (fun st =>
  if buffered_end st - buffered_start st <? record_length then
    match fuel with
    | O => fun st => (Panic, st)
    | S fuel =>
      more ← refill;
      if (more : bool) then body_loop fuel record_length else io_throw DestinationTruncatedTlsRecord
    end
  else mret tt).

(** [u16::from_be_bytes([header[3], header[4]])]. *)
Definition body_length_of (header : list byte) : Z := from_be (take 2 (drop 3 header)).

Definition next : nested NestedRead :=
  early ← header_loop 6;
  match early with
  | Some read => mret read
  | None =>
    st ← io_get;
    let header_end := buffered_start st + NESTED_TLS_HEADER_SIZE in
    match get_range (socket_buffer st) (buffered_start st) header_end with
    | None => io_throw DestinationTruncatedTlsRecord
    | Some header =>
      let body_length := body_length_of header in
      if negb (looks_like_tls_record_header header) || (MAX_NESTED_TLS_RECORD_SIZE <? body_length)
      then bytes ← consume_to header_end; mret (NestedUnframed bytes)
      else
        let record_length := NESTED_TLS_HEADER_SIZE + body_length in
        _ ← body_loop (Z.to_nat record_length) record_length;
        st ← io_get;
        bytes ← consume_to (buffered_start st + record_length);
        mret (NestedRecord bytes)
    end
  end.
End Reader.

Definition into_inner_with_pending (st : NestedRecordReader) : list byte :=
  buffered_slice st (buffered_start st) (buffered_end st).

(** ** The reader's invariant

    The buffered range is [pend], between stale bytes and the free tail; the
    buffer is either not allocated yet or has its one capacity. *)

Notation CAPACITY := NESTED_SOCKET_BUFFER_CAPACITY.

Lemma capacity_eq : CAPACITY = 73748.
Proof. reflexivity. Qed.

Lemma len_zeros n : 0 <= n -> len (zeros n) = n.
Proof. intros Hn. unfold zeros. rewrite len_replicate. lia. Qed.

#[local] Opaque zeros NESTED_SOCKET_BUFFER_CAPACITY.

Lemma record_room_eq : NESTED_TLS_HEADER_SIZE + MAX_NESTED_TLS_RECORD_SIZE = 18437.
Proof. reflexivity. Qed.

Definition holds (pend kernel : list byte) (st : NestedRecordReader) : Prop :=
  nr_kernel st = kernel /\
  (socket_buffer st = [] \/ len (socket_buffer st) = CAPACITY) /\
  exists pre post, socket_buffer st = pre ++ pend ++ post /\
    buffered_start st = len pre /\ buffered_end st = len pre + len pend.

(** ... and allocated, with room for a read. *)
Definition ready (pend kernel : list byte) (st : NestedRecordReader) : Prop :=
  nr_kernel st = kernel /\ len (socket_buffer st) = CAPACITY /\
  exists pre post, socket_buffer st = pre ++ pend ++ post /\ post <> [] /\
    buffered_start st = len pre /\ buffered_end st = len pre + len pend.

Lemma ready_holds pend kernel st : ready pend kernel st -> holds pend kernel st.
Proof. intros (Hk & Hl & pre & post & Hb & _ & Hs & He). split_and!; [done|by right|]. by exists pre, post. Qed.

Lemma holds_pending pend kernel st : holds pend kernel st -> into_inner_with_pending st = pend.
Proof.
  intros (_ & _ & pre & post & Hb & Hs & He). unfold into_inner_with_pending, buffered_slice.
  pose proof (len_nonneg pend). rewrite Hb, Hs, He, get_range_app_r by lia.
  replace (len pre - len pre) with 0 by lia. rewrite get_range_prefix by lia. done.
Qed.

Lemma new_reader_holds stream : holds [] stream (new_reader stream).
Proof. split_and!; [done|by left|]. by exists [], []. Qed.

Lemma holds_count pend kernel st :
  holds pend kernel st -> buffered_end st - buffered_start st = len pend.
Proof. intros (_ & _ & pre & post & _ & -> & ->). lia. Qed.

(** The environment failed somewhere. *)
Definition env_faulty (env : NestedEnv) : Prop :=
  exists k, buffer_alloc env k = false \/ idle_armed env k = false \/ delivered env k = None.

Section Refill.
Context (env : NestedEnv) (pend kernel : list byte).
Context (Hroom : len pend < NESTED_TLS_HEADER_SIZE + MAX_NESTED_TLS_RECORD_SIZE).

Definition interrupted (st : NestedRecordReader) : Prop := env_faulty env /\ holds pend kernel st.

Lemma allocate_triple k :
  triple (holds pend kernel) (allocate (buffer_alloc env k))
    (fun _ st => holds pend kernel st /\ len (socket_buffer st) = CAPACITY) interrupted.
Proof.
  apply triple_get_bind. intros st Hst. case_bool_decide as Hb.
  - eapply (triple_bind _ _ _ (fun _ s => s = st)).
    + unfold io_check. destruct (buffer_alloc env k) eqn:Ha; [by apply triple_ret|].
      apply triple_throw. intros ? ->. split; [by exists k; left|done].
    + intros [] ? ->. cbn. destruct Hst as (Hk & _ & pre & post & Hcat & Hs & He).
      rewrite Hb in Hcat. symmetry in Hcat. apply app_nil in Hcat as [-> [-> ->]%app_nil].
      assert (Hz : len (zeros CAPACITY) = CAPACITY) by (apply len_zeros; rewrite capacity_eq; lia).
      split; [|exact Hz]. split; [exact Hk|]. split; [right; exact Hz|].
      exists [], (zeros CAPACITY). split; [reflexivity|]. split; [exact Hs|exact He].
  - apply triple_ret. intros ? ->. split; [done|]. by destruct Hst as (_ & [|] & _).
Qed.

Lemma compact_triple :
  triple (fun st => holds pend kernel st /\ len (socket_buffer st) = CAPACITY) compact
    (fun _ => ready pend kernel) interrupted.
Proof.
  apply triple_get_bind. intros st [(Hk & _ & pre & post & Hb & Hs & He) Hl].
  rewrite record_room_eq, capacity_eq in *. pose proof (len_nonneg pend).
  destruct (Z.eqb_spec (buffered_start st) (buffered_end st)) as [Heq|Hne].
  - intros ? ->. cbn. assert (pend = []) as -> by (destruct pend; [done|slen]).
    split_and!; [done|done|]. exists [], (socket_buffer st). split_and!; [done| |done|done].
    intros Hnil. by rewrite Hnil in Hl.
  - destruct (Z.ltb_spec (len (socket_buffer st) - buffered_end st) 18437) as [Hlt|Hge].
    + intros ? ->. cbn. unfold copy_to_front.
      assert (Hp : take (Z.to_nat (buffered_end st - buffered_start st))
          (drop (Z.to_nat (buffered_start st)) (socket_buffer st)) = pend).
      { replace (Z.to_nat (buffered_end st - buffered_start st)) with (length pend) by (unfold len in *; lia).
        replace (Z.to_nat (buffered_start st)) with (length pre) by (unfold len in *; lia).
        by rewrite Hb, drop_app_length, take_app_length. }
      rewrite Hp. set (tail := drop _ (socket_buffer st)).
      assert (Ht : len pend + len tail = CAPACITY).
      { unfold tail. rewrite len_drop. rewrite capacity_eq. lia. }
      split; [done|]. split; [cbn; rewrite len_app; exact Ht|].
      exists [], tail. split_and!; [done| |done|cbn [buffered_end set_range]; rewrite len_nil; lia]. intros Hnil. rewrite Hnil, len_nil, capacity_eq in Ht. lia.
    + apply triple_ret. intros ? ->. split_and!; [done|done|]. exists pre, post. split_and!; try done.
      intros ->. rewrite Hb in Hge, Hl. autorewrite with lens in Hge, Hl. lia.
Qed.

Lemma grow_triple k :
  triple (ready pend kernel) (grow (buffer_alloc env k)) (fun _ => ready pend kernel) interrupted.
Proof.
  apply triple_get_bind. intros st Hst. pose proof Hst as (_ & Hl & pre & post & Hb & Hpost & Hs & He).
  destruct (Z.eqb_spec (buffered_end st) (len (socket_buffer st))) as [Heq|_]; [|apply triple_ret; by intros ? ->].
  exfalso. apply Hpost. rewrite Hb in Heq. autorewrite with lens in Heq. destruct post; [done|slen].
Qed.

(** A refill adds what one read delivered. *)
Definition refilled (more : bool) (st : NestedRecordReader) : Prop :=
  if more then exists chunk kernel', chunk <> [] /\ kernel = chunk ++ kernel' /\ holds (pend ++ chunk) kernel' st
  else kernel = [] /\ holds pend [] st.

Lemma read_triple k :
  triple (ready pend kernel)
    (read ← read_socket (delivered env k);
     if read =? 0 then mret false
     else
       st ← io_get;
       _ ← io_put (set_range st (socket_buffer st) (buffered_start st) (buffered_end st + read));
       mret true) refilled interrupted.
Proof.
  intros st Hst. pose proof Hst as (Hk & Hl & pre & post & Hb & Hpost & Hs & He).
  unfold mbind, IO_bind, read_socket. destruct (delivered env k) as [size|] eqn:Hd.
  2: { cbn. split; [exists k; tauto|]. by apply ready_holds in Hst. }
  assert (Hend : Z.to_nat (buffered_end st) = length (pre ++ pend))
    by (rewrite length_app; unfold len in *; lia).
  rewrite Hend, Hb, Hk. rewrite (app_assoc pre pend post), drop_app_length, take_app_length.
  rewrite <- drop_drop, drop_app_length.
  set (n := read_count size (length post) (length kernel)).
  assert (Hn : (n <= length post /\ n <= length kernel)%nat) by (unfold n, read_count; lia).
  assert (Hlen : len ((pre ++ pend) ++ take n kernel ++ drop n post) = CAPACITY).
  { rewrite <- Hl, Hb. autorewrite with lens. unfold len in *. lia. }
  destruct (Z.eqb_spec (Z.of_nat n) 0) as [H0|H0]; cbn.
  - assert (kernel = []) as Hnil.
    { destruct kernel; [done|]. destruct post; [done|]. unfold n, read_count in H0. cbn [length] in H0. lia. }
    replace n with 0%nat in * by lia. rewrite Hnil in *. split; [done|]. split_and!; [done|by right|].
    exists pre, post. split_and!; [by rewrite <- app_assoc|done|done].
  - exists (take n kernel), (drop n kernel). split_and!.
    + intros Hnil%(f_equal length). rewrite length_take in Hnil. cbn in Hnil. lia.
    + by rewrite take_drop.
    + split_and!; [done|by right|]. exists pre, (drop n post). cbn. split_and!; [by rewrite <- !app_assoc|done|].
      rewrite He, len_app, len_take. unfold len. lia.
Qed.

Lemma refill_triple : triple (holds pend kernel) (refill env) refilled interrupted.
Proof.
  apply triple_get_bind. intros st0 Hst0. cbn zeta.
  eapply triple_bind; [eapply triple_consequence; [apply (allocate_triple (nr_reads st0))|by intros ? ->|done|done]|].
  intros []. eapply triple_bind; [apply compact_triple|].
  intros []. eapply triple_bind; [apply grow_triple|]. intros [].
  eapply (triple_bind _ _ _ (fun _ => ready pend kernel)).
  { unfold io_check. destruct (idle_armed env (nr_reads st0)) eqn:Ha; [by apply triple_ret|].
    apply triple_throw. intros s Hs. split; [exists (nr_reads st0); tauto|by apply ready_holds]. }
  intros []. apply triple_get_bind. intros st Hst.
  pose proof Hst as (_ & _ & pre & post & Hb & _ & _ & He).
  rewrite (proj2 (Z.leb_le (buffered_end st) (len (socket_buffer st))))
    by (rewrite Hb, He; autorewrite with lens; pose proof (len_nonneg post); lia).
  eapply triple_consequence; [apply (read_triple (nr_reads st0))|by intros ? ->|done|done].
Qed.
End Refill.

(** ** Classification, as a function of the stream *)

Inductive Classified := CEof | CUnframed | CTruncated | CRecord (bytes : list byte).

Definition classify (stream : list byte) : Classified :=
  if bool_decide (stream = []) then CEof
  else if negb (could_be_tls_record_header (take 5 stream)) then CUnframed
  else if len stream <? NESTED_TLS_HEADER_SIZE then CUnframed
  else
    let body_length := body_length_of (take 5 stream) in
    if MAX_NESTED_TLS_RECORD_SIZE <? body_length then CUnframed
    else if len stream <? NESTED_TLS_HEADER_SIZE + body_length then CTruncated
    else CRecord (take (Z.to_nat (NESTED_TLS_HEADER_SIZE + body_length)) stream).

(** A returned read is the classified start of the stream and leaves the rest of
    it; how much of an unframed prefix is returned depends on what had arrived. *)
Definition faithful_read (stream : list byte) (read : NestedRead) (rest : list byte) : Prop :=
  match read with
  | NestedEof => classify stream = CEof /\ rest = []
  | NestedRecord bytes => classify stream = CRecord bytes /\ stream = bytes ++ rest
  | NestedUnframed bytes => classify stream = CUnframed /\ stream = bytes ++ rest /\ bytes <> []
  end.

Lemma could_be_prefix p q :
  p `prefix_of` q -> could_be_tls_record_header q = true -> could_be_tls_record_header p = true.
Proof.
  intros [r ->]. unfold could_be_tls_record_header.
  assert (Hi : forall i (f : byte -> bool),
    match (p ++ r) !! i with Some b => f b | None => true end = true ->
    match p !! i with Some b => f b | None => true end = true).
  { intros i f H. destruct (p !! i) eqn:E; [|done]. by rewrite (lookup_app_l_Some _ _ _ _ E) in H. }
  intros [[H0 H1]%andb_true_iff H2]%andb_true_iff.
  rewrite !andb_true_iff. split_and!; by apply Hi.
Qed.

Lemma take_prefix_of {A} (p l : list A) n :
  p `prefix_of` l -> (length p <= n)%nat -> p `prefix_of` take n l.
Proof. intros [k ->] Hn. rewrite take_app_ge by done. by apply prefix_app_r. Qed.

Lemma classify_not_tls pend kernel :
  pend <> [] -> len pend <= 5 -> could_be_tls_record_header pend = false ->
  classify (pend ++ kernel) = CUnframed.
Proof.
  intros Hne Hl Hc. unfold classify. rewrite bool_decide_false by (by destruct pend).
  destruct (could_be_tls_record_header (take 5 (pend ++ kernel))) eqn:E; [|done].
  rewrite (could_be_prefix pend (take 5 (pend ++ kernel))) in Hc; [done| |done].
  apply take_prefix_of; [by apply prefix_app_r|unfold len in Hl; lia].
Qed.

Lemma classify_short pend : pend <> [] -> len pend < 5 -> classify pend = CUnframed.
Proof.
  intros Hne Hl. unfold classify. rewrite bool_decide_false by done.
  destruct (could_be_tls_record_header _); [|done]. cbn.
  by rewrite (proj2 (Z.ltb_lt (len pend) NESTED_TLS_HEADER_SIZE)) by done.
Qed.

(** Some split of [stream] is held: nothing was lost. *)
Definition holds_stream (stream : list byte) (st : NestedRecordReader) : Prop :=
  exists pend kernel, pend ++ kernel = stream /\ holds pend kernel st.

Lemma consume_spec a b kernel st stop :
  holds (a ++ b) kernel st -> stop = buffered_start st + len a ->
  exists st', consume_to stop st = (Ok a, st') /\ holds b kernel st'.
Proof.
  intros (Hk & Hl & pre & post & Hb & Hs & He) ->.
  exists (set_range st (socket_buffer st) (buffered_start st + len a) (buffered_end st)). split.
  - unfold consume_to, mbind, IO_bind, io_get, io_put. f_equal. f_equal. unfold buffered_slice.
    pose proof (len_nonneg a).
    rewrite Hb, Hs, get_range_app_r by lia. replace (len pre - len pre) with 0 by lia.
    rewrite <- app_assoc, get_range_prefix by lia. done.
  - split_and!; [done|done|]. exists (pre ++ a), post. cbn. rewrite Hs, He, Hb.
    split_and!; [by rewrite <- !app_assoc|slen|slen].
Qed.

Lemma consume_all pend kernel st :
  holds pend kernel st -> exists st', consume_to (buffered_end st) st = (Ok pend, st') /\ holds [] kernel st'.
Proof.
  intros H. apply consume_spec; [by rewrite app_nil_r|]. rewrite <- (holds_count _ _ _ H). lia.
Qed.

Section Next.
Context (env : NestedEnv).

(** An interruption by the environment or the end of the stream inside a record;
    nothing was lost either way. *)
Definition stopped (stream : list byte) (st : NestedRecordReader) : Prop :=
  (env_faulty env \/ classify stream = CTruncated) /\ holds_stream stream st.

Lemma interrupted_stopped pend kernel st :
  interrupted env pend kernel st -> stopped (pend ++ kernel) st.
Proof. intros [Hf H]. split; [by left|]. by exists pend, kernel. Qed.

Definition header_post (stream : list byte) (early : option NestedRead) (st : NestedRecordReader) : Prop :=
  match early with
  | None => exists pend kernel, pend ++ kernel = stream /\ holds pend kernel st /\ 5 <= len pend
  | Some read => exists rest, faithful_read stream read rest /\ holds_stream rest st
  end.

Lemma header_loop_triple stream fuel : forall pend kernel,
  pend ++ kernel = stream -> 6 <= Z.of_nat fuel + len pend ->
  triple (holds pend kernel) (header_loop env fuel) (header_post stream) (stopped stream).
Proof.
  induction fuel as [|fuel IH]; intros pend kernel Hcat Hfuel; cbn [header_loop]; unfold io_reads;
    apply triple_get_bind; intros st Hst; rewrite (holds_count _ _ _ Hst);
    (destruct (Z.ltb_spec (len pend) NESTED_TLS_HEADER_SIZE) as [Hlt|Hge];
      [|apply triple_ret; intros ? ->; exists pend, kernel; done]); unfold NESTED_TLS_HEADER_SIZE in Hlt.
  - lia.
  - change (buffered_slice st (buffered_start st) (buffered_end st)) with (into_inner_with_pending st).
    rewrite (holds_pending _ _ _ Hst). destruct (could_be_tls_record_header pend) eqn:Hc; cbn [negb].
    + eapply triple_bind.
      { eapply triple_consequence; [apply (refill_triple env pend kernel)|by intros ? ->|done|].
        - rewrite record_room_eq. lia.
        - intros s Hs. rewrite <- Hcat. by apply interrupted_stopped. }
      intros [] s Hs; cbn in Hs.
      * destruct Hs as (chunk & kernel' & Hne & -> & Hs). apply (IH (pend ++ chunk) kernel'); [by rewrite <- app_assoc| |done].
        rewrite len_app. destruct chunk; [done|]. rewrite len_cons. pose proof (len_nonneg chunk). lia.
      * destruct Hs as [-> Hs]. rewrite app_nil_r in Hcat. subst stream.
        unfold mbind, IO_bind, io_get. rewrite (holds_count _ _ _ Hs).
        destruct (Z.eqb_spec (len pend) 0) as [H0|H0].
        -- assert (pend = []) as -> by (destruct pend; [done|slen]). exists []. split; [done|]. by exists [], [].
        -- destruct (consume_all _ _ _ Hs) as (s' & -> & Hs'). exists []. split; [|by exists [], []].
           assert (pend <> []) by (by intros ->). split_and!; [by apply classify_short|by rewrite app_nil_r|done].
    + intros ? ->. unfold mbind, IO_bind. destruct (consume_all _ _ _ Hst) as (s' & -> & Hs').
      exists kernel. split; [|by exists [], kernel]. assert (pend <> []) by (by intros ->). subst stream.
      split_and!; [apply classify_not_tls; (done || lia)|done|done].
Qed.

Lemma body_loop_triple stream record_length fuel : forall pend kernel,
  pend ++ kernel = stream -> record_length <= Z.of_nat fuel + len pend ->
  record_length <= NESTED_TLS_HEADER_SIZE + MAX_NESTED_TLS_RECORD_SIZE ->
  (len stream < record_length -> classify stream = CTruncated) ->
  triple (holds pend kernel) (body_loop env fuel record_length)
    (fun _ st => exists pend kernel, pend ++ kernel = stream /\ holds pend kernel st /\ record_length <= len pend)
    (stopped stream).
Proof.
  intros pend kernel Hcat Hfuel Hmax Htr. revert pend kernel Hcat Hfuel.
  induction fuel as [|fuel IH]; intros pend kernel Hcat Hfuel; cbn [body_loop]; unfold io_reads;
    apply triple_get_bind; intros st Hst; rewrite (holds_count _ _ _ Hst);
    (destruct (Z.ltb_spec (len pend) record_length) as [Hlt|Hge];
      [|apply triple_ret; intros ? ->; by exists pend, kernel]).
  - lia.
  - eapply triple_bind.
    { eapply triple_consequence; [apply (refill_triple env pend kernel)|by intros ? ->|done|].
      - lia.
      - intros s Hs. rewrite <- Hcat. by apply interrupted_stopped. }
    intros [] s Hs; cbn in Hs.
    + destruct Hs as (chunk & kernel' & Hne & -> & Hs). apply (IH (pend ++ chunk) kernel'); [by rewrite <- app_assoc| |done].
      rewrite len_app. destruct chunk; [done|]. rewrite len_cons. pose proof (len_nonneg chunk). lia.
    + destruct Hs as [-> Hs]. rewrite app_nil_r in Hcat. subst stream. cbn.
      split; [right; by apply Htr|]. exists pend, []. by rewrite app_nil_r.
Qed.

Lemma classify_record stream header :
  header = take 5 stream -> 5 <= len stream -> could_be_tls_record_header header = true ->
  body_length_of header <= MAX_NESTED_TLS_RECORD_SIZE ->
  classify stream = if len stream <? NESTED_TLS_HEADER_SIZE + body_length_of header then CTruncated
    else CRecord (take (Z.to_nat (NESTED_TLS_HEADER_SIZE + body_length_of header)) stream).
Proof.
  intros -> Hl Hc Hb. unfold classify. rewrite bool_decide_false by (by intros ->). rewrite Hc. cbn [negb].
  rewrite (proj2 (Z.ltb_ge (len stream) NESTED_TLS_HEADER_SIZE)) by (unfold NESTED_TLS_HEADER_SIZE; lia).
  by rewrite (proj2 (Z.ltb_ge _ (body_length_of _))) by lia.
Qed.

Lemma classify_oversized stream header :
  header = take 5 stream -> 5 <= len stream ->
  negb (could_be_tls_record_header header) || (MAX_NESTED_TLS_RECORD_SIZE <? body_length_of header) = true ->
  classify stream = CUnframed.
Proof.
  intros -> Hl Hbad. unfold classify. rewrite bool_decide_false by (by intros ->).
  rewrite (proj2 (Z.ltb_ge (len stream) NESTED_TLS_HEADER_SIZE)) by (unfold NESTED_TLS_HEADER_SIZE; lia).
  destruct (could_be_tls_record_header _); [|done]. cbn in Hbad |- *. by rewrite Hbad.
Qed.

Lemma body_length_nonneg header : 0 <= body_length_of header.
Proof. unfold body_length_of. apply from_be_range. Qed.

(** The read after a complete header. *)
Lemma after_header_triple stream pend kernel :
  pend ++ kernel = stream -> 5 <= len pend ->
  triple (holds pend kernel)
    (st ← io_get;
     let header_end := buffered_start st + NESTED_TLS_HEADER_SIZE in
     match get_range (socket_buffer st) (buffered_start st) header_end with
     | None => io_throw DestinationTruncatedTlsRecord
     | Some header =>
       let body_length := body_length_of header in
       if negb (looks_like_tls_record_header header) || (MAX_NESTED_TLS_RECORD_SIZE <? body_length)
       then bytes ← consume_to header_end; mret (NestedUnframed bytes)
       else
         let record_length := NESTED_TLS_HEADER_SIZE + body_length in
         _ ← body_loop env (Z.to_nat record_length) record_length;
         st ← io_get;
         bytes ← consume_to (buffered_start st + record_length);
         mret (NestedRecord bytes)
     end)
    (fun read st => exists rest, faithful_read stream read rest /\ holds_stream rest st) (stopped stream).
Proof.
  intros Hcat H5. apply triple_get_bind. intros st Hst. cbn zeta.
  assert (Hhdr : get_range (socket_buffer st) (buffered_start st) (buffered_start st + NESTED_TLS_HEADER_SIZE)
    = Some (take 5 pend)).
  { destruct Hst as (_ & _ & pre & post & Hb & Hs & _). unfold NESTED_TLS_HEADER_SIZE.
    rewrite Hb, Hs, get_range_app_r by lia. replace (len pre - len pre) with 0 by lia.
    replace (len pre + 5 - len pre) with 5 by lia. rewrite get_range_app_l by lia.
    rewrite get_range_some by lia. done. }
  rewrite Hhdr. assert (Htake : take 5 pend = take 5 stream).
  { rewrite <- Hcat, take_app_le; [done|unfold len in H5; lia]. }
  assert (Hls : len pend <= len stream) by (rewrite <- Hcat, len_app; pose proof (len_nonneg kernel); lia).
  destruct (_ || _) eqn:Hbad.
  - intros ? ->. unfold mbind, IO_bind.
    destruct (consume_spec (take 5 pend) (drop 5 pend) kernel st (buffered_start st + NESTED_TLS_HEADER_SIZE))
      as (s' & -> & Hs'); [by rewrite take_drop|rewrite len_take; unfold NESTED_TLS_HEADER_SIZE; lia|].
    exists (drop 5 pend ++ kernel). split; [|by exists (drop 5 pend), kernel].
    split_and!; [by eapply classify_oversized; [|lia|]|by rewrite app_assoc, take_drop|].
    intros Hnil%(f_equal len). rewrite len_take, len_nil in Hnil. lia.
  - apply orb_false_iff in Hbad as [Hlooks%negb_false_iff Hmax%Z.ltb_ge].
    pose proof (body_length_nonneg (take 5 pend)) as Hb0. set (n := body_length_of (take 5 pend)) in *.
    assert (Hclass : classify stream = if len stream <? NESTED_TLS_HEADER_SIZE + n then CTruncated
      else CRecord (take (Z.to_nat (NESTED_TLS_HEADER_SIZE + n)) stream))
      by (apply classify_record; [done|lia|done|done]).
    eapply triple_bind.
    { eapply triple_consequence; [apply (body_loop_triple stream (NESTED_TLS_HEADER_SIZE + n)
        (Z.to_nat (NESTED_TLS_HEADER_SIZE + n)) pend kernel Hcat)|by intros ? ->|done|done].
      - unfold NESTED_TLS_HEADER_SIZE. lia.
      - lia.
      - intros Hshort. rewrite Hclass. by rewrite (proj2 (Z.ltb_lt _ _)) by lia. }
    intros [] s (pend' & kernel' & Hcat' & Hs & Hlong). unfold mbind, IO_bind, io_get.
    unfold NESTED_TLS_HEADER_SIZE in *. set (m := Z.to_nat (5 + n)).
    destruct (consume_spec (take m pend') (drop m pend') kernel' s (buffered_start s + (5 + n)))
      as (s' & -> & Hs'); [by rewrite take_drop|rewrite len_take; unfold m; lia|].
    exists (drop m pend' ++ kernel'). split; [|by exists (drop m pend'), kernel'].
    assert (Hm : take m stream = take m pend')
      by (rewrite <- Hcat', take_app_le; [done|unfold m; unfold len in *; lia]).
    cbn. rewrite Hclass, (proj2 (Z.ltb_ge _ _)) by (rewrite <- Hcat', len_app; pose proof (len_nonneg kernel'); lia).
    fold m. rewrite Hm. split; [done|]. by rewrite app_assoc, take_drop.
Qed.

Lemma next_triple stream :
  triple (holds_stream stream) (next env)
    (fun read st => exists rest, faithful_read stream read rest /\ holds_stream rest st) (stopped stream).
Proof.
  intros st (pend & kernel & Hcat & Hst). revert st Hst. change (triple (holds pend kernel) (next env)
    (fun read st => exists rest, faithful_read stream read rest /\ holds_stream rest st) (stopped stream)).
  unfold next. eapply triple_bind; [apply (header_loop_triple stream 6 pend kernel Hcat); slen|].
  intros [read|].
  - apply triple_ret. intros s Hs. exact Hs.
  - intros s (pend' & kernel' & Hcat' & Hs & H5). by apply (after_header_triple stream pend' kernel').
Qed.
End Next.

Lemma classify_record_len stream bytes : classify stream = CRecord bytes -> 5 <= len bytes.
Proof.
  unfold classify. case_bool_decide; [done|]. destruct (could_be_tls_record_header _); [|done]. cbn [negb].
  destruct (_ <? NESTED_TLS_HEADER_SIZE); [done|]. destruct (MAX_NESTED_TLS_RECORD_SIZE <? _); [done|].
  destruct (Z.ltb_spec (len stream) (NESTED_TLS_HEADER_SIZE + body_length_of (take 5 stream))) as [|Hge]; [done|].
  intros [= <-]. pose proof (body_length_nonneg (take 5 stream)). rewrite len_take. unfold NESTED_TLS_HEADER_SIZE in *. lia.
Qed.

(** [n] calls of [next] on one reader, errors included. *)
Fixpoint next_calls (env : NestedEnv) (n : nat) (st : NestedRecordReader)
    : list (result NestedError NestedRead) * NestedRecordReader :=
  match n with
  | O => ([], st)
  | S n =>
    let '(r, st) := next env st in
    let '(rs, st) := next_calls env n st in
    (r :: rs, st)
  end.

(** Every answer is the faithful start of what the previous ones left. *)
Fixpoint answers_faithful (env : NestedEnv) (stream : list byte) (answers : list (result NestedError NestedRead))
    (rest : list byte) : Prop :=
  match answers with
  | [] => rest = stream
  | Ok read :: answers => exists left, faithful_read stream read left /\ answers_faithful env left answers rest
  | Err _ :: answers => (env_faulty env \/ classify stream = CTruncated) /\ answers_faithful env stream answers rest
  | Panic :: _ => False
  end.

Lemma next_calls_faithful env n : forall stream st, holds_stream stream st ->
  let '(answers, st') := next_calls env n st in
  exists rest, answers_faithful env stream answers rest /\ holds_stream rest st'.
Proof.
  induction n as [|n IH]; intros stream st Hst; cbn [next_calls]; [by exists stream|].
  pose proof (next_triple env stream st Hst) as H. destruct (next env st) as [[read|e|] st1]; [| |done].
  - destruct H as (left & Hf & H1). specialize (IH left st1 H1).
    destruct (next_calls env n st1) as [answers st']. destruct IH as (rest & Ha & Hr).
    exists rest. split; [by exists left|done].
  - destruct H as [He H1]. specialize (IH stream st1 H1).
    destruct (next_calls env n st1) as [answers st']. destruct IH as (rest & Ha & Hr). by exists rest.
Qed.

(** The nested reader loses nothing and classifies by content, not by arrival.
    For every stream and however its bytes arrive (and whichever reads fail), each
    answer of [next] is the start of what the earlier answers left: end of stream,
    a complete TLS record, or an unframed prefix, exactly as the classification of
    the remaining stream says; an error means a failed environment or a stream that
    ends inside a record, and consumes nothing. What remains is the buffered range
    followed by the bytes still in the kernel, the buffer never exceeds its one
    capacity, and no call panics. *)
Theorem nested_reader_lossless (env : NestedEnv) (stream : list byte) (n : nat) :
  let '(answers, st) := next_calls env n (new_reader stream) in
  answers_faithful env stream answers (into_inner_with_pending st ++ nr_kernel st) /\
  len (socket_buffer st) <= NESTED_SOCKET_BUFFER_CAPACITY.
Proof.
  pose proof (next_calls_faithful env n stream (new_reader stream)) as H.
  specialize (H (ex_intro _ [] (ex_intro _ stream (conj eq_refl (new_reader_holds stream))))).
  destruct (next_calls env n (new_reader stream)) as [answers st].
  destruct H as (rest & Ha & pend & kernel & Hcat & Hst).
  rewrite (holds_pending _ _ _ Hst). pose proof Hst as (Hk & Hl & _). rewrite Hk, Hcat. split; [done|].
  destruct Hl as [->|Hl]; rewrite ?len_nil, capacity_eq in *; lia.
Qed.

(** ** The ServerHello detector *)

Inductive PaddingDecision := DecideContinue | DecideEnd | DecideDirect.

Record NestedTlsDetector := {
  records_seen : Z;
  server_hello : list byte;
  server_hello_length : option Z;
  tls13 : option bool;
}.

Definition new_detector : NestedTlsDetector :=
  {| records_seen := 0; server_hello := []; server_hello_length := None; tls13 := None |}.

Definition set_hello (d : NestedTlsDetector) (hello : list byte) : NestedTlsDetector :=
  {| records_seen := records_seen d; server_hello := hello;
     server_hello_length := server_hello_length d; tls13 := tls13 d |}.
Definition set_hello_length (d : NestedTlsDetector) (total : Z) : NestedTlsDetector :=
  {| records_seen := records_seen d; server_hello := server_hello d;
     server_hello_length := Some total; tls13 := tls13 d |}.
Definition set_tls13 (d : NestedTlsDetector) (v : bool) : NestedTlsDetector :=
  {| records_seen := records_seen d; server_hello := server_hello d;
     server_hello_length := server_hello_length d; tls13 := Some v |}.

(** The extension scan; [extensions] is what follows the cursor. *)
Fixpoint find_supported_versions (fuel : nat) (extensions : list byte) : bool :=
  match fuel with
  | O => false
  | S fuel =>
    if 4 <=? len extensions then
      let extension_type := from_be (take 2 extensions) in
      let extension_length := from_be (take 2 (drop 2 extensions)) in
      match get_range extensions 4 (4 + extension_length) with
      | None => false
      | Some value =>
        if extension_type =? 43 then bytes_eqb value TLS13_VERSION
        else find_supported_versions fuel (drop (Z.to_nat (4 + extension_length)) extensions)
      end
    else false
  end.

Definition is_tls13_server_hello (message : list byte) : bool :=
  match get_range message 4 (len message) with
  | None => false
  | Some body =>
    match body !! 34%nat with
    | None => false
    | Some session_id_length =>
      let cipher_offset := 35 + u8 session_id_length in
      match get_range body cipher_offset (cipher_offset + 2) with
      | None => false
      | Some cipher_bytes =>
        if from_be cipher_bytes =? TLS_AES_128_CCM_8_SHA256 then false
        else
          let extensions_length_offset := cipher_offset + 3 in
          match get_range body extensions_length_offset (extensions_length_offset + 2) with
          | None => false
          | Some length_bytes =>
            let extensions_start := extensions_length_offset + 2 in
            match get_range body extensions_start (extensions_start + from_be length_bytes) with
            | None => false
            | Some extensions => find_supported_versions (length extensions) extensions
            end
          end
      end
    end
  end.

(** [alloc n] answers [try_reserve(n)]. *)
Definition extend_server_hello (alloc : Z -> bool) (d : NestedTlsDetector) (body : list byte) (expected : Z)
    : NestedTlsDetector :=
  let remaining := saturating_sub expected (len (server_hello d)) in
  let count := Z.min remaining (len body) in
  if negb (alloc count) then set_tls13 d false
  else set_hello d (server_hello d ++ take (Z.to_nat count) body).

(** The declared length of the handshake message, from its bytes 1 to 3. *)
Definition hello_length (hello : list byte) : Z :=
  Z.lor (Z.lor (Z.shiftl (u8 (nth 1 hello x00)) 16) (Z.shiftl (u8 (nth 2 hello x00)) 8)) (u8 (nth 3 hello x00)).

(** The tail of [observe_server_hello]: a complete message is judged. *)
Definition judge (d : NestedTlsDetector) : NestedTlsDetector :=
  match server_hello_length d with
  | None => d
  | Some expected =>
    if len (server_hello d) =? expected then set_tls13 d (is_tls13_server_hello (server_hello d)) else d
  end.

Definition observe_server_hello (alloc : Z -> bool) (d : NestedTlsDetector) (body : list byte)
    : NestedTlsDetector :=
  match server_hello_length d with
  | None =>
    if bool_decide (server_hello d = []) && negb (bool_decide (u8 <$> head body = Some TLS_SERVER_HELLO)) then d
    else
      let header_remaining := saturating_sub 4 (len (server_hello d)) in
      let header_bytes := Z.min header_remaining (len body) in
      if negb (alloc header_bytes) then set_tls13 d false
      else
        let d := set_hello d (server_hello d ++ take (Z.to_nat header_bytes) body) in
        if len (server_hello d) <? 4 then d
        else
          match checked_add USIZE_MAX (hello_length (server_hello d)) 4 with
          | None => set_tls13 d false
          | Some total =>
            if MAX_NESTED_SERVER_HELLO_SIZE <? total then set_tls13 d false
            else judge (extend_server_hello alloc (set_hello_length d total)
                          (drop (Z.to_nat header_bytes) body) total)
          end
  | Some expected => judge (extend_server_hello alloc d body expected)
  end.

Definition observe (alloc : Z -> bool) (d : NestedTlsDetector) (record : list byte)
    : PaddingDecision * NestedTlsDetector :=
  let d := {| records_seen := Z.min U8_MAX (records_seen d + 1); server_hello := server_hello d;
              server_hello_length := server_hello_length d; tls13 := tls13 d |} in
  let content_type := u8 <$> head record in
  let body := default [] (get_range record NESTED_TLS_HEADER_SIZE (len record)) in
  let d := if bool_decide (tls13 d = None) && bool_decide (content_type = Some TLS_HANDSHAKE)
           then observe_server_hello alloc d body else d in
  (match tls13 d with
   | Some true => if bool_decide (content_type = Some TLS_APPLICATION_DATA) then DecideDirect else DecideContinue
   | Some false => DecideEnd
   | None => if MAX_CLASSIFICATION_RECORDS <=? records_seen d then DecideEnd else DecideContinue
   end, d).

(** ** What the detector decides

    The handshake bytes from the first record that starts a ServerHello on, as
    if they had arrived in one piece, and the verdict on them. *)

Definition hello_step (hello body : list byte) : list byte :=
  if bool_decide (hello = []) && negb (bool_decide (u8 <$> head body = Some TLS_SERVER_HELLO)) then hello
  else hello ++ body.

Definition handshake_body (record : list byte) : option (list byte) :=
  if bool_decide (u8 <$> head record = Some TLS_HANDSHAKE)
  then Some (default [] (get_range record NESTED_TLS_HEADER_SIZE (len record))) else None.

Definition hello_bytes (records : list (list byte)) : list byte :=
  fold_left hello_step (omap handshake_body records) [].

Definition verdict (hello : list byte) : option bool :=
  if len hello <? 4 then None
  else
    let total := hello_length hello + 4 in
    if MAX_NESTED_SERVER_HELLO_SIZE <? total then Some false
    else if len hello <? total then None
    else Some (is_tls13_server_hello (take (Z.to_nat total) hello)).

Definition spec_decision (before : list (list byte)) (record : list byte) : PaddingDecision :=
  match verdict (hello_bytes (before ++ [record])) with
  | Some true =>
    if bool_decide (u8 <$> head record = Some TLS_APPLICATION_DATA) then DecideDirect else DecideContinue
  | Some false => DecideEnd
  | None => if MAX_CLASSIFICATION_RECORDS <=? len before + 1 then DecideEnd else DecideContinue
  end.

Lemma hello_length_range hello : 0 <= hello_length hello < 2 ^ 24.
Proof.
  unfold hello_length. pose proof (u8_range (nth 1 hello x00)). pose proof (u8_range (nth 2 hello x00)).
  pose proof (u8_range (nth 3 hello x00)).
  assert (Hs1 : 0 <= Z.shiftl (u8 (nth 1 hello x00)) 16 < 2 ^ 24) by (rewrite Z.shiftl_mul_pow2 by lia; lia).
  assert (Hs2 : 0 <= Z.shiftl (u8 (nth 2 hello x00)) 8 < 2 ^ 24) by (rewrite Z.shiftl_mul_pow2 by lia; lia).
  assert (Hlor : forall a b, 0 <= a < 2 ^ 24 -> 0 <= b < 2 ^ 24 -> 0 <= Z.lor a b < 2 ^ 24).
  { intros a b Ha Hb. split; [by apply Z.lor_nonneg; lia|].
    destruct (Z.eq_dec (Z.lor a b) 0) as [->|Hn]; [lia|]. apply Z.log2_lt_pow2; [|].
    - pose proof (proj2 (Z.lor_nonneg a b) ltac:(lia)). lia.
    - rewrite Z.log2_lor by lia. apply Z.max_lub_lt.
      + destruct (Z.eq_dec a 0) as [->|]; [cbn; lia|apply Z.log2_lt_pow2; lia].
      + destruct (Z.eq_dec b 0) as [->|]; [cbn; lia|apply Z.log2_lt_pow2; lia]. }
  apply Hlor; [by apply Hlor|lia].
Qed.

Lemma hello_length_app hello x : 4 <= len hello -> hello_length (hello ++ x) = hello_length hello.
Proof.
  intros H. unfold hello_length. rewrite !app_nth1 by (unfold len in H; lia). done.
Qed.

(** A verdict is final. *)
Lemma verdict_app hello x b : verdict hello = Some b -> verdict (hello ++ x) = Some b.
Proof.
  unfold verdict. pose proof (len_nonneg x). rewrite len_app.
  destruct (Z.ltb_spec (len hello) 4); [done|]. rewrite hello_length_app by done.
  rewrite (proj2 (Z.ltb_ge _ 4)) by lia. destruct (_ <? hello_length hello + 4); [done|].
  destruct (Z.ltb_spec (len hello) (hello_length hello + 4)); [done|].
  rewrite (proj2 (Z.ltb_ge _ _)) by lia. intros <-. do 2 f_equal.
  pose proof (hello_length_range hello). apply take_app_le. unfold len in *. lia.
Qed.

Lemma verdict_step hello body b : verdict hello = Some b -> verdict (hello_step hello body) = Some b.
Proof. unfold hello_step. destruct (_ && _); [done|]. apply verdict_app. Qed.

(** The undecided detector has stored exactly the hello bytes. *)
Definition tracks (hello : list byte) (d : NestedTlsDetector) : Prop :=
  tls13 d = None /\ server_hello d = hello /\
  match server_hello_length d with
  | None => len hello < 4
  | Some total => 4 <= len hello < total /\ total = hello_length hello + 4 /\ total <= MAX_NESTED_SERVER_HELLO_SIZE
  end.

Definition bounded_hello (d : NestedTlsDetector) : Prop :=
  len (server_hello d) <= MAX_NESTED_SERVER_HELLO_SIZE.

(** After a hello was observed: still tracked, judged, or given up for want of memory. *)
Definition observed (alloc : Z -> bool) (hello : list byte) (d : NestedTlsDetector) : Prop :=
  bounded_hello d /\
  match verdict hello with
  | None => tracks hello d
  | Some b => tls13 d = Some b
  end \/
  (bounded_hello d /\ tls13 d = Some false /\ exists n, alloc n = false).

Lemma tracks_bounded hello d : tracks hello d -> bounded_hello d.
Proof.
  unfold bounded_hello. intros (_ & -> & H). unfold MAX_NESTED_SERVER_HELLO_SIZE in *.
  destruct (server_hello_length d); lia.
Qed.

Lemma tracks_verdict hello d : tracks hello d -> verdict hello = None.
Proof.
  intros (_ & _ & H). unfold verdict. destruct (server_hello_length d) as [total|].
  - destruct H as (H & -> & Hmax). rewrite (proj2 (Z.ltb_ge _ 4)) by lia.
    rewrite (proj2 (Z.ltb_ge MAX_NESTED_SERVER_HELLO_SIZE _)) by lia. by rewrite (proj2 (Z.ltb_lt _ _)) by lia.
  - by rewrite (proj2 (Z.ltb_lt _ 4)) by lia.
Qed.

(** Extending a message of known length and judging it. *)
Lemma extend_judge alloc d hello body total :
  tls13 d = None -> server_hello d = hello -> server_hello_length d = Some total ->
  4 <= len hello <= total -> total = hello_length hello + 4 -> total <= MAX_NESTED_SERVER_HELLO_SIZE ->
  observed alloc (hello ++ body) (judge (extend_server_hello alloc d body total)).
Proof.
  intros Ht Hh Hl Hlen Htot Hmax. unfold extend_server_hello, saturating_sub. rewrite Hh.
  set (count := Z.min (Z.max 0 (total - len hello)) (len body)). pose proof (len_nonneg body).
  assert (Hverdict : verdict (hello ++ body) =
    if len hello + len body <? total then None else Some (is_tls13_server_hello (take (Z.to_nat total) (hello ++ body)))).
  { unfold verdict. rewrite len_app, hello_length_app, <- Htot by lia.
    rewrite (proj2 (Z.ltb_ge _ 4)) by lia. by rewrite (proj2 (Z.ltb_ge MAX_NESTED_SERVER_HELLO_SIZE _)) by lia. }
  assert (Hcount : 0 <= count <= len body /\ len hello + count <= total) by (unfold count; lia).
  destruct (alloc count) eqn:Ha; cbn [negb].
  - assert (Hstored : len (hello ++ take (Z.to_nat count) body) = len hello + count) by slen.
    unfold judge. cbn [server_hello_length set_hello server_hello]. rewrite Hl, Hstored. left.
    destruct (Z.eqb_spec (len hello + count) total) as [Hfull|Hpart].
    + split; [unfold bounded_hello; cbn [set_tls13 set_hello server_hello]; lia|].
      rewrite Hverdict, (proj2 (Z.ltb_ge _ _)) by lia. cbn. do 2 f_equal.
      replace (Z.to_nat total) with (length hello + Z.to_nat count)%nat by (unfold len in *; lia).
      by rewrite take_app_add.
    + assert (count = len body) by (unfold count in *; lia).
      split; [unfold bounded_hello; cbn [set_hello server_hello]; lia|].
      rewrite Hverdict, (proj2 (Z.ltb_lt _ _)) by lia.
      split; [done|]. cbn [server_hello set_hello server_hello_length].
      rewrite take_ge by (unfold len in *; lia). split; [done|]. rewrite Hl, len_app, hello_length_app by lia.
      split_and!; (done || lia).
  - unfold judge. cbn [server_hello_length set_tls13 server_hello]. rewrite Hl, Hh.
    destruct (Z.eqb_spec (len hello) total) as [Hfull|Hpart].
    + left. split; [unfold bounded_hello; cbn; rewrite Hh; lia|].
      rewrite Hverdict, (proj2 (Z.ltb_ge _ _)) by lia. cbn. do 2 f_equal.
      symmetry. rewrite take_app_le, take_ge by (unfold len in *; lia). done.
    + right. split; [unfold bounded_hello; cbn; rewrite Hh; lia|]. split; [done|by exists count].
Qed.

Lemma observe_hello_step alloc hello d body :
  tracks hello d -> observed alloc (hello_step hello body) (observe_server_hello alloc d body).
Proof.
  intros Htr. pose proof Htr as (Ht & Hh & Hl). unfold observe_server_hello, hello_step.
  destruct (server_hello_length d) as [expected|] eqn:Hlen.
  - destruct Hl as (H4 & -> & Hmax).
    assert (hello <> []) by (intros ->; rewrite len_nil in H4; lia).
    rewrite bool_decide_false by done. cbn [andb]. apply extend_judge; (done || lia).
  - rewrite Hh. destruct (_ && _).
    { left. split; [by eapply tracks_bounded|]. by rewrite (tracks_verdict _ _ Htr). }
    unfold saturating_sub. set (header := Z.min (Z.max 0 (4 - len hello)) (len body)).
    pose proof (len_nonneg hello). pose proof (len_nonneg body).
    destruct (alloc header) eqn:Ha; cbn [negb].
    2: { right. split; [unfold bounded_hello, MAX_NESTED_SERVER_HELLO_SIZE; cbn; rewrite Hh; lia|].
         split; [done|by exists header]. }
    set (start := hello ++ take (Z.to_nat header) body).
    assert (Hstart : len start = len hello + header) by (unfold start; slen).
    assert (Hcat : start ++ drop (Z.to_nat header) body = hello ++ body)
      by (unfold start; by rewrite <- app_assoc, take_drop).
    cbn [server_hello set_hello].
    destruct (Z.ltb_spec (len start) 4) as [Hshort|Hfull].
    + assert (drop (Z.to_nat header) body = []) as Hnil by (apply drop_ge; unfold header, len in *; lia).
      rewrite Hnil, app_nil_r in Hcat. left.
      assert (Htr' : tracks start (set_hello d start)) by (split_and!; [done|done|cbn; by rewrite Hlen]).
      split; [by eapply tracks_bounded|]. rewrite <- Hcat. by rewrite (tracks_verdict _ _ Htr').
    + pose proof (hello_length_range start) as Hr. unfold checked_add.
      rewrite (proj2 (Z.leb_le _ USIZE_MAX)) by (unfold USIZE_MAX, U64_MAX; lia).
      destruct (Z.ltb_spec MAX_NESTED_SERVER_HELLO_SIZE (hello_length start + 4)) as [Hbig|Hok].
      * left. assert (len start <= 4) by (unfold header in *; lia).
        split; [unfold bounded_hello, MAX_NESTED_SERVER_HELLO_SIZE; cbn; lia|].
        rewrite <- Hcat. unfold verdict. rewrite hello_length_app by lia.
        rewrite len_app. pose proof (len_nonneg (drop (Z.to_nat header) body)).
        rewrite (proj2 (Z.ltb_ge _ 4)) by lia. by rewrite (proj2 (Z.ltb_lt _ _)) by lia.
      * rewrite <- Hcat. apply extend_judge; try done. unfold header in *. lia.
Qed.

Fixpoint observe_all (alloc : Z -> bool) (d : NestedTlsDetector) (records : list (list byte))
    : list PaddingDecision * NestedTlsDetector :=
  match records with
  | [] => ([], d)
  | record :: records =>
    let '(decision, d) := observe alloc d record in
    let '(decisions, d) := observe_all alloc d records in
    (decision :: decisions, d)
  end.

Definition detector_inv (alloc : Z -> bool) (before : list (list byte)) (d : NestedTlsDetector) : Prop :=
  records_seen d = Z.min U8_MAX (len before) /\ observed alloc (hello_bytes before) d.

Lemma hello_bytes_snoc before record :
  hello_bytes (before ++ [record]) =
    match handshake_body record with
    | Some body => hello_step (hello_bytes before) body
    | None => hello_bytes before
    end.
Proof.
  unfold hello_bytes. rewrite omap_app. cbn. destruct (handshake_body record) as [body|]; cbn.
  - by rewrite fold_left_app.
  - by rewrite app_nil_r.
Qed.

(** Counting a record changes nothing else. *)
Lemma observed_counted alloc hello d n :
  observed alloc hello d ->
  observed alloc hello {| records_seen := n; server_hello := server_hello d;
    server_hello_length := server_hello_length d; tls13 := tls13 d |}.
Proof. done. Qed.

(** A decided detector ignores further records. *)
Lemma observed_decided alloc before record d b :
  observed alloc (hello_bytes before) d -> tls13 d = Some b -> observed alloc (hello_bytes (before ++ [record])) d.
Proof.
  intros [[Hb H]|H] Hd; [|by right]. left. split; [done|]. rewrite hello_bytes_snoc.
  destruct (verdict (hello_bytes before)) as [v|] eqn:Hv; [|by destruct H as [? _]; congruence].
  destruct (handshake_body record) as [body|]; [rewrite (verdict_step _ _ v Hv)|rewrite Hv]; done.
Qed.

Lemma observed_tracks alloc hello d : observed alloc hello d -> tls13 d = None -> tracks hello d.
Proof.
  intros [[_ H]|(_ & H & _)] Hn; [|congruence]. destruct (verdict hello); [congruence|done].
Qed.

Lemma observe_records_seen alloc d body :
  records_seen (observe_server_hello alloc d body) = records_seen d.
Proof.
  unfold observe_server_hello, judge, extend_server_hello. cbn zeta.
  repeat (case_match; try done); cbn in *; congruence.
Qed.

Lemma observe_step alloc before record d :
  detector_inv alloc before d ->
  let '(decision, d') := observe alloc d record in
  detector_inv alloc (before ++ [record]) d' /\
  (decision = spec_decision before record \/ decision = DecideEnd /\ exists n, alloc n = false).
Proof.
  intros [Hs Hob]. unfold observe. cbn zeta. cbn [tls13 records_seen server_hello server_hello_length].
  set (d1 := {| records_seen := Z.min U8_MAX (records_seen d + 1) |}).
  apply (observed_counted _ _ _ (Z.min U8_MAX (records_seen d + 1))) in Hob. fold d1 in Hob.
  set (body := default [] _).
  set (d2 := if _ && _ then observe_server_hello alloc d1 body else d1).
  assert (Hseen : records_seen d2 = Z.min U8_MAX (len (before ++ [record]))).
  { rewrite len_app, len_cons, len_nil. transitivity (records_seen d1).
    - unfold d2. destruct (_ && _); [apply observe_records_seen|done].
    - cbn. rewrite Hs. unfold U8_MAX. lia. }
  assert (Hob2 : observed alloc (hello_bytes (before ++ [record])) d2).
  { unfold d2. destruct (tls13 d) as [b|] eqn:Ht.
    - rewrite bool_decide_false by done. cbn [andb]. by eapply observed_decided.
    - rewrite bool_decide_true by done. cbn [andb]. rewrite hello_bytes_snoc. unfold handshake_body. fold body.
      case_bool_decide; [|done]. by apply observe_hello_step, (observed_tracks alloc). }
  split; [by split|]. unfold spec_decision. destruct Hob2 as [[_ Hv]|(_ & Hv & Hn)].
  - left. destruct (verdict (hello_bytes (before ++ [record]))) as [b|] eqn:Hver.
    + by rewrite Hv.
    + destruct Hv as (-> & _). rewrite Hseen, len_app, len_cons, len_nil. pose proof (len_nonneg before).
      unfold MAX_CLASSIFICATION_RECORDS, U8_MAX.
      destruct (Z.leb_spec 8 (Z.min 255 (len before + (1 + 0)))), (Z.leb_spec 8 (len before + 1)); (done || lia).
  - right. by rewrite Hv.
Qed.

Lemma new_detector_inv alloc : detector_inv alloc [] new_detector.
Proof. split; [done|]. left. split; [done|]. cbn. by split_and!. Qed.

Lemma observe_all_inv alloc records : forall before d,
  detector_inv alloc before d ->
  let '(decisions, d') := observe_all alloc d records in
  detector_inv alloc (before ++ records) d' /\
  forall i decision record, decisions !! i = Some decision -> records !! i = Some record ->
    decision = spec_decision (before ++ take i records) record \/ decision = DecideEnd /\ exists n, alloc n = false.
Proof.
  induction records as [|r records IH]; intros before d Hd; cbn [observe_all].
  - by rewrite app_nil_r.
  - pose proof (observe_step alloc before r d Hd) as Hstep.
    destruct (observe alloc d r) as [decision d1]. destruct Hstep as [Hd1 Hdec].
    specialize (IH (before ++ [r]) d1 Hd1). destruct (observe_all alloc d1 records) as [decisions d'].
    destruct IH as [Hend Hall]. rewrite <- app_assoc in Hend. split; [done|].
    intros [|i] dec record Hi Hr; cbn in Hi, Hr.
    + injection Hi as <-. injection Hr as <-. cbn. by rewrite app_nil_r.
    + specialize (Hall i dec record Hi Hr). by rewrite <- app_assoc in Hall.
Qed.

(** The padding decision depends on the destination's handshake bytes and not on
    how they are cut into records. On every sequence of records the decision for
    each is the one the reassembled handshake gives: Direct exactly for application
    data after a complete TLS 1.3 ServerHello without the CCM-8 suite, End after
    any other ServerHello, an oversized one, or eight records without a verdict,
    and Continue otherwise; only a failed allocation can turn a decision into End.
    The detector never stores more than the 8 KiB limit. *)
Theorem nested_detector_refines (alloc : Z -> bool) (records : list (list byte)) :
  let '(decisions, d) := observe_all alloc new_detector records in
  len (server_hello d) <= MAX_NESTED_SERVER_HELLO_SIZE /\ length decisions = length records /\
  forall i decision record, decisions !! i = Some decision -> records !! i = Some record ->
    decision = spec_decision (take i records) record \/ decision = DecideEnd /\ exists n, alloc n = false.
Proof.
  pose proof (observe_all_inv alloc records [] new_detector (new_detector_inv alloc)) as H.
  assert (Hlen : forall records d, length (observe_all alloc d records).1 = length records).
  { clear. induction records as [|r records IH]; intros d; cbn [observe_all]; [done|].
    destruct (observe alloc d r) as [dec d1]. specialize (IH d1).
    destruct (observe_all alloc d1 records). cbn in IH |- *. lia. }
  specialize (Hlen records new_detector).
  destruct (observe_all alloc new_detector records) as [decisions d]. destruct H as [[_ Hob] Hall].
  split; [by destruct Hob as [[Hb _]|[Hb _]]|]. by split.
Qed.
