(* ===== verification/Downlink.v ===== *)
(** * The framed downlink ([src/server/vision/relay_downlink.rs])

    From the destination socket to the client's outer TLS records: the response
    header with the opening Vision frame, the loop that reads nested records,
    consults the detector and writes Vision frames, and the plain outer relay
    ([relay_outer_downlink] of framing.rs) after the padding ended. It composes
    [Nested], [VisionEncode] and [VisionWrite]; sealing and sending an outer record
    is the environment. *)

From S2P Require Import Prelude Effects Cursor VlessRequest Vision Padding VisionEncode VisionWrite Nested.

Inductive DownlinkError :=
| DownAllocationFailed
| DownTls
| DownNested (e : NestedError)
| DownVisionEncode (e : VisionEncodeError).

Inductive DownlinkStep := DownFramed (bytes : Z) | DownDirect (bytes : Z).

Section Downlink.
Context {R : Type} {source : PaddingSource R}.

(** The environment: the destination socket, the allocator's answers to the
    detector, the plaintext region of the record buffer, which record writes
    succeed, which outer reads are batched over four slots, and whether the
    generator could be seeded and the client shut down. *)
Record DownlinkEnv := {
  nested_env : NestedEnv;
  hello_alloc : Z -> bool;
  region : Z -> list byte;
  sent : nat -> bool;
  batched : nat -> bool;
  encoder_seeded : bool;
  client_shutdown_ok : bool;
}.

(** [dl_log] holds the plaintexts of the outer records of the completed writes. *)
Record DownlinkState := {
  dl_reader : NestedRecordReader;
  dl_detector : NestedTlsDetector;
  dl_encoder : @VisionEncoder R;
  dl_bytes : Z;
  dl_log : list (list byte);
  dl_writes : nat;
}.

Definition downlink A := IO DownlinkState DownlinkError A.

Context (env : DownlinkEnv).

Definition on_reader {A} (err : NestedError -> DownlinkError) (m : nested A) : downlink A := fun st =>
  let '(r, reader) := m (dl_reader st) in
  (map_err err r,
   {| dl_reader := reader; dl_detector := dl_detector st; dl_encoder := dl_encoder st;
      dl_bytes := dl_bytes st; dl_log := dl_log st; dl_writes := dl_writes st |}).

Definition log_records (st : DownlinkState) (e : @VisionEncoder R) (records : list (list byte)) : DownlinkState :=
  {| dl_reader := dl_reader st; dl_detector := dl_detector st; dl_encoder := e; dl_bytes := dl_bytes st;
     dl_log := dl_log st ++ records; dl_writes := dl_writes st + length records |}.

Definition add_bytes (n : Z) : downlink unit := fun st =>
  (Ok tt, {| dl_reader := dl_reader st; dl_detector := dl_detector st; dl_encoder := dl_encoder st;
             dl_bytes := Z.min U64_MAX (dl_bytes st + n); dl_log := dl_log st; dl_writes := dl_writes st |}).

Definition observe_record (record : list byte) : downlink PaddingDecision := fun st =>
  let '(decision, d) := observe (hello_alloc env) (dl_detector st) record in
  (Ok decision, {| dl_reader := dl_reader st; dl_detector := d; dl_encoder := dl_encoder st;
                   dl_bytes := dl_bytes st; dl_log := dl_log st; dl_writes := dl_writes st |}).

(** [write_vision_content(..).await?]. *)
Definition write_content (content : list byte) (command : VisionCommand) (long_padding : bool) : downlink unit :=
  fun st =>
  match write_vision_content (region env) (sent env) content command long_padding (dl_encoder st) (dl_writes st) with
  | Ok (records, e) => (Ok tt, log_records st e records)
  | Err (SessionVisionEncode e) => (Err (DownVisionEncode e), st)
  | Err SessionTls => (Err DownTls, st)
  | Panic => (Panic, st)
  end.

(** The closure that assembles the response header and the opening frame. *)
Definition assemble_preamble (user : UserId) (p : VisionFramePlan) (response_header destination : list byte)
    : result VisionEncodeError (list byte) :=
  if len response_header <=? len destination then
    frame ← assembled user p [] (drop (length response_header) destination);
    Ok (response_header ++ frame)
  else Ok destination.

Definition write_preamble (response_header : list byte) : downlink unit := fun st =>
  match plan_frame 0 Continue true (dl_encoder st) with
  | Ok (preamble, e) =>
    match checked_add USIZE_MAX (len response_header) (wire_len preamble) with
    | None => (Err DownAllocationFailed, st)
    | Some preamble_len =>
      match assemble_preamble (enc_user e) preamble response_header (region env preamble_len) with
      | Ok record =>
        if sent env (dl_writes st) then
          match commit preamble e with
          | Ok (_, e) => (Ok tt, log_records st e [record])
          | _ => (Panic, st)
          end
        else (Err DownTls, st)
      | Err e => (Err (DownVisionEncode e), st)
      | Panic => (Panic, st)
      end
    end
  | Err e => (Err (DownVisionEncode e), st)
  | Panic => (Panic, st)
  end.

(** [read_vectored] of the nested reader: buffered bytes fill the first slot,
    otherwise one socket read fills the slots. *)
Definition read_vectored (slots : Z) : nested (list byte) := fun st =>
  let buffered := buffered_end st - buffered_start st in
  if 0 <? buffered then
    consume_to (buffered_start st + Z.min buffered MAX_PLAINTEXT_LEN) st
  else
    match delivered (nested_env env) (nr_reads st) with
    | None => (Err NestedIdle, st)
    | Some size =>
      let n := read_count size (Z.to_nat (slots * MAX_PLAINTEXT_LEN)) (length (nr_kernel st)) in
      (Ok (take n (nr_kernel st)),
       {| socket_buffer := socket_buffer st; buffered_start := buffered_start st; buffered_end := buffered_end st;
          nr_kernel := drop n (nr_kernel st); nr_reads := S (nr_reads st) |})
    end.

(** One [write_application_read_from_batched]: the bytes read, already written. *)
Definition outer_batch : downlink (list byte) :=
  st ← io_get;
  _ ← io_check (idle_armed (nested_env env) (nr_reads (dl_reader st))) DownTls;
  bytes ← on_reader (fun _ => DownTls) (read_vectored (if batched env (dl_writes st) then 4 else 1));
  if bool_decide (bytes = []) then mret []
  else
    st ← io_get;
    _ ← io_check (sent env (dl_writes st)) DownTls;
    _ ← io_put (log_records st (dl_encoder st) [bytes]);
    mret bytes.

(** [relay_outer_downlink]; out of fuel is [Panic]. *)
Fixpoint outer_loop (fuel : nat) (copied : Z) : downlink Z :=
  match fuel with
  | O => fun st => (Panic, st)
  | S fuel =>
    bytes ← outer_batch;
    if bool_decide (bytes = []) then
      _ ← io_check (client_shutdown_ok env) DownTls;
      mret copied
    else outer_loop fuel (Z.min U64_MAX (copied + len bytes))
  end.

(** After the padding ended: the outer relay, and the total. *)
Definition outer_phase : downlink DownlinkStep :=
  st ← io_get;
  copied ← outer_loop (S (length (into_inner_with_pending (dl_reader st) ++ nr_kernel (dl_reader st)))) 0;
  st ← io_get;
  mret (DownFramed (Z.min U64_MAX (dl_bytes st + copied))).

Definition command_for (decision : PaddingDecision) : VisionCommand :=
  match decision with DecideContinue => Continue | DecideEnd => End | DecideDirect => Direct end.

(** The record loop; out of fuel is [Panic]. *)
Fixpoint downlink_loop (fuel : nat) : downlink DownlinkStep :=
  match fuel with
  | O => fun st => (Panic, st)
  | S fuel =>
    read ← on_reader DownNested (next (nested_env env));
    match read with
    | NestedEof =>
      _ ← io_check (client_shutdown_ok env) DownTls;
      st ← io_get;
      mret (DownFramed (dl_bytes st))
    | NestedUnframed content =>
      _ ← add_bytes (len content);
      _ ← write_content content End false;
      outer_phase
    | NestedRecord record =>
      _ ← add_bytes (len record);
      decision ← observe_record record;
      _ ← write_content record (command_for decision) true;
      match decision with
      | DecideContinue => downlink_loop fuel
      | DecideEnd => outer_phase
      | DecideDirect => st ← io_get; mret (DownDirect (dl_bytes st))
      end
    end
  end.

Definition relay_downlink_framed (response_header : list byte) : downlink DownlinkStep :=
  _ ← io_check (encoder_seeded env) (DownVisionEncode EncodeEntropyUnavailable);
  _ ← write_preamble response_header;
  st ← io_get;
  downlink_loop (S (length (into_inner_with_pending (dl_reader st) ++ nr_kernel (dl_reader st)))).

Definition initial_downlink (user : UserId) (seeded : R) (stream : list byte) : DownlinkState :=
  {| dl_reader := new_reader stream; dl_detector := new_detector; dl_encoder := new_encoder user seeded;
     dl_bytes := 0; dl_log := []; dl_writes := 0 |}.
End Downlink.

(** ** What the client receives *)

Section Delivery.
Context {R : Type} {source : PaddingSource R}.
Context (env : DownlinkEnv) (user : UserId) (response_header stream : list byte).
Context (Huser : len user = UUID_SIZE) (Hregion : forall n, 0 <= n -> len (region env n) = n).
Context (Hsafe : @source_safe R source).

(** Nothing outside the program fails, and the response header is of a size the
    record buffer can be sized for. *)
Definition healthy : Prop :=
  @source_total R source /\ (forall k, sent env k = true) /\ ~ env_faulty (nested_env env) /\
  encoder_seeded env = true /\ client_shutdown_ok env = true /\
  len response_header + VISION_FRAME_SIZE <= USIZE_MAX.

(** The only way a healthy run fails: the destination ends inside a record. *)
Definition excused : Prop := healthy -> exists rest, rest `suffix_of` stream /\ classify rest = CTruncated.

(** The records written so far carry [consumed], framed for the client. *)
Definition carries (m : VisionMode) (consumed : list byte) (log : list (list byte)) : Prop :=
  exists wire, concat log = response_header ++ wire /\
    byte_run (new_decoder user) wire = Ok (idle_decoder user false UUID_SIZE m, consumed).

Lemma carries_app m m' consumed content log records :
  carries m consumed log ->
  byte_run (idle_decoder user false UUID_SIZE m) (concat records) = Ok (idle_decoder user false UUID_SIZE m', content) ->
  carries m' (consumed ++ content) (log ++ records).
Proof.
  intros (wire & Hlog & Hrun) Hrec. exists (wire ++ concat records).
  rewrite concat_app, Hlog, <- app_assoc. split; [done|]. rewrite byte_run_app, Hrun. cbn. by rewrite Hrec.
Qed.

Lemma carries_raw m consumed bytes log :
  m <> FramedMode -> carries m consumed log -> carries m (consumed ++ bytes) (log ++ [bytes]).
Proof.
  intros Hm Hc. eapply carries_app; [done|]. cbn. rewrite app_nil_r. by apply byte_run_raw.
Qed.

(** What was written so far: [consumed], by an encoder past its opening frame. *)
Definition written (m : VisionMode) (fin : bool) (consumed : list byte) (st : @DownlinkState R) : Prop :=
  carries m consumed (dl_log st) /\ mid_stream user (dl_encoder st) /\ finished (dl_encoder st) = fin.

(** What is still to be read. *)
Definition remains (rest : list byte) (st : @DownlinkState R) : Prop := holds_stream rest (dl_reader st).

Definition counted (bytes : list byte) (st : @DownlinkState R) : Prop := dl_bytes st = Z.min U64_MAX (len bytes).

Definition flowing (m : VisionMode) (fin : bool) (consumed rest total : list byte) (st : @DownlinkState R) : Prop :=
  written m fin consumed st /\ remains rest st /\ counted total st.

Lemma preamble_triple r :
  triple (fun st : @DownlinkState R => dl_log st = [] /\ dl_encoder st = new_encoder user r /\ counted [] st /\
            remains stream st) (write_preamble env response_header)
    (fun _ => flowing FramedMode false [] stream []) (fun _ => excused).
Proof.
  intros st (Hlog & Henc & Hcount & Hreader). unfold write_preamble. rewrite Henc.
  pose proof (plan_frame_no_panic Hsafe 0 Continue true (new_encoder user r)) as Hsp.
  destruct (plan_frame 0 Continue true (new_encoder user r)) as [[p e]|err|] eqn:Hp; [| |done].
  2: { intros (Htotal & _).
       destruct (plan_frame_total Htotal 0 Continue true (new_encoder user r)) as (p & e & Hok); [done|done|congruence]. }
  destruct (plan_frame_ok _ _ _ _ _ _ ltac:(done) Hp) as ((Hok & Hinc & Hcmd & Hcl) & _ & Hs1 & Hs2 & Hs3).
  pose proof (wire_len_nonneg p Hok) as Hw. pose proof Hok as (_ & _ & Hfit). pose proof (len_nonneg response_header).
  unfold checked_add. destruct (Z.leb_spec (len response_header + wire_len p) USIZE_MAX) as [Hle|Hgt].
  2: { intros (_ & _ & _ & _ & _ & Hrh). lia. }
  unfold assemble_preamble. rewrite Hregion by lia. rewrite (proj2 (Z.leb_le _ _)) by lia.
  unfold assembled. rewrite Hs1. rewrite assemble_frame; [|done|done|done|].
  2: { rewrite len_drop, Hregion by lia. unfold len. lia. }
  cbn [mbind result_bind]. destruct (sent env (dl_writes st)) eqn:Hsent.
  2: { intros (_ & Hall & _). congruence. }
  cbn. split; [|by split]. split; [|split; [split; [cbn; by rewrite Hs1|done]|cbn; by rewrite Hcmd]].
  exists (frame_bytes user p []). cbn. rewrite Hlog. cbn. rewrite app_nil_r. split; [done|].
  pose proof (run_frame user p [] Huser Hok (eq_sym Hcl)) as Hrun. by rewrite Hinc, Hcmd in Hrun.
Qed.

Lemma write_content_triple content command long consumed rest total :
  triple (flowing FramedMode false consumed rest total) (write_content env content command long)
    (fun _ => flowing (mode_after command) (negb (bool_decide (command = Continue))) (consumed ++ content) rest total)
    (fun _ => excused).
Proof.
  intros st ((Hl & He & Hf) & Hr & Hcount). unfold write_content.
  pose proof (write_content_no_panic (region env) (sent env) Hregion Hsafe user content command long
    (dl_encoder st) (dl_writes st) Huser He) as Hsp.
  assert (Htotal : healthy -> exists records e,
    write_vision_content (region env) (sent env) content command long (dl_encoder st) (dl_writes st) = Ok (records, e)).
  { intros (Ht & Hall & _). by apply (write_content_total (region env) (sent env) Hregion Ht Hall user). }
  destruct (write_vision_content _ _ _ _ _ _ _) as [[records e]|[err|]|] eqn:Hw; [| | |done].
  - destruct (write_content_spec (region env) (sent env) Hregion user _ _ _ _ _ _ _ Huser He Hw)
      as (_ & Hrun & Hmid & Hfin).
    split; [|by split]. split; [by eapply carries_app|]. by split.
  - intros Hh. by destruct (Htotal Hh) as (? & ? & ?).
  - intros Hh. by destruct (Htotal Hh) as (? & ? & ?).
Qed.

(** ** Reading *)

Lemma remains_future rest (st : @DownlinkState R) :
  remains rest st -> into_inner_with_pending (dl_reader st) ++ nr_kernel (dl_reader st) = rest.
Proof. intros (pend & kernel & <- & H). by rewrite (holds_pending _ _ _ H), (proj1 H). Qed.

Lemma faulty_excused : env_faulty (nested_env env) -> excused.
Proof. intros Hf (_ & _ & Hn & _). done. Qed.

(** Reader operations leave what was written alone. *)
Lemma on_reader_triple {A} err (m : nested A) Q X mode fin consumed rest total :
  triple (holds_stream rest) m Q X -> (forall s, X s -> excused) ->
  triple (flowing mode fin consumed rest total) (on_reader err m)
    (fun a st => written mode fin consumed st /\ counted total st /\ Q a (dl_reader st)) (fun _ => excused).
Proof.
  intros Hm HX st (Hw & Hr & Hc). unfold on_reader. specialize (Hm (dl_reader st) Hr).
  destruct (m (dl_reader st)) as [[a|e|] s]; cbn; [by split_and!|by eapply HX|done].
Qed.

Lemma read_vectored_triple slots rest : 0 < slots ->
  triple (holds_stream rest) (read_vectored env slots)
    (fun bytes s => exists left, rest = bytes ++ left /\ holds_stream left s /\ (bytes = [] -> rest = []))
    (fun _ => env_faulty (nested_env env)).
Proof.
  intros Hslots s (pend & kernel & <- & Hs). unfold read_vectored.
  rewrite (holds_count _ _ _ Hs). assert (Hmax : MAX_PLAINTEXT_LEN = 16384) by reflexivity.
  destruct (Z.ltb_spec 0 (len pend)) as [Hpos|Hnone].
  - set (n := Z.to_nat (Z.min (len pend) MAX_PLAINTEXT_LEN)).
    destruct (consume_spec (take n pend) (drop n pend) kernel s
      (buffered_start s + Z.min (len pend) MAX_PLAINTEXT_LEN)) as (s' & -> & Hs').
    { by rewrite take_drop. }
    { rewrite len_take. unfold n. lia. }
    exists (drop n pend ++ kernel). split_and!; [by rewrite app_assoc, take_drop|by exists (drop n pend), kernel|].
    intros Hnil%(f_equal len). rewrite len_take, len_nil in Hnil. unfold n in Hnil. lia.
  - assert (pend = []) as -> by (destruct pend; [done|slen]). cbn [app].
    pose proof Hs as (Hk & Hb & pre & post & Hcat & Hst & Hen).
    destruct (delivered _ _) as [size|] eqn:Hd; [|exists (nr_reads s); tauto]. rewrite Hk.
    set (n := read_count size _ _). exists (drop n kernel). split_and!; [by rewrite take_drop| |].
    + exists [], (drop n kernel). split; [done|]. split_and!; [done|done|]. by exists pre, post.
    + intros Hnil. destruct kernel as [|b kernel]; [done|]. exfalso.
      assert (n <> 0)%nat by (unfold n, read_count; cbn [length]; lia). by destruct n.
Qed.

Lemma check_healthy (ok : bool) e (P : @DownlinkState R -> Prop) :
  (healthy -> ok = true) -> triple P (io_check ok e : downlink unit) (fun _ => P) (fun _ => excused).
Proof.
  intros Hh. unfold io_check. destruct ok; [by apply triple_ret|]. apply triple_throw. intros s _ H.
  by specialize (Hh H).
Qed.

(** ** The outer relay *)

Lemma outer_batch_triple m fin consumed rest total :
  m <> FramedMode ->
  triple (flowing m fin consumed rest total) (outer_batch env)
    (fun bytes st => exists left, rest = bytes ++ left /\ flowing m fin (consumed ++ bytes) left total st /\
       (bytes = [] -> rest = [])) (fun _ => excused).
Proof.
  intros Hm. apply triple_get_bind. intros st0 Hst0.
  eapply triple_bind.
  { eapply triple_consequence;
      [apply (check_healthy _ _ (flowing m fin consumed rest total)) | by intros ? -> | done | done].
    intros (_ & _ & Hn & _). destruct (idle_armed _ _) eqn:E; [done|].
    exfalso. apply Hn. exists (nr_reads (dl_reader st0)). tauto. }
  intros []. eapply triple_bind.
  { eapply on_reader_triple; [apply read_vectored_triple; destruct (batched _ _); lia|].
    intros s. apply faulty_excused. }
  intros bytes. case_bool_decide as Hb.
  - apply triple_ret. intros st (Hw & Hc & left & -> & Hl & Hnil). exists left. subst bytes.
    rewrite app_nil_r. by split_and!.
  - apply triple_get_bind. intros st (Hw & Hc & left & -> & Hl & Hnil).
    eapply triple_bind.
    { apply (check_healthy _ _ (fun s => s = st)). intros (_ & Hall & _). apply Hall. }
    intros [] ? ->. cbn. exists left. split_and!; [done| |done]. destruct Hw as (Hlog & He & Hf).
    split; [|by split]. split; [by apply carries_raw|by split].
Qed.

Lemma outer_loop_triple m fin total fuel : m <> FramedMode -> forall consumed rest got,
  (length rest < fuel)%nat -> consumed ++ rest = stream ->
  triple (flowing m fin consumed rest total) (outer_loop env fuel (Z.min U64_MAX (len got)))
    (fun copied st => copied = Z.min U64_MAX (len (got ++ rest)) /\ flowing m fin stream [] total st)
    (fun _ => excused).
Proof.
  intros Hm. induction fuel as [|fuel IH]; intros consumed rest got Hfuel Hstream; [lia|]. cbn [outer_loop].
  eapply triple_bind; [by apply outer_batch_triple|]. intros bytes st (left & -> & Hfl & Hnil).
  case_bool_decide as Hb.
  - specialize (Hnil Hb). subst bytes. rewrite app_nil_r in Hfl. cbn in Hnil. subst left. cbn in Hstream |- *.
    rewrite app_nil_r in *. rewrite Hstream in Hfl. revert st Hfl.
    change (triple (flowing m fin stream [] total)
      (_ ← io_check (client_shutdown_ok env) DownTls; mret (Z.min U64_MAX (len got)))
      (fun copied st => copied = Z.min U64_MAX (len got) /\ flowing m fin stream [] total st) (fun _ => excused)).
    eapply triple_bind; [apply check_healthy; by intros (_ & _ & _ & _ & ? & _)|].
    intros []. by apply triple_ret.
  - replace (Z.min U64_MAX (Z.min U64_MAX (len got) + len bytes)) with (Z.min U64_MAX (len (got ++ bytes)))
      by (rewrite len_app; pose proof (len_nonneg bytes); lia).
    pose proof (IH (consumed ++ bytes) left (got ++ bytes)) as H. rewrite <- !app_assoc in H.
    apply H; [|done|done].
    rewrite length_app in Hfuel. destruct bytes; [done|]. cbn [length] in Hfuel. lia.
Qed.

Definition ended (bytes : Z) (st : @DownlinkState R) : Prop :=
  bytes = Z.min U64_MAX (len stream) /\ exists m fin, m <> DirectMode /\ written m fin stream st.

Lemma outer_phase_triple fin consumed rest :
  consumed ++ rest = stream ->
  triple (flowing RawMode fin consumed rest consumed) (outer_phase env)
    (fun step st => exists bytes, step = DownFramed bytes /\ ended bytes st) (fun _ => excused).
Proof.
  intros Hstream. apply triple_get_bind. intros st0 Hst0. rewrite (remains_future rest) by apply Hst0.
  eapply triple_bind.
  { eapply triple_consequence;
      [apply (outer_loop_triple RawMode fin consumed (S (length rest)) ltac:(done) consumed rest [])
      | by intros ? -> | done | done]; [lia|done]. }
  intros copied. apply triple_get_bind. intros st [-> (Hw & _ & Hc)]. apply triple_ret. intros ? ->.
  eexists. split; [done|]. split; [|by exists RawMode, fin].
  rewrite Hc, <- Hstream. cbn [app]. rewrite len_app. pose proof (len_nonneg consumed). pose proof (len_nonneg rest).
  unfold U64_MAX. lia.
Qed.

(** ** The record loop *)

Definition downlink_post (step : DownlinkStep) (st : @DownlinkState R) : Prop :=
  match step with
  | DownFramed bytes => ended bytes st
  | DownDirect bytes => exists consumed rest, consumed ++ rest = stream /\
      bytes = Z.min U64_MAX (len consumed) /\ written DirectMode true consumed st /\ remains rest st
  end.

Lemma next_step_triple consumed rest :
  consumed ++ rest = stream ->
  triple (flowing FramedMode false consumed rest consumed) (on_reader DownNested (next (nested_env env)))
    (fun read st => exists left, faithful_read rest read left /\
       flowing FramedMode false consumed left consumed st) (fun _ => excused).
Proof.
  intros Hstream. eapply triple_consequence.
  - apply (on_reader_triple DownNested (next (nested_env env)) _ (stopped (nested_env env) rest)
      FramedMode false consumed rest consumed (next_triple (nested_env env) rest)).
    intros s [[Hf|Htr] _]; [by apply faulty_excused|]. intros _. exists rest. split; [|done].
    by exists consumed.
  - done.
  - intros read st (Hw & Hc & left & Hf & Hl). exists left. by split_and!.
  - done.
Qed.

Lemma add_bytes_triple m fin consumed left content :
  triple (flowing m fin consumed left consumed) (add_bytes (len content))
    (fun _ => flowing m fin consumed left (consumed ++ content)) (fun _ => excused).
Proof.
  intros st (Hw & Hr & Hc). cbn. split_and!; [done|done|]. unfold counted in *. cbn. rewrite Hc, len_app.
  pose proof (len_nonneg content). lia.
Qed.

Lemma observe_record_triple record m fin consumed left total :
  triple (flowing m fin consumed left total) (observe_record env record)
    (fun _ => flowing m fin consumed left total) (fun _ => excused).
Proof.
  intros st Hst. unfold observe_record. by destruct (observe _ _ _) as [decision d].
Qed.

Lemma outer_end fin content consumed left :
  consumed ++ content ++ left = stream ->
  triple (flowing RawMode fin (consumed ++ content) left (consumed ++ content)) (outer_phase env)
    downlink_post (fun _ => excused).
Proof.
  intros Hstream. eapply triple_consequence; [apply outer_phase_triple; by rewrite <- app_assoc|done| |done].
  intros step st (bytes & -> & H). exact H.
Qed.

Lemma downlink_loop_triple fuel : forall consumed rest,
  (length rest < fuel)%nat -> consumed ++ rest = stream ->
  triple (flowing FramedMode false consumed rest consumed) (downlink_loop env fuel) downlink_post (fun _ => excused).
Proof.
  induction fuel as [|fuel IH]; intros consumed rest Hfuel Hstream; [lia|]. cbn [downlink_loop].
  eapply triple_bind; [by apply next_step_triple|]. intros read st (left & Hread & Hfl).
  destruct read as [|record|content]; cbn in Hread.
  - destruct Hread as [Hclass ->]. revert st Hfl.
    assert (rest = []) as ->.
    { unfold classify in Hclass. case_bool_decide; [done|].
      destruct (could_be_tls_record_header _); cbn in Hclass; [|done]. by repeat case_match. }
    rewrite app_nil_r in Hstream.
    change (triple (flowing FramedMode false consumed [] consumed)
      (_ ← io_check (client_shutdown_ok env) DownTls; st ← io_get; mret (DownFramed (dl_bytes st)))
      downlink_post (fun _ => excused)).
    eapply triple_bind; [apply check_healthy; by intros (_ & _ & _ & _ & ? & _)|].
    intros []. apply triple_get_bind. intros st (Hw & _ & Hc). apply triple_ret. intros ? ->.
    split; [rewrite <- Hstream; exact Hc|]. exists FramedMode, false. by rewrite <- Hstream.
  - destruct Hread as [Hclass ->]. apply classify_record_len in Hclass. revert st Hfl.
    set (k := fun decision => match decision with
      | DecideContinue => downlink_loop env fuel
      | DecideEnd => outer_phase env
      | DecideDirect => st ← io_get; mret (DownDirect (dl_bytes st))
      end).
    change (triple (flowing FramedMode false consumed left consumed)
      (_ ← add_bytes (len record); decision ← observe_record env record;
       _ ← write_content env record (command_for decision) true; k decision) downlink_post (fun _ => excused)).
    eapply triple_bind; [apply (add_bytes_triple _ _ _ _ record)|]. intros [].
    eapply triple_bind; [apply observe_record_triple|]. intros decision.
    eapply triple_bind; [apply write_content_triple|]. intros [].
    assert (record <> []) as Hne by (intros ->; rewrite len_nil in Hclass; lia).
    destruct decision; cbn [k command_for mode_after].
    + apply IH; [|by rewrite <- app_assoc]. rewrite length_app in Hfuel. destruct record; [done|]. cbn [length] in Hfuel. lia.
    + by apply outer_end.
    + apply triple_get_bind. intros st (Hw & Hr & Hc). apply triple_ret. intros ? ->.
      exists (consumed ++ record), left. split_and!; [by rewrite <- app_assoc|exact Hc|exact Hw|exact Hr].
  - destruct Hread as (_ & -> & Hne). revert st Hfl.
    change (triple (flowing FramedMode false consumed left consumed)
      (_ ← add_bytes (len content); _ ← write_content env content End false; outer_phase env)
      downlink_post (fun _ => excused)).
    eapply triple_bind; [apply (add_bytes_triple _ _ _ _ content)|]. intros [].
    eapply triple_bind; [apply write_content_triple|]. intros []. by apply outer_end.
Qed.

Lemma downlink_framed_triple r :
  triple (fun st => st = initial_downlink user r stream) (relay_downlink_framed env response_header)
    downlink_post (fun _ => excused).
Proof.
  unfold relay_downlink_framed. eapply triple_bind.
  { apply (check_healthy _ _ (fun st => st = initial_downlink user r stream)). by intros (_ & _ & _ & ? & _). }
  intros []. eapply triple_bind.
  { eapply triple_consequence; [apply (preamble_triple r)| |done|done]. intros ? ->.
    split_and!; [done|done|done|]. exists [], stream. split; [done|]. apply new_reader_holds. }
  intros []. apply triple_get_bind. intros st Hst. rewrite (remains_future stream) by apply Hst.
  eapply triple_consequence; [apply (downlink_loop_triple (S (length stream)) [] stream)|by intros ? ->|done|done];
    [lia|done].
Qed.

(** C31: the downlink delivers exactly what the destination sent. Whatever the sizes
    in which bytes arrive, the padding drawn and the records they are packed into,
    the outer records written are the response header followed by a Vision stream
    that the client's decoder turns back into the destination's bytes: all of them
    when the direction ends inside the framed protocol (with or without the outer
    relay after the padding ended), and at a Direct boundary a prefix whose rest is
    exactly what the reader still buffers followed by what the socket still holds.
    The reported count is the number of payload bytes. The loop never panics, and
    it fails only when the environment does or when the destination's stream ends
    inside a record. *)
Theorem downlink_delivers (r : R) :
  let '(outcome, st) := relay_downlink_framed env response_header (initial_downlink user r stream) in
  match outcome with
  | Ok (DownFramed bytes) =>
      bytes = Z.min U64_MAX (len stream) /\
      exists wire d, concat (dl_log st) = response_header ++ wire /\
        byte_run (new_decoder user) wire = Ok (d, stream) /\ mode d <> DirectMode
  | Ok (DownDirect bytes) =>
      exists wire d payload, concat (dl_log st) = response_header ++ wire /\
        byte_run (new_decoder user) wire = Ok (d, payload) /\ mode d = DirectMode /\
        bytes = Z.min U64_MAX (len payload) /\
        stream = payload ++ into_inner_with_pending (dl_reader st) ++ nr_kernel (dl_reader st)
  | Err _ => healthy -> exists rest, rest `suffix_of` stream /\ classify rest = CTruncated
  | Panic => False
  end.
Proof.
  pose proof (downlink_framed_triple r _ eq_refl) as H.
  destruct (relay_downlink_framed _ _ _) as [[[bytes|bytes]|e|] st]; cbn in H; [| |done|done].
  - destruct H as (-> & m & fin & Hm & (wire & Hlog & Hrun) & _). split; [done|].
    exists wire, (idle_decoder user false UUID_SIZE m). by split_and!.
  - destruct H as (consumed & rest & <- & -> & ((wire & Hlog & Hrun) & _) & Hr).
    exists wire, (idle_decoder user false UUID_SIZE DirectMode), consumed. split_and!; try done.
    by rewrite (remains_future rest) by done.
Qed.
End Delivery.

(** A destination that answers with plain text. *)
Definition example_downlink_env : DownlinkEnv :=
  {| nested_env := {| buffer_alloc := fun _ => true; idle_armed := fun _ => true; delivered := fun _ => Some 3%nat |};
     hello_alloc := fun _ => true; region := fun n => replicate (Z.to_nat n) xff; sent := fun _ => true;
     batched := fun _ => false; encoder_seeded := true; client_shutdown_ok := true |}.

Lemma downlink_delivers_witness :
  exists wire d, byte_run (new_decoder (replicate 16 x07)) wire = Ok (d, [x48; x49; x0a; x21]) /\
    mode d <> DirectMode.
Proof.
  pose proof (downlink_delivers example_downlink_env (replicate 16 x07) [x00; x00] [x48; x49; x0a; x21] eq_refl
    (fun n Hn => eq_trans (len_replicate _ _) (Z2Nat.id n Hn)) (fun r upper => no_panic_ok (0, r)) tt) as H.
  destruct (relay_downlink_framed example_downlink_env [x00; x00] _) as [[[bytes|bytes]|e|] st] eqn:E.
  - destruct H as (_ & wire & d & _ & H). by exists wire, d.
  - exfalso. apply (f_equal (fun x => match x.1 with Ok (DownDirect _) => true | _ => false end)) in E.
    vm_compute in E. discriminate.
  - exfalso. apply (f_equal (fun x => match x.1 with Err _ => true | _ => false end)) in E.
    vm_compute in E. discriminate.
  - destruct H.
Defined.
