(* ===== verification/Xudp.v ===== *)
(** * XUDP datagram framing ([src/protocol/vless/xudp.rs])

    The Mux metadata codec of the UDP carrier and the Vision UDP/443 policy
    helpers. *)

From S2P Require Import Prelude Addons VlessRequest.

Definition VISION_FLOW_UDP443 : list byte := bytes_of "xtls-rprx-vision-udp443".
Definition XUDP_MUX_HOST : list byte := bytes_of "v1.mux.cool".
Definition XUDP_MUX_PORT : Z := 666.
Definition XUDP_MAX_META_LEN : Z := 512.
Definition XRAY_BUF_SIZE : Z := 8 * 1024.
Definition XUDP_MAX_PAYLOAD_LEN : Z := XRAY_BUF_SIZE - 666.

Inductive XudpSessionStatus := StatusNew | StatusKeep | StatusEnd | StatusKeepAlive.

Definition status_byte (s : XudpSessionStatus) : byte :=
  match s with StatusNew => x01 | StatusKeep => x02 | StatusEnd => x03 | StatusKeepAlive => x04 end.

Definition status_from_byte (b : byte) : option XudpSessionStatus :=
  match b with
  | x01 => Some StatusNew | x02 => Some StatusKeep | x03 => Some StatusEnd | x04 => Some StatusKeepAlive
  | _ => None
  end.

(** [XudpOption] is a byte newtype. *)
Definition OPTION_DATA : byte := x01.
Definition OPTION_ERROR : byte := x02.
Definition has_data (o : byte) : bool := negb (Z.land (u8 o) (u8 OPTION_DATA) =? 0).

Inductive XudpNetwork := NetTcp | NetUdp.

Definition network_byte (n : XudpNetwork) : byte := match n with NetTcp => x01 | NetUdp => x02 end.

Definition network_from_byte (b : byte) : option XudpNetwork :=
  match b with x01 => Some NetTcp | x02 => Some NetUdp | _ => None end.

Record XudpPacket := {
  xp_session_id : Z;
  xp_status : XudpSessionStatus;
  xp_option : byte;
  xp_destination : option Destination;
  xp_global_id : option (list byte);
  xp_payload : list byte;
}.

Inductive XudpCodecError :=
| XTruncated (field : string)
| XMetaTooLarge (length : Z)
| XMetaTooSmall (length : Z)
| XUnknownStatus (value : byte)
| XUnknownNetwork (value : byte)
| XTcpNetworkRejected
| XUnknownAddressType (value : byte)
| XDomainTooLong (length : Z)
| XEmptyDomain
| XInvalidDomainUtf8
| XPayloadTooLarge (length : Z)
| XTrailingMetaBytes (remaining : Z)
| XSessionIdMustBeZero (session_id : Z).

Definition config_flow_allows_udp_443 (config_flow : list byte) : bool :=
  bytes_eqb config_flow VISION_FLOW_UDP443.

Definition wire_vision_flow_from_config (config_flow : list byte) : list byte :=
  if bytes_eqb config_flow VISION_FLOW_UDP443 then VISION_FLOW else config_flow.

Definition vision_udp_command_allows_port (allow_udp_443 : bool) (p : Z) : bool :=
  allow_udp_443 || negb (p =? 443).

(** [Ok] only; the [&&] chain reads [meta_body] after its length check. *)
Definition meta_body_is_xudp (meta_body : list byte) : result XudpCodecError bool :=
  if 5 <=? len meta_body then
    b0 ← index meta_body 0;
    if u8 b0 =? 0 then
      b1 ← index meta_body 1;
      if u8 b1 =? 0 then
        b4 ← index meta_body 4;
        mret (u8 b4 =? u8 (network_byte NetUdp))
      else mret false
    else mret false
  else mret false.

Definition frame_looks_like_xudp (frame : list byte) : result XudpCodecError bool :=
  if len frame <? 2 then mret false
  else
    b0 ← index frame 0; b1 ← index frame 1;
    let meta_len := from_be [b0; b1] in
    if (meta_len <? 5) || (len frame <? 2 + meta_len) then mret false
    else body ← slice frame 2 (2 + meta_len); meta_body_is_xudp body.

Definition is_xudp_mux_command (c : Command) : bool :=
  match c with Mux => true | _ => false end.

(** ** Encoder *)

Definition write_port_then_address (d : Destination) : result XudpCodecError (list byte) :=
  match address d with
  | Ipv4 octets => Ok (to_be 2 (port d) ++ [ADDRESS_TYPE_IPV4] ++ octets)
  | Ipv6 octets => Ok (to_be 2 (port d) ++ [ADDRESS_TYPE_IPV6] ++ octets)
  | Domain name =>
    guard! len name =? 0 else XEmptyDomain;
    guard! 255 <? len name else XDomainTooLong (len name);
    Ok (to_be 2 (port d) ++ [ADDRESS_TYPE_DOMAIN] ++ [as_u8 (len name)] ++ name)
  end.

(** The metadata body staged after the two length bytes. *)
Definition stage_meta (d : Destination) (new_association : bool) (global_id : option (list byte))
    (rewrite_destination : bool) : result XudpCodecError (list byte) :=
  if new_association then
    addr ← write_port_then_address d;
    Ok (to_be 2 0 ++ [status_byte StatusNew] ++ [OPTION_DATA] ++ [network_byte NetUdp] ++ addr ++
        match global_id with Some id => id | None => [] end)
  else if rewrite_destination then
    addr ← write_port_then_address d;
    Ok (to_be 2 0 ++ [status_byte StatusKeep] ++ [OPTION_DATA] ++ [network_byte NetUdp] ++ addr)
  else Ok (to_be 2 0 ++ [status_byte StatusKeep] ++ [OPTION_DATA]).

(** The frame is appended to [output] only when every step succeeded. *)
Definition encode_xudp_packet (d : Destination) (payload : list byte) (new_association : bool)
    (global_id : option (list byte)) (rewrite_destination : bool) (output : list byte)
    : result XudpCodecError (list byte) :=
  guard! XUDP_MAX_PAYLOAD_LEN <? len payload else XPayloadTooLarge (len payload);
  payload_len ← ok_or (XPayloadTooLarge (len payload)) (try_from U16_MAX (len payload));
  meta ← stage_meta d new_association global_id rewrite_destination;
  guard! XUDP_MAX_META_LEN <? len meta else XMetaTooLarge (len meta);
  Ok (output ++ to_be 2 (len meta) ++ meta ++ to_be 2 payload_len ++ payload).

(** ** Decoder *)

(** The [match address_type]; the cursor starts after port and type. *)
Definition read_address (input : list byte) (address_type : byte) : result XudpCodecError (Address * Z) :=
  if bool_decide (address_type = ADDRESS_TYPE_IPV4) then
    guard! len input <? 3 + 4 else XTruncated "ipv4";
    octets ← slice input 3 (3 + 4); Ok (Ipv4 octets, 3 + 4)
  else if bool_decide (address_type = ADDRESS_TYPE_IPV6) then
    guard! len input <? 3 + 16 else XTruncated "ipv6";
    octets ← slice input 3 (3 + 16); Ok (Ipv6 octets, 3 + 16)
  else if bool_decide (address_type = ADDRESS_TYPE_DOMAIN) then
    guard! len input <? 3 + 1 else XTruncated "domain length";
    l ← index input 3;
    guard! u8 l =? 0 else XEmptyDomain;
    guard! len input <? 4 + u8 l else XTruncated "domain";
    name ← slice input 4 (4 + u8 l);
    guard! negb (from_utf8 name) else XInvalidDomainUtf8;
    Ok (Domain name, 4 + u8 l)
  else Err (XUnknownAddressType address_type).

Definition read_port_then_address (input : list byte) : result XudpCodecError (Destination * Z) :=
  guard! len input <? 3 else XTruncated "port/address";
  b0 ← index input 0; b1 ← index input 1;
  let p := from_be [b0; b1] in
  address_type ← index input 2;
  '(a, cursor) ← read_address input address_type;
  Ok ({| address := a; port := p |}, cursor).

Definition trailing (meta : list byte) (cursor : Z) : result XudpCodecError unit :=
  reject_if (negb (cursor =? len meta)) (XTrailingMetaBytes (len meta - cursor)).

(** The optional destination of a Keep frame. *)
Definition keep_destination (meta : list byte) : result XudpCodecError (option Destination * Z) :=
  if 4 <? len meta then
    nb ← index meta 4;
    if u8 nb =? u8 (network_byte NetUdp) then
      rest ← slice_from meta 5;
      '(dest, consumed) ← read_port_then_address rest;
      Ok (Some dest, 5 + consumed)
    else if u8 nb =? u8 (network_byte NetTcp) then Err XTcpNetworkRejected
    else Err (XUnknownNetwork nb)
  else Ok (None, 4).

(** The [match status] of the decoder: destination and GlobalID. *)
Definition decode_body (status : XudpSessionStatus) (option_ : byte) (meta : list byte)
    : result XudpCodecError (option Destination * option (list byte)) :=
  match status with
  | StatusNew =>
    guard! len meta <? 4 + 1 else XTruncated "network";
    nb ← index meta 4;
    network ← ok_or (XUnknownNetwork nb) (network_from_byte nb);
    guard! (match network with NetTcp => true | NetUdp => false end) else XTcpNetworkRejected;
    rest ← slice_from meta 5;
    '(dest, consumed) ← read_port_then_address rest;
    let cursor := 5 + consumed in
    '(gid, cursor) ←
      (if has_data option_ && (cursor + 8 <=? len meta) then
         id ← slice meta cursor (cursor + 8); Ok (Some id, cursor + 8)
       else Ok (None, cursor));
    _ ← trailing meta cursor;
    Ok (Some dest, gid)
  | StatusKeep =>
    '(dest, cursor) ← keep_destination meta;
    _ ← trailing meta cursor;
    Ok (dest, None)
  | StatusEnd | StatusKeepAlive =>
    _ ← trailing meta 4;
    Ok (None, None)
  end.

(** The payload that follows the metadata when the Data option is set. *)
Definition decode_payload (option_ : byte) (input : list byte) (consumed : Z)
    : result XudpCodecError (list byte * Z) :=
  if has_data option_ then
    guard! len input <? consumed + 2 else XTruncated "payloadLen";
    b0 ← index input consumed; b1 ← index input (consumed + 1);
    let payload_len := from_be [b0; b1] in
    let consumed := consumed + 2 in
    guard! XUDP_MAX_PAYLOAD_LEN <? payload_len else XPayloadTooLarge payload_len;
    guard! len input <? consumed + payload_len else XTruncated "payload";
    payload ← slice input consumed (consumed + payload_len);
    Ok (payload, consumed + payload_len)
  else Ok ([], consumed).

(** The metadata fields of one frame. *)
Definition decode_meta (meta : list byte)
    : result XudpCodecError (Z * XudpSessionStatus * byte * option Destination * option (list byte)) :=
  s0 ← index meta 0; s1 ← index meta 1;
  let session_id := from_be [s0; s1] in
  guard! negb (session_id =? 0) else XSessionIdMustBeZero session_id;
  sb ← index meta 2;
  status ← ok_or (XUnknownStatus sb) (status_from_byte sb);
  option_ ← index meta 3;
  '(dest, gid) ← decode_body status option_ meta;
  Ok (session_id, status, option_, dest, gid).

Definition decode_xudp_packet (input : list byte) : result XudpCodecError (XudpPacket * Z) :=
  guard! len input <? 2 else XTruncated "metaLen";
  b0 ← index input 0; b1 ← index input 1;
  let meta_len := from_be [b0; b1] in
  guard! meta_len <? 4 else XMetaTooSmall meta_len;
  guard! XUDP_MAX_META_LEN <? meta_len else XMetaTooLarge meta_len;
  let meta_end := 2 + meta_len in
  guard! len input <? meta_end else XTruncated "metadata";
  meta ← slice input 2 meta_end;
  '(session_id, status, option_, dest, gid) ← decode_meta meta;
  '(payload, consumed) ← decode_payload option_ input meta_end;
  Ok ({| xp_session_id := session_id; xp_status := status; xp_option := option_;
         xp_destination := dest; xp_global_id := gid; xp_payload := payload |}, consumed).

(** ** The wire format *)

Lemma to_be_2 z : to_be 2 z = [as_u8 (z / 256); as_u8 z].
Proof. done. Qed.

(** Runs the guards and in-range reads at the head of a decoder. *)
Ltac pass := rewrite guard_pass by (apply Z.ltb_ge; slen).
Ltac read := erewrite bind_step by reflexivity.

Definition xaddr_wf (a : Address) : Prop :=
  match a with
  | Ipv4 o => len o = 4
  | Ipv6 o => len o = 16
  | Domain n => 1 <= len n <= U8_MAX /\ from_utf8 n = true
  end.

Definition xdest_wf (d : Destination) : Prop := u16_range (port d) /\ xaddr_wf (address d).

Definition address_type_of (a : Address) : byte :=
  match a with Ipv4 _ => ADDRESS_TYPE_IPV4 | Domain _ => ADDRESS_TYPE_DOMAIN | Ipv6 _ => ADDRESS_TYPE_IPV6 end.

Lemma read_address_enc b0 b1 a rest :
  xaddr_wf a ->
  read_address (b0 :: b1 :: enc_address a ++ rest) (address_type_of a) = Ok (a, 2 + len (enc_address a)).
Proof.
  destruct a as [o|n|o]; cbn [xaddr_wf enc_address address_type_of app]; unfold read_address; intros Ha.
  - rewrite (bool_decide_true (ADDRESS_TYPE_IPV4 = _)) by done. pass.
    rewrite (slice_mid [b0; b1; ADDRESS_TYPE_IPV4] o rest 3 (3 + 4)) by slen. cbn -[len]. do 2 f_equal. slen.
  - destruct Ha as [Hl Hu]. rewrite (bool_decide_false (ADDRESS_TYPE_DOMAIN = ADDRESS_TYPE_IPV4)) by done.
    rewrite (bool_decide_false (ADDRESS_TYPE_DOMAIN = ADDRESS_TYPE_IPV6)), bool_decide_true by done.
    pass. read. rewrite u8_as_u8_small by lia. rewrite guard_pass by (apply Z.eqb_neq; lia). pass.
    rewrite (slice_mid [b0; b1; ADDRESS_TYPE_DOMAIN; as_u8 (len n)] n rest 4) by slen.
    cbn -[len]. rewrite Hu. cbn -[len]. do 2 f_equal. slen.
  - rewrite (bool_decide_false (ADDRESS_TYPE_IPV6 = ADDRESS_TYPE_IPV4)) by done.
    rewrite (bool_decide_true (ADDRESS_TYPE_IPV6 = _)) by done. pass.
    rewrite (slice_mid [b0; b1; ADDRESS_TYPE_IPV6] o rest 3 (3 + 16)) by slen. cbn -[len]. do 2 f_equal. slen.
Qed.

Lemma read_address_inv b0 b1 ty input a n :
  read_address (b0 :: b1 :: ty :: input) ty = Ok (a, n) ->
  xaddr_wf a /\ n = 2 + len (enc_address a) /\ exists rest, ty :: input = enc_address a ++ rest.
Proof.
  unfold read_address. repeat case_bool_decide; try discriminate; intros Hx; inv_ok Hx.
  - eapply (slice_tail [_; _; _]) in Hstep0 as (r & -> & Hl); [|done].
    split_and!; [cbn; lia|cbn [enc_address]; slen|]. by exists r.
  - eapply (slice_tail [_; _; _]) in Hstep0 as (r & -> & Hl); [|done].
    split_and!; [cbn; lia|cbn [enc_address]; slen|]. by exists r.
  - destruct input as [|l input]; [slen|]. injection Hstep0 as <-.
    eapply (slice_tail [_; _; _; _]) in Hstep3 as (r & -> & Hl); [|done].
    apply Z.eqb_neq in Hstep1. apply negb_false_iff in Hstep4. pose proof (u8_range l).
    assert (Hb : as_u8 (len x3) = l) by (rewrite <- (as_u8_u8 l); f_equal; lia).
    cbn [enc_address]. rewrite Hb. split_and!; [|slen|by exists r].
    split; [unfold U8_MAX; lia|done].
Qed.

Lemma read_destination_enc d rest :
  xdest_wf d -> read_port_then_address (enc_destination d ++ rest) = Ok (d, len (enc_destination d)).
Proof.
  intros [Hp Ha]. unfold enc_destination. pose proof (from_be_u16 _ Hp) as Hport.
  destruct d as [a p]. cbn [address port] in *. rewrite to_be_2 in *. unfold read_port_then_address.
  set (b0 := as_u8 (p / 256)) in *. set (b1 := as_u8 p) in *. cbn [app].
  assert (exists t, enc_address a = address_type_of a :: t) as [t Ht] by (destruct a; cbn; eauto).
  rewrite guard_pass by (apply Z.ltb_ge; rewrite Ht; slen). read. read. rewrite Hport.
  rewrite (bind_step _ (address_type_of a)) by (by rewrite Ht).
  rewrite read_address_enc by done. cbn -[len]. do 2 f_equal. slen.
Qed.

Lemma read_destination_inv input d n :
  read_port_then_address input = Ok (d, n) ->
  xdest_wf d /\ n = len (enc_destination d) /\ exists rest, input = enc_destination d ++ rest.
Proof.
  unfold read_port_then_address. intros H. apply bind_ok in H as ([] & H3%reject_ok%Z.ltb_ge & H).
  destruct input as [|b0 [|b1 [|ty input]]]; [slen..|].
  erewrite bind_step in H by reflexivity. erewrite bind_step in H by reflexivity.
  erewrite bind_step in H by reflexivity.
  apply bind_ok in H as ([a cursor] & Ha & [= <- <-]).
  apply read_address_inv in Ha as (Hwf & -> & rest & Hrest).
  unfold enc_destination, xdest_wf. cbn [address port]. rewrite to_be_from_be by done.
  split_and!; [by apply from_be_u16_range|done|slen|]. exists rest. by rewrite Hrest.
Qed.

(** ** Frames *)

Definition enc_body (status : XudpSessionStatus) (dest : option Destination) (gid : option (list byte)) : list byte :=
  match status, dest with
  | StatusNew, Some d | StatusKeep, Some d => [network_byte NetUdp] ++ enc_destination d ++ default [] gid
  | _, _ => []
  end.

Definition enc_meta (p : XudpPacket) : list byte :=
  to_be 2 0 ++ [status_byte (xp_status p); xp_option p] ++ enc_body (xp_status p) (xp_destination p) (xp_global_id p).

Definition enc_payload (o : byte) (payload : list byte) : list byte :=
  if has_data o then to_be 2 (len payload) ++ payload else [].

Definition enc_frame (p : XudpPacket) : list byte :=
  to_be 2 (len (enc_meta p)) ++ enc_meta p ++ enc_payload (xp_option p) (xp_payload p).

Definition body_wf (status : XudpSessionStatus) (o : byte) (dest : option Destination) (gid : option (list byte)) : Prop :=
  match status, dest with
  | StatusNew, Some d => xdest_wf d /\ (forall id, gid = Some id -> len id = 8 /\ has_data o = true)
  | StatusKeep, Some d => xdest_wf d /\ gid = None
  | StatusKeep, None | StatusEnd, None | StatusKeepAlive, None => gid = None
  | _, _ => False
  end.

Definition payload_wf (o : byte) (payload : list byte) : Prop :=
  if has_data o then len payload <= XUDP_MAX_PAYLOAD_LEN else payload = [].

Definition packet_wf (p : XudpPacket) : Prop :=
  xp_session_id p = 0 /\ body_wf (xp_status p) (xp_option p) (xp_destination p) (xp_global_id p) /\
  payload_wf (xp_option p) (xp_payload p).

Lemma status_from_to s : status_from_byte (status_byte s) = Some s.
Proof. by destruct s. Qed.

Lemma status_from_inv b s : status_from_byte b = Some s -> b = status_byte s.
Proof. destruct b; try discriminate; by intros [= <-]. Qed.

Lemma len_enc_destination d : xdest_wf d -> 5 <= len (enc_destination d) <= 259.
Proof.
  intros [_ Ha]. unfold enc_destination. destruct (address d); cbn [enc_address]; cbn in Ha; unfold U8_MAX in *; slen.
Qed.

Lemma len_enc_meta p : packet_wf p -> 4 <= len (enc_meta p) <= 272.
Proof.
  intros (_ & Hb & _). unfold enc_meta, enc_body.
  destruct (xp_status p), (xp_destination p) as [d|]; cbn [body_wf] in Hb; try done; try slen;
    destruct Hb as [Hd Hg]; pose proof (len_enc_destination d Hd);
    (destruct (xp_global_id p) as [g|]; [try (destruct (Hg g eq_refl)); try discriminate|]);
    unfold default, from_option, id; slen.
Qed.

Lemma trailing_ok meta cursor u : trailing meta cursor = Ok u <-> cursor = len meta.
Proof. unfold trailing. rewrite reject_ok, negb_false_iff, Z.eqb_eq. done. Qed.

Section Body.
Context (h0 h1 h2 h3 : byte).

Lemma decode_body_enc st o dest gid :
  body_wf st o dest gid ->
  decode_body st o (h0 :: h1 :: h2 :: h3 :: enc_body st dest gid) = Ok (dest, gid).
Proof.
  destruct st, dest as [d|]; cbn [body_wf enc_body]; try done; try (by intros ->).
  - intros [Hd Hg]. pose proof (len_enc_destination d Hd). unfold decode_body. cbn [app].
    pass. read. read. rewrite guard_pass by done.
    erewrite bind_step by exact (slice_from_app [h0; h1; h2; h3; network_byte NetUdp] _ 5 eq_refl).
    erewrite bind_step by exact (read_destination_enc d (default [] gid) Hd).
    destruct gid as [g|]; unfold default, from_option, id.
    + destruct (Hg g eq_refl) as [Hl ->]. rewrite (proj2 (Z.leb_le _ _)) by slen. cbn [andb].
      pose proof (slice_mid (E := XudpCodecError) (h0 :: h1 :: h2 :: h3 :: network_byte NetUdp :: enc_destination d)
        g [] (5 + len (enc_destination d)) (5 + len (enc_destination d) + 8) ltac:(slen) ltac:(slen)) as Hs.
      rewrite app_nil_r in Hs. cbn [app] in Hs. rewrite Hs. cbn -[len trailing]. rewrite (proj2 (trailing_ok _ _ tt)) by slen. done.
    + rewrite (proj2 (Z.leb_gt _ _)) by slen. rewrite andb_false_r. cbn -[len trailing].
      rewrite (proj2 (trailing_ok _ _ tt)) by slen. done.
  - intros [Hd ->]. pose proof (len_enc_destination d Hd). unfold decode_body. cbn [app].
    assert (Hk : keep_destination (h0 :: h1 :: h2 :: h3 :: network_byte NetUdp :: enc_destination d ++ default [] None)
      = Ok (Some d, 5 + len (enc_destination d))).
    { unfold keep_destination. rewrite (proj2 (Z.ltb_lt _ _)) by slen. read. rewrite Z.eqb_refl.
      erewrite bind_step by exact (slice_from_app [h0; h1; h2; h3; network_byte NetUdp] _ 5 eq_refl).
      by rewrite read_destination_enc. }
    rewrite Hk. cbn -[len trailing]. rewrite (proj2 (trailing_ok _ _ tt)) by slen. done.
Qed.

Lemma slice_from_5 b body rest :
  (slice_from (h0 :: h1 :: h2 :: h3 :: b :: body) 5 : result XudpCodecError _) = Ok rest -> body = rest.
Proof. intros H. erewrite (slice_from_app [h0; h1; h2; h3; b] body 5) in H by done. by injection H. Qed.

Lemma decode_body_inv st o body dest gid :
  decode_body st o (h0 :: h1 :: h2 :: h3 :: body) = Ok (dest, gid) ->
  body_wf st o dest gid /\ body = enc_body st dest gid.
Proof.
  assert (Hempty : trailing (h0 :: h1 :: h2 :: h3 :: body) 4 = Ok tt -> body = []).
  { intros Ht%trailing_ok. destruct body; [done|]. exfalso. slen. }
  destruct st; cbn [decode_body]; intros H.
  - apply bind_ok in H as (? & Hl%reject_ok%Z.ltb_ge & H). destruct body as [|nb body]; [slen|].
    erewrite bind_step in H by reflexivity. inv_ok H. apply slice_from_5 in Hstep1 as ->.
    destruct x3 as [d n]. apply read_destination_inv in Hstep2 as (Hd & -> & rest & ->).
    assert (nb = network_byte NetUdp) as -> by (destruct nb, x0; done).
    apply bind_ok in H as ([g cursor] & Hg & H). inv_ok H. apply trailing_ok in Hstep1. rename Hstep1 into Ht.
    destruct (has_data o && _) eqn:Hgid.
    + apply andb_true_iff in Hgid as [Ho _]. inv_ok Hg.
      apply (slice_tail (h0 :: h1 :: h2 :: h3 :: network_byte NetUdp :: enc_destination d) rest) in Hstep1
        as (r & -> & Hr); [|slen].
      assert (r = []) as -> by (destruct r; [done|slen]). rewrite app_nil_r.
      split; [|done]. split; [done|]. intros ? [= <-]. split; [slen|done].
    + injection Hg as <- <-. assert (rest = []) as -> by (destruct rest; [done|slen]). done.
  - apply bind_ok in H as ([d cursor] & Hk & H). inv_ok H. rename Hstep into Ht.
    unfold keep_destination in Hk. destruct (Z.ltb_spec 4 (len (h0 :: h1 :: h2 :: h3 :: body))) as [Hl|Hl].
    + destruct body as [|nb body]; [slen|]. erewrite bind_step in Hk by reflexivity.
      destruct (Z.eqb_spec (u8 nb) (u8 (network_byte NetUdp))) as [Hnb%u8_inj|]; [|by destruct (_ =? _)].
      inv_ok Hk. apply slice_from_5 in Hstep as ->. destruct x1 as [d' n]. injection Hk as <- <-.
      apply read_destination_inv in Hstep0 as (Hd & -> & rest & ->). subst nb.
      apply trailing_ok in Ht. assert (rest = []) as -> by (destruct rest; [done|slen]). done.
    + injection Hk as <- <-. destruct x. apply Hempty in Ht as ->. done.
  - inv_ok H. destruct x. by apply Hempty in Hstep as ->.
  - inv_ok H. destruct x. by apply Hempty in Hstep as ->.
Qed.
End Body.

Lemma decode_meta_enc p : packet_wf p ->
  decode_meta (enc_meta p) = Ok (0, xp_status p, xp_option p, xp_destination p, xp_global_id p).
Proof.
  intros (_ & Hb & _). unfold enc_meta, decode_meta. cbn [to_be app].
  do 2 read. rewrite guard_pass by done. read. rewrite status_from_to. do 2 read.
  by erewrite bind_step by (by apply decode_body_enc).
Qed.

Lemma decode_meta_inv meta sid st o dest gid :
  4 <= len meta -> decode_meta meta = Ok (sid, st, o, dest, gid) ->
  sid = 0 /\ body_wf st o dest gid /\ meta = to_be 2 0 ++ [status_byte st; o] ++ enc_body st dest gid.
Proof.
  intros Hl H. destruct meta as [|s0 [|s1 [|sb [|ob body]]]]; [slen..|]. unfold decode_meta in H.
  do 2 (erewrite bind_step in H by reflexivity).
  apply bind_ok in H as (? & Hs%reject_ok%negb_false_iff%Z.eqb_eq & H).
  erewrite bind_step in H by reflexivity. apply bind_ok in H as (st' & Hst%ok_or_ok%status_from_inv & H).
  erewrite bind_step in H by reflexivity. apply bind_ok in H as ([d g] & Hb & H).
  rewrite Hs in H. injection H as <- <- <- <- <-. apply decode_body_inv in Hb as [Hwf ->].
  split_and!; [done|done|]. assert (to_be 2 0 = [s0; s1]) as ->; [|by subst].
  rewrite <- (to_be_from_be [s0; s1] 2 eq_refl). by rewrite Hs.
Qed.

Lemma decode_payload_enc o pre payload rest :
  payload_wf o payload ->
  decode_payload o (pre ++ enc_payload o payload ++ rest) (len pre) =
    Ok (payload, len pre + len (enc_payload o payload)).
Proof.
  unfold payload_wf, enc_payload, decode_payload. destruct (has_data o); [|intros ->; f_equal; f_equal; slen].
  intros Hl. assert (Hr : u16_range (len payload)).
  { unfold u16_range, U16_MAX, XUDP_MAX_PAYLOAD_LEN, XRAY_BUF_SIZE in *. pose proof (len_nonneg payload). lia. }
  pose proof (from_be_u16 _ Hr) as Hbe. rewrite to_be_2 in *. set (b0 := as_u8 _) in *. set (b1 := as_u8 (len payload)) in *.
  rewrite <- app_assoc. cbn [app].
  pass. rewrite (bind_step (index _ (len pre)) b0) by (rewrite index_app_r, Z.sub_diag by lia; done).
  rewrite (bind_step (index _ (len pre + 1)) b1)
    by (rewrite index_app_r by lia; replace (len pre + 1 - len pre) with 1 by lia; done).
  rewrite Hbe. pass. pass.
  replace (pre ++ b0 :: b1 :: payload ++ rest) with ((pre ++ [b0; b1]) ++ payload ++ rest) by (by rewrite <- app_assoc).
  rewrite slice_mid by slen. cbn -[len]. do 2 f_equal. slen.
Qed.

Lemma decode_payload_inv o pre tail payload n :
  decode_payload o (pre ++ tail) (len pre) = Ok (payload, n) ->
  payload_wf o payload /\ n = len pre + len (enc_payload o payload) /\
  exists rest, tail = enc_payload o payload ++ rest.
Proof.
  unfold payload_wf, enc_payload, decode_payload. destruct (has_data o); intros H.
  - apply bind_ok in H as (? & Hl%reject_ok%Z.ltb_ge & H). destruct tail as [|b0 [|b1 tail]]; [slen..|].
    rewrite (bind_step (index _ (len pre)) b0) in H by (rewrite index_app_r, Z.sub_diag by lia; done).
    rewrite (bind_step (index _ (len pre + 1)) b1) in H
      by (rewrite index_app_r by lia; replace (len pre + 1 - len pre) with 1 by lia; done).
    apply bind_ok in H as (? & Hmax%reject_ok%Z.ltb_ge & H). apply bind_ok in H as (? & _ & H).
    apply bind_ok in H as (pl & Hs & H). injection H as <- <-.
    replace (pre ++ b0 :: b1 :: tail) with ((pre ++ [b0; b1]) ++ tail) in Hs by (by rewrite <- app_assoc).
    apply slice_tail in Hs as (r & -> & Hlen); [|slen].
    replace (len pl) with (from_be [b0; b1]) by lia. rewrite to_be_from_be by done.
    split_and!; [done|slen|]. by exists r.
  - injection H as <- <-. split_and!; [done|slen|]. by exists tail.
Qed.

(** ** No panic *)

(** Each read is covered by the guards before it. *)
Ltac np :=
  repeat first
    [ apply no_panic_guard; intros ?
    | apply no_panic_bind;
      [ first [ apply index_no_panic; slen | apply slice_no_panic; slen | apply slice_from_no_panic; slen
              | eauto with rust ] | intros ? ? ]
    | solve [eauto with rust] ].

Ltac bounds := repeat match goal with
  | H : (_ <? _) = false |- _ => apply Z.ltb_ge in H
  | H : (_ <? _) = true |- _ => apply Z.ltb_lt in H
  | H : (_ <=? _) = true |- _ => apply Z.leb_le in H
  end.

Lemma read_address_no_panic input ty : 3 <= len input -> no_panic (read_address input ty).
Proof.
  intros Hl. unfold read_address. repeat case_bool_decide; [..|done].
  - apply no_panic_guard; intros ?. bounds. np.
  - apply no_panic_guard; intros ?. bounds. np.
  - apply no_panic_guard; intros ?. bounds.
    apply no_panic_bind; [apply index_no_panic; slen|]. intros l _. pose proof (u8_range l).
    apply no_panic_guard; intros ?. apply no_panic_guard; intros ?. bounds. np.
Qed.

Lemma read_destination_no_panic input : no_panic (read_port_then_address input).
Proof.
  unfold read_port_then_address. apply no_panic_guard; intros ?. bounds.
  do 3 (apply no_panic_bind; [apply index_no_panic; slen|]; intros ? _).
  apply no_panic_bind; [by apply read_address_no_panic|]. intros [aa cc] _. done.
Qed.
#[local] Hint Resolve read_destination_no_panic : rust.

Lemma trailing_no_panic meta c : no_panic (trailing meta c).
Proof. unfold trailing. by destruct (negb _). Qed.
#[local] Hint Resolve trailing_no_panic : rust.

Lemma decode_body_no_panic st o meta : 4 <= len meta -> no_panic (decode_body st o meta).
Proof.
  intros Hl. destruct st; cbn [decode_body]; [| |np..].
  - apply no_panic_guard; intros ?. bounds. np.
    destruct a2 as [d n].
    assert (0 <= n).
    { eapply read_destination_inv in H4 as (_ & -> & _). apply len_nonneg. }
    destruct (has_data o && (5 + n + 8 <=? len meta)) eqn:Hg; [apply andb_true_iff in Hg as [_ Hg]; bounds|]; np;
      destruct a2; np.
  - apply no_panic_bind; [|intros [d c] _; np]. unfold keep_destination.
    destruct (Z.ltb_spec 4 (len meta)); [|done].
    apply no_panic_bind; [apply index_no_panic; slen|]. intros nb _.
    repeat case_match; [|done..]. np. by destruct a0.
Qed.

Lemma decode_xudp_no_panic input : no_panic (decode_xudp_packet input).
Proof.
  unfold decode_xudp_packet. apply no_panic_guard; intros ?. bounds.
  do 2 (apply no_panic_bind; [apply index_no_panic; slen|]; intros ? _).
  set (ml := from_be _). repeat (apply no_panic_guard; intros ?). bounds.
  apply no_panic_bind; [apply slice_no_panic; lia|]. intros meta Hm.
  apply slice_ok, get_range_inv in Hm as (_ & _ & _ & Hlen & _).
  apply no_panic_bind.
  { unfold decode_meta. np; [apply decode_body_no_panic; lia|]. by destruct a6. }
  intros [[[[sid st] o] d] g] _. apply no_panic_bind; [|by intros [? ?] _].
  unfold decode_payload. destruct (has_data o); [|done]. apply no_panic_guard; intros ?. bounds.
  do 2 (apply no_panic_bind; [apply index_no_panic; slen|]; intros ? _).
  pose proof (from_be_range [a1; a2]).
  repeat (apply no_panic_guard; intros ?). bounds. np.
Qed.

(** ** Exactness and round trip *)

Lemma decode_frame p rest : packet_wf p -> decode_xudp_packet (enc_frame p ++ rest) = Ok (p, len (enc_frame p)).
Proof.
  intros Hwf. pose proof (len_enc_meta p Hwf) as Hm. pose proof Hwf as (Hsid & _ & Hpl).
  assert (Hr : u16_range (len (enc_meta p))) by (unfold u16_range, U16_MAX; lia).
  unfold enc_frame, decode_xudp_packet. rewrite <- !app_assoc.
  pose proof (from_be_u16 _ Hr) as Hbe. set (lb := to_be 2 (len (enc_meta p))) in *.
  assert (exists b0 b1, lb = [b0; b1]) as (b0 & b1 & Hlb) by (unfold lb; rewrite to_be_2; eauto).
  clearbody lb. subst lb. pass. do 2 read. rewrite Hbe. pass. unfold XUDP_MAX_META_LEN. pass. pass.
  rewrite (bind_step _ _ _ (slice_mid [b0; b1] (enc_meta p) _ 2 (2 + len (enc_meta p)) eq_refl ltac:(slen))).
  rewrite (bind_step _ _ _ (decode_meta_enc p Hwf)).
  replace (2 + len (enc_meta p)) with (len ([b0; b1] ++ enc_meta p)) by slen. rewrite (app_assoc [b0; b1]).
  rewrite decode_payload_enc by done. cbn -[len app]. f_equal. f_equal; [|slen]. destruct p. cbn in *. by subst.
Qed.

Lemma decode_frame_inv input p n :
  decode_xudp_packet input = Ok (p, n) ->
  packet_wf p /\ n = len (enc_frame p) /\ exists rest, input = enc_frame p ++ rest.
Proof.
  intros H. unfold decode_xudp_packet in H. apply bind_ok in H as (? & Hl%reject_ok%Z.ltb_ge & H).
  destruct input as [|b0 [|b1 input]]; [slen..|].
  do 2 (erewrite bind_step in H by reflexivity). 
  apply bind_ok in H as (? & H1%reject_ok%Z.ltb_ge & H). apply bind_ok in H as (? & H2%reject_ok%Z.ltb_ge & H).
  apply bind_ok in H as (? & H3%reject_ok%Z.ltb_ge & H). apply bind_ok in H as (x3 & Hs & H).
  apply bind_ok in H as (m & Hm & H).
  apply (slice_tail [b0; b1]) in Hs as (tail & -> & Hlen); [|done].
  destruct m as [[[[sid st] o] d] g]. apply decode_meta_inv in Hm as (-> & Hb & Hmeta); [|lia].
  apply bind_ok in H as ([pl consumed] & Hpl & H). injection H as <- <-.
  replace (2 + from_be [b0; b1]) with (len ([b0; b1] ++ x3)) in Hpl by slen.
  change (b0 :: b1 :: x3 ++ tail) with (([b0; b1] ++ x3) ++ tail) in Hpl.
  apply decode_payload_inv in Hpl as (Hp & -> & rest & ->).
  unfold enc_frame, enc_meta. cbn [xp_status xp_option xp_destination xp_global_id xp_payload].
  rewrite <- Hmeta. replace (len x3) with (from_be [b0; b1]) by lia. rewrite to_be_from_be by done.
  split_and!; [done|slen|]. exists rest. by rewrite <- !app_assoc.
Qed.

(** The XUDP decoder accepts exactly the well-formed frames. It never panics,
    whatever the input; it succeeds exactly when the input starts with the
    encoding of a well-formed packet (session zero, UDP network, bounded
    metadata and payload, GlobalID only on a New frame with data), and it then
    returns that packet and consumes exactly its frame. *)
Theorem xudp_decode_exact (input : list byte) (p : XudpPacket) (n : Z) :
  no_panic (decode_xudp_packet input) /\
  (decode_xudp_packet input = Ok (p, n) <->
   packet_wf p /\ n = len (enc_frame p) /\ exists rest, input = enc_frame p ++ rest).
Proof.
  split; [apply decode_xudp_no_panic|]. split; [apply decode_frame_inv|].
  intros (Hwf & -> & rest & ->). by apply decode_frame.
Qed.

Lemma write_address_enc d : xdest_wf d -> write_port_then_address d = Ok (enc_destination d).
Proof.
  intros [_ Ha]. unfold write_port_then_address, enc_destination. destruct (address d) as [o|nm|o]; [done| |done].
  destruct Ha as [Hl _]. unfold U8_MAX in Hl. rewrite guard_pass by (apply Z.eqb_neq; lia). by pass.
Qed.

(** The packet an encoder call stands for. *)
Definition packet_of (d : Destination) (payload : list byte) (new_association : bool)
    (global_id : option (list byte)) (rewrite_destination : bool) : XudpPacket :=
  {| xp_session_id := 0;
     xp_status := if new_association then StatusNew else StatusKeep;
     xp_option := OPTION_DATA;
     xp_destination := if new_association || rewrite_destination then Some d else None;
     xp_global_id := if new_association then global_id else None;
     xp_payload := payload |}.

Lemma stage_meta_enc d payload new gid rw :
  xdest_wf d -> stage_meta d new gid rw = Ok (enc_meta (packet_of d payload new gid rw)).
Proof.
  intros Hd. unfold stage_meta, enc_meta, packet_of, enc_body.
  destruct new; [|destruct rw]; cbn -[enc_destination write_port_then_address]; rewrite ?write_address_enc by done;
    [|by rewrite app_nil_r|done]. by destruct gid.
Qed.

(** Encoding a datagram and decoding it again is the identity. For a
    destination the types allow (domain of 1 to 255 bytes) the encoder appends
    one whole frame to its output exactly when the payload is within the bound
    and leaves the output alone otherwise; decoding the frame, whatever follows
    it, gives back status, destination, GlobalID and payload. *)
Theorem xudp_encode_decode (d : Destination) (payload : list byte) (new_association : bool)
    (global_id : option (list byte)) (rewrite_destination : bool) (output rest : list byte) :
  xdest_wf d -> (forall g, global_id = Some g -> len g = 8) ->
  let p := packet_of d payload new_association global_id rewrite_destination in
  if len payload <=? XUDP_MAX_PAYLOAD_LEN then
    encode_xudp_packet d payload new_association global_id rewrite_destination output = Ok (output ++ enc_frame p) /\
    decode_xudp_packet (enc_frame p ++ rest) = Ok (p, len (enc_frame p))
  else
    encode_xudp_packet d payload new_association global_id rewrite_destination output
      = Err (XPayloadTooLarge (len payload)).
Proof.
  intros Hd Hg p. unfold encode_xudp_packet. destruct (Z.leb_spec (len payload) XUDP_MAX_PAYLOAD_LEN) as [Hl|Hl].
  - assert (Hwf : packet_wf p).
    { split_and!; [done| |done]. unfold p, packet_of, body_wf. cbn.
      destruct new_association; cbn; [split; [done|]; intros g Hs; split; [auto|done]|].
      by destruct rewrite_destination. }
    split; [|by apply decode_frame]. pose proof (len_enc_meta p Hwf). pass.
    rewrite (bind_step _ (len payload)).
    2: { apply ok_or_ok, try_from_some. unfold XUDP_MAX_PAYLOAD_LEN, XRAY_BUF_SIZE, U16_MAX in *.
         pose proof (len_nonneg payload). lia. }
    rewrite (bind_step _ _ _ (stage_meta_enc d payload _ _ _ Hd)). fold p. unfold XUDP_MAX_META_LEN. pass. done.
  - by rewrite (proj2 (Z.ltb_lt _ _)).
Qed.

Definition example_xdest : Destination := {| address := Domain (bytes_of "example.org"); port := 443 |}.
