(* ===== verification/Crypto.v ===== *)
(** * Cryptographic primitives

    HKDF-SHA256, HMAC-SHA256 and ChaCha20-Poly1305 come from external crates and
    X25519 from vendored assembly behind [crates/rr-crypto]: the protocol models are parametric in them. [CryptoOps] lists the
    operations the protocols call, [CryptoLaws] the documented behaviour they
    rely on (correctness of decryption and key agreement, output lengths); no
    law says anything about secrecy or forgery. *)

From S2P Require Import Prelude.

Class CryptoOps := {
  Secret : Type;
  (** [public_key()] and [agree(peer)]; [None] is a non-contributory share. *)
  x25519_public : Secret -> list byte;
  x25519_agree : Secret -> list byte -> option (list byte);
  (** [Hkdf::new(salt, ikm).expand(info, okm)] into [n] bytes. *)
  hkdf : list byte -> list byte -> list byte -> Z -> option (list byte);
  (** [HMAC-SHA256(key, data)]. *)
  hmac : list byte -> list byte -> list byte;
  (** Detached seal: ciphertext and tag; detached open. *)
  aead_seal : list byte -> list byte -> list byte -> list byte -> option (list byte * list byte);
  aead_open : list byte -> list byte -> list byte -> list byte -> list byte -> option (list byte);
}.

Class CryptoLaws (C : CryptoOps) : Prop := {
  public_len : forall s, len (x25519_public s) = 32;
  agree_len : forall s p k, x25519_agree s p = Some k -> len k = 32;
  agree_comm : forall a b, x25519_agree a (x25519_public b) = x25519_agree b (x25519_public a);
  hkdf_len : forall salt ikm info n okm, hkdf salt ikm info n = Some okm -> len okm = n;
  hmac_len : forall k m, len (hmac k m) = 32;
  seal_len : forall k n a p c t, aead_seal k n a p = Some (c, t) -> len c = len p /\ len t = 16;
  open_seal : forall k n a p c t, aead_seal k n a p = Some (c, t) -> aead_open k n a c t = Some p;
  open_len : forall k n a c t p, aead_open k n a c t = Some p -> len p = len c;
}.

(** ** A transparent instance

    It satisfies the laws and authenticates by comparing the tag with the
    leading bytes of key, nonce and associated data; the examples run on it. *)

Definition fit (n : nat) (l : list byte) : list byte := take n (l ++ replicate n x00).

Lemma len_fit n l : len (fit n l) = Z.of_nat n.
Proof. unfold fit. slen. Qed.

Definition toy_tag (k n a c : list byte) : list byte := fit 16 (take 4 k ++ take 6 n ++ take 6 a).

#[export] Instance toy_ops : CryptoOps := {
  Secret := byte;
  x25519_public s := fit 32 [s];
  x25519_agree s p := Some (fit 32 [as_u8 (u8 s + u8 (default x00 (head p)))]);
  hkdf salt ikm info n := if 0 <=? n then Some (fit (Z.to_nat n) (drop 60 ikm ++ take 40 ikm)) else None;
  hmac k m := fit 32 (k ++ m);
  aead_seal k n a p := Some (p, toy_tag k n a p);
  aead_open k n a c t := if bytes_eqb t (toy_tag k n a c) then Some c else None;
}.

#[export] Instance toy_laws : CryptoLaws toy_ops.
Proof.
  constructor; cbn -[fit].
  - intros s. apply (len_fit 32).
  - intros s p k [= <-]. apply (len_fit 32).
  - intros a b. do 3 f_equal. cbn. by rewrite Z.add_comm.
  - intros salt ikm info n okm H. destruct (Z.leb_spec 0 n); [|done]. injection H as <-.
    rewrite len_fit. lia.
  - intros k m. apply (len_fit 32).
  - intros k n a p c t [= <- <-]. split; [done|apply (len_fit 16)].
  - intros k n a p c t [= <- <-]. by rewrite bytes_eqb_refl.
  - intros k n a c t p H. destruct (bytes_eqb t _); [|done]. by injection H as <-.
Qed.
