(* ===== verification/Window.v ===== *)
(** * Anti-replay window of the native UDP channel
    ([src/protocol/handoff/udp/window.rs])

    The RFC 6479 bitmap, and its refinement of the set of accepted counters. *)

From S2P Require Import Prelude.

Definition REPLAY_WINDOW_BITS : Z := 1024.
Definition WORDS : nat := 16.

Record ReplayWindow := { highest : Z; bitmap : list Z }.

Definition new_window : ReplayWindow := {| highest := 0; bitmap := replicate WORDS 0 |}.

Definition slot (counter : Z) : nat * Z :=
  let index := counter mod REPLAY_WINDOW_BITS in (Z.to_nat (index / 64), index mod 64).

(** [self.bitmap[word]]; the slot is always in range ([slot_in_range]). *)
Definition word_at (bm : list Z) (w : nat) : Z := default 0 (bm !! w).

Definition check (w : ReplayWindow) (counter : Z) : bool :=
  if counter =? 0 then false
  else if highest w <? counter then true
  else
    let age := highest w - counter in
    if REPLAY_WINDOW_BITS <=? age then false
    else
      let '(word, bit) := slot counter in
      Z.land (word_at (bitmap w) word) (Z.shiftl 1 bit) =? 0.

Definition clear_slot (bm : list Z) (counter : Z) : list Z :=
  let '(word, bit) := slot counter in
  <[word := Z.ldiff (word_at bm word) (Z.shiftl 1 bit)]> bm.

Definition set_slot (bm : list Z) (counter : Z) : list Z :=
  let '(word, bit) := slot counter in
  <[word := Z.lor (word_at bm word) (Z.shiftl 1 bit)]> bm.

(** The [while cleared < counter] loop; [fuel] bounds the distance. *)
Fixpoint clear_loop (fuel : nat) (bm : list Z) (cleared counter : Z) : list Z :=
  match fuel with
  | O => bm
  | S fuel =>
    if cleared <? counter then clear_loop fuel (clear_slot bm cleared) (cleared + 1) counter else bm
  end.

Definition commit (w : ReplayWindow) (counter : Z) : bool * ReplayWindow :=
  if negb (check w counter) then (false, w)
  else
    let w :=
      if highest w <? counter then
        let advance := counter - highest w in
        let bm :=
          if REPLAY_WINDOW_BITS <=? advance then replicate WORDS 0
          else clear_loop (Z.to_nat advance) (bitmap w) (highest w + 1) counter in
        {| highest := counter; bitmap := bm |}
      else w in
    (true, {| highest := highest w; bitmap := set_slot (bitmap w) counter |}).

(** ** Abstract specification

    The accepted counters, newest first; a counter is acceptable when it is new
    and not behind the window. *)
Definition spec_highest (seen : list Z) : Z := foldr Z.max 0 seen.

Definition spec_check (seen : list Z) (c : Z) : bool :=
  negb (c =? 0) &&
  ((spec_highest seen <? c) ||
   ((spec_highest seen - c <? REPLAY_WINDOW_BITS) && negb (bool_decide (c ∈ seen)))).

Definition spec_commit (seen : list Z) (c : Z) : bool * list Z :=
  if spec_check seen c then (true, c :: seen) else (false, seen).

(** Committing a sequence of counters. *)
Fixpoint commit_all_window (w : ReplayWindow) (cs : list Z) : list bool * ReplayWindow :=
  match cs with
  | [] => ([], w)
  | c :: cs =>
    let '(b, w) := commit w c in let '(bs, w) := commit_all_window w cs in (b :: bs, w)
  end.

Fixpoint spec_commit_all (seen : list Z) (cs : list Z) : list bool * list Z :=
  match cs with
  | [] => ([], seen)
  | c :: cs =>
    let '(b, seen) := spec_commit seen c in let '(bs, seen) := spec_commit_all seen cs in (b :: bs, seen)
  end.

(** ** Bits *)

(** The bit of the bitmap that stands for [c]. *)
Definition wbit (bm : list Z) (c : Z) : bool :=
  Z.testbit (word_at bm (slot c).1) (slot c).2.

Lemma slot_in_range c : ((slot c).1 < WORDS)%nat /\ 0 <= (slot c).2 < 64.
Proof.
  unfold slot, REPLAY_WINDOW_BITS, WORDS. cbn.
  pose proof (Z.mod_pos_bound c 1024 ltac:(lia)).
  pose proof (Z.mod_pos_bound (c mod 1024) 64 ltac:(lia)).
  pose proof (Z.div_pos (c mod 1024) 64). pose proof (Z.div_lt_upper_bound (c mod 1024) 64 16). lia.
Qed.

Lemma slot_eq c c' : slot c = slot c' <-> c mod REPLAY_WINDOW_BITS = c' mod REPLAY_WINDOW_BITS.
Proof.
  unfold slot. split; [|by intros ->]. intros [= Hq Hr].
  set (a := c mod REPLAY_WINDOW_BITS) in *. set (b := c' mod REPLAY_WINDOW_BITS) in *.
  assert (0 <= a /\ 0 <= b) as [Ha Hb]
    by (unfold a, b, REPLAY_WINDOW_BITS; split; apply Z.mod_pos_bound; lia).
  pose proof (Z.div_mod a 64 ltac:(lia)). pose proof (Z.div_mod b 64 ltac:(lia)).
  pose proof (Z.div_pos a 64 Ha ltac:(lia)). pose proof (Z.div_pos b 64 Hb ltac:(lia)). lia.
Qed.

Lemma check_bit w c :
  0 <= c -> check w c = negb (c =? 0) &&
    ((highest w <? c) || ((highest w - c <? REPLAY_WINDOW_BITS) && negb (wbit (bitmap w) c))).
Proof.
  intros Hc. unfold check. destruct (c =? 0); [done|]. cbn [negb andb].
  destruct (highest w <? c); [done|]. cbn [orb].
  rewrite Z.leb_antisym. destruct (highest w - c <? REPLAY_WINDOW_BITS); [|done]. cbn [negb andb].
  unfold wbit. pose proof (slot_in_range c) as [_ Hb]. destruct (slot c) as [word bit]. cbn [fst snd] in *.
  rewrite Z.shiftl_1_l.
  destruct (Z.testbit (word_at (bitmap w) word) bit) eqn:Ht; cbn [negb].
  - apply Z.eqb_neq. intros H0. apply (f_equal (fun z => Z.testbit z bit)) in H0.
    cbn beta in H0. rewrite Z.land_spec, Ht, Z.pow2_bits_true, Z.bits_0 in H0 by lia. done.
  - apply Z.eqb_eq. apply Z.bits_inj_iff'. intros i Hi. rewrite Z.land_spec, Z.bits_0.
    destruct (Z.eqb_spec bit i) as [->|Hne]; [by rewrite Ht|].
    rewrite Z.pow2_bits_false by lia. apply andb_false_r.
Qed.

Lemma word_at_insert bm w v w' :
  (w < length bm)%nat -> word_at (<[w:=v]> bm) w' = if decide (w = w') then v else word_at bm w'.
Proof.
  intros Hw. unfold word_at. destruct (decide (w = w')) as [->|Hne].
  - by rewrite list_lookup_insert_eq.
  - by rewrite list_lookup_insert_ne.
Qed.

Lemma wbit_update bm (op : Z -> Z -> Z) (b : bool) c c' :
  length bm = WORDS ->
  (forall x k i, 0 <= k -> Z.testbit (op x (Z.shiftl 1 k)) i =
     if decide (k = i) then b else Z.testbit x i) ->
  wbit (<[(slot c).1 := op (word_at bm (slot c).1) (Z.shiftl 1 (slot c).2)]> bm) c' =
    if decide (c mod REPLAY_WINDOW_BITS = c' mod REPLAY_WINDOW_BITS) then b else wbit bm c'.
Proof.
  intros Hl Hop. unfold wbit. pose proof (slot_in_range c) as [Hw Hb].
  rewrite word_at_insert by lia.
  destruct (decide (c mod REPLAY_WINDOW_BITS = c' mod REPLAY_WINDOW_BITS)) as [Heq|Hne].
  - apply slot_eq in Heq as ->. rewrite decide_True by done.
    rewrite Hop by (pose proof (slot_in_range c'); lia). by rewrite decide_True.
  - destruct (decide ((slot c).1 = (slot c').1)) as [Hs|]; [|done]. rewrite Hop by lia.
    rewrite decide_False; [by rewrite Hs|]. intros Hs2. apply Hne, slot_eq.
    rewrite (surjective_pairing (slot c)), (surjective_pairing (slot c')). congruence.
Qed.

Lemma wbit_clear bm c c' :
  length bm = WORDS ->
  wbit (clear_slot bm c) c' =
    if decide (c mod REPLAY_WINDOW_BITS = c' mod REPLAY_WINDOW_BITS) then false else wbit bm c'.
Proof.
  intros Hl. unfold clear_slot. rewrite (surjective_pairing (slot c)).
  apply wbit_update; [done|]. intros x k i Hk. rewrite Z.ldiff_spec, Z.shiftl_1_l, Z.pow2_bits_eqb by done.
  destruct (decide (k = i)) as [->|Hne]; [by rewrite Z.eqb_refl, andb_false_r|].
  rewrite (proj2 (Z.eqb_neq _ _)) by done. by rewrite andb_true_r.
Qed.

Lemma wbit_set bm c c' :
  length bm = WORDS ->
  wbit (set_slot bm c) c' =
    if decide (c mod REPLAY_WINDOW_BITS = c' mod REPLAY_WINDOW_BITS) then true else wbit bm c'.
Proof.
  intros Hl. unfold set_slot. rewrite (surjective_pairing (slot c)).
  apply wbit_update; [done|]. intros x k i Hk. rewrite Z.lor_spec, Z.shiftl_1_l, Z.pow2_bits_eqb by done.
  destruct (decide (k = i)) as [->|Hne]; [by rewrite Z.eqb_refl, orb_true_r|].
  rewrite (proj2 (Z.eqb_neq _ _)) by done. by rewrite orb_false_r.
Qed.

Lemma length_clear bm c : length (clear_slot bm c) = length bm.
Proof. unfold clear_slot. destruct (slot c). apply length_insert. Qed.

Lemma length_set bm c : length (set_slot bm c) = length bm.
Proof. unfold set_slot. destruct (slot c). apply length_insert. Qed.

Lemma length_clear_loop fuel : forall bm i c, length (clear_loop fuel bm i c) = length bm.
Proof.
  induction fuel as [|fuel IH]; intros bm i c; [done|]. cbn. destruct (_ <? _); [|done].
  rewrite IH. apply length_clear.
Qed.

(** The loop clears exactly the slots of [i .. c - 1]. *)
Lemma wbit_clear_loop fuel : forall bm i c x,
  length bm = WORDS -> c - i <= Z.of_nat fuel ->
  wbit (clear_loop fuel bm i c) x = true <->
  wbit bm x = true /\ forall j, i <= j < c -> j mod REPLAY_WINDOW_BITS <> x mod REPLAY_WINDOW_BITS.
Proof.
  induction fuel as [|fuel IH]; intros bm i c x Hl Hf; cbn [clear_loop].
  - split; [intros ?; split; [done|]; intros j ?; lia | tauto].
  - destruct (Z.ltb_spec i c) as [Hlt|Hge].
    + rewrite IH by (rewrite ?length_clear; (done || lia)). rewrite wbit_clear by done.
      case_decide as Hd; split.
      * intros [? _]. done.
      * intros [_ H]. exfalso. by apply (H i); [lia|].
      * intros [Hb H]. split; [done|]. intros j Hj. destruct (decide (j = i)) as [->|]; [done|].
        apply H. lia.
      * intros [Hb H]. split; [done|]. intros j Hj. apply H. lia.
    + split; [intros ?; split; [done|]; intros j ?; lia | tauto].
Qed.

(** ** Refinement *)

Lemma mod_near a b :
  a mod REPLAY_WINDOW_BITS = b mod REPLAY_WINDOW_BITS -> - REPLAY_WINDOW_BITS < a - b < REPLAY_WINDOW_BITS ->
  a = b.
Proof.
  unfold REPLAY_WINDOW_BITS. intros Hm Hd.
  pose proof (Z.div_mod a 1024 ltac:(lia)). pose proof (Z.div_mod b 1024 ltac:(lia)). lia.
Qed.

Lemma spec_highest_nonneg seen : 0 <= spec_highest seen.
Proof. unfold spec_highest. induction seen; cbn; lia. Qed.

Lemma spec_highest_max seen c : c ∈ seen -> c <= spec_highest seen.
Proof.
  unfold spec_highest. induction seen as [|x seen IH]; cbn; [by intros ?%elem_of_nil|].
  intros [->|H]%elem_of_cons; [lia|]. specialize (IH H). lia.
Qed.

Record window_rel (w : ReplayWindow) (seen : list Z) : Prop := {
  rel_words : length (bitmap w) = WORDS;
  rel_highest : highest w = spec_highest seen;
  rel_positive : forall c, c ∈ seen -> 1 <= c;
  rel_bits : forall c, 1 <= c <= highest w -> highest w - c < REPLAY_WINDOW_BITS ->
    (wbit (bitmap w) c = true <-> c ∈ seen);
}.

Lemma new_window_rel : window_rel new_window [].
Proof.
  constructor; cbn; try done.
  - by intros c ?%elem_of_nil.
  - intros c Hc. lia.
Qed.

Lemma check_refines w seen c : window_rel w seen -> 0 <= c -> check w c = spec_check seen c.
Proof.
  intros Hrel Hc. rewrite check_bit by done. unfold spec_check. rewrite (rel_highest w seen Hrel).
  destruct (Z.eqb_spec c 0); [done|]. cbn. destruct (Z.ltb_spec (spec_highest seen) c); [done|]. cbn.
  destruct (Z.ltb_spec (spec_highest seen - c) REPLAY_WINDOW_BITS); [|done]. cbn. f_equal.
  apply eq_true_iff_eq. rewrite bool_decide_eq_true. apply (rel_bits w seen Hrel);
    rewrite (rel_highest w seen Hrel); lia.
Qed.

(** The bitmap after the window moved up to [c], before [c] itself is marked. *)
Lemma advanced_bits w seen c x :
  window_rel w seen -> highest w < c -> 1 <= x < c -> c - x < REPLAY_WINDOW_BITS ->
  (wbit (if REPLAY_WINDOW_BITS <=? c - highest w then replicate WORDS 0
         else clear_loop (Z.to_nat (c - highest w)) (bitmap w) (highest w + 1) c) x = true <-> x ∈ seen).
Proof.
  intros Hrel Hlt Hx Hage. pose proof (rel_highest w seen Hrel) as Hh.
  assert (Hseen : x ∈ seen -> x <= highest w) by (rewrite Hh; apply spec_highest_max).
  destruct (Z.leb_spec REPLAY_WINDOW_BITS (c - highest w)).
  - split; [|intros ?%Hseen; lia]. unfold wbit, word_at.
    rewrite lookup_replicate_2 by apply slot_in_range. cbn [default]. unfold from_option, id. by rewrite Z.bits_0.
  - rewrite wbit_clear_loop; [|apply (rel_words w seen Hrel)|lia]. split.
    + intros [Hb Hj]. destruct (Z.le_gt_cases x (highest w)).
      * apply (rel_bits w seen Hrel); (done || lia).
      * exfalso. by apply (Hj x); [lia|].
    + intros Hin. specialize (Hseen Hin). split; [apply (rel_bits w seen Hrel); (done || lia)|].
      intros j Hj Hm. apply mod_near in Hm; lia.
Qed.

Lemma commit_refines w seen c :
  window_rel w seen -> 0 <= c ->
  (commit w c).1 = (spec_commit seen c).1 /\ window_rel (commit w c).2 (spec_commit seen c).2.
Proof.
  intros Hrel Hc. unfold commit, spec_commit. rewrite (check_refines w seen c Hrel Hc).
  destruct (spec_check seen c) eqn:Hs; cbn [negb fst snd]; [|done]. split; [done|].
  unfold spec_check in Hs. apply andb_true_iff in Hs as [Hc0%negb_true_iff%Z.eqb_neq Hs].
  pose proof (rel_highest w seen Hrel) as Hh. pose proof (rel_words w seen Hrel) as Hl.
  rewrite <- Hh in Hs.
  assert (Hpos : forall x, x ∈ c :: seen -> 1 <= x).
  { intros x [->|Hx]%elem_of_cons; [lia|]. by apply (rel_positive w seen Hrel). }
  destruct (Z.ltb_spec (highest w) c) as [Hlt|Hge]; cbn [highest bitmap].
  - set (bm := if REPLAY_WINDOW_BITS <=? c - highest w then _ else _).
    assert (Hbm : length bm = WORDS).
    { unfold bm. destruct (_ <=? _); [done|]. by rewrite length_clear_loop. }
    constructor; cbn [highest bitmap]; [by rewrite length_set | cbn; fold (spec_highest seen); lia | done |].
    intros x Hx Hage. rewrite wbit_set by done. rewrite elem_of_cons. destruct (decide (_ mod _ = _)) as [Hd|Hd].
    + apply mod_near in Hd as ->; [|lia]. split; [auto|done].
    + assert (x <> c) by congruence. unfold bm. rewrite (advanced_bits w seen c x Hrel Hlt) by lia.
      split; [auto|]. by intros [?|?].
  - constructor; cbn [highest bitmap]; [by rewrite length_set | cbn; fold (spec_highest seen); lia | done |].
    intros x Hx Hage. rewrite wbit_set by done. rewrite elem_of_cons.
    cbn in Hs. apply andb_true_iff in Hs as [Hwin%Z.ltb_lt _]. destruct (decide (_ mod _ = _)) as [Hd|Hd].
    + apply mod_near in Hd as ->; [|lia]. split; [auto|done].
    + assert (x <> c) by congruence. rewrite (rel_bits w seen Hrel) by (done || lia).
      split; [auto|]. by intros [?|?].
Qed.

Lemma commit_all_refines cs : forall w seen,
  window_rel w seen -> Forall (fun c => 0 <= c) cs ->
  (commit_all_window w cs).1 = (spec_commit_all seen cs).1 /\
  window_rel (commit_all_window w cs).2 (spec_commit_all seen cs).2.
Proof.
  induction cs as [|c cs IH]; intros w seen Hrel Hall; [done|].
  inversion Hall as [|? ? Hc Hcs]; subst. cbn.
  destruct (commit_refines w seen c Hrel Hc) as [Hb Hr].
  destruct (commit w c) as [b w1], (spec_commit seen c) as [b' seen1]. cbn in *. subst b'.
  destruct (IH w1 seen1 Hr Hcs) as [Hbs Hr']. 
  destruct (commit_all_window w1 cs), (spec_commit_all seen1 cs). cbn in *. by subst.
Qed.

(** The specification never accepts a counter twice. *)
Lemma spec_nodup cs : forall seen, NoDup seen -> NoDup (spec_commit_all seen cs).2.
Proof.
  induction cs as [|c cs IH]; intros seen Hnd; [done|]. cbn. unfold spec_commit.
  destruct (spec_check seen c) eqn:Hs.
  - specialize (IH (c :: seen)). destruct (spec_commit_all (c :: seen) cs). cbn in *. apply IH.
    apply NoDup_cons. split; [|done]. intros Hin. unfold spec_check in Hs.
    apply andb_true_iff in Hs as [_ Hs]. pose proof (spec_highest_max _ _ Hin).
    rewrite (proj2 (Z.ltb_ge _ _)) in Hs by lia. rewrite bool_decide_true in Hs by done.
    by rewrite andb_false_r in Hs.
  - specialize (IH seen Hnd). by destruct (spec_commit_all seen cs).
Qed.

(** The replay bitmap refines the set of accepted counters: on every sequence
    of 64-bit counters it accepts exactly those that are non-zero, not behind
    the 1024-counter window and never accepted before (so no counter is ever
    accepted twice, and a new highest is always accepted). *)
Theorem replay_window_refines (cs : list Z) (c : Z) :
  Forall u64_range cs -> u64_range c ->
  let w := (commit_all_window new_window cs).2 in
  let accepted := (spec_commit_all [] cs).2 in
  (commit_all_window new_window cs).1 = (spec_commit_all [] cs).1 /\
  NoDup accepted /\
  check w c = spec_check accepted c /\ (commit w c).1 = check w c /\
  (check w c = false -> (commit w c).2 = w).
Proof.
  intros Hall Hc w accepted.
  assert (Hpos : Forall (fun c => 0 <= c) cs) by (eapply Forall_impl; [exact Hall|]; unfold u64_range; lia).
  destruct (commit_all_refines cs new_window [] new_window_rel Hpos) as [Hb Hrel].
  split; [done|]. split; [apply spec_nodup; constructor|].
  split; [apply check_refines; [done | unfold u64_range in Hc; lia]|].
  unfold commit. destruct (check w c); done.
Qed.

Lemma replay_window_refines_witness :
  check (commit_all_window new_window [5; 3; 5; 2000]).2 2000 = false /\
  (commit_all_window new_window [5; 3; 5; 2000]).1 = (spec_commit_all [] [5; 3; 5; 2000]).1.
Proof.
  destruct (replay_window_refines [5; 3; 5; 2000] 2000) as (H & _ & Hc & _).
  - repeat constructor; unfold u64_range, U64_MAX; lia.
  - unfold u64_range, U64_MAX; lia.
  - split; [|exact H]. rewrite Hc. reflexivity.
Defined.
