(* ===== verification/Pmtu.v ===== *)
(** * Path MTU discovery ([src/protocol/handoff/udp/pmtu.rs])

    The RFC 8899 prober: its size invariant over every sequence of calls, and
    the convergence of its search on a path with a fixed MTU. Instants and
    durations are integers; [now + d] does not overflow. *)

From S2P Require Import Prelude.

Definition MIN_PLPMTU : Z := 512.
Definition BASE_PLPMTU : Z := 1200.
Definition MAX_PLPMTU : Z := 9000 - 28.

Definition plpmtu_from_ip_mtu (ip_mtu : Z) (ipv6 : bool) : Z :=
  let overhead := if ipv6 then 40 + 8 else 20 + 8 in
  let size := saturating_sub ip_mtu overhead in
  if size <? MIN_PLPMTU then MIN_PLPMTU
  else if MAX_PLPMTU <? size then MAX_PLPMTU
  else size.

Record PmtuTimers := {
  probe_timeout : Z;
  max_probes : Z;
  confirm_interval : Z;
  raise_interval : Z;
  granularity : Z;
}.

(** In milliseconds. *)
Definition default_timers : PmtuTimers := {|
  probe_timeout := 1000; max_probes := 3; confirm_interval := 15000;
  raise_interval := 600000; granularity := 16 |}.

Record PmtuProbe := { probe_id : Z; probe_size : Z }.

Inductive Purpose := PSearch | PConfirm.

Record Outstanding := {
  out_id : Z;
  out_size : Z;
  out_sent : Z;
  out_attempts : Z;
  out_purpose : Purpose;
}.

Inductive PhaseP := PhaseFixed | PhaseSearch (high : Z) | PhaseComplete (next_raise : Z).

Record PmtuProber := {
  timers : PmtuTimers;
  current : Z;
  ceiling : Z;
  max_ceiling : Z;
  phase : PhaseP;
  outstanding : option Outstanding;
  next_id : Z;
  next_confirm : Z;
  black_holes : Z;
  floor_validated : bool;
}.

(** Field updates ([self.field = v]). *)
Definition set_current p v := {| timers := timers p; current := v; ceiling := ceiling p;
  max_ceiling := max_ceiling p; phase := phase p; outstanding := outstanding p; next_id := next_id p;
  next_confirm := next_confirm p; black_holes := black_holes p; floor_validated := floor_validated p |}.
Definition set_ceiling p v := {| timers := timers p; current := current p; ceiling := v;
  max_ceiling := max_ceiling p; phase := phase p; outstanding := outstanding p; next_id := next_id p;
  next_confirm := next_confirm p; black_holes := black_holes p; floor_validated := floor_validated p |}.
Definition set_phase p v := {| timers := timers p; current := current p; ceiling := ceiling p;
  max_ceiling := max_ceiling p; phase := v; outstanding := outstanding p; next_id := next_id p;
  next_confirm := next_confirm p; black_holes := black_holes p; floor_validated := floor_validated p |}.
Definition set_outstanding p v := {| timers := timers p; current := current p; ceiling := ceiling p;
  max_ceiling := max_ceiling p; phase := phase p; outstanding := v; next_id := next_id p;
  next_confirm := next_confirm p; black_holes := black_holes p; floor_validated := floor_validated p |}.
Definition set_next_id p v := {| timers := timers p; current := current p; ceiling := ceiling p;
  max_ceiling := max_ceiling p; phase := phase p; outstanding := outstanding p; next_id := v;
  next_confirm := next_confirm p; black_holes := black_holes p; floor_validated := floor_validated p |}.
Definition set_next_confirm p v := {| timers := timers p; current := current p; ceiling := ceiling p;
  max_ceiling := max_ceiling p; phase := phase p; outstanding := outstanding p; next_id := next_id p;
  next_confirm := v; black_holes := black_holes p; floor_validated := floor_validated p |}.
Definition set_floor p v := {| timers := timers p; current := current p; ceiling := ceiling p;
  max_ceiling := max_ceiling p; phase := phase p; outstanding := outstanding p; next_id := next_id p;
  next_confirm := next_confirm p; black_holes := black_holes p; floor_validated := v |}.

Definition discover (limit : Z) (t : PmtuTimers) (now : Z) : PmtuProber :=
  let c := clamp MIN_PLPMTU MAX_PLPMTU limit in
  {| timers := t; current := Z.min BASE_PLPMTU c; ceiling := c; max_ceiling := c;
     phase := PhaseSearch c; outstanding := None; next_id := 1;
     next_confirm := now + confirm_interval t; black_holes := 0; floor_validated := false |}.

Definition fixed (size : Z) (now : Z) : PmtuProber :=
  let size := clamp MIN_PLPMTU MAX_PLPMTU size in
  {| timers := default_timers; current := size; ceiling := size; max_ceiling := size;
     phase := PhaseFixed; outstanding := None; next_id := 1;
     next_confirm := now; black_holes := 0; floor_validated := true |}.

Definition search_complete (p : PmtuProber) : bool :=
  match phase p with PhaseComplete _ | PhaseFixed => true | PhaseSearch _ => false end.

Definition take_id (p : PmtuProber) : Z * PmtuProber :=
  (next_id p, set_next_id p (Z.max (wrapping_add U32_MAX (next_id p) 1) 1)).

Definition launch (p : PmtuProber) (size : Z) (purpose : Purpose) (now : Z) : PmtuProbe * PmtuProber :=
  let '(id, p) := take_id p in
  ({| probe_id := id; probe_size := size |},
   set_outstanding p (Some {| out_id := id; out_size := size; out_sent := now;
                              out_attempts := 1; out_purpose := purpose |})).

Definition probe_lost (p : PmtuProber) (lost : Outstanding) (now : Z) : PmtuProber :=
  match out_purpose lost with
  | PSearch =>
    match phase p with
    | PhaseSearch high => set_phase p (PhaseSearch (Z.min high (saturating_sub (out_size lost) 1)))
    | _ => p
    end
  | PConfirm =>
    let failed := current p in
    let cur := if BASE_PLPMTU <? failed then BASE_PLPMTU else MIN_PLPMTU in
    {| timers := timers p; current := cur; ceiling := ceiling p; max_ceiling := max_ceiling p;
       phase := PhaseSearch (Z.max (saturating_sub failed 1) cur);
       outstanding := outstanding p; next_id := next_id p;
       next_confirm := now + confirm_interval (timers p);
       black_holes := black_holes p + 1; floor_validated := false |}
  end.

(** The [match self.phase] of [poll], once no probe is in flight. *)
Definition poll_phase (p : PmtuProber) (now : Z) : option PmtuProbe * PmtuProber :=
  match phase p with
  | PhaseFixed => (None, p)
  | PhaseSearch high =>
    if negb (floor_validated p) then
      let '(pr, p) := launch p (current p) PConfirm now in (Some pr, p)
    else
      let low := current p in
      if (high <=? low) || (high - low <? granularity (timers p)) then
        (None, set_next_confirm (set_phase p (PhaseComplete (now + raise_interval (timers p))))
                 (now + confirm_interval (timers p)))
      else
        let size := low + div_ceil (high - low) 2 in
        let '(pr, p) := launch p size PSearch now in (Some pr, p)
  | PhaseComplete next_raise =>
    let confirm p :=
      if next_confirm p <=? now then
        let p := set_next_confirm p (now + confirm_interval (timers p)) in
        let '(pr, p) := launch p (current p) PConfirm now in (Some pr, p)
      else (None, p) in
    if next_raise <=? now then
      let p := set_ceiling p (max_ceiling p) in
      if granularity (timers p) <=? saturating_sub (ceiling p) (current p) then
        let p := set_phase p (PhaseSearch (ceiling p)) in
        let size := current p + div_ceil (ceiling p - current p) 2 in
        let '(pr, p) := launch p size PSearch now in (Some pr, p)
      else confirm (set_phase p (PhaseComplete (now + raise_interval (timers p))))
    else confirm p
  end.

Definition poll (p : PmtuProber) (now : Z) : option PmtuProbe * PmtuProber :=
  match phase p with
  | PhaseFixed => (None, p)
  | _ =>
    match outstanding p with
    | Some o =>
      if saturating_sub now (out_sent o) <? probe_timeout (timers p) then (None, p)
      else if out_attempts o <? max_probes (timers p) then
        let o := {| out_id := out_id o; out_size := out_size o; out_sent := now;
                    out_attempts := out_attempts o + 1; out_purpose := out_purpose o |} in
        (Some {| probe_id := out_id o; probe_size := out_size o |}, set_outstanding p (Some o))
      else poll_phase (probe_lost (set_outstanding p None) o now) now
    | None => poll_phase p now
    end
  end.

Definition next_deadline (p : PmtuProber) (now : Z) : option Z :=
  match outstanding p with
  | Some o => Some (out_sent o + probe_timeout (timers p))
  | None =>
    match phase p with
    | PhaseFixed => None
    | PhaseSearch _ => Some now
    | PhaseComplete next_raise => Some (Z.min next_raise (next_confirm p))
    end
  end.

Definition on_probe_ack (p : PmtuProber) (id size now : Z) : PmtuProber :=
  match outstanding p with
  | None => p
  | Some o =>
    if negb (out_id o =? id) || negb (out_size o =? size) then p
    else
      let p := set_outstanding p None in
      match out_purpose o with
      | PSearch =>
        if (current p <? size) && (size <=? ceiling p) then set_current p size else p
      | PConfirm => set_next_confirm (set_floor p true) (now + confirm_interval (timers p))
      end
  end.

(** Lowering the [high] of a running search to the ceiling, as both error
    handlers do. *)
Definition clip_high (p : PmtuProber) : PmtuProber :=
  match phase p with
  | PhaseSearch high => set_phase p (PhaseSearch (Z.min high (ceiling p)))
  | _ => p
  end.

Definition on_send_too_big (p : PmtuProber) (attempted : Z) (kernel_limit : option Z) : PmtuProber :=
  let fallback := if BASE_PLPMTU <? attempted then BASE_PLPMTU else MIN_PLPMTU in
  let limit := clamp MIN_PLPMTU MAX_PLPMTU
                 (Z.min (default fallback kernel_limit) (saturating_sub attempted 1)) in
  let p := set_ceiling p (Z.max (Z.min (ceiling p) limit) MIN_PLPMTU) in
  let p := if ceiling p <? current p then set_current p (ceiling p) else p in
  let p := clip_high p in
  match outstanding p with
  | Some o => if ceiling p <? out_size o then set_outstanding p None else p
  | None => p
  end.

Definition on_probe_too_big (p : PmtuProber) (size : Z) : PmtuProber :=
  let p :=
    match outstanding p with
    | Some o => if out_size o =? size then set_outstanding p None else p
    | None => p
    end in
  clip_high (set_ceiling p (Z.max (Z.min (ceiling p) (saturating_sub size 1)) (current p))).

(** ** Every sequence of calls *)

Inductive PmtuOp :=
| OpPoll (now : Z)
| OpAck (id size now : Z)
| OpSendTooBig (attempted : Z) (kernel_limit : option Z)
| OpProbeTooBig (size : Z).

Definition pmtu_step (p : PmtuProber) (op : PmtuOp) : option PmtuProbe * PmtuProber :=
  match op with
  | OpPoll now => poll p now
  | OpAck id size now => (None, on_probe_ack p id size now)
  | OpSendTooBig attempted k => (None, on_send_too_big p attempted k)
  | OpProbeTooBig size => (None, on_probe_too_big p size)
  end.

Definition pmtu_run (p : PmtuProber) (ops : list PmtuOp) : PmtuProber :=
  foldl (fun p op => (pmtu_step p op).2) p ops.

Record pmtu_wf (p : PmtuProber) : Prop := {
  wf_current : MIN_PLPMTU <= current p <= ceiling p;
  wf_ceiling : ceiling p <= max_ceiling p <= MAX_PLPMTU;
  wf_id : 1 <= next_id p <= U32_MAX;
  wf_high : forall high, phase p = PhaseSearch high -> high <= ceiling p;
  wf_out : forall o, outstanding p = Some o ->
    MIN_PLPMTU <= out_size o <= max_ceiling p /\ 1 <= out_id o <= U32_MAX /\
    (out_purpose o = PConfirm -> out_size o = current p);
}.

Ltac pmtu_auto :=
  cbn in *; intros; simplify_eq;
  repeat match goal with
  | H : _ /\ _ |- _ => destruct H
  | H : outstanding ?p = Some ?o, W : forall o, outstanding ?p = Some o -> _ |- _ =>
      pose proof (W o H); clear H
  | H : phase ?p = PhaseSearch ?h, W : forall h, phase ?p = PhaseSearch h -> _ |- _ =>
      pose proof (W h H); clear H
  end; split_and?; intros; simplify_eq; try done; try lia; eauto.

Ltac unfold_consts := unfold MIN_PLPMTU, BASE_PLPMTU, MAX_PLPMTU, saturating_sub, clamp in *.

Lemma div_ceil_two d : 0 <= d -> Z.min 1 d <= div_ceil d 2 <= d.
Proof. intros. unfold div_ceil. pose proof (Z.div_mod (d + 2 - 1) 2). pose proof (Z.mod_pos_bound (d + 2 - 1) 2). lia. Qed.

Lemma take_id_range n : 1 <= n <= U32_MAX -> 1 <= Z.max (wrapping_add U32_MAX n 1) 1 <= U32_MAX.
Proof.
  unfold wrapping_add, U32_MAX. intros.
  pose proof (Z.mod_pos_bound (n + 1) (4294967295 + 1) ltac:(lia)). lia.
Qed.

Lemma launch_wf p size purpose now :
  pmtu_wf p -> MIN_PLPMTU <= size <= max_ceiling p -> (purpose = PConfirm -> size = current p) ->
  pmtu_wf (launch p size purpose now).2.
Proof. intros [? ? Hid ? ?] Hs Hp. pose proof (take_id_range _ Hid). constructor; pmtu_auto. Qed.

Lemma probe_lost_wf p o now :
  pmtu_wf p -> outstanding p = None -> pmtu_wf (probe_lost p o now).
Proof.
  intros [? ? ? Hh ?] Ho. unfold probe_lost.
  destruct (out_purpose o).
  - destruct (phase p) eqn:Hp; [by constructor; try rewrite Hp| |by constructor; try rewrite Hp].
    specialize (Hh _ eq_refl). unfold_consts. constructor; pmtu_auto.
  - unfold_consts. destruct (Z.ltb_spec 1200 (current p)); constructor; pmtu_auto; congruence.
Qed.

(** The probe a step emits has a legal size and the state stays well formed. *)
Definition pmtu_good (r : option PmtuProbe * PmtuProber) : Prop :=
  pmtu_wf r.2 /\
  forall pr, r.1 = Some pr -> MIN_PLPMTU <= probe_size pr <= max_ceiling r.2 /\ 1 <= probe_id pr <= U32_MAX.

Lemma launch_good p size purpose now :
  pmtu_wf p -> MIN_PLPMTU <= size <= max_ceiling p -> (purpose = PConfirm -> size = current p) ->
  pmtu_good (let '(pr, p) := launch p size purpose now in (Some pr, p)).
Proof.
  intros Hwf Hs Hp. pose proof (launch_wf p size purpose now Hwf Hs Hp) as Hl.
  pose proof (wf_id p Hwf). split; [done|]. intros pr [= <-]. cbn. lia.
Qed.

Lemma poll_phase_good p now : pmtu_wf p -> outstanding p = None -> pmtu_good (poll_phase p now).
Proof.
  intros Hwf Ho. pose proof Hwf as [Hc Hm Hid Hh _]. unfold poll_phase.
  assert (Hquiet : forall q, outstanding q = None -> max_ceiling q = max_ceiling p -> current q = current p ->
    next_id q = next_id p -> (forall h, phase q <> PhaseSearch h) -> current p <= ceiling q <= max_ceiling p ->
    pmtu_wf q).
  { intros q E1 E2 E3 E4 E5 E6. constructor; rewrite ?E1, ?E2, ?E3, ?E4; try lia; [|done].
    intros h Hq. by destruct (E5 h). }
  destruct (phase p) as [|high|next] eqn:Hp.
  - by split.
  - specialize (Hh _ eq_refl). destruct (floor_validated p); cbn [negb].
    + destruct (Z.leb_spec high (current p)); [|destruct (Z.ltb_spec (high - current p) (granularity (timers p)))];
        cbn [orb]; [split; [by apply Hquiet; cbn; [..|lia]|done] .. |].
      pose proof (div_ceil_two (high - current p)). apply launch_good; [done|lia|done].
    + apply launch_good; [done|lia|done].
  - assert (Hconfirm : forall q, pmtu_wf q ->
      pmtu_good (if next_confirm q <=? now then
        let q := set_next_confirm q (now + confirm_interval (timers q)) in
        let '(pr, q) := launch q (current q) PConfirm now in (Some pr, q) else (None, q))).
    { intros q Hq. destruct (_ <=? _); [|by split]. cbn zeta. pose proof Hq as [? ? ? ? ?].
      apply launch_good; [by constructor | cbn; lia | done]. }
    destruct (next <=? now); [|by apply Hconfirm].
    destruct (Z.leb_spec (granularity (timers (set_ceiling p (max_ceiling p))))
      (saturating_sub (ceiling (set_ceiling p (max_ceiling p))) (current (set_ceiling p (max_ceiling p))))) as [Hg|Hg].
    + pose proof (div_ceil_two (max_ceiling p - current p)).
      apply launch_good; [|cbn; lia|done]. constructor; pmtu_auto; congruence.
    + apply Hconfirm, Hquiet; cbn; (done || lia).
Qed.

Lemma poll_good p now : pmtu_wf p -> pmtu_good (poll p now).
Proof.
  intros Hwf. pose proof Hwf as [? ? ? ? Ho]. unfold poll.
  assert (Hnone : pmtu_wf (set_outstanding p None)) by (constructor; pmtu_auto).
  assert (Hlost : forall o, pmtu_good (poll_phase (probe_lost (set_outstanding p None) o now) now)).
  { intros o. apply poll_phase_good; [by apply probe_lost_wf|].
    unfold probe_lost. destruct (out_purpose o); [|done]. cbn. by destruct (phase p). }
  assert (Hretry : forall o, outstanding p = Some o ->
    pmtu_good (Some {| probe_id := out_id o; probe_size := out_size o |},
      set_outstanding p (Some {| out_id := out_id o; out_size := out_size o; out_sent := now;
        out_attempts := out_attempts o + 1; out_purpose := out_purpose o |}))).
  { intros o Eo. destruct (Ho o Eo) as (? & ? & ?). split; cbn; [|by intros pr [= <-]].
    constructor; pmtu_auto. }
  assert (pmtu_good (None, p)) by by split.
  destruct (phase p); [done|..]; (destruct (outstanding p) as [o|] eqn:Eo; [|by apply poll_phase_good]);
    (destruct (_ <? probe_timeout _); [done|]); (destruct (_ <? _); [by apply (Hretry o) | apply Hlost]).
Qed.

Lemma ack_wf p id size now : pmtu_wf p -> pmtu_wf (on_probe_ack p id size now).
Proof.
  intros Hwf. pose proof Hwf as [? ? ? ? Ho]. unfold on_probe_ack.
  destruct (outstanding p) as [o|] eqn:Eo; [|done].
  destruct (_ || _); [done|]. destruct (out_purpose o); cbn.
  - destruct (Z.ltb_spec (current p) size), (Z.leb_spec size (ceiling p)); constructor; pmtu_auto.
  - constructor; pmtu_auto.
Qed.

Lemma clip_high_wf p :
  MIN_PLPMTU <= current p <= ceiling p -> ceiling p <= max_ceiling p <= MAX_PLPMTU ->
  1 <= next_id p <= U32_MAX ->
  (forall o, outstanding p = Some o -> MIN_PLPMTU <= out_size o <= max_ceiling p /\
    1 <= out_id o <= U32_MAX /\ (out_purpose o = PConfirm -> out_size o = current p)) ->
  pmtu_wf (clip_high p).
Proof. intros. unfold clip_high. destruct (phase p) eqn:Hp; constructor; pmtu_auto; congruence. Qed.

Lemma send_too_big_wf p attempted k : pmtu_wf p -> pmtu_wf (on_send_too_big p attempted k).
Proof.
  intros Hwf. pose proof Hwf as [? ? ? ? Ho]. unfold on_send_too_big.
  set (limit := clamp _ _ _).
  assert (MIN_PLPMTU <= limit) by (unfold limit; unfold_consts; lia).
  set (c := Z.max (Z.min (ceiling p) limit) MIN_PLPMTU). cbn zeta.
  set (p1 := if _ <? _ then _ else _).
  assert (Hp1 : current p1 = Z.min (current p) c /\ ceiling p1 = c /\ max_ceiling p1 = max_ceiling p /\
    next_id p1 = next_id p /\ outstanding p1 = outstanding p).
  { unfold p1. cbn. destruct (Z.ltb_spec c (current p)); cbn; split_and!; (done || lia). }
  clearbody p1. destruct Hp1 as (E1 & E2 & E3 & E4 & E5). rewrite <- E5 in Ho.
  replace (outstanding (clip_high p1)) with (outstanding p1) by (unfold clip_high; by destruct (phase p1)).
  replace (ceiling (clip_high p1)) with c by (unfold clip_high; by destruct (phase p1)).
  destruct (outstanding p1) as [o|] eqn:Eo; [destruct (Z.ltb_spec c (out_size o))|].
  - replace (set_outstanding (clip_high p1) None) with (clip_high (set_outstanding p1 None))
      by (unfold clip_high; cbn; by destruct (phase p1)).
    apply clip_high_wf; cbn; [lia..|done].
  - apply clip_high_wf; [lia..|]. rewrite Eo. intros ? [= <-]. destruct (Ho o eq_refl) as (? & ? & Hc).
    split_and!; [lia..|]. intros Hp. specialize (Hc Hp). lia.
  - apply clip_high_wf; [lia..|]. by rewrite Eo.
Qed.

Lemma probe_too_big_wf p size : pmtu_wf p -> pmtu_wf (on_probe_too_big p size).
Proof.
  intros Hwf. pose proof Hwf as [? ? ? ? Ho]. unfold on_probe_too_big.
  destruct (outstanding p) as [o|] eqn:Eo; [destruct (_ =? _)|];
    (apply clip_high_wf; cbn; [lia|lia|lia|]); rewrite ?Eo; (done || auto).
Qed.

Lemma step_good p op : pmtu_wf p -> pmtu_good (pmtu_step p op).
Proof.
  intros Hwf. destruct op; cbn.
  - by apply poll_good.
  - split; [by apply ack_wf|done].
  - split; [by apply send_too_big_wf|done].
  - split; [by apply probe_too_big_wf|done].
Qed.

Lemma discover_wf limit t now : pmtu_wf (discover limit t now).
Proof. unfold discover, U32_MAX. constructor; cbn [current ceiling max_ceiling next_id phase outstanding];
  unfold_consts; pmtu_auto; unfold U32_MAX; lia. Qed.

Lemma run_wf ops : forall p, pmtu_wf p -> pmtu_wf (pmtu_run p ops).
Proof.
  induction ops as [|op ops IH]; intros p Hp; [done|]. cbn. apply IH. by apply step_good.
Qed.

Lemma clip_high_proj p : max_ceiling (clip_high p) = max_ceiling p /\ current (clip_high p) = current p.
Proof. unfold clip_high. by destruct (phase p). Qed.

(** A poll never moves the bound and never raises the limit. *)
Lemma poll_phase_monotone p now :
  max_ceiling (poll_phase p now).2 = max_ceiling p /\ current (poll_phase p now).2 = current p.
Proof.
  unfold poll_phase. destruct (phase p) as [|high|next]; [done|..].
  - destruct (negb _); [done|]. by destruct (_ || _).
  - destruct (_ <=? now); [destruct (_ <=? _); [done|]|]; by destruct (_ <=? _).
Qed.

Lemma probe_lost_monotone p o now :
  MIN_PLPMTU <= current p ->
  max_ceiling (probe_lost p o now) = max_ceiling p /\ current (probe_lost p o now) <= current p.
Proof.
  intros Hc. unfold probe_lost. destruct (out_purpose o).
  - destruct (phase p); cbn; (split; [done|lia]).
  - cbn. split; [done|]. unfold_consts. destruct (Z.ltb_spec 1200 (current p)); lia.
Qed.

Lemma poll_monotone p now :
  MIN_PLPMTU <= current p ->
  max_ceiling (poll p now).2 = max_ceiling p /\ current (poll p now).2 <= current p.
Proof.
  intros Hc. unfold poll. destruct (phase p) eqn:Hp; [cbn; split; [done|lia]|..];
    (destruct (outstanding p) as [o|];
     [ (destruct (_ <? probe_timeout _); [cbn; split; [done|lia]|]);
       (destruct (_ <? _); [cbn; split; [done|lia]|]);
       destruct (poll_phase_monotone (probe_lost (set_outstanding p None) o now) now) as [-> ->];
       by apply (probe_lost_monotone (set_outstanding p None))
     | destruct (poll_phase_monotone p now) as [-> ->]; split; [done|lia] ]).
Qed.

Lemma step_raises p op :
  pmtu_wf p ->
  max_ceiling (pmtu_step p op).2 = max_ceiling p /\
  (current (pmtu_step p op).2 <= current p \/
   exists o now, outstanding p = Some o /\ op = OpAck (out_id o) (out_size o) now /\
     out_purpose o = PSearch /\ current (pmtu_step p op).2 = out_size o).
Proof.
  intros Hwf. pose proof (wf_current p Hwf). destruct op as [now|id size now|attempted k|size]; cbn [pmtu_step snd].
  - destruct (poll_monotone p now) as [? ?]; [lia|]. auto.
  - unfold on_probe_ack. destruct (outstanding p) as [o|] eqn:Eo; [|split; [done|left; lia]].
    destruct (Z.eqb_spec (out_id o) id); [|cbn; split; [done|left; lia]].
    destruct (Z.eqb_spec (out_size o) size); [|cbn; split; [done|left; lia]]. subst. cbn [negb orb].
    destruct (out_purpose o) eqn:Hp; [|split; [done|left; cbn; lia]].
    destruct (_ && _); (split; [done|]); [right | left; cbn; lia]. eauto 10.
  - unfold on_send_too_big. set (c := Z.max (Z.min (ceiling p) _) MIN_PLPMTU). cbn zeta.
    set (p1 := if _ <? _ then _ else _).
    assert (max_ceiling p1 = max_ceiling p /\ current p1 <= current p) as [E1 E2].
    { unfold p1. cbn. destruct (Z.ltb_spec c (current p)); cbn; (split; [done|lia]). }
    destruct (clip_high_proj p1) as [E3 E4].
    destruct (outstanding (clip_high p1)) as [o|]; [destruct (_ <? out_size o)|];
      cbn; rewrite E3, E4; auto.
  - unfold on_probe_too_big. destruct (outstanding p) as [o|]; [destruct (_ =? _)|];
      (edestruct clip_high_proj as [-> ->]; cbn; split; [done|left; lia]).
Qed.

Lemma run_max_ceiling ops : forall p, pmtu_wf p -> max_ceiling (pmtu_run p ops) = max_ceiling p.
Proof.
  induction ops as [|op ops IH]; intros p Hp; [done|]. cbn.
  rewrite IH by (by apply step_good). by apply step_raises.
Qed.

(** In every history of polls, acknowledgements and [EMSGSIZE] reports the
    packetization limit stays between the floor and the discovery ceiling, which
    never exceeds the interface bound; a poll only emits probes of legal size;
    and the limit rises only by the acknowledgement of the outstanding search
    probe, to exactly the size that was probed. *)
Theorem pmtu_limit_sound (limit : Z) (t : PmtuTimers) (now : Z) (ops : list PmtuOp) (op : PmtuOp) :
  let p := pmtu_run (discover limit t now) ops in
  let bound := clamp MIN_PLPMTU MAX_PLPMTU limit in
  let '(probe, p') := pmtu_step p op in
  MIN_PLPMTU <= current p /\ current p <= ceiling p /\ ceiling p <= bound /\
  match probe with
  | Some pr => MIN_PLPMTU <= probe_size pr <= bound /\ 1 <= probe_id pr <= U32_MAX
  | None => True
  end /\
  (current p' <= current p \/
   exists o at_, outstanding p = Some o /\ op = OpAck (out_id o) (out_size o) at_ /\
     out_purpose o = PSearch /\ current p' = out_size o).
Proof.
  intros p bound. pose proof (discover_wf limit t now) as Hd.
  pose proof (run_wf ops _ Hd) as Hwf. pose proof (run_max_ceiling ops _ Hd) as Hmax. fold p in Hwf, Hmax.
  change (max_ceiling p = bound) in Hmax.
  destruct (step_good p op Hwf) as [_ Hpr]. destruct (step_raises p op Hwf) as [Hm Hraise].
  destruct (pmtu_step p op) as [probe p']. cbn [fst snd] in *. rewrite Hm, Hmax in Hpr.
  destruct Hwf as [? ? ? ? ?]. split_and!; [lia..| |done].
  destruct probe as [pr|]; [|done]. by apply Hpr.
Qed.

(** ** Convergence

    A path that delivers exactly the datagrams of at most [mtu] bytes: a
    delivered probe is acknowledged at once, a lost one is answered by
    silence until the probe timeout. *)
Section Convergence.
Context (mtu : Z).

Fixpoint drive (fuel : nat) (p : PmtuProber) (now : Z) : PmtuProber :=
  match fuel with
  | O => p
  | S fuel =>
    match poll p now with
    | (None, p) => p
    | (Some pr, p) =>
      if probe_size pr <=? mtu
      then drive fuel (on_probe_ack p (probe_id pr) (probe_size pr) now) now
      else drive fuel p (now + probe_timeout (timers p))
    end
  end.

(** [drive] once the poll is done. *)
Let answered (fuel : nat) (r : option PmtuProbe * PmtuProber) (now : Z) : PmtuProber :=
  match r with
  | (None, p) => p
  | (Some pr, p) =>
    if probe_size pr <=? mtu
    then drive fuel (on_probe_ack p (probe_id pr) (probe_size pr) now) now
    else drive fuel p (now + probe_timeout (timers p))
  end.

Context (t : PmtuTimers) (c : Z) (Hmtu : MIN_PLPMTU <= mtu).
Let tries : Z := Z.max 1 (max_probes t).

Definition in_flight (p : PmtuProber) (o : Outstanding) : Prop :=
  timers p = t /\ outstanding p = Some o /\ phase p <> PhaseFixed.

Lemma drive_S fuel p now :
  drive (S fuel) p now = answered fuel (poll p now) now.
Proof. done. Qed.

(** A probe too large for the path is retransmitted until its budget is
    spent, then declared lost. *)
Lemma drive_lost n : forall fuel p o,
  in_flight p o -> mtu < out_size o -> 1 <= out_attempts o -> out_attempts o + Z.of_nat n = tries ->
  exists sent, drive (n + S fuel) p (out_sent o + probe_timeout t) =
    answered fuel (poll_phase (probe_lost (set_outstanding p None)
      {| out_id := out_id o; out_size := out_size o; out_sent := sent;
         out_attempts := tries; out_purpose := out_purpose o |} (sent + probe_timeout t))
      (sent + probe_timeout t)) (sent + probe_timeout t).
Proof.
  induction n as [|n IH]; intros fuel p o (Ht & Ho & Hf) Hs H1 Ha.
  - exists (out_sent o). cbn [Nat.add]. rewrite drive_S. unfold poll. rewrite Ho, Ht.
    rewrite (proj2 (Z.ltb_ge (saturating_sub _ _) _)) by (unfold saturating_sub; lia).
    rewrite (proj2 (Z.ltb_ge (out_attempts o) _)) by lia.
    assert (o = {| out_id := out_id o; out_size := out_size o; out_sent := out_sent o;
      out_attempts := tries; out_purpose := out_purpose o |}) as <-
      by (destruct o; cbn in *; f_equal; lia).
    by destruct (phase p).
  - set (now := out_sent o + probe_timeout t).
    set (o' := {| out_id := out_id o; out_size := out_size o; out_sent := now;
      out_attempts := out_attempts o + 1; out_purpose := out_purpose o |}).
    destruct (IH fuel (set_outstanding p (Some o')) o') as [sent Hsent]; [done|done|cbn; lia..|].
    exists sent. cbn [Nat.add]. rewrite drive_S.
    replace (poll p now) with (Some {| probe_id := out_id o; probe_size := out_size o |},
      set_outstanding p (Some o')); cycle 1.
    { unfold poll. rewrite Ho, Ht.
      rewrite (proj2 (Z.ltb_ge (saturating_sub _ _) _)) by (unfold saturating_sub, now; lia).
      rewrite (proj2 (Z.ltb_lt (out_attempts o) _)) by lia. by destruct (phase p). }
    cbn [answered probe_size]. rewrite (proj2 (Z.leb_gt _ _)) by lia.
    cbn [timers set_outstanding]. rewrite Ht. exact Hsent.
Qed.

Definition searching (p : PmtuProber) (hi : Z) : Prop :=
  timers p = t /\ outstanding p = None /\ floor_validated p = true /\ phase p = PhaseSearch hi /\
  ceiling p = c /\ current p <= Z.min mtu c /\ Z.min mtu c <= hi <= c.

Definition converged (p : PmtuProber) : Prop :=
  search_complete p = true /\ current p <= Z.min mtu c /\
  Z.min mtu c - current p < Z.max 1 (granularity t).

Lemma poll_idle p now : outstanding p = None -> phase p <> PhaseFixed -> poll p now = poll_phase p now.
Proof. intros Ho Hp. unfold poll. rewrite Ho. by destruct (phase p). Qed.

(** The acknowledgement of a probe just launched is accepted. *)
Lemma ack_launched p size purpose now :
  let '(pr, q) := launch p size purpose now in
  probe_size pr = size /\
  on_probe_ack q (probe_id pr) (probe_size pr) now =
    let q := set_outstanding q None in
    match purpose with
    | PSearch => if (current q <? size) && (size <=? ceiling q) then set_current q size else q
    | PConfirm => set_next_confirm (set_floor q true) (now + confirm_interval (timers q))
    end.
Proof. cbn. unfold on_probe_ack. cbn. rewrite !Z.eqb_refl. by destruct purpose. Qed.

Lemma halves d n : 1 <= d < 2 ^ Z.of_nat (S n) ->
  1 <= div_ceil d 2 <= d /\ d - div_ceil d 2 < 2 ^ Z.of_nat n /\ div_ceil d 2 - 1 < 2 ^ Z.of_nat n.
Proof.
  rewrite Nat2Z.inj_succ, Z.pow_succ_r by lia. intros. unfold div_ceil.
  pose proof (Z.div_mod (d + 2 - 1) 2). pose proof (Z.mod_pos_bound (d + 2 - 1) 2). lia.
Qed.

Lemma search_converges n : forall fuel p hi now,
  searching p hi -> hi - current p < 2 ^ Z.of_nat n -> (n * Z.to_nat tries <= fuel)%nat ->
  converged (answered fuel (poll_phase p now) now).
Proof.
  induction n as [|n IH]; intros fuel p hi now (Ht & Ho & Hv & Hp & Hc & Hcur & Hhi) Hw Hfuel.
  - unfold poll_phase. rewrite Hp, Hv. cbn [negb].
    rewrite (proj2 (Z.leb_le hi (current p))) by (cbn in Hw; lia). cbn [orb answered].
    unfold converged. cbn. split_and!; [done|lia|]. cbn in Hw. lia.
  - unfold poll_phase. rewrite Hp, Hv, Ht. cbn [negb].
    destruct (Z.leb_spec hi (current p)) as [Hle|Hgt];
      [|destruct (Z.ltb_spec (hi - current p) (granularity t)) as [Hg|Hg]]; cbn [orb answered];
      [unfold converged; cbn; split_and!; [done|lia|lia] .. |].
    destruct (halves (hi - current p) n) as (Hs1 & Hs2 & Hs3); [lia|].
    set (size := current p + div_ceil (hi - current p) 2) in *.
    assert (Htries : (1 <= Z.to_nat tries)%nat) by (unfold tries; lia).
    pose proof (ack_launched p size PSearch now) as Hack.
    destruct (launch p size PSearch now) as [pr q] eqn:Hl. destruct Hack as [Hsz Hack].
    injection Hl as Epr Eq. cbn [answered]. rewrite Hack, Hsz.
    destruct (Z.leb_spec size mtu) as [Hfit|Hlost].
    + destruct fuel as [|fuel]; [lia|]. rewrite drive_S.
      rewrite <- Eq. cbn. rewrite (proj2 (Z.ltb_lt (current p) size)), (proj2 (Z.leb_le size _)) by lia.
      cbn [andb]. rewrite poll_idle by (cbn; congruence).
      apply (IH fuel _ hi); [|cbn; lia|lia]. unfold searching. cbn. split_and!; (done || lia).
    + replace fuel with ((Z.to_nat tries - 1) + S (fuel - Z.to_nat tries))%nat by lia.
      destruct (drive_lost (Z.to_nat tries - 1) (fuel - Z.to_nat tries) q
        {| out_id := next_id p; out_size := size; out_sent := now; out_attempts := 1; out_purpose := PSearch |})
        as [sent Hd]; [|done|done|cbn; lia|].
      { rewrite <- Eq. split_and!; cbn; congruence. }
      cbn [out_sent] in Hd. replace (timers q) with t by (rewrite <- Eq; cbn; congruence). rewrite Hd.
      apply (IH _ _ (size - 1)); [|rewrite <- Eq; cbn; rewrite Hp; cbn; lia|lia].
      rewrite <- Eq. unfold searching, probe_lost. cbn. rewrite Hp. cbn.
      split_and!; try (done || lia). f_equal. unfold saturating_sub, MIN_PLPMTU in *. lia.
Qed.

(** A search whose floor is not validated yet confirms it first. *)
Lemma confirm_converges fuel p hi now :
  timers p = t -> outstanding p = None -> floor_validated p = false -> phase p = PhaseSearch hi ->
  ceiling p = c -> current p <= Z.min mtu c -> Z.min mtu c <= hi <= c -> hi - current p < 2 ^ 14 ->
  (14 * Z.to_nat tries + 1 <= fuel)%nat ->
  converged (answered fuel (poll_phase p now) now).
Proof.
  intros Ht Ho Hv Hp Hc Hcur Hhi Hw Hfuel. unfold poll_phase. rewrite Hp, Hv. cbn [negb].
  pose proof (ack_launched p (current p) PConfirm now) as Hack.
  destruct (launch p (current p) PConfirm now) as [pr q] eqn:Hl. destruct Hack as [Hsz Hack].
  injection Hl as Epr Eq. cbn [answered]. rewrite Hack, Hsz, (proj2 (Z.leb_le _ _)) by lia.
  destruct fuel as [|fuel]; [lia|]. rewrite drive_S, poll_idle by (rewrite <- Eq; cbn; congruence).
  apply (search_converges 14 _ _ hi); [|rewrite <- Eq; cbn in *; lia|lia].
  rewrite <- Eq. unfold searching. cbn. split_and!; (done || lia).
Qed.

End Convergence.

(** Path MTU discovery converges. On a path that carries exactly the
    datagrams of at most [mtu] bytes (any [mtu] of at least the floor, also below
    the base size), discovery finishes within sixteen probe budgets and the limit
    it settles on is deliverable and within the search granularity of the best
    size the path and the interface allow. *)
Theorem pmtu_converges (mtu limit : Z) (t : PmtuTimers) (now : Z) (fuel : nat) :
  MIN_PLPMTU <= mtu ->
  (16 * Z.to_nat (Z.max 1 (max_probes t)) + 1 <= fuel)%nat ->
  let best := Z.min mtu (clamp MIN_PLPMTU MAX_PLPMTU limit) in
  let p := drive mtu fuel (discover limit t now) now in
  search_complete p = true /\ current p <= best /\ best - current p < Z.max 1 (granularity t).
Proof.
  intros Hmtu Hfuel best p. set (c := clamp MIN_PLPMTU MAX_PLPMTU limit) in *.
  assert (Hc : 512 <= c <= 8972) by (unfold c; unfold_consts; lia).
  set (tries := Z.max 1 (max_probes t)) in *. assert (Htries : (1 <= Z.to_nat tries)%nat) by lia.
  destruct fuel as [|fuel]; [lia|]. change (converged mtu t c p). unfold p. rewrite drive_S.
  rewrite poll_idle by done. unfold_consts.
  destruct (Z.le_gt_cases (Z.min 1200 c) mtu) as [Hfit|Hlost].
  - apply (confirm_converges mtu t c Hmtu _ _ c); try done; cbn -[Nat.mul clamp]; fold c; unfold_consts; lia.
  - set (d := discover limit t now). set (o := {| out_id := 1; out_size := Z.min 1200 c;
      out_sent := now; out_attempts := 1; out_purpose := PConfirm |}).
    set (q := set_outstanding (set_next_id d 2) (Some o)).
    change (poll_phase d now) with (Some {| probe_id := 1; probe_size := Z.min 1200 c |}, q).
    cbn beta iota. cbn [probe_size]. rewrite (proj2 (Z.leb_gt _ _)) by lia.
    replace fuel with ((Z.to_nat tries - 1) + S (fuel - Z.to_nat tries))%nat by lia.
    destruct (drive_lost mtu t (Z.to_nat tries - 1) (fuel - Z.to_nat tries) q o) as [sent Hd];
      [done|done|done|cbn; lia|]. cbn [out_sent o] in Hd. change (timers q) with t. rewrite Hd.
    apply (confirm_converges mtu t c Hmtu _ _ (Z.max (Z.min 1200 c - 1) 512));
      try done; cbn -[Nat.mul clamp]; unfold_consts; try lia.
    + rewrite (proj2 (Z.ltb_ge _ _)) by lia. f_equal. lia.
    + rewrite (proj2 (Z.ltb_ge _ _)) by lia. lia.
    + rewrite (proj2 (Z.ltb_ge _ _)) by lia. lia.
Qed.

Lemma pmtu_converges_witness :
  search_complete (drive 1400 49 (discover 1472 default_timers 0) 0) = true /\
  1400 - current (drive 1400 49 (discover 1472 default_timers 0) 0) < 16.
Proof.
  destruct (pmtu_converges 1400 1472 default_timers 0 49) as (H1 & H2 & H3).
  - unfold MIN_PLPMTU; lia.
  - vm_compute. lia.
  - split; [exact H1|exact H3].
Defined.
