(* ===== verification/Replay.v ===== *)
(** * Replay caches of Handoff and NXR
    ([src/protocol/handoff/replay.rs], [src/server/nxr/replay.rs])

    The two caches share one construction: sixteen mutex-protected shards, an
    atomic entry counter and reserve-before-use. The model keeps the
    concurrency: every call is a small program whose steps are the atomic
    operations and critical sections of the source, and a schedule interleaves
    any number of calls with the progress of the clock. *)

From stdpp Require Import gmap sorting.
From S2P Require Import Prelude.
#[local] Open Scope Z_scope.

#[export] Instance byte_countable : Countable byte :=
  inj_countable Byte.to_N Byte.of_N Byte.of_to_N.

Notation Nonce := (list byte).

Definition REPLAY_SHARDS : nat := 16.

Record NonceShard := { entries : gmap Nonce Z; expirations : list (Z * Nonce) }.

Definition empty_shard : NonceShard := {| entries := ∅; expirations := [] |}.

(** The fixed part of [HandoffReplayCacheInner] / [NxrReplayCacheInner]; the
    monotonic clock saturates at [instant_max]. *)
Record CachePolicy := { capacity : Z; retention : Z; instant_max : Z }.

Record ReplayCache := { shards : list NonceShard; used : Z }.

(** Why a reservation fails; each listener maps the causes to its own errors. *)
Inductive ReplayFailure := FailDeadline | FailDuplicate | FailCapacity | FailAllocation.

Inductive HandoffError :=
| HLength | HVersion | HTimeWindow | HReplay | HAuthentication | HState | HAllocation | HRandom | HCrypto.

Inductive NxrReplayError := NxrDuplicate | NxrCapacity | NxrUnavailable.

Definition handoff_replay_error (f : ReplayFailure) : HandoffError :=
  match f with
  | FailDeadline | FailDuplicate | FailCapacity => HReplay
  | FailAllocation => HAllocation
  end.

Definition nxr_replay_error (f : ReplayFailure) : NxrReplayError :=
  match f with
  | FailDeadline => NxrUnavailable
  | FailDuplicate => NxrDuplicate
  | FailCapacity | FailAllocation => NxrCapacity
  end.

(** [HandoffReplayCache::new]: [None] is the rejected configuration. *)
Definition new_cache (p : CachePolicy) : option ReplayCache :=
  if (capacity p =? 0) || (retention p =? 0) then None
  else Some {| shards := replicate REPLAY_SHARDS empty_shard; used := 0 |}.


Definition replay_retention_seconds (max_time_difference_seconds : Z) : Z :=
  saturating_add_u64 (saturating_mul_u64 max_time_difference_seconds 2) 1.

Definition REPLAY_NONCE_CAPACITY : Z := 65536.

Definition nonce_shard (nonce : Nonce) : nat :=
  Z.to_nat (u8 (default x00 (head nonce)) mod Z.of_nat REPLAY_SHARDS).

(** ** The heap: [BinaryHeap<Reverse<(Instant, nonce)>>], smallest first *)

Fixpoint bytes_leb (a b : list byte) : bool :=
  match a, b with
  | [], _ => true
  | _, [] => false
  | x :: a, y :: b => (u8 x <? u8 y) || ((u8 x =? u8 y) && bytes_leb a b)
  end.

Definition heap_leb (a b : Z * Nonce) : bool :=
  (a.1 <? b.1) || ((a.1 =? b.1) && bytes_leb a.2 b.2).

Fixpoint heap_push (x : Z * Nonce) (h : list (Z * Nonce)) : list (Z * Nonce) :=
  match h with
  | [] => [x]
  | y :: h => if heap_leb x y then x :: y :: h else y :: heap_push x h
  end.

(** The [while] loop of [purge_nonce_shard]. *)
Fixpoint purge_loop (h : list (Z * Nonce)) (m : gmap Nonce Z) (now : Z) : NonceShard * Z :=
  match h with
  | [] => ({| entries := m; expirations := [] |}, 0)
  | (expires_at, nonce) :: rest =>
    if expires_at <=? now then
      if bool_decide (m !! nonce = Some expires_at) then
        let '(shard, removed) := purge_loop rest (delete nonce m) now in (shard, removed + 1)
      else purge_loop rest m now
    else ({| entries := m; expirations := h |}, 0)
  end.

Definition purge_nonce_shard (shard : NonceShard) (now : Z) : NonceShard * Z :=
  purge_loop (expirations shard) (entries shard) now.

(** ** One call

    The program counter of a call; the states from [PSub] to [PInsert] hold the
    mutex of the nonce's shard. *)
Inductive Pc :=
| PLock (swept_all : bool)
| PSub (removed : Z) (swept_all : bool)
| PCheck (swept_all : bool)
| PLoad (swept_all : bool)
| PCas (observed : Z) (swept_all : bool)
| PInsert
| PSweep (k : nat) (removed : Z)
| PSweepSub (removed : Z)
| PDone (r : option ReplayFailure)
| PPurged (removed : Z).

(** A [reserve_at] of a nonce, or a [purge_expired_at]. *)
Inductive Job := JReserve (nonce : Nonce) (expires_at : Z) | JPurge.

Record Call := { job : Job; call_now : Z; pc : Pc }.

Definition goto (c : Call) (p : Pc) : Call := {| job := job c; call_now := call_now c; pc := p |}.

(** [reserve] reads the clock and computes the deadline. *)
Definition start_reserve (p : CachePolicy) (nonce : Nonce) (now : Z) : Call :=
  match checked_add (instant_max p) now (retention p) with
  | Some expires_at => {| job := JReserve nonce expires_at; call_now := now; pc := PLock false |}
  | None => {| job := JReserve nonce (now + retention p); call_now := now; pc := PDone (Some FailDeadline) |}
  end.

Definition start_purge (now : Z) : Call := {| job := JPurge; call_now := now; pc := PSweep 0 0 |}.

Definition call_shard (c : Call) : nat :=
  match job c with JReserve nonce _ => nonce_shard nonce | JPurge => O end.

Definition set_shard (cache : ReplayCache) (k : nat) (sh : NonceShard) : ReplayCache :=
  {| shards := <[k := sh]> (shards cache); used := used cache |}.
Definition set_used (cache : ReplayCache) (u : Z) : ReplayCache :=
  {| shards := shards cache; used := u |}.

Definition shard_at (cache : ReplayCache) (k : nat) : NonceShard :=
  default empty_shard (shards cache !! k).

(** The mutex a call holds, and the one its next step must acquire. *)
Definition holds (c : Call) : option nat :=
  match pc c with
  | PSub _ _ | PCheck _ | PLoad _ | PCas _ _ | PInsert => Some (call_shard c)
  | _ => None
  end.

Definition wants (c : Call) : option nat :=
  match pc c with
  | PLock _ => Some (call_shard c)
  | PSweep k _ => if decide (k < REPLAY_SHARDS)%nat then Some k else None
  | _ => None
  end.

(** One atomic step of a call; [alloc_ok] is the outcome of the two
    [try_reserve] calls and [cas_ok] is [false] when [compare_exchange_weak]
    fails spuriously. *)
Definition call_step (p : CachePolicy) (alloc_ok cas_ok : bool) (cache : ReplayCache) (c : Call)
    : ReplayCache * Call :=
  let full swept := if (swept : bool) then PDone (Some FailCapacity) else PSweep 0 0 in
  match pc c with
  | PLock swept =>
    let '(sh, removed) := purge_nonce_shard (shard_at cache (call_shard c)) (call_now c) in
    (set_shard cache (call_shard c) sh, goto c (PSub removed swept))
  | PSub removed swept =>
    (set_used cache (if removed =? 0 then used cache else used cache - removed), goto c (PCheck swept))
  | PCheck swept =>
    match job c with
    | JPurge => (cache, c)
    | JReserve nonce _ =>
      if bool_decide (is_Some (entries (shard_at cache (call_shard c)) !! nonce))
      then (cache, goto c (PDone (Some FailDuplicate)))
      else if capacity p <=? used cache then (cache, goto c (full swept))
      else if alloc_ok then (cache, goto c (PLoad swept))
      else (cache, goto c (PDone (Some FailAllocation)))
    end
  | PLoad swept => (cache, goto c (PCas (used cache) swept))
  | PCas observed swept =>
    if capacity p <=? observed then (cache, goto c (full swept))
    else if (used cache =? observed) && cas_ok then (set_used cache (observed + 1), goto c PInsert)
    else (cache, goto c (PCas (used cache) swept))
  | PInsert =>
    match job c with
    | JPurge => (cache, c)
    | JReserve nonce expires_at =>
      let sh := shard_at cache (call_shard c) in
      (set_shard cache (call_shard c)
         {| entries := <[nonce := expires_at]> (entries sh);
            expirations := heap_push (expires_at, nonce) (expirations sh) |},
       goto c (PDone None))
    end
  | PSweep k acc =>
    if decide (k < REPLAY_SHARDS)%nat then
      let '(sh, removed) := purge_nonce_shard (shard_at cache k) (call_now c) in
      (set_shard cache k sh, goto c (PSweep (S k) (acc + removed)))
    else (cache, goto c (PSweepSub acc))
  | PSweepSub removed =>
    (set_used cache (if removed =? 0 then used cache else used cache - removed),
     goto c (match job c with JReserve _ _ => PLock true | JPurge => PPurged removed end))
  | PDone _ | PPurged _ => (cache, c)
  end.

(** ** The shared system *)

Record System := {
  cache : ReplayCache;
  calls : list Call;
  clock : Z;
  (** Accepted reservations, newest first: nonce, clock when the call started,
      clock at acceptance. *)
  accepted : list (Nonce * Z * Z);
}.

Inductive Event :=
| EvReserve (nonce : Nonce)
| EvPurge
| EvTick (d : Z)
| EvStep (i : nat) (alloc_ok cas_ok : bool).

Definition lock_free (cs : list Call) (k : nat) : bool :=
  forallb (fun c => negb (bool_decide (holds c = Some k))) cs.

Definition can_step (cs : list Call) (c : Call) : bool :=
  match wants c with Some k => lock_free cs k | None => true end.

Definition log_accept (c : Call) (now : Z) (log : list (Nonce * Z * Z)) : list (Nonce * Z * Z) :=
  match pc c, job c with
  | PInsert, JReserve nonce _ => (nonce, call_now c, now) :: log
  | _, _ => log
  end.

(** A call whose next step needs a mutex another call holds is blocked: the
    event changes nothing. *)
Definition sys_step (p : CachePolicy) (s : System) (ev : Event) : System :=
  match ev with
  | EvReserve nonce =>
    {| cache := cache s; calls := calls s ++ [start_reserve p nonce (clock s)];
       clock := clock s; accepted := accepted s |}
  | EvPurge =>
    {| cache := cache s; calls := calls s ++ [start_purge (clock s)];
       clock := clock s; accepted := accepted s |}
  | EvTick d =>
    {| cache := cache s; calls := calls s; clock := clock s + Z.max 0 d; accepted := accepted s |}
  | EvStep i alloc_ok cas_ok =>
    match calls s !! i with
    | Some c =>
      if can_step (calls s) c then
        let '(cache', c') := call_step p alloc_ok cas_ok (cache s) c in
        {| cache := cache'; calls := <[i := c']> (calls s); clock := clock s;
           accepted := log_accept c (clock s) (accepted s) |}
      else s
    | None => s
    end
  end.

Definition run_system (p : CachePolicy) (s : System) (evs : list Event) : System :=
  foldl (sys_step p) s evs.

Definition initial_system (c : ReplayCache) (t : Z) : System :=
  {| cache := c; calls := []; clock := t; accepted := [] |}.

(** ** Shards *)

Record shard_wf (sh : NonceShard) : Prop := {
  wf_nodup : NoDup (expirations sh).*2;
  wf_entries : forall e n, (e, n) ∈ expirations sh <-> entries sh !! n = Some e;
  wf_sorted : StronglySorted (fun a b => a.1 <= b.1) (expirations sh);
}.

Lemma empty_shard_wf : shard_wf empty_shard.
Proof.
  constructor; cbn; [constructor| |constructor].
  intros e n. rewrite elem_of_nil, lookup_empty. naive_solver.
Qed.

Lemma heap_push_elem x y h : y ∈ heap_push x h <-> y = x \/ y ∈ h.
Proof.
  induction h as [|z h IH]; cbn; [set_solver|]. destruct (heap_leb x z); [set_solver|].
  rewrite !elem_of_cons, IH. tauto.
Qed.

Lemma heap_push_snd x h : (heap_push x h).*2 ≡ₚ x.2 :: h.*2.
Proof.
  induction h as [|z h IH]; cbn; [done|]. destruct (heap_leb x z); cbn; [done|].
  rewrite IH. apply Permutation_swap.
Qed.

Lemma heap_leb_fst a b : if heap_leb a b then a.1 <= b.1 else b.1 <= a.1.
Proof.
  unfold heap_leb. destruct (Z.ltb_spec a.1 b.1); cbn; [lia|].
  destruct (Z.eqb_spec a.1 b.1); cbn; [destruct (bytes_leb _ _)|]; lia.
Qed.

Lemma heap_push_sorted x h :
  StronglySorted (fun a b => a.1 <= b.1) h -> StronglySorted (fun a b => a.1 <= b.1) (heap_push x h).
Proof.
  induction 1 as [|z h Hs IH Hall]; cbn; [repeat constructor|].
  pose proof (heap_leb_fst x z) as Hle. destruct (heap_leb x z).
  - constructor; [by constructor|]. constructor; [done|].
    eapply Forall_impl; [exact Hall|]. cbn. intros; lia.
  - constructor; [done|]. apply Forall_forall. intros y Hy%heap_push_elem.
    destruct Hy as [->|Hy]; [done|]. by eapply Forall_forall in Hall.
Qed.

Lemma insert_shard_wf sh n e :
  shard_wf sh -> entries sh !! n = None ->
  shard_wf {| entries := <[n := e]> (entries sh); expirations := heap_push (e, n) (expirations sh) |}.
Proof.
  intros [Hnd He Hs] Hn. constructor; cbn [entries expirations].
  - rewrite heap_push_snd. apply NoDup_cons. split; [|done]. cbn.
    intros ([e' n'] & -> & Hin)%list_elem_of_fmap. apply He in Hin. cbn in Hn. congruence.
  - intros e' n'. rewrite heap_push_elem, He. destruct (decide (n = n')) as [->|Hne].
    + rewrite lookup_insert_eq. naive_solver.
    + rewrite lookup_insert_ne by done. naive_solver.
  - by apply heap_push_sorted.
Qed.

(** Purging removes exactly the expired nonces and counts them. *)
Lemma purge_loop_spec now h : forall m,
  NoDup h.*2 -> (forall e n, (e, n) ∈ h <-> m !! n = Some e) ->
  StronglySorted (fun a b => a.1 <= b.1) h ->
  let '(sh, removed) := purge_loop h m now in
  shard_wf sh /\ (forall n e, entries sh !! n = Some e <-> m !! n = Some e /\ now < e) /\
  removed = Z.of_nat (size m) - Z.of_nat (size (entries sh)) /\ 0 <= removed.
Proof.
  induction h as [|[e0 n0] h IH]; intros m Hnd Hm Hs; cbn.
  - assert (forall n, m !! n = None) as Hnone.
    { intros n. destruct (m !! n) as [e|] eqn:E; [|done]. apply Hm in E. by apply elem_of_nil in E. }
    split_and!; [constructor; done| |lia|lia]. intros n e. rewrite Hnone. naive_solver.
  - inversion Hs as [|? ? Hs' Hall]; subst. cbn in Hnd. apply NoDup_cons in Hnd as [Hfresh Hnd].
    assert (Hm0 : m !! n0 = Some e0) by (apply Hm; left).
    destruct (Z.leb_spec e0 now) as [Hexp|Hlive].
    + rewrite bool_decide_true by done.
      specialize (IH (delete n0 m)). destruct (purge_loop h (delete n0 m) now) as [sh removed].
      destruct IH as (Hwf & He & Hr & Hpos); [done| |done|].
      { intros e n. rewrite lookup_delete_Some, <- Hm, elem_of_cons. split.
        - intros Hin. split; [|by right]. intros <-. apply Hfresh. by apply (list_elem_of_fmap_2 snd) in Hin.
        - intros [Hne [[= -> ->]|Hin]]; done. }
      assert (Hsz : size m = S (size (delete n0 m))).
      { rewrite <- (insert_delete_id m n0 e0 Hm0) at 1. rewrite map_size_insert_None; [done|].
        apply lookup_delete_eq. }
      split_and!; [done| |lia|lia]. intros n e. rewrite He, lookup_delete_Some. split; [naive_solver|].
      intros [Hin Hlt]. split; [|done]. split; [|done]. intros <-. rewrite Hm0 in Hin. simplify_eq. lia.
    + cbn. split_and!; [| |lia|lia].
      * constructor; cbn; [by apply NoDup_cons|done|done].
      * intros n e. split; [|naive_solver]. intros Hin. split; [done|]. apply Hm in Hin.
        apply elem_of_cons in Hin as [[= -> ->]|Hin]; [done|].
        eapply Forall_forall in Hall; [|exact Hin]. cbn in Hall. lia.
Qed.

Lemma purge_spec sh now :
  shard_wf sh ->
  let '(sh', removed) := purge_nonce_shard sh now in
  shard_wf sh' /\ (forall n e, entries sh' !! n = Some e <-> entries sh !! n = Some e /\ now < e) /\
  removed = Z.of_nat (size (entries sh)) - Z.of_nat (size (entries sh')) /\ 0 <= removed.
Proof. intros [? ? ?]. by apply purge_loop_spec. Qed.

(** ** The cache as a whole *)

Definition live (ca : ReplayCache) (n : Nonce) : option Z :=
  entries (shard_at ca (nonce_shard n)) !! n.

Definition shard_size (sh : NonceShard) : Z := Z.of_nat (size (entries sh)).
Definition total (ca : ReplayCache) : Z := zsum shard_size (shards ca).

Record cache_wf (ca : ReplayCache) : Prop := {
  cw_len : length (shards ca) = REPLAY_SHARDS;
  cw_shard : forall k sh, shards ca !! k = Some sh -> shard_wf sh;
  cw_home : forall k sh n e, shards ca !! k = Some sh -> entries sh !! n = Some e -> nonce_shard n = k;
}.

Lemma nonce_shard_range n : (nonce_shard n < REPLAY_SHARDS)%nat.
Proof.
  unfold nonce_shard. pose proof (Z.mod_pos_bound (u8 (default x00 (head n))) (Z.of_nat REPLAY_SHARDS)).
  unfold REPLAY_SHARDS in *. lia.
Qed.

Lemma shard_lookup ca k : cache_wf ca -> (k < REPLAY_SHARDS)%nat -> shards ca !! k = Some (shard_at ca k).
Proof.
  intros Hwf Hk. unfold shard_at. rewrite <- (cw_len ca Hwf) in Hk.
  by destruct (lookup_lt_is_Some_2 _ _ Hk) as [sh ->].
Qed.

Lemma shard_at_set ca k sh j :
  (k < length (shards ca))%nat -> shard_at (set_shard ca k sh) j = if decide (k = j) then sh else shard_at ca j.
Proof.
  intros Hk. unfold shard_at, set_shard. cbn. destruct (decide (k = j)) as [->|Hne].
  - by rewrite list_lookup_insert_eq.
  - by rewrite list_lookup_insert_ne.
Qed.

Lemma set_shard_wf ca k sh :
  cache_wf ca -> shard_wf sh -> (forall n e, entries sh !! n = Some e -> nonce_shard n = k) ->
  cache_wf (set_shard ca k sh).
Proof.
  intros [Hl Hw Hh] Hsh Hhome. constructor; cbn.
  - by rewrite length_insert.
  - intros j s Hj. apply list_lookup_insert_Some in Hj as [(-> & -> & _)|[_ Hj]]; eauto.
  - intros j s n e Hj. apply list_lookup_insert_Some in Hj as [(-> & -> & _)|[_ Hj]]; eauto.
Qed.

Lemma total_set ca k sh :
  cache_wf ca -> (k < REPLAY_SHARDS)%nat ->
  total (set_shard ca k sh) = total ca - shard_size (shard_at ca k) + shard_size sh.
Proof. intros Hwf Hk. unfold total. cbn. apply zsum_insert. by apply shard_lookup. Qed.

Lemma purge_cache ca k now :
  cache_wf ca -> (k < REPLAY_SHARDS)%nat ->
  let '(sh, removed) := purge_nonce_shard (shard_at ca k) now in
  let ca' := set_shard ca k sh in
  cache_wf ca' /\ total ca' = total ca - removed /\ 0 <= removed /\
  (forall n e, live ca' n = Some e <-> live ca n = Some e /\ (nonce_shard n = k -> now < e)).
Proof.
  intros Hwf Hk. pose proof (shard_lookup ca k Hwf Hk) as Hsh.
  pose proof (purge_spec (shard_at ca k) now (cw_shard ca Hwf k _ Hsh)) as Hp.
  destruct (purge_nonce_shard (shard_at ca k) now) as [sh removed]. destruct Hp as (Hw & He & Hr & Hpos).
  cbn zeta. split_and!; [| |done|].
  - apply set_shard_wf; [done|done|]. intros n e [Hn _]%He. by apply (cw_home ca Hwf k _ n e Hsh).
  - rewrite total_set by done. unfold shard_size. lia.
  - intros n e. unfold live. rewrite shard_at_set by (rewrite (cw_len ca Hwf); done).
    destruct (decide (k = nonce_shard n)) as [->|Hne]; [rewrite He; naive_solver|].
    split; [|naive_solver]. intros H. split; [done|]. intros ?; congruence.
Qed.

Lemma insert_cache ca n e :
  cache_wf ca -> live ca n = None ->
  let sh := shard_at ca (nonce_shard n) in
  let ca' := set_shard ca (nonce_shard n) {| entries := <[n := e]> (entries sh);
    expirations := heap_push (e, n) (expirations sh) |} in
  cache_wf ca' /\ total ca' = total ca + 1 /\
  (forall n', live ca' n' = if decide (n = n') then Some e else live ca n').
Proof.
  intros Hwf Hn sh ca'. pose proof (nonce_shard_range n) as Hk.
  pose proof (shard_lookup ca _ Hwf Hk) as Hsh. fold sh in Hsh. unfold live in Hn. fold sh in Hn.
  split_and!.
  - apply set_shard_wf; [done|apply insert_shard_wf; [by eapply (cw_shard ca Hwf)|done]|].
    cbn. intros n' e' [[-> _]|[_ H]]%lookup_insert_Some; [done|]. by apply (cw_home ca Hwf _ _ _ _ Hsh H).
  - unfold ca'. rewrite total_set by done. unfold shard_size. cbn [entries]. fold sh.
    rewrite map_size_insert_None by done. lia.
  - intros n'. unfold live, ca'. rewrite shard_at_set by (rewrite (cw_len ca Hwf); done).
    destruct (decide (nonce_shard n = nonce_shard n')) as [Heq|Hne].
    + cbn [entries]. rewrite <- Heq. fold sh. destruct (decide (n = n')) as [->|].
      * by rewrite lookup_insert_eq.
      * by rewrite lookup_insert_ne.
    + destruct (decide (n = n')) as [->|]; done.
Qed.

(** Slots a call has taken from, or still owes to, the counter. *)
Definition pending (c : Call) : Z :=
  match pc c with
  | PSub removed _ | PSweep _ removed | PSweepSub removed => removed
  | PInsert => 1
  | _ => 0
  end.

(** The call has seen that its nonce is absent and still holds the mutex. *)
Definition checked (c : Call) : bool :=
  match pc c with PLoad _ | PCas _ _ | PInsert => true | _ => false end.

(** Acceptances of one nonce are a retention period apart. *)
Definition distinct_in_time (p : CachePolicy) (new old : Nonce * Z * Z) : Prop :=
  new.1.1 = old.1.1 -> old.1.2 + retention p <= new.2.

Record sys_inv (p : CachePolicy) (s : System) : Prop := {
  i_cache : cache_wf (cache s);
  i_used : used (cache s) = total (cache s) + zsum pending (calls s);
  i_capacity : used (cache s) <= capacity p;
  i_pending : forall c, c ∈ calls s -> 0 <= pending c;
  i_mutex : forall i j c d k, calls s !! i = Some c -> calls s !! j = Some d ->
    holds c = Some k -> holds d = Some k -> i = j;
  i_now : forall c, c ∈ calls s -> call_now c <= clock s;
  i_fresh : forall c n e, c ∈ calls s -> checked c = true -> job c = JReserve n e -> live (cache s) n = None;
  i_deadline : forall c n e, c ∈ calls s -> job c = JReserve n e -> e = call_now c + retention p;
  i_accepted : forall n b t, (n, b, t) ∈ accepted s -> clock s < b + retention p ->
    live (cache s) n = Some (b + retention p);
  i_log : StronglySorted (distinct_in_time p) (accepted s);
}.

(** What one step of call [c] may do to the cache. *)
Record step_ok (p : CachePolicy) (s : System) (c : Call) (ca' : ReplayCache) (c' : Call) : Prop := {
  so_cache : cache_wf ca';
  so_used : used ca' = used (cache s) + (total ca' - total (cache s)) + (pending c' - pending c);
  so_capacity : used ca' <= capacity p;
  so_pending : 0 <= pending c';
  so_job : job c' = job c;
  so_now : call_now c' = call_now c;
  so_holds : forall k, holds c' = Some k -> holds c = Some k \/ wants c = Some k;
  so_fresh : forall n e, checked c' = true -> job c = JReserve n e -> live ca' n = None;
  so_others : forall n, live (cache s) n = None -> live ca' n <> None -> holds c = Some (nonce_shard n);
  so_live : forall n e, clock s < e -> live (cache s) n = Some e -> live ca' n = Some e;
  so_insert : forall n e, pc c = PInsert -> job c = JReserve n e ->
    live (cache s) n = None /\ live ca' n = Some e;
}.

Lemma lock_free_spec cs k c : lock_free cs k = true -> c ∈ cs -> holds c <> Some k.
Proof.
  unfold lock_free. rewrite forallb_forall. intros H Hc%list_elem_of_In. specialize (H c Hc).
  by apply negb_true_iff, bool_decide_eq_false in H.
Qed.

Lemma elem_of_insert_calls (cs : list Call) i c c' d :
  cs !! i = Some c -> d ∈ <[i := c']> cs -> d = c' \/ (exists j, j <> i /\ cs !! j = Some d).
Proof.
  intros Hi (j & Hj)%list_elem_of_lookup.
  apply list_lookup_insert_Some in Hj as [(-> & -> & _)|[Hne Hj]]; eauto.
Qed.

Lemma checked_holds c n e : checked c = true -> job c = JReserve n e -> holds c = Some (nonce_shard n).
Proof. unfold checked, holds, call_shard. intros Hc ->. by destruct (pc c). Qed.

Lemma sys_inv_step p s i c ca' c' :
  sys_inv p s -> calls s !! i = Some c -> can_step (calls s) c = true -> step_ok p s c ca' c' ->
  sys_inv p {| cache := ca'; calls := <[i := c']> (calls s); clock := clock s;
               accepted := log_accept c (clock s) (accepted s) |}.
Proof.
  intros I Hi Hcan O. pose proof (list_elem_of_lookup_2 _ _ _ Hi) as Hin.
  assert (Hexcl : forall j d k, j <> i -> calls s !! j = Some d -> holds d = Some k -> holds c' = Some k -> False).
  { intros j d k Hne Hj Hd Hc'. destruct (so_holds _ _ _ _ _ O k Hc') as [Hc|Hw].
    - by apply Hne, (i_mutex _ _ I j i d c k).
    - unfold can_step in Hcan. rewrite Hw in Hcan.
      by apply (lock_free_spec _ _ d) in Hcan; [|by eapply list_elem_of_lookup_2]. }
  constructor; cbn [cache calls clock accepted].
  - apply (so_cache _ _ _ _ _ O).
  - rewrite (zsum_insert pending _ _ _ c' Hi), (so_used _ _ _ _ _ O), (i_used _ _ I). lia.
  - apply (so_capacity _ _ _ _ _ O).
  - intros d Hd. apply (elem_of_insert_calls _ _ _ _ _ Hi) in Hd as [->|(j & _ & Hj)];
      [apply (so_pending _ _ _ _ _ O)|]. by eapply (i_pending _ _ I), list_elem_of_lookup_2.
  - intros j1 j2 d1 d2 k H1 H2 K1 K2.
    apply list_lookup_insert_Some in H1 as [(-> & -> & _)|[Hne1 H1]];
    apply list_lookup_insert_Some in H2 as [(-> & -> & _)|[Hne2 H2]]; [done|..].
    + exfalso. by apply (Hexcl j2 d2 k).
    + exfalso. by apply (Hexcl j1 d1 k).
    + by apply (i_mutex _ _ I j1 j2 d1 d2 k).
  - intros d Hd. apply (elem_of_insert_calls _ _ _ _ _ Hi) in Hd as [->|(j & _ & Hj)].
    + rewrite (so_now _ _ _ _ _ O). by apply (i_now _ _ I).
    + by eapply (i_now _ _ I), list_elem_of_lookup_2.
  - intros d n e Hd Hck Hjob. apply (elem_of_insert_calls _ _ _ _ _ Hi) in Hd as [->|(j & Hne & Hj)].
    + apply (so_fresh _ _ _ _ _ O n e Hck). by rewrite <- (so_job _ _ _ _ _ O).
    + pose proof (i_fresh _ _ I d n e (list_elem_of_lookup_2 _ _ _ Hj) Hck Hjob) as Hnone.
      destruct (decide (live ca' n = None)) as [|Hgrew]; [done|].
      pose proof (so_others _ _ _ _ _ O n Hnone Hgrew) as Hown.
      by destruct Hne; apply (i_mutex _ _ I j i d c _ Hj Hi (checked_holds _ _ _ Hck Hjob)).
  - intros d n e Hd Hjob. apply (elem_of_insert_calls _ _ _ _ _ Hi) in Hd as [->|(j & Hne & Hj)].
    + rewrite (so_now _ _ _ _ _ O). apply (i_deadline _ _ I c n e Hin). by rewrite <- (so_job _ _ _ _ _ O).
    + by eapply (i_deadline _ _ I); [eapply list_elem_of_lookup_2|].
  - intros n b t Hlog Hlt.
    assert ((n, b, t) ∈ accepted s -> live ca' n = Some (b + retention p)) as Hold.
    { intros Hold. apply (so_live _ _ _ _ _ O _ _ Hlt). by apply (i_accepted _ _ I n b t). }
    unfold log_accept in Hlog. destruct (pc c) eqn:Hpc; try by apply Hold.
    destruct (job c) as [n0 e0|] eqn:Hjob; [|by apply Hold].
    apply elem_of_cons in Hlog as [[= -> -> ->]|Hlog]; [|by apply Hold].
    rewrite <- (i_deadline _ _ I c n0 e0 Hin Hjob). by apply (so_insert _ _ _ _ _ O n0 e0).
  - unfold log_accept.
    destruct (pc c) eqn:Hpc, (job c) as [n e|] eqn:Hjob; try apply (i_log _ _ I).
    constructor; [apply (i_log _ _ I)|]. apply Forall_forall. intros [[n' b'] t'] Hold Heq. cbn in *. subst n'.
    destruct (Z.le_gt_cases (b' + retention p) (clock s)) as [|Hlt]; [done|].
    pose proof (i_accepted _ _ I n b' t' Hold Hlt) as Hlive.
    destruct (so_insert _ _ _ _ _ O n e Hpc Hjob). congruence.
Qed.

(** A step that leaves the shards alone. *)
Lemma step_ok_local p s c u c' :
  sys_inv p s -> c ∈ calls s ->
  u = used (cache s) + (pending c' - pending c) -> u <= capacity p -> 0 <= pending c' ->
  job c' = job c -> call_now c' = call_now c ->
  (forall k, holds c' = Some k -> holds c = Some k) -> (pc c <> PInsert \/ job c = JPurge) ->
  (forall n e, checked c' = true -> job c = JReserve n e -> live (cache s) n = None) ->
  step_ok p s c (set_used (cache s) u) c'.
Proof.
  intros I Hin -> Hcap Hpos Hjob Hnow Hh Hpc Hck.
  constructor; try done.
  - by destruct (i_cache _ _ I).
  - change (total (set_used (cache s) _)) with (total (cache s)). cbn [used set_used]. lia.
  - intros k ?. left. by apply Hh.
  - intros n e. destruct Hpc; congruence.
Qed.

(** A step that purges shard [k]. *)
Lemma step_ok_purge p s c k c' sh removed :
  sys_inv p s -> c ∈ calls s -> (k < REPLAY_SHARDS)%nat ->
  purge_nonce_shard (shard_at (cache s) k) (call_now c) = (sh, removed) ->
  pending c' = pending c + removed -> job c' = job c -> call_now c' = call_now c ->
  (forall j, holds c' = Some j -> wants c = Some j) -> pc c <> PInsert -> checked c' = false ->
  step_ok p s c (set_shard (cache s) k sh) c'.
Proof.
  intros I Hin Hk Hp Hpend Hjob Hnow Hh Hpc Hck.
  pose proof (purge_cache (cache s) k (call_now c) (i_cache _ _ I) Hk) as H. rewrite Hp in H.
  destruct H as (Hwf & Htot & Hpos & Hlive). pose proof (i_pending _ _ I c Hin). pose proof (i_now _ _ I c Hin).
  constructor; try done.
  - cbn [used set_shard]. lia.
  - apply (i_capacity _ _ I).
  - lia.
  - intros j ?. right. by apply Hh.
  - congruence.
  - intros n Hnone Hsome. destruct (live (set_shard (cache s) k sh) n) as [e|] eqn:E; [|done].
    apply Hlive in E as [E _]. congruence.
  - intros n e Hlt E. apply Hlive. split; [done|]. intros _. lia.
Qed.

Lemma set_used_same ca : set_used ca (used ca) = ca.
Proof. by destruct ca. Qed.

Lemma reserve_shard c n e : job c = JReserve n e -> call_shard c = nonce_shard n.
Proof. unfold call_shard. by intros ->. Qed.

Lemma call_shard_range c : (call_shard c < REPLAY_SHARDS)%nat.
Proof. unfold call_shard. destruct (job c); [apply nonce_shard_range|]. unfold REPLAY_SHARDS. lia. Qed.

Ltac call_facts Hpc := cbn; unfold pending, holds, checked, wants, call_shard; rewrite ?Hpc; cbn; try done; try (by left).

(** A step that only moves the program counter, within or out of the critical
    section. *)
Lemma step_ok_goto p s c pc' :
  sys_inv p s -> c ∈ calls s -> pending (goto c pc') = pending c -> (pc c <> PInsert \/ job c = JPurge) ->
  (forall k, holds (goto c pc') = Some k -> holds c = Some k) ->
  (forall n e, checked (goto c pc') = true -> job c = JReserve n e -> live (cache s) n = None) ->
  step_ok p s c (cache s) (goto c pc').
Proof.
  intros I Hin Hp Hpc Hh Hck. rewrite <- (set_used_same (cache s)) at 1.
  apply step_ok_local; try done; [lia|apply (i_capacity _ _ I)|]. rewrite Hp. by apply (i_pending _ _ I).
Qed.

Lemma step_ok_insert p s c n e :
  sys_inv p s -> c ∈ calls s -> pc c = PInsert -> job c = JReserve n e ->
  let sh := shard_at (cache s) (nonce_shard n) in
  step_ok p s c (set_shard (cache s) (nonce_shard n) {| entries := <[n := e]> (entries sh);
    expirations := heap_push (e, n) (expirations sh) |}) (goto c (PDone None)).
Proof.
  intros I Hin Hpc Hjob sh.
  assert (Hnone : live (cache s) n = None)
    by (apply (i_fresh _ _ I c n e Hin); [unfold checked; by rewrite Hpc|done]).
  destruct (insert_cache (cache s) n e (i_cache _ _ I) Hnone) as (Hwf & Htot & Hlive). fold sh in Hwf, Htot, Hlive.
  set (ca' := set_shard _ _ _) in *. constructor; try done.
  - unfold pending. rewrite Hpc, Htot. cbn [goto pc used ca' set_shard]. lia.
  - apply (i_capacity _ _ I).
  - intros n' H1 H2. rewrite Hlive in H2. destruct (decide (n = n')) as [<-|]; [|done].
    unfold holds. rewrite Hpc. f_equal. by eapply reserve_shard.
  - intros n' e' Hlt H1. rewrite Hlive. destruct (decide (n = n')) as [<-|]; [congruence|done].
  - intros n' e' _ Hjob'. rewrite Hjob in Hjob'. simplify_eq. split; [done|].
    by rewrite Hlive, decide_True.
Qed.

Lemma call_step_ok p s c a b :
  sys_inv p s -> c ∈ calls s ->
  step_ok p s c (call_step p a b (cache s) c).1 (call_step p a b (cache s) c).2.
Proof.
  intros I Hin. pose proof (i_capacity _ _ I) as Hcap. pose proof (i_pending _ _ I c Hin) as Hpend.
  unfold call_step. destruct (pc c) as [swept|removed swept|swept|swept|observed swept| |k acc|removed|r|removed] eqn:Hpc.
  - destruct (purge_nonce_shard _ _) as [sh removed] eqn:Hp. cbn [fst snd].
    eapply step_ok_purge; [done|done|apply call_shard_range|exact Hp|call_facts Hpc..].
  - cbn [fst snd].
    replace (if removed =? 0 then _ else _) with (used (cache s) - removed) by (destruct (Z.eqb_spec removed 0); lia).
    unfold pending in Hpend. rewrite Hpc in Hpend.
    apply step_ok_local; try done; call_facts Hpc; lia.
  - destruct (job c) as [n e|] eqn:Hjob; cbn [fst snd].
    + rewrite (reserve_shard c n e Hjob). case_bool_decide as Hdup; cbn [fst snd];
        [apply step_ok_goto; try done; call_facts Hpc|].
      apply eq_None_not_Some in Hdup. fold (live (cache s) n) in Hdup.
      destruct (capacity p <=? used (cache s)); [destruct swept|destruct a]; cbn [fst snd];
        apply step_ok_goto; try done; call_facts Hpc. intros n' e' _. congruence.
    + replace c with (goto c (pc c)) at 2 by (by destruct c). apply step_ok_goto; try done; call_facts Hpc.
  - apply step_ok_goto; try done; call_facts Hpc. intros n e _ Hjob.
    apply (i_fresh _ _ I c n e Hin); [unfold checked; by rewrite Hpc|done].
  - assert (Hfresh : forall n e, job c = JReserve n e -> live (cache s) n = None).
    { intros n e Hjob. apply (i_fresh _ _ I c n e Hin); [unfold checked; by rewrite Hpc|done]. }
    destruct (Z.leb_spec (capacity p) observed); [destruct swept; cbn [fst snd]; apply step_ok_goto; try done; call_facts Hpc|].
    destruct (Z.eqb_spec (used (cache s)) observed) as [<-|]; [destruct b|]; cbn [andb fst snd];
      [|apply step_ok_goto; try done; call_facts Hpc; eauto ..].
    apply step_ok_local; try done; call_facts Hpc; [lia..|]. intros n e _. apply Hfresh.
  - destruct (job c) as [n e|] eqn:Hjob; cbn [fst snd].
    + rewrite (reserve_shard c n e Hjob). by apply step_ok_insert.
    + replace c with (goto c (pc c)) at 2 by (by destruct c). apply step_ok_goto; auto; call_facts Hpc.
      intros n e _. congruence.
  - destruct (decide (k < REPLAY_SHARDS)%nat) as [Hk|Hk].
    + destruct (purge_nonce_shard _ _) as [sh removed] eqn:Hp. cbn [fst snd].
      eapply step_ok_purge; [done|done|exact Hk|exact Hp|call_facts Hpc..].
    + apply step_ok_goto; try done; call_facts Hpc.
  - cbn [fst snd].
    replace (if removed =? 0 then _ else _) with (used (cache s) - removed) by (destruct (Z.eqb_spec removed 0); lia).
    unfold pending in Hpend. rewrite Hpc in Hpend.
    apply step_ok_local; try done; call_facts Hpc; destruct (job c); try done; cbn; lia.
  - cbn [fst snd]. replace c with (goto c (pc c)) at 2 by (by destruct c). apply step_ok_goto; try done; call_facts Hpc.
  - cbn [fst snd]. replace c with (goto c (pc c)) at 2 by (by destruct c). apply step_ok_goto; try done; call_facts Hpc.
Qed.

(** New calls start outside every critical section, owing nothing. *)
Lemma sys_inv_start p s c :
  sys_inv p s -> pending c = 0 -> holds c = None -> call_now c = clock s -> checked c = false ->
  (forall n e, job c = JReserve n e -> e = call_now c + retention p) ->
  sys_inv p {| cache := cache s; calls := calls s ++ [c]; clock := clock s; accepted := accepted s |}.
Proof.
  intros [] Hp Hh Hn Hck He.
  assert (Hsplit : forall d, d ∈ calls s ++ [c] -> d ∈ calls s \/ d = c) by set_solver.
  constructor; cbn [cache calls clock accepted]; try done.
  - rewrite zsum_app. unfold zsum at 2. cbn. lia.
  - intros d [?| ->]%Hsplit; [auto|lia].
  - intros i j d1 d2 k H1 H2 K1 K2.
    apply lookup_app_Some in H1 as [H1|[_ H1%list_elem_of_lookup_2]]; [|set_solver].
    apply lookup_app_Some in H2 as [H2|[_ H2%list_elem_of_lookup_2]]; [|set_solver]. eauto.
  - intros d [?| ->]%Hsplit; [auto|lia].
  - intros d n e [?| ->]%Hsplit; [eauto|congruence].
  - intros d n e [?| ->]%Hsplit; eauto.
Qed.

Lemma sys_step_inv p s ev : sys_inv p s -> sys_inv p (sys_step p s ev).
Proof.
  intros I. destruct ev as [n| |d|i a b]; cbn.
  - unfold start_reserve. destruct (checked_add _ _ _) as [e|] eqn:He; apply sys_inv_start; try done; cbn.
    + apply checked_add_some in He as [-> _]. by intros ? ? [= _ <-].
    + by intros ? ? [= _ <-].
  - by apply sys_inv_start.
  - destruct I. constructor; cbn; try done.
    + intros c Hc. specialize (i_now0 c Hc). lia.
    + intros n b t H1 H2. apply (i_accepted0 n b t H1). lia.
  - destruct (calls s !! i) as [c|] eqn:Hc; [|done]. destruct (can_step (calls s) c) eqn:Hcan; [|done].
    pose proof (call_step_ok p s c a b I (list_elem_of_lookup_2 _ _ _ Hc)) as Hok.
    destruct (call_step p a b (cache s) c) as [ca' c']. by apply sys_inv_step.
Qed.

Lemma run_system_inv p evs : forall s, sys_inv p s -> sys_inv p (run_system p s evs).
Proof. induction evs as [|ev evs IH]; intros s I; [done|]. cbn. by apply IH, sys_step_inv. Qed.

Lemma initial_inv p c t : 0 <= capacity p -> new_cache p = Some c -> sys_inv p (initial_system c t).
Proof.
  unfold new_cache. intros Hcap. destruct (_ || _); [done|]. intros [= <-].
  assert (Hsh : forall k sh, replicate REPLAY_SHARDS empty_shard !! k = Some sh -> sh = empty_shard)
    by (intros k sh H%lookup_replicate; tauto).
  constructor; cbn [cache calls clock accepted initial_system]; try set_solver; try done.
  - constructor; cbn [shards]; [done| |].
    + intros k sh ->%Hsh. apply empty_shard_wf.
    + intros k sh n e ->%Hsh. cbn. by rewrite lookup_empty.
  - constructor.
Qed.

Definition finished (c : Call) : bool :=
  match pc c with PDone _ | PPurged _ => true | _ => false end.

Lemma finished_idle c : finished c = true -> pending c = 0.
Proof. unfold finished, pending. by destruct (pc c). Qed.

(** No deadlock: a holder of a mutex never waits for another one. *)
Lemma some_can_step cs c :
  c ∈ cs -> finished c = false -> exists d, d ∈ cs /\ finished d = false /\ can_step cs d = true.
Proof.
  intros Hc Hf. destruct (can_step cs c) eqn:Hcan; [eauto|]. unfold can_step in Hcan.
  destruct (wants c) as [k|]; [|done]. unfold lock_free in Hcan.
  assert (Hex : exists d, d ∈ cs /\ holds d = Some k).
  { clear Hc Hf. induction cs as [|d cs IH]; cbn in Hcan; [done|].
    case_bool_decide as Hd; [exists d; split; [left|done]|]. cbn in Hcan.
    destruct (IH Hcan) as (d' & ? & ?). exists d'. split; [by right|done]. }
  destruct Hex as (d & Hd & Hh). exists d. unfold holds, can_step, wants, finished in *.
  by destruct (pc d).
Qed.

Lemma sorted_pairs {A} (R : A -> A -> Prop) l i j x y :
  StronglySorted R l -> (i < j)%nat -> l !! i = Some x -> l !! j = Some y -> R x y.
Proof.
  intros Hs. revert i j. induction Hs as [|z l Hs IH Hall]; intros i j Hij Hx Hy; [done|].
  destruct j as [|j]; [lia|]. cbn in Hy. destruct i as [|i]; cbn in Hx.
  - simplify_eq. eapply Forall_forall; [exact Hall|by eapply list_elem_of_lookup_2].
  - apply (IH i j); [lia|done|done].
Qed.


Definition example_policy : CachePolicy := {| capacity := 2; retention := 10; instant_max := 1000 |}.

(** Two racing reservations of one nonce, interleaved in the middle of the
    first one's critical section. *)
Definition race_schedule : list Event :=
  EvReserve [x01] :: EvReserve [x01] ::
  map (fun i => EvStep i true true) [0%nat; 1%nat; 0%nat; 1%nat; 0%nat; 0%nat; 0%nat; 0%nat; 1%nat; 1%nat; 1%nat].


(** ** A reservation running alone *)

Fixpoint run_call (p : CachePolicy) (n : nat) (ca : ReplayCache) (c : Call) : ReplayCache * Call :=
  match n with
  | O => (ca, c)
  | S n => let '(ca, c) := call_step p true true ca c in run_call p n ca c
  end.

(** The longest path: two attempts around one sweep of the sixteen shards. *)
Definition RESERVE_STEPS : nat := 27.

(** [reserve_at], uncontended. *)
Definition reserve_at (p : CachePolicy) (ca : ReplayCache) (nonce : Nonce) (now : Z)
    : option ReplayFailure * ReplayCache :=
  let '(ca, c) := run_call p RESERVE_STEPS ca (start_reserve p nonce now) in
  match pc c with
  | PDone r => (r, ca)
  | _ => (Some FailCapacity, ca)
  end.

Lemma run_call_S p n ca c ca' c' :
  call_step p true true ca c = (ca', c') -> run_call p (S n) ca c = run_call p n ca' c'.
Proof. intros H. cbn. by rewrite H. Qed.

Lemma run_call_add p n m ca c : run_call p (n + m) ca c = let '(ca, c) := run_call p n ca c in run_call p m ca c.
Proof. revert ca c. induction n as [|n IH]; intros ca c; cbn; [done|]. by destruct (call_step p true true ca c). Qed.

Lemma run_call_done p n ca c r : pc c = PDone r -> run_call p n ca c = (ca, c).
Proof. intros Hc. induction n as [|n IH]; cbn; [done|]. unfold call_step. by rewrite Hc. Qed.

(** Nonces whose deadline has not passed. *)
Definition unexpired (ca : ReplayCache) (now : Z) : Z :=
  zsum (fun sh => Z.of_nat (size (filter (fun x => now < x.2) (entries sh)))) (shards ca).

Lemma filter_size_le (m : gmap Nonce Z) (now : Z) : (size (filter (fun x : Nonce * Z => (now < x.2)%Z) m) <= size m)%nat.
Proof. apply map_subseteq_size. apply map_filter_subseteq. Qed.

Lemma zsum_ext {A} (f g : A -> Z) l : (forall x, x ∈ l -> f x = g x) -> zsum f l = zsum g l.
Proof.
  unfold zsum. induction l as [|x l IH]; intros H; cbn; [done|].
  rewrite (H x) by (by left). rewrite IH; [done|]. intros y Hy. apply H. by right.
Qed.

Lemma zsum_le_in {A} (f g : A -> Z) l : (forall x, x ∈ l -> f x <= g x) -> zsum f l <= zsum g l.
Proof.
  unfold zsum. induction l as [|x l IH]; intros H; cbn; [done|].
  pose proof (H x ltac:(by left)). enough (foldr (fun x acc => f x + acc) 0 l <= foldr (fun x acc => g x + acc) 0 l) by lia.
  apply IH. intros y Hy. apply H. by right.
Qed.

Lemma unexpired_le ca now : unexpired ca now <= total ca.
Proof. apply zsum_le_in. intros sh _. unfold shard_size. pose proof (filter_size_le (entries sh) now). lia. Qed.

Lemma unexpired_all ca now :
  cache_wf ca -> (forall n e, live ca n = Some e -> now < e) -> total ca = unexpired ca now.
Proof.
  intros Hwf Hall. apply zsum_ext. intros sh (k & Hk)%list_elem_of_lookup. unfold shard_size. do 2 f_equal.
  symmetry. apply map_filter_id. intros n e Hn. cbn. apply (Hall n).
  pose proof (cw_home ca Hwf k sh n e Hk Hn) as <-. unfold live, shard_at. by rewrite Hk.
Qed.

Lemma purge_unexpired ca k now :
  cache_wf ca -> (k < REPLAY_SHARDS)%nat ->
  unexpired (set_shard ca k (purge_nonce_shard (shard_at ca k) now).1) now = unexpired ca now.
Proof.
  intros Hwf Hk. pose proof (shard_lookup ca k Hwf Hk) as Hsh.
  pose proof (purge_spec (shard_at ca k) now (cw_shard ca Hwf k _ Hsh)) as Hp.
  destruct (purge_nonce_shard (shard_at ca k) now) as [sh removed]. destruct Hp as (_ & He & _). cbn [fst].
  unfold unexpired. cbn [set_shard shards]. rewrite (zsum_insert _ _ _ _ sh Hsh).
  replace (filter _ (entries sh)) with (filter (fun x : Nonce * Z => now < x.2) (entries (shard_at ca k))); [lia|].
  apply map_eq. intros n. apply option_eq. intros e. rewrite !map_lookup_filter_Some, He. cbn. tauto.
Qed.

(** A quiescent cache: what a call finds and leaves when nothing else runs. *)
Record quiescent (p : CachePolicy) (ca : ReplayCache) : Prop := {
  q_wf : cache_wf ca;
  q_used : used ca = total ca;
  q_capacity : used ca <= capacity p;
}.

Lemma sub_if u r : (if r =? 0 then u else u - r) = u - r.
Proof. destruct (Z.eqb_spec r 0); lia. Qed.

(** The first three steps of an attempt: lock and purge, release, check. *)
Lemma run_check p ca c n e swept :
  quiescent p ca -> job c = JReserve n e -> pc c = PLock swept ->
  exists ca', quiescent p ca' /\ unexpired ca' (call_now c) = unexpired ca (call_now c) /\
    (forall m d, live ca' m = Some d <-> live ca m = Some d /\ (nonce_shard m = nonce_shard n -> call_now c < d)) /\
    run_call p 3 ca c = (ca', goto c
      (if bool_decide (is_Some (live ca' n)) then PDone (Some FailDuplicate)
       else if capacity p <=? used ca' then (if swept then PDone (Some FailCapacity) else PSweep 0 0)
       else PLoad swept)).
Proof.
  intros [Hwf Hu Hcap] Hjob Hpc. pose proof (nonce_shard_range n) as Hk.
  pose proof (purge_cache ca (nonce_shard n) (call_now c) Hwf Hk) as Hp.
  pose proof (purge_unexpired ca (nonce_shard n) (call_now c) Hwf Hk) as Hx.
  destruct (purge_nonce_shard (shard_at ca (nonce_shard n)) (call_now c)) as [sh removed] eqn:Epurge.
  cbn zeta in Hp. destruct Hp as (Hwf' & Htot & Hpos & Hlive). cbn [fst] in Hx.
  exists (set_used (set_shard ca (nonce_shard n) sh) (used ca - removed)). split_and!.
  - constructor; [by destruct Hwf'| |cbn; lia]. change (used ca - removed = total (set_shard ca (nonce_shard n) sh)). lia.
  - exact Hx.
  - exact Hlive.
  - erewrite run_call_S; cycle 1.
    { unfold call_step. rewrite Hpc, (reserve_shard c n e Hjob), Epurge. reflexivity. }
    erewrite run_call_S; cycle 1.
    { unfold call_step. cbn [pc goto]. rewrite sub_if. reflexivity. }
    cbn [run_call]. unfold call_step. cbn [pc goto job]. rewrite Hjob.
    replace (call_shard _) with (nonce_shard n) by (symmetry; by apply (reserve_shard _ n e)).
    cbn [used set_used set_shard]. unfold live.
    change (shard_at (set_used ?a ?b) ?k) with (shard_at a k).
    case_bool_decide; [done|]. by destruct (capacity p <=? used ca - removed).
Qed.

Lemma run_insert p ca c n e swept :
  quiescent p ca -> job c = JReserve n e -> pc c = PLoad swept -> live ca n = None -> used ca < capacity p ->
  exists ca', quiescent p ca' /\ live ca' n = Some e /\
    (forall m d, live ca m = Some d -> live ca' m = Some d) /\
    run_call p 3 ca c = (ca', goto c (PDone None)).
Proof.
  intros [Hwf Hu Hcap] Hjob Hpc Hnone Hlt.
  destruct (insert_cache ca n e Hwf Hnone) as (Hwf' & Htot & Hlive). eexists. split_and!; cycle 3.
  - erewrite run_call_S; cycle 1.
    { unfold call_step. rewrite Hpc. reflexivity. }
    erewrite run_call_S; cycle 1.
    { unfold call_step. cbn [pc goto].
      rewrite (proj2 (Z.leb_gt _ _)), Z.eqb_refl by lia. cbn [andb]. reflexivity. }
    cbn [run_call]. unfold call_step. cbn [pc goto job]. rewrite Hjob.
    replace (call_shard _) with (nonce_shard n) by (symmetry; by apply (reserve_shard _ n e)). reflexivity.
  - destruct Hwf'. constructor; [by constructor| |cbn; lia].
    change (shard_at (set_used ca (used ca + 1)) ?k) with (shard_at ca k). cbn [used set_shard set_used].
    rewrite Hu, <- Htot. done.
  - change (shard_at (set_used ca (used ca + 1)) ?k) with (shard_at ca k).
    specialize (Hlive n). rewrite decide_True in Hlive by done. exact Hlive.
  - change (shard_at (set_used ca (used ca + 1)) ?k) with (shard_at ca k).
    intros m d Hm. specialize (Hlive m). destruct (decide (n = m)); [congruence|]. by rewrite <- Hm.
Qed.

Lemma goto_same c x : pc c = x -> goto c x = c.
Proof. destruct c. cbn. by intros <-. Qed.

Lemma run_sweep_loop p n : forall k ca c acc,
  (n + k = REPLAY_SHARDS)%nat -> pc c = PSweep k acc -> cache_wf ca ->
  exists ca' acc', run_call p n ca c = (ca', goto c (PSweep REPLAY_SHARDS acc')) /\
    cache_wf ca' /\ used ca' = used ca /\ total ca' = total ca - (acc' - acc) /\
    unexpired ca' (call_now c) = unexpired ca (call_now c) /\
    (forall m d, live ca' m = Some d <-> live ca m = Some d /\ ((k <= nonce_shard m)%nat -> call_now c < d)).
Proof.
  induction n as [|n IH]; intros k ca c acc Hn Hpc Hwf.
  - assert (k = REPLAY_SHARDS) as -> by lia. exists ca, acc. split_and!; try done; [|lia|].
    + cbn. by rewrite goto_same.
    + intros m d. pose proof (nonce_shard_range m). split; [|tauto]. intros ?. split; [done|lia].
  - assert (Hk : (k < REPLAY_SHARDS)%nat) by lia.
    pose proof (purge_cache ca k (call_now c) Hwf Hk) as Hp.
    pose proof (purge_unexpired ca k (call_now c) Hwf Hk) as Hx.
    destruct (purge_nonce_shard (shard_at ca k) (call_now c)) as [sh removed] eqn:Epurge.
    cbn zeta in Hp. destruct Hp as (Hwf' & Htot & Hpos & Hlive). cbn [fst] in Hx.
    destruct (IH (S k) (set_shard ca k sh) (goto c (PSweep (S k) (acc + removed))) (acc + removed))
      as (ca' & acc' & Hrun & Hw & Hu & Ht & Hx' & Hl); [lia|done|done|].
    exists ca', acc'. split_and!; [|done|done|lia| |].
    + erewrite run_call_S; [exact Hrun|]. unfold call_step. rewrite Hpc. by rewrite decide_True, Epurge by done.
    + cbn [call_now goto] in Hx'. congruence.
    + intros m d. rewrite Hl, Hlive. cbn [call_now goto]. split.
      * intros [[H1 H2] H3]. split; [done|]. intros Hge. destruct (decide (nonce_shard m = k)); [auto|].
        apply H3. lia.
      * intros [H1 H2]. split_and!; [done|intros; apply H2; lia|intros; apply H2; lia].
Qed.

Lemma run_sweep p ca c n e :
  quiescent p ca -> job c = JReserve n e -> pc c = PSweep 0 0 ->
  exists ca', quiescent p ca' /\ run_call p 18 ca c = (ca', goto c (PLock true)) /\
    total ca' = unexpired ca (call_now c) /\ unexpired ca' (call_now c) = unexpired ca (call_now c) /\
    (forall m d, live ca' m = Some d <-> live ca m = Some d /\ call_now c < d).
Proof.
  intros [Hwf Hu Hcap] Hjob Hpc.
  destruct (run_sweep_loop p 16 0 ca c 0) as (ca' & acc' & Hrun & Hwf' & Hu' & Ht & Hx & Hl); [done..|].
  assert (Hlive : forall m d, live ca' m = Some d <-> live ca m = Some d /\ call_now c < d).
  { intros m d. rewrite Hl. split; [intros [? ?]; split; [done|] | tauto]. auto with lia. }
  assert (Hnow : forall m d, live ca' m = Some d -> call_now c < d) by (intros m d ?%Hlive; tauto).
  pose proof (unexpired_all ca' (call_now c) Hwf' Hnow) as Hall. pose proof (unexpired_le ca (call_now c)).
  exists (set_used ca' (used ca' - acc')). split_and!; try done.
  - constructor; [by destruct Hwf'| |]; [change (used ca' - acc' = total ca')|cbn]; lia.
  - change 18%nat with (16 + 2)%nat. rewrite run_call_add, Hrun.
    erewrite run_call_S; [|unfold call_step; cbn [pc goto]; by rewrite decide_False by (unfold REPLAY_SHARDS; lia)].
    erewrite run_call_S; [|unfold call_step; cbn [pc goto job]; rewrite Hjob, sub_if; reflexivity]. done.
  - change (total (set_used ca' _)) with (total ca'). lia.
Qed.

Definition is_live (ca : ReplayCache) (n : Nonce) (now : Z) : bool :=
  match live ca n with Some e => now <? e | None => false end.

(** What [reserve_at] decides, in terms of the unexpired nonces alone. *)
Definition spec_reserve (p : CachePolicy) (ca : ReplayCache) (n : Nonce) (now : Z) : option ReplayFailure :=
  if is_live ca n now then Some FailDuplicate
  else if unexpired ca now <? capacity p then None else Some FailCapacity.

Lemma is_live_true ca n now : is_live ca n now = true <-> exists e, live ca n = Some e /\ now < e.
Proof. unfold is_live. destruct (live ca n); [rewrite Z.ltb_lt|]; naive_solver. Qed.

(** An attempt from [PLock]: it ends the call, unless the cache is full and has
    not been swept yet. *)
Lemma run_attempt p ca c n e swept :
  quiescent p ca -> job c = JReserve n e -> pc c = PLock swept ->
  exists ca' x, quiescent p ca' /\ run_call p 6 ca c = run_call p 3 ca' (goto c x) /\
    unexpired ca' (call_now c) = unexpired ca (call_now c) /\
    (forall d, live ca' n = Some d <-> live ca n = Some d /\ call_now c < d) /\
    (forall m d, call_now c < d -> live ca m = Some d -> live ca' m = Some d) /\
    ((exists d, live ca n = Some d /\ call_now c < d) /\ x = PDone (Some FailDuplicate) \/
     live ca' n = None /\ used ca' < capacity p /\ x = PLoad swept \/
     live ca' n = None /\ capacity p <= used ca' /\
       x = (if swept then PDone (Some FailCapacity) else PSweep 0 0)) /\
    ((forall m d, live ca m = Some d -> call_now c < d) -> (forall m d, live ca' m = Some d -> call_now c < d)) .
Proof.
  intros Hq Hjob Hpc. destruct (run_check p ca c n e swept Hq Hjob Hpc) as (ca' & Hq' & Hx & Hl & Hrun).
  eexists ca', _. split_and!; [done| |done| | | |].
  - change 6%nat with (3 + 3)%nat. rewrite run_call_add, Hrun. reflexivity.
  - intros d. rewrite Hl. naive_solver.
  - intros m d Hlt Hm. apply Hl. auto.
  - case_bool_decide as Hd.
    + left. split; [|done]. destruct Hd as [d Hd]. exists d. apply Hl in Hd. naive_solver.
    + right. apply eq_None_not_Some in Hd. destruct (Z.leb_spec (capacity p) (used ca')); auto.
  - intros H m d Hm%Hl. naive_solver.
Qed.

Lemma reserve_at_spec p ca n now :
  quiescent p ca -> now + retention p <= instant_max p ->
  let '(r, ca') := reserve_at p ca n now in
  r = spec_reserve p ca n now /\ quiescent p ca' /\ (r = None -> live ca' n = Some (now + retention p)) /\
  (forall m d, now < d -> live ca m = Some d -> live ca' m = Some d).
Proof.
  intros Hq Hmax. unfold reserve_at, start_reserve, checked_add. rewrite (proj2 (Z.leb_le _ _)) by done.
  set (e := now + retention p). set (c := {| job := JReserve n e; call_now := now; pc := PLock false |}).
  unfold spec_reserve. change RESERVE_STEPS with (6 + 21)%nat. rewrite run_call_add.
  destruct (run_attempt p ca c n e false Hq) as (ca1 & x & Hq1 & -> & Hx1 & Hl1 & Hk1 & Hcase & _); [done..|].
  cbn [call_now c] in *.
  destruct Hcase as [[Hdup ->]|Hcase].
  { rewrite !(run_call_done _ _ _ _ (Some FailDuplicate)) by done. cbn [pc goto].
    rewrite (proj2 (is_live_true _ _ _)) by done. done. }
  destruct (is_live ca n now) eqn:Hlive0.
  { apply is_live_true in Hlive0 as (d & Hd%Hl1). destruct Hcase as [[? ?]|[? ?]]; congruence. }
  destruct Hcase as [(Hnone & Hlt & ->)|(Hnone & Hge & ->)].
  - destruct (run_insert p ca1 (goto c (PLoad false)) n e false) as (ca2 & Hq2 & Hlive & Hk2 & ->); [done..|].
    rewrite (run_call_done _ _ _ _ None) by done. cbn [pc goto].
    pose proof (unexpired_le ca1 now). pose proof (q_used _ _ Hq1).
    rewrite (proj2 (Z.ltb_lt _ _)) by lia. auto 10.
  - destruct (run_sweep p ca1 (goto c (PSweep 0 0)) n e) as (ca2 & Hq2 & Hrun2 & Ht2 & Hx2 & Hl2); [done..|].
    cbn [call_now c goto] in *.
    pose proof (run_call_add p 3 21 ca1 (goto c (PSweep 0 0))) as E1.
    pose proof (run_call_add p 18 6 ca1 (goto c (PSweep 0 0))) as E2. cbn [Nat.add] in E1, E2.
    rewrite <- E1, E2, Hrun2.
    destruct (run_attempt p ca2 (goto c (PLock true)) n e true Hq2) as (ca3 & y & Hq3 & Hrun3 & Hx3 & Hl3 & Hk3 & Hcase & Hall);
      [done..|]. cbn [call_now c goto] in *. change (goto (goto c ?a) ?b) with (goto c b) in *. rewrite Hrun3.
    assert (Hk : forall m d, now < d -> live ca m = Some d -> live ca3 m = Some d).
    { intros m d Hlt Hm. apply Hk3; [done|]. apply Hl2. auto. }
    assert (Hused3 : used ca3 = unexpired ca now).
    { rewrite (q_used _ _ Hq3), (unexpired_all ca3 now (q_wf _ _ Hq3)); [lia|]. apply Hall.
      intros m d Hm%Hl2. tauto. }
    destruct Hcase as [[(d & Hd & _) _]|[(Hnone3 & Hlt3 & ->)|(Hnone3 & Hge3 & ->)]].
    + apply Hl2 in Hd as [Hd _]. congruence.
    + destruct (run_insert p ca3 (goto c (PLoad true)) n e true) as (ca4 & Hq4 & Hlive & Hk4 & ->); [done..|].
      cbn [pc goto]. rewrite (proj2 (Z.ltb_lt _ _)) by lia. auto 10.
    + rewrite (run_call_done _ _ _ _ (Some FailCapacity)) by done. cbn [pc goto].
      rewrite (proj2 (Z.ltb_ge _ _)) by lia. done.
Qed.

(** A call that starts too close to the end of the clock fails at once. *)
Lemma reserve_at_deadline p ca n now :
  instant_max p < now + retention p -> reserve_at p ca n now = (Some FailDeadline, ca).
Proof.
  intros H. unfold reserve_at, start_reserve, checked_add. rewrite (proj2 (Z.leb_gt _ _)) by done.
  by rewrite (run_call_done _ _ _ _ (Some FailDeadline)).
Qed.

Lemma reserve_at_live p ca n now d :
  quiescent p ca -> live ca n = Some d -> now < d -> (reserve_at p ca n now).1 <> None.
Proof.
  intros Hq Hl Hlt. destruct (Z.le_gt_cases (now + retention p) (instant_max p)) as [Hmax|Hmax];
    [|by rewrite reserve_at_deadline].
  pose proof (reserve_at_spec p ca n now Hq Hmax) as H. destruct (reserve_at p ca n now) as [r ca'].
  destruct H as (-> & _). unfold spec_reserve. rewrite (proj2 (is_live_true _ _ _)) by eauto. done.
Qed.

(** ** Interface: what a protocol may assume of its replay guard *)

Class ReplayGuard (C : Type) := {
  rg_retention : Z;
  rg_ready : C -> Prop;
  rg_remembers : C -> Nonce -> Z -> Prop;
  rg_reserve : C -> Nonce -> Z -> option ReplayFailure * C;
  rg_ready_reserve : forall c n t, rg_ready c -> rg_ready (rg_reserve c n t).2;
  rg_reserved : forall c n t, rg_ready c -> (rg_reserve c n t).1 = None ->
    rg_remembers (rg_reserve c n t).2 n (t + rg_retention);
  rg_remembers_reserve : forall c n d m t, rg_ready c -> rg_remembers c n d -> t < d ->
    rg_remembers (rg_reserve c m t).2 n d;
  rg_rejects : forall c n d t, rg_ready c -> rg_remembers c n d -> t < d -> (rg_reserve c n t).1 <> None;
}.

(** A clock value inside the policy's range, or the deadline failure. *)
Lemma reserve_at_cases p ca n now :
  quiescent p ca ->
  reserve_at p ca n now = (Some FailDeadline, ca) \/
  (quiescent p (reserve_at p ca n now).2 /\
   ((reserve_at p ca n now).1 = None -> live (reserve_at p ca n now).2 n = Some (now + retention p)) /\
   (forall m d, now < d -> live ca m = Some d -> live (reserve_at p ca n now).2 m = Some d)).
Proof.
  intros Hq. destruct (Z.le_gt_cases (now + retention p) (instant_max p)) as [Hmax|Hmax];
    [|left; by apply reserve_at_deadline].
  right. pose proof (reserve_at_spec p ca n now Hq Hmax) as H. destruct (reserve_at p ca n now) as [r ca'].
  cbn. tauto.
Qed.

#[refine] Instance replay_guard (p : CachePolicy) : ReplayGuard ReplayCache := {
  rg_retention := retention p;
  rg_ready := quiescent p;
  rg_remembers ca n d := live ca n = Some d;
  rg_reserve := reserve_at p;
}.
Proof.
  - intros c n t Hq. destruct (reserve_at_cases p c n t Hq) as [->|(? & _)]; done.
  - intros c n t Hq Hr. destruct (reserve_at_cases p c n t Hq) as [E|(_ & H & _)]; [by rewrite E in Hr|auto].
  - intros c n d m t Hq Hl Hlt. destruct (reserve_at_cases p c m t Hq) as [->|(_ & _ & H)]; auto.
  - intros c n d t Hq Hl Hlt. by eapply reserve_at_live.
Defined.

(** An uncontended reservation does what the set of unexpired nonces says:
    from any state the concurrent cache can reach with no call running, it is a
    duplicate exactly when the nonce is stored and not expired, otherwise it is
    accepted exactly when fewer than [capacity] stored nonces are unexpired (the
    expired ones are swept first); and an accepted nonce is refused until its
    retention deadline. *)
Theorem reserve_refines_spec (p : CachePolicy) (c : ReplayCache) (t : Z) (evs : list Event) (n : Nonce) (now : Z) :
  0 < capacity p -> new_cache p = Some c ->
  let ca := cache (run_system p (initial_system c t) evs) in
  forallb finished (calls (run_system p (initial_system c t) evs)) = true ->
  now + retention p <= instant_max p ->
  let '(r, ca') := reserve_at p ca n now in
  r = spec_reserve p ca n now /\
  (r = None -> forall later, later < now + retention p -> (reserve_at p ca' n later).1 <> None).
Proof.
  intros Hcap Hnew ca Hfin Hmax. unfold ca.
  assert (I : sys_inv p (run_system p (initial_system c t) evs)) by (apply run_system_inv, initial_inv; [lia|done]).
  assert (Hq : quiescent p ca).
  { constructor; [apply (i_cache _ _ I)| |apply (i_capacity _ _ I)].
    rewrite (i_used _ _ I : used ca = _), zsum_zero; [unfold ca; lia|].
    intros x Hx%list_elem_of_In. rewrite forallb_forall in Hfin. by apply finished_idle, Hfin. }
  pose proof (reserve_at_spec p ca n now Hq Hmax) as H. fold ca. destruct (reserve_at p ca n now) as [r ca'].
  destruct H as (Hr & Hq' & Hl & _). split; [done|]. intros Hnone later Hlt. by eapply reserve_at_live; [|by apply Hl|].
Qed.
