(* ===== verification/UdpWire.v ===== *)
(** * Native UDP channel of Handoff ([src/protocol/handoff/udp/wire.rs],
      [src/protocol/handoff/keys.rs])

    Packet codec, OPEN key schedule and the per-session AEAD channel, over the
    cryptographic operations of [Crypto] and the replay structures of [Window]
    and [Replay]. *)

From S2P Require Import Prelude VlessRequest Xudp Crypto Window Replay.
#[local] Open Scope Z_scope.

Definition UDP_PROTOCOL_VERSION : byte := x01.
Definition SESSION_ID_LEN : Z := 8.
Definition HEADER_LEN : Z := 2 + SESSION_ID_LEN + 8.
Definition TAG_LEN : Z := 16.
Definition OPEN_NONCE_LEN : Z := 16.
Definition X25519_LEN : Z := 32.
Definition USER_ID_LEN : Z := 16.
Definition OPEN_CLEAR_LEN : Z := 8 + OPEN_NONCE_LEN + X25519_LEN.
Definition OPEN_FILTER_LEN : Z := 16.
Definition OPEN_SEALED_LEN : Z := HEADER_LEN + OPEN_CLEAR_LEN + USER_ID_LEN + TAG_LEN.
Definition OPEN_LEN : Z := OPEN_SEALED_LEN + OPEN_FILTER_LEN.
Definition MAX_UDP_PAYLOAD_LEN : Z := XUDP_MAX_PAYLOAD_LEN.
Definition MAX_ADDRESS_LEN : Z := 1 + 16 + 2.
Definition MAX_DATA_PLAINTEXT_LEN : Z := MAX_ADDRESS_LEN + MAX_UDP_PAYLOAD_LEN.
Definition FRAG_HEADER_LEN : Z := 6.
Definition ADDRESS_IPV4 : byte := x04.
Definition ADDRESS_IPV6 : byte := x06.
Definition HKDF_LABEL : list byte := bytes_of "rust-reality/handoff-udp/v1".
Definition OPEN_FILTER_LABEL : list byte := bytes_of "rust-reality/handoff-udp/v1/open-filter".

Inductive PacketType := PtOpen | PtOpenAck | PtData | PtFrag | PtProbe | PtProbeAck | PtClose.

#[export] Instance PacketType_eq_dec : EqDecision PacketType.
Proof. solve_decision. Defined.

Definition packet_type_byte (t : PacketType) : byte :=
  match t with
  | PtOpen => x01 | PtOpenAck => x02 | PtData => x03 | PtFrag => x04 | PtProbe => x05
  | PtProbeAck => x06 | PtClose => x07
  end.

Definition from_wire (value : byte) : option PacketType :=
  match value with
  | x01 => Some PtOpen | x02 => Some PtOpenAck | x03 => Some PtData | x04 => Some PtFrag
  | x05 => Some PtProbe | x06 => Some PtProbeAck | x07 => Some PtClose
  | _ => None
  end.

Inductive UdpPacketError :=
| ULength | UVersion | UType | UTimeWindow | UReplay | UAuthentication | UAddress | USession | UCounter
| URandom | UCrypto.

Definition parse_header (packet : list byte) : result UdpPacketError (PacketType * list byte * Z) :=
  guard! len packet <? HEADER_LEN + TAG_LEN else ULength;
  v ← index packet 0;
  guard! negb (bool_decide (v = UDP_PROTOCOL_VERSION)) else UVersion;
  tb ← index packet 1;
  packet_type ← ok_or UType (from_wire tb);
  session_id ← slice packet 2 (2 + SESSION_ID_LEN);
  counter ← slice packet (2 + SESSION_ID_LEN) HEADER_LEN;
  Ok (packet_type, session_id, from_be counter).

Definition encode_header (packet_type : PacketType) (session_id : list byte) (counter : Z) : list byte :=
  [UDP_PROTOCOL_VERSION; packet_type_byte packet_type] ++ session_id ++ to_be 8 counter.

Record UdpOpen := { uo_session_id : list byte; uo_user_id : list byte }.

Definition nonce_for (counter : Z) : list byte := replicate 4 x00 ++ to_be 8 counter.

(** [ChaCha20Poly1305::new_from_slice]: the cipher is its key. *)
Definition cipher (key : list byte) : result UdpPacketError (list byte) :=
  if len key =? 32 then Ok key else Err UCrypto.

Record UdpChannel := {
  uc_session_id : list byte;
  uc_send : list byte;
  uc_recv : list byte;
  uc_send_counter : Z;
  uc_window : ReplayWindow;
}.

Definition new_channel (session_id send recv : list byte) : result UdpPacketError UdpChannel :=
  s ← cipher send; r ← cipher recv;
  Ok {| uc_session_id := session_id; uc_send := s; uc_recv := r; uc_send_counter := 0;
        uc_window := new_window |}.

(** ** DATA plaintext *)

Inductive IpAddr := V4 (octets : list byte) | V6 (octets : list byte).
Record SocketAddr := { sa_ip : IpAddr; sa_port : Z }.

Definition is_unspecified (ip : IpAddr) : bool :=
  match ip with V4 o | V6 o => forallb (fun b => u8 b =? 0) o end.

(** The new contents of [output], which is cleared first. *)
Definition encode_data_plaintext (address : SocketAddr) (payload : list byte) : result UdpPacketError (list byte) :=
  guard! MAX_UDP_PAYLOAD_LEN <? len payload else ULength;
  guard! (sa_port address =? 0) || is_unspecified (sa_ip address) else UAddress;
  Ok (match sa_ip address with
      | V4 o => [ADDRESS_IPV4] ++ o
      | V6 o => [ADDRESS_IPV6] ++ o
      end ++ to_be 2 (sa_port address) ++ payload).

(** [rest.get(..n)] and [&rest[n..]]. *)
Definition split_get (n : Z) (rest : list byte) : result UdpPacketError (list byte * list byte) :=
  o ← ok_or ULength (get_range rest 0 n); t ← slice_from rest n; Ok (o, t).

Definition decode_data (plaintext : list byte) : result UdpPacketError (SocketAddr * list byte) :=
  match plaintext with
  | [] => Err ULength
  | family :: rest =>
    '(ip, rest) ←
      (if bool_decide (family = ADDRESS_IPV4) then '(o, t) ← split_get 4 rest; Ok (V4 o, t)
       else if bool_decide (family = ADDRESS_IPV6) then '(o, t) ← split_get 16 rest; Ok (V6 o, t)
       else Err UAddress);
    '(port, payload) ← split_get 2 rest;
    guard! (from_be port =? 0) || is_unspecified ip else UAddress;
    guard! MAX_UDP_PAYLOAD_LEN <? len payload else ULength;
    Ok ({| sa_ip := ip; sa_port := from_be port |}, payload)
  end.

Section Channel.
Context {C : CryptoOps}.

(** [seal_padded]: the new channel and the packet. [alloc] answers the
    [try_reserve] of the output buffer; the counter is spent on every path
    after the type check, as in the source. *)
Definition seal_padded (alloc : Z -> bool) (ch : UdpChannel) (packet_type : PacketType) (prefix : list byte)
    (total_len : Z) : result UdpPacketError (list byte) * UdpChannel :=
  if bool_decide (packet_type = PtOpen) then (Err UType, ch)
  else
    match checked_add U64_MAX (uc_send_counter ch) 1 with
    | None => (Err UCounter, ch)
    | Some counter =>
      let ch := {| uc_session_id := uc_session_id ch; uc_send := uc_send ch; uc_recv := uc_recv ch;
                   uc_send_counter := counter; uc_window := uc_window ch |} in
      let header := encode_header packet_type (uc_session_id ch) counter in
      let plain_len := Z.max (len prefix) (saturating_sub total_len (HEADER_LEN + TAG_LEN)) in
      if alloc (HEADER_LEN + plain_len + TAG_LEN) then
        let plain := prefix ++ replicate (Z.to_nat (plain_len - len prefix)) x00 in
        match aead_seal (uc_send ch) (nonce_for counter) header plain with
        | Some (body, tag) => (Ok (header ++ body ++ tag), ch)
        | None => (Err UCrypto, ch)
        end
      else (Err ULength, ch)
    end.

Definition seal (alloc : Z -> bool) (ch : UdpChannel) (packet_type : PacketType) (plaintext : list byte)
    : result UdpPacketError (list byte) * UdpChannel :=
  seal_padded alloc ch packet_type plaintext 0.

(** [open], up to the AEAD verdict: type, counter and plaintext. *)
Definition open_checked (ch : UdpChannel) (packet : list byte) : result UdpPacketError (PacketType * Z * list byte) :=
  '(packet_type, session_id, counter) ← parse_header packet;
  guard! bool_decide (packet_type = PtOpen) else UType;
  guard! negb (bytes_eqb session_id (uc_session_id ch)) else USession;
  guard! negb (check (uc_window ch) counter) else UReplay;
  header ← slice packet 0 HEADER_LEN;
  let body_end := len packet - TAG_LEN in
  tag ← slice_from packet body_end;
  body ← slice packet HEADER_LEN body_end;
  plaintext ← ok_or UAuthentication (aead_open (uc_recv ch) (nonce_for counter) header body tag);
  Ok (packet_type, counter, plaintext).

Definition open (ch : UdpChannel) (packet : list byte)
    : result UdpPacketError (PacketType * list byte) * UdpChannel :=
  match open_checked ch packet with
  | Err e => (Err e, ch)
  | Panic => (Panic, ch)
  | Ok (packet_type, counter, plaintext) =>
    match commit (uc_window ch) counter with
    | (false, w) => (Err UReplay, {| uc_session_id := uc_session_id ch; uc_send := uc_send ch; uc_recv := uc_recv ch;
                                     uc_send_counter := uc_send_counter ch; uc_window := w |})
    | (true, w) => (Ok (packet_type, plaintext),
        {| uc_session_id := uc_session_id ch; uc_send := uc_send ch; uc_recv := uc_recv ch;
           uc_send_counter := uc_send_counter ch; uc_window := w |})
    end
  end.

End Channel.

(** ** Landing keys ([keys.rs]) *)

Definition MAX_PREVIOUS_KEYS : Z := 2.

Section Keys.
Context {C : CryptoOps}.

Record HandoffLandingKeys := {
  active_psk : list byte;
  previous_psks : list (list byte);
  active_secret : Secret;
  previous_secrets : list Secret;
}.

Definition single (psk : list byte) (secret : Secret) : HandoffLandingKeys :=
  {| active_psk := psk; previous_psks := []; active_secret := secret; previous_secrets := [] |}.

Definition with_previous (psk : list byte) (psks : list (list byte)) (secret : Secret) (secrets : list Secret)
    : option HandoffLandingKeys :=
  if (MAX_PREVIOUS_KEYS <? len psks) || (MAX_PREVIOUS_KEYS <? len secrets) then None
  else Some {| active_psk := psk; previous_psks := psks; active_secret := secret; previous_secrets := secrets |}.

(** The cross product, active pair first. The index is the identity of the PSK,
    which the source compares by address. *)
Definition candidates (k : HandoffLandingKeys) : list (nat * list byte * Secret) :=
  concat (imap (fun i psk => (fun s => (i, psk, s)) <$> (active_secret k :: previous_secrets k))
               (active_psk k :: previous_psks k)).

Definition rotation_window_open (k : HandoffLandingKeys) : bool :=
  negb (bool_decide (previous_psks k = [])) || negb (len (previous_secrets k) =? 0).

End Keys.

(** ** OPEN *)

Record DerivedKeys := { dk_open : list byte; dk_line_to_landing : list byte; dk_landing_to_line : list byte }.

Section Open.
Context {C : CryptoOps}.

(** The key of the admission MAC. *)
Definition open_filter_mac (psk : list byte) : result UdpPacketError (list byte) :=
  ok_or UCrypto (hkdf OPEN_FILTER_LABEL psk [] 32).

(** [verify_truncated_left]: the tag is the first bytes of the MAC. *)
Definition open_filter_matches (psk packet : list byte) : result UdpPacketError bool :=
  match open_filter_mac psk with
  | Ok key =>
    sealed ← slice packet 0 OPEN_SEALED_LEN;
    filter ← slice packet OPEN_SEALED_LEN OPEN_LEN;
    Ok (bytes_eqb (take (Z.to_nat OPEN_FILTER_LEN) (hmac key sealed)) filter)
  | _ => Ok false
  end.

Definition derive_keys (open_clear shared psk landing_public : list byte) : result UdpPacketError DerivedKeys :=
  ephemeral ← slice_from open_clear (HEADER_LEN + 8 + OPEN_NONCE_LEN);
  okm ← ok_or UCrypto (hkdf (HKDF_LABEL ++ ephemeral ++ landing_public) (shared ++ psk)
                            (open_clear ++ landing_public) 96);
  k1 ← slice okm 0 32; k2 ← slice okm 32 64; k3 ← slice_from okm 64;
  Ok {| dk_open := k1; dk_line_to_landing := k2; dk_landing_to_line := k3 |}.

(** [seal_open]; the three random draws are inputs, [None] when the entropy
    source failed. *)
Definition seal_open (rand_session rand_nonce : option (list byte)) (rand_key : option Secret)
    (psk landing_public user_id : list byte) (timestamp : Z)
    : result UdpPacketError (list byte * UdpChannel) :=
  session_id ← ok_or URandom rand_session;
  open_nonce ← ok_or URandom rand_nonce;
  ephemeral ← ok_or URandom rand_key;
  let clear := encode_header PtOpen session_id 0 ++ to_be 8 timestamp ++ open_nonce ++ x25519_public ephemeral in
  shared ← ok_or UAuthentication (x25519_agree ephemeral landing_public);
  keys ← derive_keys clear shared psk landing_public;
  key ← cipher (dk_open keys);
  '(body, tag) ← ok_or UCrypto (aead_seal key (nonce_for 0) clear user_id);
  let output := clear ++ body ++ tag in
  mac ← open_filter_mac psk;
  filter ← slice (hmac mac output) 0 OPEN_FILTER_LEN;
  channel ← new_channel session_id (dk_line_to_landing keys) (dk_landing_to_line keys);
  Ok (output ++ filter, channel).

(** The candidates whose PSK made the admission tag. *)
Fixpoint admit_psks (cands : list (nat * list byte * Secret)) (packet : list byte)
    : result UdpPacketError (list nat) :=
  match cands with
  | [] => Ok []
  | (i, psk, _) :: cands =>
    b ← open_filter_matches psk packet;
    rest ← admit_psks cands packet;
    Ok (if (b : bool) then i :: rest else rest)
  end.

(** The trial loop over the candidates. *)
Fixpoint try_candidates (cands : list (nat * list byte * Secret)) (admitted : list nat)
    (session_id clear ephemeral body tag : list byte) : result UdpPacketError (UdpOpen * UdpChannel) :=
  match cands with
  | [] => Err UAuthentication
  | (i, psk, secret) :: cands =>
    if negb (bool_decide (i ∈ admitted)) then try_candidates cands admitted session_id clear ephemeral body tag
    else
      match x25519_agree secret ephemeral with
      | None => try_candidates cands admitted session_id clear ephemeral body tag
      | Some shared =>
        derived ← derive_keys clear shared psk (x25519_public secret);
        key ← cipher (dk_open derived);
        match aead_open key (nonce_for 0) clear body tag with
        | Some user_id =>
          channel ← new_channel session_id (dk_landing_to_line derived) (dk_line_to_landing derived);
          Ok ({| uo_session_id := session_id; uo_user_id := user_id |}, channel)
        | None => try_candidates cands admitted session_id clear ephemeral body tag
        end
      end
  end.

(** [accept_open] before the nonce is reserved: session id, cleartext, admitted
    PSKs and the nonce to reserve. *)
Definition accept_checks (packet : list byte) (keys : HandoffLandingKeys) (now maximum_time_difference : Z)
    : result UdpPacketError (list byte * list byte * list nat * list byte) :=
  guard! negb (len packet =? OPEN_LEN) else ULength;
  '(packet_type, session_id, counter) ← parse_header packet;
  guard! negb (bool_decide (packet_type = PtOpen)) || negb (counter =? 0) else UType;
  clear ← slice packet 0 (HEADER_LEN + OPEN_CLEAR_LEN);
  timestamp ← slice clear HEADER_LEN (HEADER_LEN + 8);
  guard! maximum_time_difference <? abs_diff (from_be timestamp) now else UTimeWindow;
  admitted ← admit_psks (candidates keys) packet;
  guard! bool_decide (admitted = []) else UAuthentication;
  open_nonce ← slice clear (HEADER_LEN + 8) (HEADER_LEN + 8 + OPEN_NONCE_LEN);
  Ok (session_id, clear, admitted, open_nonce).

(** ... and after it. *)
Definition accept_trials (packet : list byte) (keys : HandoffLandingKeys) (session_id clear : list byte)
    (admitted : list nat) : result UdpPacketError (UdpOpen * UdpChannel) :=
  ephemeral ← slice_from clear (HEADER_LEN + 8 + OPEN_NONCE_LEN);
  body ← slice packet (HEADER_LEN + OPEN_CLEAR_LEN) (HEADER_LEN + OPEN_CLEAR_LEN + USER_ID_LEN);
  tag ← slice packet (OPEN_SEALED_LEN - TAG_LEN) OPEN_SEALED_LEN;
  try_candidates (candidates keys) admitted session_id clear ephemeral body tag.

(** [instant] is the monotonic clock the replay cache reads. *)
Definition accept_open {G} `{ReplayGuard G} (packet : list byte) (keys : HandoffLandingKeys) (replay : G)
    (now maximum_time_difference instant : Z) : result UdpPacketError (UdpOpen * UdpChannel) * G :=
  match accept_checks packet keys now maximum_time_difference with
  | Err e => (Err e, replay)
  | Panic => (Panic, replay)
  | Ok (session_id, clear, admitted, open_nonce) =>
    match rg_reserve replay open_nonce instant with
    | (Some _, replay) => (Err UReplay, replay)
    | (None, replay) => (accept_trials packet keys session_id clear admitted, replay)
    end
  end.

End Open.

(** ** DATA round trip *)

Definition typed_addr (a : SocketAddr) : Prop :=
  u16_range (sa_port a) /\ match sa_ip a with V4 o => len o = 4 | V6 o => len o = 16 end.

Lemma split_get_enc o t n : n = len o -> split_get n (o ++ t) = Ok (o, t).
Proof.
  intros ->. unfold split_get. rewrite get_range_prefix by done. cbn -[slice_from].
  rewrite (slice_from_app o t) by done. done.
Qed.

Lemma split_get_inv n l o t : split_get n l = Ok (o, t) -> l = o ++ t /\ len o = n.
Proof.
  unfold split_get. intros H. inv_ok H. apply get_range_inv in Hstep as (H0 & Hn & Hl & Ho & Heq).
  rewrite Z.sub_0_r in Ho. cbn in Heq. rewrite Heq in Hstep0 at 1.
  erewrite (slice_from_app o (drop (Z.to_nat n) l)) in Hstep0 by lia. injection Hstep0 as <-. done.
Qed.

Lemma split_get_no_panic n l : 0 <= n -> no_panic (split_get n l).
Proof.
  intros Hn. unfold split_get. destruct (get_range l 0 n) eqn:H; [|done].
  apply get_range_inv in H as (_ & _ & Hl & _). cbn -[slice_from].
  apply no_panic_bind; [by apply slice_from_no_panic|]. done.
Qed.

(** The bytes of an address. *)
Definition ip_bytes (ip : IpAddr) : list byte := match ip with V4 o => [ADDRESS_IPV4] ++ o | V6 o => [ADDRESS_IPV6] ++ o end.

Lemma decode_data_enc a payload :
  typed_addr a -> sa_port a <> 0 -> is_unspecified (sa_ip a) = false -> len payload <= MAX_UDP_PAYLOAD_LEN ->
  decode_data (ip_bytes (sa_ip a) ++ to_be 2 (sa_port a) ++ payload) = Ok (a, payload).
Proof.
  intros [Hp Ha] H0 Hu Hl. destruct a as [[o|o] p]; cbn [sa_ip sa_port ip_bytes] in *; cbn [app decode_data].
  - rewrite (bool_decide_true (ADDRESS_IPV4 = _)) by done. rewrite (split_get_enc o) by done. cbn -[to_be len from_be is_unspecified MAX_UDP_PAYLOAD_LEN].
    rewrite split_get_enc by slen. cbn -[to_be len from_be is_unspecified MAX_UDP_PAYLOAD_LEN]. rewrite from_be_u16 by done. rewrite Hu, orb_false_r.
    rewrite (proj2 (Z.eqb_neq p 0)), (proj2 (Z.ltb_ge _ _)) by done. done.
  - rewrite (bool_decide_false (ADDRESS_IPV6 = ADDRESS_IPV4)), (bool_decide_true (ADDRESS_IPV6 = _)) by done.
    rewrite (split_get_enc o) by done. cbn -[to_be len from_be is_unspecified MAX_UDP_PAYLOAD_LEN].
    rewrite split_get_enc by slen. cbn -[to_be len from_be is_unspecified MAX_UDP_PAYLOAD_LEN]. rewrite from_be_u16 by done. rewrite Hu, orb_false_r.
    rewrite (proj2 (Z.eqb_neq p 0)), (proj2 (Z.ltb_ge _ _)) by done. done.
Qed.

Lemma encode_data_ok a payload l :
  encode_data_plaintext a payload = Ok l <->
  len payload <= MAX_UDP_PAYLOAD_LEN /\ sa_port a <> 0 /\ is_unspecified (sa_ip a) = false /\
  l = ip_bytes (sa_ip a) ++ to_be 2 (sa_port a) ++ payload.
Proof.
  unfold encode_data_plaintext. rewrite bind_ok. setoid_rewrite bind_ok. setoid_rewrite reject_ok.
  setoid_rewrite orb_false_iff. setoid_rewrite Z.ltb_ge. setoid_rewrite Z.eqb_neq.
  split.
  - intros (_ & ? & _ & [? ?] & [= <-]). done.
  - intros (? & ? & ? & ->). exists tt. split; [done|]. by exists tt.
Qed.

Lemma decode_data_inv l a payload :
  decode_data l = Ok (a, payload) ->
  typed_addr a /\ len payload <= MAX_UDP_PAYLOAD_LEN /\ sa_port a <> 0 /\ is_unspecified (sa_ip a) = false /\
  l = ip_bytes (sa_ip a) ++ to_be 2 (sa_port a) ++ payload.
Proof.
  intros H. destruct l as [|family rest]; [done|]. cbn [decode_data] in H.
  apply bind_ok in H as ([ip rest'] & Hip & H). apply bind_ok in H as ([port pl] & Hport & H). inv_ok H.
  apply split_get_inv in Hport as [-> Hlp]. apply orb_false_iff in Hstep as [Hp0%Z.eqb_neq Hu]. apply Z.ltb_ge in Hstep0.
  assert (Hfam : match ip with V4 o => len o = 4 | V6 o => len o = 16 end /\ family :: rest = ip_bytes ip ++ port ++ payload).
  { repeat case_bool_decide; [..|done]; apply bind_ok in Hip as ([o t] & Ho & Hip); injection Hip as <- ->;
      apply split_get_inv in Ho as [-> ?]; by subst. }
  destruct Hfam as [Hlen ->]. split_and!; [split; [by apply from_be_u16_range|done]|done|done|done|].
  cbn [sa_ip sa_port]. rewrite to_be_from_be by (unfold len in Hlp; lia). done.
Qed.

Lemma decode_data_no_panic l : no_panic (decode_data l).
Proof.
  destruct l as [|family rest]; [done|]. cbn [decode_data].
  apply no_panic_bind; [|intros [ip r] _; apply no_panic_bind; [by apply split_get_no_panic|]; intros [p pl] _].
  - repeat case_bool_decide; [..|done]; (apply no_panic_bind; [by apply split_get_no_panic|]); by intros [? ?] _.
  - do 2 (apply no_panic_guard; intros _). done.
Qed.

(** The DATA codec is exact: decoding never panics, and a plaintext decodes
    to an address and a payload exactly when encoding them yields that plaintext
    (so port zero, unspecified addresses, unknown families, truncation and
    oversized payloads are all refused on both sides). *)
Theorem udp_data_exact (l : list byte) (a : SocketAddr) (payload : list byte) :
  no_panic (decode_data l) /\
  (decode_data l = Ok (a, payload) <-> typed_addr a /\ encode_data_plaintext a payload = Ok l).
Proof.
  split; [apply decode_data_no_panic|]. rewrite encode_data_ok. split; [apply decode_data_inv|].
  intros (Ht & Hl & Hp & Hu & ->). by apply decode_data_enc.
Qed.

(** ** Header *)

Lemma from_wire_to t : from_wire (packet_type_byte t) = Some t.
Proof. by destruct t. Qed.

Lemma len_encode_header t sid c : len sid = SESSION_ID_LEN -> len (encode_header t sid c) = HEADER_LEN.
Proof. unfold encode_header, HEADER_LEN, SESSION_ID_LEN. intros. slen. Qed.

Lemma parse_header_enc t sid c rest :
  len sid = SESSION_ID_LEN -> u64_range c -> TAG_LEN <= len rest ->
  parse_header (encode_header t sid c ++ rest) = Ok (t, sid, c).
Proof.
  unfold SESSION_ID_LEN, TAG_LEN. intros Hs Hc Hr. unfold parse_header.
  rewrite guard_pass by (apply Z.ltb_ge; rewrite len_app, len_encode_header by done; unfold HEADER_LEN, SESSION_ID_LEN, TAG_LEN; lia).
  unfold encode_header. cbn [app]. rewrite <- app_assoc.
  read. rewrite guard_pass by (by rewrite bool_decide_true). read. rewrite from_wire_to. read.
  set (v := UDP_PROTOCOL_VERSION). set (tb := packet_type_byte t).
  rewrite (bind_step _ _ _ (slice_mid [v; tb] sid (to_be 8 c ++ rest) 2 _ eq_refl ltac:(rewrite Hs; reflexivity))).
  pose proof (slice_mid (E := UdpPacketError) (v :: tb :: sid) (to_be 8 c) rest (2 + SESSION_ID_LEN) HEADER_LEN
    ltac:(unfold SESSION_ID_LEN; slen) ltac:(unfold HEADER_LEN; slen)) as Hc8.
  cbn [app] in Hc8. rewrite (bind_step _ _ _ Hc8). by rewrite from_be_u64.
Qed.

(** ** Delivery over an unreliable path *)

Section Delivery.
Context {C : CryptoOps} {L : CryptoLaws C}.

(** What the receiver gets of a sealed message. *)
Definition plain_of (m : PacketType * list byte * Z) : list byte :=
  let '(_, prefix, total) := m in
  prefix ++ replicate (Z.to_nat (Z.max (len prefix) (saturating_sub total (HEADER_LEN + TAG_LEN)) - len prefix)) x00.

(** The packet [seal_padded] makes with a given counter. *)
Definition is_packet (key sid : list byte) (m : PacketType * list byte * Z) (c : Z) (packet : list byte) : Prop :=
  m.1.1 <> PtOpen /\ u64_range c /\
  exists body tag, aead_seal key (nonce_for c) (encode_header m.1.1 sid c) (plain_of m) = Some (body, tag) /\
    packet = encode_header m.1.1 sid c ++ body ++ tag.

(** One end seals, in order. *)
Fixpoint seal_all (alloc : Z -> bool) (ch : UdpChannel) (ms : list (PacketType * list byte * Z))
    : result UdpPacketError (list (list byte)) * UdpChannel :=
  match ms with
  | [] => (Ok [], ch)
  | (t, prefix, total) :: ms =>
    match seal_padded alloc ch t prefix total with
    | (Ok p, ch) => let '(r, ch) := seal_all alloc ch ms in (ps ← r; Ok (p :: ps), ch)
    | (Err e, ch) => (Err e, ch)
    | (Panic, ch) => (Panic, ch)
    end
  end.

(** The other end opens whatever arrives. *)
Fixpoint open_all (ch : UdpChannel) (ps : list (list byte))
    : list (result UdpPacketError (PacketType * list byte)) * UdpChannel :=
  match ps with
  | [] => ([], ch)
  | p :: ps => let '(r, ch) := open ch p in let '(rs, ch) := open_all ch ps in (r :: rs, ch)
  end.

Lemma seal_all_packets alloc ms : forall ch ps ch',
  0 <= uc_send_counter ch -> seal_all alloc ch ms = (Ok ps, ch') ->
  length ps = length ms /\
  forall i m p, ms !! i = Some m -> ps !! i = Some p ->
    is_packet (uc_send ch) (uc_session_id ch) m (uc_send_counter ch + 1 + Z.of_nat i) p.
Proof.
  induction ms as [|[[t prefix] total] ms IH]; intros ch ps ch' Hc H; cbn [seal_all] in H.
  - injection H as <- <-. done.
  - unfold seal_padded in H. case_bool_decide as Ht; [done|].
    destruct (checked_add _ _ _) as [counter|] eqn:Hadd; [|done]. apply checked_add_some in Hadd as [-> Hmax].
    cbn [uc_session_id uc_send] in H. destruct (alloc _); [|done].
    destruct (aead_seal _ _ _ _) as [[body tag]|] eqn:Hs; [|done].
    destruct (seal_all alloc _ ms) as [r ch''] eqn:Hrec. injection H as Hr _. apply bind_ok in Hr as (ps' & -> & [= <-]).
    apply IH in Hrec as [Hlen Hall]; [|cbn; lia]. split; [cbn; lia|].
    intros [|i] m p Hm Hp; cbn in Hm, Hp.
    + simplify_eq. split_and!; [done|unfold u64_range; lia|]. exists body, tag.
      rewrite Z.add_0_r. split; [exact Hs|done].
    + replace (uc_send_counter ch + 1 + Z.of_nat (S i)) with (uc_send_counter ch + 1 + 1 + Z.of_nat i) by lia.
      by apply (Hall i m p).
Qed.

(** Opening a genuine packet: exactly the replay decision of the window. *)
Lemma open_packet ch m c p :
  is_packet (uc_recv ch) (uc_session_id ch) m c p -> len (uc_session_id ch) = SESSION_ID_LEN ->
  open ch p =
    if check (uc_window ch) c then
      (Ok (m.1.1, plain_of m),
       {| uc_session_id := uc_session_id ch; uc_send := uc_send ch; uc_recv := uc_recv ch;
          uc_send_counter := uc_send_counter ch; uc_window := (commit (uc_window ch) c).2 |})
    else (Err UReplay, ch).
Proof.
  intros (Ht & Hc & body & tag & Hs & ->) Hsid. destruct (seal_len _ _ _ _ _ _ Hs) as [Hb Htag].
  pose proof (len_encode_header m.1.1 (uc_session_id ch) c Hsid) as Hh.
  set (h := encode_header m.1.1 (uc_session_id ch) c) in *. unfold open, open_checked.
  rewrite (bind_step _ (m.1.1, uc_session_id ch, c)) by (apply parse_header_enc; [done|done|unfold TAG_LEN; slen]).
  rewrite guard_pass by (by rewrite bool_decide_false). rewrite guard_pass by (by rewrite bytes_eqb_refl).
  destruct (check (uc_window ch) c) eqn:Hck; [|done]. rewrite guard_pass by done.
  pose proof (slice_mid (E := UdpPacketError) [] h (body ++ tag) 0 HEADER_LEN eq_refl ltac:(lia)) as H1. cbn [app] in H1.
  rewrite (bind_step _ _ _ H1).
  assert (H2 : (slice_from (h ++ body ++ tag) (len (h ++ body ++ tag) - TAG_LEN) : result UdpPacketError _) = Ok tag).
  { rewrite app_assoc. apply slice_from_app. unfold TAG_LEN. slen. }
  rewrite (bind_step _ _ _ H2).
  assert (H3 : (slice (h ++ body ++ tag) HEADER_LEN (len (h ++ body ++ tag) - TAG_LEN) : result UdpPacketError _) = Ok body).
  { apply slice_mid; [done|]. unfold TAG_LEN. slen. }
  rewrite (bind_step _ _ _ H3), (open_seal _ _ _ _ _ _ Hs). cbn -[commit].
  unfold commit. rewrite Hck. cbn [negb]. by destruct (highest _ <? c).
Qed.

Definition verdict (m : PacketType * list byte * Z) (accepted : bool) : result UdpPacketError (PacketType * list byte) :=
  if accepted then Ok (m.1.1, plain_of m) else Err UReplay.

Lemma open_all_refines (ms : list (PacketType * list byte * Z)) (ps : list (list byte)) order : forall ch seen,
  length ps = length ms -> len (uc_session_id ch) = SESSION_ID_LEN ->
  (forall i m p, ms !! i = Some m -> ps !! i = Some p ->
    is_packet (uc_recv ch) (uc_session_id ch) m (1 + Z.of_nat i) p) ->
  Forall (fun i => (i < length ms)%nat) order -> window_rel (uc_window ch) seen ->
  (open_all ch (omap (fun i => ps !! i) order)).1 =
    zip_with verdict (omap (fun i => ms !! i) order) (spec_commit_all seen ((fun i => 1 + Z.of_nat i) <$> order)).1.
Proof.
  induction order as [|i order IH]; intros ch seen Hlen Hsid Hpk Hr Hrel; [done|].
  inversion Hr as [|? ? Hi Hr']; subst.
  destruct (lookup_lt_is_Some_2 ms i Hi) as [m Hm]. rewrite <- Hlen in Hi.
  destruct (lookup_lt_is_Some_2 ps i Hi) as [p Hp]. cbn [omap list_omap fmap list_fmap]. rewrite Hm, Hp.
  cbn [open_all spec_commit_all].
  rewrite (open_packet ch m _ p (Hpk i m p Hm Hp) Hsid).
  pose proof (check_refines _ _ (1 + Z.of_nat i) Hrel ltac:(lia)) as Hck.
  destruct (commit_refines _ _ (1 + Z.of_nat i) Hrel ltac:(lia)) as [_ Hrel'].
  unfold spec_commit in *. rewrite Hck. destruct (spec_check seen (1 + Z.of_nat i)); cbn [snd] in Hrel'.
  - set (ch' := Build_UdpChannel _ _ _ _ _).
    specialize (IH ch' (1 + Z.of_nat i :: seen) Hlen Hsid Hpk Hr' Hrel').
    destruct (open_all ch' _), (spec_commit_all (_ :: seen) _). cbn in *. by rewrite IH.
  - specialize (IH ch seen Hlen Hsid Hpk Hr' Hrel).
    destruct (open_all ch _), (spec_commit_all seen _). cbn in *. by rewrite IH.
Qed.
End Delivery.

(** C28: the authenticated channel over a lossy, reordering, duplicating path
    delivers exactly what was sealed, each packet at most once. If one end seals
    a sequence of messages and the other end (same session, matching keys,
    fresh state) opens any selection of the packets in any order with any
    repetition, then each packet is answered with its own type and plaintext
    (padding included) when the set of counters accepted so far and the
    1024-counter window allow it, and with [Replay] otherwise. *)
Theorem udp_channel_delivery {C : CryptoOps} {L : CryptoLaws C} (alloc : Z -> bool) (tx rx : UdpChannel)
    (ms : list (PacketType * list byte * Z)) (ps : list (list byte)) (tx' : UdpChannel) (order : list nat) :
  uc_send_counter tx = 0 -> uc_window rx = new_window ->
  uc_recv rx = uc_send tx -> uc_session_id rx = uc_session_id tx -> len (uc_session_id tx) = SESSION_ID_LEN ->
  seal_all alloc tx ms = (Ok ps, tx') -> Forall (fun i => (i < length ms)%nat) order ->
  let counters := (fun i => 1 + Z.of_nat i) <$> order in
  (open_all rx (omap (fun i => ps !! i) order)).1 =
    zip_with verdict (omap (fun i => ms !! i) order) (spec_commit_all [] counters).1 /\
  NoDup (spec_commit_all [] counters).2.
Proof.
  intros H0 Hw Hkey Hsid Hl Hseal Hord counters.
  destruct (seal_all_packets alloc ms tx ps tx' ltac:(lia) Hseal) as [Hlen Hpk].
  split; [|apply spec_nodup; constructor].
  apply open_all_refines; [done|congruence| |done|rewrite Hw; apply new_window_rel].
  intros i m p Hm Hp. rewrite Hkey, Hsid. rewrite <- (Z.add_0_l 1), <- H0. by apply Hpk.
Qed.

Definition example_tx : UdpChannel :=
  {| uc_session_id := replicate 8 x05; uc_send := replicate 32 x01; uc_recv := replicate 32 x02;
     uc_send_counter := 0; uc_window := new_window |}.
Definition example_rx : UdpChannel :=
  {| uc_session_id := replicate 8 x05; uc_send := replicate 32 x02; uc_recv := replicate 32 x01;
     uc_send_counter := 0; uc_window := new_window |}.
Definition example_msgs : list (PacketType * list byte * Z) := [(PtData, [x61], 0); (PtProbe, [x62], 40)].

(** Packet 1 arrives first, then packet 0, then a duplicate of packet 1. *)
Lemma udp_channel_delivery_witness :
  exists ps tx', seal_all (fun _ => true) example_tx example_msgs = (Ok ps, tx') /\
  (open_all example_rx (omap (fun i => ps !! i) [1%nat; 0%nat; 1%nat])).1 =
    [Ok (PtProbe, x62 :: replicate 5 x00); Ok (PtData, [x61]); Err UReplay].
Proof.
  destruct (seal_all (fun _ => true) example_tx example_msgs) as [[ps| |] tx'] eqn:E; [|vm_compute in E; discriminate E..].
  exists ps, tx'. split; [reflexivity|].
  rewrite (proj1 (udp_channel_delivery (fun _ => true) example_tx example_rx example_msgs ps tx' [1%nat; 0%nat; 1%nat]
    eq_refl eq_refl eq_refl eq_refl eq_refl E
    ltac:(repeat constructor; cbn; lia))).
  vm_compute. reflexivity.
Defined.

(** ** Arbitrary packets *)

Lemma from_wire_inv b t : from_wire b = Some t -> b = packet_type_byte t.
Proof. destruct b; try discriminate; by intros [= <-]. Qed.

Lemma parse_header_inv p t sid c :
  parse_header p = Ok (t, sid, c) ->
  len sid = SESSION_ID_LEN /\ u64_range c /\ exists rest, TAG_LEN <= len rest /\ p = encode_header t sid c ++ rest.
Proof.
  unfold parse_header. intros H. apply bind_ok in H as (? & Hl%reject_ok%Z.ltb_ge & H).
  unfold HEADER_LEN, SESSION_ID_LEN, TAG_LEN in *. destruct p as [|v [|tb p]]; [slen..|].
  erewrite bind_step in H by reflexivity.
  apply bind_ok in H as (? & Hv%reject_ok%negb_false_iff%bool_decide_eq_true & H). subst v.
  erewrite bind_step in H by reflexivity. apply bind_ok in H as (t' & Ht%ok_or_ok%from_wire_inv & H). subst tb.
  apply bind_ok in H as (s & Hs & H). apply bind_ok in H as (cb & Hc & H). injection H as <- <- <-.
  apply (slice_tail [UDP_PROTOCOL_VERSION; packet_type_byte t']) in Hs as (r & -> & Hlen); [|done].
  apply (slice_tail (UDP_PROTOCOL_VERSION :: packet_type_byte t' :: s)) in Hc as (rest & -> & Hlc); [|slen].
  split_and!; [lia|apply from_be_u64_range; lia|]. exists rest. split; [slen|].
  unfold encode_header. rewrite to_be_from_be by (unfold len in Hlc; lia). cbn [app]. by rewrite <- app_assoc.
Qed.

Lemma parse_header_no_panic p : no_panic (parse_header p).
Proof.
  unfold parse_header, HEADER_LEN, SESSION_ID_LEN, TAG_LEN. apply no_panic_guard; intros ?. bounds. np.
Qed.

Section Forgery.
Context {C : CryptoOps}.

Lemma open_checked_no_panic ch p : no_panic (open_checked ch p).
Proof.
  unfold open_checked. apply no_panic_bind; [apply parse_header_no_panic|].
  intros [[t sid] c] H. apply parse_header_inv in H as (Hs & _ & rest & Hr & ->).
  pose proof (len_encode_header t sid c Hs) as Hh. unfold HEADER_LEN, SESSION_ID_LEN, TAG_LEN in *. np.
Qed.

Lemma open_checked_inv ch p t c pl :
  open_checked ch p = Ok (t, c, pl) ->
  t <> PtOpen /\ u64_range c /\ check (uc_window ch) c = true /\
  exists body tag, len tag = TAG_LEN /\ p = encode_header t (uc_session_id ch) c ++ body ++ tag /\
    aead_open (uc_recv ch) (nonce_for c) (encode_header t (uc_session_id ch) c) body tag = Some pl.
Proof.
  unfold open_checked. intros H. apply bind_ok in H as ([[t' sid] c'] & Hp & H).
  apply parse_header_inv in Hp as (Hs & Hc & rest & Hr & ->). pose proof (len_encode_header t' sid c' Hs) as Hh.
  apply bind_ok in H as (? & Ht%reject_ok%bool_decide_eq_false & H).
  apply bind_ok in H as (? & Hsid%reject_ok%negb_false_iff%bytes_eqb_eq & H). subst sid.
  apply bind_ok in H as (? & Hck%reject_ok%negb_false_iff & H).
  apply bind_ok in H as (h & Hhd & H). apply bind_ok in H as (tag & Htag & H).
  apply bind_ok in H as (body & Hbody & H). apply bind_ok in H as (x2 & Hopen%ok_or_ok & H). injection H as <- <- <-.
  apply (slice_tail []) in Hhd as (r & Heq & Hlh); [|done].
  apply app_inj_1 in Heq as [<- <-]; [|unfold len in *; lia].
  apply slice_tail in Hbody as (tg & -> & Hlb); [|done].
  unfold TAG_LEN, HEADER_LEN, SESSION_ID_LEN in *. rewrite app_assoc in Htag.
  rewrite (slice_from_app (encode_header t' (uc_session_id ch) c' ++ body) tg) in Htag by slen. injection Htag as <-.
  split_and!; [done|done|done|]. exists body, tg. split_and!; [slen|done|done].
Qed.

(** No packet moves the receiver except an authentic one. [open] never
    panics; whenever it fails the channel is exactly as it was, so a forgery or
    replay cannot advance or burn the window; and when it succeeds the packet is
    header, body and tag of this session under a counter the window had not
    accepted, and the AEAD opened it under that counter's nonce with the whole
    header authenticated. *)
Theorem udp_open_sound (ch : UdpChannel) (packet : list byte) :
  let '(r, ch') := open ch packet in
  match r with
  | Panic => False
  | Err _ => ch' = ch
  | Ok (t, plaintext) =>
    t <> PtOpen /\ uc_send_counter ch' = uc_send_counter ch /\
    exists c body tag, check (uc_window ch) c = true /\
      packet = encode_header t (uc_session_id ch) c ++ body ++ tag /\ len tag = TAG_LEN /\
      aead_open (uc_recv ch) (nonce_for c) (encode_header t (uc_session_id ch) c) body tag = Some plaintext /\
      uc_window ch' = (commit (uc_window ch) c).2
  end.
Proof.
  unfold open. pose proof (open_checked_no_panic ch packet) as Hnp.
  destruct (open_checked ch packet) as [[[t c] pl]|e|] eqn:H; [|done|done].
  apply open_checked_inv in H as (Ht & Hc & Hck & body & tag & Htl & Hpk & Ho).
  assert (Hcm : commit (uc_window ch) c = (true, (commit (uc_window ch) c).2))
    by (unfold commit; rewrite Hck; cbn [negb]; done).
  rewrite Hcm. cbn. split_and!; [done|done|]. exists c, body, tag. rewrite Hcm. split_and!; try done.
Qed.
End Forgery.

(** ** The OPEN handshake *)

Section Handshake.
Context {C : CryptoOps} {L : CryptoLaws C}.

Definition open_clear (sid : list byte) (timestamp : Z) (nonce eph_public : list byte) : list byte :=
  encode_header PtOpen sid 0 ++ to_be 8 timestamp ++ nonce ++ eph_public.

(** Lengths of the parts of an OPEN. *)
Ltac open_lens :=
  unfold OPEN_LEN, OPEN_SEALED_LEN, OPEN_CLEAR_LEN, OPEN_FILTER_LEN, OPEN_NONCE_LEN, X25519_LEN, USER_ID_LEN,
    HEADER_LEN, SESSION_ID_LEN, TAG_LEN in *; slen.

Lemma derive_keys_len clear shared psk pub dk :
  derive_keys clear shared psk pub = Ok dk ->
  len (dk_open dk) = 32 /\ len (dk_line_to_landing dk) = 32 /\ len (dk_landing_to_line dk) = 32.
Proof.
  unfold derive_keys. intros H. inv_ok H. apply hkdf_len in Hstep0.
  apply slice_ok, get_range_inv in Hstep1 as (_ & _ & _ & ? & _).
  apply slice_ok, get_range_inv in Hstep2 as (_ & _ & _ & ? & _).
  unfold slice_from in Hstep3. apply slice_ok, get_range_inv in Hstep3 as (_ & _ & _ & ? & _). cbn. lia.
Qed.

Lemma new_channel_ok sid s r :
  len s = 32 -> len r = 32 ->
  new_channel sid s r = Ok {| uc_session_id := sid; uc_send := s; uc_recv := r; uc_send_counter := 0; uc_window := new_window |}.
Proof. intros Hs Hr. unfold new_channel, cipher. by rewrite Hs, Hr. Qed.

(** What a successful [seal_open] made. *)
Lemma seal_open_inv sid nonce eph psk pub user ts packet line :
  seal_open (Some sid) (Some nonce) (Some eph) psk pub user ts = Ok (packet, line) ->
  exists shared dk body tag mac,
    x25519_agree eph pub = Some shared /\
    derive_keys (open_clear sid ts nonce (x25519_public eph)) shared psk pub = Ok dk /\
    aead_seal (dk_open dk) (nonce_for 0) (open_clear sid ts nonce (x25519_public eph)) user = Some (body, tag) /\
    open_filter_mac psk = Ok mac /\
    packet = (open_clear sid ts nonce (x25519_public eph) ++ body ++ tag) ++
      take 16 (hmac mac (open_clear sid ts nonce (x25519_public eph) ++ body ++ tag)) /\
    line = {| uc_session_id := sid; uc_send := dk_line_to_landing dk; uc_recv := dk_landing_to_line dk;
              uc_send_counter := 0; uc_window := new_window |}.
Proof.
  unfold seal_open, open_clear. intros H. do 3 (erewrite bind_step in H by reflexivity).
  set (clear := encode_header _ _ _ ++ _) in *.
  apply bind_ok in H as (shared & Hsh%ok_or_ok & H). apply bind_ok in H as (dk & Hdk & H).
  destruct (derive_keys_len _ _ _ _ _ Hdk) as (H1 & H2 & H3). unfold cipher in H at 1. rewrite H1 in H. cbn [Z.eqb Pos.eqb] in H.
  erewrite bind_step in H by reflexivity. apply bind_ok in H as ([body tag] & Hseal%ok_or_ok & H).
  apply bind_ok in H as (mac & Hmac & H). apply bind_ok in H as (filter & Hf & H).
  rewrite new_channel_ok in H by done. injection H as <- <-.
  exists shared, dk, body, tag, mac. split_and!; try done. f_equal.
  apply slice_ok in Hf. rewrite get_range_some in Hf by (rewrite ?hmac_len; unfold OPEN_FILTER_LEN; lia).
  by injection Hf as <-.
Qed.

Lemma filter_matches_total psk packet :
  len packet = OPEN_LEN -> exists b, open_filter_matches psk packet = Ok b.
Proof.
  intros Hl. unfold open_filter_matches. destruct (open_filter_mac psk); eauto.
  unfold slice. rewrite !get_range_some by open_lens. cbn. eauto.
Qed.

Lemma admit_total cands packet :
  len packet = OPEN_LEN -> exists adm, admit_psks cands packet = Ok adm.
Proof.
  intros Hl. induction cands as [|[[i psk] s] cands [adm IH]]; cbn; [eauto|].
  destruct (filter_matches_total psk packet Hl) as [b ->]. rewrite IH. cbn. eauto.
Qed.

Lemma filter_matches_own psk mac output :
  open_filter_mac psk = Ok mac -> len output = OPEN_SEALED_LEN ->
  open_filter_matches psk (output ++ take 16 (hmac mac output)) = Ok true.
Proof.
  intros Hmac Hl. unfold open_filter_matches. rewrite Hmac.
  pose proof (slice_mid (E := UdpPacketError) [] output (take 16 (hmac mac output)) 0 OPEN_SEALED_LEN eq_refl ltac:(lia)) as H1.
  cbn [app] in H1. rewrite (bind_step _ _ _ H1).
  assert (Hf : len (take 16 (hmac mac output)) = 16) by (rewrite len_take, hmac_len; lia).
  assert (H2 : (slice (output ++ take 16 (hmac mac output)) OPEN_SEALED_LEN OPEN_LEN : result UdpPacketError _)
    = Ok (take 16 (hmac mac output))).
  { rewrite <- (app_nil_r (take 16 _)) at 1. apply slice_mid; [done|]. rewrite Hf. done. }
  rewrite (bind_step _ _ _ H2). by rewrite bytes_eqb_refl.
Qed.

Lemma candidates_head keys : exists rest, candidates keys = (0%nat, active_psk keys, active_secret keys) :: rest.
Proof. unfold candidates. cbn. eauto. Qed.

(** The checks before the reservation pass on a genuine OPEN. *)
Lemma accept_checks_open sid nonce eph ts psk mac body tag keys now d :
  len sid = SESSION_ID_LEN -> len nonce = OPEN_NONCE_LEN -> u64_range ts -> len body = USER_ID_LEN -> len tag = TAG_LEN ->
  abs_diff ts now <= d -> open_filter_mac psk = Ok mac -> active_psk keys = psk ->
  let clear := open_clear sid ts nonce (x25519_public eph) in
  exists adm, accept_checks ((clear ++ body ++ tag) ++ take 16 (hmac mac (clear ++ body ++ tag))) keys now d
    = Ok (sid, clear, 0%nat :: adm, nonce).
Proof.
  intros Hsid Hnonce Hts Hbody Htag Htime Hmac Hpsk clear.
  pose proof (len_encode_header PtOpen sid 0 Hsid) as Hh. pose proof (public_len eph) as Hpub.
  assert (Hclear : len clear = HEADER_LEN + OPEN_CLEAR_LEN) by (unfold clear, open_clear; open_lens).
  set (output := clear ++ body ++ tag).
  assert (Hout : len output = OPEN_SEALED_LEN) by (unfold output; open_lens).
  set (filter := take 16 (hmac mac output)).
  assert (Hf : len filter = 16) by (unfold filter; rewrite len_take, hmac_len; lia).
  assert (Hl : len (output ++ filter) = OPEN_LEN) by open_lens.
  assert (Hadm : exists adm, admit_psks (candidates keys) (output ++ filter) = Ok (0%nat :: adm)).
  { destruct (candidates_head keys) as [rest ->]. rewrite Hpsk. cbn [admit_psks]. rewrite (filter_matches_own psk mac output Hmac Hout : open_filter_matches psk (output ++ filter) = _).
    destruct (admit_total rest (output ++ filter) Hl) as [adm ->]. cbn. eauto. }
  destruct Hadm as [adm Hadm]. exists adm. unfold accept_checks.
  rewrite guard_pass by (apply negb_false_iff, Z.eqb_eq; done).
  assert (Hp : parse_header (output ++ filter) = Ok (PtOpen, sid, 0)).
  { unfold output, clear, open_clear. rewrite <- !app_assoc. apply parse_header_enc; [done|unfold u64_range, U64_MAX; lia|].
    clear - Hf Htag. unfold TAG_LEN in *. slen. }
  rewrite (bind_step _ _ _ Hp). rewrite guard_pass by done.
  assert (H1 : (slice (output ++ filter) 0 (HEADER_LEN + OPEN_CLEAR_LEN) : result UdpPacketError _) = Ok clear).
  { unfold output. rewrite <- !app_assoc. apply (slice_mid []); [done|lia]. }
  rewrite (bind_step _ _ _ H1).
  assert (H2 : (slice clear HEADER_LEN (HEADER_LEN + 8) : result UdpPacketError _) = Ok (to_be 8 ts)).
  { unfold clear, open_clear. apply slice_mid; [done|slen]. }
  rewrite (bind_step _ _ _ H2), from_be_u64 by done. rewrite guard_pass by (apply Z.ltb_ge; done).
  rewrite (bind_step _ _ _ Hadm). rewrite guard_pass by done.
  assert (H3 : (slice clear (HEADER_LEN + 8) (HEADER_LEN + 8 + OPEN_NONCE_LEN) : result UdpPacketError _) = Ok nonce).
  { unfold clear, open_clear. rewrite app_assoc. apply slice_mid; [slen|slen]. }
  by rewrite (bind_step _ _ _ H3).
Qed.
End Handshake.

(** The OPEN handshake establishes one shared session. When LINE's
    [seal_open] succeeds towards the active key of a LANDING (whatever retired
    keys it also accepts), the clocks agree within policy and the replay guard
    takes the nonce, then [accept_open] on that packet succeeds: LANDING learns
    the session id and user LINE sealed, and the two channels start fresh with
    each side's receive key equal to the other side's send key. *)
Theorem udp_open_handshake {C : CryptoOps} {L : CryptoLaws C} {G} `{ReplayGuard G}
    (sid nonce psk user : list byte) (eph : Secret) (keys : HandoffLandingKeys) (ts now d instant : Z)
    (replay replay' : G) (packet : list byte) (line : UdpChannel) :
  len sid = SESSION_ID_LEN -> len nonce = OPEN_NONCE_LEN -> len user = USER_ID_LEN -> u64_range ts ->
  active_psk keys = psk -> abs_diff ts now <= d ->
  seal_open (Some sid) (Some nonce) (Some eph) psk (x25519_public (active_secret keys)) user ts = Ok (packet, line) ->
  rg_reserve replay nonce instant = (None, replay') ->
  exists landing,
    accept_open packet keys replay now d instant =
      (Ok ({| uo_session_id := sid; uo_user_id := user |}, landing), replay') /\
    uc_recv landing = uc_send line /\ uc_send landing = uc_recv line /\
    uc_session_id landing = sid /\ uc_session_id line = sid /\
    uc_send_counter landing = 0 /\ uc_send_counter line = 0 /\
    uc_window landing = new_window /\ uc_window line = new_window.
Proof.
  intros Hsid Hnonce Huser Hts Hpsk Htime Hseal Hres.
  apply seal_open_inv in Hseal as (shared & dk & body & tag & mac & Hsh & Hdk & Haead & Hmac & -> & ->).
  destruct (seal_len _ _ _ _ _ _ Haead) as [Hbody Htag]. destruct (derive_keys_len _ _ _ _ _ Hdk) as (H1 & H2 & H3).
  destruct (accept_checks_open sid nonce eph ts psk mac body tag keys now d) as [adm Hck];
    [done|done|done|lia|done|done|done|done|]. cbn zeta in Hck.
  set (clear := open_clear sid ts nonce (x25519_public eph)) in *.
  pose proof (len_encode_header PtOpen sid 0 Hsid) as Hh. pose proof (public_len eph) as Hpub.
  assert (Hclear : len clear = 74)
    by (unfold clear, open_clear, HEADER_LEN, SESSION_ID_LEN, OPEN_NONCE_LEN in *; slen).
  unfold accept_open. rewrite Hck, Hres.
  exists {| uc_session_id := sid; uc_send := dk_landing_to_line dk; uc_recv := dk_line_to_landing dk;
            uc_send_counter := 0; uc_window := new_window |}.
  split; [f_equal|by cbn; split_and!].
  - unfold accept_trials.
    assert (E1 : (slice_from clear (HEADER_LEN + 8 + OPEN_NONCE_LEN) : result UdpPacketError _) = Ok (x25519_public eph)).
    { unfold clear, open_clear. rewrite !app_assoc. apply slice_from_app.
      unfold HEADER_LEN, SESSION_ID_LEN, OPEN_NONCE_LEN in *. slen. }
    rewrite (bind_step _ _ _ E1). rewrite <- !app_assoc.
    erewrite bind_step by (apply slice_mid; [rewrite Hclear; reflexivity|rewrite Hbody, Huser; reflexivity]).
    rewrite (app_assoc clear).
    erewrite bind_step by (apply slice_mid; [rewrite len_app, Hclear, Hbody, Huser; reflexivity|rewrite Htag; reflexivity]).
    destruct (candidates_head keys) as [rest ->]. cbn [try_candidates]. rewrite bool_decide_true by left.
    cbn [negb]. rewrite agree_comm, Hsh, Hpsk. rewrite (bind_step _ _ _ Hdk).
    unfold cipher. rewrite H1. erewrite bind_step by reflexivity. rewrite (open_seal _ _ _ _ _ _ Haead).
    rewrite new_channel_ok by done. reflexivity.
Qed.

Definition example_keys : HandoffLandingKeys (C := toy_ops) :=
  {| active_psk := replicate 32 x09; previous_psks := [replicate 32 x08]; active_secret := x07; previous_secrets := [x06] |}.

#[local] Instance example_guard : ReplayGuard ReplayCache := replay_guard example_policy.

Definition example_cache : ReplayCache := {| shards := replicate REPLAY_SHARDS empty_shard; used := 0 |}.

Lemma udp_open_handshake_witness :
  exists packet line landing,
    seal_open (C := toy_ops) (Some (replicate 8 x01)) (Some (replicate 16 x02)) (Some x03) (replicate 32 x09)
      (x25519_public (CryptoOps := toy_ops) x07) (replicate 16 x04) 1000 = Ok (packet, line) /\
    (accept_open packet example_keys example_cache 1010 30 5).1 =
      Ok ({| uo_session_id := replicate 8 x01; uo_user_id := replicate 16 x04 |}, landing) /\
    uc_recv landing = uc_send line.
Proof.
  destruct (seal_open (C := toy_ops) (Some (replicate 8 x01)) (Some (replicate 16 x02)) (Some x03) (replicate 32 x09)
    (x25519_public (CryptoOps := toy_ops) x07) (replicate 16 x04) 1000) as [[packet line]| |] eqn:E;
    [|vm_compute in E; discriminate E..].
  destruct (udp_open_handshake (C := toy_ops) (replicate 8 x01) (replicate 16 x02) (replicate 32 x09) (replicate 16 x04) x03 example_keys
    1000 1010 30 5 example_cache (rg_reserve example_cache (replicate 16 x02) 5).2 packet line
    eq_refl eq_refl eq_refl ltac:(unfold u64_range, U64_MAX; lia) eq_refl ltac:(vm_compute; discriminate) E
    ltac:(vm_compute; reflexivity)) as (landing & Ha & Hk & _).
  exists packet, line, landing. rewrite Ha. split_and!; [reflexivity|reflexivity|exact Hk].
Defined.

(** ** Replayed and unauthenticated OPENs *)

Section Once.
Context {C : CryptoOps} {G : Type} `{RG : ReplayGuard G}.

(** The nonce is a field of the packet, whatever keys and clocks judge it. *)
Lemma accept_checks_nonce packet keys now d sid clear adm nonce :
  accept_checks packet keys now d = Ok (sid, clear, adm, nonce) ->
  (slice packet 0 (HEADER_LEN + OPEN_CLEAR_LEN) : result UdpPacketError _) = Ok clear /\
  (slice clear (HEADER_LEN + 8) (HEADER_LEN + 8 + OPEN_NONCE_LEN) : result UdpPacketError _) = Ok nonce /\
  admit_psks (candidates keys) packet = Ok adm /\ adm <> [].
Proof.
  unfold accept_checks. intros H. apply bind_ok in H as (? & _ & H). apply bind_ok in H as ([[t s] c] & _ & H).
  apply bind_ok in H as (? & _ & H). apply bind_ok in H as (cl & Hcl & H). apply bind_ok in H as (ts & _ & H).
  apply bind_ok in H as (? & _ & H). apply bind_ok in H as (ad & Had & H).
  apply bind_ok in H as (? & Hne%reject_ok%bool_decide_eq_false & H).
  apply bind_ok in H as (nn & Hnn & H). injection H as <- <- <- <-. done.
Qed.

Record Arrival := { ar_packet : list byte; ar_keys : HandoffLandingKeys; ar_now : Z; ar_diff : Z; ar_instant : Z }.

Definition accept_arrival (replay : G) (a : Arrival) : G :=
  (accept_open (ar_packet a) (ar_keys a) replay (ar_now a) (ar_diff a) (ar_instant a)).2.

Lemma accept_open_cache packet keys replay now d t :
  (accept_open packet keys replay now d t).2 = replay \/
  exists nonce, (accept_open packet keys replay now d t).2 = (rg_reserve replay nonce t).2.
Proof.
  unfold accept_open. destruct (accept_checks packet keys now d) as [[[[sid clear] adm] nonce]| |]; auto.
  right. exists nonce. by destruct (rg_reserve replay nonce t) as [[f|] r].
Qed.

Lemma arrivals_remember later : forall replay nonce deadline,
  rg_ready replay -> rg_remembers replay nonce deadline ->
  Forall (fun a => ar_instant a < deadline) later ->
  rg_ready (foldl accept_arrival replay later) /\ rg_remembers (foldl accept_arrival replay later) nonce deadline.
Proof.
  induction later as [|a later IH]; intros replay nonce deadline Hr Hm Hall; [done|].
  inversion Hall; subst. cbn [foldl]. unfold accept_arrival at 2 4.
  destruct (accept_open_cache (ar_packet a) (ar_keys a) replay (ar_now a) (ar_diff a) (ar_instant a)) as [->|[n ->]];
    apply IH; try done; [by apply rg_ready_reserve|by apply rg_remembers_reserve].
Qed.

Lemma admit_none cands packet :
  (forall i psk s, (i, psk, s) ∈ cands -> open_filter_matches psk packet <> Ok true) ->
  forall adm, admit_psks cands packet = Ok adm -> adm = [].
Proof.
  induction cands as [|[[i psk] s] cands IH]; intros Hno adm H; cbn in H; [by injection H as <-|].
  apply bind_ok in H as (b & Hb & H). apply bind_ok in H as (rest & Hrest & H).
  assert (b = false) as -> by (destruct b; [|done]; by destruct (Hno i psk s ltac:(left))).
  injection H as <-. apply IH; [|done]. intros j p s' Hin. apply (Hno j p s'). by right.
Qed.

(** An OPEN is accepted at most once per retention period, and only holders
    of a configured PSK consume replay capacity. After [accept_open] succeeded,
    whatever other packets are judged meanwhile (with any keys, clocks and
    windows), the same packet is not accepted again before its deadline; and a
    packet without a valid admission tag leaves the replay cache untouched. *)
Theorem udp_open_once (packet : list byte) (keys keys' : HandoffLandingKeys) (replay replay1 : G)
    (now now' d d' t t' : Z) (opened : UdpOpen * UdpChannel) (later : list Arrival) :
  rg_ready replay -> accept_open packet keys replay now d t = (Ok opened, replay1) ->
  Forall (fun a => ar_instant a < t + rg_retention) later -> t' < t + rg_retention ->
  is_ok (accept_open packet keys' (foldl accept_arrival replay1 later) now' d' t').1 = false /\
  (forall forged cache, (forall i psk s, (i, psk, s) ∈ candidates keys -> open_filter_matches psk forged <> Ok true) ->
     (accept_open forged keys cache now d t).2 = cache).
Proof.
  intros Hready Hacc Hlater Ht'. split.
  - unfold accept_open in Hacc. destruct (accept_checks packet keys now d) as [[[[sid clear] adm] nonce]| |] eqn:Hck; [|done..].
    apply accept_checks_nonce in Hck as (Hcl & Hnn & _).
    destruct (rg_reserve replay nonce t) as [[f|] r] eqn:Hres; [done|]. injection Hacc as _ <-.
    pose proof (rg_reserved replay nonce t Hready) as Hrem. rewrite Hres in Hrem. specialize (Hrem eq_refl).
    pose proof (rg_ready_reserve replay nonce t Hready) as Hr. rewrite Hres in Hr.
    destruct (arrivals_remember later r nonce _ Hr Hrem Hlater) as [Hr2 Hm2].
    unfold accept_open. destruct (accept_checks packet keys' now' d') as [[[[sid' clear'] adm'] nonce']| |] eqn:Hck'; [|done..].
    apply accept_checks_nonce in Hck' as (Hcl' & Hnn' & _). rewrite Hcl in Hcl'. injection Hcl' as <-.
    rewrite Hnn in Hnn'. injection Hnn' as <-.
    pose proof (rg_rejects _ nonce _ t' Hr2 Hm2 Ht') as Hrej.
    destruct (rg_reserve (foldl accept_arrival r later) nonce t') as [[f|] r']; done.
  - intros forged cache Hno. unfold accept_open.
    destruct (accept_checks forged keys now d) as [[[[sid clear] adm] nonce]| |] eqn:Hck; [|done..].
    apply accept_checks_nonce in Hck as (_ & _ & Hadm & Hne). by apply admit_none in Hadm.
Qed.
End Once.

Definition example_open : result UdpPacketError (list byte * UdpChannel) :=
  seal_open (C := toy_ops) (Some (replicate 8 x01)) (Some (replicate 16 x02)) (Some x03) (replicate 32 x09)
    (x25519_public (CryptoOps := toy_ops) x07) (replicate 16 x04) 1000.

Lemma udp_open_once_witness :
  exists packet line opened replay1, example_open = Ok (packet, line) /\
    accept_open packet example_keys example_cache 1010 30 5 = (Ok opened, replay1) /\
    is_ok (accept_open packet example_keys replay1 1010 30 14).1 = false.
Proof.
  destruct example_open as [[packet line]| |] eqn:E; [|vm_compute in E; discriminate E..].
  destruct (accept_open packet example_keys example_cache 1010 30 5) as [[opened| |] replay1] eqn:E2.
  2, 3: vm_compute in E; injection E as <- <-; vm_compute in E2; discriminate E2.
  exists packet, line, opened, replay1. split; [reflexivity|]. split; [exact E2|].
  refine (proj1 (udp_open_once packet example_keys example_keys example_cache replay1 1010 1010 30 30 5 14 opened []
    _ E2 _ _)).
  - constructor; [|reflexivity|cbn; lia]. eapply (i_cache example_policy (initial_system example_cache 0)), initial_inv;
      [cbn; lia|reflexivity].
  - constructor.
  - cbn. lia.
Defined.
