(* ===== verification/Nxr.v ===== *)
(** * NXR open requests ([src/protocol/nxr], [src/protocol/nxr_udp/open.rs],
      [src/server/nxr/auth.rs], [src/server/nxr/request.rs])

    The authenticated open of the LINE to LANDING hop in its TCP and its UDP
    mode: encoders, header peeks, decoders, the bounded read of one request and
    the authenticator that combines the decoder with the replay cache. HMAC is
    an operation of [CryptoOps], [try_reserve_exact] an oracle. *)

From S2P Require Import Prelude VlessRequest Crypto Replay.
#[local] Open Scope Z_scope.

Definition MAGIC : list byte := [x4e; x58; x52; x01].
Definition ADDRESS_IPV4 : byte := x01.
Definition ADDRESS_DOMAIN : byte := x02.
Definition ADDRESS_IPV6 : byte := x03.
Definition ADDRESS_LENGTH_OFFSET : Z := 6.
Definition PORT_OFFSET : Z := 8.
Definition TIMESTAMP_OFFSET : Z := 10.
Definition NONCE_OFFSET : Z := 18.
Definition ADDRESS_OFFSET : Z := 34.
Definition TAG_LEN : Z := 32.
Definition MAX_DOMAIN_LEN : Z := 253.
Definition REQUEST_HEADER_LEN : Z := ADDRESS_OFFSET.
Definition MAX_REQUEST_LEN : Z := REQUEST_HEADER_LEN + MAX_DOMAIN_LEN + TAG_LEN.
Definition FLAGS_OFFSET : Z := 4.
Definition FLAG_TCP : byte := x00.
Definition FLAG_UDP : byte := x01.
Definition OPEN_TAG_LEN : Z := 32.
Definition USER_ID_LEN : Z := 16.
Definition UDP_OPEN_TRAILER : Z := USER_ID_LEN.
Definition MAX_UDP_OPEN_LEN : Z := REQUEST_HEADER_LEN + MAX_DOMAIN_LEN + UDP_OPEN_TRAILER + OPEN_TAG_LEN.

Inductive NxrProtocolError :=
| NLength | NVersion | NFlags | NAddress | NPort | NTimeWindow | NAuthentication | NAllocation.

Inductive NxrUdpError :=
| NuLength | NuTruncated | NuVersion | NuFlags | NuWrongMode | NuAddress | NuPort | NuTimeWindow
| NuAuthentication | NuAllocation | NuPayload | NuFrameType | NuDirection | NuSequence.

(** [From<NxrUdpError> for NxrProtocolError]. *)
Definition nxr_error_of_udp (e : NxrUdpError) : NxrProtocolError :=
  match e with
  | NuLength | NuTruncated | NuPayload => NLength
  | NuVersion => NVersion
  | NuFlags | NuWrongMode | NuFrameType | NuDirection | NuSequence => NFlags
  | NuAddress => NAddress
  | NuPort => NPort
  | NuTimeWindow => NTimeWindow
  | NuAuthentication => NAuthentication
  | NuAllocation => NAllocation
  end.

(** [peek_open_flags]. *)
Definition peek_open_flags (header : list byte) : result NxrProtocolError (option byte) :=
  if len header <? REQUEST_HEADER_LEN then Ok None
  else
    magic ← slice header 0 (len MAGIC);
    if negb (bytes_eqb magic MAGIC) then Ok None
    else f ← index header FLAGS_OFFSET; Ok (Some f).

(** [classify_open]. *)
Definition classify_open (header : list byte) : result NxrProtocolError (option byte) :=
  f ← peek_open_flags header;
  Ok (match f with
      | Some f => if bool_decide (f = FLAG_TCP) || bool_decide (f = FLAG_UDP) then Some f else None
      | None => None
      end).

(** ** Field codecs

    [wire.rs] and [fields.rs] hold the same functions, each over its own error
    type; the model takes the error the function reports. *)

Section Fields.
Context {E : Type} (e_address e_length : E).

Definition address_shape (a : Address) : result E (byte * Z) :=
  match a with
  | Ipv4 _ => Ok (ADDRESS_IPV4, 4)
  | Domain domain =>
    guard! (len domain =? 0) || (MAX_DOMAIN_LEN <? len domain) else e_address;
    Ok (ADDRESS_DOMAIN, len domain)
  | Ipv6 _ => Ok (ADDRESS_IPV6, 16)
  end.

Definition address_octets (a : Address) : list byte :=
  match a with Ipv4 o => o | Domain n => n | Ipv6 o => o end.

Definition parse_address (address_type : byte) (bytes : list byte) : result E Address :=
  if bool_decide (address_type = ADDRESS_IPV4) then
    guard! negb (len bytes =? 4) else e_address; Ok (Ipv4 bytes)
  else if bool_decide (address_type = ADDRESS_DOMAIN) then
    guard! negb (from_utf8 bytes) else e_address; Ok (Domain bytes)
  else if bool_decide (address_type = ADDRESS_IPV6) then
    guard! negb (len bytes =? 16) else e_address; Ok (Ipv6 bytes)
  else Err e_address.

Definition read_u16 (input : list byte) (offset : Z) : result E Z :=
  bytes ← ok_or e_length (get_range input offset (offset + 2)); Ok (from_be bytes).

Definition read_u64 (input : list byte) (offset : Z) : result E Z :=
  bytes ← ok_or e_length (get_range input offset (offset + 8)); Ok (from_be bytes).

(** The [match header[5]] of both length functions. *)
Definition valid_address (address_type : byte) (address_len : Z) : bool :=
  if bool_decide (address_type = ADDRESS_IPV4) then address_len =? 4
  else if bool_decide (address_type = ADDRESS_DOMAIN) then (1 <=? address_len) && (address_len <=? MAX_DOMAIN_LEN)
  else if bool_decide (address_type = ADDRESS_IPV6) then address_len =? 16
  else false.
End Fields.

Record AuthenticatedRequest := { ar_timestamp : Z; ar_nonce : list byte; ar_destination : Destination }.

Record UdpAuthenticatedOpen :=
  { uo_timestamp : Z; uo_nonce : list byte; uo_destination : Destination; uo_user_id : list byte }.

(** ** Lengths announced by a header *)

Definition request_len_from_header (header : list byte) : result NxrProtocolError Z :=
  guard! negb (len header =? REQUEST_HEADER_LEN) else NLength;
  magic ← slice header 0 (len MAGIC);
  guard! negb (bytes_eqb magic MAGIC) else NVersion;
  flags ← index header 4;
  guard! negb (bool_decide (flags = FLAG_TCP)) else NFlags;
  l0 ← index header ADDRESS_LENGTH_OFFSET;
  l1 ← index header (ADDRESS_LENGTH_OFFSET + 1);
  let address_len := from_be [l0; l1] in
  t ← index header 5;
  guard! negb (valid_address t address_len) else NAddress;
  n ← ok_or NLength (checked_add USIZE_MAX REQUEST_HEADER_LEN address_len);
  n ← ok_or NLength (checked_add USIZE_MAX n TAG_LEN);
  guard! MAX_REQUEST_LEN <? n else NLength;
  Ok n.

Definition udp_open_len_from_header (header : list byte) : result NxrUdpError Z :=
  guard! negb (len header =? REQUEST_HEADER_LEN) else NuLength;
  magic ← slice header 0 (len MAGIC);
  guard! negb (bytes_eqb magic MAGIC) else NuVersion;
  flags ← index header FLAGS_OFFSET;
  guard! negb (bool_decide (flags = FLAG_UDP)) else NuWrongMode;
  l0 ← index header ADDRESS_LENGTH_OFFSET;
  l1 ← index header (ADDRESS_LENGTH_OFFSET + 1);
  let address_len := from_be [l0; l1] in
  t ← index header 5;
  guard! negb (valid_address t address_len) else NuAddress;
  n ← ok_or NuLength (checked_add USIZE_MAX REQUEST_HEADER_LEN address_len);
  n ← ok_or NuLength (checked_add USIZE_MAX n UDP_OPEN_TRAILER);
  ok_or NuLength (checked_add USIZE_MAX n OPEN_TAG_LEN).

Section Codec.
Context {C : CryptoOps} (alloc : Z -> bool).

(** [NxrKey] is its 32 bytes: the keyed template only precomputes state. *)
Definition NxrKey : Type := list byte.

Definition key_tag (key : NxrKey) (message : list byte) : list byte := hmac key message.
Definition key_derive (key : NxrKey) (label data : list byte) : list byte := hmac key (label ++ data).
Definition authenticate (key : NxrKey) (input : list byte) : list byte := hmac key input.

Definition verify (key : NxrKey) (input tag : list byte) : result NxrProtocolError unit :=
  if bytes_eqb tag (hmac key input) then Ok tt else Err NAuthentication.

Definition open_tag (key : NxrKey) (authenticated : list byte) : list byte := key_tag key authenticated.

Definition verify_open_tag (key : NxrKey) (authenticated tag : list byte) : result NxrUdpError unit :=
  if bytes_eqb (open_tag key authenticated) tag then Ok tt else Err NuAuthentication.

(** ** Encoders

    [output] is the caller's buffer: untouched by a rejected request, cleared
    when the reservation fails. *)

Definition request_shape (d : Destination) : result NxrProtocolError (byte * Z * Z) :=
  '(address_type, address_length) ← address_shape NAddress (address d);
  address_len ← ok_or NAddress (try_from U16_MAX address_length);
  guard! port d =? 0 else NPort;
  total ← ok_or NLength (checked_add USIZE_MAX REQUEST_HEADER_LEN address_length);
  total ← ok_or NLength (checked_add USIZE_MAX total TAG_LEN);
  guard! MAX_REQUEST_LEN <? total else NLength;
  Ok (address_type, address_len, total).

Definition encode_request (d : Destination) (timestamp : Z) (nonce : list byte) (key : NxrKey) (output : list byte)
    : result NxrProtocolError unit * list byte :=
  match request_shape d with
  | Err e => (Err e, output)
  | Panic => (Panic, output)
  | Ok (address_type, address_len, total) =>
    if alloc total then
      let output := MAGIC ++ [FLAG_TCP] ++ [address_type] ++ to_be 2 address_len ++ to_be 2 (port d) ++
        to_be 8 timestamp ++ nonce ++ address_octets (address d) in
      (Ok tt, output ++ authenticate key output)
    else (Err NAllocation, [])
  end.

Definition udp_open_shape (d : Destination) : result NxrUdpError (byte * Z * Z) :=
  '(address_type, address_length) ← address_shape NuAddress (address d);
  address_len ← ok_or NuAddress (try_from U16_MAX address_length);
  guard! port d =? 0 else NuPort;
  total ← ok_or NuLength (checked_add USIZE_MAX REQUEST_HEADER_LEN address_length);
  total ← ok_or NuLength (checked_add USIZE_MAX total UDP_OPEN_TRAILER);
  total ← ok_or NuLength (checked_add USIZE_MAX total OPEN_TAG_LEN);
  guard! MAX_UDP_OPEN_LEN <? total else NuLength;
  Ok (address_type, address_len, total).

Definition encode_udp_open (d : Destination) (user_id : list byte) (timestamp : Z) (nonce : list byte) (key : NxrKey)
    (output : list byte) : result NxrUdpError unit * list byte :=
  match udp_open_shape d with
  | Err e => (Err e, output)
  | Panic => (Panic, output)
  | Ok (address_type, address_len, total) =>
    if alloc total then
      let output := MAGIC ++ [FLAG_UDP] ++ [address_type] ++ to_be 2 address_len ++ to_be 2 (port d) ++
        to_be 8 timestamp ++ nonce ++ address_octets (address d) ++ user_id in
      (Ok tt, output ++ open_tag key output)
    else (Err NuAllocation, [])
  end.

(** ** Decoders *)

Definition decode_authenticated_request (input : list byte) (key : NxrKey) (now maximum_time_difference : Z)
    : result NxrProtocolError AuthenticatedRequest :=
  header ← ok_or NLength (get_range input 0 REQUEST_HEADER_LEN);
  expected ← request_len_from_header header;
  guard! negb (len input =? expected) else NLength;
  authenticated_len ← ok_or NLength (checked_sub expected TAG_LEN);
  authenticated ← slice input 0 authenticated_len;
  tag ← slice_from input authenticated_len;
  _ ← verify key authenticated tag;
  timestamp ← read_u64 NLength header TIMESTAMP_OFFSET;
  guard! maximum_time_difference <? abs_diff timestamp now else NTimeWindow;
  port ← read_u16 NLength header PORT_OFFSET;
  guard! port =? 0 else NPort;
  nonce ← slice header NONCE_OFFSET ADDRESS_OFFSET;
  guard! negb (len nonce =? 16) else NLength;
  t ← index header 5;
  bytes ← slice input ADDRESS_OFFSET authenticated_len;
  parsed ← parse_address NAddress t bytes;
  Ok {| ar_timestamp := timestamp; ar_nonce := nonce; ar_destination := {| address := parsed; port := port |} |}.

Definition decode_udp_open (input : list byte) (key : NxrKey) (now maximum_time_difference : Z)
    : result NxrUdpError UdpAuthenticatedOpen :=
  header ← ok_or NuLength (get_range input 0 REQUEST_HEADER_LEN);
  expected ← udp_open_len_from_header header;
  guard! negb (len input =? expected) else NuLength;
  authenticated_len ← ok_or NuLength (checked_sub expected OPEN_TAG_LEN);
  authenticated ← slice input 0 authenticated_len;
  tag ← slice_from input authenticated_len;
  _ ← verify_open_tag key authenticated tag;
  timestamp ← read_u64 NuLength header TIMESTAMP_OFFSET;
  guard! maximum_time_difference <? abs_diff timestamp now else NuTimeWindow;
  port ← read_u16 NuLength header PORT_OFFSET;
  guard! port =? 0 else NuPort;
  nonce ← slice header NONCE_OFFSET ADDRESS_OFFSET;
  guard! negb (len nonce =? 16) else NuLength;
  address_end ← ok_or NuLength (checked_sub authenticated_len USER_ID_LEN);
  t ← index header 5;
  bytes ← slice input ADDRESS_OFFSET address_end;
  parsed ← parse_address NuAddress t bytes;
  user_id ← slice input address_end authenticated_len;
  guard! negb (len user_id =? 16) else NuLength;
  Ok {| uo_timestamp := timestamp; uo_nonce := nonce;
        uo_destination := {| address := parsed; port := port |}; uo_user_id := user_id |}.

Definition open_authenticated_prefix (open_wire : list byte) : result NxrUdpError (option (list byte)) :=
  if OPEN_TAG_LEN <? len open_wire
  then p ← slice open_wire 0 (len open_wire - OPEN_TAG_LEN); Ok (Some p)
  else Ok None.

(** ** The session key of a UDP association *)

Definition SESSION_MAC_LABEL : list byte := bytes_of "rust-reality/nxr-udp/v1/session-mac" ++ [x00].

Definition session_derive (key : NxrKey) (prefix : list byte) : list byte := key_derive key SESSION_MAC_LABEL prefix.

(** ** [NxrAuthenticator] *)

Inductive NxrAuthenticationError :=
| AuthProtocol (e : NxrProtocolError)
| AuthReplay (e : NxrReplayError).

Record NxrAuthenticator (G : Type) := { na_key : NxrKey; na_replay : G; na_window : Z }.
#[global] Arguments na_key {G}. #[global] Arguments na_replay {G}. #[global] Arguments na_window {G}.

Definition with_replay {G} (a : NxrAuthenticator G) (g : G) : NxrAuthenticator G :=
  {| na_key := na_key a; na_replay := g; na_window := na_window a |}.

Definition authenticate_tcp {G} `{ReplayGuard G} (a : NxrAuthenticator G) (request : list byte) (now instant : Z)
    : result NxrAuthenticationError Destination * NxrAuthenticator G :=
  match decode_authenticated_request request (na_key a) now (na_window a) with
  | Err e => (Err (AuthProtocol e), a)
  | Panic => (Panic, a)
  | Ok r =>
    let '(failure, replay) := rg_reserve (na_replay a) (ar_nonce r) instant in
    (match failure with
     | Some f => Err (AuthReplay (nxr_replay_error f))
     | None => Ok (ar_destination r)
     end, with_replay a replay)
  end.

Definition authenticate_udp {G} `{ReplayGuard G} (a : NxrAuthenticator G) (request : list byte) (now instant : Z)
    : result NxrAuthenticationError (UdpAuthenticatedOpen * list byte) * NxrAuthenticator G :=
  match decode_udp_open request (na_key a) now (na_window a) with
  | Err e => (Err (AuthProtocol (nxr_error_of_udp e)), a)
  | Panic => (Panic, a)
  | Ok o =>
    let '(failure, replay) := rg_reserve (na_replay a) (uo_nonce o) instant in
    (match failure with
     | Some f => Err (AuthReplay (nxr_replay_error f))
     | None =>
       prefix ← map_err (fun e => AuthProtocol (nxr_error_of_udp e)) (open_authenticated_prefix request);
       prefix ← ok_or (AuthProtocol NLength) prefix;
       Ok (o, session_derive (na_key a) prefix)
     end, with_replay a replay)
  end.
End Codec.

(** ** The shape of an open

    [open_header] is the fixed part both modes share; the decoders are
    rewritten over its fields ([tcp_view], [udp_view]). *)

Definition open_header (flag t : byte) (alen p ts : Z) (nonce : list byte) : list byte :=
  MAGIC ++ [flag] ++ [t] ++ to_be 2 alen ++ to_be 2 p ++ to_be 8 ts ++ nonce.

Definition header_fields (alen p ts : Z) (nonce : list byte) : Prop :=
  u16_range alen /\ u16_range p /\ u64_range ts /\ len nonce = 16.

Ltac nxr_consts :=
  unfold REQUEST_HEADER_LEN, MAX_REQUEST_LEN, MAX_UDP_OPEN_LEN, REQUEST_HEADER_LEN, UDP_OPEN_TRAILER, USER_ID_LEN,
    OPEN_TAG_LEN, TAG_LEN, MAX_DOMAIN_LEN, ADDRESS_OFFSET, NONCE_OFFSET, TIMESTAMP_OFFSET, PORT_OFFSET,
    ADDRESS_LENGTH_OFFSET, FLAGS_OFFSET in *.

Lemma len_open_header f t al p ts nonce : len nonce = 16 -> len (open_header f t al p ts nonce) = REQUEST_HEADER_LEN.
Proof. intros. unfold open_header, MAGIC. nxr_consts. autorewrite with lens. rewrite ?len_to_be. lia. Qed.

Lemma header_view h :
  len h = REQUEST_HEADER_LEN -> take 4 h = MAGIC ->
  exists f t al p ts nonce, h = open_header f t al p ts nonce /\ header_fields al p ts nonce.
Proof.
  intros Hl Hm. nxr_consts.
  assert (Hv : exists f t l p ts n, h = MAGIC ++ [f] ++ [t] ++ l ++ p ++ ts ++ n /\
    len l = 2 /\ len p = 2 /\ len ts = 8 /\ len n = 16).
  { exists (default x00 (h !! 4%nat)), (default x00 (h !! 5%nat)), (take 2 (drop 6 h)), (take 2 (drop 8 h)),
      (take 8 (drop 10 h)), (drop 18 h).
    split_and!; [|slen..]. rewrite <- Hm. do 18 (destruct h as [|? h]; [slen|]). reflexivity. }
  destruct Hv as (f & t & l & p & ts & n & -> & H1 & H2 & H3 & H4).
  exists f, t, (from_be l), (from_be p), (from_be ts), n. split.
  - unfold open_header. rewrite !to_be_from_be by (unfold len in *; lia). done.
  - split_and!; [by apply from_be_u16_range..|by apply from_be_u64_range|done].
Qed.

Section HeaderReads.
Context (f t : byte) (al p ts : Z) (nonce : list byte) (Hf : header_fields al p ts nonce).
Let h := open_header f t al p ts nonce.

Lemma header_magic {E} : (slice h 0 (len MAGIC) : result E _) = Ok MAGIC.
Proof. apply (slice_mid []); done. Qed.

Lemma header_flag {E} : (index h 4 : result E _) = Ok f.
Proof. done. Qed.

Lemma header_type {E} : (index h 5 : result E _) = Ok t.
Proof. done. Qed.

Lemma header_alen {E} :
  exists l0 l1, (index h 6 : result E _) = Ok l0 /\ (index h 7 : result E _) = Ok l1 /\ from_be [l0; l1] = al.
Proof.
  pose proof (len_to_be 2 al) as Hl. subst h. unfold open_header.
  pose proof (from_be_u16 al (proj1 Hf)) as Hb.
  destruct (to_be 2 al) as [|l0 [|l1 [|]]]; [slen..| |slen]. exists l0, l1. done.
Qed.

Lemma header_port {E} (e : E) : read_u16 e h PORT_OFFSET = Ok p.
Proof.
  unfold read_u16. erewrite bind_step; [f_equal; apply from_be_u16, Hf|].
  apply ok_or_ok, (slice_ok (E := E)), (slice_mid (MAGIC ++ [f] ++ [t] ++ to_be 2 al));
    autorewrite with lens; rewrite ?len_to_be; done.
Qed.

Lemma header_timestamp {E} (e : E) : read_u64 e h TIMESTAMP_OFFSET = Ok ts.
Proof.
  unfold read_u64. erewrite bind_step; [f_equal; apply from_be_u64, Hf|].
  apply ok_or_ok, (slice_ok (E := E)), (slice_mid (MAGIC ++ [f] ++ [t] ++ to_be 2 al ++ to_be 2 p));
    autorewrite with lens; rewrite ?len_to_be; done.
Qed.

Lemma header_nonce {E} : (slice h NONCE_OFFSET ADDRESS_OFFSET : result E _) = Ok nonce.
Proof.
  destruct Hf as (_ & _ & _ & Hn). subst h. unfold open_header.
  rewrite <- (app_nil_r nonce) at 1.
  replace (MAGIC ++ [f] ++ [t] ++ to_be 2 al ++ to_be 2 p ++ to_be 8 ts ++ nonce ++ [])
    with ((MAGIC ++ [f] ++ [t] ++ to_be 2 al ++ to_be 2 p ++ to_be 8 ts) ++ nonce ++ []) by (by rewrite <- !app_assoc).
  apply slice_mid; autorewrite with lens; rewrite ?len_to_be, ?Hn; done.
Qed.
End HeaderReads.

Lemma valid_address_range t al : valid_address t al = true -> 1 <= al <= MAX_DOMAIN_LEN.
Proof. unfold valid_address, MAX_DOMAIN_LEN. repeat case_bool_decide; try discriminate; lia. Qed.

(** A [checked_add] on lengths far from the end of [usize]. *)
Lemma usize_step {E B} (e : E) a b (k : Z -> result E B) :
  a + b <= 100000 -> (n ← ok_or e (checked_add USIZE_MAX a b); k n) = k (a + b).
Proof.
  intros. erewrite bind_step; [done|]. apply ok_or_ok, checked_add_some. split; [done|]. unfold USIZE_MAX, U64_MAX. lia.
Qed.

Lemma request_len_view f t al p ts nonce :
  header_fields al p ts nonce ->
  request_len_from_header (open_header f t al p ts nonce) =
    (guard! negb (bool_decide (f = FLAG_TCP)) else NFlags;
     guard! negb (valid_address t al) else NAddress;
     Ok (REQUEST_HEADER_LEN + al + TAG_LEN)).
Proof.
  intros Hf. unfold request_len_from_header. rewrite len_open_header by apply Hf.
  rewrite Z.eqb_refl. rewrite guard_pass by done. rewrite header_magic.
  erewrite bind_step by done. rewrite bytes_eqb_refl, guard_pass by done.
  rewrite header_flag. erewrite bind_step by done. case_bool_decide; [|done]. rewrite !guard_pass by done.
  destruct (header_alen f t al p ts nonce Hf (E := NxrProtocolError)) as (l0 & l1 & H0 & H1 & <-).
  erewrite bind_step by exact H0. erewrite bind_step by exact H1. rewrite header_type. erewrite bind_step by done.
  destruct (valid_address t _) eqn:Hv; [|done]. apply valid_address_range in Hv. rewrite !guard_pass by done.
  nxr_consts. rewrite !usize_step by lia. rewrite guard_pass by (apply Z.ltb_ge; lia). done.
Qed.

Lemma udp_len_view f t al p ts nonce :
  header_fields al p ts nonce ->
  udp_open_len_from_header (open_header f t al p ts nonce) =
    (guard! negb (bool_decide (f = FLAG_UDP)) else NuWrongMode;
     guard! negb (valid_address t al) else NuAddress;
     Ok (REQUEST_HEADER_LEN + al + UDP_OPEN_TRAILER + OPEN_TAG_LEN)).
Proof.
  intros Hf. unfold udp_open_len_from_header. rewrite len_open_header by apply Hf.
  rewrite Z.eqb_refl. rewrite guard_pass by done. rewrite header_magic.
  erewrite bind_step by done. rewrite bytes_eqb_refl, guard_pass by done.
  rewrite header_flag. erewrite bind_step by done. case_bool_decide; [|done]. rewrite !guard_pass by done.
  destruct (header_alen f t al p ts nonce Hf (E := NxrUdpError)) as (l0 & l1 & H0 & H1 & <-).
  erewrite bind_step by exact H0. erewrite bind_step by exact H1. rewrite header_type. erewrite bind_step by done.
  destruct (valid_address t _) eqn:Hv; [|done]. apply valid_address_range in Hv. rewrite !guard_pass by done.
  nxr_consts. rewrite !usize_step by lia. apply ok_or_ok, checked_add_some. unfold USIZE_MAX, U64_MAX. lia.
Qed.

Section Views.
Context {C : CryptoOps}.

(** [split_at] on the decoded input, over [header ++ rest]. *)
Lemma split_view {E} (h rest : list byte) (n : Z) :
  len h = REQUEST_HEADER_LEN -> 0 <= n <= len rest ->
  (slice (h ++ rest) 0 (REQUEST_HEADER_LEN + n) : result E _) = Ok (h ++ take (Z.to_nat n) rest) /\
  (slice_from (h ++ rest) (REQUEST_HEADER_LEN + n) : result E _) = Ok (drop (Z.to_nat n) rest) /\
  (forall i j, 0 <= i -> i <= j -> j <= len rest ->
    (slice (h ++ rest) (REQUEST_HEADER_LEN + i) (REQUEST_HEADER_LEN + j) : result E _) =
      Ok (take (Z.to_nat (j - i)) (drop (Z.to_nat i) rest))).
Proof.
  intros Hh Hn. rewrite <- Hh. pose proof (take_drop (Z.to_nat n) rest) as Hr. split_and!.
  - rewrite <- Hr at 1. rewrite app_assoc. apply (slice_mid []); [done|]. autorewrite with lens. lia.
  - rewrite <- Hr at 1. rewrite app_assoc. apply slice_from_app. autorewrite with lens. lia.
  - intros i j H1 H2 H3. apply slice_ok. rewrite get_range_app_r by lia.
    rewrite get_range_some by lia. f_equal. f_equal; [lia|]. f_equal. lia.
Qed.

Lemma tcp_view f t al p ts nonce rest key now d :
  header_fields al p ts nonce ->
  decode_authenticated_request (open_header f t al p ts nonce ++ rest) key now d =
    (guard! negb (bool_decide (f = FLAG_TCP)) else NFlags;
     guard! negb (valid_address t al) else NAddress;
     guard! negb (len rest =? al + TAG_LEN) else NLength;
     _ ← verify key (open_header f t al p ts nonce ++ take (Z.to_nat al) rest) (drop (Z.to_nat al) rest);
     guard! d <? abs_diff ts now else NTimeWindow;
     guard! p =? 0 else NPort;
     parsed ← parse_address NAddress t (take (Z.to_nat al) rest);
     Ok {| ar_timestamp := ts; ar_nonce := nonce; ar_destination := {| address := parsed; port := p |} |}).
Proof.
  intros Hf. pose proof (len_open_header f t al p ts nonce ltac:(apply Hf)) as Hh.
  unfold decode_authenticated_request. rewrite get_range_prefix by done. erewrite bind_step by done.
  rewrite request_len_view by done. case_bool_decide as Hflag; [|done]. rewrite !guard_pass by done.
  destruct (valid_address t al) eqn:Hv; [|done]. apply valid_address_range in Hv. rewrite !guard_pass by done.
  erewrite bind_step by done. rewrite len_app, Hh.
  replace (REQUEST_HEADER_LEN + len rest =? REQUEST_HEADER_LEN + al + TAG_LEN) with (len rest =? al + TAG_LEN) by lia.
  destruct (Z.eqb_spec (len rest) (al + TAG_LEN)) as [Hl|]; [|done]. rewrite !guard_pass by done.
  replace (checked_sub _ TAG_LEN) with (Some (REQUEST_HEADER_LEN + al))
    by (symmetry; apply checked_sub_some; nxr_consts; lia).
  erewrite bind_step by done.
  destruct (split_view (E := NxrProtocolError) (open_header f t al p ts nonce) rest al Hh ltac:(nxr_consts; lia)) as (S1 & S2 & S3).
  rewrite S1, S2. do 2 erewrite bind_step by done.
  destruct (verify _ _ _); [|done..]. rewrite header_timestamp by done. do 2 erewrite bind_step by done.
  cbn [mbind result_bind]. destruct (_ <? _); [done|]. rewrite !guard_pass by done. rewrite header_port by done.
  erewrite bind_step by done. destruct (p =? 0); [done|]. rewrite !guard_pass by done.
  rewrite header_nonce by done. erewrite bind_step by done.
  destruct Hf as (_ & _ & _ & ->). rewrite guard_pass by done. rewrite header_type. erewrite bind_step by done.
  rewrite <- (Z.add_0_r ADDRESS_OFFSET). erewrite bind_step by (apply S3; nxr_consts; lia).
  rewrite Z.sub_0_r. done.
Qed.

Lemma udp_view f t al p ts nonce rest key now d :
  header_fields al p ts nonce ->
  decode_udp_open (open_header f t al p ts nonce ++ rest) key now d =
    (guard! negb (bool_decide (f = FLAG_UDP)) else NuWrongMode;
     guard! negb (valid_address t al) else NuAddress;
     guard! negb (len rest =? al + UDP_OPEN_TRAILER + OPEN_TAG_LEN) else NuLength;
     _ ← verify_open_tag key (open_header f t al p ts nonce ++ take (Z.to_nat (al + USER_ID_LEN)) rest)
           (drop (Z.to_nat (al + USER_ID_LEN)) rest);
     guard! d <? abs_diff ts now else NuTimeWindow;
     guard! p =? 0 else NuPort;
     parsed ← parse_address NuAddress t (take (Z.to_nat al) rest);
     Ok {| uo_timestamp := ts; uo_nonce := nonce; uo_destination := {| address := parsed; port := p |};
           uo_user_id := take 16 (drop (Z.to_nat al) rest) |}).
Proof.
  intros Hf. pose proof (len_open_header f t al p ts nonce ltac:(apply Hf)) as Hh.
  unfold decode_udp_open. rewrite get_range_prefix by done. erewrite bind_step by done.
  rewrite udp_len_view by done. case_bool_decide as Hflag; [|done]. rewrite !guard_pass by done.
  destruct (valid_address t al) eqn:Hv; [|done]. apply valid_address_range in Hv. rewrite !guard_pass by done.
  erewrite bind_step by done. rewrite len_app, Hh.
  replace (REQUEST_HEADER_LEN + len rest =? REQUEST_HEADER_LEN + al + UDP_OPEN_TRAILER + OPEN_TAG_LEN)
    with (len rest =? al + UDP_OPEN_TRAILER + OPEN_TAG_LEN) by lia.
  destruct (Z.eqb_spec (len rest) (al + UDP_OPEN_TRAILER + OPEN_TAG_LEN)) as [Hl|]; [|done]. rewrite !guard_pass by done.
  replace (checked_sub _ OPEN_TAG_LEN) with (Some (REQUEST_HEADER_LEN + (al + USER_ID_LEN)))
    by (symmetry; apply checked_sub_some; nxr_consts; lia).
  erewrite bind_step by done.
  destruct (split_view (E := NxrUdpError) (open_header f t al p ts nonce) rest (al + USER_ID_LEN) Hh
    ltac:(nxr_consts; lia)) as (S1 & S2 & S3).
  rewrite S1, S2. do 2 erewrite bind_step by done.
  destruct (verify_open_tag _ _ _); [|done..]. rewrite header_timestamp by done. do 2 erewrite bind_step by done.
  cbn [mbind result_bind]. destruct (_ <? _); [done|]. rewrite !guard_pass by done. rewrite header_port by done.
  erewrite bind_step by done. destruct (p =? 0); [done|]. rewrite !guard_pass by done.
  rewrite header_nonce by done. erewrite bind_step by done.
  destruct Hf as (_ & _ & _ & ->). rewrite guard_pass by done.
  replace (checked_sub _ USER_ID_LEN) with (Some (REQUEST_HEADER_LEN + al))
    by (symmetry; apply checked_sub_some; nxr_consts; lia).
  erewrite bind_step by done. rewrite header_type. erewrite bind_step by done.
  rewrite <- (Z.add_0_r ADDRESS_OFFSET). erewrite bind_step by (apply S3; nxr_consts; lia).
  rewrite Z.sub_0_r. cbn [Z.to_nat drop]. destruct (parse_address _ _ _); [|done..]. cbn [mbind result_bind].
  erewrite bind_step by (apply S3; nxr_consts; lia).
  replace (al + USER_ID_LEN - al) with 16 by (nxr_consts; lia). rewrite guard_pass; [done|].
  apply negb_false_iff, Z.eqb_eq. autorewrite with lens. nxr_consts. lia.
Qed.
End Views.

(** ** Reference encoding and what the decoders accept *)

Definition nxr_address_wf (a : Address) : Prop :=
  match a with
  | Ipv4 o => len o = 4
  | Ipv6 o => len o = 16
  | Domain n => 1 <= len n <= MAX_DOMAIN_LEN /\ from_utf8 n = true
  end.

Definition nxr_destination_wf (d : Destination) : Prop := nxr_address_wf (address d) /\ 1 <= port d <= U16_MAX.

Definition address_code (a : Address) : byte :=
  match a with Ipv4 _ => ADDRESS_IPV4 | Domain _ => ADDRESS_DOMAIN | Ipv6 _ => ADDRESS_IPV6 end.

Definition open_body (flag : byte) (d : Destination) (ts : Z) (nonce trailer : list byte) : list byte :=
  open_header flag (address_code (address d)) (len (address_octets (address d))) (port d) ts nonce ++
  address_octets (address d) ++ trailer.

Definition tcp_wire {C : CryptoOps} (key : NxrKey) (r : AuthenticatedRequest) : list byte :=
  let body := open_body FLAG_TCP (ar_destination r) (ar_timestamp r) (ar_nonce r) [] in body ++ hmac key body.

Definition udp_wire {C : CryptoOps} (key : NxrKey) (o : UdpAuthenticatedOpen) : list byte :=
  let body := open_body FLAG_UDP (uo_destination o) (uo_timestamp o) (uo_nonce o) (uo_user_id o) in body ++ hmac key body.

Definition request_wf (r : AuthenticatedRequest) : Prop :=
  u64_range (ar_timestamp r) /\ len (ar_nonce r) = 16 /\ nxr_destination_wf (ar_destination r).

Definition udp_open_wf (o : UdpAuthenticatedOpen) : Prop :=
  u64_range (uo_timestamp o) /\ len (uo_nonce o) = 16 /\ nxr_destination_wf (uo_destination o) /\ len (uo_user_id o) = 16.

Lemma address_octets_len a : nxr_address_wf a -> 1 <= len (address_octets a) <= MAX_DOMAIN_LEN.
Proof. destruct a; cbn; unfold MAX_DOMAIN_LEN; lia. Qed.

Lemma valid_address_code a : nxr_address_wf a -> valid_address (address_code a) (len (address_octets a)) = true.
Proof.
  destruct a as [o|n|o]; cbn [nxr_address_wf address_code address_octets]; unfold valid_address, MAX_DOMAIN_LEN.
  - intros ->. done.
  - intros [H _]. case_bool_decide; [done|]. case_bool_decide; [lia|done].
  - intros ->. done.
Qed.

Lemma parse_address_code {E} (e : E) a :
  nxr_address_wf a -> parse_address e (address_code a) (address_octets a) = Ok a.
Proof.
  destruct a as [o|n|o]; cbn; unfold parse_address; cbn; [by intros ->| |by intros ->]. intros [_ ->]. done.
Qed.

Lemma parse_address_inv {E} (e : E) t bytes a :
  parse_address e t bytes = Ok a -> address_code a = t /\ address_octets a = bytes /\
  match a with Ipv4 o => len o = 4 | Ipv6 o => len o = 16 | Domain n => from_utf8 n = true end.
Proof.
  unfold parse_address. intros Hok. repeat case_bool_decide; subst; inv_ok Hok; subst; cbn.
  - split_and!; [done..|lia].
  - by destruct (from_utf8 bytes).
  - split_and!; [done..|lia].
Qed.

Lemma parse_address_wf {E} (e : E) t bytes a :
  parse_address e t bytes = Ok a -> valid_address t (len bytes) = true -> nxr_address_wf a.
Proof.
  intros (<- & <- & Ha)%parse_address_inv. destruct a; cbn in *; try done.
  intros Hv. split; [|done]. by apply valid_address_range in Hv.
Qed.

Lemma destination_header_fields d ts nonce :
  nxr_destination_wf d -> u64_range ts -> len nonce = 16 ->
  header_fields (len (address_octets (address d))) (port d) ts nonce.
Proof.
  intros [Ha Hp] Ht Hn. apply address_octets_len in Ha. unfold header_fields, u16_range, MAX_DOMAIN_LEN, U16_MAX in *.
  split_and!; done || lia.
Qed.

(** A header the decoders get past. *)
Lemma header_of_ok (h : list byte) :
  len h = REQUEST_HEADER_LEN -> (is_ok (request_len_from_header h) || is_ok (udp_open_len_from_header h)) = true ->
  take 4 h = MAGIC.
Proof.
  intros Hl. unfold request_len_from_header, udp_open_len_from_header.
  rewrite Hl, Z.eqb_refl. rewrite !guard_pass by done.
  unfold slice. rewrite get_range_some by (rewrite ?Hl; change (len MAGIC) with 4; nxr_consts; lia).
  change (drop (Z.to_nat 0) h) with h. change (Z.to_nat (len MAGIC - 0)) with 4%nat. cbn [mbind result_bind].
  destruct (bytes_eqb (take 4 h) MAGIC) eqn:E; [by intros _; apply bytes_eqb_eq|]. done.
Qed.

Section OpenTheorems.
Context {C : CryptoOps} {L : CryptoLaws C}.

Lemma take_octets {A} (a b : list A) n : n = len a -> take (Z.to_nat n) (a ++ b) = a /\ drop (Z.to_nat n) (a ++ b) = b.
Proof. intros ->. unfold len. rewrite Nat2Z.id. by rewrite take_app_length, drop_app_length. Qed.

(** The decoder's acceptance over the fields of the header. *)
Lemma tcp_accepts f t al p ts nonce rest key now d r :
  header_fields al p ts nonce ->
  decode_authenticated_request (open_header f t al p ts nonce ++ rest) key now d = Ok r ->
  request_wf r /\ abs_diff (ar_timestamp r) now <= d /\ open_header f t al p ts nonce ++ rest = tcp_wire key r.
Proof.
  intros Hf H. rewrite tcp_view in H by done.
  apply bind_ok in H as ([] & Hflag%reject_ok%negb_false_iff%bool_decide_eq_true & H). subst f.
  apply bind_ok in H as ([] & Hv%reject_ok%negb_false_iff & H).
  apply bind_ok in H as ([] & Hl%reject_ok%negb_false_iff%Z.eqb_eq & H).
  apply bind_ok in H as ([] & Htag & H).
  apply bind_ok in H as ([] & Ht%reject_ok%Z.ltb_ge & H).
  apply bind_ok in H as ([] & Hp%reject_ok%Z.eqb_neq & H).
  apply bind_ok in H as (a & Ha & H). injection H as <-.
  pose proof (valid_address_range _ _ Hv) as Hr.
  assert (Hlen : len (take (Z.to_nat al) rest) = al) by (rewrite len_take; nxr_consts; lia).
  pose proof (parse_address_wf _ _ _ _ Ha ltac:(by rewrite Hlen)) as Hwf.
  apply parse_address_inv in Ha as (<- & Ho & _). unfold verify in Htag.
  destruct (bytes_eqb _ _) eqn:He; [|done]. apply bytes_eqb_eq in He.
  destruct Hf as (_ & Hpr & Hts & Hn). unfold u16_range in Hpr.
  split; [|split; [done|]].
  - unfold request_wf, nxr_destination_wf. cbn. split_and!; try done; lia.
  - unfold tcp_wire, open_body. cbn [ar_destination ar_timestamp ar_nonce address port].
    rewrite Ho, Hlen, app_nil_r, <- He, <- app_assoc, take_drop. done.
Qed.

Lemma tcp_completes key now d r :
  request_wf r -> abs_diff (ar_timestamp r) now <= d -> decode_authenticated_request (tcp_wire key r) key now d = Ok r.
Proof.
  destruct r as [ts nonce [a p]]. unfold request_wf, tcp_wire, open_body.
  cbn [ar_destination ar_timestamp ar_nonce address port]. intros (Hts & Hn & Hd) Ht.
  pose proof (destination_header_fields {| address := a; port := p |} ts nonce Hd Hts Hn) as Hf. cbn [address port] in Hf.
  destruct Hd as [Ha Hp]. cbn [address port] in Ha, Hp. rewrite app_nil_r, <- app_assoc, tcp_view by done.
  rewrite valid_address_code by done. rewrite !guard_pass by done.
  destruct (take_octets (address_octets a) (hmac key (open_header FLAG_TCP (address_code a) (len (address_octets a)) p ts nonce ++
    address_octets a)) _ eq_refl) as [-> ->].
  rewrite guard_pass by (rewrite len_app, hmac_len; apply negb_false_iff, Z.eqb_eq; done).
  unfold verify. rewrite bytes_eqb_refl. erewrite bind_step by done. rewrite guard_pass by lia. rewrite guard_pass by lia.
  rewrite parse_address_code by done. done.
Qed.

Lemma udp_accepts f t al p ts nonce rest key now d o :
  header_fields al p ts nonce ->
  decode_udp_open (open_header f t al p ts nonce ++ rest) key now d = Ok o ->
  udp_open_wf o /\ abs_diff (uo_timestamp o) now <= d /\ open_header f t al p ts nonce ++ rest = udp_wire key o.
Proof.
  intros Hf H. rewrite udp_view in H by done.
  apply bind_ok in H as ([] & Hflag%reject_ok%negb_false_iff%bool_decide_eq_true & H). subst f.
  apply bind_ok in H as ([] & Hv%reject_ok%negb_false_iff & H).
  apply bind_ok in H as ([] & Hl%reject_ok%negb_false_iff%Z.eqb_eq & H).
  apply bind_ok in H as ([] & Htag & H).
  apply bind_ok in H as ([] & Ht%reject_ok%Z.ltb_ge & H).
  apply bind_ok in H as ([] & Hp%reject_ok%Z.eqb_neq & H).
  apply bind_ok in H as (a & Ha & H). injection H as <-.
  pose proof (valid_address_range _ _ Hv) as Hr.
  assert (Hlen : len (take (Z.to_nat al) rest) = al) by (rewrite len_take; nxr_consts; lia).
  pose proof (parse_address_wf _ _ _ _ Ha ltac:(by rewrite Hlen)) as Hwf.
  apply parse_address_inv in Ha as (<- & Ho & _). unfold verify_open_tag, open_tag, key_tag in Htag.
  destruct (bytes_eqb _ _) eqn:He; [|done]. apply bytes_eqb_eq in He.
  destruct Hf as (_ & Hpr & Hts & Hn). unfold u16_range in Hpr.
  assert (Hsp : take (Z.to_nat (al + USER_ID_LEN)) rest = take (Z.to_nat al) rest ++ take 16 (drop (Z.to_nat al) rest)).
  { unfold USER_ID_LEN. replace (Z.to_nat (al + 16)) with (Z.to_nat al + 16)%nat by lia. by rewrite take_take_drop. }
  split; [|split; [done|]].
  - unfold udp_open_wf, nxr_destination_wf. cbn [uo_timestamp uo_nonce uo_destination uo_user_id address port].
    split_and!; try done; try lia. autorewrite with lens. nxr_consts. lia.
  - unfold udp_wire, open_body. cbn [uo_timestamp uo_nonce uo_destination uo_user_id address port].
    rewrite Ho, Hlen, <- Hsp, He, <- app_assoc, take_drop. done.
Qed.

Lemma udp_completes key now d o :
  udp_open_wf o -> abs_diff (uo_timestamp o) now <= d -> decode_udp_open (udp_wire key o) key now d = Ok o.
Proof.
  destruct o as [ts nonce [a p] uid]. unfold udp_open_wf, udp_wire, open_body.
  cbn [uo_timestamp uo_nonce uo_destination uo_user_id address port]. intros (Hts & Hn & Hd & Hu) Ht.
  pose proof (destination_header_fields {| address := a; port := p |} ts nonce Hd Hts Hn) as Hf. cbn [address port] in Hf.
  destruct Hd as [Ha Hp]. cbn [address port] in Ha, Hp. rewrite <- app_assoc, udp_view by done.
  rewrite valid_address_code by done. rewrite !guard_pass by done.
  set (tag := hmac key _). assert (Htag : len tag = 32) by apply hmac_len.
  destruct (take_octets (address_octets a ++ uid) tag (len (address_octets a) + USER_ID_LEN)) as [-> ->]; [rewrite len_app; nxr_consts; lia|].
  rewrite <- app_assoc. destruct (take_octets (address_octets a) (uid ++ tag) _ eq_refl) as [-> ->].
  rewrite guard_pass by (rewrite !len_app, Hu, Htag; apply negb_false_iff, Z.eqb_eq; nxr_consts; lia).
  unfold verify_open_tag, open_tag, key_tag. fold tag. rewrite bytes_eqb_refl. erewrite bind_step by done.
  rewrite guard_pass by lia. rewrite guard_pass by lia. rewrite parse_address_code by done. cbn [mbind result_bind].
  replace 16%nat with (length uid) by (unfold len in Hu; lia). by rewrite take_app_length.
Qed.

(** An input is too short, not an NXR header, or a header with what follows. *)
Lemma input_view (input : list byte) :
  (exists f t al p ts nonce rest, header_fields al p ts nonce /\ input = open_header f t al p ts nonce ++ rest) \/
  (get_range input 0 REQUEST_HEADER_LEN = None \/
   exists h, get_range input 0 REQUEST_HEADER_LEN = Some h /\ len h = REQUEST_HEADER_LEN /\ take 4 h <> MAGIC).
Proof.
  destruct (get_range input 0 REQUEST_HEADER_LEN) as [h|] eqn:Hg; [|by right; left].
  apply get_range_inv in Hg as (_ & _ & _ & Hl & Hi). rewrite Z.sub_0_r in Hl.
  destruct (decide (take 4 h = MAGIC)) as [Hm|Hm]; [left|right; right; by exists h].
  destruct (header_view h Hl Hm) as (f & t & al & p & ts & nonce & -> & Hf).
  exists f, t, al, p, ts, nonce. eexists. split; [done|exact Hi].
Qed.

Lemma not_magic_rejected h :
  len h = REQUEST_HEADER_LEN -> take 4 h <> MAGIC ->
  request_len_from_header h = Err NVersion /\ udp_open_len_from_header h = Err NuVersion.
Proof.
  intros Hl Hm. unfold request_len_from_header, udp_open_len_from_header, slice.
  rewrite Hl, Z.eqb_refl. rewrite !guard_pass by done.
  rewrite get_range_some by (rewrite ?Hl; change (len MAGIC) with 4; nxr_consts; lia).
  change (drop (Z.to_nat 0) h) with h. change (Z.to_nat (len MAGIC - 0)) with 4%nat. cbn [mbind result_bind].
  destruct (bytes_eqb (take 4 h) MAGIC) eqn:E; [by apply bytes_eqb_eq in E|]. done.
Qed.

Lemma parse_address_no_panic {E} (e : E) t bytes : no_panic (parse_address e t bytes).
Proof. unfold parse_address, reject_if. repeat case_bool_decide; repeat case_match; done. Qed.

Lemma decode_tcp_no_panic input key now d : no_panic (decode_authenticated_request input key now d).
Proof.
  destruct (input_view input) as [(f & t & al & p & ts & nonce & rest & Hf & ->)|[Hg|(h & Hg & Hl & Hm)]].
  - rewrite tcp_view by done. repeat (apply no_panic_guard; intros _). unfold verify. destruct (bytes_eqb _ _); [|done].
    cbn [mbind result_bind]. repeat (apply no_panic_guard; intros _).
    apply no_panic_bind; [apply parse_address_no_panic|done].
  - unfold decode_authenticated_request. by rewrite Hg.
  - unfold decode_authenticated_request. rewrite Hg. erewrite bind_step by done.
    by rewrite (proj1 (not_magic_rejected h Hl Hm)).
Qed.

Lemma decode_udp_no_panic input key now d : no_panic (decode_udp_open input key now d).
Proof.
  destruct (input_view input) as [(f & t & al & p & ts & nonce & rest & Hf & ->)|[Hg|(h & Hg & Hl & Hm)]].
  - rewrite udp_view by done. repeat (apply no_panic_guard; intros _). unfold verify_open_tag. destruct (bytes_eqb _ _); [|done].
    cbn [mbind result_bind]. repeat (apply no_panic_guard; intros _).
    apply no_panic_bind; [apply parse_address_no_panic|done].
  - unfold decode_udp_open. by rewrite Hg.
  - unfold decode_udp_open. rewrite Hg. erewrite bind_step by done.
    by rewrite (proj2 (not_magic_rejected h Hl Hm)).
Qed.

Lemma tcp_decode_iff input key now d r :
  decode_authenticated_request input key now d = Ok r <->
  request_wf r /\ abs_diff (ar_timestamp r) now <= d /\ input = tcp_wire key r.
Proof.
  split; [|intros (Hw & Ht & ->); by apply tcp_completes]. intros H.
  destruct (input_view input) as [(f & t & al & p & ts & nonce & rest & Hf & ->)|[Hg|(h & Hg & Hl & Hm)]].
  - by apply tcp_accepts.
  - unfold decode_authenticated_request in H. by rewrite Hg in H.
  - unfold decode_authenticated_request in H. rewrite Hg in H. erewrite bind_step in H by done.
    by rewrite (proj1 (not_magic_rejected h Hl Hm)) in H.
Qed.

Lemma udp_decode_iff input key now d o :
  decode_udp_open input key now d = Ok o <->
  udp_open_wf o /\ abs_diff (uo_timestamp o) now <= d /\ input = udp_wire key o.
Proof.
  split; [|intros (Hw & Ht & ->); by apply udp_completes]. intros H.
  destruct (input_view input) as [(f & t & al & p & ts & nonce & rest & Hf & ->)|[Hg|(h & Hg & Hl & Hm)]].
  - by apply udp_accepts.
  - unfold decode_udp_open in H. by rewrite Hg in H.
  - unfold decode_udp_open in H. rewrite Hg in H. erewrite bind_step in H by done.
    by rewrite (proj2 (not_magic_rejected h Hl Hm)) in H.
Qed.

(** The flag separates the modes: no byte string is an open of both. *)
Lemma wire_modes_differ key key' r o : tcp_wire key r <> udp_wire key' o.
Proof. unfold tcp_wire, udp_wire, open_body, open_header. cbn [app]. intros [=]. Qed.

(** ** The encoders produce the reference encoding *)

(** What the Rust types guarantee of an [Address]. *)
Definition address_typed (a : Address) : Prop :=
  match a with Ipv4 o => len o = 4 | Domain n => from_utf8 n = true | Ipv6 o => len o = 16 end.

(** A domain neither encoder accepts. *)
Definition domain_rejected (a : Address) : bool :=
  match a with Domain n => (len n =? 0) || (MAX_DOMAIN_LEN <? len n) | _ => false end.

Lemma accepted_address_wf a : address_typed a -> domain_rejected a = false -> nxr_address_wf a.
Proof.
  destruct a as [o|n|o]; cbn [address_typed domain_rejected nxr_address_wf]; [done| |done].
  intros Hu He. pose proof (len_nonneg n). split; [|done]. lia.
Qed.

Lemma address_shape_eq {E} (e : E) a :
  address_typed a ->
  address_shape e a = if domain_rejected a then Err e else Ok (address_code a, len (address_octets a)).
Proof. destruct a as [o|n|o]; cbn; [by intros ->| |by intros ->]. by destruct (_ || _). Qed.

Lemma request_shape_eq d :
  address_typed (address d) ->
  request_shape d =
    if domain_rejected (address d) then Err NAddress else if port d =? 0 then Err NPort
    else Ok (address_code (address d), len (address_octets (address d)),
             REQUEST_HEADER_LEN + len (address_octets (address d)) + TAG_LEN).
Proof.
  intros Ht. unfold request_shape. rewrite address_shape_eq by done. destruct (domain_rejected _) eqn:Hd; [done|].
  pose proof (address_octets_len _ (accepted_address_wf _ Ht Hd)) as Hl. nxr_consts. cbn [mbind result_bind].
  replace (try_from U16_MAX _) with (Some (len (address_octets (address d))))
    by (symmetry; apply try_from_some; unfold U16_MAX; lia).
  erewrite bind_step by done. destruct (port d =? 0); [done|]. rewrite guard_pass by done. rewrite !usize_step by lia.
  rewrite guard_pass by lia. done.
Qed.

Lemma udp_open_shape_eq d :
  address_typed (address d) ->
  udp_open_shape d =
    if domain_rejected (address d) then Err NuAddress else if port d =? 0 then Err NuPort
    else Ok (address_code (address d), len (address_octets (address d)),
             REQUEST_HEADER_LEN + len (address_octets (address d)) + UDP_OPEN_TRAILER + OPEN_TAG_LEN).
Proof.
  intros Ht. unfold udp_open_shape. rewrite address_shape_eq by done. destruct (domain_rejected _) eqn:Hd; [done|].
  pose proof (address_octets_len _ (accepted_address_wf _ Ht Hd)) as Hl. nxr_consts. cbn [mbind result_bind].
  replace (try_from U16_MAX _) with (Some (len (address_octets (address d))))
    by (symmetry; apply try_from_some; unfold U16_MAX; lia).
  erewrite bind_step by done. destruct (port d =? 0); [done|]. rewrite guard_pass by done. rewrite !usize_step by lia.
  rewrite guard_pass by lia. done.
Qed.

Lemma encode_request_ok alloc d ts nonce key output out :
  address_typed (address d) -> u16_range (port d) ->
  encode_request alloc d ts nonce key output = (Ok tt, out) ->
  nxr_destination_wf d /\ out = tcp_wire key {| ar_timestamp := ts; ar_nonce := nonce; ar_destination := d |}.
Proof.
  intros Ht Hp. unfold encode_request. rewrite request_shape_eq by done.
  destruct (domain_rejected _) eqn:Hd; [done|]. destruct (Z.eqb_spec (port d) 0); [done|]. destruct (alloc _); [|done].
  intros [= <-]. split; [split; [by apply accepted_address_wf|unfold u16_range in Hp; lia]|].
  unfold tcp_wire, open_body, open_header, authenticate. cbn [ar_timestamp ar_nonce ar_destination].
  rewrite <- !app_assoc. rewrite !(app_nil_r (address_octets _)). done.
Qed.

Lemma encode_udp_open_ok alloc d uid ts nonce key output out :
  address_typed (address d) -> u16_range (port d) ->
  encode_udp_open alloc d uid ts nonce key output = (Ok tt, out) ->
  nxr_destination_wf d /\
  out = udp_wire key {| uo_timestamp := ts; uo_nonce := nonce; uo_destination := d; uo_user_id := uid |}.
Proof.
  intros Ht Hp. unfold encode_udp_open. rewrite udp_open_shape_eq by done.
  destruct (domain_rejected _) eqn:Hd; [done|]. destruct (Z.eqb_spec (port d) 0); [done|]. destruct (alloc _); [|done].
  intros [= <-]. split; [split; [by apply accepted_address_wf|unfold u16_range in Hp; lia]|].
  unfold udp_wire, open_body, open_header, open_tag, key_tag. cbn [uo_timestamp uo_nonce uo_destination uo_user_id].
  rewrite <- !app_assoc. done.
Qed.
End OpenTheorems.

(** An NXR open is accepted exactly when it is an encoding under the key.
    For every input, key and clock: the TCP decoder returns a request precisely
    when the input is, byte for byte, the encoding of that request with its HMAC,
    the request is well formed (non-zero port, UTF-8 domain of 1 to 253 bytes)
    and its timestamp lies within the window; likewise the UDP decoder with its
    user id; neither panics, and no input is accepted in both modes. *)
Theorem nxr_open_exact {C : CryptoOps} {L : CryptoLaws C} (input : list byte) (key : NxrKey) (now d : Z) :
  (forall r, decode_authenticated_request input key now d = Ok r <->
    request_wf r /\ abs_diff (ar_timestamp r) now <= d /\ input = tcp_wire key r) /\
  (forall o, decode_udp_open input key now d = Ok o <->
    udp_open_wf o /\ abs_diff (uo_timestamp o) now <= d /\ input = udp_wire key o) /\
  no_panic (decode_authenticated_request input key now d) /\ no_panic (decode_udp_open input key now d) /\
  (is_ok (decode_authenticated_request input key now d) && is_ok (decode_udp_open input key now d)) = false.
Proof.
  split_and!; [intros; apply tcp_decode_iff|intros; apply udp_decode_iff|apply decode_tcp_no_panic
    |apply decode_udp_no_panic|].
  destruct (decode_authenticated_request input key now d) as [r| |] eqn:H1; [|done..].
  destruct (decode_udp_open input key now d) as [o| |] eqn:H2; [|done..].
  apply tcp_decode_iff in H1 as (_ & _ & ->). apply udp_decode_iff in H2 as (_ & _ & H2).
  by apply wire_modes_differ in H2.
Qed.

Definition example_request : AuthenticatedRequest :=
  {| ar_timestamp := 1700000000; ar_nonce := replicate 16 x07;
     ar_destination := {| address := Domain (bytes_of "example.com"); port := 443 |} |}.

Lemma nxr_open_exact_witness :
  decode_authenticated_request (tcp_wire (replicate 32 x0b) example_request) (replicate 32 x0b) 1700000030 30 = Ok example_request /\
  decode_authenticated_request (tcp_wire (replicate 32 x0b) example_request) (replicate 32 x0b) 1700000031 30 = Err NTimeWindow.
Proof.
  split; [|vm_compute; reflexivity].
  apply (nxr_open_exact (C := toy_ops) (L := toy_laws)). split_and!; try reflexivity; vm_compute; split_and!; congruence.
Defined.
