(* ===== verification/NxrUdp.v ===== *)
(** * NXR UDP framing ([src/protocol/nxr_udp])

    The framed datagrams of an authenticated NXR UDP association: frame MACs,
    encoder, decoder, the drain loop over the stream buffer and the exact
    sequence tracker. *)

From S2P Require Import Prelude VlessRequest Xudp Crypto Replay Nxr.
#[local] Open Scope Z_scope.

Definition DIR_LINE_TO_LANDING : byte := x00.
Definition DIR_LANDING_TO_LINE : byte := x01.
Definition FRAME_TYPE_DATAGRAM : byte := x01.
Definition FRAME_TYPE_CLOSE : byte := x02.
Definition FRAME_FLAG_DESTINATION : byte := x01.
Definition SESSION_TAG_LEN : Z := 32.
Definition NXR_UDP_MAX_PAYLOAD : Z := XUDP_MAX_PAYLOAD_LEN.
Definition FRAME_LEN_SIZE : Z := 4.
Definition MAX_FRAME_DEST_LEN : Z := 1 + 2 + 2 + MAX_DOMAIN_LEN.
Definition MAX_FRAME_BODY_LEN : Z := 1 + 1 + 4 + MAX_FRAME_DEST_LEN + 2 + NXR_UDP_MAX_PAYLOAD.
Definition MAX_FRAME_WIRE_LEN : Z := FRAME_LEN_SIZE + MAX_FRAME_BODY_LEN + SESSION_TAG_LEN.
Definition FRAME_MAC_LABEL : list byte := bytes_of "rust-reality/nxr-udp/v1/frame-mac" ++ [x00].

Record NxrUdpFrame := { frame_type : byte; seq : Z; frame_destination : option Destination; payload : list byte }.

(** ** [NxrUdpSeq]: [next] is a [u64] one past the last wire value *)

Record NxrUdpSeq := { next : Z }.

Definition new_seq : NxrUdpSeq := {| next := 0 |}.

Definition next_out (s : NxrUdpSeq) : result NxrUdpError Z * NxrUdpSeq :=
  match try_from U32_MAX (next s) with
  | None => (Err NuSequence, s)
  | Some seq => (Ok seq, {| next := next s + 1 |})
  end.

Definition accept_in (s : NxrUdpSeq) (seq : Z) : result NxrUdpError unit * NxrUdpSeq :=
  if negb (seq =? next s) then (Err NuSequence, s) else (Ok tt, {| next := next s + 1 |}).

(** ** Frame bodies *)

Definition decode_destination (input : list byte) : result NxrUdpError (Destination * Z) :=
  guard! len input <? 5 else NuTruncated;
  address_type ← index input 0;
  l0 ← index input 1; l1 ← index input 2;
  p0 ← index input 3; p1 ← index input 4;
  let address_len := from_be [l0; l1] in
  let port := from_be [p0; p1] in
  guard! port =? 0 else NuPort;
  total ← ok_or NuLength (checked_add USIZE_MAX 5 address_len);
  guard! len input <? total else NuTruncated;
  bytes ← slice input 5 total;
  parsed ← parse_address NuAddress address_type bytes;
  Ok ({| address := parsed; port := port |}, total).

Definition is_frame_type (b : byte) : bool := bool_decide (b = FRAME_TYPE_DATAGRAM) || bool_decide (b = FRAME_TYPE_CLOSE).

Definition parse_frame_body (body : list byte) : result NxrUdpError NxrUdpFrame :=
  guard! len body <? 8 else NuLength;
  frame_type ← index body 0;
  guard! negb (is_frame_type frame_type) else NuFrameType;
  flags ← index body 1;
  guard! negb (Z.land (u8 flags) (255 - u8 FRAME_FLAG_DESTINATION) =? 0) else NuFlags;
  seq ← slice body 2 6;
  '(destination, offset) ←
    (if negb (Z.land (u8 flags) (u8 FRAME_FLAG_DESTINATION) =? 0) then
       tail ← slice_from body 6;
       '(dest, consumed) ← decode_destination tail;
       offset ← ok_or NuLength (checked_add USIZE_MAX 6 consumed);
       Ok (Some dest, offset)
     else Ok (None, 6));
  payload_len ← read_u16 NuLength body offset;
  offset ← ok_or NuLength (checked_add USIZE_MAX offset 2);
  guard! NXR_UDP_MAX_PAYLOAD <? payload_len else NuPayload;
  end_ ← ok_or NuLength (checked_add USIZE_MAX offset payload_len);
  guard! negb (end_ =? len body) else NuLength;
  payload ← slice body offset end_;
  Ok {| frame_type := frame_type; seq := from_be seq; frame_destination := destination; payload := payload |}.

Definition frame_wire_len_from_prefix (prefix : list byte) : result NxrUdpError Z :=
  guard! len prefix <? FRAME_LEN_SIZE else NuTruncated;
  bytes ← slice prefix 0 FRAME_LEN_SIZE;
  body_len ← ok_or NuLength (try_from USIZE_MAX (from_be bytes));
  guard! (body_len =? 0) || (MAX_FRAME_BODY_LEN <? body_len) else NuLength;
  n ← ok_or NuLength (checked_add USIZE_MAX FRAME_LEN_SIZE body_len);
  ok_or NuLength (checked_add USIZE_MAX n SESSION_TAG_LEN).

(** [destination_shape] of the encoder. *)
Definition destination_shape (d : option Destination) : result NxrUdpError (option (byte * Z)) :=
  match d with
  | None => Ok None
  | Some d =>
    '(kind, n) ← address_shape NuAddress (address d);
    guard! port d =? 0 else NuPort;
    n ← ok_or NuAddress (try_from U16_MAX n);
    Ok (Some (kind, n))
  end.

Section Frames.
Context {C : CryptoOps} (alloc : Z -> bool).

Definition frame_tag (session : list byte) (direction : byte) (body : list byte) : list byte :=
  hmac session (FRAME_MAC_LABEL ++ [direction] ++ body).

Definition verify_frame (session : list byte) (direction : byte) (body tag : list byte) : result NxrUdpError unit :=
  if bytes_eqb tag (hmac session (FRAME_MAC_LABEL ++ [direction] ++ body)) then Ok tt else Err NuAuthentication.

(** The checks of [encode_frame] before it touches the buffer: the shape and
    the body, payload and wire lengths. *)
Definition frame_checks (direction frame_type : byte) (destination : option Destination) (payload : list byte)
    : result NxrUdpError (option (byte * Z) * Z * Z * Z) :=
  guard! NXR_UDP_MAX_PAYLOAD <? len payload else NuPayload;
  guard! negb (is_frame_type frame_type) else NuFrameType;
  guard! negb (bool_decide (direction = DIR_LINE_TO_LANDING)) && negb (bool_decide (direction = DIR_LANDING_TO_LINE))
    else NuDirection;
  shape ← destination_shape destination;
  let dest_len := match shape with Some (_, n) => 5 + n | None => 0 end in
  n ← ok_or NuLength (checked_add USIZE_MAX 1 1);
  n ← ok_or NuLength (checked_add USIZE_MAX n 4);
  n ← ok_or NuLength (checked_add USIZE_MAX n dest_len);
  n ← ok_or NuLength (checked_add USIZE_MAX n 2);
  body_len ← ok_or NuLength (checked_add USIZE_MAX n (len payload));
  guard! MAX_FRAME_BODY_LEN <? body_len else NuLength;
  payload_len ← ok_or NuPayload (try_from U16_MAX (len payload));
  n ← ok_or NuLength (checked_add USIZE_MAX FRAME_LEN_SIZE body_len);
  wire_len ← ok_or NuLength (checked_add USIZE_MAX n SESSION_TAG_LEN);
  body_len ← ok_or NuLength (try_from U32_MAX body_len);
  Ok (shape, body_len, payload_len, wire_len).

Definition encode_frame (session : list byte) (direction frame_type : byte) (seq : Z) (destination : option Destination)
    (payload output : list byte) : result NxrUdpError unit * list byte :=
  match frame_checks direction frame_type destination payload with
  | Err e => (Err e, output)
  | Panic => (Panic, output)
  | Ok (shape, body_len, payload_len, wire_len) =>
    if alloc wire_len then
      let flags := match destination with Some _ => FRAME_FLAG_DESTINATION | None => x00 end in
      let output := to_be 4 body_len ++ [frame_type] ++ [flags] ++ to_be 4 seq ++
        match destination, shape with
        | Some d, Some (kind, n) => [kind] ++ to_be 2 n ++ to_be 2 (port d) ++ address_octets (address d)
        | _, _ => []
        end ++ to_be 2 payload_len ++ payload in
      match (slice_from output FRAME_LEN_SIZE : result NxrUdpError (list byte)) with
      | Ok body => (Ok tt, output ++ frame_tag session direction body)
      | _ => (Panic, output)
      end
    else (Err NuAllocation, [])
  end.

Definition decode_frame (input session : list byte) (direction : byte) : result NxrUdpError (NxrUdpFrame * Z) :=
  wire_len ← frame_wire_len_from_prefix input;
  guard! len input <? wire_len else NuTruncated;
  body_len ← ok_or NuLength (checked_sub wire_len (FRAME_LEN_SIZE + SESSION_TAG_LEN));
  body ← slice input FRAME_LEN_SIZE (FRAME_LEN_SIZE + body_len);
  tag ← slice input (FRAME_LEN_SIZE + body_len) wire_len;
  _ ← verify_frame session direction body tag;
  frame ← parse_frame_body body;
  Ok (frame, wire_len).

(** [drain_frames]: the result and the buffer it leaves. The loop removes at
    least one byte per turn ([drain_fuel_enough] below). *)
Fixpoint drain_loop (fuel : nat) (buffer session : list byte) (direction : byte) (frames : list NxrUdpFrame)
    : result NxrUdpError (list NxrUdpFrame) * list byte :=
  match fuel with
  | O => (Ok frames, buffer)
  | S fuel =>
    if len buffer <? FRAME_LEN_SIZE then (Ok frames, buffer)
    else
      match frame_wire_len_from_prefix buffer with
      | Panic => (Panic, buffer)
      | Err NuTruncated => (Ok frames, buffer)
      | Err e => (Err e, buffer)
      | Ok wire_len =>
        if len buffer <? wire_len then (Ok frames, buffer)
        else
          match (w ← slice buffer 0 wire_len; decode_frame w session direction) with
          | Panic => (Panic, buffer)
          | Err e => (Err e, buffer)
          | Ok (frame, consumed) =>
            drain_loop fuel (drop (Z.to_nat consumed) buffer) session direction (frames ++ [frame])
          end
      end
  end.

Definition drain_frames (buffer session : list byte) (direction : byte)
    : result NxrUdpError (list NxrUdpFrame) * list byte :=
  drain_loop (S (length buffer)) buffer session direction [].
End Frames.

(** ** Reference encoding *)

Definition enc_dest (d : Destination) : list byte :=
  [address_code (address d)] ++ to_be 2 (len (address_octets (address d))) ++ to_be 2 (port d) ++ address_octets (address d).

Definition enc_dest_opt (d : option Destination) : list byte := match d with Some d => enc_dest d | None => [] end.

Definition dest_flag (d : option Destination) : byte := match d with Some _ => FRAME_FLAG_DESTINATION | None => x00 end.

Definition frame_body (f : NxrUdpFrame) : list byte :=
  [frame_type f] ++ [dest_flag (frame_destination f)] ++ to_be 4 (seq f) ++ enc_dest_opt (frame_destination f) ++
  to_be 2 (len (payload f)) ++ payload f.

Definition frame_wire {C : CryptoOps} (session : list byte) (direction : byte) (f : NxrUdpFrame) : list byte :=
  to_be 4 (len (frame_body f)) ++ frame_body f ++ frame_tag session direction (frame_body f).

(** What the decoder lets through: unlike the encoder it does not bound the
    length of a domain by itself. *)
Definition wire_dest_ok (d : Destination) : Prop :=
  address_typed (address d) /\ len (address_octets (address d)) <= U16_MAX /\ 1 <= port d <= U16_MAX.

Definition wire_frame_ok (f : NxrUdpFrame) : Prop :=
  is_frame_type (frame_type f) = true /\ u32_range (seq f) /\ len (payload f) <= NXR_UDP_MAX_PAYLOAD /\
  match frame_destination f with Some d => wire_dest_ok d | None => True end /\
  len (frame_body f) <= MAX_FRAME_BODY_LEN.

(** What the encoder accepts. *)
Definition frame_ok (f : NxrUdpFrame) : Prop :=
  is_frame_type (frame_type f) = true /\ u32_range (seq f) /\ len (payload f) <= NXR_UDP_MAX_PAYLOAD /\
  match frame_destination f with Some d => nxr_destination_wf d | None => True end.

Ltac frame_consts :=
  unfold MAX_FRAME_WIRE_LEN, MAX_FRAME_BODY_LEN, MAX_FRAME_DEST_LEN, NXR_UDP_MAX_PAYLOAD, XUDP_MAX_PAYLOAD_LEN,
    XRAY_BUF_SIZE, FRAME_LEN_SIZE, SESSION_TAG_LEN, MAX_DOMAIN_LEN in *.

Lemma len_enc_dest d : len (enc_dest d) = 5 + len (address_octets (address d)).
Proof. unfold enc_dest. autorewrite with lens. lia. Qed.

Lemma len_frame_body f : len (frame_body f) = 8 + len (enc_dest_opt (frame_destination f)) + len (payload f).
Proof. unfold frame_body. autorewrite with lens. lia. Qed.

Lemma be_pair z : exists a b, to_be 2 z = [a; b].
Proof. pose proof (length_to_be 2 z) as H. destruct (to_be 2 z) as [|a [|b [|]]]; try done. by exists a, b. Qed.

Lemma be_of_pair a b : to_be 2 (from_be [a; b]) = [a; b].
Proof. by apply to_be_from_be. Qed.

Lemma decode_destination_iff input d n :
  decode_destination input = Ok (d, n) <->
  wire_dest_ok d /\ n = len (enc_dest d) /\ exists rest, input = enc_dest d ++ rest.
Proof.
  unfold decode_destination. split.
  - intros H. apply bind_ok in H as ([] & Hl%reject_ok%Z.ltb_ge & H).
    destruct input as [|t [|l0 [|l1 [|p0 [|p1 input]]]]]; [slen..|].
    do 5 erewrite bind_step in H by reflexivity.
    apply bind_ok in H as ([] & Hp%reject_ok%Z.eqb_neq & H).
    pose proof (from_be_u16_range [l0; l1] eq_refl) as Hal. pose proof (from_be_u16_range [p0; p1] eq_refl) as Hpr.
    unfold u16_range, U16_MAX in *. rewrite usize_step in H by lia.
    apply bind_ok in H as ([] & Ht%reject_ok%Z.ltb_ge & H).
    apply bind_ok in H as (bytes & Hb & H). apply bind_ok in H as (a & Ha & H). injection H as <- <-.
    apply (slice_tail [t; l0; l1; p0; p1]) in Hb as (rest & -> & Hlen); [|done].
    apply parse_address_inv in Ha as (<- & <- & Hty). rewrite Z.add_simpl_l in Hlen.
    split_and!.
    + unfold wire_dest_ok, U16_MAX. cbn [address port]. split_and!; try lia. by destruct a.
    + rewrite len_enc_dest. cbn [address]. lia.
    + exists rest. unfold enc_dest. cbn [address port]. rewrite Hlen, !be_of_pair. done.
  - intros ((Ht & Hl & Hp) & -> & rest & ->). pose proof (len_nonneg (address_octets (address d))).
    rewrite guard_pass by (apply Z.ltb_ge; rewrite len_app, len_enc_dest; slen).
    unfold enc_dest. destruct (be_pair (len (address_octets (address d)))) as (l0 & l1 & El).
    destruct (be_pair (port d)) as (p0 & p1 & Ep). rewrite El, Ep. cbn [app].
    do 5 erewrite bind_step by reflexivity. rewrite <- El, <- Ep, !from_be_u16 by (unfold u16_range, U16_MAX in *; lia).
    rewrite guard_pass by lia. unfold U16_MAX in *. rewrite usize_step by lia.
    rewrite guard_pass by (apply Z.ltb_ge; autorewrite with lens; slen).
    erewrite bind_step; [|apply (slice_mid [address_code (address d); l0; l1; p0; p1]); done].
    replace (parse_address _ _ _) with (Ok (address d) : result NxrUdpError _).
    + cbn [mbind result_bind]. autorewrite with lens. destruct d as [a p]. cbn [address port]. do 2 f_equal. lia.
    + unfold parse_address. destruct (address d) as [o|n|o]; cbn in *; [by rewrite Ht|by rewrite Ht|by rewrite Ht].
Qed.

Lemma slice_end {E A} (k o : list A) i j :
  i = len k -> j = i + len o -> (slice (k ++ o) i j : result E _) = Ok o.
Proof. intros. pose proof (slice_mid (E := E) k o [] i j) as H1. rewrite app_nil_r in H1. by apply H1. Qed.

(** The length-prefixed payload that ends a body. *)
Lemma payload_tail pre tail t sq d f :
  len pre <= 80000 ->
  (payload_len ← read_u16 NuLength (pre ++ tail) (len pre);
   offset ← ok_or NuLength (checked_add USIZE_MAX (len pre) 2);
   guard! NXR_UDP_MAX_PAYLOAD <? payload_len else NuPayload;
   end_ ← ok_or NuLength (checked_add USIZE_MAX offset payload_len);
   guard! negb (end_ =? len (pre ++ tail)) else NuLength;
   payload ← slice (pre ++ tail) offset end_;
   Ok {| frame_type := t; seq := sq; frame_destination := d; payload := payload |}) = Ok f <->
  exists pl, len pl <= NXR_UDP_MAX_PAYLOAD /\ tail = to_be 2 (len pl) ++ pl /\
    f = {| frame_type := t; seq := sq; frame_destination := d; payload := pl |}.
Proof.
  intros Hpre. pose proof (len_nonneg pre). split.
  - intros Hok. apply bind_ok in Hok as (n & Hn & Hok). unfold read_u16 in Hn.
    apply bind_ok in Hn as (q & Hq%ok_or_ok & Hn). injection Hn as <-.
    apply (slice_ok (E := NxrUdpError)) in Hq. apply slice_tail in Hq as (pl & -> & Hlq); [|done].
    assert (Hq2 : len q = 2) by lia. pose proof (from_be_u16_range q Hq2) as Hr. unfold u16_range, U16_MAX in Hr.
    rewrite usize_step in Hok by lia. apply bind_ok in Hok as ([] & Hm%reject_ok%Z.ltb_ge & Hok).
    frame_consts. rewrite usize_step in Hok by lia.
    apply bind_ok in Hok as ([] & He%reject_ok%negb_false_iff%Z.eqb_eq & Hok).
    rewrite !len_app in He. rewrite app_assoc in Hok.
    erewrite bind_step in Hok by (apply slice_end; rewrite ?len_app; lia).
    injection Hok as <-. exists pl. split_and!; [lia| |done].
    replace (len pl) with (from_be q) by lia. rewrite to_be_from_be by (unfold len in Hq2; lia). done.
  - intros (pl & Hm & -> & ->). pose proof (len_nonneg pl). frame_consts.
    assert (Hr : read_u16 NuLength (pre ++ to_be 2 (len pl) ++ pl) (len pre) = Ok (len pl)).
    { unfold read_u16. erewrite bind_step; [f_equal; apply from_be_u16; unfold u16_range, U16_MAX; lia|].
      apply ok_or_ok, (slice_ok (E := NxrUdpError)), slice_mid; [done|]. rewrite len_to_be. lia. }
    rewrite Hr. erewrite bind_step by done. rewrite usize_step by lia. rewrite guard_pass by lia.
    rewrite usize_step by lia. rewrite guard_pass by (apply negb_false_iff, Z.eqb_eq; rewrite !len_app, len_to_be; lia).
    erewrite bind_step; [done|]. rewrite app_assoc. apply slice_end; rewrite ?len_app, ?len_to_be; lia.
Qed.

Lemma flag_cases b : Z.land (u8 b) (255 - u8 FRAME_FLAG_DESTINATION) = 0 -> b = x00 \/ b = x01.
Proof. destruct b; try discriminate; auto. Qed.

Lemma parse_frame_body_iff body f :
  len body <= MAX_FRAME_BODY_LEN ->
  parse_frame_body body = Ok f <-> wire_frame_ok f /\ body = frame_body f.
Proof.
  intros Hmax. unfold parse_frame_body. split.
  - intros H. apply bind_ok in H as ([] & Hl%reject_ok%Z.ltb_ge & H).
    destruct body as [|t [|fl body]]; [slen..|]. do 2 autorewrite with lens in Hmax, Hl.
    erewrite bind_step in H by reflexivity. apply bind_ok in H as ([] & Ht%reject_ok%negb_false_iff & H).
    erewrite bind_step in H by reflexivity.
    apply bind_ok in H as ([] & Hfl%reject_ok%negb_false_iff%Z.eqb_eq%flag_cases & H).
    apply bind_ok in H as (s & Hs & H). apply (slice_tail [t; fl]) in Hs as (rest & -> & Hls); [|done].
    assert (Hseq : u32_range (from_be s)) by (apply from_be_u32_range; lia).
    assert (Hbe : to_be 4 (from_be s) = s) by (apply to_be_from_be; unfold len in Hls; lia).
    apply bind_ok in H as ([d off] & Hd & H).
    assert (Hdo : match d with Some d => wire_dest_ok d | None => True end /\ fl = dest_flag d /\
      off = 6 + len (enc_dest_opt d) /\ exists tail, rest = enc_dest_opt d ++ tail).
    { destruct Hfl as [-> | ->]; cbn in Hd.
      - injection Hd as <- <-. split_and!; try done. by exists rest.
      - apply bind_ok in Hd as (tail & Htl & Hd).
        pose proof (slice_from_app (E := NxrUdpError) (t :: x01 :: s) rest 6 ltac:(slen)) as Hsf.
        cbn [app] in Hsf. rewrite Hsf in Htl. injection Htl as <-.
        apply bind_ok in Hd as ([d' c] & Hdec & Hd). apply decode_destination_iff in Hdec as (Hok & -> & tl & ->).
        pose proof (len_nonneg tl). autorewrite with lens in Hmax. frame_consts. rewrite usize_step in Hd by lia.
        injection Hd as <- <-. split_and!; try done. by exists tl. }
    destruct Hdo as (Hdest & -> & -> & tail & ->).
    replace (t :: dest_flag d :: s ++ enc_dest_opt d ++ tail)
      with ((t :: dest_flag d :: s ++ enc_dest_opt d) ++ tail) in H by (cbn; by rewrite <- app_assoc).
    pose proof (len_nonneg tail). autorewrite with lens in Hmax.
    replace (6 + len (enc_dest_opt d)) with (len (t :: dest_flag d :: s ++ enc_dest_opt d)) in H by slen.
    apply payload_tail in H as (pl & Hpl & -> & ->); [|frame_consts; slen].
    assert (Hb : t :: dest_flag d :: s ++ enc_dest_opt d ++ to_be 2 (len pl) ++ pl =
      frame_body {| frame_type := t; seq := from_be s; frame_destination := d; payload := pl |}).
    { unfold frame_body. cbn [frame_type seq frame_destination payload]. rewrite Hbe. done. }
    split; [|exact Hb]. split_and!; try done. rewrite <- Hb. slen.
  - intros ((Ht & Hseq & Hpl & Hdest & _) & ->). destruct f as [t sq d pl].
    unfold frame_body in *. cbn [frame_type seq frame_destination payload] in *. autorewrite with lens in Hmax.
    pose proof (len_nonneg pl). pose proof (len_nonneg (enc_dest_opt d)).
    rewrite guard_pass by (apply Z.ltb_ge; slen). cbn [app].
    erewrite bind_step by reflexivity. rewrite Ht, guard_pass by done. erewrite bind_step by reflexivity.
    rewrite guard_pass by (by destruct d).
    erewrite bind_step by (apply (slice_mid [t; dest_flag d]); [done|rewrite len_to_be; done]).
    rewrite from_be_u32 by done.
    erewrite (bind_step _ (d, 6 + len (enc_dest_opt d))).
    + pose proof (len_to_be 4 sq).
      replace (6 + len (enc_dest_opt d)) with (len (t :: dest_flag d :: to_be 4 sq ++ enc_dest_opt d)) by slen.
      replace (t :: dest_flag d :: to_be 4 sq ++ enc_dest_opt d ++ to_be 2 (len pl) ++ pl)
        with ((t :: dest_flag d :: to_be 4 sq ++ enc_dest_opt d) ++ to_be 2 (len pl) ++ pl)
        by (cbn [app]; by rewrite <- app_assoc).
      apply payload_tail; [frame_consts; slen|]. by exists pl.
    + destruct d as [d|]; [|done]. cbn [dest_flag enc_dest_opt].
      change (Z.land _ _ =? 0) with false. cbn [negb].
      erewrite bind_step by (apply (slice_from_app (t :: FRAME_FLAG_DESTINATION :: to_be 4 sq)); pose proof (len_to_be 4 sq); slen).
      erewrite bind_step by (apply decode_destination_iff; split_and!; [done|done|by eexists]).
      cbn [enc_dest_opt] in *. frame_consts. rewrite usize_step by lia. done.
Qed.

Lemma decode_destination_no_panic input : no_panic (decode_destination input).
Proof.
  unfold decode_destination. apply no_panic_guard; intros Hl%Z.ltb_ge.
  destruct input as [|t [|l0 [|l1 [|p0 [|p1 input]]]]]; [slen..|]. do 5 erewrite bind_step by reflexivity.
  apply no_panic_guard; intros _. pose proof (from_be_range [l0; l1]) as Hr. change (256 ^ len [l0; l1]) with 65536 in Hr.
  rewrite usize_step by lia.
  apply no_panic_guard; intros Ht%Z.ltb_ge. apply no_panic_bind; [apply slice_no_panic; lia|]. intros bytes _.
  apply no_panic_bind; [apply parse_address_no_panic|done].
Qed.

Lemma parse_frame_body_no_panic body : no_panic (parse_frame_body body).
Proof.
  unfold parse_frame_body. apply no_panic_guard; intros Hl%Z.ltb_ge.
  destruct body as [|t [|fl body]]; [slen..|]. erewrite bind_step by reflexivity. apply no_panic_guard; intros _.
  erewrite bind_step by reflexivity. apply no_panic_guard; intros _.
  apply no_panic_bind; [apply slice_no_panic; lia|]. intros s _. apply no_panic_bind.
  - destruct (negb _); [|done]. apply no_panic_bind; [apply slice_from_no_panic; lia|]. intros tl _.
    apply no_panic_bind; [apply decode_destination_no_panic|]. intros [d c] _.
    apply no_panic_bind; [apply no_panic_ok_or|done].
  - intros [d off] Hd. assert (0 <= off).
    { destruct (negb _); [|by injection Hd as <- <-]. apply bind_ok in Hd as (tl & _ & Hd).
      apply bind_ok in Hd as ([d' c] & (_ & -> & _)%decode_destination_iff & Hd).
      apply bind_ok in Hd as (o & (-> & _)%ok_or_ok%checked_add_some & Hd). injection Hd as <- <-. slen. }
    apply no_panic_bind; [unfold read_u16; apply no_panic_bind; [apply no_panic_ok_or|done]|]. intros n Hn.
    unfold read_u16 in Hn. apply bind_ok in Hn as (q & _ & [= <-]). pose proof (from_be_range q).
    apply no_panic_bind; [apply no_panic_ok_or|]. intros o2 (-> & _)%ok_or_ok%checked_add_some.
    apply no_panic_guard; intros _. apply no_panic_bind; [apply no_panic_ok_or|]. intros e (-> & _)%ok_or_ok%checked_add_some.
    apply no_panic_guard; intros He%negb_false_iff%Z.eqb_eq. apply no_panic_bind; [apply slice_no_panic; lia|done].
Qed.

(** ** Whole frames *)

Section FrameTheorems.
Context {C : CryptoOps} {L : CryptoLaws C}.

Lemma wire_len_view n rest :
  u32_range n ->
  frame_wire_len_from_prefix (to_be 4 n ++ rest) =
    (guard! (n =? 0) || (MAX_FRAME_BODY_LEN <? n) else NuLength; Ok (FRAME_LEN_SIZE + n + SESSION_TAG_LEN)).
Proof.
  intros Hn. unfold frame_wire_len_from_prefix, FRAME_LEN_SIZE.
  rewrite guard_pass by (apply Z.ltb_ge; rewrite len_app, len_to_be; slen).
  erewrite bind_step by (apply (slice_mid []); [done|by rewrite len_to_be]). rewrite from_be_u32 by done.
  erewrite bind_step by (apply ok_or_ok, try_from_some; split; [done|]; unfold u32_range, USIZE_MAX, U64_MAX, U32_MAX in *; lia).
  destruct ((n =? 0) || (MAX_FRAME_BODY_LEN <? n)) eqn:Hb; [done|]. rewrite !guard_pass by done.
  unfold u32_range in Hn. frame_consts. rewrite usize_step by lia. apply ok_or_ok, checked_add_some.
  unfold USIZE_MAX, U64_MAX. lia.
Qed.

Lemma prefix_view (l : list byte) : FRAME_LEN_SIZE <= len l -> exists n rest, u32_range n /\ l = to_be 4 n ++ rest.
Proof.
  intros Hl. unfold FRAME_LEN_SIZE in Hl. exists (from_be (take 4 l)), (drop 4 l).
  split; [apply from_be_u32_range; slen|]. rewrite to_be_from_be, take_drop; [done|]. rewrite length_take. unfold len in Hl. lia.
Qed.

Lemma len_frame_tag k d b : len (frame_tag k d b) = SESSION_TAG_LEN.
Proof. apply hmac_len. Qed.

Lemma len_frame_wire k d f : len (frame_wire k d f) = FRAME_LEN_SIZE + len (frame_body f) + SESSION_TAG_LEN.
Proof. unfold frame_wire. rewrite !len_app, len_to_be, len_frame_tag. unfold FRAME_LEN_SIZE. lia. Qed.

Lemma body_len_u32 f : wire_frame_ok f -> u32_range (len (frame_body f)) /\ 8 <= len (frame_body f) <= MAX_FRAME_BODY_LEN.
Proof.
  intros (_ & _ & _ & _ & Hb). rewrite len_frame_body in *. pose proof (len_nonneg (payload f)).
  pose proof (len_nonneg (enc_dest_opt (frame_destination f))). unfold u32_range, U32_MAX. frame_consts. lia.
Qed.

(** The decoder past the length prefix. *)
Lemma decode_frame_view n rest k dir :
  u32_range n ->
  decode_frame (to_be 4 n ++ rest) k dir =
    (guard! (n =? 0) || (MAX_FRAME_BODY_LEN <? n) else NuLength;
     guard! len rest <? n + SESSION_TAG_LEN else NuTruncated;
     _ ← verify_frame k dir (take (Z.to_nat n) rest) (take 32 (drop (Z.to_nat n) rest));
     frame ← parse_frame_body (take (Z.to_nat n) rest);
     Ok (frame, FRAME_LEN_SIZE + n + SESSION_TAG_LEN)).
Proof.
  intros Hn. unfold decode_frame. rewrite wire_len_view by done.
  destruct ((n =? 0) || (MAX_FRAME_BODY_LEN <? n)) eqn:Hb; [done|]. rewrite !guard_pass by done. erewrite bind_step by done.
  rewrite len_app, len_to_be. change (Z.of_nat 4) with FRAME_LEN_SIZE.
  replace (FRAME_LEN_SIZE + len rest <? FRAME_LEN_SIZE + n + SESSION_TAG_LEN) with (len rest <? n + SESSION_TAG_LEN) by lia.
  destruct (Z.ltb_spec (len rest) (n + SESSION_TAG_LEN)) as [|Hl]; [done|]. rewrite !guard_pass by done.
  unfold u32_range in Hn. replace (checked_sub _ _) with (Some n) by (symmetry; apply checked_sub_some; frame_consts; lia).
  erewrite bind_step by done. frame_consts. pose proof (len_to_be 4 n) as H4.
  erewrite bind_step by (apply slice_ok; rewrite get_range_app_r by lia; rewrite get_range_some by (frame_consts; lia); reflexivity).
  erewrite bind_step by (apply slice_ok; rewrite get_range_app_r by lia; rewrite get_range_some by (frame_consts; lia); reflexivity).
  rewrite H4. replace (4 + n - Z.of_nat 4 - (4 - Z.of_nat 4)) with n by lia.
  replace (4 + n - Z.of_nat 4) with n by lia. replace (4 + n + 32 - Z.of_nat 4 - n) with 32 by lia. done.
Qed.

Lemma decode_frame_iff input k dir f n :
  decode_frame input k dir = Ok (f, n) <->
  wire_frame_ok f /\ n = len (frame_wire k dir f) /\ exists rest, input = frame_wire k dir f ++ rest.
Proof.
  split.
  - intros H. destruct (decide (FRAME_LEN_SIZE <= len input)) as [Hl|Hl].
    2:{ unfold decode_frame, frame_wire_len_from_prefix in H.
        by rewrite (proj2 (Z.ltb_lt (len input) FRAME_LEN_SIZE)) in H by lia. }
    destruct (prefix_view input Hl) as (m & rest & Hm & ->). rewrite decode_frame_view in H by done.
    apply bind_ok in H as ([] & Hb%reject_ok & H). apply bind_ok in H as ([] & Hlen%reject_ok%Z.ltb_ge & H).
    apply bind_ok in H as ([] & Htag & H). apply bind_ok in H as (f' & Hp & H). injection H as <- <-.
    unfold u32_range in Hm. assert (Hbl : len (take (Z.to_nat m) rest) = m) by (rewrite len_take; frame_consts; lia).
    apply parse_frame_body_iff in Hp as [Hok Hbody]; [|rewrite Hbl; lia].
    unfold verify_frame in Htag. destruct (bytes_eqb _ _) eqn:He; [|done]. apply bytes_eqb_eq in He.
    assert (Hm' : m = len (frame_body f')) by congruence.
    split_and!; [done|rewrite len_frame_wire; lia|]. exists (drop 32 (drop (Z.to_nat m) rest)).
    unfold frame_wire, frame_tag. rewrite <- Hm', <- Hbody, <- He, <- !app_assoc, !take_drop. done.
  - intros (Hok & -> & rest & ->). destruct (body_len_u32 f Hok) as [Hu Hb].
    unfold frame_wire at 1. rewrite <- !app_assoc, decode_frame_view by done.
    rewrite guard_pass by lia. rewrite guard_pass by (apply Z.ltb_ge; rewrite !len_app, len_frame_tag; slen).
    destruct (take_octets (frame_body f) (frame_tag k dir (frame_body f) ++ rest) _ eq_refl) as [-> ->].
    replace (take 32 _) with (frame_tag k dir (frame_body f)).
    2:{ pose proof (len_frame_tag k dir (frame_body f)) as Ht. unfold len, SESSION_TAG_LEN in Ht.
        replace 32%nat with (length (frame_tag k dir (frame_body f))) by lia. by rewrite take_app_length. }
    unfold verify_frame, frame_tag. rewrite bytes_eqb_refl. erewrite bind_step by done.
    erewrite bind_step by (apply parse_frame_body_iff; [lia|done]). by rewrite len_frame_wire.
Qed.

Lemma encode_frame_no_panic alloc k dir t sq d pl output : no_panic (encode_frame alloc k dir t sq d pl output).1.
Proof.
  assert (Hc : no_panic (frame_checks dir t d pl)).
  { unfold frame_checks. repeat (apply no_panic_guard; intros _). apply no_panic_bind.
    - destruct d as [d|]; [|done]. cbn [destination_shape]. apply no_panic_bind.
      + destruct (address d); cbn; try done. by destruct (_ || _).
      + intros [kd n] _. apply no_panic_guard; intros _. apply no_panic_bind; [apply no_panic_ok_or|done].
    - intros sh _. do 5 (apply no_panic_bind; [apply no_panic_ok_or|intros ? _]). apply no_panic_guard; intros _.
      do 4 (apply no_panic_bind; [apply no_panic_ok_or|intros ? _]). done. }
  unfold encode_frame. destruct (frame_checks dir t d pl) as [[[[sh bl] pn] wl]| |]; [|done..].
  destruct (alloc wl); [|done]. unfold slice_from, slice. rewrite get_range_some; [done|done| |lia].
  rewrite len_app, len_to_be. frame_consts. slen.
Qed.

(** The encoder emits the reference encoding. *)
Lemma encode_frame_ok alloc k dir t sq d pl output out :
  match d with Some d => address_typed (address d) /\ u16_range (port d) | None => True end -> u32_range sq ->
  encode_frame alloc k dir t sq d pl output = (Ok tt, out) ->
  let f := {| frame_type := t; seq := sq; frame_destination := d; payload := pl |} in
  frame_ok f /\ out = frame_wire k dir f.
Proof.
  intros Hd Hs. unfold encode_frame. destruct (frame_checks dir t d pl) as [[[[sh bl] pn] wl]| |] eqn:Hc; [|done..].
  destruct (alloc wl); [|done]. unfold frame_checks in Hc.
  apply bind_ok in Hc as ([] & Hpl%reject_ok%Z.ltb_ge & Hc). apply bind_ok in Hc as ([] & Ht%reject_ok%negb_false_iff & Hc).
  apply bind_ok in Hc as ([] & _ & Hc). apply bind_ok in Hc as (sh' & Hsh & Hc).
  assert (Hdest : match d with Some d => nxr_destination_wf d | None => True end /\
    sh' = (fun d => (address_code (address d), len (address_octets (address d)))) <$> d).
  { unfold destination_shape in Hsh. destruct d as [d|]; [|by injection Hsh as <-]. destruct Hd as [Hty Hpr].
    rewrite address_shape_eq in Hsh by done. destruct (domain_rejected _) eqn:Hdr; [done|].
    erewrite bind_step in Hsh by done. apply bind_ok in Hsh as ([] & Hp%reject_ok%Z.eqb_neq & Hsh).
    apply bind_ok in Hsh as (n & (-> & _)%ok_or_ok%try_from_some & Hsh). injection Hsh as <-.
    split; [|done]. split; [by apply accepted_address_wf|unfold u16_range in Hpr; lia]. }
  destruct Hdest as [Hwf ->].
  assert (Hdl : match (fun d => (address_code (address d), len (address_octets (address d)))) <$> d with
    Some (_, n) => 5 + n | None => 0 end = len (enc_dest_opt d)).
  { destruct d; [|done]. cbn [fmap option_fmap option_map enc_dest_opt]. by rewrite len_enc_dest. }
  rewrite Hdl in Hc.
  repeat (apply bind_ok in Hc as (? & (-> & _)%ok_or_ok%checked_add_some & Hc)).
  apply bind_ok in Hc as ([] & Hbl%reject_ok%Z.ltb_ge & Hc).
  apply bind_ok in Hc as (? & (-> & _)%ok_or_ok%try_from_some & Hc).
  repeat (apply bind_ok in Hc as (? & (-> & _)%ok_or_ok%checked_add_some & Hc)).
  apply bind_ok in Hc as (? & (-> & _)%ok_or_ok%try_from_some & Hc). injection Hc as <- <- <- <-.
  set (f := {| frame_type := t; seq := sq; frame_destination := d; payload := pl |}).
  match goal with |- context [slice_from ?o _] => assert (Ho : o = to_be 4 (len (frame_body f)) ++ frame_body f) end.
  { rewrite len_frame_body. cbn [f frame_destination payload]. unfold frame_body. cbn [f frame_type seq frame_destination payload].
    f_equal; [f_equal; lia|]. destruct d; done. }
  rewrite Ho. rewrite (slice_from_app (to_be 4 (len (frame_body f)))) by (by rewrite len_to_be).
  intros [_ <-]%pair_equal_spec. split; [split_and!; done|]. unfold frame_wire. by rewrite <- app_assoc.
Qed.

Lemma encode_frame_complete alloc k dir f output :
  (forall n, alloc n = true) -> dir = DIR_LINE_TO_LANDING \/ dir = DIR_LANDING_TO_LINE -> frame_ok f ->
  encode_frame alloc k dir (frame_type f) (seq f) (frame_destination f) (payload f) output = (Ok tt, frame_wire k dir f).
Proof.
  intros Hal Hdir Hf. pose proof Hf as (Ht & Hs & Hp & Hd).
  assert (Hty : match frame_destination f with Some d => address_typed (address d) /\ u16_range (port d) | None => True end).
  { destruct (frame_destination f) as [d|]; [|done]. destruct Hd as [Ha Hpo]. unfold u16_range, U16_MAX in *. split; [|lia].
    destruct (address d); cbn in *; naive_solver. }
  pose proof (len_nonneg (payload f)).
  assert (Hsh : exists sh, destination_shape (frame_destination f) = Ok sh /\
    0 <= match sh with Some (_, n) => 5 + n | None => 0 end <= MAX_FRAME_DEST_LEN).
  { destruct (frame_destination f) as [d|]; cbn [destination_shape]; [|eexists; split; [done|frame_consts; lia]].
    destruct Hd as [Ha Hpo], Hty as [Hta _]. pose proof (address_octets_len _ Ha). rewrite address_shape_eq by done.
    assert (Hdr : domain_rejected (address d) = false)
      by (destruct (address d); cbn in *; try done; unfold MAX_DOMAIN_LEN in *; lia).
    rewrite Hdr. cbn [mbind result_bind]. rewrite guard_pass by lia.
    erewrite bind_step by (apply ok_or_ok, try_from_some; split; [done|]; unfold U16_MAX; frame_consts; lia).
    eexists. split; [done|]. cbn. frame_consts. lia. }
  destruct Hsh as (sh & Hsh & Hdl).
  assert (Hok : exists w, frame_checks dir (frame_type f) (frame_destination f) (payload f) = Ok w).
  { unfold frame_checks. rewrite guard_pass by (apply Z.ltb_ge; done). rewrite Ht, guard_pass by done.
    rewrite guard_pass by (by destruct Hdir as [-> | ->]). rewrite Hsh. cbn [mbind result_bind].
    set (dl := match sh with Some (_, n) => 5 + n | None => 0 end) in *. frame_consts. rewrite !usize_step by lia.
    rewrite guard_pass by lia.
    erewrite bind_step by (apply ok_or_ok, try_from_some; split; [done|]; unfold U16_MAX; lia).
    rewrite !usize_step by lia.
    erewrite bind_step by (apply ok_or_ok, try_from_some; split; [done|]; unfold U32_MAX; lia). by eexists. }
  destruct Hok as ([[[sh' bl] pn] wl] & Hok).
  destruct (encode_frame alloc k dir (frame_type f) (seq f) (frame_destination f) (payload f) output) as [r out] eqn:E.
  assert (r = Ok tt) as ->.
  { unfold encode_frame in E. rewrite Hok, Hal in E. unfold slice_from in E.
    destruct (slice _ FRAME_LEN_SIZE _) as [b| |] eqn:Esl; injection E as <- _; [done| |];
      (exfalso; revert Esl; unfold slice; rewrite get_range_some; [done|done| |lia];
       rewrite len_app, len_to_be; frame_consts; slen). }
  apply encode_frame_ok in E as [_ ->]; [|done|done]. by destruct f.
Qed.

Lemma frame_ok_wire f : frame_ok f -> wire_frame_ok f.
Proof.
  intros (Ht & Hs & Hp & Hd). split_and!; try done.
  - destruct (frame_destination f) as [d|]; [|done]. destruct Hd as [Ha Hpo].
    pose proof (address_octets_len _ Ha). unfold wire_dest_ok, U16_MAX in *. frame_consts. split_and!; try lia.
    destruct (address d); cbn in *; naive_solver.
  - rewrite len_frame_body. destruct (frame_destination f) as [d|]; cbn [enc_dest_opt]; [|rewrite len_nil; frame_consts; lia].
    destruct Hd as [Ha _]. pose proof (address_octets_len _ Ha). rewrite len_enc_dest. frame_consts. lia.
Qed.
End FrameTheorems.

(** ** The drain loop *)

(** A buffer that does not hold a whole frame yet. *)
Definition partial (r : list byte) : Prop :=
  len r < FRAME_LEN_SIZE \/ exists n, frame_wire_len_from_prefix r = Ok n /\ len r < n.

Definition wires {C : CryptoOps} (k : list byte) (dir : byte) (fs : list NxrUdpFrame) : list byte :=
  concat (frame_wire k dir <$> fs).

Section Drain.
Context {C : CryptoOps} {L : CryptoLaws C} (k : list byte) (dir : byte).

Lemma frame_wire_len_ok f rest :
  wire_frame_ok f -> frame_wire_len_from_prefix (frame_wire k dir f ++ rest) = Ok (len (frame_wire k dir f)).
Proof.
  intros Hok. destruct (body_len_u32 f Hok) as [Hu Hb]. unfold frame_wire at 1. rewrite <- !app_assoc, wire_len_view by done.
  rewrite guard_pass by lia. by rewrite len_frame_wire.
Qed.

Lemma wire_long f : wire_frame_ok f -> 44 <= len (frame_wire k dir f).
Proof. intros Hok. destruct (body_len_u32 f Hok) as [_ Hb]. rewrite len_frame_wire. frame_consts. lia. Qed.

Lemma drain_loop_step fuel f rest acc :
  wire_frame_ok f ->
  drain_loop (S fuel) (frame_wire k dir f ++ rest) k dir acc = drain_loop fuel rest k dir (acc ++ [f]).
Proof.
  intros Hok. pose proof (wire_long f Hok). cbn [drain_loop].
  rewrite (proj2 (Z.ltb_ge _ FRAME_LEN_SIZE)) by (rewrite len_app; unfold FRAME_LEN_SIZE; slen).
  rewrite frame_wire_len_ok by done. rewrite (proj2 (Z.ltb_ge (len (_ ++ rest)) (len (frame_wire k dir f)))) by slen.
  erewrite bind_step by (by apply (slice_mid [])).
  erewrite (proj2 (decode_frame_iff _ k dir f _)); [|split_and!; [done|done|exists []; by rewrite app_nil_r]].
  unfold len. rewrite Nat2Z.id. by rewrite drop_app_length.
Qed.

Lemma drain_loop_partial fuel r acc : partial r -> drain_loop fuel r k dir acc = (Ok acc, r).
Proof.
  destruct fuel as [|fuel]; [done|]. cbn [drain_loop]. intros [Hl|(n & Hn & Hl)].
  - by rewrite (proj2 (Z.ltb_lt _ _)).
  - destruct (len r <? FRAME_LEN_SIZE); [done|]. rewrite Hn. by rewrite (proj2 (Z.ltb_lt _ _)).
Qed.

(** A buffer is partial, starts with an acceptable frame, or ends the loop with
    an error whatever was decoded before. *)
Lemma buffer_cases b :
  partial b \/ (exists f rest, wire_frame_ok f /\ b = frame_wire k dir f ++ rest) \/
  (exists e, forall fuel acc, drain_loop (S fuel) b k dir acc = (Err e, b)).
Proof.
  destruct (decide (len b < FRAME_LEN_SIZE)) as [Hs|Hs]; [by left; left|].
  destruct (prefix_view b ltac:(lia)) as (n & rest & Hn & ->).
  cbn [drain_loop]. rewrite (proj2 (Z.ltb_ge _ FRAME_LEN_SIZE)) by lia.
  destruct (frame_wire_len_from_prefix (to_be 4 n ++ rest)) as [wl|e|] eqn:Hw; rewrite wire_len_view in Hw by done.
  2:{ right; right. exists e. destruct ((n =? 0) || _); [|done]. by injection Hw as <-. }
  2:{ by destruct ((n =? 0) || _). }
  destruct (Z.ltb_spec (len (to_be 4 n ++ rest)) wl) as [Hl|Hl].
  { left; right. exists wl. by rewrite wire_len_view. }
  assert (Hwl : 0 <= wl) by (unfold u32_range in Hn; apply bind_ok in Hw as ([] & _ & [= <-]); frame_consts; lia).
  erewrite bind_step by (apply slice_ok, get_range_some; lia). rewrite Z.sub_0_r.
  change (drop (Z.to_nat 0) (to_be 4 n ++ rest)) with (to_be 4 n ++ rest).
  set (w := take (Z.to_nat wl) (to_be 4 n ++ rest)). assert (Hlw : len w = wl) by (subst w; rewrite len_take; lia).
  destruct (decode_frame w k dir) as [[f c]|e|] eqn:Hd.
  - right; left. apply decode_frame_iff in Hd as (Hok & -> & rest' & Hw'). exists f. eexists. split; [done|].
    rewrite <- (take_drop (Z.to_nat wl) (to_be 4 n ++ rest)). fold w. rewrite Hw', <- app_assoc. done.
  - right; right. by exists e.
  - exfalso. assert (H4 : FRAME_LEN_SIZE <= len w).
    { unfold u32_range in Hn. apply bind_ok in Hw as ([] & _ & [= <-]). frame_consts. lia. }
    destruct (prefix_view w H4) as (m & r & Hm & Hwr). rewrite Hwr, decode_frame_view in Hd by done.
    revert Hd. repeat (apply no_panic_guard; intros _). unfold verify_frame. destruct (bytes_eqb _ _); [|done].
    erewrite bind_step by done. apply no_panic_bind; [|done]. apply parse_frame_body_no_panic.
Qed.

Lemma drain_loop_acc fuel b acc :
  drain_loop fuel b k dir acc = let '(r, b') := drain_loop fuel b k dir [] in (app acc <$> r, b').
Proof.
  revert b acc. induction fuel as [|fuel IH]; intros b acc; [cbn; by rewrite app_nil_r|].
  destruct (buffer_cases b) as [Hp|[(f & rest & Hok & ->)|(e & He)]].
  - rewrite !drain_loop_partial by done. cbn. by rewrite app_nil_r.
  - rewrite !drain_loop_step by done. rewrite IH, (IH rest ([] ++ [f])).
    destruct (drain_loop fuel rest k dir []) as [[r| |] b']; cbn; by rewrite <- ?app_assoc.
  - by rewrite !He.
Qed.

(** Enough fuel: the loop's outcome no longer depends on it. *)
Lemma drain_fuel_enough n m b acc :
  (length b < n)%nat -> (length b < m)%nat -> drain_loop n b k dir acc = drain_loop m b k dir acc.
Proof.
  revert m b acc. induction n as [|n IH]; intros m b acc Hn Hm; [lia|]. destruct m as [|m]; [lia|].
  destruct (buffer_cases b) as [Hp|[(f & rest & Hok & ->)|(e & He)]].
  - by rewrite !drain_loop_partial.
  - rewrite !drain_loop_step by done. pose proof (wire_long f Hok) as Hw. rewrite length_app in *. unfold len in Hw.
    apply IH; lia.
  - by rewrite !He.
Qed.

Lemma drain_cons f rest :
  wire_frame_ok f ->
  drain_frames (frame_wire k dir f ++ rest) k dir = let '(r, b) := drain_frames rest k dir in (cons f <$> r, b).
Proof.
  intros Hok. unfold drain_frames. rewrite drain_loop_step by done. pose proof (wire_long f Hok) as Hw. unfold len in Hw.
  rewrite (drain_fuel_enough _ (S (length rest))) by (rewrite ?length_app; lia). rewrite drain_loop_acc. done.
Qed.

Lemma drain_partial r : partial r -> drain_frames r k dir = (Ok [], r).
Proof. apply drain_loop_partial. Qed.

Lemma drain_wires fs rest :
  Forall wire_frame_ok fs ->
  drain_frames (wires k dir fs ++ rest) k dir = let '(r, b) := drain_frames rest k dir in (app fs <$> r, b).
Proof.
  induction 1 as [|f fs Hf _ IH].
  - change (wires k dir [] ++ rest) with rest. by destruct (drain_frames rest k dir) as [[]].
  - change (wires k dir (f :: fs)) with (frame_wire k dir f ++ wires k dir fs). rewrite <- app_assoc, drain_cons, IH by done.
    by destruct (drain_frames rest k dir) as [[]].
Qed.

Lemma drain_cases b :
  exists fs r, Forall wire_frame_ok fs /\ b = wires k dir fs ++ r /\
    (partial r \/ exists e, drain_frames r k dir = (Err e, r)).
Proof.
  remember (length b) as n eqn:Hn. revert b Hn. induction n as [n IH] using lt_wf_ind. intros b ->.
  destruct (buffer_cases b) as [Hp|[(f & rest & Hok & ->)|(e & He)]].
  - exists [], b. split_and!; [constructor|done|by left].
  - pose proof (wire_long f Hok) as Hw. unfold len in Hw.
    destruct (IH (length rest) ltac:(rewrite length_app; lia) rest eq_refl) as (fs & r & Hfs & -> & Hr).
    exists (f :: fs), r. split_and!; [by constructor|apply app_assoc|done].
  - exists [], b. split_and!; [constructor|done|right; exists e; apply He].
Qed.

Lemma drain_inv b fs r :
  drain_frames b k dir = (Ok fs, r) <-> Forall wire_frame_ok fs /\ b = wires k dir fs ++ r /\ partial r.
Proof.
  split.
  - destruct (drain_cases b) as (fs' & r' & Hfs & -> & [Hp|(e & He)]); rewrite drain_wires by done.
    + rewrite drain_partial by done. cbn. rewrite app_nil_r. intros [= <- <-]. done.
    + by rewrite He.
  - intros (Hfs & -> & Hp). rewrite drain_wires, drain_partial by done. cbn. by rewrite app_nil_r.
Qed.

Lemma partial_short r : partial r -> len r < MAX_FRAME_WIRE_LEN.
Proof.
  intros [Hl|(n & Hn & Hl)]; [frame_consts; lia|].
  destruct (decide (FRAME_LEN_SIZE <= len r)) as [H4|]; [|frame_consts; lia].
  destruct (prefix_view r H4) as (m & rest & Hm & ->). rewrite wire_len_view in Hn by done.
  apply bind_ok in Hn as ([] & Hb%reject_ok & [= <-]). frame_consts. lia.
Qed.

(** A buffer that holds the beginning of a sequence of frames. *)
Lemma drain_prefix fs : forall b tail,
  Forall wire_frame_ok fs -> b ++ tail = wires k dir fs ->
  exists fs1 fs2 r, fs = fs1 ++ fs2 /\ drain_frames b k dir = (Ok fs1, r) /\ r ++ tail = wires k dir fs2 /\ partial r.
Proof.
  induction fs as [|f fs IH]; intros b tail Hok Hb.
  - apply app_eq_nil in Hb as [-> ->]. exists [], [], []. split_and!; try done. by left.
  - apply Forall_cons in Hok as [Hf Hok]. change (wires k dir (f :: fs)) with (frame_wire k dir f ++ wires k dir fs) in Hb.
    destruct (decide (len (frame_wire k dir f) <= len b)) as [Hl|Hl].
    + assert (exists b', b = frame_wire k dir f ++ b') as [b' ->].
      { exists (drop (length (frame_wire k dir f)) b). rewrite <- (take_drop (length (frame_wire k dir f)) b) at 1. f_equal.
        apply (f_equal (take (length (frame_wire k dir f)))) in Hb. rewrite take_app_length in Hb.
        rewrite take_app_le in Hb by (unfold len in Hl; lia). done. }
      rewrite <- app_assoc in Hb. apply app_inv_head in Hb. destruct (IH b' tail Hok Hb) as (fs1 & fs2 & r & -> & Hd & Hr & Hp).
      exists (f :: fs1), fs2, r. split_and!; try done. rewrite drain_cons, Hd by done. done.
    + exists [], (f :: fs), b. assert (Hp : partial b); [|split_and!; [done|by apply drain_partial|done|done]].
      destruct (decide (len b < FRAME_LEN_SIZE)) as [|H4]; [by left|right].
      destruct (prefix_view b ltac:(lia)) as (n & rest & Hn & ->). destruct (body_len_u32 f Hf) as [Hu Hbl].
      assert (n = len (frame_body f)) as ->.
      { unfold frame_wire in Hb. rewrite <- !app_assoc in Hb. apply app_inj_1 in Hb as [Hb _]; [|by rewrite !length_to_be].
        by rewrite <- (from_be_u32 n), <- (from_be_u32 (len (frame_body f))), Hb. }
      exists (len (frame_wire k dir f)). split; [|lia]. rewrite wire_len_view by done. rewrite guard_pass by lia.
      by rewrite len_frame_wire.
Qed.

Lemma drain_no_panic b : no_panic (drain_frames b k dir).1.
Proof.
  destruct (drain_cases b) as (fs' & r' & Hfs & -> & [Hp|(e & He)]).
  - rewrite drain_wires, drain_partial by done. done.
  - rewrite drain_wires, He by done. done.
Qed.

(** Appending to a buffer already drained. *)
Lemma drain_resume a b fs r :
  drain_frames a k dir = (Ok fs, r) ->
  drain_frames (a ++ b) k dir = let '(x, r') := drain_frames (r ++ b) k dir in (app fs <$> x, r').
Proof. intros (Hfs & -> & _)%drain_inv. by rewrite <- app_assoc, drain_wires. Qed.
End Drain.

(** The NXR UDP stream decoder. For every buffer, key and direction,
    [drain_frames] never panics and returns frames [fs] with remainder [r]
    exactly when the buffer is the concatenation of the encodings of [fs] with
    their MACs followed by [r], where [r] is an incomplete frame: nothing is
    skipped, reordered, or invented, and the loop stops because it must. *)
Theorem drain_frames_exact {C : CryptoOps} {L : CryptoLaws C} (buffer session : list byte) (direction : byte)
    (fs : list NxrUdpFrame) (r : list byte) :
  (drain_frames buffer session direction = (Ok fs, r) <->
    Forall wire_frame_ok fs /\ buffer = wires session direction fs ++ r /\ partial r) /\
  no_panic (drain_frames buffer session direction).1.
Proof.
  split; [apply drain_inv|apply drain_no_panic].
Qed.

(** The frame decoder accepts destinations the encoder refuses: an authentic
    frame may name the empty domain. *)
Theorem frame_decoder_accepts_empty_domain {C : CryptoOps} {L : CryptoLaws C} (session : list byte) (direction : byte) :
  let d := {| address := Domain []; port := 53 |} in
  let f := {| frame_type := FRAME_TYPE_DATAGRAM; seq := 0; frame_destination := Some d; payload := [] |} in
  decode_frame (frame_wire session direction f) session direction = Ok (f, len (frame_wire session direction f)) /\
  destination_shape (Some d) = Err NuAddress.
Proof.
  split; [|done]. apply decode_frame_iff. split_and!; [|done|exists []; by rewrite app_nil_r].
  split_and!; done.
Qed.
