(* ===== verification/NxrOpen.v ===== *)
(** * NXR landing: reading, dispatching and authenticating an open
      ([src/server/nxr/mod.rs], [src/server/nxr/request.rs], [src/server/nxr/auth.rs])

    The bounded read of one request from the stream, the dispatch on its mode,
    the authenticator over the replay cache, and what the three achieve
    together: the user bytes behind the request stay in the stream, and under a
    clock that is not stepped no open is served twice. *)

From S2P Require Import Prelude VlessRequest Crypto Replay Nxr.
#[local] Open Scope Z_scope.

(** The variants the modelled part of the handler reports. *)
Inductive NxrLandingError :=
| LaTimeout | LaRead | LaProtocol (e : NxrProtocolError) | LaAllocation | LaClock
| LaAuthentication (e : NxrAuthenticationError).

(** The receive side of the stream up to the deadline: the bytes that arrive,
    and whether the peer closes after them or stays silent. *)
Record Stream := { rx : list byte; rx_closed : bool }.

Definition read_exact_before (s : Stream) (n : Z) : result NxrLandingError (list byte) * Stream :=
  if len (rx s) <? n
  then (Err (if rx_closed s then LaRead else LaTimeout), {| rx := []; rx_closed := rx_closed s |})
  else (Ok (take (Z.to_nat n) (rx s)), {| rx := drop (Z.to_nat n) (rx s); rx_closed := rx_closed s |}).

(** The [match peek_open_flags(&header)]. *)
Definition announced_len (header : list byte) : result NxrLandingError Z :=
  flags ← map_err LaProtocol (peek_open_flags header);
  if bool_decide (flags = Some FLAG_UDP)
  then map_err (fun e => LaProtocol (nxr_error_of_udp e)) (udp_open_len_from_header header)
  else map_err LaProtocol (request_len_from_header header).

Definition read_request_after_first (alloc : Z -> bool) (s : Stream) (first_byte : byte)
    : result NxrLandingError (list byte) * Stream :=
  match read_exact_before s (REQUEST_HEADER_LEN - 1) with
  | (Ok tail, s) =>
    let header := first_byte :: tail in
    match announced_len header with
    | Err e => (Err e, s)
    | Panic => (Panic, s)
    | Ok total =>
      if alloc total then
        match read_exact_before s (total - REQUEST_HEADER_LEN) with
        | (Ok body, s) => (Ok (header ++ body), s)
        | (Err e, s) => (Err e, s)
        | (Panic, s) => (Panic, s)
        end
      else (Err LaAllocation, s)
    end
  | (Err e, s) => (Err e, s)
  | (Panic, s) => (Panic, s)
  end.

(** The continuation [handle] picks after authentication. *)
Inductive LandingOpen :=
| TcpRelay (d : Destination)
| UdpAssociation (o : UdpAuthenticatedOpen) (session : list byte).

Section Open.
Context {C : CryptoOps} (alloc : Z -> bool) {G : Type} `{RG : ReplayGuard G}.

(** [handle] once the request is read: [now] is the wall clock in seconds,
    [instant] the monotonic clock of the replay cache. *)
Definition dispatch_open (a : NxrAuthenticator G) (request : list byte) (now instant : Z)
    : result NxrLandingError LandingOpen * NxrAuthenticator G :=
  match (h ← ok_or (LaProtocol NVersion) (get_range request 0 REQUEST_HEADER_LEN);
         flags ← map_err LaProtocol (peek_open_flags h);
         ok_or (LaProtocol NVersion) flags) with
  | Err e => (Err e, a)
  | Panic => (Panic, a)
  | Ok flags =>
    if bool_decide (flags = FLAG_TCP) then
      let '(r, a) := authenticate_tcp a request now instant in (map_err LaAuthentication (TcpRelay <$> r), a)
    else if bool_decide (flags = FLAG_UDP) then
      let '(r, a) := authenticate_udp a request now instant in
      (map_err LaAuthentication ((fun '(o, k) => UdpAssociation o k) <$> r), a)
    else (Err (LaProtocol NFlags), a)
  end.

Definition handle (a : NxrAuthenticator G) (s : Stream) (first_byte : byte) (now instant : Z)
    : result NxrLandingError LandingOpen * Stream * NxrAuthenticator G :=
  match read_request_after_first alloc s first_byte with
  | (Ok request, s) => let '(r, a) := dispatch_open a request now instant in (r, s, a)
  | (Err e, s) => (Err e, s, a)
  | (Panic, s) => (Panic, s, a)
  end.
End Open.

(** ** Reading stops at the end of the request *)

Lemma peek_header f t al p ts nonce :
  len nonce = 16 -> peek_open_flags (open_header f t al p ts nonce) = Ok (Some f).
Proof.
  intros Hn. unfold peek_open_flags. rewrite len_open_header, Z.ltb_irrefl by done.
  rewrite header_magic. erewrite bind_step by done. by rewrite bytes_eqb_refl.
Qed.

Lemma read_exact_app (x y : list byte) cl n :
  n = len x -> read_exact_before {| rx := x ++ y; rx_closed := cl |} n = (Ok x, {| rx := y; rx_closed := cl |}).
Proof.
  intros ->. unfold read_exact_before. cbn [rx rx_closed]. rewrite (proj2 (Z.ltb_ge _ _)) by slen.
  by destruct (take_octets x y _ eq_refl) as [-> ->].
Qed.

(** A wire image: a header announcing its own length, then the rest. *)
Lemma read_request_wire alloc f t al p ts nonce body tail cl total b0 bs :
  header_fields al p ts nonce -> announced_len (open_header f t al p ts nonce) = Ok total ->
  total = REQUEST_HEADER_LEN + len body -> alloc total = true ->
  open_header f t al p ts nonce ++ body = b0 :: bs ->
  read_request_after_first alloc {| rx := bs ++ tail; rx_closed := cl |} b0 = (Ok (b0 :: bs), {| rx := tail; rx_closed := cl |}).
Proof.
  intros Hf Ha Ht Hal Hw. pose proof (len_open_header f t al p ts nonce ltac:(apply Hf)) as Hh.
  destruct (open_header f t al p ts nonce) as [|h0 hs] eqn:Eh; [done|]. cbn [app] in Hw. injection Hw as <- <-.
  unfold read_request_after_first. rewrite <- app_assoc.
  rewrite read_exact_app by (autorewrite with lens in Hh; lia). rewrite Ha, Hal.
  rewrite read_exact_app by lia. done.
Qed.

Section ReadWire.
Context {C : CryptoOps} {L : CryptoLaws C}.

Lemma announced_len_tcp t al p ts nonce :
  header_fields al p ts nonce -> valid_address t al = true ->
  announced_len (open_header FLAG_TCP t al p ts nonce) = Ok (REQUEST_HEADER_LEN + al + TAG_LEN).
Proof.
  intros Hf Hv. unfold announced_len. rewrite peek_header by apply Hf. cbn [map_err mbind result_bind].
  rewrite bool_decide_false by done. rewrite request_len_view, Hv by done. done.
Qed.

Lemma announced_len_udp t al p ts nonce :
  header_fields al p ts nonce -> valid_address t al = true ->
  announced_len (open_header FLAG_UDP t al p ts nonce) = Ok (REQUEST_HEADER_LEN + al + UDP_OPEN_TRAILER + OPEN_TAG_LEN).
Proof.
  intros Hf Hv. unfold announced_len. rewrite peek_header by apply Hf. cbn [map_err mbind result_bind].
  rewrite bool_decide_true by done. rewrite udp_len_view, Hv by done. done.
Qed.

Lemma read_tcp_wire alloc key r tail cl b0 bs :
  request_wf r -> alloc (len (tcp_wire key r)) = true -> tcp_wire key r = b0 :: bs ->
  read_request_after_first alloc {| rx := bs ++ tail; rx_closed := cl |} b0 = (Ok (tcp_wire key r), {| rx := tail; rx_closed := cl |}).
Proof.
  intros (Hts & Hn & Hd) Hal Hw. rewrite Hw.
  pose proof (destination_header_fields _ _ _ Hd Hts Hn) as Hf. pose proof (valid_address_code _ (proj1 Hd)) as Hv.
  pose proof (announced_len_tcp _ _ _ _ _ Hf Hv) as Ha.
  unfold tcp_wire, open_body in Hw, Hal. rewrite <- !app_assoc in Hw, Hal.
  eapply read_request_wire; [exact Hf|exact Ha| | |exact Hw].
  - rewrite !len_app, len_nil, hmac_len. nxr_consts. lia.
  - rewrite <- Hal. f_equal. rewrite !len_app, len_open_header, hmac_len, len_nil by done. nxr_consts. lia.
Qed.

Lemma read_udp_wire alloc key o tail cl b0 bs :
  udp_open_wf o -> alloc (len (udp_wire key o)) = true -> udp_wire key o = b0 :: bs ->
  read_request_after_first alloc {| rx := bs ++ tail; rx_closed := cl |} b0 = (Ok (udp_wire key o), {| rx := tail; rx_closed := cl |}).
Proof.
  intros (Hts & Hn & Hd & Hu) Hal Hw. rewrite Hw.
  pose proof (destination_header_fields _ _ _ Hd Hts Hn) as Hf. pose proof (valid_address_code _ (proj1 Hd)) as Hv.
  pose proof (announced_len_udp _ _ _ _ _ Hf Hv) as Ha.
  unfold udp_wire, open_body in Hw, Hal. rewrite <- !app_assoc in Hw, Hal.
  eapply read_request_wire; [exact Hf|exact Ha| | |exact Hw].
  - rewrite !len_app, Hu, hmac_len. nxr_consts. lia.
  - rewrite <- Hal. f_equal. rewrite !len_app, len_open_header, hmac_len, Hu by done. nxr_consts. lia.
Qed.
End ReadWire.

(** ** What an authenticated open does to the replay cache *)

Definition open_nonce (request : list byte) : list byte := take 16 (drop 18 request).

(** The request is an encoding under the key, fresh at [now]. *)
Definition authentic {C : CryptoOps} (key : NxrKey) (window now : Z) (request : list byte) (ts : Z) : Prop :=
  abs_diff ts now <= window /\
  ((exists r, request_wf r /\ ar_timestamp r = ts /\ request = tcp_wire key r) \/
   (exists o, udp_open_wf o /\ uo_timestamp o = ts /\ request = udp_wire key o)).

(** What is opened: the continuation belongs to the request's own mode. *)
Definition opened_from {C : CryptoOps} (key : NxrKey) (request : list byte) (x : LandingOpen) : Prop :=
  match x with
  | TcpRelay d => exists r, ar_destination r = d /\ request = tcp_wire key r
  | UdpAssociation o k => request = udp_wire key o /\
      k = session_derive key (open_body FLAG_UDP (uo_destination o) (uo_timestamp o) (uo_nonce o) (uo_user_id o))
  end.

Lemma nonce_in_header f t al p ts nonce rest : len nonce = 16 -> open_nonce (open_header f t al p ts nonce ++ rest) = nonce.
Proof.
  intros Hn. unfold open_nonce, open_header. rewrite <- !app_assoc. cbn [app].
  change (drop 18 _) with (nonce ++ rest). replace 16%nat with (length nonce) by (unfold len in Hn; lia).
  by rewrite take_app_length.
Qed.

Section Effect.
Context {C : CryptoOps} {L : CryptoLaws C} {G : Type} `{RG : ReplayGuard G}.

Lemma tcp_wire_nonce key r : len (ar_nonce r) = 16 -> open_nonce (tcp_wire key r) = ar_nonce r.
Proof. intros. unfold tcp_wire, open_body. rewrite <- app_assoc. by apply nonce_in_header. Qed.

Lemma udp_wire_nonce key o : len (uo_nonce o) = 16 -> open_nonce (udp_wire key o) = uo_nonce o.
Proof. intros. unfold udp_wire, open_body. rewrite <- app_assoc. by apply nonce_in_header. Qed.

Lemma udp_prefix key o :
  udp_open_wf o ->
  open_authenticated_prefix (udp_wire key o) =
    Ok (Some (open_body FLAG_UDP (uo_destination o) (uo_timestamp o) (uo_nonce o) (uo_user_id o))).
Proof.
  intros (_ & Hn & _). unfold open_authenticated_prefix, udp_wire. cbv zeta. set (b := open_body _ _ _ _ _).
  assert (Hb : REQUEST_HEADER_LEN <= len b).
  { subst b. unfold open_body. rewrite len_app, len_open_header by done. slen. }
  rewrite len_app, hmac_len. nxr_consts. rewrite (proj2 (Z.ltb_lt _ _)) by lia.
  erewrite bind_step; [done|]. apply (slice_mid [] b); [done|lia].
Qed.

(** A request [dispatch_open] sends to neither decoder. *)
Lemma dispatch_cases (a : NxrAuthenticator G) request now instant :
  (exists e, dispatch_open a request now instant = (Err e, a)) \/
  (dispatch_open a request now instant =
    let '(r, a) := authenticate_tcp a request now instant in (map_err LaAuthentication (TcpRelay <$> r), a)) \/
  (dispatch_open a request now instant =
    let '(r, a) := authenticate_udp a request now instant in
    (map_err LaAuthentication ((fun '(o, k) => UdpAssociation o k) <$> r), a)).
Proof.
  unfold dispatch_open. destruct (get_range request 0 REQUEST_HEADER_LEN) as [h|] eqn:Hg; [|left; by eexists].
  apply get_range_inv in Hg as (_ & _ & _ & Hl & _). rewrite Z.sub_0_r in Hl. cbn [ok_or mbind result_bind].
  unfold peek_open_flags. rewrite Hl, Z.ltb_irrefl.
  erewrite (bind_step (slice h 0 (len MAGIC))) by (apply slice_ok, get_range_some; change (len MAGIC) with 4; nxr_consts; lia).
  destruct (negb _); [left; by eexists|].
  destruct (lookup_lt_is_Some_2 h 4) as [f Hf]; [unfold len in Hl; nxr_consts; lia|].
  erewrite (bind_step (index h _)) by (apply index_ok; split; [done|exact Hf]).
  cbn [map_err mbind result_bind ok_or]. repeat case_bool_decide; [right; left; done|right; right; done|left; by eexists].
Qed.

(** An authenticator call leaves everything as it was, or reserves the nonce of
    an authentic request. *)
Lemma dispatch_effect (a : NxrAuthenticator G) request now instant x a' :
  dispatch_open a request now instant = (x, a') ->
  no_panic x /\
  ((a' = a /\ is_ok x = false) \/
   (a' = with_replay a (rg_reserve (na_replay a) (open_nonce request) instant).2 /\
    (exists ts, authentic (na_key a) (na_window a) now request ts) /\
    (is_ok x = true <-> (rg_reserve (na_replay a) (open_nonce request) instant).1 = None) /\
    forall y, x = Ok y -> opened_from (na_key a) request y)).
Proof.
  destruct (dispatch_cases a request now instant) as [(e & ->)|[-> | ->]].
  - intros [= <- <-]. split; [done|by left].
  - unfold authenticate_tcp. pose proof (decode_tcp_no_panic request (na_key a) now (na_window a)) as Hnp.
    destruct (decode_authenticated_request request (na_key a) now (na_window a)) as [r|e|] eqn:Hd; [|intros [= <- <-]; split; [done|by left]|done].
    apply tcp_decode_iff in Hd as (Hw & Ht & ->). rewrite tcp_wire_nonce by apply Hw.
    destruct (rg_reserve (na_replay a) (ar_nonce r) instant) as [fl g] eqn:Er.
    intros [= <- <-]. split; [by destruct fl|]. right. split; [done|]. split_and!.
    + exists (ar_timestamp r). split; [done|]. left. by exists r.
    + by destruct fl.
    + intros y Hy. destruct fl; [done|]. injection Hy as <-. by exists r.
  - unfold authenticate_udp. pose proof (decode_udp_no_panic request (na_key a) now (na_window a)) as Hnp.
    destruct (decode_udp_open request (na_key a) now (na_window a)) as [o|e|] eqn:Hd; [|intros [= <- <-]; split; [done|by left]|done].
    apply udp_decode_iff in Hd as (Hw & Ht & ->). rewrite udp_wire_nonce by apply Hw.
    destruct (rg_reserve (na_replay a) (uo_nonce o) instant) as [fl g] eqn:Er.
    rewrite udp_prefix by done. intros [= <- <-]. split; [by destruct fl|]. right. split; [done|]. split_and!.
    + exists (uo_timestamp o). split; [done|]. right. by exists o.
    + by destruct fl.
    + intros y Hy. destruct fl; [done|]. injection Hy as <-. done.
Qed.
End Effect.

(** ** Runs of the authenticator *)

(** One call: the request, the wall clock and the monotonic clock, both in
    nanoseconds. *)
Record OpenCall := { oc_request : list byte; oc_wall : Z; oc_mono : Z }.

Definition SECOND : Z := 1000000000.

Fixpoint open_run {C : CryptoOps} {G} `{ReplayGuard G} (a : NxrAuthenticator G) (calls : list OpenCall)
    : list (result NxrLandingError LandingOpen) :=
  match calls with
  | [] => []
  | c :: calls =>
    let '(x, a) := dispatch_open a (oc_request c) (oc_wall c / SECOND) (oc_mono c) in
    x :: open_run a calls
  end.

(** The wall clock is not stepped against the monotonic one, which does not go
    backwards. *)
Definition coherent (offset : Z) (calls : list OpenCall) : Prop :=
  Forall (fun c => oc_wall c = oc_mono c + offset) calls /\
  forall i j c d, (i <= j)%nat -> calls !! i = Some c -> calls !! j = Some d -> oc_mono c <= oc_mono d.

Lemma coherent_tail offset c calls : coherent offset (c :: calls) -> coherent offset calls.
Proof.
  intros [H1 H2]. apply Forall_cons in H1 as [_ H1]. split; [done|]. intros i j x y Hij Hi Hj.
  by apply (H2 (S i) (S j)); [lia|..].
Qed.

Lemma wire_timestamp {C : CryptoOps} key window now window' now' request ts ts' :
  authentic key window now request ts -> authentic key window' now' request ts' -> ts = ts'.
Proof.
  intros (_ & H) (_ & H').
  assert (Hh : forall ts, (exists r, request_wf r /\ ar_timestamp r = ts /\ request = tcp_wire key r) \/
      (exists o, udp_open_wf o /\ uo_timestamp o = ts /\ request = udp_wire key o) ->
      u64_range ts /\ exists rest, drop 10 request = to_be 8 ts ++ rest).
  { intros z [(r & Hw & <- & ->)|(o & Hw & <- & ->)]; (split; [apply Hw|]);
      unfold tcp_wire, udp_wire, open_body, open_header; rewrite <- !app_assoc; by eexists. }
  destruct (Hh ts H) as (Hr & rest & E), (Hh ts' H') as (Hr' & rest' & E'). rewrite E in E'.
  apply app_inj_1 in E' as [E' _]; [|by rewrite !length_to_be]. by rewrite <- (from_be_u64 ts), <- (from_be_u64 ts'), E'.
Qed.

Section Runs.
Context {C : CryptoOps} {L : CryptoLaws C} {G : Type} `{RG : ReplayGuard G}.

Lemma dispatch_frame (a : NxrAuthenticator G) request now instant :
  let a' := (dispatch_open a request now instant).2 in
  na_key a' = na_key a /\ na_window a' = na_window a /\ (rg_ready (na_replay a) -> rg_ready (na_replay a')) /\
  (rg_ready (na_replay a) -> forall n d, instant < d -> rg_remembers (na_replay a) n d -> rg_remembers (na_replay a') n d).
Proof.
  destruct (dispatch_open a request now instant) as [x a'] eqn:E. cbn.
  apply dispatch_effect in E as (_ & [[-> _]|(-> & _)]); [done|]. cbn. split_and!; try done.
  - by apply rg_ready_reserve.
  - intros. by apply rg_remembers_reserve.
Qed.

(** While a nonce is remembered, no call with it is served. *)
Lemma remembered_refused calls : forall (a : NxrAuthenticator G) n d j c x,
  rg_ready (na_replay a) -> rg_remembers (na_replay a) n d ->
  (forall i e, (i <= j)%nat -> calls !! i = Some e -> oc_mono e < d) ->
  calls !! j = Some c -> open_nonce (oc_request c) = n ->
  open_run a calls !! j = Some x -> is_ok x = false.
Proof.
  induction calls as [|e calls IH]; intros a n d j c x Hr Hm Ht Hc Hn Hx; [done|]. cbn [open_run] in Hx.
  pose proof (dispatch_frame a (oc_request e) (oc_wall e / SECOND) (oc_mono e)) as Hf.
  destruct (dispatch_open a (oc_request e) (oc_wall e / SECOND) (oc_mono e)) as [y a'] eqn:E. cbn in Hf.
  destruct Hf as (_ & _ & Hr' & Hm'). destruct j as [|j].
  - injection Hc as ->. injection Hx as <-. apply dispatch_effect in E as (_ & [[_ ?]|(_ & _ & Hok & _)]); [done|].
    destruct (is_ok y); [|done]. exfalso. refine (rg_rejects _ n d (oc_mono c) Hr Hm (Ht 0%nat c ltac:(lia) eq_refl) _).
    rewrite <- Hn. by apply Hok.
  - apply (IH a' n d j c x); try done; [by apply Hr'|apply Hm'; [done| |done]; by apply (Ht 0%nat); [lia|]|].
    intros i e' Hi He'. apply (Ht (S i)); [lia|done].
Qed.

(** Whatever is served is authentic under the key and window of the start. *)
Lemma served_authentic calls : forall (a : NxrAuthenticator G) j d y,
  calls !! j = Some d -> open_run a calls !! j = Some (Ok y) ->
  exists ts, authentic (na_key a) (na_window a) (oc_wall d / SECOND) (oc_request d) ts.
Proof.
  induction calls as [|e calls IH]; intros a j d y Hd Hy; [done|]. cbn [open_run] in Hy.
  pose proof (dispatch_frame a (oc_request e) (oc_wall e / SECOND) (oc_mono e)) as Hf.
  destruct (dispatch_open a _ _ _) as [z a'] eqn:E. cbn in Hf. destruct j as [|j].
  - injection Hd as ->. injection Hy as ->. by apply dispatch_effect in E as (_ & [[_ ?]|(_ & Ha & _)]).
  - destruct Hf as (<- & <- & _). by apply (IH a' j d y).
Qed.

(** Two acceptances of one timestamp are closer than the retention period. *)
Lemma window_closes window ts w1 w2 :
  0 <= window -> 2 * window + 1 <= U64_MAX ->
  abs_diff ts (w1 / SECOND) <= window -> abs_diff ts (w2 / SECOND) <= window ->
  w2 - w1 < SECOND * replay_retention_seconds window.
Proof.
  intros H0 H1 Ha Hb. unfold replay_retention_seconds, saturating_add_u64, saturating_mul_u64, abs_diff, SECOND in *.
  rewrite (Z.min_r U64_MAX (window * 2)) by lia. rewrite Z.min_r by lia.
  pose proof (Z.mod_pos_bound w1 1000000000). pose proof (Z.mod_pos_bound w2 1000000000).
  pose proof (Z.div_mod w1 1000000000). pose proof (Z.div_mod w2 1000000000). lia.
Qed.

Lemma served_once_at calls : forall (a : NxrAuthenticator G) offset i j c d x y,
  rg_ready (na_replay a) -> rg_retention = SECOND * replay_retention_seconds (na_window a) ->
  0 <= na_window a -> 2 * na_window a + 1 <= U64_MAX -> coherent offset calls ->
  (i < j)%nat -> calls !! i = Some c -> calls !! j = Some d ->
  open_run a calls !! i = Some (Ok x) -> open_run a calls !! j = Some (Ok y) -> oc_request c <> oc_request d.
Proof.
  induction calls as [|e calls IH]; intros a offset i j c d x y Hr Hret Hw0 Hw Hco Hij Hc Hd Hx Hy Heq; [done|].
  destruct j as [|j]; [lia|]. cbn [open_run] in Hx, Hy.
  pose proof (dispatch_frame a (oc_request e) (oc_wall e / SECOND) (oc_mono e)) as Hf.
  destruct (dispatch_open a (oc_request e) (oc_wall e / SECOND) (oc_mono e)) as [z a'] eqn:E. cbn in Hf.
  destruct Hf as (Hk & Hwin & Hr' & Hm'). specialize (Hr' Hr). destruct i as [|i].
  2:{ eapply (IH a' offset i j c d x y); try done; try (by rewrite Hwin); [by eapply coherent_tail|lia]. }
  injection Hc as ->. injection Hx as ->.
  apply dispatch_effect in E as (_ & [[_ ?]|(-> & (ts & Ha) & Hok & _)]); [done|].
  cbn in Hk, Hwin, Hr'. pose proof (proj1 Hok eq_refl) as Hres.
  pose proof (rg_reserved (na_replay a) _ _ Hr Hres) as Hrem.
  destruct (served_authentic calls _ j d y Hd Hy) as (ts' & Ha'). cbn in Ha'. rewrite <- Heq in Ha'.
  assert (ts' = ts) as -> by (by eapply wire_timestamp).
  destruct Hco as [Hoff Hmono]. pose proof (proj1 (Forall_lookup _ _) Hoff 0%nat c eq_refl) as H1.
  pose proof (proj1 (Forall_lookup _ _) Hoff (S j) d Hd) as H2. cbn beta in H1, H2.
  pose proof (window_closes _ _ _ _ Hw0 Hw (proj1 Ha) (proj1 Ha')) as Hlt. rewrite <- Hret in Hlt.
  assert (Hno : is_ok (Ok y : result NxrLandingError LandingOpen) = false).
  { eapply (remembered_refused calls (with_replay a _) (open_nonce (oc_request c)) _ j d); [exact Hr'|exact Hrem| |done|by rewrite Heq|exact Hy].
    intros i e Hi He. pose proof (Hmono (S i) (S j) e d ltac:(lia) He Hd). lia. }
  done.
Qed.
End Runs.

(** No NXR open is served twice. A landing judges any sequence of requests,
    genuine or forged, in both modes. If the wall clock is not stepped against
    the monotonic clock and the cache retains nonces for the period the code
    derives from the accepted skew ([2 * skew + 1] seconds), then two requests
    of the sequence that are both served are different byte strings: the skew
    window closes before the nonce is forgotten. *)
Theorem nxr_open_served_once {C : CryptoOps} {L : CryptoLaws C} {G : Type} `{RG : ReplayGuard G}
    (a : NxrAuthenticator G) (calls : list OpenCall) (offset : Z) (i j : nat) (c d : OpenCall) (x y : LandingOpen) :
  rg_ready (na_replay a) -> rg_retention = SECOND * replay_retention_seconds (na_window a) ->
  0 <= na_window a -> 2 * na_window a + 1 <= U64_MAX -> coherent offset calls -> (i < j)%nat ->
  calls !! i = Some c -> calls !! j = Some d ->
  open_run a calls !! i = Some (Ok x) -> open_run a calls !! j = Some (Ok y) ->
  oc_request c <> oc_request d.
Proof. apply served_once_at. Qed.

Definition nxr_policy : CachePolicy := {| capacity := 4; retention := SECOND * 61; instant_max := 10 ^ 18 |}.
Definition nxr_cache : ReplayCache := {| shards := replicate REPLAY_SHARDS empty_shard; used := 0 |}.
Definition nxr_authenticator : NxrAuthenticator ReplayCache :=
  {| na_key := replicate 32 x0b; na_replay := nxr_cache; na_window := 30 |}.
Definition nxr_example (n : byte) : AuthenticatedRequest :=
  {| ar_timestamp := 1700000000; ar_nonce := replicate 16 n; ar_destination := {| address := Ipv4 [x7f; x00; x00; x01]; port := 443 |} |}.
(** The first request, a replay of it, and a second request. *)
Definition nxr_calls : list OpenCall :=
  [{| oc_request := tcp_wire (C := toy_ops) (replicate 32 x0b) (nxr_example x01); oc_wall := 1700000000 * SECOND; oc_mono := 0 |};
   {| oc_request := tcp_wire (C := toy_ops) (replicate 32 x0b) (nxr_example x01); oc_wall := 1700000030 * SECOND; oc_mono := 30 * SECOND |};
   {| oc_request := tcp_wire (C := toy_ops) (replicate 32 x0b) (nxr_example x02); oc_wall := 1700000030 * SECOND; oc_mono := 30 * SECOND |}].

Lemma nxr_policy_ready : quiescent nxr_policy nxr_cache.
Proof.
  constructor; [|reflexivity|cbn; lia].
  eapply (i_cache nxr_policy (initial_system nxr_cache 0)), initial_inv; [cbn; lia|reflexivity].
Qed.

Lemma nxr_open_served_once_witness :
  (is_ok <$> open_run (C := toy_ops) (H := replay_guard nxr_policy) nxr_authenticator nxr_calls) = [true; false; true] /\
  tcp_wire (C := toy_ops) (replicate 32 x0b) (nxr_example x01) <> tcp_wire (C := toy_ops) (replicate 32 x0b) (nxr_example x02).
Proof.
  split; [vm_compute; reflexivity|].
  refine (nxr_open_served_once (C := toy_ops) (L := toy_laws) (RG := replay_guard nxr_policy) nxr_authenticator nxr_calls
    (1700000000 * SECOND) 0 2 (nth 0 nxr_calls (nth 2 nxr_calls {| oc_request := []; oc_wall := 0; oc_mono := 0 |}))
    (nth 2 nxr_calls {| oc_request := []; oc_wall := 0; oc_mono := 0 |})
    (TcpRelay (ar_destination (nxr_example x01))) (TcpRelay (ar_destination (nxr_example x02)))
    nxr_policy_ready eq_refl _ _ _ _ eq_refl eq_refl _ _).
  - cbn; lia.
  - cbn; unfold U64_MAX; lia.
  - split; [repeat constructor|]. intros i j c d Hij Hi Hj.
    destruct i as [|[|[|]]], j as [|[|[|]]]; try lia; try discriminate; injection Hi as <-; injection Hj as <-; vm_compute; congruence.
  - lia.
  - vm_compute; reflexivity.
  - vm_compute; reflexivity.
Defined.

(** ** A request from one end reaches the other *)

Section Delivery.
Context {C : CryptoOps} {L : CryptoLaws C} {G : Type} `{RG : ReplayGuard G}.

Lemma dispatch_tcp_wire (a : NxrAuthenticator G) r now instant :
  request_wf r -> abs_diff (ar_timestamp r) now <= na_window a ->
  (rg_reserve (na_replay a) (ar_nonce r) instant).1 = None ->
  (dispatch_open a (tcp_wire (na_key a) r) now instant).1 = Ok (TcpRelay (ar_destination r)).
Proof.
  intros Hw Ht Hres. unfold dispatch_open. pose proof Hw as (_ & Hn & _).
  assert (Hg : exists t al p ts, get_range (tcp_wire (na_key a) r) 0 REQUEST_HEADER_LEN =
      Some (open_header FLAG_TCP t al p ts (ar_nonce r))).
  { unfold tcp_wire, open_body. rewrite <- app_assoc. do 4 eexists. apply get_range_prefix. by rewrite len_open_header. }
  destruct Hg as (t & al & p & ts & Hg). rewrite Hg. cbn [ok_or mbind result_bind]. rewrite peek_header by done.
  cbn [map_err mbind result_bind ok_or]. rewrite bool_decide_true by done. unfold authenticate_tcp.
  rewrite (proj2 (tcp_decode_iff _ (na_key a) now (na_window a) r)) by done.
  by destruct (rg_reserve (na_replay a) (ar_nonce r) instant) as [[f|] g].
Qed.

Lemma dispatch_udp_wire (a : NxrAuthenticator G) o now instant :
  udp_open_wf o -> abs_diff (uo_timestamp o) now <= na_window a ->
  (rg_reserve (na_replay a) (uo_nonce o) instant).1 = None ->
  (dispatch_open a (udp_wire (na_key a) o) now instant).1 =
    Ok (UdpAssociation o (session_derive (na_key a)
      (open_body FLAG_UDP (uo_destination o) (uo_timestamp o) (uo_nonce o) (uo_user_id o)))).
Proof.
  intros Hw Ht Hres. unfold dispatch_open. pose proof Hw as (_ & Hn & _).
  assert (Hg : exists t al p ts, get_range (udp_wire (na_key a) o) 0 REQUEST_HEADER_LEN =
      Some (open_header FLAG_UDP t al p ts (uo_nonce o))).
  { unfold udp_wire, open_body. rewrite <- app_assoc. do 4 eexists. apply get_range_prefix. by rewrite len_open_header. }
  destruct Hg as (t & al & p & ts & Hg). rewrite Hg. cbn [ok_or mbind result_bind]. rewrite peek_header by done.
  cbn [map_err mbind result_bind ok_or]. rewrite bool_decide_false, bool_decide_true by done. unfold authenticate_udp.
  rewrite (proj2 (udp_decode_iff _ (na_key a) now (na_window a) o)) by done.
  rewrite udp_prefix by done. by destruct (rg_reserve (na_replay a) (uo_nonce o) instant) as [[f|] g].
Qed.
End Delivery.

(** ** The LINE side ([src/server/outbound.rs])

    Clock and entropy are inputs; [None] is their failure. The error type keeps
    the variants these functions report. *)

Inductive OutboundConnectError := OcNxrClock | OcNxrRandom | OcNxrProtocol (e : NxrProtocolError).

Section Line.
Context {C : CryptoOps} (alloc : Z -> bool) (clock : option Z) (entropy : option (list byte)) (key : NxrKey).

Definition fresh_nxr_request (d : Destination) : result OutboundConnectError (list byte) :=
  timestamp ← ok_or OcNxrClock clock;
  nonce ← ok_or OcNxrRandom entropy;
  let '(r, request) := encode_request alloc d timestamp nonce key [] in
  _ ← map_err OcNxrProtocol r;
  Ok request.

Definition fresh_nxr_udp_request (d : Destination) (user_id : list byte) : result OutboundConnectError (list byte) :=
  timestamp ← ok_or OcNxrClock clock;
  nonce ← ok_or OcNxrRandom entropy;
  let '(r, request) := encode_udp_open alloc d user_id timestamp nonce key [] in
  _ ← map_err (fun e => OcNxrProtocol (nxr_error_of_udp e)) r;
  Ok request.

(** The request and the session key of [dial_nxr_udp_carrier]. *)
Definition dial_nxr_udp (d : Destination) (user_id : list byte) : result OutboundConnectError (list byte * list byte) :=
  request ← fresh_nxr_udp_request d user_id;
  prefix ← map_err (fun e => OcNxrProtocol (nxr_error_of_udp e)) (open_authenticated_prefix request);
  prefix ← ok_or (OcNxrProtocol (nxr_error_of_udp NuLength)) prefix;
  Ok (request, session_derive key prefix).
End Line.

Lemma fresh_request_wire {C : CryptoOps} alloc ts nonce key d request :
  address_typed (address d) -> u16_range (port d) -> u64_range ts -> len nonce = 16 ->
  fresh_nxr_request alloc (Some ts) (Some nonce) key d = Ok request ->
  let r := {| ar_timestamp := ts; ar_nonce := nonce; ar_destination := d |} in request_wf r /\ request = tcp_wire key r.
Proof.
  intros Ha Hp Ht Hn. unfold fresh_nxr_request. cbn [ok_or mbind result_bind].
  destruct (encode_request alloc d ts nonce key []) as [[[]| |] out] eqn:E; [|done..]. intros [= ->].
  apply encode_request_ok in E as [Hd ->]; done.
Qed.

Lemma dial_udp_wire {C : CryptoOps} {L : CryptoLaws C} alloc ts nonce key d uid request k :
  address_typed (address d) -> u16_range (port d) -> u64_range ts -> len nonce = 16 -> len uid = 16 ->
  dial_nxr_udp alloc (Some ts) (Some nonce) key d uid = Ok (request, k) ->
  let o := {| uo_timestamp := ts; uo_nonce := nonce; uo_destination := d; uo_user_id := uid |} in
  udp_open_wf o /\ request = udp_wire key o /\ k = session_derive key (open_body FLAG_UDP d ts nonce uid).
Proof.
  intros Ha Hp Ht Hn Hu. unfold dial_nxr_udp, fresh_nxr_udp_request. cbn [ok_or mbind result_bind].
  destruct (encode_udp_open alloc d uid ts nonce key []) as [[[]| |] out] eqn:E; [|done..].
  apply encode_udp_open_ok in E as [Hd ->]; [|done..]. cbn [map_err mbind result_bind].
  rewrite udp_prefix by done. intros [= <- <-]. done.
Qed.

(** C25: LINE and LANDING agree on an open. When LINE builds a request for a
    destination and LANDING (same key, clock within the window, nonce admitted
    by its replay cache) handles a connection that carries the request followed
    by any user bytes, the connection is served for that destination and exactly
    the user bytes remain in the stream; in UDP mode both ends also hold the
    same open and derive the same session key. *)
Theorem nxr_open_agreement {C : CryptoOps} {L : CryptoLaws C} {G : Type} `{RG : ReplayGuard G} (alloc : Z -> bool)
    (a : NxrAuthenticator G) (d : Destination) (ts now instant : Z) (nonce uid user : list byte) (closed : bool) :
  address_typed (address d) -> u16_range (port d) -> u64_range ts -> len nonce = 16 -> len uid = 16 ->
  abs_diff ts now <= na_window a -> (rg_reserve (na_replay a) nonce instant).1 = None ->
  (forall b0 bs, alloc (len (b0 :: bs)) = true ->
    fresh_nxr_request alloc (Some ts) (Some nonce) (na_key a) d = Ok (b0 :: bs) ->
    (handle alloc a {| rx := bs ++ user; rx_closed := closed |} b0 now instant).1 =
      (Ok (TcpRelay d), {| rx := user; rx_closed := closed |})) /\
  (forall b0 bs session, alloc (len (b0 :: bs)) = true ->
    dial_nxr_udp alloc (Some ts) (Some nonce) (na_key a) d uid = Ok (b0 :: bs, session) ->
    (handle alloc a {| rx := bs ++ user; rx_closed := closed |} b0 now instant).1 =
      (Ok (UdpAssociation {| uo_timestamp := ts; uo_nonce := nonce; uo_destination := d; uo_user_id := uid |} session),
       {| rx := user; rx_closed := closed |})).
Proof.
  intros Ha Hp Ht Hn Hu Hwin Hres. split; intros b0 bs.
  - intros Hal (Hw & E)%fresh_request_wire; [|done..]. unfold handle.
    rewrite (read_tcp_wire alloc (na_key a) _ user closed b0 bs Hw); [|by rewrite <- E|done].
    pose proof (dispatch_tcp_wire a _ now instant Hw Hwin Hres) as Hd.
    destruct (dispatch_open _ _ _ _) as [x a']. cbn in Hd. by rewrite Hd.
  - intros session Hal (Hw & E & ->)%dial_udp_wire; [|done..]. unfold handle.
    rewrite (read_udp_wire alloc (na_key a) _ user closed b0 bs Hw); [|by rewrite <- E|done].
    pose proof (dispatch_udp_wire a _ now instant Hw Hwin Hres) as Hd.
    destruct (dispatch_open _ _ _ _) as [x a']. cbn in Hd. by rewrite Hd.
Qed.

(** One TCP open for 127.0.0.1:443 followed by the user bytes [hi]. *)
Lemma nxr_open_agreement_witness :
  exists b0 bs, tcp_wire (C := toy_ops) (replicate 32 x0b) (nxr_example x01) = b0 :: bs /\
    (handle (C := toy_ops) (RG := replay_guard nxr_policy) (fun _ => true) nxr_authenticator
      {| rx := bs ++ [x68; x69]; rx_closed := false |} b0 1700000010 7).1 =
      (Ok (TcpRelay (ar_destination (nxr_example x01))), {| rx := [x68; x69]; rx_closed := false |}).
Proof.
  pose proof (nxr_open_agreement (C := toy_ops) (L := toy_laws) (RG := replay_guard nxr_policy) (fun _ => true) nxr_authenticator
    (ar_destination (nxr_example x01)) 1700000000 1700000010 7 (replicate 16 x01) (replicate 16 x00) [x68; x69] false) as H.
  eexists _, _. split; [vm_compute; reflexivity|].
  apply H; try (vm_compute; reflexivity); vm_compute; first [congruence | split; congruence].
Defined.
