(* ===== verification/NxrAssoc.v ===== *)
(** * NXR UDP associations ([src/server/nxr/udp.rs], [XudpNxrAssociation] of [src/server/xudp.rs])

    Both ends of an authenticated UDP association: LANDING's loop that owns the
    UDP socket and LINE's carrier behind an XUDP session. What the sockets do
    (bytes read, datagrams received, outcomes of sends) are inputs of the
    operations; what the code sends is recorded in the state. *)

From S2P Require Import Prelude VlessRequest Xudp Crypto Replay UdpWire Effects Nxr NxrUdp.
#[local] Open Scope Z_scope.

Definition MAX_FRAME_BUFFER : Z := 256 * 1024.
Definition NXR_LINE_FRAME_BUFFER : Z := 256 * 1024.

(** ** LANDING *)

Inductive LandingUdpError := AeProtocol (e : NxrUdpError) | AeRead | AeUdpIo | AeDescriptorBudget.

Definition socket_addr_for_udp (d : Destination) : result LandingUdpError SocketAddr :=
  match address d with
  | Ipv4 o => Ok {| sa_ip := V4 o; sa_port := port d |}
  | Ipv6 o => Ok {| sa_ip := V6 o; sa_port := port d |}
  | Domain _ => Err (AeProtocol NuAddress)
  end.

(** [Destination::from(SocketAddr)]. *)
Definition destination_from (a : SocketAddr) : Destination :=
  {| address := match sa_ip a with V4 o => Ipv4 o | V6 o => Ipv6 o end; port := sa_port a |}.

Record LandingState := {
  la_buf : list byte; la_seq_in : NxrUdpSeq; la_seq_out : NxrUdpSeq; la_current : SocketAddr;
  la_uplink : Z; la_downlink : Z;
  la_sent : list (list byte * SocketAddr);   (** datagrams given to [send_to] *)
  la_written : list byte;                    (** bytes given to [write_all] *)
}.

Definition landing_start (current : SocketAddr) : LandingState :=
  {| la_buf := []; la_seq_in := new_seq; la_seq_out := new_seq; la_current := current; la_uplink := 0; la_downlink := 0;
     la_sent := []; la_written := [] |}.

Definition set_buf (b : list byte) (s : LandingState) : LandingState :=
  {| la_buf := b; la_seq_in := la_seq_in s; la_seq_out := la_seq_out s; la_current := la_current s;
     la_uplink := la_uplink s; la_downlink := la_downlink s; la_sent := la_sent s; la_written := la_written s |}.
Definition set_seq_in (q : NxrUdpSeq) (s : LandingState) : LandingState :=
  {| la_buf := la_buf s; la_seq_in := q; la_seq_out := la_seq_out s; la_current := la_current s;
     la_uplink := la_uplink s; la_downlink := la_downlink s; la_sent := la_sent s; la_written := la_written s |}.
Definition set_seq_out (q : NxrUdpSeq) (s : LandingState) : LandingState :=
  {| la_buf := la_buf s; la_seq_in := la_seq_in s; la_seq_out := q; la_current := la_current s;
     la_uplink := la_uplink s; la_downlink := la_downlink s; la_sent := la_sent s; la_written := la_written s |}.
Definition set_current (c : SocketAddr) (s : LandingState) : LandingState :=
  {| la_buf := la_buf s; la_seq_in := la_seq_in s; la_seq_out := la_seq_out s; la_current := c;
     la_uplink := la_uplink s; la_downlink := la_downlink s; la_sent := la_sent s; la_written := la_written s |}.
Definition record_sent (p : list byte) (s : LandingState) : LandingState :=
  {| la_buf := la_buf s; la_seq_in := la_seq_in s; la_seq_out := la_seq_out s; la_current := la_current s;
     la_uplink := saturating_add_u64 (la_uplink s) (len p); la_downlink := la_downlink s;
     la_sent := la_sent s ++ [(p, la_current s)]; la_written := la_written s |}.
Definition record_written (w p : list byte) (s : LandingState) : LandingState :=
  {| la_buf := la_buf s; la_seq_in := la_seq_in s; la_seq_out := la_seq_out s; la_current := la_current s;
     la_uplink := la_uplink s; la_downlink := saturating_add_u64 (la_downlink s) (len p);
     la_sent := la_sent s; la_written := la_written s ++ w |}.

Definition lift_io {S E F A} (f : E -> F) (m : result E A) : IO S F A := fun s => (map_err f m, s).
Definition io_modify {S E} (f : S -> S) : IO S E unit := fun s => (Ok tt, f s).

(** What ends the loop normally: the two counters of [RelayStats]. *)
Definition RelayStats : Type := Z * Z.

Section Landing.
Context {C : CryptoOps} (alloc : Z -> bool) (session : list byte).
(** Outcomes of the [n]th [send_to] and of the [write_all] at a stream position. *)
Context (send_ok : nat -> bool) (write_ok : Z -> bool).

Notation LM := (IO LandingState LandingUdpError).

Definition landing_accept (sq : Z) : LM unit :=
  io_reads (fun s => let '(r, q) := accept_in (la_seq_in s) sq in
    io_modify (set_seq_in q) ≫= fun _ => lift_io AeProtocol r).

(** The [for frame in frames] loop; [true] is the return on a Close frame. *)
Fixpoint landing_frames (frames : list NxrUdpFrame) : LM bool :=
  match frames with
  | [] => mret false
  | frame :: frames =>
    _ ← landing_accept (seq frame);
    if bool_decide (frame_type frame = FRAME_TYPE_CLOSE) then mret true
    else if negb (bool_decide (frame_type frame = FRAME_TYPE_DATAGRAM)) then io_throw (AeProtocol NuFrameType)
    else
      _ ← (match frame_destination frame with
           | Some dest => c ← lift_io id (socket_addr_for_udp dest); io_modify (set_current c)
           | None => mret tt
           end);
      if NXR_UDP_MAX_PAYLOAD <? len (payload frame) then io_throw (AeProtocol NuPayload)
      else
        _ ← (if bool_decide (payload frame = []) then mret tt
             else io_reads (fun s => _ ← io_check (send_ok (length (la_sent s))) AeUdpIo; io_modify (record_sent (payload frame))));
        landing_frames frames
  end.

Definition landing_stats : LM (option RelayStats) := io_reads (fun s => mret (Some (la_uplink s, la_downlink s))).

(** The read branch: [None] is a read error, an empty chunk the end. *)
Definition landing_read (chunk : option (list byte)) : LM (option RelayStats) :=
  match chunk with
  | None => io_throw AeRead
  | Some [] => landing_stats
  | Some chunk =>
    _ ← io_modify (fun s => set_buf (la_buf s ++ chunk) s);
    io_reads (fun s =>
      if MAX_FRAME_BUFFER <? len (la_buf s) then io_throw (AeProtocol NuLength)
      else
        let '(r, b) := drain_frames (la_buf s) session DIR_LINE_TO_LANDING in
        _ ← io_modify (set_buf b);
        frames ← lift_io AeProtocol r;
        landing_frames frames ≫= fun closed : bool =>
        if closed then landing_stats else mret None)
  end.

(** The datagram branch: [None] is a receive error. *)
Definition landing_recv (datagram : option (list byte * SocketAddr)) : LM (option RelayStats) :=
  match datagram with
  | None => io_throw AeUdpIo
  | Some (payload, from) =>
    if NXR_UDP_MAX_PAYLOAD <? len payload then io_throw (AeProtocol NuPayload)
    else
      io_reads (fun s =>
        let '(r, q) := next_out (la_seq_out s) in
        _ ← io_modify (set_seq_out q);
        sq ← lift_io AeProtocol r;
        let '(r, frame_out) := encode_frame alloc session DIR_LANDING_TO_LINE FRAME_TYPE_DATAGRAM sq
          (Some (destination_from from)) payload [] in
        _ ← lift_io AeProtocol r;
        _ ← io_check (write_ok (len (la_written s))) AeUdpIo;
        _ ← io_modify (record_written frame_out payload);
        mret None)
  end.

Inductive LandingEvent :=
| EvRead (chunk : option (list byte))
| EvRecv (datagram : option (list byte * SocketAddr))
| EvIdle.

Definition landing_step (e : LandingEvent) : LM (option RelayStats) :=
  match e with
  | EvRead chunk => landing_read chunk
  | EvRecv datagram => landing_recv datagram
  | EvIdle => landing_stats
  end.

(** The [select!] loop over the events in the order it takes them; [None] when
    the events run out with the association still open. *)
Fixpoint landing_loop (events : list LandingEvent) : LM (option RelayStats) :=
  match events with
  | [] => mret None
  | e :: events =>
    r ← landing_step e;
    match r with Some stats => mret (Some stats) | None => landing_loop events end
  end.

(** [handle_udp_association]: the socket and its descriptor unit first. *)
Definition handle_udp_association (initial : Destination) (bind_ok permit_ok : bool) (events : list LandingEvent)
    : result LandingUdpError (option RelayStats) :=
  current ← socket_addr_for_udp initial;
  guard! negb bind_ok else AeUdpIo;
  guard! negb permit_ok else AeDescriptorBudget;
  (landing_loop events (landing_start current)).1.
End Landing.

(** ** LINE *)

Inductive XudpSessionError :=
| XeUnauthorizedRewrite | XeMissingNewDestination | XeNxrCarrier (e : NxrUdpError) | XeIo | XeCodec (e : XudpCodecError).

Record LineState := {
  li_seq_out : NxrUdpSeq; li_seq_in : NxrUdpSeq; li_last : Destination; li_buf : list byte;
  li_pending : list NxrUdpFrame; li_activity : Z; li_up : Z; li_down : Z;
  li_written : list byte;
}.

Definition line_start (d : Destination) (now : Z) : LineState :=
  {| li_seq_out := new_seq; li_seq_in := new_seq; li_last := d; li_buf := []; li_pending := []; li_activity := now;
     li_up := 0; li_down := 0; li_written := [] |}.

Definition touch (now : Z) (s : LineState) : LineState :=
  {| li_seq_out := li_seq_out s; li_seq_in := li_seq_in s; li_last := li_last s; li_buf := li_buf s;
     li_pending := li_pending s; li_activity := now; li_up := li_up s; li_down := li_down s; li_written := li_written s |}.
Definition set_last (d : Destination) (s : LineState) : LineState :=
  {| li_seq_out := li_seq_out s; li_seq_in := li_seq_in s; li_last := d; li_buf := li_buf s;
     li_pending := li_pending s; li_activity := li_activity s; li_up := li_up s; li_down := li_down s; li_written := li_written s |}.
Definition line_set_out (q : NxrUdpSeq) (s : LineState) : LineState :=
  {| li_seq_out := q; li_seq_in := li_seq_in s; li_last := li_last s; li_buf := li_buf s;
     li_pending := li_pending s; li_activity := li_activity s; li_up := li_up s; li_down := li_down s; li_written := li_written s |}.
Definition line_write (w : list byte) (counted : bool) (s : LineState) : LineState :=
  {| li_seq_out := li_seq_out s; li_seq_in := li_seq_in s; li_last := li_last s; li_buf := li_buf s;
     li_pending := li_pending s; li_activity := li_activity s;
     li_up := if counted then saturating_add_u64 (li_up s) 1 else li_up s; li_down := li_down s;
     li_written := li_written s ++ w |}.
Definition line_set_in (q : NxrUdpSeq) (s : LineState) : LineState :=
  {| li_seq_out := li_seq_out s; li_seq_in := q; li_last := li_last s; li_buf := li_buf s;
     li_pending := li_pending s; li_activity := li_activity s; li_up := li_up s; li_down := li_down s; li_written := li_written s |}.
Definition line_set_rx (b : list byte) (p : list NxrUdpFrame) (s : LineState) : LineState :=
  {| li_seq_out := li_seq_out s; li_seq_in := li_seq_in s; li_last := li_last s; li_buf := b;
     li_pending := p; li_activity := li_activity s; li_up := li_up s; li_down := li_down s; li_written := li_written s |}.
Definition line_count_down (now : Z) (s : LineState) : LineState :=
  {| li_seq_out := li_seq_out s; li_seq_in := li_seq_in s; li_last := li_last s; li_buf := li_buf s;
     li_pending := li_pending s; li_activity := now; li_up := li_up s; li_down := saturating_add_u64 (li_down s) 1;
     li_written := li_written s |}.

#[export] Instance Address_eq_dec : EqDecision Address.
Proof. solve_decision. Defined.
#[export] Instance Destination_eq_dec : EqDecision Destination.
Proof. solve_decision. Defined.
#[export] Instance XudpSessionStatus_eq_dec : EqDecision XudpSessionStatus.
Proof. solve_decision. Defined.

Section Line.
Context {C : CryptoOps} (alloc : Z -> bool) (session : list byte) (write_ok : Z -> bool).

Notation XM := (IO LineState XudpSessionError).

(** The destination field of the frame to send, after the checks. *)
Definition uplink_destination (p : XudpPacket) (authorized : option Destination) : XM (option Destination) :=
  match xp_destination p with
  | Some _ =>
    match authorized with
    | None => io_throw XeUnauthorizedRewrite
    | Some dest =>
      io_reads (fun s =>
        if negb (bool_decide (dest = li_last s)) then _ ← io_modify (set_last dest); mret (Some dest)
        else mret None)
    end
  | None => if bool_decide (xp_status p = StatusNew) then io_throw XeMissingNewDestination else mret None
  end.

Definition send_frame (frame_type : byte) (dest : option Destination) (payload : list byte) : XM unit :=
  io_reads (fun s =>
    let '(r, q) := next_out (li_seq_out s) in
    _ ← io_modify (line_set_out q);
    sq ← lift_io XeNxrCarrier r;
    let '(r, wire) := encode_frame alloc session DIR_LINE_TO_LANDING frame_type sq dest payload [] in
    _ ← lift_io XeNxrCarrier r;
    _ ← io_check (write_ok (len (li_written s))) XeIo;
    io_modify (line_write wire (negb (bool_decide (payload = []))))).

Definition handle_uplink_packet (p : XudpPacket) (authorized : option Destination) (now : Z) : XM unit :=
  match xp_status p with
  | StatusEnd | StatusKeepAlive => io_modify (touch now)
  | StatusNew | StatusKeep =>
    dest ← uplink_destination p authorized;
    _ ← (if negb (bool_decide (xp_payload p = [])) || bool_decide (is_Some dest)
         then send_frame FRAME_TYPE_DATAGRAM dest (xp_payload p) else mret tt);
    io_modify (touch now)
  end.

(** The Close frame of [close]; every failure is ignored. *)
Definition close_association : XM unit :=
  fun s => match send_frame FRAME_TYPE_CLOSE None [] s with
           | (Ok _, s) => (Ok tt, s) | (Err _, s) => (Ok tt, s) | (Panic, s) => (Panic, s)
           end.

Definition finish_downlink_frame (frame : NxrUdpFrame) (now : Z) : XM (list byte) :=
  io_reads (fun s =>
    let '(r, q) := accept_in (li_seq_in s) (seq frame) in
    _ ← io_modify (line_set_in q);
    _ ← lift_io XeNxrCarrier r;
    if bool_decide (frame_type frame = FRAME_TYPE_CLOSE) then io_throw XeIo
    else if negb (bool_decide (frame_type frame = FRAME_TYPE_DATAGRAM)) then io_throw (XeNxrCarrier NuFrameType)
    else
      match frame_destination frame with
      | None => io_throw (XeNxrCarrier NuAddress)
      | Some dest =>
        output ← lift_io XeCodec (encode_xudp_packet dest (payload frame) false None true []);
        _ ← io_modify (line_count_down now);
        mret output
      end).

(** One turn of the loop before it reads: a pending frame, or the first frame
    the buffer holds. *)
Definition try_downlink (now : Z) : XM (option (list byte)) :=
  io_reads (fun s =>
    match li_pending s with
    | frame :: pending =>
      _ ← io_modify (fun s => line_set_rx (li_buf s) pending s);
      output ← finish_downlink_frame frame now; mret (Some output)
    | [] =>
      if 4 <=? len (li_buf s) then
        let '(r, b) := drain_frames (li_buf s) session DIR_LANDING_TO_LINE in
        _ ← io_modify (line_set_rx b []);
        frames ← lift_io XeNxrCarrier r;
        match frames with
        | [] => mret None
        | frame :: pending =>
          _ ← io_modify (line_set_rx b pending);
          output ← finish_downlink_frame frame now; mret (Some output)
        end
      else mret None
    end).

(** [recv_downlink_frame] over the reads the stream will deliver (an empty one
    is the end); [None] when it is still waiting after the last of them. *)
Fixpoint recv_downlink_frame (reads : list (list byte)) (now : Z) : XM (option (list byte) * list (list byte)) :=
  r ← try_downlink now;
  match r with
  | Some output => mret (Some output, reads)
  | None =>
    match reads with
    | [] => mret (None, [])
    | [] :: _ => io_throw XeIo
    | chunk :: reads =>
      _ ← io_modify (fun s => line_set_rx (li_buf s ++ chunk) (li_pending s) s);
      io_reads (fun s =>
        if NXR_LINE_FRAME_BUFFER <? len (li_buf s) then io_throw (XeNxrCarrier NuLength)
        else recv_downlink_frame reads now)
    end
  end.
End Line.

(** ** What the association promises: the datagrams by destination *)

(** The destination in force after a packet. *)
Definition uplink_target (last : Destination) (p : XudpPacket) (authorized : option Destination) : Destination :=
  match xp_status p, xp_destination p, authorized with
  | (StatusNew | StatusKeep), Some _, Some d => d
  | _, _, _ => last
  end.

Definition carries_data (p : XudpPacket) : bool :=
  match xp_status p with
  | StatusNew | StatusKeep => negb (bool_decide (xp_payload p = []))
  | StatusEnd | StatusKeepAlive => false
  end.

Fixpoint uplink_spec (last : Destination) (packets : list (XudpPacket * option Destination))
    : list (list byte * Destination) :=
  match packets with
  | [] => []
  | (p, authorized) :: packets =>
    let d := uplink_target last p authorized in
    (if carries_data p then [(xp_payload p, d)] else []) ++ uplink_spec d packets
  end.

(** ** Frames: which ones LINE emits, what LANDING does with them *)

Definition datagram (sq : Z) (d : option Destination) (p : list byte) : NxrUdpFrame :=
  {| frame_type := FRAME_TYPE_DATAGRAM; seq := sq; frame_destination := d; payload := p |}.

Fixpoint line_frames (last : Destination) (n : Z) (packets : list (XudpPacket * option Destination)) : list NxrUdpFrame :=
  match packets with
  | [] => []
  | (p, authorized) :: packets =>
    let d := uplink_target last p authorized in
    let field := if bool_decide (d = last) then None else Some d in
    if carries_data p || negb (bool_decide (d = last))
    then datagram n field (xp_payload p) :: line_frames d (n + 1) packets
    else line_frames d n packets
  end.

Definition ip_destination (d : Destination) : Prop :=
  match address d with Ipv4 o => len o = 4 | Ipv6 o => len o = 16 | Domain _ => False end /\ 1 <= port d <= U16_MAX.

Definition addr_of (d : Destination) : SocketAddr :=
  match socket_addr_for_udp d with Ok a => a | _ => {| sa_ip := V4 []; sa_port := 0 |} end.

Fixpoint deliver (current : SocketAddr) (fs : list NxrUdpFrame) : list (list byte * SocketAddr) :=
  match fs with
  | [] => []
  | f :: fs =>
    let c := match frame_destination f with Some d => addr_of d | None => current end in
    (if bool_decide (payload f = []) then [] else [(payload f, c)]) ++ deliver c fs
  end.

Fixpoint in_order (n : Z) (fs : list NxrUdpFrame) : Prop :=
  match fs with [] => True | f :: fs => seq f = n /\ in_order (n + 1) fs end.

Definition good_datagram (f : NxrUdpFrame) : Prop :=
  frame_ok f /\ frame_type f = FRAME_TYPE_DATAGRAM /\
  match frame_destination f with Some d => ip_destination d | None => True end.

Lemma in_order_app n fs gs : in_order n (fs ++ gs) <-> in_order n fs /\ in_order (n + len fs) gs.
Proof.
  revert n. induction fs as [|f fs IH]; intros n; cbn [app in_order].
  - rewrite len_nil, Z.add_0_r. naive_solver.
  - rewrite IH, len_cons. replace (n + 1 + len fs) with (n + (1 + len fs)) by lia. naive_solver.
Qed.

Lemma ip_destination_wf d : ip_destination d -> nxr_destination_wf d.
Proof. intros [Ha Hp]. split; [|done]. by destruct (address d). Qed.

Lemma ip_socket d : ip_destination d -> socket_addr_for_udp d = Ok (addr_of d).
Proof. intros [Ha _]. unfold addr_of, socket_addr_for_udp. by destruct (address d). Qed.

(** The whole state after [fs] was handled without a Close. *)
Fixpoint landed (fs : list NxrUdpFrame) (s : LandingState) : LandingState :=
  match fs with
  | [] => s
  | f :: fs =>
    let s := set_seq_in {| next := next (la_seq_in s) + 1 |} s in
    let s := match frame_destination f with Some d => set_current (addr_of d) s | None => s end in
    landed fs (if bool_decide (payload f = []) then s else record_sent (payload f) s)
  end.

Lemma landed_effect fs : forall s,
  la_sent (landed fs s) = la_sent s ++ deliver (la_current s) fs /\
  next (la_seq_in (landed fs s)) = next (la_seq_in s) + len fs /\
  la_buf (landed fs s) = la_buf s /\ la_written (landed fs s) = la_written s /\ la_seq_out (landed fs s) = la_seq_out s /\
  la_current (landed fs s) = foldl (fun c f => match frame_destination f with Some d => addr_of d | None => c end) (la_current s) fs.
Proof.
  induction fs as [|f fs IH]; intros s; cbn [landed deliver foldl].
  - rewrite app_nil_r, len_nil, Z.add_0_r. done.
  - destruct (frame_destination f) as [d|]; case_bool_decide as Hp;
      edestruct IH as (-> & -> & -> & -> & -> & ->); cbn; rewrite <- ?app_assoc, ?len_cons; split_and!; try done; lia.
Qed.

Lemma deliver_app c fs gs :
  deliver c (fs ++ gs) = deliver c fs ++
    deliver (foldl (fun c f => match frame_destination f with Some d => addr_of d | None => c end) c fs) gs.
Proof.
  revert c. induction fs as [|f fs IH]; intros c; [done|]. cbn [app deliver foldl]. by rewrite IH, <- app_assoc.
Qed.

Section LandingFrames.
Context {C : CryptoOps} {L : CryptoLaws C} (alloc : Z -> bool) (k : list byte) (send_ok : nat -> bool) (write_ok : Z -> bool).
Context (Hal : forall n, alloc n = true) (Hsend : forall n, send_ok n = true) (Hwrite : forall n, write_ok n = true).

Lemma landing_frames_good fs : forall s,
  Forall good_datagram fs -> in_order (next (la_seq_in s)) fs ->
  landing_frames send_ok fs s = (Ok false, landed fs s).
Proof.
  induction fs as [|f fs IH]; intros s Hg Ho; [done|]. apply Forall_cons in Hg as [(Hok & Hty & Hd) Hg].
  destruct Ho as [Hseq Ho]. cbn [landing_frames landed].
  assert (Hacc : landing_accept (seq f) s = (Ok tt, set_seq_in {| next := next (la_seq_in s) + 1 |} s)).
  { unfold landing_accept, io_reads. rewrite io_get_bind. unfold accept_in. rewrite Hseq, Z.eqb_refl. done. }
  rewrite (io_bind_ok _ _ _ _ _ Hacc). rewrite Hty. rewrite bool_decide_false by done. rewrite bool_decide_true by done. cbn [negb].
  set (s1 := set_seq_in _ s).
  assert (Hcur : (match frame_destination f with
      | Some dest => c ← lift_io id (socket_addr_for_udp dest); io_modify (set_current c)
      | None => mret tt end : IO LandingState LandingUdpError unit) s1 =
    (Ok tt, match frame_destination f with Some d => set_current (addr_of d) s1 | None => s1 end)).
  { destruct (frame_destination f) as [d|]; [|done]. by rewrite ip_socket. }
  rewrite (io_bind_ok _ _ _ _ _ Hcur). rewrite (proj2 (Z.ltb_ge _ _)) by apply Hok.
  set (s2 := match frame_destination f with Some d => set_current (addr_of d) s1 | None => s1 end).
  assert (Hs2 : next (la_seq_in s2) = next (la_seq_in s) + 1) by (subst s2; by destruct (frame_destination f)).
  case_bool_decide as Hp.
  - erewrite io_bind_ok by done. apply IH; [done|]. by rewrite Hs2.
  - erewrite io_bind_ok; [|unfold io_reads; rewrite io_get_bind, Hsend; reflexivity]. apply IH; [done|]. cbn. by rewrite Hs2.
Qed.

Lemma landing_read_good s chunk fs tail :
  Forall good_datagram fs -> in_order (next (la_seq_in s)) fs -> partial (la_buf s) ->
  la_buf s ++ chunk ++ tail = wires k DIR_LINE_TO_LANDING fs -> chunk <> [] -> len chunk <= 65536 ->
  exists fs1 fs2 r, fs = fs1 ++ fs2 /\ r ++ tail = wires k DIR_LINE_TO_LANDING fs2 /\ partial r /\
    landing_read k send_ok (Some chunk) s = (Ok None, landed fs1 (set_buf r (set_buf (la_buf s ++ chunk) s))).
Proof.
  intros Hg Ho Hp Hw Hne Hlen. rewrite app_assoc in Hw.
  assert (Hok : Forall wire_frame_ok fs) by (eapply Forall_impl; [done|]; intros f (Hf & _); by apply frame_ok_wire).
  destruct (drain_prefix k DIR_LINE_TO_LANDING fs _ _ Hok Hw) as (fs1 & fs2 & r & -> & Hd & Hr & Hpr).
  exists fs1, fs2, r. split_and!; try done. unfold landing_read. destruct chunk as [|c0 chunk]; [done|].
  erewrite io_bind_ok by reflexivity. unfold io_reads. rewrite io_get_bind. cbn [la_buf set_buf].
  pose proof (partial_short _ Hp). rewrite (proj2 (Z.ltb_ge _ _)) by (unfold MAX_FRAME_BUFFER; frame_consts; slen).
  rewrite Hd. erewrite io_bind_ok by reflexivity. erewrite io_bind_ok by reflexivity.
  apply Forall_app in Hg as [Hg1 _]. apply in_order_app in Ho as [Ho1 _].
  erewrite io_bind_ok; [|apply landing_frames_good; [done|exact Ho1]]. done.
Qed.

Lemma landing_recv_good s p a :
  len p <= NXR_UDP_MAX_PAYLOAD -> ip_destination (destination_from a) -> u32_range (next (la_seq_out s)) ->
  landing_recv alloc k write_ok (Some (p, a)) s =
    (Ok None, record_written (frame_wire k DIR_LANDING_TO_LINE (datagram (next (la_seq_out s)) (Some (destination_from a)) p)) p
                (set_seq_out {| next := next (la_seq_out s) + 1 |} s)).
Proof.
  intros Hp Ha Hs. unfold landing_recv. rewrite (proj2 (Z.ltb_ge _ _)) by done. unfold io_reads. rewrite io_get_bind.
  assert (Hn : next_out (la_seq_out s) = (Ok (next (la_seq_out s)), {| next := next (la_seq_out s) + 1 |})).
  { unfold next_out. by rewrite (proj2 (try_from_some _ _ (next (la_seq_out s)))). }
  rewrite Hn. erewrite io_bind_ok by reflexivity. erewrite io_bind_ok by reflexivity.
  set (f := datagram (next (la_seq_out s)) (Some (destination_from a)) p).
  pose proof (encode_frame_complete alloc k DIR_LANDING_TO_LINE f [] Hal (or_intror eq_refl)) as He.
  cbn [f datagram frame_type seq frame_destination payload] in He. rewrite He by (split_and!; try done; by apply ip_destination_wf).
  erewrite io_bind_ok by reflexivity. erewrite io_bind_ok; [|by rewrite Hwrite]. done.
Qed.
End LandingFrames.

(** ** Full duplex at LANDING *)

(** The events an association survives: a non-empty read of at most 64 KiB (so the
    reassembly buffer stays under its 256 KiB bound) and a datagram from an IP
    source that fits a frame. An oversized datagram, a failed read or receive and
    the idle timeout end it: see [oversized_ends] for the first. *)
Definition event_ok (e : LandingEvent) : Prop :=
  match e with
  | EvRead (Some c) => c <> [] /\ len c <= 65536
  | EvRecv (Some (p, a)) => len p <= NXR_UDP_MAX_PAYLOAD /\ ip_destination (destination_from a)
  | _ => False
  end.

Definition event_bytes (e : LandingEvent) : list byte := match e with EvRead (Some c) => c | _ => [] end.
Definition event_datagrams (e : LandingEvent) : list (list byte * SocketAddr) := match e with EvRecv (Some d) => [d] | _ => [] end.

Fixpoint reply_frames (n : Z) (ds : list (list byte * SocketAddr)) : list NxrUdpFrame :=
  match ds with [] => [] | (p, a) :: ds => datagram n (Some (destination_from a)) p :: reply_frames (n + 1) ds end.

Lemma partial_wires_nil {C : CryptoOps} {L : CryptoLaws C} k dir fs r :
  Forall wire_frame_ok fs -> partial r -> r = wires k dir fs -> r = [] /\ fs = [].
Proof.
  intros Hok Hp Hr. pose proof (drain_partial k dir r Hp) as H1. pose proof (drain_wires k dir fs [] Hok) as H2.
  rewrite app_nil_r, <- Hr, H1, drain_partial in H2 by (left; frame_consts; slen). cbn in H2.
  rewrite app_nil_r in H2. injection H2 as Hf ->. by subst fs.
Qed.

Section Duplex.
Context {C : CryptoOps} {L : CryptoLaws C} (alloc : Z -> bool) (k : list byte) (send_ok : nat -> bool) (write_ok : Z -> bool).
Context (Hal : forall n, alloc n = true) (Hsend : forall n, send_ok n = true) (Hwrite : forall n, write_ok n = true).

Lemma landing_duplex evs : forall s fs,
  Forall event_ok evs -> Forall good_datagram fs -> in_order (next (la_seq_in s)) fs -> partial (la_buf s) ->
  la_buf s ++ concat (event_bytes <$> evs) = wires k DIR_LINE_TO_LANDING fs ->
  0 <= next (la_seq_out s) -> next (la_seq_out s) + len (concat (event_datagrams <$> evs)) <= U32_MAX + 1 ->
  exists s', landing_loop alloc k send_ok write_ok evs s = (Ok None, s') /\
    la_sent s' = la_sent s ++ deliver (la_current s) fs /\ la_buf s' = [] /\
    la_written s' = la_written s ++
      wires k DIR_LANDING_TO_LINE (reply_frames (next (la_seq_out s)) (concat (event_datagrams <$> evs))).
Proof.
  induction evs as [|e evs IH]; intros s fs Hev Hg Ho Hp Hw Hn0 Hn.
  - cbn in Hw. rewrite app_nil_r in Hw.
    assert (Hok : Forall wire_frame_ok fs) by (eapply Forall_impl; [done|]; intros f (Hf & _); by apply frame_ok_wire).
    destruct (partial_wires_nil k _ fs _ Hok Hp Hw) as [Hb ->]. exists s. cbn. rewrite !app_nil_r. done.
  - apply Forall_cons in Hev as [He Hev]. cbn [landing_loop fmap list_fmap concat] in *.
    destruct e as [[c|]|[[p a]|]|]; try done; cbn [landing_step event_bytes event_datagrams app] in *.
    + destruct He as [Hne Hlen].
      destruct (landing_read_good k send_ok Hsend s c fs (concat (event_bytes <$> evs)) Hg Ho Hp Hw Hne Hlen)
        as (fs1 & fs2 & r & -> & Hr & Hpr & Hread).
      rewrite (io_bind_ok _ _ _ _ _ Hread). set (s0 := set_buf r _).
      pose proof (landed_effect fs1 s0) as (E1 & E2 & E3 & E4 & E5 & E6).
      apply Forall_app in Hg as [Hg1 Hg2]. apply in_order_app in Ho as [Ho1 Ho2].
      destruct (IH (landed fs1 s0) fs2) as (s' & Hl & Hs1 & Hs2 & Hs3); try done.
      * by rewrite E2.
      * by rewrite E3.
      * by rewrite E3.
      * by rewrite E5.
      * by rewrite E5.
      * exists s'. rewrite Hl, Hs1, Hs3, E1, E4, E5, E6, deliver_app, <- app_assoc. done.
    + destruct He as [Hlp Ha]. rewrite len_cons in Hn. pose proof (len_nonneg (concat (event_datagrams <$> evs))).
      rewrite (io_bind_ok _ _ _ _ _ (landing_recv_good alloc k write_ok Hal Hwrite s p a Hlp Ha ltac:(unfold u32_range; lia))).
      set (s0 := record_written _ p _).
      destruct (IH s0 fs) as (s' & Hl & Hs1 & Hs2 & Hs3); try done; [cbn; lia..|].
      exists s'. rewrite Hl, Hs1, Hs3. split_and!; try done. cbn [s0 la_written record_written set_seq_out la_seq_out next].
      by rewrite <- app_assoc.
Qed.

Lemma landing_loop_app evs : forall more s s',
  landing_loop alloc k send_ok write_ok evs s = (Ok None, s') ->
  landing_loop alloc k send_ok write_ok (evs ++ more) s = landing_loop alloc k send_ok write_ok more s'.
Proof.
  induction evs as [|e evs IH]; intros more s s' H; cbn [landing_loop app] in *; [by injection H as ->|].
  destruct (landing_step alloc k send_ok write_ok e s) as [[[stats|]|err|] s1] eqn:E.
  - rewrite (io_bind_ok _ _ _ _ _ E) in H. done.
  - rewrite (io_bind_ok _ _ _ _ _ E) in H. rewrite (io_bind_ok _ _ _ _ _ E). by apply IH.
  - rewrite (io_bind_err _ _ _ _ _ E) in H. done.
  - unfold mbind, IO_bind in H. by rewrite E in H.
Qed.

(** A datagram too long for a frame fails closed: it is neither truncated nor
    skipped, and nothing after it is handled. *)
Lemma oversized_ends p a more s :
  NXR_UDP_MAX_PAYLOAD < len p ->
  landing_loop alloc k send_ok write_ok (EvRecv (Some (p, a)) :: more) s = (Err (AeProtocol NuPayload), s).
Proof.
  intros Hp. cbn [landing_loop landing_step landing_recv]. rewrite (proj2 (Z.ltb_lt _ _)) by done. done.
Qed.
End Duplex.

(** ** LINE's uplink *)

(** A packet LINE can forward: a New packet names a destination, a named
    destination was authorized to an IP address, and the payload fits a frame. *)
Definition packet_ok (x : XudpPacket * option Destination) : Prop :=
  let '(p, authorized) := x in
  match xp_status p with
  | StatusEnd | StatusKeepAlive => True
  | StatusNew | StatusKeep =>
    len (xp_payload p) <= NXR_UDP_MAX_PAYLOAD /\
    match xp_destination p with
    | Some _ => exists d, authorized = Some d /\ ip_destination d
    | None => xp_status p = StatusKeep
    end
  end.

Fixpoint line_run {C : CryptoOps} (alloc : Z -> bool) (session : list byte) (write_ok : Z -> bool)
    (packets : list (XudpPacket * option Destination * Z)) : IO LineState XudpSessionError unit :=
  match packets with
  | [] => mret tt
  | (p, authorized, now) :: packets =>
    _ ← handle_uplink_packet alloc session write_ok p authorized now;
    line_run alloc session write_ok packets
  end.

Lemma line_frames_good packets : forall last n,
  Forall packet_ok packets -> 0 <= n -> n + len packets <= U32_MAX + 1 ->
  Forall good_datagram (line_frames last n packets) /\ in_order n (line_frames last n packets).
Proof.
  induction packets as [|[p authorized] packets IH]; intros last n Hok H0 Hn; [done|].
  apply Forall_cons in Hok as [Hp Hok]. rewrite len_cons in Hn. pose proof (len_nonneg packets). cbn [line_frames].
  set (d := uplink_target last p authorized). destruct (IH d n Hok H0 ltac:(lia)) as [Hg0 Ho0].
  destruct (IH d (n + 1) Hok ltac:(lia) ltac:(lia)) as [Hg1 Ho1]. destruct (_ || _) eqn:Hc; [|done].
  split; [constructor; [|done]|done].
  assert (Hl : len (xp_payload p) <= NXR_UDP_MAX_PAYLOAD /\ (d = last \/ ip_destination d)).
  { unfold packet_ok, carries_data in *. subst d. unfold uplink_target in *.
    destruct (xp_status p), (xp_destination p), authorized; cbn in *; try (by rewrite bool_decide_true in Hc);
      destruct Hp as [Hl Hd]; split; auto; destruct Hd as (d' & [=] & Hd); subst; auto. }
  destruct Hl as [Hl Hd]. unfold good_datagram, frame_ok, datagram. cbn.
  assert (Hfield : match (if bool_decide (d = last) then None else Some d) with Some d => ip_destination d | None => True end).
  { case_bool_decide; [done|]. by destruct Hd. }
  split_and!; try done; [unfold u32_range; lia|]. destruct (if bool_decide _ then _ else _); [|done].
  by apply ip_destination_wf.
Qed.

(** LANDING's reading of the frames is the specification. *)
Lemma deliver_line packets : forall last n,
  deliver (addr_of last) (line_frames last n packets) = (fun '(p, d) => (p, addr_of d)) <$> uplink_spec last packets.
Proof.
  induction packets as [|[p authorized] packets IH]; intros last n; [done|]. cbn [line_frames uplink_spec].
  set (d := uplink_target last p authorized). rewrite fmap_app.
  assert (Hnd : carries_data p = false -> bool_decide (d = last) = true \/ xp_payload p = []).
  { unfold carries_data. subst d. unfold uplink_target. destruct (xp_status p); intros Hc.
    - right. by case_bool_decide.
    - right. by case_bool_decide.
    - left. by apply bool_decide_eq_true.
    - left. by apply bool_decide_eq_true. }
  destruct (carries_data p) eqn:Hc; cbn [orb].
  - cbn [deliver datagram frame_destination payload]. assert (Hne : xp_payload p <> []).
    { unfold carries_data in Hc. destruct (xp_status p); try done; by apply negb_true_iff, bool_decide_eq_false in Hc. }
    rewrite (bool_decide_false (xp_payload p = [])) by done. case_bool_decide as Hd; cbn; rewrite ?Hd; f_equal; apply IH.
  - case_bool_decide as Hd; cbn [negb].
    + rewrite Hd. apply IH.
    + destruct (Hnd eq_refl) as [Hb|Hpl]; [done|].
      cbn [deliver datagram frame_destination payload]. rewrite bool_decide_true by done. cbn. apply IH.
Qed.

Section LineRun.
Context {C : CryptoOps} {L : CryptoLaws C} (alloc : Z -> bool) (k : list byte) (write_ok : Z -> bool).
Context (Hal : forall n, alloc n = true) (Hwrite : forall n, write_ok n = true).

Lemma send_frame_good f s :
  frame_ok f -> seq f = next (li_seq_out s) ->
  send_frame alloc k write_ok (frame_type f) (frame_destination f) (payload f) s =
    (Ok tt, line_write (frame_wire k DIR_LINE_TO_LANDING f) (negb (bool_decide (payload f = [])))
              (line_set_out {| next := next (li_seq_out s) + 1 |} s)).
Proof.
  intros Hf Hs. unfold send_frame, io_reads. rewrite io_get_bind.
  assert (Hn : next_out (li_seq_out s) = (Ok (next (li_seq_out s)), {| next := next (li_seq_out s) + 1 |})).
  { unfold next_out. rewrite (proj2 (try_from_some _ _ (next (li_seq_out s)))); [done|]. rewrite <- Hs. split; [done|]. apply Hf. }
  rewrite Hn. erewrite io_bind_ok by reflexivity. erewrite io_bind_ok by reflexivity. rewrite <- Hs.
  rewrite (encode_frame_complete alloc k DIR_LINE_TO_LANDING f [] Hal (or_introl eq_refl) Hf).
  erewrite io_bind_ok by reflexivity. erewrite io_bind_ok; [|by rewrite Hwrite]. done.
Qed.

Lemma set_last_id s : set_last (li_last s) s = s.
Proof. by destruct s. Qed.

Lemma uplink_destination_good s p authorized :
  packet_ok (p, authorized) -> xp_status p = StatusNew \/ xp_status p = StatusKeep ->
  let d := uplink_target (li_last s) p authorized in
  uplink_destination p authorized s = (Ok (if bool_decide (d = li_last s) then None else Some d), set_last d s).
Proof.
  intros Hp Hst. unfold packet_ok, uplink_destination, uplink_target in *.
  destruct (xp_destination p) as [d|] eqn:Ed.
  - assert (exists d, authorized = Some d) as [d' ->] by (destruct Hst as [Hst|Hst]; rewrite Hst in Hp; naive_solver).
    unfold io_reads. rewrite io_get_bind. destruct Hst as [-> | ->]; cbn;
      (case_bool_decide as Hd; cbn; [|done]; by rewrite Hd, set_last_id).
  - destruct Hst as [Hst|Hst]; rewrite Hst in *; [by destruct Hp|].
    rewrite bool_decide_false by done. rewrite (bool_decide_true (li_last s = li_last s)), set_last_id by done. done.
Qed.

(** The receive half of the association is untouched. *)
Definition same_rx (s s' : LineState) : Prop :=
  li_seq_in s' = li_seq_in s /\ li_buf s' = li_buf s /\ li_pending s' = li_pending s.

Lemma handle_uplink_good s p authorized now :
  packet_ok (p, authorized) -> 0 <= next (li_seq_out s) <= U32_MAX ->
  exists s', handle_uplink_packet alloc k write_ok p authorized now s = (Ok tt, s') /\
    li_last s' = uplink_target (li_last s) p authorized /\ same_rx s s' /\
    next (li_seq_out s') = next (li_seq_out s) + len (line_frames (li_last s) (next (li_seq_out s)) [(p, authorized)]) /\
    li_written s' = li_written s ++
      wires k DIR_LINE_TO_LANDING (line_frames (li_last s) (next (li_seq_out s)) [(p, authorized)]).
Proof.
  intros Hp Hn.
  destruct (line_frames_good [(p, authorized)] (li_last s) (next (li_seq_out s)) ltac:(by constructor) ltac:(lia)
    ltac:(rewrite len_cons, len_nil; lia)) as [Hg _].
  unfold handle_uplink_packet. cbn [line_frames] in *.
  destruct (decide (xp_status p = StatusNew \/ xp_status p = StatusKeep)) as [Hst|Hst].
  - assert (Hcd : carries_data p = negb (bool_decide (xp_payload p = []))) by (unfold carries_data; by destruct Hst as [-> | ->]).
    pose proof (uplink_destination_good s p authorized Hp Hst) as Hud. cbv zeta in Hud.
    set (d := uplink_target (li_last s) p authorized) in *. set (field := if bool_decide (d = li_last s) then None else Some d) in *.
    assert (Hfield : bool_decide (is_Some field) = negb (bool_decide (d = li_last s))).
    { subst field. by case_bool_decide. }
    match goal with |- exists s', ?m s = _ /\ _ => assert (Hm : m s = (x ← uplink_destination p authorized;
      _ ← (if negb (bool_decide (xp_payload p = [])) || bool_decide (is_Some x)
           then send_frame alloc k write_ok FRAME_TYPE_DATAGRAM x (xp_payload p) else mret tt);
      io_modify (touch now)) s) by (by destruct Hst as [-> | ->]) end.
    rewrite Hm, (io_bind_ok _ _ _ _ _ Hud), Hfield, <- Hcd. destruct (carries_data p || negb (bool_decide (d = li_last s))).
    + apply Forall_cons in Hg as [(Hf & _) _].
      pose proof (send_frame_good _ (set_last d s) Hf eq_refl) as Hsf. cbn [datagram frame_type frame_destination payload] in Hsf.
      rewrite (io_bind_ok _ _ _ _ _ Hsf). eexists. split; [done|]. cbn. rewrite app_nil_r. done.
    + erewrite io_bind_ok by done. eexists. split; [done|]. cbn. rewrite app_nil_r, Z.add_0_r. done.
  - exists (touch now s). unfold carries_data, uplink_target.
    destruct (xp_status p); [naive_solver..| |]; cbn; rewrite bool_decide_true, app_nil_r, Z.add_0_r by done; done.
Qed.

Lemma line_frames_cons last n x xs :
  line_frames last n (x :: xs) = line_frames last n [x] ++
    line_frames (uplink_target last x.1 x.2) (n + len (line_frames last n [x])) xs.
Proof.
  destruct x as [p authorized]. cbn [line_frames fst snd]. destruct (_ || _); cbn [app]; [|by rewrite Z.add_0_r].
  done.
Qed.

Lemma wires_app dir fs gs : wires k dir (fs ++ gs) = wires k dir fs ++ wires k dir gs.
Proof. unfold wires. by rewrite fmap_app, concat_app. Qed.

Lemma line_frames_short last n x : len (line_frames last n [x]) <= 1.
Proof. destruct x as [p a]. cbn [line_frames]. destruct (_ || _); rewrite ?len_cons, ?len_nil; lia. Qed.

Lemma line_run_good packets : forall s,
  Forall packet_ok packets.*1 -> 0 <= next (li_seq_out s) -> next (li_seq_out s) + len packets <= U32_MAX + 1 ->
  exists s', line_run alloc k write_ok packets s = (Ok tt, s') /\ same_rx s s' /\
    li_written s' = li_written s ++ wires k DIR_LINE_TO_LANDING (line_frames (li_last s) (next (li_seq_out s)) packets.*1).
Proof.
  induction packets as [|[[p authorized] now] packets IH]; intros s Hok H0 Hn.
  - exists s. cbn. rewrite app_nil_r. done.
  - cbn [fmap list_fmap fst] in *. apply Forall_cons in Hok as [Hp Hok]. rewrite len_cons in Hn. pose proof (len_nonneg packets).
    destruct (handle_uplink_good s p authorized now Hp ltac:(lia)) as (s1 & Hrun & Hlast & (R1 & R2 & R3) & Hseq & Hw).
    pose proof (line_frames_short (li_last s) (next (li_seq_out s)) (p, authorized)).
    pose proof (len_nonneg (line_frames (li_last s) (next (li_seq_out s)) [(p, authorized)])).
    destruct (IH s1 Hok ltac:(lia) ltac:(lia)) as (s2 & Hrun2 & (Q1 & Q2 & Q3) & Hw2). exists s2.
    cbn [line_run]. rewrite (io_bind_ok _ _ _ _ _ Hrun), Hrun2. split; [done|]. split; [split_and!; congruence|].
    rewrite (line_frames_cons _ _ _ packets.*1), wires_app, Hw2, Hw, Hlast, Hseq, <- app_assoc. done.
Qed.
End LineRun.

(** ** LINE's downlink *)

Definition xudp_reply (d : list byte * SocketAddr) : XudpPacket :=
  packet_of (destination_from d.2) d.1 false None true.

Fixpoint recv_all {C : CryptoOps} (session : list byte) (n : nat) (reads : list (list byte)) (now : Z)
    : IO LineState XudpSessionError (list (list byte) * list (list byte)) :=
  match n with
  | O => mret ([], reads)
  | S n =>
    '(o, reads) ← recv_downlink_frame session reads now;
    match o with
    | None => mret ([], reads)
    | Some output => '(outputs, reads) ← recv_all session n reads now; mret (output :: outputs, reads)
    end
  end.

Definition reply_ok (d : list byte * SocketAddr) : Prop :=
  len d.1 <= NXR_UDP_MAX_PAYLOAD /\ ip_destination (destination_from d.2).

Lemma reply_frames_split n ds fs gs :
  reply_frames n ds = fs ++ gs ->
  exists ds1 ds2, ds = ds1 ++ ds2 /\ fs = reply_frames n ds1 /\ gs = reply_frames (n + len ds1) ds2.
Proof.
  revert n fs. induction ds as [|[p a] ds IH]; intros n fs H; cbn [reply_frames] in H.
  - symmetry in H. apply app_eq_nil in H as [-> ->]. by exists [], [].
  - destruct fs as [|f fs].
    + exists [], ((p, a) :: ds). rewrite len_nil, Z.add_0_r. done.
    + injection H as <- H. destruct (IH (n + 1) fs H) as (d1 & d2 & -> & -> & ->). exists ((p, a) :: d1), d2.
      rewrite len_cons. split_and!; try done. f_equal. lia.
Qed.

Lemma reply_frames_ok n ds :
  Forall reply_ok ds -> 0 <= n -> n + len ds <= U32_MAX + 1 -> Forall wire_frame_ok (reply_frames n ds).
Proof.
  intros Hok. revert n. induction Hok as [|[p a] ds [Hp Ha] _ IH]; intros n H0 Hn; cbn [reply_frames]; [constructor|].
  rewrite len_cons in Hn. pose proof (len_nonneg ds). constructor; [|apply IH; lia].
  apply frame_ok_wire. split_and!; try done; [unfold u32_range; cbn; lia|]. by apply ip_destination_wf.
Qed.

Lemma event_replies_ok evs : Forall event_ok evs -> Forall reply_ok (concat (event_datagrams <$> evs)).
Proof.
  induction 1 as [|e evs He _ IH]; cbn; [constructor|]. apply Forall_app. split; [|done].
  destruct e as [|[[p a]|]|]; cbn in *; try constructor; [done|constructor].
Qed.

Section Downlink.
Context {C : CryptoOps} {L : CryptoLaws C} (k : list byte).

(** Frames in hand, then the frames still in the buffer and the stream. *)
Definition line_rx (s : LineState) (ds : list (list byte * SocketAddr)) (reads : list (list byte)) : Prop :=
  exists ps rest, li_pending s = reply_frames (next (li_seq_in s)) ps /\ ds = ps ++ rest /\
    li_buf s ++ concat reads = wires k DIR_LANDING_TO_LINE (reply_frames (next (li_seq_in s) + len ps) rest).

Lemma finish_good f p a s now :
  seq f = next (li_seq_in s) -> f = datagram (seq f) (Some (destination_from a)) p ->
  len p <= NXR_UDP_MAX_PAYLOAD -> ip_destination (destination_from a) ->
  finish_downlink_frame f now s =
    (Ok (enc_frame (xudp_reply (p, a))), line_count_down now (line_set_in {| next := next (li_seq_in s) + 1 |} s)).
Proof.
  intros Hs Hf Hp Ha. unfold finish_downlink_frame, io_reads. rewrite io_get_bind. unfold accept_in.
  rewrite Hs, Z.eqb_refl. cbn [negb]. erewrite io_bind_ok by reflexivity. erewrite io_bind_ok by reflexivity.
  rewrite Hf. cbn [datagram frame_type frame_destination payload].
  rewrite bool_decide_false by done. rewrite bool_decide_true by done. cbn [negb].
  assert (Hx : xdest_wf (destination_from a)).
  { destruct Ha as [Ht Hpo]. split; [unfold u16_range, U16_MAX in *; lia|]. by destruct (address (destination_from a)). }
  pose proof (xudp_encode_decode (destination_from a) p false None true [] [] Hx ltac:(done)) as He. cbv zeta in He.
  rewrite (proj2 (Z.leb_le _ _)) in He by done. destruct He as [He _]. rewrite He. done.
Qed.

(** One turn: the next reply, or nothing and a buffer with no whole frame. *)
Lemma try_downlink_good s ds reads now :
  line_rx s ds reads -> Forall reply_ok ds -> 0 <= next (li_seq_in s) -> next (li_seq_in s) + len ds <= U32_MAX + 1 ->
  (exists d ds' s', ds = d :: ds' /\ try_downlink k now s = (Ok (Some (enc_frame (xudp_reply d))), s') /\
     line_rx s' ds' reads /\ next (li_seq_in s') = next (li_seq_in s) + 1) \/
  (exists s', try_downlink k now s = (Ok None, s') /\ line_rx s' ds reads /\ partial (li_buf s') /\ li_pending s' = [] /\
     next (li_seq_in s') = next (li_seq_in s)).
Proof.
  intros (ps & rest & Hp & -> & Hw) Hok H0 Hn. apply Forall_app in Hok as [Hok1 Hok2]. rewrite len_app in Hn.
  unfold try_downlink, io_reads. rewrite io_get_bind. rewrite Hp. destruct ps as [|[p a] ps]; cbn [reply_frames].
  2:{ left. apply Forall_cons in Hok1 as [[Hlp Ha] Hok1]. cbn [fst snd] in *.
      erewrite io_bind_ok by reflexivity. set (s1 := line_set_rx _ _ s).
      erewrite io_bind_ok; [|apply (finish_good (datagram (next (li_seq_in s)) (Some (destination_from a)) p) p a s1 now); done].
      eexists (p, a), (ps ++ rest), _. split_and!; [done|reflexivity| |done]. exists ps, rest.
      cbn. split_and!; try done. rewrite len_cons in Hw. by replace (next (li_seq_in s) + 1 + len ps)
        with (next (li_seq_in s) + (1 + len ps)) by lia. }
  cbn [app] in *. rewrite len_nil, Z.add_0_r in *. pose proof (len_nonneg rest).
  destruct (Z.leb_spec 4 (len (li_buf s))) as [H4|H4].
  2:{ right. exists s. split_and!; [done| |left; frame_consts; lia|done|done]. exists [], rest.
      rewrite len_nil, Z.add_0_r. done. }
  destruct (drain_prefix k DIR_LANDING_TO_LINE _ _ _ (reply_frames_ok _ rest Hok2 H0 ltac:(lia)) Hw)
    as (fs1 & fs2 & r & Hfs & Hd & Hr & Hpr).
  apply reply_frames_split in Hfs as (d1 & d2 & -> & -> & ->). rewrite Hd.
  erewrite io_bind_ok by reflexivity. erewrite io_bind_ok by reflexivity. destruct d1 as [|[p a] d1]; cbn [reply_frames].
  - right. eexists. split_and!; [reflexivity| |done|done|done]. exists [], d2. done.
  - left. apply Forall_cons in Hok2 as [[Hlp Ha] Hok2]. cbn [fst snd] in *.
    erewrite io_bind_ok by reflexivity. set (s1 := line_set_rx _ _ _).
    erewrite io_bind_ok; [|apply (finish_good (datagram (next (li_seq_in s)) (Some (destination_from a)) p) p a s1 now); done].
    eexists (p, a), (d1 ++ d2), _. split_and!; [done|reflexivity| |done]. exists d1, d2.
    cbn. split_and!; try done. rewrite len_cons in Hr. by replace (next (li_seq_in s) + 1 + len d1)
      with (next (li_seq_in s) + (1 + len d1)) by lia.
Qed.

Lemma recv_downlink_good reads : forall s d ds now,
  line_rx s (d :: ds) reads -> Forall reply_ok (d :: ds) -> Forall (fun c => c <> [] /\ len c <= 65536) reads ->
  0 <= next (li_seq_in s) -> next (li_seq_in s) + len (d :: ds) <= U32_MAX + 1 ->
  exists s' reads', recv_downlink_frame k reads now s = (Ok (Some (enc_frame (xudp_reply d)), reads'), s') /\
    line_rx s' ds reads' /\ Forall (fun c => c <> [] /\ len c <= 65536) reads' /\ next (li_seq_in s') = next (li_seq_in s) + 1.
Proof.
  induction reads as [|c reads IH]; intros s d ds now Hrx Hok Hch H0 Hn; cbn [recv_downlink_frame];
    destruct (try_downlink_good s (d :: ds) _ now Hrx Hok H0 Hn)
      as [(d' & ds' & s' & [= <- <-] & Ht & Hrx' & Hs)|(s' & Ht & Hrx' & Hp & Hpe & Hs)];
    rewrite (io_bind_ok _ _ _ _ _ Ht).
  - by exists s', [].
  - exfalso. destruct Hrx' as (ps & rest & E1 & E2 & Hw). rewrite Hpe in E1. destruct ps as [|[p a] ps]; [|done].
    cbn in E2. subst rest. rewrite len_nil, Z.add_0_r, app_nil_r in Hw.
    assert (Hw' : Forall wire_frame_ok (reply_frames (next (li_seq_in s')) (d :: ds)))
      by (rewrite Hs; by apply reply_frames_ok).
    destruct (partial_wires_nil k _ _ _ Hw' Hp Hw) as [_ Hnil]. by destruct d.
  - by exists s', (c :: reads).
  - apply Forall_cons in Hch as [[Hne Hlen] Hch]. destruct c as [|c0 c]; [done|].
    erewrite io_bind_ok by reflexivity. unfold io_reads. rewrite io_get_bind. cbn [li_buf line_set_rx].
    pose proof (partial_short _ Hp). rewrite (proj2 (Z.ltb_ge _ _)) by (unfold NXR_LINE_FRAME_BUFFER; frame_consts; slen).
    destruct (IH (line_set_rx (li_buf s' ++ c0 :: c) (li_pending s') s') d ds now) as (s2 & r2 & Hr & Hrx2 & Hch2 & Hs2).
    + destruct Hrx' as (ps & rest & E1 & E2 & Hw). exists ps, rest. cbn [li_pending li_buf li_seq_in line_set_rx].
      split_and!; try done. rewrite <- app_assoc. exact Hw.
    + done.
    + done.
    + cbn. lia.
    + cbn. rewrite Hs. exact Hn.
    + exists s2, r2. rewrite Hr. split_and!; try done. rewrite Hs2. cbn. lia.
Qed.

Lemma recv_all_good ds : forall s reads now,
  line_rx s ds reads -> Forall reply_ok ds -> Forall (fun c => c <> [] /\ len c <= 65536) reads ->
  0 <= next (li_seq_in s) -> next (li_seq_in s) + len ds <= U32_MAX + 1 ->
  exists reads', (recv_all k (length ds) reads now s).1 = Ok ((fun d => enc_frame (xudp_reply d)) <$> ds, reads').
Proof.
  induction ds as [|d ds IH]; intros s reads now Hrx Hok Hch H0 Hn; [by exists reads|]. cbn [length recv_all].
  destruct (recv_downlink_good reads s d ds now Hrx Hok Hch H0 Hn) as (s' & reads' & Hr & Hrx' & Hch' & Hs).
  rewrite (io_bind_ok _ _ _ _ _ Hr). rewrite len_cons in Hn. apply Forall_cons in Hok as [_ Hok].
  destruct (IH s' reads' now Hrx' Hok Hch' ltac:(lia) ltac:(lia)) as (r2 & Hr2).
  destruct (recv_all k (length ds) reads' now s') as [x s2] eqn:E. cbn in Hr2. subst x.
  erewrite io_bind_ok by exact E. by exists r2.
Qed.
End Downlink.


(** Two packets to two destinations, cut inside a frame, with one reply. *)
Definition assoc_d0 : Destination := {| address := Ipv4 [x08; x08; x08; x08]; port := 53 |}.
Definition assoc_d1 : Destination := {| address := Ipv4 [x01; x01; x01; x01]; port := 5353 |}.
Definition assoc_packets : list (XudpPacket * option Destination * Z) :=
  [(packet_of assoc_d0 [x61] true None false, Some assoc_d0, 1); (packet_of assoc_d1 [x62; x63] false None true, Some assoc_d1, 2)].
Definition assoc_written : list byte :=
  li_written (line_run (C := toy_ops) (fun _ => true) (replicate 32 x09) (fun _ => true) assoc_packets (line_start assoc_d0 0)).2.
Definition assoc_events : list LandingEvent :=
  [EvRead (Some (take 50 assoc_written)); EvRecv (Some ([x64], addr_of assoc_d1)); EvRead (Some (drop 50 assoc_written))].


(** ** Against arbitrary carrier bytes *)

Definition after (c : SocketAddr) (fs : list NxrUdpFrame) : SocketAddr :=
  foldl (fun c f => match frame_destination f with Some d => addr_of d | None => c end) c fs.

Section Hostile.
Context {C : CryptoOps} {L : CryptoLaws C} (alloc : Z -> bool) (k : list byte) (send_ok : nat -> bool) (write_ok : Z -> bool).

(** What a call changed, in terms of the frames it handled. *)
Definition handled (s s' : LandingState) (fs : list NxrUdpFrame) : Prop :=
  in_order (next (la_seq_in s)) fs /\ la_sent s' = la_sent s ++ deliver (la_current s) fs.

Lemma accept_cases sq s r s' :
  landing_accept sq s = (r, s') ->
  (r = Ok tt /\ sq = next (la_seq_in s) /\ s' = set_seq_in {| next := next (la_seq_in s) + 1 |} s) \/
  (r = Err (AeProtocol NuSequence) /\ s' = set_seq_in (la_seq_in s) s).
Proof.
  unfold landing_accept, io_reads. rewrite io_get_bind. unfold accept_in.
  destruct (Z.eqb_spec sq (next (la_seq_in s))); cbn; intros [= <- <-]; auto.
Qed.

(** What [landing_frames] leaves behind, whether it finished or stopped. *)
Definition frames_outcome (s s' : LandingState) (fs : list NxrUdpFrame) (x : result LandingUdpError bool) : Prop :=
  exists fs1 fs2, fs = fs1 ++ fs2 /\ handled s s' fs1 /\ la_buf s' = la_buf s /\ x <> Panic /\
    (x = Ok false -> fs2 = [] /\ next (la_seq_in s') = next (la_seq_in s) + len fs /\ la_current s' = after (la_current s) fs).

Lemma outcome_stop s s' fs x :
  la_sent s' = la_sent s -> la_buf s' = la_buf s -> x <> Ok false -> x <> Panic -> frames_outcome s s' fs x.
Proof. intros E1 E2 Hx Hnp. exists [], fs. unfold handled. cbn. by rewrite E1, app_nil_r. Qed.

Lemma outcome_next s s3 s' f fs x :
  seq f = next (la_seq_in s) -> next (la_seq_in s3) = next (la_seq_in s) + 1 -> la_buf s3 = la_buf s ->
  la_current s3 = match frame_destination f with Some d => addr_of d | None => la_current s end ->
  la_sent s3 = la_sent s ++ (if bool_decide (payload f = []) then [] else [(payload f, la_current s3)]) ->
  frames_outcome s3 s' fs x -> frames_outcome s s' (f :: fs) x.
Proof.
  intros Hseq Hn Hb Hc Hs (fs1 & fs2 & -> & (Ho & Hsent) & Hbuf & Hnp & Hx). exists (f :: fs1), fs2. unfold handled.
  split_and!; try done.
  - by rewrite Hn in Ho.
  - cbn [deliver]. rewrite Hsent, Hs, <- Hc, <- app_assoc. done.
  - congruence.
  - intros (-> & H1 & H2)%Hx. split_and!; [done|rewrite len_cons; lia|]. cbn. by rewrite H2, Hc.
Qed.

Lemma landing_frames_any fs : forall s x s', landing_frames send_ok fs s = (x, s') -> frames_outcome s s' fs x.
Proof.
  induction fs as [|f fs IH]; intros s x s' H; cbn [landing_frames] in H.
  { injection H as <- <-. exists [], []. unfold handled. cbn. rewrite app_nil_r, Z.add_0_r. done. }
  destruct (landing_accept (seq f) s) as [r s1] eqn:Ha. pose proof Ha as Hc.
  apply accept_cases in Hc as [(-> & Hseq & ->)|(-> & ->)].
  2:{ rewrite (io_bind_err _ _ _ _ _ Ha) in H. injection H as <- <-. by apply outcome_stop. }
  rewrite (io_bind_ok _ _ _ _ _ Ha) in H.
  case_bool_decide; [injection H as <- <-; by apply outcome_stop|].
  case_bool_decide; cbn [negb] in H; [|injection H as <- <-; by apply outcome_stop].
  set (s1 := set_seq_in _ s) in *.
  set (m := match frame_destination f with Some dest => _ | None => _ end) in H.
  assert (Hm : (exists e, m s1 = (Err e, s1)) \/
    m s1 = (Ok tt, match frame_destination f with Some d => set_current (addr_of d) s1 | None => s1 end)).
  { subst m. destruct (frame_destination f) as [d|]; [|by right]. unfold socket_addr_for_udp, addr_of, socket_addr_for_udp.
    destruct (address d); [by right|left; by eexists|by right]. }
  destruct Hm as [(e & Hm)|Hm].
  { rewrite (io_bind_err _ _ _ _ _ Hm) in H. injection H as <- <-. by apply outcome_stop. }
  rewrite (io_bind_ok _ _ _ _ _ Hm) in H. set (s2 := match frame_destination f with Some d => _ | None => s1 end) in *.
  assert (E : next (la_seq_in s2) = next (la_seq_in s) + 1 /\ la_buf s2 = la_buf s /\ la_sent s2 = la_sent s /\
    la_current s2 = match frame_destination f with Some d => addr_of d | None => la_current s end)
    by (subst s2; by destruct (frame_destination f)).
  destruct E as (E1 & E2 & E3 & E4).
  destruct (_ <? _); [injection H as <- <-; by apply outcome_stop|].
  case_bool_decide as Hp.
  - erewrite io_bind_ok in H by reflexivity. apply (outcome_next s s2); try done; [|by apply IH].
    rewrite bool_decide_true, app_nil_r by done. done.
  - destruct (send_ok (length (la_sent s2))) eqn:Hs.
    + erewrite io_bind_ok in H; [|unfold io_reads; rewrite io_get_bind, Hs; reflexivity].
      apply (outcome_next s (record_sent (payload f) s2)); try done; [|by apply IH].
      rewrite bool_decide_false by done. cbn. by rewrite E3.
    + erewrite io_bind_err in H; [|unfold io_reads; rewrite io_get_bind, Hs; reflexivity].
      injection H as <- <-. by apply outcome_stop.
Qed.
(** The datagram branch leaves the uplink side alone. *)
Lemma landing_recv_frame d s x s' :
  landing_recv alloc k write_ok d s = (x, s') ->
  la_buf s' = la_buf s /\ la_seq_in s' = la_seq_in s /\ la_current s' = la_current s /\ la_sent s' = la_sent s /\ x <> Panic.
Proof.
  destruct d as [[p a]|]; cbn [landing_recv]; [|by intros [= <- <-]]. destruct (_ <? _); [by intros [= <- <-]|].
  unfold io_reads. rewrite io_get_bind. unfold next_out. destruct (try_from U32_MAX _) as [sq|]; [|by intros [= <- <-]].
  erewrite io_bind_ok by reflexivity. erewrite io_bind_ok by reflexivity.
  pose proof (encode_frame_no_panic alloc k DIR_LANDING_TO_LINE FRAME_TYPE_DATAGRAM sq (Some (destination_from a)) p []) as Hnp.
  destruct (encode_frame _ _ _ _ _ _ _ _) as [[[]|e|] out]; [| |done].
  - erewrite io_bind_ok by reflexivity. destruct (write_ok _); [|by intros [= <- <-]].
    erewrite io_bind_ok by reflexivity. erewrite io_bind_ok by reflexivity. by intros [= <- <-].
  - erewrite io_bind_err by reflexivity. by intros [= <- <-].
Qed.

Definition loop_outcome {A} (s s' : LandingState) (bytes : list byte) (x : result LandingUdpError A) : Prop :=
  x <> Panic /\ exists fs tail, handled s s' fs /\ Forall wire_frame_ok fs /\
    la_buf s ++ bytes = wires k DIR_LINE_TO_LANDING fs ++ tail.

Lemma loop_stop {A} s s' bytes (x : result LandingUdpError A) : la_sent s' = la_sent s -> x <> Panic -> loop_outcome s s' bytes x.
Proof. intros E Hx. split; [done|]. exists [], (la_buf s ++ bytes). unfold handled. cbn. by rewrite E, app_nil_r. Qed.

(** One read: it stops there, or leaves a remainder and goes on. *)
Lemma landing_read_any c s x s' rest :
  landing_read k send_ok c s = (x, s') -> c <> Some [] ->
  (x <> Ok None /\ loop_outcome s s' (event_bytes (EvRead c) ++ rest) x) \/
  (x = Ok None /\ exists fs, handled s s' fs /\ Forall wire_frame_ok fs /\
     la_buf s ++ event_bytes (EvRead c) = wires k DIR_LINE_TO_LANDING fs ++ la_buf s' /\
     next (la_seq_in s') = next (la_seq_in s) + len fs /\ la_current s' = after (la_current s) fs).
Proof.
  intros H Hne. destruct c as [[|c0 c]|]; [done| |].
  2:{ injection H as <- <-. left. split; [done|]. by apply loop_stop. }
  cbn [landing_read event_bytes] in *. erewrite io_bind_ok in H by reflexivity. unfold io_reads in H. rewrite io_get_bind in H.
  cbn [la_buf set_buf] in H. destruct (_ <? _); [injection H as <- <-; left; split; [done|by apply loop_stop]|].
  pose proof (drain_no_panic k DIR_LINE_TO_LANDING (la_buf s ++ c0 :: c)) as Hnp.
  destruct (drain_frames (la_buf s ++ c0 :: c) k DIR_LINE_TO_LANDING) as [[gs|e|] b] eqn:Hd; [| |done].
  2:{ erewrite io_bind_ok in H by reflexivity. erewrite io_bind_err in H by reflexivity. injection H as <- <-.
      left. split; [done|by apply loop_stop]. }
  apply drain_inv in Hd as (Hok & Hb & _). erewrite io_bind_ok in H by reflexivity. erewrite io_bind_ok in H by reflexivity.
  unfold mbind, IO_bind in H. destruct (landing_frames send_ok gs (set_buf b (set_buf (la_buf s ++ c0 :: c) s))) as [y s3] eqn:Hf.
  apply landing_frames_any in Hf as (fs1 & fs2 & -> & (Ho & Hsent) & Hbuf & Hy & Hcont). cbn in Ho, Hsent, Hbuf.
  assert (Hout : x <> Panic -> la_sent s' = la_sent s3 -> loop_outcome s s' ((c0 :: c) ++ rest) x).
  { intros Hx Es. split; [done|]. exists fs1, (wires k DIR_LINE_TO_LANDING fs2 ++ b ++ rest).
    apply Forall_app in Hok as [Hok1 _]. split; [split; [exact Ho|by rewrite Es, Hsent]|]. split; [done|].
    rewrite app_assoc, Hb, wires_app, <- !app_assoc. done. }
  destruct y as [[|]|e|]; [| | |done]; injection H as <- <-.
  - left. split; [done|]. by apply Hout.
  - right. split; [done|]. destruct (Hcont eq_refl) as (-> & E1 & E2). rewrite app_nil_r in *. exists fs1.
    split_and!; try done. rewrite Hbuf. done.
  - left. split; [done|]. by apply Hout.
Qed.

Lemma landing_any evs : forall s x s',
  landing_loop alloc k send_ok write_ok evs s = (x, s') -> loop_outcome s s' (concat (event_bytes <$> evs)) x.
Proof.
  induction evs as [|e evs IH]; intros s x s' H; cbn [landing_loop] in H; [injection H as <- <-; by apply loop_stop|].
  cbn [fmap list_fmap concat]. destruct e as [c|d|].
  - destruct (decide (c = Some [])) as [->|Hne].
    { injection H as <- <-. by apply loop_stop. }
    cbn [landing_step] in H. destruct (landing_read k send_ok c s) as [y s1] eqn:Hr. unfold mbind, IO_bind in H. rewrite Hr in H.
    destruct (landing_read_any c s y s1 (concat (event_bytes <$> evs)) Hr Hne)
      as [[Hy (Hnp & Hout)]|(-> & fs & (Ho & Hsent) & Hok & Hb & Hn & Hc)].
    + destruct y as [[st|]|e|]; [|done| |done]; injection H as <- <-; by split.
    + destruct (IH s1 x s' H) as (Hx & fs' & tail & (Ho' & Hsent') & Hok' & Hb'). split; [done|].
      exists (fs ++ fs'), tail. unfold handled. rewrite Hn in Ho'. split_and!.
      * by apply in_order_app.
      * rewrite Hsent', Hsent, Hc, deliver_app, <- app_assoc. done.
      * by apply Forall_app.
      * rewrite app_assoc, Hb, wires_app, <- !app_assoc, <- Hb'. done.
  - cbn [landing_step event_bytes app] in *. destruct (landing_recv alloc k write_ok d s) as [y s1] eqn:Hr.
    unfold mbind, IO_bind in H. rewrite Hr in H. apply landing_recv_frame in Hr as (E1 & E2 & E3 & E4 & Hnp).
    destruct y as [[st|]|e|]; [|..|done]; [injection H as <- <-; by apply loop_stop| |injection H as <- <-; by apply loop_stop].
    destruct (IH s1 x s' H) as (Hx & fs' & tail & (Ho' & Hsent') & Hok' & Hb'). split; [done|].
    exists fs', tail. unfold handled. rewrite <- E1, <- E2, <- E3, <- E4. done.
  - injection H as <- <-. by apply loop_stop.
Qed.
End Hostile.

(** C26: LANDING sends only what the session authenticated, once and in order.
    Whatever bytes arrive on the carrier, in whatever chunks, interleaved with
    datagrams, timeouts and failing operations, the loop does not panic, and
    the datagrams it has sent are those of a list of frames whose MACs verify
    under the session key for the LINE to LANDING direction, which are numbered
    0, 1, 2, ... without gap or repetition, and whose encodings are a prefix of
    the bytes received; each datagram goes to the last authenticated
    destination. *)
Theorem nxr_landing_authentic {C : CryptoOps} {L : CryptoLaws C} (alloc : Z -> bool) (session : list byte)
    (send_ok : nat -> bool) (write_ok : Z -> bool) (evs : list LandingEvent) (start : SocketAddr) :
  let '(outcome, s) := landing_loop alloc session send_ok write_ok evs (landing_start start) in
  no_panic outcome /\
  exists frames tail, in_order 0 frames /\ Forall wire_frame_ok frames /\
    concat (event_bytes <$> evs) = wires session DIR_LINE_TO_LANDING frames ++ tail /\
    la_sent s = deliver start frames.
Proof.
  destruct (landing_loop alloc session send_ok write_ok evs (landing_start start)) as [x s] eqn:E.
  apply landing_any in E as (Hx & fs & tail & (Ho & Hs) & Hok & Hb). split; [done|]. by exists fs, tail.
Qed.

(** A replayed second frame is not sent again, and the loop stops. *)
Lemma nxr_landing_authentic_witness :
  exists s frames tail, landing_loop (C := toy_ops) (fun _ => true) (replicate 32 x09) (fun _ => true) (fun _ => true)
      [EvRead (Some assoc_written); EvRead (Some (drop 45 assoc_written))] (landing_start (addr_of assoc_d0)) = (Err (AeProtocol NuSequence), s) /\
    assoc_written ++ drop 45 assoc_written = wires (C := toy_ops) (replicate 32 x09) DIR_LINE_TO_LANDING frames ++ tail /\
    la_sent s = deliver (addr_of assoc_d0) frames /\ length (la_sent s) = 2%nat.
Proof.
  pose proof (nxr_landing_authentic (C := toy_ops) (L := toy_laws) (fun _ => true) (replicate 32 x09) (fun _ => true) (fun _ => true)
    [EvRead (Some assoc_written); EvRead (Some (drop 45 assoc_written))] (addr_of assoc_d0)) as H.
  destruct (landing_loop _ _ _ _ _ _) as [x s] eqn:E. destruct H as (_ & frames & tail & _ & _ & Hb & Hs).
  assert (Hx : x = Err (AeProtocol NuSequence)) by (apply (f_equal fst) in E; vm_compute in E; by symmetry).
  exists s, frames, tail. rewrite Hx. split_and!; [reflexivity|rewrite <- Hb; cbn; by rewrite app_nil_r|done|].
  apply (f_equal (fun p => length (la_sent p.2))) in E. vm_compute in E. by symmetry.
Defined.
