(* ===== verification/ClientHello.v ===== *)
(** * TLS 1.3 ClientHello parsing ([src/protocol/reality/client_hello.rs])

    The strict, bounded parser of the REALITY server: the positional reader
    and its sub-readers, the extension parsers, the accessors that read the
    stored ranges, and the exact characterisation of the accepted messages by
    a reference encoder. *)

From S2P Require Import Prelude Cursor.
#[local] Open Scope Z_scope.

Definition MAX_CLIENT_HELLO_BYTES : Z := 64 * 1024.
Definition SESSION_ID_OFFSET : Z := 39.
Definition SESSION_ID_LEN : Z := 32.
Definition X25519_GROUP : Z := 29.
Definition P256_GROUP : Z := 23.
Definition X25519_MLKEM768_GROUP : Z := 4588.
Definition MLKEM768_ENCAP_KEY_LEN : Z := 1184.
Definition X25519_MLKEM768_SHARE_LEN : Z := MLKEM768_ENCAP_KEY_LEN + 32.
Definition TLS_RECORD_HEADER_LEN : Z := 5.
Definition TLS_CONTENT_TYPE_HANDSHAKE : byte := x16.
Definition HANDSHAKE_TYPE_CLIENT_HELLO : byte := x01.
Definition TLS13_VERSION : Z := 772.
Definition EXT_SERVER_NAME : Z := 0.
Definition EXT_ALPN : Z := 16.
Definition EXT_PRE_SHARED_KEY : Z := 41.
Definition EXT_SUPPORTED_VERSIONS : Z := 43.
Definition EXT_KEY_SHARE : Z := 51.
Definition MAX_EXTENSIONS : Z := 256.
Definition MAX_KEY_SHARES : Z := 16.
Definition MAX_ALPN_PROTOCOLS : Z := 32.
Definition MAX_PSK_IDENTITIES : Z := 16.
Definition MAX_PSK_BINDERS : Z := 16.

Inductive ClientHelloError :=
| ChTruncated | ChTooLarge | ChNotHandshakeRecord | ChNotClientHello | ChLengthMismatch | ChMalformed (field : string).

(** [Range<usize>]. *)
Notation Range := (Z * Z)%type.

Record KeyShareRange := { ks_group : Z; ks_data : Range }.

Record ClientHello := {
  raw_message : list byte; random : list byte; session_id_range : Range; server_name_range : option Range;
  alpn_ranges : list Range; key_share_ranges : list KeyShareRange; cipher_suites : list Z;
  offers_tls13 : bool; offers_psk : bool;
}.

(** ** [Reader] *)

Record Reader := { rd_input : list byte; rd_position : Z; rd_end : Z }.

Notation P := (M Reader ClientHelloError).

Definition new_reader (l : list byte) : Reader := {| rd_input := l; rd_position := 0; rd_end := len l |}.
Definition is_empty (r : Reader) : bool := rd_position r =? rd_end r.
Definition remaining (r : Reader) : Z := saturating_sub (rd_end r) (rd_position r).

Definition read_range (length : Z) : P Range := fun r =>
  match checked_add USIZE_MAX (rd_position r) length with
  | None => Err ChTooLarge
  | Some e =>
    if rd_end r <? e then Err ChTruncated
    else Ok ((rd_position r, e), {| rd_input := rd_input r; rd_position := e; rd_end := rd_end r |})
  end.

Definition bytes (range : Range) : P (list byte) := fun r =>
  match get_range (rd_input r) range.1 range.2 with Some b => Ok (b, r) | None => Err ChTruncated end.

Definition read_bytes (length : Z) : P (list byte) := range ← read_range length; bytes range.

Definition read_subreader (length : Z) : P Reader :=
  range ← read_range length;
  r ← get_state;
  mret {| rd_input := rd_input r; rd_position := range.1; rd_end := range.2 |}.

Definition read_u8 : P byte :=
  b ← read_bytes 1;
  match b with [] => throw ChTruncated | x :: _ => mret x end.

Definition read_u16 : P Z :=
  b ← read_bytes 2;
  return! ChTruncated when negb (len b =? 2);
  mret (from_be b).

Definition read_u24 : P Z :=
  b ← read_bytes 3;
  return! ChTruncated when negb (len b =? 3);
  mret (from_be b).

Definition skip_remaining : P unit :=
  r ← get_state; put_state {| rd_input := rd_input r; rd_position := rd_end r; rd_end := rd_end r |}.

Definition reader_empty : P bool := r ← get_state; mret (is_empty r).

(** A parser applied to a sub-reader it owns. *)
Definition on_sub {A} (sub : Reader) (p : P A) : P (A * Reader) := lift (p sub).

(** [while !reader.is_empty() { acc = step(acc)? }]. Every step of this module
    reads at least one byte, so the fuel (the bytes left, plus one) suffices. *)
Fixpoint more_loop {A} (fuel : nat) (step : A -> P A) (acc : A) : P A :=
  match fuel with
  | O => fun _ => Panic
  | S fuel =>
    e ← reader_empty;
    if (e : bool) then mret acc else acc ← step acc; more_loop fuel step acc
  end.

Definition while_more {A} (step : A -> P A) (acc : A) : P A :=
  r ← get_state; more_loop (S (Z.to_nat (remaining r))) step acc.

(** ** Extension bodies *)

Definition contains_nul (l : list byte) : bool := existsb (fun b => bool_decide (b = x00)) l.

Definition server_name_step (host_name : option Range) : P (option Range) :=
  name_type ← read_u8;
  name_len ← read_u16;
  range ← read_range name_len;
  if bool_decide (name_type = x00) then
    return! ChMalformed "duplicate host name" when bool_decide (is_Some host_name);
    b ← bytes range;
    return! ChMalformed "server name" when (len b =? 0) || (253 <? len b) || negb (is_ascii b) || contains_nul b;
    mret (Some range)
  else mret host_name.

Definition parse_server_name : P (option Range) :=
  list_len ← read_u16;
  names ← read_subreader list_len;
  e ← reader_empty;
  return! ChMalformed "server name" when negb e || is_empty names;
  '(host_name, _) ← on_sub names (while_more server_name_step None);
  mret host_name.

Definition versions_step (offers : bool) : P bool := v ← read_u16; mret (offers || (v =? TLS13_VERSION)).

Definition parse_supported_versions : P bool :=
  list_len ← read_u8;
  return! ChMalformed "supported versions" when (u8 list_len <? 2) || negb (u8 list_len mod 2 =? 0);
  versions ← read_subreader (u8 list_len);
  e ← reader_empty;
  return! ChMalformed "supported versions" when negb e;
  '(offers, _) ← on_sub versions (while_more versions_step false);
  mret offers.

Definition key_shares_step (output : list KeyShareRange) : P (list KeyShareRange) :=
  return! ChMalformed "key share count" when MAX_KEY_SHARES <=? len output;
  group ← read_u16;
  data_len ← read_u16;
  return! ChMalformed "empty key share" when data_len =? 0;
  data ← read_range data_len;
  mret (output ++ [{| ks_group := group; ks_data := data |}]).

Definition parse_key_shares : P (list KeyShareRange) :=
  list_len ← read_u16;
  shares ← read_subreader list_len;
  e ← reader_empty;
  return! ChMalformed "key shares" when negb e || is_empty shares;
  '(output, _) ← on_sub shares (while_more key_shares_step []);
  mret output.

Definition alpn_step (output : list Range) : P (list Range) :=
  return! ChMalformed "ALPN protocol count" when MAX_ALPN_PROTOCOLS <=? len output;
  protocol_len ← read_u8;
  return! ChMalformed "empty ALPN protocol" when u8 protocol_len =? 0;
  range ← read_range (u8 protocol_len);
  mret (output ++ [range]).

Definition parse_alpn : P (list Range) :=
  list_len ← read_u16;
  protocols ← read_subreader list_len;
  e ← reader_empty;
  return! ChMalformed "ALPN" when negb e || is_empty protocols;
  '(output, _) ← on_sub protocols (while_more alpn_step []);
  mret output.

Definition psk_identity_step (count : Z) : P Z :=
  return! ChMalformed "PSK identity count" when MAX_PSK_IDENTITIES <=? count;
  identity_len ← read_u16;
  return! ChMalformed "empty PSK identity" when identity_len =? 0;
  _ ← read_bytes identity_len;
  _ ← read_bytes 4;
  mret (count + 1).

Definition psk_binder_step (count : Z) : P Z :=
  return! ChMalformed "PSK binder count" when MAX_PSK_BINDERS <=? count;
  binder_len ← read_u8;
  return! ChMalformed "PSK binder" when u8 binder_len <? 32;
  _ ← read_bytes (u8 binder_len);
  mret (count + 1).

Definition parse_pre_shared_key : P unit :=
  identities_len ← read_u16;
  identities ← read_subreader identities_len;
  '(identity_count, _) ← on_sub identities (while_more psk_identity_step 0);
  binders_len ← read_u16;
  binders ← read_subreader binders_len;
  e ← reader_empty;
  return! ChMalformed "PSK" when negb e;
  '(binder_count, _) ← on_sub binders (while_more psk_binder_step 0);
  return! ChMalformed "PSK identity and binder count" when (identity_count =? 0) || negb (identity_count =? binder_count);
  mret tt.

(** ** Extensions *)

Record ExtensionState := {
  seen : list Z; st_server_name : option Range; st_alpn : list Range; st_key_shares : list KeyShareRange;
  st_offers_tls13 : bool; st_offers_psk : bool;
}.

Definition default_state : ExtensionState :=
  {| seen := []; st_server_name := None; st_alpn := []; st_key_shares := []; st_offers_tls13 := false; st_offers_psk := false |}.

Definition push_seen (t : Z) (st : ExtensionState) : ExtensionState :=
  {| seen := seen st ++ [t]; st_server_name := st_server_name st; st_alpn := st_alpn st;
     st_key_shares := st_key_shares st; st_offers_tls13 := st_offers_tls13 st; st_offers_psk := st_offers_psk st |}.
Definition with_server_name (x : option Range) (st : ExtensionState) : ExtensionState :=
  {| seen := seen st; st_server_name := x; st_alpn := st_alpn st;
     st_key_shares := st_key_shares st; st_offers_tls13 := st_offers_tls13 st; st_offers_psk := st_offers_psk st |}.
Definition with_alpn (x : list Range) (st : ExtensionState) : ExtensionState :=
  {| seen := seen st; st_server_name := st_server_name st; st_alpn := x;
     st_key_shares := st_key_shares st; st_offers_tls13 := st_offers_tls13 st; st_offers_psk := st_offers_psk st |}.
Definition with_key_shares (x : list KeyShareRange) (st : ExtensionState) : ExtensionState :=
  {| seen := seen st; st_server_name := st_server_name st; st_alpn := st_alpn st;
     st_key_shares := x; st_offers_tls13 := st_offers_tls13 st; st_offers_psk := st_offers_psk st |}.
Definition with_tls13 (x : bool) (st : ExtensionState) : ExtensionState :=
  {| seen := seen st; st_server_name := st_server_name st; st_alpn := st_alpn st;
     st_key_shares := st_key_shares st; st_offers_tls13 := x; st_offers_psk := st_offers_psk st |}.
Definition with_psk (st : ExtensionState) : ExtensionState :=
  {| seen := seen st; st_server_name := st_server_name st; st_alpn := st_alpn st;
     st_key_shares := st_key_shares st; st_offers_tls13 := st_offers_tls13 st; st_offers_psk := true |}.

(** The [match extension_type], run on the extension's sub-reader; [last] is
    [reader.is_empty()] of the enclosing list. *)
Definition parse_extension_body (t : Z) (last : bool) (st : ExtensionState) : P ExtensionState :=
  if t =? EXT_SERVER_NAME then n ← parse_server_name; mret (with_server_name n st)
  else if t =? EXT_SUPPORTED_VERSIONS then v ← parse_supported_versions; mret (with_tls13 v st)
  else if t =? EXT_KEY_SHARE then k ← parse_key_shares; mret (with_key_shares k st)
  else if t =? EXT_ALPN then a ← parse_alpn; mret (with_alpn a st)
  else if t =? EXT_PRE_SHARED_KEY then
    return! ChMalformed "pre-shared key ordering" when negb last;
    _ ← parse_pre_shared_key;
    mret (with_psk st)
  else _ ← skip_remaining; mret st.

Definition extension_step (st : ExtensionState) : P ExtensionState :=
  return! ChMalformed "extension count" when MAX_EXTENSIONS <=? len (seen st);
  t ← read_u16;
  return! ChMalformed "duplicate extension" when bool_decide (t ∈ seen st);
  let st := push_seen t st in
  extension_len ← read_u16;
  extension ← read_subreader extension_len;
  last ← reader_empty;
  '(st, extension) ← on_sub extension (parse_extension_body t last st);
  return! ChMalformed "extension length" when negb (is_empty extension);
  mret st.

Definition parse_extensions (st : ExtensionState) : P ExtensionState := while_more extension_step st.

(** ** [parse_message] and [parse_record] *)

(** [as_chunks::<2>().0] mapped through [from_be_bytes]. *)
Fixpoint be_pairs (l : list byte) : list Z :=
  match l with a :: b :: l => from_be [a; b] :: be_pairs l | _ => [] end.

Definition message_body (message : list byte) : P ClientHello :=
  kind ← read_u8;
  return! ChNotClientHello when negb (bool_decide (kind = HANDSHAKE_TYPE_CLIENT_HELLO));
  declared ← read_u24;
  r ← get_state;
  return! ChLengthMismatch when negb (declared =? remaining r);
  _ ← read_u16;
  random ← read_bytes 32;
  return! ChTruncated when negb (len random =? 32);
  session_id_len ← read_u8;
  return! ChMalformed "session ID" when SESSION_ID_LEN <? u8 session_id_len;
  session_id ← read_range (u8 session_id_len);
  cipher_bytes_len ← read_u16;
  return! ChMalformed "cipher suites" when (cipher_bytes_len <? 2) || negb (cipher_bytes_len mod 2 =? 0);
  cipher_bytes ← read_bytes cipher_bytes_len;
  compression_len ← read_u8;
  return! ChMalformed "compression methods" when u8 compression_len =? 0;
  _ ← read_bytes (u8 compression_len);
  none ← reader_empty;
  st ← (if (none : bool) then mret default_state
        else
          extensions_len ← read_u16;
          extensions ← read_subreader extensions_len;
          e ← reader_empty;
          return! ChLengthMismatch when negb e;
          '(st, _) ← on_sub extensions (parse_extensions default_state);
          mret st);
  mret {| raw_message := message; random := random; session_id_range := session_id;
          server_name_range := st_server_name st; alpn_ranges := st_alpn st; key_share_ranges := st_key_shares st;
          cipher_suites := be_pairs cipher_bytes; offers_tls13 := st_offers_tls13 st; offers_psk := st_offers_psk st |}.

Definition parse_message (message : list byte) : result ClientHelloError ClientHello :=
  guard! MAX_CLIENT_HELLO_BYTES <? len message else ChTooLarge;
  '(hello, _) ← message_body message (new_reader message);
  Ok hello.

Definition parse_record (record : list byte) : result ClientHelloError ClientHello :=
  guard! len record <? TLS_RECORD_HEADER_LEN else ChTruncated;
  t ← index record 0;
  guard! negb (bool_decide (t = TLS_CONTENT_TYPE_HANDSHAKE)) else ChNotHandshakeRecord;
  l0 ← index record 3; l1 ← index record 4;
  let body_len := from_be [l0; l1] in
  record_len ← ok_or ChTooLarge (checked_add USIZE_MAX TLS_RECORD_HEADER_LEN body_len);
  guard! len record <? record_len else ChTruncated;
  guard! negb (len record =? record_len) else ChLengthMismatch;
  body ← ok_or ChTruncated (get_range record TLS_RECORD_HEADER_LEN record_len);
  parse_message body.

(** ** Accessors *)

Definition server_name (h : ClientHello) : option (list byte) :=
  range ← server_name_range h;
  b ← get_range (raw_message h) range.1 range.2;
  if from_utf8 b then Some b else None.

Definition session_id (h : ClientHello) : option (list byte) :=
  get_range (raw_message h) (session_id_range h).1 (session_id_range h).2.

Definition session_ciphertext (h : ClientHello) : option (list byte) :=
  b ← session_id h;
  if len b =? SESSION_ID_LEN then Some b else None.

(** [aad.get_mut(range)?.fill(0)]. *)
Definition reality_aad (h : ClientHello) : option (list byte) :=
  _ ← session_ciphertext h;
  let '(i, j) := session_id_range h in
  _ ← get_range (raw_message h) i j;
  Some (take (Z.to_nat i) (raw_message h) ++ replicate (Z.to_nat (j - i)) x00 ++ drop (Z.to_nat j) (raw_message h)).

Definition aead_nonce (h : ClientHello) : list byte := take 12 (drop 20 (random h)).

Definition alpn_protocols (h : ClientHello) : list (list byte) :=
  omap (fun r => get_range (raw_message h) r.1 r.2) (alpn_ranges h).

Definition key_shares (h : ClientHello) : list (Z * list byte) :=
  omap (fun s => d ← get_range (raw_message h) (ks_data s).1 (ks_data s).2; Some (ks_group s, d)) (key_share_ranges h).

Definition hybrid_share (h : ClientHello) : option (Z * list byte) :=
  snd <$> list_find (fun s => s.1 = X25519_MLKEM768_GROUP /\ len s.2 = X25519_MLKEM768_SHARE_LEN) (key_shares h).

Definition peer_x25519 (h : ClientHello) : option (list byte) :=
  match list_find (fun s => s.1 = X25519_GROUP /\ len s.2 = 32) (key_shares h) with
  | Some (_, share) => Some share.2
  | None =>
    hybrid ← hybrid_share h;
    get_range hybrid.2 MLKEM768_ENCAP_KEY_LEN X25519_MLKEM768_SHARE_LEN
  end.

Definition peer_mlkem768_encapsulation_key (h : ClientHello) : option (list byte) :=
  share ← hybrid_share h;
  get_range share.2 0 MLKEM768_ENCAP_KEY_LEN.

Definition cipher_offered (h : ClientHello) (c : Z) : bool := bool_decide (c ∈ cipher_suites h).

(** RFC 8701. *)
Definition is_grease (value : Z) : bool :=
  (Z.land value 3855 =? 2570) && (Z.shiftr value 8 =? Z.land value 255).

Definition key_share_group_offered (h : ClientHello) (group : Z) : bool :=
  negb (is_grease group) && existsb (fun s => ks_group s =? group) (key_share_ranges h).
