(* ===== verification/HelloSpec.v ===== *)
(** * What the ClientHello parser accepts

    A reference encoder for ClientHello messages and the theorem that
    [parse_message] accepts exactly its outputs, with the accessors returning
    the encoded fields. [parses_at] relates a parser to an encoder at a given
    position of the message; loops are related to lists of encoded items. *)

From S2P Require Import Prelude Cursor ClientHello.
#[local] Open Scope Z_scope.

(** The reader whose region is [s], between [pre] and [post]. *)
Definition rd (pre s post : list byte) : Reader :=
  {| rd_input := pre ++ s ++ post; rd_position := len pre; rd_end := len pre + len s |}.

(** Positions stay far below the end of [usize]. *)
Definition small (l : list byte) : Prop := len l <= 16777216.

Lemma rd_empty pre s post : is_empty (rd pre s post) = bool_decide (s = []).
Proof.
  unfold is_empty, rd. cbn. destruct s as [|b s]; [rewrite len_nil, Z.add_0_r, Z.eqb_refl; done|].
  rewrite bool_decide_false by done. apply Z.eqb_neq. slen.
Qed.

Lemma rd_remaining pre s post : remaining (rd pre s post) = len s.
Proof. unfold remaining, saturating_sub, rd. cbn. slen. Qed.

Lemma read_range_view n pre s post :
  small (pre ++ s ++ post) -> 0 <= n <= 16777216 ->
  read_range n (rd pre s post) =
    if len s <? n then Err ChTruncated
    else Ok ((len pre, len pre + n), rd (pre ++ take (Z.to_nat n) s) (drop (Z.to_nat n) s) post).
Proof.
  intros Hs Hn. unfold small in Hs. unfold read_range. cbn [rd rd_position rd_end rd_input].
  replace (checked_add USIZE_MAX (len pre) n) with (Some (len pre + n))
    by (symmetry; apply checked_add_some; split; [done|]; unfold USIZE_MAX, U64_MAX; slen).
  replace (len pre + len s <? len pre + n) with (len s <? n) by lia.
  destruct (Z.ltb_spec (len s) n); [done|]. do 2 f_equal. unfold rd.
  rewrite <- app_assoc, (app_assoc (take _ s)), take_drop. f_equal; slen.
Qed.

Lemma bytes_view pre s post t b :
  pre ++ s ++ post = t ++ b -> forall n, 0 <= n <= len b ->
  bytes (len t, len t + n) (rd pre s post) = Ok (take (Z.to_nat n) b, rd pre s post).
Proof.
  intros E n Hn. unfold bytes, rd. cbn [rd_input fst snd]. rewrite E.
  rewrite get_range_app_r by lia. rewrite Z.sub_diag. rewrite get_range_some by lia.
  do 2 f_equal. f_equal. lia.
Qed.

Lemma read_bytes_view n pre s post :
  small (pre ++ s ++ post) -> 0 <= n <= 16777216 ->
  read_bytes n (rd pre s post) =
    if len s <? n then Err ChTruncated
    else Ok (take (Z.to_nat n) s, rd (pre ++ take (Z.to_nat n) s) (drop (Z.to_nat n) s) post).
Proof.
  intros Hs Hn. unfold read_bytes, mbind, M_bind. rewrite read_range_view by done.
  destruct (Z.ltb_spec (len s) n); [done|].
  rewrite (bytes_view _ _ _ pre (s ++ post)).
  - rewrite take_app_le by (unfold len in *; lia). done.
  - by rewrite <- app_assoc, (app_assoc (take _ s)), take_drop.
  - slen.
Qed.

Lemma read_subreader_view n pre s post :
  small (pre ++ s ++ post) -> 0 <= n <= 16777216 ->
  read_subreader n (rd pre s post) =
    if len s <? n then Err ChTruncated
    else Ok (rd pre (take (Z.to_nat n) s) (drop (Z.to_nat n) s ++ post),
             rd (pre ++ take (Z.to_nat n) s) (drop (Z.to_nat n) s) post).
Proof.
  intros Hs Hn. unfold read_subreader, mbind, M_bind. rewrite read_range_view by done.
  destruct (Z.ltb_spec (len s) n); [done|]. cbn. unfold mret, M_ret, rd. rewrite <- !app_assoc.
  do 3 f_equal; slen.
Qed.

Lemma M_bind_step {S E A B} (m : M S E A) (f : A -> M S E B) s a s' : m s = Ok (a, s') -> (m ≫= f) s = f a s'.
Proof. intros H. unfold mbind, M_bind. by rewrite H. Qed.

Lemma reader_empty_view pre s post : reader_empty (rd pre s post) = Ok (bool_decide (s = []), rd pre s post).
Proof. unfold reader_empty, mbind, M_bind. cbn [get_state]. by rewrite rd_empty. Qed.

(** ** Parsers and encoders *)

Definition parses_at {A X} (pre : list byte) (p : P A) (enc : X -> list byte) (wf : X -> Prop) (val : X -> A) : Prop :=
  forall post s v r', small (pre ++ s ++ post) ->
    (p (rd pre s post) = Ok (v, r') <->
     exists x rest, wf x /\ s = enc x ++ rest /\ v = val x /\ r' = rd (pre ++ enc x) rest post).

Section Combinators.
Context {A B X Y : Type}.

Lemma parses_ret pre (a : A) : parses_at pre (mret a) (fun _ : unit => []) (fun _ => True) (fun _ => a).
Proof.
  intros post s v r' _. cbn. split.
  - intros [= <- <-]. exists tt, s. by rewrite app_nil_r.
  - intros (_ & rest & _ & -> & -> & ->). by rewrite app_nil_r.
Qed.

Lemma parses_bind pre (p : P A) (f : A -> P B) (e1 : X -> list byte) w1 v1 (e2 : X -> Y -> list byte) w2 v2 :
  parses_at pre p e1 w1 v1 -> (forall x, w1 x -> parses_at (pre ++ e1 x) (f (v1 x)) (e2 x) (w2 x) (v2 x)) ->
  parses_at pre (p ≫= f) (fun '(x, y) => e1 x ++ e2 x y) (fun '(x, y) => w1 x /\ w2 x y) (fun '(x, y) => v2 x y).
Proof.
  intros Hp Hf post s v r' Hs. unfold mbind, M_bind. split.
  - destruct (p (rd pre s post)) as [[a r]| |] eqn:E; [|done..]. intros H.
    apply Hp in E as (x & rest & Hw & -> & -> & ->); [|done]. rewrite <- app_assoc in Hs.
    apply (Hf x Hw) in H as (y & rest' & Hw2 & -> & -> & ->); [|by rewrite <- app_assoc].
    exists (x, y), rest'. rewrite <- !app_assoc. done.
  - intros ([x y] & rest & [Hw1 Hw2] & -> & -> & ->). rewrite <- !app_assoc in Hs.
    destruct (Hp post ((e1 x ++ e2 x y) ++ rest) (v1 x) (rd (pre ++ e1 x) (e2 x y ++ rest) post)) as [_ ->];
      [by rewrite <- !app_assoc| |].
    + apply (Hf x Hw1); [by rewrite <- !app_assoc|]. exists y, rest. rewrite <- !app_assoc. done.
    + exists x, (e2 x y ++ rest). by rewrite <- app_assoc.
Qed.

Lemma parses_guard pre b e (k : unit -> P A) (enc : X -> list byte) wf val :
  parses_at pre (k tt) enc wf val ->
  parses_at pre (u ← return_if b e; k u) enc (fun x => b = false /\ wf x) val.
Proof.
  intros Hk post s v r' Hs. unfold return_if, mbind, M_bind. destruct b; cbn.
  - split; [done|]. by intros (x & rest & [[=] _] & _).
  - rewrite (Hk post s v r' Hs). naive_solver.
Qed.

Lemma parses_iso pre (p : P A) (enc : X -> list byte) wf val (enc' : Y -> list byte) wf' val' :
  parses_at pre p enc wf val ->
  (forall x, wf x -> exists y, wf' y /\ enc' y = enc x /\ val' y = val x) ->
  (forall y, wf' y -> exists x, wf x /\ enc' y = enc x /\ val' y = val x) ->
  parses_at pre p enc' wf' val'.
Proof.
  intros Hp H1 H2 post s v r' Hs. rewrite (Hp post s v r' Hs). split.
  - intros (x & rest & Hw & -> & -> & ->). destruct (H1 x Hw) as (y & Hy & <- & <-). by exists y, rest.
  - intros (y & rest & Hw & -> & -> & ->). destruct (H2 y Hw) as (x & Hx & -> & ->). by exists x, rest.
Qed.
End Combinators.

Lemma take_exact {A} (a b : list A) n : len a = n -> take (Z.to_nat n) (a ++ b) = a /\ drop (Z.to_nat n) (a ++ b) = b.
Proof. intros <-. unfold len. rewrite Nat2Z.id. by rewrite take_app_length, drop_app_length. Qed.

Lemma parses_range pre n :
  0 <= n <= 16777216 ->
  parses_at pre (read_range n) (fun b : list byte => b) (fun b => len b = n) (fun _ => (len pre, len pre + n)).
Proof.
  intros Hn post s v r' Hs. rewrite read_range_view by done. split.
  - destruct (Z.ltb_spec (len s) n); [done|]. intros [= <- <-].
    exists (take (Z.to_nat n) s), (drop (Z.to_nat n) s). rewrite take_drop. split_and!; try done. slen.
  - intros (b & rest & Hb & -> & -> & ->). rewrite (proj2 (Z.ltb_ge _ _)) by slen.
    by destruct (take_exact b rest n Hb) as [-> ->].
Qed.

Lemma parses_bytes pre n :
  0 <= n <= 16777216 ->
  parses_at pre (read_bytes n) (fun b : list byte => b) (fun b => len b = n) (fun b => b).
Proof.
  intros Hn post s v r' Hs. rewrite read_bytes_view by done. split.
  - destruct (Z.ltb_spec (len s) n); [done|]. intros [= <- <-].
    exists (take (Z.to_nat n) s), (drop (Z.to_nat n) s). rewrite take_drop. split_and!; try done. slen.
  - intros (b & rest & Hb & -> & -> & ->). rewrite (proj2 (Z.ltb_ge _ _)) by slen.
    by destruct (take_exact b rest n Hb) as [-> ->].
Qed.

Lemma parses_u8 pre : parses_at pre read_u8 (fun b => [b]) (fun _ => True) (fun b => b).
Proof.
  intros post s v r' Hs. unfold read_u8, mbind, M_bind. rewrite read_bytes_view by done. destruct s as [|b s].
  - split; [done|]. by intros (x & rest & _ & [=] & _).
  - rewrite (proj2 (Z.ltb_ge _ _)) by slen. cbn. split.
    + intros [= <- <-]. by exists b, s.
    + intros (x & rest & _ & [= <- <-] & -> & ->). done.
Qed.

(** A big-endian integer of [n] bytes. *)
Lemma parses_be pre (n : nat) :
  (n <= 8)%nat ->
  parses_at pre (b ← read_bytes (Z.of_nat n); return! ChTruncated when negb (len b =? Z.of_nat n); mret (from_be b))
    (to_be n) (fun z => 0 <= z < 256 ^ Z.of_nat n) (fun z => z).
Proof.
  intros Hn post s v r' Hs. unfold mbind at 1, M_bind at 1. rewrite read_bytes_view by (done || lia).
  destruct (Z.ltb_spec (len s) (Z.of_nat n)) as [Hl|Hl].
  - split; [done|]. intros (z & rest & _ & -> & _). pose proof (len_to_be n z). slen.
  - rewrite Nat2Z.id. assert (Hb : len (take n s) = Z.of_nat n) by slen.
    unfold mbind, M_bind, return_if. rewrite Hb, Z.eqb_refl. cbn. split.
    + intros [= <- <-]. exists (from_be (take n s)), (drop n s).
      rewrite to_be_from_be, take_drop by (unfold len in Hb; lia). split; [by apply from_be_range_n|done].
    + intros (z & rest & Hz & -> & -> & ->).
      destruct (take_exact (to_be n z) rest (Z.of_nat n) (len_to_be n z)) as [Ht Hd]. rewrite Nat2Z.id in Ht, Hd.
      by rewrite Ht, Hd, from_be_to_be.
Qed.

Lemma parses_u16 pre : parses_at pre read_u16 (to_be 2) u16_range (fun z => z).
Proof.
  pose proof (parses_be pre 2 ltac:(lia)) as H. change (256 ^ Z.of_nat 2) with 65536 in H. eapply parses_iso; [exact H| |]; intros z Hz; exists z;
    (split; [unfold u16_range, U16_MAX in *; lia|done]).
Qed.

Lemma parses_u24 pre : parses_at pre read_u24 (to_be 3) (fun z => 0 <= z < 16777216) (fun z => z).
Proof.
  pose proof (parses_be pre 3 ltac:(lia)) as H. change (256 ^ Z.of_nat 3) with 16777216 in H. eapply parses_iso; [exact H| |]; intros z Hz; exists z; (split; [exact Hz|done]).
Qed.

(** ** Loops over a region *)

(** As [parses_at], where what is accepted may depend on whether anything is
    left after the item. *)
Definition parses_last {A X} (pre : list byte) (p : P A) (enc : X -> list byte) (wf : bool -> X -> Prop) (val : X -> A) : Prop :=
  forall post s v r', small (pre ++ s ++ post) ->
    (p (rd pre s post) = Ok (v, r') <->
     exists x rest, wf (bool_decide (rest = [])) x /\ s = enc x ++ rest /\ v = val x /\ r' = rd (pre ++ enc x) rest post).

Lemma parses_at_last {A X} pre (p : P A) (enc : X -> list byte) wf val :
  parses_at pre p enc wf val -> parses_last pre p enc (fun _ => wf) val.
Proof. done. Qed.

Lemma last_bind {A B X Y} pre (p : P A) (f : A -> P B) (e1 : X -> list byte) w1 v1 (e2 : X -> Y -> list byte) w2 v2 :
  parses_at pre p e1 w1 v1 -> (forall x, w1 x -> parses_last (pre ++ e1 x) (f (v1 x)) (e2 x) (w2 x) (v2 x)) ->
  parses_last pre (p ≫= f) (fun '(x, y) => e1 x ++ e2 x y) (fun l '(x, y) => w1 x /\ w2 x l y) (fun '(x, y) => v2 x y).
Proof.
  intros Hp Hf post s v r' Hs. unfold mbind, M_bind. split.
  - destruct (p (rd pre s post)) as [[a r]| |] eqn:E; [|done..]. intros H.
    apply Hp in E as (x & rest & Hw & -> & -> & ->); [|done]. rewrite <- app_assoc in Hs.
    apply (Hf x Hw) in H as (y & rest' & Hw2 & -> & -> & ->); [|by rewrite <- app_assoc].
    exists (x, y), rest'. rewrite <- !app_assoc. done.
  - intros ([x y] & rest & [Hw1 Hw2] & -> & -> & ->). rewrite <- !app_assoc in Hs.
    destruct (Hp post ((e1 x ++ e2 x y) ++ rest) (v1 x) (rd (pre ++ e1 x) (e2 x y ++ rest) post)) as [_ ->];
      [by rewrite <- !app_assoc| |].
    + apply (Hf x Hw1); [by rewrite <- !app_assoc|]. exists y, rest. rewrite <- !app_assoc. done.
    + exists x, (e2 x y ++ rest). by rewrite <- app_assoc.
Qed.

Lemma last_guard {A X} pre b e (k : unit -> P A) (enc : X -> list byte) wf val :
  parses_last pre (k tt) enc wf val ->
  parses_last pre (u ← return_if b e; k u) enc (fun l x => b = false /\ wf l x) val.
Proof.
  intros Hk post s v r' Hs. unfold return_if, mbind, M_bind. destruct b; cbn.
  - split; [done|]. by intros (x & rest & [[=] _] & _).
  - rewrite (Hk post s v r' Hs). naive_solver.
Qed.

Lemma last_iso {A X Y} pre (p : P A) (enc : X -> list byte) wf val (enc' : Y -> list byte) wf' val' :
  parses_last pre p enc wf val ->
  (forall l x, wf l x -> exists y, wf' l y /\ enc' y = enc x /\ val' y = val x) ->
  (forall l y, wf' l y -> exists x, wf l x /\ enc' y = enc x /\ val' y = val x) ->
  parses_last pre p enc' wf' val'.
Proof.
  intros Hp H1 H2 post s v r' Hs. rewrite (Hp post s v r' Hs). split.
  - intros (x & rest & Hw & -> & -> & ->). destruct (H1 _ x Hw) as (y & Hy & <- & <-). by exists y, rest.
  - intros (y & rest & Hw & -> & -> & ->). destruct (H2 _ y Hw) as (x & Hx & -> & ->). by exists x, rest.
Qed.

(** The state after the items [xs], each at its own position. *)
Section Loop.
Context {A X : Type} (step : A -> P A) (enc : X -> list byte) (wf : A -> bool -> X -> Prop) (val : list byte -> A -> X -> A).

Fixpoint items_wf (pre : list byte) (acc : A) (xs : list X) : Prop :=
  match xs with [] => True | x :: xs => wf acc (bool_decide (xs = [])) x /\ items_wf (pre ++ enc x) (val pre acc x) xs end.

Fixpoint items_val (pre : list byte) (acc : A) (xs : list X) : A :=
  match xs with [] => acc | x :: xs => items_val (pre ++ enc x) (val pre acc x) xs end.

Context (Hstep : forall pre acc, parses_last pre (step acc) enc (wf acc) (val pre acc)).
Context (Hne : forall acc l x, wf acc l x -> enc x <> []).

Lemma items_nil pre acc xs : items_wf pre acc xs -> bool_decide (concat (enc <$> xs) = []) = bool_decide (xs = []).
Proof.
  destruct xs as [|x xs]; [done|]. intros [Hw _]. apply Hne in Hw. cbn.
  rewrite !bool_decide_false; [done..|]. intros [? _]%app_eq_nil. done.
Qed.

Lemma more_loop_spec fuel : forall pre acc post s v r',
  (length s < fuel)%nat -> small (pre ++ s ++ post) ->
  (more_loop fuel step acc (rd pre s post) = Ok (v, r') <->
   exists xs, items_wf pre acc xs /\ s = concat (enc <$> xs) /\ v = items_val pre acc xs /\ r' = rd (pre ++ s) [] post).
Proof.
  induction fuel as [|fuel IH]; intros pre acc post s v r' Hf Hs; [lia|]. cbn [more_loop].
  rewrite (M_bind_step _ _ _ _ _ (reader_empty_view _ _ _)). case_bool_decide as He.
  - subst s. cbn. split.
    + intros [= <- <-]. exists []. by rewrite app_nil_r.
    + intros (xs & Hw & Hc & -> & ->). rewrite app_nil_r. apply items_nil in Hw. rewrite <- Hc in Hw.
      symmetry in Hw. apply bool_decide_eq_true in Hw. by subst xs.
  - unfold mbind, M_bind. split.
    + destruct (step acc (rd pre s post)) as [[a r]| |] eqn:E; [|done..]. intros H.
      apply Hstep in E as (x & rest & Hw & -> & -> & ->); [|done].
      pose proof (Hne _ _ _ Hw) as Hx. rewrite length_app in Hf.
      assert ((0 < length (enc x))%nat) by (destruct (enc x); [done|cbn; lia]).
      apply IH in H as (xs & Hws & -> & -> & ->); [|lia|by rewrite <- !app_assoc in *].
      exists (x :: xs). cbn. rewrite (items_nil _ _ _ Hws) in Hw. rewrite <- app_assoc. done.
    + intros (xs & Hw & -> & -> & ->). destruct xs as [|x xs]; [done|]. cbn in Hw. destruct Hw as [Hw Hws].
      cbn [concat fmap list_fmap]. pose proof (Hne _ _ _ Hw) as Hx. cbn in Hf, Hs. rewrite length_app in Hf.
      assert ((0 < length (enc x))%nat) by (destruct (enc x); [done|cbn; lia]).
      destruct (Hstep pre acc post (enc x ++ concat (enc <$> xs)) (val pre acc x) (rd (pre ++ enc x) (concat (enc <$> xs)) post) Hs)
        as [_ ->]; [|exists x, (concat (enc <$> xs)); by rewrite (items_nil _ _ _ Hws)].
      apply IH; [lia|by rewrite <- !app_assoc in *|]. exists xs. rewrite <- app_assoc. done.
Qed.

Lemma while_more_spec pre acc post s v r' :
  small (pre ++ s ++ post) ->
  (while_more step acc (rd pre s post) = Ok (v, r') <->
   exists xs, items_wf pre acc xs /\ s = concat (enc <$> xs) /\ v = items_val pre acc xs /\ r' = rd (pre ++ s) [] post).
Proof.
  intros Hs. unfold while_more, mbind, M_bind. cbn [get_state]. rewrite rd_remaining.
  apply more_loop_spec; [unfold len; lia|done].
Qed.
End Loop.

(** ** Parsers of a whole region *)

Definition whole_at {A X} (pre : list byte) (p : P A) (enc : X -> list byte) (wf : X -> Prop) (val : X -> A) : Prop :=
  forall post s v r', small (pre ++ s ++ post) ->
    (p (rd pre s post) = Ok (v, r') <-> exists x, wf x /\ s = enc x /\ v = val x /\ r' = rd (pre ++ s) [] post).

Lemma whole_iso {A X Y} pre (p : P A) (enc : X -> list byte) wf val (enc' : Y -> list byte) wf' val' :
  whole_at pre p enc wf val ->
  (forall x, wf x -> exists y, wf' y /\ enc' y = enc x /\ val' y = val x) ->
  (forall y, wf' y -> exists x, wf x /\ enc' y = enc x /\ val' y = val x) ->
  whole_at pre p enc' wf' val'.
Proof.
  intros Hp H1 H2 post s v r' Hs. rewrite (Hp post s v r' Hs). split.
  - intros (x & Hw & -> & -> & ->). destruct (H1 x Hw) as (y & Hy & <- & <-). by exists y.
  - intros (y & Hw & -> & -> & ->). destruct (H2 y Hw) as (x & Hx & -> & ->). by exists x.
Qed.

Lemma whole_map {A B X} pre (p : P A) (f : A -> B) (enc : X -> list byte) wf val :
  whole_at pre p enc wf val -> whole_at pre (a ← p; mret (f a)) enc wf (fun x => f (val x)).
Proof.
  intros Hp post s v r' Hs. unfold mbind, M_bind. split.
  - destruct (p (rd pre s post)) as [[a r]| |] eqn:E; [|done..]. cbn. intros [= <- <-].
    apply Hp in E as (x & Hw & -> & -> & ->); [|done]. by exists x.
  - intros (x & Hw & -> & -> & ->). by rewrite (proj2 (Hp post (enc x) (val x) (rd (pre ++ enc x) [] post) Hs)); [|by exists x].
Qed.

(** A parser of a prefix followed by a parser of everything that is left. *)
Lemma whole_bind {A B X Y} pre (p : P A) (f : A -> P B) (e1 : X -> list byte) w1 v1 (e2 : X -> Y -> list byte) w2 v2 :
  parses_at pre p e1 w1 v1 -> (forall x, w1 x -> whole_at (pre ++ e1 x) (f (v1 x)) (e2 x) (w2 x) (v2 x)) ->
  whole_at pre (p ≫= f) (fun '(x, y) => e1 x ++ e2 x y) (fun '(x, y) => w1 x /\ w2 x y) (fun '(x, y) => v2 x y).
Proof.
  intros Hp Hf post s v r' Hs. unfold mbind, M_bind. split.
  - destruct (p (rd pre s post)) as [[a r]| |] eqn:E; [|done..]. intros H.
    apply Hp in E as (x & rest & Hw & -> & -> & ->); [|done]. rewrite <- app_assoc in Hs.
    apply (Hf x Hw) in H as (y & Hw2 & -> & -> & ->); [|by rewrite <- app_assoc].
    exists (x, y). rewrite <- !app_assoc. done.
  - intros ([x y] & [Hw1 Hw2] & -> & -> & ->). rewrite <- !app_assoc in Hs.
    destruct (Hp post (e1 x ++ e2 x y) (v1 x) (rd (pre ++ e1 x) (e2 x y) post)) as [_ ->];
      [by rewrite <- !app_assoc| |by exists x, (e2 x y)].
    apply (Hf x Hw1); [by rewrite <- !app_assoc|]. exists y. rewrite <- !app_assoc. done.
Qed.

Lemma whole_guard {A X} pre b e (k : unit -> P A) (enc : X -> list byte) wf val :
  whole_at pre (k tt) enc wf val -> whole_at pre (u ← return_if b e; k u) enc (fun x => b = false /\ wf x) val.
Proof.
  intros Hk post s v r' Hs. unfold return_if, mbind, M_bind. destruct b; cbn.
  - split; [done|]. by intros (x & [[=] _] & _).
  - rewrite (Hk post s v r' Hs). naive_solver.
Qed.

(** The tail of every list parser: the list must fill the rest of the region;
    [c] is the parser's check of that, [k] what it does with the result. *)
Section List.
Context {A B X : Type} (step : A -> P A) (acc : A) (enc : X -> list byte) (wf : A -> bool -> X -> Prop)
  (val : list byte -> A -> X -> A) (nonempty : bool) (c : bool -> Reader -> bool) (err err2 : ClientHelloError)
  (k : A -> P B) (g : A -> bool) (f : A -> B).
Context (Hstep : forall pre acc, parses_last pre (step acc) enc (wf acc) (val pre acc)).
Context (Hne : forall acc l x, wf acc l x -> enc x <> []).
Context (Hc : forall e sub, c e sub = negb e || (nonempty && is_empty sub)).
Context (Hk : forall v r, k v r = if g v then Err err2 else Ok (f v, r)).

Lemma whole_list pre n :
  0 <= n <= 65535 ->
  whole_at pre (sub ← read_subreader n; e ← reader_empty; return! err when c e sub;
      '(v, _) ← on_sub sub (while_more step acc); k v)
    (fun xs => concat (enc <$> xs))
    (fun xs => items_wf enc wf val pre acc xs /\ len (concat (enc <$> xs)) = n /\ (nonempty = true -> xs <> []) /\
               g (items_val enc val pre acc xs) = false)
    (fun xs => f (items_val enc val pre acc xs)).
Proof.
  intros Hn post s v r' Hs. unfold mbind at 1, M_bind at 1. rewrite read_subreader_view by (done || lia).
  destruct (Z.ltb_spec (len s) n) as [Hl|Hl].
  { split; [done|]. intros (xs & (_ & Hlen & _) & -> & _). lia. }
  rewrite (M_bind_step _ _ _ _ _ (reader_empty_view _ _ _)), Hc, rd_empty.
  destruct (decide (len s = n)) as [He|He].
  2:{ rewrite (bool_decide_false (drop _ s = [])).
      2:{ intros Hd. apply (f_equal len) in Hd. autorewrite with lens in Hd. lia. }
      unfold mbind, M_bind. cbn. split; [done|]. intros (xs & (_ & Hlen & _) & -> & _). lia. }
  assert (Ht : take (Z.to_nat n) s = s) by (apply take_ge; unfold len in He; lia).
  assert (Hd : drop (Z.to_nat n) s = []) by (apply drop_ge; unfold len in He; lia).
  rewrite Ht, Hd. rewrite (bool_decide_true ([] = [])) by done. cbn [negb orb].
  unfold mbind at 1, M_bind at 1. unfold return_if at 1, lift at 1.
  destruct (nonempty && bool_decide (s = [])) eqn:Hemp; cbn [reject_if].
  { split; [done|]. intros (xs & (Hw & _ & Hnil & _) & -> & _). apply andb_true_iff in Hemp as [-> Hemp].
    rewrite (items_nil enc wf val Hne _ _ _ Hw) in Hemp. apply bool_decide_eq_true in Hemp. by destruct (Hnil eq_refl). }
  unfold mbind, M_bind, on_sub, lift. cbn [app].
  split.
  - destruct (while_more step acc (rd pre s post)) as [[a r]| |] eqn:E; [|done..]. cbn. rewrite Hk.
    destruct (g a) eqn:Hg; [done|]. intros [= <- <-].
    apply (while_more_spec step enc wf val Hstep Hne) in E as (xs & Hw & -> & -> & _); [|done]. exists xs. split_and!; try done.
    intros -> ->. by rewrite bool_decide_true in Hemp.
  - intros (xs & (Hw & Hlen & Hnil & Hg) & -> & -> & ->).
    rewrite (proj2 (while_more_spec step enc wf val Hstep Hne pre acc post _ (items_val enc val pre acc xs) (rd (pre ++ concat (enc <$> xs)) [] post) Hs));
      [|by exists xs]. cbn. by rewrite Hk, Hg.
Qed.
End List.

(** A list in a counted prefix of the region. *)
Lemma whole_sublist {A B X Y} (step : A -> P A) acc (enc : X -> list byte) wf val (k : A -> P B) (e2 : list X -> Y -> list byte) w2 v2 pre n :
  (forall pre acc, parses_last pre (step acc) enc (wf acc) (val pre acc)) -> (forall acc l x, wf acc l x -> enc x <> []) ->
  0 <= n <= 65535 ->
  (forall xs, items_wf enc wf val pre acc xs ->
     whole_at (pre ++ concat (enc <$> xs)) (k (items_val enc val pre acc xs)) (e2 xs) (w2 xs) (v2 xs)) ->
  whole_at pre (sub ← read_subreader n; '(v, _) ← on_sub sub (while_more step acc); k v)
    (fun '(xs, y) => concat (enc <$> xs) ++ e2 xs y)
    (fun '(xs, y) => items_wf enc wf val pre acc xs /\ len (concat (enc <$> xs)) = n /\ w2 xs y) (fun '(xs, y) => v2 xs y).
Proof.
  intros Hstep Hne Hn Hk post s v r' Hs. unfold mbind, M_bind. rewrite read_subreader_view by (done || lia).
  destruct (Z.ltb_spec (len s) n) as [Hl|Hl].
  { split; [done|]. intros ([xs y] & (_ & Hlen & _) & -> & _). autorewrite with lens in Hl. pose proof (len_nonneg (e2 xs y)). lia. }
  unfold on_sub, lift.
  assert (Hs' : small (pre ++ take (Z.to_nat n) s ++ drop (Z.to_nat n) s ++ post)) by (by rewrite (app_assoc (take _ s)), take_drop).
  split.
  - destruct (while_more step acc (rd pre (take _ s) _)) as [[a r]| |] eqn:E; [|done..]. cbn.
    apply (while_more_spec step enc wf val Hstep Hne) in E as (xs & Hw & Ht & -> & _); [|done]. intros H.
    rewrite Ht in Hs', H. apply (Hk xs Hw) in H as (y & Hy & Hd & -> & ->); [|by rewrite <- app_assoc].
    exists (xs, y). split_and!; [done| |done| |done|].
    + rewrite <- Ht. slen.
    + by rewrite <- (take_drop (Z.to_nat n) s), Ht, Hd.
    + by rewrite <- Ht, <- app_assoc, take_drop.
  - intros ([xs y] & (Hw & Hlen & Hy) & -> & -> & ->). destruct (take_exact (concat (enc <$> xs)) (e2 xs y) n Hlen) as [Ht Hd].
    rewrite Ht, Hd in *. rewrite (proj2 (while_more_spec step enc wf val Hstep Hne pre acc _ _ (items_val enc val pre acc xs) (rd (pre ++ concat (enc <$> xs)) [] (e2 xs y ++ post)) Hs'));
      [|by exists xs]. cbn. apply (Hk xs Hw); [by rewrite <- app_assoc|]. exists y. by rewrite <- app_assoc.
Qed.

(** A declared length that must be the length of the rest of the region. *)
Lemma whole_declared {A X} pre n err (k : P A) (enc : X -> list byte) wf val :
  whole_at pre k enc wf val ->
  whole_at pre (r ← get_state; return! err when negb (n =? remaining r); k) enc (fun x => len (enc x) = n /\ wf x) val.
Proof.
  intros Hk post s v r' Hs. rewrite (M_bind_step _ _ _ (rd pre s post) (rd pre s post)) by done.
  unfold mbind, M_bind, return_if, lift. rewrite rd_remaining. destruct (Z.eqb_spec n (len s)) as [->|Hn]; cbn.
  - rewrite (Hk post s v r' Hs). split; intros (x & Hx); exists x; naive_solver.
  - split; [done|]. intros (x & [Hl _] & -> & _). lia.
Qed.

(** Something that may be absent. *)
Lemma whole_opt {A B X} pre (d : A) (p : P A) (f : A -> B) (enc : X -> list byte) wf val :
  whole_at pre p enc wf val -> (forall x, wf x -> enc x <> []) ->
  whole_at pre (none ← reader_empty; a ← (if (none : bool) then mret d else p); mret (f a))
    (from_option enc []) (from_option wf True) (fun o => f (from_option val d o)).
Proof.
  intros Hp Hne post s v r' Hs. rewrite (M_bind_step _ _ _ _ _ (reader_empty_view _ _ _)). case_bool_decide as He.
  - subst s. cbn. split.
    + intros [= <- <-]. exists None. by rewrite app_nil_r.
    + intros ([x|] & Hw & He & -> & ->); [by apply Hne in Hw|]. by rewrite app_nil_r.
  - rewrite (whole_map pre p f enc wf val Hp post s v r' Hs). split.
    + intros (x & Hx). by exists (Some x).
    + intros ([x|] & Hx); [by exists x|]. naive_solver.
Qed.

(** Conversions between the running conditions of a loop and lists. *)
Lemma items_wf_count {A X} (enc : X -> list byte) (wf : A -> bool -> X -> Prop) val (size : A -> Z) N (Q : X -> Prop) :
  (forall acc l x, wf acc l x <-> size acc < N /\ Q x) -> (forall pre acc x, size (val pre acc x) = size acc + 1) ->
  forall xs pre acc, size acc <= N ->
  (items_wf enc wf val pre acc xs <-> Forall Q xs /\ size acc + len xs <= N).
Proof.
  intros Hw Hv. induction xs as [|x xs IH]; intros pre acc Ha; cbn [items_wf].
  - rewrite len_nil. split; [|done]. split; [constructor|lia].
  - rewrite Hw, Forall_cons, len_cons. pose proof (len_nonneg xs). split.
    + intros [[Hlt Hq] Hi]. apply IH in Hi; rewrite Hv in *; [|lia..]. destruct Hi. split; [done|lia].
    + intros [[Hq Hqs] Hl]. split; [split; [lia|done]|]. apply IH; rewrite ?Hv; [lia|]. split; [done|lia].
Qed.

Lemma items_wf_forall {A X} (enc : X -> list byte) (wf : A -> bool -> X -> Prop) val (Q : X -> Prop) :
  (forall acc l x, wf acc l x <-> Q x) -> forall xs pre acc, items_wf enc wf val pre acc xs <-> Forall Q xs.
Proof.
  intros Hw. induction xs as [|x xs IH]; intros pre acc; cbn [items_wf]; [split; [constructor|done]|].
  by rewrite Hw, IH, Forall_cons.
Qed.

(** ** No panic *)

(** The parser does not panic, its value satisfies [Q] and it leaves the
    reader in its region. *)
Definition quiet {A} (p : P A) (Q : A -> Prop) : Prop := forall pre s post, small (pre ++ s ++ post) ->
  match p (rd pre s post) with
  | Ok (v, r) => Q v /\ exists used rest, s = used ++ rest /\ r = rd (pre ++ used) rest post
  | Err _ => True
  | Panic => False
  end.

Definition is_rd (r : Reader) : Prop := exists pre s post, small (pre ++ s ++ post) /\ r = rd pre s post.

Lemma quiet_ret {A} (a : A) (Q : A -> Prop) : Q a -> quiet (mret a) Q.
Proof. intros Ha pre s post _. split; [done|]. exists [], s. by rewrite app_nil_r. Qed.

Lemma quiet_throw {A} e (Q : A -> Prop) : quiet (throw e) Q.
Proof. by intros pre s post _. Qed.

Lemma quiet_bind {A B} (p : P A) (f : A -> P B) Q R : quiet p Q -> (forall a, Q a -> quiet (f a) R) -> quiet (p ≫= f) R.
Proof.
  intros Hp Hf pre s post Hs. unfold mbind, M_bind. specialize (Hp pre s post Hs).
  destruct (p (rd pre s post)) as [[a r]| |]; [|done..]. destruct Hp as (Ha & used & rest & -> & ->).
  specialize (Hf a Ha (pre ++ used) rest post). rewrite <- !app_assoc in Hf. rewrite <- app_assoc in Hs. specialize (Hf Hs).
  destruct (f a _) as [[b r]| |]; [|done..]. destruct Hf as (Hb & u2 & rest2 & -> & ->). split; [done|].
  exists (used ++ u2), rest2. by rewrite !app_assoc.
Qed.

Lemma quiet_guard {A} b e (k : unit -> P A) Q : quiet (k tt) Q -> quiet (u ← return_if b e; k u) Q.
Proof.
  intros Hk. eapply (quiet_bind _ _ (fun _ => True)); [|by intros [] _]. intros pre s post Hs.
  unfold return_if, lift. destruct b; cbn; [done|]. split; [done|]. exists [], s. by rewrite app_nil_r.
Qed.

Lemma quiet_if {A} (b : bool) (p q : P A) Q : quiet p Q -> quiet q Q -> quiet (if b then p else q) Q.
Proof. by destruct b. Qed.

Lemma quiet_sub {A} (sub : Reader) (p : P A) Q : is_rd sub -> quiet p Q -> quiet (on_sub sub p) (fun '(v, _) => Q v).
Proof.
  intros (pre & s & post & Hs & ->) Hp pre' s' post' _. unfold on_sub, lift. specialize (Hp pre s post Hs).
  destruct (p _) as [[a r]| |]; [|done..]. destruct Hp as [Ha _]. split; [done|]. exists [], s'. by rewrite app_nil_r.
Qed.
Lemma quiet_range n : 0 <= n <= 16777216 -> quiet (read_range n) (fun _ => True).
Proof.
  intros Hn pre s post Hs. rewrite read_range_view by done. destruct (_ <? _); [done|]. split; [done|].
  eexists _, _. by rewrite take_drop.
Qed.

Lemma quiet_bytes_read n : 0 <= n <= 16777216 -> quiet (read_bytes n) (fun _ => True).
Proof.
  intros Hn pre s post Hs. rewrite read_bytes_view by done. destruct (_ <? _); [done|]. split; [done|].
  eexists _, _. by rewrite take_drop.
Qed.

Lemma quiet_subreader n : 0 <= n <= 16777216 -> quiet (read_subreader n) is_rd.
Proof.
  intros Hn pre s post Hs. rewrite read_subreader_view by done. destruct (_ <? _); [done|]. split; [|eexists _, _; by rewrite take_drop].
  eexists _, _, _. split; [|done]. by rewrite (app_assoc (take _ s)), take_drop.
Qed.

Lemma quiet_empty : quiet reader_empty (fun _ => True).
Proof. intros pre s post _. rewrite reader_empty_view. split; [done|]. exists [], s. by rewrite app_nil_r. Qed.

Lemma quiet_get_range r : quiet (bytes r) (fun _ => True).
Proof.
  intros pre s post _. unfold bytes. destruct (get_range _ _ _); [|done]. split; [done|]. exists [], s. by rewrite app_nil_r.
Qed.

Lemma quiet_state : quiet get_state (fun _ => True).
Proof. intros pre s post _. split; [done|]. exists [], s. by rewrite app_nil_r. Qed.

Lemma quiet_u8 : quiet read_u8 (fun _ => True).
Proof.
  unfold read_u8. eapply quiet_bind; [apply quiet_bytes_read; lia|]. intros [|x b] _; [apply quiet_throw|by apply quiet_ret].
Qed.

Lemma quiet_skip : quiet skip_remaining (fun _ => True).
Proof.
  intros pre s post _. unfold skip_remaining, get_state, put_state, mbind, M_bind, rd. cbn [rd_input rd_end]. split; [done|].
  exists s, []. rewrite app_nil_r. split; [done|]. rewrite <- app_assoc, len_app, len_nil. f_equal. lia.
Qed.

(** A parser related to an encoder, when it does not panic. *)
Lemma quiet_parses {A X} (p : P A) (enc : X -> list byte) wf val (Q : A -> Prop) :
  (forall pre, parses_at pre p enc wf val) -> (forall x, wf x -> Q (val x)) ->
  (forall pre s post, small (pre ++ s ++ post) -> p (rd pre s post) <> Panic) -> quiet p Q.
Proof.
  intros Hp Hq Hn pre s post Hs. specialize (Hn pre s post Hs). destruct (p (rd pre s post)) as [[v r]| |] eqn:E; [|done..].
  apply Hp in E as (x & rest & Hw & -> & -> & ->); [|done]. split; [by apply Hq|]. by eexists _, _.
Qed.

Lemma quiet_u16 : quiet read_u16 (fun n => 0 <= n <= 65535).
Proof.
  apply (quiet_parses _ (to_be 2) u16_range (fun z => z)); [apply parses_u16|done|].
  intros pre s post Hs. unfold read_u16, mbind, M_bind. rewrite read_bytes_view by (done || lia).
  destruct (_ <? _); [done|]. cbn. by destruct (negb _).
Qed.

Lemma quiet_u24 : quiet read_u24 (fun n => 0 <= n <= 16777216).
Proof.
  apply (quiet_parses _ (to_be 3) (fun z => 0 <= z < 16777216) (fun z => z)); [apply parses_u24|intros; lia|].
  intros pre s post Hs. unfold read_u24, mbind, M_bind. rewrite read_bytes_view by (done || lia).
  destruct (_ <? _); [done|]. cbn. by destruct (negb _).
Qed.

(** A loop whose steps read at least one byte ends within its fuel. *)
Lemma quiet_while {A X} (step : A -> P A) acc (enc : X -> list byte) wf val :
  (forall pre acc, parses_last pre (step acc) enc (wf acc) (val pre acc)) -> (forall acc l x, wf acc l x -> enc x <> []) ->
  (forall acc, quiet (step acc) (fun _ => True)) -> quiet (while_more step acc) (fun _ => True).
Proof.
  intros Hstep Hne Hq. enough (HL : forall fuel pre acc post s, (length s < fuel)%nat -> small (pre ++ s ++ post) ->
    more_loop fuel step acc (rd pre s post) <> Panic).
  { intros pre s post Hs. destruct (while_more step acc (rd pre s post)) as [[v r]| |] eqn:E; [|done|].
    - split; [done|]. apply (while_more_spec step enc wf val Hstep Hne) in E as (xs & _ & _ & _ & ->); [|done].
      exists s, []. by rewrite app_nil_r.
    - revert E. unfold while_more, mbind, M_bind. cbn [get_state]. rewrite rd_remaining. apply HL; [unfold len; lia|done]. }
  clear acc. induction fuel as [|fuel IH]; intros pre acc post s Hf Hs; [lia|]. cbn [more_loop].
  rewrite (M_bind_step _ _ _ _ _ (reader_empty_view _ _ _)). case_bool_decide; [done|]. unfold mbind, M_bind.
  specialize (Hq acc pre s post Hs). destruct (step acc (rd pre s post)) as [[a r]| |] eqn:E; [|done..].
  apply Hstep in E as (x & rest & Hw & -> & -> & ->); [|done]. apply Hne in Hw. rewrite length_app in Hf.
  assert ((0 < length (enc x))%nat) by (destruct (enc x); [done|cbn; lia]).
  apply IH; [lia|]. by rewrite <- !app_assoc in *.
Qed.
