(* ===== verification/HelloExact.v ===== *)
(** * The accepted ClientHello messages

    Abstract ClientHello messages ([AbsHello]), their reference encoding and
    the theorem that [ClientHello.parse_message] accepts exactly the encodings
    of well-formed ones, with every accessor returning the encoded field. *)

From S2P Require Import Prelude Cursor ClientHello HelloSpec.
#[local] Open Scope Z_scope.

(** ** Abstract messages and their encoding *)

Definition vec8 (b : list byte) : list byte := as_u8 (len b) :: b.
Definition vec16 (b : list byte) : list byte := to_be 2 (len b) ++ b.

Inductive Ext :=
| ENames (names : list (byte * list byte))
| EVersions (versions : list Z)
| EShares (shares : list (Z * list byte))
| EAlpn (protocols : list (list byte))
| EPsk (identities : list (list byte * list byte)) (binders : list (list byte))
| EOther (t : Z) (body : list byte).

Definition enc_name (x : byte * list byte) : list byte := x.1 :: vec16 x.2.
Definition enc_share (x : Z * list byte) : list byte := to_be 2 x.1 ++ vec16 x.2.
Definition enc_identity (x : list byte * list byte) : list byte := vec16 x.1 ++ x.2.

Definition ext_type (e : Ext) : Z :=
  match e with
  | ENames _ => EXT_SERVER_NAME | EVersions _ => EXT_SUPPORTED_VERSIONS | EShares _ => EXT_KEY_SHARE
  | EAlpn _ => EXT_ALPN | EPsk _ _ => EXT_PRE_SHARED_KEY | EOther t _ => t
  end.

Definition ext_body (e : Ext) : list byte :=
  match e with
  | ENames l => vec16 (concat (enc_name <$> l))
  | EVersions l => vec8 (concat (to_be 2 <$> l))
  | EShares l => vec16 (concat (enc_share <$> l))
  | EAlpn l => vec16 (concat (vec8 <$> l))
  | EPsk ids bs => vec16 (concat (enc_identity <$> ids)) ++ vec16 (concat (vec8 <$> bs))
  | EOther _ b => b
  end.

Definition enc_ext (e : Ext) : list byte := to_be 2 (ext_type e) ++ vec16 (ext_body e).

(** A host name: 1 to 253 ASCII bytes without NUL. *)
Definition host_name_ok (b : list byte) : Prop := 1 <= len b <= 253 /\ is_ascii b = true /\ contains_nul b = false.

Definition known_type (t : Z) : Prop :=
  t = EXT_SERVER_NAME \/ t = EXT_SUPPORTED_VERSIONS \/ t = EXT_KEY_SHARE \/ t = EXT_ALPN \/ t = EXT_PRE_SHARED_KEY.

(** The names of type 0. *)
Definition host_names (l : list (byte * list byte)) : list (list byte) :=
  snd <$> filter (fun x => x.1 = x00) l.

Definition fits16 {A} (enc : A -> list byte) (l : list A) : Prop := l <> [] /\ len (concat (enc <$> l)) <= U16_MAX.

Definition body_wf (e : Ext) : Prop :=
  match e with
  | ENames l => fits16 enc_name l /\ (length (host_names l) <= 1)%nat /\ Forall host_name_ok (host_names l)
  | EVersions l => l <> [] /\ len l <= 127 /\ Forall u16_range l
  | EShares l => fits16 enc_share l /\ len l <= MAX_KEY_SHARES /\ Forall (fun x => u16_range x.1 /\ x.2 <> []) l
  | EAlpn l => fits16 vec8 l /\ len l <= MAX_ALPN_PROTOCOLS /\ Forall (fun x => x <> [] /\ len x <= U8_MAX) l
  | EPsk ids bs =>
    fits16 enc_identity ids /\ len ids <= MAX_PSK_IDENTITIES /\ Forall (fun x => x.1 <> [] /\ len x.2 = 4) ids /\
    length bs = length ids /\ Forall (fun x => 32 <= len x <= U8_MAX) bs /\ len (concat (vec8 <$> bs)) <= U16_MAX
  | EOther t _ => u16_range t /\ ~ known_type t
  end.

Definition ext_wf (e : Ext) : Prop := body_wf e /\ len (ext_body e) <= U16_MAX.

Record AbsHello := {
  a_legacy_version : Z; a_random : list byte; a_session_id : list byte; a_ciphers : list Z;
  a_compression : list byte; a_extensions : option (list Ext);
}.

Definition enc_body (a : AbsHello) : list byte :=
  to_be 2 (a_legacy_version a) ++ a_random a ++ vec8 (a_session_id a) ++
  vec16 (concat (to_be 2 <$> a_ciphers a)) ++ vec8 (a_compression a) ++
  match a_extensions a with None => [] | Some l => vec16 (concat (enc_ext <$> l)) end.

Definition enc_hello (a : AbsHello) : list byte := HANDSHAKE_TYPE_CLIENT_HELLO :: to_be 3 (len (enc_body a)) ++ enc_body a.

Definition is_psk (e : Ext) : bool := match e with EPsk _ _ => true | _ => false end.

(** Types are distinct and a pre-shared key comes last. *)
Definition exts_wf (l : list Ext) : Prop :=
  Forall ext_wf l /\ NoDup (ext_type <$> l) /\ len l <= MAX_EXTENSIONS /\
  len (concat (enc_ext <$> l)) <= U16_MAX /\ (forall i e, l !! i = Some e -> is_psk e = true -> S i = length l).

Definition hello_wf (a : AbsHello) : Prop :=
  u16_range (a_legacy_version a) /\ len (a_random a) = 32 /\ len (a_session_id a) <= SESSION_ID_LEN /\
  a_ciphers a <> [] /\ Forall u16_range (a_ciphers a) /\ 2 * len (a_ciphers a) <= U16_MAX /\
  1 <= len (a_compression a) <= U8_MAX /\ from_option exts_wf True (a_extensions a) /\
  len (enc_hello a) <= MAX_CLIENT_HELLO_BYTES.

(** ** More parser lemmas *)

Lemma parses_if {A X} pre (b : bool) (p q : P A) (enc : X -> list byte) w1 w2 v1 v2 :
  parses_at pre p enc w1 v1 -> parses_at pre q enc w2 v2 ->
  parses_at pre (if b then p else q) enc (fun x => if b then w1 x else w2 x) (fun x => if b then v1 x else v2 x).
Proof. by destruct b. Qed.

(** Reading back a range just consumed. *)
Lemma parses_reread p b n :
  len b = n -> parses_at (p ++ b) (bytes (len p, len p + n)) (fun _ : unit => []) (fun _ => True) (fun _ => b).
Proof.
  intros <- post s v r' _.
  rewrite (bytes_view (p ++ b) s post p (b ++ s ++ post)) by (rewrite ?app_assoc; done || slen).
  rewrite (proj1 (take_exact b (s ++ post) (len b) eq_refl)). split.
  - intros [= <- <-]. exists tt, s. by rewrite app_nil_r.
  - intros (_ & rest & _ & -> & -> & ->). by rewrite app_nil_r.
Qed.

(** A length byte and that many bytes; a length of two bytes. *)
Lemma vec8_head b c : u8 b = len c -> vec8 c = b :: c.
Proof. intros H. unfold vec8. by rewrite <- H, as_u8_u8. Qed.

Lemma len_vec16 b : len (vec16 b) = 2 + len b.
Proof. unfold vec16. autorewrite with lens. lia. Qed.
Lemma len_vec8 b : len (vec8 b) = 1 + len b.
Proof. unfold vec8. autorewrite with lens. lia. Qed.
#[export] Hint Rewrite len_vec16 len_vec8 : lens.

Ltac p_bind H := eapply parses_bind; [apply H|intros; cbv beta].

Lemma host_name_check b :
  (len b =? 0) || (253 <? len b) || negb (is_ascii b) || contains_nul b = false <-> host_name_ok b.
Proof. unfold host_name_ok. rewrite !orb_false_iff, negb_false_iff. assert (0 <= len b) by (unfold len; lia). intuition lia. Qed.

Lemma host_part_parses p b n (acc : option Range) :
  len b = n ->
  parses_at (p ++ b)
    (return! ChMalformed "duplicate host name" when bool_decide (is_Some acc);
     c ← bytes (len p, len p + n);
     return! ChMalformed "server name" when (len c =? 0) || (253 <? len c) || negb (is_ascii c) || contains_nul c;
     mret (Some (len p, len p + n)))
    (fun _ : unit => []) (fun _ => acc = None /\ host_name_ok b) (fun _ => Some (len p, len p + n)).
Proof.
  intros Hb. eapply parses_iso.
  - apply parses_guard. eapply parses_bind; [by apply parses_reread|intros u _]. apply parses_guard, parses_ret.
  - intros [[] []] (Hn & _ & Hh & _). exists tt. apply host_name_check in Hh. apply bool_decide_eq_false in Hn.
    split; [|done]. split; [by destruct acc as [?|]; [destruct Hn; eexists|]|done].
  - intros [] [-> Hh]. exists (tt, tt). apply host_name_check in Hh. done.
Qed.

Lemma name_step_parses pre acc :
  parses_at pre (server_name_step acc) enc_name
    (fun x => len x.2 <= U16_MAX /\ (x.1 = x00 -> acc = None /\ host_name_ok x.2))
    (fun x => if bool_decide (x.1 = x00) then Some (len pre + 3, len pre + 3 + len x.2) else acc).
Proof.
  unfold server_name_step.
  eapply parses_iso.
  - eapply parses_bind; [apply parses_u8|intros ty _]. cbv beta.
    eapply parses_bind; [apply parses_u16|intros n Hn]. cbv beta.
    eapply parses_bind; [apply parses_range; unfold u16_range, U16_MAX in Hn; lia|intros b Hb]. cbv beta in Hb |- *.
    eapply parses_if; [by apply host_part_parses|apply parses_ret].
  - intros (ty & n & b & u) (_ & Hn & Hb & Hw). exists (ty, b). unfold u16_range in Hn. cbn [fst snd] in *. split_and!.
    + lia.
    + intros ->. by rewrite bool_decide_true in Hw.
    + unfold enc_name, vec16. cbn. by rewrite Hb, app_nil_r.
    + case_bool_decide; [|done]. do 2 f_equal; slen.
  - intros [ty b] [Hl Hw]. exists (ty, (len b, (b, tt))). cbn [fst snd] in *. pose proof (len_nonneg b). split_and!; try done.
    + case_bool_decide; [by apply Hw|done].
    + unfold enc_name, vec16. cbn. by rewrite app_nil_r.
    + case_bool_decide; [|done]. do 2 f_equal; slen.
Qed.

(** The side conditions of the list items below. *)
Ltac item_side := unfold u16_range, U16_MAX, U8_MAX in *; (done || lia || slen).

Lemma share_step_parses pre acc :
  parses_at pre (key_shares_step acc) enc_share
    (fun x => len acc < MAX_KEY_SHARES /\ u16_range x.1 /\ x.2 <> [] /\ len x.2 <= U16_MAX)
    (fun x => acc ++ [{| ks_group := x.1; ks_data := (len pre + 4, len pre + 4 + len x.2) |}]).
Proof.
  unfold key_shares_step. eapply parses_iso.
  - apply parses_guard. eapply parses_bind; [apply parses_u16|intros t Ht]. cbv beta.
    eapply parses_bind; [apply parses_u16|intros n Hn]. cbv beta. apply parses_guard.
    eapply parses_bind; [apply parses_range; item_side|intros b Hb]. apply parses_ret.
  - intros (t & n & b & u) (Hc & Ht & Hn & Hz & Hb & _). exists (t, b). cbn [fst snd]. apply Z.leb_gt in Hc. apply Z.eqb_neq in Hz.
    split_and!; try item_side.
    + intros ->. by rewrite len_nil in Hb.
    + unfold enc_share, vec16. cbn [fst snd]. by rewrite Hb, !app_nil_r.
    + subst n. do 3 f_equal. f_equal; slen.
  - intros [t b] (Hc & Ht & Hz & Hb). exists (t, (len b, (b, tt))). cbn [fst snd] in *. pose proof (len_nonneg b).
    split_and!; try item_side.
    + apply Z.eqb_neq. destruct b; [done|slen].
    + unfold enc_share, vec16. cbn [fst snd]. by rewrite !app_nil_r.
    + do 3 f_equal. f_equal; slen.
Qed.

Lemma alpn_step_parses pre acc :
  parses_at pre (alpn_step acc) vec8 (fun x => len acc < MAX_ALPN_PROTOCOLS /\ x <> [] /\ len x <= U8_MAX)
    (fun x => acc ++ [(len pre + 1, len pre + 1 + len x)]).
Proof.
  unfold alpn_step. eapply parses_iso.
  - apply parses_guard. eapply parses_bind; [apply parses_u8|intros n _]. cbv beta. apply parses_guard.
    eapply parses_bind; [apply parses_range; pose proof (u8_range n); item_side|intros b Hb]. apply parses_ret.
  - intros (n & b & u) (Hc & _ & Hz & Hb & _). exists b. apply Z.leb_gt in Hc. apply Z.eqb_neq in Hz. pose proof (u8_range n).
    split_and!; try item_side.
    + intros ->. by rewrite len_nil in Hb.
    + rewrite (vec8_head n b) by done. by rewrite app_nil_r.
    + rewrite <- Hb. do 3 f_equal; slen.
  - intros b (Hc & Hz & Hb). exists (as_u8 (len b), (b, tt)). pose proof (len_nonneg b). rewrite !u8_as_u8_small by item_side.
    split_and!; try item_side.
    + apply Z.eqb_neq. destruct b; [done|slen].
    + unfold vec8. by rewrite app_nil_r.
    + do 3 f_equal; slen.
Qed.

Lemma versions_step_parses pre acc :
  parses_at pre (versions_step acc) (to_be 2) u16_range (fun v => acc || (v =? TLS13_VERSION)).
Proof.
  unfold versions_step. eapply parses_iso.
  - eapply parses_bind; [apply parses_u16|intros v Hv]. apply parses_ret.
  - intros [v u] [Hv _]. exists v. by rewrite app_nil_r.
  - intros v Hv. exists (v, tt). by rewrite app_nil_r.
Qed.

Lemma identity_step_parses pre count :
  parses_at pre (psk_identity_step count) enc_identity
    (fun x => count < MAX_PSK_IDENTITIES /\ x.1 <> [] /\ len x.1 <= U16_MAX /\ len x.2 = 4) (fun _ => count + 1).
Proof.
  unfold psk_identity_step. eapply parses_iso.
  - apply parses_guard. eapply parses_bind; [apply parses_u16|intros n Hn]. cbv beta. apply parses_guard.
    eapply parses_bind; [apply parses_bytes; item_side|intros b Hb]. cbv beta.
    eapply parses_bind; [apply parses_bytes; lia|intros age Hage]. apply parses_ret.
  - intros (n & b & age & u) (Hc & Hn & Hz & Hb & Ha & _). exists (b, age). cbn [fst snd]. apply Z.leb_gt in Hc. apply Z.eqb_neq in Hz.
    split_and!; try item_side.
    + intros ->. by rewrite len_nil in Hb.
    + unfold enc_identity, vec16. cbn [fst snd]. by rewrite Hb, app_nil_r, <- app_assoc.
  - intros [b age] (Hc & Hz & Hb & Ha). exists (len b, (b, (age, tt))). cbn [fst snd] in *. pose proof (len_nonneg b).
    split_and!; try item_side.
    + apply Z.eqb_neq. destruct b; [done|slen].
    + unfold enc_identity, vec16. cbn [fst snd]. by rewrite app_nil_r, <- app_assoc.
Qed.

Lemma binder_step_parses pre count :
  parses_at pre (psk_binder_step count) vec8
    (fun x => count < MAX_PSK_BINDERS /\ 32 <= len x <= U8_MAX) (fun _ => count + 1).
Proof.
  unfold psk_binder_step. eapply parses_iso.
  - apply parses_guard. eapply parses_bind; [apply parses_u8|intros n _]. cbv beta. apply parses_guard.
    eapply parses_bind; [apply parses_bytes; pose proof (u8_range n); item_side|intros b Hb]. apply parses_ret.
  - intros (n & b & u) (Hc & _ & Hz & Hb & _). exists b. apply Z.leb_gt in Hc. apply Z.ltb_ge in Hz. pose proof (u8_range n).
    split_and!; try item_side. rewrite (vec8_head n b) by done. by rewrite app_nil_r.
  - intros b (Hc & Hz). exists (as_u8 (len b), (b, tt)). rewrite !u8_as_u8_small by item_side.
    split_and!; try item_side. unfold vec8. by rewrite app_nil_r.
Qed.

(** ** Extension bodies *)

(** The stored ranges of a list of items that starts at [pre]. *)
Definition names_val (pre : list byte) (acc : option Range) (x : byte * list byte) : option Range :=
  if bool_decide (x.1 = x00) then Some (len pre + 3, len pre + 3 + len x.2) else acc.
Definition share_val (pre : list byte) (acc : list KeyShareRange) (x : Z * list byte) : list KeyShareRange :=
  acc ++ [{| ks_group := x.1; ks_data := (len pre + 4, len pre + 4 + len x.2) |}].
Definition alpn_val (pre : list byte) (acc : list Range) (x : list byte) : list Range :=
  acc ++ [(len pre + 1, len pre + 1 + len x)].

Definition name_wf (acc : option Range) (_ : bool) (x : byte * list byte) : Prop :=
  len x.2 <= U16_MAX /\ (x.1 = x00 -> acc = None /\ host_name_ok x.2).
Definition share_wf (acc : list KeyShareRange) (_ : bool) (x : Z * list byte) : Prop :=
  len acc < MAX_KEY_SHARES /\ u16_range x.1 /\ x.2 <> [] /\ len x.2 <= U16_MAX.
Definition alpn_wf (acc : list Range) (_ : bool) (x : list byte) : Prop :=
  len acc < MAX_ALPN_PROTOCOLS /\ x <> [] /\ len x <= U8_MAX.

Definition names_at (pre : list byte) := items_val enc_name names_val pre None.
Definition shares_at (pre : list byte) := items_val enc_share share_val pre [].
Definition alpn_at (pre : list byte) := items_val vec8 alpn_val pre [].
Definition versions_offer (l : list Z) : bool := bool_decide (TLS13_VERSION ∈ l).

Lemma host_names_cons t b l : host_names ((t, b) :: l) = if decide (t = x00) then b :: host_names l else host_names l.
Proof. unfold host_names. rewrite filter_cons. cbn [fst]. by destruct (decide _). Qed.

Lemma names_wf_iff pre acc l :
  items_wf enc_name name_wf names_val pre acc l <->
  Forall (fun x => len x.2 <= U16_MAX) l /\ (is_Some acc -> host_names l = []) /\
  (length (host_names l) <= 1)%nat /\ Forall host_name_ok (host_names l).
Proof.
  revert pre acc. induction l as [|[t b] l IH]; intros pre acc; cbn [items_wf].
  { unfold host_names. cbn. split; [intros _|done]. split_and!; [constructor|done|lia|constructor]. }
  rewrite IH, Forall_cons, host_names_cons. unfold name_wf, names_val. cbn [fst snd].
  case_bool_decide as Ht; [subst t; rewrite decide_True by done|rewrite decide_False by done; naive_solver].
  rewrite Forall_cons. cbn [length]. split.
  - intros ((Hb & Hn) & Hl & Hs & _). destruct (Hn eq_refl) as [-> Hh].
    assert (host_names l = []) as -> by (by apply Hs). split_and!; try done.
  - intros ((Hb & Hl) & Hs & Hle & Hh & Hhs). destruct acc as [r|]; [by discriminate Hs|].
    assert (host_names l = []) as -> by (apply length_zero_iff_nil; lia). split_and!; try done. cbn. lia.
Qed.

Lemma versions_at_eq pre acc l :
  items_val (to_be 2) (fun _ acc v => acc || (v =? TLS13_VERSION)) pre acc l = acc || versions_offer l.
Proof.
  revert pre acc. induction l as [|v l IH]; intros pre acc; cbn [items_val].
  - by rewrite orb_false_r.
  - rewrite IH, <- orb_assoc. f_equal. unfold versions_offer. destruct (Z.eqb_spec v TLS13_VERSION) as [->|Hv].
    + symmetry. apply bool_decide_eq_true. left.
    + apply bool_decide_ext. rewrite elem_of_cons. naive_solver.
Qed.

Lemma concat_le {X} (enc : X -> list byte) l x : x ∈ l -> len (enc x) <= len (concat (enc <$> l)).
Proof.
  induction 1 as [x l|x y l _ IH]; cbn [concat fmap list_fmap]; autorewrite with lens;
    [pose proof (len_nonneg (concat (enc <$> l)))|pose proof (len_nonneg (enc y))]; lia.
Qed.

(** The bounds on single items follow from the bound on their list. *)
Lemma fits_items {X} (enc : X -> list byte) (f : X -> list byte) l N :
  (forall x, len (f x) <= len (enc x)) -> len (concat (enc <$> l)) <= N -> Forall (fun x => len (f x) <= N) l.
Proof. intros Hf Hl. apply Forall_forall. intros x Hx. pose proof (concat_le enc l x Hx). specialize (Hf x). lia. Qed.

Lemma names_items pre l : body_wf (ENames l) -> items_wf enc_name name_wf names_val pre None l.
Proof.
  intros ([Hne Hl] & H3 & H4). apply names_wf_iff. split_and!; try done.
  eapply fits_items; [|exact Hl]. intros x. unfold enc_name. slen.
Qed.

Lemma whole_names pre :
  whole_at pre parse_server_name (fun l => vec16 (concat (enc_name <$> l))) (fun l => body_wf (ENames l))
    (fun l => names_at (pre ++ to_be 2 (len (concat (enc_name <$> l)))) l).
Proof.
  unfold parse_server_name. eapply whole_iso.
  - eapply whole_bind; [apply parses_u16|intros n Hn]. cbv beta.
    apply (whole_list server_name_step None enc_name name_wf names_val true (fun e sub => negb e || is_empty sub)
             (ChMalformed "server name") ChTruncated (fun v => mret v) (fun _ => false) (fun v => v)); try done.
    intros p acc. apply parses_at_last, name_step_parses.
  - intros [n l] (Hn & Hw & Hl & Hne & _). apply names_wf_iff in Hw as (H1 & H2 & H3 & H4). exists l. unfold vec16. cbv beta.
    rewrite Hl. split; [|done]. split; [|done]. split; [by apply Hne|item_side].
  - intros l ([Hne Hl] & H3 & H4). exists (len (concat (enc_name <$> l)), l). pose proof (len_nonneg (concat (enc_name <$> l))).
    split_and!; try item_side. by apply names_items.
Qed.

Lemma whole_shares pre :
  whole_at pre parse_key_shares (fun l => vec16 (concat (enc_share <$> l))) (fun l => body_wf (EShares l))
    (fun l => shares_at (pre ++ to_be 2 (len (concat (enc_share <$> l)))) l).
Proof.
  pose (Q := fun x : Z * list byte => u16_range x.1 /\ x.2 <> [] /\ len x.2 <= U16_MAX).
  assert (HQ : forall pre l, items_wf enc_share share_wf share_val pre [] l <-> Forall Q l /\ 0 + len l <= MAX_KEY_SHARES).
  { intros p l. apply (items_wf_count enc_share share_wf share_val len MAX_KEY_SHARES Q); try done.
    intros. unfold share_val. slen. }
  unfold parse_key_shares. eapply whole_iso.
  - eapply whole_bind; [apply parses_u16|intros n Hn]. cbv beta.
    apply (whole_list key_shares_step [] enc_share share_wf share_val true (fun e sub => negb e || is_empty sub)
             (ChMalformed "key shares") ChTruncated (fun v => mret v) (fun _ => false) (fun v => v)); try done.
    intros p acc. apply parses_at_last, share_step_parses.
  - intros [n l] (Hn & Hw & Hl & Hne & _). apply HQ in Hw as [Hw Hc]. exists l. unfold vec16. cbv beta.
    rewrite Hl. split; [|done]. split; [split; [by apply Hne|item_side]|]. split; [done|].
    eapply Forall_impl; [exact Hw|]. by intros x (? & ? & _).
  - intros l ([Hne Hl] & Hc & Hw). exists (len (concat (enc_share <$> l)), l). pose proof (len_nonneg (concat (enc_share <$> l))).
    split_and!; try item_side. apply HQ. split; [|done].
    assert (Hf : Forall (fun x => len x.2 <= U16_MAX) l) by (eapply fits_items; [|exact Hl]; intros x; unfold enc_share; slen).
    eapply Forall_impl; [exact (proj2 (Forall_and _ _) (conj Hw Hf))|]. by intros x ((? & ?) & ?).
Qed.

Lemma whole_alpn pre :
  whole_at pre parse_alpn (fun l => vec16 (concat (vec8 <$> l))) (fun l => body_wf (EAlpn l))
    (fun l => alpn_at (pre ++ to_be 2 (len (concat (vec8 <$> l)))) l).
Proof.
  pose (Q := fun x : list byte => x <> [] /\ len x <= U8_MAX).
  assert (HQ : forall pre l, items_wf vec8 alpn_wf alpn_val pre [] l <-> Forall Q l /\ 0 + len l <= MAX_ALPN_PROTOCOLS).
  { intros p l. apply (items_wf_count vec8 alpn_wf alpn_val len MAX_ALPN_PROTOCOLS Q); try done. intros. unfold alpn_val. slen. }
  unfold parse_alpn. eapply whole_iso.
  - eapply whole_bind; [apply parses_u16|intros n Hn]. cbv beta.
    apply (whole_list alpn_step [] vec8 alpn_wf alpn_val true (fun e sub => negb e || is_empty sub)
             (ChMalformed "ALPN") ChTruncated (fun v => mret v) (fun _ => false) (fun v => v)); try done.
    intros p acc. apply parses_at_last, alpn_step_parses.
  - intros [n l] (Hn & Hw & Hl & Hne & _). apply HQ in Hw as [Hw Hc]. exists l. unfold vec16. cbv beta.
    rewrite Hl. split; [|done]. split; [split; [by apply Hne|item_side]|]. done.
  - intros l ([Hne Hl] & Hc & Hw). exists (len (concat (vec8 <$> l)), l). pose proof (len_nonneg (concat (vec8 <$> l))).
    split_and!; try item_side. by apply HQ.
Qed.

Lemma len_u16s l : len (concat (to_be 2 <$> l)) = 2 * len l.
Proof. induction l as [|v l IH]; [done|]. rewrite fmap_cons. cbn [concat]. autorewrite with lens. rewrite IH. lia. Qed.

Lemma whole_versions pre :
  whole_at pre parse_supported_versions (fun l => vec8 (concat (to_be 2 <$> l))) (fun l => body_wf (EVersions l)) versions_offer.
Proof.
  unfold parse_supported_versions. eapply whole_iso.
  - eapply whole_bind; [apply parses_u8|intros n _]. cbv beta. apply whole_guard.
    apply (whole_list versions_step false (to_be 2) (fun _ _ => u16_range) (fun _ acc v => acc || (v =? TLS13_VERSION)) false
             (fun e _ => negb e) (ChMalformed "supported versions") ChTruncated (fun v => mret v) (fun _ => false) (fun v => v)); try done.
    + intros p acc. apply parses_at_last, versions_step_parses.
    + intros e sub. by rewrite orb_false_r.
    + pose proof (u8_range n). lia.
  - intros [n l] (_ & Hn & Hw & Hl & _ & _). exists l. rewrite (items_wf_forall _ _ _ u16_range) in Hw by done.
    rewrite versions_at_eq, (vec8_head n) by done. rewrite len_u16s in Hl. pose proof (u8_range n).
    apply orb_false_iff in Hn as [Hn _]. apply Z.ltb_ge in Hn. split; [|done]. split; [|split; [lia|done]]. intros ->. change (len (@nil Z)) with 0 in Hl. lia.
  - intros l (Hne & Hl & Hw). exists (as_u8 (len (concat (to_be 2 <$> l))), l). pose proof (len_nonneg l).
    assert (0 < len l) by (destruct l; [done|slen]).
    rewrite !u8_as_u8_small, versions_at_eq by (rewrite len_u16s; unfold U8_MAX; lia). rewrite !len_u16s.
    split_and!; try done.
    + rewrite (Z.mul_comm 2), Z_mod_mult. lia.
    + by apply (items_wf_forall _ _ _ u16_range).
    + unfold vec8. by rewrite len_u16s.
Qed.

(** The number of items a counting loop has seen. *)
Lemma count_at {X} (enc : X -> list byte) pre n l : items_val enc (fun _ c _ => c + 1) pre n l = n + len l.
Proof. revert pre n. induction l as [|x l IH]; intros pre n; cbn [items_val]; [rewrite len_nil; lia|rewrite IH, len_cons; lia]. Qed.

Definition identity_ok (x : list byte * list byte) : Prop := x.1 <> [] /\ len x.1 <= U16_MAX /\ len x.2 = 4.
Definition identity_wf (c : Z) (_ : bool) (x : list byte * list byte) : Prop := c < MAX_PSK_IDENTITIES /\ identity_ok x.
Definition binder_wf (c : Z) (_ : bool) (x : list byte) : Prop := c < MAX_PSK_BINDERS /\ 32 <= len x <= U8_MAX.

Lemma identities_wf_iff pre l :
  items_wf enc_identity identity_wf (fun _ c _ => c + 1) pre 0 l <-> Forall identity_ok l /\ 0 + len l <= MAX_PSK_IDENTITIES.
Proof. by apply (items_wf_count enc_identity identity_wf (fun _ c _ => c + 1) (fun c => c) MAX_PSK_IDENTITIES identity_ok). Qed.

Lemma binders_wf_iff pre l :
  items_wf vec8 binder_wf (fun _ c _ => c + 1) pre 0 l <->
  Forall (fun x => 32 <= len x <= U8_MAX) l /\ 0 + len l <= MAX_PSK_BINDERS.
Proof. by apply (items_wf_count vec8 binder_wf (fun _ c _ => c + 1) (fun c => c) MAX_PSK_BINDERS). Qed.

Lemma len_nil_iff {A} (l : list A) : len l = 0 <-> l = [].
Proof. unfold len. destruct l; cbn; split; (done || lia). Qed.

Lemma whole_psk pre :
  whole_at pre parse_pre_shared_key
    (fun '(ids, bs) => ext_body (EPsk ids bs)) (fun '(ids, bs) => body_wf (EPsk ids bs))
    (fun _ => tt).
Proof.
  unfold parse_pre_shared_key. eapply whole_iso.
  - eapply whole_bind; [apply parses_u16|intros n Hn]. cbv beta.
    eapply (whole_sublist psk_identity_step 0 enc_identity identity_wf (fun _ c _ => c + 1)); [|done|exact Hn|].
    { intros p acc. apply parses_at_last, identity_step_parses. }
    intros ids _. rewrite count_at. eapply whole_bind; [apply parses_u16|intros m Hm]. cbv beta.
    apply (whole_list psk_binder_step 0 vec8 binder_wf (fun _ c _ => c + 1) false (fun e _ => negb e) (ChMalformed "PSK")
             (ChMalformed "PSK identity and binder count")
             (fun c => return! ChMalformed "PSK identity and binder count" when (0 + len ids =? 0) || negb (0 + len ids =? c); mret tt)
             (fun c => (0 + len ids =? 0) || negb (0 + len ids =? c)) (fun _ => tt)); try done.
    + intros p acc. apply parses_at_last, binder_step_parses.
    + intros e sub. by rewrite orb_false_r.
    + intros v r. unfold mbind, M_bind, return_if. by destruct (_ || _).
  - intros (n & ids & m & bs) (Hn & Hids & Hl & Hm & Hbs & Hl' & _ & Hg). exists (ids, bs).
    apply identities_wf_iff in Hids as [Hi Hc]. apply binders_wf_iff in Hbs as [Hb Hc'].
    rewrite count_at in Hg. apply orb_false_iff in Hg as [Hg1 Hg2]. apply Z.eqb_neq in Hg1. apply negb_false_iff, Z.eqb_eq in Hg2.
    split; [|cbn; unfold vec16; rewrite Hl, Hl'; split; [by rewrite <- ?app_assoc|done]].
    cbn. split_and!; try done; [split; [|item_side]| |unfold len in *; lia|item_side].
    + intros ->. done.
    + eapply Forall_impl; [exact Hi|]. by intros x (? & _ & ?).
  - intros [ids bs] ([Hne Hl] & Hc & Hi & Hlen & Hb & Hl').
    exists (len (concat (enc_identity <$> ids)), (ids, (len (concat (vec8 <$> bs)), bs))).
    pose proof (len_nonneg (concat (enc_identity <$> ids))). pose proof (len_nonneg (concat (vec8 <$> bs))).
    assert (Hlen' : len bs = len ids) by (unfold len; lia). rewrite count_at, Hlen'.
    split; [|split; [|done]].
    2:{ cbn. unfold vec16. by rewrite <- ?app_assoc. }
    split; [item_side|]. split; [|split; [done|split; [item_side|split; [|split; [done|split; [done|]]]]]].
    + apply identities_wf_iff. split; [|done].
      assert (Hf : Forall (fun x => len x.1 <= U16_MAX) ids)
        by (eapply fits_items; [|exact Hl]; intros x; unfold enc_identity; pose proof (len_nonneg x.2); slen).
      eapply Forall_impl; [exact (proj2 (Forall_and _ _) (conj Hi Hf))|]. by intros x ((? & ?) & ?).
    + apply binders_wf_iff. rewrite Hlen'. done.
    + rewrite Z.eqb_refl. apply orb_false_iff. split; [|done]. apply Z.eqb_neq. intros Hz. apply Hne, len_nil_iff. lia.
Qed.

(** ** One extension *)

(** What one extension whose body starts at [pre] adds to the state. *)
Definition ext_val (pre : list byte) (e : Ext) (st : ExtensionState) : ExtensionState :=
  match e with
  | ENames l => with_server_name (names_at (pre ++ to_be 2 (len (concat (enc_name <$> l)))) l) st
  | EVersions l => with_tls13 (versions_offer l) st
  | EShares l => with_key_shares (shares_at (pre ++ to_be 2 (len (concat (enc_share <$> l)))) l) st
  | EAlpn l => with_alpn (alpn_at (pre ++ to_be 2 (len (concat (vec8 <$> l)))) l) st
  | EPsk _ _ => with_psk st
  | EOther _ _ => st
  end.

Lemma skip_view pre s post : skip_remaining (rd pre s post) = Ok (tt, rd (pre ++ s) [] post).
Proof.
  unfold skip_remaining, get_state, put_state, mbind, M_bind, rd. cbn [rd_input rd_end]. rewrite <- app_assoc, len_app, len_nil.
  do 3 f_equal. lia.
Qed.

Lemma whole_skip {A} pre (a : A) : whole_at pre (_ ← skip_remaining; mret a) (fun b : list byte => b) (fun _ => True) (fun _ => a).
Proof.
  intros post s v r' _. rewrite (M_bind_step _ _ _ _ _ (skip_view _ _ _)). split.
  - intros [= <- <-]. by exists s.
  - by intros (b & _ & -> & -> & ->).
Qed.

Lemma whole_body pre t last st :
  u16_range t ->
  whole_at pre (parse_extension_body t last st) ext_body
    (fun e => ext_type e = t /\ body_wf e /\ (is_psk e = true -> last = true)) (fun e => ext_val pre e st).
Proof.
  intros Ht. unfold parse_extension_body.
  destruct (Z.eqb_spec t EXT_SERVER_NAME) as [->|H0].
  { eapply whole_iso; [apply (whole_map _ _ (fun n => with_server_name n st)), whole_names| |].
    - intros l Hl. by exists (ENames l).
    - intros [l|l|l|l|ids bs|t b] (Ht' & Hw & _); try discriminate Ht'; [by exists l|]. destruct Hw as [_ []]. by left. }
  destruct (Z.eqb_spec t EXT_SUPPORTED_VERSIONS) as [->|H1].
  { eapply whole_iso; [apply (whole_map _ _ (fun n => with_tls13 n st)), whole_versions| |].
    - intros l Hl. by exists (EVersions l).
    - intros [l|l|l|l|ids bs|t b] (Ht' & Hw & _); try discriminate Ht'; [by exists l|]. destruct Hw as [_ []]. by right; left. }
  destruct (Z.eqb_spec t EXT_KEY_SHARE) as [->|H2].
  { eapply whole_iso; [apply (whole_map _ _ (fun n => with_key_shares n st)), whole_shares| |].
    - intros l Hl. by exists (EShares l).
    - intros [l|l|l|l|ids bs|t b] (Ht' & Hw & _); try discriminate Ht'; [by exists l|]. destruct Hw as [_ []]. by do 2 right; left. }
  destruct (Z.eqb_spec t EXT_ALPN) as [->|H3].
  { eapply whole_iso; [apply (whole_map _ _ (fun n => with_alpn n st)), whole_alpn| |].
    - intros l Hl. by exists (EAlpn l).
    - intros [l|l|l|l|ids bs|t b] (Ht' & Hw & _); try discriminate Ht'; [by exists l|]. destruct Hw as [_ []]. by do 3 right; left. }
  destruct (Z.eqb_spec t EXT_PRE_SHARED_KEY) as [->|H4].
  { eapply whole_iso; [eapply whole_guard, (whole_map _ _ (fun _ => with_psk st)), whole_psk| |].
    - intros [ids bs] [Hl Hb]. apply negb_false_iff in Hl. by exists (EPsk ids bs).
    - intros [l|l|l|l|ids bs|t b] (Ht' & Hw & Hl); try discriminate Ht'; [|destruct Hw as [_ []]; by do 4 right].
      exists (ids, bs). by rewrite Hl. }
  eapply whole_iso; [apply whole_skip| |].
  - intros b _. exists (EOther t b). split_and!; try done. cbn. unfold known_type. split; [done|]. tauto.
  - intros [l|l|l|l|ids bs|t' b] (Ht' & Hw & _); try (by destruct (eq_sym Ht')); [..|by exists b]; cbn in Ht'; congruence.
Qed.

(** An extension at its position in the list. *)
Definition ext_item_wf (st : ExtensionState) (last : bool) (e : Ext) : Prop :=
  len (seen st) < MAX_EXTENSIONS /\ ext_type e ∉ seen st /\ ext_wf e /\ (is_psk e = true -> last = true).
Definition ext_item_val (pre : list byte) (st : ExtensionState) (e : Ext) : ExtensionState :=
  ext_val (pre ++ to_be 2 (ext_type e) ++ to_be 2 (len (ext_body e))) e (push_seen (ext_type e) st).

Lemma ext_type_u16 e : body_wf e -> u16_range (ext_type e).
Proof. destruct e; [intros _; split; vm_compute; done..|]. by intros [? _]. Qed.

(** The sub-reader of one extension. *)
Lemma sub_body_parses pre t n st :
  u16_range t -> 0 <= n <= 65535 ->
  parses_last pre (ext ← read_subreader n; last ← reader_empty;
      '(st, ext) ← on_sub ext (parse_extension_body t last st);
      return! ChMalformed "extension length" when negb (is_empty ext); mret st)
    ext_body (fun last e => ext_type e = t /\ body_wf e /\ (is_psk e = true -> last = true) /\ len (ext_body e) = n)
    (fun e => ext_val pre e st).
Proof.
  intros Ht Hn post s v r' Hs. unfold mbind, M_bind. rewrite read_subreader_view by (done || lia).
  destruct (Z.ltb_spec (len s) n) as [Hl|Hl].
  { split; [done|]. intros (e & rest & (_ & _ & _ & Hlen) & -> & _). autorewrite with lens in Hl. pose proof (len_nonneg rest). lia. }
  rewrite reader_empty_view. unfold on_sub, lift.
  assert (Hs' : small (pre ++ take (Z.to_nat n) s ++ drop (Z.to_nat n) s ++ post)) by (by rewrite (app_assoc (take _ s)), take_drop).
  split.
  - destruct (parse_extension_body t _ st _) as [[st' r]| |] eqn:E; [|done..]. cbn.
    apply (whole_body pre t _ st Ht) in E as (e & (He & Hw & Hp) & Hs1 & -> & ->); [|done].
    rewrite rd_empty. cbn. intros [= <- <-]. exists e, (drop (Z.to_nat n) s). rewrite <- Hs1, take_drop.
    split_and!; try done. slen.
  - intros (e & rest & (He & Hw & Hp & Hlen) & -> & -> & ->). destruct (take_exact (ext_body e) rest n Hlen) as [Htk Hd].
    rewrite Htk, Hd in *. cbn.
    rewrite (proj2 (whole_body pre t (bool_decide (rest = [])) st Ht (rest ++ post) (ext_body e) (ext_val pre e st) (rd (pre ++ ext_body e) [] (rest ++ post)) Hs'));
      [|by exists e]. cbn. by rewrite rd_empty.
Qed.

Lemma ext_step_parses pre st : parses_last pre (extension_step st) enc_ext (ext_item_wf st) (ext_item_val pre st).
Proof.
  unfold extension_step. eapply last_iso.
  - apply last_guard. eapply last_bind; [apply parses_u16|intros t Ht]. cbv beta zeta. apply last_guard.
    eapply last_bind; [apply parses_u16|intros n Hn]. cbv beta. apply sub_body_parses; [done|exact Hn].
  - intros l (t & n & e) (Hc & Ht & Hs & Hn & He & Hw & Hp & Hl). apply Z.leb_gt in Hc. apply bool_decide_eq_false in Hs. subst t.
    exists e. split_and!; try done.
    + split_and!; try done. split; [done|item_side].
    + unfold enc_ext, vec16. by rewrite Hl.
    + unfold ext_item_val. by rewrite Hl, app_assoc.
  - intros l e (Hc & Hs & [Hw Hl] & Hp). exists (ext_type e, (len (ext_body e), e)). pose proof (len_nonneg (ext_body e)).
    split_and!; try done.
    + by apply Z.leb_gt.
    + by apply ext_type_u16.
    + by apply bool_decide_eq_false.
    + unfold ext_item_val. by rewrite app_assoc.
Qed.

(** ** The list of extensions *)

Definition exts_at (pre : list byte) : list Ext -> ExtensionState := items_val enc_ext ext_item_val pre default_state.

Lemma ext_val_seen pre e st : seen (ext_val pre e st) = seen st.
Proof. by destruct e. Qed.

Lemma exts_items_iff l : forall pre st,
  NoDup (seen st) ->
  (items_wf enc_ext ext_item_wf ext_item_val pre st l <->
   Forall ext_wf l /\ NoDup (seen st ++ (ext_type <$> l)) /\ (l <> [] -> len (seen st) + len l <= MAX_EXTENSIONS) /\
   (forall i e, l !! i = Some e -> is_psk e = true -> S i = length l)).
Proof.
  induction l as [|e l IH]; intros pre st Hnd; cbn [items_wf].
  { rewrite app_nil_r. split; [|done]. intros _. split_and!; [constructor|done|done|]. intros [|i] e He; by discriminate He. }
  assert (Hseen : seen (ext_item_val pre st e) = seen st ++ [ext_type e]) by (unfold ext_item_val; by rewrite ext_val_seen).
  rewrite fmap_cons, Forall_cons, len_cons. change (seen st ++ ext_type e :: (ext_type <$> l)) with (seen st ++ [ext_type e] ++ (ext_type <$> l)).
  rewrite app_assoc. split.
  - intros [(Hc & Hs & Hw & Hp) Hi].
    apply IH in Hi as (Hf & Hd & Hl & Hpl); [|rewrite Hseen; apply NoDup_app; split_and!; [done| |apply NoDup_singleton]; intros x Hx; rewrite elem_of_cons, elem_of_nil; by intros [->|[]]].
    rewrite Hseen in Hd, Hl. split_and!; try done.
    + intros _. destruct l as [|e' l]; [change (len (@nil Ext)) with 0; lia|]. assert (e' :: l <> []) as Hne by done. apply Hl in Hne.
      autorewrite with lens in Hne |- *. lia.
    + intros [|i] e' He Hk; cbn in He; [injection He as <-|].
      * specialize (Hp Hk). apply bool_decide_eq_true in Hp. by subst l.
      * cbn [length]. f_equal. by eapply Hpl.
  - intros ([Hw Hf] & Hd & Hl & Hp). pose proof (len_nonneg l). assert (Hne : e :: l <> []) by done. specialize (Hl Hne).
    assert (Hd1 : NoDup (seen st ++ [ext_type e])) by (by apply NoDup_app in Hd as (? & _)).
    split; [unfold ext_item_wf; split_and!; [lia| |apply Hw..|]|apply IH; rewrite Hseen; [done|split_and!; [done|done| |]]].
    + apply NoDup_app in Hd1 as (_ & Hx & _). intros Hin. eapply Hx; [exact Hin|]. left.
    + intros Hk. apply bool_decide_eq_true. specialize (Hp 0%nat e eq_refl Hk). cbn in Hp. by destruct l.
    + intros _. autorewrite with lens. lia.
    + intros i e' He Hk. specialize (Hp (S i) e' He Hk). cbn in Hp. lia.
Qed.

Lemma whole_exts pre n :
  0 <= n <= 65535 ->
  whole_at pre (exts ← read_subreader n; e ← reader_empty; return! ChLengthMismatch when negb e;
      '(st, _) ← on_sub exts (parse_extensions default_state); mret st)
    (fun l => concat (enc_ext <$> l)) (fun l => exts_wf l /\ len (concat (enc_ext <$> l)) = n) (exts_at pre).
Proof.
  intros Hn. eapply whole_iso.
  - apply (whole_list extension_step default_state enc_ext ext_item_wf ext_item_val false (fun e _ => negb e) ChLengthMismatch
             ChTruncated (fun v => mret v) (fun _ => false) (fun v => v)); try done.
    + intros p acc. apply ext_step_parses.
    + intros e sub. by rewrite orb_false_r.
  - intros l (Hw & Hl & _). exists l. apply exts_items_iff in Hw as (H1 & H2 & H3 & H4); [|constructor].
    split; [|done]. split; [|done]. split_and!; try done; [|unfold U16_MAX; lia].
    destruct l as [|e l]; [done|]. apply H3. done.
  - intros l ((H1 & H2 & H3 & H4 & H5) & Hl). exists l. split; [|done]. split; [|done]. apply exts_items_iff; [constructor|]. done.
Qed.

(** ** The whole message *)

(** What comes before the extensions. *)
Definition fixed_part (a : AbsHello) : list byte :=
  to_be 2 (a_legacy_version a) ++ a_random a ++ vec8 (a_session_id a) ++
  vec16 (concat (to_be 2 <$> a_ciphers a)) ++ vec8 (a_compression a).
Definition enc_exts (l : list Ext) : list byte := vec16 (concat (enc_ext <$> l)).
Definition hello_start (n : Z) (a : AbsHello) : list byte := HANDSHAKE_TYPE_CLIENT_HELLO :: to_be 3 n ++ fixed_part a.

Definition state_of (a : AbsHello) (l : list Ext) : ExtensionState :=
  exts_at (hello_start (len (enc_body a)) a ++ to_be 2 (len (concat (enc_ext <$> l)))) l.

(** The value the parser returns for the encoding of [a]. *)
Definition hello_val (m : list byte) (a : AbsHello) : ClientHello :=
  let st := from_option (state_of a) default_state (a_extensions a) in
  {| raw_message := m; random := a_random a; session_id_range := (39, 39 + len (a_session_id a));
     server_name_range := st_server_name st; alpn_ranges := st_alpn st; key_share_ranges := st_key_shares st;
     cipher_suites := a_ciphers a; offers_tls13 := st_offers_tls13 st; offers_psk := st_offers_psk st |}.

Definition parts_wf (a : AbsHello) : Prop :=
  u16_range (a_legacy_version a) /\ len (a_random a) = 32 /\ len (a_session_id a) <= SESSION_ID_LEN /\
  a_ciphers a <> [] /\ Forall u16_range (a_ciphers a) /\ 2 * len (a_ciphers a) <= U16_MAX /\
  1 <= len (a_compression a) <= U8_MAX /\ from_option exts_wf True (a_extensions a).

Lemma be_pairs_concat l : Forall u16_range l -> be_pairs (concat (to_be 2 <$> l)) = l.
Proof.
  induction 1 as [|v l Hv _ IH]; [done|]. rewrite fmap_cons. cbn [concat].
  pose proof (from_be_to_be 2 v ltac:(unfold u16_range, U16_MAX in Hv; cbn; lia)) as Hb.
  assert (E : exists x y, to_be 2 v = [x; y]) by (do 2 eexists; reflexivity). destruct E as (x & y & E). rewrite E in *.
  change (be_pairs ([x; y] ++ concat (to_be 2 <$> l))) with (from_be [x; y] :: be_pairs (concat (to_be 2 <$> l))). by rewrite Hb, IH.
Qed.

(** An even number of bytes is a list of 16-bit integers. *)
Lemma pairs_of_bytes n : forall b, len b = 2 * Z.of_nat n -> exists l, Forall u16_range l /\ b = concat (to_be 2 <$> l) /\ len l = Z.of_nat n.
Proof.
  induction n as [|n IH]; intros b Hb.
  - exists []. split_and!; [constructor| |done]. by apply len_nil_iff.
  - destruct b as [|x [|y b]]; [change (len (@nil byte)) with 0 in Hb; lia|rewrite len_cons, len_nil in Hb; lia|].
    destruct (IH b) as (l & Hl & -> & Hn); [rewrite !len_cons in Hb; lia|]. exists (from_be [x; y] :: l).
    split_and!; [constructor; [|done]| |rewrite len_cons; lia].
    + pose proof (from_be_range_n [x; y] 2 eq_refl) as Hr. change (256 ^ Z.of_nat 2) with 65536 in Hr. unfold u16_range, U16_MAX. lia.
    + rewrite fmap_cons. cbn [concat]. by rewrite (to_be_from_be [x; y] 2).
Qed.

Lemma state_of_eq a pre oe :
  hello_start (len (enc_body a)) a = pre -> a_extensions a = snd <$> oe ->
  from_option (fun '(x, y) => len (concat (enc_ext <$> y)) = x) True oe ->
  from_option (fun '(x, y) => exts_at (pre ++ to_be 2 x) y) default_state oe = from_option (state_of a) default_state (a_extensions a).
Proof. intros <- -> Hl. destruct oe as [[x y]|]; [|done]. cbn in Hl |- *. unfold state_of. by rewrite Hl. Qed.

Lemma hello_start_eq a (sl zl : byte) cl n :
  u8 sl = len (a_session_id a) -> u8 zl = len (a_compression a) -> cl = len (concat (to_be 2 <$> a_ciphers a)) ->
  hello_start n a =
  (((((((((([] ++ [HANDSHAKE_TYPE_CLIENT_HELLO]) ++ to_be 3 n) ++ to_be 2 (a_legacy_version a)) ++ a_random a) ++ [sl]) ++
    a_session_id a) ++ to_be 2 cl) ++ concat (to_be 2 <$> a_ciphers a)) ++ [zl]) ++ a_compression a).
Proof.
  intros H1 H2 ->. unfold hello_start, fixed_part. rewrite (vec8_head sl), (vec8_head zl) by done. unfold vec16.
  rewrite <- !app_assoc. done.
Qed.

Lemma whole_message m :
  whole_at [] (message_body m) enc_hello (fun a => parts_wf a /\ len (enc_body a) < 16777216) (hello_val m).
Proof.
  unfold message_body. eapply whole_iso.
  - eapply whole_bind; [apply parses_u8|intros kind _]. cbv beta. apply whole_guard.
    eapply whole_bind; [apply parses_u24|intros n Hn]. cbv beta. apply whole_declared.
    eapply whole_bind; [apply parses_u16|intros ver Hver]. cbv beta.
    eapply whole_bind; [apply parses_bytes; lia|intros rnd Hrnd]. cbv beta. apply whole_guard.
    eapply whole_bind; [apply parses_u8|intros sl _]. cbv beta. apply whole_guard.
    eapply whole_bind; [apply parses_range; pose proof (u8_range sl); lia|intros sid Hsid]. cbv beta.
    eapply whole_bind; [apply parses_u16|intros cl Hcl]. cbv beta. apply whole_guard.
    eapply whole_bind; [apply parses_bytes; item_side|intros cs Hcs]. cbv beta.
    eapply whole_bind; [apply parses_u8|intros zl _]. cbv beta. apply whole_guard.
    eapply whole_bind; [apply parses_bytes; pose proof (u8_range zl); lia|intros comp Hcomp]. cbv beta.
    eapply whole_opt.
    + eapply whole_bind; [apply parses_u16|intros el Hel]. cbv beta. apply whole_exts. exact Hel.
    + intros [el l] _ H. apply (f_equal len) in H. rewrite len_app, len_to_be, len_nil in H. pose proof (len_nonneg (concat (enc_ext <$> l))). lia.
  - intros (kind & n & ver & rnd & sl & sid & cl & cs & zl & comp & oe)
      (_ & Hk & Hn & Hlen & Hver & Hrnd & _ & _ & Hsl & Hsid & Hcl & Hpar & Hcs & _ & Hz & Hcomp & Hoe).
    apply negb_false_iff, bool_decide_eq_true in Hk. apply Z.ltb_ge in Hsl. apply Z.eqb_neq in Hz.
    apply orb_false_iff in Hpar as [Hp1 Hp2]. apply Z.ltb_ge in Hp1. apply negb_false_iff, Z.eqb_eq in Hp2.
    pose proof (u8_range zl). pose proof (Z.div_mod cl 2 ltac:(lia)) as Hdiv.
    destruct (pairs_of_bytes (Z.to_nat (cl / 2)) cs) as (l & Hl & -> & Hll); [lia|].
    pose (a := {| a_legacy_version := ver; a_random := rnd; a_session_id := sid; a_ciphers := l; a_compression := comp;
                  a_extensions := snd <$> oe |}).
    assert (Hbody : enc_body a = to_be 2 ver ++ rnd ++ [sl] ++ sid ++ to_be 2 cl ++ concat (to_be 2 <$> l) ++ [zl] ++ comp ++
                      from_option (fun '(x, y) => to_be 2 x ++ concat (enc_ext <$> y)) [] oe).
    { unfold enc_body, a. cbn [a_legacy_version a_random a_session_id a_ciphers a_compression a_extensions].
      rewrite (vec8_head sl sid), (vec8_head zl comp) by done. unfold vec16 at 1. rewrite Hcs, <- !app_assoc.
      destruct oe as [[el es]|]; [|done]. destruct Hoe as (_ & _ & Hes). cbn. unfold vec16. by rewrite Hes. }
    exists a. split_and!; try done.
    + unfold parts_wf, a. cbn [a_legacy_version a_random a_session_id a_ciphers a_compression a_extensions].
      split_and!; try done; [lia|intros ->; change (len (@nil Z)) with 0 in Hll; lia|item_side|lia|item_side|].
      destruct oe as [[el es]|]; [|done]. apply Hoe.
    + rewrite Hbody, Hlen. lia.
    + unfold enc_hello. by rewrite Hbody, Hlen, Hk.
    + assert (Hst : hello_start n a = _) by (by apply (hello_start_eq a sl zl cl)).
      rewrite <- Hbody in Hlen. subst kind. unfold hello_val. rewrite <- (state_of_eq a (hello_start n a) oe); [rewrite Hst| |done|].
      * rewrite be_pairs_concat by done. f_equal. change (a_session_id a) with sid. rewrite Hsid. f_equal; slen.
      * by rewrite Hlen.
      * destruct oe as [[el es]|]; [|done]. apply Hoe.
  - intros a ((Hver & Hrnd & Hsid & Hne & Hu & Hcl & Hcomp & Hexts) & Hn).
    pose proof (len_nonneg (a_session_id a)). unfold SESSION_ID_LEN in Hsid.
    pose (oe := (fun l => (len (concat (enc_ext <$> l)), l)) <$> a_extensions a).
    exists (HANDSHAKE_TYPE_CLIENT_HELLO, (len (enc_body a), (a_legacy_version a, (a_random a, (as_u8 (len (a_session_id a)),
      (a_session_id a, (len (concat (to_be 2 <$> a_ciphers a)), (concat (to_be 2 <$> a_ciphers a), (as_u8 (len (a_compression a)),
      (a_compression a, oe)))))))))).
    assert (0 < len (a_ciphers a)) by (destruct (a_ciphers a); [done|slen]).
    assert (Hbody : enc_body a = to_be 2 (a_legacy_version a) ++ a_random a ++ [as_u8 (len (a_session_id a))] ++ a_session_id a ++
      to_be 2 (len (concat (to_be 2 <$> a_ciphers a))) ++ concat (to_be 2 <$> a_ciphers a) ++ [as_u8 (len (a_compression a))] ++
      a_compression a ++ from_option (fun '(x, y) => to_be 2 x ++ concat (enc_ext <$> y)) [] oe).
    { unfold enc_body, vec8. unfold vec16 at 1. unfold oe. destruct (a_extensions a); rewrite <- !app_assoc; done. }
    rewrite <- Hbody, !u8_as_u8_small by (unfold U8_MAX in *; lia). pose proof (len_nonneg (enc_body a)). rewrite !len_u16s.
    split_and!; try done; try item_side.
    + unfold SESSION_ID_LEN. lia.
    + apply orb_false_iff. split; [lia|]. rewrite (Z.mul_comm 2), Z_mod_mult. done.
    + unfold oe. destruct (a_extensions a) as [l|]; [|done]. cbn. pose proof (len_nonneg (concat (enc_ext <$> l))).
      split; [|done]. destruct Hexts as (_ & _ & _ & Hl & _). split; [done|exact Hl].
    + unfold hello_val. rewrite <- (state_of_eq a (hello_start (len (enc_body a)) a) oe); [|done| |].
      * rewrite (hello_start_eq a (as_u8 (len (a_session_id a))) (as_u8 (len (a_compression a))) (2 * len (a_ciphers a)))
          by (rewrite ?len_u16s, ?u8_as_u8_small by (unfold U8_MAX in *; lia); done).
        rewrite be_pairs_concat by done. f_equal. f_equal; slen.
      * unfold oe. by destruct (a_extensions a).
      * unfold oe. by destruct (a_extensions a).
Qed.

(** ** The accessors *)

(** The fields of an extension list: each extension occurs at most once. *)
Record Fields := { f_name : option (list byte); f_alpn : list (list byte); f_shares : list (Z * list byte); f_tls13 : bool; f_psk : bool }.

Definition no_fields : Fields := {| f_name := None; f_alpn := []; f_shares := []; f_tls13 := false; f_psk := false |}.

Definition add_ext (f : Fields) (e : Ext) : Fields :=
  match e with
  | ENames l => {| f_name := head (host_names l); f_alpn := f_alpn f; f_shares := f_shares f; f_tls13 := f_tls13 f; f_psk := f_psk f |}
  | EVersions l => {| f_name := f_name f; f_alpn := f_alpn f; f_shares := f_shares f; f_tls13 := versions_offer l; f_psk := f_psk f |}
  | EShares l => {| f_name := f_name f; f_alpn := f_alpn f; f_shares := l; f_tls13 := f_tls13 f; f_psk := f_psk f |}
  | EAlpn l => {| f_name := f_name f; f_alpn := l; f_shares := f_shares f; f_tls13 := f_tls13 f; f_psk := f_psk f |}
  | EPsk _ _ => {| f_name := f_name f; f_alpn := f_alpn f; f_shares := f_shares f; f_tls13 := f_tls13 f; f_psk := true |}
  | EOther _ _ => f
  end.

Definition fields_of (a : AbsHello) : Fields := foldl add_ext no_fields (default [] (a_extensions a)).

(** A stored range holds the bytes [b] of the message [raw]. *)
Definition holds (raw : list byte) (r : Range) (b : list byte) : Prop := get_range raw r.1 r.2 = Some b.
Definition share_holds (raw : list byte) (r : KeyShareRange) (x : Z * list byte) : Prop := ks_group r = x.1 /\ holds raw (ks_data r) x.2.

Definition name_holds (raw : list byte) (r : option Range) (o : option (list byte)) : Prop :=
  match r, o with Some r, Some b => holds raw r b /\ is_ascii b = true | None, None => True | _, _ => False end.

Definition state_holds (raw : list byte) (st : ExtensionState) (f : Fields) : Prop :=
  name_holds raw (st_server_name st) (f_name f) /\ Forall2 (holds raw) (st_alpn st) (f_alpn f) /\
  Forall2 (share_holds raw) (st_key_shares st) (f_shares f) /\ st_offers_tls13 st = f_tls13 f /\ st_offers_psk st = f_psk f.

Lemma holds_at p x b post n m : n = len p + len x -> m = n + len b -> holds (p ++ x ++ b ++ post) (n, m) b.
Proof.
  intros -> ->. unfold holds. cbn [fst snd]. rewrite app_assoc, get_range_app_r by slen. rewrite len_app, Z.sub_diag.
  apply get_range_prefix. lia.
Qed.

Lemma shares_hold raw l : forall p acc bs post,
  raw = p ++ concat (enc_share <$> l) ++ post -> Forall2 (share_holds raw) acc bs ->
  Forall2 (share_holds raw) (items_val enc_share share_val p acc l) (bs ++ l).
Proof.
  induction l as [|[g b] l IH]; intros p acc bs post E Ha; cbn [items_val]; [by rewrite app_nil_r|].
  rewrite fmap_cons in E. cbn [concat] in E.
  change (bs ++ (g, b) :: l) with (bs ++ [(g, b)] ++ l). rewrite app_assoc. apply (IH _ _ _ post); [by rewrite E, <- !app_assoc|].
  apply Forall2_app; [done|]. constructor; [|constructor]. split; [done|]. rewrite E. unfold enc_share, vec16.
  rewrite <- !app_assoc, (app_assoc (to_be 2 g)). apply holds_at; cbn; slen.
Qed.

Lemma alpn_hold raw l : forall p acc bs post,
  raw = p ++ concat (vec8 <$> l) ++ post -> Forall2 (holds raw) acc bs ->
  Forall2 (holds raw) (items_val vec8 alpn_val p acc l) (bs ++ l).
Proof.
  induction l as [|b l IH]; intros p acc bs post E Ha; cbn [items_val]; [by rewrite app_nil_r|].
  rewrite fmap_cons in E. cbn [concat] in E.
  change (bs ++ b :: l) with (bs ++ [b] ++ l). rewrite app_assoc. apply (IH _ _ _ post); [by rewrite E, <- !app_assoc|].
  apply Forall2_app; [done|]. constructor; [|constructor]. rewrite E.
  change (vec8 b) with ([as_u8 (len b)] ++ b). rewrite <- !app_assoc. apply holds_at; slen.
Qed.

Lemma names_hold raw l : forall p acc o post,
  raw = p ++ concat (enc_name <$> l) ++ post -> name_holds raw acc o -> items_wf enc_name name_wf names_val p acc l ->
  name_holds raw (items_val enc_name names_val p acc l) (match host_names l with [] => o | b :: _ => Some b end).
Proof.
  induction l as [|[t b] l IH]; intros p acc o post E Ha Hw; cbn [items_val]; [done|].
  rewrite fmap_cons in E. cbn [concat] in E. destruct Hw as [[_ Hw] Hl]. cbn [fst snd] in Hw. rewrite host_names_cons.
  assert (E' : raw = (p ++ enc_name (t, b)) ++ concat (enc_name <$> l) ++ post) by (by rewrite E, <- !app_assoc).
  unfold names_val in Hl |- * at 2. cbn [fst snd] in *. destruct (decide (t = x00)) as [->|Ht].
  - rewrite bool_decide_true in Hl |- * by done. destruct (Hw eq_refl) as [-> (_ & Hasc & _)].
    assert (Hn : host_names l = []) by (apply names_wf_iff in Hl as (_ & Hn & _); by apply Hn).
    assert (Hb : name_holds raw (Some (len p + 3, len p + 3 + len b)) (Some b)).
    { split; [|exact Hasc]. rewrite E. change (enc_name (x00, b)) with ((x00 :: to_be 2 (len b)) ++ b).
      rewrite <- !app_assoc. apply holds_at; slen. }
    specialize (IH _ _ _ _ E' Hb Hl). by rewrite Hn in IH.
  - rewrite bool_decide_false in Hl |- * by done. by apply (IH _ _ _ post).
Qed.

Lemma ext_item_holds raw p st f e post :
  raw = p ++ enc_ext e ++ post -> ext_wf e -> state_holds raw st f -> state_holds raw (ext_item_val p st e) (add_ext f e).
Proof.
  intros E [Hw _] (Hn & Ha & Hs & Ht & Hp).
  assert (E' : raw = (p ++ to_be 2 (ext_type e) ++ to_be 2 (len (ext_body e))) ++ ext_body e ++ post)
    by (rewrite E; unfold enc_ext, vec16; by rewrite <- !app_assoc).
  unfold ext_item_val. revert E'. generalize (p ++ to_be 2 (ext_type e) ++ to_be 2 (len (ext_body e))). clear E p. intros p E.
  destruct e as [l|l|l|l|ids bs|t b]; cbn [ext_val add_ext ext_body] in *; try (by split_and!); unfold vec16 in E;
    rewrite <- app_assoc, app_assoc in E; split_and!; try done.
  - cbn [st_server_name f_name with_server_name]. pose proof (names_hold raw l _ None None _ E I (names_items _ _ Hw)) as H.
    unfold names_at. by destruct (host_names l).
  - by apply (shares_hold raw l _ [] [] _ E).
  - by apply (alpn_hold raw l _ [] [] _ E).
Qed.

Lemma exts_hold raw l : forall p st f post,
  raw = p ++ concat (enc_ext <$> l) ++ post -> Forall ext_wf l -> state_holds raw st f ->
  state_holds raw (items_val enc_ext ext_item_val p st l) (foldl add_ext f l).
Proof.
  induction l as [|e l IH]; intros p st f post E Hw Hs; [done|]. apply Forall_cons in Hw as [He Hw].
  rewrite fmap_cons in E. cbn [concat] in E. cbn [items_val foldl]. apply (IH _ _ _ post); [by rewrite E, <- !app_assoc|done|].
  apply (ext_item_holds _ _ _ _ _ (concat (enc_ext <$> l) ++ post)); [by rewrite E, <- !app_assoc|done..].
Qed.

(** What the accessors of a parsed message return. *)
Record represents (h : ClientHello) (a : AbsHello) : Prop := {
  rep_raw : raw_message h = enc_hello a;
  rep_random : random h = a_random a;
  rep_session_range : session_id_range h = (39, 39 + len (a_session_id a));
  rep_session_id : session_id h = Some (a_session_id a);
  rep_ciphers : cipher_suites h = a_ciphers a;
  rep_name : server_name h = f_name (fields_of a);
  rep_alpn : alpn_protocols h = f_alpn (fields_of a);
  rep_shares : key_shares h = f_shares (fields_of a);
  rep_groups : ks_group <$> key_share_ranges h = fst <$> f_shares (fields_of a);
  rep_tls13 : offers_tls13 h = f_tls13 (fields_of a);
  rep_psk : offers_psk h = f_psk (fields_of a);
}.

Lemma enc_hello_split a :
  enc_hello a = hello_start (len (enc_body a)) a ++ from_option enc_exts [] (a_extensions a).
Proof.
  unfold enc_hello, hello_start. cbn [app]. f_equal. rewrite <- app_assoc. f_equal. unfold enc_body, fixed_part. rewrite <- !app_assoc.
  by destruct (a_extensions a).
Qed.

Lemma omap_holds raw rs bs : Forall2 (holds raw) rs bs -> omap (fun r => get_range raw r.1 r.2) rs = bs.
Proof. induction 1 as [|r b rs bs Hb _ IH]; [done|]. cbn. unfold holds in Hb. rewrite Hb. by f_equal. Qed.

Lemma omap_share_holds raw rs bs :
  Forall2 (share_holds raw) rs bs ->
  omap (fun s => d ← get_range raw (ks_data s).1 (ks_data s).2; Some (ks_group s, d)) rs = bs /\ ks_group <$> rs = fst <$> bs.
Proof.
  induction 1 as [|r [g b] rs bs [Hg Hb] _ [IH1 IH2]]; [done|]. cbn in Hg, Hb |- *. unfold holds in Hb. rewrite Hb. cbn.
  split; [by rewrite Hg, IH1|]. by rewrite Hg, IH2.
Qed.

Lemma hello_represents a : parts_wf a -> represents (hello_val (enc_hello a) a) a.
Proof.
  intros (_ & Hr & _ & _ & _ & _ & _ & He).
  assert (Hst : state_holds (enc_hello a) (from_option (state_of a) default_state (a_extensions a)) (fields_of a)).
  { unfold fields_of. rewrite enc_hello_split at 1. destruct (a_extensions a) as [l|] eqn:El; [|split_and!; constructor].
    cbn [from_option default]. unfold state_of, exts_at. apply (exts_hold _ l _ _ _ []); [|apply He|split_and!; constructor].
    unfold enc_exts, vec16. by rewrite app_nil_r, <- !app_assoc. }
  destruct Hst as (Hn & Ha & Hs & Ht & Hp). apply omap_share_holds in Hs as [Hs1 Hs2].
  constructor; try done.
  - unfold session_id. cbn [hello_val raw_message session_id_range fst snd].
    pose (rest := vec16 (concat (to_be 2 <$> a_ciphers a)) ++ vec8 (a_compression a) ++
                  match a_extensions a with None => [] | Some l => vec16 (concat (enc_ext <$> l)) end).
    replace (enc_hello a) with ((HANDSHAKE_TYPE_CLIENT_HELLO :: to_be 3 (len (enc_body a)) ++ to_be 2 (a_legacy_version a) ++ a_random a) ++
                                [as_u8 (len (a_session_id a))] ++ a_session_id a ++ rest)
      by (unfold enc_hello; cbn [app]; rewrite <- !app_assoc; do 2 f_equal; by rewrite <- !app_assoc).
    apply holds_at; autorewrite with lens; rewrite ?Hr; [|done]. lia.
  - unfold server_name. cbn [hello_val raw_message server_name_range]. unfold name_holds in Hn.
    destruct (st_server_name _) as [r|], (f_name _) as [b|]; try done. destruct Hn as [Hb Hasc]. cbn. unfold holds in Hb.
    rewrite Hb. cbn. by rewrite ascii_from_utf8.
  - by apply omap_holds.
Qed.

(** ** The parser never panics *)

Ltac quiet_bound :=
  cbv beta in *; match goal with |- context [u8 ?b] => pose proof (u8_range b) | _ => idtac end; lia.

Ltac quiet_tac :=
  repeat first
    [ apply quiet_guard | apply quiet_if | by apply quiet_ret | apply quiet_throw
    | eapply quiet_bind; [apply quiet_u8|intros ? _]
    | eapply quiet_bind; [apply quiet_u16|intros ? ?]
    | eapply quiet_bind; [apply quiet_u24|intros ? ?]
    | eapply quiet_bind; [apply quiet_empty|intros ? _]
    | eapply quiet_bind; [apply quiet_state|intros ? _]
    | eapply quiet_bind; [apply quiet_skip|intros ? _]
    | eapply quiet_bind; [apply quiet_get_range|intros ? _]
    | eapply quiet_bind; [apply quiet_range; quiet_bound|intros ? _]
    | eapply quiet_bind; [apply quiet_bytes_read; quiet_bound|intros ? _]
    | eapply quiet_bind; [apply quiet_subreader; quiet_bound|intros ? ?]
    | progress cbv zeta ].

(** The loop of a list parser. *)
Ltac quiet_list :=
  eapply quiet_bind; [apply quiet_sub; [done|]|intros [? ?] _; quiet_tac].

Lemma quiet_names : quiet parse_server_name (fun _ => True).
Proof.
  unfold parse_server_name. quiet_tac. quiet_list.
  apply (quiet_while _ _ enc_name name_wf names_val); [intros; apply parses_at_last, name_step_parses|done|].
  intros acc. unfold server_name_step. quiet_tac.
Qed.

Lemma quiet_versions : quiet parse_supported_versions (fun _ => True).
Proof.
  unfold parse_supported_versions. quiet_tac. quiet_list.
  apply (quiet_while _ _ (to_be 2) (fun _ _ => u16_range) (fun _ acc v => acc || (v =? TLS13_VERSION)));
    [intros; apply parses_at_last, versions_step_parses|done|].
  intros acc. unfold versions_step. quiet_tac.
Qed.

Lemma quiet_shares : quiet parse_key_shares (fun _ => True).
Proof.
  unfold parse_key_shares. quiet_tac. quiet_list.
  apply (quiet_while _ _ enc_share share_wf share_val); [intros; apply parses_at_last, share_step_parses|done|].
  intros acc. unfold key_shares_step. quiet_tac.
Qed.

Lemma quiet_alpn : quiet parse_alpn (fun _ => True).
Proof.
  unfold parse_alpn. quiet_tac. quiet_list.
  apply (quiet_while _ _ vec8 alpn_wf alpn_val); [intros; apply parses_at_last, alpn_step_parses|done|].
  intros acc. unfold alpn_step. quiet_tac.
Qed.

Lemma quiet_psk : quiet parse_pre_shared_key (fun _ => True).
Proof.
  unfold parse_pre_shared_key. quiet_tac. quiet_list; [| quiet_list].
  - apply (quiet_while _ _ enc_identity identity_wf (fun _ c _ => c + 1)); [intros; apply parses_at_last, identity_step_parses|done|].
    intros acc. unfold psk_identity_step. quiet_tac.
  - apply (quiet_while _ _ vec8 binder_wf (fun _ c _ => c + 1)); [intros; apply parses_at_last, binder_step_parses|done|].
    intros acc. unfold psk_binder_step. quiet_tac.
Qed.

Lemma quiet_body t last st : quiet (parse_extension_body t last st) (fun _ => True).
Proof.
  unfold parse_extension_body. quiet_tac;
    (eapply quiet_bind; [first [apply quiet_names|apply quiet_versions|apply quiet_shares|apply quiet_alpn|apply quiet_psk]|intros ? _]);
    by apply quiet_ret.
Qed.

Lemma quiet_message m : quiet (message_body m) (fun _ => True).
Proof.
  unfold message_body. quiet_tac. eapply (quiet_bind _ _ (fun _ => True)); [|intros; by apply quiet_ret]. quiet_tac. quiet_list.
  apply (quiet_while _ _ enc_ext ext_item_wf ext_item_val); [apply ext_step_parses|done|].
  intros acc. unfold extension_step. quiet_tac.
  eapply quiet_bind; [apply quiet_sub; [done|apply quiet_body]|intros [? ?] _; quiet_tac].
Qed.

Lemma rd_new m : new_reader m = rd [] m [].
Proof. unfold new_reader, rd. by rewrite app_nil_r. Qed.

Lemma hello_wf_parts a : hello_wf a <-> parts_wf a /\ len (enc_hello a) <= MAX_CLIENT_HELLO_BYTES.
Proof. unfold hello_wf, parts_wf. tauto. Qed.

Lemma parse_message_exact m :
  parse_message m <> Panic /\
  (forall h, parse_message m = Ok h -> exists a, hello_wf a /\ m = enc_hello a /\ represents h a) /\
  (forall a, hello_wf a -> m = enc_hello a -> exists h, parse_message m = Ok h /\ represents h a).
Proof.
  unfold parse_message, reject_if. destruct (Z.ltb_spec MAX_CLIENT_HELLO_BYTES (len m)) as [Hl|Hl].
  { cbn. split_and!; try done. intros a [_ Ha]%hello_wf_parts ->. lia. }
  cbn [mbind result_bind]. rewrite rd_new.
  assert (Hs : small ([] ++ m ++ [])) by (unfold small, MAX_CLIENT_HELLO_BYTES in *; rewrite app_nil_r; cbn [app]; lia).
  split_and!.
  - pose proof (quiet_message m [] m [] Hs). by destruct (message_body m _) as [[]| |].
  - intros h. destruct (message_body m _) as [[h' r]| |] eqn:E; [|done..]. intros [= <-].
    apply whole_message in E as (a & [Ha _] & -> & -> & _); [|done]. exists a.
    split_and!; [by apply hello_wf_parts|done|by apply hello_represents].
  - intros a [Ha Hb]%hello_wf_parts ->. exists (hello_val (enc_hello a) a). split; [|by apply hello_represents].
    rewrite (proj2 (whole_message (enc_hello a) [] (enc_hello a) (hello_val (enc_hello a) a) (rd ([] ++ enc_hello a) [] []) Hs)); [done|].
    exists a. split_and!; try done. unfold enc_hello, MAX_CLIENT_HELLO_BYTES in Hb. autorewrite with lens in Hb. lia.
Qed.

(** C11: the ClientHello parser accepts exactly the reference encodings of
    well-formed messages (distinct extensions within the count limits, a
    pre-shared key last, one host name of ASCII bytes, nonempty shares and
    protocols, lengths that add up), never panics on any input, and the
    accessors of the parsed value return the encoded fields. *)
Theorem client_hello_exact m :
  parse_message m <> Panic /\
  (forall h, parse_message m = Ok h -> exists a, hello_wf a /\ m = enc_hello a /\ represents h a) /\
  (forall a, hello_wf a -> m = enc_hello a -> exists h, parse_message m = Ok h /\ represents h a).
Proof. apply parse_message_exact. Qed.

(** A message with a server name, TLS 1.3, one X25519 share, ALPN and a GREASE
    extension. *)
Definition sample_hello : AbsHello :=
  {| a_legacy_version := 771; a_random := replicate 32 x07; a_session_id := replicate 32 x09; a_ciphers := [4865; 4867];
     a_compression := [x00];
     a_extensions := Some [EOther 2570 []; ENames [(x00, bytes_of "example.com")]; EVersions [2570; 772];
                           EShares [(29, replicate 32 x05)]; EAlpn [bytes_of "h2"; bytes_of "http/1.1"]] |}.

Lemma sample_hello_wf : hello_wf sample_hello.
Proof.
  assert (Hl : len (enc_hello sample_hello) <= MAX_CLIENT_HELLO_BYTES) by (vm_compute; done).
  unfold hello_wf. split_and!; try exact Hl; cbn [sample_hello a_legacy_version a_random a_session_id a_ciphers a_compression a_extensions]; try done; [repeat constructor; vm_compute; done|].
  unfold from_option, sample_hello, a_extensions, exts_wf. split_and!; [|..|vm_compute; done|vm_compute; done|].
  - repeat apply Forall_cons_2; [..|apply Forall_nil_2]; (split; [|vm_compute; done]); cbn [body_wf].
    + split; [split; vm_compute; done|]. unfold known_type. vm_compute. by intros [|[|[|[]]]].
    + split_and!; [split; [done|vm_compute; done]|vm_compute; lia|]. constructor; [|constructor]. split_and!; vm_compute; done.
    + split_and!; [done|vm_compute; done|]. repeat constructor; vm_compute; done.
    + split_and!; [split; [done|vm_compute; done]|vm_compute; done|]. repeat constructor; vm_compute; done.
    + split_and!; [split; [done|vm_compute; done]|vm_compute; done|]. repeat constructor; vm_compute; done.
  - apply (bool_decide_unpack _). vm_compute. done.
  - intros [|[|[|[|[|i]]]]] e [= <-]; done.
Qed.

Lemma client_hello_exact_witness : exists h,
  parse_message (enc_hello sample_hello) = Ok h /\ server_name h = Some (bytes_of "example.com") /\
  peer_x25519 h = Some (replicate 32 x05) /\ offers_tls13 h = true.
Proof.
  destruct (proj2 (proj2 (client_hello_exact (enc_hello sample_hello))) sample_hello sample_hello_wf eq_refl) as (h & Hp & Hr).
  exists h. split; [exact Hp|]. split; [rewrite (rep_name _ _ Hr); vm_compute; reflexivity|]. split.
  - unfold peer_x25519, hybrid_share. rewrite (rep_shares _ _ Hr). vm_compute. reflexivity.
  - rewrite (rep_tls13 _ _ Hr). vm_compute. reflexivity.
Defined.
