(* ===== verification/ServerName.v ===== *)
(** * REALITY server-name patterns ([src/server_name.rs])

    Validation of concrete names and leftmost-label wildcards, matching of a
    ClientHello name against a pattern, and the choice of a probe name; with
    the declarative relation [name_matches] that matching decides. *)

From S2P Require Import Prelude.
#[local] Open Scope Z_scope.

Definition DOT : byte := x2e.
Definition STAR : byte := x2a.
Definition HYPHEN : byte := x2d.
Definition COLON : byte := x3a.

(** [str::split(c)], [split_once(c)], [rsplit_once(c)], [contains(c)]. *)
Fixpoint split (c : byte) (l : list byte) : list (list byte) :=
  match l with
  | [] => [[]]
  | b :: l =>
    if bool_decide (b = c) then [] :: split c l
    else match split c l with h :: t => (b :: h) :: t | [] => [[b]] end
  end.

Fixpoint split_once (c : byte) (l : list byte) : option (list byte * list byte) :=
  match l with
  | [] => None
  | b :: l => if bool_decide (b = c) then Some ([], l) else '(h, t) ← split_once c l; Some (b :: h, t)
  end.

Definition rsplit_once (c : byte) (l : list byte) : option (list byte * list byte) :=
  '(t, h) ← split_once c (rev l); Some (rev h, rev t).

Definition contains (c : byte) (l : list byte) : bool := existsb (fun b => bool_decide (b = c)) l.

Definition strip_wildcard (l : list byte) : option (list byte) :=
  match l with a :: b :: l => if bool_decide (a = STAR) && bool_decide (b = DOT) then Some l else None | _ => None end.

Definition eq_ignore_ascii_case (a b : list byte) : bool := bytes_eqb (to_ascii_lowercase a) (to_ascii_lowercase b).

(** One decimal octet as [Ipv4Addr::from_str] reads it: no leading zero. *)
Definition decimal (l : list byte) : Z := foldl (fun acc b => acc * 10 + (u8 b - 48)) 0 l.

Definition is_octet (l : list byte) : bool :=
  (1 <=? len l) && (len l <=? 3) && forallb is_ascii_digit l && (decimal l <=? 255)
  && negb ((1 <? len l) && bool_decide (head l = Some x30)).

(** [value.parse::<IpAddr>().is_ok()] for values whose labels are DNS labels:
    an IPv6 literal has a colon, which no label admits. *)
Definition is_ipv4 (l : list byte) : bool :=
  match split DOT l with [a; b; c; d] => forallb is_octet [a; b; c; d] | _ => false end.

Definition is_dns_label (label : list byte) : bool :=
  negb (len label =? 0) && (len label <=? 63)
  && negb (bool_decide (head label = Some HYPHEN)) && negb (bool_decide (last label = Some HYPHEN))
  && forallb (fun b => is_ascii_alphanumeric b || bool_decide (b = HYPHEN)) label.

Definition is_concrete_server_name (value : list byte) : bool :=
  negb (len value =? 0) && (len value <=? 253) && is_ascii value && negb (is_ipv4 value)
  && forallb is_dns_label (split DOT value).

Definition is_server_name_pattern (value : list byte) : bool :=
  match strip_wildcard value with
  | None => is_concrete_server_name value
  | Some suffix =>
    (len value <=? 253) && contains DOT suffix && negb (contains STAR suffix) && is_concrete_server_name suffix
  end.

Definition server_name_matches (pattern candidate : list byte) : bool :=
  match strip_wildcard pattern with
  | Some suffix =>
    if negb (is_concrete_server_name candidate) then false
    else match split_once DOT candidate with
         | None => false
         | Some (label, candidate_suffix) => is_dns_label label && eq_ignore_ascii_case candidate_suffix suffix
         end
  | None => eq_ignore_ascii_case pattern candidate
  end.

(** [port.parse::<u16>().ok().filter(|port| *port > 0).is_some()]: an optional
    plus sign, then digits. *)
Definition is_port (l : list byte) : bool :=
  let digits := match l with b :: t => if bool_decide (b = x2b) then t else l | [] => [] end in
  negb (len digits =? 0) && forallb is_ascii_digit digits && (0 <? decimal digits) && (decimal digits <=? U16_MAX).

Definition concrete_probe_name (target pattern : list byte) : option (list byte) :=
  if negb (bool_decide (is_Some (strip_wildcard pattern))) then Some pattern
  else
    '(host, port) ← rsplit_once COLON target;
    if contains COLON host || negb (is_port port) then None
    else if server_name_matches pattern host then Some host else None.

(** ** What matching means *)

Definition same_name (a b : list byte) : Prop := to_ascii_lowercase a = to_ascii_lowercase b.

(** Equal names, or one more label in front of a wildcard's suffix. *)
Inductive name_matches (pattern candidate : list byte) : Prop :=
| match_exact : strip_wildcard pattern = None -> same_name pattern candidate -> name_matches pattern candidate
| match_wildcard label rest suffix :
    pattern = STAR :: DOT :: suffix -> candidate = label ++ DOT :: rest -> is_dns_label label = true ->
    same_name rest suffix -> is_concrete_server_name candidate = true -> name_matches pattern candidate.

Lemma strip_wildcard_some l s : strip_wildcard l = Some s <-> l = STAR :: DOT :: s.
Proof.
  destruct l as [|a [|b l]]; cbn; [by split|by split|].
  repeat case_bool_decide; cbn; naive_solver.
Qed.

Lemma split_once_some c l h t : split_once c l = Some (h, t) <-> l = h ++ c :: t /\ c ∉ h.
Proof.
  revert h. induction l as [|b l IH]; intros h; cbn.
  { split; [done|]. intros [H _]. by destruct h. }
  case_bool_decide as Hb.
  - subst b. split; [intros [= <- <-]; split; [done|apply not_elem_of_nil]|]. intros [H Hn]. destruct h as [|x h]; [by injection H as ->|].
    injection H as -> _. by destruct Hn; left.
  - split.
    + destruct (split_once c l) as [[h' t']|] eqn:E; [|done]. intros [= <- <-]. destruct (proj1 (IH h') eq_refl) as [-> Hn].
      split; [done|]. rewrite not_elem_of_cons. naive_solver.
    + intros [H Hn]. destruct h as [|x h]; [by injection H as ->|]. injection H as -> ->. rewrite not_elem_of_cons in Hn.
      rewrite (proj2 (IH h)); [done|]. naive_solver.
Qed.

Lemma label_no_dot l : is_dns_label l = true -> DOT ∉ l.
Proof.
  unfold is_dns_label. intros [_ H]%andb_true_iff Hd. rewrite forallb_forall in H.
  apply list_elem_of_In, H in Hd. by vm_compute in Hd.
Qed.

Lemma bytes_eqb_iff a b : bytes_eqb a b = true <-> a = b.
Proof. apply bool_decide_eq_true. Qed.

(** The wildcard branch splits at the first dot, and a label has none. *)
Lemma server_name_matches_iff p c : server_name_matches p c = true <-> name_matches p c.
Proof.
  unfold server_name_matches. destruct (strip_wildcard p) as [s|] eqn:Hs.
  - apply strip_wildcard_some in Hs as ->. split.
    + destruct (is_concrete_server_name c) eqn:Hc; [|done]. cbn. destruct (split_once DOT c) as [[h t]|] eqn:E; [|done].
      intros [Hl He]%andb_true_iff. apply split_once_some in E as [-> _]. apply bytes_eqb_iff in He.
      by apply (match_wildcard _ _ h t s).
    + intros [Hn _|l r s' [= <-] -> Hl He Hc]; [done|]. rewrite Hc. cbn.
      rewrite (proj2 (split_once_some DOT (l ++ DOT :: r) l r)) by (split; [done|by apply label_no_dot]).
      rewrite Hl. by apply bytes_eqb_iff.
  - split.
    + intros He. apply bytes_eqb_iff in He. by constructor.
    + intros [_ He|l r s -> _ _ _ _]; [by apply bytes_eqb_iff|]. done.
Qed.

(** ** A matched name is itself a concrete name *)

Lemma length_split c l : length (split c l) = S (length (filter (fun b => b = c) l)).
Proof.
  induction l as [|b l IH]; [done|]. cbn [split]. rewrite filter_cons. case_bool_decide as Hb.
  - rewrite decide_True by done. cbn [length]. by rewrite IH.
  - rewrite decide_False by done. destruct (split c l); [done|exact IH].
Qed.

(** Lowercasing keeps everything the validation looks at. *)
Notation lower := to_ascii_lowercase_byte.

Lemma lower_eq c b : is_ascii_alphanumeric c = false \/ is_ascii_digit c = true -> lower b = c <-> b = c.
Proof. intros Hc. destruct b; vm_compute; split; intros <- || intros ->; try done; destruct Hc; try done. Qed.

Lemma lower_alnum b : is_ascii_alphanumeric (lower b) = is_ascii_alphanumeric b.
Proof. by destruct b. Qed.
Lemma lower_digit b : is_ascii_digit (lower b) = is_ascii_digit b.
Proof. by destruct b. Qed.
Lemma lower_ascii b : is_ascii_byte (lower b) = is_ascii_byte b.
Proof. by destruct b. Qed.
Lemma lower_digit_id b : is_ascii_digit b = true -> lower b = b.
Proof. by destruct b. Qed.

Lemma forallb_map {A B} (f : B -> bool) (g : A -> B) l : forallb f (map g l) = forallb (fun x => f (g x)) l.
Proof. induction l as [|x l IH]; [done|]. cbn. by rewrite IH. Qed.

Lemma forallb_ext' {A} (f g : A -> bool) l : (forall x, f x = g x) -> forallb f l = forallb g l.
Proof. intros H. induction l as [|x l IH]; [done|]. cbn. by rewrite H, IH. Qed.

Lemma split_lower l : split DOT (map lower l) = map (map lower) (split DOT l).
Proof.
  induction l as [|b l IH]; [done|]. cbn [split map].
  rewrite (bool_decide_ext (lower b = DOT) (b = DOT)) by (by apply lower_eq; left).
  case_bool_decide; [by rewrite IH|]. rewrite IH. by destruct (split DOT l).
Qed.

Lemma digits_lower l : forallb is_ascii_digit l = true -> map lower l = l.
Proof.
  induction l as [|b l IH]; [done|]. cbn. intros [Hb Hl]%andb_true_iff. by rewrite lower_digit_id, IH.
Qed.

Lemma octet_lower l : is_octet (map lower l) = is_octet l.
Proof.
  destruct (forallb is_ascii_digit l) eqn:Hd; [by rewrite digits_lower|].
  unfold is_octet. rewrite forallb_map, (forallb_ext' _ is_ascii_digit) by apply lower_digit. rewrite Hd.
  by rewrite !andb_false_r.
Qed.

Lemma lower_eq_some c o : is_ascii_alphanumeric c = false -> lower <$> o = Some c <-> o = Some c.
Proof.
  intros Hc. destruct o as [b|]; [|done]. cbn. split; intros [= H]; f_equal; eapply lower_eq; eauto.
Qed.

Lemma label_lower l : is_dns_label (map lower l) = is_dns_label l.
Proof.
  unfold is_dns_label. rewrite forallb_map. unfold len. rewrite length_map. f_equal; [f_equal; [f_equal|]|].
  - f_equal. apply bool_decide_ext. rewrite <- (lower_eq_some HYPHEN (head l)) by done. by destruct l.
  - f_equal. apply bool_decide_ext. rewrite <- (lower_eq_some HYPHEN (last l)), <- fmap_last by done. done.
  - apply forallb_ext'. intros b. rewrite lower_alnum. f_equal. apply bool_decide_ext. by apply lower_eq; left.
Qed.

Lemma concrete_lower l : is_concrete_server_name (map lower l) = is_concrete_server_name l.
Proof.
  unfold is_concrete_server_name, is_ipv4. rewrite split_lower, forallb_map, (forallb_ext' _ is_dns_label) by apply label_lower.
  unfold is_ascii. rewrite forallb_map, (forallb_ext' _ is_ascii_byte) by apply lower_ascii.
  unfold len. rewrite length_map. do 2 f_equal. f_equal.
  destruct (split DOT l) as [|a [|b [|c [|d [|e t]]]]]; cbn; rewrite ?octet_lower; done.
Qed.

Lemma same_name_concrete a b : same_name a b -> is_concrete_server_name a = is_concrete_server_name b /\ length (split DOT a) = length (split DOT b).
Proof.
  unfold same_name, to_ascii_lowercase. intros H. split.
  - by rewrite <- (concrete_lower a), H, concrete_lower.
  - apply (f_equal (split DOT)), (f_equal length) in H. by rewrite !split_lower, !length_map in H.
Qed.

(** A name that matches a valid pattern is a concrete DNS name with as many
    labels as the pattern. *)
Lemma match_concrete p c :
  is_server_name_pattern p = true -> name_matches p c ->
  is_concrete_server_name c = true /\ length (split DOT c) = length (split DOT p).
Proof.
  unfold is_server_name_pattern. intros Hp [Hn He|l r s -> -> Hl He Hc].
  - rewrite Hn in Hp. destruct (same_name_concrete _ _ He) as [<- <-]. done.
  - split; [done|]. apply same_name_concrete in He as [_ He].
    change (STAR :: DOT :: s) with ([STAR] ++ DOT :: s). rewrite !length_split, !filter_app, !length_app in *.
    assert (Hdot : forall t, length (filter (fun b => b = DOT) (DOT :: t)) = S (length (filter (fun b => b = DOT) t)))
      by (intros t; by rewrite filter_cons, decide_True).
    change (filter (fun b => b = DOT) [STAR]) with (@nil byte). rewrite !Hdot.
    assert (Hnl : filter (fun b => b = DOT) l = []).
    { apply label_no_dot in Hl. clear -Hl. induction l as [|b l IH]; [done|]. rewrite not_elem_of_cons in Hl. destruct Hl as [Hb Hl].
      rewrite filter_cons, decide_False by congruence. by apply IH. }
    rewrite Hnl. cbn [length]. lia.
Qed.
