(* ===== verification/RealityAuth.v ===== *)
(** * REALITY authentication ([src/protocol/reality/auth.rs])

    Short IDs and their owner index, the compiled authenticator, the
    authentication of one ClientHello and the client's session-ID seal. The
    cipher of the [CryptoOps] instance is AES-256-GCM here; [secret_of] is
    [StaticX25519Key::new], [b64_decode] the base64 crate's URL-safe decoder and
    [parse_uuid] the uuid crate's parser. *)

From stdpp Require Import gmap sorting.
From S2P Require Import Prelude Cursor Crypto Replay ClientHello ServerName SortedTable.
#[local] Open Scope Z_scope.

Definition AUTH_KEY_INFO : list byte := bytes_of "REALITY".
Definition SESSION_PLAINTEXT_LEN : Z := 16.
Definition GCM_TAG_LEN : Z := 16.
Definition SORTED_SHORT_ID_LIMIT : Z := 256.
Definition DEFAULT_MAX_TIME_DIFF_MS : Z := 60000.
Definition CLIENT_VERSION : list byte := [x1a; x07; x1c].

Inductive RealityAuthConfigError :=
| InvalidPrivateKey | InvalidShortId | MissingServerName | InvalidServerName | MissingShortId | DuplicateShortId | InvalidUserId.

Inductive RealityAuthError :=
| UnsupportedTls | AuthServerName | MissingKeyShare | NonContributoryKey | MissingCiphertext | KeyDerivation | OpenFailed
| ReservedByte | AuthShortId | TimeSkew.

Notation UserId := (list byte) (only parsing).

(** ** Session-ID plaintext *)

Record AuthPlaintext := { version : list byte; time : Z; short_id : list byte }.

Definition to_bytes (p : AuthPlaintext) : list byte := version p ++ [x00] ++ to_be 4 (time p) ++ short_id p.

Definition plaintext_wf (p : AuthPlaintext) : Prop := len (version p) = 3 /\ u32_range (time p) /\ len (short_id p) = 8.

(** ** Short IDs *)

Definition decode_hex (b : byte) : option Z :=
  if in_rangeb 48 57 b then Some (u8 b - 48)
  else if in_rangeb 97 102 b then Some (u8 b - 97 + 10)
  else if in_rangeb 65 70 b then Some (u8 b - 65 + 10)
  else None.

(** The loop over [as_chunks::<2>().0]; [index] is the enumeration. *)
Fixpoint decode_pairs (l : list byte) (index : nat) (output : list byte) : result RealityAuthConfigError (list byte) :=
  match l with
  | a :: b :: l =>
    high ← ok_or InvalidShortId (decode_hex a);
    low ← ok_or InvalidShortId (decode_hex b);
    match output !! index with
    | None => Err InvalidShortId
    | Some _ => decode_pairs l (S index) (<[index := as_u8 (Z.lor (Z.shiftl high 4) low)]> output)
    end
  | _ => Ok output
  end.

Definition decode_short_id (encoded : list byte) : result RealityAuthConfigError (list byte) :=
  guard! (len encoded =? 0) || (16 <? len encoded) || negb (len encoded mod 2 =? 0) else InvalidShortId;
  decode_pairs encoded 0 (replicate 8 x00).

Record ShortIdBinding := { b_short_id : list byte; b_user_id : UserId }.

Inductive ShortIdOwnerIndex :=
| Sorted (bindings : list ShortIdBinding)
| Hashed (bindings : gmap (list byte) UserId).

(** [[u8; 8]] is ordered lexicographically: as a big-endian number. *)
Definition key_of (b : ShortIdBinding) : Z := from_be (b_short_id b).

Definition from_sorted (bindings : list ShortIdBinding) : ShortIdOwnerIndex :=
  if len bindings <=? SORTED_SHORT_ID_LIMIT then Sorted bindings
  else Hashed (foldl (fun m b => <[b_short_id b := b_user_id b]> m) ∅ bindings).

Definition owner (ix : ShortIdOwnerIndex) (candidate : list byte) : result RealityAuthError (option UserId) :=
  match ix with
  | Sorted bindings =>
    match binary_search (E := RealityAuthError) key_of bindings (from_be candidate) with
    | Ok (Some i) => match bindings !! i with Some b => Ok (Some (b_user_id b)) | None => Panic end
    | Ok None => Ok None
    | _ => Panic
    end
  | Hashed m => Ok (m !! candidate)
  end.

(** ** Compilation *)

(** The part of [RealityConfig] the authenticator reads. *)
Record RealityConfig := {
  cover : list byte; private_key : list byte; server_names : option (list (list byte)); max_time_diff_ms : option Z;
}.

Definition cover_host (c : RealityConfig) : option (list byte) := fst <$> rsplit_once COLON (cover c).

Definition effective_server_names (c : RealityConfig) : list (list byte) :=
  match server_names c with Some names => names | None => option_list (cover_host c) end.

Definition time_limit (c : RealityConfig) : Z := default DEFAULT_MAX_TIME_DIFF_MS (max_time_diff_ms c).

(** [.collect::<Result<Vec<_>, _>>()]. *)
Fixpoint collect_bindings (l : list (UserId * list byte)) : result RealityAuthConfigError (list ShortIdBinding) :=
  match l with
  | [] => Ok []
  | (u, s) :: l =>
    sid ← decode_short_id s;
    rest ← collect_bindings l;
    Ok ({| b_short_id := sid; b_user_id := u |} :: rest)
  end.

(** [sort_unstable_by_key]; equal keys are refused right after it. *)
Definition sort_bindings (l : list ShortIdBinding) : list ShortIdBinding := sort_by_key key_of l.

(** [.windows(2).any(|pair| pair[0].short_id == pair[1].short_id)]. *)
Fixpoint adjacent_equal (l : list ShortIdBinding) : bool :=
  match l with
  | a :: (b :: _) as t => bool_decide (b_short_id a = b_short_id b) || adjacent_equal t
  | _ => false
  end.

Section Auth.
Context `{C : CryptoOps} (secret_of : list byte -> Secret) (b64_decode : list byte -> option (list byte)).

Record RealityAuthenticator := {
  a_private_key : Secret; a_server_names : list (list byte); a_short_ids : ShortIdOwnerIndex; a_max_time_diff_ms : Z;
}.

Definition compile (config : RealityConfig) (configured : list (UserId * list byte)) : result RealityAuthConfigError RealityAuthenticator :=
  let names := effective_server_names config in
  guard! (len names =? 0) else MissingServerName;
  guard! negb (forallb is_server_name_pattern names) else InvalidServerName;
  decoded ← ok_or InvalidPrivateKey (b64_decode (private_key config));
  guard! negb (len decoded =? 32) else InvalidPrivateKey;
  short_ids ← collect_bindings configured;
  guard! (len short_ids =? 0) else MissingShortId;
  let short_ids := sort_bindings short_ids in
  guard! adjacent_equal short_ids else DuplicateShortId;
  Ok {| a_private_key := secret_of decoded; a_server_names := names; a_short_ids := from_sorted short_ids;
        a_max_time_diff_ms := time_limit config |}.

(** [users]: the identifier text and the short IDs of each configured user. *)
Fixpoint expand_users (parse_uuid : list byte -> option UserId) (users : list (list byte * list (list byte))) :
    result RealityAuthConfigError (list (UserId * list byte)) :=
  match users with
  | [] => Ok []
  | (id, sids) :: users =>
    u ← ok_or InvalidUserId (parse_uuid id);
    rest ← expand_users parse_uuid users;
    Ok (((fun s => (u, s)) <$> sids) ++ rest)
  end.

Definition from_entry (parse_uuid : list byte -> option UserId) (config : RealityConfig)
    (users : list (list byte * list (list byte))) : result RealityAuthConfigError RealityAuthenticator :=
  short_ids ← expand_users parse_uuid users;
  compile config short_ids.

(** ** Authentication *)

Record RealityAuthResult := { client_version : list byte; client_time : Z; r_user_id : UserId; auth_key : list byte }.

Definition derive_auth_key (shared client_random : list byte) : result RealityAuthError (list byte) :=
  salt ← slice client_random 0 20;
  ok_or KeyDerivation (hkdf salt shared AUTH_KEY_INFO 32).

Definition open_session_id (key nonce ciphertext aad : list byte) : result RealityAuthError (list byte) :=
  body ← ok_or OpenFailed (get_range ciphertext 0 SESSION_PLAINTEXT_LEN);
  tag ← ok_or OpenFailed (get_range ciphertext SESSION_PLAINTEXT_LEN (len ciphertext));
  guard! negb (len tag =? GCM_TAG_LEN) else OpenFailed;
  ok_or OpenFailed (aead_open key nonce aad body tag).

Definition authenticate (a : RealityAuthenticator) (h : ClientHello) (now : Z) : result RealityAuthError RealityAuthResult :=
  guard! negb (offers_tls13 h) else UnsupportedTls;
  name ← ok_or AuthServerName (ClientHello.server_name h);
  guard! negb (existsb (fun configured => server_name_matches configured name) (a_server_names a)) else AuthServerName;
  peer ← ok_or MissingKeyShare (peer_x25519 h);
  shared ← ok_or NonContributoryKey (x25519_agree (a_private_key a) peer);
  key ← derive_auth_key shared (random h);
  ciphertext ← ok_or MissingCiphertext (session_ciphertext h);
  aad ← ok_or MissingCiphertext (reality_aad h);
  plaintext ← open_session_id key (aead_nonce h) ciphertext aad;
  reserved ← index plaintext 3;
  guard! negb (bool_decide (reserved = x00)) else ReservedByte;
  client_version ← slice plaintext 0 3;
  time_bytes ← slice plaintext 4 8;
  short_id ← slice plaintext 8 16;
  user ← owner (a_short_ids a) short_id;
  match user with
  | None => Err AuthShortId
  | Some user_id =>
    let difference_ms := abs_diff now (from_be time_bytes) * 1000 in
    guard! negb (a_max_time_diff_ms a =? 0) && (a_max_time_diff_ms a <? difference_ms) else TimeSkew;
    Ok {| client_version := client_version; client_time := from_be time_bytes; r_user_id := user_id; auth_key := key |}
  end.

(** ** The client's seal *)

Definition aead_nonce_from_random (client_random : list byte) : result RealityAuthError (list byte) :=
  slice_from client_random 20.

Definition seal_session_id_raw (key nonce plaintext aad : list byte) : result RealityAuthError (list byte) :=
  '(body, tag) ← ok_or OpenFailed (aead_seal key nonce aad plaintext);
  Ok (body ++ tag).

Definition seal_session_id (key client_random aad : list byte) (plaintext : AuthPlaintext) : result RealityAuthError (list byte) :=
  nonce ← aead_nonce_from_random client_random;
  seal_session_id_raw key nonce (to_bytes plaintext) aad.
End Auth.

(** ** The owner index *)

#[local] Notation strictly_sorted := (strictly_sorted key_of).
#[local] Notation weakly_sorted := (weakly_sorted key_of).

(** [HashMap::from_iter] keeps the only binding of a key. *)
Lemma collect_lookup l : forall m k, (forall b, b ∈ l -> b_short_id b <> k) ->
  foldl (fun m b => <[b_short_id b := b_user_id b]> m) m l !! k = (m : gmap (list byte) UserId) !! k.
Proof.
  induction l as [|b l IH]; intros m k Hk; [done|]. cbn. rewrite IH; [|intros c Hc; apply Hk; by right].
  apply lookup_insert_ne. apply Hk. by left.
Qed.

Definition bindings_ok (l : list ShortIdBinding) : Prop := Forall (fun b => len (b_short_id b) = 8) l.

Lemma key_inj a b : len a = 8 -> len b = 8 -> from_be a = from_be b -> a = b.
Proof.
  intros Ha Hb H. rewrite <- (to_be_from_be a 8), <- (to_be_from_be b 8) by (unfold len in *; lia). by rewrite H.
Qed.

Lemma hashed_spec l : forall (m : gmap (list byte) UserId) k u, strictly_sorted l -> bindings_ok l ->
  (exists b, b ∈ l /\ b_short_id b = k /\ b_user_id b = u) ->
  foldl (fun m b => <[b_short_id b := b_user_id b]> m) m l !! k = Some u.
Proof.
  induction l as [|b l IH]; intros m k u Hs Hok (c & Hc & Hk & Hu); [by apply elem_of_nil in Hc|]. cbn.
  pose proof (strictly_sorted_tail _ _ _ Hs) as Hs'. apply Forall_cons in Hok as [Hb Hok].
  apply elem_of_cons in Hc as [->|Hc].
  - subst. rewrite collect_lookup; [apply lookup_insert_eq|]. intros d Hd E. apply list_elem_of_lookup in Hd as [j Hj].
    pose proof (Hs 0%nat (S j) b d ltac:(lia) eq_refl Hj) as Hlt. unfold key_of in Hlt. rewrite E in Hlt. lia.
  - apply IH; [done..|]. by exists c.
Qed.

Lemma owner_spec l k : strictly_sorted l -> bindings_ok l -> len k = 8 ->
  exists o, owner (from_sorted l) k = Ok o /\
    forall u, o = Some u <-> exists b, b ∈ l /\ b_short_id b = k /\ b_user_id b = u.
Proof.
  intros Hs Hok Hk. unfold from_sorted, owner. destruct (_ <=? _).
  - destruct (binary_search_spec (E := RealityAuthError) key_of l (from_be k) Hs) as (o & Ho & Hspec). rewrite Ho. destruct o as [i|].
    + destruct Hspec as (b & Hb & Hkey). rewrite Hb. eexists. split; [done|]. intros u.
      assert (Hin : b ∈ l) by (by eapply list_elem_of_lookup_2). pose proof (proj1 (Forall_forall _ _) Hok b Hin) as Hlb. cbn in Hlb.
      assert (b_short_id b = k) by (by apply key_inj). split; [intros [= <-]; by exists b|].
      intros (c & Hc & Hck & <-). apply list_elem_of_lookup in Hc as [j Hj]. do 2 f_equal.
      destruct (Nat.lt_trichotomy i j) as [Hij|[->|Hij]]; [|congruence|].
      * pose proof (Hs i j b c Hij Hb Hj) as Hlt. unfold key_of in Hlt. rewrite Hck in Hlt. subst k. lia.
      * pose proof (Hs j i c b Hij Hj Hb) as Hlt. unfold key_of in Hlt. rewrite Hck in Hlt. subst k. lia.
    + eexists. split; [done|]. intros u. split; [done|]. intros (c & Hc & <- & _). apply list_elem_of_lookup in Hc as [j Hj].
      by destruct (Hspec j c Hj).
  - eexists. split; [done|]. intros u. split.
    + intros H. destruct (decide (Exists (fun b => b_short_id b = k) l)) as [He|He].
      * apply Exists_exists in He as (b & Hb & Hbk). exists b. split_and!; try done.
        rewrite (hashed_spec l ∅ k (b_user_id b)) in H; [by injection H|done|done|by exists b].
      * rewrite collect_lookup in H; [by rewrite lookup_empty in H|]. intros b Hb E. apply He, Exists_exists. by exists b.
    + intros H. by apply hashed_spec.
Qed.

(** ** Compilation builds a faithful index *)

(** Sorted bindings without equal neighbours are strictly sorted. *)
Lemma no_adjacent_strict l : weakly_sorted l -> bindings_ok l -> adjacent_equal l = false -> strictly_sorted l.
Proof.
  intros Hw. induction Hw as [|a l Hl IH Ha]; intros Hok Hadj; [intros i j x y _ H; by destruct i|].
  apply Forall_cons in Hok as [Hla Hok].
  assert (Hadj' : adjacent_equal l = false) by (destruct l as [|b l]; [done|]; cbn in Hadj; by apply orb_false_iff in Hadj as [_ ?]).
  specialize (IH Hok Hadj'). intros [|i] [|j] x y Hij Hx Hy; try lia; [|by apply (IH i j x y); [lia|..]]. cbn in Hx, Hy.
  injection Hx as <-. destruct l as [|b l]; [done|]. apply Forall_cons in Ha as [Hab _]. apply Forall_cons in Hok as [Hlb _].
  cbn in Hadj. apply orb_false_iff in Hadj as [Hne _]. apply bool_decide_eq_false in Hne.
  assert (key_of a < key_of b) by (destruct (decide (key_of a = key_of b)) as [E|]; [by destruct (Hne (key_inj _ _ Hla Hlb E))|lia]).
  destruct j as [|j]; cbn in Hy; [by injection Hy as <-|]. pose proof (IH 0%nat (S j) b y ltac:(lia) eq_refl Hy). lia.
Qed.

Lemma decode_pairs_len l : forall i out s, decode_pairs l i out = Ok s -> length s = length out.
Proof.
  remember (length l) as n eqn:En. revert l En. induction n as [n IH] using lt_wf_ind. intros l -> i out s.
  destruct l as [|a [|b l]]; cbn [decode_pairs]; [by intros [= <-]|by intros [= <-]|].
  destruct (decode_hex a), (decode_hex b); cbn; try done. destruct (out !! i); [|done]. intros H.
  apply (IH (length l)) in H; [by rewrite length_insert in H|cbn; lia|done].
Qed.

Lemma decode_short_id_len s sid : decode_short_id s = Ok sid -> len sid = 8.
Proof.
  unfold decode_short_id, reject_if. destruct (_ || _); cbn; [done|]. intros H%decode_pairs_len. unfold len. rewrite H. done.
Qed.

(** A short ID and its owner as configured. *)
Definition configured_owner (users : list (UserId * list byte)) (sid u : list byte) : Prop :=
  exists s, (u, s) ∈ users /\ decode_short_id s = Ok sid.

Lemma collect_bindings_spec users bs : collect_bindings users = Ok bs ->
  bindings_ok bs /\ forall sid u, (exists b, b ∈ bs /\ b_short_id b = sid /\ b_user_id b = u) <-> configured_owner users sid u.
Proof.
  revert bs. induction users as [|[v s] users IH]; intros bs; cbn [collect_bindings].
  { intros [= <-]. split; [constructor|]. intros sid u. split; [intros (b & Hb & _)|intros (b & Hb & _)]; by apply elem_of_nil in Hb. }
  destruct (decode_short_id s) as [d| |] eqn:Ed; [|done..]. cbn. destruct (collect_bindings users) as [rest| |] eqn:Er; [|done..].
  cbn. intros [= <-]. destruct (IH rest eq_refl) as [Hok Hspec]. split; [constructor; [by eapply decode_short_id_len|done]|].
  intros sid u. split.
  - intros (b & [->|Hb]%elem_of_cons & Hs & Hu); cbn in Hs, Hu; subst; [exists s; split; [by left|done]|].
    destruct (proj1 (Hspec (b_short_id b) (b_user_id b))) as (s' & Hin & Hd); [by exists b|]. exists s'. split; [by right|done].
  - intros (s' & [[= -> ->]|Hin]%elem_of_cons & Hd).
    + exists {| b_short_id := sid; b_user_id := v |}. split_and!; try done. assert (d = sid) as -> by congruence. left.
    + destruct (proj2 (Hspec sid u)) as (b & Hb & Hbs & Hbu); [by exists s'|]. exists b. split_and!; try done. by right.
Qed.

Section Compile.
Context `{C : CryptoOps} (secret_of : list byte -> Secret) (b64_decode : list byte -> option (list byte)).

(** What compilation guarantees about the authenticator. *)
Record compiled (cfg : RealityConfig) (users : list (UserId * list byte)) (a : RealityAuthenticator) : Prop := {
  cp_key : exists k, b64_decode (private_key cfg) = Some k /\ len k = 32 /\ a_private_key a = secret_of k;
  cp_names : a_server_names a = effective_server_names cfg;
  cp_patterns : Forall (fun p => is_server_name_pattern p = true) (effective_server_names cfg);
  cp_limit : a_max_time_diff_ms a = time_limit cfg;
  cp_owner : forall sid, len sid = 8 -> exists o, owner (a_short_ids a) sid = Ok o /\
    forall u, o = Some u <-> configured_owner users sid u;
}.

Lemma compile_compiled cfg users a : compile secret_of b64_decode cfg users = Ok a -> compiled cfg users a.
Proof.
  unfold compile, reject_if. destruct (len _ =? 0); cbn; [done|]. destruct (forallb _ _) eqn:Hp; cbn; [|done].
  destruct (b64_decode _) as [k|] eqn:Hk; cbn; [|done]. destruct (Z.eqb_spec (len k) 32) as [Hl|]; cbn; [|done].
  destruct (collect_bindings users) as [bs| |] eqn:Hb; cbn; [|done..]. destruct (len bs =? 0); cbn; [done|].
  destruct (adjacent_equal _) eqn:Ha; cbn; [done|]. intros [= <-]. apply collect_bindings_spec in Hb as [Hok Hspec].
  pose proof (sort_by_key_perm key_of bs) as Hperm.
  assert (Hok' : bindings_ok (sort_bindings bs)) by (unfold bindings_ok; by rewrite Hperm).
  constructor; cbn; [by exists k|done| |done|].
  - apply Forall_forall. intros p Hin. rewrite forallb_forall in Hp. by apply Hp, list_elem_of_In.
  - intros sid Hsid. destruct (owner_spec _ sid (no_adjacent_strict _ (sort_by_key_sorted key_of bs) Hok' Ha) Hok' Hsid) as (o & Ho & Hu).
    exists o. split; [done|]. intros u. rewrite Hu, <- Hspec. setoid_rewrite Hperm. done.
Qed.
End Compile.

(** ** Authentication decides exactly *)

(** The reads of the opened plaintext. *)
Definition read_plaintext {A} (l : list byte) (k : list byte -> list byte -> list byte -> result RealityAuthError A) :
    result RealityAuthError A :=
  reserved ← index l 3;
  guard! negb (bool_decide (reserved = x00)) else ReservedByte;
  v ← slice l 0 3;
  t ← slice l 4 8;
  s ← slice l 8 16;
  k v t s.

Lemma plaintext_split (l : list byte) : len l = 16 ->
  exists v r t (s : list byte), l = v ++ [r] ++ t ++ s /\ len v = 3 /\ len t = 4 /\ len s = 8.
Proof.
  intros Hl. exists (take 3 l), (default x00 (l !! 3%nat)), (take 4 (drop 4 l)), (drop 8 l).
  unfold len in *. do 16 (destruct l as [|? l]; [cbn in Hl; lia|]). destruct l; [done|cbn in Hl; lia].
Qed.

Lemma read_plaintext_parts {A} (v : list byte) r (t s : list byte) (k : _ -> _ -> _ -> result RealityAuthError A) :
  len v = 3 -> len t = 4 -> len s = 8 ->
  read_plaintext (v ++ [r] ++ t ++ s) k = if bool_decide (r = x00) then k v t s else Err ReservedByte.
Proof.
  intros Hv' Ht Hs. pose proof Hv' as Hv. unfold read_plaintext, index. cbn [Z.leb]. unfold len in Hv.
  rewrite lookup_app_r by lia. replace (Z.to_nat 3 - length v)%nat with 0%nat by lia. cbn.
  case_bool_decide; [|done]. cbn. subst r.
  assert (Hv0 : get_range (v ++ x00 :: t ++ s) 0 3 = Some v) by (apply get_range_prefix; unfold len; lia).
  rewrite (proj2 (slice_ok (E := RealityAuthError) _ 0 3 v) Hv0). cbn.
  change (v ++ x00 :: t ++ s) with (v ++ [x00] ++ t ++ s). rewrite app_assoc, (slice_mid (v ++ [x00]) t s 4 8) by slen. cbn.
  assert (Hs0 : get_range ((v ++ [x00]) ++ t ++ s) 8 16 = Some s).
  { rewrite (app_assoc _ t s), get_range_app_r by slen. apply get_range_all || (replace (8 - _) with 0 by slen; apply get_range_all; slen). }
  by rewrite (proj2 (slice_ok (E := RealityAuthError) _ 8 16 s) Hs0).
Qed.

Section Exact.
Context `{L : CryptoLaws} (secret_of : list byte -> Secret) (b64_decode : list byte -> option (list byte)).

(** A ClientHello that proves knowledge of a configured short ID now. *)
Record authentic (cfg : RealityConfig) (users : list (UserId * list byte)) (h : ClientHello) (now : Z) (r : RealityAuthResult) : Prop := {
  au_tls13 : offers_tls13 h = true;
  au_name : exists name pat, ClientHello.server_name h = Some name /\ pat ∈ effective_server_names cfg /\ name_matches pat name;
  au_key : exists k peer shared, b64_decode (private_key cfg) = Some k /\ peer_x25519 h = Some peer /\
    x25519_agree (secret_of k) peer = Some shared /\ hkdf (take 20 (random h)) shared AUTH_KEY_INFO 32 = Some (auth_key r);
  au_sealed : exists body tag aad pt, session_id h = Some (body ++ tag) /\ len body = 16 /\ len tag = 16 /\
    reality_aad h = Some aad /\ plaintext_wf pt /\
    aead_open (auth_key r) (drop 20 (random h)) aad body tag = Some (to_bytes pt) /\
    client_version r = version pt /\ client_time r = time pt /\ configured_owner users (short_id pt) (r_user_id r);
  au_time : time_limit cfg = 0 \/ abs_diff now (client_time r) * 1000 <= time_limit cfg;
}.

Lemma nonce_eq h : len (random h) = 32 -> aead_nonce h = drop 20 (random h).
Proof. intros Hr. unfold aead_nonce. apply take_ge. unfold len in Hr. rewrite length_drop. lia. Qed.

(** The ciphertext is the session identifier when it has 32 bytes, and then
    there is associated data to check it against. *)
Lemma ciphertext_split h ct : session_ciphertext h = Some ct ->
  session_id h = Some ct /\ len ct = 32 /\ is_Some (reality_aad h).
Proof.
  unfold session_ciphertext, reality_aad, session_ciphertext. destruct (session_id h) as [b|] eqn:E; [|done]. cbn.
  destruct (Z.eqb_spec (len b) SESSION_ID_LEN) as [Hl|]; [|done]. intros [= <-]. split_and!; try done.
  unfold session_id in E. destruct (session_id_range h) as [i j]. cbn in E |- *. rewrite E. by eexists.
Qed.

Lemma ciphertext_of h body tag : session_id h = Some (body ++ tag) -> len body = 16 -> len tag = 16 -> session_ciphertext h = Some (body ++ tag).
Proof.
  intros Hs Hb Ht. unfold session_ciphertext. rewrite Hs. cbn. by rewrite (proj2 (Z.eqb_eq _ _)) by (unfold SESSION_ID_LEN; slen).
Qed.

Lemma open_session_id_parts key nonce body tag aad : len body = 16 -> len tag = 16 ->
  open_session_id key nonce (body ++ tag) aad = ok_or OpenFailed (aead_open key nonce aad body tag).
Proof.
  intros Hb Ht. unfold open_session_id, SESSION_PLAINTEXT_LEN, reject_if. rewrite get_range_prefix by done. cbn.
  rewrite get_range_app_r by lia.
  replace (16 - len body) with 0 by lia. rewrite (get_range_all tag) by slen. cbn.
  by rewrite (proj2 (Z.eqb_eq _ _)) by done.
Qed.

(** The decision after the plaintext is open. *)
Definition decide_user (a : RealityAuthenticator) (now : Z) (key v t s : list byte) : result RealityAuthError RealityAuthResult :=
  user ← owner (a_short_ids a) s;
  match user with
  | None => Err AuthShortId
  | Some user_id =>
    let difference_ms := abs_diff now (from_be t) * 1000 in
    guard! negb (a_max_time_diff_ms a =? 0) && (a_max_time_diff_ms a <? difference_ms) else TimeSkew;
    Ok {| client_version := v; client_time := from_be t; r_user_id := user_id; auth_key := key |}
  end.

Lemma decide_user_spec cfg users a now key v t s :
  compiled secret_of b64_decode cfg users a -> len s = 8 ->
  decide_user a now key v t s <> Panic /\
  forall r, decide_user a now key v t s = Ok r <->
    client_version r = v /\ client_time r = from_be t /\ auth_key r = key /\ configured_owner users s (r_user_id r) /\
    (time_limit cfg = 0 \/ abs_diff now (from_be t) * 1000 <= time_limit cfg).
Proof.
  intros Hc Hs. destruct (cp_owner _ _ _ _ _ Hc s Hs) as (o & Ho & Hspec). unfold decide_user. rewrite Ho. cbn.
  rewrite (cp_limit _ _ _ _ _ Hc). destruct o as [u|].
  2:{ split; [done|]. intros r. split; [done|]. intros (_ & _ & _ & Hu & _). by apply Hspec in Hu. }
  set (late := negb (time_limit cfg =? 0) && (time_limit cfg <? abs_diff now (from_be t) * 1000)).
  assert (Hlate : late = false <-> time_limit cfg = 0 \/ abs_diff now (from_be t) * 1000 <= time_limit cfg).
  { unfold late. rewrite andb_false_iff, negb_false_iff, Z.eqb_eq, Z.ltb_ge. done. }
  unfold reject_if. destruct late; cbn.
  - split; [done|]. intros r. split; [done|]. intros (_ & _ & _ & _ & Hd). by apply Hlate in Hd.
  - split; [done|]. intros r. split.
    + intros [= <-]. cbn. split_and!; try done; [by apply Hspec|by apply Hlate].
    + intros (Hv & Ht & Hk & Hu & Hd). apply Hspec in Hu. injection Hu as Hu. destruct r; cbn in *. by subst.
Qed.

(** A rejection is right when nothing would be authentic. *)
Lemma rejects (Q : RealityAuthResult -> Prop) e :
  (forall r, Q r -> False) -> (Err e : result RealityAuthError RealityAuthResult) <> Panic /\ forall r, Err e = Ok r <-> Q r.
Proof. intros H. split; [done|]. intros r. split; [done|]. intros Hr. by apply H in Hr. Qed.

Lemma existsb_matches names c : existsb (fun p => server_name_matches p c) names = true <-> exists p, p ∈ names /\ name_matches p c.
Proof.
  rewrite existsb_exists. setoid_rewrite server_name_matches_iff. setoid_rewrite list_elem_of_In. done.
Qed.

(** What a session identifier must hold under [key]. *)
Definition sealed_for (cfg : RealityConfig) users (h : ClientHello) now key (r : RealityAuthResult) : Prop :=
  (exists body tag aad pt, session_id h = Some (body ++ tag) /\ len body = 16 /\ len tag = 16 /\
    reality_aad h = Some aad /\ plaintext_wf pt /\ aead_open key (drop 20 (random h)) aad body tag = Some (to_bytes pt) /\
    client_version r = version pt /\ client_time r = time pt /\ configured_owner users (short_id pt) (r_user_id r)) /\
  (time_limit cfg = 0 \/ abs_diff now (client_time r) * 1000 <= time_limit cfg) /\ auth_key r = key.

(** The second half of [authenticate]. *)
Definition open_and_decide (a : RealityAuthenticator) (h : ClientHello) now key : result RealityAuthError RealityAuthResult :=
  ciphertext ← ok_or MissingCiphertext (session_ciphertext h);
  aad ← ok_or MissingCiphertext (reality_aad h);
  plaintext ← open_session_id key (aead_nonce h) ciphertext aad;
  read_plaintext plaintext (decide_user a now key).

Lemma to_bytes_inj v t s pt : len v = 3 -> len t = 4 -> len s = 8 -> plaintext_wf pt ->
  v ++ [x00] ++ t ++ s = to_bytes pt -> v = version pt /\ from_be t = time pt /\ s = short_id pt.
Proof.
  intros Hv Ht Hs (Hv' & Htm & Hs') E. unfold to_bytes in E.
  apply app_inj_1 in E as [-> E]; [|unfold len in *; lia]. apply (app_inj_1 [x00] [x00]) in E as [_ E]; [|done].
  apply app_inj_1 in E as [-> ->]; [|pose proof (len_to_be 4 (time pt)); unfold len in *; lia].
  rewrite from_be_to_be; [done|]. unfold u32_range, U32_MAX in Htm. change (256 ^ Z.of_nat 4) with 4294967296. lia.
Qed.

Lemma plaintext_of v t s : len v = 3 -> len t = 4 -> len s = 8 ->
  let pt := {| version := v; time := from_be t; short_id := s |} in plaintext_wf pt /\ to_bytes pt = v ++ [x00] ++ t ++ s.
Proof.
  intros Hv Ht Hs pt. pose proof (from_be_range_n t 4 Ht) as Hr. change (256 ^ Z.of_nat 4) with 4294967296 in Hr.
  split; [split_and!; [done|unfold u32_range, U32_MAX; cbn; lia|done]|]. unfold to_bytes, pt. cbn [version time short_id].
  rewrite (to_be_from_be t 4) by (unfold len in Ht; lia). done.
Qed.

Lemma open_and_decide_spec cfg users a h now key :
  compiled secret_of b64_decode cfg users a -> len (random h) = 32 ->
  open_and_decide a h now key <> Panic /\ forall r, open_and_decide a h now key = Ok r <-> sealed_for cfg users h now key r.
Proof.
  intros Hc Hr. unfold open_and_decide. destruct (session_ciphertext h) as [ct|] eqn:Hct; cbn [ok_or mbind result_bind].
  2:{ apply rejects. intros r ((b & t & aad & pt & Hs & Hb & Ht & _) & _). by rewrite (ciphertext_of h b t) in Hct. }
  destruct (ciphertext_split h ct Hct) as (Hsid & Hlct & [aad Haad]). rewrite Haad. cbn [ok_or mbind result_bind].
  rewrite <- (take_drop 16 ct) in Hsid |- *. rewrite nonce_eq, open_session_id_parts by (done || slen).
  assert (Hinv : forall b t : list byte, Some (take 16 ct ++ drop 16 ct) = Some (b ++ t) -> len b = 16 -> b = take 16 ct /\ t = drop 16 ct).
  { intros b t [= E] Hb. apply app_inj_1 in E as [-> ->]; [done|]. unfold len in *. rewrite length_take. lia. }
  destruct (aead_open key (drop 20 (random h)) aad (take 16 ct) (drop 16 ct)) as [pl|] eqn:Hop; cbn [ok_or mbind result_bind].
  2:{ apply rejects. intros r ((b & t & aad' & pt & Hs & Hb & Ht & Hd & Hw & Ho & _) & _). rewrite Hsid in Hs.
      apply Hinv in Hs as [-> ->]; [|done]. congruence. }
  destruct (plaintext_split pl) as (v & x & t & s & -> & Hv & Ht & Hs); [rewrite (open_len _ _ _ _ _ _ Hop); slen|].
  rewrite read_plaintext_parts by done. case_bool_decide as Hx.
  2:{ apply rejects. intros r ((b & t' & aad' & pt & Hs' & Hb & Ht' & Hd & Hw & Ho & _) & _). rewrite Hsid in Hs'.
      apply Hinv in Hs' as [-> ->]; [|done]. assert (aad' = aad) as -> by congruence. rewrite Hop in Ho. injection Ho as Ho.
      apply app_inj_1 in Ho as [_ Ho]; [by injection Ho|]. destruct Hw as (Hv' & _). unfold len in *. lia. }
  subst x. destruct (decide_user_spec cfg users a now key v t s Hc Hs) as [Hnp Hd]. split; [done|]. intros r. rewrite Hd. split.
  - intros (Ev & Et & Ek & Hu & Htime). destruct (plaintext_of v t s Hv Ht Hs) as [Hw Hb].
    split; [|by rewrite Et]. eexists _, _, aad, _. split_and!; [exact Hsid|slen|slen|done|exact Hw|by rewrite Hb|done..].
  - intros ((b & t' & aad' & pt & Hs' & Hb & Ht' & Ha & Hw & Ho & Ev & Et & Hu) & Htime & Ek). rewrite Hsid in Hs'.
    apply Hinv in Hs' as [-> ->]; [|done]. assert (aad' = aad) as -> by congruence. rewrite Hop in Ho. injection Ho as Ho.
    destruct (to_bytes_inj v t s pt Hv Ht Hs Hw Ho) as (-> & E & ->). rewrite E, <- Et. done.
Qed.

Lemma authenticate_exact cfg users a h now :
  compile secret_of b64_decode cfg users = Ok a -> len (random h) = 32 ->
  authenticate a h now <> Panic /\ forall r, authenticate a h now = Ok r <-> authentic cfg users h now r.
Proof.
  intros Hc%compile_compiled Hr. destruct (cp_key _ _ _ _ _ Hc) as (k & Hk & _ & Hsec).
  unfold authenticate. rewrite (cp_names _ _ _ _ _ Hc), Hsec.
  destruct (offers_tls13 h) eqn:Htls; cbn [negb reject_if mbind result_bind]; [|apply rejects; intros r Ha; by rewrite (au_tls13 _ _ _ _ _ Ha) in Htls].
  destruct (ClientHello.server_name h) as [name|] eqn:Hname; cbn [ok_or mbind result_bind];
    [|apply rejects; intros r Ha; destruct (au_name _ _ _ _ _ Ha) as (n & p & E & _); congruence].
  destruct (existsb _ _) eqn:Hm; cbn [negb reject_if mbind result_bind].
  2:{ apply rejects. intros r Ha. destruct (au_name _ _ _ _ _ Ha) as (n & p & E & Hp). assert (n = name) as -> by congruence.
      apply not_true_iff_false in Hm. apply Hm, existsb_matches. by exists p. }
  apply existsb_matches in Hm as (pat & Hpat & Hmatch).
  destruct (peer_x25519 h) as [peer|] eqn:Hpeer; cbn [ok_or mbind result_bind];
    [|apply rejects; intros r Ha; destruct (au_key _ _ _ _ _ Ha) as (k' & p & s & _ & E & _); congruence].
  destruct (x25519_agree (secret_of k) peer) as [shared|] eqn:Hag; cbn [ok_or mbind result_bind];
    [|apply rejects; intros r Ha; destruct (au_key _ _ _ _ _ Ha) as (k' & p & s & E0 & E1 & E2 & _); congruence].
  unfold derive_auth_key. assert (Hsl : (slice (random h) 0 20 : result RealityAuthError _) = Ok (take 20 (random h)))
    by (apply slice_ok; rewrite get_range_some by lia; done).
  rewrite Hsl. cbn [mbind result_bind].
  destruct (hkdf (take 20 (random h)) shared AUTH_KEY_INFO 32) as [key|] eqn:Hkey; cbn [ok_or mbind result_bind];
    [|apply rejects; intros r Ha; destruct (au_key _ _ _ _ _ Ha) as (k' & p & s & E0 & E1 & E2 & E3); congruence].
  destruct (open_and_decide_spec cfg users a h now key Hc Hr) as [Hnp Hd]. split; [exact Hnp|].
  intros r. etransitivity; [apply Hd|]. split.
  - intros (Hsealed & Htime & Ek). subst key. constructor; [done|by exists name, pat|by exists k, peer, shared|exact Hsealed|exact Htime].
  - intros Ha. assert (Ek : auth_key r = key) by (destruct (au_key _ _ _ _ _ Ha) as (k' & p & s & E0 & E1 & E2 & E3); congruence).
    pose proof (au_sealed _ _ _ _ _ Ha) as Hsealed. rewrite Ek in Hsealed. split; [exact Hsealed|].
    split; [exact (au_time _ _ _ _ _ Ha)|exact Ek].
Qed.

(** C4: an authenticator compiled from a configuration accepts a ClientHello
    exactly when it offers TLS 1.3, its server name matches a configured
    pattern, its X25519 share agrees with the private key on a shared secret,
    its 32-byte session identifier opens under the key derived from that secret
    over the message with the identifier zeroed, the opened plaintext has a zero
    reserved byte and a short identifier of a configured user, and the client's
    clock is within the limit; it then reports that user, the sealed version
    and time, and the derived key. It never panics. *)
Theorem reality_auth_exact cfg users a h now :
  compile secret_of b64_decode cfg users = Ok a -> len (random h) = 32 ->
  authenticate a h now <> Panic /\ forall r, authenticate a h now = Ok r <-> authentic cfg users h now r.
Proof. apply authenticate_exact. Qed.
End Exact.
