(* ===== verification/ClientOffer.v ===== *)
(** * The outbound ClientHello ([src/protocol/reality/client_offer.rs],
    [browser_profile.rs], [src/crypto/p256_ecdh.rs])

    The key agreements a client offers, the browser-shaped ClientHello and the
    REALITY authenticator sealed into its session identifier. Entropy is the
    state of the monad: the bytes the operating system will return, and running
    out of them is [HelloError::Entropy]. P-256 and ML-KEM come from external
    crates and are the class [KemOps]. *)

From S2P Require Import Prelude Cursor Crypto ClientHello RealityAuth.
#[local] Open Scope Z_scope.

Definition X25519_PUBLIC_LEN : Z := 32.
Definition MLKEM768_CIPHERTEXT_LEN : Z := 1088.
Definition LEGACY_VERSION : list byte := [x03; x03].
Definition CONTENT_TYPE_HANDSHAKE : byte := x16.

Inductive HelloError :=
| HInvalidServerName | HInvalidAlpn | HTooLarge | HEntropy | HNonContributory | HAuth (e : RealityAuthError).

Inductive BrowserFingerprint := Chrome | Firefox.

#[export] Instance fingerprint_eq : EqDecision BrowserFingerprint.
Proof. solve_decision. Defined.

Definition ciphers (p : BrowserFingerprint) : list Z :=
  match p with
  | Chrome => [4865; 4866; 4867; 49195; 49199; 49196; 49200; 52393; 52392; 49171; 49172; 156; 157; 47; 53]
  | Firefox => [4865; 4867; 4866; 49195; 49199; 52393; 52392; 49196; 49200; 49171; 49172; 156; 157; 47; 53]
  end.

Definition signatures (p : BrowserFingerprint) : list Z :=
  match p with
  | Chrome => [2308; 2309; 2310; 1027; 2052; 1025; 1283; 2053; 1281; 2054; 1537]
  | Firefox => [1027; 1283; 1539; 2052; 2053; 2054; 1025; 1281; 1537; 515; 513]
  end.

Definition CHROME_TRUST_ANCHORS : list byte := as_u8 <$>
  [0; 184; 5; 130; 223; 19; 2; 1; 5; 130; 223; 19; 2; 6; 5; 130; 223; 19; 2; 13; 5; 130; 223; 19;
   2; 14; 5; 130; 223; 19; 2; 15; 5; 130; 223; 19; 2; 18; 5; 130; 223; 19; 2; 19; 5; 130; 223; 19;
   2; 20; 8; 131; 154; 100; 140; 155; 45; 1; 7; 8; 131; 154; 100; 140; 155; 45; 1; 8; 8; 131; 154;
   100; 140; 155; 45; 1; 9; 8; 131; 154; 100; 140; 155; 45; 1; 10; 8; 131; 154; 100; 140; 155; 45;
   1; 11; 8; 131; 154; 100; 140; 155; 45; 1; 12; 8; 131; 154; 100; 140; 155; 45; 1; 13; 8; 131;
   154; 100; 140; 155; 45; 1; 18; 8; 131; 154; 100; 140; 155; 45; 1; 19; 4; 214; 121; 9; 1; 4;
   214; 121; 9; 4; 4; 214; 121; 9; 5; 4; 214; 121; 9; 6; 4; 214; 121; 9; 7; 4; 214; 121; 9; 8; 4;
   214; 121; 9; 10; 4; 214; 121; 9; 11; 4; 214; 121; 9; 12; 4; 214; 121; 9; 13; 4; 214; 121; 9;
   15].

(** What the p256 and ml-kem crates provide. *)
Class KemOps := {
  P256Key : Type;
  p256_from_slice : list byte -> option P256Key;
  p256_public : P256Key -> list byte;
  (** [PublicKey::from_sec1_bytes] and [diffie_hellman]. *)
  p256_ecdh : P256Key -> list byte -> option (list byte);
  MlKemKey : Type;
  mlkem_from_seed : list byte -> MlKemKey;
  mlkem_encapsulation_key : MlKemKey -> list byte;
  mlkem_decapsulate : MlKemKey -> list byte -> list byte;
  (** [EncapsulationKey768::new] succeeds, and [encapsulate_deterministic]:
      the ciphertext and the shared secret for 32 bytes of randomness. *)
  mlkem_import : list byte -> bool;
  mlkem_encapsulate : list byte -> list byte -> list byte * list byte;
}.

Class KemLaws (K : KemOps) : Prop := {
  p256_public_len : forall k, len (p256_public k) = 65;
  p256_public_head : forall k, head (p256_public k) = Some x04;
  p256_ecdh_len : forall k p s, p256_ecdh k p = Some s -> len s = 32;
  p256_ecdh_comm : forall a b, p256_ecdh a (p256_public b) = p256_ecdh b (p256_public a);
  mlkem_encap_len : forall k, len (mlkem_encapsulation_key k) = MLKEM768_ENCAP_KEY_LEN;
  mlkem_ciphertext_len : forall ek r, len (mlkem_encapsulate ek r).1 = MLKEM768_CIPHERTEXT_LEN;
  mlkem_shared_len : forall ek r, len (mlkem_encapsulate ek r).2 = 32;
  mlkem_correct : forall k r,
    mlkem_decapsulate k (mlkem_encapsulate (mlkem_encapsulation_key k) r).1 = (mlkem_encapsulate (mlkem_encapsulation_key k) r).2;
}.

(** Entropy, and results lifted into the entropy monad. *)
Notation G := (M (list byte) HelloError).

Definition entropy (n : nat) : G (list byte) := fun e =>
  if (n <=? length e)%nat then Ok (take n e, drop n e) else Err HEntropy.

Definition push_u16 (length : Z) : G (list byte) :=
  if length <=? U16_MAX then mret (to_be 2 length) else throw HTooLarge.

Section Offer.
Context `{C : CryptoOps} `{K : KemOps} (secret_of : list byte -> Secret).

(** ** P-256 keys *)

(** [for _ in 0..128]. *)
Fixpoint p256_generate_loop (tries : nat) : G P256Key :=
  match tries with
  | O => throw HEntropy
  | S tries =>
    b ← entropy 32;
    match p256_from_slice b with Some k => mret k | None => p256_generate_loop tries end
  end.
Definition p256_generate : G P256Key := p256_generate_loop 128.

Definition p256_agree (k : P256Key) (peer : list byte) : option (list byte) :=
  if negb (len peer =? 65) || negb (bool_decide (head peer = Some x04)) then None else p256_ecdh k peer.

(** ** Key agreements *)

Record ClientKeyAgreement := {
  k_profile : BrowserFingerprint; k_p256 : option P256Key; k_x25519 : Secret; k_x25519_public : list byte;
  k_hybrid_x25519 : Secret; k_hybrid_x25519_public : list byte; k_hybrid_mlkem : MlKemKey; k_hybrid_encap : list byte;
}.

Definition generate_mlkem : G (MlKemKey * list byte) :=
  seed ← entropy 64;
  let k := mlkem_from_seed seed in
  mret (k, mlkem_encapsulation_key k).

Definition for_profile (profile : BrowserFingerprint) : G ClientKeyAgreement :=
  x25519_secret ← entropy 32;
  hybrid_secret ← (match profile with Chrome => entropy 32 | Firefox => mret x25519_secret end);
  p256 ← (match profile with Chrome => mret None | Firefox => k ← p256_generate; mret (Some k) end);
  let x25519 := secret_of x25519_secret in
  let hybrid_x25519 := secret_of hybrid_secret in
  '(hybrid_mlkem, hybrid_encap) ← generate_mlkem;
  mret {| k_profile := profile; k_p256 := p256; k_x25519 := x25519; k_x25519_public := x25519_public x25519;
          k_hybrid_x25519 := hybrid_x25519; k_hybrid_x25519_public := x25519_public hybrid_x25519;
          k_hybrid_mlkem := hybrid_mlkem; k_hybrid_encap := hybrid_encap |}.

Definition client_auth_key (k : ClientKeyAgreement) (server_public_key client_random : list byte) : result HelloError (list byte) :=
  shared ← ok_or HNonContributory (x25519_agree (k_x25519 k) server_public_key);
  map_err HAuth (derive_auth_key shared client_random).

Inductive TlsSharedSecret := SX25519 (b : list byte) | SP256 (b : list byte) | SHybrid (b : list byte).

Definition tls_shared_secret (k : ClientKeyAgreement) (group : Z) (server_share : list byte) : option TlsSharedSecret :=
  if group =? P256_GROUP then
    p ← k_p256 k; s ← p256_agree p server_share; Some (SP256 s)
  else if group =? X25519_GROUP then
    if negb (len server_share =? X25519_PUBLIC_LEN) then None
    else s ← x25519_agree (k_x25519 k) server_share; Some (SX25519 s)
  else if group =? X25519_MLKEM768_GROUP then
    ciphertext ← get_range server_share 0 MLKEM768_CIPHERTEXT_LEN;
    peer ← get_range server_share MLKEM768_CIPHERTEXT_LEN (len server_share);
    if negb (len peer =? X25519_PUBLIC_LEN) then None
    else s ← x25519_agree (k_hybrid_x25519 k) peer; Some (SHybrid (mlkem_decapsulate (k_hybrid_mlkem k) ciphertext ++ s))
  else None.

Definition offered_shares (k : ClientKeyAgreement) (grease : Z) : G (list byte) :=
  lead ← (if bool_decide (k_profile k = Chrome) then g ← push_u16 grease; mret (g ++ [x00; x01; x00]) else mret []);
  g1 ← push_u16 X25519_MLKEM768_GROUP;
  l1 ← push_u16 (len (k_hybrid_encap k) + len (k_hybrid_x25519_public k));
  g2 ← push_u16 X25519_GROUP;
  l2 ← push_u16 (len (k_x25519_public k));
  tail ← (match k_p256 k with
          | Some p => g3 ← push_u16 P256_GROUP; l3 ← push_u16 65; mret (g3 ++ l3 ++ p256_public p)
          | None => mret []
          end);
  mret (lead ++ g1 ++ l1 ++ k_hybrid_encap k ++ k_hybrid_x25519_public k ++ g2 ++ l2 ++ k_x25519_public k ++ tail).

(** ** Extensions *)

Fixpoint push_all (values : list Z) : G (list byte) :=
  match values with [] => mret [] | v :: values => a ← push_u16 v; b ← push_all values; mret (a ++ b) end.

Definition push_vector (values : list Z) : G (list byte) :=
  l ← push_u16 (len values * 2);
  b ← push_all values;
  mret (l ++ b).

(** [for _ in 0..128]. *)
Fixpoint random_index_loop (tries : nat) (cutoff bound : Z) : G Z :=
  match tries with
  | O => throw HEntropy
  | S tries =>
    b ← entropy 1;
    match b with
    | [] => lift Panic
    | x :: _ => if u8 x <? cutoff then mret (u8 x mod bound) else random_index_loop tries cutoff bound
    end
  end.
Definition random_index (bound : Z) : G Z := random_index_loop 128 (256 - 256 mod bound) bound.

Definition write_ech (chrome : bool) (name_len : Z) : G (list byte) :=
  seed ← entropy 2;
  s0 ← lift (index seed 0);
  s1 ← lift (index seed 1);
  let aead := if chrome || negb (Z.land (u8 s0) 1 =? 0) then x01 else x03 in
  enc ← (if chrome then secret ← entropy 32; mret (x25519_public (secret_of secret)) else entropy 32);
  payload ← (if chrome then i ← random_index 4; mret (128 + 32 * i + 16) else mret (div_ceil (117 + Z.max name_len 100) 32 * 32 + 16));
  l ← push_u16 payload;
  body ← entropy (Z.to_nat payload);
  mret ([x00; x00; x01; x00; aead; s1; x00; x20] ++ enc ++ l ++ body).

Definition push_extension (kind : Z) (write : G (list byte)) : G (list byte) :=
  body ← write;
  l ← push_u16 (len body);
  mret (to_be 2 kind ++ l ++ body).

Fixpoint push_protocols (alpn : list (list byte)) : G (list byte) :=
  match alpn with
  | [] => mret []
  | p :: alpn =>
    return! HTooLarge when U8_MAX <? len p;
    rest ← push_protocols alpn;
    mret (as_u8 (len p) :: p ++ rest)
  end.

(** The [match kind] of the extension writer. *)
Definition extension_body (server_name : list byte) (alpn : list (list byte)) (keys : ClientKeyAgreement) (grease : list Z) (kind : Z) : G (list byte) :=
  let chrome := bool_decide (k_profile keys = Chrome) in
  let g i := default 0 (grease !! i) in
  if kind =? 0 then
    a ← push_u16 (3 + len server_name);
    b ← push_u16 (len server_name);
    mret (a ++ [x00] ++ b ++ server_name)
  else if (kind =? 23) || (kind =? 35) || (kind =? 18) then mret []
  else if kind =? 65281 then mret [x00]
  else if kind =? 10 then
    let groups := [X25519_MLKEM768_GROUP; X25519_GROUP; P256_GROUP; 24] in
    push_vector (if chrome then g 1%nat :: groups else groups ++ [25])
  else if kind =? 11 then mret [x01; x00]
  else if kind =? 16 then
    a ← push_u16 (zsum (fun p => 1 + len p) alpn);
    b ← push_protocols alpn;
    mret (a ++ b)
  else if kind =? 5 then mret [x01; x00; x00; x00; x00]
  else if kind =? 34 then mret [x00; x08; x04; x03; x05; x03; x06; x03; x02; x03]
  else if kind =? 51 then
    entries ← offered_shares keys (g 1%nat);
    l ← push_u16 (len entries);
    mret (l ++ entries)
  else if kind =? 43 then
    v ← (if chrome then push_u16 (g 2%nat) else mret []);
    mret ([if chrome then x06 else x04] ++ v ++ [x03; x04; x03; x03])
  else if kind =? 13 then
    l ← push_u16 ((len (signatures (k_profile keys)) + (if chrome then 1 else 0)) * 2);
    v ← (if chrome then push_u16 (g 3%nat) else mret []);
    b ← push_all (signatures (k_profile keys));
    mret (l ++ v ++ b)
  else if kind =? 45 then mret [x01; x01]
  else if kind =? 28 then mret [x40; x01]
  else if kind =? 27 then mret (if chrome then [x02; x00; x02] else [x06; x00; x01; x00; x02; x00; x03])
  else if kind =? 17613 then mret [x00; x03; x02; x68; x32]
  else if kind =? 51764 then mret CHROME_TRUST_ANCHORS
  else if kind =? 65037 then write_ech chrome (len server_name)
  else lift Panic.

Definition profile_order (p : BrowserFingerprint) : list Z :=
  match p with
  | Chrome => [0; 23; 65281; 10; 11; 35; 16; 5; 18; 51; 43; 13; 45; 27; 65037; 17613; 51764]
  | Firefox => [0; 23; 65281; 10; 11; 35; 16; 5; 34; 18; 51; 43; 13; 45; 28; 27; 65037]
  end.

(** [order.swap(i, j)]. *)
Definition swap (i j : nat) (l : list Z) : G (list Z) := fun e =>
  match l !! i, l !! j with Some a, Some b => Ok (<[j := a]> (<[i := b]> l), e) | _, _ => Panic end.

(** [for i in (1..order.len()).rev()]. *)
Fixpoint shuffle (i : nat) (order : list Z) : G (list Z) :=
  match i with
  | O => mret order
  | S i' => j ← random_index (Z.of_nat i + 1); order ← swap i (Z.to_nat j) order; shuffle i' order
  end.

Fixpoint write_extensions (body : Z -> G (list byte)) (order : list Z) : G (list byte) :=
  match order with
  | [] => mret []
  | kind :: order => a ← push_extension kind (body kind); b ← write_extensions body order; mret (a ++ b)
  end.

Definition grease_of (seed : byte) : Z := Z.lor (Z.land (u8 seed) 240) 10 * 257.

Definition assemble (server_name : list byte) (alpn : list (list byte)) (keys : ClientKeyAgreement) (random : list byte) : G (list byte) :=
  let profile := k_profile keys in
  let chrome := bool_decide (profile = Chrome) in
  seeds ← entropy 6;
  let grease := grease_of <$> seeds in
  let g i := default 0 (grease !! i) in
  order ← (if chrome then shuffle (length (profile_order profile) - 1) (profile_order profile) else mret (profile_order profile));
  first ← (if chrome then push_extension (g 4%nat) (mret []) else mret []);
  middle ← write_extensions (extension_body server_name alpn keys grease) order;
  final ← (if chrome then push_extension (if g 5%nat =? g 4%nat then Z.lxor (g 5%nat) 4112 else g 5%nat) (mret [x00]) else mret []);
  let extensions := first ++ middle ++ final in
  let suites := ciphers profile in
  let suites_len := (len suites + (if chrome then 1 else 0)) * 2 in
  let body_len := 2 + 32 + 1 + SESSION_ID_LEN + 2 + suites_len + 1 + 1 + 2 + len extensions in
  let message_len := body_len + 4 in
  return! HTooLarge when (MAX_CLIENT_HELLO_BYTES <? message_len) || (U16_MAX <? message_len);
  sl ← push_u16 suites_len;
  lead ← (if chrome then push_u16 (g 0%nat) else mret []);
  cs ← push_all suites;
  el ← push_u16 (len extensions);
  mret ([HANDSHAKE_TYPE_CLIENT_HELLO] ++ to_be 3 body_len ++ LEGACY_VERSION ++ random ++ [as_u8 SESSION_ID_LEN] ++
        replicate (Z.to_nat SESSION_ID_LEN) x00 ++ sl ++ lead ++ cs ++ [x01; x00] ++ el ++ extensions).

(** ** [build_client_hello] *)

Record HelloRecord := {
  hr_message : list byte; hr_record_length : Z; hr_random : list byte; hr_session_id : list byte; hr_profile : BrowserFingerprint;
}.

Definition record (r : HelloRecord) : list byte :=
  [CONTENT_TYPE_HANDSHAKE; x03; x01] ++ to_be 2 (hr_record_length r) ++ hr_message r.

Definition matches_session_id (r : HelloRecord) (observed : list byte) : bool := bytes_eqb observed (hr_session_id r).
Definition hr_cipher_offered (r : HelloRecord) (suite : Z) : bool := bool_decide (suite ∈ ciphers (hr_profile r)).
Definition hr_key_share_group_offered (r : HelloRecord) (group : Z) : bool :=
  (group =? X25519_GROUP) || (group =? X25519_MLKEM768_GROUP) || ((group =? P256_GROUP) && bool_decide (hr_profile r = Firefox)).

(** [message.get_mut(i..j).ok_or(e)?.copy_from_slice(b)]. *)
Definition write_range (l : list byte) (i j : Z) (b : list byte) (e : HelloError) : result HelloError (list byte) :=
  match get_range l i j with
  | None => Err e
  | Some _ => if len b =? j - i then Ok (take (Z.to_nat i) l ++ b ++ drop (Z.to_nat j) l) else Panic
  end.

Definition build_client_hello (server_name : list byte) (alpn : list (list byte)) (keys : ClientKeyAgreement)
    (server_public_key : list byte) (auth : AuthPlaintext) : G (HelloRecord * list byte) :=
  return! HInvalidServerName when (len server_name =? 0) || (253 <? len server_name) || negb (is_ascii server_name) || contains_nul server_name;
  return! HInvalidAlpn when existsb (fun protocol => (len protocol =? 0) || (253 <? len protocol)) alpn;
  random ← entropy 32;
  auth_key ← lift (client_auth_key keys server_public_key random);
  message ← assemble server_name alpn keys random;
  session_id ← lift (map_err HAuth (seal_session_id auth_key random message auth));
  message ← lift (write_range message SESSION_ID_OFFSET (SESSION_ID_OFFSET + SESSION_ID_LEN) session_id HTooLarge);
  record_length ← lift (ok_or HTooLarge (try_from U16_MAX (len message)));
  mret ({| hr_message := message; hr_record_length := record_length; hr_random := random; hr_session_id := session_id;
           hr_profile := k_profile keys |}, auth_key).
End Offer.
