(* ===== verification/RealityAgree.v ===== *)
(** * A client's ClientHello authenticates at the server

    [ClientOffer.build_client_hello] composed with [ClientHello.parse_record]
    and [RealityAuth.authenticate]: what one end builds the other accepts, as
    the configured user, with the same key. *)

From S2P Require Import Prelude Cursor Crypto ClientHello HelloSpec HelloExact ServerName RealityAuth ClientOffer.
#[local] Open Scope Z_scope.

(** ** Results of the generator *)

(** Every value the computation returns satisfies [Q]. *)
Definition given {A} (p : G A) (Q : A -> Prop) : Prop := forall e v e', p e = Ok (v, e') -> Q v.

Lemma given_ret {A} (a : A) (Q : A -> Prop) : Q a -> given (mret a) Q.
Proof. by intros H e v e' [= <- <-]. Qed.

Lemma given_bind {A B} (p : G A) (f : A -> G B) Q R : given p Q -> (forall a, Q a -> given (f a) R) -> given (p ≫= f) R.
Proof.
  intros Hp Hf e v e'. unfold mbind, M_bind. destruct (p e) as [[a e1]| |] eqn:E; [|done..]. apply (Hf a). by eapply Hp.
Qed.

Lemma given_impl {A} (p : G A) (Q R : A -> Prop) : given p Q -> (forall a, Q a -> R a) -> given p R.
Proof. intros Hp Hr e v e' H. by eapply Hr, Hp. Qed.

Lemma given_throw {A} e (Q : A -> Prop) : given (throw e) Q.
Proof. by intros ? ? ?. Qed.

Lemma given_lift {A} (r : result HelloError A) Q : (forall a, r = Ok a -> Q a) -> given (lift r) Q.
Proof. intros H e v e'. unfold lift. destruct r; [|done..]. intros [= <- <-]. by apply H. Qed.

Lemma given_guard {A} b e (k : unit -> G A) Q : (b = false -> given (k tt) Q) -> given (u ← return_if b e; k u) Q.
Proof.
  intros H. apply (given_bind _ _ (fun _ => b = false)); [|by intros [] Hb; apply H].
  apply given_lift. unfold reject_if. by destruct b.
Qed.

Lemma given_u16 n : given (push_u16 n) (fun v => v = to_be 2 n /\ n <= U16_MAX).
Proof. unfold push_u16. destruct (Z.leb_spec n U16_MAX); [by apply given_ret|apply given_throw]. Qed.

Lemma given_entropy n : given (entropy n) (fun v => length v = n).
Proof. intros e v e'. unfold entropy. destruct (Nat.leb_spec n (length e)); [|done]. intros [= <- <-]. rewrite length_take. lia. Qed.

Lemma given_any {A} (p : G A) : given p (fun _ => True).
Proof. done. Qed.

Lemma given_all values : given (push_all values) (fun v => v = concat (to_be 2 <$> values) /\ Forall (fun x => x <= U16_MAX) values).
Proof.
  induction values as [|x l IH]; cbn [push_all]; [by apply given_ret|].
  eapply given_bind; [apply given_u16|]. intros a [-> Hx]. eapply given_bind; [exact IH|]. intros b [-> Hl].
  apply given_ret. rewrite fmap_cons. cbn [concat]. split; [done|]. by constructor.
Qed.

Lemma given_protocols alpn : given (push_protocols alpn) (fun v => v = concat (vec8 <$> alpn) /\ Forall (fun p => len p <= U8_MAX) alpn).
Proof.
  induction alpn as [|x l IH]; cbn [push_protocols]; [by apply given_ret|]. apply given_guard. intros Hx%Z.ltb_ge.
  eapply given_bind; [exact IH|]. intros b [-> Hl]. apply given_ret. split; [done|]. by constructor.
Qed.

(** ** The offered extensions *)

Section Agree.
Context `{L : CryptoLaws} `{KL : KemLaws} (secret_of : list byte -> Secret).

Record keys_wf (k : ClientKeyAgreement) : Prop := {
  kw_public : k_x25519_public k = x25519_public (k_x25519 k);
  kw_hybrid : len (k_hybrid_x25519_public k) = 32;
  kw_encap : len (k_hybrid_encap k) = MLKEM768_ENCAP_KEY_LEN;
}.

Lemma for_profile_wf profile : given (for_profile secret_of profile) (fun k => keys_wf k /\ k_profile k = profile).
Proof.
  unfold for_profile. do 3 (eapply given_bind; [apply given_any|intros ? _]).
  apply (given_bind _ _ (fun '(m, e) => len e = MLKEM768_ENCAP_KEY_LEN)).
  - unfold generate_mlkem. eapply given_bind; [apply given_any|intros ? _]. apply given_ret. apply mlkem_encap_len.
  - intros [m e] He. apply given_ret. split; [|done]. constructor; cbn; [done|apply public_len|done].
Qed.

Definition offer_shares (k : ClientKeyAgreement) (grease : Z) : list (Z * list byte) :=
  (if bool_decide (k_profile k = Chrome) then [(grease, [x00])] else []) ++
  [(X25519_MLKEM768_GROUP, k_hybrid_encap k ++ k_hybrid_x25519_public k); (X25519_GROUP, k_x25519_public k)] ++
  match k_p256 k with Some p => [(P256_GROUP, p256_public p)] | None => [] end.

Lemma given_shares k grease :
  given (offered_shares k grease) (fun v => v = concat (enc_share <$> offer_shares k grease)).
Proof.
  unfold offered_shares.
  apply (given_bind _ _ (fun v => v = concat (enc_share <$> (if bool_decide (k_profile k = Chrome) then [(grease, [x00])] else [])))).
  { destruct (bool_decide _); [|by apply given_ret]. eapply given_bind; [apply given_u16|]. intros a [-> _]. by apply given_ret. }
  intros lead ->. do 4 (eapply given_bind; [apply given_u16|]; intros ? [-> _]).
  apply (given_bind _ _ (fun v => v = concat (enc_share <$> match k_p256 k with Some p => [(P256_GROUP, p256_public p)] | None => [] end))).
  { destruct (k_p256 k) as [p|]; [|by apply given_ret]. do 2 (eapply given_bind; [apply given_u16|]; intros ? [-> _]).
    apply given_ret. cbn [concat fmap list_fmap]. unfold enc_share, vec16. cbn [fst snd]. by rewrite p256_public_len, app_nil_r. }
  intros tail ->. apply given_ret. unfold offer_shares. rewrite !fmap_app, !concat_app. f_equal.
  set (tail := concat _). rewrite !fmap_cons, fmap_nil. cbn [concat]. unfold enc_share, vec16. cbn [fst snd].
  by rewrite len_app, app_nil_r, <- !app_assoc.
Qed.

(** The abstract extension a kind stands for; [b] is the body of an extension
    the parser does not look into. *)
Definition ext_for (name : list byte) (alpn : list (list byte)) (keys : ClientKeyAgreement) (grease : list Z) (kind : Z) (b : list byte) : Ext :=
  let g i := default 0 (grease !! i) in
  if kind =? 0 then ENames [(x00, name)]
  else if kind =? 16 then EAlpn alpn
  else if kind =? 51 then EShares (offer_shares keys (g 1%nat))
  else if kind =? 43 then EVersions ((if bool_decide (k_profile keys = Chrome) then [g 2%nat] else []) ++ [772; 771])
  else EOther kind b.

Definition hello_name_ok (name : list byte) : Prop := host_name_ok name.
Definition hello_alpn_ok (alpn : list (list byte)) : Prop :=
  alpn <> [] /\ len alpn <= MAX_ALPN_PROTOCOLS /\ Forall (fun p => 1 <= len p <= 253) alpn.

Lemma alpn_bytes_len alpn : len (concat (vec8 <$> alpn)) = zsum (fun p => 1 + len p) alpn.
Proof.
  induction alpn as [|p l IH]; [done|]. rewrite fmap_cons. cbn [concat]. rewrite len_app, len_vec8, IH. done.
Qed.

Lemma shares_ok k g : keys_wf k -> u16_range g ->
  offer_shares k g <> [] /\ len (offer_shares k g) <= MAX_KEY_SHARES /\ Forall (fun x => u16_range x.1 /\ x.2 <> []) (offer_shares k g).
Proof.
  intros Hk Hg. unfold offer_shares. split; [destruct (bool_decide _); done|]. split.
  - rewrite !len_app. destruct (bool_decide _), (k_p256 k); vm_compute; done.
  - apply Forall_app. split; [destruct (bool_decide _); [|constructor]; constructor; [|constructor]; done|].
    constructor; [split; [done|]|constructor; [split; [done|]|]].
    + cbn [snd]. intros H%(f_equal len). rewrite len_app, (kw_hybrid _ Hk), len_nil in H. pose proof (len_nonneg (k_hybrid_encap k)). lia.
    + cbn [snd]. intros H%(f_equal len). rewrite (kw_public _ Hk), public_len, len_nil in H. done.
    + destruct (k_p256 k) as [p|]; [|constructor]. constructor; [|constructor]. split; [done|]. cbn [snd].
      intros H%(f_equal len). by rewrite p256_public_len, len_nil in H.
Qed.

Lemma single_name name : host_names [(x00, name)] = [name].
Proof. by rewrite host_names_cons, decide_True. Qed.

(** The bodies of the extensions the parser reads. *)
Lemma body_for name alpn keys grease kind :
  host_name_ok name -> hello_alpn_ok alpn -> keys_wf keys -> Forall u16_range grease -> length grease = 6%nat -> u16_range kind ->
  kind <> EXT_PRE_SHARED_KEY ->
  given (extension_body secret_of name alpn keys grease kind)
    (fun b => b = ext_body (ext_for name alpn keys grease kind b) /\ (len b <= U16_MAX -> body_wf (ext_for name alpn keys grease kind b))).
Proof.
  intros Hn (Ha & Hac & Hal) Hk Hg Hgl Hkind Hpsk.
  assert (Hgi : forall i, u16_range (default 0 (grease !! i))).
  { intros i. destruct (grease !! i) as [x|] eqn:E; [by eapply Forall_lookup_1|done]. }
  unfold extension_body, ext_for.
  destruct (Z.eqb_spec kind 0) as [->|H0].
  { eapply given_bind; [apply given_u16|]. intros a [-> H1]. eapply given_bind; [apply given_u16|]. intros b [-> H2]. apply given_ret.
    split; [cbn [ext_body concat fmap list_fmap]; unfold vec16, enc_name, vec16; cbn [fst snd]|].
    - rewrite app_nil_r, len_cons, len_app, len_to_be. replace (1 + (Z.of_nat 2 + len name)) with (3 + len name) by lia. done.
    - intros _. cbn [body_wf]. rewrite single_name. split_and!; [split; [done|]|done|by constructor]. cbn [concat fmap list_fmap]. unfold enc_name. cbn [fst snd]. slen. }
  destruct (Z.eqb_spec kind 16) as [->|H16].
  { cbn -[U16_MAX zsum hello_alpn_ok push_u16 body_wf vec8]. eapply given_bind; [apply given_u16|]. intros a [-> H1]. eapply given_bind; [apply given_protocols|].
    intros b [-> H2]. apply given_ret. rewrite <- alpn_bytes_len in *. split; [done|]. intros _. split_and!; [done|done|].
    eapply Forall_impl; [exact Hal|]. cbn. intros p Hp. split; [intros ->; change (len (@nil byte)) with 0 in Hp; lia|unfold U8_MAX; lia]. }
  destruct (Z.eqb_spec kind 51) as [->|H51].
  { cbn -[U16_MAX push_u16 body_wf offered_shares ext_body default]. eapply given_bind; [apply given_shares|]. intros a ->. eapply given_bind; [apply given_u16|].
    intros b [-> H2]. apply given_ret. split; [done|]. intros _. destruct (shares_ok keys (default 0 (grease !! 1%nat)) Hk (Hgi 1%nat)) as (S1 & S2 & S3).
    done. }
  destruct (Z.eqb_spec kind 43) as [->|H43].
  { cbn -[U16_MAX push_u16 body_wf ext_body default to_be as_u8].
    apply (given_bind _ _ (fun v => v = concat (to_be 2 <$> (if bool_decide (k_profile keys = Chrome) then [default 0 (grease !! 2%nat)] else [])))).
    { destruct (bool_decide _); [|by apply given_ret]. eapply given_impl; [apply given_u16|]. intros a [-> _]. rewrite fmap_cons. cbn [concat fmap list_fmap]. by rewrite app_nil_r. }
    intros v ->. apply given_ret. destruct (bool_decide _); (split; [done|intros _; split_and!; [done|done|repeat constructor; (apply Hgi || done)]]). }
  eapply given_impl; [apply given_any|]. intros b _. split; [done|]. intros _. split; [done|].
  unfold known_type, EXT_SERVER_NAME, EXT_SUPPORTED_VERSIONS, EXT_KEY_SHARE, EXT_ALPN. tauto.
Qed.

Definition grease_ok (g : Z) : Prop := u16_range g /\ is_grease g = true.

Lemma grease_of_ok seed : grease_ok (grease_of seed).
Proof. by destruct seed; vm_compute. Qed.

Lemma ext_for_type name alpn keys grease kind b : ext_type (ext_for name alpn keys grease kind b) = kind.
Proof. unfold ext_for. cbv zeta. destruct (Z.eqb_spec kind 0), (Z.eqb_spec kind 16), (Z.eqb_spec kind 51), (Z.eqb_spec kind 43); by subst. Qed.

(** The extensions for a list of kinds. *)
Definition exts_for name alpn keys grease (order : list Z) (es : list Ext) : Prop :=
  Forall2 (fun kind e => exists b, e = ext_for name alpn keys grease kind b) order es.

Lemma given_extensions name alpn keys grease order :
  host_name_ok name -> hello_alpn_ok alpn -> keys_wf keys -> Forall u16_range grease -> length grease = 6%nat ->
  Forall (fun k => u16_range k /\ k <> EXT_PRE_SHARED_KEY) order ->
  given (write_extensions (extension_body secret_of name alpn keys grease) order)
    (fun v => exists es, v = concat (enc_ext <$> es) /\ Forall ext_wf es /\ ext_type <$> es = order /\ exts_for name alpn keys grease order es).
Proof.
  intros Hn Ha Hk Hg Hgl. induction order as [|kind order IH]; intros Ho; cbn [write_extensions].
  { apply given_ret. exists []. split_and!; constructor. }
  apply Forall_cons in Ho as [[Hk1 Hk2] Ho]. unfold push_extension.
  eapply given_bind; [eapply given_bind; [by apply body_for|]|].
  - intros b [Hb Hw]. eapply given_bind; [apply given_u16|]. intros l [-> Hl]. apply given_ret.
    instantiate (1 := fun v => exists e b, v = enc_ext e /\ ext_wf e /\ ext_type e = kind /\ e = ext_for name alpn keys grease kind b).
    exists (ext_for name alpn keys grease kind b), b. split_and!; try done.
    + unfold enc_ext, vec16. by rewrite <- Hb, ext_for_type.
    + split; [by apply Hw|by rewrite <- Hb].
    + apply ext_for_type.
  - intros v (e & b & -> & Hew & Het & Hee). eapply given_bind; [by apply IH|]. intros v' (es & -> & Hes & Hts & Hfs). apply given_ret.
    exists (e :: es). rewrite !fmap_cons, Het, Hts. split_and!; [done|by constructor|done|]. constructor; [by exists b|done].
Qed.

Lemma insert_swap_perm (l : list Z) i j a b : l !! i = Some a -> l !! j = Some b -> <[j := a]> (<[i := b]> l) ≡ₚ l.
Proof.
  intros Hi Hj. destruct (decide (i = j)) as [->|Hne].
  - assert (a = b) as -> by congruence. by rewrite !list_insert_id by (rewrite ?list_insert_id by done; done).
  - pose proof (lookup_lt_Some _ _ _ Hi). pose proof (lookup_lt_Some _ _ _ Hj).
    apply Permutation_inj. split; [by rewrite !length_insert|].
    exists (fun n => if decide (n = i) then j else if decide (n = j) then i else n). split.
    + intros x y. repeat destruct (decide _); congruence.
    + intros n. destruct (decide (n = i)) as [->|Hn].
      * rewrite list_lookup_insert_ne, list_lookup_insert_eq by done. done.
      * destruct (decide (n = j)) as [->|Hnj]; [rewrite list_lookup_insert_eq by (by rewrite length_insert); done|].
        by rewrite !list_lookup_insert_ne by done.
Qed.

Lemma given_shuffle i : forall order, given (shuffle i order) (fun o => o ≡ₚ order).
Proof.
  induction i as [|i IH]; intros order; cbn [shuffle]; [by apply given_ret|].
  eapply given_bind; [apply given_any|]. intros j _. apply (given_bind _ _ (fun o => o ≡ₚ order)).
  - intros e v e'. unfold swap. destruct (order !! S i) eqn:E1, (order !! Z.to_nat j) eqn:E2; try done. intros [= <- <-].
    by apply insert_swap_perm.
  - intros o Ho. eapply given_impl; [apply IH|]. intros a Ha. by rewrite Ha.
Qed.

(** ** The assembled message *)

Definition abs_offer (profile : BrowserFingerprint) (g0 : Z) (random sid : list byte) (es : list Ext) : AbsHello :=
  {| a_legacy_version := 771; a_random := random; a_session_id := sid;
     a_ciphers := (if bool_decide (profile = Chrome) then [g0] else []) ++ ciphers profile; a_compression := [x00];
     a_extensions := Some es |}.

(** What an offer's extensions hold, in whatever order. *)
Record offer_exts (name : list byte) (alpn : list (list byte)) (keys : ClientKeyAgreement) (es : list Ext) : Prop := {
  oe_wf : Forall ext_wf es;
  oe_types : NoDup (ext_type <$> es);
  oe_psk : Forall (fun e => is_psk e = false) es;
  oe_name : ENames [(x00, name)] ∈ es;
  oe_alpn : EAlpn alpn ∈ es;
  oe_versions : exists vs, EVersions vs ∈ es /\ TLS13_VERSION ∈ vs;
  oe_shares : exists g, grease_ok g /\ EShares (offer_shares keys g) ∈ es;
}.

Lemma order_facts profile :
  NoDup (profile_order profile) /\ Forall (fun k => u16_range k /\ k <> EXT_PRE_SHARED_KEY /\ is_grease k = false) (profile_order profile).
Proof.
  destruct profile; (split; [apply (bool_decide_unpack _); by vm_compute|]); repeat (apply Forall_cons_2; [by vm_compute|]); apply Forall_nil_2.
Qed.

Lemma ext_for_psk name alpn keys grease kind b : is_psk (ext_for name alpn keys grease kind b) = false.
Proof. unfold ext_for. cbv zeta. destruct (kind =? 0), (kind =? 16), (kind =? 51), (kind =? 43); done. Qed.

Lemma exts_for_in name alpn keys grease order es kind :
  exts_for name alpn keys grease order es -> kind ∈ order -> exists b, ext_for name alpn keys grease kind b ∈ es.
Proof.
  intros H Hk. apply list_elem_of_lookup in Hk as [i Hi]. destruct (Forall2_lookup_l _ _ _ _ _ H Hi) as (e & He & b & ->).
  exists b. by eapply list_elem_of_lookup_2.
Qed.

(** The browser's extensions between GREASE ones. *)
Lemma middle_offer name alpn keys grease order es :
  Forall grease_ok grease -> length grease = 6%nat -> order ≡ₚ profile_order (k_profile keys) -> Forall ext_wf es -> ext_type <$> es = order ->
  exts_for name alpn keys grease order es -> offer_exts name alpn keys es.
Proof.
  intros Hg Hgl Ho Hw Ht Hf. destruct (order_facts (k_profile keys)) as [Hnd _].
  assert (Hin : forall k, k ∈ profile_order (k_profile keys) -> exists b, ext_for name alpn keys grease k b ∈ es).
  { intros k Hk. eapply exts_for_in; [exact Hf|]. by rewrite Ho. }
  assert (Hk : forall k, k ∈ [0; 16; 51; 43] -> k ∈ profile_order (k_profile keys)).
  { intros k Hk. apply (bool_decide_unpack _). revert k Hk. apply Forall_forall. destruct (k_profile keys); repeat constructor. }
  constructor; [done|rewrite Ht, Ho; done| | | | |].
  - apply Forall_forall. intros e He. apply list_elem_of_lookup in He as [i Hi].
    destruct (Forall2_lookup_r _ _ _ _ _ Hf Hi) as (k & _ & b & ->). apply ext_for_psk.
  - destruct (Hin 0) as [b Hb]; [apply Hk; left|]. exact Hb.
  - destruct (Hin 16) as [b Hb]; [apply Hk; right; left|]. exact Hb.
  - destruct (Hin 43) as [b Hb]; [apply Hk; do 3 right; left|]. eexists. split; [exact Hb|]. apply elem_of_app. right. left.
  - destruct (Hin 51) as [b Hb]; [apply Hk; do 2 right; left|]. eexists. split; [|exact Hb].
    destruct (lookup_lt_is_Some_2 grease 1) as [x Hx]; [lia|]. rewrite Hx. by eapply Forall_lookup_1.
Qed.

(** Adding two distinct GREASE extensions at the ends. *)
Lemma add_grease name alpn keys es g g' b b' :
  offer_exts name alpn keys es -> Forall (fun t => is_grease t = false) (ext_type <$> es) ->
  grease_ok g -> grease_ok g' -> g <> g' -> len b <= U16_MAX -> len b' <= U16_MAX ->
  offer_exts name alpn keys ([EOther g b] ++ es ++ [EOther g' b']).
Proof.
  intros [H1 H2 H3 H4 H5 H6 H7] Hng [Hg1 Hg2] [Hg3 Hg4] Hne Hb Hb'.
  assert (Hnk : forall x, is_grease x = true -> ~ known_type x).
  { intros x Hx Hk. destruct Hk as [->|[->|[->|[->| ->]]]]; done. }
  assert (Hnot : forall x, is_grease x = true -> x ∉ ext_type <$> es).
  { intros x Hx Hin. eapply Forall_forall in Hng; [|exact Hin]. cbn in Hng. congruence. }
  assert (Hmem : forall e, e ∈ es -> e ∈ [EOther g b] ++ es ++ [EOther g' b']) by (intros e He; apply elem_of_app; right; apply elem_of_app; by left).
  constructor; [| | |by apply Hmem..|destruct H6 as (vs & Hv & Hi); exists vs; split; [by apply Hmem|done]
                 |destruct H7 as (gg & Hv & Hi); exists gg; split; [done|by apply Hmem]].
  - rewrite !Forall_app. split_and!; [|done|]; (constructor; [|constructor]); split; try done; split; [done|by apply Hnk|done|by apply Hnk].
  - rewrite !fmap_app. apply NoDup_app. split_and!; [apply NoDup_singleton| |apply NoDup_app; split_and!; [done| |apply NoDup_singleton]].
    + intros x Hx%list_elem_of_singleton. subst x. rewrite elem_of_app. cbn. intros [Hx|Hx%list_elem_of_singleton]; [by apply (Hnot g)|done].
    + intros x Hx Hx'%list_elem_of_singleton. cbn in Hx'. subst x. by apply (Hnot g').
  - rewrite !Forall_app. split_and!; [|done|]; repeat constructor.
Qed.

Definition zeros32 : list byte := replicate (Z.to_nat SESSION_ID_LEN) x00.

(** The generated extension list, GREASE included. *)
Lemma chrome_ends seeds i j : length seeds = 6%nat -> (i < 6)%nat -> (j < 6)%nat ->
  let g n := default 0 ((grease_of <$> seeds) !! n) in
  grease_ok (g i) /\ grease_ok (if g j =? g i then Z.lxor (g j) 4112 else g j) /\
  g i <> (if g j =? g i then Z.lxor (g j) 4112 else g j).
Proof.
  intros Hl Hi Hj g. destruct (lookup_lt_is_Some_2 seeds i) as [a Ha]; [lia|]. destruct (lookup_lt_is_Some_2 seeds j) as [b Hb]; [lia|].
  assert (Hgi : g i = grease_of a) by (unfold g; by rewrite list_lookup_fmap, Ha).
  assert (Hgj : g j = grease_of b) by (unfold g; by rewrite list_lookup_fmap, Hb).
  rewrite Hgi, Hgj. split; [apply grease_of_ok|].
  destruct (Z.eqb_spec (grease_of b) (grease_of a)) as [->|Hne]; [|split; [apply grease_of_ok|done]].
  destruct a; vm_compute; done.
Qed.

Lemma exts_suffix es : ext_type <$> es = [] -> es = [].
Proof. by destruct es. Qed.

(** The pieces of the final message. *)
Lemma offer_encodes profile g0 random es sl cl :
  len random = 32 -> sl = len (concat (to_be 2 <$> ((if bool_decide (profile = Chrome) then [g0] else []) ++ ciphers profile))) ->
  cl = len (enc_body (abs_offer profile g0 random zeros32 es)) ->
  [HANDSHAKE_TYPE_CLIENT_HELLO] ++ to_be 3 cl ++ LEGACY_VERSION ++ random ++ [as_u8 SESSION_ID_LEN] ++ zeros32 ++
  to_be 2 sl ++ concat (to_be 2 <$> (if bool_decide (profile = Chrome) then [g0] else [])) ++ concat (to_be 2 <$> ciphers profile) ++
  [x01; x00] ++ to_be 2 (len (concat (enc_ext <$> es))) ++ concat (enc_ext <$> es) =
  enc_hello (abs_offer profile g0 random zeros32 es).
Proof.
  intros Hr -> ->. unfold enc_hello. set (n := len (enc_body _)). unfold enc_body, vec16, vec8. cbn [abs_offer a_legacy_version a_random a_session_id a_ciphers a_compression a_extensions].
  rewrite fmap_app, concat_app, <- !app_assoc. done.
Qed.

Lemma body_len_eq profile g0 random es :
  len random = 32 ->
  len (enc_body (abs_offer profile g0 random zeros32 es)) =
  2 + 32 + 1 + SESSION_ID_LEN + 2 + (len (ciphers profile) + (if bool_decide (profile = Chrome) then 1 else 0)) * 2 + 1 + 1 + 2 +
  len (concat (enc_ext <$> es)).
Proof.
  intros Hr. unfold enc_body. cbn [abs_offer a_legacy_version a_random a_session_id a_ciphers a_compression a_extensions].
  autorewrite with lens. rewrite len_u16s, len_app, Hr. change (len zeros32) with 32. unfold SESSION_ID_LEN.
  destruct (bool_decide _); autorewrite with lens; lia.
Qed.

Lemma offer_wf name alpn keys g0 random es sid :
  offer_exts name alpn keys es -> len random = 32 -> len sid = 32 -> u16_range g0 -> len es <= MAX_EXTENSIONS ->
  len (concat (enc_ext <$> es)) <= U16_MAX -> len (enc_hello (abs_offer (k_profile keys) g0 random sid es)) <= MAX_CLIENT_HELLO_BYTES ->
  hello_wf (abs_offer (k_profile keys) g0 random sid es).
Proof.
  intros He Hr Hs Hg Hc Hl Hm. apply hello_wf_parts. split; [|exact Hm]. unfold parts_wf.
  cbn [abs_offer a_legacy_version a_random a_session_id a_ciphers a_compression a_extensions from_option].
  split_and!; try exact Hr; try done.
  - unfold SESSION_ID_LEN. lia.
  - by destruct (bool_decide _), (k_profile keys).
  - apply Forall_app. split; [destruct (bool_decide _); repeat constructor; apply Hg|].
    destruct (k_profile keys); repeat (apply Forall_cons_2; [by vm_compute|]); apply Forall_nil_2.
  - destruct (bool_decide _), (k_profile keys); by vm_compute.
  - destruct He as [H1 H2 H3 _ _ _ _]. split_and!; try done. intros i e Hi Hp.
    eapply Forall_lookup_1 in H3; [|exact Hi]. cbn in H3. congruence.
Qed.

(** The outcome of [assemble]. *)
Definition assembled name alpn keys random (m : list byte) : Prop := exists g0 es,
  m = enc_hello (abs_offer (k_profile keys) g0 random zeros32 es) /\ u16_range g0 /\ len es <= MAX_EXTENSIONS /\
  offer_exts name alpn keys es /\ len (concat (enc_ext <$> es)) <= U16_MAX /\ len m <= U16_MAX.

(** The end of [assemble], from the extensions on. *)
Lemma finish_assembled name alpn keys random g0 es :
  len random = 32 -> u16_range g0 -> len es <= MAX_EXTENSIONS -> offer_exts name alpn keys es ->
  let chrome := bool_decide (k_profile keys = Chrome) in
  let suites := ciphers (k_profile keys) in
  let suites_len := (len suites + (if chrome then 1 else 0)) * 2 in
  let extensions := concat (enc_ext <$> es) in
  let body_len := 2 + 32 + 1 + SESSION_ID_LEN + 2 + suites_len + 1 + 1 + 2 + len extensions in
  given (return! HTooLarge when (MAX_CLIENT_HELLO_BYTES <? body_len + 4) || (U16_MAX <? body_len + 4);
    sl ← push_u16 suites_len;
    lead ← (if chrome then push_u16 g0 else mret []);
    cs ← push_all suites;
    el ← push_u16 (len extensions);
    mret ([HANDSHAKE_TYPE_CLIENT_HELLO] ++ to_be 3 body_len ++ LEGACY_VERSION ++ random ++ [as_u8 SESSION_ID_LEN] ++
          replicate (Z.to_nat SESSION_ID_LEN) x00 ++ sl ++ lead ++ cs ++ [x01; x00] ++ el ++ extensions))
    (assembled name alpn keys random).
Proof.
  intros Hr Hg Hc He chrome suites suites_len extensions body_len. apply given_guard. intros [Hm1 Hm2]%orb_false_iff.
  apply Z.ltb_ge in Hm1, Hm2. eapply given_bind; [apply given_u16|]. intros sl [-> _].
  apply (given_bind _ _ (fun v => v = concat (to_be 2 <$> (if chrome then [g0] else [])))).
  { destruct chrome; [|by apply given_ret]. eapply given_impl; [apply given_u16|]. intros a [-> _]. rewrite fmap_cons. cbn [concat fmap list_fmap]. by rewrite app_nil_r. }
  intros lead ->. eapply given_bind; [apply given_all|]. intros cs [-> _]. eapply given_bind; [apply given_u16|]. intros el [-> Hel].
  apply given_ret. exists g0, es. pose proof (body_len_eq (k_profile keys) g0 random es Hr) as Hb.
  assert (Hmsg : forall x, x = enc_hello (abs_offer (k_profile keys) g0 random zeros32 es) -> len x = body_len + 4).
  { intros x ->. unfold enc_hello. autorewrite with lens. rewrite Hb. fold chrome suites suites_len extensions. unfold body_len. lia. }
  match goal with |- ?x = _ /\ _ => assert (Hx : x = enc_hello (abs_offer (k_profile keys) g0 random zeros32 es)) end.
  { apply offer_encodes; [done| |by rewrite Hb]. rewrite len_u16s, len_app. unfold suites_len, suites, chrome.
    destruct (bool_decide _); autorewrite with lens; lia. }
  split_and!; try done. by rewrite (Hmsg _ Hx).
Qed.

Lemma given_grease_ext g b : given (push_extension g (mret b)) (fun v => v = enc_ext (EOther g b) /\ len b <= U16_MAX).
Proof.
  unfold push_extension. eapply given_bind; [by apply (given_ret b (fun v => v = b))|]. intros v ->.
  eapply given_bind; [apply given_u16|]. intros l [-> Hl]. by apply given_ret.
Qed.

Lemma assemble_spec name alpn keys random :
  host_name_ok name -> hello_alpn_ok alpn -> keys_wf keys -> len random = 32 ->
  given (assemble secret_of name alpn keys random) (assembled name alpn keys random).
Proof.
  intros Hn Ha Hk Hr. unfold assemble. cbv zeta. eapply given_bind; [apply given_entropy|]. intros seeds Hseeds. cbv beta in Hseeds.
  set (grease := grease_of <$> seeds). assert (Hgl : length grease = 6%nat) by (unfold grease; by rewrite length_fmap).
  assert (Hgok : Forall grease_ok grease) by (apply Forall_fmap, Forall_true; intros; apply grease_of_ok).
  assert (Hg16 : Forall u16_range grease) by (eapply Forall_impl; [exact Hgok|]; by intros x [? _]).
  assert (Hg0 : u16_range (default 0 (grease !! 0%nat))) by (destruct (grease !! 0%nat) eqn:E; [by eapply Forall_lookup_1|done]).
  apply (given_bind _ _ (fun o => o ≡ₚ profile_order (k_profile keys))).
  { destruct (bool_decide _); [apply given_shuffle|by apply given_ret]. }
  intros order Ho. destruct (order_facts (k_profile keys)) as [_ Hfacts]. rewrite <- Ho in Hfacts.
  assert (Hcount : len order = 17) by (unfold len; rewrite Ho; by destruct (k_profile keys)).
  destruct (bool_decide (k_profile keys = Chrome)) eqn:Hchrome.
  - eapply given_bind; [apply given_grease_ext|]. intros first [-> Hf].
    eapply given_bind; [apply given_extensions; try done; eapply Forall_impl; [exact Hfacts|]; by intros k (? & ? & _)|].
    intros mid (es & -> & Hw & Ht & Hfor). eapply given_bind; [apply given_grease_ext|]. intros fin [-> Hl].
    destruct (chrome_ends seeds 4 5 Hseeds ltac:(lia) ltac:(lia)) as (G1 & G2 & G3).
    pose proof (middle_offer name alpn keys grease order es Hgok Hgl Ho Hw Ht Hfor) as Hmid.
    assert (Hng : Forall (fun t => is_grease t = false) (ext_type <$> es)) by (rewrite Ht; eapply Forall_impl; [exact Hfacts|]; by intros k (_ & _ & ?)).
    pose proof (add_grease name alpn keys es _ _ [] [x00] Hmid Hng G1 G2 G3 Hf Hl) as Hall.
    match type of Hall with offer_exts _ _ _ ?all => pose proof (finish_assembled name alpn keys random (default 0 (grease !! 0%nat)) all Hr Hg0) as H end.
    rewrite Hchrome in H. cbv zeta in H. rewrite !fmap_app, !concat_app in H.
    apply H; [|exact Hall]. rewrite !len_app. apply (f_equal len) in Ht. unfold len in Ht, Hcount. rewrite length_fmap in Ht. unfold len, MAX_EXTENSIONS. cbn [length]. lia.
  - eapply given_bind; [by apply (given_ret [] (fun v => v = []))|]. intros first ->.
    eapply given_bind; [apply given_extensions; try done; eapply Forall_impl; [exact Hfacts|]; by intros k (? & ? & _)|].
    intros mid (es & -> & Hw & Ht & Hfor). eapply given_bind; [by apply (given_ret [] (fun v => v = []))|]. intros fin ->.
    pose proof (middle_offer name alpn keys grease order es Hgok Hgl Ho Hw Ht Hfor) as Hmid.
    pose proof (finish_assembled name alpn keys random (default 0 (grease !! 0%nat)) es Hr Hg0) as H.
    rewrite Hchrome in H. cbv zeta in H. cbn [app]. rewrite app_nil_r.
    apply H; [|exact Hmid]. apply (f_equal len) in Ht. unfold len in *. rewrite length_fmap in Ht. unfold MAX_EXTENSIONS. lia.
Qed.

(** ** The session identifier in place *)

Lemma session_split profile g0 random es : len random = 32 ->
  exists pre post, len pre = 39 /\ forall sid, len sid = 32 -> enc_hello (abs_offer profile g0 random sid es) = pre ++ sid ++ post.
Proof.
  intros Hr. pose (n := len (enc_body (abs_offer profile g0 random zeros32 es))).
  exists (HANDSHAKE_TYPE_CLIENT_HELLO :: to_be 3 n ++ to_be 2 771 ++ random ++ [as_u8 32]).
  exists (vec16 (concat (to_be 2 <$> ((if bool_decide (profile = Chrome) then [g0] else []) ++ ciphers profile))) ++ vec8 [x00] ++
          vec16 (concat (enc_ext <$> es))).
  split; [rewrite len_cons, !len_app, Hr, !len_to_be; done|]. intros sid Hs.
  assert (Hn : len (enc_body (abs_offer profile g0 random sid es)) = n).
  { unfold n, enc_body. cbn [abs_offer a_legacy_version a_random a_session_id a_ciphers a_compression a_extensions].
    rewrite !len_app, !len_vec8, Hs. done. }
  unfold enc_hello. rewrite Hn. clearbody n. unfold enc_body. cbn [abs_offer a_legacy_version a_random a_session_id a_ciphers a_compression a_extensions].
  unfold vec8 at 1. rewrite Hs. cbn [app]. rewrite <- !app_assoc. done.
Qed.

Lemma splice_range {A} (pre s s' post : list A) i j :
  len pre = i -> i + len s = j -> take (Z.to_nat i) (pre ++ s ++ post) ++ s' ++ drop (Z.to_nat j) (pre ++ s ++ post) = pre ++ s' ++ post.
Proof.
  intros Hi Hj. destruct (take_exact pre (s ++ post) i Hi) as [-> _]. rewrite (app_assoc pre s post). destruct (take_exact (pre ++ s) post j) as [_ ->]; [slen|done].
Qed.

Lemma write_session m pre s sid post :
  m = pre ++ s ++ post -> len pre = 39 -> len s = 32 -> len sid = 32 ->
  write_range m SESSION_ID_OFFSET (SESSION_ID_OFFSET + SESSION_ID_LEN) sid HTooLarge = Ok (pre ++ sid ++ post).
Proof.
  intros -> Hp Hs Hd. unfold write_range, SESSION_ID_OFFSET, SESSION_ID_LEN. rewrite get_range_some by slen.
  rewrite (proj2 (Z.eqb_eq _ _)) by lia. by rewrite splice_range by lia.
Qed.

(** The server zeroes the identifier and finds the sealed message again. *)
Lemma aad_zeroed h a pre sid post :
  represents h a -> enc_hello a = pre ++ sid ++ post -> len pre = 39 -> len sid = 32 -> a_session_id a = sid ->
  reality_aad h = Some (pre ++ zeros32 ++ post).
Proof.
  intros Hr Ha Hp Hs Hsid. unfold reality_aad, session_ciphertext. rewrite (rep_session_id _ _ Hr), Hsid. cbn [mbind option_bind].
  rewrite Hs. change (32 =? SESSION_ID_LEN) with true. cbn [mbind option_bind]. rewrite (rep_session_range _ _ Hr), Hsid, Hs, (rep_raw _ _ Hr), Ha.
  rewrite get_range_some by slen. cbn [mbind option_bind]. f_equal. change (replicate (Z.to_nat (39 + 32 - 39)) x00) with zeros32.
  by apply splice_range; lia.
Qed.

(** ** The fields the server reads *)

(** A field is set by the one extension of its type, wherever it is. *)
Lemma field_of {A} (pi : Fields -> A) (e : Ext) es f a :
  (forall f e', ext_type e' <> ext_type e -> pi (add_ext f e') = pi f) -> (forall f, pi (add_ext f e) = a) ->
  NoDup (ext_type <$> es) -> e ∈ es -> pi (foldl add_ext f es) = a.
Proof.
  intros Hother Hself Hnd Hin. apply list_elem_of_split in Hin as (l1 & l2 & ->). rewrite foldl_app. cbn [foldl].
  rewrite fmap_app, fmap_cons in Hnd. apply NoDup_app in Hnd as (_ & _ & Hnd). apply NoDup_cons in Hnd as [Hnot _].
  rewrite <- (Hself (foldl add_ext f l1)). generalize (add_ext (foldl add_ext f l1) e). induction l2 as [|e' l2 IH]; intros f'; [done|].
  cbn [foldl]. rewrite fmap_cons, not_elem_of_cons in Hnot. rewrite IH by naive_solver. apply Hother. naive_solver.
Qed.

Lemma offer_fields name alpn keys es f :
  offer_exts name alpn keys es ->
  f_name (foldl add_ext f es) = Some name /\ f_tls13 (foldl add_ext f es) = true /\
  exists g, grease_ok g /\ f_shares (foldl add_ext f es) = offer_shares keys g.
Proof.
  intros [_ Hnd _ Hn _ (vs & Hv & Hvi) (g & Hg & Hs)]. split_and!.
  - apply (field_of f_name (ENames [(x00, name)])); [by intros f' [] Hne|done..].
  - apply (field_of f_tls13 (EVersions vs)); [by intros f' [] Hne|intros f'; by apply bool_decide_eq_true|done..].
  - exists g. split; [done|]. by apply (field_of f_shares (EShares (offer_shares keys g))); [intros f' [] Hne|..].
Qed.

(** The first X25519 share is the client's own. *)
Lemma offer_peer h keys g : keys_wf keys -> grease_ok g -> key_shares h = offer_shares keys g -> peer_x25519 h = Some (x25519_public (k_x25519 keys)).
Proof.
  intros Hk [_ Hg] Hs. unfold peer_x25519. rewrite Hs. unfold offer_shares.
  assert (Hx : len (k_x25519_public keys) = 32) by (rewrite (kw_public _ Hk); apply public_len).
  assert (Hne : g <> X25519_GROUP) by (by intros ->).
  destruct (bool_decide _); cbn [app list_find]; rewrite ?(decide_False (P := (g, _).1 = X25519_GROUP /\ _)) by (cbn; tauto);
    rewrite (decide_False (P := (X25519_MLKEM768_GROUP, _).1 = X25519_GROUP /\ _)) by (by intros [? _]);
    rewrite (decide_True (P := (X25519_GROUP, _).1 = X25519_GROUP /\ _)) by done; cbn; by rewrite (kw_public _ Hk).
Qed.

Lemma parse_record_of v0 v1 m : len m <= U16_MAX ->
  parse_record ([CONTENT_TYPE_HANDSHAKE; v0; v1] ++ to_be 2 (len m) ++ m) = parse_message m.
Proof.
  intros Hm. pose proof (len_nonneg m). unfold parse_record, reject_if, TLS_RECORD_HEADER_LEN.
  assert (Hl : len ([CONTENT_TYPE_HANDSHAKE; v0; v1] ++ to_be 2 (len m) ++ m) = 5 + len m) by slen.
  rewrite Hl, (proj2 (Z.ltb_ge _ _)) by lia. cbn [mbind result_bind].
  assert (E : exists x y, to_be 2 (len m) = [x; y]) by (do 2 eexists; reflexivity). destruct E as (x & y & E).
  assert (Hxy : from_be [x; y] = len m) by (rewrite <- E; apply from_be_to_be; change (256 ^ Z.of_nat 2) with 65536; unfold U16_MAX in Hm; lia).
  rewrite E. set (rec := [CONTENT_TYPE_HANDSHAKE; v0; v1] ++ [x; y] ++ m).
  rewrite (eq_refl : (index rec 0 : result ClientHelloError _) = Ok CONTENT_TYPE_HANDSHAKE).
  rewrite (eq_refl : (index rec 3 : result ClientHelloError _) = Ok x), (eq_refl : (index rec 4 : result ClientHelloError _) = Ok y).
  cbn [mbind result_bind]. rewrite (bool_decide_true (CONTENT_TYPE_HANDSHAKE = TLS_CONTENT_TYPE_HANDSHAKE)) by done.
  cbn [negb mbind result_bind]. rewrite Hxy.
  assert (Hc : checked_add USIZE_MAX 5 (len m) = Some (5 + len m)) by (apply checked_add_some; split; [done|unfold USIZE_MAX, U64_MAX, U16_MAX in *; lia]).
  rewrite Hc. cbn [ok_or mbind result_bind]. rewrite Z.ltb_irrefl, Z.eqb_refl. cbn [negb mbind result_bind].
  assert (Hg : get_range rec 5 (5 + len m) = Some m).
  { change rec with ([CONTENT_TYPE_HANDSHAKE; v0; v1; x; y] ++ m). rewrite get_range_app_r by done. apply get_range_all.
    change (len [CONTENT_TYPE_HANDSHAKE; v0; v1; x; y]) with 5. lia. }
  by rewrite Hg.
Qed.

(** ** Both ends *)

(** What a built record consists of. *)
Record built (name : list byte) (alpn : list (list byte)) (keys : ClientKeyAgreement) (server_public : list byte) (auth : AuthPlaintext)
    (rec : HelloRecord) (key : list byte) : Prop := {
  bl_random : len (hr_random rec) = 32;
  bl_key : client_auth_key keys server_public (hr_random rec) = Ok key;
  bl_message : exists m0, assembled name alpn keys (hr_random rec) m0 /\
    seal_session_id key (hr_random rec) m0 auth = Ok (hr_session_id rec) /\
    write_range m0 SESSION_ID_OFFSET (SESSION_ID_OFFSET + SESSION_ID_LEN) (hr_session_id rec) HTooLarge = Ok (hr_message rec);
  bl_length : hr_record_length rec = len (hr_message rec) /\ len (hr_message rec) <= U16_MAX;
}.

Lemma build_built name alpn keys server_public auth :
  alpn <> [] -> len alpn <= MAX_ALPN_PROTOCOLS -> keys_wf keys ->
  given (build_client_hello secret_of name alpn keys server_public auth) (fun '(rec, key) => built name alpn keys server_public auth rec key).
Proof.
  intros Ha Hc Hk. unfold build_client_hello. apply given_guard. intros Hn%host_name_check. apply given_guard. intros Hal.
  assert (Hok : hello_alpn_ok alpn).
  { split_and!; [done|done|]. apply Forall_forall. intros p Hp. apply not_true_iff_false in Hal. rewrite existsb_exists in Hal.
    pose proof (len_nonneg p). destruct (decide (1 <= len p <= 253)) as [|Hbad]; [done|]. destruct Hal. exists p.
    split; [by apply list_elem_of_In|]. apply orb_true_iff. rewrite Z.eqb_eq, Z.ltb_lt. lia. }
  eapply given_bind; [apply given_entropy|]. intros random Hr. cbv beta in Hr.
  eapply given_bind; [apply given_lift; intros a H; exact H|]. intros key Hkey. cbv beta in Hkey.
  eapply given_bind; [apply assemble_spec; try done; unfold len; lia|]. intros m0 Hm0.
  eapply given_bind; [apply given_lift; intros a H; exact H|]. intros sid Hsid. cbv beta in Hsid.
  eapply given_bind; [apply given_lift; intros a H; exact H|]. intros m Hm. cbv beta in Hm.
  eapply given_bind; [apply given_lift; intros a H; exact H|]. intros rl Hrl. cbv beta in Hrl. apply given_ret.
  constructor; cbn; [unfold len; lia|done| |].
  - exists m0. split_and!; try done. destruct (seal_session_id key random m0 auth); [by injection Hsid as ->|done..].
  - destruct (try_from U16_MAX (len m)) as [z|] eqn:E; [|done]. injection Hrl as ->. apply try_from_some in E. naive_solver.
Qed.

Lemma seal_parts key random m auth sid :
  len random = 32 -> plaintext_wf auth -> seal_session_id key random m auth = Ok sid ->
  exists body tag, sid = body ++ tag /\ len body = 16 /\ len tag = 16 /\ aead_open key (drop 20 random) m body tag = Some (to_bytes auth).
Proof.
  intros Hr (Hv & _ & Hs). unfold seal_session_id, aead_nonce_from_random, seal_session_id_raw.
  assert (Hsl : (slice_from random 20 : result RealityAuthError _) = Ok (drop 20 random)).
  { unfold slice_from. apply slice_ok. rewrite get_range_some by lia. f_equal. apply take_ge. rewrite length_drop. unfold len in *. lia. }
  rewrite Hsl. cbn [mbind result_bind]. destruct (aead_seal key (drop 20 random) m (to_bytes auth)) as [[b t]|] eqn:E; [|done]. cbn.
  intros [= <-]. exists b, t. destruct (seal_len _ _ _ _ _ _ E) as [Hb Ht]. split_and!; try done; [|by eapply open_seal].
  rewrite Hb. unfold to_bytes. slen.
Qed.

(** The record is an offer that parses; with a zeroed session identifier it is
    the message that was sealed. *)
Lemma built_offer name alpn keys server_public auth rec key :
  plaintext_wf auth -> built name alpn keys server_public auth rec key ->
  exists h g0 es pre post, parse_message (hr_message rec) = Ok h /\ parse_record (record rec) = Ok h /\
    represents h (abs_offer (k_profile keys) g0 (hr_random rec) (hr_session_id rec) es) /\ offer_exts name alpn keys es /\
    enc_hello (abs_offer (k_profile keys) g0 (hr_random rec) (hr_session_id rec) es) = pre ++ hr_session_id rec ++ post /\
    len pre = SESSION_ID_OFFSET /\ len (hr_session_id rec) = 32 /\ hr_message rec = pre ++ hr_session_id rec ++ post /\
    seal_session_id key (hr_random rec) (pre ++ zeros32 ++ post) auth = Ok (hr_session_id rec).
Proof.
  intros Hw [Hr Hkey (m0 & (g0 & es & -> & Hg0 & Hec & He & Hel & Hml) & Hseal & Hwr) [Hrl Hrm]].
  destruct (session_split (k_profile keys) g0 (hr_random rec) es Hr) as (pre & post & Hpre & Hsplit).
  pose proof (Hsplit zeros32 eq_refl) as Hz. destruct (seal_parts _ _ _ _ _ Hr Hw Hseal) as (body & tag & Hsid & Hb & Ht & _).
  assert (Hsl : len (hr_session_id rec) = 32) by (rewrite Hsid; slen).
  rewrite (write_session _ _ _ _ _ Hz Hpre eq_refl Hsl) in Hwr. injection Hwr as Hmsg.
  pose (a := abs_offer (k_profile keys) g0 (hr_random rec) (hr_session_id rec) es). pose proof (Hsplit _ Hsl) as Ha. fold a in Ha.
  assert (Hwf : hello_wf a) by (eapply offer_wf; try done; fold a; rewrite Ha, Hmsg; unfold MAX_CLIENT_HELLO_BYTES, U16_MAX in *; lia).
  destruct (proj2 (proj2 (parse_message_exact (enc_hello a))) a Hwf eq_refl) as (h & Hp & Hrep).
  exists h, g0, es, pre, post. rewrite Ha, Hmsg in Hp. rewrite <- Hz. split_and!; try done.
  unfold record. by rewrite Hrl, parse_record_of.
Qed.

(** The server parses the record and finds the client's values. *)
Lemma built_parses name alpn keys server_public auth rec key :
  keys_wf keys -> plaintext_wf auth -> built name alpn keys server_public auth rec key ->
  exists h m0, parse_record (record rec) = Ok h /\ random h = hr_random rec /\ session_id h = Some (hr_session_id rec) /\
    ClientHello.server_name h = Some name /\ offers_tls13 h = true /\ peer_x25519 h = Some (x25519_public (k_x25519 keys)) /\
    reality_aad h = Some m0 /\ seal_session_id key (hr_random rec) m0 auth = Ok (hr_session_id rec).
Proof.
  intros Hk Hw Hb. destruct (built_offer _ _ _ _ _ _ _ Hw Hb) as (h & g0 & es & pre & post & _ & Hp & Hrep & He & Ha & Hpre & Hsl & _ & Hseal).
  destruct (offer_fields name alpn keys es no_fields He) as (Fn & Ft & g & Hg & Fs).
  exists h, (pre ++ zeros32 ++ post). split_and!.
  - exact Hp.
  - apply (rep_random _ _ Hrep).
  - apply (rep_session_id _ _ Hrep).
  - by rewrite (rep_name _ _ Hrep).
  - by rewrite (rep_tls13 _ _ Hrep).
  - eapply offer_peer; [done|exact Hg|]. by rewrite (rep_shares _ _ Hrep).
  - eapply aad_zeroed; [exact Hrep|exact Ha|done|exact Hsl|done].
  - done.
Qed.

(** What the server reads of the offer: the message, the protocols and the
    shares of the client's keys. *)
Lemma built_offers name alpn keys server_public auth rec key :
  plaintext_wf auth -> built name alpn keys server_public auth rec key ->
  exists h g, parse_message (hr_message rec) = Ok h /\ parse_record (record rec) = Ok h /\ raw_message h = hr_message rec /\
    alpn_protocols h = alpn /\ grease_ok g /\ key_shares h = offer_shares keys g.
Proof.
  intros Hw Hb. destruct (built_offer _ _ _ _ _ _ _ Hw Hb) as (h & g0 & es & pre & post & Hm & Hp & Hrep & He & Ha & _ & _ & Hmsg & _).
  destruct (offer_fields name alpn keys es no_fields He) as (_ & _ & g & Hg & Fs). exists h, g. split_and!; [done|done| | |done|].
  - by rewrite (rep_raw _ _ Hrep), Ha, Hmsg.
  - rewrite (rep_alpn _ _ Hrep). apply (field_of f_alpn (EAlpn alpn)); [by intros f' [] Hne|done|apply (oe_types _ _ _ _ He)|apply (oe_alpn _ _ _ _ He)].
  - by rewrite (rep_shares _ _ Hrep).
Qed.

(** The authentication key, as the server derives it. *)
Lemma built_key name alpn keys sk auth rec key :
  built name alpn keys (x25519_public (secret_of sk)) auth rec key ->
  exists shared, x25519_agree (secret_of sk) (x25519_public (k_x25519 keys)) = Some shared /\
    hkdf (take 20 (hr_random rec)) shared AUTH_KEY_INFO 32 = Some key.
Proof.
  intros Hb. pose proof (bl_key _ _ _ _ _ _ _ Hb) as Hkey. pose proof (bl_random _ _ _ _ _ _ _ Hb) as Hrl. unfold client_auth_key in Hkey. rewrite agree_comm in Hkey.
  destruct (x25519_agree (secret_of sk) _) as [shared|]; [|done]. exists shared. split; [done|]. cbn in Hkey. unfold derive_auth_key in Hkey.
  assert (Hsl : (slice (hr_random rec) 0 20 : result RealityAuthError _) = Ok (take 20 (hr_random rec)))
    by (apply slice_ok; rewrite get_range_some by lia; done).
  rewrite Hsl in Hkey. cbn in Hkey. destruct (hkdf _ _ _ _) as [key'|]; [|done]. by injection Hkey as ->.
Qed.
End Agree.

(** C6: the ClientHello a client builds with fresh keys for a server's public
    key is parsed and authenticated by that server. The conditions are: the
    client offers at least one and at most 32 application protocols (outside
    these bounds the hello is built and refused, [empty_alpn_refused]), its
    version, time and short identifier have their field widths, the server name
    matches a configured one, the short identifier belongs to a configured user,
    and the clocks agree within the limit when there is one. Then the server
    reports that user, the client's version and time, and the same
    authentication key as the client, whatever the entropy, the browser profile,
    the extension order and the GREASE values. *)
Theorem reality_agreement `{L : CryptoLaws} `{KL : KemLaws} (secret_of : list byte -> Secret) (b64_decode : list byte -> option (list byte))
    profile keys name alpn auth rec key cfg users a sk pat u now e0 e1 e2 e3 :
  for_profile secret_of profile e0 = Ok (keys, e1) -> alpn <> [] -> len alpn <= MAX_ALPN_PROTOCOLS -> plaintext_wf auth ->
  build_client_hello secret_of name alpn keys (x25519_public (secret_of sk)) auth e2 = Ok ((rec, key), e3) ->
  compile secret_of b64_decode cfg users = Ok a -> b64_decode (private_key cfg) = Some sk ->
  pat ∈ effective_server_names cfg -> name_matches pat name -> configured_owner users (short_id auth) u ->
  time_limit cfg = 0 \/ abs_diff now (time auth) * 1000 <= time_limit cfg ->
  exists h, parse_record (record rec) = Ok h /\ session_id h = Some (hr_session_id rec) /\ random h = hr_random rec /\
    authenticate a h now = Ok {| client_version := version auth; client_time := time auth; r_user_id := u; auth_key := key |}.
Proof.
  intros Hprof Ha Hac Hw Hbuild Hcomp Hsk Hpat Hmatch Howner Htime.
  destruct (for_profile_wf secret_of profile _ _ _ Hprof) as [Hk _].
  pose proof (build_built secret_of name alpn keys _ auth Ha Hac Hk _ _ _ Hbuild) as Hb. cbn in Hb.
  destruct (built_parses name alpn keys _ auth rec key Hk Hw Hb) as (h & m0 & Hp & Hr & Hs & Hn & Ht & Hpeer & Haad & Hseal).
  pose proof (bl_random _ _ _ _ _ _ _ Hb) as Hrl. exists h. split_and!; [done..|].
  apply (authenticate_exact secret_of b64_decode cfg users a h now Hcomp); [by rewrite Hr|].
  destruct (built_key _ _ _ _ _ _ _ _ Hb) as (shared & Hag & Hh).
  destruct (seal_parts _ _ _ _ _ Hrl Hw Hseal) as (body & tag & Hsid & Hb1 & Hb2 & Hopen).
  constructor; cbn [auth_key client_version client_time r_user_id]; [done|by exists name, pat| | |done].
  - exists sk, (x25519_public (k_x25519 keys)), shared. rewrite Hr. done.
  - exists body, tag, m0, auth. rewrite Hr, Hs, Hsid. done.
Qed.

(** ** A concrete run on the transparent primitives *)

#[export] Instance toy_kem : KemOps := {
  P256Key := list byte; p256_from_slice b := Some b; p256_public k := x04 :: fit 64 k;
  p256_ecdh k p := Some (fit 32 [as_u8 (u8 (default x00 (head (fit 64 k))) + u8 (default x00 (head (tail p))))]);
  MlKemKey := list byte; mlkem_from_seed s := s; mlkem_encapsulation_key := fit 1184; mlkem_decapsulate k c := fit 32 c;
  mlkem_import _ := true; mlkem_encapsulate _ r := (fit 1088 r, fit 32 r);
}.

#[export] Instance toy_kem_laws : KemLaws toy_kem.
Proof.
  constructor; cbn -[fit].
  - intros k. rewrite len_cons, (len_fit 64). done.
  - done.
  - intros k p s [= <-]. apply (len_fit 32).
  - intros a b. by rewrite Z.add_comm.
  - intros k. apply (len_fit 1184).
  - intros ek r. apply (len_fit 1088).
  - intros ek r. apply (len_fit 32).
  - intros k r. unfold fit. rewrite take_app_le by (rewrite length_take, length_app, length_replicate; lia).
    rewrite take_take, Nat.min_l by lia. destruct (decide (32 <= length r)%nat).
    + by rewrite !take_app_le by lia.
    + rewrite !take_app_ge by lia. f_equal. rewrite !take_replicate. f_equal. lia.
Qed.

Definition toy_secret (l : list byte) : byte := default x00 (head l).
Definition toy_b64 (l : list byte) : option (list byte) := Some l.

Definition sample_config : RealityConfig :=
  {| cover := bytes_of "www.example.com:443"; private_key := replicate 32 x11; server_names := Some [bytes_of "*.example.com"];
     max_time_diff_ms := None |}.
Definition sample_user : list byte := replicate 16 x33.
Definition sample_users : list (list byte * list byte) := [(replicate 16 x44, bytes_of "ff"); (sample_user, bytes_of "0102030405060708")].
Definition sample_auth : AuthPlaintext :=
  {| version := CLIENT_VERSION; time := 1700000000; short_id := [x01; x02; x03; x04; x05; x06; x07; x08] |}.

Definition sample_entropy : list byte := replicate 128 x05.
Definition sample_keys : ClientKeyAgreement :=
  {| k_profile := Chrome; k_p256 := None; k_x25519 := x05; k_x25519_public := x25519_public x05; k_hybrid_x25519 := x05;
     k_hybrid_x25519_public := x25519_public x05; k_hybrid_mlkem := replicate 64 x05; k_hybrid_encap := fit 1184 (replicate 64 x05) |}.

Definition sample_build : result HelloError (HelloRecord * list byte * list byte) :=
  build_client_hello toy_secret (bytes_of "www.example.com") [bytes_of "h2"] sample_keys (x25519_public (toy_secret (replicate 32 x11)))
    sample_auth (replicate 600 x06).

Definition sample_record : HelloRecord * list byte :=
  match sample_build with Ok (v, _) => v | _ => ({| hr_message := []; hr_record_length := 0; hr_random := []; hr_session_id := []; hr_profile := Chrome |}, []) end.
Definition sample_left : list byte := match sample_build with Ok (_, e) => e | _ => [] end.

Definition sample_server : RealityAuthenticator :=
  {| a_private_key := x11; a_server_names := [bytes_of "*.example.com"];
     a_short_ids := Sorted [{| b_short_id := [x01; x02; x03; x04; x05; x06; x07; x08]; b_user_id := sample_user |};
                            {| b_short_id := [xff; x00; x00; x00; x00; x00; x00; x00]; b_user_id := replicate 16 x44 |}];
     a_max_time_diff_ms := 60000 |}.

Lemma sample_compiles : compile toy_secret toy_b64 sample_config sample_users = Ok sample_server.
Proof. vm_compute. reflexivity. Qed.

Lemma sample_matches : name_matches (bytes_of "*.example.com") (bytes_of "www.example.com").
Proof. apply server_name_matches_iff. vm_compute. reflexivity. Qed.

Lemma sample_owner : configured_owner sample_users (short_id sample_auth) sample_user.
Proof. exists (bytes_of "0102030405060708"). split; [right; left|]. vm_compute. reflexivity. Qed.

Lemma reality_agreement_witness : exists h,
  parse_record (record sample_record.1) = Ok h /\
  authenticate sample_server h 1700000042 =
    Ok {| client_version := CLIENT_VERSION; client_time := 1700000000; r_user_id := sample_user; auth_key := sample_record.2 |}.
Proof.
  destruct (reality_agreement (C := toy_ops) (K := toy_kem) toy_secret toy_b64 Chrome sample_keys (bytes_of "www.example.com") [bytes_of "h2"] sample_auth
    sample_record.1 sample_record.2 sample_config sample_users sample_server (replicate 32 x11) (bytes_of "*.example.com") sample_user
    1700000042 sample_entropy [] (replicate 600 x06) sample_left) as (h & Hp & _ & _ & Ha).
  - vm_compute. reflexivity.
  - done.
  - vm_compute. discriminate.
  - split; [reflexivity|]. split; [vm_compute; split; discriminate|reflexivity].
  - vm_compute. reflexivity.
  - exact sample_compiles.
  - reflexivity.
  - left.
  - exact sample_matches.
  - exact sample_owner.
  - right. vm_compute. discriminate.
  - exists h. split; [exact Hp|exact Ha].
Defined.

Definition sample_parsed : ClientHello :=
  match parse_record (record sample_record.1) with
  | Ok h => h
  | _ => {| raw_message := []; random := []; session_id_range := (0, 0); server_name_range := None; alpn_ranges := []; key_share_ranges := [];
            cipher_suites := []; offers_tls13 := false; offers_psk := false |}
  end.

Lemma reality_auth_exact_witness :
  authenticate sample_server sample_parsed 1700000042 <> Panic /\
  authentic toy_secret toy_b64 sample_config sample_users sample_parsed 1700000042
    {| client_version := CLIENT_VERSION; client_time := 1700000000; r_user_id := sample_user; auth_key := sample_record.2 |}.
Proof.
  destruct (reality_auth_exact (C := toy_ops) toy_secret toy_b64 sample_config sample_users sample_server sample_parsed 1700000042
    sample_compiles ltac:(vm_compute; reflexivity)) as [H1 H2].
  split; [exact H1|]. apply H2. vm_compute. reflexivity.
Defined.

(** The client also accepts an empty protocol list, and writes an ALPN extension
    that its own server's parser refuses. *)
Lemma empty_alpn_refused : exists rec key rest,
  build_client_hello toy_secret (bytes_of "www.example.com") [] sample_keys (x25519_public (toy_secret (replicate 32 x11)))
    sample_auth (replicate 600 x06) = Ok (rec, key, rest) /\
  parse_record (record rec) = Err (ChMalformed "ALPN").
Proof.
  pose (r := build_client_hello toy_secret (bytes_of "www.example.com") [] sample_keys (x25519_public (toy_secret (replicate 32 x11)))
    sample_auth (replicate 600 x06)).
  assert (H : match r with Ok (rec, _, _) => parse_record (record rec) = Err (ChMalformed "ALPN") | _ => False end) by (vm_compute; reflexivity).
  fold r. destruct r as [[[rec key] rest]| |]; [|done..]. by exists rec, key, rest.
Qed.
