(* ===== verification/HelloRead.v ===== *)
(** * Reading a ClientHello from the socket ([src/protocol/reality/read.rs])

    The loop that assembles one ClientHello from handshake records under a
    deadline, and its exact behaviour: whatever the sizes of the reads, it
    consumes whole records up to the one that completes the message, keeps every
    consumed byte for the fallback, and fails only when the stream has no such
    prefix or the socket or the deadline failed. *)

From S2P Require Import Prelude Cursor Effects ClientHello HelloSpec HelloExact.
#[local] Open Scope Z_scope.

Definition MAX_TLS_PLAINTEXT_BYTES : Z := 16 * 1024.
Definition MAX_CLIENT_HELLO_RECORDS : nat := 16.
Definition READ_SCRATCH_BYTES : Z := 4 * 1024.

Inductive ClientHelloReadErrorKind :=
| RdTimeout | RdUnexpectedEof | RdIo | RdRecordTooLarge | RdTooManyRecords | RdUnexpectedRecordType | RdInvalid (e : ClientHelloError).

(** What the socket does with one read under the deadline: it returns at most
    [n] of the bytes that are there (at least one), fails, or the deadline
    passes. A stream with nothing left is closed. *)
Inductive ReadOutcome := Deliver (n : Z) | IoFailure | DeadlinePassed.

(** The connection: the bytes the peer still sends before closing, the
    outcomes of the coming reads (when they end the deadline has passed), and
    the bytes consumed so far. *)
Record Conn := { net : list byte; outcomes : list ReadOutcome; wire_prefix : list byte }.

Notation R := (IO Conn ClientHelloReadErrorKind).

(** [time::timeout_at(deadline, reader.read(buffer)).await] into [read_len] bytes,
    appended to the prefix. *)
Definition read_some (read_len : Z) : R unit := fun c =>
  match outcomes c with
  | [] => (Err RdTimeout, c)
  | DeadlinePassed :: os => (Err RdTimeout, {| net := net c; outcomes := os; wire_prefix := wire_prefix c |})
  | IoFailure :: os => (Err RdIo, {| net := net c; outcomes := os; wire_prefix := wire_prefix c |})
  | Deliver n :: os =>
    let k := Z.to_nat (clamp 1 read_len n) in
    match take k (net c) with
    | [] => (Err RdUnexpectedEof, {| net := net c; outcomes := os; wire_prefix := wire_prefix c |})
    | bytes => (Ok tt, {| net := drop k (net c); outcomes := os; wire_prefix := wire_prefix c ++ bytes |})
    end
  end.

Definition io_panic {A} : R A := fun c => (Panic, c).

(** Every round reads at least one byte, so one round per missing byte is
    enough. *)
Fixpoint read_exact_loop (fuel : nat) (target_len : Z) : R unit :=
  c ← io_get;
  if target_len <=? len (wire_prefix c) then mret tt
  else match fuel with
  | O => io_panic
  | S fuel =>
    let remaining := saturating_sub target_len (len (wire_prefix c)) in
    _ ← read_some (Z.min remaining READ_SCRATCH_BYTES);
    read_exact_loop fuel target_len
  end.

Definition read_exact_to (target_len : Z) : R unit :=
  c ← io_get;
  read_exact_loop (Z.to_nat (target_len - len (wire_prefix c))) target_len.

Definition io_ok_or {A} (e : ClientHelloReadErrorKind) (o : option A) : R A :=
  match o with Some a => mret a | None => io_throw e end.

(** [if b { return Err(failure(e)) }]. *)
Definition io_reject (b : bool) (e : ClientHelloReadErrorKind) : R unit := io_check (negb b) e.

Record ClientHelloRead := { cr_hello : ClientHello; cr_wire_prefix : list byte; cr_remainder : list byte }.

(** One record: its header and its body. *)
Definition read_record : R (list byte) :=
  c ← io_get;
  let header_start := len (wire_prefix c) in
  header_end ← io_ok_or RdRecordTooLarge (checked_add USIZE_MAX header_start TLS_RECORD_HEADER_LEN);
  _ ← read_exact_to header_end;
  c ← io_get;
  header ← io_ok_or RdUnexpectedEof (get_range (wire_prefix c) header_start header_end);
  _ ← io_reject (negb (bool_decide (header !! 0%nat = Some TLS_CONTENT_TYPE_HANDSHAKE))) RdUnexpectedRecordType;
  let record_body_len := from_be (drop 3 header) in
  _ ← io_reject ((record_body_len =? 0) || (MAX_TLS_PLAINTEXT_BYTES <? record_body_len)) RdRecordTooLarge;
  body_end ← io_ok_or RdRecordTooLarge (checked_add USIZE_MAX header_end record_body_len);
  _ ← read_exact_to body_end;
  c ← io_get;
  io_ok_or RdUnexpectedEof (get_range (wire_prefix c) header_end body_end).

(** The declared length of the handshake message, once its header is there. *)
Definition expect (expected : option Z) (handshake : list byte) : R (option Z) :=
  if negb (bool_decide (is_Some expected)) && (4 <=? len handshake) then
    length_bytes ← io_ok_or RdUnexpectedEof (get_range handshake 1 4);
    let declared := from_be length_bytes in
    match checked_add USIZE_MAX 4 declared with
    | Some total => if total <=? MAX_CLIENT_HELLO_BYTES then mret (Some total) else io_throw (RdInvalid ChTooLarge)
    | None => io_throw (RdInvalid ChTooLarge)
    end
  else mret expected.

(** [for _ in 0..MAX_CLIENT_HELLO_RECORDS]. *)
Fixpoint records_loop (rounds : nat) (handshake : list byte) (expected : option Z) : R ClientHelloRead :=
  match rounds with
  | O => io_throw RdTooManyRecords
  | S rounds =>
    record_body ← read_record;
    let handshake := handshake ++ record_body in
    _ ← io_reject (match handshake with kind :: _ => negb (bool_decide (kind = x01)) | [] => false end) (RdInvalid ChNotClientHello);
    expected ← expect expected handshake;
    match expected with
    | Some e =>
      if e <=? len handshake then
        message ← io_ok_or RdUnexpectedEof (get_range handshake 0 e);
        match parse_message message with
        | Ok hello =>
          c ← io_get;
          mret {| cr_hello := hello; cr_wire_prefix := wire_prefix c; cr_remainder := default [] (get_range handshake e (len handshake)) |}
        | Err source => io_throw (RdInvalid source)
        | Panic => io_panic
        end
      else
        _ ← io_reject (MAX_CLIENT_HELLO_BYTES <? len handshake) (RdInvalid ChTooLarge);
        records_loop rounds handshake expected
    | None =>
      _ ← io_reject (MAX_CLIENT_HELLO_BYTES <? len handshake) (RdInvalid ChTooLarge);
      records_loop rounds handshake expected
    end
  end.

(** [deadline] tells whether [Instant::now().checked_add(timeout)] exists. *)
Definition read_client_hello (deadline : bool) (stream : list byte) (os : list ReadOutcome) : result ClientHelloReadErrorKind ClientHelloRead * Conn :=
  let c := {| net := stream; outcomes := os; wire_prefix := [] |} in
  if deadline then records_loop MAX_CLIENT_HELLO_RECORDS [] None c else (Err RdTimeout, c).

(** ** Which streams hold a ClientHello *)

Definition frame (v0 v1 : byte) (body : list byte) : list byte :=
  [TLS_CONTENT_TYPE_HANDSHAKE; v0; v1] ++ to_be 2 (len body) ++ body.

Definition ok_body (b : list byte) : Prop := 1 <= len b <= MAX_TLS_PLAINTEXT_BYTES.

(** With [hs] already read, at most [n] handshake records of the stream complete
    a message: [p] are these records and [rem] what follows the message in the
    last of them. *)
Inductive reads : nat -> list byte -> list byte -> ClientHello -> list byte -> list byte -> Prop :=
| reads_last n hs v0 v1 b rest m rem h :
    ok_body b -> hs ++ b = m ++ rem -> len hs < len m -> parse_message m = Ok h ->
    reads (S n) hs (frame v0 v1 b ++ rest) h (frame v0 v1 b) rem
| reads_more n hs v0 v1 b rest h p rem :
    ok_body b -> reads n (hs ++ b) rest h p rem -> reads (S n) hs (frame v0 v1 b ++ rest) h (frame v0 v1 b ++ p) rem.

(** The socket and the deadline do not fail before the stream is over. *)
Definition healthy (os : list ReadOutcome) (stream : list byte) : Prop :=
  Forall (fun o => exists n, o = Deliver n) os /\ (length stream <= length os)%nat.

Definition env_failure (e : ClientHelloReadErrorKind) : Prop := e = RdTimeout \/ e = RdIo.

Lemma prefix_of_parts {A} (hs b m rem : list A) : hs ++ b = m ++ rem -> len hs <= len m -> exists s, m = hs ++ s /\ b = s ++ rem.
Proof.
  intros E Hl. exists (drop (length hs) m). apply (f_equal (drop (length hs))) in E as E'. rewrite drop_app_length in E'.
  unfold len in Hl. rewrite drop_app_le in E' by lia. split; [|done].
  apply (f_equal (take (length hs))) in E. rewrite take_app_length, take_app_le in E by lia.
  symmetry. rewrite E at 1. apply take_drop.
Qed.

Lemma reads_prefix n hs x h p rem : reads n hs x h p rem -> exists m s, m = hs ++ s /\ s <> [] /\ parse_message m = Ok h.
Proof.
  induction 1 as [n hs v0 v1 b rest m rem h Hb E Hl Hp|n hs v0 v1 b rest h p rem Hb _ (m & s & -> & Hs & Hp)].
  - destruct (prefix_of_parts _ _ _ _ E ltac:(lia)) as (s & -> & _). exists (hs ++ s), s. split_and!; try done. intros ->. rewrite app_nil_r in Hl. lia.
  - exists ((hs ++ b) ++ s), (b ++ s). rewrite <- app_assoc. split_and!; [done| |by rewrite app_assoc].
    intros [_ ?]%app_eq_nil. done.
Qed.

(** A parsed message starts with its type and its length. *)
Lemma parsed_header m h : parse_message m = Ok h ->
  exists body, m = x01 :: to_be 3 (len body) ++ body /\ len m <= MAX_CLIENT_HELLO_BYTES.
Proof.
  intros Hp. destruct (proj1 (proj2 (parse_message_exact m)) h Hp) as (a & Hw & -> & _). exists (enc_body a). split; [done|].
  by apply hello_wf_parts in Hw as [_ ?].
Qed.

Lemma header_fields m s s' h : parse_message m = Ok h -> 4 <= len s -> m ++ s' = s \/ m = s ++ s' ->
  head s = Some x01 /\ get_range s 1 4 = Some (to_be 3 (len m - 4)) /\ from_be (to_be 3 (len m - 4)) = len m - 4 /\ 4 <= len m <= MAX_CLIENT_HELLO_BYTES.
Proof.
  intros (body & -> & Hl)%parsed_header H4 Hs.
  assert (Hlen : len (x01 :: to_be 3 (len body) ++ body) = 4 + len body) by slen. rewrite Hlen in *. replace (4 + len body - 4) with (len body) by lia.
  assert (E : exists t, s = [x01] ++ to_be 3 (len body) ++ t).
  { destruct Hs as [<-|Hs]; [exists (body ++ s'); cbn [app]; by rewrite <- app_assoc|].
    destruct (prefix_of_parts ([x01] ++ to_be 3 (len body)) body s s') as (t & -> & _); [by rewrite <- app_assoc|slen|]. exists t. by rewrite <- app_assoc. }
  destruct E as (t & ->). split_and!; [done| | |pose proof (len_nonneg body); lia..].
  - rewrite get_range_app_r by done. apply get_range_prefix. by rewrite len_to_be.
  - apply from_be_to_be. pose proof (len_nonneg body). unfold MAX_CLIENT_HELLO_BYTES in Hl. change (256 ^ Z.of_nat 3) with 16777216. lia.
Qed.

(** ** Reads *)

(** The connection has consumed [w] and [x] is still to come. *)
Definition at_conn (ok : bool) (w x : list byte) (c : Conn) : Prop :=
  wire_prefix c = w /\ net c = x /\ (ok = true -> healthy (outcomes c) x).

(** Nothing consumed is lost; the failure is the environment's or [short] holds. *)
Definition failed (ok : bool) (w x : list byte) (short : Prop) (e : ClientHelloReadErrorKind) (c : Conn) : Prop :=
  wire_prefix c ++ net c = w ++ x /\ (short \/ ok = false /\ env_failure e).

Lemma read_some_triple ok w x n : 1 <= n ->
  etriple (at_conn ok w x) (read_some n)
    (fun _ c => exists got, got <> [] /\ len got <= n /\ x = got ++ net c /\ at_conn ok (w ++ got) (net c) c)
    (failed ok w x (x = [])).
Proof.
  intros Hn c (Hw & Hx & Hh). unfold read_some. destruct (outcomes c) as [|[k| |] os] eqn:Ho.
  - split; [by rewrite Hw, Hx|]. destruct ok; [|right; split; [done|by left]]. left. destruct (Hh eq_refl) as [_ Hl]. destruct x; [done|cbn in Hl; lia].
  - set (j := Z.to_nat (clamp 1 n k)). assert (Hj : (1 <= j)%nat /\ Z.of_nat j <= n) by (unfold j, clamp; lia).
    destruct (take j (net c)) as [|b t] eqn:Et.
    { split; [by cbn; rewrite Hw, Hx|]. left. rewrite Hx in Et. destruct x; [done|]. destruct j; [lia|done]. }
    exists (b :: t). assert (Hl : len (b :: t) <= n).
    { rewrite <- Et. unfold len. rewrite length_take. lia. }
    cbn [net wire_prefix]. split_and!; try done; [by rewrite <- Et, take_drop|]. unfold at_conn. cbn [net wire_prefix outcomes]. split_and!; [by rewrite Hw|done|].
    intros Hok. destruct (Hh Hok) as [Hf Hlen]. apply Forall_cons in Hf as [_ Hf]. split; [done|]. rewrite Hx, length_drop. cbn in Hlen.
    rewrite Hx in Et. assert (length x <> 0)%nat by (destruct x; [by destruct j|done]). lia.
  - split; [by cbn; rewrite Hw, Hx|]. right. destruct ok; [|split; [done|by right]]. destruct (Hh eq_refl) as [Hf _].
    apply Forall_cons in Hf as [[? ?] _]. done.
  - split; [by cbn; rewrite Hw, Hx|]. right. destruct ok; [|split; [done|by left]]. destruct (Hh eq_refl) as [Hf _].
    apply Forall_cons in Hf as [[? ?] _]. done.
Qed.

Lemma read_exact_triple ok target : forall fuel w x, len w <= target -> (Z.to_nat (target - len w) <= fuel)%nat ->
  etriple (at_conn ok w x) (read_exact_loop fuel target)
    (fun _ c => exists got, x = got ++ net c /\ len (w ++ got) = target /\ at_conn ok (w ++ got) (net c) c)
    (failed ok w x (len x < target - len w)).
Proof.
  induction fuel as [|fuel IH]; intros w x Hw Hf; cbn [read_exact_loop]; apply etriple_get_bind; intros c0 (Hw0 & Hx0 & Hh0); rewrite Hw0.
  - destruct (Z.leb_spec target (len w)); [|lia]. apply etriple_ret. intros c ->. exists []. rewrite app_nil_r, Hx0. split_and!; [done|lia|done].
  - destruct (Z.leb_spec target (len w)).
    { apply etriple_ret. intros c ->. exists []. rewrite app_nil_r, Hx0. split_and!; [done|lia|done]. }
    unfold saturating_sub. intros c ->. pose proof (read_some_triple ok w x (Z.min (Z.max 0 (target - len w)) READ_SCRATCH_BYTES)
      ltac:(unfold READ_SCRATCH_BYTES; lia) c0 (conj Hw0 (conj Hx0 Hh0))) as Hr. unfold mbind, IO_bind.
    destruct (read_some _ c0) as [[[]|e|] c1]; [|destruct Hr as (E & [->|Henv]); split; [done| |done|]; [left; rewrite len_nil; lia|by right]|done].
    destruct Hr as (got & Hne & Hl & -> & Hc1). assert (0 < len got) by (destruct got; [done|slen]).
    specialize (IH (w ++ got) (net c1) ltac:(autorewrite with lens; lia) ltac:(autorewrite with lens; lia) c1 Hc1).
    destruct (read_exact_loop fuel target c1) as [[[]|e|] c2]; [| |done].
    + destruct IH as (got2 & -> & Ht & Hc2). exists (got ++ got2). rewrite !app_assoc in *. done.
    + destruct IH as [E Hs]. split; [by rewrite E, <- app_assoc|]. destruct Hs as [Hs|Hs]; [left|by right]. autorewrite with lens in *. lia.
Qed.

Lemma read_to_triple ok w x target : len w <= target ->
  etriple (at_conn ok w x) (read_exact_to target)
    (fun _ c => exists got, x = got ++ net c /\ len (w ++ got) = target /\ at_conn ok (w ++ got) (net c) c)
    (failed ok w x (len x < target - len w)).
Proof.
  intros Hw. unfold read_exact_to. apply etriple_get_bind. intros c0 H0. destruct H0 as (Hw0 & Hrest). rewrite Hw0.
  intros c ->. by apply (read_exact_triple ok target).
Qed.

Definition has_frame (x : list byte) : Prop := exists v0 v1 b rest, ok_body b /\ x = frame v0 v1 b ++ rest.

Lemma frame_len v0 v1 b : len (frame v0 v1 b) = 5 + len b.
Proof. unfold frame. slen. Qed.

(** What five bytes say about the record behind them. *)
Lemma frame_header g rest : len g = 5 -> has_frame (g ++ rest) ->
  g !! 0%nat = Some TLS_CONTENT_TYPE_HANDSHAKE /\ 1 <= from_be (drop 3 g) <= MAX_TLS_PLAINTEXT_BYTES /\ from_be (drop 3 g) <= len rest.
Proof.
  intros Hg (v0 & v1 & b & r & Hb & E). unfold frame in E. rewrite <- !app_assoc in E.
  rewrite app_assoc in E. apply app_inj_1 in E as [-> ->]; [|pose proof (len_to_be 2 (len b)); unfold len in *; rewrite length_app; cbn; lia].
  change (drop 3 ([TLS_CONTENT_TYPE_HANDSHAKE; v0; v1] ++ to_be 2 (len b))) with (to_be 2 (len b)).
  rewrite from_be_to_be by (unfold ok_body, MAX_TLS_PLAINTEXT_BYTES in Hb; change (256 ^ Z.of_nat 2) with 65536; lia).
  split_and!; [done|apply Hb..|]. slen.
Qed.

Lemma header_frame g : len g = 5 -> g !! 0%nat = Some TLS_CONTENT_TYPE_HANDSHAKE ->
  exists v0 v1, g = [TLS_CONTENT_TYPE_HANDSHAKE; v0; v1] ++ to_be 2 (from_be (drop 3 g)).
Proof.
  intros Hg H0. unfold len in Hg. destruct g as [|a [|v0 [|v1 g]]]; cbn in Hg; try lia. cbn in H0. injection H0 as ->.
  exists v0, v1. change (drop 3 (TLS_CONTENT_TYPE_HANDSHAKE :: v0 :: v1 :: g)) with g. by rewrite to_be_from_be by lia.
Qed.

Lemma read_record_triple ok w x : len w <= 1000000 ->
  etriple (at_conn ok w x) read_record
    (fun b c => exists v0 v1, ok_body b /\ x = frame v0 v1 b ++ net c /\ at_conn ok (w ++ frame v0 v1 b) (net c) c)
    (failed ok w x (~ has_frame x)).
Proof.
  intros Hw. pose proof (len_nonneg w). unfold read_record, TLS_RECORD_HEADER_LEN. apply etriple_get_bind. intros c0 H0. rewrite (proj1 H0).
  rewrite (proj2 (checked_add_some USIZE_MAX (len w) 5 (len w + 5))) by (split; [done|unfold USIZE_MAX, U64_MAX; lia]). cbn [io_ok_or].
  intros c ->. rewrite (io_bind_ok _ _ _ (len w + 5) c0) by done.
  pose proof (read_to_triple ok w x (len w + 5) ltac:(lia) c0 H0) as Hr. unfold mbind at 1, IO_bind at 1.
  destruct (read_exact_to (len w + 5) c0) as [[[]|e|] c1]; [| |done].
  2:{ destruct Hr as [E [Hs|Hs]]; (split; [done|]); [left|by right]. intros (v0 & v1 & b & r & Hb & ->). rewrite len_app, frame_len in Hs.
      pose proof (len_nonneg r). destruct Hb. lia. }
  destruct Hr as (g & -> & Hg & Hc1). rewrite len_app in Hg. rewrite io_get_bind, (proj1 Hc1).
  rewrite get_range_app_r, Z.sub_diag by lia. replace (len w + 5 - len w) with 5 by lia. rewrite (get_range_all g) by lia. cbn [io_ok_or].
  rewrite (io_bind_ok _ _ _ g c1) by done. unfold io_reject, io_check.
  case_bool_decide as Ht; cbn [negb].
  2:{ split; [by rewrite (proj1 Hc1), <- app_assoc|]. left. intros Hf. apply frame_header in Hf as [? _]; [done|lia]. }
  rewrite (io_bind_ok _ _ _ tt c1) by done.
  destruct ((from_be (drop 3 g) =? 0) || (MAX_TLS_PLAINTEXT_BYTES <? from_be (drop 3 g))) eqn:Hlen; cbn [negb].
  { split; [by rewrite (proj1 Hc1), <- app_assoc|]. left. intros Hf. apply frame_header in Hf as (_ & Hb & _); [|lia].
    apply orb_true_iff in Hlen as [Hlen|Hlen]; [apply Z.eqb_eq in Hlen|apply Z.ltb_lt in Hlen]; lia. }
  apply orb_false_iff in Hlen as [Hl1 Hl2]. apply Z.eqb_neq in Hl1. apply Z.ltb_ge in Hl2. rewrite (io_bind_ok _ _ _ tt c1) by done.
  pose proof (from_be_range_n (drop 3 g) 2 ltac:(slen)) as Hrange. unfold MAX_TLS_PLAINTEXT_BYTES in Hl2. set (n := from_be (drop 3 g)) in *.
  rewrite (proj2 (checked_add_some USIZE_MAX (len w + 5) n (len w + 5 + n))) by (split; [done|unfold USIZE_MAX, U64_MAX; lia]). cbn [io_ok_or].
  rewrite (io_bind_ok _ _ _ (len w + 5 + n) c1) by done.
  pose proof (read_to_triple ok (w ++ g) (net c1) (len w + 5 + n) ltac:(autorewrite with lens; lia) c1 Hc1) as Hr. unfold mbind at 1, IO_bind at 1.
  destruct (read_exact_to (len w + 5 + n) c1) as [[[]|e|] c2]; [| |done].
  2:{ destruct Hr as [E [Hs|Hs]]; (split; [by rewrite E, <- app_assoc|]); [left|by right]. intros Hf. apply frame_header in Hf as (_ & _ & Hb); [|lia].
      rewrite len_app in Hs. fold n in Hb. lia. }
  destruct Hr as (b & Hx & Hb & Hc2). rewrite !len_app in Hb. rewrite io_get_bind, (proj1 Hc2).
  rewrite get_range_app_r by (rewrite len_app; lia). rewrite (get_range_all b) || (replace (len w + 5 - len (w ++ g)) with 0 by slen; rewrite (get_range_all b) by slen).
  destruct (header_frame g ltac:(lia) Ht) as (v0 & v1 & Eg). fold n in Eg.
  assert (Hfr : frame v0 v1 b = g ++ b) by (unfold frame; replace (len b) with n by lia; by rewrite app_assoc, <- Eg).
  exists v0, v1. rewrite Hfr. split_and!; [unfold ok_body, MAX_TLS_PLAINTEXT_BYTES; lia|by rewrite Hx, <- app_assoc|]. by rewrite app_assoc.
Qed.

(** ** The record loop *)

(** The bytes read so far do not complete a message. *)
Inductive partial : list byte -> option Z -> Prop :=
| partial_short hs : len hs < 4 -> (forall k, head hs = Some k -> k = x01) -> partial hs None
| partial_known hs l e : 4 <= len hs -> head hs = Some x01 -> get_range hs 1 4 = Some l -> e = 4 + from_be l ->
    e <= MAX_CLIENT_HELLO_BYTES -> len hs < e -> partial hs (Some e).

Lemma frame_inj v0 v1 b rest v0' v1' b' rest' :
  ok_body b -> ok_body b' -> frame v0 v1 b ++ rest = frame v0' v1' b' ++ rest' -> v0 = v0' /\ v1 = v1' /\ b = b' /\ rest = rest'.
Proof.
  intros Hb Hb' E. unfold frame in E. rewrite <- !app_assoc in E. apply app_inj_1 in E as [Ev E]; [|done]. injection Ev as -> ->.
  apply app_inj_1 in E as [El E]; [|done]. apply (f_equal from_be) in El. unfold ok_body, MAX_TLS_PLAINTEXT_BYTES in *.
  rewrite !from_be_to_be in El by (change (256 ^ Z.of_nat 2) with 65536; lia). apply app_inj_1 in E as [-> ->]; [done|]. unfold len in El. lia.
Qed.

(** Reading one record of a stream that completes a message. *)
Lemma reads_inv n hs v0 v1 b rest h p rem : ok_body b -> reads (S n) hs (frame v0 v1 b ++ rest) h p rem ->
  (exists m, hs ++ b = m ++ rem /\ len hs < len m /\ parse_message m = Ok h /\ p = frame v0 v1 b) \/
  (exists p', p = frame v0 v1 b ++ p' /\ reads n (hs ++ b) rest h p' rem).
Proof.
  intros Hb H. remember (S n) as k eqn:Ek. remember (frame v0 v1 b ++ rest) as x eqn:Ex.
  destruct H as [n' hs w0 w1 b' rest' m rem h Hb' E Hl Hp|n' hs w0 w1 b' rest' h p' rem Hb' Hr]; injection Ek as ->;
    apply frame_inj in Ex as (-> & -> & -> & ->); try done; [left; by exists m|right; by exists p'].
Qed.

(** What the stream says about the message when [hs] has been read. *)
Lemma reads_facts n hs v0 v1 b rest h p rem : ok_body b -> reads (S n) hs (frame v0 v1 b ++ rest) h p rem ->
  exists m s, parse_message m = Ok h /\ (m ++ s = hs ++ b \/ m = (hs ++ b) ++ s).
Proof.
  intros Hb [(m & E & _ & Hp & _)|(p' & _ & Hr)]%reads_inv; [by exists m, rem; split; [|left]| |done].
  apply reads_prefix in Hr as (m & s & -> & _ & Hp). eexists _, s. split; [done|by right].
Qed.

Section Loop.
Variables (ok : bool).

(** What a failure of the loop may mean. *)
Definition no_reads (n : nat) (hs x : list byte) : Prop := forall h p rem, ~ reads n hs x h p rem.

Definition loop_post (n : nat) (w hs x : list byte) (r : ClientHelloRead) (c : Conn) : Prop :=
  exists p, reads n hs x (cr_hello r) p (cr_remainder r) /\ cr_wire_prefix r = w ++ p /\ wire_prefix c = w ++ p /\ x = p ++ net c.

Lemma failed_app w g x y e c (S1 S2 : Prop) : y = g ++ x -> (S1 -> S2) -> failed ok (w ++ g) x S1 e c -> failed ok w y S2 e c.
Proof. intros -> HS [E H]. split; [by rewrite E, <- app_assoc|]. tauto. Qed.

(** A record was read and what it completes is not a ClientHello. *)
Lemma reject_after w v0 v1 b x n hs e c :
  ok_body b -> at_conn ok (w ++ frame v0 v1 b) x c ->
  (forall m s h, parse_message m = Ok h -> m ++ s = hs ++ b \/ m = (hs ++ b) ++ s -> False) ->
  failed ok w (frame v0 v1 b ++ x) (no_reads (S n) hs (frame v0 v1 b ++ x)) e c.
Proof.
  intros Hb (Hw & Hx & _) Hno. split; [by rewrite Hw, Hx, <- app_assoc|]. left. intros h p rem Hr.
  apply reads_facts in Hr as (m & s & Hp & Hms); [|done]. by apply (Hno m s h).
Qed.

(** The loop goes on with the next record. *)
Lemma next_round n w hs v0 v1 b x (m : R ClientHelloRead) c :
  ok_body b ->
  (forall h p rem, reads (S n) hs (frame v0 v1 b ++ x) h p rem -> exists p', p = frame v0 v1 b ++ p' /\ reads n (hs ++ b) x h p' rem) ->
  match m c with
  | (Ok r, c') => loop_post n (w ++ frame v0 v1 b) (hs ++ b) x r c'
  | (Err e, c') => failed ok (w ++ frame v0 v1 b) x (no_reads n (hs ++ b) x) e c'
  | (Panic, _) => False
  end ->
  match m c with
  | (Ok r, c') => loop_post (S n) w hs (frame v0 v1 b ++ x) r c'
  | (Err e, c') => failed ok w (frame v0 v1 b ++ x) (no_reads (S n) hs (frame v0 v1 b ++ x)) e c'
  | (Panic, _) => False
  end.
Proof.
  intros Hb Hinv H. destruct (m c) as [[r|e|] c']; [| |done].
  - destruct H as (p & Hr & Hc & Hw & Hx). exists (frame v0 v1 b ++ p). rewrite !app_assoc. split_and!; try done.
    + by apply reads_more.
    + by rewrite <- app_assoc, <- Hx.
  - eapply failed_app; [done| |exact H]. intros Hno h p rem Hr. destruct (Hinv h p rem Hr) as (p' & _ & Hr'). by apply Hno in Hr'.
Qed.

(** The declared length after one more record. *)
Lemma expect_spec hs b expected c : partial hs expected ->
  (len (hs ++ b) < 4 /\ expect expected (hs ++ b) c = (Ok None, c)) \/
  (4 <= len (hs ++ b) /\ exists l, get_range (hs ++ b) 1 4 = Some l /\
    expect expected (hs ++ b) c =
      (if 4 + from_be l <=? MAX_CLIENT_HELLO_BYTES then (Ok (Some (4 + from_be l)), c) else (Err (RdInvalid ChTooLarge), c))).
Proof.
  intros [hs' Hl Hk|hs' l e Hl Hk Hg -> Hm Hlt]; unfold expect.
  - rewrite bool_decide_false by (by intros [? ?]). cbn [negb andb]. destruct (Z.leb_spec 4 (len (hs' ++ b))) as [H4|H4]; [right|by left].
    split; [done|]. rewrite get_range_some by lia. eexists. split; [done|]. cbn [io_ok_or].
    set (l := take _ _). rewrite (io_bind_ok _ _ _ l c) by done. cbv zeta. pose proof (from_be_range_n l 3 ltac:(unfold l; slen)) as Hr. change (256 ^ Z.of_nat 3) with 16777216 in Hr.
    rewrite (proj2 (checked_add_some USIZE_MAX 4 (from_be l) (4 + from_be l))) by (split; [done|unfold USIZE_MAX, U64_MAX; lia]).
    by destruct (_ <=? _).
  - right. pose proof (len_nonneg b). split; [autorewrite with lens; lia|]. exists l. rewrite get_range_app_l by lia. split; [done|].
    rewrite bool_decide_true by (by eexists). by rewrite (proj2 (Z.leb_le (4 + from_be l) MAX_CLIENT_HELLO_BYTES)).
Qed.

(** The record completes the message. *)
Lemma finish_round n w hs v0 v1 b x l expected c :
  ok_body b -> partial hs expected -> at_conn ok (w ++ frame v0 v1 b) x c -> get_range (hs ++ b) 1 4 = Some l ->
  (forall m s h, parse_message m = Ok h -> m ++ s = hs ++ b \/ m = (hs ++ b) ++ s -> 4 + from_be l = len m /\ len m <= MAX_CLIENT_HELLO_BYTES) ->
  0 <= from_be l -> 4 + from_be l <= len (hs ++ b) ->
  match (message ← io_ok_or RdUnexpectedEof (get_range (hs ++ b) 0 (4 + from_be l));
         match parse_message message with
         | Ok hello => c ← io_get;
           mret {| cr_hello := hello; cr_wire_prefix := wire_prefix c; cr_remainder := default [] (get_range (hs ++ b) (4 + from_be l) (len (hs ++ b))) |}
         | Err source => io_throw (RdInvalid source)
         | Panic => io_panic
         end) c with
  | (Ok r, c') => loop_post (S n) w hs (frame v0 v1 b ++ x) r c'
  | (Err e, c') => failed ok w (frame v0 v1 b ++ x) (no_reads (S n) hs (frame v0 v1 b ++ x)) e c'
  | (Panic, _) => False
  end.
Proof.
  intros Hb Hpart Hc Hg Hmsg Hl Hdone. set (e := 4 + from_be l) in *. set (m0 := take (Z.to_nat e) (hs ++ b)).
  assert (Hsplit : hs ++ b = m0 ++ drop (Z.to_nat e) (hs ++ b)) by (unfold m0; by rewrite take_drop).
  assert (Hm0 : len m0 = e) by (unfold m0; slen).
  assert (Hg0 : get_range (hs ++ b) 0 e = Some m0) by (rewrite get_range_some by lia; unfold m0; do 2 f_equal; lia).
  assert (Hrem : default [] (get_range (hs ++ b) e (len (hs ++ b))) = drop (Z.to_nat e) (hs ++ b)).
  { rewrite get_range_some by lia. cbn. apply take_ge. rewrite length_drop. unfold len. lia. }
  rewrite Hg0. cbn [io_ok_or]. rewrite (io_bind_ok _ _ _ m0 c) by done. rewrite Hrem.
  assert (Hhs : len hs < e).
  { destruct Hpart as [hs' Hs _|hs' l' e' Hs _ Hg' -> _ Hlt]; [lia|]. rewrite get_range_app_l in Hg by lia. assert (l' = l) as -> by congruence. lia. }
  destruct (parse_message m0) as [h|err|] eqn:Hp; [| |by destruct (proj1 (parse_message_exact m0))].
  - rewrite io_get_bind. cbn. destruct Hc as (Hw & Hx & _). exists (frame v0 v1 b). cbn. rewrite Hx. split_and!; try done.
    eapply reads_last; [done|exact Hsplit|lia|exact Hp].
  - cbn. apply reject_after; [done..|]. intros m s h Hpm Hms. destruct (Hmsg m s h Hpm Hms) as [Hem _].
    enough (m = m0) as -> by congruence. destruct Hms as [E|E].
    + rewrite Hsplit in E. by apply app_inj_1 in E as [-> _]; [|unfold len in *; lia].
    + assert (s = []) as -> by (apply (f_equal len) in E; rewrite len_app in E; apply len_nil_iff; pose proof (len_nonneg s); lia).
      rewrite app_nil_r in E. subst m. unfold m0. symmetry. apply take_ge. unfold len in *. lia.
Qed.

Lemma first_byte hs b expected : partial hs expected -> ok_body b ->
  exists k t, hs ++ b = k :: t /\ (k = x01 -> forall k', head (hs ++ b) = Some k' -> k' = x01).
Proof.
  intros _ [Hb _]. destruct (hs ++ b) as [|k t] eqn:E; [apply app_eq_nil in E as [_ ->]; change (len (@nil byte)) with 0 in Hb; lia|].
  exists k, t. split; [done|]. by intros -> k' [= <-].
Qed.

Lemma records_triple n : forall w hs x expected,
  len w + 16389 * Z.of_nat n <= 16389 * 16 -> partial hs expected ->
  etriple (at_conn ok w x) (records_loop n hs expected) (loop_post n w hs x) (failed ok w x (no_reads n hs x)).
Proof.
  induction n as [|n IH]; intros w hs x expected Hw Hpart; cbn [records_loop].
  { apply etriple_throw. intros c (Hc & Hx & _). split; [by rewrite Hc, Hx|]. left. intros h p rem Hr. inversion Hr. }
  intros c0 H0. pose proof (read_record_triple ok w x ltac:(lia) c0 H0) as Hr. unfold mbind at 1, IO_bind at 1.
  destruct (read_record c0) as [[b|e|] c1]; [| |done].
  2:{ destruct Hr as [E Hs]. split; [done|]. destruct Hs as [Hs|Hs]; [left|by right]. intros h p rem Hr. apply Hs.
      inversion Hr; subst; by eexists _, _, _, _. }
  destruct Hr as (v0 & v1 & Hb & -> & Hc1). destruct (first_byte hs b expected Hpart Hb) as (k & t & Ek & Hhead). rewrite Ek.
  unfold io_reject at 1, io_check at 1. case_bool_decide as Hk; cbn [negb].
  2:{ apply reject_after; [done..|]. intros m s h Hp Hms. destruct (parsed_header m h Hp) as (body & -> & _).
      rewrite Ek in Hms. destruct Hms as [Hms|Hms]; cbn in Hms; injection Hms as ? _; congruence. }
  rewrite (io_bind_ok _ _ _ tt c1) by done. rewrite <- Ek. specialize (Hhead Hk).
  destruct (expect_spec hs b expected c1 Hpart) as [[H4 He]|(H4 & l & Hg & He)].
  - (* the header is not complete *)
    rewrite (io_bind_ok _ _ _ None c1 He). unfold io_reject, io_check.
    rewrite (proj2 (Z.ltb_ge _ _)) by (unfold MAX_CLIENT_HELLO_BYTES; lia). rewrite (io_bind_ok _ _ _ tt c1) by done.
    apply (next_round n w hs v0 v1 b (net c1)); try done.
    + intros h p rem [(m & E & _ & Hp & _)|(p' & -> & Hr)]%reads_inv; [|by exists p'|done].
      exfalso. destruct (parsed_header m h Hp) as (body & -> & _). apply (f_equal len) in E. pose proof (len_nonneg rem). pose proof (len_nonneg body).
      autorewrite with lens in *. lia.
    + apply IH; [rewrite len_app, frame_len; unfold ok_body, MAX_TLS_PLAINTEXT_BYTES in Hb; lia|by constructor|done].
  - (* the message length is known *)
    assert (Hmsg : forall m s h, parse_message m = Ok h -> m ++ s = hs ++ b \/ m = (hs ++ b) ++ s ->
                   4 + from_be l = len m /\ len m <= MAX_CLIENT_HELLO_BYTES).
    { intros m s h Hp Hms. destruct (header_fields m (hs ++ b) s h Hp H4 Hms) as (_ & Hg' & Hf & Hm).
      assert (l = to_be 3 (len m - 4)) as -> by congruence. lia. }
    destruct (Z.leb_spec (4 + from_be l) MAX_CLIENT_HELLO_BYTES) as [Hmax|Hmax].
    2:{ rewrite (io_bind_err _ _ _ _ _ He). apply reject_after; [done..|]. intros m s h Hp Hms. destruct (Hmsg m s h Hp Hms). lia. }
    rewrite (io_bind_ok _ _ _ _ _ He). pose proof (from_be_range l) as Hfl.
    destruct (Z.leb_spec (4 + from_be l) (len (hs ++ b))) as [Hdone|Hdone].
    + apply (finish_round n w hs v0 v1 b (net c1) l expected); try done. lia.
    + unfold io_reject, io_check. rewrite (proj2 (Z.ltb_ge _ _)) by lia. rewrite (io_bind_ok _ _ _ tt c1) by done.
      apply (next_round n w hs v0 v1 b (net c1)); try done.
      * intros h p rem [(m & E & _ & Hp & _)|(p' & -> & Hr)]%reads_inv; [|by exists p'|done].
        exfalso. destruct (Hmsg m rem h Hp ltac:(by left)) as [Hem _]. apply (f_equal len) in E. pose proof (len_nonneg rem).
        rewrite (len_app m) in E. lia.
      * apply IH; [rewrite len_app, frame_len; unfold ok_body, MAX_TLS_PLAINTEXT_BYTES in Hb; lia| |done].
        eapply partial_known; [done| |exact Hg|done|done|done]. rewrite Ek. by rewrite Hk.
Qed.
End Loop.

(** C21: reading a ClientHello never loses a byte and never panics: whatever
    happens, the bytes kept for the fallback followed by the unread ones are the
    stream. Success means that the consumed prefix is exactly the first
    handshake records (at most sixteen, each with 1 to 16384 bytes) that complete
    a message the parser accepts, and the remainder what follows it in the last
    of them. A stream that starts with such records is read, however its bytes
    arrive, unless the socket fails or the deadline passes first. *)
Theorem client_hello_read_exact stream os :
  let '(res, c) := read_client_hello true stream os in
  stream = wire_prefix c ++ net c /\
  (forall r, res = Ok r -> cr_wire_prefix r = wire_prefix c /\
     reads MAX_CLIENT_HELLO_RECORDS [] stream (cr_hello r) (cr_wire_prefix r) (cr_remainder r)) /\
  (forall h p rem, reads MAX_CLIENT_HELLO_RECORDS [] stream h p rem -> (exists r, res = Ok r) \/ res = Err RdTimeout \/ res = Err RdIo) /\
  (forall h p rem, reads MAX_CLIENT_HELLO_RECORDS [] stream h p rem -> healthy os stream -> exists r, res = Ok r) /\ res <> Panic.
Proof.
  unfold read_client_hello. set (c0 := {| net := stream; outcomes := os; wire_prefix := [] |}).
  assert (Hpart : partial [] None) by (apply partial_short; [done|by intros k]).
  pose proof (records_triple false 16 [] [] stream None ltac:(vm_compute; discriminate) Hpart c0 ltac:(by split_and!)) as Hf.
  assert (Ht : healthy os stream -> match records_loop 16 [] None c0 with
    | (Ok r, c') => loop_post 16 [] [] stream r c' | (Err e, c') => failed true [] stream (no_reads 16 [] stream) e c' | (Panic, _) => False end).
  { intros Hh. apply (records_triple true 16 [] [] stream None ltac:(vm_compute; discriminate) Hpart c0). by split_and!. }
  change MAX_CLIENT_HELLO_RECORDS with 16%nat. destruct (records_loop 16 [] None c0) as [[r|e|] c]; [| |done].
  - destruct Hf as (p & Hr & Hw & Hc & Hx). cbn in Hw, Hc. split_and!; try done.
    + by rewrite Hc.
    + intros r' [= <-]. rewrite Hw. by rewrite Hc.
    + intros h p' rem _. left. by exists r.
    + intros h p' rem _ _. by exists r.
  - destruct Hf as [E Hs]. cbn in E. split_and!; try done.
    + intros h p rem Hr. right. destruct Hs as [Hno|[_ [->| ->]]]; [by apply Hno in Hr|by left|by right].
    + intros h p rem Hr Hh. destruct (Ht Hh) as [_ [Hno|[? _]]]; [by apply Hno in Hr|done].
Qed.

(** A message in two records, read seven bytes at a time, with a byte after the
    message in its record and more after the record. *)
Definition sample_frames : list byte :=
  frame x03 x01 (take 100 (enc_hello sample_hello)) ++ frame x03 x03 (drop 100 (enc_hello sample_hello) ++ [xaa]).
Definition sample_stream : list byte := sample_frames ++ [x17; x03; x03].
Definition sample_outcomes : list ReadOutcome := replicate 1000 (Deliver 7).

Lemma client_hello_read_exact_witness : exists h, reads 16 [] sample_stream h sample_frames [xaa].
Proof.
  pose proof (client_hello_read_exact sample_stream sample_outcomes) as H.
  assert (E : match read_client_hello true sample_stream sample_outcomes with
    | (Ok r, c) => cr_wire_prefix r = sample_frames /\ cr_remainder r = [xaa] | _ => False end)
    by (vm_compute; split; reflexivity).
  destruct (read_client_hello true sample_stream sample_outcomes) as [[r|e|] c]; [|destruct E..].
  destruct E as [E1 E2]. destruct H as (_ & H & _). destruct (H r eq_refl) as [_ H']. rewrite E1, E2 in H'. exists (cr_hello r). exact H'.
Defined.
