(* ===== verification/RealityReplay.v ===== *)
(** * The REALITY replay cache ([src/protocol/reality/replay.rs])

    A two-phase cache: a ClientHello is reserved before the handshake and its
    entry kept only when the ClientFinished commits it. The model keeps the
    concurrency of the source: a reservation is a sequence of critical sections
    (each under one shard's mutex) and atomic operations, commits and drops are
    one critical section each, and a schedule interleaves any number of calls
    with the clock. A key is the SHA-256 digest of the message. *)

From stdpp Require Import gmap sorting.
From S2P Require Import Prelude Replay.
#[local] Open Scope Z_scope.

Definition REPLAY_SHARDS : nat := 16.

Inductive ReplayError := Duplicate | Capacity | ReservationLost | Unavailable.

(** The permit an entry owns is counted in [permits]. *)
Record ReplayEntry := { e_generation : Z; e_committed : bool; e_expires_at : Z }.

Record ReplayShard := { sh_entries : gmap (list byte) ReplayEntry; sh_expirations : list (Z * Z * list byte) }.

(** The governor's bound on replay entries, the two lifetimes and the largest
    representable instant. *)
Record ReplayPolicy := { r_capacity : Z; pending_ttl : Z; committed_ttl : Z; r_instant_max : Z }.

Definition shard_index (key : list byte) : nat :=
  Z.to_nat (match key with b :: _ => u8 b mod Z.of_nat REPLAY_SHARDS | [] => 0 end).

(** ** Critical sections on one shard *)

(** [Reverse((expires_at, generation, key))]: the earliest deadline first. *)
Fixpoint push_expiration (x : Z * Z * list byte) (h : list (Z * Z * list byte)) : list (Z * Z * list byte) :=
  match h with
  | [] => [x]
  | y :: t => if (x.1.1 <? y.1.1) || ((x.1.1 =? y.1.1) && (x.1.2 <=? y.1.2)) then x :: h else y :: push_expiration x t
  end.

Definition still_current (m : gmap (list byte) ReplayEntry) (x : Z * Z * list byte) : bool :=
  match m !! x.2 with
  | Some e => (e_generation e =? x.1.2) && (e_expires_at e =? x.1.1)
  | None => false
  end.

(** The [while] loop of [purge_replay_shard], with the number removed. *)
Fixpoint purge_entries (h : list (Z * Z * list byte)) (m : gmap (list byte) ReplayEntry) (now : Z) : ReplayShard * Z :=
  match h with
  | [] => ({| sh_entries := m; sh_expirations := [] |}, 0)
  | x :: t =>
    if x.1.1 <=? now then
      if still_current m x then let '(sh, removed) := purge_entries t (delete x.2 m) now in (sh, removed + 1)
      else purge_entries t m now
    else ({| sh_entries := m; sh_expirations := h |}, 0)
  end.

Definition purge_replay_shard (sh : ReplayShard) (now : Z) : ReplayShard * Z :=
  purge_entries (sh_expirations sh) (sh_entries sh) now.

Definition compact_stale_expirations (sh : ReplayShard) : ReplayShard :=
  let maximum := saturating_add_u64 (saturating_mul_u64 (Z.of_nat (size (sh_entries sh))) 2) 1024 in
  if len (sh_expirations sh) <=? maximum then sh
  else {| sh_entries := sh_entries sh; sh_expirations := filter (fun x => still_current (sh_entries sh) x = true) (sh_expirations sh) |}.

(** Removal of an entry, whose permit it returns. *)
Definition remove_entry (sh : ReplayShard) (key : list byte) : ReplayShard :=
  compact_stale_expirations {| sh_entries := delete key (sh_entries sh); sh_expirations := sh_expirations sh |}.

Definition insert_entry (sh : ReplayShard) (key : list byte) (generation expires_at : Z) : ReplayShard :=
  {| sh_entries := <[key := {| e_generation := generation; e_committed := false; e_expires_at := expires_at |}]> (sh_entries sh);
     sh_expirations := push_expiration (expires_at, generation, key) (sh_expirations sh) |}.

(** The critical section of [commit_at]: the outcome, the shard and the permits
    returned. *)
Definition commit_section (sh : ReplayShard) (key : list byte) (generation now expires_at : Z) (alloc : bool) : option ReplayError * ReplayShard * Z :=
  match sh_entries sh !! key with
  | None => (Some ReservationLost, sh, 0)
  | Some e =>
    if negb (e_generation e =? generation) || e_committed e || (e_expires_at e <=? now) then
      if (e_generation e =? generation) && negb (e_committed e) then (Some ReservationLost, remove_entry sh key, 1)
      else (Some ReservationLost, sh, 0)
    else if negb alloc then (Some Capacity, sh, 0)
    else (None,
      {| sh_entries := <[key := {| e_generation := e_generation e; e_committed := true; e_expires_at := expires_at |}]> (sh_entries sh);
         sh_expirations := push_expiration (expires_at, generation, key) (sh_expirations sh) |}, 0)
  end.

(** The critical section of [drop]. *)
Definition drop_section (sh : ReplayShard) (key : list byte) (generation : Z) : ReplayShard * Z :=
  match sh_entries sh !! key with
  | Some e => if (e_generation e =? generation) && negb (e_committed e) then (remove_entry sh key, 1) else (sh, 0)
  | None => (sh, 0)
  end.

(** ** Calls and the shared state *)

(** Where a [reserve_key_at] stands. *)
Inductive ReservePc :=
| CFirst | CAcquire | CSweep (shard : nat) | CAcquireAgain | CGeneration | CInsert (generation : Z) | CDone (outcome : option ReplayError).

Record ReserveCall := { rc_key : list byte; rc_now : Z; rc_expires : Z; rc_pc : ReservePc }.

Record ReplayReservation := { rv_key : list byte; rv_generation : Z; rv_expires : Z; rv_active : bool }.

(** What happened to a key, and when: the clock at the event, and for a commit
    the instant its retention is measured from. *)
Inductive Event :=
| Inserted (key : list byte) (clock : Z)
| Committed (key : list byte) (now clock : Z).

Record System := {
  s_shards : list ReplayShard; s_permits : Z; s_next_generation : Z; s_clock : Z;
  s_calls : list ReserveCall; s_reservations : list ReplayReservation; s_log : list Event;
}.

Definition new_system : System :=
  {| s_shards := replicate REPLAY_SHARDS {| sh_entries := ∅; sh_expirations := [] |}; s_permits := 0; s_next_generation := 1; s_clock := 0;
     s_calls := []; s_reservations := []; s_log := [] |}.

Definition with_pc (c : ReserveCall) (pc : ReservePc) : ReserveCall :=
  {| rc_key := rc_key c; rc_now := rc_now c; rc_expires := rc_expires c; rc_pc := pc |}.

Definition set_call (s : System) (i : nat) (c : ReserveCall) : System :=
  {| s_shards := s_shards s; s_permits := s_permits s; s_next_generation := s_next_generation s; s_clock := s_clock s;
     s_calls := <[i := c]> (s_calls s); s_reservations := s_reservations s; s_log := s_log s |}.

Definition set_cache (s : System) (k : nat) (sh : ReplayShard) (returned : Z) : System :=
  {| s_shards := <[k := sh]> (s_shards s); s_permits := s_permits s - returned; s_next_generation := s_next_generation s; s_clock := s_clock s;
     s_calls := s_calls s; s_reservations := s_reservations s; s_log := s_log s |}.

Definition add_permits (s : System) (n : Z) : System :=
  {| s_shards := s_shards s; s_permits := s_permits s + n; s_next_generation := s_next_generation s; s_clock := s_clock s;
     s_calls := s_calls s; s_reservations := s_reservations s; s_log := s_log s |}.

Definition next_generation (s : System) : System :=
  {| s_shards := s_shards s; s_permits := s_permits s; s_next_generation := s_next_generation s + 1; s_clock := s_clock s;
     s_calls := s_calls s; s_reservations := s_reservations s; s_log := s_log s |}.

Definition add_reservation (s : System) (r : ReplayReservation) : System :=
  {| s_shards := s_shards s; s_permits := s_permits s; s_next_generation := s_next_generation s; s_clock := s_clock s;
     s_calls := s_calls s; s_reservations := s_reservations s ++ [r]; s_log := s_log s ++ [Inserted (rv_key r) (s_clock s)] |}.

Definition deactivate (s : System) (j : nat) (r : ReplayReservation) (events : list Event) : System :=
  {| s_shards := s_shards s; s_permits := s_permits s; s_next_generation := s_next_generation s; s_clock := s_clock s;
     s_calls := s_calls s;
     s_reservations := <[j := {| rv_key := rv_key r; rv_generation := rv_generation r; rv_expires := rv_expires r; rv_active := false |}]> (s_reservations s);
     s_log := s_log s ++ events |}.

Definition start_call (p : ReplayPolicy) (key : list byte) (now : Z) : ReserveCall :=
  match checked_add (r_instant_max p) now (pending_ttl p) with
  | Some expires_at => {| rc_key := key; rc_now := now; rc_expires := expires_at; rc_pc := CFirst |}
  | None => {| rc_key := key; rc_now := now; rc_expires := now; rc_pc := CDone (Some Unavailable) |}
  end.

(** One step of a [reserve_key_at]. [grant] is the governor's verdict, which
    never exceeds the capacity; [alloc] that of the allocator. *)
Definition call_step (p : ReplayPolicy) (s : System) (i : nat) (c : ReserveCall) (grant alloc : bool) : option System :=
  let k := shard_index (rc_key c) in
  let granted := grant && (s_permits s <? r_capacity p) in
  match rc_pc c with
  | CFirst =>
    sh ← s_shards s !! k;
    let '(sh, removed) := purge_replay_shard sh (rc_now c) in
    let s := set_cache s k sh removed in
    Some (set_call s i (with_pc c (if bool_decide (is_Some (sh_entries sh !! rc_key c)) then CDone (Some Duplicate) else CAcquire)))
  | CAcquire =>
    if (granted : bool) then Some (set_call (add_permits s 1) i (with_pc c CGeneration)) else Some (set_call s i (with_pc c (CSweep 0)))
  | CSweep j =>
    match s_shards s !! j with
    | None => Some (set_call s i (with_pc c CAcquireAgain))
    | Some sh =>
      let '(sh, removed) := purge_replay_shard sh (rc_now c) in
      Some (set_call (set_cache s j sh removed) i (with_pc c (CSweep (S j))))
    end
  | CAcquireAgain =>
    if (granted : bool) then Some (set_call (add_permits s 1) i (with_pc c CGeneration))
    else Some (set_call s i (with_pc c (CDone (Some Capacity))))
  | CGeneration =>
    if s_next_generation s + 1 <=? U64_MAX then Some (set_call (next_generation s) i (with_pc c (CInsert (s_next_generation s))))
    else Some (set_call (add_permits s (-1)) i (with_pc c (CDone (Some Unavailable))))
  | CInsert g =>
    sh ← s_shards s !! k;
    let '(sh, removed) := purge_replay_shard sh (rc_now c) in
    if bool_decide (is_Some (sh_entries sh !! rc_key c)) then
      Some (set_call (add_permits (set_cache s k sh removed) (-1)) i (with_pc c (CDone (Some Duplicate))))
    else if negb alloc then
      Some (set_call (add_permits (set_cache s k sh removed) (-1)) i (with_pc c (CDone (Some Capacity))))
    else
      let s := set_cache s k (insert_entry sh (rc_key c) g (rc_expires c)) removed in
      let s := add_reservation s {| rv_key := rc_key c; rv_generation := g; rv_expires := rc_expires c; rv_active := true |} in
      Some (set_call s i (with_pc c (CDone None)))
  | CDone _ => None
  end.

(** [commit_after_client_finished]; a failed commit leaves the reservation to its
    drop. *)
Definition commit_step (p : ReplayPolicy) (s : System) (j : nat) (r : ReplayReservation) (now : Z) (alloc : bool) : option (System * option ReplayError) :=
  match checked_add (r_instant_max p) now (committed_ttl p) with
  | None => Some (s, Some Unavailable)
  | Some expires_at =>
    sh ← s_shards s !! shard_index (rv_key r);
    let '(outcome, sh, returned) := commit_section sh (rv_key r) (rv_generation r) now expires_at alloc in
    let s := set_cache s (shard_index (rv_key r)) sh returned in
    Some (match outcome with None => deactivate s j r [Committed (rv_key r) now (s_clock s)] | Some _ => s end, outcome)
  end.

Definition drop_step (s : System) (j : nat) (r : ReplayReservation) : option System :=
  sh ← s_shards s !! shard_index (rv_key r);
  let '(sh, returned) := drop_section sh (rv_key r) (rv_generation r) in
  Some (deactivate (set_cache s (shard_index (rv_key r)) sh returned) j r []).

(** What a schedule may do next. Instants are read from the clock, so they are
    never ahead of it. *)
Inductive Action :=
| ATick (d : Z) | AReserve (key : list byte) (now : Z) | AStep (i : nat) (grant alloc : bool)
| ACommit (j : nat) (now : Z) (alloc : bool) | ADrop (j : nat) | APurge (shard : nat) (now : Z).

Definition act (p : ReplayPolicy) (s : System) (a : Action) : option System :=
  match a with
  | ATick d => if 0 <=? d then
      Some {| s_shards := s_shards s; s_permits := s_permits s; s_next_generation := s_next_generation s; s_clock := s_clock s + d;
              s_calls := s_calls s; s_reservations := s_reservations s; s_log := s_log s |} else None
  | AReserve key now => if (0 <=? now) && (now <=? s_clock s) then
      Some {| s_shards := s_shards s; s_permits := s_permits s; s_next_generation := s_next_generation s; s_clock := s_clock s;
              s_calls := s_calls s ++ [start_call p key now]; s_reservations := s_reservations s; s_log := s_log s |} else None
  | AStep i grant alloc => c ← s_calls s !! i; call_step p s i c grant alloc
  | ACommit j now alloc =>
    r ← s_reservations s !! j;
    if rv_active r && (0 <=? now) && (now <=? s_clock s) then '(s, _) ← commit_step p s j r now alloc; Some s else None
  | ADrop j => r ← s_reservations s !! j; if rv_active r then drop_step s j r else None
  | APurge k now =>
    sh ← s_shards s !! k;
    if now <=? s_clock s then let '(sh, removed) := purge_replay_shard sh now in Some (set_cache s k sh removed) else None
  end.

(** Actions that are not enabled are skipped. *)
Definition run (p : ReplayPolicy) (s : System) (actions : list Action) : System :=
  foldl (fun s a => default s (act p s a)) s actions.

(** ** Critical sections keep what is current *)

Definition shard_size (sh : ReplayShard) : Z := Z.of_nat (size (sh_entries sh)).

(** Purging removes nothing that is still current, and counts what it removes. *)
Lemma purge_entries_spec now h : forall m,
  let '(sh, removed) := purge_entries h m now in
  (forall k e, m !! k = Some e -> now < e_expires_at e -> sh_entries sh !! k = Some e) /\
  (forall k e, sh_entries sh !! k = Some e -> m !! k = Some e) /\ removed = Z.of_nat (size m) - shard_size sh /\ 0 <= removed.
Proof.
  induction h as [|x t IH]; intros m; cbn [purge_entries].
  { unfold shard_size. cbn. split_and!; try done; lia. }
  destruct (Z.leb_spec x.1.1 now) as [Hx|Hx]; [|unfold shard_size; cbn; split_and!; try done; lia].
  destruct (still_current m x) eqn:Hc; [|apply IH].
  specialize (IH (delete x.2 m)). destruct (purge_entries t (delete x.2 m) now) as [sh removed].
  destruct IH as (H1 & H2 & H3 & H4). unfold still_current in Hc. destruct (m !! x.2) as [e|] eqn:Em; [|done].
  apply andb_true_iff in Hc as [_ Hexp]. apply Z.eqb_eq in Hexp. split_and!.
  - intros k e' Hk He'. apply H1; [|done]. rewrite lookup_delete_ne; [done|]. intros E. rewrite <- E, Em in Hk. injection Hk as ->. lia.
  - intros k e' Hk. apply H2 in Hk. by apply lookup_delete_Some in Hk as [_ ?].
  - assert (size m = S (size (delete x.2 m))) as -> by (rewrite <- (insert_delete_id m x.2 e Em) at 1; apply map_size_insert_None, lookup_delete_eq). lia.
  - lia.
Qed.

Lemma remove_entries sh k : sh_entries (remove_entry sh k) = delete k (sh_entries sh).
Proof. unfold remove_entry, compact_stale_expirations. cbn. by destruct (_ <=? _). Qed.

Lemma size_remove sh k e : sh_entries sh !! k = Some e -> shard_size (remove_entry sh k) = shard_size sh - 1.
Proof.
  intros Hk. unfold shard_size. rewrite remove_entries.
  rewrite <- (insert_delete_id (sh_entries sh) k e Hk) at 2. rewrite map_size_insert_None by apply lookup_delete_eq. lia.
Qed.

(** ** The invariant *)

#[local] Arguments zsum : simpl never.

Definition cached (s : System) (k : list byte) : option ReplayEntry := s_shards s !! shard_index k ≫= fun sh => sh_entries sh !! k.

Definition holds_permit (c : ReserveCall) : Z := match rc_pc c with CGeneration | CInsert _ => 1 | _ => 0 end.
Definition call_generation (c : ReserveCall) : option Z := match rc_pc c with CInsert g => Some g | _ => None end.
Definition generations (s : System) : list Z := (rv_generation <$> s_reservations s) ++ omap call_generation (s_calls s).

Definition event_key (e : Event) : list byte := match e with Inserted k _ => k | Committed k _ _ => k end.
Definition event_clock (e : Event) : Z := match e with Inserted _ c => c | Committed _ _ c => c end.

(** After a commit nothing happens to its key within the retention. *)
Definition spaced (p : ReplayPolicy) (e1 e2 : Event) : Prop :=
  match e1 with Committed k now _ => event_key e2 = k -> now + committed_ttl p <= event_clock e2 | Inserted _ _ => True end.

Record replay_inv (p : ReplayPolicy) (s : System) : Prop := {
  ri_shards : length (s_shards s) = REPLAY_SHARDS;
  ri_permits : s_permits s = zsum shard_size (s_shards s) + zsum holds_permit (s_calls s);
  ri_capacity : s_permits s <= r_capacity p;
  ri_calls : Forall (fun c => rc_now c <= s_clock s) (s_calls s);
  ri_gens : NoDup (generations s) /\ Forall (fun g => g < s_next_generation s) (generations s);
  ri_active : forall j r, s_reservations s !! j = Some r -> rv_active r = true -> s_clock s < rv_expires r ->
    cached s (rv_key r) = Some {| e_generation := rv_generation r; e_committed := false; e_expires_at := rv_expires r |};
  ri_committed : forall k now c, Committed k now c ∈ s_log s -> s_clock s < now + committed_ttl p ->
    exists e, cached s k = Some e /\ e_committed e = true /\ now + committed_ttl p <= e_expires_at e;
  ri_log : StronglySorted (spaced p) (s_log s);
}.

Lemma cached_insert s k sh key : (k < length (s_shards s))%nat ->
  cached (set_cache s k sh 0) key = if decide (shard_index key = k) then sh_entries sh !! key else cached s key.
Proof.
  intros Hk. unfold cached, set_cache. cbn. destruct (decide (shard_index key = k)) as [->|Hne].
  - by rewrite list_lookup_insert_eq.
  - by rewrite list_lookup_insert_ne.
Qed.

Lemma cached_set s k sh n key : cached (set_cache s k sh n) key = cached (set_cache s k sh 0) key.
Proof. done. Qed.

(** A pending entry whose reservation is still active. *)
Definition reserved (s : System) (key : list byte) (e : ReplayEntry) : Prop :=
  exists j r, s_reservations s !! j = Some r /\ rv_active r = true /\ rv_key r = key /\ rv_generation r = e_generation e.

(** A cache update that keeps current entries keeps the invariant. *)
Lemma inv_cache p s k sh sh' n :
  replay_inv p s -> s_shards s !! k = Some sh ->
  (forall key e, sh_entries sh !! key = Some e -> s_clock s < e_expires_at e -> e_committed e = true \/ reserved s key e -> sh_entries sh' !! key = Some e) ->
  n = shard_size sh - shard_size sh' -> 0 <= n -> replay_inv p (set_cache s k sh' n).
Proof.
  intros [H1 H2 H3 H4 H5 H6 H7 H8] Hk Hkeep Hn Hpos. pose proof (lookup_lt_Some _ _ _ Hk) as Hlt.
  assert (Hc : forall key e, cached s key = Some e -> s_clock s < e_expires_at e ->
    e_committed e = true \/ reserved s key e -> cached (set_cache s k sh' n) key = Some e).
  { intros key e Hc He Hl. rewrite cached_set, cached_insert by done. destruct (decide (shard_index key = k)) as [E|E]; [|done].
    apply Hkeep; [|done..]. unfold cached in Hc. by rewrite E, Hk in Hc. }
  constructor; cbn; try done.
  - by rewrite length_insert.
  - rewrite (zsum_insert shard_size _ _ sh sh' Hk). lia.
  - lia.
  - intros j r Hr Ha Hx. apply Hc; [by eapply H6|done|]. right. by exists j, r.
  - intros key now c Hin Hx. destruct (H7 key now c Hin Hx) as (e & He & Hcm & Hex). exists e. split_and!; try done. apply Hc; [done|lia|by left].
Qed.

Lemma inv_purge p s k sh now : replay_inv p s -> s_shards s !! k = Some sh -> now <= s_clock s ->
  let '(sh', n) := purge_replay_shard sh now in replay_inv p (set_cache s k sh' n).
Proof.
  intros Hi Hk Hnow. pose proof (purge_entries_spec now (sh_expirations sh) (sh_entries sh)) as H. unfold purge_replay_shard.
  destruct (purge_entries _ _ now) as [sh' n]. destruct H as (H1 & H2 & H3 & H4). eapply inv_cache; [done|exact Hk| |exact H3|done].
  intros key e He Hx _. apply H1; [done|lia].
Qed.

(** A call moves on; its permit is accounted for. *)
Lemma inv_call p s i c c' n :
  replay_inv p s -> s_calls s !! i = Some c -> rc_now c' = rc_now c -> n = holds_permit c' - holds_permit c ->
  s_permits s + n <= r_capacity p -> (forall g, call_generation c' = Some g -> call_generation c = Some g) ->
  replay_inv p (set_call (add_permits s n) i c').
Proof.
  intros [H1 H2 H3 H4 H5 H6 H7 H8] Hc Hnow Hn Hcap Hg. constructor; cbn; try done.
  - rewrite (zsum_insert holds_permit _ _ c c' Hc). lia.
  - apply Forall_insert; [done|]. rewrite Hnow. eapply Forall_lookup_1 in H4; [exact H4|exact Hc].
  - destruct H5 as [Hnd Hlt].
    assert (Hsub : generations (set_call (add_permits s n) i c') `sublist_of` generations s).
    { unfold generations. cbn. apply sublist_app; [done|]. rewrite <- (take_drop_middle (s_calls s) i c Hc) at 2.
      rewrite insert_take_drop by (by eapply lookup_lt_Some). rewrite !omap_app. apply sublist_app; [done|]. cbn.
      destruct (call_generation c') as [g|] eqn:Eg; [rewrite (Hg g eq_refl); done|]. destruct (call_generation c); [by apply sublist_cons|done]. }
    split; [by eapply sublist_NoDup|]. apply Forall_forall. intros g Hin. eapply Forall_forall in Hlt; [exact Hlt|].
    eapply elem_of_submseteq; [exact Hin|by apply sublist_submseteq].
Qed.

Lemma inv_call_same p s i c c' :
  replay_inv p s -> s_calls s !! i = Some c -> rc_now c' = rc_now c -> holds_permit c' = holds_permit c ->
  (forall g, call_generation c' = Some g -> call_generation c = Some g) -> replay_inv p (set_call s i c').
Proof.
  intros Hi Hc Hnow Hp Hg. assert (E : s = add_permits s 0) by (destruct s; unfold add_permits; cbn; f_equal; lia). rewrite E.
  eapply inv_call; try done; [lia|]. destruct Hi. lia.
Qed.

Lemma inv_tick p s d : replay_inv p s -> 0 <= d ->
  replay_inv p {| s_shards := s_shards s; s_permits := s_permits s; s_next_generation := s_next_generation s; s_clock := s_clock s + d;
                  s_calls := s_calls s; s_reservations := s_reservations s; s_log := s_log s |}.
Proof.
  intros [H1 H2 H3 H4 H5 H6 H7 H8] Hd. constructor; cbn; try done.
  - eapply Forall_impl; [exact H4|]. cbn. intros; lia.
  - intros j r Hr Ha Hx. apply (H6 j r Hr Ha). lia.
  - intros k now c Hin Hx. apply (H7 k now c Hin). lia.
Qed.

Lemma inv_start p s key now : replay_inv p s -> now <= s_clock s ->
  replay_inv p {| s_shards := s_shards s; s_permits := s_permits s; s_next_generation := s_next_generation s; s_clock := s_clock s;
                  s_calls := s_calls s ++ [start_call p key now]; s_reservations := s_reservations s; s_log := s_log s |}.
Proof.
  intros [H1 H2 H3 H4 H5 H6 H7 H8] Hnow. constructor; cbn; try done.
  - rewrite zsum_app, H2. change (zsum holds_permit [?x]) with (holds_permit x + 0). unfold start_call. destruct (checked_add _ _ _); cbn; lia.
  - apply Forall_app_2; [done|]. apply Forall_singleton. unfold start_call. by destruct (checked_add _ _ _).
  - assert (E : omap call_generation (s_calls s ++ [start_call p key now]) = omap call_generation (s_calls s)).
    { rewrite omap_app. unfold start_call. destruct (checked_add _ _ _); cbn; apply app_nil_r. }
    unfold generations in *. cbn. by rewrite E.
Qed.

Lemma omap_insert_perm (l : list ReserveCall) i c c' : l !! i = Some c ->
  from_option (fun g => [g]) [] (call_generation c) ++ omap call_generation (<[i := c']> l)
    ≡ₚ from_option (fun g => [g]) [] (call_generation c') ++ omap call_generation l.
Proof.
  intros Hc. rewrite <- (take_drop_middle l i c Hc) at 2. rewrite insert_take_drop by (by eapply lookup_lt_Some).
  rewrite !omap_app. cbn. destruct (call_generation c), (call_generation c'); cbn; solve_Permutation || (rewrite <- ?Permutation_middle; by repeat constructor).
Qed.

(** A fetched generation is new. *)
Lemma inv_generation p s i c : replay_inv p s -> s_calls s !! i = Some c -> rc_pc c = CGeneration ->
  replay_inv p (set_call (next_generation s) i (with_pc c (CInsert (s_next_generation s)))).
Proof.
  intros [H1 H2 H3 H4 [Hnd Hlt] H6 H7 H8] Hc Hpc. constructor; cbn; try done.
  - rewrite (zsum_insert holds_permit _ _ c _ Hc). unfold holds_permit at 2 3. cbn. rewrite Hpc. lia.
  - apply Forall_insert; [done|]. cbn. by apply (Forall_lookup_1 _ _ i c H4).
  - assert (Hp : generations (set_call (next_generation s) i (with_pc c (CInsert (s_next_generation s)))) ≡ₚ s_next_generation s :: generations s).
    { unfold generations. cbn. pose proof (omap_insert_perm (s_calls s) i c (with_pc c (CInsert (s_next_generation s))) Hc) as Hq.
      unfold call_generation at 1 3 in Hq. cbn in Hq. rewrite Hpc in Hq. cbn in Hq. rewrite Hq. symmetry. apply Permutation_middle. }
    rewrite Hp. split.
    + apply NoDup_cons. split; [|done]. intros Hin. eapply Forall_forall in Hlt; [|exact Hin]. cbn in Hlt. lia.
    + apply Forall_cons. split; [lia|]. eapply Forall_impl; [exact Hlt|]. cbn. intros; lia.
Qed.

Lemma set_cache_twice s k sh1 sh2 n m : set_cache (set_cache s k sh1 n) k sh2 m = set_cache s k sh2 (n + m).
Proof. unfold set_cache. cbn. rewrite list_insert_insert_eq. f_equal. lia. Qed.

(** A key whose entry is not a committed one has no commit within its retention. *)
Lemma log_snoc p s ev : replay_inv p s -> event_clock ev = s_clock s ->
  (forall e, cached s (event_key ev) = Some e -> e_committed e = false) -> StronglySorted (spaced p) (s_log s ++ [ev]).
Proof.
  intros [_ _ _ _ _ _ H7 H8] Hck Hne. apply StronglySorted_app_2; [|done|by repeat constructor].
  intros e1 e2 Hin ->%list_elem_of_singleton. destruct e1 as [k c|k now c]; cbn; [done|]. intros Hk. rewrite Hck.
  apply Z.nlt_ge. intros Hlt. destruct (H7 k now c Hin Hlt) as (e & He & Hcm & _). rewrite <- Hk in He. apply Hne in He. congruence.
Qed.

Lemma generation_unique p s j j' r r' : replay_inv p s -> s_reservations s !! j = Some r -> s_reservations s !! j' = Some r' ->
  rv_generation r = rv_generation r' -> j = j'.
Proof.
  intros [_ _ _ _ [Hnd _] _ _ _] Hj Hj' E. unfold generations in Hnd. apply NoDup_app in Hnd as [Hnd _].
  apply (NoDup_lookup _ j j' (rv_generation r) Hnd); rewrite list_lookup_fmap; [by rewrite Hj|rewrite Hj'; cbn; by rewrite E].
Qed.

(** The reservation's entry is published with the permit of its call. *)
Lemma inv_insert p s i c g sh : replay_inv p s -> s_calls s !! i = Some c -> rc_pc c = CInsert g ->
  s_shards s !! shard_index (rc_key c) = Some sh -> sh_entries sh !! rc_key c = None ->
  replay_inv p (set_call (add_reservation (set_cache s (shard_index (rc_key c)) (insert_entry sh (rc_key c) g (rc_expires c)) 0)
    {| rv_key := rc_key c; rv_generation := g; rv_expires := rc_expires c; rv_active := true |}) i (with_pc c (CDone None))).
Proof.
  intros Hi Hc Hpc Hsh Hnone. pose proof Hi as [H1 H2 H3 H4 [Hnd Hlt] H6 H7 H8].
  assert (Hno : cached s (rc_key c) = None) by (unfold cached; by rewrite Hsh).
  assert (Hold : forall key e, cached s key = Some e ->
    cached (set_cache s (shard_index (rc_key c)) (insert_entry sh (rc_key c) g (rc_expires c)) 0) key = Some e).
  { intros key e He. rewrite cached_insert by (by eapply lookup_lt_Some). destruct (decide _) as [E|]; [|done].
    cbn. rewrite lookup_insert_ne by (intros <-; congruence). unfold cached in He. by rewrite E, Hsh in He. }
  constructor; cbn; try done.
  - by rewrite length_insert.
  - rewrite (zsum_insert holds_permit _ _ c _ Hc), (zsum_insert shard_size _ _ sh _ Hsh). unfold holds_permit at 2 3, shard_size at 2 3. cbn.
    rewrite Hpc, (map_size_insert_None _ _ _ Hnone). lia.
  - lia.
  - apply Forall_insert; [done|]. cbn. by apply (Forall_lookup_1 _ _ i c H4).
  - match goal with |- NoDup ?l /\ _ => assert (Hp : l ≡ₚ generations s) end.
    { unfold generations. cbn. pose proof (omap_insert_perm (s_calls s) i c (with_pc c (CDone None)) Hc) as Hq.
      unfold call_generation at 1 3 in Hq. cbn in Hq. rewrite Hpc in Hq. cbn in Hq. rewrite <- Hq, fmap_app, <- app_assoc. done. }
    rewrite Hp. done.
  - intros j r [[_ Hr]|[_ Hr]]%lookup_snoc_Some Ha Hx; [by apply Hold, (H6 j r)|]. subst r.
    change (cached (set_cache s (shard_index (rc_key c)) (insert_entry sh (rc_key c) g (rc_expires c)) 0) (rc_key c) = Some {| e_generation := g; e_committed := false; e_expires_at := rc_expires c |}).
    rewrite cached_insert by (by eapply lookup_lt_Some). rewrite decide_True by done. cbn. by rewrite lookup_insert_eq.
  - intros k now ck [Hin|Hin%list_elem_of_singleton]%elem_of_app Hx; [|done].
    destruct (H7 k now ck Hin Hx) as (e & He & Hrest). exists e. split; [by apply Hold|done].
  - apply (log_snoc p s); [done|done|]. cbn. rewrite Hno. done.
Qed.

(** A reservation that gives up, or that committed, is inactive. *)
Lemma inv_deactivate p s j r : replay_inv p s -> s_reservations s !! j = Some r -> replay_inv p (deactivate s j r []).
Proof.
  intros [H1 H2 H3 H4 H5 H6 H7 H8] Hj. constructor; cbn; try done; rewrite ?app_nil_r; try done.
  - unfold generations in *. cbn. rewrite list_fmap_insert. cbn. rewrite list_insert_id; [done|]. by rewrite list_lookup_fmap, Hj.
  - intros j' r' Hr Ha Hx. destruct (decide (j = j')) as [<-|Hne].
    + rewrite list_lookup_insert_eq in Hr by (by eapply lookup_lt_Some). injection Hr as <-. done.
    + rewrite list_lookup_insert_ne in Hr by done. by apply (H6 j' r').
Qed.

(** A committed entry takes the place of the pending one. *)
Lemma inv_commit p s j r sh e now : replay_inv p s -> s_reservations s !! j = Some r -> now <= s_clock s ->
  s_shards s !! shard_index (rv_key r) = Some sh -> sh_entries sh !! rv_key r = Some e ->
  e_generation e = rv_generation r -> e_committed e = false -> forall heap,
  let e' := {| e_generation := e_generation e; e_committed := true; e_expires_at := now + committed_ttl p |} in
  replay_inv p (deactivate (set_cache s (shard_index (rv_key r)) {| sh_entries := <[rv_key r := e']> (sh_entries sh); sh_expirations := heap |} 0)
    j r [Committed (rv_key r) now (s_clock s)]).
Proof.
  intros Hi Hj Hnow Hsh He Hg Hcm heap e'. pose proof Hi as [H1 H2 H3 H4 H5 H6 H7 H8].
  set (s1 := set_cache s (shard_index (rv_key r)) {| sh_entries := <[rv_key r := e']> (sh_entries sh); sh_expirations := heap |} 0).
  assert (Hthis : cached s (rv_key r) = Some e) by (unfold cached; by rewrite Hsh).
  assert (Hnew : cached s1 (rv_key r) = Some e').
  { unfold s1. rewrite cached_insert by (by eapply lookup_lt_Some). rewrite decide_True by done. cbn. by rewrite lookup_insert_eq. }
  assert (Hold : forall key, key <> rv_key r -> cached s1 key = cached s key).
  { intros key Hne. unfold s1. rewrite cached_insert by (by eapply lookup_lt_Some). destruct (decide _) as [E|]; [|done].
    cbn. rewrite lookup_insert_ne by done. unfold cached. by rewrite E, Hsh. }
  destruct (inv_deactivate p s j r Hi Hj) as [_ _ _ _ K5 _ _ _].
  constructor; cbn; try done.
  - by rewrite length_insert.
  - rewrite (zsum_insert shard_size _ _ sh _ Hsh). unfold shard_size at 2 3. cbn. rewrite map_size_insert_Some by (by eexists). lia.
  - lia.
  - intros j' r' Hr Ha Hx. change (cached s1 (rv_key r') = Some {| e_generation := rv_generation r'; e_committed := false; e_expires_at := rv_expires r' |}).
    destruct (decide (j = j')) as [<-|Hne].
    { rewrite list_lookup_insert_eq in Hr by (by eapply lookup_lt_Some). injection Hr as <-. done. }
    rewrite list_lookup_insert_ne in Hr by done. pose proof (H6 j' r' Hr Ha Hx) as Hc'.
    rewrite Hold; [done|]. intros E. apply Hne. apply (generation_unique p s j j' r r'); try done.
    rewrite E, Hthis in Hc'. injection Hc' as ->. done.
  - intros k now' ck [Hin|Hin%list_elem_of_singleton]%elem_of_app Hx; change (exists e, cached s1 k = Some e /\ e_committed e = true /\ now' + committed_ttl p <= e_expires_at e).
    + destruct (H7 k now' ck Hin Hx) as (e0 & He0 & Hc0 & Hx0). exists e0. rewrite Hold; [done|]. intros ->. congruence.
    + injection Hin as -> -> _. by exists e'.
  - apply (log_snoc p s); [done|done|]. cbn. intros e0 He0. congruence.
Qed.

Lemma inv_drop p s j r s' : replay_inv p s -> s_reservations s !! j = Some r -> drop_step s j r = Some s' -> replay_inv p s'.
Proof.
  intros Hi Hj. unfold drop_step, drop_section. destruct (s_shards s !! _) as [sh|] eqn:Hsh; [|done]. cbn.
  pose proof (inv_deactivate p s j r Hi Hj) as Hd.
  destruct (sh_entries sh !! rv_key r) as [e|] eqn:He; [destruct (_ && _) eqn:Hg|]; intros [= <-];
    (change (replay_inv p (set_cache (deactivate s j r []) (shard_index (rv_key r)) ?sh ?n)) || idtac);
    (eapply (inv_cache p (deactivate s j r [])); [exact Hd|exact Hsh| |by rewrite ?(size_remove _ _ _ He); lia|lia]); [|done..].
  intros key e0 He0 Hx Hl. rewrite remove_entries. apply lookup_delete_Some. split; [|done]. intros <-.
  apply andb_true_iff in Hg as [Hg%Z.eqb_eq Hc%negb_true_iff]. assert (e0 = e) as -> by congruence.
  destruct Hl as [Hl|(j' & r' & Hj' & Ha & _ & Hg')]; [congruence|]. cbn in Hj'. destruct (decide (j = j')) as [<-|Hne].
  - rewrite list_lookup_insert_eq in Hj' by (by eapply lookup_lt_Some). injection Hj' as <-. done.
  - rewrite list_lookup_insert_ne in Hj' by done. apply Hne. apply (generation_unique p s j j' r r'); [done..|congruence].
Qed.

Lemma inv_commit_step p s j r now alloc s' o : replay_inv p s -> s_reservations s !! j = Some r -> now <= s_clock s ->
  commit_step p s j r now alloc = Some (s', o) -> replay_inv p s'.
Proof.
  intros Hi Hj Hnow. unfold commit_step, commit_section. destruct (checked_add _ _ _) as [x|] eqn:Ex; [|by intros [= <- _]].
  assert (x = now + committed_ttl p) as -> by (unfold checked_add in Ex; repeat case_match; by simplify_eq).
  destruct (s_shards s !! _) as [sh|] eqn:Hsh; [|done]. cbn.
  assert (Hsame : replay_inv p (set_cache s (shard_index (rv_key r)) sh 0)).
  { eapply inv_cache; [exact Hi|exact Hsh|done|lia|lia]. }
  destruct (sh_entries sh !! rv_key r) as [e|] eqn:He; [|by intros [= <- _]].
  destruct (negb _ || _ || _) eqn:Hguard.
  - destruct (_ && negb _) eqn:Hmine; [|by intros [= <- _]]. intros [= <- _].
    apply andb_true_iff in Hmine as [Hg Hc%negb_true_iff]. rewrite Hg, Hc in Hguard. cbn in Hguard.
    eapply inv_cache; [exact Hi|exact Hsh| |by rewrite (size_remove _ _ _ He); lia|lia].
    intros key e0 He0 Hx _. rewrite remove_entries. apply lookup_delete_Some. split; [|done]. intros <-. assert (e0 = e) as -> by congruence. lia.
  - destruct alloc; cbn; [|by intros [= <- _]]. intros [= <- _].
    apply orb_false_iff in Hguard as [[Hg%negb_false_iff%Z.eqb_eq Hc]%orb_false_iff _].
    by apply (inv_commit p s j r sh e now Hi Hj Hnow Hsh He Hg Hc).
Qed.

(** Moves of a call that keep its permit. *)
Lemma inv_call_move p s i c pc : replay_inv p s -> s_calls s !! i = Some c -> (forall g, pc <> CInsert g) ->
  holds_permit (with_pc c pc) = holds_permit c -> replay_inv p (set_call s i (with_pc c pc)).
Proof. intros Hi Hc Hpc Hp. eapply inv_call_same; try done. intros g. unfold call_generation. cbn. destruct pc; try done. by destruct (Hpc generation). Qed.

Lemma inv_release p s i c o : replay_inv p s -> s_calls s !! i = Some c -> holds_permit c = 1 ->
  replay_inv p (set_call (add_permits s (-1)) i (with_pc c (CDone o))).
Proof. intros Hi Hc Hp. eapply inv_call; try done; [rewrite Hp; done|]. destruct Hi. lia. Qed.

Lemma inv_take p s i c : replay_inv p s -> s_calls s !! i = Some c -> holds_permit c = 0 -> s_permits s < r_capacity p ->
  replay_inv p (set_call (add_permits s 1) i (with_pc c CGeneration)).
Proof. intros Hi Hc Hp Hlt. eapply inv_call; try done; [rewrite Hp; done|lia]. Qed.

Lemma inv_call_step p s i c grant alloc s' : replay_inv p s -> s_calls s !! i = Some c ->
  call_step p s i c grant alloc = Some s' -> replay_inv p s'.
Proof.
  intros Hi Hc. pose proof Hi as [_ _ _ H4 _ _ _ _]. pose proof (Forall_lookup_1 _ _ i c H4 Hc) as Hnow. cbn in Hnow.
  assert (Hpurge : forall k sh, s_shards s !! k = Some sh ->
    let '(sh', n) := purge_replay_shard sh (rc_now c) in replay_inv p (set_cache s k sh' n)) by (intros; by apply inv_purge).
  unfold call_step. destruct (rc_pc c) as [| |k| | |g|o] eqn:Hpc; [| | | | | |done].
  - destruct (s_shards s !! _) as [sh|] eqn:Hsh; [|done]. specialize (Hpurge _ _ Hsh). cbn.
    destruct (purge_replay_shard sh _) as [sh' n]. intros [= <-].
    case_bool_decide; apply inv_call_move; try done; unfold holds_permit; cbn; by rewrite Hpc.
  - destruct (grant && _) eqn:Hg; intros [= <-]; [|apply inv_call_move; try done; unfold holds_permit; cbn; by rewrite Hpc].
    apply andb_true_iff in Hg as [_ Hg%Z.ltb_lt]. apply inv_take; try done. unfold holds_permit. by rewrite Hpc.
  - destruct (s_shards s !! k) as [sh|] eqn:Hsh; [|intros [= <-]; apply inv_call_move; try done; unfold holds_permit; cbn; by rewrite Hpc].
    specialize (Hpurge _ _ Hsh). destruct (purge_replay_shard sh _) as [sh' n]. intros [= <-].
    apply inv_call_move; try done; unfold holds_permit; cbn; by rewrite Hpc.
  - destruct (grant && _) eqn:Hg; intros [= <-]; [|apply inv_call_move; try done; unfold holds_permit; cbn; by rewrite Hpc].
    apply andb_true_iff in Hg as [_ Hg%Z.ltb_lt]. apply inv_take; try done. unfold holds_permit. by rewrite Hpc.
  - destruct (_ <=? _); intros [= <-]; [by apply inv_generation|]. apply inv_release; try done. unfold holds_permit. by rewrite Hpc.
  - destruct (s_shards s !! _) as [sh|] eqn:Hsh; [|done]. specialize (Hpurge _ _ Hsh). cbn.
    destruct (purge_replay_shard sh _) as [sh' n] eqn:Hpg.
    case_bool_decide as Hin; [intros [= <-]; apply inv_release; try done; unfold holds_permit; by rewrite Hpc|].
    destruct alloc; cbn; [|intros [= <-]; apply inv_release; try done; unfold holds_permit; by rewrite Hpc]. intros [= <-].
    pose proof (inv_insert p _ i c g sh' Hpurge Hc Hpc) as H. rewrite set_cache_twice, Z.add_0_r in H. apply H.
    + cbn. apply list_lookup_insert_eq. by eapply lookup_lt_Some.
    + by apply eq_None_not_Some.
Qed.

Lemma inv_act p s a s' : replay_inv p s -> act p s a = Some s' -> replay_inv p s'.
Proof.
  intros Hi. destruct a as [d|key now|i grant alloc|j now alloc|j|k now]; cbn.
  - destruct (Z.leb_spec 0 d); [|done]. intros [= <-]. by apply inv_tick.
  - destruct (_ && _) eqn:Hg; [|done]. intros [= <-]. apply inv_start; [done|lia].
  - destruct (s_calls s !! i) as [c|] eqn:Hc; [|done]. cbn. by apply inv_call_step.
  - destruct (s_reservations s !! j) as [r|] eqn:Hj; [|done]. cbn. destruct (_ && _ && _) eqn:Hg; [|done].
    destruct (commit_step p s j r now alloc) as [[s1 o]|] eqn:Hs; [|done]. cbn. intros [= <-].
    apply andb_true_iff in Hg as [_ Hg%Z.leb_le]. by apply (inv_commit_step p s j r now alloc s1 o).
  - destruct (s_reservations s !! j) as [r|] eqn:Hj; [|done]. cbn. destruct (rv_active r); [|done]. by apply inv_drop.
  - destruct (s_shards s !! k) as [sh|] eqn:Hsh; [|done]. cbn. destruct (Z.leb_spec now (s_clock s)); [|done].
    pose proof (inv_purge p s k sh now Hi Hsh) as Hp. destruct (purge_replay_shard sh now) as [sh' n]. intros [= <-]. by apply Hp.
Qed.

Lemma inv_new p : 0 <= r_capacity p -> replay_inv p new_system.
Proof.
  intros Hcap. constructor; cbn; try done; try (by constructor); try lia.
  - split; constructor.
  - intros k now c Hin. by apply not_elem_of_nil in Hin.
Qed.

Lemma inv_run p actions : forall s, replay_inv p s -> replay_inv p (run p s actions).
Proof.
  unfold run. induction actions as [|a l IH]; intros s Hi; cbn; [done|]. apply IH.
  destruct (act p s a) as [s'|] eqn:E; [|done]. by eapply inv_act.
Qed.

(** ** What the cache promises *)

Definition outcome_of (s : System) (i : nat) : option (option ReplayError) :=
  c ← s_calls s !! i; match rc_pc c with CDone o => Some o | _ => None end.

Lemma purge_keeps sh now k e : sh_entries sh !! k = Some e -> now < e_expires_at e -> sh_entries (purge_replay_shard sh now).1 !! k = Some e.
Proof.
  intros He Hx. pose proof (purge_entries_spec now (sh_expirations sh) (sh_entries sh)) as H. unfold purge_replay_shard.
  destruct (purge_entries _ _ now) as [sh' n]. destruct H as (H & _). by apply H.
Qed.

Lemma outcome_set_call s i c c' o : s_calls s !! i = Some c -> rc_pc c' = CDone o -> outcome_of (set_call s i c') i = Some o.
Proof. intros Hc Hpc. unfold outcome_of. cbn. rewrite list_lookup_insert_eq by (by eapply lookup_lt_Some). cbn. by rewrite Hpc. Qed.

(** Both checks of a reservation refuse a key with a current entry. *)
Lemma cached_refused p s i c e grant alloc : cached s (rc_key c) = Some e -> s_calls s !! i = Some c -> rc_now c < e_expires_at e ->
  rc_pc c = CFirst \/ (exists g, rc_pc c = CInsert g) -> exists s', call_step p s i c grant alloc = Some s' /\ outcome_of s' i = Some (Some Duplicate).
Proof.
  unfold cached. destruct (s_shards s !! shard_index (rc_key c)) as [sh|] eqn:Hsh; [|done]. cbn. intros He Hc Hx Hpc.
  pose proof (purge_keeps sh (rc_now c) _ e He Hx) as Hk. unfold call_step. rewrite Hsh.
  destruct (purge_replay_shard sh (rc_now c)) as [sh' n] eqn:Hp. cbn in Hk.
  destruct Hpc as [->|[g ->]]; cbn; rewrite Hp; rewrite bool_decide_true by (rewrite Hk; by eexists);
    eexists; (split; [done|]); by eapply outcome_set_call.
Qed.

(** C10: Under every schedule of reservations, commits, drops, purges and clock
    ticks, from an empty cache: (1) the governor's permits are exactly the entries
    plus the calls between acquisition and insertion, and never exceed the
    capacity; (2) once a ClientHello is committed, no reservation of it succeeds
    and no other commit of it happens before the retention measured from the
    commit has elapsed; (3) during that time both checks of a reservation answer
    [Duplicate]; (4) a key has at most one live pending reservation; (5) a live
    reservation commits, unless its retention is not representable or the heap
    cannot grow. *)
Theorem replay_two_phase p actions : 0 <= r_capacity p ->
  let s := run p new_system actions in
  (s_permits s = zsum shard_size (s_shards s) + zsum holds_permit (s_calls s) /\ s_permits s <= r_capacity p) /\
  StronglySorted (spaced p) (s_log s) /\
  (forall k now ck i c grant alloc, Committed k now ck ∈ s_log s -> s_clock s < now + committed_ttl p ->
    s_calls s !! i = Some c -> rc_key c = k -> rc_pc c = CFirst \/ (exists g, rc_pc c = CInsert g) ->
    exists s', act p s (AStep i grant alloc) = Some s' /\ outcome_of s' i = Some (Some Duplicate)) /\
  (forall j j' r r', s_reservations s !! j = Some r -> s_reservations s !! j' = Some r' -> rv_active r = true -> rv_active r' = true ->
    s_clock s < rv_expires r -> s_clock s < rv_expires r' -> rv_key r = rv_key r' -> j = j') /\
  (forall j r now, s_reservations s !! j = Some r -> rv_active r = true -> s_clock s < rv_expires r -> now <= s_clock s ->
    now + committed_ttl p <= r_instant_max p -> exists s', commit_step p s j r now true = Some (s', None)).
Proof.
  intros Hcap s. pose proof (inv_run p actions _ (inv_new p Hcap)) as Hi. fold s in Hi. pose proof Hi as [H1 H2 H3 H4 H5 H6 H7 H8].
  split; [done|]. split; [done|]. split; [|split].
  - intros k now ck i c grant alloc Hin Hx Hc <- Hpc. destruct (H7 _ now ck Hin Hx) as (e & He & _ & Hex).
    cbn. rewrite Hc. cbn. eapply cached_refused; try done. pose proof (Forall_lookup_1 _ _ i c H4 Hc) as Hle. cbn in Hle. lia.
  - intros j j' r r' Hj Hj' Ha Ha' Hx Hx' E. apply (generation_unique p s j j' r r'); try done.
    pose proof (H6 j r Hj Ha Hx) as K. rewrite E, (H6 j' r' Hj' Ha' Hx') in K. by injection K.
  - intros j r now Hj Ha Hx Hnow Hmax. pose proof (H6 j r Hj Ha Hx) as K. unfold commit_step, cached in *.
    rewrite (proj2 (checked_add_some _ now (committed_ttl p) _) (conj eq_refl Hmax)).
    destruct (s_shards s !! _) as [sh|]; [|done]. cbn in K |- *. unfold commit_section. rewrite K. cbn.
    rewrite Z.eqb_refl, (proj2 (Z.leb_gt _ _)) by lia. cbn. by eexists.
Qed.

Definition demo_policy : ReplayPolicy := {| r_capacity := 2; pending_ttl := 10; committed_ttl := 100; r_instant_max := 1000 |}.
Definition demo_schedule : list Action :=
  [AReserve [x01] 0; AStep 0 true true; AStep 0 true true; AStep 0 true true; AReserve [x01] 0; AStep 0 true true;
   ATick 5; AStep 1 true true; ACommit 0 5 true; ATick 90; APurge 1 95; AReserve [x01] 95].

(** The hello is committed at 5; its replay, called at 95, is refused. *)
Lemma replay_two_phase_witness : let s := run demo_policy new_system demo_schedule in
  s_log s = [Inserted [x01] 0; Committed [x01] 5 5] /\ outcome_of s 0 = Some None /\ outcome_of s 1 = Some (Some Duplicate) /\
  exists s', act demo_policy s (AStep 2 true true) = Some s' /\ outcome_of s' 2 = Some (Some Duplicate).
Proof.
  intros s. split; [vm_compute; reflexivity|]. split; [vm_compute; reflexivity|]. split; [vm_compute; reflexivity|].
  assert (Hcap : 0 <= r_capacity demo_policy) by (cbn; lia).
  destruct (replay_two_phase demo_policy demo_schedule Hcap) as (_ & _ & H & _).
  eapply (H [x01] 5 5 2%nat (start_call demo_policy [x01] 95)).
  - assert (E : s_log (run demo_policy new_system demo_schedule) = [Inserted [x01] 0; Committed [x01] 5 5]) by (vm_compute; reflexivity).
    rewrite E. apply list_elem_of_further, list_elem_of_here.
  - vm_compute. reflexivity.
  - vm_compute. reflexivity.
  - reflexivity.
  - left. reflexivity.
Defined.
