(* ===== verification/Frag.v ===== *)
(** * Fragmentation and bounded reassembly ([src/protocol/handoff/udp/frag.rs])

    Splitting a DATA plaintext into FRAG plaintexts and reassembling them under
    the group, byte and time limits. Instants and durations are integers. *)

From S2P Require Import Prelude VlessRequest Xudp Crypto Window Replay UdpWire.
#[local] Open Scope Z_scope.

Definition MAX_FRAGMENTS : Z := 16.

Record ReassemblyLimits := { max_groups : Z; max_bytes : Z; frag_timeout : Z }.

(** In milliseconds. *)
Definition default_limits : ReassemblyLimits :=
  {| max_groups := 8; max_bytes := 4 * MAX_DATA_PLAINTEXT_LEN; frag_timeout := 3000 |}.

(** [slice.chunks(n)]. *)
Fixpoint chunks_of (fuel : nat) (n : nat) (l : list byte) : list (list byte) :=
  match fuel, l with
  | O, _ | _, [] => []
  | S fuel, _ => take n l :: chunks_of fuel n (drop n l)
  end.

Definition chunks (n : Z) (l : list byte) : list (list byte) := chunks_of (length l) (Z.to_nat n) l.

(** The [for] loop over the enumerated chunks. *)
Fixpoint build_fragments (fragment_id : Z) (count_byte : byte) (index : Z) (cs : list (list byte))
    : result UdpPacketError (list (list byte)) :=
  match cs with
  | [] => Ok []
  | c :: cs =>
    i ← ok_or ULength (try_from U8_MAX index);
    rest ← build_fragments fragment_id count_byte (index + 1) cs;
    Ok ((to_be 4 fragment_id ++ [as_u8 i] ++ [count_byte] ++ c) :: rest)
  end.

Definition split_fragments (fragment_id : Z) (plaintext : list byte) (max_chunk : Z)
    : result UdpPacketError (list (list byte)) :=
  guard! (len plaintext =? 0) || (MAX_DATA_PLAINTEXT_LEN <? len plaintext) || (max_chunk =? 0) else ULength;
  let count := div_ceil (len plaintext) max_chunk in
  guard! MAX_FRAGMENTS <? count else ULength;
  count_byte ← ok_or ULength (try_from U8_MAX count);
  build_fragments fragment_id (as_u8 count_byte) 0 (chunks max_chunk plaintext).

Record Group := {
  g_id : Z;
  g_count : Z;
  g_chunks : list (option (list byte));
  g_received : Z;
  g_bytes : Z;
  g_started : Z;
}.

Record Reassembler := {
  r_limits : ReassemblyLimits;
  r_groups : list Group;
  r_bytes : Z;
  r_dropped : Z;
}.

Definition new_reassembler (l : ReassemblyLimits) : Reassembler :=
  {| r_limits := l; r_groups := []; r_bytes := 0; r_dropped := 0 |}.

Definition with_groups (r : Reassembler) (gs : list Group) (bytes : Z) : Reassembler :=
  {| r_limits := r_limits r; r_groups := gs; r_bytes := bytes; r_dropped := r_dropped r |}.
Definition count_drop (r : Reassembler) : Reassembler :=
  {| r_limits := r_limits r; r_groups := r_groups r; r_bytes := r_bytes r; r_dropped := r_dropped r + 1 |}.

(** [Vec::swap_remove]; [None] when the index is out of range (a panic). *)
Definition swap_remove {A} (l : list A) (i : nat) : option (A * list A) :=
  x ← l !! i; y ← last l; Some (x, take (length l - 1) (<[i := y]> l)).

(** [remove]: [None] is a panic. *)
Definition remove (r : Reassembler) (i : nat) : option Reassembler :=
  '(g, gs) ← swap_remove (r_groups r) i; Some (with_groups r gs (r_bytes r - g_bytes g)).

(** The [while index < len] loop; every round removes a group or advances. *)
Fixpoint expire_loop (fuel : nat) (r : Reassembler) (i : nat) (now : Z) : option Reassembler :=
  match r_groups r !! i, fuel with
  | None, _ => Some r
  | Some _, O => None
  | Some g, S fuel =>
    if frag_timeout (r_limits r) <=? saturating_sub now (g_started g)
    then r ← remove r i; expire_loop fuel (count_drop r) i now
    else expire_loop fuel r (S i) now
  end.

Definition expire (r : Reassembler) (now : Z) : option Reassembler :=
  expire_loop (length (r_groups r)) r 0 now.

(** [iter().enumerate().filter(p).min_by_key(started)]: the first of the oldest. *)
Fixpoint oldest_from (p : Group -> bool) (i : nat) (gs : list Group) : option (nat * Z) :=
  match gs with
  | [] => None
  | g :: gs =>
    let rest := oldest_from p (S i) gs in
    if p g then
      match rest with
      | Some (j, s) => if s <? g_started g then Some (j, s) else Some (i, g_started g)
      | None => Some (i, g_started g)
      end
    else rest
  end.

Definition oldest (p : Group -> bool) (gs : list Group) : option nat := fst <$> oldest_from p 0 gs.

Definition evict_oldest (r : Reassembler) : option Reassembler :=
  match oldest (fun _ => true) (r_groups r) with
  | Some i => r ← remove r i; Some (count_drop r)
  | None => Some r
  end.

(** The [while groups.len() >= max_groups] loop; with [max_groups = 0] it has no
    exit, and the fuel runs out. *)
Fixpoint evict_loop (fuel : nat) (r : Reassembler) : option Reassembler :=
  if len (r_groups r) <? max_groups (r_limits r) then Some r
  else match fuel with
       | O => None
       | S fuel => r ← evict_oldest r; evict_loop fuel r
       end.

(** [iter().position(|group| group.id == id)]. *)
Definition position (id : Z) (gs : list Group) : option nat :=
  fst <$> list_find (fun g => g_id g = id) gs.

(** How the [while bytes + chunk > max_bytes] loop ends: with room for the
    chunk, or with the group itself discarded. *)
Inductive Room := HasRoom (r : Reassembler) | NoRoom (r : Reassembler).

Fixpoint room_loop (fuel : nat) (id : Z) (need : Z) (r : Reassembler) : option Room :=
  if r_bytes r + need <=? max_bytes (r_limits r) then Some (HasRoom r)
  else
    match oldest (fun g => negb (g_id g =? id)) (r_groups r) with
    | Some other =>
      match fuel with
      | O => None
      | S fuel => r ← remove r other; room_loop fuel id need (count_drop r)
      end
    | None =>
      match position id (r_groups r) with
      | Some own => r ← remove r own; Some (NoRoom (count_drop r))
      | None => Some (NoRoom (count_drop r))
      end
    end.

Definition with_chunk (g : Group) (i : nat) (c : list byte) : Group :=
  {| g_id := g_id g; g_count := g_count g; g_chunks := <[i := Some c]> (g_chunks g);
     g_received := g_received g + 1; g_bytes := g_bytes g + len c; g_started := g_started g |}.

Definition new_group (id count now : Z) : Group :=
  {| g_id := id; g_count := count; g_chunks := replicate (Z.to_nat count) None;
     g_received := 0; g_bytes := 0; g_started := now |}.

(** [into_iter().flatten()] and concatenation. *)
Definition flatten_chunks (cs : list (option (list byte))) : list byte :=
  concat (omap (fun c => c) cs).

(** ** [insert] *)

(** The header checks: id, index, count and chunk. *)
Definition parse_fragment (limits : ReassemblyLimits) (fragment : list byte)
    : result UdpPacketError (Z * nat * Z * list byte) :=
  guard! len fragment <=? FRAG_HEADER_LEN else ULength;
  b0 ← index fragment 0; b1 ← index fragment 1; b2 ← index fragment 2; b3 ← index fragment 3;
  let id := from_be [b0; b1; b2; b3] in
  ib ← index fragment 4; cb ← index fragment 5;
  let count := u8 cb in
  guard! negb ((2 <=? count) && (count <=? MAX_FRAGMENTS)) || (count <=? u8 ib) else ULength;
  chunk ← slice_from fragment FRAG_HEADER_LEN;
  guard! (MAX_DATA_PLAINTEXT_LEN <? len chunk) || (max_bytes limits <? len chunk) else ULength;
  Ok (id, Z.to_nat (u8 ib), count, chunk).

(** The group of [id], created after eviction when there is none. *)
Definition locate (r : Reassembler) (id count now : Z) : option (Reassembler * nat) :=
  match position id (r_groups r) with
  | Some p => Some (r, p)
  | None =>
    r ← evict_loop (S (length (r_groups r))) r;
    Some (with_groups r (r_groups r ++ [new_group id count now]) (r_bytes r), length (r_groups r))
  end.

(** Storing the chunk once there is room. *)
Definition store_chunk (r : Reassembler) (id : Z) (i : nat) (chunk : list byte)
    : result UdpPacketError (option (list byte)) * Reassembler :=
  match position id (r_groups r) with
  | None => (Err ULength, r)
  | Some p =>
    match r_groups r !! p with
    | None => (Panic, r)
    | Some g =>
      let g := with_chunk g i chunk in
      let r := with_groups r (<[p := g]> (r_groups r)) (r_bytes r + len chunk) in
      if g_received g <? g_count g then (Ok None, r)
      else match remove r p with
           | Some r => (Ok (Some (flatten_chunks (g_chunks g))), r)
           | None => (Panic, r)
           end
    end
  end.

Definition discard (r : Reassembler) (p : nat) : result UdpPacketError (option (list byte)) * Reassembler :=
  match remove r p with Some r => (Ok None, count_drop r) | None => (Panic, r) end.

Definition insert_at (r : Reassembler) (p : nat) (id : Z) (i : nat) (count : Z) (chunk : list byte)
    : result UdpPacketError (option (list byte)) * Reassembler :=
  match r_groups r !! p with
  | None => (Panic, r)
  | Some g =>
    if negb (g_count g =? count) then discard r p
    else match g_chunks g !! i with
         | None => (Panic, r)
         | Some (Some _) => (Ok None, r)
         | Some None =>
           if MAX_DATA_PLAINTEXT_LEN <? g_bytes g + len chunk then discard r p
           else match room_loop (length (r_groups r)) id (len chunk) r with
                | None => (Panic, r)
                | Some (NoRoom r) => (Ok None, r)
                | Some (HasRoom r) => store_chunk r id i chunk
                end
         end
  end.

Definition insert_fragment (r : Reassembler) (fragment : list byte) (now : Z)
    : result UdpPacketError (option (list byte)) * Reassembler :=
  match expire r now with
  | None => (Panic, r)
  | Some r =>
    match parse_fragment (r_limits r) fragment with
    | Err e => (Err e, r)
    | Panic => (Panic, r)
    | Ok (id, i, count, chunk) =>
      match locate r id count now with
      | None => (Panic, r)
      | Some (r, p) => insert_at r p id i count chunk
      end
    end
  end.

(** ** Invariant *)

Definition chunk_len (c : option (list byte)) : Z := match c with Some b => len b | None => 0 end.
Definition chunk_one (c : option (list byte)) : Z := match c with Some _ => 1 | None => 0 end.

Record group_wf (g : Group) : Prop := {
  gw_count : 2 <= g_count g <= MAX_FRAGMENTS;
  gw_chunks : len (g_chunks g) = g_count g;
  gw_received : g_received g = zsum chunk_one (g_chunks g);
  gw_open : g_received g < g_count g;
  gw_bytes : g_bytes g = zsum chunk_len (g_chunks g);
  gw_bound : g_bytes g <= MAX_DATA_PLAINTEXT_LEN;
}.

Record reasm_wf (r : Reassembler) : Prop := {
  rw_groups : Forall group_wf (r_groups r);
  rw_ids : NoDup (g_id <$> r_groups r);
  rw_bytes : r_bytes r = zsum g_bytes (r_groups r);
  rw_max_bytes : r_bytes r <= max_bytes (r_limits r);
  rw_max_groups : len (r_groups r) <= max_groups (r_limits r);
}.

Lemma zsum_perm {A} (f : A -> Z) k l : k ≡ₚ l -> zsum f k = zsum f l.
Proof. unfold zsum. induction 1; cbn; lia. Qed.

Lemma swap_remove_spec {A} (l : list A) i x l' :
  swap_remove l i = Some (x, l') -> l !! i = Some x /\ l ≡ₚ x :: l'.
Proof.
  unfold swap_remove. destruct (l !! i) as [a|] eqn:Hi; [|done]. cbn.
  destruct (last l) as [y|] eqn:Hl; [|done]. cbn. intros [= <- <-]. split; [done|].
  apply last_Some in Hl as [k ->]. rewrite length_app. cbn [length]. rewrite Nat.add_sub.
  destruct (decide (i < length k)%nat) as [Hlt|Hge].
  - rewrite lookup_app_l in Hi by done. rewrite insert_app_l by done. rewrite take_app_length' by (by rewrite length_insert).
    rewrite insert_take_drop by done. rewrite <- (take_drop_middle k i a Hi) at 1.
    set (k1 := take i k). set (k2 := drop (S i) k). rewrite <- app_assoc. cbn [app].
    transitivity (a :: k1 ++ k2 ++ [y]); [symmetry; apply Permutation_middle|].
    constructor. apply Permutation_app_head. symmetry. apply Permutation_cons_append.
  - rewrite lookup_app_r in Hi by lia. destruct (i - length k)%nat as [|n] eqn:Hn; [|by destruct n].
    cbn in Hi. injection Hi as ->. assert (i = length k) as -> by lia.
    rewrite list_insert_id by (by rewrite lookup_app_r, Nat.sub_diag by lia).
    rewrite take_app_length. symmetry. apply Permutation_cons_append.
Qed.

Lemma swap_remove_some {A} (l : list A) i : (i < length l)%nat -> exists x l', swap_remove l i = Some (x, l').
Proof.
  intros Hi. unfold swap_remove. destruct (lookup_lt_is_Some_2 l i Hi) as [x ->]. cbn.
  destruct (last l) as [y|] eqn:Hl; [cbn; eauto|]. apply last_None in Hl as ->. cbn in Hi. lia.
Qed.

(** Removing a group keeps everything but the bytes and slot it gives back. *)
Lemma remove_spec r i :
  reasm_wf r -> (i < length (r_groups r))%nat ->
  exists r' g, remove r i = Some r' /\ r_groups r !! i = Some g /\ r_groups r ≡ₚ g :: r_groups r' /\
    reasm_wf r' /\ r_limits r' = r_limits r /\ r_bytes r' = r_bytes r - g_bytes g /\ r_dropped r' = r_dropped r.
Proof.
  intros Hwf Hi. destruct (swap_remove_some (r_groups r) i Hi) as (g & gs & Hs).
  unfold remove. rewrite Hs. destruct (swap_remove_spec _ _ _ _ Hs) as [Hg Hp]. destruct Hwf as [Hall Hids Hb Hmb Hmg].
  eexists _, g. split; [done|]. split; [done|]. split; [done|]. cbn [r_limits r_bytes r_dropped r_groups with_groups].
  split; [|done]. rewrite Hp in Hall, Hids. inversion Hall as [|? ? Hgw Hall']; subst.
  cbn in Hids. apply NoDup_cons in Hids as [_ Hids]. pose proof (zsum_perm g_bytes _ _ Hp) as Hz.
  unfold zsum in Hz. cbn in Hz. fold (zsum g_bytes gs) in Hz. fold (zsum g_bytes (r_groups r)) in Hz.
  assert (0 <= g_bytes g).
  { rewrite (gw_bytes g Hgw). apply zsum_nonneg. intros [c|] _; cbn; [apply len_nonneg|lia]. }
  pose proof (Permutation_length Hp) as Hlen. cbn in Hlen. unfold len in Hmg.
  constructor; cbn [with_groups r_groups r_bytes r_limits]; [done|done|lia|lia|unfold len; lia].
Qed.

Lemma count_drop_wf r : reasm_wf r -> reasm_wf (count_drop r).
Proof. by intros []. Qed.
#[local] Hint Resolve count_drop_wf : rust.

Lemma expire_loop_spec fuel : forall r i now,
  reasm_wf r -> (length (r_groups r) <= fuel + i)%nat ->
  exists r', expire_loop fuel r i now = Some r' /\ reasm_wf r' /\ r_limits r' = r_limits r /\
    (length (r_groups r') <= length (r_groups r))%nat.
Proof.
  induction fuel as [|fuel IH]; intros r i now Hwf Hf; cbn [expire_loop].
  - rewrite lookup_ge_None_2 by lia. eauto.
  - destruct (r_groups r !! i) as [g|] eqn:Hg; [|eauto].
    pose proof (lookup_lt_Some _ _ _ Hg) as Hi. destruct (_ <=? _).
    + destruct (remove_spec r i Hwf Hi) as (r' & g' & -> & _ & Hp & Hwf' & Hlim & _). cbn [mbind option_bind].
      pose proof (Permutation_length Hp) as Hlen. cbn in Hlen.
      destruct (IH (count_drop r') i now) as (r'' & -> & Hw & Hl & Hn); [auto with rust|cbn; lia|].
      exists r''. cbn in *. split_and!; [done|done|congruence|lia].
    + destruct (IH r (S i) now) as (r'' & ? & ? & ? & ?); [done|lia|]. eauto.
Qed.

(** The oldest group is one that passed the filter. *)
Lemma oldest_from_spec p gs : forall k j s,
  oldest_from p k gs = Some (j, s) -> exists g, gs !! (j - k)%nat = Some g /\ (k <= j)%nat /\ p g = true.
Proof.
  induction gs as [|x gs IH]; intros k j s; cbn; [done|].
  assert (Htail : forall j s, oldest_from p (S k) gs = Some (j, s) ->
    exists y, (x :: gs) !! (j - k)%nat = Some y /\ (k <= j)%nat /\ p y = true).
  { intros j' s' (y & Hy & Hle & Hpy)%IH. exists y. replace (j' - k)%nat with (S (j' - S k)) by lia.
    split_and!; [done|lia|done]. }
  destruct (p x) eqn:Hpx; [|apply Htail].
  destruct (oldest_from p (S k) gs) as [[j' s']|]; [destruct (_ <? _)|]; intros [= <- <-];
    [by eapply Htail| |]; exists x; rewrite Nat.sub_diag; done.
Qed.

Lemma oldest_spec p gs i : oldest p gs = Some i -> exists g, gs !! i = Some g /\ p g = true.
Proof.
  unfold oldest. destruct (oldest_from p 0 gs) as [[j s]|] eqn:H; [|done]. cbn. intros [= <-].
  apply oldest_from_spec in H as (g & Hg & _ & Hp). rewrite Nat.sub_0_r in Hg. eauto.
Qed.

Lemma oldest_range p gs i : oldest p gs = Some i -> (i < length gs)%nat.
Proof. intros (g & Hg & _)%oldest_spec. by eapply lookup_lt_Some. Qed.

Lemma oldest_none p gs : oldest p gs = None -> Forall (fun g => p g = false) gs.
Proof.
  unfold oldest. destruct (oldest_from p 0 gs) as [[j s]|] eqn:H; [done|]. intros _.
  revert H. generalize 0%nat. induction gs as [|g gs IH]; intros k; cbn; [constructor|].
  destruct (oldest_from p (S k) gs) as [[j s]|] eqn:Hrest; destruct (p g) eqn:Hp; try done; [by destruct (_ <? _)|].
  intros _. constructor; [done|]. by eapply IH.
Qed.

Lemma swap_remove_insert {A} (l l' : list A) i x y :
  swap_remove l i = Some (x, l') -> swap_remove (<[i := y]> l) i = Some (y, l').
Proof.
  unfold swap_remove. destruct (l !! i) as [a|] eqn:Hi; [|done]. pose proof (lookup_lt_Some _ _ _ Hi) as Hlt.
  rewrite list_lookup_insert_eq by done. cbn [mbind option_bind]. rewrite length_insert.
  destruct (last l) as [z|] eqn:Hz; [|done]. cbn [mbind option_bind]. intros [= <- <-].
  apply last_Some in Hz as [k ->]. rewrite length_app in Hlt. cbn in Hlt.
  destruct (decide (i < length k)%nat) as [Hk|Hk].
  - rewrite (insert_app_l _ _ i y) by done. rewrite last_snoc. cbn [mbind option_bind].
    rewrite !insert_app_l by (rewrite ?length_insert; done). by rewrite list_insert_insert_eq.
  - assert (i = length k) as -> by lia. rewrite insert_app_r_alt, Nat.sub_diag by lia. cbn [list_insert insert].
    rewrite last_snoc. cbn [mbind option_bind]. rewrite length_app. cbn [length]. rewrite Nat.add_sub.
    rewrite !insert_app_r_alt by lia. by rewrite !take_app_length.
Qed.

Lemma position_some id gs p :
  position id gs = Some p -> exists g, gs !! p = Some g /\ g_id g = id.
Proof.
  unfold position. destruct (list_find _ gs) as [[j g]|] eqn:H; [|done]. cbn. intros [= <-].
  apply list_find_Some in H as (? & ? & _). eauto.
Qed.

Lemma position_none id gs : position id gs = None -> id ∉ (g_id <$> gs).
Proof.
  unfold position. destruct (list_find _ gs) as [[j g]|] eqn:H; [done|]. intros _ Hin.
  apply list_find_None in H. apply list_elem_of_fmap in Hin as (g & -> & Hg).
  rewrite Forall_forall in H. by apply (H g).
Qed.

Lemma position_unique id gs g p :
  NoDup (g_id <$> gs) -> gs !! p = Some g -> g_id g = id -> position id gs = Some p.
Proof.
  intros Hnd Hp Hid. unfold position.
  assert (Hf : list_find (fun g => g_id g = id) gs = Some (p, g)); [|by rewrite Hf].
  apply list_find_Some. split_and!; [done|done|]. intros j y Hj Hlt Hy.
  assert (p = j); [|lia]. eapply (NoDup_lookup (g_id <$> gs)); [done| |]; rewrite list_lookup_fmap.
  - by rewrite Hp.
  - rewrite Hj. cbn. congruence.
Qed.

Lemma evict_loop_spec fuel : forall r,
  reasm_wf r -> 1 <= max_groups (r_limits r) -> (length (r_groups r) <= fuel)%nat ->
  exists r', evict_loop fuel r = Some r' /\ reasm_wf r' /\ r_limits r' = r_limits r /\
    len (r_groups r') < max_groups (r_limits r) /\
    (forall id, id ∉ (g_id <$> r_groups r) -> id ∉ (g_id <$> r_groups r')).
Proof.
  induction fuel as [|fuel IH]; intros r Hwf Hmax Hf; cbn [evict_loop];
    (destruct (Z.ltb_spec (len (r_groups r)) (max_groups (r_limits r))) as [Hlt|Hge]; [by eauto 10|]).
  - unfold len in Hge. lia.
  - unfold evict_oldest. destruct (oldest (fun _ => true) (r_groups r)) as [i|] eqn:Ho.
    + apply oldest_range in Ho. destruct (remove_spec r i Hwf Ho) as (r1 & g & -> & _ & Hp & Hwf1 & Hlim & _).
      cbn [mbind option_bind]. pose proof (Permutation_length Hp) as Hlen. cbn in Hlen.
      destruct (IH (count_drop r1)) as (r2 & -> & Hw & Hl & Hlt & Hids); cbn; [auto with rust|by rewrite Hlim|lia|].
      exists r2. cbn in *. rewrite Hlim in *. split_and!; try done. intros id Hid. apply Hids. intros Hin. apply Hid.
      rewrite Hp. cbn. by right.
    + apply oldest_none in Ho. destruct (r_groups r) as [|g gs] eqn:Hg; [rewrite len_nil in Hge; lia|].
      by inversion Ho.
Qed.

Lemma new_group_wf id count now : 2 <= count <= MAX_FRAGMENTS -> group_wf (new_group id count now).
Proof.
  intros Hc. assert (Hz : forall (f : option (list byte) -> Z) n, f None = 0 -> zsum f (replicate n None) = 0).
  { intros f n Hf. apply zsum_zero. intros x [-> _]%elem_of_replicate. done. }
  constructor; cbn -[zsum replicate]; [done|rewrite len_replicate; lia|by rewrite Hz|lia|by rewrite Hz|].
  unfold MAX_DATA_PLAINTEXT_LEN, MAX_UDP_PAYLOAD_LEN, XUDP_MAX_PAYLOAD_LEN, XRAY_BUF_SIZE, MAX_ADDRESS_LEN. lia.
Qed.

Lemma locate_spec r id count now :
  reasm_wf r -> 1 <= max_groups (r_limits r) -> 2 <= count <= MAX_FRAGMENTS ->
  exists r' p g, locate r id count now = Some (r', p) /\ reasm_wf r' /\ r_limits r' = r_limits r /\
    r_groups r' !! p = Some g /\ g_id g = id.
Proof.
  intros Hwf Hmax Hc. unfold locate. destruct (position id (r_groups r)) as [p|] eqn:Hpos.
  - destruct (position_some _ _ _ Hpos) as (g & Hg & Hid). eauto 10.
  - apply position_none in Hpos.
    destruct (evict_loop_spec (S (length (r_groups r))) r Hwf Hmax ltac:(lia)) as (r' & -> & Hwf' & Hlim & Hlt & Hids).
    cbn [mbind option_bind]. eexists _, _, (new_group id count now). split; [done|].
    destruct Hwf' as [Hall Hnd Hb Hmb Hmg]. cbn [r_groups with_groups r_limits].
    split_and!; [|done|by rewrite lookup_app_r, Nat.sub_diag by lia|done].
    constructor; cbn [r_groups with_groups r_limits r_bytes].
    + apply Forall_app. split; [done|]. constructor; [by apply new_group_wf|constructor].
    + rewrite fmap_app. cbn. apply NoDup_app. split_and!; [done| |apply NoDup_singleton].
      intros x Hx ->%list_elem_of_singleton. by apply (Hids id).
    + rewrite zsum_app, Hb. unfold zsum at 3. cbn. lia.
    + done.
    + rewrite len_app. change (len [_]) with 1. rewrite Hlim. lia.
Qed.

Lemma room_loop_spec fuel : forall id need r g p,
  reasm_wf r -> r_groups r !! p = Some g -> g_id g = id -> (length (r_groups r) <= fuel + 1)%nat ->
  exists room, room_loop fuel id need r = Some room /\
    match room with
    | HasRoom r' => reasm_wf r' /\ r_limits r' = r_limits r /\ r_bytes r' + need <= max_bytes (r_limits r) /\
        exists p', r_groups r' !! p' = Some g
    | NoRoom r' => reasm_wf r' /\ r_limits r' = r_limits r
    end.
Proof.
  induction fuel as [|fuel IH]; intros id need r g p Hwf Hp Hid Hf; cbn [room_loop];
    (destruct (Z.leb_spec (r_bytes r + need) (max_bytes (r_limits r))) as [Hle|Hgt];
     [exists (HasRoom r); by eauto 10|]);
    (destruct (oldest (fun g => negb (g_id g =? id)) (r_groups r)) as [i|] eqn:Ho; cycle 1;
     [ rewrite (position_unique id (r_groups r) g p (rw_ids r Hwf) Hp Hid);
       destruct (remove_spec r p Hwf (lookup_lt_Some _ _ _ Hp)) as (r' & ? & -> & _ & _ & Hwf' & Hlim & _);
       exists (NoRoom (count_drop r')); cbn; by auto with rust |]);
    apply oldest_spec in Ho as (x & Hx & Hne%negb_true_iff%Z.eqb_neq);
    pose proof (lookup_lt_Some _ _ _ Hx) as Hi; pose proof (lookup_lt_Some _ _ _ Hp) as Hpl.
  - assert (i = p) as -> by lia. congruence.
  - destruct (remove_spec r i Hwf Hi) as (r' & g' & -> & Hg' & Hperm & Hwf' & Hlim & _). cbn [mbind option_bind].
    pose proof (Permutation_length Hperm) as Hlen. cbn in Hlen.
    assert (Hin : g ∈ r_groups r').
    { assert (Hg : g ∈ g' :: r_groups r') by (rewrite <- Hperm; by eapply list_elem_of_lookup_2).
      apply elem_of_cons in Hg as [->|]; [|done]. congruence. }
    apply list_elem_of_lookup in Hin as [p' Hp'].
    destruct (IH id need (count_drop r') g p') as (room & Hroom & Hspec); cbn; [auto with rust|done|done|lia|].
    exists room. split; [done|]. cbn in Hspec. rewrite Hlim in Hspec. exact Hspec.
Qed.

Lemma with_chunk_sums g i c :
  g_chunks g !! i = Some None -> group_wf g ->
  zsum chunk_one (g_chunks (with_chunk g i c)) = g_received g + 1 /\
  zsum chunk_len (g_chunks (with_chunk g i c)) = g_bytes g + len c /\ len (g_chunks (with_chunk g i c)) = g_count g.
Proof.
  intros Hi [? Hl Hr ? Hb ?]. cbn [g_chunks with_chunk].
  rewrite (zsum_insert chunk_one _ _ _ (Some c) Hi), (zsum_insert chunk_len _ _ _ (Some c) Hi). cbn [chunk_one chunk_len].
  split_and!; [lia|lia|]. unfold len in *. rewrite length_insert. lia.
Qed.

Lemma len_flatten cs : len (flatten_chunks cs) = zsum chunk_len cs.
Proof.
  unfold flatten_chunks, zsum. induction cs as [|[c|] cs IH]; cbn; [done|..]; [rewrite len_app; lia|lia].
Qed.

Lemma store_chunk_spec r id i c g p :
  reasm_wf r -> r_groups r !! p = Some g -> g_id g = id -> g_chunks g !! i = Some None ->
  g_bytes g + len c <= MAX_DATA_PLAINTEXT_LEN -> r_bytes r + len c <= max_bytes (r_limits r) ->
  let '(res, r') := store_chunk r id i c in
  reasm_wf r' /\ r_limits r' = r_limits r /\
  ((res = Ok None /\ g_received g + 1 < g_count g) \/
   (res = Ok (Some (flatten_chunks (<[i := Some c]> (g_chunks g)))) /\ g_received g + 1 = g_count g)).
Proof.
  intros Hwf Hp Hid Hi Hmax Hroom. unfold store_chunk.
  rewrite (position_unique id (r_groups r) g p (rw_ids r Hwf) Hp Hid), Hp.
  pose proof (lookup_lt_Some _ _ _ Hp) as Hlt.
  assert (Hg : group_wf g) by (eapply Forall_forall; [apply (rw_groups r Hwf)|by eapply list_elem_of_lookup_2]).
  destruct (with_chunk_sums g i c Hi Hg) as (Hone & Hlen & Hc). cbn [g_received g_count with_chunk].
  destruct (Z.ltb_spec (g_received g + 1) (g_count g)) as [Hmore|Hfull].
  - split_and!; [|done|by left]. destruct Hwf as [Hall Hids Hb Hmb Hmg].
    constructor; cbn [r_groups with_groups r_limits r_bytes].
    + apply Forall_insert; [done|]. destruct Hg. constructor; cbn [g_count g_received g_bytes with_chunk]; (done || lia).
    + rewrite list_fmap_insert, list_insert_id; [done|]. rewrite list_lookup_fmap, Hp. done.
    + rewrite (zsum_insert g_bytes _ _ _ _ Hp), Hb. cbn. lia.
    + lia.
    + unfold len. rewrite length_insert. apply Hmg.
  - destruct (swap_remove_some (r_groups r) p Hlt) as (g' & gs & Hs).
    destruct (remove_spec r p Hwf Hlt) as (r' & g2 & Hr & Hg2 & _ & Hwf' & Hlim & Hbytes & _).
    unfold remove in *. cbn [r_groups with_groups]. rewrite (swap_remove_insert _ _ _ _ (with_chunk g i c) Hs).
    rewrite Hs in Hr. cbn [mbind option_bind] in *. injection Hr as <-. rewrite Hp in Hg2. injection Hg2 as <-.
    replace (with_groups (with_groups r _ _) gs _) with (with_groups r gs (r_bytes r - g_bytes g')); cycle 1.
    { unfold with_groups. cbn. f_equal. cbn in Hbytes. lia. }
    split_and!; [done|done|]. right. split; [done|]. destruct Hg. lia.
Qed.

Lemma parse_fragment_no_panic lim f : no_panic (parse_fragment lim f).
Proof.
  unfold parse_fragment. apply no_panic_guard; intros Hl%Z.leb_gt. unfold FRAG_HEADER_LEN in *. np.
Qed.

Lemma parse_fragment_inv lim f id i count chunk :
  parse_fragment lim f = Ok (id, i, count, chunk) ->
  2 <= count <= MAX_FRAGMENTS /\ Z.of_nat i < count /\ len chunk <= MAX_DATA_PLAINTEXT_LEN /\ len chunk <= max_bytes lim.
Proof.
  unfold parse_fragment. intros H. apply bind_ok in H as (? & _ & H). do 4 (apply bind_ok in H as (? & _ & H)).
  apply bind_ok in H as (ib & _ & H). apply bind_ok in H as (cb & _ & H).
  apply bind_ok in H as (? & Hc%reject_ok & H). apply bind_ok in H as (ch & _ & H).
  apply bind_ok in H as (? & Hl%reject_ok & H). injection H as <- <- <- <-.
  apply orb_false_iff in Hc as [[H1 H2]%negb_false_iff%andb_true_iff H3]. apply orb_false_iff in Hl as [H4 H5].
  apply Z.leb_le in H1, H2. apply Z.leb_gt in H3. apply Z.ltb_ge in H4, H5. pose proof (u8_range ib). lia.
Qed.

Lemma discard_wf r p : reasm_wf r -> (p < length (r_groups r))%nat ->
  exists r', discard r p = (Ok None, r') /\ reasm_wf r' /\ r_limits r' = r_limits r.
Proof.
  intros Hwf Hp. unfold discard. destruct (remove_spec r p Hwf Hp) as (r' & ? & -> & _ & _ & Hwf' & Hlim & _).
  eexists. split; [done|]. auto with rust.
Qed.

Lemma insert_at_wf r p id i count chunk g :
  reasm_wf r -> r_groups r !! p = Some g -> g_id g = id -> Z.of_nat i < count ->
  let '(res, r') := insert_at r p id i count chunk in
  reasm_wf r' /\ r_limits r' = r_limits r /\
  (res = Ok None \/ exists whole, res = Ok (Some whole) /\ len whole <= MAX_DATA_PLAINTEXT_LEN).
Proof.
  intros Hwf Hp Hid Hi. unfold insert_at. rewrite Hp. pose proof (lookup_lt_Some _ _ _ Hp) as Hlt.
  assert (Hg : group_wf g) by (eapply Forall_forall; [apply (rw_groups r Hwf)|by eapply list_elem_of_lookup_2]).
  assert (Hdrop : let '(res, r') := discard r p in reasm_wf r' /\ r_limits r' = r_limits r /\
    (res = Ok None \/ exists whole, res = Ok (Some whole) /\ len whole <= MAX_DATA_PLAINTEXT_LEN))
    by (destruct (discard_wf r p Hwf Hlt) as (r' & -> & ? & ?); auto).
  destruct (Z.eqb_spec (g_count g) count) as [Hcount|]; [|done]. cbn [negb].
  destruct (lookup_lt_is_Some_2 (g_chunks g) i) as [oc Hoc].
  { pose proof (gw_chunks g Hg). unfold len in *. lia. }
  rewrite Hoc. destruct oc as [old|]; [by auto|].
  destruct (Z.ltb_spec MAX_DATA_PLAINTEXT_LEN (g_bytes g + len chunk)) as [|Hmax]; [done|].
  destruct (room_loop_spec (length (r_groups r)) id (len chunk) r g p Hwf Hp Hid ltac:(lia)) as ([r1|r1] & -> & Hroom);
    [|destruct Hroom; by auto].
  destruct Hroom as (Hwf1 & Hlim & Hbytes & p1 & Hp1). rewrite <- Hlim in Hbytes.
  pose proof (store_chunk_spec r1 id i chunk g p1 Hwf1 Hp1 Hid Hoc Hmax Hbytes) as Hst.
  destruct (store_chunk r1 id i chunk) as [res r2]. destruct Hst as (Hwf2 & Hlim2 & Hres).
  split_and!; [done|congruence|]. destruct Hres as [[-> _]|[-> _]]; [by left|right]. eexists. split; [done|].
  destruct (with_chunk_sums g i chunk Hoc Hg) as (_ & Hs & _). rewrite len_flatten.
  cbn [g_chunks with_chunk] in Hs. lia.
Qed.

Lemma insert_fragment_wf r f now :
  reasm_wf r -> 1 <= max_groups (r_limits r) ->
  let '(res, r') := insert_fragment r f now in
  reasm_wf r' /\ r_limits r' = r_limits r /\ no_panic res /\
  (forall whole, res = Ok (Some whole) -> len whole <= MAX_DATA_PLAINTEXT_LEN).
Proof.
  intros Hwf Hmax. unfold insert_fragment, expire.
  destruct (expire_loop_spec (length (r_groups r)) r 0 now Hwf ltac:(lia)) as (r1 & -> & Hwf1 & Hlim1 & _).
  rewrite <- Hlim1 in Hmax |- *. clear r Hwf Hlim1.
  pose proof (parse_fragment_no_panic (r_limits r1) f) as Hnp.
  destruct (parse_fragment (r_limits r1) f) as [[[[id i] count] chunk]| |] eqn:Hp; [|by split_and!|done].
  apply parse_fragment_inv in Hp as (Hc & Hi & _ & _).
  destruct (locate_spec r1 id count now Hwf1 Hmax Hc) as (r2 & p & g & -> & Hwf2 & Hlim2 & Hg & Hid).
  pose proof (insert_at_wf r2 p id i count chunk g Hwf2 Hg Hid Hi) as H.
  destruct (insert_at r2 p id i count chunk) as [res r3]. destruct H as (Hwf3 & Hlim3 & Hres).
  split_and!; [done|congruence|by destruct Hres as [->|(? & -> & _)]|].
  intros whole Hw. destruct Hres as [->|(w & -> & Hl)]; [done|]. by injection Hw as <-.
Qed.

(** ** Histories *)

Inductive FragEvent := FInsert (fragment : list byte) (now : Z) | FExpire (now : Z).

Definition frag_step (r : Reassembler) (ev : FragEvent) : result UdpPacketError (option (list byte)) * Reassembler :=
  match ev with
  | FInsert f now => insert_fragment r f now
  | FExpire now => match expire r now with Some r => (Ok None, r) | None => (Panic, r) end
  end.

Definition frag_run (r : Reassembler) (evs : list FragEvent) : Reassembler :=
  foldl (fun r ev => (frag_step r ev).2) r evs.

Lemma frag_step_wf r ev :
  reasm_wf r -> 1 <= max_groups (r_limits r) ->
  let '(res, r') := frag_step r ev in
  reasm_wf r' /\ r_limits r' = r_limits r /\ no_panic res /\
  (forall whole, res = Ok (Some whole) -> len whole <= MAX_DATA_PLAINTEXT_LEN).
Proof.
  intros Hwf Hmax. destruct ev as [f now|now]; [by apply insert_fragment_wf|]. cbn. unfold expire.
  destruct (expire_loop_spec (length (r_groups r)) r 0 now Hwf ltac:(lia)) as (r1 & -> & Hwf1 & Hlim1 & _).
  by split_and!.
Qed.

Lemma frag_run_wf evs : forall r,
  reasm_wf r -> 1 <= max_groups (r_limits r) ->
  reasm_wf (frag_run r evs) /\ r_limits (frag_run r evs) = r_limits r.
Proof.
  induction evs as [|ev evs IH]; intros r Hwf Hmax; [done|]. cbn.
  pose proof (frag_step_wf r ev Hwf Hmax) as H. destruct (frag_step r ev) as [res r']. destruct H as (Hw & Hl & _).
  cbn [snd]. rewrite <- Hl in Hmax |- *. by apply IH.
Qed.

Lemma new_reassembler_wf l : 0 <= max_bytes l -> 1 <= max_groups l -> reasm_wf (new_reassembler l).
Proof. intros. constructor; cbn -[len]; [constructor|constructor|done|done|rewrite len_nil; lia]. Qed.

(** Reassembly is bounded against any peer. Whatever fragments arrive and
    whenever groups are expired, no call panics or runs forever (for a limit of
    at least one group), the buffered bytes are exactly those of the pending
    groups and stay within [max_bytes], the pending groups stay within
    [max_groups] with distinct ids and at most 16 chunks each, and a delivered
    datagram is never longer than the DATA bound. *)
Theorem reassembly_bounded (l : ReassemblyLimits) (evs : list FragEvent) (ev : FragEvent) :
  0 <= max_bytes l -> 1 <= max_groups l ->
  let r := frag_run (new_reassembler l) evs in
  let '(res, r') := frag_step r ev in
  no_panic res /\
  r_bytes r' = zsum g_bytes (r_groups r') /\ 0 <= r_bytes r' <= max_bytes l /\
  len (r_groups r') <= max_groups l /\ NoDup (g_id <$> r_groups r') /\
  Forall (fun g => 2 <= len (g_chunks g) <= MAX_FRAGMENTS /\ g_bytes g = zsum chunk_len (g_chunks g)) (r_groups r') /\
  match res with Ok (Some whole) => len whole <= MAX_DATA_PLAINTEXT_LEN | _ => True end.
Proof.
  intros Hb Hg r. pose proof (new_reassembler_wf l Hb Hg) as Hnew.
  destruct (frag_run_wf evs _ Hnew Hg) as [Hwf Hlim]. fold r in Hwf, Hlim. cbn in Hlim.
  pose proof (frag_step_wf r ev Hwf ltac:(by rewrite Hlim)) as H. destruct (frag_step r ev) as [res r'].
  destruct H as (Hwf' & Hlim' & Hnp & Hwhole). rewrite Hlim in Hlim'.
  destruct Hwf' as [Hall Hids Hbytes Hmb Hmg]. rewrite Hlim' in *.
  split_and!; try done.
  - rewrite Hbytes. apply zsum_nonneg. intros g Hin. rewrite Forall_forall in Hall.
    rewrite (gw_bytes g (Hall g Hin)). apply zsum_nonneg. intros [c|] _; cbn; [apply len_nonneg|lia].
  - eapply Forall_impl; [exact Hall|]. cbn. intros g []. split; [lia|done].
  - destruct res as [[w|]| |]; [by apply Hwhole|done..].
Qed.

Definition example_history : list FragEvent := [FInsert [x00; x00; x00; x07; x01; x02; xaa] 1].
Definition example_last : FragEvent := FInsert [x00; x00; x00; x07; x00; x02; xbb] 2.

Lemma reassembly_bounded_witness :
  exists r', frag_step (frag_run (new_reassembler default_limits) example_history) example_last
    = (Ok (Some [xbb; xaa]), r') /\ r_bytes r' <= 30180.
Proof.
  pose proof (reassembly_bounded default_limits example_history example_last
    ltac:(vm_compute; discriminate) ltac:(vm_compute; discriminate)) as H. cbn zeta in H.
  assert (E : (frag_step (frag_run (new_reassembler default_limits) example_history) example_last).1
    = Ok (Some [xbb; xaa])) by (vm_compute; reflexivity).
  destruct (frag_step (frag_run (new_reassembler default_limits) example_history) example_last) as [res r'].
  exists r'. cbn in E. rewrite E. split; [reflexivity|]. destruct H as (_ & _ & [_ H] & _). exact H.
Defined.

(** ** Splitting *)

Lemma div_ceil_step a b : 0 < b -> 0 < a -> div_ceil a b = 1 + div_ceil (Z.max 0 (a - b)) b.
Proof.
  intros Hb Ha. unfold div_ceil. destruct (Z.le_gt_cases a b) as [Hle|Hgt].
  - rewrite Z.max_l by lia. rewrite (Z.div_small (0 + b - 1)) by lia.
    replace (a + b - 1) with (1 * b + (a - 1)) by lia. rewrite Z.div_add_l, (Z.div_small (a - 1)) by lia. lia.
  - rewrite Z.max_r by lia. replace (a + b - 1) with (1 * b + (a - b + b - 1)) by lia. by rewrite Z.div_add_l by lia.
Qed.

Lemma chunks_of_spec (n : nat) fuel : forall l,
  (0 < n)%nat -> (length l <= fuel)%nat ->
  concat (chunks_of fuel n l) = l /\ Forall (fun c => 1 <= len c) (chunks_of fuel n l) /\
  len (chunks_of fuel n l) = div_ceil (len l) (Z.of_nat n).
Proof.
  induction fuel as [|fuel IH]; intros l Hn Hf.
  - destruct l; [|cbn in Hf; lia]. cbn. split_and!; [done|constructor|]. unfold div_ceil, len. cbn [length].
    rewrite Z.div_small by lia. done.
  - destruct l as [|x l]; [cbn; split_and!; [done|constructor|]; unfold div_ceil, len; cbn [length]; by rewrite Z.div_small by lia|].
    cbn [chunks_of]. set (xs := x :: l). destruct (IH (drop n xs) Hn) as (H1 & H2 & H3).
    { rewrite length_drop. unfold xs. cbn in *. lia. }
    assert (Hpos : 1 <= len xs) by (unfold xs; slen).
    split_and!.
    + cbn [concat]. by rewrite H1, take_drop.
    + constructor; [rewrite len_take; lia|done].
    + rewrite len_cons, H3, len_drop. by rewrite (div_ceil_step (len xs)) by lia.
Qed.

Lemma build_fragments_spec id cb cs : forall k frags,
  build_fragments id cb k cs = Ok frags ->
  length frags = length cs /\
  forall j c, cs !! j = Some c -> frags !! j = Some (to_be 4 id ++ [as_u8 (k + Z.of_nat j)] ++ [cb] ++ c).
Proof.
  induction cs as [|c cs IH]; intros k frags H; cbn [build_fragments] in H.
  - injection H as <-. done.
  - inv_ok H. apply try_from_some in Hstep as [-> _]. apply IH in Hstep0 as [Hlen Hall]. split; [cbn; lia|].
    intros [|j] c' Hj; cbn in Hj.
    + injection Hj as <-. cbn. by rewrite Z.add_0_r.
    + etransitivity; [exact (Hall j c' Hj)|]. do 5 f_equal. lia.
Qed.

(** Everything the receiver needs to know about a split. *)
Lemma split_spec id plaintext max_chunk frags :
  0 <= max_chunk -> split_fragments id plaintext max_chunk = Ok frags ->
  exists cs, concat cs = plaintext /\ length frags = length cs /\ Forall (fun c => 1 <= len c) cs /\
    len cs <= MAX_FRAGMENTS /\ len plaintext <= MAX_DATA_PLAINTEXT_LEN /\
    forall j c, cs !! j = Some c ->
      frags !! j = Some (to_be 4 id ++ [as_u8 (Z.of_nat j)] ++ [as_u8 (len cs)] ++ c).
Proof.
  intros Hmax H. unfold split_fragments in H.
  apply bind_ok in H as (? & Hg%reject_ok & H). apply orb_false_iff in Hg as [Hg Hm0]. apply orb_false_iff in Hg as [_ Hl].
  apply Z.eqb_neq in Hm0. apply Z.ltb_ge in Hl.
  apply bind_ok in H as (? & Hc%reject_ok%Z.ltb_ge & H). apply bind_ok in H as (cb & Hcb%ok_or_ok & H).
  apply try_from_some in Hcb as [-> _]. apply build_fragments_spec in H as [Hlen Hall].
  destruct (chunks_of_spec (Z.to_nat max_chunk) (length plaintext) plaintext) as (H1 & H2 & H3); [lia|lia|].
  fold (chunks max_chunk plaintext) in *. set (cs := chunks max_chunk plaintext) in *.
  rewrite Z2Nat.id in H3 by lia. exists cs. rewrite H3. by split_and!.
Qed.

(** ** Reassembling a split in any order *)

Lemma masked_bytes (cs : list (list byte)) : forall f : nat -> bool,
  zsum chunk_len (imap (fun j c => if f j then Some c else None) cs) <= len (concat cs).
Proof.
  induction cs as [|c cs IH]; intros f; [done|]. cbn [imap concat]. rewrite len_app.
  change (zsum chunk_len (?x :: ?y)) with (chunk_len x + zsum chunk_len y).
  specialize (IH (fun j => f (S j))). cbn beta in IH. pose proof (len_nonneg c).
  change (imap ((fun j (c : list byte) => if f j then Some c else None) ∘ S) cs)
    with (imap (fun j (c : list byte) => if f (S j) then Some c else None) cs).
  destruct (f 0%nat); cbn [chunk_len]; lia.
Qed.

Section Reassemble.
Context (l : ReassemblyLimits) (id : Z) (cs : list (list byte)) (t0 : Z).
Context (Hid : u32_range id) (Hcs : Forall (fun c => 1 <= len c) cs)
  (Hn : 2 <= len cs <= MAX_FRAGMENTS) (Hsize : len (concat cs) <= MAX_DATA_PLAINTEXT_LEN)
  (Hroom : len (concat cs) <= max_bytes l) (Hgroups : 1 <= max_groups l).

Definition frag_of (j : nat) (c : list byte) : list byte :=
  to_be 4 id ++ [as_u8 (Z.of_nat j)] ++ [as_u8 (len cs)] ++ c.

(** The chunks received when the indices [I] have arrived. *)
Definition mask (I : list nat) : list (option (list byte)) :=
  imap (fun j c => if bool_decide (j ∈ I) then Some c else None) cs.

Definition pending_group (I : list nat) : Group :=
  {| g_id := id; g_count := len cs; g_chunks := mask I; g_received := len I;
     g_bytes := zsum chunk_len (mask I); g_started := t0 |}.

Definition pending_state (I : list nat) : Reassembler :=
  {| r_limits := l; r_groups := [pending_group I]; r_bytes := zsum chunk_len (mask I); r_dropped := 0 |}.

Lemma mask_lookup I j c : cs !! j = Some c -> mask I !! j = Some (if bool_decide (j ∈ I) then Some c else None).
Proof. intros Hj. unfold mask. by rewrite list_lookup_imap, Hj. Qed.

Lemma mask_insert I j c : cs !! j = Some c -> <[j := Some c]> (mask I) = mask (j :: I).
Proof.
  intros Hj. apply list_eq. intros k. unfold mask.
  assert (Hlen : length (mask I) = length cs) by apply length_imap.
  destruct (decide (k = j)) as [->|Hne].
  - rewrite list_lookup_insert_eq by (rewrite length_imap; by eapply lookup_lt_Some).
    rewrite list_lookup_imap, Hj. cbn. by rewrite bool_decide_true by left.
  - rewrite list_lookup_insert_ne by done. rewrite !list_lookup_imap. destruct (cs !! k); [|done]. cbn. f_equal.
    destruct (decide (k ∈ I)) as [Hk|Hk].
    + by rewrite !bool_decide_true by (by right || done).
    + by rewrite !bool_decide_false by (done || (intros [?|?]%elem_of_cons; done)).
Qed.

Lemma mask_nil : mask [] = replicate (Z.to_nat (len cs)) None.
Proof.
  unfold mask, len. rewrite Nat2Z.id. clear. assert (forall k, imap (fun j c => if bool_decide ((k + j)%nat ∈ ([] : list nat)) then Some c else None) cs
    = replicate (length cs) None) as H; [|exact (H 0%nat)].
  induction cs as [|c cs' IH]; intros k; [done|]. cbn. rewrite bool_decide_false by (by intros ?%elem_of_nil). f_equal.
  etransitivity; [|exact (IH (S k))]. apply imap_ext. intros i x _. cbn. by rewrite Nat.add_succ_r.
Qed.

Lemma mask_full I : (forall j, (j < length cs)%nat -> j ∈ I) -> flatten_chunks (mask I) = concat cs.
Proof.
  intros Hall. assert (mask I = Some <$> cs) as ->.
  { apply list_eq. intros k. unfold mask. rewrite list_lookup_imap, list_lookup_fmap.
    destruct (cs !! k) eqn:Hk; [|done]. cbn. rewrite bool_decide_true; [done|].
    apply Hall. by eapply lookup_lt_Some. }
  unfold flatten_chunks. f_equal. clear. induction cs; cbn; [done|]. by f_equal.
Qed.

Lemma mask_bytes I : zsum chunk_len (mask I) <= len (concat cs).
Proof. apply (masked_bytes cs (fun j => bool_decide (j ∈ I))). Qed.

Lemma parse_frag_of j c :
  cs !! j = Some c -> parse_fragment l (frag_of j c) = Ok (id, j, len cs, c).
Proof.
  intros Hj. pose proof (lookup_lt_Some _ _ _ Hj) as Hlt. unfold MAX_FRAGMENTS in *.
  assert (Hc : 1 <= len c) by (eapply Forall_forall in Hcs; [|by eapply list_elem_of_lookup_2]; done).
  assert (Hle : len c <= len (concat cs)).
  { rewrite <- (take_drop_middle cs j c Hj), concat_app. cbn. slen. }
  assert (Hi : u8 (as_u8 (Z.of_nat j)) = Z.of_nat j) by (apply u8_as_u8_small; unfold U8_MAX, len in *; lia).
  assert (Hcount : u8 (as_u8 (len cs)) = len cs) by (apply u8_as_u8_small; unfold U8_MAX; lia).
  pose proof (from_be_u32 id Hid) as Hbe. unfold parse_fragment, frag_of, FRAG_HEADER_LEN.
  assert (exists b0 b1 b2 b3, to_be 4 id = [b0; b1; b2; b3]) as (b0 & b1 & b2 & b3 & Hb) by (cbn; eauto).
  rewrite Hb in *. cbn [app]. rewrite guard_pass by (apply Z.leb_gt; slen).
  do 6 read. rewrite Hbe, Hi, Hcount.
  rewrite guard_pass.
  2: { apply orb_false_iff. split; [apply negb_false_iff, andb_true_iff; split; apply Z.leb_le; unfold MAX_FRAGMENTS; lia|].
       apply Z.leb_gt. unfold len in *. lia. }
  erewrite bind_step by exact (slice_from_app [b0; b1; b2; b3; as_u8 (Z.of_nat j); as_u8 (len cs)] c 6 eq_refl).
  rewrite guard_pass by (apply orb_false_iff; split; apply Z.ltb_ge; lia). by rewrite Nat2Z.id.
Qed.
Lemma insert_pending I j c :
  cs !! j = Some c -> j ∉ I ->
  insert_at (pending_state I) 0 id j (len cs) c =
    if len I + 1 <? len cs then (Ok None, pending_state (j :: I))
    else (Ok (Some (flatten_chunks (mask (j :: I)))), new_reassembler l).
Proof.
  intros Hj Hnew. pose proof (mask_lookup I j c Hj) as Hm. rewrite bool_decide_false in Hm by done.
  assert (Hsum : zsum chunk_len (mask (j :: I)) = zsum chunk_len (mask I) + len c).
  { rewrite <- (mask_insert I j c Hj), (zsum_insert chunk_len _ _ _ _ Hm). cbn [chunk_len]. lia. }
  pose proof (mask_bytes (j :: I)) as Hb. rewrite Hsum in Hb.
  unfold insert_at. cbn [pending_state r_groups lookup list_lookup]. cbn [pending_group g_count g_chunks g_bytes].
  rewrite Z.eqb_refl. cbn [negb]. rewrite Hm. rewrite (proj2 (Z.ltb_ge _ _)) by lia.
  cbn [length room_loop pending_state r_bytes r_limits]. rewrite (proj2 (Z.leb_le _ _)) by lia.
  unfold store_chunk. change (r_groups (pending_state I)) with [pending_group I].
  assert (Hpos : position id [pending_group I] = Some 0%nat).
  { unfold position. cbn. by rewrite decide_True. }
  rewrite Hpos. cbn [lookup list_lookup].
  assert (Hg : with_chunk (pending_group I) j c = pending_group (j :: I)).
  { unfold with_chunk, pending_group. cbn [g_id g_count g_chunks g_received g_bytes g_started].
    rewrite (mask_insert I j c Hj), Hsum, len_cons. f_equal. lia. }
  rewrite Hg. change (g_received (pending_group (j :: I))) with (len (j :: I)).
  change (g_count (pending_group (j :: I))) with (len cs). rewrite len_cons, (Z.add_comm 1).
  destruct (len I + 1 <? len cs).
  - f_equal. unfold pending_state, with_groups. cbn [insert list_insert r_limits r_bytes r_dropped]. by rewrite Hsum.
  - unfold remove, with_groups. cbn -[zsum mask]. rewrite Hsum, Z.sub_diag. done.
Qed.

Lemma insert_first j c : cs !! j = Some c ->
  insert_fragment (new_reassembler l) (frag_of j c) t0 = insert_at (pending_state []) 0 id j (len cs) c.
Proof.
  intros Hj. unfold insert_fragment.
  change (expire (new_reassembler l) t0) with (Some (new_reassembler l)).
  cbv beta iota. change (r_limits (new_reassembler l)) with l. rewrite parse_frag_of by done.
  assert (Hev : evict_loop 1 (new_reassembler l) = Some (new_reassembler l)).
  { cbn [evict_loop]. rewrite (proj2 (Z.ltb_lt _ _)); [done|]. cbn [new_reassembler r_groups r_limits]. rewrite len_nil. lia. }
  unfold locate. change (position id (r_groups (new_reassembler l))) with (@None nat).
  change (S (length (r_groups (new_reassembler l)))) with 1%nat. rewrite Hev.
  assert (Hz : zsum chunk_len (mask []) = 0).
  { rewrite mask_nil. apply zsum_zero. by intros x [-> _]%elem_of_replicate. }
  cbn [mbind option_bind]. f_equal. unfold pending_state, pending_group, new_group.
  rewrite Hz, mask_nil. done.
Qed.

Lemma insert_next I j c now :
  cs !! j = Some c -> saturating_sub now t0 < frag_timeout l ->
  insert_fragment (pending_state I) (frag_of j c) now = insert_at (pending_state I) 0 id j (len cs) c.
Proof.
  intros Hj Ht. unfold insert_fragment.
  assert (He : expire (pending_state I) now = Some (pending_state I)).
  { unfold expire, pending_state. cbn [r_groups length expire_loop lookup list_lookup r_limits pending_group g_started].
    by rewrite (proj2 (Z.leb_gt _ _)). }
  rewrite He. change (r_limits (pending_state I)) with l. rewrite parse_frag_of by done.
  assert (Hpos : position id (r_groups (pending_state I)) = Some 0%nat).
  { unfold position. cbn. by rewrite decide_True. }
  unfold locate. by rewrite Hpos.
Qed.

(** Deliveries: fragment indices with their arrival times. *)
Fixpoint deliver (r : Reassembler) (ds : list (nat * Z))
    : list (result UdpPacketError (option (list byte))) * Reassembler :=
  match ds with
  | [] => ([], r)
  | (j, now) :: ds =>
    let '(res, r) := insert_fragment r (frag_of j (default [] (cs !! j))) now in
    let '(rs, r) := deliver r ds in (res :: rs, r)
  end.

Lemma deliver_pending ds : forall I,
  ds <> [] -> NoDup (ds.*1 ++ I) -> Forall (fun d => (d.1 < length cs)%nat /\ saturating_sub d.2 t0 < frag_timeout l) ds ->
  (forall j, (j < length cs)%nat -> j ∈ ds.*1 ++ I) -> len ds + len I = len cs ->
  deliver (pending_state I) ds =
    (replicate (length ds - 1) (Ok None) ++ [Ok (Some (concat cs))], new_reassembler l).
Proof.
  induction ds as [|[j now] ds IH]; intros I Hne Hnd Hall Hcov Hlen; [done|].
  inversion Hall as [|? ? [Hj Ht] Hall']; subst. cbn in Hj, Ht. cbn [fmap list_fmap fst app] in Hnd, Hcov.
  apply NoDup_cons in Hnd as [Hfresh Hnd]. destruct (lookup_lt_is_Some_2 cs j Hj) as [c Hc].
  cbn [deliver]. rewrite Hc. change (default [] (Some c)) with c. rewrite (insert_next I j c now Hc Ht).
  rewrite insert_pending by (done || (intros ?; apply Hfresh, elem_of_app; by right)). rewrite len_cons in Hlen.
  assert (Hperm : j :: ds.*1 ++ I ≡ₚ ds.*1 ++ j :: I) by apply Permutation_middle.
  destruct ds as [|d ds].
  - rewrite len_nil in Hlen. rewrite (proj2 (Z.ltb_ge _ _)) by lia. cbn. rewrite mask_full; [done|].
    intros k Hk. exact (Hcov k Hk).
  - pose proof (len_nonneg ds) as Hds. rewrite len_cons in Hlen. rewrite (proj2 (Z.ltb_lt _ _)) by lia.
    rewrite (IH (j :: I)); [cbn; by rewrite Nat.sub_0_r|done| |done| |rewrite !len_cons; lia].
    + rewrite <- Hperm. by apply NoDup_cons.
    + intros k Hk. rewrite <- Hperm. by apply Hcov.
Qed.
End Reassemble.

(** Handing fragments to the receiver, each with its arrival time. *)
Fixpoint insert_all (r : Reassembler) (fs : list (list byte * Z))
    : list (result UdpPacketError (option (list byte))) * Reassembler :=
  match fs with
  | [] => ([], r)
  | (f, now) :: fs =>
    let '(res, r) := insert_fragment r f now in let '(rs, r) := insert_all r fs in (res :: rs, r)
  end.

Lemma insert_all_deliver id cs (frags : list (list byte)) ds : forall r,
  (forall j c, cs !! j = Some c -> frags !! j = Some (frag_of id cs j c)) ->
  Forall (fun d => (d.1 < length cs)%nat) ds ->
  insert_all r ((fun d => (default [] (frags !! d.1), d.2)) <$> ds) = deliver id cs r ds.
Proof.
  induction ds as [|[j now] ds IH]; intros r Hf Hall; [done|]. inversion Hall as [|? ? Hj Hall']; subst. cbn in Hj.
  destruct (lookup_lt_is_Some_2 cs j Hj) as [c Hc]. cbn [fmap list_fmap insert_all deliver fst snd].
  rewrite (Hf j c Hc), Hc. change (default [] (Some ?x)) with x.
  destruct (insert_fragment r (frag_of id cs j c) now) as [res r']. by rewrite IH.
Qed.

(** Fragmentation round trip. If a plaintext is split into at least two
    fragments and they arrive in any order, the first at [t0] and all within the
    reassembly timeout of it, at a receiver with room for one group of that
    size, then every insertion but the last returns nothing, the last returns
    exactly the plaintext, and the reassembler is empty again. *)
Theorem fragments_reassemble (l : ReassemblyLimits) (id : Z) (plaintext : list byte) (max_chunk : Z)
    (frags : list (list byte)) (order : list nat) (times : list Z) (t0 : Z) :
  u32_range id -> 0 <= max_chunk -> split_fragments id plaintext max_chunk = Ok frags -> (2 <= length frags)%nat ->
  1 <= max_groups l -> len plaintext <= max_bytes l ->
  order ≡ₚ seq 0 (length frags) -> length times = length order -> head times = Some t0 ->
  Forall (fun t => saturating_sub t t0 < frag_timeout l) times ->
  insert_all (new_reassembler l) (zip ((fun i => default [] (frags !! i)) <$> order) times) =
    (replicate (length frags - 1) (Ok None) ++ [Ok (Some plaintext)], new_reassembler l).
Proof.
  intros Hid Hmax Hsplit Hn Hg Hb Hperm Htimes Hhd Hall.
  destruct (split_spec id plaintext max_chunk frags Hmax Hsplit) as (cs & Hcat & Hlen & Hne & Hcs & Hsz & Hf).
  fold (frag_of id cs) in Hf. set (ds := zip order times).
  assert (Hds1 : ds.*1 = order) by (apply fst_zip; lia).
  assert (Hlds : length ds = length cs).
  { rewrite <- (length_fmap fst ds), Hds1. rewrite (Permutation_length Hperm), length_seq. lia. }
  assert (Hrange : Forall (fun d => (d.1 < length cs)%nat /\ saturating_sub d.2 t0 < frag_timeout l) ds).
  { apply Forall_forall. intros [j t] Hin. cbn.
    assert (Hj : j ∈ order) by (rewrite <- Hds1; apply (list_elem_of_fmap_2 fst _ _ Hin)).
    assert (Ht : t ∈ times).
    { assert (Hsnd : ds.*2 = times) by (apply snd_zip; lia). rewrite <- Hsnd. apply (list_elem_of_fmap_2 snd _ _ Hin). }
    rewrite Hperm in Hj. apply elem_of_seq in Hj. split; [lia|]. by eapply Forall_forall in Hall. }
  replace (zip _ times) with ((fun d => (default [] (frags !! d.1), d.2)) <$> ds); cycle 1.
  { unfold ds. clear. revert times. induction order; intros [|t times]; cbn; [done..|]. by f_equal. }
  rewrite (insert_all_deliver id cs); [|exact Hf|eapply Forall_impl; [exact Hrange|]; cbn; tauto].
  destruct ds as [|[j t] ds'] eqn:Eds; [cbn in Hlds; lia|].
  assert (t = t0) as ->.
  { destruct order as [|o order], times as [|t' times]; try done. unfold zip in Eds. cbn in Eds, Hhd. congruence. }
  inversion Hrange as [|? ? [Hj Ht] Hrest]; subst. cbn in Hj. destruct (lookup_lt_is_Some_2 cs j Hj) as [c Hc].
  assert (Hcn : 2 <= len cs <= MAX_FRAGMENTS) by (unfold len in *; lia).
  cbn [deliver]. rewrite Hc. change (default [] (Some c)) with c.
  rewrite (insert_first l id cs t0) by done.
  rewrite <- (insert_next l id cs t0 Hid Hne Hcn Hsz Hb [] j c t0 Hc Ht).
  pose proof (deliver_pending l id cs t0 Hid Hne Hcn Hsz Hb ((j, t0) :: ds') []) as Hd.
  cbn [deliver] in Hd. rewrite Hc in Hd. change (default [] (Some c)) with c in Hd. rewrite Hd.
  - do 2 f_equal. f_equal. cbn in *. lia.
  - done.
  - rewrite app_nil_r, Hperm. apply NoDup_seq.
  - done.
  - intros k Hk. rewrite app_nil_r, Hperm. apply elem_of_seq. lia.
  - unfold len in *. cbn [length]. cbn in Hlds. lia.
Qed.

Lemma fragments_reassemble_witness :
  exists frags, split_fragments 9 [x01; x02; x03; x04; x05] 2 = Ok frags /\ length frags = 3%nat /\
  insert_all (new_reassembler default_limits)
    (zip ((fun i => default [] (frags !! i)) <$> [2%nat; 0%nat; 1%nat]) [10; 11; 2000]) =
  ([Ok None; Ok None; Ok (Some [x01; x02; x03; x04; x05])], new_reassembler default_limits).
Proof.
  destruct (split_fragments 9 [x01; x02; x03; x04; x05] 2) as [frags| |] eqn:E; [|vm_compute in E; discriminate E..].
  assert (Hl : length frags = 3%nat) by (vm_compute in E; injection E as <-; reflexivity).
  exists frags. split; [reflexivity|]. split; [exact Hl|].
  rewrite (fragments_reassemble default_limits 9 [x01; x02; x03; x04; x05] 2 frags [2%nat; 0%nat; 1%nat] [10; 11; 2000] 10);
    [by rewrite Hl | unfold u32_range, U32_MAX; lia | lia | exact E | lia | cbn; lia | vm_compute; discriminate | | reflexivity
    | reflexivity | repeat constructor].
  rewrite Hl. apply (Permutation_cons_app [0%nat; 1%nat] [] 2%nat). reflexivity.
Defined.
