(* ===== verification/Tls13Keys.v ===== *)
(** * TLS 1.3 key schedule ([src/protocol/reality/tls13/keys.rs])

    Cipher suites, hash-sized secrets, HKDF-Expand-Label and the no-PSK key
    schedule. The hash, HKDF, HMAC and AEAD primitives are external crates:
    [Tls13Ops] lists what is called of them and [Tls13Laws] their documented
    behaviour (lengths, when expansion and sealing succeed, and that opening
    inverts sealing). *)

From S2P Require Import Prelude.
#[local] Open Scope Z_scope.

(** ** Suites *)

Inductive CipherSuite := Aes128GcmSha256 | Aes256GcmSha384 | ChaCha20Poly1305Sha256.
Inductive HashAlgorithm := Sha256 | Sha384.

#[export] Instance CipherSuite_eq_dec : EqDecision CipherSuite.
Proof. solve_decision. Defined.
#[export] Instance HashAlgorithm_eq_dec : EqDecision HashAlgorithm.
Proof. solve_decision. Defined.

Definition suite_from_wire (value : Z) : option CipherSuite :=
  if value =? 4865 then Some Aes128GcmSha256
  else if value =? 4866 then Some Aes256GcmSha384
  else if value =? 4867 then Some ChaCha20Poly1305Sha256
  else None.

Definition suite_wire_value (s : CipherSuite) : Z :=
  match s with Aes128GcmSha256 => 4865 | Aes256GcmSha384 => 4866 | ChaCha20Poly1305Sha256 => 4867 end.

Definition suite_hash (s : CipherSuite) : HashAlgorithm :=
  match s with Aes128GcmSha256 | ChaCha20Poly1305Sha256 => Sha256 | Aes256GcmSha384 => Sha384 end.

Definition key_len (s : CipherSuite) : Z :=
  match s with Aes128GcmSha256 => 16 | Aes256GcmSha384 | ChaCha20Poly1305Sha256 => 32 end.

Definition output_len (h : HashAlgorithm) : Z := match h with Sha256 => 32 | Sha384 => 48 end.

Definition MAX_HASH_BYTES : Z := 48.

(** ** The primitives *)

Class Tls13Ops := {
  tls_digest : HashAlgorithm -> list byte -> list byte;
  (** [Hkdf::extract(salt, input)]. *)
  tls_extract : HashAlgorithm -> list byte -> list byte -> list byte;
  (** [Hkdf::from_prk(prk)?.expand_multi_info(info, output)] into [n] bytes. *)
  tls_expand : HashAlgorithm -> list byte -> list byte -> Z -> option (list byte);
  tls_hmac : HashAlgorithm -> list byte -> list byte -> list byte;
  (** The suite's AEAD: ciphertext and tag, and the inverse. *)
  record_seal : CipherSuite -> list byte -> list byte -> list byte -> list byte -> option (list byte * list byte);
  record_open : CipherSuite -> list byte -> list byte -> list byte -> list byte -> list byte -> option (list byte);
}.

Class Tls13Laws (C : Tls13Ops) : Prop := {
  tls_digest_len : forall h m, len (tls_digest h m) = output_len h;
  tls_extract_len : forall h s m, len (tls_extract h s m) = output_len h;
  tls_expand_len : forall h prk info n okm, tls_expand h prk info n = Some okm -> len okm = n;
  tls_expand_some : forall h prk info n,
    output_len h <= len prk -> 0 <= n <= 255 * output_len h -> is_Some (tls_expand h prk info n);
  tls_hmac_len : forall h k m, len (tls_hmac h k m) = output_len h;
  record_seal_some : forall s k n a p,
    len k = key_len s -> len n = 12 -> len p <= 65536 -> is_Some (record_seal s k n a p);
  record_seal_len : forall s k n a p c t, record_seal s k n a p = Some (c, t) -> len c = len p /\ len t = 16;
  record_open_seal : forall s k n a p c t, record_seal s k n a p = Some (c, t) -> record_open s k n a c t = Some p;
  record_open_len : forall s k n a c t p, record_open s k n a c t = Some p -> len p = len c;
}.

(** ** Hash-sized values

    [Secret], [TranscriptHash] and [FinishedVerifyData] have the same shape: an
    algorithm and a 48-byte array whose first [output_len] bytes are used. *)

Record HashBytes := { hb_algorithm : HashAlgorithm; hb_bytes : list byte }.

Definition Secret := HashBytes.
Definition TranscriptHash := HashBytes.
Definition FinishedVerifyData := HashBytes.
Definition TrafficSecret := Secret.

(** [bytes.get(..algorithm.output_len()).unwrap_or_default()]. *)
Definition hb_as_bytes (s : HashBytes) : list byte :=
  match get_range (hb_bytes s) 0 (output_len (hb_algorithm s)) with Some b => b | None => [] end.

Definition zeroed (h : HashAlgorithm) : Secret :=
  {| hb_algorithm := h; hb_bytes := replicate (Z.to_nat MAX_HASH_BYTES) x00 |}.

(** A zeroed value whose leading bytes were overwritten. *)
Definition hb_fill (h : HashAlgorithm) (bytes : list byte) : HashBytes :=
  {| hb_algorithm := h; hb_bytes := bytes ++ drop (length bytes) (hb_bytes (zeroed h)) |}.

Inductive Tls13KeyScheduleError := HashMismatch | KInvalidLength | InvalidSharedSecret | KCrypto.

(** [TrafficSecret::from_bytes] and [TranscriptHash::from_bytes]. *)
Definition hb_from_bytes (h : HashAlgorithm) (bytes : list byte) : result Tls13KeyScheduleError HashBytes :=
  guard! negb (len bytes =? output_len h) else KInvalidLength;
  Ok (hb_fill h bytes).

(** Built by filling exactly [output_len] bytes: the only values the module makes. *)
Definition hb_wf (s : HashBytes) : Prop :=
  exists bytes, len bytes = output_len (hb_algorithm s) /\ s = hb_fill (hb_algorithm s) bytes.

Definition TLS13_LABEL_PREFIX : list byte := bytes_of "tls13 ".

Section Schedule.
Context {C : Tls13Ops}.

Definition digest (h : HashAlgorithm) (messages : list byte) : TranscriptHash := hb_fill h (tls_digest h messages).

Definition extract (h : HashAlgorithm) (salt input : list byte) : Secret := hb_fill h (tls_extract h salt input).

(** The encoded [HkdfLabel]. *)
Definition hkdf_label (n : Z) (label context : list byte) : result Tls13KeyScheduleError (list byte) :=
  full_label_len ← ok_or KInvalidLength (checked_add USIZE_MAX (len TLS13_LABEL_PREFIX) (len label));
  output_len ← ok_or KInvalidLength (try_from U16_MAX n);
  full_label_len ← ok_or KInvalidLength (try_from U8_MAX full_label_len);
  context_len ← ok_or KInvalidLength (try_from U8_MAX (len context));
  Ok (to_be 2 output_len ++ [as_u8 full_label_len] ++ TLS13_LABEL_PREFIX ++ label ++ [as_u8 context_len] ++ context).

(** [expand_label] into an output of [n] bytes. [from_prk] refuses a short key. *)
Definition expand_label (h : HashAlgorithm) (secret : Secret) (label context : list byte) (n : Z)
    : result Tls13KeyScheduleError (list byte) :=
  guard! negb (bool_decide (hb_algorithm secret = h)) else HashMismatch;
  info ← hkdf_label n label context;
  guard! len (hb_as_bytes secret) <? output_len h else KCrypto;
  ok_or KInvalidLength (tls_expand h (hb_as_bytes secret) info n).

Definition derive_secret (h : HashAlgorithm) (secret : Secret) (label : list byte) (t : TranscriptHash)
    : result Tls13KeyScheduleError Secret :=
  guard! negb (bool_decide (hb_algorithm t = h)) else HashMismatch;
  okm ← expand_label h secret label (hb_as_bytes t) (output_len h);
  Ok (hb_fill h okm).

Definition hash_hmac (h : HashAlgorithm) (key input : list byte) : FinishedVerifyData := hb_fill h (tls_hmac h key input).

(** [TrafficSecret::updated]. *)
Definition updated (s : TrafficSecret) : result Tls13KeyScheduleError TrafficSecret :=
  let h := hb_algorithm s in
  okm ← expand_label h s (bytes_of "traffic upd") [] (output_len h);
  Ok (hb_fill h okm).

(** ** [TranscriptHasher]: the running hash is the input fed so far. *)

Record TranscriptHasher := { th_algorithm : HashAlgorithm; th_input : list byte }.
Definition new_hasher (h : HashAlgorithm) : TranscriptHasher := {| th_algorithm := h; th_input := [] |}.
Definition update (t : TranscriptHasher) (m : list byte) : TranscriptHasher :=
  {| th_algorithm := th_algorithm t; th_input := th_input t ++ m |}.
Definition snapshot (t : TranscriptHasher) : TranscriptHash := digest (th_algorithm t) (th_input t).

(** ** Traffic keys *)

Record TrafficKeys := { tk_key : list byte; tk_key_len : Z; tk_iv : list byte }.

(** [key.get(..key_len).unwrap_or_default()]. *)
Definition keys_key (k : TrafficKeys) : list byte :=
  match get_range (tk_key k) 0 (tk_key_len k) with Some b => b | None => [] end.

Definition from_raw_parts (key iv : list byte) : result Tls13KeyScheduleError TrafficKeys :=
  guard! negb ((len key =? 16) || (len key =? 32)) else KInvalidLength;
  Ok {| tk_key := key ++ replicate (32 - length key) x00; tk_key_len := len key; tk_iv := iv |}.

Definition derive_traffic_keys (suite : CipherSuite) (s : TrafficSecret) : result Tls13KeyScheduleError TrafficKeys :=
  let hash := suite_hash suite in
  guard! negb (bool_decide (hb_algorithm s = hash)) else HashMismatch;
  guard! 32 <? key_len suite else KInvalidLength;
  key ← expand_label hash s (bytes_of "key") [] (key_len suite);
  iv ← expand_label hash s (bytes_of "iv") [] 12;
  Ok {| tk_key := key ++ replicate (Z.to_nat (32 - key_len suite)) x00; tk_key_len := key_len suite; tk_iv := iv |}.

(** ** [Tls13KeySchedule] *)

Record Tls13KeySchedule := {
  ks_suite : CipherSuite;
  ks_master : Secret;
  ks_client_handshake : TrafficSecret;
  ks_server_handshake : TrafficSecret;
}.

Definition new_schedule (suite : CipherSuite) (shared_secret : list byte) (t : TranscriptHash)
    : result Tls13KeyScheduleError Tls13KeySchedule :=
  guard! (len shared_secret =? 0) || (128 <? len shared_secret) else InvalidSharedSecret;
  let hash := suite_hash suite in
  guard! negb (bool_decide (hb_algorithm t = hash)) else HashMismatch;
  zero ← ok_or KInvalidLength (get_range (replicate (Z.to_nat MAX_HASH_BYTES) x00) 0 (output_len hash));
  let early := extract hash zero zero in
  let empty_hash := digest hash [] in
  derived_early ← derive_secret hash early (bytes_of "derived") empty_hash;
  let handshake := extract hash (hb_as_bytes derived_early) shared_secret in
  client ← derive_secret hash handshake (bytes_of "c hs traffic") t;
  server ← derive_secret hash handshake (bytes_of "s hs traffic") t;
  derived_handshake ← derive_secret hash handshake (bytes_of "derived") empty_hash;
  let master := extract hash (hb_as_bytes derived_handshake) zero in
  Ok {| ks_suite := suite; ks_master := master; ks_client_handshake := client; ks_server_handshake := server |}.

Definition finished_verify_data (ks : Tls13KeySchedule) (s : TrafficSecret) (t : TranscriptHash)
    : result Tls13KeyScheduleError FinishedVerifyData :=
  let hash := suite_hash (ks_suite ks) in
  guard! negb (bool_decide (hb_algorithm s = hash)) || negb (bool_decide (hb_algorithm t = hash)) else HashMismatch;
  okm ← expand_label hash s (bytes_of "finished") [] (output_len hash);
  let finished_key := hb_fill hash okm in
  Ok (hash_hmac hash (hb_as_bytes finished_key) (hb_as_bytes t)).

Record ApplicationTrafficSecrets := { ap_client : TrafficSecret; ap_server : TrafficSecret }.

Definition application_traffic_secrets (ks : Tls13KeySchedule) (t : TranscriptHash)
    : result Tls13KeyScheduleError ApplicationTrafficSecrets :=
  let hash := suite_hash (ks_suite ks) in
  guard! negb (bool_decide (hb_algorithm t = hash)) else HashMismatch;
  client ← derive_secret hash (ks_master ks) (bytes_of "c ap traffic") t;
  server ← derive_secret hash (ks_master ks) (bytes_of "s ap traffic") t;
  Ok {| ap_client := client; ap_server := server |}.

End Schedule.

(** ** Lemmas *)

Lemma output_len_bounds h : 32 <= output_len h <= MAX_HASH_BYTES.
Proof. destruct h; unfold MAX_HASH_BYTES; cbn; lia. Qed.

Lemma key_len_bounds s : 16 <= key_len s <= 32.
Proof. destruct s; cbn; lia. Qed.

Lemma suite_wire_roundtrip s : suite_from_wire (suite_wire_value s) = Some s.
Proof. by destruct s. Qed.

Lemma suite_wire_range s : u16_range (suite_wire_value s).
Proof. destruct s; vm_compute; split; congruence. Qed.

Lemma hb_fill_wf h bytes : len bytes = output_len h -> hb_wf (hb_fill h bytes).
Proof. intros H. by exists bytes. Qed.

Lemma hb_as_bytes_fill h bytes : len bytes = output_len h -> hb_as_bytes (hb_fill h bytes) = bytes.
Proof. intros H. unfold hb_as_bytes, hb_fill. cbn [hb_bytes hb_algorithm]. by rewrite get_range_prefix. Qed.

Lemma hb_wf_len s : hb_wf s -> len (hb_as_bytes s) = output_len (hb_algorithm s).
Proof. intros (b & Hb & ->). cbn [hb_fill hb_algorithm] in *. by rewrite hb_as_bytes_fill. Qed.

Lemma hb_fill_as_bytes s : hb_wf s -> hb_fill (hb_algorithm s) (hb_as_bytes s) = s.
Proof. intros (b & Hb & ->). cbn [hb_fill hb_algorithm] in *. by rewrite (hb_as_bytes_fill _ b). Qed.

Lemma hb_from_bytes_as_bytes s : hb_wf s -> hb_from_bytes (hb_algorithm s) (hb_as_bytes s) = Ok s.
Proof.
  intros Hs. unfold hb_from_bytes. rewrite guard_pass by (rewrite hb_wf_len by done; by rewrite Z.eqb_refl).
  by rewrite hb_fill_as_bytes.
Qed.

Lemma hb_from_bytes_inv h bytes s : hb_from_bytes h bytes = Ok s -> hb_wf s /\ hb_algorithm s = h /\ hb_as_bytes s = bytes.
Proof.
  unfold hb_from_bytes. intros H. inv_ok H. apply negb_false_iff, Z.eqb_eq in Hstep.
  split_and!; [by apply hb_fill_wf|done|by apply hb_as_bytes_fill].
Qed.

Lemma hb_from_bytes_no_panic h bytes : no_panic (hb_from_bytes h bytes).
Proof. apply no_panic_guard. done. Qed.

(** ** Expansion *)

Lemma hkdf_label_ok n label context info :
  hkdf_label n label context = Ok info <->
  u16_range n /\ len label <= 249 /\ len context <= 255 /\
  info = to_be 2 n ++ [as_u8 (6 + len label)] ++ TLS13_LABEL_PREFIX ++ label ++ [as_u8 (len context)] ++ context.
Proof.
  unfold hkdf_label. change (len TLS13_LABEL_PREFIX) with 6. pose proof (len_nonneg label). pose proof (len_nonneg context).
  unfold u16_range, U16_MAX. split.
  - intros H1. apply bind_ok in H1 as (a & Ha%ok_or_ok%checked_add_some & H1). apply bind_ok in H1 as (b & Hb%ok_or_ok%try_from_some & H1).
    apply bind_ok in H1 as (c & Hc%ok_or_ok%try_from_some & H1). apply bind_ok in H1 as (d & Hd%ok_or_ok%try_from_some & H1).
    unfold U8_MAX, U16_MAX in *. destruct Ha as [-> _], Hb as [-> ?], Hc as [-> ?], Hd as [-> ?]. injection H1 as <-.
    split_and!; try lia. done.
  - intros (Hn & Hl & Hc & ->).
    rewrite (bind_step _ (6 + len label)) by (apply ok_or_ok, checked_add_some; unfold USIZE_MAX, U64_MAX; split; lia).
    rewrite (bind_step _ n) by (apply ok_or_ok, try_from_some; unfold U16_MAX; split; lia).
    rewrite (bind_step _ (6 + len label)) by (apply ok_or_ok, try_from_some; unfold U8_MAX; split; lia).
    rewrite (bind_step _ (len context)) by (apply ok_or_ok, try_from_some; unfold U8_MAX; split; lia). done.
Qed.

Section ScheduleLemmas.
Context {C : Tls13Ops} {L : Tls13Laws C}.

Lemma expand_label_total h s label context n :
  hb_wf s -> hb_algorithm s = h -> len label <= 249 -> len context <= 255 -> 0 <= n <= 255 * output_len h ->
  exists okm, expand_label h s label context n = Ok okm /\ len okm = n.
Proof.
  intros Hs Hh Hl Hc Hn. unfold expand_label. rewrite guard_pass by (by rewrite bool_decide_true).
  destruct (hkdf_label n label context) as [info| |] eqn:Hi.
  2,3: exfalso; pose proof (proj2 (hkdf_label_ok n label context _) ltac:(split_and!; [unfold u16_range, U16_MAX; destruct h; cbn in Hn; lia|done|done|reflexivity])); congruence.
  rewrite (bind_step _ info) by done. rewrite guard_pass by (apply Z.ltb_ge; rewrite hb_wf_len by done; subst; lia).
  destruct (tls_expand_some h (hb_as_bytes s) info n) as [okm Hok]; [rewrite hb_wf_len by done; subst; lia|done|].
  rewrite Hok. exists okm. split; [done|]. by eapply tls_expand_len.
Qed.

Lemma derive_secret_total h s label t :
  hb_wf s -> hb_algorithm s = h -> hb_wf t -> hb_algorithm t = h -> len label <= 249 ->
  exists k, derive_secret h s label t = Ok k /\ hb_wf k /\ hb_algorithm k = h.
Proof.
  intros Hs Hh Ht Hth Hl. unfold derive_secret. rewrite guard_pass by (by rewrite bool_decide_true).
  pose proof (output_len_bounds h) as Hb. unfold MAX_HASH_BYTES in Hb.
  destruct (expand_label_total h s label (hb_as_bytes t) (output_len h)) as (okm & -> & Hok); try done;
    [rewrite hb_wf_len, Hth by done; lia|lia|]. exists (hb_fill h okm). split_and!; [done|by apply hb_fill_wf|done].
Qed.

Lemma extract_wf h salt input : hb_wf (extract h salt input) /\ hb_algorithm (extract h salt input) = h.
Proof. split; [apply hb_fill_wf, tls_extract_len|done]. Qed.

Lemma digest_wf h m : hb_wf (digest h m) /\ hb_algorithm (digest h m) = h.
Proof. split; [apply hb_fill_wf, tls_digest_len|done]. Qed.

(** Usable keys of a suite. *)
Definition keys_wf (suite : CipherSuite) (k : TrafficKeys) : Prop := len (keys_key k) = key_len suite /\ len (tk_iv k) = 12.

Lemma derive_traffic_keys_total suite s :
  hb_wf s -> hb_algorithm s = suite_hash suite -> exists k, derive_traffic_keys suite s = Ok k /\ keys_wf suite k.
Proof.
  intros Hs Hh. unfold derive_traffic_keys. pose proof (key_len_bounds suite) as Hk.
  pose proof (output_len_bounds (suite_hash suite)) as Hb. rewrite guard_pass by (by rewrite bool_decide_true).
  rewrite guard_pass by (apply Z.ltb_ge; lia).
  destruct (expand_label_total (suite_hash suite) s (bytes_of "key") [] (key_len suite)) as (key & -> & Hkey); try done; [lia|].
  destruct (expand_label_total (suite_hash suite) s (bytes_of "iv") [] 12) as (iv & Eiv & Hiv); try done; [lia|].
  cbn [mbind result_bind]. rewrite Eiv. eexists. split; [done|]. unfold keys_wf, keys_key. cbn [tk_key tk_key_len tk_iv].
  rewrite get_range_prefix by done. done.
Qed.

Lemma updated_total s :
  hb_wf s -> exists k, updated s = Ok k /\ hb_wf k /\ hb_algorithm k = hb_algorithm s.
Proof.
  intros Hs. unfold updated. pose proof (output_len_bounds (hb_algorithm s)).
  destruct (expand_label_total (hb_algorithm s) s (bytes_of "traffic upd") [] (output_len (hb_algorithm s))) as (okm & -> & Hok); try done; [lia|].
  exists (hb_fill (hb_algorithm s) okm). split_and!; [done|by apply hb_fill_wf|done].
Qed.

Definition schedule_wf (ks : Tls13KeySchedule) : Prop :=
  Forall (fun s => hb_wf s /\ hb_algorithm s = suite_hash (ks_suite ks))
    [ks_master ks; ks_client_handshake ks; ks_server_handshake ks].

Lemma new_schedule_total suite shared t :
  1 <= len shared <= 128 -> hb_wf t -> hb_algorithm t = suite_hash suite ->
  exists ks, new_schedule suite shared t = Ok ks /\ ks_suite ks = suite /\ schedule_wf ks.
Proof.
  intros Hs Ht Hth. unfold new_schedule. set (h := suite_hash suite) in *. pose proof (output_len_bounds h) as Hb.
  rewrite guard_pass by (apply orb_false_iff; split; [apply Z.eqb_neq|apply Z.ltb_ge]; lia).
  rewrite guard_pass by (by rewrite bool_decide_true). set (z := replicate (Z.to_nat MAX_HASH_BYTES) x00).
  destruct (get_range z 0 (output_len h)) as [zero|] eqn:Ez.
  2: { unfold z in Ez. rewrite get_range_some in Ez; [done|lia|lia|unfold MAX_HASH_BYTES in *; slen]. }
  rewrite (bind_step _ zero) by done. destruct (digest_wf h []) as [Hd Hdh].
  destruct (extract_wf h zero zero) as [He Heh].
  destruct (derive_secret_total h _ (bytes_of "derived") _ He Heh Hd Hdh ltac:(done)) as (k1 & E1 & Hk1 & Hk1h).
  rewrite (bind_step _ k1) by done. destruct (extract_wf h (hb_as_bytes k1) shared) as [Hhs Hhsh].
  set (handshake := extract h (hb_as_bytes k1) shared) in *.
  destruct (derive_secret_total h _ (bytes_of "c hs traffic") _ Hhs Hhsh Ht Hth ltac:(done)) as (k2 & E2 & Hk2 & Hk2h).
  destruct (derive_secret_total h _ (bytes_of "s hs traffic") _ Hhs Hhsh Ht Hth ltac:(done)) as (k3 & E3 & Hk3 & Hk3h).
  destruct (derive_secret_total h _ (bytes_of "derived") _ Hhs Hhsh Hd Hdh ltac:(done)) as (k4 & E4 & Hk4 & Hk4h).
  rewrite (bind_step _ k2), (bind_step _ k3), (bind_step _ k4) by done.
  destruct (extract_wf h (hb_as_bytes k4) zero) as [Hm Hmh].
  eexists. split; [done|]. split; [done|]. unfold schedule_wf. cbn. by repeat constructor.
Qed.

Lemma application_secrets_total ks t :
  schedule_wf ks -> hb_wf t -> hb_algorithm t = suite_hash (ks_suite ks) ->
  exists a, application_traffic_secrets ks t = Ok a /\
    Forall (fun s => hb_wf s /\ hb_algorithm s = suite_hash (ks_suite ks)) [ap_client a; ap_server a].
Proof.
  intros Hks Ht Hth. inversion Hks as [|? ? [Hm Hmh] _]; subst. unfold application_traffic_secrets.
  rewrite guard_pass by (by rewrite bool_decide_true).
  destruct (derive_secret_total _ _ (bytes_of "c ap traffic") _ Hm Hmh Ht Hth ltac:(done)) as (c & Ec & Hc & Hch).
  destruct (derive_secret_total _ _ (bytes_of "s ap traffic") _ Hm Hmh Ht Hth ltac:(done)) as (s & Es & Hs & Hsh).
  rewrite (bind_step _ c), (bind_step _ s) by done. eexists. split; [done|]. by repeat constructor.
Qed.

Lemma finished_total ks s t :
  hb_wf s -> hb_algorithm s = suite_hash (ks_suite ks) -> hb_wf t -> hb_algorithm t = suite_hash (ks_suite ks) ->
  exists v, finished_verify_data ks s t = Ok v /\ hb_wf v /\ hb_algorithm v = suite_hash (ks_suite ks).
Proof.
  intros Hs Hsh Ht Hth. unfold finished_verify_data. set (h := suite_hash (ks_suite ks)) in *. pose proof (output_len_bounds h).
  rewrite guard_pass by (by rewrite !bool_decide_true).
  destruct (expand_label_total h s (bytes_of "finished") [] (output_len h)) as (okm & -> & Hok); try done; [lia|].
  eexists. split; [done|]. split; [apply hb_fill_wf, tls_hmac_len|done].
Qed.
End ScheduleLemmas.

(** ** A transparent instance

    It satisfies the laws; the examples run on it. *)

Definition pad_to (n : Z) (l : list byte) : list byte := take (Z.to_nat n) (l ++ replicate (Z.to_nat n) x00).

Lemma len_pad_to n l : 0 <= n -> len (pad_to n l) = n.
Proof. unfold pad_to. slen. Qed.

Definition toy_record_tag (k n a : list byte) : list byte := pad_to 16 (take 2 k ++ drop 2 n ++ take 4 a).

#[export] Instance toy_tls : Tls13Ops := {
  tls_digest h m := pad_to (output_len h) m;
  tls_extract h salt m := pad_to (output_len h) (take 8 m ++ salt);
  tls_expand h prk info n := if 0 <=? n then Some (pad_to n (drop 9 info ++ take 8 prk)) else None;
  tls_hmac h k m := pad_to (output_len h) (take 8 k ++ m);
  record_seal s k n a p := Some (p, toy_record_tag k n a);
  record_open s k n a c t := if bytes_eqb t (toy_record_tag k n a) then Some c else None;
}.

#[export] Instance toy_tls_laws : Tls13Laws toy_tls.
Proof.
  constructor; cbn -[pad_to output_len].
  - intros h m. apply len_pad_to. pose proof (output_len_bounds h). lia.
  - intros h s m. apply len_pad_to. pose proof (output_len_bounds h). lia.
  - intros h prk info n okm. destruct (Z.leb_spec 0 n); [|done]. intros [= <-]. by apply len_pad_to.
  - intros h prk info n _ [Hn _]. rewrite (proj2 (Z.leb_le _ _)) by done. by eexists.
  - intros h k m. apply len_pad_to. pose proof (output_len_bounds h). lia.
  - intros. by eexists.
  - intros s k n a p c t [= <- <-]. split; [done|by apply len_pad_to].
  - intros s k n a p c t [= <- <-]. by rewrite bytes_eqb_refl.
  - intros s k n a c t p. destruct (bytes_eqb _ _); [|done]. by intros [= <-].
Qed.

(** C39: the key schedule is total and well-typed. For every suite, every shared
    secret of 1 to 128 bytes and every transcript digest of the suite's hash,
    the schedule is built, and from it the application secrets, the traffic
    keys, their KeyUpdate successors and the Finished data of either direction
    are all derived without error; every secret carries the suite's hash and
    exactly its output length, every key the suite's key length and a 12-byte
    IV. Any other shared-secret length or hash is refused with its own error. *)
Theorem key_schedule_typed {C : Tls13Ops} {L : Tls13Laws C} (suite : CipherSuite) (shared : list byte)
    (t t' : TranscriptHash) :
  hb_wf t -> hb_wf t' ->
  if negb ((1 <=? len shared) && (len shared <=? 128)) then new_schedule suite shared t = Err InvalidSharedSecret
  else if negb (bool_decide (hb_algorithm t = suite_hash suite)) then new_schedule suite shared t = Err HashMismatch
  else exists ks, new_schedule suite shared t = Ok ks /\
    (hb_algorithm t' <> suite_hash suite -> application_traffic_secrets ks t' = Err HashMismatch) /\
    (hb_algorithm t' = suite_hash suite ->
     exists ap, application_traffic_secrets ks t' = Ok ap /\
       Forall (fun s =>
         len (hb_as_bytes s) = output_len (suite_hash suite) /\
         (exists next, updated s = Ok next /\ len (hb_as_bytes next) = output_len (suite_hash suite) /\
            exists k, derive_traffic_keys suite next = Ok k /\ keys_wf suite k) /\
         (exists k, derive_traffic_keys suite s = Ok k /\ keys_wf suite k) /\
         (exists v, finished_verify_data ks s t' = Ok v /\ len (hb_as_bytes v) = output_len (suite_hash suite)))
         [ks_client_handshake ks; ks_server_handshake ks; ap_client ap; ap_server ap]).
Proof.
  intros Ht Ht'. destruct (negb ((1 <=? len shared) && _)) eqn:Hl.
  { unfold new_schedule. replace ((len shared =? 0) || _) with true; [done|]. pose proof (len_nonneg shared).
    destruct (Z.leb_spec 1 (len shared)), (Z.leb_spec (len shared) 128), (Z.eqb_spec (len shared) 0), (Z.ltb_spec 128 (len shared));
      cbn in *; (done || lia). }
  apply negb_false_iff, andb_true_iff in Hl as [H1%Z.leb_le H2%Z.leb_le].
  case_bool_decide as Hth; cbn [negb].
  2: { unfold new_schedule. rewrite guard_pass by (apply orb_false_iff; split; [apply Z.eqb_neq|apply Z.ltb_ge]; lia).
       by rewrite bool_decide_false. }
  destruct (new_schedule_total suite shared t) as (ks & Hks & Hs & Hwf); [lia|done|done|]. exists ks. split; [done|].
  split; [intros Hne; unfold application_traffic_secrets; rewrite Hs, bool_decide_false by done; done|].
  intros Ht'h. destruct (application_secrets_total ks t' Hwf Ht' ltac:(by rewrite Hs)) as (ap & Hap & Hapw).
  exists ap. split; [done|]. apply Forall_cons in Hwf as [_ Hwf].
  change [ks_client_handshake ks; ks_server_handshake ks; ap_client ap; ap_server ap]
    with ([ks_client_handshake ks; ks_server_handshake ks] ++ [ap_client ap; ap_server ap]).
  eapply Forall_impl; [by apply Forall_app_2|]. intros s [Hw Hh]. rewrite Hs in Hh. split_and!.
  - rewrite hb_wf_len by done. by rewrite Hh.
  - destruct (updated_total s Hw) as (n & Hn & Hnw & Hnh). exists n. split; [done|]. rewrite hb_wf_len by done.
    rewrite Hnh, Hh. split; [done|]. apply derive_traffic_keys_total; [done|congruence].
  - by apply derive_traffic_keys_total.
  - destruct (finished_total ks s t') as (v & Hv & Hvw & Hvh); try done; [by rewrite Hs..|].
    exists v. split; [done|]. rewrite hb_wf_len by done. by rewrite Hvh, Hs.
Qed.

Lemma key_schedule_typed_witness :
  exists ks ap, new_schedule Aes256GcmSha384 (replicate 32 x07) (digest Sha384 [x01]) = Ok ks /\
    application_traffic_secrets ks (digest Sha384 [x01; x02]) = Ok ap.
Proof.
  destruct (key_schedule_typed Aes256GcmSha384 (replicate 32 x07) (digest Sha384 [x01]) (digest Sha384 [x01; x02]))
    as (ks & Hks & _ & Hap).
  - apply digest_wf.
  - apply digest_wf.
  - destruct (Hap eq_refl) as (ap & Hap' & _). by exists ks, ap.
Defined.

(** Labelled derivations are domain-separated: the encoded label determines
    the output length, the label and the context, so two derivations from one
    secret that differ in any of them (key against IV, client against server,
    handshake against application, one transcript against another) never feed
    HKDF-Expand the same info. *)
Theorem hkdf_label_injective (n n' : Z) (label label' context context' info : list byte) :
  hkdf_label n label context = Ok info -> hkdf_label n' label' context' = Ok info ->
  n = n' /\ label = label' /\ context = context'.
Proof.
  rewrite !hkdf_label_ok. unfold u16_range, U16_MAX. intros (Hn & Hl & Hc & ->) (Hn' & Hl' & Hc' & H).
  apply app_inj_1 in H as [Hout H]; [|by rewrite !length_to_be]. apply (f_equal from_be) in Hout.
  rewrite !from_be_u16 in Hout by (unfold u16_range, U16_MAX; lia). split; [done|].
  apply app_inj_1 in H as [[= Hll%(f_equal u8)] H]; [|done]. pose proof (len_nonneg label). pose proof (len_nonneg label').
  rewrite !u8_as_u8_small in Hll by (unfold U8_MAX; lia). apply app_inv_head in H.
  apply app_inj_1 in H as [-> H]; [|unfold len in Hll; lia]. split; [done|].
  by apply app_inj_1 in H as [_ H].
Qed.
