(* ===== verification/BlobCodec.v ===== *)
(** * Handoff blob reader and field codecs
      ([src/protocol/handoff/blob/cursor.rs], the field helpers of
      [src/protocol/handoff/blob/mod.rs])

    The bounds-checked big-endian reader of the sealed continuation blob and the
    codecs of its variable-length fields. Encoders return the bytes they append;
    decoders are cursor parsers. *)

From S2P Require Import Prelude Cursor VlessRequest Replay.
#[local] Open Scope Z_scope.

Definition ADDRESS_IPV4 : byte := x01.
Definition ADDRESS_DOMAIN : byte := x02.
Definition ADDRESS_IPV6 : byte := x03.
Definition MAX_DOMAIN_LEN : Z := 253.
Definition MAX_INBOUND_TAG_LEN : Z := 64.

(** ** [BlobCursor] *)

Definition blob_parser := M Cursor HandoffError.

Definition blob_remaining (c : Cursor) : Z := saturating_sub (len (input c)) (position c).

Definition blob_take (length : Z) : blob_parser (list byte) := fun c =>
  match checked_add USIZE_MAX (position c) length with
  | None => Err HState
  | Some end_ =>
    match get_range (input c) (position c) end_ with
    | None => Err HState
    | Some s => Ok (s, {| input := input c; position := end_ |})
    end
  end.

Definition blob_u8 : blob_parser byte := bytes ← blob_take 1; lift (index bytes 0).
Definition blob_u16 : blob_parser Z := bytes ← blob_take 2; mret (from_be bytes).
Definition blob_u32 : blob_parser Z := bytes ← blob_take 4; mret (from_be bytes).
Definition blob_u64 : blob_parser Z := bytes ← blob_take 8; mret (from_be bytes).

(** [match cursor.u8()? { 0 => false, 1 => true, _ => return Err(State) }]. *)
Definition blob_flag : blob_parser bool :=
  b ← blob_u8; if u8 b =? 0 then mret false else if u8 b =? 1 then mret true else throw HState.

(** [if cursor.remaining() != 0 { return Err(State) }]. *)
Definition blob_end : blob_parser unit := fun c =>
  if negb (blob_remaining c =? 0) then Err HState else Ok (tt, c).

(** [for _ in 0..n { out.push(item(cursor)?) }]. *)
Fixpoint blob_repeat {A} (n : nat) (item : blob_parser A) : blob_parser (list A) :=
  match n with
  | O => mret []
  | S n => x ← item; xs ← blob_repeat n item; mret (x :: xs)
  end.

(** ** Field encoders *)

Definition encode_short_bytes (bytes : list byte) : result HandoffError (list byte) :=
  guard! MAX_INBOUND_TAG_LEN <? len bytes else HState;
  length ← ok_or HState (try_from U8_MAX (len bytes));
  Ok (as_u8 length :: bytes).

Definition encode_address (d : Destination) : list byte :=
  match address d with
  | Ipv4 o => [ADDRESS_IPV4] ++ to_be 2 4 ++ o
  | Domain n =>
    let length := match try_from U16_MAX (len n) with Some l => l | None => 0 end in
    [ADDRESS_DOMAIN] ++ to_be 2 length ++ n
  | Ipv6 o => [ADDRESS_IPV6] ++ to_be 2 16 ++ o
  end.

Definition encode_bounded_bytes (bytes : list byte) : list byte :=
  let length := match try_from U32_MAX (len bytes) with Some l => l | None => U32_MAX end in
  to_be 4 length ++ bytes.

Definition bounded_address_length (d : Destination) : result HandoffError Z :=
  match address d with
  | Ipv4 _ => Ok 4
  | Domain n => guard! (len n =? 0) || (MAX_DOMAIN_LEN <? len n) else HState; Ok (len n)
  | Ipv6 _ => Ok 16
  end.

(** ** Field decoders *)

Definition decode_short_string : blob_parser (list byte) :=
  length ← blob_u8;
  return! HState when MAX_INBOUND_TAG_LEN <? u8 length;
  bytes ← blob_take (u8 length);
  return! HState when negb (is_ascii bytes);
  return! HState when negb (from_utf8 bytes);
  mret bytes.

(** [address.try_into::<[u8; n]>()] and the domain checks. *)
Definition decode_blob_address (address_type : byte) (bytes : list byte) : result HandoffError Address :=
  if bool_decide (address_type = ADDRESS_IPV4) then
    guard! negb (len bytes =? 4) else HState; Ok (Ipv4 bytes)
  else if bool_decide (address_type = ADDRESS_DOMAIN) then
    guard! (len bytes =? 0) || (MAX_DOMAIN_LEN <? len bytes) else HState;
    guard! negb (from_utf8 bytes) else HState;
    Ok (Domain bytes)
  else if bool_decide (address_type = ADDRESS_IPV6) then
    guard! negb (len bytes =? 16) else HState; Ok (Ipv6 bytes)
  else Err HState.

Definition decode_blob_destination : blob_parser Destination :=
  address_type ← blob_u8;
  address_len ← blob_u16;
  bytes ← blob_take address_len;
  parsed ← lift (decode_blob_address address_type bytes);
  port ← blob_u16;
  return! HState when port =? 0;
  mret {| address := parsed; port := port |}.

(** [alloc] answers the [try_reserve_exact] of the copy. *)
Definition decode_bounded_bytes (alloc : Z -> bool) (cap : Z) : blob_parser (list byte) :=
  length ← blob_u32;
  return! HState when cap <? length;
  bytes ← blob_take length;
  return! HAllocation when negb (alloc length);
  mret bytes.

(** ** Well-formed destinations

    What the types guarantee ([String] is UTF-8, octet arrays have their size)
    together with what both ends of the transfer require. *)

Definition blob_address_wf (a : Address) : Prop :=
  match a with
  | Ipv4 o => len o = 4
  | Ipv6 o => len o = 16
  | Domain n => 1 <= len n <= MAX_DOMAIN_LEN /\ from_utf8 n = true
  end.

Definition blob_destination_wf (d : Destination) : Prop :=
  blob_address_wf (address d) /\ 1 <= port d <= U16_MAX.

Definition enc_blob_destination (d : Destination) : list byte := encode_address d ++ to_be 2 (port d).

(** ** The reader's logics *)

(** [injection] without simplifying the two sides. *)
Lemma ok_inj {E A} (a b : A) : (Ok a : result E A) = Ok b -> a = b.
Proof. by intros [= ->]. Qed.

Lemma blob_take_at n pre rest :
  0 <= n ->
  blob_take n (at_pos pre rest) =
    if (len rest <? n) || (USIZE_MAX <? len pre + n) then Err HState
    else Ok (take (Z.to_nat n) rest, at_pos (pre ++ take (Z.to_nat n) rest) (drop (Z.to_nat n) rest)).
Proof.
  intros Hn. unfold blob_take, checked_add. cbn [position input at_pos].
  destruct (Z.leb_spec (len pre + n) USIZE_MAX) as [Hm|Hm];
    [|rewrite (proj2 (Z.ltb_lt USIZE_MAX _)), orb_true_r by lia; done].
  rewrite (proj2 (Z.ltb_ge USIZE_MAX _)), orb_false_r by lia. rewrite get_range_app_r by lia.
  rewrite Z.sub_diag. replace (len pre + n - len pre) with n by lia.
  destruct (Z.ltb_spec (len rest) n).
  - by rewrite get_range_none by lia.
  - rewrite get_range_some by lia. rewrite Z.sub_0_r. cbn [drop Z.to_nat]. do 2 f_equal. unfold at_pos.
    rewrite <- app_assoc, take_drop. f_equal. slen.
Qed.

Lemma safe_blob_take n : 0 <= n -> safe (blob_take n).
Proof.
  intros Hn c Hc. destruct (cursor_ok_at_pos c Hc) as (pre & rest & ->).
  rewrite blob_take_at by done. destruct (_ || _); [done|]. apply at_pos_ok.
Qed.

Lemma reads_blob_take n s : n = len s -> reads (blob_take n) s s.
Proof.
  intros -> pre rest Hl. rewrite blob_take_at by apply len_nonneg.
  replace ((len (s ++ rest) <? len s) || (USIZE_MAX <? len pre + len s)) with false
    by (symmetry; apply orb_false_iff; split; apply Z.ltb_ge; slen).
  unfold len. rewrite Nat2Z.id, take_app_length, drop_app_length. done.
Qed.

Lemma sound_blob_take n : 0 <= n -> sound (blob_take n) (fun s a => s = a /\ len a = n).
Proof.
  intros Hn pre rest a c'. rewrite blob_take_at by done.
  destruct (Z.ltb_spec (len rest) n); [done|]. destruct (_ <? _); [done|]. intros [= <- <-].
  exists (take (Z.to_nat n) rest), (drop (Z.to_nat n) rest).
  rewrite take_drop. split_and!; try done. slen.
Qed.

(** [sound] through a bind, keeping the two pieces. *)
Lemma sound_seq {E A B} (m : M Cursor E A) (f : A -> M Cursor E B) P Q R :
  sound m P -> (forall s1 a, P s1 a -> sound (f a) (Q s1 a)) ->
  (forall s1 a s2 b, P s1 a -> Q s1 a s2 b -> R (s1 ++ s2) b) -> sound (x ← m; f x) R.
Proof.
  intros Hm Hf HR pre rest b c'. unfold mbind, M_bind.
  destruct (m (at_pos pre rest)) as [[a c]| |] eqn:Hma; [|done|done]. intros Hfb.
  destruct (Hm _ _ _ _ Hma) as (s1 & rest1 & -> & -> & HP).
  destruct (Hf s1 a HP _ _ _ _ Hfb) as (s2 & rest2 & -> & -> & HQ).
  exists (s1 ++ s2), rest2. rewrite <- !app_assoc. split_and!; try done. by apply (HR s1 a).
Qed.

Lemma blob_u8_at pre rest :
  len (pre ++ rest) <= USIZE_MAX ->
  blob_u8 (at_pos pre rest) = match rest with [] => Err HState | b :: rest => Ok (b, at_pos (pre ++ [b]) rest) end.
Proof.
  intros Hl. unfold blob_u8, mbind, M_bind. rewrite blob_take_at by lia.
  destruct rest as [|b rest]; [done|].
  replace ((len (b :: rest) <? 1) || (USIZE_MAX <? len pre + 1)) with false
    by (symmetry; apply orb_false_iff; split; apply Z.ltb_ge; slen).
  done.
Qed.

Lemma reads_blob_u8 b : reads blob_u8 [b] b.
Proof. intros pre rest Hl. rewrite blob_u8_at by done. done. Qed.

Lemma safe_blob_u8 : safe blob_u8.
Proof.
  intros c Hc. destruct (cursor_ok_at_pos c Hc) as (pre & rest & ->).
  unfold blob_u8, mbind, M_bind. rewrite blob_take_at by lia. destruct rest as [|b rest]; [done|].
  destruct (_ || _); [done|]. apply at_pos_ok.
Qed.

Lemma sound_blob_u8 : sound blob_u8 (fun s b => s = [b]).
Proof.
  intros pre rest b c'. unfold blob_u8, mbind, M_bind. rewrite blob_take_at by lia.
  destruct rest as [|x rest]; [done|]. destruct (_ || _); [done|]. intros [= <- <-].
  by exists [x], rest.
Qed.

Lemma reads_blob_be (n : nat) z : 0 <= z < 256 ^ Z.of_nat n ->
  reads (bytes ← blob_take (Z.of_nat n); mret (from_be bytes)) (to_be n z) z.
Proof.
  intros Hz. eapply reads_bind_nil; [apply reads_blob_take; by rewrite len_to_be|].
  rewrite from_be_to_be by done. apply reads_ret.
Qed.

Lemma sound_blob_be (n : nat) :
  sound (bytes ← blob_take (Z.of_nat n); mret (from_be bytes))
    (fun s z => s = to_be n z /\ 0 <= z < 256 ^ Z.of_nat n).
Proof.
  eapply sound_seq; [apply sound_blob_take; lia|intros; apply sound_ret|].
  intros s1 a s2 b [-> Hl] [-> ->]. rewrite app_nil_r.
  rewrite to_be_from_be by (unfold len in Hl; lia). split; [done|]. by apply from_be_range_n.
Qed.

Lemma reads_blob_u16 z : u16_range z -> reads blob_u16 (to_be 2 z) z.
Proof. intros. apply (reads_blob_be 2). unfold u16_range, U16_MAX in *. lia. Qed.
Lemma reads_blob_u32 z : u32_range z -> reads blob_u32 (to_be 4 z) z.
Proof. intros. apply (reads_blob_be 4). unfold u32_range, U32_MAX in *. lia. Qed.
Lemma reads_blob_u64 z : u64_range z -> reads blob_u64 (to_be 8 z) z.
Proof. intros. apply (reads_blob_be 8). unfold u64_range, U64_MAX in *. lia. Qed.

Lemma sound_blob_u16 : sound blob_u16 (fun s z => s = to_be 2 z /\ u16_range z).
Proof. eapply sound_weaken; [apply (sound_blob_be 2)|]. intros s z [-> ?]. unfold u16_range, U16_MAX. split; [done|lia]. Qed.
Lemma sound_blob_u32 : sound blob_u32 (fun s z => s = to_be 4 z /\ u32_range z).
Proof. eapply sound_weaken; [apply (sound_blob_be 4)|]. intros s z [-> ?]. unfold u32_range, U32_MAX. split; [done|lia]. Qed.
Lemma sound_blob_u64 : sound blob_u64 (fun s z => s = to_be 8 z /\ u64_range z).
Proof. eapply sound_weaken; [apply (sound_blob_be 8)|]. intros s z [-> ?]. unfold u64_range, U64_MAX. split; [done|lia]. Qed.

#[export] Hint Resolve safe_blob_take safe_blob_u8 : rust.

(** Every value a parser yields satisfies [P], whatever the bytes. *)
Definition yields {E A} (m : M Cursor E A) (P : A -> Prop) : Prop := sound m (fun _ a => P a).

Section Yields.
Context {E : Type}.

Lemma yields_bind {A B} (m : M Cursor E A) (f : A -> M Cursor E B) P Q :
  yields m P -> (forall a, P a -> yields (f a) Q) -> yields (x ← m; f x) Q.
Proof. intros Hm Hf. eapply sound_seq; [exact Hm|intros s1 a Ha; exact (Hf a Ha)|]. auto. Qed.

Lemma yields_ret {A} (a : A) (P : A -> Prop) : P a -> yields (mret a : M Cursor E A) P.
Proof. intros Ha. eapply sound_weaken; [apply sound_ret|]. by intros s x [_ ->]. Qed.

Lemma yields_throw {A} (e : E) (P : A -> Prop) : yields (throw e : M Cursor E A) P.
Proof. apply sound_throw. Qed.

Lemma yields_return_if {B} b (e : E) (k : unit -> M Cursor E B) Q :
  (b = false -> yields (k tt) Q) -> yields (x ← return_if b e; k x) Q.
Proof.
  intros Hk. destruct b; [intros pre rest a c'; discriminate|].
  intros pre rest a c' H. by apply (Hk eq_refl) in H.
Qed.

Lemma yields_lift_bind {A B} (r : result E A) (f : A -> M Cursor E B) Q :
  (forall a, r = Ok a -> yields (f a) Q) -> yields (x ← lift r; f x) Q.
Proof.
  intros Hf. destruct r as [a| |]; [|intros pre rest x c'; discriminate..].
  intros pre rest x c' H. by apply (Hf a eq_refl) in H.
Qed.
End Yields.

Lemma yields_blob_u16 : yields blob_u16 u16_range.
Proof. eapply sound_weaken; [apply sound_blob_u16|]. by intros s a [_ ?]. Qed.
Lemma yields_blob_u32 : yields blob_u32 u32_range.
Proof. eapply sound_weaken; [apply sound_blob_u32|]. by intros s a [_ ?]. Qed.
Lemma yields_blob_u64 : yields blob_u64 u64_range.
Proof. eapply sound_weaken; [apply sound_blob_u64|]. by intros s a [_ ?]. Qed.
Lemma yields_blob_u8 : yields blob_u8 (fun _ => True).
Proof. eapply sound_weaken; [apply sound_blob_u8|]. done. Qed.
Lemma yields_blob_take n : 0 <= n -> yields (blob_take n) (fun s => len s = n).
Proof. intros. eapply sound_weaken; [by apply sound_blob_take|]. by intros s a [_ ?]. Qed.

(** ** Fields *)

Lemma reads_blob_flag b : reads blob_flag [if (b : bool) then x01 else x00] b.
Proof. unfold blob_flag. eapply reads_bind_nil; [apply reads_blob_u8|]. destruct b; apply reads_ret. Qed.

Lemma safe_blob_flag : safe blob_flag.
Proof. apply safe_bind; [apply safe_blob_u8|]. intros b. repeat case_match; auto with rust. Qed.

Lemma yields_blob_flag : yields blob_flag (fun _ => True).
Proof.
  eapply yields_bind; [apply yields_blob_u8|]. intros a _.
  case_match; [by apply yields_ret|]. case_match; [by apply yields_ret|apply yields_throw].
Qed.

Lemma sound_blob_flag : sound blob_flag (fun s b => s = [if (b : bool) then x01 else x00]).
Proof.
  eapply sound_seq; [apply sound_blob_u8| |intros s1 a s2 b H1 H2; exact (H2 H1)].
  intros s1 a ->. destruct (Z.eqb_spec (u8 a) 0) as [H0|_]; [|destruct (Z.eqb_spec (u8 a) 1) as [H1|_]; [|apply sound_throw]];
    (eapply sound_weaken; [apply sound_ret|]); intros s b [-> ->] _; cbn; f_equal; by apply u8_inj.
Qed.

Lemma safe_blob_end : safe blob_end.
Proof. intros c Hc. unfold blob_end. by destruct (negb _). Qed.

Lemma blob_end_at pre : blob_end (at_pos pre []) = Ok (tt, at_pos pre []).
Proof.
  unfold blob_end, blob_remaining, saturating_sub. cbn. rewrite app_nil_r, Z.sub_diag. done.
Qed.

Lemma yields_blob_end : yields blob_end (fun _ => True).
Proof.
  intros pre rest [] c' H. unfold blob_end in H. destruct (negb _); [done|]. injection H as <-.
  exists [], rest. by rewrite app_nil_r.
Qed.

(** Reads exactly [s] when nothing follows it. *)
Definition finishes {A} (m : blob_parser A) (s : list byte) (a : A) : Prop :=
  forall pre, len (pre ++ s) <= USIZE_MAX -> m (at_pos pre s) = Ok (a, at_pos (pre ++ s) []).

Lemma finishes_bind {A B} (m : blob_parser A) (f : A -> blob_parser B) s1 a s2 b :
  reads m s1 a -> finishes (f a) s2 b -> finishes (x ← m; f x) (s1 ++ s2) b.
Proof.
  intros Hm Hf pre Hl. unfold mbind, M_bind. rewrite Hm by done. rewrite app_assoc in Hl.
  rewrite Hf by done. by rewrite app_assoc.
Qed.

Lemma finishes_return_if {B} c (e : HandoffError) (k : unit -> blob_parser B) s b :
  c = false -> finishes (k tt) s b -> finishes (x ← return_if c e; k x) s b.
Proof. intros -> Hk pre Hl. unfold mbind, M_bind. cbn. by apply Hk. Qed.

Lemma finishes_lift {A B} (r : result HandoffError A) (f : A -> blob_parser B) a s b :
  r = Ok a -> finishes (f a) s b -> finishes (x ← lift r; f x) s b.
Proof. intros -> Hf pre Hl. unfold mbind, M_bind. cbn. by apply Hf. Qed.

Lemma finishes_end {A} (k : unit -> blob_parser A) a :
  (forall c, k tt c = Ok (a, c)) -> finishes (x ← blob_end; k x) [] a.
Proof. intros Hk pre Hl. unfold mbind, M_bind. rewrite blob_end_at, app_nil_r. apply Hk. Qed.

Lemma run_finishes {A} (m : blob_parser A) s a :
  finishes m s a -> len s <= USIZE_MAX -> fst <$> run_parser m s = Ok a.
Proof. intros Hm Hl. unfold run_parser. rewrite <- at_pos_new. by rewrite Hm. Qed.

Lemma safe_blob_repeat {A} n (item : blob_parser A) : safe item -> safe (blob_repeat n item).
Proof.
  intros Hi. induction n as [|n IH]; cbn [blob_repeat]; [apply safe_ret|].
  apply safe_bind; [done|]. intros a. apply safe_bind; [done|]. intros b. apply safe_ret.
Qed.

Lemma reads_blob_repeat {A} (item : blob_parser A) (enc : A -> list byte) xs :
  Forall (fun x => reads item (enc x) x) xs -> reads (blob_repeat (length xs) item) (mjoin (enc <$> xs)) xs.
Proof.
  induction 1 as [|x xs Hx _ IH]; cbn [blob_repeat length fmap list_fmap mjoin list_join]; [apply reads_ret|].
  eapply reads_bind; [exact Hx|]. eapply reads_bind_nil; [exact IH|]. apply reads_ret.
Qed.

Lemma yields_blob_repeat {A} n (item : blob_parser A) P :
  yields item P -> yields (blob_repeat n item) (fun xs => length xs = n /\ Forall P xs).
Proof.
  intros Hi. induction n as [|n IH]; cbn [blob_repeat]; [by apply yields_ret|].
  eapply yields_bind; [exact Hi|]. intros a Ha. eapply yields_bind; [exact IH|]. intros xs [Hl Hxs].
  apply yields_ret. split; [cbn; lia|by constructor].
Qed.

Lemma is_ascii_utf8 n : negb (is_ascii n) = false -> negb (from_utf8 n) = false.
Proof. rewrite !negb_false_iff. apply ascii_from_utf8. Qed.

Lemma encode_short_bytes_ok l :
  len l <= MAX_INBOUND_TAG_LEN -> encode_short_bytes l = Ok (as_u8 (len l) :: l).
Proof.
  intros Hl. pose proof (len_nonneg l). unfold encode_short_bytes. rewrite guard_pass by (by apply Z.ltb_ge).
  erewrite bind_step; [done|]. apply ok_or_ok, try_from_some. unfold MAX_INBOUND_TAG_LEN, U8_MAX in *. split; [done|lia].
Qed.

Lemma reads_short_string l :
  len l <= MAX_INBOUND_TAG_LEN -> is_ascii l = true -> reads decode_short_string ([as_u8 (len l)] ++ l) l.
Proof.
  intros Hl Ha. pose proof (len_nonneg l). unfold decode_short_string. eapply reads_bind; [apply reads_blob_u8|].
  rewrite u8_as_u8_small by (unfold MAX_INBOUND_TAG_LEN, U8_MAX in *; lia).
  apply reads_return_if; [by apply Z.ltb_ge|]. eapply reads_bind_nil; [by apply reads_blob_take|].
  apply reads_return_if; [by rewrite Ha|]. apply reads_return_if; [by rewrite ascii_from_utf8|]. apply reads_ret.
Qed.

Lemma safe_short_string : safe decode_short_string.
Proof.
  unfold decode_short_string. apply safe_bind; [apply safe_blob_u8|]. intros b. pose proof (u8_range b).
  safe_parser. apply safe_blob_take. lia.
Qed.

Lemma yields_short_string :
  yields decode_short_string (fun l => len l <= MAX_INBOUND_TAG_LEN /\ is_ascii l = true).
Proof.
  eapply yields_bind; [apply yields_blob_u8|]. intros b _. pose proof (u8_range b).
  apply yields_return_if; intros Hb%Z.ltb_ge. eapply yields_bind; [apply yields_blob_take; lia|].
  intros s Hs. cbn beta in Hs. apply yields_return_if; intros Ha%negb_false_iff. apply yields_return_if; intros _.
  apply yields_ret. split; [lia|done].
Qed.

(** The length of an encoded destination is what [bounded_address_length] accounts for. *)
Lemma len_encode_address d n : blob_address_wf (address d) -> bounded_address_length d = Ok n -> len (encode_address d) = 3 + n.
Proof.
  unfold bounded_address_length, encode_address. destruct (address d) as [o|l|o]; cbn [blob_address_wf].
  - intros Ho [= <-]. slen.
  - intros _ H. inv_ok H. slen.
  - intros Ho [= <-]. slen.
Qed.

Lemma bounded_address_length_ok d :
  blob_address_wf (address d) -> exists n, bounded_address_length d = Ok n /\ 1 <= n <= MAX_DOMAIN_LEN.
Proof.
  unfold bounded_address_length, blob_address_wf, MAX_DOMAIN_LEN. destruct (address d) as [o|l|o].
  - intros _. exists 4. split; [done|lia].
  - intros [Hl _]. exists (len l). rewrite guard_pass; [done|].
    apply orb_false_iff. split; [apply Z.eqb_neq|apply Z.ltb_ge]; lia.
  - intros _. exists 16. split; [done|lia].
Qed.

Lemma reads_blob_destination d :
  blob_destination_wf d -> reads decode_blob_destination (enc_blob_destination d) d.
Proof.
  destruct d as [a p]. intros [Ha Hp]. cbn [address port] in *. unfold enc_blob_destination, encode_address. cbn [address port].
  assert (Hgen : forall t n bytes, n = len bytes -> n <= U16_MAX -> decode_blob_address t bytes = Ok a ->
    reads decode_blob_destination (([t] ++ to_be 2 n ++ bytes) ++ to_be 2 p) {| address := a; port := p |}).
  { intros t n bytes -> Hn Hdec. pose proof (len_nonneg bytes). rewrite <- !app_assoc. unfold decode_blob_destination.
    eapply reads_bind; [apply reads_blob_u8|]. eapply reads_bind; [apply reads_blob_u16; unfold u16_range; lia|].
    eapply reads_bind; [by apply reads_blob_take|]. eapply reads_lift_bind; [exact Hdec|].
    eapply reads_bind_nil; [apply reads_blob_u16; unfold u16_range; lia|].
    apply reads_return_if; [apply Z.eqb_neq; lia|]. apply reads_ret. }
  unfold decode_blob_address in Hgen. destruct a as [o|l|o]; cbn [blob_address_wf] in Ha.
  - apply Hgen; [done|done|]. rewrite bool_decide_true by done. rewrite Ha. done.
  - destruct Ha as [Hl Hu]. unfold MAX_DOMAIN_LEN, U16_MAX in *.
    rewrite (proj2 (try_from_some 65535 (len l) (len l))) by (split; [done|lia]).
    apply Hgen; [done|lia|]. rewrite bool_decide_false, bool_decide_true by done.
    rewrite (guard_pass (_ || _)) by (apply orb_false_iff; split; [apply Z.eqb_neq|apply Z.ltb_ge]; unfold MAX_DOMAIN_LEN; lia).
    rewrite Hu. done.
  - apply Hgen; [done|done|]. rewrite !bool_decide_false, bool_decide_true by done. rewrite Ha. done.
Qed.

Lemma decode_blob_address_ok t bytes a : decode_blob_address t bytes = Ok a -> blob_address_wf a.
Proof.
  unfold decode_blob_address. repeat case_bool_decide; intros Hd; [..|done]; inv_ok Hd; cbn.
  - by apply negb_false_iff, Z.eqb_eq in Hstep.
  - apply orb_false_iff in Hstep as [H1%Z.eqb_neq H2%Z.ltb_ge]. apply negb_false_iff in Hstep0.
    pose proof (len_nonneg bytes). split; [lia|done].
  - by apply negb_false_iff, Z.eqb_eq in Hstep.
Qed.

Lemma decode_blob_address_no_panic t bytes : no_panic (decode_blob_address t bytes).
Proof. unfold decode_blob_address. repeat case_bool_decide; [..|done]; repeat (apply no_panic_guard; intros _); done. Qed.

Lemma safe_blob_be n : safe (bytes ← blob_take (Z.of_nat n); mret (from_be bytes)).
Proof. apply safe_bind; [apply safe_blob_take; lia|]. intros. apply safe_ret. Qed.

(** A length read off the wire is never negative. *)
Lemma safe_blob_len {A} (n : nat) (f : Z -> blob_parser A) :
  (forall z, 0 <= z -> safe (f z)) -> safe (z ← (bytes ← blob_take (Z.of_nat n); mret (from_be bytes)); f z).
Proof.
  intros Hf c Hc. destruct (cursor_ok_at_pos c Hc) as (pre & rest & ->).
  pose proof (safe_blob_be n _ Hc) as Hs. unfold mbind at 1, M_bind at 1.
  destruct ((bytes ← blob_take (Z.of_nat n); mret (from_be bytes)) (at_pos pre rest)) as [[z c']| |] eqn:E; [|done|done].
  apply (sound_blob_be n) in E as (s & r & _ & _ & _ & Hz). by apply Hf; [lia|].
Qed.

Lemma safe_blob_destination : safe decode_blob_destination.
Proof.
  unfold decode_blob_destination. apply safe_bind; [apply safe_blob_u8|]. intros t.
  apply (safe_blob_len 2). intros z Hz. apply safe_bind; [by apply safe_blob_take|]. intros bytes.
  apply safe_bind; [apply safe_lift, decode_blob_address_no_panic|]. intros a.
  apply safe_bind; [apply (safe_blob_be 2)|]. intros p. safe_parser.
Qed.

Lemma yields_blob_destination : yields decode_blob_destination blob_destination_wf.
Proof.
  eapply yields_bind; [apply yields_blob_u8|]. intros t _. eapply yields_bind; [apply yields_blob_u16|].
  intros n [Hn _]. eapply yields_bind; [by apply yields_blob_take|]. intros bytes _.
  apply yields_lift_bind. intros a Ha%decode_blob_address_ok. eapply yields_bind; [apply yields_blob_u16|].
  intros p [Hp Hp']. apply yields_return_if. intros Hz%Z.eqb_neq. apply yields_ret. split; cbn; [done|lia].
Qed.

Section Bounded.
Context (alloc : Z -> bool).

Lemma encode_bounded_bytes_eq l : len l <= U32_MAX -> encode_bounded_bytes l = to_be 4 (len l) ++ l.
Proof.
  intros Hl. unfold encode_bounded_bytes.
  by rewrite (proj2 (try_from_some U32_MAX (len l) (len l)) ltac:(split; [done|pose proof (len_nonneg l); lia])).
Qed.

Lemma reads_bounded_bytes cap l :
  len l <= cap -> cap <= U32_MAX -> alloc (len l) = true ->
  reads (decode_bounded_bytes alloc cap) (encode_bounded_bytes l) l.
Proof.
  intros Hl Hc Ha. pose proof (len_nonneg l). rewrite encode_bounded_bytes_eq by lia. unfold decode_bounded_bytes.
  eapply reads_bind; [apply reads_blob_u32; unfold u32_range; lia|]. apply reads_return_if; [by apply Z.ltb_ge|].
  eapply reads_bind_nil; [by apply reads_blob_take|]. apply reads_return_if; [by rewrite Ha|]. apply reads_ret.
Qed.

Lemma safe_bounded_bytes cap : safe (decode_bounded_bytes alloc cap).
Proof.
  unfold decode_bounded_bytes. apply (safe_blob_len 4). intros z Hz. safe_parser.
Qed.

Lemma yields_bounded_bytes cap : yields (decode_bounded_bytes alloc cap) (fun l => len l <= cap).
Proof.
  eapply yields_bind; [apply yields_blob_u32|]. intros n [Hn _]. apply yields_return_if; intros Hc%Z.ltb_ge.
  eapply yields_bind; [by apply yields_blob_take|]. intros l Hl. cbn beta in Hl. apply yields_return_if; intros _.
  apply yields_ret. lia.
Qed.
End Bounded.

#[export] Hint Resolve safe_blob_flag safe_blob_end safe_short_string safe_blob_destination safe_bounded_bytes
  safe_blob_repeat : rust.
