(* ===== verification/HandoffPolicy.v ===== *)
(** * Sealed Handoff policy ([src/protocol/handoff/policy.rs],
      [src/protocol/handoff/blob/policy.rs])

    The UDP authorization a LINE node seals into a transfer and the LANDING
    node evaluates: the rule matchers, the first-match decision and the codec
    of the snapshot inside the continuation blob. *)

From S2P Require Import Prelude Cursor VlessRequest Replay BlobCodec.
#[local] Open Scope Z_scope.

Definition MAX_POLICY_SNAPSHOT_LEN : Z := 1024.
Definition MAX_SEALED_HANDOFF_RULES : Z := 32.
Definition HANDOFF_POLICY_SNAPSHOT_VERSION : byte := x02.
Definition HANDOFF_POLICY_SNAPSHOT_VERSION_V1 : byte := x01.

#[export] Instance Address_eq_dec : EqDecision Address.
Proof. solve_decision. Defined.
#[export] Instance Destination_eq_dec : EqDecision Destination.
Proof. solve_decision. Defined.

Inductive SessionKind := KindTcp | KindXudp.

Definition session_kind_from_wire (value : byte) : option SessionKind :=
  match value with x00 => Some KindTcp | x01 => Some KindXudp | _ => None end.
Definition session_kind_wire (k : SessionKind) : byte :=
  match k with KindTcp => x00 | KindXudp => x01 end.

(** ** Matchers *)

Inductive SealedDomainMatcher :=
| Full (value : list byte) | Suffix (value : list byte) | Keyword (value : list byte).

(** [slice.windows(n)] for a positive [n]. *)
Fixpoint windows (n : nat) (l : list byte) : list (list byte) :=
  if decide (n <= length l)%nat then
    take n l :: match l with [] => [] | _ :: l => windows n l end
  else [].

Definition matcher_matches (m : SealedDomainMatcher) (domain : list byte) : result HandoffError bool :=
  let domain := to_ascii_lowercase domain in
  match m with
  | Full value => Ok (bytes_eqb domain value)
  | Suffix value =>
    if bytes_eqb domain value then Ok true
    else if (len value <? len domain) && ends_with domain value then
      b ← index domain (len domain - len value - 1); Ok (u8 b =? 46)
    else Ok false
  | Keyword value =>
    Ok ((len value =? 0) || existsb (fun window => bytes_eqb window value) (windows (length value) domain))
  end.

Inductive SealedIpNetwork := NetV4 (network prefix : Z) | NetV6 (network prefix : Z).

(** [MAX << (width - prefix)] at the address width, with the [u8] subtraction
    [width - prefix] that overflows for a larger prefix. *)
Definition prefix_mask (width prefix : Z) : result HandoffError Z :=
  if prefix =? 0 then Ok 0
  else if width <? prefix then Panic
  else Ok (Z.land (Z.shiftl (Z.ones width) (width - prefix)) (Z.ones width)).

(** [contains]; the address is its octets, [u32::from]/[u128::from] their
    big-endian value. *)
Definition network_contains (net : SealedIpNetwork) (a : Address) : result HandoffError bool :=
  match net, a with
  | NetV4 network prefix, Ipv4 o =>
    mask ← prefix_mask 32 prefix; Ok (Z.land (from_be o) mask =? Z.land network mask)
  | NetV6 network prefix, Ipv6 o =>
    mask ← prefix_mask 128 prefix; Ok (Z.land (from_be o) mask =? Z.land network mask)
  | _, _ => Ok false
  end.

Record SealedPortRange := { pr_start : Z; pr_end : Z }.

Definition range_contains (r : SealedPortRange) (port : Z) : bool := (pr_start r <=? port) && (port <=? pr_end r).

Record SealedHandoffRouteRule := {
  allow : bool;
  domains : list SealedDomainMatcher;
  ips : list SealedIpNetwork;
  ports : list SealedPortRange;
}.

(** [iter().any(f)] for a fallible [f]: stops at the first hit. *)
Fixpoint try_any {A} (f : A -> result HandoffError bool) (l : list A) : result HandoffError bool :=
  match l with
  | [] => Ok false
  | x :: l => b ← f x; if (b : bool) then Ok true else try_any f l
  end.

Definition rule_matches (r : SealedHandoffRouteRule) (d : Destination) : result HandoffError bool :=
  let port_ok := (len (ports r) =? 0) || existsb (fun range => range_contains range (port d)) (ports r) in
  if negb port_ok then Ok false
  else
    domain_ok ←
      (if len (domains r) =? 0 then Ok true
       else match address d with
            | Domain name => try_any (fun m => matcher_matches m name) (domains r)
            | Ipv4 _ | Ipv6 _ => Ok false
            end);
    if negb domain_ok then Ok false
    else if len (ips r) =? 0 then Ok true
    else match address d with
         | Ipv4 _ | Ipv6 _ => try_any (fun net => network_contains net (address d)) (ips r)
         | Domain _ => Ok false
         end.

(** ** The snapshot *)

Record HandoffPolicySnapshot := {
  initial_destination : Destination;
  allow_destination_rewrites : bool;
  rules : list SealedHandoffRouteRule;
  default_allow : bool;
}.

Definition tcp_placeholder (d : Destination) : HandoffPolicySnapshot :=
  {| initial_destination := d; allow_destination_rewrites := false; rules := []; default_allow := false |}.

Definition xudp_initial (d : Destination) : HandoffPolicySnapshot :=
  {| initial_destination := d; allow_destination_rewrites := false; rules := []; default_allow := false |}.

Definition xudp_with_sealed_rules (d : Destination) (rs : list SealedHandoffRouteRule) (default : bool)
    : HandoffPolicySnapshot :=
  {| initial_destination := d; allow_destination_rewrites := default || existsb allow rs; rules := rs;
     default_allow := default |}.

(** The rule loop of [authorize_udp_destination]. *)
Fixpoint first_match (rs : list SealedHandoffRouteRule) (default : bool) (d : Destination) : result HandoffError unit :=
  match rs with
  | [] => if default then Ok tt else Err HState
  | r :: rs =>
    b ← rule_matches r d;
    if (b : bool) then (if allow r then Ok tt else Err HState) else first_match rs default d
  end.

Definition authorize_udp_destination (p : HandoffPolicySnapshot) (d : Destination) : result HandoffError unit :=
  if decide (d = initial_destination p) then Ok tt
  else if negb (allow_destination_rewrites p) then Err HState
  else first_match (rules p) (default_allow p) d.

(** ** Encoder *)

Definition flag_byte (b : bool) : byte := if b then x01 else x00.

(** [for x in xs { encode(x, body)?; }]. *)
Fixpoint encode_each {A} (encode : A -> result HandoffError (list byte)) (xs : list A) : result HandoffError (list byte) :=
  match xs with
  | [] => Ok []
  | x :: xs => a ← encode x; b ← encode_each encode xs; Ok (a ++ b)
  end.

Definition encode_count (n : Z) : result HandoffError byte :=
  c ← ok_or HLength (try_from U8_MAX n); Ok (as_u8 c).

Definition encode_sealed_domain (m : SealedDomainMatcher) : result HandoffError (list byte) :=
  let '(kind, value) := match m with Full v => (x01, v) | Suffix v => (x02, v) | Keyword v => (x03, v) end in
  guard! 255 <? len value else HLength;
  length ← encode_count (len value);
  Ok ([kind; length] ++ value).

Definition encode_sealed_ip (net : SealedIpNetwork) : list byte :=
  match net with
  | NetV4 network prefix => [x04; as_u8 prefix] ++ to_be 4 network
  | NetV6 network prefix => [x06; as_u8 prefix] ++ to_be 16 network
  end.

Definition encode_port_range (r : SealedPortRange) : list byte := to_be 2 (pr_start r) ++ to_be 2 (pr_end r).

Definition encode_sealed_rule (r : SealedHandoffRouteRule) : result HandoffError (list byte) :=
  domain_count ← encode_count (len (domains r));
  ds ← encode_each encode_sealed_domain (domains r);
  ip_count ← encode_count (len (ips r));
  port_count ← encode_count (len (ports r));
  Ok ([flag_byte (allow r)] ++ [domain_count] ++ ds ++ [ip_count] ++ mjoin (encode_sealed_ip <$> ips r) ++
      [port_count] ++ mjoin (encode_port_range <$> ports r)).

Definition encode_policy_snapshot_body (p : HandoffPolicySnapshot) : result HandoffError (list byte) :=
  rule_count ← ok_or HLength (try_from U8_MAX (len (rules p)));
  guard! MAX_SEALED_HANDOFF_RULES <? rule_count else HLength;
  rs ← encode_each encode_sealed_rule (rules p);
  Ok ([HANDOFF_POLICY_SNAPSHOT_VERSION; flag_byte (allow_destination_rewrites p); flag_byte (default_allow p)] ++
      encode_address (initial_destination p) ++ to_be 2 (port (initial_destination p)) ++
      [as_u8 rule_count] ++ rs).

Definition encoded_policy_len (p : HandoffPolicySnapshot) : result HandoffError Z :=
  body ← encode_policy_snapshot_body p;
  length ← ok_or HLength (checked_add USIZE_MAX (len body) 4);
  guard! negb (len body <=? MAX_POLICY_SNAPSHOT_LEN) else HLength;
  Ok length.

Definition encode_policy_snapshot (p : HandoffPolicySnapshot) : result HandoffError (list byte) :=
  body ← encode_policy_snapshot_body p;
  guard! MAX_POLICY_SNAPSHOT_LEN <? len body else HLength;
  Ok (encode_bounded_bytes body).

(** ** Decoder *)

Definition decode_sealed_domain : blob_parser SealedDomainMatcher :=
  kind ← blob_u8;
  length ← blob_u8;
  bytes ← blob_take (u8 length);
  return! HState when negb (is_ascii bytes);
  return! HState when negb (from_utf8 bytes);
  match kind with
  | x01 => mret (Full bytes)
  | x02 => mret (Suffix bytes)
  | x03 => mret (Keyword bytes)
  | _ => throw HState
  end.

Definition decode_sealed_ip : blob_parser SealedIpNetwork :=
  family ← blob_u8;
  match family with
  | x04 =>
    prefix ← blob_u8;
    return! HState when 32 <? u8 prefix;
    raw ← blob_take 4;
    mret (NetV4 (from_be raw) (u8 prefix))
  | x06 =>
    prefix ← blob_u8;
    return! HState when 128 <? u8 prefix;
    raw ← blob_take 16;
    mret (NetV6 (from_be raw) (u8 prefix))
  | _ => throw HState
  end.

Definition decode_port_range : blob_parser SealedPortRange :=
  start ← blob_u16;
  end_ ← blob_u16;
  return! HState when (start =? 0) || (end_ <? start);
  mret {| pr_start := start; pr_end := end_ |}.

Definition decode_sealed_rule : blob_parser SealedHandoffRouteRule :=
  allow ← blob_flag;
  domain_count ← blob_u8;
  domains ← blob_repeat (Z.to_nat (u8 domain_count)) decode_sealed_domain;
  ip_count ← blob_u8;
  ips ← blob_repeat (Z.to_nat (u8 ip_count)) decode_sealed_ip;
  port_count ← blob_u8;
  ports ← blob_repeat (Z.to_nat (u8 port_count)) decode_port_range;
  mret {| allow := allow; domains := domains; ips := ips; ports := ports |}.

(** The body of the snapshot, up to its end. *)
Definition decode_policy_body : blob_parser HandoffPolicySnapshot :=
  version ← blob_u8;
  if bool_decide (version = HANDOFF_POLICY_SNAPSHOT_VERSION_V1) then
    _ ← blob_flag;
    initial ← decode_blob_destination;
    _ ← blob_end;
    mret (xudp_initial initial)
  else if bool_decide (version = HANDOFF_POLICY_SNAPSHOT_VERSION) then
    allow_rewrites ← blob_flag;
    default ← blob_flag;
    initial ← decode_blob_destination;
    rule_count ← blob_u8;
    return! HState when MAX_SEALED_HANDOFF_RULES <? u8 rule_count;
    rs ← blob_repeat (Z.to_nat (u8 rule_count)) decode_sealed_rule;
    _ ← blob_end;
    let policy := xudp_with_sealed_rules initial rs default in
    mret (if negb (Bool.eqb (allow_destination_rewrites policy) allow_rewrites) && negb allow_rewrites
          then xudp_initial (initial_destination policy)
          else policy)
  else throw HState.

Definition decode_policy_snapshot (alloc : Z -> bool) : blob_parser HandoffPolicySnapshot :=
  body ← decode_bounded_bytes alloc MAX_POLICY_SNAPSHOT_LEN;
  lift (fst <$> run_parser decode_policy_body body).

(** ** Well-formed snapshots *)

Definition matcher_value (m : SealedDomainMatcher) : list byte :=
  match m with Full v | Suffix v | Keyword v => v end.

Definition matcher_wf (m : SealedDomainMatcher) : Prop :=
  len (matcher_value m) <= U8_MAX /\ is_ascii (matcher_value m) = true.

Definition network_wf (net : SealedIpNetwork) : Prop :=
  match net with
  | NetV4 network prefix => 0 <= network < 2 ^ 32 /\ 0 <= prefix <= 32
  | NetV6 network prefix => 0 <= network < 2 ^ 128 /\ 0 <= prefix <= 128
  end.

Definition range_wf (r : SealedPortRange) : Prop := 1 <= pr_start r <= pr_end r /\ pr_end r <= U16_MAX.

Definition rule_wf (r : SealedHandoffRouteRule) : Prop :=
  (len (domains r) <= U8_MAX /\ Forall matcher_wf (domains r)) /\
  (len (ips r) <= U8_MAX /\ Forall network_wf (ips r)) /\
  (len (ports r) <= U8_MAX /\ Forall range_wf (ports r)).

(** The rewrite flag is the one [xudp_with_sealed_rules] derives. *)
Definition policy_wf (p : HandoffPolicySnapshot) : Prop :=
  blob_destination_wf (initial_destination p) /\
  (len (rules p) <= MAX_SEALED_HANDOFF_RULES /\ Forall rule_wf (rules p)) /\
  allow_destination_rewrites p = default_allow p || existsb allow (rules p).

(** ** What the rules mean *)

Definition domain_matches (m : SealedDomainMatcher) (name : list byte) : Prop :=
  let name := to_ascii_lowercase name in
  match m with
  | Full value => name = value
  | Suffix value => name = value \/ exists p, name = p ++ [x2e] ++ value
  | Keyword value => exists p s, name = p ++ value ++ s
  end.

(** The leading [prefix] bits of the address are those of the network. *)
Definition network_matches (net : SealedIpNetwork) (a : Address) : Prop :=
  match net, a with
  | NetV4 network prefix, Ipv4 o =>
    forall i, 32 - prefix <= i < 32 -> Z.testbit (from_be o) i = Z.testbit network i
  | NetV6 network prefix, Ipv6 o =>
    forall i, 128 - prefix <= i < 128 -> Z.testbit (from_be o) i = Z.testbit network i
  | _, _ => False
  end.

Definition rule_applies (r : SealedHandoffRouteRule) (d : Destination) : Prop :=
  (ports r = [] \/ exists range, range ∈ ports r /\ pr_start range <= port d <= pr_end range) /\
  (domains r = [] \/ exists name m, address d = Domain name /\ m ∈ domains r /\ domain_matches m name) /\
  (ips r = [] \/ exists net, net ∈ ips r /\ network_matches net (address d)).

(** The first rule that applies decides; otherwise the default does. *)
Definition sealed_decision (rs : list SealedHandoffRouteRule) (default : bool) (d : Destination) (allowed : bool) : Prop :=
  (exists before r after, rs = before ++ r :: after /\ Forall (fun r => ~ rule_applies r d) before /\
     rule_applies r d /\ allowed = allow r) \/
  (Forall (fun r => ~ rule_applies r d) rs /\ allowed = default).

(** [b] decides [P]. *)
Definition decides (r : result HandoffError bool) (P : Prop) : Prop :=
  exists b, r = Ok b /\ (b = true <-> P).

Lemma windows_elem n l w : (0 < n)%nat -> w ∈ windows n l <-> exists p s, l = p ++ w ++ s /\ length w = n.
Proof.
  intros Hn. revert w. induction l as [|x l IH]; intros w; cbn [windows].
  - rewrite decide_False by (cbn; lia). split; [intros H; inversion H|].
    intros (p & s & H & Hw). symmetry in H. apply app_eq_nil in H as [_ [-> _]%app_eq_nil]. cbn in Hw. lia.
  - destruct (decide _) as [Hle|Hgt].
    + rewrite elem_of_cons, IH. split.
      * intros [->|(p & s & -> & Hw)].
        { exists [], (drop n (x :: l)). cbn [app]. rewrite take_drop, length_take. split; [done|lia]. }
        { by exists (x :: p), s. }
      * intros (p & s & H & Hw). destruct p as [|y p]; cbn [app] in H.
        { left. rewrite H, <- Hw, take_app_length. done. }
        { right. injection H as -> ->. by exists p, s. }
    + split; [intros H; inversion H|]. intros (p & s & H & Hw). rewrite H, !length_app in Hgt. lia.
Qed.

Lemma existsb_elem {A} (f : A -> bool) l : existsb f l = true <-> exists x, x ∈ l /\ f x = true.
Proof. rewrite existsb_exists. setoid_rewrite list_elem_of_In. done. Qed.

Lemma ends_with_true l k : ends_with l k = true <-> exists p, l = p ++ k.
Proof.
  unfold ends_with. rewrite andb_true_iff, Z.leb_le, bytes_eqb_eq. split.
  - intros [_ H]. exists (take (length l - length k) l). rewrite <- H at 2. by rewrite take_drop.
  - intros [p ->]. rewrite length_app. replace (length p + length k - length k)%nat with (length p) by lia.
    rewrite drop_app_length. split; [slen|done].
Qed.

Lemma matcher_decides m name : decides (matcher_matches m name) (domain_matches m name).
Proof.
  unfold decides, matcher_matches, domain_matches. set (d := to_ascii_lowercase name). destruct m as [v|v|v].
  - exists (bytes_eqb d v). by rewrite bytes_eqb_eq.
  - destruct (bytes_eqb d v) eqn:Heq; [exists true; rewrite bytes_eqb_eq in Heq; naive_solver|].
    assert (Hne : d <> v) by (rewrite <- bytes_eqb_eq; congruence).
    destruct (len v <? len d) eqn:Hlt; cbn [andb].
    + apply Z.ltb_lt in Hlt. destruct (ends_with d v) eqn:He.
      * apply ends_with_true in He as [p Hp]. destruct p as [|c p _] using rev_ind; [done|].
        replace (len d - len v - 1) with (len p) by (rewrite Hp; slen).
        rewrite Hp, <- app_assoc, index_app_r by lia. rewrite Z.sub_diag. cbn.
        exists (u8 c =? 46). split; [done|]. rewrite Z.eqb_eq. split.
        { intros Hc. right. exists p. replace c with x2e; [done|]. apply u8_inj. by rewrite Hc. }
        { intros [H|[q H]].
          - exfalso. rewrite <- app_assoc in Hp. cbn in Hp. congruence.
          - by apply app_inj_2 in H as [_ [= ->]]. }
      * exists false. split; [done|]. split; [done|]. intros [|[p Hp]]; [done|].
        assert (ends_with d v = true); [|congruence]. apply ends_with_true. exists (p ++ [x2e]). by rewrite <- app_assoc.
    + apply Z.ltb_ge in Hlt. exists false. split; [done|]. split; [done|]. intros [|[p Hp]]; [done|].
      rewrite Hp in Hlt. slen.
  - eexists. split; [done|]. rewrite orb_true_iff, Z.eqb_eq, existsb_elem. destruct v as [|x v].
    + split; [|by left]. intros _. by exists [], d.
    + setoid_rewrite bytes_eqb_eq. rewrite len_cons. split.
      * intros [H|(w & Hw & ->)]; [pose proof (len_nonneg v); lia|].
        apply windows_elem in Hw as (p & s & H & _); [|cbn; lia]. eauto.
      * intros (p & s & H). right. exists (x :: v). split; [|done]. apply windows_elem; [cbn; lia|]. eauto.
Qed.

Lemma prefix_mask_ok width prefix :
  0 <= prefix <= width -> exists mask, prefix_mask width prefix = Ok mask /\
    forall i, 0 <= i -> Z.testbit mask i = (width - prefix <=? i) && (i <? width).
Proof.
  intros Hp. unfold prefix_mask. destruct (Z.eqb_spec prefix 0) as [->|].
  - exists 0. split; [done|]. intros i Hi. rewrite Z.bits_0.
    destruct (Z.leb_spec (width - 0) i), (Z.ltb_spec i width); cbn; lia.
  - rewrite (proj2 (Z.ltb_ge width prefix)) by lia. eexists. split; [done|]. intros i Hi.
    rewrite Z.land_spec, Z.shiftl_spec by done. rewrite (Z.testbit_ones_nonneg width i) by lia.
    destruct (Z.leb_spec (width - prefix) i).
    + rewrite Z.testbit_ones_nonneg by lia.
      destruct (Z.ltb_spec (i - (width - prefix)) width), (Z.ltb_spec i width); cbn; lia.
    + rewrite Z.testbit_neg_r by lia. done.
Qed.

Lemma mask_decides width prefix a b :
  0 <= prefix <= width ->
  decides (mask ← prefix_mask width prefix; Ok (Z.land a mask =? Z.land b mask))
    (forall i, width - prefix <= i < width -> Z.testbit a i = Z.testbit b i).
Proof.
  intros Hp. destruct (prefix_mask_ok width prefix Hp) as (mask & Hm & Hbits). eexists. rewrite Hm.
  split; [done|]. rewrite Z.eqb_eq. split.
  - intros H i Hi. assert (Hb := f_equal (fun z => Z.testbit z i) H). cbn beta in Hb.
    rewrite !Z.land_spec, Hbits in Hb by lia.
    rewrite (proj2 (Z.leb_le _ _)), (proj2 (Z.ltb_lt _ _)) in Hb by lia. by rewrite !andb_true_r in Hb.
  - intros H. apply Z.bits_inj'. intros i Hi. rewrite !Z.land_spec, Hbits by done.
    destruct (Z.leb_spec (width - prefix) i), (Z.ltb_spec i width); cbn; rewrite ?andb_false_r, ?andb_true_r; try done.
    apply H. lia.
Qed.

Lemma network_decides net a : network_wf net -> decides (network_contains net a) (network_matches net a).
Proof.
  destruct net as [n p|n p]; intros [_ Hp]; destruct a as [o|d|o]; cbn [network_contains network_matches];
    try (by apply mask_decides); by (exists false; split; [done|]).
Qed.

Lemma try_any_decides {A} (f : A -> result HandoffError bool) (P : A -> Prop) l :
  Forall (fun x => decides (f x) (P x)) l -> decides (try_any f l) (exists x, x ∈ l /\ P x).
Proof.
  induction 1 as [|x l (b & Hb & HP) _ (c & Hc & HQ)]; cbn [try_any].
  - exists false. split; [done|]. split; [done|]. intros (x & H & _). inversion H.
  - rewrite Hb. cbn. unfold decides. setoid_rewrite elem_of_cons. destruct b; [exists true|exists c]; naive_solver.
Qed.

Lemma len_zero {A} (l : list A) : (len l =? 0) = true <-> l = [].
Proof. rewrite Z.eqb_eq. destruct l; cbn; [done|]. rewrite len_cons. pose proof (len_nonneg l). split; [lia|done]. Qed.

Lemma rule_decides r d : rule_wf r -> decides (rule_matches r d) (rule_applies r d).
Proof.
  intros (_ & [_ Hips] & _). unfold rule_matches, rule_applies.
  assert (Hport : (len (ports r) =? 0) || existsb (fun range => range_contains range (port d)) (ports r) = true <->
    (ports r = [] \/ exists range, range ∈ ports r /\ pr_start range <= port d <= pr_end range)).
  { rewrite orb_true_iff, len_zero, existsb_elem. unfold range_contains.
    setoid_rewrite andb_true_iff. setoid_rewrite Z.leb_le. done. }
  destruct ((len (ports r) =? 0) || _) eqn:Ep; cbn [negb]; [|exists false; naive_solver].
  assert (Hdom : decides (if len (domains r) =? 0 then Ok true
       else match address d with
            | Domain name => try_any (fun m => matcher_matches m name) (domains r)
            | Ipv4 _ | Ipv6 _ => Ok false end)
       (domains r = [] \/ exists name m, address d = Domain name /\ m ∈ domains r /\ domain_matches m name)).
  { destruct (len (domains r) =? 0) eqn:E; [exists true; apply len_zero in E; naive_solver|].
    assert (domains r <> []) by (rewrite <- len_zero; congruence).
    destruct (address d) as [o|name|o] eqn:Ea; [exists false; naive_solver| |exists false; naive_solver].
    destruct (try_any_decides (fun m => matcher_matches m name) (fun m => domain_matches m name) (domains r)
      ltac:(apply Forall_true; intros m; apply matcher_decides)) as (b & -> & Hb). exists b. split; [done|]. naive_solver. }
  destruct Hdom as (db & -> & Hd). cbn [mbind result_bind]. destruct db; cbn [negb]; [|exists false; naive_solver].
  destruct (len (ips r) =? 0) eqn:Ei; [exists true; apply len_zero in Ei; naive_solver|].
  assert (ips r <> []) by (rewrite <- len_zero; congruence).
  pose proof (try_any_decides (fun net => network_contains net (address d)) (fun net => network_matches net (address d)) (ips r)
    (Forall_impl _ _ _ Hips (fun net Hn => network_decides net (address d) Hn))) as (b & Hb & Hiff).
  destruct (address d) as [o|name|o]; [exists b; naive_solver| |exists b; naive_solver].
  exists false. split; [done|]. split; [done|]. intros (_ & _ & [|([n p|n p] & _ & Hf)]); [done|destruct Hf..].
Qed.

Lemma sealed_decision_skip r rs default d b :
  ~ rule_applies r d -> sealed_decision (r :: rs) default d b <-> sealed_decision rs default d b.
Proof.
  intros Hn. unfold sealed_decision. split.
  - intros [([|r' before] & r'' & after & H & Hbef & Hr & Hal)|[Hall Hal]].
    + injection H as -> ->. done.
    + injection H as -> ->. left. exists before, r'', after. by inversion Hbef.
    + right. by inversion Hall.
  - intros [(before & r' & after & -> & Hbef & Hr & Hal)|[Hall Hal]].
    + left. exists (r :: before), r', after. split_and!; try done. by constructor.
    + right. split; [by constructor|done].
Qed.

Lemma sealed_decision_hit r rs default d b :
  rule_applies r d -> sealed_decision (r :: rs) default d b <-> b = allow r.
Proof.
  intros Hr. unfold sealed_decision. split.
  - intros [([|r' before] & r'' & after & H & Hbef & Hr' & Hal)|[Hall Hal]].
    + by injection H as -> ->.
    + injection H as -> ->. by inversion Hbef.
    + by inversion Hall.
  - intros ->. left. by exists [], r, rs.
Qed.

Lemma first_match_spec rs default d :
  Forall rule_wf rs ->
  exists b, first_match rs default d = (if (b : bool) then Ok tt else Err HState) /\
    forall b', sealed_decision rs default d b' <-> b' = b.
Proof.
  induction 1 as [|r rs Hr _ (b & Hb & IH)]; cbn [first_match].
  - exists default. split; [done|]. intros b'. split; [|by right].
    intros [(before & r & after & H & _)|[_ ->]]; [by destruct before|done].
  - destruct (rule_decides r d Hr) as (m & -> & Hm). cbn. destruct m.
    + exists (allow r). split; [done|]. intros b'. apply sealed_decision_hit. naive_solver.
    + exists b. split; [done|]. intros b'. rewrite sealed_decision_skip by naive_solver. apply IH.
Qed.

(** ** Codec lemmas *)

Lemma encode_count_ok n : 0 <= n <= U8_MAX -> encode_count n = Ok (as_u8 n).
Proof. intros Hn. unfold encode_count. erewrite bind_step; [done|]. apply ok_or_ok, try_from_some. done. Qed.

Lemma encode_count_inv n c : encode_count n = Ok c -> c = as_u8 n /\ 0 <= n <= U8_MAX.
Proof. unfold encode_count. intros H. inv_ok H. apply try_from_some in Hstep as [-> ?]. done. Qed.

Lemma reads_repeat_encoded {A} (item : blob_parser A) (encode : A -> result HandoffError (list byte)) xs : forall s,
  Forall (fun x => forall s, encode x = Ok s -> reads item s x) xs -> encode_each encode xs = Ok s ->
  reads (blob_repeat (length xs) item) s xs.
Proof.
  induction xs as [|x xs IH]; intros s Hall Henc; cbn [encode_each] in Henc.
  - injection Henc as <-. apply reads_ret.
  - apply Forall_cons in Hall as [Hx Hxs]. inv_ok Henc. cbn [blob_repeat length].
    eapply reads_bind; [by apply Hx|]. eapply reads_bind_nil; [by apply IH|]. apply reads_ret.
Qed.

Lemma encode_each_total {A} (encode : A -> result HandoffError (list byte)) (P : A -> Prop) xs :
  (forall x, P x -> exists s, encode x = Ok s) -> Forall P xs -> exists s, encode_each encode xs = Ok s.
Proof.
  intros He. induction 1 as [|x xs Hx _ [s Hs]]; cbn [encode_each]; [by eexists|].
  destruct (He x Hx) as [a ->]. rewrite Hs. cbn. by eexists.
Qed.

(** A one-byte count followed by that many items. *)
Lemma reads_counted {A B} (item : blob_parser A) (k : list A -> blob_parser B) (xs : list A) s s' b :
  len xs <= U8_MAX -> reads (blob_repeat (length xs) item) s xs -> reads (k xs) s' b ->
  reads (c ← blob_u8; xs ← blob_repeat (Z.to_nat (u8 c)) item; k xs) ([as_u8 (len xs)] ++ s ++ s') b.
Proof.
  intros Hl Hs Hk. pose proof (len_nonneg xs). eapply reads_bind; [apply reads_blob_u8|].
  rewrite u8_as_u8_small by done. unfold len at 1. rewrite Nat2Z.id. by eapply reads_bind.
Qed.

Lemma yields_counted {A B} (item : blob_parser A) (k : list A -> blob_parser B) P Q :
  yields item P -> (forall xs, len xs <= U8_MAX -> Forall P xs -> yields (k xs) Q) ->
  yields (c ← blob_u8; xs ← blob_repeat (Z.to_nat (u8 c)) item; k xs) Q.
Proof.
  intros Hi Hk. eapply yields_bind; [apply yields_blob_u8|]. intros c _. pose proof (u8_range c).
  eapply yields_bind; [by apply yields_blob_repeat|]. intros xs [Hl Hxs]. apply Hk; [|done].
  unfold len, U8_MAX. lia.
Qed.

Lemma reads_sealed_domain m s : matcher_wf m -> encode_sealed_domain m = Ok s -> reads decode_sealed_domain s m.
Proof.
  unfold matcher_wf, encode_sealed_domain. destruct m as [v|v|v]; cbn [matcher_value]; intros [Hl Ha] H;
    inv_ok H; apply encode_count_inv in Hstep0 as [-> Hr];
    (eapply (reads_bind _ _ [_]); [apply reads_blob_u8|]); (eapply (reads_bind _ _ [_]); [apply reads_blob_u8|]);
    rewrite u8_as_u8_small by done; (eapply reads_bind_nil; [by apply reads_blob_take|]);
    (apply reads_return_if; [by rewrite Ha|]); (apply reads_return_if; [by rewrite ascii_from_utf8|]); apply reads_ret.
Qed.

Lemma encode_sealed_domain_total m : matcher_wf m -> exists s, encode_sealed_domain m = Ok s.
Proof.
  unfold matcher_wf, encode_sealed_domain, U8_MAX. destruct m as [v|v|v]; cbn [matcher_value]; intros [Hl _];
    rewrite guard_pass by (apply Z.ltb_ge; lia); rewrite encode_count_ok by (pose proof (len_nonneg v); unfold U8_MAX; lia); by eexists.
Qed.

Lemma yields_sealed_domain : yields decode_sealed_domain matcher_wf.
Proof.
  eapply yields_bind; [apply yields_blob_u8|]. intros kind _. eapply yields_bind; [apply yields_blob_u8|]. intros n _.
  pose proof (u8_range n). eapply yields_bind; [apply yields_blob_take; lia|]. intros v Hv. cbn beta in Hv.
  apply yields_return_if; intros Ha%negb_false_iff. apply yields_return_if; intros _.
  assert (len v <= U8_MAX) by (unfold U8_MAX; lia).
  destruct kind; try apply yields_throw; apply yields_ret; done.
Qed.

Lemma safe_sealed_domain : safe decode_sealed_domain.
Proof.
  apply safe_bind; [apply safe_blob_u8|]. intros kind. apply safe_bind; [apply safe_blob_u8|]. intros n.
  pose proof (u8_range n). apply safe_bind; [apply safe_blob_take; lia|]. intros v.
  do 2 (apply safe_bind; [apply safe_return_if|]; intros _). destruct kind; auto with rust.
Qed.

Lemma reads_sealed_ip net : network_wf net -> reads decode_sealed_ip (encode_sealed_ip net) net.
Proof.
  destruct net as [n p|n p]; cbn [network_wf encode_sealed_ip]; intros [Hn Hp];
    (eapply (reads_bind _ _ [_]); [apply reads_blob_u8|]); (eapply (reads_bind _ _ [_]); [apply reads_blob_u8|]);
    rewrite u8_as_u8_small by (unfold U8_MAX; lia); (apply reads_return_if; [apply Z.ltb_ge; lia|]);
    (eapply reads_bind_nil; [by apply reads_blob_take; rewrite len_to_be|]); rewrite from_be_to_be by lia; apply reads_ret.
Qed.

Lemma yields_sealed_ip : yields decode_sealed_ip network_wf.
Proof.
  eapply yields_bind; [apply yields_blob_u8|]. intros family _.
  destruct family; try apply yields_throw; (eapply yields_bind; [apply yields_blob_u8|]); intros p _; pose proof (u8_range p);
    apply yields_return_if; intros Hp%Z.ltb_ge; (eapply yields_bind; [by apply yields_blob_take|]);
    intros raw Hraw; cbn beta in Hraw; apply yields_ret; cbn; (split; [|lia]).
  - apply (from_be_range_n raw 4). done.
  - apply (from_be_range_n raw 16). done.
Qed.

Lemma safe_sealed_ip : safe decode_sealed_ip.
Proof.
  apply safe_bind; [apply safe_blob_u8|]. intros family.
  destruct family; auto with rust; (apply safe_bind; [apply safe_blob_u8|]); intros p; safe_parser; by apply safe_blob_take.
Qed.

Lemma reads_port_range r : range_wf r -> reads decode_port_range (encode_port_range r) r.
Proof.
  destruct r as [s e]. unfold range_wf, encode_port_range. cbn [pr_start pr_end]. intros [Hs He].
  eapply reads_bind; [apply reads_blob_u16; unfold u16_range; lia|].
  eapply reads_bind_nil; [apply reads_blob_u16; unfold u16_range; lia|].
  apply reads_return_if; [apply orb_false_iff; split; [apply Z.eqb_neq|apply Z.ltb_ge]; lia|]. apply reads_ret.
Qed.

Lemma yields_port_range : yields decode_port_range range_wf.
Proof.
  eapply yields_bind; [apply yields_blob_u16|]. intros s [Hs Hs']. eapply yields_bind; [apply yields_blob_u16|].
  intros e [He He']. apply yields_return_if. intros [H1%Z.eqb_neq H2%Z.ltb_ge]%orb_false_iff. apply yields_ret.
  unfold range_wf. cbn. lia.
Qed.

Lemma safe_port_range : safe decode_port_range.
Proof. apply (safe_blob_len 2). intros s _. apply (safe_blob_len 2). intros e _. safe_parser. Qed.

Lemma reads_sealed_rule r s : rule_wf r -> encode_sealed_rule r = Ok s -> reads decode_sealed_rule s r.
Proof.
  destruct r as [al ds ns ps]. intros ([Hdl Hds] & [Hil His] & [Hpl Hps]). cbn in Hdl, Hds, Hil, His, Hpl, Hps.
  unfold encode_sealed_rule. cbn [domains ips ports allow]. intros H.
  apply bind_ok in H as (dc & [-> _]%encode_count_inv & H). apply bind_ok in H as (dse & Hdse & H).
  apply bind_ok in H as (ic & [-> _]%encode_count_inv & H). apply bind_ok in H as (pc & [-> _]%encode_count_inv & H).
  apply ok_inj in H. subst s. unfold decode_sealed_rule. eapply reads_bind; [apply (reads_blob_flag al)|].
  apply reads_counted; [done| |].
  - eapply reads_repeat_encoded; [|exact Hdse]. eapply Forall_impl; [exact Hds|]. intros. by apply reads_sealed_domain.
  - apply reads_counted; [done| |].
    + apply reads_blob_repeat. eapply Forall_impl; [exact His|]. apply reads_sealed_ip.
    + rewrite <- (app_nil_r (mjoin _)). apply reads_counted; [done| |apply reads_ret].
      apply reads_blob_repeat. eapply Forall_impl; [exact Hps|]. apply reads_port_range.
Qed.

Lemma encode_sealed_rule_total r : rule_wf r -> exists s, encode_sealed_rule r = Ok s.
Proof.
  intros ([Hdl Hds] & [Hil His] & [Hpl Hps]). unfold encode_sealed_rule.
  rewrite !encode_count_ok by (split; [apply len_nonneg|done]).
  destruct (encode_each_total _ _ _ encode_sealed_domain_total Hds) as [s ->]. cbn. by eexists.
Qed.

Lemma yields_sealed_rule : yields decode_sealed_rule rule_wf.
Proof.
  eapply yields_bind; [apply yields_blob_flag|]. intros al _.
  eapply yields_counted; [apply yields_sealed_domain|]. intros ds Hdl Hds.
  eapply yields_counted; [apply yields_sealed_ip|]. intros ns Hil His.
  eapply yields_counted; [apply yields_port_range|]. intros ps Hpl Hps. by apply yields_ret.
Qed.

Lemma safe_sealed_rule : safe decode_sealed_rule.
Proof.
  apply safe_bind; [apply safe_blob_flag|]. intros al.
  apply safe_bind; [apply safe_blob_u8|]. intros c1. apply safe_bind; [apply safe_blob_repeat, safe_sealed_domain|]. intros ds.
  apply safe_bind; [apply safe_blob_u8|]. intros c2. apply safe_bind; [apply safe_blob_repeat, safe_sealed_ip|]. intros ns.
  apply safe_bind; [apply safe_blob_u8|]. intros c3. apply safe_bind; [apply safe_blob_repeat, safe_port_range|]. intros ps.
  apply safe_ret.
Qed.

(** ** The snapshot codec *)

Lemma xudp_with_sealed_rules_eta p :
  allow_destination_rewrites p = default_allow p || existsb allow (rules p) ->
  xudp_with_sealed_rules (initial_destination p) (rules p) (default_allow p) = p.
Proof. destruct p as [d a rs df]. cbn. intros ->. done. Qed.

Lemma policy_body_finishes p body :
  policy_wf p -> encode_policy_snapshot_body p = Ok body -> finishes decode_policy_body body p.
Proof.
  intros (Hd & [Hl Hrs] & Hflag). unfold encode_policy_snapshot_body. intros H.
  apply bind_ok in H as (rc & Hrc%ok_or_ok%try_from_some & H). destruct Hrc as [-> Hrc].
  apply bind_ok in H as (_ & _ & H). apply bind_ok in H as (rse & Hrse & H). apply ok_inj in H. subst body.
  set (p0 := p) at 5. unfold decode_policy_body.
  change (finishes decode_policy_body ([HANDOFF_POLICY_SNAPSHOT_VERSION] ++ [flag_byte (allow_destination_rewrites p)] ++
    [flag_byte (default_allow p)] ++ encode_address (initial_destination p) ++ to_be 2 (port (initial_destination p)) ++
    [as_u8 (len (rules p))] ++ rse) p0).
  eapply finishes_bind; [apply reads_blob_u8|]. rewrite bool_decide_false, bool_decide_true by done.
  eapply finishes_bind; [apply reads_blob_flag|]. eapply finishes_bind; [apply reads_blob_flag|].
  rewrite app_assoc. eapply finishes_bind; [by apply reads_blob_destination|].
  eapply finishes_bind; [apply reads_blob_u8|]. rewrite u8_as_u8_small by done.
  apply finishes_return_if; [by apply Z.ltb_ge|]. rewrite <- (app_nil_r rse). unfold len. rewrite Nat2Z.id.
  eapply finishes_bind.
  { eapply reads_repeat_encoded; [|exact Hrse]. eapply Forall_impl; [exact Hrs|]. intros. by apply reads_sealed_rule. }
  apply finishes_end. intros c. rewrite xudp_with_sealed_rules_eta by done. by destruct (allow_destination_rewrites p).
Qed.

Lemma encode_policy_body_total p : policy_wf p -> exists body, encode_policy_snapshot_body p = Ok body.
Proof.
  intros (_ & [Hl Hrs] & _). unfold encode_policy_snapshot_body, MAX_SEALED_HANDOFF_RULES in *. pose proof (len_nonneg (rules p)).
  rewrite (bind_step _ (len (rules p))) by (apply ok_or_ok, try_from_some; unfold U8_MAX; split; [done|lia]).
  rewrite guard_pass by (by apply Z.ltb_ge).
  destruct (encode_each_total _ _ _ encode_sealed_rule_total Hrs) as [s ->]. cbn. by eexists.
Qed.

Lemma xudp_wf d rs default :
  blob_destination_wf d -> len rs <= MAX_SEALED_HANDOFF_RULES -> Forall rule_wf rs ->
  policy_wf (xudp_with_sealed_rules d rs default).
Proof. done. Qed.

Lemma xudp_initial_wf d : blob_destination_wf d -> policy_wf (xudp_initial d).
Proof. intros Hd. split_and!; [done|vm_compute; congruence|constructor|done]. Qed.

(** Every decoded snapshot is well-formed, and rewrites are enabled only by a
    version-2 body whose flag byte is one. *)
Lemma sound_policy_body :
  sound decode_policy_body (fun s p => policy_wf p /\
    (allow_destination_rewrites p = true -> exists t, s = [HANDOFF_POLICY_SNAPSHOT_VERSION; x01] ++ t)).
Proof.
  eapply (sound_seq _ _ _ (fun s1 v s2 p => policy_wf p /\
    (allow_destination_rewrites p = true -> v = HANDOFF_POLICY_SNAPSHOT_VERSION /\ exists t, s2 = [x01] ++ t)));
    [apply sound_blob_u8| |intros s1 v s2 p -> [Hwf Hal]; split; [done|]; intros [-> [t ->]]%Hal; by exists t].
  intros s1 v _. case_bool_decide; [|case_bool_decide as Hv; [|apply sound_throw]].
  - apply (sound_weaken _ (fun _ p => policy_wf p /\ allow_destination_rewrites p = false)); [|intros ? p [? ->]; done].
    eapply yields_bind; [apply yields_blob_flag|]. intros _ _. eapply yields_bind; [apply yields_blob_destination|].
    intros d Hd. eapply yields_bind; [apply yields_blob_end|]. intros _ _. apply yields_ret. split; [by apply xudp_initial_wf|done].
  - eapply (sound_seq _ _ _ (fun s1 al s2 p => policy_wf p /\ (allow_destination_rewrites p = true -> al = true)));
      [apply sound_blob_flag| |intros s2 al s3 p -> [Hwf Hal]; split; [done|]; intros ->%Hal; split; [done|by eexists]].
    intros s2 al _. eapply yields_bind; [apply yields_blob_flag|]. intros df _.
    eapply yields_bind; [apply yields_blob_destination|]. intros d Hd. eapply yields_bind; [apply yields_blob_u8|]. intros n _.
    apply yields_return_if; intros Hn%Z.ltb_ge. pose proof (u8_range n).
    eapply yields_bind; [apply yields_blob_repeat, yields_sealed_rule|]. intros rs [Hl Hrs].
    eapply yields_bind; [apply yields_blob_end|]. intros _ _. apply yields_ret.
    set (p := xudp_with_sealed_rules d rs df).
    assert (policy_wf p) by (apply xudp_wf; [done|unfold len; lia|done]).
    destruct al; cbn [negb]; [rewrite andb_false_r; done|]. rewrite andb_true_r.
    destruct (allow_destination_rewrites p) eqn:E; cbn [Bool.eqb negb]; [split; [by apply xudp_initial_wf|done]|].
    split; [done|]. rewrite E. done.
Qed.

Lemma yields_policy_body : yields decode_policy_body policy_wf.
Proof. eapply sound_weaken; [apply sound_policy_body|]. by intros s p [? _]. Qed.

Lemma safe_policy_body : safe decode_policy_body.
Proof.
  apply safe_bind; [apply safe_blob_u8|]. intros v. case_bool_decide; [|case_bool_decide; [|apply safe_throw]].
  - apply safe_bind; [apply safe_blob_flag|]. intros _. apply safe_bind; [apply safe_blob_destination|]. intros d.
    apply safe_bind; [apply safe_blob_end|]. intros _. apply safe_ret.
  - apply safe_bind; [apply safe_blob_flag|]. intros al. apply safe_bind; [apply safe_blob_flag|]. intros df.
    apply safe_bind; [apply safe_blob_destination|]. intros d. apply safe_bind; [apply safe_blob_u8|]. intros n.
    apply safe_bind; [apply safe_return_if|]. intros _. apply safe_bind; [apply safe_blob_repeat, safe_sealed_rule|]. intros rs.
    apply safe_bind; [apply safe_blob_end|]. intros _. apply safe_ret.
Qed.

Section Snapshot.
Context (alloc : Z -> bool).

Lemma reads_policy_snapshot p s :
  policy_wf p -> (forall n, n <= MAX_POLICY_SNAPSHOT_LEN -> alloc n = true) -> encode_policy_snapshot p = Ok s ->
  reads (decode_policy_snapshot alloc) s p.
Proof.
  intros Hp Ha H. unfold encode_policy_snapshot in H. apply bind_ok in H as (body & Hbody & H).
  apply bind_ok in H as (_ & Hl%reject_ok%Z.ltb_ge & H). apply ok_inj in H. subst s.
  eapply reads_bind_nil; [apply reads_bounded_bytes; [exact Hl|vm_compute; congruence|by apply Ha]|].
  rewrite <- (app_nil_r []). unfold MAX_POLICY_SNAPSHOT_LEN in Hl.
  rewrite (run_finishes _ body p) by (first [by apply policy_body_finishes | unfold USIZE_MAX, U64_MAX; lia]).
  intros pre rest _. cbn. by rewrite app_nil_r.
Qed.

Lemma safe_policy_snapshot : safe (decode_policy_snapshot alloc).
Proof.
  apply safe_bind; [apply safe_bounded_bytes|]. intros body. apply safe_lift.
  pose proof (run_parser_no_panic _ body safe_policy_body) as Hn.
  unfold no_panic in *. by destruct (run_parser decode_policy_body body).
Qed.

Lemma yields_policy_snapshot : yields (decode_policy_snapshot alloc) policy_wf.
Proof.
  eapply yields_bind; [apply yields_bounded_bytes|]. intros body _ pre rest p c' H. unfold lift in H.
  destruct (run_parser decode_policy_body body) as [[p' c]| |] eqn:E; try done. injection H as <- <-.
  apply (run_parser_sound _ _ _ _ _ yields_policy_body) in E as (s & r & _ & _ & Hwf).
  exists [], rest. by rewrite app_nil_r.
Qed.

(** The length accounted for is the length written. *)
Lemma encoded_policy_len_ok p :
  policy_wf p -> (forall body, encode_policy_snapshot_body p = Ok body -> len body <= MAX_POLICY_SNAPSHOT_LEN) ->
  exists s, encode_policy_snapshot p = Ok s /\ encoded_policy_len p = Ok (len s) /\ len s <= MAX_POLICY_SNAPSHOT_LEN + 4.
Proof.
  intros Hp. destruct (encode_policy_body_total p Hp) as [body Hb]. unfold encode_policy_snapshot, encoded_policy_len.
  rewrite Hb. intros Hl. specialize (Hl body eq_refl). unfold MAX_POLICY_SNAPSHOT_LEN in *. cbn [mbind result_bind].
  rewrite guard_pass by (by apply Z.ltb_ge). rewrite encode_bounded_bytes_eq by (unfold U32_MAX; lia).
  eexists. split; [done|]. rewrite (bind_step _ (len body + 4)) by (apply ok_or_ok, checked_add_some; unfold USIZE_MAX, U64_MAX; split; lia).
  rewrite guard_pass by (rewrite (proj2 (Z.leb_le _ _)) by done; done). split; [f_equal; slen|slen].
Qed.
End Snapshot.

(** The LANDING authorization is exactly the sealed policy's meaning, and it
    is decided without panicking. A destination is allowed if and only if it is
    the sealed initial destination, or rewrites are enabled and the first rule
    that applies to it allows it (no rule applying, the default does); a rule
    applies when the port is in one of its ranges, the lower-cased name is one
    of its full, dot-separated suffix or keyword patterns, and the address agrees with one of
    its networks on the leading prefix bits, empty groups matching anything.
    Everything else is refused with [State]. *)
Theorem policy_authorize_iff (p : HandoffPolicySnapshot) (d : Destination) :
  Forall rule_wf (rules p) ->
  (authorize_udp_destination p d = Ok tt <->
     d = initial_destination p \/
     (allow_destination_rewrites p = true /\ sealed_decision (rules p) (default_allow p) d true)) /\
  (authorize_udp_destination p d = Ok tt \/ authorize_udp_destination p d = Err HState).
Proof.
  intros Hwf. unfold authorize_udp_destination. destruct (decide (d = _)) as [Hd|Hd]; [naive_solver|].
  destruct (allow_destination_rewrites p); cbn [negb]; [|naive_solver].
  destruct (first_match_spec (rules p) (default_allow p) d Hwf) as (b & -> & Hb).
  destruct b; [naive_solver|]. split; [|by right]. split; [done|].
  intros [|[_ H]]; [done|]. by apply Hb in H.
Qed.

(** The snapshot decoder fails closed. On any bytes it never panics; what it
    accepts is a well-formed policy, and that policy authorizes nothing beyond
    the sealed initial destination unless the body is a version-2 body whose
    rewrite flag is set: neither a legacy body, nor a cleared flag over
    permissive rules or a permissive default, widens the authority. *)
Theorem policy_decode_fail_closed (body : list byte) :
  match fst <$> run_parser decode_policy_body body with
  | Ok p =>
    policy_wf p /\
    forall d, authorize_udp_destination p d = Ok tt ->
      d = initial_destination p \/ exists t, body = [HANDOFF_POLICY_SNAPSHOT_VERSION; x01] ++ t
  | Err _ => True
  | Panic => False
  end.
Proof.
  pose proof (run_parser_no_panic _ body safe_policy_body) as Hn.
  destruct (run_parser decode_policy_body body) as [[p c]| |] eqn:E; [|done|done]. cbn.
  apply (run_parser_sound _ _ _ _ _ sound_policy_body) in E as (s & r & -> & _ & Hwf & Hal). split; [done|].
  intros d. unfold authorize_udp_destination. destruct (decide _); [by left|].
  destruct (allow_destination_rewrites p); [|done]. intros _. right. destruct (Hal eq_refl) as [t ->]. eexists. by rewrite <- app_assoc.
Qed.

(** ** Example *)

Definition example_destination : Destination := {| address := Domain (bytes_of "quic.example.com"); port := 443 |}.

(** Denies DNS, allows one domain tree and one network, denies by default. *)
Definition example_policy_snapshot : HandoffPolicySnapshot :=
  xudp_with_sealed_rules {| address := Ipv4 [xc0; x00; x02; x01]; port := 443 |}
    [ {| allow := false; domains := []; ips := []; ports := [{| pr_start := 53; pr_end := 53 |}] |};
      {| allow := true; domains := [Suffix (bytes_of "example.com")]; ips := []; ports := [] |};
      {| allow := true; domains := []; ips := [NetV4 167772160 8]; ports := [] |} ] false.

Lemma example_policy_wf : policy_wf example_policy_snapshot.
Proof.
  unfold policy_wf, blob_destination_wf, example_policy_snapshot, U16_MAX. split_and!; [done|cbn; lia|cbn; lia|vm_compute; congruence| |done].
  cbn [rules xudp_with_sealed_rules].
  assert (Hnil : forall A (P : A -> Prop), len (@nil A) <= U8_MAX /\ Forall P []) by (split; [vm_compute; congruence|apply Forall_nil_2]).
  assert (Hone : forall A (P : A -> Prop) x, P x -> len [x] <= U8_MAX /\ Forall P [x])
    by (intros A P x Hx; split; [vm_compute; congruence|by apply Forall_singleton]).
  apply Forall_cons_2; [|apply Forall_cons_2; [|apply Forall_singleton]]; unfold rule_wf; cbn [domains ips ports].
  - split; [apply Hnil|split; [apply Hnil|]]. apply Hone. unfold range_wf, U16_MAX; cbn [pr_start pr_end]. lia.
  - split; [|split; apply Hnil]. apply Hone. split; [vm_compute; congruence|reflexivity].
  - split; [apply Hnil|split; [|apply Hnil]]. apply Hone. unfold network_wf. lia.
Qed.

Lemma policy_authorize_iff_witness :
  authorize_udp_destination example_policy_snapshot example_destination = Ok tt /\
  sealed_decision (rules example_policy_snapshot) false example_destination true.
Proof.
  destruct (policy_authorize_iff example_policy_snapshot example_destination) as [[H _] _].
  - apply example_policy_wf.
  - split; [vm_compute; reflexivity|]. destruct H as [H|[_ H]]; [vm_compute; reflexivity|discriminate H|exact H].
Defined.
