(* ===== verification/UserMap.v ===== *)
(** * The user map ([src/user_map.rs])

    The immutable table of configured users: a sorted slice while it is small, a
    hash map otherwise. *)

From stdpp Require Import gmap.
From S2P Require Import Prelude SortedTable VlessRequest Replay.
#[local] Open Scope Z_scope.

Definition SORTED_USER_LIMIT : Z := 64.

Section UserMap.
Context {V : Type}.

Inductive AdaptiveUserMap := UmSorted (entries : list (UserId * V)) | UmHashed (entries : gmap UserId V).

(** [[u8; 16]] is ordered lexicographically: as a big-endian number. *)
Definition user_key (e : UserId * V) : Z := from_be e.1.

Definition from_entries (entries : list (UserId * V)) : AdaptiveUserMap :=
  let entries := sort_by_key user_key entries in
  let entries := dedup_by_key user_key entries in
  if len entries <=? SORTED_USER_LIMIT then UmSorted entries
  else UmHashed (foldl (fun m e => <[e.1 := e.2]> m) ∅ entries).

Definition get {E} (m : AdaptiveUserMap) (user_id : UserId) : result E (option V) :=
  match m with
  | UmSorted entries =>
    found ← binary_search user_key entries (from_be user_id);
    match found with
    | None => Ok None
    | Some i => match entries !! i with Some e => Ok (Some e.2) | None => Panic end
    end
  | UmHashed entries => Ok (entries !! user_id)
  end.

Definition map_len (m : AdaptiveUserMap) : Z := match m with UmSorted entries => len entries | UmHashed entries => Z.of_nat (size entries) end.

Definition user_ids_ok (es : list (UserId * V)) : Prop := Forall (fun e => length e.1 = 16%nat) es.

Lemma user_key_inj (a b : UserId) : length a = 16%nat -> length b = 16%nat -> from_be a = from_be b -> a = b.
Proof. intros Ha Hb H. rewrite <- (to_be_from_be a 16), <- (to_be_from_be b 16) by done. by rewrite H. Qed.

Lemma hashed_none (es : list (UserId * V)) id : id ∉ es.*1 -> forall m : gmap UserId V, foldl (fun m e => <[e.1 := e.2]> m) m es !! id = m !! id.
Proof.
  induction es as [|e es IH]; intros Hid m; [done|]. cbn in Hid. apply not_elem_of_cons in Hid as [Hne Hid]. cbn. rewrite IH by done.
  by apply lookup_insert_ne.
Qed.

Lemma hashed_some (es : list (UserId * V)) id v : NoDup es.*1 -> (id, v) ∈ es -> forall m : gmap UserId V, foldl (fun m e => <[e.1 := e.2]> m) m es !! id = Some v.
Proof.
  induction es as [|e es IH]; intros Hn Hin m; [by apply elem_of_nil in Hin|]. cbn in Hn. apply NoDup_cons in Hn as [Hne Hn]. cbn.
  apply elem_of_cons in Hin as [<-|Hin]; [|by apply IH]. rewrite hashed_none by done. apply lookup_insert_eq.
Qed.

(** The entries of the table: one for each configured identifier. *)
Lemma table_entries es : user_ids_ok es ->
  let t := dedup_by_key user_key (sort_by_key user_key es) in
  strictly_sorted user_key t /\ NoDup t.*1 /\ user_ids_ok t /\ (forall e, e ∈ t -> e ∈ es) /\ (forall id, id ∈ es.*1 -> id ∈ t.*1).
Proof.
  intros Hok t. pose proof (dedup_sorted user_key es) as Hs. fold t in Hs.
  assert (Hsub : forall e, e ∈ t -> e ∈ es) by apply dedup_elem.
  assert (Hok' : user_ids_ok t) by (apply Forall_forall; intros e He; apply (proj1 (Forall_forall _ _) Hok); by apply Hsub).
  split_and!; [by apply strongly_strict| |done|done|].
  - clear Hsub Hok'. induction Hs as [|a l Hl IH Ha]; [constructor|]. cbn. constructor; [|done]. intros (e & He & Hin)%list_elem_of_fmap.
    pose proof (proj1 (Forall_forall _ _) Ha e Hin) as Hlt. unfold user_key in Hlt. rewrite He in Hlt. cbn in Hlt. lia.
  - intros id (e & -> & He)%list_elem_of_fmap. destruct (dedup_repr user_key es e He) as (y & Hy & Hk). apply list_elem_of_fmap. exists y. split; [|done].
    symmetry. apply user_key_inj; [..|done]; [by apply (proj1 (Forall_forall _ _) Hok y), Hsub|by apply (proj1 (Forall_forall _ _) Hok e)].
Qed.

(** A lookup finds a configured value of the identifier, and misses only one that
    was not configured. *)
Lemma user_map_get {E} es (id : UserId) : user_ids_ok es -> length id = 16%nat ->
  exists o, get (E := E) (from_entries es) id = Ok o /\
    match o with Some v => (id, v) ∈ es | None => id ∉ es.*1 end.
Proof.
  intros Hok Hid. destruct (table_entries es Hok) as (Hs & Hn & Hok' & Hsub & Hsup). unfold from_entries, get.
  set (t := dedup_by_key user_key (sort_by_key user_key es)) in *. destruct (_ <=? _).
  - destruct (binary_search_spec (E := E) user_key t (from_be id) Hs) as (o & Ho & Hspec). rewrite Ho. cbn. destruct o as [i|].
    + destruct Hspec as ([k v] & Hb & Hk). rewrite Hb. exists (Some v). split; [done|]. apply Hsub.
      assert (Hin : (k, v) ∈ t) by (by eapply list_elem_of_lookup_2). replace id with k; [done|].
      apply user_key_inj; [by apply (proj1 (Forall_forall _ _) Hok' (k, v))|done|done].
    + exists None. split; [done|]. intros Hin%Hsup. apply list_elem_of_fmap in Hin as (e & -> & He).
      apply list_elem_of_lookup in He as [i Hi]. by destruct (Hspec i e Hi).
  - eexists. split; [done|]. destruct (decide (id ∈ t.*1)) as [Hin|Hin].
    + apply list_elem_of_fmap in Hin as ([k v] & -> & He). rewrite (hashed_some t k v) by done. by apply Hsub.
    + rewrite hashed_none, lookup_empty by done. auto.
Qed.

(** With distinct identifiers the lookup is the configured association. *)
Lemma user_map_exact {E} es (id : UserId) : user_ids_ok es -> length id = 16%nat -> NoDup es.*1 ->
  exists o, get (E := E) (from_entries es) id = Ok o /\ forall v, o = Some v <-> (id, v) ∈ es.
Proof.
  intros Hok Hid Hn. destruct (user_map_get (E := E) es id Hok Hid) as (o & Ho & Hspec). exists o. split; [done|]. intros v. destruct o as [w|].
  - split; [by intros [= ->]|]. intros Hv. f_equal. apply list_elem_of_lookup in Hspec as [i Hi]. apply list_elem_of_lookup in Hv as [j Hj].
    assert (i = j) as -> by (apply (NoDup_lookup es.*1 i j id); [done|by rewrite list_lookup_fmap, Hi|by rewrite list_lookup_fmap, Hj]). congruence.
  - split; [done|]. intros Hv. destruct Hspec. apply list_elem_of_fmap. by exists (id, v).
Qed.
End UserMap.
Arguments AdaptiveUserMap : clear implicits.
