(* ===== verification/HandoffBlob.v ===== *)
(** * Handoff continuation blob ([src/protocol/handoff/state.rs],
      [src/protocol/handoff/blob/mod.rs])

    The session state a LINE node hands to LANDING and its explicit binary
    encoding inside the sealed transfer. *)

From S2P Require Import Prelude Cursor VlessRequest Replay Tls13Keys BlobCodec HandoffPolicy.
#[local] Open Scope Z_scope.

Definition CONTINUATION_STATE_VERSION : byte := x03.
Definition MAX_BLOB_LEN : Z := 96 * 1024.
Definition MAX_PENDING_CIPHERTEXT_LEN : Z := 4 * (5 + 16384 + 1 + 16).
Definition MAX_PREFETCHED_PLAINTEXT_LEN : Z := 533 + 16384.
Definition BLOB_USER_ID_LEN : Z := 16.

Record ContinuationState := {
  cs_suite : CipherSuite;
  cs_client_secret : TrafficSecret;
  cs_server_secret : TrafficSecret;
  cs_client_sequence : Z;
  cs_server_sequence : Z;
  cs_key_update_pending : bool;
  cs_session_kind : SessionKind;
  cs_user_id : list byte;
  cs_inbound_tag : list byte;
  cs_destination : Destination;
  cs_pending_ciphertext : list byte;
  cs_prefetched_plaintext : list byte;
  cs_policy : HandoffPolicySnapshot;
}.

(** [ContinuationState::new]. *)
Definition new_continuation (suite : CipherSuite) (client : TrafficSecret) (client_sequence : Z) (server : TrafficSecret)
    (server_sequence : Z) (key_update : bool) (kind : SessionKind) (user_id inbound_tag : list byte)
    (destination : Destination) (pending prefetched : list byte) (policy : HandoffPolicySnapshot)
    : result HandoffError ContinuationState :=
  guard! negb (bool_decide (hb_algorithm client = suite_hash suite)) ||
         negb (bool_decide (hb_algorithm server = suite_hash suite)) else HState;
  guard! (MAX_INBOUND_TAG_LEN <? len inbound_tag) || (MAX_PENDING_CIPHERTEXT_LEN <? len pending) ||
         (MAX_PREFETCHED_PLAINTEXT_LEN <? len prefetched) else HState;
  guard! negb (is_ascii inbound_tag) else HState;
  Ok {| cs_suite := suite; cs_client_secret := client; cs_server_secret := server; cs_client_sequence := client_sequence;
        cs_server_sequence := server_sequence; cs_key_update_pending := key_update; cs_session_kind := kind;
        cs_user_id := user_id; cs_inbound_tag := inbound_tag; cs_destination := destination;
        cs_pending_ciphertext := pending; cs_prefetched_plaintext := prefetched; cs_policy := policy |}.

(** One direction's exported record state ([tls13/record.rs]). *)
Record ExportedRecordState := { er_suite : CipherSuite; er_secret : TrafficSecret; er_sequence : Z }.

(** [ExportedRecordState::from_parts]; its one error becomes [State] at the call. *)
Definition exported_from_parts (suite : CipherSuite) (secret : TrafficSecret) (sequence : Z)
    : result HandoffError ExportedRecordState :=
  guard! negb (bool_decide (hb_algorithm secret = suite_hash suite)) else HState;
  Ok {| er_suite := suite; er_secret := secret; er_sequence := sequence |}.

Record ExportedTlsState := { et_client : ExportedRecordState; et_server : ExportedRecordState }.

Record ContinuationParts := {
  cp_tls : ExportedTlsState;
  cp_user_id : list byte;
  cp_destination : Destination;
  cp_pending_ciphertext : list byte;
  cp_prefetched_plaintext : list byte;
  cp_key_update_pending : bool;
  cp_session_kind : SessionKind;
  cp_inbound_tag : list byte;
  cp_policy : HandoffPolicySnapshot;
}.

Definition into_parts (s : ContinuationState) : result HandoffError ContinuationParts :=
  client ← exported_from_parts (cs_suite s) (cs_client_secret s) (cs_client_sequence s);
  server ← exported_from_parts (cs_suite s) (cs_server_secret s) (cs_server_sequence s);
  Ok {| cp_tls := {| et_client := client; et_server := server |}; cp_user_id := cs_user_id s;
        cp_destination := cs_destination s; cp_pending_ciphertext := cs_pending_ciphertext s;
        cp_prefetched_plaintext := cs_prefetched_plaintext s; cp_key_update_pending := cs_key_update_pending s;
        cp_session_kind := cs_session_kind s; cp_inbound_tag := cs_inbound_tag s; cp_policy := cs_policy s |}.

(** ** Codec *)

(** The checked sum of the field lengths. *)
Definition blob_total (hash_len inbound_len address_len pending_len prefetched_len policy_len : Z) : option Z :=
  total ← foldl (fun acc n => length ← acc; checked_add USIZE_MAX length n) (Some 1)
    [2; 2 * hash_len; 2 * 8; 1; 1; BLOB_USER_ID_LEN; 1 + inbound_len; 1 + 2 + address_len + 2;
     4 + pending_len; 4 + prefetched_len; 4 + policy_len];
  if total <=? MAX_BLOB_LEN then Some total else None.

Section Codec.
(** [alloc] answers every [try_reserve_exact]. *)
Context (alloc : Z -> bool).

Definition encode_blob (s : ContinuationState) : result HandoffError (list byte) :=
  address_length ← bounded_address_length (cs_destination s);
  policy_len ← encoded_policy_len (cs_policy s);
  total ← ok_or HLength (blob_total (output_len (suite_hash (cs_suite s))) (len (cs_inbound_tag s)) address_length
                           (len (cs_pending_ciphertext s)) (len (cs_prefetched_plaintext s)) policy_len);
  guard! negb (alloc total) else HAllocation;
  tag ← encode_short_bytes (cs_inbound_tag s);
  policy ← encode_policy_snapshot (cs_policy s);
  Ok ([CONTINUATION_STATE_VERSION] ++ to_be 2 (suite_wire_value (cs_suite s)) ++
      hb_as_bytes (cs_client_secret s) ++ hb_as_bytes (cs_server_secret s) ++
      to_be 8 (cs_client_sequence s) ++ to_be 8 (cs_server_sequence s) ++
      [flag_byte (cs_key_update_pending s)] ++ [session_kind_wire (cs_session_kind s)] ++ cs_user_id s ++ tag ++
      encode_address (cs_destination s) ++ to_be 2 (port (cs_destination s)) ++
      encode_bounded_bytes (cs_pending_ciphertext s) ++ encode_bounded_bytes (cs_prefetched_plaintext s) ++ policy).

Definition decode_traffic_secret (suite : CipherSuite) : blob_parser TrafficSecret :=
  bytes ← blob_take (output_len (suite_hash suite));
  lift (map_err (fun _ => HState) (hb_from_bytes (suite_hash suite) bytes)).

Definition decode_blob_p : blob_parser ContinuationState :=
  version ← blob_u8;
  return! HState when negb (bool_decide (version = CONTINUATION_STATE_VERSION));
  wire ← blob_u16;
  suite ← lift (ok_or HState (suite_from_wire wire));
  client ← decode_traffic_secret suite;
  server ← decode_traffic_secret suite;
  client_sequence ← blob_u64;
  server_sequence ← blob_u64;
  key_update ← blob_flag;
  kind_byte ← blob_u8;
  kind ← lift (ok_or HState (session_kind_from_wire kind_byte));
  user_id ← blob_take BLOB_USER_ID_LEN;
  inbound_tag ← decode_short_string;
  destination ← decode_blob_destination;
  pending ← decode_bounded_bytes alloc MAX_PENDING_CIPHERTEXT_LEN;
  prefetched ← decode_bounded_bytes alloc MAX_PREFETCHED_PLAINTEXT_LEN;
  policy ← decode_policy_snapshot alloc;
  _ ← blob_end;
  lift (new_continuation suite client client_sequence server server_sequence key_update kind user_id inbound_tag
          destination pending prefetched policy).

Definition decode_blob (blob : list byte) : result HandoffError ContinuationState := fst <$> run_parser decode_blob_p blob.
End Codec.

(** ** Well-formed states *)

Definition continuation_wf (s : ContinuationState) : Prop :=
  (hb_wf (cs_client_secret s) /\ hb_algorithm (cs_client_secret s) = suite_hash (cs_suite s)) /\
  (hb_wf (cs_server_secret s) /\ hb_algorithm (cs_server_secret s) = suite_hash (cs_suite s)) /\
  (u64_range (cs_client_sequence s) /\ u64_range (cs_server_sequence s)) /\
  len (cs_user_id s) = BLOB_USER_ID_LEN /\
  (len (cs_inbound_tag s) <= MAX_INBOUND_TAG_LEN /\ is_ascii (cs_inbound_tag s) = true) /\
  blob_destination_wf (cs_destination s) /\
  len (cs_pending_ciphertext s) <= MAX_PENDING_CIPHERTEXT_LEN /\
  len (cs_prefetched_plaintext s) <= MAX_PREFETCHED_PLAINTEXT_LEN /\
  policy_wf (cs_policy s).

(** The sealed policy fits its own bound. *)
Definition policy_fits (p : HandoffPolicySnapshot) : Prop :=
  forall body, encode_policy_snapshot_body p = Ok body -> len body <= MAX_POLICY_SNAPSHOT_LEN.

Lemma session_kind_roundtrip k : session_kind_from_wire (session_kind_wire k) = Some k.
Proof. by destruct k. Qed.

Lemma blob_total_ok h i a p q y :
  32 <= h <= 48 -> 0 <= i <= MAX_INBOUND_TAG_LEN -> 1 <= a <= MAX_DOMAIN_LEN -> 0 <= p <= MAX_PENDING_CIPHERTEXT_LEN ->
  0 <= q <= MAX_PREFETCHED_PLAINTEXT_LEN -> 0 <= y <= MAX_POLICY_SNAPSHOT_LEN + 4 ->
  blob_total h i a p q y = Some (55 + 2 * h + i + a + p + q + y).
Proof.
  unfold MAX_INBOUND_TAG_LEN, MAX_DOMAIN_LEN, MAX_PENDING_CIPHERTEXT_LEN, MAX_PREFETCHED_PLAINTEXT_LEN, MAX_POLICY_SNAPSHOT_LEN.
  intros. unfold blob_total, BLOB_USER_ID_LEN. cbn [foldl mbind option_bind].
  assert (Hadd : forall x n, 0 <= x <= 100000 -> 0 <= n <= 100000 -> checked_add USIZE_MAX x n = Some (x + n))
    by (intros; apply checked_add_some; unfold USIZE_MAX, U64_MAX; split; [done|lia]).
  repeat (rewrite Hadd by lia; cbn [mbind option_bind]). unfold MAX_BLOB_LEN. rewrite (proj2 (Z.leb_le _ _)) by lia. f_equal. lia.
Qed.

Section CodecLemmas.
Context (alloc : Z -> bool).

Lemma reads_traffic_secret suite s :
  hb_wf s -> hb_algorithm s = suite_hash suite -> reads (decode_traffic_secret suite) (hb_as_bytes s) s.
Proof.
  intros Hs Hh. eapply reads_bind_nil; [apply reads_blob_take; rewrite hb_wf_len, Hh by done; done|].
  rewrite <- Hh, hb_from_bytes_as_bytes by done. intros pre rest _. cbn. by rewrite app_nil_r.
Qed.

Lemma safe_traffic_secret suite : safe (decode_traffic_secret suite).
Proof.
  pose proof (output_len_bounds (suite_hash suite)).
  apply safe_bind; [apply safe_blob_take; lia|]. intros b. apply safe_lift, no_panic_map_err, hb_from_bytes_no_panic.
Qed.

Lemma yields_traffic_secret suite :
  yields (decode_traffic_secret suite) (fun s => hb_wf s /\ hb_algorithm s = suite_hash suite).
Proof.
  pose proof (output_len_bounds (suite_hash suite)).
  eapply yields_bind; [apply yields_blob_take; lia|]. intros b _ pre rest s c' H'. unfold lift in H'.
  destruct (hb_from_bytes _ b) as [s'| |] eqn:E; [|done..]. injection H' as <- <-.
  apply hb_from_bytes_inv in E as (? & ? & _). exists [], rest. by rewrite app_nil_r.
Qed.

Lemma new_continuation_ok s :
  continuation_wf s ->
  new_continuation (cs_suite s) (cs_client_secret s) (cs_client_sequence s) (cs_server_secret s) (cs_server_sequence s)
    (cs_key_update_pending s) (cs_session_kind s) (cs_user_id s) (cs_inbound_tag s) (cs_destination s)
    (cs_pending_ciphertext s) (cs_prefetched_plaintext s) (cs_policy s) = Ok s.
Proof.
  intros ([_ Hc] & [_ Hs] & _ & _ & [Ht Ha] & _ & Hp & Hq & _). unfold new_continuation.
  rewrite guard_pass by (by rewrite !bool_decide_true).
  rewrite guard_pass by (by rewrite !(proj2 (Z.ltb_ge _ _))). rewrite Ha. by destruct s.
Qed.

(** The encoding of a well-formed state is read back, and it is as long as
    accounted for, less the policy prefix that the sum counts twice. *)
Lemma encode_blob_total s :
  continuation_wf s -> policy_fits (cs_policy s) -> (forall n, n <= MAX_BLOB_LEN -> alloc n = true) ->
  exists blob, encode_blob alloc s = Ok blob /\ len blob <= MAX_BLOB_LEN /\ finishes (decode_blob_p alloc) blob s.
Proof.
  intros Hwf Hfit Halloc. pose proof (new_continuation_ok s Hwf) as Hnew.
  destruct Hwf as ([Hcw Hc] & [Hsw Hs] & [Hcs Hss] & Hu & [Ht Ha] & Hd & Hp & Hq & Hpol).
  destruct (bounded_address_length_ok (cs_destination s)) as (an & Han & Hanr); [apply Hd|].
  destruct (encoded_policy_len_ok (cs_policy s) Hpol Hfit) as (ps & Hps & Hpl & Hpsl).
  pose proof (output_len_bounds (suite_hash (cs_suite s))) as Hh. unfold MAX_HASH_BYTES in Hh.
  pose proof (len_nonneg (cs_inbound_tag s)). pose proof (len_nonneg (cs_pending_ciphertext s)).
  pose proof (len_nonneg (cs_prefetched_plaintext s)). pose proof (len_nonneg ps).
  pose proof (blob_total_ok (output_len (suite_hash (cs_suite s))) (len (cs_inbound_tag s)) an (len (cs_pending_ciphertext s))
    (len (cs_prefetched_plaintext s)) (len ps) ltac:(lia) ltac:(lia) ltac:(lia) ltac:(lia) ltac:(lia) ltac:(lia)) as Htot.
  unfold encode_blob. rewrite (bind_step _ an), (bind_step _ (len ps)) by done.
  rewrite (bind_step _ _ _ (proj2 (ok_or_ok HLength _ _) Htot)).
  unfold MAX_INBOUND_TAG_LEN, MAX_DOMAIN_LEN, MAX_PENDING_CIPHERTEXT_LEN, MAX_PREFETCHED_PLAINTEXT_LEN, MAX_POLICY_SNAPSHOT_LEN,
    BLOB_USER_ID_LEN in *.
  rewrite Halloc by (unfold MAX_BLOB_LEN; lia). rewrite guard_pass by done.
  rewrite (bind_step _ _ _ (encode_short_bytes_ok _ Ht)), (bind_step _ ps) by done.
  eexists. split; [reflexivity|]. split.
  { rewrite !encode_bounded_bytes_eq by (unfold U32_MAX; lia). rewrite !len_app, !hb_wf_len, Hc, Hs, Hu by done.
    rewrite (len_encode_address _ an) by (first [apply Hd|done]). unfold MAX_BLOB_LEN. slen. }
  unfold decode_blob_p. eapply finishes_bind; [apply reads_blob_u8|]. apply finishes_return_if; [by rewrite bool_decide_true|].
  eapply finishes_bind; [apply reads_blob_u16, suite_wire_range|].
  eapply finishes_lift; [by rewrite suite_wire_roundtrip|].
  eapply finishes_bind; [by apply reads_traffic_secret|]. eapply finishes_bind; [by apply reads_traffic_secret|].
  eapply finishes_bind; [by apply reads_blob_u64|]. eapply finishes_bind; [by apply reads_blob_u64|].
  eapply finishes_bind; [apply reads_blob_flag|]. eapply finishes_bind; [apply reads_blob_u8|].
  eapply finishes_lift; [by rewrite session_kind_roundtrip|].
  eapply finishes_bind; [by apply reads_blob_take|].
  change (as_u8 (len (cs_inbound_tag s)) :: cs_inbound_tag s) with ([as_u8 (len (cs_inbound_tag s))] ++ cs_inbound_tag s).
  eapply finishes_bind; [by apply reads_short_string|].
  rewrite (app_assoc (encode_address _)). eapply finishes_bind; [by apply reads_blob_destination|].
  eapply finishes_bind; [apply reads_bounded_bytes; [exact Hp|vm_compute; congruence|apply Halloc; unfold MAX_BLOB_LEN; lia]|].
  eapply finishes_bind; [apply reads_bounded_bytes; [exact Hq|vm_compute; congruence|apply Halloc; unfold MAX_BLOB_LEN; lia]|].
  rewrite <- (app_nil_r ps). eapply finishes_bind.
  { apply reads_policy_snapshot; [done| |done]. intros n Hn. apply Halloc. unfold MAX_POLICY_SNAPSHOT_LEN, MAX_BLOB_LEN in *. lia. }
  apply finishes_end. intros c. by rewrite Hnew.
Qed.

Lemma safe_decode_blob : safe (decode_blob_p alloc).
Proof.
  assert (Hopt : forall A (o : option A), safe (lift (ok_or HState o) : blob_parser A)) by (intros; apply safe_lift, no_panic_ok_or).
  unfold decode_blob_p. apply safe_bind; [apply safe_blob_u8|]. intros v. apply safe_bind; [apply safe_return_if|]. intros _.
  apply safe_bind; [apply (safe_blob_be 2)|]. intros w. apply safe_bind; [apply Hopt|]. intros suite.
  do 2 (apply safe_bind; [apply safe_traffic_secret|]; intros ?). do 2 (apply safe_bind; [apply (safe_blob_be 8)|]; intros ?).
  apply safe_bind; [apply safe_blob_flag|]. intros ku. apply safe_bind; [apply safe_blob_u8|]. intros kb.
  apply safe_bind; [apply Hopt|]. intros k. apply safe_bind; [by apply safe_blob_take|]. intros u.
  apply safe_bind; [apply safe_short_string|]. intros t. apply safe_bind; [apply safe_blob_destination|]. intros d.
  do 2 (apply safe_bind; [apply safe_bounded_bytes|]; intros ?). apply safe_bind; [apply safe_policy_snapshot|]. intros p.
  apply safe_bind; [apply safe_blob_end|]. intros _. apply safe_lift. unfold new_continuation.
  do 3 (apply no_panic_guard; intros _). done.
Qed.

Lemma yields_decode_blob : yields (decode_blob_p alloc) continuation_wf.
Proof.
  unfold decode_blob_p. eapply yields_bind; [apply yields_blob_u8|]. intros v _. apply yields_return_if; intros _.
  eapply yields_bind; [apply yields_blob_u16|]. intros w _. apply yields_lift_bind. intros suite _.
  eapply yields_bind; [apply yields_traffic_secret|]. intros cl Hcl. eapply yields_bind; [apply yields_traffic_secret|]. intros sv Hsv.
  eapply yields_bind; [apply yields_blob_u64|]. intros c1 Hc1. eapply yields_bind; [apply yields_blob_u64|]. intros c2 Hc2.
  eapply yields_bind; [apply yields_blob_flag|]. intros ku _. eapply yields_bind; [apply yields_blob_u8|]. intros kb _.
  apply yields_lift_bind. intros k _. eapply yields_bind; [by apply yields_blob_take|]. intros u Hu.
  eapply yields_bind; [apply yields_short_string|]. intros t Ht. eapply yields_bind; [apply yields_blob_destination|]. intros d Hd.
  eapply yields_bind; [apply yields_bounded_bytes|]. intros p Hp. eapply yields_bind; [apply yields_bounded_bytes|]. intros q Hq.
  eapply yields_bind; [apply yields_policy_snapshot|]. intros pol Hpol. eapply yields_bind; [apply yields_blob_end|]. intros _ _.
  intros pre rest s c' H. unfold lift in H. destruct (new_continuation _ _ _ _ _ _ _ _ _ _ _ _ _) as [s'| |] eqn:E in H; [|done..].
  unfold new_continuation in E. inv_ok E.
  injection H as <- <-. exists [], rest. rewrite app_nil_r. split_and!; try done.
Qed.
End CodecLemmas.

(** A continuation survives the blob. Every well-formed session state whose
    policy fits the 1 KiB snapshot bound encodes (allocation permitting), within
    the 96 KiB blob cap, and decoding the blob returns exactly that state. On
    arbitrary bytes the decoder never panics, and what it accepts is a
    well-formed state: secrets sized for the suite, user id, tag, buffers and
    policy within their bounds, a usable destination. *)
Theorem blob_roundtrip (alloc : Z -> bool) (s : ContinuationState) (bytes : list byte) :
  (forall n, n <= MAX_BLOB_LEN -> alloc n = true) ->
  (continuation_wf s -> policy_fits (cs_policy s) ->
     exists blob, encode_blob alloc s = Ok blob /\ len blob <= MAX_BLOB_LEN /\ decode_blob alloc blob = Ok s) /\
  match decode_blob alloc bytes with
  | Ok s' => continuation_wf s'
  | Err _ => True
  | Panic => False
  end.
Proof.
  intros Ha. split.
  - intros Hs Hp. destruct (encode_blob_total alloc s Hs Hp Ha) as (blob & He & Hl & Hf).
    exists blob. split_and!; [done|done|]. apply run_finishes; [done|]. unfold MAX_BLOB_LEN, USIZE_MAX, U64_MAX in *. lia.
  - unfold decode_blob. pose proof (run_parser_no_panic _ bytes (safe_decode_blob alloc)) as Hn.
    destruct (run_parser _ bytes) as [[s' c]| |] eqn:E; [|done|done]. cbn.
    by apply (run_parser_sound _ _ _ _ _ (yields_decode_blob alloc)) in E as (? & ? & _ & _ & ?).
Qed.

(** ** Example *)

Definition example_state : ContinuationState :=
  {| cs_suite := Aes128GcmSha256; cs_client_secret := hb_fill Sha256 (replicate 32 x0a);
     cs_server_secret := hb_fill Sha256 (replicate 32 x0b); cs_client_sequence := 3; cs_server_sequence := 1;
     cs_key_update_pending := false; cs_session_kind := KindXudp; cs_user_id := replicate 16 x07;
     cs_inbound_tag := bytes_of "line-a"; cs_destination := example_destination; cs_pending_ciphertext := [x17; x03];
     cs_prefetched_plaintext := [x61]; cs_policy := example_policy_snapshot |}.

Lemma example_state_wf : continuation_wf example_state.
Proof.
  split; [split; [apply hb_fill_wf; reflexivity|reflexivity]|]. split; [split; [apply hb_fill_wf; reflexivity|reflexivity]|].
  split; [split; split; vm_compute; congruence|]. split; [reflexivity|]. split; [split; [vm_compute; congruence|reflexivity]|].
  split; [split; [split; [split; vm_compute; congruence|reflexivity]|split; vm_compute; congruence]|].
  split; [vm_compute; congruence|]. split; [vm_compute; congruence|]. exact example_policy_wf.
Qed.

Lemma example_policy_fits : policy_fits example_policy_snapshot.
Proof. intros body H. vm_compute in H. injection H as <-. vm_compute. congruence. Qed.
