(* ===== verification/HandoffTransfer.v ===== *)
(** * Handoff transfer ([src/protocol/handoff/layout.rs], [wire.rs], [transfer.rs])

    The single-flight LINE to LANDING message: fixed header, key derivation,
    [seal_transfer] and [open_transfer], over the blob codec, the landing keys
    and the replay guard. *)

From S2P Require Import Prelude Cursor VlessRequest Tls13Keys Crypto Replay UdpWire BlobCodec HandoffPolicy HandoffBlob.
#[local] Open Scope Z_scope.

(** ** Layout *)

Definition HANDOFF_PROTOCOL_VERSION : byte := x01.
Definition MAGIC : list byte := bytes_of "HND1".
Definition HEADER_LEN : Z := 114.
Definition TAG_LEN : Z := 16.
Definition MAX_MESSAGE_LEN : Z := HEADER_LEN + MAX_BLOB_LEN + TAG_LEN.
Definition VERSION_OFFSET : Z := 4.
Definition STATE_VERSION_OFFSET : Z := 5.
Definition TIMESTAMP_OFFSET : Z := 6.
Definition NONCE_OFFSET : Z := 14.
Definition EPHEMERAL_OFFSET : Z := 30.
Definition CLIENT_RANDOM_OFFSET : Z := 62.
Definition USER_ID_OFFSET : Z := 94.
Definition BLOB_LEN_OFFSET : Z := 110.
Definition NONCE_LEN : Z := 16.
Definition X25519_PUBLIC_LEN : Z := 32.
Definition AEAD_NONCE_LEN : Z := 12.
Definition MAX_SERVER_SEQUENCE_AT_HANDOFF : Z := 1.
Definition HKDF_SALT_LABEL : list byte := bytes_of "rust-reality/handoff/v1".

(** ** Header *)

Record TransferHeader := {
  hdr_raw : list byte;
  hdr_timestamp : Z;
  hdr_nonce : list byte;
  hdr_ephemeral_public : list byte;
  hdr_client_random : list byte;
  hdr_user_id : list byte;
  hdr_blob_len : Z;
}.

Definition read_header_array (raw : list byte) (offset n : Z) : result HandoffError (list byte) :=
  ok_or HLength (get_range raw offset (offset + n)).

Definition parse_transfer_header (raw : list byte) : result HandoffError TransferHeader :=
  guard! negb (len raw =? HEADER_LEN) else HLength;
  magic ← slice raw 0 (len MAGIC);
  guard! negb (bytes_eqb magic MAGIC) else HVersion;
  version ← index raw VERSION_OFFSET;
  state_version ← index raw STATE_VERSION_OFFSET;
  guard! negb (bool_decide (version = HANDOFF_PROTOCOL_VERSION)) ||
         negb (bool_decide (state_version = CONTINUATION_STATE_VERSION)) else HVersion;
  blob_len ← read_header_array raw BLOB_LEN_OFFSET 4;
  let blob_len := from_be blob_len in
  guard! MAX_BLOB_LEN <? blob_len else HLength;
  timestamp ← read_header_array raw TIMESTAMP_OFFSET 8;
  nonce ← read_header_array raw NONCE_OFFSET NONCE_LEN;
  ephemeral ← read_header_array raw EPHEMERAL_OFFSET X25519_PUBLIC_LEN;
  client_random ← read_header_array raw CLIENT_RANDOM_OFFSET 32;
  user_id ← read_header_array raw USER_ID_OFFSET USER_ID_LEN;
  Ok {| hdr_raw := raw; hdr_timestamp := from_be timestamp; hdr_nonce := nonce; hdr_ephemeral_public := ephemeral;
        hdr_client_random := client_random; hdr_user_id := user_id; hdr_blob_len := blob_len |}.

Definition message_len_from_header (header : list byte) : result HandoffError Z :=
  parsed ← parse_transfer_header header;
  ok_or HLength
    (length ← checked_add USIZE_MAX HEADER_LEN (hdr_blob_len parsed);
     length ← checked_add USIZE_MAX length TAG_LEN;
     if length <=? MAX_MESSAGE_LEN then Some length else None).

(** The stores fill the array from end to end. *)
Definition encode_transfer_header (timestamp : Z) (nonce ephemeral_public client_random user_id : list byte) (blob_len : Z)
    : list byte :=
  MAGIC ++ [HANDOFF_PROTOCOL_VERSION] ++ [CONTINUATION_STATE_VERSION] ++ to_be 8 timestamp ++ nonce ++
  ephemeral_public ++ client_random ++ user_id ++ to_be 4 blob_len.

Record OpenedTransfer := { ot_timestamp : Z; ot_client_random : list byte; ot_state : ContinuationState }.

Section Transfer.
Context {C : CryptoOps} (alloc : Z -> bool).

(** ** Key derivation *)

Definition derive_aead (header shared psk landing_public : list byte) : result HandoffError (list byte * list byte) :=
  ephemeral ← slice header EPHEMERAL_OFFSET CLIENT_RANDOM_OFFSET;
  let salt := HKDF_SALT_LABEL ++ ephemeral ++ landing_public in
  let ikm := shared ++ psk in
  before ← slice header 0 CLIENT_RANDOM_OFFSET;
  after ← slice header CLIENT_RANDOM_OFFSET BLOB_LEN_OFFSET;
  let transcript := before ++ landing_public ++ after in
  okm ← ok_or HCrypto (hkdf salt ikm transcript (32 + AEAD_NONCE_LEN));
  key ← slice okm 0 32;
  nonce ← slice_from okm 32;
  Ok (key, nonce).

(** [ChaCha20Poly1305::new_from_slice]. *)
Definition transfer_cipher (key : list byte) : result HandoffError (list byte) :=
  if len key =? 32 then Ok key else Err HCrypto.

(** ** [seal_transfer]

    The random draws are inputs ([None]: the entropy source failed); [output] is
    the caller's buffer. *)

Definition seal_message (rand_key : option Secret) (rand_nonce : option (list byte)) (state : ContinuationState)
    (psk landing_public client_random : list byte) (timestamp : Z) : result HandoffError (list byte * list byte * list byte) :=
  ephemeral ← ok_or HRandom rand_key;
  nonce ← ok_or HRandom rand_nonce;
  blob ← encode_blob alloc state;
  blob_len ← ok_or HLength (try_from U32_MAX (len blob));
  let header := encode_transfer_header timestamp nonce (x25519_public ephemeral) client_random (cs_user_id state) blob_len in
  shared ← ok_or HAuthentication (x25519_agree ephemeral landing_public);
  '(key, aead_nonce) ← derive_aead header shared psk landing_public;
  key ← transfer_cipher key;
  '(body, tag) ← ok_or HCrypto (aead_seal key aead_nonce header blob);
  Ok (header, body, tag).

Definition seal_transfer (rand_key : option Secret) (rand_nonce : option (list byte)) (state : ContinuationState)
    (psk landing_public client_random : list byte) (timestamp : Z) (output : list byte)
    : result HandoffError unit * list byte :=
  match seal_message rand_key rand_nonce state psk landing_public client_random timestamp with
  | Err e => (Err e, output)
  | Panic => (Panic, output)
  | Ok (header, body, tag) =>
    if alloc (HEADER_LEN + len body + TAG_LEN) then (Ok tt, header ++ body ++ tag) else (Err HAllocation, [])
  end.

(** ** [open_transfer] *)

(** Up to the reservation of the nonce: the header and the expected length. *)
Definition transfer_checks (message : list byte) (now maximum_time_difference : Z)
    : result HandoffError (list byte * TransferHeader * Z) :=
  header_bytes ← ok_or HLength (get_range message 0 HEADER_LEN);
  expected ← message_len_from_header header_bytes;
  guard! negb (len message =? expected) else HLength;
  header ← parse_transfer_header header_bytes;
  guard! maximum_time_difference <? abs_diff (hdr_timestamp header) now else HTimeWindow;
  Ok (header_bytes, header, expected).

(** The trial loop; the blob is what the accepting candidate decrypted. *)
Fixpoint try_transfer (cands : list (nat * list byte * Secret)) (header_bytes ephemeral body tag : list byte)
    : result HandoffError (list byte) :=
  match cands with
  | [] => Err HAuthentication
  | (_, psk, secret) :: cands =>
    match x25519_agree secret ephemeral with
    | None => try_transfer cands header_bytes ephemeral body tag
    | Some shared =>
      '(key, nonce) ← derive_aead header_bytes shared psk (x25519_public secret);
      key ← transfer_cipher key;
      match aead_open key nonce header_bytes body tag with
      | Some blob => Ok blob
      | None => try_transfer cands header_bytes ephemeral body tag
      end
    end
  end.

Definition transfer_open_body (message : list byte) (keys : HandoffLandingKeys) (header_bytes : list byte)
    (header : TransferHeader) (expected : Z) : result HandoffError OpenedTransfer :=
  ciphertext_end ← ok_or HLength (checked_add USIZE_MAX HEADER_LEN (hdr_blob_len header));
  body ← ok_or HLength (get_range message HEADER_LEN ciphertext_end);
  tag ← ok_or HLength (get_range message ciphertext_end expected);
  guard! negb (len tag =? TAG_LEN) else HLength;
  guard! negb (alloc (hdr_blob_len header)) else HAllocation;
  blob ← try_transfer (candidates keys) header_bytes (hdr_ephemeral_public header) body tag;
  state ← decode_blob alloc blob;
  guard! (MAX_SERVER_SEQUENCE_AT_HANDOFF <? cs_server_sequence state) ||
         negb (bytes_eqb (cs_user_id state) (hdr_user_id header)) else HState;
  Ok {| ot_timestamp := hdr_timestamp header; ot_client_random := hdr_client_random header; ot_state := state |}.

Definition open_transfer {G} `{ReplayGuard G} (message : list byte) (keys : HandoffLandingKeys) (replay : G)
    (now maximum_time_difference instant : Z) : result HandoffError OpenedTransfer * G :=
  match transfer_checks message now maximum_time_difference with
  | Err e => (Err e, replay)
  | Panic => (Panic, replay)
  | Ok (header_bytes, header, expected) =>
    match rg_reserve replay (hdr_nonce header) instant with
    | (Some f, replay) => (Err (handoff_replay_error f), replay)
    | (None, replay) => (transfer_open_body message keys header_bytes header expected, replay)
    end
  end.
End Transfer.

(** ** Header lemmas *)

Definition header_of (h : TransferHeader) : list byte :=
  encode_transfer_header (hdr_timestamp h) (hdr_nonce h) (hdr_ephemeral_public h) (hdr_client_random h) (hdr_user_id h) (hdr_blob_len h).

Definition header_fields_wf (ts : Z) (nonce eph rnd user : list byte) (n : Z) : Prop :=
  u64_range ts /\ len nonce = 16 /\ len eph = 32 /\ len rnd = 32 /\ len user = 16 /\ 0 <= n <= MAX_BLOB_LEN.

Ltac offsets :=
  unfold header_fields_wf, MAX_MESSAGE_LEN, HEADER_LEN, TAG_LEN, VERSION_OFFSET, STATE_VERSION_OFFSET, TIMESTAMP_OFFSET, NONCE_OFFSET,
    EPHEMERAL_OFFSET, CLIENT_RANDOM_OFFSET, USER_ID_OFFSET, BLOB_LEN_OFFSET, NONCE_LEN, X25519_PUBLIC_LEN, USER_ID_LEN,
    AEAD_NONCE_LEN in *.

Lemma len_transfer_header ts nonce eph rnd user n :
  header_fields_wf ts nonce eph rnd user n -> len (encode_transfer_header ts nonce eph rnd user n) = HEADER_LEN.
Proof.
  intros (_ & H1 & H2 & H3 & H4 & _). unfold encode_transfer_header. rewrite !len_app, H1, H2, H3, H4.
  change (len MAGIC) with 4. unfold HEADER_LEN. slen.
Qed.

(** A field between what precedes and what follows it. *)
Lemma header_array pre field post offset n :
  len pre = offset -> len field = n -> read_header_array (pre ++ field ++ post) offset n = Ok field.
Proof.
  intros <- <-. unfold read_header_array. apply ok_or_ok. rewrite get_range_app_r by lia.
  rewrite Z.sub_diag. apply get_range_prefix. lia.
Qed.

Lemma parse_transfer_header_enc ts nonce eph rnd user n :
  header_fields_wf ts nonce eph rnd user n ->
  parse_transfer_header (encode_transfer_header ts nonce eph rnd user n) =
    Ok {| hdr_raw := encode_transfer_header ts nonce eph rnd user n; hdr_timestamp := ts; hdr_nonce := nonce;
          hdr_ephemeral_public := eph; hdr_client_random := rnd; hdr_user_id := user; hdr_blob_len := n |}.
Proof.
  intros Hwf. pose proof (len_transfer_header _ _ _ _ _ _ Hwf) as Hlen. destruct Hwf as (Hts & Hn & He & Hr & Hu & Hb).
  unfold parse_transfer_header. rewrite guard_pass by (by rewrite Hlen).
  set (raw := encode_transfer_header ts nonce eph rnd user n).
  assert (Hraw : raw = MAGIC ++ [HANDOFF_PROTOCOL_VERSION] ++ [CONTINUATION_STATE_VERSION] ++ to_be 8 ts ++ nonce ++ eph ++ rnd ++ user ++ to_be 4 n)
    by done.
  rewrite (bind_step _ MAGIC) by (rewrite Hraw; by apply (slice_mid [])). rewrite guard_pass by (by rewrite bytes_eqb_refl).
  rewrite (bind_step _ HANDOFF_PROTOCOL_VERSION) by done. rewrite (bind_step _ CONTINUATION_STATE_VERSION) by done.
  rewrite guard_pass by (by rewrite !bool_decide_true). 
  set (p1 := MAGIC ++ [HANDOFF_PROTOCOL_VERSION] ++ [CONTINUATION_STATE_VERSION]).
  assert (Hp1 : len p1 = 6) by done.
  assert (Hraw1 : raw = p1 ++ to_be 8 ts ++ nonce ++ eph ++ rnd ++ user ++ to_be 4 n) by done.
  offsets.
  rewrite (bind_step _ (to_be 4 n)).
  2: { rewrite Hraw1, !app_assoc. rewrite <- (app_nil_r (to_be 4 n)), app_assoc, <- app_assoc. apply header_array; slen. }
  rewrite from_be_to_be by (unfold MAX_BLOB_LEN in *; cbn; lia). rewrite guard_pass by (apply Z.ltb_ge; lia).
  rewrite (bind_step _ (to_be 8 ts)) by (rewrite Hraw1; apply header_array; slen).
  rewrite (bind_step _ nonce) by (rewrite Hraw1, app_assoc; apply header_array; slen).
  rewrite (bind_step _ eph) by (rewrite Hraw1, !(app_assoc p1), (app_assoc (p1 ++ _)); apply header_array; slen).
  rewrite (bind_step _ rnd) by (rewrite Hraw1, (app_assoc p1), (app_assoc (p1 ++ _)), (app_assoc ((p1 ++ _) ++ _)); apply header_array; slen).
  rewrite (bind_step _ user) by (rewrite Hraw1, (app_assoc p1), (app_assoc (p1 ++ _)), (app_assoc ((p1 ++ _) ++ _)), (app_assoc (((p1 ++ _) ++ _) ++ _)); apply header_array; slen).
  by rewrite from_be_u64.
Qed.

Lemma get_range_join {A} (l x y : list A) i j k :
  get_range l i j = Some x -> get_range l j k = Some y -> get_range l i k = Some (x ++ y).
Proof.
  unfold get_range. destruct (Z.leb_spec 0 i), (Z.leb_spec i j), (Z.leb_spec j (len l)); cbn; try done. intros [= <-].
  destruct (Z.leb_spec 0 j), (Z.leb_spec j k), (Z.leb_spec k (len l)); cbn; try done; intros [= <-].
  rewrite (proj2 (Z.leb_le i k)) by lia. cbn. f_equal.
  replace (Z.to_nat (k - i)) with (Z.to_nat (j - i) + Z.to_nat (k - j))%nat by lia.
  rewrite <- (take_drop (Z.to_nat (j - i)) (drop (Z.to_nat i) l)) at 1.
  rewrite take_app_add' by (rewrite length_take, length_drop; unfold len in *; lia). rewrite drop_drop.
  do 3 f_equal. lia.
Qed.

Lemma index_get_range {A} (l : list A) i x :
  (index l i : result HandoffError A) = Ok x -> get_range l i (i + 1) = Some [x].
Proof.
  intros H. apply index_ok in H as [Hi H]. pose proof (lookup_lt_Some _ _ _ H).
  rewrite get_range_some by (unfold len; lia). replace (i + 1 - i) with 1 by lia.
  by rewrite (drop_S _ x) by done.
Qed.

Lemma parse_transfer_header_inv raw h :
  parse_transfer_header raw = Ok h ->
  hdr_raw h = raw /\ raw = header_of h /\
  header_fields_wf (hdr_timestamp h) (hdr_nonce h) (hdr_ephemeral_public h) (hdr_client_random h) (hdr_user_id h) (hdr_blob_len h).
Proof.
  unfold parse_transfer_header, read_header_array. intros H. inv_ok H.
  apply negb_false_iff, Z.eqb_eq in Hstep. apply slice_ok in Hstep0. apply negb_false_iff, bytes_eqb_eq in Hstep1. subst.
  apply index_get_range in Hstep2, Hstep3.
  apply orb_false_iff in Hstep4 as [Hv%negb_false_iff%bool_decide_eq_true Hsv%negb_false_iff%bool_decide_eq_true]. subst.
  apply Z.ltb_ge in Hstep6. offsets.
  assert (Hlen : forall i j s, get_range raw i j = Some s -> len s = j - i) by (intros i j s Hs; by apply get_range_inv in Hs as (_ & _ & _ & ? & _)).
  pose proof (Hlen _ _ _ Hstep5) as L5. pose proof (Hlen _ _ _ Hstep7) as L7. pose proof (Hlen _ _ _ Hstep8) as L8.
  pose proof (Hlen _ _ _ Hstep9) as L9. pose proof (Hlen _ _ _ Hstep10) as L10. pose proof (Hlen _ _ _ Hstep11) as L11.
  cbn [hdr_raw hdr_timestamp hdr_nonce hdr_ephemeral_public hdr_client_random hdr_user_id hdr_blob_len].
  split; [done|]. split.
  - pose proof (get_range_join _ _ _ _ _ _ Hstep11 Hstep5) as J. pose proof (get_range_join _ _ _ _ _ _ Hstep10 J) as J1.
    pose proof (get_range_join _ _ _ _ _ _ Hstep9 J1) as J2. pose proof (get_range_join _ _ _ _ _ _ Hstep8 J2) as J3.
    pose proof (get_range_join _ _ _ _ _ _ Hstep7 J3) as J4. pose proof (get_range_join _ _ _ _ _ _ Hstep3 J4) as J5.
    pose proof (get_range_join _ _ _ _ _ _ Hstep2 J5) as J6. pose proof (get_range_join _ _ _ _ _ _ Hstep0 J6) as J7.
    rewrite get_range_all in J7 by done. injection J7 as J7. rewrite J7 at 1. unfold header_of, encode_transfer_header.
    cbn [hdr_timestamp hdr_nonce hdr_ephemeral_public hdr_client_random hdr_user_id hdr_blob_len].
    rewrite !to_be_from_be by (unfold len in *; lia). done.
  - pose proof (from_be_range x5). split_and!; [by apply from_be_u64_range|lia..].
Qed.

Lemma message_len_enc ts nonce eph rnd user n :
  header_fields_wf ts nonce eph rnd user n ->
  message_len_from_header (encode_transfer_header ts nonce eph rnd user n) = Ok (HEADER_LEN + n + TAG_LEN).
Proof.
  intros Hwf. unfold message_len_from_header. rewrite (bind_step _ _ _ (parse_transfer_header_enc _ _ _ _ _ _ Hwf)).
  apply ok_or_ok. destruct Hwf as (_ & _ & _ & _ & _ & Hn). cbn [hdr_blob_len]. unfold checked_add. offsets. unfold MAX_BLOB_LEN, USIZE_MAX, U64_MAX in *.
  rewrite (proj2 (Z.leb_le _ _)) by lia. cbn [mbind option_bind]. rewrite (proj2 (Z.leb_le _ _)) by lia. cbn [mbind option_bind].
  by rewrite (proj2 (Z.leb_le _ _)) by lia.
Qed.

Lemma transfer_checks_enc ts nonce eph rnd user n body tag now d :
  header_fields_wf ts nonce eph rnd user n -> len body = n -> len tag = 16 -> abs_diff ts now <= d ->
  let header := encode_transfer_header ts nonce eph rnd user n in
  transfer_checks (header ++ body ++ tag) now d =
    Ok (header, {| hdr_raw := header; hdr_timestamp := ts; hdr_nonce := nonce; hdr_ephemeral_public := eph;
                   hdr_client_random := rnd; hdr_user_id := user; hdr_blob_len := n |}, HEADER_LEN + n + TAG_LEN).
Proof.
  intros Hwf Hb Ht Htime header. pose proof (len_transfer_header _ _ _ _ _ _ Hwf) as Hl. fold header in Hl.
  unfold transfer_checks. rewrite (bind_step _ header) by (apply ok_or_ok, get_range_prefix; lia).
  rewrite (bind_step _ _ _ (message_len_enc _ _ _ _ _ _ Hwf)).
  rewrite guard_pass by (apply negb_false_iff, Z.eqb_eq; rewrite !len_app, Hl, Hb, Ht; unfold TAG_LEN; lia).
  rewrite (bind_step _ _ _ (parse_transfer_header_enc _ _ _ _ _ _ Hwf)). rewrite guard_pass by (by apply Z.ltb_ge). done.
Qed.

Lemma transfer_checks_inv message now d hb h e :
  transfer_checks message now d = Ok (hb, h, e) ->
  hb = header_of h /\ header_fields_wf (hdr_timestamp h) (hdr_nonce h) (hdr_ephemeral_public h) (hdr_client_random h) (hdr_user_id h) (hdr_blob_len h) /\
  abs_diff (hdr_timestamp h) now <= d /\ e = HEADER_LEN + hdr_blob_len h + TAG_LEN /\
  exists body tag, message = hb ++ body ++ tag /\ len body = hdr_blob_len h /\ len tag = 16.
Proof.
  unfold transfer_checks. intros H. apply bind_ok in H as (x & Hx%ok_or_ok & H). apply bind_ok in H as (ex & Hex & H).
  apply bind_ok in H as (_ & Hl%reject_ok%negb_false_iff%Z.eqb_eq & H). apply bind_ok in H as (h' & Hp & H).
  apply bind_ok in H as (_ & Ht%reject_ok%Z.ltb_ge & H). injection H as <- <- <-.
  apply parse_transfer_header_inv in Hp as (_ & Hraw & Hwf). rewrite Hraw in Hex. unfold header_of in Hex.
  rewrite message_len_enc in Hex by done. injection Hex as <-.
  apply get_range_inv in Hx as (_ & _ & _ & Hxl & Heq). change (take (Z.to_nat 0) message) with (@nil byte) in Heq. cbn [app] in Heq.
  split_and!; try done. set (rest := drop (Z.to_nat HEADER_LEN) message) in *.
  assert (Hrest : len rest = hdr_blob_len h' + 16) by (pose proof (f_equal len Heq) as Hm; rewrite len_app in Hm; offsets; lia).
  destruct Hwf as (_ & _ & _ & _ & _ & Hn).
  exists (take (Z.to_nat (hdr_blob_len h')) rest), (drop (Z.to_nat (hdr_blob_len h')) rest). rewrite take_drop.
  split_and!; [done|slen|slen].
Qed.

Section TransferLemmas.
Context {C : CryptoOps} {L : CryptoLaws C}.

Lemma derive_aead_len header shared psk pub key nonce :
  derive_aead header shared psk pub = Ok (key, nonce) -> len key = 32 /\ len nonce = 12.
Proof.
  unfold derive_aead. intros H. inv_ok H. apply hkdf_len in Hstep2. apply slice_ok, get_range_inv in Hstep3 as (_ & _ & _ & ? & _).
  unfold slice_from in Hstep4. apply slice_ok, get_range_inv in Hstep4 as (_ & _ & _ & ? & _). unfold AEAD_NONCE_LEN in *. lia.
Qed.

Lemma derive_aead_no_panic header shared psk pub : len header = HEADER_LEN -> no_panic (derive_aead header shared psk pub).
Proof.
  intros Hl. unfold derive_aead. offsets.
  do 3 (apply no_panic_bind; [apply slice_no_panic; lia|intros ? _]).
  apply no_panic_bind; [apply no_panic_ok_or|]. intros okm Hok%ok_or_ok%hkdf_len.
  apply no_panic_bind; [apply slice_no_panic; lia|intros ? _].
  apply no_panic_bind; [apply slice_from_no_panic; lia|intros ? _]. done.
Qed.

Lemma transfer_cipher_ok key : len key = 32 -> transfer_cipher key = Ok key.
Proof. intros H. unfold transfer_cipher. by rewrite H. Qed.

(** What one candidate makes of a message. *)
Definition candidate_opens (psk : list byte) (secret : Secret) (header ephemeral body tag blob : list byte) : Prop :=
  exists shared key nonce, x25519_agree secret ephemeral = Some shared /\
    derive_aead header shared psk (x25519_public secret) = Ok (key, nonce) /\
    aead_open key nonce header body tag = Some blob.

Definition candidate_rejects (psk : list byte) (secret : Secret) (header ephemeral body tag : list byte) : Prop :=
  x25519_agree secret ephemeral = None \/
  exists shared key nonce, x25519_agree secret ephemeral = Some shared /\
    derive_aead header shared psk (x25519_public secret) = Ok (key, nonce) /\
    aead_open key nonce header body tag = None.

Lemma try_transfer_skip before : forall rest header ephemeral body tag,
  Forall (fun '(_, psk, secret) => candidate_rejects psk secret header ephemeral body tag) before ->
  try_transfer (before ++ rest) header ephemeral body tag = try_transfer rest header ephemeral body tag.
Proof.
  induction before as [|[[i psk] secret] before IH]; intros rest header ephemeral body tag Hall; [done|].
  apply Forall_cons in Hall as [Hc Hall]. cbn [app try_transfer].
  destruct Hc as [->|(shared & key & nonce & -> & Hd & Ho)]; [by apply IH|].
  rewrite (bind_step _ _ _ Hd). rewrite (bind_step _ key) by (by apply transfer_cipher_ok, (derive_aead_len _ _ _ _ _ _ Hd)).
  rewrite Ho. by apply IH.
Qed.

Lemma try_transfer_hit i psk secret rest header ephemeral body tag blob :
  candidate_opens psk secret header ephemeral body tag blob ->
  try_transfer ((i, psk, secret) :: rest) header ephemeral body tag = Ok blob.
Proof.
  intros (shared & key & nonce & Ha & Hd & Ho). cbn [try_transfer]. rewrite Ha, (bind_step _ _ _ Hd).
  rewrite (bind_step _ key) by (by apply transfer_cipher_ok, (derive_aead_len _ _ _ _ _ _ Hd)). by rewrite Ho.
Qed.

Lemma try_transfer_inv cands header ephemeral body tag blob :
  try_transfer cands header ephemeral body tag = Ok blob ->
  exists i psk secret, (i, psk, secret) ∈ cands /\ candidate_opens psk secret header ephemeral body tag blob.
Proof.
  induction cands as [|[[i psk] secret] cands IH]; [done|]. cbn [try_transfer]. intros H.
  assert (Hrec : try_transfer cands header ephemeral body tag = Ok blob ->
    exists j p s, (j, p, s) ∈ (i, psk, secret) :: cands /\ candidate_opens p s header ephemeral body tag blob)
    by (intros (j & p & s & ? & ?)%IH; exists j, p, s; split; [by right|done]).
  destruct (x25519_agree secret ephemeral) as [shared|] eqn:Ha; [|by apply Hrec].
  apply bind_ok in H as ([key nonce] & Hd & H). rewrite (bind_step _ key) in H by (by apply transfer_cipher_ok, (derive_aead_len _ _ _ _ _ _ Hd)).
  destruct (aead_open key nonce header body tag) as [b|] eqn:Ho; [|by apply Hrec]. injection H as ->.
  exists i, psk, secret. split; [left|]. by exists shared, key, nonce.
Qed.

Lemma try_transfer_no_panic cands header ephemeral body tag :
  len header = HEADER_LEN -> no_panic (try_transfer cands header ephemeral body tag).
Proof.
  intros Hl. induction cands as [|[[i psk] secret] cands IH]; [done|]. cbn [try_transfer].
  destruct (x25519_agree secret ephemeral); [|done].
  apply no_panic_bind; [by apply derive_aead_no_panic|]. intros [key nonce] _.
  apply no_panic_bind; [unfold transfer_cipher; by destruct (_ =? _)|]. intros k _. by destruct (aead_open k nonce header body tag).
Qed.
End TransferLemmas.

Section SealLemmas.
Context {C : CryptoOps} {L : CryptoLaws C} (alloc : Z -> bool).

(** What a successful seal made. *)
Lemma seal_message_inv eph nonce s psk pub rnd ts header body tag :
  continuation_wf s -> policy_fits (cs_policy s) -> (forall n, n <= MAX_BLOB_LEN -> alloc n = true) ->
  seal_message alloc (Some eph) (Some nonce) s psk pub rnd ts = Ok (header, body, tag) ->
  exists blob shared key an,
    decode_blob alloc blob = Ok s /\ len blob <= MAX_BLOB_LEN /\
    header = encode_transfer_header ts nonce (x25519_public eph) rnd (cs_user_id s) (len blob) /\
    x25519_agree eph pub = Some shared /\ derive_aead header shared psk pub = Ok (key, an) /\
    aead_seal key an header blob = Some (body, tag).
Proof.
  intros Hs Hp Ha. unfold seal_message. do 2 (erewrite bind_step by reflexivity). intros H.
  destruct (encode_blob_total alloc s Hs Hp Ha) as (blob & He & Hl & Hf). rewrite (bind_step _ _ _ He) in H.
  apply bind_ok in H as (n & Hn%ok_or_ok%try_from_some & H). destruct Hn as [-> _].
  apply bind_ok in H as (shared & Hsh%ok_or_ok & H). apply bind_ok in H as ([key an] & Hd & H).
  rewrite (bind_step _ key) in H by (by apply transfer_cipher_ok, (derive_aead_len _ _ _ _ _ _ Hd)).
  apply bind_ok in H as ([b t] & Hseal%ok_or_ok & H). injection H as <- <- <-.
  exists blob, shared, key, an. split_and!; try done.
  apply run_finishes; [done|]. unfold MAX_BLOB_LEN, USIZE_MAX, U64_MAX in *. lia.
Qed.

Lemma seal_message_no_panic eph nonce s psk pub rnd ts :
  continuation_wf s -> policy_fits (cs_policy s) -> (forall n, n <= MAX_BLOB_LEN -> alloc n = true) ->
  u64_range ts -> len nonce = 16 -> len rnd = 32 -> no_panic (seal_message alloc (Some eph) (Some nonce) s psk pub rnd ts).
Proof.
  intros Hs Hp Ha Hts Hn Hr. unfold seal_message. do 2 (erewrite bind_step by reflexivity).
  destruct (encode_blob_total alloc s Hs Hp Ha) as (blob & He & Hl & _). rewrite (bind_step _ _ _ He).
  apply no_panic_bind; [apply no_panic_ok_or|]. intros n [-> Hn']%ok_or_ok%try_from_some.
  apply no_panic_bind; [apply no_panic_ok_or|]. intros shared _. destruct Hs as (_ & _ & _ & Hu & _).
  apply no_panic_bind; [apply derive_aead_no_panic, len_transfer_header; split_and!; try done; (apply public_len || lia)|].
  intros [key an] _. apply no_panic_bind; [unfold transfer_cipher; by destruct (_ =? _)|]. intros k _.
  apply no_panic_bind; [apply no_panic_ok_or|]. by intros [b t] _.
Qed.

Lemma open_body_sealed ts nonce eph rnd s blob body tag key an before after i psk secret shared keys :
  let header := encode_transfer_header ts nonce (x25519_public eph) rnd (cs_user_id s) (len blob) in
  header_fields_wf ts nonce (x25519_public eph) rnd (cs_user_id s) (len blob) ->
  (forall n, n <= MAX_BLOB_LEN -> alloc n = true) -> decode_blob alloc blob = Ok s -> cs_server_sequence s <= 1 ->
  x25519_agree eph (x25519_public secret) = Some shared -> derive_aead header shared psk (x25519_public secret) = Ok (key, an) ->
  aead_seal key an header blob = Some (body, tag) ->
  candidates keys = before ++ (i, psk, secret) :: after ->
  Forall (fun '(_, psk, secret) => candidate_rejects psk secret header (x25519_public eph) body tag) before ->
  transfer_open_body alloc (header ++ body ++ tag) keys header
    {| hdr_raw := header; hdr_timestamp := ts; hdr_nonce := nonce; hdr_ephemeral_public := x25519_public eph;
       hdr_client_random := rnd; hdr_user_id := cs_user_id s; hdr_blob_len := len blob |} (HEADER_LEN + len blob + TAG_LEN) =
  Ok {| ot_timestamp := ts; ot_client_random := rnd; ot_state := s |}.
Proof.
  intros header Hwf Ha Hdec Hseq Hsh Hd Hseal Hc Hbefore. pose proof (len_transfer_header _ _ _ _ _ _ Hwf) as Hl. fold header in Hl.
  destruct Hwf as (_ & _ & _ & _ & _ & Hn). destruct (seal_len _ _ _ _ _ _ Hseal) as [Hb Ht]. unfold transfer_open_body.
  cbn [hdr_blob_len hdr_ephemeral_public hdr_user_id hdr_timestamp hdr_client_random].
  rewrite (bind_step _ (HEADER_LEN + len blob))
    by (apply ok_or_ok, checked_add_some; split; [done|unfold HEADER_LEN, MAX_BLOB_LEN, USIZE_MAX, U64_MAX in *; lia]).
  rewrite (bind_step _ body) by (apply ok_or_ok; rewrite get_range_app_r by lia; rewrite Hl, Z.sub_diag; apply get_range_prefix; lia).
  rewrite (bind_step _ tag).
  2: { apply ok_or_ok. rewrite app_assoc, get_range_app_r by slen.
       replace (HEADER_LEN + len blob - len (header ++ body)) with 0 by slen. apply get_range_all. unfold TAG_LEN. slen. }
  rewrite guard_pass by (by rewrite Ht). rewrite guard_pass by (by rewrite Ha by lia).
  rewrite (bind_step _ blob).
  2: { rewrite Hc, try_transfer_skip by done. apply try_transfer_hit. exists shared, key, an.
       rewrite agree_comm. split_and!; [done|done|]. by eapply open_seal. }
  rewrite (bind_step _ _ _ Hdec). rewrite guard_pass; [done|].
  rewrite bytes_eqb_refl, orb_false_r. apply Z.ltb_ge. done.
Qed.
End SealLemmas.

(** The parts of a complete message. *)
Definition message_header (m : list byte) : list byte := take (Z.to_nat HEADER_LEN) m.
Definition message_body (m : list byte) : list byte :=
  take (length m - Z.to_nat (HEADER_LEN + TAG_LEN)) (drop (Z.to_nat HEADER_LEN) m).
Definition message_tag (m : list byte) : list byte := drop (length m - Z.to_nat TAG_LEN) m.

Lemma message_parts h b t :
  len h = HEADER_LEN -> len t = TAG_LEN ->
  message_header (h ++ b ++ t) = h /\ message_body (h ++ b ++ t) = b /\ message_tag (h ++ b ++ t) = t.
Proof.
  unfold message_header, message_body, message_tag, HEADER_LEN, TAG_LEN, len. intros Hh Ht. rewrite !length_app.
  split_and!.
  - rewrite take_app_length' by lia. done.
  - rewrite drop_app_length' by lia. rewrite take_app_length' by lia. done.
  - rewrite app_assoc, drop_app_length' by (rewrite length_app; lia). done.
Qed.

Lemma transfer_open_sealed {C : CryptoOps} {L : CryptoLaws C} {G} `{ReplayGuard G} (alloc : Z -> bool)
    (eph secret : Secret) (nonce psk rnd output message : list byte) (s : ContinuationState) (keys : HandoffLandingKeys)
    (before after : list (nat * list byte * Secret)) (i : nat) (ts now d instant : Z) (replay replay' : G) :
  continuation_wf s -> policy_fits (cs_policy s) -> cs_server_sequence s <= 1 ->
  (forall n, n <= MAX_BLOB_LEN -> alloc n = true) -> u64_range ts -> len nonce = 16 -> len rnd = 32 ->
  seal_transfer alloc (Some eph) (Some nonce) s psk (x25519_public secret) rnd ts output = (Ok tt, message) ->
  abs_diff ts now <= d -> rg_reserve replay nonce instant = (None, replay') ->
  candidates keys = before ++ (i, psk, secret) :: after ->
  Forall (fun '(_, psk, secret) => candidate_rejects psk secret (message_header message) (x25519_public eph)
                                     (message_body message) (message_tag message)) before ->
  open_transfer alloc message keys replay now d instant =
    (Ok {| ot_timestamp := ts; ot_client_random := rnd; ot_state := s |}, replay').
Proof.
  intros Hs Hp Hseq Ha Hts Hn Hr Hseal. unfold seal_transfer in Hseal.
  destruct (seal_message alloc (Some eph) (Some nonce) s psk (x25519_public secret) rnd ts) as [[[header body] tag]| |] eqn:E; [|done..].
  destruct (alloc (_ + TAG_LEN)); [|done]. injection Hseal as <-.
  intros Htime Hres Hc Hbefore. apply seal_message_inv in E as (blob & shared & key & an & Hdec & Hlb & -> & Hsh & Hd & Haead); try done.
  destruct (seal_len _ _ _ _ _ _ Haead) as [Hb Ht]. destruct Hs as (_ & _ & _ & Hu & _). unfold BLOB_USER_ID_LEN in Hu.
  pose proof (len_nonneg blob).
  assert (Hwf : header_fields_wf ts nonce (x25519_public eph) rnd (cs_user_id s) (len blob))
    by (split_and!; try done; apply public_len).
  destruct (message_parts _ body tag (len_transfer_header _ _ _ _ _ _ Hwf) Ht) as (E1 & E2 & E3). rewrite E1, E2, E3 in Hbefore.
  unfold open_transfer. rewrite transfer_checks_enc by done. cbn [hdr_nonce]. rewrite Hres. f_equal.
  by eapply open_body_sealed.
Qed.

(** A transferred session is installed on LANDING exactly as LINE sealed it,
    across key rotation. Whenever [seal_transfer] succeeds for a well-formed
    state towards a PSK and static key that LANDING still accepts (no candidate
    tried earlier opening the message), clocks within policy and the replay
    guard taking the nonce, [open_transfer] on that message returns the same
    state, timestamp and client random, having reserved the nonce once; and a
    failing seal leaves in the caller's buffer either what was there or nothing,
    never plaintext. *)
Theorem transfer_roundtrip {C : CryptoOps} {L : CryptoLaws C} {G} `{ReplayGuard G} (alloc : Z -> bool)
    (eph secret : Secret) (nonce psk rnd output message : list byte) (s : ContinuationState) (keys : HandoffLandingKeys)
    (before after : list (nat * list byte * Secret)) (i : nat) (ts now d instant : Z) (replay replay' : G)
    (r : result HandoffError unit) :
  continuation_wf s -> policy_fits (cs_policy s) -> cs_server_sequence s <= 1 ->
  (forall n, n <= MAX_BLOB_LEN -> alloc n = true) -> u64_range ts -> len nonce = 16 -> len rnd = 32 ->
  seal_transfer alloc (Some eph) (Some nonce) s psk (x25519_public secret) rnd ts output = (r, message) ->
  match r with
  | Ok _ =>
    abs_diff ts now <= d -> rg_reserve replay nonce instant = (None, replay') ->
    candidates keys = before ++ (i, psk, secret) :: after ->
    Forall (fun '(_, psk, secret) => candidate_rejects psk secret (message_header message) (x25519_public eph)
                                       (message_body message) (message_tag message)) before ->
    open_transfer alloc message keys replay now d instant =
      (Ok {| ot_timestamp := ts; ot_client_random := rnd; ot_state := s |}, replay')
  | Err _ => message = output \/ message = []
  | Panic => False
  end.
Proof.
  intros Hs Hp Hseq Ha Hts Hn Hr Hseal. unfold seal_transfer in Hseal.
  destruct (seal_message alloc (Some eph) (Some nonce) s psk (x25519_public secret) rnd ts) as [[[header body] tag]| |] eqn:E;
    [|injection Hseal as <- <-; by left|by apply seal_message_no_panic in E].
  destruct (alloc (_ + TAG_LEN)) eqn:Ealloc; [|injection Hseal as <- <-; by right]. injection Hseal as <- <-.
  intros Htime Hres Hc Hbefore. eapply (transfer_open_sealed alloc eph secret nonce psk rnd output); try done. unfold seal_transfer. rewrite E, Ealloc. reflexivity.
Qed.

(** LINE still seals to a retired PSK that LANDING accepts. *)
Lemma transfer_roundtrip_witness :
  exists message, seal_transfer (C := toy_ops) (fun _ => true) (Some x03) (Some (replicate 16 x02)) example_state (replicate 32 x08)
      (x25519_public (CryptoOps := toy_ops) x07) (replicate 32 x05) 1000 [] = (Ok tt, message) /\
    (open_transfer (G := ReplayCache) (H := replay_guard example_policy) (fun _ => true) message example_keys example_cache 1010 30 5).1 =
      Ok {| ot_timestamp := 1000; ot_client_random := replicate 32 x05; ot_state := example_state |}.
Proof.
  destruct (seal_transfer (C := toy_ops) (fun _ => true) (Some x03) (Some (replicate 16 x02)) example_state (replicate 32 x08)
      (x25519_public (CryptoOps := toy_ops) x07) (replicate 32 x05) 1000 []) as [r message] eqn:E.
  pose proof (transfer_roundtrip (C := toy_ops) (G := ReplayCache) (H := replay_guard example_policy) (fun _ => true) x03 x07
    (replicate 16 x02) (replicate 32 x08) (replicate 32 x05) [] message example_state example_keys
    [(0%nat, replicate 32 x09, x07); (0%nat, replicate 32 x09, x06)] [(1%nat, replicate 32 x08, x06)] 1%nat
    1000 1010 30 5 example_cache
    (rg_reserve (ReplayGuard := replay_guard example_policy) example_cache (replicate 16 x02) 5).2 r
    example_state_wf example_policy_fits ltac:(vm_compute; congruence) ltac:(intros; reflexivity)
    ltac:(split; vm_compute; congruence) eq_refl eq_refl E) as H.
  assert (r = Ok tt) as -> by (apply (f_equal fst) in E; vm_compute in E; symmetry; exact E).
  exists message. split; [reflexivity|].
  rewrite H; [reflexivity|vm_compute; congruence|vm_compute; reflexivity|reflexivity|].
  apply (f_equal snd) in E. cbn [snd] in E. rewrite <- E.
  apply Forall_cons_2; [|apply Forall_cons_2; [|apply Forall_nil_2]]; right; eexists _, _, _;
    (split; [lazy; reflexivity|]); (split; [lazy; reflexivity|]); vm_compute; reflexivity.
Defined.

(** ** Arbitrary messages *)

Section Arbitrary.
Context {C : CryptoOps} {L : CryptoLaws C} (alloc : Z -> bool).

Lemma transfer_checks_no_panic message now d : no_panic (transfer_checks message now d).
Proof.
  assert (Hp : forall raw, no_panic (parse_transfer_header raw)).
  { intros raw. unfold parse_transfer_header, read_header_array. apply no_panic_guard. intros Hl%negb_false_iff%Z.eqb_eq. offsets.
    apply no_panic_bind; [change (len MAGIC) with 4; apply slice_no_panic; lia|]. intros m _. apply no_panic_guard; intros _.
    do 2 (apply no_panic_bind; [apply index_no_panic; lia|intros ? _]). apply no_panic_guard; intros _.
    apply no_panic_bind; [apply no_panic_ok_or|]. intros ? _. apply no_panic_guard; intros _.
    do 5 (apply no_panic_bind; [apply no_panic_ok_or|intros ? _]). done. }
  unfold transfer_checks. apply no_panic_bind; [apply no_panic_ok_or|]. intros hb _.
  apply no_panic_bind; [apply no_panic_bind; [apply Hp|]; intros; apply no_panic_ok_or|]. intros e _.
  apply no_panic_guard; intros _. apply no_panic_bind; [apply Hp|]. intros h _. apply no_panic_guard; intros _. done.
Qed.

Lemma decode_blob_outcome blob :
  match decode_blob alloc blob with Ok s => continuation_wf s | Err _ => True | Panic => False end.
Proof.
  unfold decode_blob. pose proof (run_parser_no_panic _ blob (safe_decode_blob alloc)) as Hn.
  destruct (run_parser _ blob) as [[s' c]| |] eqn:E; [|done|done]. cbn.
  by apply (run_parser_sound _ _ _ _ _ (yields_decode_blob alloc)) in E as (? & ? & _ & _ & ?).
Qed.

Lemma transfer_open_body_no_panic message keys hb h e : len hb = HEADER_LEN -> no_panic (transfer_open_body alloc message keys hb h e).
Proof.
  intros Hl. unfold transfer_open_body. do 3 (apply no_panic_bind; [apply no_panic_ok_or|intros ? _]).
  do 2 (apply no_panic_guard; intros _). apply no_panic_bind; [by apply try_transfer_no_panic|]. intros blob _.
  apply no_panic_bind; [pose proof (decode_blob_outcome blob); by destruct (decode_blob alloc blob)|].
  intros s _. apply no_panic_guard; intros _. done.
Qed.

(** What acceptance means. *)
Definition transfer_authentic (message : list byte) (keys : HandoffLandingKeys) (now d : Z) (o : OpenedTransfer) : Prop :=
  exists h body tag blob i psk secret,
    message = header_of h ++ body ++ tag /\ len body = hdr_blob_len h /\ len tag = TAG_LEN /\
    abs_diff (hdr_timestamp h) now <= d /\ (i, psk, secret) ∈ candidates keys /\
    candidate_opens psk secret (header_of h) (hdr_ephemeral_public h) body tag blob /\
    decode_blob alloc blob = Ok (ot_state o) /\ continuation_wf (ot_state o) /\
    cs_server_sequence (ot_state o) <= MAX_SERVER_SEQUENCE_AT_HANDOFF /\ cs_user_id (ot_state o) = hdr_user_id h /\
    ot_timestamp o = hdr_timestamp h /\ ot_client_random o = hdr_client_random h.

Lemma transfer_open_body_inv message keys now d hb h e o :
  transfer_checks message now d = Ok (hb, h, e) -> transfer_open_body alloc message keys hb h e = Ok o ->
  transfer_authentic message keys now d o.
Proof.
  intros Hck H. apply transfer_checks_inv in Hck as (-> & Hwf & Htime & -> & body & tag & -> & Hb & Ht).
  pose proof (len_transfer_header _ _ _ _ _ _ Hwf : len (header_of h) = _) as Hl. destruct Hwf as (_ & _ & _ & _ & _ & Hn).
  unfold transfer_open_body in H.
  rewrite (bind_step _ (HEADER_LEN + hdr_blob_len h)) in H
    by (apply ok_or_ok, checked_add_some; split; [done|unfold HEADER_LEN, MAX_BLOB_LEN, USIZE_MAX, U64_MAX in *; lia]).
  rewrite (bind_step _ body) in H by (apply ok_or_ok; rewrite get_range_app_r by lia; rewrite Hl, Z.sub_diag; apply get_range_prefix; lia).
  rewrite (bind_step _ tag) in H.
  2: { apply ok_or_ok. rewrite app_assoc, get_range_app_r by slen.
       replace (HEADER_LEN + hdr_blob_len h - len (header_of h ++ body)) with 0 by slen. apply get_range_all. unfold TAG_LEN. slen. }
  apply bind_ok in H as (_ & _ & H). apply bind_ok in H as (_ & _ & H). apply bind_ok in H as (blob & Htry & H).
  apply bind_ok in H as (s & Hdec & H). apply bind_ok in H as (_ & Hchk%reject_ok%orb_false_iff & H).
  destruct Hchk as [Hseq%Z.ltb_ge Huid%negb_false_iff%bytes_eqb_eq]. apply ok_inj in H. subst o.
  apply try_transfer_inv in Htry as (i & psk & secret & Hin & Hopen).
  pose proof (decode_blob_outcome blob) as Hwf. rewrite Hdec in Hwf.
  exists h, body, tag, blob, i, psk, secret. by split_and!.
Qed.
End Arbitrary.

(** C29: [open_transfer] on arbitrary bytes. It never panics. A message that fails
    the structural checks or the time window leaves the replay cache exactly as
    it was; any other message reserves its nonce exactly once, however many
    candidate keys are tried, and a refused reservation is the outcome. A
    message is accepted only when the reservation was fresh, its length is
    exactly header, declared blob and tag, its timestamp is within policy, one
    of the configured candidates authenticated the whole header and opened the
    body, and the decrypted state is well-formed, at server sequence zero or one
    and names the header's user. *)
Theorem transfer_open_sound {C : CryptoOps} {L : CryptoLaws C} {G} `{ReplayGuard G} (alloc : Z -> bool)
    (message : list byte) (keys : HandoffLandingKeys) (replay : G) (now d instant : Z) :
  let '(r, replay') := open_transfer alloc message keys replay now d instant in
  match transfer_checks message now d with
  | Err e => r = Err e /\ replay' = replay
  | Ok (_, h, _) =>
    let '(refused, replay1) := rg_reserve replay (hdr_nonce h) instant in
    replay' = replay1 /\
    match refused, r with
    | Some f, _ => r = Err (handoff_replay_error f)
    | None, Ok o => transfer_authentic alloc message keys now d o
    | None, Err _ => True
    | None, Panic => False
    end
  | Panic => False
  end.
Proof.
  unfold open_transfer. pose proof (transfer_checks_no_panic message now d) as Hn.
  destruct (transfer_checks message now d) as [[[hb h] e]| |] eqn:Hck; [|done|done].
  destruct (rg_reserve replay (hdr_nonce h) instant) as [[f|] replay1]; [done|]. split; [done|].
  pose proof (transfer_open_body_no_panic alloc message keys hb h e) as Hnp.
  destruct (transfer_open_body alloc message keys hb h e) as [o| |] eqn:Ho; [exact (transfer_open_body_inv alloc message keys now d hb h e o Hck Ho)|exact I|].
  apply Hnp; [|done]. apply transfer_checks_inv in Hck as (-> & Hwf & _). exact (len_transfer_header _ _ _ _ _ _ Hwf).
Qed.

(** ** Replays *)

Section Once.
Context {C : CryptoOps} (alloc : Z -> bool) {G : Type} `{RG : ReplayGuard G}.

Lemma transfer_checks_nonce message now d now' d' hb h e hb' h' e' :
  transfer_checks message now d = Ok (hb, h, e) -> transfer_checks message now' d' = Ok (hb', h', e') -> h' = h.
Proof.
  unfold transfer_checks. intros H H'. apply bind_ok in H as (x & Hx & H). apply bind_ok in H' as (x' & Hx' & H').
  rewrite Hx in Hx'. injection Hx' as <-. apply bind_ok in H as (y & Hy & H). apply bind_ok in H' as (y' & Hy' & H').
  apply bind_ok in H as (_ & _ & H). apply bind_ok in H' as (_ & _ & H').
  apply bind_ok in H as (z & Hz & H). apply bind_ok in H' as (z' & Hz' & H'). rewrite Hz in Hz'. injection Hz' as <-.
  apply bind_ok in H as (_ & _ & H). apply bind_ok in H' as (_ & _ & H'). by injection H as <- <- <-; injection H' as <- <- <-.
Qed.

Definition open_arrival (replay : G) (a : Arrival) : G :=
  (open_transfer alloc (ar_packet a) (ar_keys a) replay (ar_now a) (ar_diff a) (ar_instant a)).2.

Lemma open_arrivals_remember later : forall replay nonce deadline,
  rg_ready replay -> rg_remembers replay nonce deadline ->
  Forall (fun a => ar_instant a < deadline) later ->
  rg_ready (foldl open_arrival replay later) /\ rg_remembers (foldl open_arrival replay later) nonce deadline.
Proof.
  induction later as [|a later IH]; intros replay nonce deadline Hr Hm Hall; [done|].
  apply Forall_cons in Hall as [Ha Hall]. cbn [foldl].
  assert (Hc : open_arrival replay a = replay \/ exists n, open_arrival replay a = (rg_reserve replay n (ar_instant a)).2).
  { unfold open_arrival, open_transfer. destruct (transfer_checks _ _ _) as [[[hb h] e]| |]; auto.
    right. exists (hdr_nonce h). by destruct (rg_reserve replay (hdr_nonce h) (ar_instant a)) as [[f|] r]. }
  destruct Hc as [->|[n ->]]; apply IH; try done; [by apply rg_ready_reserve|by apply rg_remembers_reserve].
Qed.
End Once.

(** A transfer is accepted at most once per retention period. Once LANDING
    has accepted a message, whatever other messages it judges meanwhile (with
    any keys, clocks and time windows), the same message is refused at every
    instant before its nonce's deadline, so one sealed session is never
    installed twice. *)
Theorem transfer_open_once {C : CryptoOps} (alloc : Z -> bool) {G} `{ReplayGuard G} (message : list byte)
    (keys keys' : HandoffLandingKeys) (replay replay1 : G) (now now' d d' t t' : Z) (opened : OpenedTransfer)
    (later : list Arrival) :
  rg_ready replay -> open_transfer alloc message keys replay now d t = (Ok opened, replay1) ->
  Forall (fun a => ar_instant a < t + rg_retention) later -> t' < t + rg_retention ->
  is_ok (open_transfer alloc message keys' (foldl (open_arrival alloc) replay1 later) now' d' t').1 = false.
Proof.
  intros Hready Hopen Hlater Ht'. unfold open_transfer in Hopen.
  destruct (transfer_checks message now d) as [[[hb h] e]| |] eqn:Hck; [|done..].
  destruct (rg_reserve replay (hdr_nonce h) t) as [[f|] r] eqn:Hres; [done|]. injection Hopen as _ <-.
  pose proof (rg_reserved replay (hdr_nonce h) t Hready) as Hrem. rewrite Hres in Hrem. specialize (Hrem eq_refl).
  pose proof (rg_ready_reserve replay (hdr_nonce h) t Hready) as Hr. rewrite Hres in Hr.
  destruct (open_arrivals_remember alloc later r (hdr_nonce h) _ Hr Hrem Hlater) as [Hr2 Hm2].
  unfold open_transfer. destruct (transfer_checks message now' d') as [[[hb' h'] e']| |] eqn:Hck'; [|done..].
  rewrite (transfer_checks_nonce _ _ _ _ _ _ _ _ _ _ _ Hck Hck').
  pose proof (rg_rejects _ (hdr_nonce h) _ t' Hr2 Hm2 Ht') as Hrej.
  by destruct (rg_reserve (foldl (open_arrival alloc) r later) (hdr_nonce h) t') as [[f|] r'].
Qed.

Definition example_message : list byte :=
  (seal_transfer (C := toy_ops) (fun _ => true) (Some x03) (Some (replicate 16 x02)) example_state (replicate 32 x09)
     (x25519_public (CryptoOps := toy_ops) x07) (replicate 32 x05) 1000 []).2.

Lemma transfer_open_once_witness :
  exists opened replay1,
    open_transfer (C := toy_ops) (G := ReplayCache) (H := replay_guard example_policy) (fun _ => true) example_message example_keys
      example_cache 1010 30 5 = (Ok opened, replay1) /\
    is_ok (open_transfer (C := toy_ops) (G := ReplayCache) (H := replay_guard example_policy) (fun _ => true) example_message
      example_keys replay1 1010 30 14).1 = false.
Proof.
  destruct (open_transfer (C := toy_ops) (G := ReplayCache) (H := replay_guard example_policy) (fun _ => true) example_message
    example_keys example_cache 1010 30 5) as [[opened| |] replay1] eqn:E.
  2, 3: apply (f_equal fst) in E; vm_compute in E; discriminate E.
  exists opened, replay1. split; [reflexivity|].
  refine (transfer_open_once (C := toy_ops) (H := replay_guard example_policy) (fun _ => true) example_message example_keys example_keys
    example_cache replay1 1010 1010 30 30 5 14 opened [] _ E _ _).
  - constructor; [|reflexivity|cbn; lia]. eapply (i_cache example_policy (initial_system example_cache 0)), initial_inv;
      [cbn; lia|reflexivity].
  - constructor.
  - cbn. lia.
Defined.

(** The worked message is accepted, and everything the claim lists holds of it. *)
Lemma transfer_open_sound_witness :
  exists opened replay1,
    open_transfer (C := toy_ops) (G := ReplayCache) (H := replay_guard example_policy) (fun _ => true) example_message example_keys
      example_cache 1010 30 5 = (Ok opened, replay1) /\
    transfer_authentic (C := toy_ops) (fun _ => true) example_message example_keys 1010 30 opened.
Proof.
  pose proof (transfer_open_sound (C := toy_ops) (L := toy_laws) (H := replay_guard example_policy) (fun _ => true) example_message
    example_keys example_cache 1010 30 5) as T.
  destruct (open_transfer (C := toy_ops) (G := ReplayCache) (H := replay_guard example_policy) (fun _ => true) example_message
    example_keys example_cache 1010 30 5) as [r replay1] eqn:E.
  destruct (transfer_checks example_message 1010 30) as [[[hb h] e]|e|]; [|destruct T as [-> _]|destruct T].
  2: apply (f_equal fst) in E; vm_compute in E; discriminate E.
  destruct (rg_reserve (ReplayGuard := replay_guard example_policy) example_cache (hdr_nonce h) 5) as [[f|] replay2]; destruct T as [_ T].
  1: rewrite T in E; apply (f_equal fst) in E; vm_compute in E; destruct f; discriminate E.
  destruct r as [opened| |]; [exists opened, replay1; split; [reflexivity|exact T]| |destruct T].
  apply (f_equal fst) in E; vm_compute in E; discriminate E.
Defined.
