(* ===== verification/Tls13Record.v ===== *)
(** * TLS 1.3 record layer ([src/protocol/reality/tls13/record.rs],
      [EstablishedTls] of [handshake.rs])

    One direction's AEAD state: sealing (three entry points), opening, KeyUpdate,
    the per-key usage limit and the export of a direction at a session handoff. *)

From S2P Require Import Prelude Cursor Tls13Keys HandoffBlob.
#[local] Open Scope Z_scope.

Definition HEADER_LEN : Z := 5.
Definition TAG_LEN : Z := 16.
Definition OUTER_APPLICATION_DATA : byte := x17.
Definition LEGACY_RECORD_VERSION : list byte := [x03; x03].
Definition MAX_PLAINTEXT_LEN : Z := 16384.
Definition MAX_INNER_PLAINTEXT_LEN : Z := MAX_PLAINTEXT_LEN + 1.
Definition MAX_CIPHERTEXT_LEN : Z := MAX_INNER_PLAINTEXT_LEN + TAG_LEN.
Definition AES_GCM_RECORD_LIMIT : Z := 16777216.
Definition CHACHA20_POLY1305_RECORD_LIMIT : Z := 4611686018427387904.

Inductive ContentType := CtChangeCipherSpec | CtAlert | CtHandshake | CtApplicationData.

Definition content_type_wire (t : ContentType) : byte :=
  match t with CtChangeCipherSpec => x14 | CtAlert => x15 | CtHandshake => x16 | CtApplicationData => x17 end.

Definition content_type_from_wire (b : byte) : option ContentType :=
  match b with
  | x14 => Some CtChangeCipherSpec | x15 => Some CtAlert | x16 => Some CtHandshake | x17 => Some CtApplicationData
  | _ => None
  end.

Inductive Tls13RecordError :=
| RInvalidKey | RKeyUpdateUnavailable | RInvalidLength | RInvalidHeader | RAuthenticationFailed | RInvalidContentType
| RKeyUsageExhausted | RWriteFailed | RBufferAllocation.

Inductive TrafficState := TsHandshake | TsApplication (secret : TrafficSecret).

(** The cipher is its key; its suite is the layer's. *)
Record Tls13RecordLayer := {
  rl_key : list byte;
  rl_suite : CipherSuite;
  rl_iv : list byte;
  rl_traffic : TrafficState;
  rl_sequence : Z;
  rl_write_failed : bool;
}.

Definition set_sequence (l : Tls13RecordLayer) (n : Z) : Tls13RecordLayer :=
  {| rl_key := rl_key l; rl_suite := rl_suite l; rl_iv := rl_iv l; rl_traffic := rl_traffic l; rl_sequence := n;
     rl_write_failed := rl_write_failed l |}.

(** [RecordCipher::new]: the backend refuses a key of the wrong length. *)
Definition record_cipher (suite : CipherSuite) (key : list byte) : result Tls13RecordError (list byte) :=
  if len key =? key_len suite then Ok key else Err RInvalidKey.

Definition new_layer (suite : CipherSuite) (keys : TrafficKeys) : result Tls13RecordError Tls13RecordLayer :=
  cipher ← record_cipher suite (keys_key keys);
  Ok {| rl_key := cipher; rl_suite := suite; rl_iv := tk_iv keys; rl_traffic := TsHandshake; rl_sequence := 0;
        rl_write_failed := false |}.

Definition key_usage_limit (l : Tls13RecordLayer) : Z :=
  match rl_suite l with
  | Aes128GcmSha256 | Aes256GcmSha384 => AES_GCM_RECORD_LIMIT
  | ChaCha20Poly1305Sha256 => CHACHA20_POLY1305_RECORD_LIMIT
  end.

Definition needs_key_update (l : Tls13RecordLayer) : bool := key_usage_limit l - 1 <=? rl_sequence l.

Definition fail_write (l : Tls13RecordLayer) : Tls13RecordLayer :=
  {| rl_key := rl_key l; rl_suite := rl_suite l; rl_iv := rl_iv l; rl_traffic := rl_traffic l; rl_sequence := rl_sequence l;
     rl_write_failed := true |}.

Definition ensure_write_ready (l : Tls13RecordLayer) : result Tls13RecordError unit :=
  if rl_write_failed l then Err RWriteFailed else Ok tt.

Definition ensure_key_available (l : Tls13RecordLayer) : result Tls13RecordError unit :=
  _ ← ensure_write_ready l;
  if rl_sequence l <? key_usage_limit l then Ok tt else Err RKeyUsageExhausted.

Definition advance (l : Tls13RecordLayer) : result Tls13RecordError Tls13RecordLayer :=
  n ← ok_or RKeyUsageExhausted (checked_add U64_MAX (rl_sequence l) 1); Ok (set_sequence l n).

Definition byte_xor (a b : byte) : byte := as_u8 (Z.lxor (u8 a) (u8 b)).

(** [iv XOR sequence]: the loop runs over [nonce[4..]]. *)
Definition nonce_at (iv : list byte) (sequence : Z) : list byte :=
  take 4 iv ++ zip_with byte_xor (drop 4 iv) (to_be 8 sequence).
Definition nonce (l : Tls13RecordLayer) : list byte := nonce_at (rl_iv l) (rl_sequence l).

(** [iter().rposition(|b| *b != 0)]. *)
Fixpoint rposition_nonzero (l : list byte) : option nat :=
  match l with
  | [] => None
  | b :: l =>
    match rposition_nonzero l with
    | Some i => Some (S i)
    | None => if u8 b =? 0 then None else Some O
    end
  end.

(** The five header bytes for a ciphertext length. *)
Definition record_header (ciphertext_len : Z) : list byte :=
  [OUTER_APPLICATION_DATA] ++ LEGACY_RECORD_VERSION ++ to_be 2 ciphertext_len.

Section Layer.
Context {C : Tls13Ops}.

Definition from_traffic_secret (suite : CipherSuite) (secret : TrafficSecret) : result Tls13RecordError Tls13RecordLayer :=
  keys ← map_err (fun _ => RInvalidKey) (derive_traffic_keys suite secret);
  cipher ← record_cipher suite (keys_key keys);
  Ok {| rl_key := cipher; rl_suite := suite; rl_iv := tk_iv keys; rl_traffic := TsApplication secret; rl_sequence := 0;
        rl_write_failed := false |}.

(** On an error the layer is unchanged. *)
Definition update_traffic_secret (l : Tls13RecordLayer) : result Tls13RecordError Tls13RecordLayer :=
  _ ← ensure_write_ready l;
  current ← (match rl_traffic l with TsApplication secret => Ok secret | TsHandshake => Err RKeyUpdateUnavailable end);
  next_secret ← map_err (fun _ => RInvalidKey) (updated current);
  next_keys ← map_err (fun _ => RInvalidKey) (derive_traffic_keys (rl_suite l) next_secret);
  cipher ← record_cipher (rl_suite l) (keys_key next_keys);
  Ok {| rl_key := cipher; rl_suite := rl_suite l; rl_iv := tk_iv next_keys; rl_traffic := TsApplication next_secret;
        rl_sequence := 0; rl_write_failed := rl_write_failed l |}.

Definition into_exported_state (l : Tls13RecordLayer) : result Tls13RecordError ExportedRecordState :=
  _ ← ensure_write_ready l;
  secret ← (match rl_traffic l with TsApplication secret => Ok secret | TsHandshake => Err RKeyUpdateUnavailable end);
  Ok {| er_suite := rl_suite l; er_secret := secret; er_sequence := rl_sequence l |}.

Definition from_exported_state (s : ExportedRecordState) : result Tls13RecordError Tls13RecordLayer :=
  layer ← from_traffic_secret (er_suite s) (er_secret s);
  let layer := set_sequence layer (er_sequence s) in
  _ ← ensure_key_available layer;
  Ok layer.

Record EstablishedTls := { tls_suite : CipherSuite; client_records : Tls13RecordLayer; server_records : Tls13RecordLayer }.

Definition established_from_exported (s : ExportedTlsState) : result Tls13RecordError EstablishedTls :=
  guard! negb (bool_decide (er_suite (et_client s) = er_suite (et_server s))) else RInvalidKey;
  client ← from_exported_state (et_client s);
  server ← from_exported_state (et_server s);
  Ok {| tls_suite := er_suite (et_client s); client_records := client; server_records := server |}.

(** ** Sealing

    Each returns the sealed record and the layer, which moves only on success. *)

Definition seal_into (alloc : Z -> bool) (l : Tls13RecordLayer) (content_type : ContentType) (plaintext : list byte)
    (padding_len : Z) : result Tls13RecordError (list byte * Tls13RecordLayer) :=
  _ ← ensure_key_available l;
  guard! MAX_PLAINTEXT_LEN <? len plaintext else RInvalidLength;
  inner_len ← ok_or RInvalidLength
    (n ← checked_add USIZE_MAX (len plaintext) 1; n ← checked_add USIZE_MAX n padding_len;
     if n <=? MAX_INNER_PLAINTEXT_LEN then Some n else None);
  ciphertext_len ← ok_or RInvalidLength (checked_add USIZE_MAX inner_len TAG_LEN);
  ciphertext_len ← ok_or RInvalidLength (try_from U16_MAX ciphertext_len);
  let header := record_header ciphertext_len in
  guard! negb (alloc (HEADER_LEN + ciphertext_len)) else RBufferAllocation;
  let output := header ++ plaintext ++ [content_type_wire content_type] in
  let output := output ++ replicate (Z.to_nat (HEADER_LEN + inner_len - len output)) x00 in
  encrypted ← ok_or RInvalidLength (get_range output HEADER_LEN (len output));
  '(body, tag) ← ok_or RAuthenticationFailed (record_seal (rl_suite l) (rl_key l) (nonce l) header encrypted);
  l ← advance l;
  Ok (header ++ body ++ tag, l).

(** [assemble] fills the region it is given; a slice keeps its length. *)
Definition seal_assembled (alloc : Z -> bool) (l : Tls13RecordLayer) (content_type : ContentType) (plaintext_len padding_len : Z)
    (assemble : list byte -> list byte) : result Tls13RecordError (list byte * Tls13RecordLayer) :=
  _ ← ensure_key_available l;
  guard! MAX_PLAINTEXT_LEN <? plaintext_len else RInvalidLength;
  inner_len ← ok_or RInvalidLength
    (n ← checked_add USIZE_MAX plaintext_len 1; n ← checked_add USIZE_MAX n padding_len;
     if n <=? MAX_INNER_PLAINTEXT_LEN then Some n else None);
  ciphertext_len ← ok_or RInvalidLength (checked_add USIZE_MAX inner_len TAG_LEN);
  ciphertext_len ← ok_or RInvalidLength (try_from U16_MAX ciphertext_len);
  let header := record_header ciphertext_len in
  guard! negb (alloc (HEADER_LEN + ciphertext_len)) else RBufferAllocation;
  let output := header ++ replicate (Z.to_nat inner_len) x00 in
  plaintext_end ← ok_or RInvalidLength (checked_add USIZE_MAX HEADER_LEN plaintext_len);
  region ← ok_or RInvalidLength (get_range output HEADER_LEN plaintext_end);
  '(_, output) ← store HEADER_LEN (assemble region) output;
  guard! negb (plaintext_end <? len output) else RInvalidLength;
  '(_, output) ← store plaintext_end [content_type_wire content_type] output;
  encrypted ← ok_or RInvalidLength (get_range output HEADER_LEN (len output));
  '(body, tag) ← ok_or RAuthenticationFailed (record_seal (rl_suite l) (rl_key l) (nonce l) header encrypted);
  l ← advance l;
  Ok (header ++ body ++ tag, l).

(** The record's length, and the slot after the in-place seal. *)
Definition seal_filled (l : Tls13RecordLayer) (content_type : ContentType) (plaintext_len : Z) (output : list byte)
    : result Tls13RecordError (Z * list byte * Tls13RecordLayer) :=
  _ ← ensure_key_available l;
  guard! MAX_PLAINTEXT_LEN <? plaintext_len else RInvalidLength;
  inner_len ← ok_or RInvalidLength
    (n ← checked_add USIZE_MAX plaintext_len 1; if n <=? MAX_INNER_PLAINTEXT_LEN then Some n else None);
  ciphertext_len ← ok_or RInvalidLength (checked_add USIZE_MAX inner_len TAG_LEN);
  ciphertext_len ← ok_or RInvalidLength (try_from U16_MAX ciphertext_len);
  let header := record_header ciphertext_len in
  plaintext_end ← ok_or RInvalidLength (checked_add USIZE_MAX HEADER_LEN plaintext_len);
  tag_end ← ok_or RInvalidLength (n ← checked_add USIZE_MAX plaintext_end 1; checked_add USIZE_MAX n TAG_LEN);
  guard! len output <? tag_end else RInvalidLength;
  '(_, output) ← store 0 header output;
  '(_, output) ← store plaintext_end [content_type_wire content_type] output;
  encrypted ← ok_or RInvalidLength (get_range output HEADER_LEN (plaintext_end + 1));
  '(body, tag) ← ok_or RAuthenticationFailed (record_seal (rl_suite l) (rl_key l) (nonce l) header encrypted);
  '(_, output) ← store HEADER_LEN body output;
  '(_, output) ← store (plaintext_end + 1) tag output;
  l ← advance l;
  Ok (tag_end, output, l).

(** ** Opening

    The layer moves as soon as the tag verified, whatever the content type. *)

Definition open_checked (l : Tls13RecordLayer) (record : list byte) : result Tls13RecordError (list byte) :=
  _ ← ensure_key_available l;
  header ← ok_or RInvalidLength (get_range record 0 HEADER_LEN);
  t ← index header 0;
  v ← slice header 1 3;
  guard! negb (bool_decide (t = OUTER_APPLICATION_DATA)) || negb (bytes_eqb v LEGACY_RECORD_VERSION) else RInvalidHeader;
  n ← slice header 3 5;
  let ciphertext_len := from_be n in
  expected_len ← ok_or RInvalidLength (checked_add USIZE_MAX HEADER_LEN ciphertext_len);
  guard! negb (len record =? expected_len) ||
         negb ((TAG_LEN + 1 <=? ciphertext_len) && (ciphertext_len <=? MAX_CIPHERTEXT_LEN)) else RInvalidLength;
  body ← ok_or RInvalidLength (get_range record HEADER_LEN expected_len);
  guard! len body <? TAG_LEN else RInvalidLength;
  ciphertext ← slice body 0 (len body - TAG_LEN);
  tag ← slice_from body (len body - TAG_LEN);
  ok_or RAuthenticationFailed (record_open (rl_suite l) (rl_key l) (nonce l) header ciphertext tag).

Definition strip_content (region : list byte) : result Tls13RecordError (ContentType * list byte) :=
  offset ← ok_or RInvalidContentType (rposition_nonzero region);
  b ← index region (Z.of_nat offset);
  content_type ← ok_or RInvalidContentType (content_type_from_wire b);
  plaintext ← ok_or RInvalidLength (get_range region 0 (Z.of_nat offset));
  Ok (content_type, plaintext).

Definition open_in_place (l : Tls13RecordLayer) (record : list byte)
    : result Tls13RecordError (ContentType * list byte) * Tls13RecordLayer :=
  match open_checked l record with
  | Err e => (Err e, l)
  | Panic => (Panic, l)
  | Ok region =>
    match advance l with
    | Err e => (Err e, l)
    | Panic => (Panic, l)
    | Ok l => (strip_content region, l)
    end
  end.
End Layer.

(** ** Reference seal

    Plaintext, content type and zero padding sealed under the current nonce. *)

Definition inner_plaintext (t : ContentType) (plaintext : list byte) (padding_len : Z) : list byte :=
  plaintext ++ [content_type_wire t] ++ replicate (Z.to_nat padding_len) x00.

Section Reference.
Context {C : Tls13Ops}.

Definition reference_seal (l : Tls13RecordLayer) (t : ContentType) (plaintext : list byte) (padding_len : Z)
    : result Tls13RecordError (list byte * Tls13RecordLayer) :=
  let inner := inner_plaintext t plaintext padding_len in
  let header := record_header (len inner + TAG_LEN) in
  '(body, tag) ← ok_or RAuthenticationFailed (record_seal (rl_suite l) (rl_key l) (nonce l) header inner);
  l ← advance l;
  Ok (header ++ body ++ tag, l).

(** The record fits the TLS bounds. *)
Definition record_fits (plaintext_len padding_len : Z) : bool :=
  (plaintext_len <=? MAX_PLAINTEXT_LEN) && (plaintext_len + 1 + padding_len <=? MAX_INNER_PLAINTEXT_LEN).

Definition guarded_seal (alloc : Z -> bool) (l : Tls13RecordLayer) (t : ContentType) (plaintext : list byte) (padding_len : Z)
    : result Tls13RecordError (list byte * Tls13RecordLayer) :=
  _ ← ensure_key_available l;
  guard! negb (record_fits (len plaintext) padding_len) else RInvalidLength;
  guard! negb (alloc (HEADER_LEN + (len plaintext + 1 + padding_len + TAG_LEN))) else RBufferAllocation;
  reference_seal l t plaintext padding_len.

Ltac record_bounds := unfold MAX_CIPHERTEXT_LEN, MAX_INNER_PLAINTEXT_LEN, MAX_PLAINTEXT_LEN, TAG_LEN, HEADER_LEN, USIZE_MAX, U64_MAX, U16_MAX in *.

Lemma len_inner t pt pad : 0 <= pad -> len (inner_plaintext t pt pad) = len pt + 1 + pad.
Proof. intros. unfold inner_plaintext. slen. Qed.

Lemma len_record_header n : len (record_header n) = HEADER_LEN.
Proof. unfold record_header, LEGACY_RECORD_VERSION, HEADER_LEN. slen. Qed.

(** The length computations shared by the three entry points. *)
Lemma seal_lengths {B} n pad (k : Z -> Z -> result Tls13RecordError B) :
  0 <= n -> 0 <= pad ->
  (guard! MAX_PLAINTEXT_LEN <? n else RInvalidLength;
   inner_len ← ok_or RInvalidLength
     (x ← checked_add USIZE_MAX n 1; x ← checked_add USIZE_MAX x pad; if x <=? MAX_INNER_PLAINTEXT_LEN then Some x else None);
   ciphertext_len ← ok_or RInvalidLength (checked_add USIZE_MAX inner_len TAG_LEN);
   ciphertext_len ← ok_or RInvalidLength (try_from U16_MAX ciphertext_len);
   k inner_len ciphertext_len) =
  (guard! negb (record_fits n pad) else RInvalidLength; k (n + 1 + pad) (n + 1 + pad + TAG_LEN)).
Proof.
  intros Hn Hp. unfold record_fits, checked_add, try_from.
  destruct (Z.leb_spec n MAX_PLAINTEXT_LEN) as [Hm|Hm]; [rewrite (proj2 (Z.ltb_ge _ _)) by done|by rewrite (proj2 (Z.ltb_lt _ _))].
  rewrite !(guard_pass false) by done. record_bounds.
  rewrite (proj2 (Z.leb_le (n + 1) _)) by lia. cbn [mbind option_bind andb].
  destruct (Z.leb_spec (n + 1 + pad) 18446744073709551615).
  - cbn [mbind option_bind]. destruct (Z.leb_spec (n + 1 + pad) (16384 + 1)); [|done]. cbn [ok_or negb mbind result_bind].
    rewrite (proj2 (Z.leb_le (n + 1 + pad + 16) _)) by lia. cbn [ok_or mbind result_bind].
    by rewrite (proj2 (Z.leb_le 0 _)), (proj2 (Z.leb_le (n + 1 + pad + 16) _)) by lia.
  - cbn [mbind option_bind]. rewrite (proj2 (Z.leb_gt _ (16384 + 1))) by lia. done.
Qed.

Lemma result_bind_ext {A B} (m : result Tls13RecordError A) (f g : A -> result Tls13RecordError B) :
  (forall a, m = Ok a -> f a = g a) -> (x ← m; f x) = (x ← m; g x).
Proof. destruct m; cbn; auto. Qed.

Lemma bind_assoc_r {A B D} (m : result Tls13RecordError A) (f : A -> result Tls13RecordError B) (g : B -> result Tls13RecordError D) :
  (x ← m; y ← f x; g y) = (y ← (x ← m; f x); g y).
Proof. by destruct m. Qed.

Lemma seal_into_guarded alloc l t pt pad :
  0 <= pad -> seal_into alloc l t pt pad = guarded_seal alloc l t pt pad.
Proof.
  intros Hp. unfold seal_into, guarded_seal. apply result_bind_ext. intros _ _. pose proof (len_nonneg pt).
  rewrite (seal_lengths (len pt) pad (fun inner_len ciphertext_len =>
    let header := record_header ciphertext_len in
    guard! negb (alloc (HEADER_LEN + ciphertext_len)) else RBufferAllocation;
    let output := header ++ pt ++ [content_type_wire t] in
    let output := output ++ replicate (Z.to_nat (HEADER_LEN + inner_len - len output)) x00 in
    encrypted ← ok_or RInvalidLength (get_range output HEADER_LEN (len output));
    '(body, tag) ← ok_or RAuthenticationFailed (record_seal (rl_suite l) (rl_key l) (nonce l) header encrypted);
    l ← advance l;
    Ok (header ++ body ++ tag, l))) by done.
  apply result_bind_ext. intros u Hfit. cbn zeta. apply result_bind_ext. intros _ _. unfold reference_seal. cbn zeta.
  rewrite len_inner by done. set (header := record_header _).
  assert (Hh : len header = HEADER_LEN) by apply len_record_header.
  replace (Z.to_nat (HEADER_LEN + (len pt + 1 + pad) - len (header ++ pt ++ [content_type_wire t]))) with (Z.to_nat pad)
    by (f_equal; slen).
  replace ((header ++ pt ++ [content_type_wire t]) ++ replicate (Z.to_nat pad) x00) with (header ++ inner_plaintext t pt pad)
    by (unfold inner_plaintext; by rewrite <- !app_assoc).
  rewrite (bind_step _ (inner_plaintext t pt pad)); [done|]. apply ok_or_ok. rewrite get_range_app_r by lia.
  rewrite Hh, Z.sub_diag. apply get_range_all. slen.
Qed.

Lemma seal_assembled_guarded alloc l t pt pad assemble :
  0 <= pad -> assemble (replicate (length pt) x00) = pt ->
  seal_assembled alloc l t (len pt) pad assemble = guarded_seal alloc l t pt pad.
Proof.
  intros Hp Ha. unfold seal_assembled, guarded_seal. apply result_bind_ext. intros _ _. pose proof (len_nonneg pt).
  rewrite (seal_lengths (len pt) pad (fun inner_len ciphertext_len =>
    let header := record_header ciphertext_len in
    guard! negb (alloc (HEADER_LEN + ciphertext_len)) else RBufferAllocation;
    let output := header ++ replicate (Z.to_nat inner_len) x00 in
    plaintext_end ← ok_or RInvalidLength (checked_add USIZE_MAX HEADER_LEN (len pt));
    region ← ok_or RInvalidLength (get_range output HEADER_LEN plaintext_end);
    '(_, output) ← store HEADER_LEN (assemble region) output;
    guard! negb (plaintext_end <? len output) else RInvalidLength;
    '(_, output) ← store plaintext_end [content_type_wire t] output;
    encrypted ← ok_or RInvalidLength (get_range output HEADER_LEN (len output));
    '(body, tag) ← ok_or RAuthenticationFailed (record_seal (rl_suite l) (rl_key l) (nonce l) header encrypted);
    l ← advance l;
    Ok (header ++ body ++ tag, l))) by done.
  apply result_bind_ext. intros u Hfit%reject_ok%negb_false_iff%andb_true_iff. destruct Hfit as [Hf1%Z.leb_le Hf2%Z.leb_le].
  cbn zeta. apply result_bind_ext. intros _ _. unfold reference_seal. cbn zeta. rewrite len_inner by done. set (header := record_header _).
  assert (Hh : len header = HEADER_LEN) by apply len_record_header.
  replace (replicate (Z.to_nat (len pt + 1 + pad)) x00) with (replicate (length pt) x00 ++ [x00] ++ replicate (Z.to_nat pad) x00).
  2: { change [x00] with (replicate 1 x00). rewrite <- !replicate_add. f_equal. unfold len. lia. }
  rewrite (bind_step _ (HEADER_LEN + len pt)) by (apply ok_or_ok, checked_add_some; record_bounds; split; [done|lia]).
  rewrite (bind_step _ (replicate (length pt) x00)).
  2: { apply ok_or_ok. rewrite get_range_app_r by lia. rewrite Hh, Z.sub_diag. apply get_range_prefix. unfold len. rewrite length_replicate. unfold len. lia. }
  rewrite Ha. rewrite (bind_step _ _ _ (store_over HEADER_LEN pt header (replicate (length pt) x00) _ (eq_sym Hh) (len_replicate _ _))).
  rewrite guard_pass by (apply negb_false_iff, Z.ltb_lt; slen).
  rewrite (bind_step _ (tt, header ++ pt ++ [content_type_wire t] ++ replicate (Z.to_nat pad) x00)).
  2: { rewrite !(app_assoc header pt). apply store_over; [slen|done]. }
  rewrite (bind_step _ (inner_plaintext t pt pad)); [done|]. apply ok_or_ok. rewrite get_range_app_r by lia.
  rewrite Hh, Z.sub_diag. unfold inner_plaintext. apply get_range_all. slen.
Qed.

(** The slot before the seal: a header region, the plaintext, and room for the
    content type and tag. *)
Lemma seal_filled_guarded {L : Tls13Laws C} l t h0 pt room rest :
  len h0 = HEADER_LEN -> len room = 1 + TAG_LEN ->
  seal_filled l t (len pt) (h0 ++ pt ++ room ++ rest) =
    ('(record, l) ← guarded_seal (fun _ => true) l t pt 0; Ok (len record, record ++ rest, l)).
Proof.
  intros Hh0 Hroom. pose proof (len_nonneg pt).
  assert (Hadd : (n ← checked_add USIZE_MAX (len pt) 1; if n <=? MAX_INNER_PLAINTEXT_LEN then Some n else None) =
    (x ← checked_add USIZE_MAX (len pt) 1; x ← checked_add USIZE_MAX x 0; if x <=? MAX_INNER_PLAINTEXT_LEN then Some x else None)).
  { destruct (checked_add USIZE_MAX (len pt) 1) as [x|] eqn:E; [|done]. apply checked_add_some in E as [-> Hx]. cbn [mbind option_bind].
    rewrite (proj2 (checked_add_some USIZE_MAX (len pt + 1) 0 (len pt + 1))) by (split; lia). done. }
  unfold seal_filled, guarded_seal. rewrite Hadd. set (out := h0 ++ pt ++ room ++ rest).
  rewrite <- bind_assoc_r. apply result_bind_ext. intros _ _.
  rewrite (seal_lengths (len pt) 0 (fun inner_len ciphertext_len =>
    let header := record_header ciphertext_len in
    plaintext_end ← ok_or RInvalidLength (checked_add USIZE_MAX HEADER_LEN (len pt));
    tag_end ← ok_or RInvalidLength (n ← checked_add USIZE_MAX plaintext_end 1; checked_add USIZE_MAX n TAG_LEN);
    guard! len out <? tag_end else RInvalidLength;
    '(_, output) ← store 0 header out;
    '(_, output) ← store plaintext_end [content_type_wire t] output;
    encrypted ← ok_or RInvalidLength (get_range output HEADER_LEN (plaintext_end + 1));
    '(body, tag) ← ok_or RAuthenticationFailed (record_seal (rl_suite l) (rl_key l) (nonce l) header encrypted);
    '(_, output) ← store HEADER_LEN body output;
    '(_, output) ← store (plaintext_end + 1) tag output;
    l ← advance l;
    Ok (tag_end, output, l))) by done.
  rewrite <- bind_assoc_r. apply result_bind_ext. intros u Hfit%reject_ok%negb_false_iff%andb_true_iff.
  destruct Hfit as [Hf1%Z.leb_le Hf2%Z.leb_le]. cbn zeta. rewrite (guard_pass (negb true)) by done.
  set (header := record_header _). assert (Hh : len header = HEADER_LEN) by apply len_record_header.
  destruct room as [|r0 room]; [rewrite len_nil in Hroom; unfold TAG_LEN in Hroom; lia|]. rewrite len_cons in Hroom.
  assert (Hbig : len pt + 1 + 16 <= USIZE_MAX - 5) by (record_bounds; lia).
  rewrite (bind_step _ (HEADER_LEN + len pt)) by (apply ok_or_ok, checked_add_some; record_bounds; split; [done|lia]).
  rewrite (bind_step _ (HEADER_LEN + len pt + 1 + TAG_LEN)).
  2: { apply ok_or_ok. rewrite (proj2 (checked_add_some _ (HEADER_LEN + len pt) 1 (HEADER_LEN + len pt + 1))) by (record_bounds; split; [done|lia]).
       cbn [mbind option_bind]. apply checked_add_some. record_bounds. split; [done|lia]. }
  rewrite guard_pass by (apply Z.ltb_ge; unfold out; rewrite !len_app, len_cons; pose proof (len_nonneg rest); lia).
  rewrite (bind_step _ (tt, header ++ pt ++ (r0 :: room) ++ rest)) by (apply (store_over 0 header []); [done|lia]).
  rewrite (bind_step _ (tt, (header ++ pt) ++ [content_type_wire t] ++ room ++ rest)).
  2: { change ((r0 :: room) ++ rest) with ([r0] ++ (room ++ rest)). rewrite app_assoc. apply store_over; [rewrite len_app; lia|done]. }
  unfold reference_seal. cbn zeta. rewrite len_inner by lia. fold header. change (inner_plaintext t pt 0) with (pt ++ [content_type_wire t] ++ []).
  rewrite app_nil_r. rewrite (bind_step _ (pt ++ [content_type_wire t])).
  2: { apply ok_or_ok. rewrite <- app_assoc, get_range_app_r by lia. rewrite Hh, Z.sub_diag, app_assoc. apply get_range_prefix. rewrite len_app, len_cons, len_nil. lia. }
  destruct (record_seal _ _ _ _ _) as [[body tag]|] eqn:Hs; [|done]. destruct (record_seal_len _ _ _ _ _ _ _ Hs) as [Hb Ht].
  rewrite len_app, len_cons, len_nil in Hb. cbn [ok_or mbind result_bind].
  replace ((header ++ pt) ++ [content_type_wire t] ++ room ++ rest) with (header ++ (pt ++ [content_type_wire t]) ++ room ++ rest)
    by (by rewrite <- !app_assoc).
  rewrite (store_over HEADER_LEN body header (pt ++ [content_type_wire t]) (room ++ rest)) by (rewrite ?len_app, ?len_cons, ?len_nil; lia).
  cbn [mbind result_bind].
  rewrite (app_assoc header). rewrite (store_over (HEADER_LEN + len pt + 1) tag (header ++ body) room rest) by (rewrite ?len_app; unfold TAG_LEN in *; lia).
  cbn [mbind result_bind]. destruct (advance l); [|done..]. cbn [mbind result_bind].
  rewrite !len_app. do 3 f_equal; [unfold TAG_LEN; lia|by rewrite <- !app_assoc].
Qed.
End Reference.

(** The in-place seals are the reference seal. Sealing from a caller's
    plaintext, sealing plaintext assembled directly in the record, and sealing a
    slot that a socket read already filled are the same function: on the same
    plaintext and padding they refuse with the same error or produce the same
    record (plaintext, authenticated content type, zero padding under the
    current nonce) and the same next state, and the in-place seal touches
    nothing of the buffer beyond its record. *)
Theorem seal_paths_agree {C : Tls13Ops} {L : Tls13Laws C} (alloc : Z -> bool) (l : Tls13RecordLayer) (t : ContentType)
    (plaintext h0 room rest : list byte) (padding_len : Z) (assemble : list byte -> list byte) :
  0 <= padding_len -> assemble (replicate (length plaintext) x00) = plaintext ->
  len h0 = HEADER_LEN -> len room = 1 + TAG_LEN ->
  seal_into alloc l t plaintext padding_len = guarded_seal alloc l t plaintext padding_len /\
  seal_assembled alloc l t (len plaintext) padding_len assemble = seal_into alloc l t plaintext padding_len /\
  seal_filled l t (len plaintext) (h0 ++ plaintext ++ room ++ rest) =
    ('(record, l) ← seal_into (fun _ => true) l t plaintext 0; Ok (len record, record ++ rest, l)).
Proof.
  intros Hp Ha Hh Hr. rewrite seal_assembled_guarded, !seal_into_guarded, seal_filled_guarded by done. done.
Qed.

(** ** Well-formed layers *)

Section LayerWf.
Context {C : Tls13Ops} {L : Tls13Laws C}.

(** Application layers carry the keys of their own secret. *)
Definition layer_wf (l : Tls13RecordLayer) : Prop :=
  len (rl_key l) = key_len (rl_suite l) /\ len (rl_iv l) = 12 /\ 0 <= rl_sequence l <= key_usage_limit l /\
  match rl_traffic l with
  | TsHandshake => True
  | TsApplication s => hb_wf s /\ hb_algorithm s = suite_hash (rl_suite l) /\
      exists k, derive_traffic_keys (rl_suite l) s = Ok k /\ rl_key l = keys_key k /\ rl_iv l = tk_iv k
  end.

Lemma key_usage_limit_bounds l : 1 <= key_usage_limit l <= CHACHA20_POLY1305_RECORD_LIMIT.
Proof. unfold key_usage_limit, AES_GCM_RECORD_LIMIT, CHACHA20_POLY1305_RECORD_LIMIT. destruct (rl_suite l); lia. Qed.

Lemma advance_live l : layer_wf l -> advance l = Ok (set_sequence l (rl_sequence l + 1)).
Proof.
  intros (_ & _ & Hs & _). pose proof (key_usage_limit_bounds l). unfold advance.
  by rewrite (proj2 (checked_add_some U64_MAX (rl_sequence l) 1 (rl_sequence l + 1)))
    by (unfold CHACHA20_POLY1305_RECORD_LIMIT, U64_MAX in *; split; [done|lia]).
Qed.

Lemma set_sequence_wf l n : layer_wf l -> 0 <= n <= key_usage_limit l -> layer_wf (set_sequence l n).
Proof. intros (Hk & Hi & _ & Ht) Hn. exact (conj Hk (conj Hi (conj Hn Ht))). Qed.

Lemma ensure_key_available_ok l u :
  ensure_key_available l = Ok u <-> rl_write_failed l = false /\ rl_sequence l < key_usage_limit l.
Proof.
  unfold ensure_key_available, ensure_write_ready. destruct (rl_write_failed l), u; cbn; [naive_solver|].
  destruct (Z.ltb_spec (rl_sequence l) (key_usage_limit l)); naive_solver lia.
Qed.

Lemma from_traffic_secret_total suite s :
  hb_wf s -> hb_algorithm s = suite_hash suite ->
  exists l, from_traffic_secret suite s = Ok l /\ layer_wf l /\ rl_suite l = suite /\ rl_traffic l = TsApplication s /\
    rl_sequence l = 0 /\ rl_write_failed l = false.
Proof.
  intros Hs Hh. unfold from_traffic_secret. destruct (derive_traffic_keys_total suite s Hs Hh) as (k & Hk & Hkk & Hiv).
  rewrite Hk. cbn [map_err mbind result_bind]. unfold record_cipher. rewrite Hkk, Z.eqb_refl. cbn [mbind result_bind].
  eexists. split; [done|]. split; [|by split_and!]. refine (conj Hkk (conj Hiv (conj _ (conj Hs (conj Hh _))))); [|by exists k].
  unfold key_usage_limit; cbn. destruct suite; vm_compute; split; congruence.
Qed.

Lemma update_total l s :
  layer_wf l -> rl_write_failed l = false -> rl_traffic l = TsApplication s ->
  exists l', update_traffic_secret l = Ok l' /\ layer_wf l' /\ rl_sequence l' = 0 /\ rl_suite l' = rl_suite l /\
    rl_write_failed l' = false /\ exists s', rl_traffic l' = TsApplication s' /\ updated s = Ok s'.
Proof.
  intros (Hk & Hi & Hseq & Ht) Hw Hs. rewrite Hs in Ht. destruct Ht as (Hsw & Hsh & _).
  unfold update_traffic_secret, ensure_write_ready. rewrite Hw, Hs. cbn [mbind result_bind].
  destruct (updated_total s Hsw) as (s' & Hu & Hs'w & Hs'h). rewrite Hu. cbn [map_err mbind result_bind].
  destruct (derive_traffic_keys_total (rl_suite l) s' Hs'w ltac:(congruence)) as (k & Hd & Hkk & Hiv). rewrite Hd.
  cbn [map_err mbind result_bind]. unfold record_cipher. rewrite Hkk, Z.eqb_refl. cbn [mbind result_bind].
  eexists. split; [done|]. split; [|split_and!; try done; by exists s'].
  refine (conj Hkk (conj Hiv (conj _ (conj Hs'w (conj _ _))))); [|cbn; congruence|by exists k].
  unfold key_usage_limit; cbn. destruct (rl_suite l); vm_compute; split; congruence.
Qed.

Lemma update_inv l l' :
  layer_wf l -> update_traffic_secret l = Ok l' -> layer_wf l' /\ rl_sequence l' = 0 /\ rl_suite l' = rl_suite l.
Proof.
  intros Hwf H. assert (Hw : rl_write_failed l = false).
  { unfold update_traffic_secret, ensure_write_ready in H. by destruct (rl_write_failed l). }
  destruct (rl_traffic l) as [|s] eqn:Ht.
  { unfold update_traffic_secret, ensure_write_ready in H. by rewrite Hw, Ht in H. }
  destruct (update_total l s Hwf Hw Ht) as (l2 & H2 & ? & ? & ? & _). rewrite H in H2. by injection H2 as <-.
Qed.

(** ** Sealing then opening *)

Lemma len_nonce l : layer_wf l -> len (nonce l) = 12.
Proof.
  intros (_ & Hi & _). unfold nonce, nonce_at, len in *. rewrite length_app, length_take, length_zip_with, length_drop, length_to_be. lia.
Qed.

Lemma content_type_roundtrip t : content_type_from_wire (content_type_wire t) = Some t.
Proof. by destruct t. Qed.

Lemma rposition_zeros n : rposition_nonzero (replicate n x00) = None.
Proof. induction n as [|n IH]; [done|]. cbn. by rewrite IH. Qed.

Lemma rposition_last pt b n : u8 b <> 0 -> rposition_nonzero (pt ++ [b] ++ replicate n x00) = Some (length pt).
Proof.
  intros Hb. induction pt as [|x pt IH]; cbn [app rposition_nonzero length].
  - rewrite rposition_zeros. by rewrite (proj2 (Z.eqb_neq _ _)).
  - change (pt ++ b :: replicate n x00) with (pt ++ [b] ++ replicate n x00). by rewrite IH.
Qed.

Lemma strip_content_inner t pt pad : strip_content (inner_plaintext t pt pad) = Ok (t, pt).
Proof.
  unfold strip_content, inner_plaintext. rewrite rposition_last by (by destruct t). cbn [ok_or mbind result_bind].
  rewrite index_app_r by (unfold len; lia). change (Z.of_nat (length pt)) with (len pt). rewrite Z.sub_diag. cbn [app index_cons_0].
  rewrite index_cons_0. cbn [mbind result_bind]. rewrite content_type_roundtrip. cbn [ok_or mbind result_bind].
  rewrite get_range_prefix by done. done.
Qed.

(** What a successful seal made. *)
Lemma guarded_seal_ok alloc l t pt pad record l' :
  layer_wf l -> 0 <= pad -> guarded_seal alloc l t pt pad = Ok (record, l') ->
  rl_write_failed l = false /\ rl_sequence l < key_usage_limit l /\ record_fits (len pt) pad = true /\
  l' = set_sequence l (rl_sequence l + 1) /\
  exists body tag, record_seal (rl_suite l) (rl_key l) (nonce l) (record_header (len pt + 1 + pad + TAG_LEN)) (inner_plaintext t pt pad) = Some (body, tag) /\
    record = record_header (len pt + 1 + pad + TAG_LEN) ++ body ++ tag.
Proof.
  intros Hwf Hp. unfold guarded_seal. intros H. apply bind_ok in H as (u & [Hw Hlt]%ensure_key_available_ok & H).
  apply bind_ok in H as (_ & Hfit%reject_ok%negb_false_iff & H). apply bind_ok in H as (_ & _ & H).
  unfold reference_seal in H. rewrite len_inner in H by done. apply bind_ok in H as ([body tag] & Hseal%ok_or_ok & H).
  rewrite advance_live in H by done. injection H as <- <-. split_and!; try done. exists body, tag. done.
Qed.

Lemma open_sealed alloc l t pt pad record l' :
  layer_wf l -> 0 <= pad -> guarded_seal alloc l t pt pad = Ok (record, l') -> open_in_place l record = (Ok (t, pt), l').
Proof.
  intros Hwf Hp H. apply guarded_seal_ok in H as (Hw & Hlt & Hfit & -> & body & tag & Hseal & ->); try done.
  apply andb_true_iff in Hfit as [Hf1%Z.leb_le Hf2%Z.leb_le]. pose proof (len_nonneg pt).
  destruct (record_seal_len _ _ _ _ _ _ _ Hseal) as [Hb Ht]. rewrite len_inner in Hb by done.
  set (n := len pt + 1 + pad + TAG_LEN) in *.
  assert (Hn : 17 <= n <= MAX_CIPHERTEXT_LEN)
    by (unfold n, MAX_CIPHERTEXT_LEN, MAX_INNER_PLAINTEXT_LEN, TAG_LEN in *; lia).
  unfold open_in_place, open_checked. rewrite (bind_step _ tt) by (by apply ensure_key_available_ok).
  set (header := record_header n). assert (Hh : len header = HEADER_LEN) by apply len_record_header.
  rewrite (bind_step _ header) by (apply ok_or_ok, get_range_prefix; done).
  rewrite (bind_step _ OUTER_APPLICATION_DATA) by done. rewrite (bind_step _ LEGACY_RECORD_VERSION) by done.
  rewrite guard_pass by (by rewrite bool_decide_true, bytes_eqb_refl).
  rewrite (bind_step _ (to_be 2 n)) by done.
  rewrite from_be_u16 by (unfold u16_range, U16_MAX, MAX_CIPHERTEXT_LEN, MAX_INNER_PLAINTEXT_LEN, MAX_PLAINTEXT_LEN, TAG_LEN in *; lia).
  unfold MAX_CIPHERTEXT_LEN, MAX_INNER_PLAINTEXT_LEN, MAX_PLAINTEXT_LEN, HEADER_LEN, TAG_LEN in *.
  rewrite (bind_step _ (5 + n)) by (apply ok_or_ok, checked_add_some; unfold USIZE_MAX, U64_MAX; split; [done|lia]).
  rewrite guard_pass.
  2: { apply orb_false_iff. rewrite !negb_false_iff, andb_true_iff, Z.eqb_eq, !Z.leb_le. rewrite !len_app. unfold n. lia. }
  rewrite (bind_step _ (body ++ tag)).
  2: { apply ok_or_ok. rewrite get_range_app_r by lia. rewrite Hh, Z.sub_diag. apply get_range_all. rewrite len_app. unfold n. lia. }
  rewrite guard_pass by (apply Z.ltb_ge; rewrite len_app; lia).
  replace (len (body ++ tag) - 16) with (len body) by (rewrite len_app; lia).
  rewrite (bind_step _ body) by (apply slice_ok, get_range_prefix; done). rewrite (bind_step _ tag) by (by apply slice_from_app).
  rewrite (record_open_seal _ _ _ header _ _ _ Hseal). cbn [ok_or]. rewrite advance_live by done. by rewrite strip_content_inner.
Qed.
End LayerWf.

(** ** Record streams

    One direction's history: records, KeyUpdates, and the interruption of a
    write. *)

Inductive RecordOp := OpSeal (t : ContentType) (plaintext : list byte) (padding_len : Z) | OpUpdate.
Inductive WireItem := WRecord (record : list byte) | WUpdate.

Definition op_wf (o : RecordOp) : Prop := match o with OpSeal _ _ pad => 0 <= pad | OpUpdate => True end.

Section Streams.
Context {C : Tls13Ops}.

(** The sender seals in order and stops at the first error. *)
Fixpoint seal_run (alloc : Z -> bool) (l : Tls13RecordLayer) (ops : list RecordOp)
    : result Tls13RecordError (list WireItem * Tls13RecordLayer) :=
  match ops with
  | [] => Ok ([], l)
  | OpSeal t pt pad :: ops =>
    '(record, l) ← seal_into alloc l t pt pad; '(wire, l) ← seal_run alloc l ops; Ok (WRecord record :: wire, l)
  | OpUpdate :: ops => l ← update_traffic_secret l; '(wire, l) ← seal_run alloc l ops; Ok (WUpdate :: wire, l)
  end.

(** The receiver opens in order. *)
Fixpoint open_run (l : Tls13RecordLayer) (wire : list WireItem)
    : result Tls13RecordError (list (ContentType * list byte) * Tls13RecordLayer) :=
  match wire with
  | [] => Ok ([], l)
  | WRecord record :: wire =>
    match open_in_place l record with
    | (Ok content, l) => '(contents, l) ← open_run l wire; Ok (content :: contents, l)
    | (Err e, _) => Err e
    | (Panic, _) => Panic
    end
  | WUpdate :: wire => l ← update_traffic_secret l; open_run l wire
  end.

Definition contents (ops : list RecordOp) : list (ContentType * list byte) :=
  omap (fun o => match o with OpSeal t pt _ => Some (t, pt) | OpUpdate => None end) ops.

(** What happens to a direction, operations that fail included: a seal, a
    KeyUpdate, or a socket write that failed or was dropped half way. *)
Inductive DirectionEvent := EvOp (o : RecordOp) | EvWriteFailed.

Definition event_wf (e : DirectionEvent) : Prop := match e with EvOp o => op_wf o | EvWriteFailed => True end.

(** What a direction did with its keys: the key generation and the nonce of
    every record it sealed. *)
Fixpoint nonces_used (alloc : Z -> bool) (gen : nat) (l : Tls13RecordLayer) (events : list DirectionEvent) : list (nat * list byte) :=
  match events with
  | [] => []
  | EvOp (OpSeal t pt pad) :: events =>
    match seal_into alloc l t pt pad with
    | Ok (_, l') => (gen, nonce l) :: nonces_used alloc gen l' events
    | _ => nonces_used alloc gen l events
    end
  | EvOp OpUpdate :: events =>
    match update_traffic_secret l with
    | Ok l' => nonces_used alloc (S gen) l' events
    | _ => nonces_used alloc gen l events
    end
  | EvWriteFailed :: events => nonces_used alloc gen (fail_write l) events
  end.

(** The traffic secret after a number of KeyUpdates. *)
Fixpoint secret_at (g : nat) (s : TrafficSecret) : result Tls13KeyScheduleError TrafficSecret :=
  match g with O => Ok s | S g => s ← updated s; secret_at g s end.
End Streams.

Section StreamLemmas.
Context {C : Tls13Ops} {L : Tls13Laws C}.

Lemma seal_run_opens alloc ops : forall l wire l',
  layer_wf l -> Forall op_wf ops -> seal_run alloc l ops = Ok (wire, l') ->
  open_run l wire = Ok (contents ops, l') /\ layer_wf l'.
Proof.
  induction ops as [|[t pt pad|] ops IH]; intros l wire l' Hwf Hops H; cbn [seal_run] in H.
  - by injection H as <- <-.
  - apply Forall_cons in Hops as [Hpad Hops]. cbn in Hpad. rewrite seal_into_guarded in H by done.
    apply bind_ok in H as ([record l1] & Hseal & H). apply bind_ok in H as ([w l2] & Hrun & H). injection H as <- <-.
    pose proof (open_sealed _ _ _ _ _ _ _ Hwf Hpad Hseal) as Hopen.
    apply guarded_seal_ok in Hseal as (_ & Hlt & _ & -> & _); [|done|done].
    destruct (IH _ _ _ (set_sequence_wf l (rl_sequence l + 1) Hwf ltac:(destruct Hwf as (_ & _ & ? & _); lia)) Hops Hrun) as [IH1 IH2].
    split; [|done]. cbn [open_run contents omap list_omap]. rewrite Hopen, IH1. done.
  - apply Forall_cons in Hops as [_ Hops]. apply bind_ok in H as (l1 & Hup & H). apply bind_ok in H as ([w l2] & Hrun & H).
    injection H as <- <-. pose proof (update_inv l l1 Hwf Hup) as (Hwf1 & _). destruct (IH _ _ _ Hwf1 Hops Hrun) as [IH1 IH2].
    split; [|done]. cbn [open_run]. by rewrite Hup.
Qed.

Lemma u8_byte_xor a b : u8 (byte_xor a b) = Z.lxor (u8 a) (u8 b).
Proof.
  unfold byte_xor. rewrite u8_as_u8. pose proof (u8_range a). pose proof (u8_range b). apply Z.mod_small.
  assert (0 <= Z.lxor (u8 a) (u8 b)) by (apply Z.lxor_nonneg; lia).
  split; [done|]. destruct (Z.eq_dec (Z.lxor (u8 a) (u8 b)) 0) as [->|Hne]; [lia|].
  change 256 with (2 ^ 8). apply Z.log2_lt_pow2; [lia|].
  pose proof (Z.log2_lxor (u8 a) (u8 b) ltac:(lia) ltac:(lia)).
  assert (Hl : forall x, 0 <= x < 256 -> Z.log2 x <= 7).
  { intros x Hx. apply (Z.log2_le_mono x 255). lia. }
  pose proof (Hl (u8 a) ltac:(lia)). pose proof (Hl (u8 b) ltac:(lia)). lia.
Qed.

Lemma byte_xor_inj a b c : byte_xor a b = byte_xor a c -> b = c.
Proof.
  intros H. apply u8_inj. apply (f_equal u8) in H. rewrite !u8_byte_xor in H.
  apply (f_equal (Z.lxor (u8 a))) in H. by rewrite <- !Z.lxor_assoc, Z.lxor_nilpotent, !Z.lxor_0_l in H.
Qed.

Lemma zip_xor_inj k : forall x y, length x = length k -> length y = length k -> zip_with byte_xor k x = zip_with byte_xor k y -> x = y.
Proof.
  induction k as [|a k IH]; intros [|b x] [|c y] Hx Hy H; try done.
  cbn in H. injection H as Hb Hr. f_equal; [by eapply byte_xor_inj|]. apply IH; [by injection Hx|by injection Hy|done].
Qed.

(** One nonce per sequence number. *)
Lemma nonce_at_inj iv s1 s2 : len iv = 12 -> u64_range s1 -> u64_range s2 -> nonce_at iv s1 = nonce_at iv s2 -> s1 = s2.
Proof.
  intros Hiv H1 H2 H. unfold nonce_at in H. apply app_inv_head in H. apply zip_xor_inj in H.
  - rewrite <- (from_be_u64 s1), <- (from_be_u64 s2) by done. by rewrite H.
  - rewrite length_to_be, length_drop. unfold len in Hiv. lia.
  - rewrite length_to_be, length_drop. unfold len in Hiv. lia.
Qed.

(** The nonces of one generation, in the order of their use. *)
Definition of_generation (g : nat) (uses : list (nat * list byte)) : list (list byte) := (filter (fun u => u.1 = g) uses).*2.

Lemma of_generation_cons g u uses : of_generation g (u :: uses) = (if decide (u.1 = g) then [u.2] else []) ++ of_generation g uses.
Proof. unfold of_generation. rewrite filter_cons. by destruct (decide (u.1 = g)). Qed.

Lemma of_generation_elem g n uses : (g, n) ∈ uses <-> n ∈ of_generation g uses.
Proof.
  unfold of_generation. rewrite list_elem_of_fmap. setoid_rewrite list_elem_of_filter. split; [intros H; by exists (g, n)|].
  intros ([g' n'] & -> & <- & H). done.
Qed.

Lemma generations_nodup uses : (forall g, NoDup (of_generation g uses)) -> NoDup uses.
Proof.
  induction uses as [|[g n] uses IH]; intros H; [constructor|]. constructor.
  - intros Hin%of_generation_elem. specialize (H g). rewrite of_generation_cons, decide_True in H by done. by apply NoDup_cons in H as [? _].
  - apply IH. intros g'. specialize (H g'). rewrite of_generation_cons in H. by apply NoDup_app in H as (_ & _ & ?).
Qed.

Lemma fail_write_wf l : layer_wf l -> layer_wf (fail_write l).
Proof. done. Qed.

Lemma generations_from alloc events : forall gen l, layer_wf l -> Forall event_wf events ->
  Forall (fun u => (gen <= u.1)%nat) (nonces_used alloc gen l events).
Proof.
  induction events as [|[[t pt pad|]|] events IH]; intros gen l Hwf Hops; cbn [nonces_used]; [constructor|..];
    apply Forall_cons in Hops as [Hop Hops]; [| |by apply IH].
  - rewrite seal_into_guarded by done. destruct (guarded_seal alloc l t pt pad) as [[record l']| |] eqn:Hseal; [|by apply IH..].
    apply guarded_seal_ok in Hseal as (_ & Hlt & _ & -> & _); [|done|done]. pose proof (proj1 (proj2 (proj2 Hwf))) as Hs.
    constructor; [done|]. apply IH; [|done]. apply set_sequence_wf; [done|lia].
  - destruct (update_traffic_secret l) as [l'| |] eqn:Hup; [|by apply IH..]. apply update_inv in Hup as (Hwf' & _ & _); [|done].
    eapply Forall_impl; [by apply IH|]. cbn. lia.
Qed.

(** The records of each generation use its sequence numbers in order, from the
    layer's own in the current one and from zero in each later one. *)
Lemma generation_nonces alloc events : forall gen l s d sd lg, layer_wf l -> Forall event_wf events -> rl_traffic l = TsApplication s ->
  secret_at d s = Ok sd -> from_traffic_secret (rl_suite l) sd = Ok lg ->
  let start := if decide (d = O) then rl_sequence l else 0 in
  exists k, start <= k <= key_usage_limit l /\ of_generation (gen + d) (nonces_used alloc gen l events) = nonce_at (rl_iv lg) <$> seqZ start (k - start).
Proof.
  induction events as [|[[t pt pad|]|] events IH]; intros gen l s d sd lg Hwf Hops Hs Hd Hlg start; cbn [nonces_used].
  - exists start. rewrite Z.sub_diag. split; [|done]. pose proof (key_usage_limit_bounds l). pose proof (proj1 (proj2 (proj2 Hwf))).
    unfold start. destruct (decide _); lia.
  - apply Forall_cons in Hops as [Hop Hops]. rewrite seal_into_guarded by done.
    destruct (guarded_seal alloc l t pt pad) as [[record l']| |] eqn:Hseal; [|by apply (IH gen l s d sd lg)..].
    apply guarded_seal_ok in Hseal as (_ & Hlt & _ & -> & _); [|done|done]. pose proof (proj1 (proj2 (proj2 Hwf))) as Hq.
    destruct (IH gen (set_sequence l (rl_sequence l + 1)) s d sd lg) as (k & Hk & Hn); [apply set_sequence_wf; [done|lia]|done|done|done|done|].
    exists k. rewrite of_generation_cons, Hn. unfold start, key_usage_limit in *. cbn [set_sequence rl_sequence rl_suite fst snd] in *.
    destruct (decide (d = O)) as [->|Hd0].
    + rewrite decide_True by lia. split; [lia|]. rewrite (seqZ_cons (rl_sequence l)) by lia. rewrite fmap_cons. unfold nonce.
      replace (rl_iv l) with (rl_iv lg).
      * cbn [app]. do 2 f_equal. f_equal; lia.
      * cbn in Hd. injection Hd as <-. destruct Hwf as (_ & _ & _ & Ht). rewrite Hs in Ht. destruct Ht as (_ & _ & ks & Hks & _ & ->).
        unfold from_traffic_secret in Hlg. rewrite Hks in Hlg. cbn [map_err mbind result_bind] in Hlg.
        apply bind_ok in Hlg as (c & _ & [= <-]). done.
    + rewrite decide_False by lia. done.
  - apply Forall_cons in Hops as [Hop Hops]. destruct (update_traffic_secret l) as [l'| |] eqn:Hup; [|by apply (IH gen l s d sd lg)..].
    assert (Hw : rl_write_failed l = false) by (unfold update_traffic_secret, ensure_write_ready in Hup; by destruct (rl_write_failed l)).
    destruct (update_total l s Hwf Hw Hs) as (l2 & Hl2 & Hwf' & Hq & Hsuite & _ & s' & Hs' & Hu). rewrite Hup in Hl2. injection Hl2 as <-.
    destruct d as [|d].
    + exists start. rewrite Z.sub_diag. split; [unfold start; rewrite decide_True by done; pose proof (proj1 (proj2 (proj2 Hwf))); lia|].
      rewrite seqZ_nil, Nat.add_0_r by done. cbn [fmap list_fmap].
      apply elem_of_nil_inv. intros n Hn. apply of_generation_elem in Hn.
      pose proof (generations_from alloc events (S gen) l' Hwf' Hops) as Hf. rewrite Forall_forall in Hf. apply Hf in Hn. cbn in Hn. lia.
    + cbn [secret_at] in Hd. rewrite Hu in Hd. cbn [mbind result_bind] in Hd. rewrite <- Hsuite in Hlg.
      destruct (IH (S gen) l' s' d sd lg Hwf' Hops Hs' Hd Hlg) as (k & Hk & Hn). exists k. unfold start. cbn [decide]. rewrite decide_False by lia.
      unfold key_usage_limit in *. rewrite Hsuite in Hk. replace (gen + S d)%nat with (S gen + d)%nat by lia. rewrite Hn.
      destruct (decide (d = O)); rewrite ?Hq in *; done.
  - apply Forall_cons in Hops as [_ Hops]. by apply (IH gen (fail_write l) s d sd lg).
Qed.

Lemma secret_at_total g : forall s, hb_wf s -> exists sg, secret_at g s = Ok sg /\ hb_wf sg /\ hb_algorithm sg = hb_algorithm s.
Proof.
  induction g as [|g IH]; intros s Hs; [by exists s|]. cbn. destruct (updated_total s Hs) as (s' & Hu & Hs' & Ha). rewrite Hu. cbn.
  destruct (IH s' Hs') as (sg & Hg & Hw & Hag). exists sg. split_and!; [done|done|congruence].
Qed.

(** Nothing is sealed after a failed write. *)
Lemma nonces_after_failure alloc events : forall gen l, rl_write_failed l = true -> Forall event_wf events -> nonces_used alloc gen l events = [].
Proof.
  induction events as [|[[t pt pad|]|] events IH]; intros gen l Hf Hops; cbn [nonces_used]; [done|..]; apply Forall_cons in Hops as [Hop Hops]; [| |by apply IH].
  - rewrite seal_into_guarded by done. unfold guarded_seal, ensure_key_available, ensure_write_ready. rewrite Hf. cbn. by apply IH.
  - unfold update_traffic_secret, ensure_write_ready. rewrite Hf. cbn. by apply IH.
Qed.

Lemma nonces_until_failure alloc before after : forall gen l, Forall event_wf (before ++ EvWriteFailed :: after) ->
  nonces_used alloc gen l (before ++ EvWriteFailed :: after) = nonces_used alloc gen l before.
Proof.
  induction before as [|[[t pt pad|]|] before IH]; intros gen l Hops; cbn [app nonces_used]; apply Forall_cons in Hops as [Hop Hops].
  - by apply nonces_after_failure.
  - destruct (seal_into alloc l t pt pad) as [[record l']| |]; [f_equal|..]; by apply IH.
  - destruct (update_traffic_secret l); by apply IH.
  - by apply IH.
Qed.
End StreamLemmas.


(** A record stream delivers what was sealed, across KeyUpdates. When the two
    ends start from the same layer and the sender seals any sequence of records
    (any content types and padding) interleaved with KeyUpdates, the receiver
    opening the records in order and updating at the same points obtains
    exactly the content types and plaintexts, padding removed, and both ends
    finish in the same state. *)
Theorem record_stream_delivers {C : Tls13Ops} {L : Tls13Laws C} (alloc : Z -> bool) (suite : CipherSuite) (s : TrafficSecret)
    (l l' : Tls13RecordLayer) (ops : list RecordOp) (wire : list WireItem) :
  hb_wf s -> from_traffic_secret suite s = Ok l -> Forall op_wf ops -> seal_run alloc l ops = Ok (wire, l') ->
  open_run l wire = Ok (contents ops, l').
Proof.
  intros Hs Hl Hops Hrun. assert (Hh : hb_algorithm s = suite_hash suite).
  { unfold from_traffic_secret, derive_traffic_keys in Hl. by case_bool_decide. }
  destruct (from_traffic_secret_total suite s Hs Hh) as (l2 & Hl' & Hwf & _). rewrite Hl in Hl'. injection Hl' as <-.
  by eapply seal_run_opens.
Qed.

(** ** Export *)

Section ExportedSecrets.
Context {C : Tls13Ops} {L : Tls13Laws C}.

(** A live application direction: its keys are usable and no write was lost. *)
Definition live_direction (l : Tls13RecordLayer) : Prop :=
  layer_wf l /\ rl_write_failed l = false /\ rl_sequence l < key_usage_limit l /\ rl_traffic l <> TsHandshake.

Lemma export_import l :
  live_direction l -> exists e, into_exported_state l = Ok e /\ from_exported_state e = Ok l /\
    er_suite e = rl_suite l /\ er_sequence e = rl_sequence l /\ hb_wf (er_secret e) /\ hb_algorithm (er_secret e) = suite_hash (rl_suite l).
Proof.
  intros (Hwf & Hw & Hlt & Ht). destruct l as [key suite iv traffic seq failed]. cbn in Hw, Ht. subst failed.
  destruct traffic as [|s]; [done|]. destruct Hwf as (Hk & Hi & Hs & Hsw & Hsh & k & Hd & Hkk & Hki). cbn in *.
  exists {| er_suite := suite; er_secret := s; er_sequence := seq |}. split; [done|]. split_and!; try done.
  unfold from_exported_state, from_traffic_secret. cbn [er_suite er_secret er_sequence]. rewrite Hd. cbn [map_err mbind result_bind].
  unfold record_cipher. rewrite <- Hkk, Hk, Z.eqb_refl. cbn [mbind result_bind].
  rewrite (bind_step _ tt); [by rewrite Hki|]. by apply ensure_key_available_ok.
Qed.
End ExportedSecrets.

(** ** Arbitrary records *)

Lemma rposition_some l i : rposition_nonzero l = Some i ->
  exists b n, l = take i l ++ [b] ++ replicate n x00 /\ u8 b <> 0 /\ length (take i l) = i.
Proof.
  revert i; induction l as [|x l IH]; intros i; cbn [rposition_nonzero]; [done|].
  destruct (rposition_nonzero l) as [j|] eqn:E.
  - intros [= <-]. destruct (IH j eq_refl) as (b & n & Hl & Hb & Hlen). exists b, n. cbn [take length].
    split_and!; [|done|by rewrite Hlen]. cbn [app]. by f_equal.
  - destruct (Z.eqb_spec (u8 x) 0) as [|Hx]; [done|]. intros [= <-]. exists x, (length l). split_and!; [|done|done].
    cbn. f_equal. clear IH Hx. induction l as [|y l IH]; [done|]. cbn in E. destruct (rposition_nonzero l); [done|].
    destruct (Z.eqb_spec (u8 y) 0) as [Hy|]; [|done]. cbn. f_equal; [by apply u8_inj|by apply IH].
Qed.

Lemma content_type_from_wire_inv b t : content_type_from_wire b = Some t -> b = content_type_wire t.
Proof. destruct b; try discriminate; by intros [= <-]. Qed.

Lemma strip_content_outcome region :
  match strip_content region with
  | Ok (t, pt) => exists pad, 0 <= pad /\ region = inner_plaintext t pt pad
  | Err e => e = RInvalidContentType
  | Panic => False
  end.
Proof.
  unfold strip_content. destruct (rposition_nonzero region) as [i|] eqn:E; [|done]. cbn [ok_or mbind result_bind].
  apply rposition_some in E as (b & n & Hr & Hb & Hl). set (pt := take i region) in *. rewrite Hr.
  assert (Hi : Z.of_nat i = len pt) by (unfold len; by rewrite Hl). rewrite Hi.
  rewrite index_app_r by lia. rewrite Z.sub_diag. cbn [app]. rewrite index_cons_0. cbn [mbind result_bind].
  destruct (content_type_from_wire b) as [t|] eqn:Et; [|done]. cbn [ok_or mbind result_bind].
  rewrite get_range_prefix by done. cbn. apply content_type_from_wire_inv in Et as ->.
  exists (Z.of_nat n). split; [lia|]. unfold inner_plaintext. by rewrite Nat2Z.id.
Qed.

Section OpenSound.
Context {C : Tls13Ops} {L : Tls13Laws C}.

Lemma record_checked_no_panic l record : no_panic (open_checked l record).
Proof.
  unfold open_checked. apply no_panic_bind.
  { unfold ensure_key_available, ensure_write_ready. destruct (rl_write_failed l); [done|]. cbn. by destruct (_ <? _). }
  intros _ _. apply no_panic_bind; [apply no_panic_ok_or|]. intros h Hh%ok_or_ok.
  apply get_range_inv in Hh as (_ & _ & _ & Hh & _). unfold HEADER_LEN, TAG_LEN in *.
  apply no_panic_bind; [apply index_no_panic; lia|]. intros t _. apply no_panic_bind; [apply slice_no_panic; lia|]. intros v _.
  apply no_panic_guard; intros _. apply no_panic_bind; [apply slice_no_panic; lia|]. intros n _.
  apply no_panic_bind; [apply no_panic_ok_or|]. intros e _. apply no_panic_guard; intros _.
  apply no_panic_bind; [apply no_panic_ok_or|]. intros body _. apply no_panic_guard; intros Hb%Z.ltb_ge.
  apply no_panic_bind; [apply slice_no_panic; lia|]. intros c _.
  apply no_panic_bind; [apply slice_from_no_panic; lia|]. intros tg _. apply no_panic_ok_or.
Qed.

Lemma record_checked_inv l record region :
  open_checked l record = Ok region ->
  rl_write_failed l = false /\ rl_sequence l < key_usage_limit l /\
  exists body tag, record = record_header (len body + TAG_LEN) ++ body ++ tag /\ len tag = TAG_LEN /\
    1 <= len body <= MAX_INNER_PLAINTEXT_LEN /\
    record_open (rl_suite l) (rl_key l) (nonce l) (record_header (len body + TAG_LEN)) body tag = Some region.
Proof.
  unfold open_checked. intros H. apply bind_ok in H as (u & [Hw Hlt]%ensure_key_available_ok & H). split_and!; [done|done|].
  apply bind_ok in H as (h & Hh%ok_or_ok & H). apply get_range_inv in Hh as (_ & _ & _ & Hhl & Hrec).
  change (take (Z.to_nat 0) record) with (@nil byte) in Hrec. cbn [app] in Hrec. set (rest := drop (Z.to_nat HEADER_LEN) record) in *.
  unfold HEADER_LEN in Hhl. destruct h as [|h0 [|h1 [|h2 [|h3 [|h4 [|]]]]]]; try (exfalso; slen).
  erewrite bind_step in H by reflexivity. erewrite bind_step in H by reflexivity.
  apply bind_ok in H as (? & Hhd%reject_ok%orb_false_iff & H).
  destruct Hhd as [Ht%negb_false_iff%bool_decide_eq_true Hv%negb_false_iff%bytes_eqb_eq]. cbn in Hv. subst h0.
  erewrite bind_step in H by reflexivity. change (take _ (drop _ _)) with [h3; h4] in H. set (n := from_be [h3; h4]) in *.
  assert (Hn : 0 <= n < 65536) by (apply (from_be_range [h3; h4])).
  apply bind_ok in H as (e & He%ok_or_ok%checked_add_some & H). destruct He as [-> _].
  apply bind_ok in H as (? & Hlen%reject_ok%orb_false_iff & H).
  destruct Hlen as [Hl%negb_false_iff%Z.eqb_eq Hb%negb_false_iff%andb_true_iff]. destruct Hb as [Hb1%Z.leb_le Hb2%Z.leb_le].
  apply bind_ok in H as (body' & Hbody%ok_or_ok & H). rewrite Hrec in Hbody, Hl.
  rewrite get_range_app_r in Hbody by (cbn; unfold HEADER_LEN; lia).
  assert (Hrl : len rest = n) by (rewrite len_app in Hl; unfold HEADER_LEN in *; change (len [_; _; _; _; _]) with 5 in Hl; lia).
  change (len [_; _; _; _; _]) with 5 in Hbody. change (HEADER_LEN - 5) with 0 in Hbody.
  rewrite get_range_all in Hbody by (unfold HEADER_LEN; lia). injection Hbody as <-.
  apply bind_ok in H as (? & _ & H). apply bind_ok in H as (c & Hc & H). apply bind_ok in H as (tg & Htg & H). apply ok_or_ok in H.
  apply slice_ok, get_range_inv in Hc as (_ & _ & _ & Hcl & Hceq). rewrite Z.sub_0_r in Hcl.
  change (take (Z.to_nat 0) rest) with (@nil byte) in Hceq. cbn [app] in Hceq. set (tg' := drop (Z.to_nat (len rest - TAG_LEN)) rest) in *.
  rewrite Hceq in Htg at 1. rewrite slice_from_app in Htg by done. injection Htg as <-.
  assert (Htl : len tg' = TAG_LEN) by (pose proof (f_equal len Hceq) as E; rewrite len_app in E; lia).
  change (take _ (drop _ _)) with [h1; h2] in Hv. injection Hv as -> ->.
  assert (Hhdr : [OUTER_APPLICATION_DATA; x03; x03; h3; h4] = record_header (len c + TAG_LEN)).
  { unfold record_header. replace (len c + TAG_LEN) with n by lia. unfold n. by rewrite to_be_from_be. }
  rewrite Hhdr in *. exists c, tg'. unfold MAX_CIPHERTEXT_LEN, TAG_LEN in *. split_and!; try done; try lia. rewrite Hrec at 1. by rewrite Hceq at 1.
Qed.
End OpenSound.

(** Only an authentic record moves the reader. Opening arbitrary bytes never
    panics. If it fails, the layer is unchanged, except when the AEAD verified
    a record whose inner content type is invalid, which consumes its sequence
    number. If it succeeds, exactly one sequence number below the key's limit
    was consumed, the bytes are one complete record (the header the length
    demands, body, tag) of legal size, the AEAD opened it under that sequence's
    nonce with the header authenticated, and what is returned is the inner
    plaintext with its type and all-zero padding removed. *)
Theorem record_open_sound {C : Tls13Ops} {L : Tls13Laws C} (l : Tls13RecordLayer) (record : list byte) :
  layer_wf l ->
  let '(r, l') := open_in_place l record in
  let authentic region :=
    rl_write_failed l = false /\ rl_sequence l < key_usage_limit l /\ l' = set_sequence l (rl_sequence l + 1) /\
    exists body tag, record = record_header (len body + TAG_LEN) ++ body ++ tag /\ len tag = TAG_LEN /\
      1 <= len body <= MAX_INNER_PLAINTEXT_LEN /\
      record_open (rl_suite l) (rl_key l) (nonce l) (record_header (len body + TAG_LEN)) body tag = Some region in
  match r with
  | Panic => False
  | Err e => l' = l \/ (e = RInvalidContentType /\ exists region, authentic region)
  | Ok (t, plaintext) => exists pad, 0 <= pad /\ authentic (inner_plaintext t plaintext pad)
  end.
Proof.
  intros Hwf. unfold open_in_place. pose proof (record_checked_no_panic l record) as Hn.
  destruct (open_checked l record) as [region| |] eqn:E; [|by left|done].
  apply record_checked_inv in E as (Hw & Hlt & body & tag & Hrec & Ht & Hb & Ho). rewrite advance_live by done.
  pose proof (strip_content_outcome region) as Hs. destruct (strip_content region) as [[t pt]|e|].
  - destruct Hs as (pad & Hpad & ->). exists pad. split; [done|]. split_and!; try done. by exists body, tag.
  - right. split; [done|]. exists region. split_and!; try done. by exists body, tag.
  - done.
Qed.

(** ** Examples *)

Definition example_secret : TrafficSecret := hb_fill Sha256 (replicate 32 x0a).

Definition example_layer : Tls13RecordLayer :=
  match from_traffic_secret Aes128GcmSha256 example_secret with
  | Ok l => l
  | _ => {| rl_key := []; rl_suite := Aes128GcmSha256; rl_iv := []; rl_traffic := TsHandshake; rl_sequence := 0; rl_write_failed := true |}
  end.

Definition example_ops : list RecordOp :=
  [OpSeal CtApplicationData [x61; x62] 3; OpSeal CtHandshake [x18; x00] 0; OpUpdate; OpSeal CtApplicationData [] 1].

Lemma example_secret_wf : hb_wf example_secret.
Proof. apply hb_fill_wf. reflexivity. Qed.

Lemma example_layer_ok : from_traffic_secret Aes128GcmSha256 example_secret = Ok example_layer.
Proof. vm_compute. reflexivity. Qed.

Lemma example_ops_wf : Forall op_wf example_ops.
Proof. repeat (apply Forall_cons_2; [cbn; first [lia | exact I]|]). apply Forall_nil_2. Qed.

Lemma example_layer_wf : layer_wf example_layer.
Proof.
  destruct (from_traffic_secret_total Aes128GcmSha256 example_secret example_secret_wf eq_refl) as (l & Hl & Hwf & _).
  rewrite example_layer_ok in Hl. injection Hl as ->. exact Hwf.
Qed.

Definition example_events : list DirectionEvent := (EvOp <$> example_ops) ++ [EvWriteFailed; EvOp (OpSeal CtApplicationData [x63] 0)].


Lemma record_open_sound_witness : (open_in_place example_layer [x17; x03]).2 = example_layer.
Proof.
  pose proof (record_open_sound example_layer [x17; x03] example_layer_wf) as H.
  destruct (open_in_place example_layer [x17; x03]) as [r l'] eqn:E. assert (r = Err RInvalidLength) as ->.
  { apply (f_equal fst) in E. vm_compute in E. symmetry. exact E. }
  destruct H as [H|[H _]]; [exact H|discriminate H].
Defined.
