(* ===== verification/SessionHandoff.v ===== *)
(** * Session handoff end to end ([relay_via_handoff] of
      [src/server/vision/handoff_relay.rs], [handle] and [resume_tls] of
      [src/server/handoff/landing.rs])

    LINE exports both record directions of a live session into a continuation,
    the transfer carries it, LANDING rebuilds the session: the composition of
    the record layer, the blob and the sealed transfer. *)

From S2P Require Import Prelude Cursor VlessRequest Tls13Keys Crypto Replay UdpWire BlobCodec HandoffPolicy HandoffBlob.
From S2P Require Import HandoffTransfer Tls13Record.
#[local] Open Scope Z_scope.

Section Handoff.
Context {K : Tls13Ops}.

(** The export and assembly of the continuation on LINE. *)
Definition line_continuation (client_records server_records : Tls13RecordLayer) (pending prefetched : list byte)
    (key_update_response_pending : bool) (user_id inbound_tag : list byte) (destination : Destination)
    : result HandoffError ContinuationState :=
  client ← map_err (fun _ => HState) (into_exported_state client_records);
  server ← map_err (fun _ => HState) (into_exported_state server_records);
  new_continuation (er_suite client) (er_secret client) (er_sequence client) (er_secret server) (er_sequence server)
    key_update_response_pending KindTcp user_id inbound_tag destination pending prefetched (tcp_placeholder destination).

Definition resume_tls (s : ExportedTlsState) : result HandoffError EstablishedTls :=
  map_err (fun _ => HState) (established_from_exported s).

(** LANDING, from the opened transfer to the resumed session; an XUDP
    continuation is refused. *)
Definition landing_resume (opened : OpenedTransfer) : result HandoffError (ContinuationParts * EstablishedTls) :=
  parts ← into_parts (ot_state opened);
  tls ← resume_tls (cp_tls parts);
  match cp_session_kind parts with
  | KindXudp => Err HState
  | KindTcp => Ok (parts, tls)
  end.
End Handoff.

(** ** Lemmas *)

Section HandoffLemmas.
Context {K : Tls13Ops} {KL : Tls13Laws K}.

Lemma placeholder_fits d : blob_destination_wf d -> policy_fits (tcp_placeholder d).
Proof.
  intros [Hd _] body H. unfold encode_policy_snapshot_body in H. cbn [tcp_placeholder rules] in H.
  erewrite bind_step in H by reflexivity. rewrite guard_pass in H by done. cbn [encode_each mbind result_bind] in H.
  apply ok_inj in H. subst body. destruct (bounded_address_length_ok d Hd) as (n & Hn & Hr).
  rewrite !len_app. cbn [initial_destination tcp_placeholder]. rewrite (len_encode_address d n Hd Hn).
  unfold MAX_DOMAIN_LEN, MAX_POLICY_SNAPSHOT_LEN in *. rewrite !len_to_be, ?len_cons, ?len_nil. lia.
Qed.

(** What LINE may hand over. *)
Record handoff_ready (client server : Tls13RecordLayer) (pending prefetched user tag : list byte) (d : Destination) : Prop := {
  hr_client : live_direction client;
  hr_server : live_direction server;
  hr_suite : rl_suite client = rl_suite server;
  hr_sequence : rl_sequence server <= MAX_SERVER_SEQUENCE_AT_HANDOFF;
  hr_pending : len pending <= MAX_PENDING_CIPHERTEXT_LEN;
  hr_prefetched : len prefetched <= MAX_PREFETCHED_PLAINTEXT_LEN;
  hr_user : len user = BLOB_USER_ID_LEN;
  hr_tag : len tag <= MAX_INBOUND_TAG_LEN;
  hr_ascii : is_ascii tag = true;
  hr_destination : blob_destination_wf d;
}.

Lemma live_sequence_range l : live_direction l -> u64_range (rl_sequence l).
Proof.
  intros ((_ & _ & Hs & _) & _ & Hlt & _). pose proof (key_usage_limit_bounds l).
  unfold CHACHA20_POLY1305_RECORD_LIMIT, u64_range, U64_MAX in *. lia.
Qed.

Lemma line_continuation_ok client server pending prefetched ku user tag d :
  handoff_ready client server pending prefetched user tag d ->
  exists s, line_continuation client server pending prefetched ku user tag d = Ok s /\
    continuation_wf s /\ policy_fits (cs_policy s) /\ cs_server_sequence s <= 1 /\
    forall ts rnd, exists parts tls,
      landing_resume {| ot_timestamp := ts; ot_client_random := rnd; ot_state := s |} = Ok (parts, tls) /\
      client_records tls = client /\ server_records tls = server /\ tls_suite tls = rl_suite client /\
      cp_pending_ciphertext parts = pending /\ cp_prefetched_plaintext parts = prefetched /\
      cp_key_update_pending parts = ku /\ cp_user_id parts = user /\ cp_destination parts = d.
Proof.
  intros [Hc Hs Hsuite Hseq Hp Hq Hu Ht Ha Hd].
  destruct (export_import client Hc) as (ec & Hec & Hic & Hcs & Hcq & Hcw & Hch).
  destruct (export_import server Hs) as (es & Hes & His & Hss & Hsq & Hsw & Hsh).
  pose proof (live_sequence_range client Hc) as Hr1. pose proof (live_sequence_range server Hs) as Hr2.
  unfold line_continuation. rewrite Hec, Hes. cbn [map_err mbind result_bind].
  set (s := {| cs_suite := er_suite ec; cs_client_secret := er_secret ec; cs_server_secret := er_secret es;
     cs_client_sequence := er_sequence ec; cs_server_sequence := er_sequence es; cs_key_update_pending := ku;
     cs_session_kind := KindTcp; cs_user_id := user; cs_inbound_tag := tag; cs_destination := d;
     cs_pending_ciphertext := pending; cs_prefetched_plaintext := prefetched; cs_policy := tcp_placeholder d |}).
  assert (Hwf : continuation_wf s).
  { unfold continuation_wf, s; cbn [cs_suite cs_client_secret cs_server_secret cs_client_sequence cs_server_sequence cs_user_id cs_inbound_tag
      cs_destination cs_pending_ciphertext cs_prefetched_plaintext cs_policy]. rewrite Hcs, Hcq, Hsq.
    refine (conj (conj Hcw Hch) (conj (conj Hsw _) (conj (conj Hr1 Hr2) (conj Hu (conj (conj Ht Ha) (conj Hd (conj Hp (conj Hq _)))))))).
    - by rewrite Hsh, Hsuite.
    - by apply (xudp_initial_wf d). }
  exists s. split; [exact (new_continuation_ok s Hwf)|]. split; [done|]. split; [by apply placeholder_fits|].
  split; [cbn; rewrite Hsq; unfold MAX_SERVER_SEQUENCE_AT_HANDOFF in Hseq; lia|].
  intros ts rnd. unfold landing_resume, into_parts, exported_from_parts. cbn [ot_state s cs_suite cs_client_secret cs_server_secret
    cs_client_sequence cs_server_sequence cs_user_id cs_destination cs_pending_ciphertext cs_prefetched_plaintext cs_key_update_pending
    cs_session_kind cs_inbound_tag cs_policy].
  rewrite !bool_decide_true by congruence. cbn [negb mbind result_bind reject_if cp_tls cp_session_kind].
  assert (Hrec : forall e : ExportedRecordState, {| er_suite := er_suite e; er_secret := er_secret e; er_sequence := er_sequence e |} = e)
    by (by intros []).
  replace {| er_suite := er_suite ec; er_secret := er_secret es; er_sequence := er_sequence es |} with es
    by (rewrite <- (Hrec es) at 1; f_equal; congruence).
  rewrite Hrec. unfold resume_tls, established_from_exported. cbn [et_client et_server].
  rewrite bool_decide_true by congruence. rewrite Hic, His. cbn [negb mbind result_bind reject_if map_err].
  eexists _, _. split; [reflexivity|]. by split_and!.
Qed.
End HandoffLemmas.

(** C15: a handed-over session continues where it was. Take any live session whose
    two directions are application layers of one suite with no lost write, the
    server direction having sent at most one record, and read-ahead ciphertext,
    prefetched plaintext, user, tag and destination within their bounds. LINE's
    continuation is built. If its transfer is sealed to any pair of pre-shared key
    and secret that LANDING accepts, the active one or one retired by a rotation,
    no pair that LANDING tries earlier happens to authenticate it, its timestamp
    is within LANDING's window and LANDING takes the nonce, then LANDING opens it
    and resumes with both record
    directions exactly as LINE held them (keys, IVs, sequence numbers, so no
    nonce is reused and none is skipped), the read-ahead and prefetched bytes
    and the KeyUpdate obligation unchanged; and whatever the client seals next,
    KeyUpdates included, LANDING reads. *)
Theorem handoff_resumes_session {K : Tls13Ops} {KL : Tls13Laws K} {C : CryptoOps} {L : CryptoLaws C} {G} `{ReplayGuard G}
    (alloc : Z -> bool) (client server : Tls13RecordLayer) (pending prefetched user tag : list byte) (d : Destination) (ku : bool)
    (eph secret : Crypto.Secret) (nonce psk rnd output message : list byte) (keys : HandoffLandingKeys) (before after : list (nat * list byte * Crypto.Secret))
    (i : nat) (ts now maxdiff instant : Z) (replay replay' : G) :
  handoff_ready client server pending prefetched user tag d ->
  (forall n, n <= MAX_BLOB_LEN -> alloc n = true) -> u64_range ts -> len nonce = 16 -> len rnd = 32 ->
  candidates keys = before ++ (i, psk, secret) :: after -> abs_diff ts now <= maxdiff -> rg_reserve replay nonce instant = (None, replay') ->
  exists s, line_continuation client server pending prefetched ku user tag d = Ok s /\
    (seal_transfer alloc (Some eph) (Some nonce) s psk (x25519_public secret) rnd ts output = (Ok tt, message) ->
     Forall (fun '(_, psk, secret) => candidate_rejects psk secret (message_header message) (x25519_public eph)
                                        (message_body message) (message_tag message)) before ->
     exists opened parts tls,
       open_transfer alloc message keys replay now maxdiff instant = (Ok opened, replay') /\
       landing_resume opened = Ok (parts, tls) /\
       client_records tls = client /\ server_records tls = server /\
       cp_pending_ciphertext parts = pending /\ cp_prefetched_plaintext parts = prefetched /\
       cp_key_update_pending parts = ku /\ cp_user_id parts = user /\ cp_destination parts = d /\
       forall ops wire client', Forall op_wf ops -> seal_run alloc client ops = Ok (wire, client') ->
         open_run (client_records tls) wire = Ok (contents ops, client')).
Proof.
  intros Hready Ha Hts Hn Hr Hc Htime Hres.
  destruct (line_continuation_ok client server pending prefetched ku user tag d Hready) as (s & Hs & Hwf & Hfit & Hseq & Hland).
  exists s. split; [done|]. intros Hseal Hbefore. destruct (Hland ts rnd) as (parts & tls & Hl & Hcl & Hsv & _ & Hpen & Hpre & Hku & Huser & Hdest).
  pose proof (transfer_open_sealed alloc eph secret nonce psk rnd output message s keys before after i ts now maxdiff instant replay replay'
    Hwf Hfit Hseq Ha Hts Hn Hr Hseal Htime Hres Hc Hbefore) as Hopen.
  exists {| ot_timestamp := ts; ot_client_random := rnd; ot_state := s |}, parts, tls. split_and!; try done.
  intros ops wire client' Hops Hrun. rewrite Hcl. eapply seal_run_opens; [apply (hr_client _ _ _ _ _ _ _ Hready)|done|done].
Qed.

(** ** Example *)

Lemma example_live : live_direction example_layer.
Proof. split; [exact example_layer_wf|]. split; [reflexivity|]. split; [vm_compute; reflexivity|vm_compute; discriminate]. Qed.

Lemma example_ready :
  handoff_ready example_layer example_layer [x17; x03] [x61] (replicate 16 x07) (bytes_of "line-a") example_destination.
Proof.
  constructor; [exact example_live|exact example_live|reflexivity|vm_compute; congruence|vm_compute; congruence|vm_compute; congruence|
    reflexivity|vm_compute; congruence|reflexivity|].
  split; [split; [split; vm_compute; congruence|reflexivity]|split; vm_compute; congruence].
Qed.

Lemma handoff_resumes_session_witness :
  exists s message opened parts tls,
    line_continuation example_layer example_layer [x17; x03] [x61] true (replicate 16 x07) (bytes_of "line-a") example_destination = Ok s /\
    seal_transfer (C := toy_ops) (fun _ => true) (Some x03) (Some (replicate 16 x02)) s (replicate 32 x08)
      (x25519_public (CryptoOps := toy_ops) x07) (replicate 32 x05) 1000 [] = (Ok tt, message) /\
    (open_transfer (C := toy_ops) (G := ReplayCache) (H := replay_guard example_policy) (fun _ => true) message example_keys example_cache 1010 30 5).1
      = Ok opened /\
    landing_resume opened = Ok (parts, tls) /\ client_records tls = example_layer.
Proof.
  destruct (handoff_resumes_session (C := toy_ops) (G := ReplayCache) (H := replay_guard example_policy) (fun _ => true)
    example_layer example_layer [x17; x03] [x61] (replicate 16 x07) (bytes_of "line-a") example_destination true x03 x07
    (replicate 16 x02) (replicate 32 x08) (replicate 32 x05) []
    (seal_transfer (C := toy_ops) (fun _ => true) (Some x03) (Some (replicate 16 x02))
       (match line_continuation example_layer example_layer [x17; x03] [x61] true (replicate 16 x07) (bytes_of "line-a") example_destination with
        | Ok s => s | _ => example_state end)
       (replicate 32 x08) (x25519_public (CryptoOps := toy_ops) x07) (replicate 32 x05) 1000 []).2
    example_keys [(0%nat, replicate 32 x09, x07); (0%nat, replicate 32 x09, x06)] [(1%nat, replicate 32 x08, x06)] 1%nat
    1000 1010 30 5 example_cache (rg_reserve (ReplayGuard := replay_guard example_policy) example_cache (replicate 16 x02) 5).2
    example_ready ltac:(intros; reflexivity) ltac:(split; vm_compute; congruence) eq_refl eq_refl eq_refl
    ltac:(vm_compute; congruence) ltac:(vm_compute; reflexivity)) as (s & Hs & H).
  rewrite Hs in H. exists s.
  destruct (seal_transfer (C := toy_ops) (fun _ => true) (Some x03) (Some (replicate 16 x02)) s (replicate 32 x08)
      (x25519_public (CryptoOps := toy_ops) x07) (replicate 32 x05) 1000 []) as [r message] eqn:E. cbn [snd] in H.
  assert (r = Ok tt) as ->.
  { apply (f_equal fst) in E. cbn [fst] in E. rewrite <- E. clear -Hs. vm_compute in Hs. injection Hs as <-. vm_compute. reflexivity. }
  assert (Hb : Forall (fun '(_, psk, secret) => candidate_rejects (C := toy_ops) psk secret (message_header message) (x25519_public (CryptoOps := toy_ops) x03)
    (message_body message) (message_tag message)) [(0%nat, replicate 32 x09, x07); (0%nat, replicate 32 x09, x06)]).
  { apply (f_equal snd) in E. cbn [snd] in E. rewrite <- E. clear -Hs. vm_compute in Hs. injection Hs as <-.
    repeat (apply Forall_cons; split); [| |apply Forall_nil; exact I]; right; do 3 eexists; (split; [vm_compute; reflexivity|]);
      (split; [vm_compute; reflexivity|]); vm_compute; reflexivity. }
  destruct (H E Hb) as (opened & parts & tls & Ho & Hl & Hc & _).
  exists message, opened, parts, tls. split; [exact Hs|]. split; [reflexivity|]. rewrite Ho. split; [reflexivity|]. split; [exact Hl|exact Hc].
Defined.
