(* ===== verification/TlsReader.v ===== *)
(** * TLS application reads ([src/protocol/reality/tls13/application_io.rs],
      [record_read.rs])

    The two readers of an established session: [TlsApplicationIo], which reads
    exactly one record at a time, and the split [TlsApplicationReader], which
    reads ahead into a connection buffer. Both reassemble KeyUpdate messages and
    record the peer's request for one. The transport is the environment: the
    bytes the peer delivers, how many each read returns and how the stream ends. *)

From S2P Require Import Prelude Cursor Effects Tls13Keys HandoffBlob Tls13Record.
#[local] Open Scope Z_scope.

Definition ALERT_LEVEL_WARNING : byte := x01.
Definition ALERT_CLOSE_NOTIFY : byte := x00.
Definition KEY_UPDATE_HANDSHAKE_TYPE : byte := x18.
Definition KEY_UPDATE_NOT_REQUESTED : byte := x00.
Definition KEY_UPDATE_REQUESTED : byte := x01.
Definition KEY_UPDATE_MESSAGE_LEN : Z := 5.
Definition KEY_UPDATE_HEADER : list byte := [KEY_UPDATE_HANDSHAKE_TYPE; x00; x00; x01].
Definition KEY_UPDATE_RESPONSE : list byte := [KEY_UPDATE_HANDSHAKE_TYPE; x00; x00; x01; KEY_UPDATE_NOT_REQUESTED].
Definition TLS_RECORD_HEADER_LEN : Z := 5.
Definition MAX_TLS13_CIPHERTEXT_LEN : Z := MAX_PLAINTEXT_LEN + 1 + 16.
Definition MAX_TLS_RECORD_WIRE_LEN : Z := TLS_RECORD_HEADER_LEN + MAX_TLS13_CIPHERTEXT_LEN.
Definition SOCKET_BUFFER_CAPACITY : Z := 4 * MAX_TLS_RECORD_WIRE_LEN.

(** ** Errors *)

Inductive TlsRecordReadErrorKind := RkTimeout | RkUnexpectedEof | RkIo | RkRecordTooLarge.
Record TlsRecordReadError := { read_kind : TlsRecordReadErrorKind; wire_prefix : list byte }.

Inductive TlsApplicationIoError :=
| TaTimeout | TaRead (e : TlsRecordReadError) | TaRecord (e : Tls13RecordError) | TaUnexpectedContentType (t : ContentType)
| TaInvalidKeyUpdate | TaInvalidAlert | TaPeerAlert (level description : byte) | TaIo.

(** ** KeyUpdate messages *)

Inductive KeyUpdateRequest := NotRequested | Requested.
#[export] Instance KeyUpdateRequest_eq_dec : EqDecision KeyUpdateRequest.
Proof. solve_decision. Defined.

Record KeyUpdateCoordination := { response_pending : bool; response_observed : bool }.
Definition new_coordination (pending : bool) : KeyUpdateCoordination :=
  {| response_pending := pending; response_observed := false |}.

Record KeyUpdateReassembly := { ku_message : list byte; ku_length : Z }.
Definition new_reassembly : KeyUpdateReassembly := {| ku_message := replicate 5 x00; ku_length := 0 |}.
Definition ku_is_empty (ku : KeyUpdateReassembly) : bool := ku_length ku =? 0.

(** [message[start..].copy_from_slice(fragment)] for a range that was checked. *)
Definition overwrite (l : list byte) (i : Z) (bytes : list byte) : list byte :=
  take (Z.to_nat i) l ++ bytes ++ drop (Z.to_nat (i + len bytes)) l.

Definition push_record (fragment : list byte) : IO KeyUpdateReassembly TlsApplicationIoError (option KeyUpdateRequest) :=
  _ ← io_check (negb (bool_decide (fragment = []))) TaInvalidKeyUpdate;
  io_reads (fun ku =>
  match checked_add USIZE_MAX (ku_length ku) (len fragment) with
  | None => io_throw TaInvalidKeyUpdate
  | Some stop =>
    _ ← io_check (stop <=? KEY_UPDATE_MESSAGE_LEN) TaInvalidKeyUpdate;
    _ ← io_check (bool_decide (is_Some (get_range (ku_message ku) (ku_length ku) stop))) TaInvalidKeyUpdate;
    let message := overwrite (ku_message ku) (ku_length ku) fragment in
    _ ← io_put {| ku_message := message; ku_length := stop |};
    let header_len := Z.min stop (len KEY_UPDATE_HEADER) in
    _ ← io_check (bool_decide (get_range message 0 header_len = get_range KEY_UPDATE_HEADER 0 header_len)) TaInvalidKeyUpdate;
    if stop <? KEY_UPDATE_MESSAGE_LEN then mret None
    else
      _ ← io_put {| ku_message := message; ku_length := 0 |};
      match message !! 4%nat with
      | Some x00 => mret (Some NotRequested)
      | Some x01 => mret (Some Requested)
      | Some _ => io_throw TaInvalidKeyUpdate
      | None => fun s => (Panic, s)
      end
  end).

(** ** Opened records

    What both readers share of a session: the read direction's record layer, the
    KeyUpdate reassembly and the flags shared with the writer. *)

Record ReadSession := { rs_records : Tls13RecordLayer; rs_key_update : KeyUpdateReassembly; rs_coordination : KeyUpdateCoordination }.

Inductive OpenedRecordOutcome := OutcomeApplicationData (plaintext_len : Z) | OutcomeControl (key_update_requested : bool).

Definition keys_state : Type := Tls13RecordLayer * KeyUpdateReassembly.

Section Opened.
Context {C : Tls13Ops}.

Definition process_key_update_record (fragment : list byte) : IO keys_state TlsApplicationIoError (option KeyUpdateRequest) :=
  fun '(records, ku) =>
    match push_record fragment ku with
    | (Ok None, ku) => (Ok None, (records, ku))
    | (Ok (Some request), ku) =>
      match update_traffic_secret records with
      | Ok records => (Ok (Some request), (records, ku))
      | Err e => (Err (TaRecord e), (records, ku))
      | Panic => (Panic, (records, ku))
      end
    | (Err e, ku) => (Err e, (records, ku))
    | (Panic, ku) => (Panic, (records, ku))
    end.

Definition process_opened_record (content_type : ContentType) (plaintext : list byte)
    : IO keys_state TlsApplicationIoError OpenedRecordOutcome :=
  io_reads (fun '(_, ku) =>
  match content_type with
  | CtApplicationData =>
    _ ← io_check (ku_is_empty ku) TaInvalidKeyUpdate;
    mret (OutcomeApplicationData (len plaintext))
  | CtAlert =>
    _ ← io_check (ku_is_empty ku) TaInvalidKeyUpdate;
    match plaintext with
    | [level; description] => io_throw (TaPeerAlert level description)
    | _ => io_throw TaInvalidAlert
    end
  | CtHandshake =>
    request ← process_key_update_record plaintext;
    mret (OutcomeControl (bool_decide (request = Some Requested)))
  | CtChangeCipherSpec => io_throw (if ku_is_empty ku then TaUnexpectedContentType content_type else TaInvalidKeyUpdate)
  end).

(** The bytes of an opened record: the AEAD leaves the inner plaintext over the
    ciphertext. A failed open returns nothing from them. *)
Definition opened_bytes (l : Tls13RecordLayer) (record : list byte) : list byte :=
  match open_checked l record with
  | Ok region => overwrite record TLS_RECORD_HEADER_LEN region
  | _ => record
  end.

(** Opens one record and processes it; the record's bytes afterwards are part of
    the result. *)
Definition open_and_process (record : list byte) (s : ReadSession)
    : result TlsApplicationIoError OpenedRecordOutcome * list byte * ReadSession :=
  let record' := opened_bytes (rs_records s) record in
  match open_in_place (rs_records s) record with
  | (Err e, l) => (Err (TaRecord e), record', {| rs_records := l; rs_key_update := rs_key_update s; rs_coordination := rs_coordination s |})
  | (Panic, l) => (Panic, record', {| rs_records := l; rs_key_update := rs_key_update s; rs_coordination := rs_coordination s |})
  | (Ok (t, plaintext), l) =>
    let '(outcome, (l, ku)) := process_opened_record t plaintext (l, rs_key_update s) in
    (outcome, record', {| rs_records := l; rs_key_update := ku; rs_coordination := rs_coordination s |})
  end.

(** [response_observed.store(true)] when the peer asked for an update. *)
Definition note_request (requested : bool) (s : ReadSession) : ReadSession :=
  if requested then
    {| rs_records := rs_records s; rs_key_update := rs_key_update s;
       rs_coordination := {| response_pending := response_pending (rs_coordination s); response_observed := true |} |}
  else s.
End Opened.

(** ** The transport *)

Inductive ReadEnd := EndEof | EndTimeout | EndIo.

(** The bytes the peer still delivers and the reads made so far. *)
Record Transport := { tp_stream : list byte; tp_reads : nat }.

(** What the environment decides before and at the [k]-th read: whether an
    allocation succeeds, whether the idle window can be armed, the bytes a read
    delivers at most (at least one while the stream lasts), and what every read
    after the stream's last byte reports. *)
Record ReadEnv := {
  read_alloc : nat -> bool;
  read_armed : nat -> bool;
  read_size : nat -> nat;
  read_end : ReadEnd;
  prefix_alloc : bool;
}.

Inductive IdleRead := IrBytes (bytes : list byte) | IrTimeout | IrIo.

(** [IdleDeadline::read] into [room] bytes. *)
Definition idle_read (env : ReadEnv) (room : nat) (t : Transport) : IdleRead * Transport :=
  let t' n := {| tp_stream := drop n (tp_stream t); tp_reads := S (tp_reads t) |} in
  match tp_stream t with
  | [] => (match read_end env with EndEof => IrBytes [] | EndTimeout => IrTimeout | EndIo => IrIo end, t' 0%nat)
  | _ =>
    let n := Nat.min (Nat.min room (length (tp_stream t))) (Nat.max 1 (read_size env (tp_reads t))) in
    (IrBytes (take n (tp_stream t)), t' n)
  end.

(** [consumed_failure] and [buffered_failure]: the consumed bytes are copied into
    the error unless that allocation fails. *)
Definition consumed_failure (env : ReadEnv) (kind : TlsRecordReadErrorKind) (wire : list byte) : TlsRecordReadError :=
  {| read_kind := kind; wire_prefix := if prefix_alloc env then wire else [] |}.

Definition header_body_len (header : list byte) : Z := from_be (take 2 (drop 3 header)).

Definition body_len_invalid (n : Z) : bool := (n =? 0) || (MAX_TLS13_CIPHERTEXT_LEN <? n).

(** ** The buffered reader *)

Record TlsApplicationReader := {
  rd_io : Transport;
  rd_session : ReadSession;
  socket_buffer : list byte;
  buffer_capacity : Z;
  buffered_start : Z;
  buffered_end : Z;
}.

Definition set_buffer (st : TlsApplicationReader) (buffer : list byte) (capacity start stop : Z) : TlsApplicationReader :=
  {| rd_io := rd_io st; rd_session := rd_session st; socket_buffer := buffer; buffer_capacity := capacity;
     buffered_start := start; buffered_end := stop |}.

Definition set_session (st : TlsApplicationReader) (s : ReadSession) : TlsApplicationReader :=
  {| rd_io := rd_io st; rd_session := s; socket_buffer := socket_buffer st; buffer_capacity := buffer_capacity st;
     buffered_start := buffered_start st; buffered_end := buffered_end st |}.

Definition buffered_bytes (st : TlsApplicationReader) : list byte :=
  default [] (get_range (socket_buffer st) (buffered_start st) (buffered_end st)).

(** [application_halves], reader side: [capacity] is what the buffer has after the
    best-effort reservation. *)
Definition resumed_reader (io : Transport) (pending : list byte) (capacity : Z) (records : Tls13RecordLayer)
    (key_update_response_pending : bool) : TlsApplicationReader :=
  {| rd_io := io;
     rd_session := {| rs_records := records; rs_key_update := new_reassembly;
                      rs_coordination := new_coordination key_update_response_pending |};
     socket_buffer := pending; buffer_capacity := capacity; buffered_start := 0; buffered_end := len pending |}.

(** [into_split] and [into_owned_split], reader side: the buffer is allocated by
    the first refill. *)
Definition split_reader (io : Transport) (session : ReadSession) : TlsApplicationReader :=
  {| rd_io := io; rd_session := session; socket_buffer := []; buffer_capacity := 0; buffered_start := 0; buffered_end := 0 |}.

Definition into_inner_with_pending (st : TlsApplicationReader) : list byte * Transport := (buffered_bytes st, rd_io st).
Definition into_handoff_parts (st : TlsApplicationReader) : list byte * Transport * Tls13RecordLayer :=
  (buffered_bytes st, rd_io st, rs_records (rd_session st)).

#[local] Notation buffered := (IO TlsApplicationReader TlsApplicationIoError).

Definition zero_bytes (n : Z) : list byte := replicate (Z.to_nat n) x00.

(** [resize(n, 0)] of a vector that is not longer. *)
Definition resize (l : list byte) (n : Z) : list byte := l ++ zero_bytes (n - len l).

Definition ensure_socket_buffer (ok : bool) : buffered unit :=
  st ← io_get;
  if buffer_capacity st =? 0 then
    _ ← io_check ok (TaRecord RBufferAllocation);
    io_put (set_buffer st (zero_bytes SOCKET_BUFFER_CAPACITY) SOCKET_BUFFER_CAPACITY (buffered_start st) (buffered_end st))
  else if bool_decide (socket_buffer st = []) then
    io_put (set_buffer st (resize [] (buffer_capacity st)) (buffer_capacity st) (buffered_start st) (buffered_end st))
  else mret tt.

Definition compact : buffered unit :=
  st ← io_get;
  if buffered_start st =? buffered_end st then
    io_put (set_buffer st (socket_buffer st) (buffer_capacity st) 0 0)
  else if len (socket_buffer st) - buffered_end st <? MAX_TLS_RECORD_WIRE_LEN then
    let count := buffered_end st - buffered_start st in
    io_put (set_buffer st
      (take (Z.to_nat count) (drop (Z.to_nat (buffered_start st)) (socket_buffer st)) ++ drop (Z.to_nat count) (socket_buffer st))
      (buffer_capacity st) 0 count)
  else mret tt.

Definition grow (ok : bool) : buffered unit :=
  st ← io_get;
  if buffered_end st =? len (socket_buffer st) then
    let growth := saturating_sub SOCKET_BUFFER_CAPACITY (len (socket_buffer st)) in
    _ ← io_check (negb (growth =? 0)) (TaRecord RInvalidLength);
    _ ← io_check ok (TaRecord RBufferAllocation);
    io_put (set_buffer st (resize (socket_buffer st) SOCKET_BUFFER_CAPACITY)
      (Z.max (buffer_capacity st) SOCKET_BUFFER_CAPACITY) (buffered_start st) (buffered_end st))
  else mret tt.

Section BufferedReader.
Context {C : Tls13Ops} (env : ReadEnv).

Definition refill_failure (st : TlsApplicationReader) (kind : TlsRecordReadErrorKind) : TlsApplicationIoError :=
  TaRead (consumed_failure env kind (buffered_bytes st)).

(** The read of [refill] into the free tail. *)
Definition read_tail : buffered unit := fun st =>
  let tail := drop (Z.to_nat (buffered_end st)) (socket_buffer st) in
  let '(answer, io) := idle_read env (length tail) (rd_io st) in
  let st := {| rd_io := io; rd_session := rd_session st; socket_buffer := socket_buffer st; buffer_capacity := buffer_capacity st;
               buffered_start := buffered_start st; buffered_end := buffered_end st |} in
  match answer with
  | IrBytes [] => (Err (refill_failure st RkUnexpectedEof), st)
  | IrBytes bytes =>
    (Ok tt, set_buffer st (overwrite (socket_buffer st) (buffered_end st) bytes) (buffer_capacity st)
      (buffered_start st) (buffered_end st + len bytes))
  | IrTimeout => (Err (refill_failure st RkTimeout), st)
  | IrIo => (Err (refill_failure st RkIo), st)
  end.

Definition refill : buffered unit :=
  st ← io_get;
  let k := tp_reads (rd_io st) in
  _ ← ensure_socket_buffer (read_alloc env k);
  _ ← compact;
  _ ← grow (read_alloc env k);
  _ ← io_check (read_armed env k) TaTimeout;
  st ← io_get;
  (* [get_mut(end..)] *)
  _ ← io_check (buffered_end st <=? len (socket_buffer st)) (TaRecord RInvalidLength);
  read_tail.

(** [while buffered < target { refill }]; out of fuel is [Panic]. *)
Fixpoint fill_to (fuel : nat) (target : Z) : buffered unit :=
  io_reads (fun st =>
  if buffered_end st - buffered_start st <? target then
    match fuel with
    | O => fun st => (Panic, st)
    | S fuel => _ ← refill; fill_to fuel target
    end
  else mret tt).

(** From the complete record to its plaintext: the cursor moves first. *)
Definition take_record (record_len : Z) : buffered (list byte) :=
  st ← io_get;
  let record_start := buffered_start st in
  let record_end := record_start + record_len in
  let st := set_buffer st (socket_buffer st) (buffer_capacity st) record_end (buffered_end st) in
  _ ← io_put st;
  match get_range (socket_buffer st) record_start record_end with
  | None => io_throw (TaRecord RInvalidLength)
  | Some record =>
    let '(outcome, record, session) := open_and_process record (rd_session st) in
    let st := set_session (set_buffer st (overwrite (socket_buffer st) record_start record) (buffer_capacity st)
      (buffered_start st) (buffered_end st)) session in
    _ ← io_put st;
    match outcome with
    | Err e => io_throw e
    | Panic => fun st => (Panic, st)
    | Ok (OutcomeControl requested) => _ ← io_put (set_session st (note_request requested session)); mret []
    | Ok (OutcomeApplicationData plaintext_len) =>
      match checked_add USIZE_MAX record_start TLS_RECORD_HEADER_LEN with
      | None => io_throw (TaRecord RInvalidLength)
      | Some plaintext_start =>
        match checked_add USIZE_MAX plaintext_start plaintext_len with
        | None => io_throw (TaRecord RInvalidLength)
        | Some plaintext_end =>
          match get_range (socket_buffer st) plaintext_start plaintext_end with
          | None => io_throw (TaRecord RInvalidLength)
          | Some plaintext => mret plaintext
          end
        end
      end
    end
  end.

Definition read_application : buffered (list byte) :=
  _ ← fill_to (Z.to_nat TLS_RECORD_HEADER_LEN) TLS_RECORD_HEADER_LEN;
  st ← io_get;
  match get_range (socket_buffer st) (buffered_start st) (buffered_start st + TLS_RECORD_HEADER_LEN) with
  | None => io_throw (TaRecord RInvalidLength)
  | Some header =>
    let body_len := header_body_len header in
    if body_len_invalid body_len then io_throw (TaRead (consumed_failure env RkRecordTooLarge header))
    else
      let record_len := TLS_RECORD_HEADER_LEN + body_len in
      _ ← fill_to (Z.to_nat record_len) record_len;
      take_record record_len
  end.

Definition has_buffered_record (st : TlsApplicationReader) : bool :=
  let count := buffered_end st - buffered_start st in
  if count <? TLS_RECORD_HEADER_LEN then false
  else
    match get_range (socket_buffer st) (buffered_start st) (buffered_start st + TLS_RECORD_HEADER_LEN) with
    | None => false
    | Some header => TLS_RECORD_HEADER_LEN + header_body_len header <=? count
    end.
End BufferedReader.

(** ** The record-exact reader

    [ti_wire] is the reused storage; a read leaves stale bytes behind the record. *)

Record TlsApplicationIo := { ti_io : Transport; ti_session : ReadSession; ti_wire : list byte; ti_capacity : Z }.

#[local] Notation exact := (IO TlsApplicationIo TlsApplicationIoError).

Section ExactReader.
Context {C : Tls13Ops} (env : ReadEnv).

Definition set_wire (st : TlsApplicationIo) (wire : list byte) (capacity : Z) : TlsApplicationIo :=
  {| ti_io := ti_io st; ti_session := ti_session st; ti_wire := wire; ti_capacity := capacity |}.

Definition ensure_record_storage : exact unit :=
  st ← io_get;
  if ti_capacity st =? 0 then
    _ ← io_check (read_alloc env (tp_reads (ti_io st))) (TaRecord RBufferAllocation);
    io_put (set_wire st [] MAX_TLS_RECORD_WIRE_LEN)
  else mret tt.

(** The loop of [read_exact_into]; on a failure the storage is cut to the bytes
    consumed. Out of fuel is [Panic]. *)
Fixpoint read_exact_loop (fuel : nat) (filled target_len : Z) : IO TlsApplicationIo TlsRecordReadErrorKind unit :=
  if filled <? target_len then
    match fuel with
    | O => fun st => (Panic, st)
    | S fuel => fun st =>
      let cut kind io :=
        (Err kind, {| ti_io := io; ti_session := ti_session st; ti_wire := take (Z.to_nat filled) (ti_wire st); ti_capacity := ti_capacity st |}) in
      match get_range (ti_wire st) filled target_len with
      | None => (Err RkUnexpectedEof, st)
      | Some destination =>
        match idle_read env (length destination) (ti_io st) with
        | (IrBytes [], io) => cut RkUnexpectedEof io
        | (IrTimeout, io) => cut RkTimeout io
        | (IrIo, io) => cut RkIo io
        | (IrBytes bytes, io) =>
          read_exact_loop fuel (filled + Z.min (len bytes) (saturating_sub target_len filled)) target_len
            {| ti_io := io; ti_session := ti_session st; ti_wire := overwrite (ti_wire st) filled bytes; ti_capacity := ti_capacity st |}
        end
      end
    end
  else mret tt.

Definition read_exact_into (start target_len : Z) : IO TlsApplicationIo TlsRecordReadErrorKind unit :=
  st ← io_get;
  _ ← (if len (ti_wire st) <? target_len then
         _ ← io_check (negb (ti_capacity st <? target_len) || read_alloc env (tp_reads (ti_io st))) RkRecordTooLarge;
         io_put (set_wire st (resize (ti_wire st) target_len) (Z.max (ti_capacity st) target_len))
       else mret tt);
  read_exact_loop (Z.to_nat (target_len - start)) start target_len.

(** [read_exact_into(..)] with the failure wrapped around the bytes consumed. *)
Definition or_consumed (m : IO TlsApplicationIo TlsRecordReadErrorKind unit) : IO TlsApplicationIo TlsRecordReadError unit :=
  fun st =>
    match m st with
    | (Ok u, st) => (Ok u, st)
    | (Err kind, st) => (Err (consumed_failure env kind (ti_wire st)), st)
    | (Panic, st) => (Panic, st)
    end.

Definition read_tls_record_into : IO TlsApplicationIo TlsRecordReadError Z :=
  _ ← or_consumed (read_exact_into 0 TLS_RECORD_HEADER_LEN);
  st ← io_get;
  match get_range (ti_wire st) 0 TLS_RECORD_HEADER_LEN with
  | None => io_throw (consumed_failure env RkUnexpectedEof (ti_wire st))
  | Some header =>
    let body_len := header_body_len header in
    let too_large :=
      let st := set_wire st (take (Z.to_nat TLS_RECORD_HEADER_LEN) (ti_wire st)) (ti_capacity st) in
      _ ← io_put st; io_throw (consumed_failure env RkRecordTooLarge (ti_wire st)) in
    if body_len_invalid body_len then too_large
    else
      match checked_add USIZE_MAX TLS_RECORD_HEADER_LEN body_len with
      | None => too_large
      | Some record_end =>
        _ ← or_consumed (read_exact_into TLS_RECORD_HEADER_LEN record_end);
        mret record_end
      end
  end.

Definition read_application_record : exact (list byte) :=
  _ ← ensure_record_storage;
  length ← (fun st =>
    match read_tls_record_into st with
    | (Ok n, st) => (Ok n, st)
    | (Err e, st) => (Err (TaRead e), st)
    | (Panic, st) => (Panic, st)
    end);
  st ← io_get;
  match get_range (ti_wire st) 0 length with
  | None => io_throw (TaRecord RInvalidLength)
  | Some record =>
    let '(outcome, record, session) := open_and_process record (ti_session st) in
    let wire := overwrite (ti_wire st) 0 record in
    let with_session session := {| ti_io := ti_io st; ti_session := session; ti_wire := wire; ti_capacity := ti_capacity st |} in
    _ ← io_put (with_session session);
    match outcome with
    | Err e => io_throw e
    | Panic => fun st => (Panic, st)
    | Ok (OutcomeControl requested) => _ ← io_put (with_session (note_request requested session)); mret []
    | Ok (OutcomeApplicationData plaintext_len) =>
      match checked_add USIZE_MAX TLS_RECORD_HEADER_LEN plaintext_len with
      | None => io_throw (TaRecord RInvalidLength)
      | Some plaintext_end =>
        match get_range wire TLS_RECORD_HEADER_LEN plaintext_end with
        | None => io_throw (TaRecord RInvalidLength)
        | Some plaintext => mret plaintext
        end
      end
    end
  end.

(** [TlsApplicationIo::read_application]. *)
Definition read_application_exact : exact (list byte) :=
  st ← io_get;
  _ ← io_check (read_armed env (tp_reads (ti_io st))) TaTimeout;
  read_application_record.
End ExactReader.

(** ** Specification

    Reading one application record from a byte stream, independent of buffers and
    of how the transport cuts the stream. *)

Inductive Framing := FrIncomplete | FrInvalid | FrRecord (record rest : list byte).

Definition frame_of (stream : list byte) : Framing :=
  if len stream <? TLS_RECORD_HEADER_LEN then FrIncomplete
  else
    let body_len := header_body_len (take 5 stream) in
    if body_len_invalid body_len then FrInvalid
    else if len stream <? TLS_RECORD_HEADER_LEN + body_len then FrIncomplete
    else FrRecord (take (Z.to_nat (TLS_RECORD_HEADER_LEN + body_len)) stream) (drop (Z.to_nat (TLS_RECORD_HEADER_LEN + body_len)) stream).

Definition end_kind (e : ReadEnd) : TlsRecordReadErrorKind :=
  match e with EndEof => RkUnexpectedEof | EndTimeout => RkTimeout | EndIo => RkIo end.

Section Spec.
Context {C : Tls13Ops}.

Definition deliver (record : list byte) (s : ReadSession) : result TlsApplicationIoError (list byte) * ReadSession :=
  let with_keys l ku := {| rs_records := l; rs_key_update := ku; rs_coordination := rs_coordination s |} in
  match open_in_place (rs_records s) record with
  | (Err e, l) => (Err (TaRecord e), with_keys l (rs_key_update s))
  | (Panic, l) => (Panic, with_keys l (rs_key_update s))
  | (Ok (t, plaintext), l) =>
    match process_opened_record t plaintext (l, rs_key_update s) with
    | (Ok (OutcomeApplicationData _), (l, ku)) => (Ok plaintext, with_keys l ku)
    | (Ok (OutcomeControl requested), (l, ku)) => (Ok [], note_request requested (with_keys l ku))
    | (Err e, (l, ku)) => (Err e, with_keys l ku)
    | (Panic, (l, ku)) => (Panic, with_keys l ku)
    end
  end.

(** One read: the result, the session and the stream left. A stream that ends
    inside a record reports how it ended and the whole partial record. *)
Definition read_spec (e : ReadEnd) (s : ReadSession) (stream : list byte)
    : result TlsApplicationIoError (list byte) * ReadSession * list byte :=
  match frame_of stream with
  | FrIncomplete => (Err (TaRead {| read_kind := end_kind e; wire_prefix := stream |}), s, stream)
  | FrInvalid => (Err (TaRead {| read_kind := RkRecordTooLarge; wire_prefix := take 5 stream |}), s, stream)
  | FrRecord record rest => let '(r, s) := deliver record s in (r, s, rest)
  end.
End Spec.

(** ** Lemmas on slices and constants *)

Lemma max_wire_eq : MAX_TLS_RECORD_WIRE_LEN = 16406.
Proof. reflexivity. Qed.
Lemma socket_capacity_eq : SOCKET_BUFFER_CAPACITY = 65624.
Proof. reflexivity. Qed.
#[local] Opaque SOCKET_BUFFER_CAPACITY MAX_TLS_RECORD_WIRE_LEN zero_bytes.

Lemma len_zero_bytes n : 0 <= n -> len (zero_bytes n) = n.
Proof. intros Hn. Transparent zero_bytes. unfold zero_bytes. rewrite len_replicate. lia. Qed.
#[local] Opaque zero_bytes.

Lemma overwrite_mid pre old post bytes i :
  i = len pre -> len old = len bytes -> overwrite (pre ++ old ++ post) i bytes = pre ++ bytes ++ post.
Proof.
  intros -> Ho. unfold overwrite. unfold len in *.
  replace (Z.to_nat (Z.of_nat (length pre) + Z.of_nat (length bytes))) with (length pre + length old)%nat by lia.
  rewrite Nat2Z.id, take_app_length, <- drop_drop, !drop_app_length. done.
Qed.

Lemma get_range_mid {A} (pre s post : list A) i j :
  i = len pre -> j = i + len s -> get_range (pre ++ s ++ post) i j = Some s.
Proof. intros -> ->. rewrite get_range_app_r by lia. rewrite Z.sub_diag. apply get_range_prefix. lia. Qed.

Lemma header_body_len_range header : 0 <= header_body_len header <= U16_MAX.
Proof.
  unfold header_body_len. pose proof (from_be_range (take 2 (drop 3 header))) as H.
  assert (len (take 2 (drop 3 header)) <= 2) by slen.
  pose proof (len_nonneg (take 2 (drop 3 header))).
  pose proof (Z.pow_le_mono_r 256 (len (take 2 (drop 3 header))) 2 ltac:(lia) ltac:(lia)). unfold U16_MAX. lia.
Qed.

Lemma body_len_valid n : body_len_invalid n = false <-> n <> 0 /\ n <= MAX_TLS13_CIPHERTEXT_LEN.
Proof. unfold body_len_invalid. rewrite orb_false_iff, Z.eqb_neq, Z.ltb_ge. done. Qed.

(** ** Framing of a stream in pieces *)

Lemma split_prefix {A} n (l : list A) : 0 <= n <= len l -> exists k r, l = k ++ r /\ len k = n.
Proof. intros Hn. exists (take (Z.to_nat n) l), (drop (Z.to_nat n) l). rewrite take_drop. split; [done|slen]. Qed.

Lemma frame_of_short stream : len stream < TLS_RECORD_HEADER_LEN -> frame_of stream = FrIncomplete.
Proof. intros H. unfold frame_of. by rewrite (proj2 (Z.ltb_lt _ _)). Qed.

Section Framing.
Context (header : list byte) (Hh : len header = 5).

Lemma take_header rest : take 5 (header ++ rest) = header.
Proof. apply take_app_length'. unfold len in Hh. lia. Qed.

Lemma frame_of_invalid rest : body_len_invalid (header_body_len header) = true -> frame_of (header ++ rest) = FrInvalid.
Proof. intros H. unfold frame_of. rewrite (proj2 (Z.ltb_ge _ _)) by (unfold TLS_RECORD_HEADER_LEN; slen). by rewrite take_header, H. Qed.

Lemma frame_of_partial rest :
  body_len_invalid (header_body_len header) = false -> len (header ++ rest) < TLS_RECORD_HEADER_LEN + header_body_len header ->
  frame_of (header ++ rest) = FrIncomplete.
Proof. intros H Hl. unfold frame_of. rewrite take_header, H, (proj2 (Z.ltb_lt _ (_ + _))) by done. by case_match. Qed.

Lemma frame_of_full body rest :
  body_len_invalid (header_body_len header) = false -> len body = header_body_len header ->
  frame_of ((header ++ body) ++ rest) = FrRecord (header ++ body) rest.
Proof.
  intros H Hl. pose proof (len_nonneg body). pose proof (len_nonneg rest). unfold frame_of. rewrite <- app_assoc, take_header, H.
  rewrite !(proj2 (Z.ltb_ge _ _)) by (unfold TLS_RECORD_HEADER_LEN; rewrite !len_app; lia).
  rewrite app_assoc. replace (Z.to_nat (TLS_RECORD_HEADER_LEN + header_body_len header)) with (length (header ++ body)).
  - by rewrite take_app_length, drop_app_length.
  - rewrite length_app. unfold TLS_RECORD_HEADER_LEN, len in *. lia.
Qed.
End Framing.

(** ** The buffered reader refines the specification *)

Definition read_env_ok (env : ReadEnv) : Prop :=
  (forall k, read_alloc env k = true) /\ (forall k, read_armed env k = true) /\ prefix_alloc env = true.

(** The buffered range is [pend], between stale bytes and the free tail; a
    vector's capacity fits an [isize]. *)
Definition ISIZE_MAX : Z := 9223372036854775807.

Definition rd_holds (s : ReadSession) (pend kernel : list byte) (st : TlsApplicationReader) : Prop :=
  tp_stream (rd_io st) = kernel /\ rd_session st = s /\ 0 <= buffer_capacity st <= ISIZE_MAX /\ len (socket_buffer st) <= buffer_capacity st /\
  exists pre post, socket_buffer st = pre ++ pend ++ post /\ buffered_start st = len pre /\ buffered_end st = len pre + len pend.

Lemma rd_holds_bytes s pend kernel st : rd_holds s pend kernel st -> buffered_bytes st = pend.
Proof.
  intros (_ & _ & _ & _ & pre & post & Hb & Hs & He). unfold buffered_bytes.
  rewrite Hb, Hs, He. by rewrite (get_range_mid pre pend post).
Qed.

Section Refill.
Context (env : ReadEnv) (Henv : read_env_ok env).
Context (s : ReadSession) (pend kernel : list byte) (Hroom : len pend < MAX_TLS_RECORD_WIRE_LEN).

Lemma ensure_socket_buffer_holds k (X : TlsApplicationIoError -> TlsApplicationReader -> Prop) :
  etriple (rd_holds s pend kernel) (ensure_socket_buffer (read_alloc env k))
    (fun _ st => rd_holds s pend kernel st /\ socket_buffer st <> []) X.
Proof.
  apply etriple_get_bind. intros st Hst. pose proof Hst as (Hk & Hsess & Hc0 & Hc & pre & post & Hb & Hs & He).
  rewrite (proj1 Henv). pose proof socket_capacity_eq as Hcap.
  assert (Hfresh : socket_buffer st = [] -> forall n, 0 < n <= ISIZE_MAX -> forall buffer, len buffer = n ->
    rd_holds s pend kernel (set_buffer st buffer n (buffered_start st) (buffered_end st)) /\ buffer <> []).
  { intros Hnil n Hn buffer Hlb. rewrite Hnil in Hb. symmetry in Hb. apply app_nil in Hb as [-> [-> ->]%app_nil].
    split; [|intros ->; change (len []) with 0 in Hlb; lia]. refine (conj Hk (conj Hsess (conj _ (conj _ _)))); cbn; [lia|lia|].
    exists [], buffer. done. }
  destruct (Z.eqb_spec (buffer_capacity st) 0) as [Hz|Hnz].
  - intros ? ->. assert (Hnil : socket_buffer st = []) by (destruct (socket_buffer st); [done|slen]).
    apply (Hfresh Hnil SOCKET_BUFFER_CAPACITY); [unfold ISIZE_MAX; lia|]. apply len_zero_bytes. lia.
  - case_bool_decide as Hnil.
    + intros ? ->. apply (Hfresh Hnil (buffer_capacity st)); [lia|]. unfold resize. cbn [app socket_buffer set_buffer].
      rewrite len_zero_bytes; change (len []) with 0; lia.
    + intros ? ->. done.
Qed.

Lemma compact_holds (X : TlsApplicationIoError -> TlsApplicationReader -> Prop) :
  etriple (fun st => rd_holds s pend kernel st /\ socket_buffer st <> []) compact
    (fun _ st => rd_holds s pend kernel st /\ socket_buffer st <> [] /\
       (buffered_end st = len (socket_buffer st) -> len (socket_buffer st) = len pend)) X.
Proof.
  apply etriple_get_bind. intros st [Hst Hne]. pose proof Hst as (Hk & Hsess & Hc0 & Hc & pre & post & Hb & Hs & He).
  rewrite max_wire_eq in *. pose proof (len_nonneg pend). pose proof (len_nonneg pre).
  destruct (Z.eqb_spec (buffered_start st) (buffered_end st)) as [Heq|Hneq].
  - intros ? ->. cbn. assert (pend = []) as -> by (destruct pend; [done|slen]).
    split; [|split; [done|cbn; intros <-; done]]. refine (conj Hk (conj Hsess (conj Hc0 (conj Hc _)))). by exists [], (socket_buffer st).
  - destruct (Z.ltb_spec (len (socket_buffer st) - buffered_end st) 16406) as [Hlt|Hge].
    + intros ? ->. cbn [fst snd].
      assert (Hp : take (Z.to_nat (buffered_end st - buffered_start st)) (drop (Z.to_nat (buffered_start st)) (socket_buffer st)) = pend).
      { replace (Z.to_nat (buffered_end st - buffered_start st)) with (length pend) by (unfold len in *; lia).
        replace (Z.to_nat (buffered_start st)) with (length pre) by (unfold len in *; lia).
        by rewrite Hb, drop_app_length, take_app_length. }
      rewrite Hp. set (tail := drop _ (socket_buffer st)).
      assert (Ht : len tail = len (socket_buffer st) - len pend).
      { unfold tail. rewrite len_drop. rewrite Hb, !len_app. slen. }
      assert (Hl : len (pend ++ tail) = len (socket_buffer st)) by (rewrite len_app; lia).
      unfold io_put. cbn. split; [|split].
      * refine (conj Hk (conj Hsess (conj Hc0 (conj _ _)))); cbn; [lia|]. exists [], tail. split_and!; [done|done|].
        change (buffered_end st - buffered_start st = 0 + len pend). lia.
      * intros Hnil. rewrite Hnil in Hl. destruct (socket_buffer st); [done|slen].
      * intros Hend. lia.
    + intros ? ->. cbn. split_and!; [done|done|]. intros Hend. lia.
Qed.

Lemma grow_holds k (X : TlsApplicationIoError -> TlsApplicationReader -> Prop) :
  etriple (fun st => rd_holds s pend kernel st /\ socket_buffer st <> [] /\
       (buffered_end st = len (socket_buffer st) -> len (socket_buffer st) = len pend)) (grow (read_alloc env k))
    (fun _ st => rd_holds s pend kernel st /\ buffered_end st < len (socket_buffer st)) X.
Proof.
  apply etriple_get_bind. intros st (Hst & Hne & Hfull). pose proof Hst as (Hk & Hsess & Hc0 & Hc & pre & post & Hb & Hs & He).
  rewrite (proj1 Henv). pose proof socket_capacity_eq as Hcap. pose proof (len_nonneg pend). rewrite max_wire_eq in Hroom.
  destruct (Z.eqb_spec (buffered_end st) (len (socket_buffer st))) as [Heq|Hneq].
  - specialize (Hfull Heq). unfold saturating_sub. destruct (Z.eqb_spec (Z.max 0 (SOCKET_BUFFER_CAPACITY - len (socket_buffer st))) 0) as [|_]; [lia|].
    intros ? ->. cbn. assert (Hz : len (zero_bytes (SOCKET_BUFFER_CAPACITY - len (socket_buffer st))) = SOCKET_BUFFER_CAPACITY - len (socket_buffer st))
      by (apply len_zero_bytes; lia).
    split; [|cbn; unfold resize; rewrite len_app, Hz; lia].
    refine (conj Hk (conj Hsess (conj _ (conj _ _)))); cbn; [unfold ISIZE_MAX in *; lia|unfold resize; rewrite len_app, Hz; lia|].
    exists pre, (post ++ zero_bytes (SOCKET_BUFFER_CAPACITY - len (socket_buffer st))). unfold resize. rewrite Hb at 1. by rewrite <- !app_assoc.
  - intros ? ->. split; [done|]. rewrite Hb in *. autorewrite with lens in *. pose proof (len_nonneg post). lia.
Qed.

Definition refilled (st : TlsApplicationReader) : Prop :=
  exists chunk kernel', chunk <> [] /\ kernel = chunk ++ kernel' /\ rd_holds s (pend ++ chunk) kernel' st.

Definition starved (e : TlsApplicationIoError) (st : TlsApplicationReader) : Prop :=
  kernel = [] /\ e = TaRead {| read_kind := end_kind (read_end env); wire_prefix := pend |} /\ rd_session st = s.

Lemma read_tail_holds :
  etriple (fun st => rd_holds s pend kernel st /\ buffered_end st < len (socket_buffer st)) (read_tail env)
    (fun _ => refilled) starved.
Proof.
  intros st [Hst Hlt]. pose proof Hst as (Hk & Hsess & Hc0 & Hc & pre & post & Hb & Hs & He).
  pose proof (rd_holds_bytes _ _ _ _ Hst) as Hbytes. unfold read_tail, idle_read. rewrite Hk.
  assert (Hdrop : drop (Z.to_nat (buffered_end st)) (socket_buffer st) = post).
  { rewrite Hb, app_assoc. apply drop_app_length'. rewrite length_app. unfold len in *. lia. }
  rewrite Hdrop. destruct kernel as [|b kernel'] eqn:Ek.
  - destruct Henv as (_ & _ & Hp). unfold starved, refill_failure, consumed_failure. unfold buffered_bytes in *.
    destruct (read_end env); cbn; rewrite Hp, Hbytes; by split_and!.
  - set (n := Nat.min _ _). assert (Hn : (0 < n /\ n <= length post /\ n <= length (b :: kernel'))%nat).
    { unfold n. rewrite Hb, !len_app in Hlt. unfold len in *. cbn [length]. lia. }
    clearbody n. destruct n as [|n]; [lia|]. cbn [take]. set (chunk := b :: take n kernel').
    assert (Hchunk : chunk = take (S n) (b :: kernel')) by done.
    assert (Hl : length chunk = S n) by (rewrite Hchunk, length_take; lia).
    exists chunk, (drop (S n) (b :: kernel')). split; [done|]. split; [rewrite Hchunk, Ek; by rewrite take_drop|].
    rewrite <- (take_drop (S n) post) in Hb.
    assert (How : overwrite (socket_buffer st) (buffered_end st) chunk = pre ++ (pend ++ chunk) ++ drop (S n) post).
    { rewrite Hb, app_assoc. rewrite overwrite_mid; [by rewrite <- !app_assoc|rewrite len_app; lia|].
      unfold len. rewrite length_take, Hl. lia. }
    cbn [socket_buffer buffered_end]. fold chunk. rewrite How.
    refine (conj eq_refl (conj Hsess (conj Hc0 (conj _ _)))); cbn.
    + rewrite Hb in Hc. autorewrite with lens in *. unfold len in *. lia.
    + exists pre, (drop (S n) post). split; [done|]. split; [done|]. rewrite len_app. lia.
Qed.

Lemma refill_holds : etriple (rd_holds s pend kernel) (refill env) (fun _ => refilled) starved.
Proof.
  apply etriple_get_bind. intros st0 Hst0.
  apply (etriple_consequence _ _ (rd_holds s pend kernel) _ (fun _ => refilled) _ starved); [|by intros st ->|done|done].
  eapply etriple_bind; [apply ensure_socket_buffer_holds|]. intros []. eapply etriple_bind; [apply compact_holds|].
  intros []. eapply etriple_bind; [apply grow_holds|]. intros [].
  apply etriple_check_bind; [by apply (proj1 (proj2 Henv))|]. apply etriple_get_bind. intros st [Hst Hlt].
  apply etriple_check_bind; [apply Z.leb_le; lia|].
  eapply etriple_consequence; [apply read_tail_holds|by intros ? ->|done|done].
Qed.
End Refill.

Lemma fill_to_holds env s target fuel :
  read_env_ok env -> target <= MAX_TLS_RECORD_WIRE_LEN -> forall pend kernel, (Z.to_nat (target - len pend) <= fuel)%nat ->
  etriple (rd_holds s pend kernel) (fill_to env fuel target)
    (fun _ st => exists chunk kernel', kernel = chunk ++ kernel' /\ target <= len (pend ++ chunk) /\ rd_holds s (pend ++ chunk) kernel' st)
    (fun e st => len (pend ++ kernel) < target /\ rd_session st = s /\
       e = TaRead {| read_kind := end_kind (read_end env); wire_prefix := pend ++ kernel |}).
Proof.
  intros Henv Htarget. induction fuel as [|fuel IH]; intros pend kernel Hfuel; cbn [fill_to];
    apply etriple_get_bind; intros st Hst; pose proof Hst as (_ & _ & _ & _ & pre & post & _ & Hs & He);
    replace (buffered_end st - buffered_start st) with (len pend) by lia;
    (destruct (Z.ltb_spec (len pend) target) as [Hlt|Hge];
      [|apply etriple_ret; intros ? ->; exists [], kernel; rewrite app_nil_r; by split_and!]).
  - exfalso. lia.
  - eapply etriple_bind.
    + eapply etriple_consequence; [apply (refill_holds env Henv s pend kernel); lia|by intros ? ->|intros a x H; exact H|].
      intros e st' (-> & -> & Hsess). rewrite app_nil_r. by split_and!.
    + intros [] st' (chunk & kernel' & Hne & -> & Hst').
      assert (Hf : (Z.to_nat (target - len (pend ++ chunk)) <= fuel)%nat) by (destruct chunk; [done|]; slen).
      specialize (IH (pend ++ chunk) kernel' Hf st' Hst'). destruct (fill_to env fuel target st') as [[[]|e|] st2].
      * destruct IH as (chunk' & k2 & -> & Ht & Hh). exists (chunk ++ chunk'), k2. rewrite !app_assoc in *. by split_and!.
      * rewrite !app_assoc in *. exact IH.
      * exact IH.
Qed.

(** ** One record, both ways *)

Section Deliver.
Context {C : Tls13Ops} {L : Tls13Laws C}.

Lemma opened_bytes_region l record region :
  open_checked l record = Ok region -> exists header tag, len header = 5 /\ opened_bytes l record = header ++ region ++ tag /\
    len (opened_bytes l record) = len record.
Proof.
  intros H. unfold opened_bytes. rewrite H. apply record_checked_inv in H as (_ & _ & body & tag & -> & Ht & Hb & Ho).
  apply record_open_len in Ho. exists (record_header (len body + TAG_LEN)), tag.
  assert (Hh : len (record_header (len body + TAG_LEN)) = 5) by apply len_record_header.
  rewrite overwrite_mid by (rewrite ?Hh; done). split_and!; [done|done|]. rewrite !len_app. lia.
Qed.

Lemma opened_bytes_len l record : len (opened_bytes l record) = len record.
Proof.
  destruct (open_checked l record) as [region| |] eqn:E.
  - by apply opened_bytes_region in E as (? & ? & _ & _ & ?).
  - unfold opened_bytes. by rewrite E.
  - unfold opened_bytes. by rewrite E.
Qed.

Lemma opened_plaintext l record t pt l' :
  open_in_place l record = (Ok (t, pt), l') ->
  get_range (opened_bytes l record) TLS_RECORD_HEADER_LEN (TLS_RECORD_HEADER_LEN + len pt) = Some pt.
Proof.
  unfold open_in_place. destruct (open_checked l record) as [region| |] eqn:E; [|done..].
  destruct (advance l) as [l1| |]; [|done..]. intros [= H _].
  pose proof (strip_content_outcome region) as Hs. rewrite H in Hs. destruct Hs as (pad & _ & ->).
  apply opened_bytes_region in E as (header & tag & Hh & -> & _). unfold inner_plaintext. rewrite <- !app_assoc.
  by rewrite (get_range_mid header pt).
Qed.

Lemma process_data_len t pt k n k' : process_opened_record t pt k = (Ok (OutcomeApplicationData n), k') -> n = len pt.
Proof.
  unfold process_opened_record, io_reads, io_get, io_check, io_throw, mbind, IO_bind, mret, IO_ret.
  destruct k as [l ku], t; intros H; repeat case_match; simplify_eq; done.
Qed.

Lemma open_and_process_deliver record s :
  let '(outcome, record', s') := open_and_process record s in
  len record' = len record /\
  match outcome with
  | Ok (OutcomeApplicationData n) => exists pt, deliver record s = (Ok pt, s') /\ n = len pt /\
      get_range record' TLS_RECORD_HEADER_LEN (TLS_RECORD_HEADER_LEN + n) = Some pt
  | Ok (OutcomeControl requested) => deliver record s = (Ok [], note_request requested s')
  | Err e => deliver record s = (Err e, s')
  | Panic => deliver record s = (Panic, s')
  end.
Proof.
  unfold open_and_process, deliver. pose proof (opened_bytes_len (rs_records s) record) as Hl.
  destruct (open_in_place (rs_records s) record) as [[[t pt]|e|] l] eqn:E; [|done..].
  destruct (process_opened_record t pt (l, rs_key_update s)) as [[[n|q]|e|] [l' ku]] eqn:Ep; [|done..].
  split; [done|]. pose proof (process_data_len _ _ _ _ _ Ep) as ->. exists pt. split_and!; [done|done|]. by eapply opened_plaintext.
Qed.
End Deliver.

Section Refinement.
Context {C : Tls13Ops} {L : Tls13Laws C} (env : ReadEnv) (Henv : read_env_ok env).

(** The reader holds the session and the stream, wherever its bytes are. *)
Definition reads_from (s : ReadSession) (stream : list byte) (st : TlsApplicationReader) : Prop :=
  exists pend kernel, stream = pend ++ kernel /\ rd_holds s pend kernel st.

Lemma take_record_deliver s record pend kernel st :
  rd_holds s (record ++ pend) kernel st ->
  let '(r, st') := take_record (len record) st in
  deliver record s = (r, rd_session st') /\ (is_ok r = true -> rd_holds (rd_session st') pend kernel st').
Proof.
  intros (Hk & Hsess & Hc0 & Hc & pre & post & Hb & Hs & He).
  unfold take_record, mbind, IO_bind, io_get, io_put. cbn [socket_buffer set_buffer rd_session].
  rewrite Hb, <- app_assoc, (get_range_mid pre record) by lia. rewrite Hsess.
  pose proof (open_and_process_deliver record s) as Hd. destruct (open_and_process record s) as [[outcome record'] s'].
  destruct Hd as [Hl Hd]. rewrite overwrite_mid by done. cbn [socket_buffer set_buffer set_session].
  assert (Hholds : forall s2, rd_holds s2 pend kernel {| rd_io := rd_io st; rd_session := s2; socket_buffer := pre ++ record' ++ pend ++ post;
      buffer_capacity := buffer_capacity st; buffered_start := buffered_start st + len record; buffered_end := buffered_end st |}).
  { intros s2. refine (conj Hk (conj eq_refl (conj Hc0 (conj _ _)))); cbn; [rewrite Hb in Hc; autorewrite with lens in *; lia|].
    exists (pre ++ record'), post. rewrite <- !app_assoc. split_and!; [done|slen|]. rewrite He. slen. }
  destruct outcome as [[n|q]|e|].
  - destruct Hd as (pt & Hd & -> & Hpt). pose proof (get_range_inv _ _ _ _ Hpt) as (_ & _ & Hfit & _).
    assert (Hsz : len pre + len record <= ISIZE_MAX) by (rewrite Hb in Hc; autorewrite with lens in Hc; pose proof (len_nonneg pend); pose proof (len_nonneg post); lia).
    unfold checked_add, TLS_RECORD_HEADER_LEN in *. pose proof (len_nonneg pt).
    rewrite (proj2 (Z.leb_le _ _)) by (unfold ISIZE_MAX, USIZE_MAX, U64_MAX in *; lia).
    rewrite (proj2 (Z.leb_le _ _)) by (unfold ISIZE_MAX, USIZE_MAX, U64_MAX in *; lia).
    rewrite Hs, get_range_app_r by lia. replace (len pre + 5 - len pre) with 5 by lia.
    replace (len pre + 5 + len pt - len pre) with (5 + len pt) by lia. rewrite get_range_app_l by done.
    rewrite Hpt. cbn [mret IO_ret]. split; [exact Hd|]. intros _. rewrite Hs in Hholds. apply Hholds.
  - split; [exact Hd|]. intros _. apply Hholds.
  - split; [exact Hd|done].
  - split; [exact Hd|done].
Qed.

Lemma read_application_refines s stream st :
  reads_from s stream st ->
  let '(r, st') := read_application env st in
  exists stream', read_spec (read_end env) s stream = (r, rd_session st', stream') /\
    (is_ok r = true -> reads_from (rd_session st') stream' st').
Proof.
  intros (pend & kernel & -> & Hst). unfold read_application, mbind, IO_bind. unfold read_spec.
  pose proof (fill_to_holds env s TLS_RECORD_HEADER_LEN (Z.to_nat TLS_RECORD_HEADER_LEN) Henv ltac:(rewrite max_wire_eq; done)
    pend kernel ltac:(unfold TLS_RECORD_HEADER_LEN; pose proof (len_nonneg pend); lia) st Hst) as Hfill.
  destruct (fill_to env _ TLS_RECORD_HEADER_LEN st) as [[[]|e|] st1].
  2: { destruct Hfill as (Hlt & Hsess & ->). rewrite frame_of_short by done. eexists. by rewrite Hsess. }
  2: done.
  destruct Hfill as (chunk & k1 & -> & Hlen & Hst1). rewrite app_assoc. set (p1 := pend ++ chunk) in *. clearbody p1. clear Hst st.
  cbn [io_get]. destruct (split_prefix 5 p1) as (header & p2 & -> & Hh); [done|]. pose proof Hst1 as (Hk1 & Hsess1 & _ & _ & pre & post & Hb & Hs & He).
  rewrite Hb, Hs, <- app_assoc, (get_range_mid pre header) by (unfold TLS_RECORD_HEADER_LEN; lia).
  destruct (body_len_invalid (header_body_len header)) eqn:Ev.
  { rewrite <- app_assoc, frame_of_invalid by done. eexists. unfold consumed_failure. rewrite (proj2 (proj2 Henv)). unfold len in Hh.
    rewrite take_app_length' by lia. cbn. rewrite Hsess1. split; [reflexivity|done]. }
  pose proof (proj1 (body_len_valid _) Ev) as [Hnz Hmax]. pose proof (header_body_len_range header).
  set (n := TLS_RECORD_HEADER_LEN + header_body_len header) in *.
  pose proof (fill_to_holds env s n (Z.to_nat n) Henv ltac:(unfold n, MAX_TLS13_CIPHERTEXT_LEN, MAX_PLAINTEXT_LEN, TLS_RECORD_HEADER_LEN in *; rewrite max_wire_eq; lia)
    (header ++ p2) k1 ltac:(pose proof (len_nonneg (header ++ p2)); lia) st1 Hst1) as Hfill.
  destruct (fill_to env _ n st1) as [[[]|e|] st2].
  2: { destruct Hfill as (Hlt & Hsess & ->). rewrite <- !app_assoc in *. rewrite frame_of_partial by done. eexists. by rewrite Hsess. }
  2: done.
  destruct Hfill as (chunk2 & k2 & -> & Hlen2 & Hst2). destruct (split_prefix n ((header ++ p2) ++ chunk2)) as (record & rest & Hr & Hrl).
  { unfold n, TLS_RECORD_HEADER_LEN in *. lia. }
  rewrite app_assoc, Hr in *. rewrite <- app_assoc.
  assert (Hrec : exists body, record = header ++ body /\ len body = header_body_len header).
  { rewrite <- !app_assoc in Hr. exists (drop (length header) record). unfold n, TLS_RECORD_HEADER_LEN in Hrl. unfold len in *.
    rewrite length_drop. split; [|lia]. rewrite <- (take_drop (length header) record) at 1. f_equal.
    apply (f_equal (take (length header))) in Hr. rewrite take_app_length, take_app_le in Hr by lia. done. }
  destruct Hrec as (body & -> & Hbl). rewrite frame_of_full by done.
  rewrite <- Hrl. pose proof (take_record_deliver s (header ++ body) rest k2 st2 Hst2) as Ht.
  destruct (take_record (len (header ++ body)) st2) as [r st3]. destruct Ht as [Hd Hok]. rewrite Hd.
  exists (rest ++ k2). split; [done|]. intros Hr'. exists rest, k2. split; [done|by apply Hok].
Qed.
End Refinement.

(** ** The record-exact reader refines the specification *)

Section ExactRefinement.
Context {C : Tls13Ops} {L : Tls13Laws C} (env : ReadEnv) (Henv : read_env_ok env).

(** The storage starts with [got], the bytes of the current record. *)
Definition ex_holds (s : ReadSession) (got stream : list byte) (target : Z) (st : TlsApplicationIo) : Prop :=
  tp_stream (ti_io st) = stream /\ ti_session st = s /\ target <= len (ti_wire st) /\ exists stale, ti_wire st = got ++ stale.

Lemma read_exact_loop_holds s target fuel : forall got stream, len got <= target -> (Z.to_nat (target - len got) <= fuel)%nat ->
  etriple (ex_holds s got stream target) (read_exact_loop env fuel (len got) target)
    (fun _ st => exists data rest, stream = data ++ rest /\ len (got ++ data) = target /\ ex_holds s (got ++ data) rest target st)
    (fun kind st => len (got ++ stream) < target /\ kind = end_kind (read_end env) /\ ti_wire st = got ++ stream /\ ti_session st = s).
Proof.
  induction fuel as [|fuel IH]; intros got stream Hgot Hfuel; cbn [read_exact_loop];
    (destruct (Z.ltb_spec (len got) target) as [Hlt|Hge];
      [|apply etriple_ret; intros st Hst; exists [], stream; rewrite app_nil_r; split_and!; [done|lia|done]]).
  - exfalso. lia.
  - intros st (Hs & Hsess & Hlw & stale & Hw).
    rewrite get_range_some by (try done; pose proof (len_nonneg got); lia).
    set (dest := take _ (drop _ (ti_wire st))).
    assert (Hdest : Z.of_nat (length dest) = target - len got).
    { unfold dest. rewrite length_take, length_drop. unfold len in *. lia. }
    unfold idle_read. rewrite Hs. destruct stream as [|b stream].
    + assert (Htake : take (Z.to_nat (len got)) (ti_wire st) = got) by (rewrite Hw; apply take_app_length'; unfold len; lia).
      rewrite Htake, app_nil_r. destruct (read_end env); exact (conj Hlt (conj eq_refl (conj eq_refl Hsess))).
    + set (n := Nat.min _ _). assert (Hn : (0 < n /\ n <= length dest /\ n <= length (b :: stream))%nat) by (unfold n; cbn [length]; lia).
      clearbody n. destruct n as [|n]; [lia|]. cbn [take]. set (data := b :: take n stream).
      assert (Hdata : data = take (S n) (b :: stream)) by done.
      assert (Hdl : length data = S n) by (rewrite Hdata, length_take; lia).
      assert (Hmin : len got + Z.min (len data) (saturating_sub target (len got)) = len (got ++ data)).
      { rewrite len_app. unfold saturating_sub, len in *. lia. }
      rewrite Hmin. assert (Hfit : len (got ++ data) <= target) by (rewrite len_app; unfold len in *; lia).
      assert (Hst2 : ex_holds s (got ++ data) (drop (S n) (b :: stream)) target
        {| ti_io := {| tp_stream := drop (S n) (b :: stream); tp_reads := S (tp_reads (ti_io st)) |}; ti_session := ti_session st;
           ti_wire := overwrite (ti_wire st) (len got) data; ti_capacity := ti_capacity st |}).
      { assert (How : overwrite (ti_wire st) (len got) data = (got ++ data) ++ drop (S n) stale).
        { rewrite Hw in Hlw |- *. rewrite <- (take_drop (S n) stale) at 1. rewrite overwrite_mid; [by rewrite <- app_assoc|done|].
          unfold len in *. rewrite length_app in *. rewrite length_take, Hdl. lia. }
        refine (conj eq_refl (conj Hsess (conj _ _))); cbn [ti_wire]; rewrite How.
        - rewrite Hw in Hlw. rewrite !len_app, len_drop in *. unfold len in *. lia.
        - by eexists. }
      specialize (IH (got ++ data) (drop (S n) (b :: stream)) Hfit ltac:(rewrite len_app in *; unfold len in *; lia) _ Hst2).
      destruct (read_exact_loop env fuel _ target _) as [[[]|e|] st2].
      * destruct IH as (data2 & rest & Hsplit & Hl & Hh). exists (data ++ data2), rest. rewrite <- (take_drop (S n) (b :: stream)) at 1.
        rewrite Hsplit, <- Hdata, !app_assoc in *. by split_and!.
      * destruct IH as (Hl & -> & Hw2 & Hs2). rewrite <- !app_assoc, Hdata, take_drop in *. by split_and!.
      * exact IH.
Qed.

Lemma read_exact_into_holds s got stream target : len got <= target ->
  etriple (ex_holds s got stream 0) (read_exact_into env (len got) target)
    (fun _ st => exists data rest, stream = data ++ rest /\ len (got ++ data) = target /\ ex_holds s (got ++ data) rest 0 st)
    (fun kind st => len (got ++ stream) < target /\ kind = end_kind (read_end env) /\ ti_wire st = got ++ stream /\ ti_session st = s).
Proof.
  intros Hgot. apply etriple_get_bind. intros st (Hs & Hsess & _ & stale & Hw). apply (etriple_bind _ _ _ (fun _ => ex_holds s got stream target)).
  - destruct (Z.ltb_spec (len (ti_wire st)) target) as [Hlt|Hge].
    + apply etriple_check_bind; [by rewrite (proj1 Henv), orb_true_r|]. intros ? ->.
      refine (conj Hs (conj Hsess (conj _ _))); cbn; unfold resize.
      * rewrite len_app, len_zero_bytes by lia. lia.
      * rewrite Hw, <- app_assoc. by eexists.
    + apply etriple_ret. intros ? ->. refine (conj Hs (conj Hsess (conj Hge _))). by exists stale.
  - intros []. eapply etriple_consequence; [by apply read_exact_loop_holds|done| |done].
    intros [] st' (data & rest & -> & Hl & Ha & Hb & Hc & stale' & Hd). exists data, rest. refine (conj eq_refl (conj Hl (conj Ha (conj Hb (conj (len_nonneg _) _))))). by exists stale'.
Qed.

Definition framing_error (stream : list byte) (e : TlsRecordReadError) : Prop :=
  match frame_of stream with
  | FrIncomplete => e = {| read_kind := end_kind (read_end env); wire_prefix := stream |}
  | FrInvalid => e = {| read_kind := RkRecordTooLarge; wire_prefix := take 5 stream |}
  | FrRecord _ _ => False
  end.

Lemma or_consumed_holds m P Q X (Y : TlsRecordReadError -> TlsApplicationIo -> Prop) :
  etriple P m Q X -> (forall kind st, X kind st -> Y {| read_kind := kind; wire_prefix := ti_wire st |} st) -> etriple P (or_consumed env m) Q Y.
Proof.
  intros Hm HY st Hst. specialize (Hm st Hst). unfold or_consumed, consumed_failure. rewrite (proj2 (proj2 Henv)).
  destruct (m st) as [[u|k|] st']; auto.
Qed.

Lemma read_tls_record_into_holds s stream :
  etriple (fun st => tp_stream (ti_io st) = stream /\ ti_session st = s) (read_tls_record_into env)
    (fun n st => exists record rest, frame_of stream = FrRecord record rest /\ n = len record /\ ex_holds s record rest 0 st)
    (fun e st => framing_error stream e /\ ti_session st = s).
Proof.
  unfold read_tls_record_into. eapply etriple_bind.
  { eapply or_consumed_holds.
    - eapply etriple_consequence; [apply (read_exact_into_holds s [] stream TLS_RECORD_HEADER_LEN); unfold TLS_RECORD_HEADER_LEN; slen| |intros a st H; exact H|intros e st H; exact H].
      intros st [Hs Hsess]. refine (conj Hs (conj Hsess (conj (len_nonneg _) _))). by exists (ti_wire st).
    - intros kind st (Hlt & -> & -> & Hsess). unfold framing_error. cbn [app] in *. by rewrite frame_of_short. }
  intros []. apply etriple_get_bind. intros st (header & rest & -> & Hh & Hst). cbn [app] in *. change TLS_RECORD_HEADER_LEN with 5 in *.
  pose proof Hst as (Hs & Hsess & _ & stale & Hw). rewrite Hw, get_range_prefix by done.
  pose proof (header_body_len_range header).
  destruct (body_len_invalid (header_body_len header)) eqn:Ev.
  { intros ? ->. cbn. unfold consumed_failure, framing_error. rewrite frame_of_invalid, (proj2 (proj2 Henv)), take_header by done. split; [|done].
    f_equal. by rewrite take_header. }
  pose proof (proj1 (body_len_valid _) Ev) as [Hnz Hmax].
  rewrite (proj2 (checked_add_some _ _ _ (5 + header_body_len header))) by (unfold USIZE_MAX, U64_MAX, U16_MAX in *; split; [done|lia]).
  pose proof (read_exact_into_holds s header rest (5 + header_body_len header) ltac:(lia)) as Hbody. rewrite Hh in Hbody.
  eapply etriple_bind.
  { eapply or_consumed_holds.
    - eapply etriple_consequence; [exact Hbody| |intros a st' H'; exact H'|intros e st' H'; exact H'].
      by intros ? ->.
    - intros kind st' (Hlt & -> & -> & Hsess'). unfold framing_error. by rewrite frame_of_partial. }
  intros []. apply etriple_ret. intros st' (body & rest' & -> & Hl & Hst'). exists (header ++ body), rest'.
  rewrite app_assoc, frame_of_full by (try done; rewrite len_app in Hl; lia). by split_and!.
Qed.

Lemma open_wire_deliver s record rest st :
  ex_holds s record rest 0 st ->
  let '(r, st') :=
    (let '(outcome, record, session) := open_and_process record (ti_session st) in
     let wire := overwrite (ti_wire st) 0 record in
     let with_session session := {| ti_io := ti_io st; ti_session := session; ti_wire := wire; ti_capacity := ti_capacity st |} in
     _ ← io_put (with_session session);
     match outcome with
     | Err e => io_throw e
     | Panic => fun st => (Panic, st)
     | Ok (OutcomeControl requested) => _ ← io_put (with_session (note_request requested session)); mret []
     | Ok (OutcomeApplicationData plaintext_len) =>
       match checked_add USIZE_MAX TLS_RECORD_HEADER_LEN plaintext_len with
       | None => io_throw (TaRecord RInvalidLength)
       | Some plaintext_end =>
         match get_range wire TLS_RECORD_HEADER_LEN plaintext_end with
         | None => io_throw (TaRecord RInvalidLength)
         | Some plaintext => mret plaintext
         end
       end
     end) st in
  len record <= MAX_TLS_RECORD_WIRE_LEN -> deliver record s = (r, ti_session st') /\ tp_stream (ti_io st') = rest.
Proof.
  intros (Hs & -> & _ & stale & Hw). pose proof (open_and_process_deliver record s) as Hd.
  destruct (open_and_process record s) as [[outcome record'] s']. destruct Hd as [Hl Hd].
  rewrite Hw. pose proof (overwrite_mid [] record stale record' 0 eq_refl ltac:(lia)) as How. cbn [app] in How. rewrite How.
  unfold mbind, IO_bind, io_put. destruct outcome as [[n|q]|e|]; [|by intros _..].
  destruct Hd as (pt & Hd & -> & Hpt). pose proof (get_range_inv _ _ _ _ Hpt) as (_ & _ & Hfit & _). rewrite max_wire_eq.
  destruct (checked_add USIZE_MAX TLS_RECORD_HEADER_LEN (len pt)) as [stop|] eqn:Ec.
  - apply checked_add_some in Ec as [-> _]. rewrite get_range_app_l by done. rewrite Hpt. by intros _.
  - intros Hmax. exfalso. unfold checked_add in Ec. destruct (Z.leb_spec (TLS_RECORD_HEADER_LEN + len pt) USIZE_MAX); [done|].
    unfold USIZE_MAX, U64_MAX in *. lia.
Qed.

Lemma frame_of_record_len stream record rest : frame_of stream = FrRecord record rest -> len record <= MAX_TLS_RECORD_WIRE_LEN.
Proof.
  unfold frame_of. destruct (len stream <? TLS_RECORD_HEADER_LEN); [done|]. destruct (body_len_invalid _) eqn:Ev; [done|].
  destruct (len stream <? _); [done|]. intros [= <- _]. apply body_len_valid in Ev as [_ Hm]. rewrite max_wire_eq.
  unfold MAX_TLS13_CIPHERTEXT_LEN, MAX_PLAINTEXT_LEN, TLS_RECORD_HEADER_LEN in *. pose proof (header_body_len_range (take 5 stream)). slen.
Qed.

Lemma exact_reader_refines st :
  let '(r, st') := read_application_exact env st in
  exists stream', read_spec (read_end env) (ti_session st) (tp_stream (ti_io st)) = (r, ti_session st', stream') /\
    (is_ok r = true -> tp_stream (ti_io st') = stream').
Proof.
  unfold read_application_exact, read_application_record, ensure_record_storage.
  assert (Hstore : exists st1, tp_stream (ti_io st1) = tp_stream (ti_io st) /\ ti_session st1 = ti_session st /\
    (st0 ← io_get; if ti_capacity st0 =? 0 then _ ← io_check (read_alloc env (tp_reads (ti_io st0))) (TaRecord RBufferAllocation);
       io_put (set_wire st0 [] MAX_TLS_RECORD_WIRE_LEN) else mret tt) st = (Ok tt, st1)).
  { unfold mbind, IO_bind, io_get, io_check. rewrite (proj1 Henv). destruct (ti_capacity st =? 0); [exists (set_wire st [] MAX_TLS_RECORD_WIRE_LEN)|exists st]; by split_and!. }
  destruct Hstore as (st1 & Hs1 & Hsess1 & Hstore). rewrite io_get_bind.
  rewrite (io_bind_ok _ _ _ tt st) by (by rewrite (proj1 (proj2 Henv))). rewrite (io_bind_ok _ _ _ _ _ Hstore).
  unfold read_spec. rewrite <- Hs1, <- Hsess1. pose proof (read_tls_record_into_holds (ti_session st1) (tp_stream (ti_io st1)) st1 (conj eq_refl eq_refl)) as Hr.
  destruct (read_tls_record_into env st1) as [[n|e|] st2] eqn:Er; [| |done].
  - destruct Hr as (record & rest & Hf & -> & Hst2). rewrite Hf. pose proof Hst2 as (_ & Hsess2 & _ & stale & Hw).
    rewrite (io_bind_ok _ _ _ (len record) st2) by (by rewrite Er). rewrite io_get_bind, Hw, get_range_prefix by done. rewrite <- Hw.
    pose proof (open_wire_deliver _ _ _ _ Hst2) as Hd. cbv zeta in Hd |- *.
    match type of Hd with (let '(r, st') := ?m in _) => destruct m as [r st3] eqn:Em end. specialize (Hd (frame_of_record_len _ _ _ Hf)) as [Hd Hrest].
    rewrite Hd. exists rest. by split.
  - rewrite (io_bind_err _ _ _ (TaRead e) st2) by (by rewrite Er). destruct Hr as [Hf Hsess2]. unfold framing_error in Hf.
    destruct (frame_of (tp_stream (ti_io st1))); [| |done]; subst e; eexists; rewrite Hsess2; by split.
Qed.
End ExactRefinement.

(** ** Well-formed sessions *)

Definition ku_wf (ku : KeyUpdateReassembly) : Prop := len (ku_message ku) = 5 /\ 0 <= ku_length ku < 5.

Lemma push_record_holds fragment ku :
  ku_wf ku -> match push_record fragment ku with (Ok _, ku') => ku_wf ku' | (Err _, _) => True | (Panic, _) => False end.
Proof.
  intros [Hm Hl]. unfold push_record, io_reads, io_get, io_put, io_check, io_throw, mbind, IO_bind, mret, IO_ret.
  destruct (negb _); [|done]. destruct (checked_add _ _ _) as [stop|] eqn:Ec; [|done]. apply checked_add_some in Ec as [-> _].
  destruct (Z.leb_spec (ku_length ku + len fragment) KEY_UPDATE_MESSAGE_LEN) as [Hs|]; [|done]. unfold KEY_UPDATE_MESSAGE_LEN in *.
  case_bool_decide; [|done]. set (message := overwrite _ _ _). pose proof (len_nonneg fragment).
  assert (Hlm : len message = 5) by (unfold message, overwrite; rewrite !len_app, len_take, len_drop; lia).
  case_bool_decide; [|done]. destruct (Z.ltb_spec (ku_length ku + len fragment) 5).
  - split; [done|cbn; lia].
  - destruct (lookup_lt_is_Some_2 message 4) as [b ->]; [unfold len in Hlm; lia|].
    destruct b; try done; by (split; [done|cbn; lia]).
Qed.

Section Sessions.
Context {C : Tls13Ops} {L : Tls13Laws C}.

Definition session_wf (s : ReadSession) : Prop := layer_wf (rs_records s) /\ ku_wf (rs_key_update s).

Lemma update_no_panic l : layer_wf l -> no_panic (update_traffic_secret l).
Proof.
  intros Hwf H. destruct (rl_write_failed l) eqn:Hw; [by unfold update_traffic_secret, ensure_write_ready in H; rewrite Hw in H|].
  destruct (rl_traffic l) as [|secret] eqn:Ht; [by unfold update_traffic_secret, ensure_write_ready in H; rewrite Hw, Ht in H|].
  destruct (update_total l secret Hwf Hw Ht) as (l' & E & _). by rewrite E in H.
Qed.

Lemma open_in_place_wf l record : layer_wf l -> layer_wf (snd (open_in_place l record)) /\ fst (open_in_place l record) <> Panic.
Proof.
  intros Hwf. unfold open_in_place. pose proof (record_checked_no_panic l record) as Hn.
  destruct (open_checked l record) as [region| |] eqn:E; [|done..].
  rewrite advance_live by done. cbn. apply record_checked_inv in E as (_ & Hlt & _). split.
  - apply set_sequence_wf; [done|]. destruct Hwf as (_ & _ & Hs & _). lia.
  - pose proof (strip_content_outcome region). by destruct (strip_content region).
Qed.

Lemma deliver_wf record s : session_wf s -> fst (deliver record s) <> Panic /\ (is_ok (fst (deliver record s)) = true -> session_wf (snd (deliver record s))).
Proof.
  intros [Hl Hk]. unfold deliver. pose proof (open_in_place_wf (rs_records s) record Hl) as [Hl1 Hn].
  destruct (open_in_place (rs_records s) record) as [[[t pt]|e|] l1]; [|by split..]. cbn [fst snd] in Hl1.
  unfold process_opened_record, io_reads, io_get, io_check, io_throw, mbind, IO_bind, mret, IO_ret.
  destruct t; cbn [fst snd].
  - by case_match.
  - destruct (ku_is_empty _); [|done]. destruct pt as [|? [|? [|]]]; by cbn.
  - unfold process_key_update_record. pose proof (push_record_holds pt (rs_key_update s) Hk) as Hp.
    destruct (push_record pt (rs_key_update s)) as [[[q|]|e|] ku]; [| |done|done].
    + pose proof (update_no_panic l1 Hl1). destruct (update_traffic_secret l1) as [l2| |] eqn:Eu; [|done..].
      apply update_inv in Eu as (Hl2 & _); [|done]. split; [done|]. intros _. unfold note_request. by case_match.
    + split; [done|]. intros _. unfold note_request. by case_match.
  - destruct (ku_is_empty _); [|done]. split; [done|]. intros _. done.
Qed.
End Sessions.

(** ** Sequences of reads *)

(** Up to [n] reads; the first failure is the last result. *)
Fixpoint read_run {S A E} (read : S -> result E A * S) (n : nat) (st : S) : list (result E A) * S :=
  match n with
  | O => ([], st)
  | S n =>
    match read st with
    | (Ok a, st) => let '(rs, st) := read_run read n st in (Ok a :: rs, st)
    | (r, st) => ([r], st)
    end
  end.

Section Runs.
Context {C : Tls13Ops} {L : Tls13Laws C}.

Definition spec_reads (e : ReadEnd) (s : ReadSession) (stream : list byte) (n : nat) : list (result TlsApplicationIoError (list byte)) * ReadSession :=
  let '(rs, (s, _)) := read_run (fun '(s, stream) => let '(r, s, stream) := read_spec e s stream in (r, (s, stream))) n (s, stream) in (rs, s).

Lemma buffered_run env n : read_env_ok env -> forall s stream st, reads_from s stream st ->
  let '(rs, st') := read_run (read_application env) n st in spec_reads (read_end env) s stream n = (rs, rd_session st').
Proof.
  intros Henv. unfold spec_reads. induction n as [|n IH]; intros s stream st Hst; cbn [read_run].
  - destruct Hst as (? & ? & _ & _ & <- & _). done.
  - pose proof (read_application_refines env Henv s stream st Hst) as Hr.
    destruct (read_application env st) as [r st1]. destruct Hr as (stream' & Hspec & Hok). rewrite Hspec. destruct r as [pt|e|]; [|done..].
    specialize (IH _ _ _ (Hok eq_refl)). destruct (read_run (read_application env) n st1) as [rs st2].
    destruct (read_run _ n (rd_session st1, stream')) as [rs' [s' x]]. by injection IH as -> ->.
Qed.

Lemma exact_run env n : read_env_ok env -> forall st,
  let '(rs, st') := read_run (read_application_exact env) n st in
  spec_reads (read_end env) (ti_session st) (tp_stream (ti_io st)) n = (rs, ti_session st').
Proof.
  intros Henv. unfold spec_reads. induction n as [|n IH]; intros st; cbn [read_run]; [done|].
  pose proof (exact_reader_refines env Henv st) as Hr.
  destruct (read_application_exact env st) as [r st1]. destruct Hr as (stream' & Hspec & Hok). rewrite Hspec. destruct r as [pt|e|]; [|done..].
  specialize (IH st1). rewrite (Hok eq_refl) in IH. destruct (read_run (read_application_exact env) n st1) as [rs st2].
  destruct (read_run _ n (ti_session st1, stream')) as [rs' [s' x]]. by injection IH as -> ->.
Qed.

Lemma spec_reads_no_panic e n : forall s stream, session_wf s -> Forall no_panic (fst (spec_reads e s stream n)).
Proof.
  unfold spec_reads. induction n as [|n IH]; intros s stream Hwf; cbn [read_run]; [done|].
  unfold read_spec. destruct (frame_of stream) as [| |record rest]; [by repeat constructor..|].
  pose proof (deliver_wf record s Hwf) as [Hn Hok]. destruct (deliver record s) as [[pt|err|] s1]; [|by repeat constructor|done].
  specialize (IH s1 rest (Hok eq_refl)). destruct (read_run _ n (s1, rest)) as [rs [s2 x]]. by constructor.
Qed.

Lemma fill_to_enough env fuel target st : target <= buffered_end st - buffered_start st -> fill_to env fuel target st = (Ok tt, st).
Proof. intros H. destruct fuel; cbn [fill_to]; unfold io_reads; rewrite io_get_bind; by rewrite (proj2 (Z.ltb_ge _ _)). Qed.

Lemma take_record_io n st : rd_io (snd (take_record n st)) = rd_io st.
Proof.
  unfold take_record, mbind, IO_bind, io_get, io_put. cbn. repeat (case_match; try done).
Qed.

Lemma has_buffered_no_read env st : has_buffered_record st = true -> rd_io (snd (read_application env st)) = rd_io st.
Proof.
  unfold has_buffered_record, read_application. destruct (Z.ltb_spec (buffered_end st - buffered_start st) TLS_RECORD_HEADER_LEN); [done|].
  rewrite (io_bind_ok _ _ _ tt st) by (by apply fill_to_enough). rewrite io_get_bind.
  destruct (get_range (socket_buffer st) _ _) as [header|]; [|done]. intros Hn%Z.leb_le.
  destruct (body_len_invalid (header_body_len header)); [done|].
  rewrite (io_bind_ok _ _ _ tt st) by (by apply fill_to_enough). apply take_record_io.
Qed.
End Runs.

(** C23: the buffered reader and the record-exact reader are the same reader.
    Whatever the two transports' read sizes are, from a session resumed with
    read-ahead bytes, any number of reads gives the same sequence of plaintexts
    and the same first error (kind and consumed-byte prefix included), which is
    the sequence the stream itself determines, and leaves the same keys,
    KeyUpdate state and response flag. No read panics or runs out of fuel, and
    a reader that reports a buffered record reads the socket zero times for it. *)
Theorem readers_agree {C : Tls13Ops} {L : Tls13Laws C} (env env' : ReadEnv) (n : nat) (records : Tls13RecordLayer)
    (pending kernel wire : list byte) (capacity wire_capacity : Z) (response : bool) :
  read_env_ok env -> read_env_ok env' -> read_end env = read_end env' -> layer_wf records -> len pending <= capacity <= ISIZE_MAX ->
  let reader := resumed_reader {| tp_stream := kernel; tp_reads := 0 |} pending capacity records response in
  let io := {| ti_io := {| tp_stream := pending ++ kernel; tp_reads := 0 |}; ti_session := rd_session reader;
               ti_wire := wire; ti_capacity := wire_capacity |} in
  let '(rs, reader') := read_run (read_application env) n reader in
  let '(rs', io') := read_run (read_application_exact env') n io in
  rs' = rs /\ ti_session io' = rd_session reader' /\
  spec_reads (read_end env) (rd_session reader) (pending ++ kernel) n = (rs, rd_session reader') /\
  Forall no_panic rs /\
  (has_buffered_record reader' = true -> rd_io (snd (read_application env reader')) = rd_io reader').
Proof.
  intros Henv Henv' Hend Hwf Hcap reader io.
  assert (Hreads : reads_from (rd_session reader) (pending ++ kernel) reader).
  { exists pending, kernel. split; [done|]. pose proof (len_nonneg pending). refine (conj eq_refl (conj eq_refl (conj _ (conj _ _)))); cbn; [lia|lia|].
    exists [], []. by rewrite app_nil_r. }
  pose proof (buffered_run env n Henv _ _ _ Hreads) as Hb. pose proof (exact_run env' n Henv' io) as He.
  destruct (read_run (read_application env) n reader) as [rs st1]. destruct (read_run (read_application_exact env') n io) as [rs' st2].
  cbn [io ti_session ti_io tp_stream] in He. rewrite <- Hend, Hb in He. injection He as <- Hsess.
  pose proof (spec_reads_no_panic (read_end env) n (rd_session reader) (pending ++ kernel)) as Hnp. rewrite Hb in Hnp.
  refine (conj eq_refl (conj (eq_sym Hsess) (conj Hb (conj _ (has_buffered_no_read env st1))))).
  apply Hnp. split; [exact Hwf|]. split; [done|cbn; lia].
Qed.

(** ** Example *)

Definition wire_bytes (items : list WireItem) : list byte :=
  concat (omap (fun i => match i with WRecord record => Some record | WUpdate => None end) items).

(** Data, a KeyUpdate request in two records, and data under the next keys. *)
Definition example_stream : list byte :=
  match seal_run (fun _ => true) example_layer
    [OpSeal CtApplicationData [x61; x62] 3; OpSeal CtHandshake [x18; x00] 0; OpSeal CtHandshake [x00; x01; x01] 0; OpUpdate;
     OpSeal CtApplicationData [x63] 0] with
  | Ok (items, _) => wire_bytes items
  | _ => []
  end.

Definition example_read_env (size : nat) : ReadEnv :=
  {| read_alloc := fun _ => true; read_armed := fun _ => true; read_size := fun _ => size; read_end := EndEof; prefix_alloc := true |}.

Lemma example_read_env_ok size : read_env_ok (example_read_env size).
Proof. by split_and!. Qed.

Definition example_reader : TlsApplicationReader :=
  resumed_reader {| tp_stream := drop 7 example_stream; tp_reads := 0 |} (take 7 example_stream) 64 example_layer false.

Definition example_io : TlsApplicationIo :=
  {| ti_io := {| tp_stream := take 7 example_stream ++ drop 7 example_stream; tp_reads := 0 |}; ti_session := rd_session example_reader;
     ti_wire := []; ti_capacity := 0 |}.

Lemma readers_agree_witness :
  fst (read_run (read_application (example_read_env 40)) 5 example_reader) =
    [Ok [x61; x62]; Ok []; Ok []; Ok [x63]; Err (TaRead {| read_kind := RkUnexpectedEof; wire_prefix := [] |})] /\
  fst (read_run (read_application_exact (example_read_env 3)) 5 example_io) =
    fst (read_run (read_application (example_read_env 40)) 5 example_reader).
Proof.
  split; [vm_compute; reflexivity|].
  pose proof (readers_agree (example_read_env 40) (example_read_env 3) 5 example_layer (take 7 example_stream) (drop 7 example_stream) [] 64 0 false
    (example_read_env_ok 40) (example_read_env_ok 3) eq_refl example_layer_wf ltac:(vm_compute; split; discriminate)) as H.
  cbv zeta in H. fold example_reader in H. fold example_io in H.
  destruct (read_run (read_application (example_read_env 40)) 5 example_reader) as [rs st].
  destruct (read_run (read_application_exact (example_read_env 3)) 5 example_io) as [rs' io]. exact (proj1 H).
Defined.
