(* ===== verification/TlsWriter.v ===== *)
(** * TLS application writes ([src/protocol/reality/tls13/application_io.rs],
      record storage of [record.rs])

    Every way an established session writes: application data, plaintext
    assembled in place, one socket read sealed in place, the batched four-slot
    relay, the client's filled storage, KeyUpdates and close_notify. Sealing
    consumes a nonce before the socket write, so an interrupted write (error,
    timeout or dropped future) invalidates the direction. *)

From S2P Require Import Prelude Cursor Effects Tls13Keys HandoffBlob Tls13Record TlsReader.
#[local] Open Scope Z_scope.

Definition KEY_UPDATE_RECORD_WIRE_LEN : Z := TLS_RECORD_HEADER_LEN + KEY_UPDATE_MESSAGE_LEN + 1 + 16.
Definition RECORD_SLOT_WIRE_CAPACITY : Z := HEADER_LEN + MAX_INNER_PLAINTEXT_LEN + TAG_LEN.
Definition BATCHED_SLOT_COUNT : nat := 4.
Definition BATCHED_WIRE_CAPACITY : Z := Z.of_nat BATCHED_SLOT_COUNT * RECORD_SLOT_WIRE_CAPACITY.

(** ** The environment *)

(** How a [write_all] or [shutdown] of the socket ends; an interrupted write has
    sent a prefix. [WaDropped]: the future is dropped at this await. *)
Inductive WriteAnswer := WaDone | WaTimeout (sent : nat) | WaIo (sent : nat) | WaDropped (sent : nat).

(** An operation that did not complete: an error, or its future was dropped. *)
Inductive WriteStop := StopError (e : TlsApplicationIoError) | StopDropped.

(** [wr_alloc]: whether storage of a size can be had; [wr_armed], [wr_answer]: the
    idle window before, and the answer to, the [k]-th socket operation;
    [wr_request]: whether the reader task stores a peer's KeyUpdate request
    right before the writer's [k]-th access to that flag. *)
Record WriteEnv := {
  wr_alloc : Z -> bool;
  wr_armed : nat -> bool;
  wr_answer : nat -> WriteAnswer;
  wr_request : nat -> bool;
}.

(** [wt_wire] is everything the socket accepted, [wt_source] the transport a relay
    reads from, [wt_ops] and [wt_looks] count socket operations and flag accesses. *)
Record TlsApplicationWriter := {
  wt_wire : list byte;
  wt_shut : bool;
  wt_ops : nat;
  wt_looks : nat;
  wt_source : Transport;
  wt_records : Tls13RecordLayer;
  wt_write_record : list byte;
  wt_capacity : Z;
  wt_coordination : KeyUpdateCoordination;
}.

(** [application_halves], [into_split]: writer side. *)
Definition new_writer (records : Tls13RecordLayer) (coordination : KeyUpdateCoordination) (source : Transport) : TlsApplicationWriter :=
  {| wt_wire := []; wt_shut := false; wt_ops := 0; wt_looks := 0; wt_source := source; wt_records := records;
     wt_write_record := []; wt_capacity := 0; wt_coordination := coordination |}.

#[local] Notation writes := (IO TlsApplicationWriter WriteStop).

Definition with_records (l : Tls13RecordLayer) (st : TlsApplicationWriter) : TlsApplicationWriter :=
  {| wt_wire := wt_wire st; wt_shut := wt_shut st; wt_ops := wt_ops st; wt_looks := wt_looks st; wt_source := wt_source st;
     wt_records := l; wt_write_record := wt_write_record st; wt_capacity := wt_capacity st; wt_coordination := wt_coordination st |}.

Definition with_storage (record : list byte) (capacity : Z) (st : TlsApplicationWriter) : TlsApplicationWriter :=
  {| wt_wire := wt_wire st; wt_shut := wt_shut st; wt_ops := wt_ops st; wt_looks := wt_looks st; wt_source := wt_source st;
     wt_records := wt_records st; wt_write_record := record; wt_capacity := capacity; wt_coordination := wt_coordination st |}.

Definition with_flags (looks : nat) (k : KeyUpdateCoordination) (st : TlsApplicationWriter) : TlsApplicationWriter :=
  {| wt_wire := wt_wire st; wt_shut := wt_shut st; wt_ops := wt_ops st; wt_looks := looks; wt_source := wt_source st;
     wt_records := wt_records st; wt_write_record := wt_write_record st; wt_capacity := wt_capacity st; wt_coordination := k |}.

Definition with_source (source : Transport) (st : TlsApplicationWriter) : TlsApplicationWriter :=
  {| wt_wire := wt_wire st; wt_shut := wt_shut st; wt_ops := wt_ops st; wt_looks := wt_looks st; wt_source := source;
     wt_records := wt_records st; wt_write_record := wt_write_record st; wt_capacity := wt_capacity st; wt_coordination := wt_coordination st |}.

Definition sent_to (bytes : list byte) (shut : bool) (st : TlsApplicationWriter) : TlsApplicationWriter :=
  {| wt_wire := wt_wire st ++ bytes; wt_shut := shut; wt_ops := S (wt_ops st); wt_looks := wt_looks st; wt_source := wt_source st;
     wt_records := wt_records st; wt_write_record := wt_write_record st; wt_capacity := wt_capacity st; wt_coordination := wt_coordination st |}.

(** A fallible call of the record layer. *)
Definition lift_record {A} (m : result Tls13RecordError A) : writes A := fun st =>
  match m with
  | Ok a => (Ok a, st)
  | Err e => (Err (StopError (TaRecord e)), st)
  | Panic => (Panic, st)
  end.

Definition get_or_invalid {A} (o : option A) : writes A := lift_record (ok_or RInvalidLength o).

(** [SealedWrite]: dropped while armed, by an error or by its future, it fails the
    direction for good. *)
Definition on_drop {A} (m : writes A) : writes A := fun st =>
  match m st with
  | (Ok a, st) => (Ok a, st)
  | (Err e, st) => (Err e, with_records (fail_write (wt_records st)) st)
  | (Panic, st) => (Panic, with_records (fail_write (wt_records st)) st)
  end.

Definition guarded (armed : bool) {A} (m : writes A) : writes A := if armed then on_drop m else m.

Definition ensure_ready : writes unit := io_reads (fun st => lift_record (ensure_write_ready (wt_records st))).

Section Writer.
Context {C : Tls13Ops} (env : WriteEnv) (renv : ReadEnv).

Definition idle_reset : writes unit := io_reads (fun st => io_check (wr_armed env (wt_ops st)) (StopError TaTimeout)).

Definition idle_write_all (bytes : list byte) : writes unit := fun st =>
  match wr_answer env (wt_ops st) with
  | WaDone => (Ok tt, sent_to bytes (wt_shut st) st)
  | WaTimeout n => (Err (StopError TaTimeout), sent_to (take n bytes) (wt_shut st) st)
  | WaIo n => (Err (StopError TaIo), sent_to (take n bytes) (wt_shut st) st)
  | WaDropped n => (Err StopDropped, sent_to (take n bytes) (wt_shut st) st)
  end.

Definition idle_shutdown : writes unit := fun st =>
  match wr_answer env (wt_ops st) with
  | WaDone => (Ok tt, sent_to [] true st)
  | WaTimeout _ => (Err (StopError TaTimeout), sent_to [] (wt_shut st) st)
  | WaIo _ => (Err (StopError TaIo), sent_to [] (wt_shut st) st)
  | WaDropped _ => (Err StopDropped, sent_to [] (wt_shut st) st)
  end.

(** ** The KeyUpdate flags

    Only the writer clears them; the reader task may store [response_observed] at
    any moment, in particular right before each access. *)

Definition load_pending : writes bool := io_reads (fun st => mret (response_pending (wt_coordination st))).

Definition look (f : bool -> bool) : writes bool := fun st =>
  let observed := response_observed (wt_coordination st) || wr_request env (wt_looks st) in
  (Ok observed, with_flags (S (wt_looks st)) {| response_pending := response_pending (wt_coordination st); response_observed := f observed |} st).
Definition load_observed : writes bool := look (fun b => b).
Definition swap_observed : writes bool := look (fun _ => false).
Definition swap_pending : writes bool := fun st =>
  (Ok (response_pending (wt_coordination st)),
   with_flags (wt_looks st) {| response_pending := false; response_observed := response_observed (wt_coordination st) |} st).

(** [a && b] and [a || b] on loads: the second runs only when needed. *)
Definition and_then (a b : writes bool) : writes bool := x ← a; if (x : bool) then b else mret false.
Definition or_else (a b : writes bool) : writes bool := x ← a; if (x : bool) then mret true else b.

Definition response_requested : writes bool := or_else load_pending load_observed.

Definition take_response : writes bool :=
  pending ← and_then load_pending swap_pending;
  observed ← and_then load_observed swap_observed;
  mret (pending || observed).

(** ** Sealed writes *)

Definition write_key_update_if_needed : writes bool :=
  _ ← ensure_ready;
  requested ← response_requested;
  st ← io_get;
  if negb requested && negb (needs_key_update (wt_records st)) then mret false
  else
    _ ← ensure_ready;
    _ ← idle_reset;
    let response := overwrite (zero_bytes KEY_UPDATE_RECORD_WIRE_LEN) TLS_RECORD_HEADER_LEN KEY_UPDATE_RESPONSE in
    '(record_len, response, l) ← lift_record (seal_filled (wt_records st) CtHandshake KEY_UPDATE_MESSAGE_LEN response);
    st ← io_get;
    _ ← io_put (with_records l st);
    on_drop (
      _ ← take_response;
      record ← get_or_invalid (get_range response 0 record_len);
      _ ← idle_write_all record;
      st ← io_get;
      l ← lift_record (update_traffic_secret (wt_records st));
      _ ← io_put (with_records l st);
      mret true).

(** The seal replaces the storage's contents. *)
Definition write_content (content_type : ContentType) (plaintext : list byte) : writes unit :=
  _ ← ensure_ready;
  st ← io_get;
  '(record, l) ← lift_record (seal_into (wr_alloc env) (wt_records st) content_type plaintext 0);
  _ ← io_put (with_storage record (Z.max (wt_capacity st) (len record)) (with_records l st));
  on_drop (idle_write_all record).

(** [for chunk in plaintext.chunks(MAX_PLAINTEXT_LEN)]; out of fuel is [Panic]. *)
Fixpoint write_chunks (fuel : nat) (plaintext : list byte) (record_count : Z) : writes Z :=
  match plaintext with
  | [] => mret record_count
  | _ =>
    match fuel with
    | O => fun st => (Panic, st)
    | S fuel =>
      _ ← write_key_update_if_needed;
      _ ← idle_reset;
      _ ← write_content CtApplicationData (take (Z.to_nat MAX_PLAINTEXT_LEN) plaintext);
      write_chunks fuel (drop (Z.to_nat MAX_PLAINTEXT_LEN) plaintext) (Z.min U64_MAX (record_count + 1))
    end
  end.

Record ApplicationWriteStats := { ws_plaintext_bytes : Z; ws_records : Z }.

Definition write_application_data (plaintext : list byte) : writes ApplicationWriteStats :=
  _ ← ensure_ready;
  record_count ← write_chunks (length plaintext) plaintext 0;
  mret {| ws_plaintext_bytes := Z.min U64_MAX (len plaintext); ws_records := record_count |}.

Definition shutdown_tls_writer : writes unit :=
  _ ← write_key_update_if_needed;
  _ ← ensure_ready;
  _ ← idle_reset;
  _ ← write_content CtAlert [ALERT_LEVEL_WARNING; ALERT_CLOSE_NOTIFY];
  on_drop idle_shutdown.

Definition write_assembled (plaintext_len : Z) (assemble : list byte -> list byte) : writes unit :=
  _ ← write_key_update_if_needed;
  _ ← idle_reset;
  _ ← ensure_ready;
  st ← io_get;
  '(record, l) ← lift_record (seal_assembled (wr_alloc env) (wt_records st) CtApplicationData plaintext_len 0 assemble);
  _ ← io_put (with_storage record (Z.max (wt_capacity st) (len record)) (with_records l st));
  on_drop (idle_write_all record).

(** ** Reading into record slots *)

(** Grows the storage to [size] bytes at least. *)
Definition grow_storage (size : Z) : writes unit :=
  st ← io_get;
  if len (wt_write_record st) <? size then
    _ ← io_check (negb (wt_capacity st <? size) || wr_alloc env (size - len (wt_write_record st))) (StopError (TaRecord RBufferAllocation));
    io_put (with_storage (resize (wt_write_record st) size) (Z.max (wt_capacity st) size) st)
  else mret tt.

Definition grow_batched_record_storage : writes unit := grow_storage BATCHED_WIRE_CAPACITY.

(** [HEADER_LEN..HEADER_LEN + MAX_PLAINTEXT_LEN] of a slot. *)
Definition slot_plaintext_region (slot : list byte) : option (list byte) := get_range slot HEADER_LEN (HEADER_LEN + MAX_PLAINTEXT_LEN).

Definition application_plaintext_region : writes (list byte) :=
  _ ← grow_storage RECORD_SLOT_WIRE_CAPACITY;
  io_reads (fun st => get_or_invalid (slot_plaintext_region (wt_write_record st))).

Definition read_answer (answer : IdleRead) : writes (list byte) :=
  match answer with
  | IrBytes bytes => mret bytes
  | IrTimeout => io_throw (StopError TaTimeout)
  | IrIo => io_throw (StopError TaIo)
  end.

(** Reads the source into [room] bytes. *)
Definition idle_read_source (room : nat) : writes (list byte) :=
  st ← io_get;
  let '(answer, source) := idle_read renv room (wt_source st) in
  _ ← io_put (with_source source st);
  read_answer answer.

Definition write_application_read_from : writes Z :=
  _ ← ensure_ready;
  _ ← idle_reset;
  region ← application_plaintext_region;
  bytes ← idle_read_source (length region);
  st ← io_get;
  _ ← io_put (with_storage (overwrite (wt_write_record st) HEADER_LEN bytes) (wt_capacity st) st);
  if len bytes =? 0 then mret 0
  else
    key_update_written ← write_key_update_if_needed;
    _ ← (if (key_update_written : bool) then idle_reset else mret tt);
    _ ← ensure_ready;
    st ← io_get;
    '(record_len, storage, l) ← lift_record (seal_filled (wt_records st) CtApplicationData (len bytes) (wt_write_record st));
    _ ← io_put (with_storage storage (wt_capacity st) (with_records l st));
    on_drop (
      record ← get_or_invalid (get_range storage 0 record_len);
      _ ← idle_write_all record;
      mret (len bytes)).

(** One vectored read over the plaintext regions of [n] slots, in order. *)
Fixpoint scatter (n : nat) (bytes buffer : list byte) : list byte :=
  match n with
  | O => buffer
  | S n =>
    overwrite (take (Z.to_nat RECORD_SLOT_WIRE_CAPACITY) buffer) HEADER_LEN (take (Z.to_nat MAX_PLAINTEXT_LEN) bytes) ++
    scatter n (drop (Z.to_nat MAX_PLAINTEXT_LEN) bytes) (drop (Z.to_nat RECORD_SLOT_WIRE_CAPACITY) buffer)
  end.

(** The regions' total size, or [None] when a slot is missing. *)
Definition batched_plaintext_regions (output : list byte) : option Z :=
  if len output <? BATCHED_WIRE_CAPACITY then None else Some (Z.of_nat BATCHED_SLOT_COUNT * MAX_PLAINTEXT_LEN).

(** Before a slot is sealed: a needed KeyUpdate goes out after the records sealed
    so far. The result is the new start of the unsent wire. *)
Definition flush_for_key_update (sealed_len wire_start : Z) : writes Z :=
  requested ← response_requested;
  st ← io_get;
  if requested || needs_key_update (wt_records st) then
    wire_start ← (if wire_start <? sealed_len then
        wire ← get_or_invalid (get_range (wt_write_record st) wire_start sealed_len);
        _ ← idle_write_all wire;
        mret sealed_len
      else mret wire_start);
    updated ← write_key_update_if_needed;
    _ ← (if (updated : bool) then idle_reset else mret tt);
    mret wire_start
  else mret wire_start.

(** Seals the slot in place and returns its record's length. *)
Definition seal_slot (slot filled : Z) : writes Z :=
  st ← io_get;
  let start := slot * RECORD_SLOT_WIRE_CAPACITY in
  slice ← get_or_invalid (get_range (wt_write_record st) start (start + RECORD_SLOT_WIRE_CAPACITY));
  '(record_len, slice, l) ← lift_record (seal_filled (wt_records st) CtApplicationData filled slice);
  _ ← io_put (with_storage (overwrite (wt_write_record st) start slice) (wt_capacity st) (with_records l st));
  mret record_len.

Definition send_batch (sealed_len wire_start : Z) : writes unit :=
  st ← io_get;
  wire ← get_or_invalid (get_range (wt_write_record st) wire_start sealed_len);
  idle_write_all wire.

(** The slots left, from [slot] on. *)
Fixpoint batch_loop (n : nat) (slot : Z) (armed : bool) (sealed_len wire_start remaining : Z) : writes unit :=
  match n with
  | O => guarded armed (send_batch sealed_len wire_start)
  | S n =>
    if remaining =? 0 then guarded armed (send_batch sealed_len wire_start)
    else
      wire_start ← guarded armed (flush_for_key_update sealed_len wire_start);
      let filled := Z.min remaining MAX_PLAINTEXT_LEN in
      record_len ← guarded armed (seal_slot slot filled);
      batch_loop n (slot + 1) true (sealed_len + record_len) wire_start (remaining - filled)
  end.

Definition write_filled_batch (read : Z) : writes unit :=
  _ ← ensure_ready;
  batch_loop BATCHED_SLOT_COUNT 0 false 0 0 read.

Definition write_application_read_from_batched : writes Z :=
  _ ← ensure_ready;
  st ← io_get;
  if wt_capacity st <? BATCHED_WIRE_CAPACITY then
    read ← write_application_read_from;
    _ ← (if read =? MAX_PLAINTEXT_LEN then grow_batched_record_storage else mret tt);
    mret read
  else
    _ ← grow_batched_record_storage;
    _ ← idle_reset;
    st ← io_get;
    room ← get_or_invalid (batched_plaintext_regions (wt_write_record st));
    bytes ← idle_read_source (Z.to_nat room);
    st ← io_get;
    _ ← io_put (with_storage (scatter BATCHED_SLOT_COUNT bytes (wt_write_record st)) (wt_capacity st) st);
    if len bytes =? 0 then mret 0
    else _ ← write_filled_batch (len bytes); mret (len bytes).

Definition take_write_storage (st : TlsApplicationWriter) : list byte * Z * TlsApplicationWriter :=
  (wt_write_record st, wt_capacity st, with_storage [] 0 st).

(** The second swap of [write_filled_storage]: the storage goes back to the caller
    (on success as the result) unless the future was dropped inside [m]. *)
Definition swap_back (own : list byte * Z) (m : writes unit) : writes (list byte * Z) := fun st =>
  match m st with
  | (Ok _, st) => (Ok (wt_write_record st, wt_capacity st), with_storage (fst own) (snd own) st)
  | (Err StopDropped, st) => (Err StopDropped, st)
  | (Err e, st) => (Err e, with_storage (fst own) (snd own) st)
  | (Panic, st) => (Panic, st)
  end.

Definition write_filled_storage (storage : list byte) (capacity : Z) (plaintext_len : Z) : writes (list byte * Z) :=
  let slots := div_ceil plaintext_len MAX_PLAINTEXT_LEN in
  _ ← io_check (negb ((slots =? 0) || (2 <? slots) || (len storage <? slots * RECORD_SLOT_WIRE_CAPACITY))) (StopError (TaRecord RInvalidLength));
  _ ← ensure_ready;
  _ ← idle_reset;
  st ← io_get;
  _ ← io_put (with_storage storage capacity st);
  swap_back (wt_write_record st, wt_capacity st) (write_filled_batch plaintext_len).
End Writer.

(** [into_handoff_parts], writer side. *)
Definition writer_handoff_parts (st : TlsApplicationWriter) : Tls13RecordLayer * bool :=
  (wt_records st, response_pending (wt_coordination st) || response_observed (wt_coordination st)).

(** ** Scripts

    What a writer emitted, as the peer should see it. *)

Inductive WriterItem := WiData (plaintext : list byte) | WiKeyUpdate | WiClose.

Definition item_ops (i : WriterItem) : list RecordOp :=
  match i with
  | WiData plaintext => [OpSeal CtApplicationData plaintext 0]
  | WiKeyUpdate => [OpSeal CtHandshake KEY_UPDATE_RESPONSE 0; OpUpdate]
  | WiClose => [OpSeal CtAlert [ALERT_LEVEL_WARNING; ALERT_CLOSE_NOTIFY] 0]
  end.
(** What the peer's application sees of it: data bytes, and [None] for the close. *)
Definition data_view (bytes : list byte) : list (option byte) := map Some bytes.
Definition item_view (i : WriterItem) : list (option byte) :=
  match i with WiData plaintext => data_view plaintext | WiKeyUpdate => [] | WiClose => [None] end.

Definition script_ops (sc : list WriterItem) : list RecordOp := concat (map item_ops sc).
Definition script_view (sc : list WriterItem) : list (option byte) := concat (map item_view sc).

Lemma script_view_app a b : script_view (a ++ b) = script_view a ++ script_view b.
Proof. unfold script_view. by rewrite map_app, concat_app. Qed.

Lemma data_view_app a b : data_view (a ++ b) = data_view a ++ data_view b.
Proof. apply map_app. Qed.

Lemma wire_bytes_app a b : wire_bytes (a ++ b) = wire_bytes a ++ wire_bytes b.
Proof. unfold wire_bytes. by rewrite omap_app, concat_app. Qed.

Section Scripts.
Context {C : Tls13Ops} {L : Tls13Laws C}.

Lemma seal_run_app alloc a b : forall l items l' items' l'',
  seal_run alloc l a = Ok (items, l') -> seal_run alloc l' b = Ok (items', l'') -> seal_run alloc l (a ++ b) = Ok (items ++ items', l'').
Proof.
  induction a as [|[t pt pad|] a IH]; intros l items l' items' l'' Ha Hb; cbn [seal_run app] in *.
  - by injection Ha as <- <-.
  - apply bind_ok in Ha as ([record l1] & Hs & Ha). apply bind_ok in Ha as ([w l2] & Hr & Ha). injection Ha as <- <-.
    rewrite Hs. cbn [mbind result_bind]. by rewrite (IH _ _ _ _ _ Hr Hb).
  - apply bind_ok in Ha as (l1 & Hs & Ha). apply bind_ok in Ha as ([w l2] & Hr & Ha). injection Ha as <- <-.
    rewrite Hs. cbn [mbind result_bind]. by rewrite (IH _ _ _ _ _ Hr Hb).
Qed.

(** A direction that can still write. *)
Definition live (l : Tls13RecordLayer) : Prop := layer_wf l /\ rl_write_failed l = false /\ rl_traffic l <> TsHandshake.

Lemma guarded_seal_any alloc l t pt r : guarded_seal alloc l t pt 0 = Ok r -> seal_run (fun _ => true) l [OpSeal t pt 0] = Ok ([WRecord (fst r)], snd r).
Proof.
  intros H. cbn [seal_run]. rewrite seal_into_guarded by done. destruct r as [record l'].
  unfold guarded_seal in *. destruct (ensure_key_available l); cbn [mbind result_bind] in *; [|done..].
  destruct (negb (record_fits _ _)); cbn [reject_if mbind result_bind] in *; [done|].
  destruct (negb (alloc _)); cbn [reject_if negb mbind result_bind] in *; [done|]. by rewrite H.
Qed.

Lemma guarded_seal_no_panic alloc l t pt : layer_wf l -> no_panic (guarded_seal alloc l t pt 0).
Proof.
  intros Hwf. unfold guarded_seal, ensure_key_available, ensure_write_ready, reference_seal.
  destruct (rl_write_failed l); [done|]. cbn [mbind result_bind]. destruct (_ <? _); [|done]. cbn [mbind result_bind].
  destruct (negb (record_fits _ _)); [done|]. cbn [reject_if mbind result_bind]. destruct (negb (alloc _)); [done|]. cbn [reject_if mbind result_bind].
  destruct (record_seal _ _ _ _ _) as [[body tag]|]; [|done]. cbn [ok_or mbind result_bind]. by rewrite advance_live.
Qed.

Lemma live_sealed alloc l t pt record l' : live l -> guarded_seal alloc l t pt 0 = Ok (record, l') -> live l'.
Proof.
  intros (Hwf & Hw & Ht) H. apply guarded_seal_ok in H as (_ & Hlt & _ & -> & _); [|done..].
  refine (conj (set_sequence_wf _ _ Hwf _) (conj Hw Ht)). destruct Hwf as (_ & _ & Hs & _). lia.
Qed.

Lemma live_update l : live l -> exists l', update_traffic_secret l = Ok l' /\ live l'.
Proof.
  intros (Hwf & Hw & Ht). destruct (rl_traffic l) as [|s] eqn:E; [done|].
  destruct (update_total l s Hwf Hw E) as (l' & Hu & Hwf' & _ & _ & Hw' & s' & Ht' & _).
  exists l'. split; [done|]. refine (conj Hwf' (conj Hw' _)). by rewrite Ht'.
Qed.

(** [items] are the records of the script, sealed from [l0] and ending at [l]. *)
Definition sealed_to (l0 : Tls13RecordLayer) (sc : list WriterItem) (items : list WireItem) (l : Tls13RecordLayer) : Prop :=
  seal_run (fun _ => true) l0 (script_ops sc) = Ok (items, l).

Lemma sealed_snoc l0 sc items l i items' l' :
  sealed_to l0 sc items l -> seal_run (fun _ => true) l (item_ops i) = Ok (items', l') -> sealed_to l0 (sc ++ [i]) (items ++ items') l'.
Proof.
  intros Ha Hb. unfold sealed_to, script_ops. rewrite map_app, concat_app. cbn [map concat]. rewrite app_nil_r. by eapply seal_run_app.
Qed.

(** ** The writer's states *)

Section States.
Context (l0 : Tls13RecordLayer).

(** The script's records are on the wire except [unsent]. *)
Definition owing (sc : list WriterItem) (unsent : list byte) (st : TlsApplicationWriter) : Prop :=
  exists items, sealed_to l0 sc items (wt_records st) /\ live (wt_records st) /\ wire_bytes items = wt_wire st ++ unsent.

Definition boundary (sc : list WriterItem) : TlsApplicationWriter -> Prop := owing sc [].

(** The wire is cut somewhere inside the script's records. *)
Definition torn (sc : list WriterItem) (st : TlsApplicationWriter) : Prop :=
  exists items l, sealed_to l0 sc items l /\ wt_wire st `prefix_of` wire_bytes items.

Definition broken (sc : list WriterItem) (st : TlsApplicationWriter) : Prop := torn sc st /\ rl_write_failed (wt_records st) = true.

(** An operation with [payload] completed, or stopped with a prefix sealed. *)
Definition finished (sc : list WriterItem) (payload : list (option byte)) (st : TlsApplicationWriter) : Prop :=
  exists more, script_view more = payload /\ boundary (sc ++ more) st.
Definition stopped (sc : list WriterItem) (payload : list (option byte)) (st : TlsApplicationWriter) : Prop :=
  exists more, script_view more `prefix_of` payload /\ (boundary (sc ++ more) st \/ broken (sc ++ more) st).

Lemma owing_torn sc unsent st : owing sc unsent st -> torn sc st.
Proof. intros (items & Hs & _ & Hw). exists items, (wt_records st). split; [done|]. by exists unsent. Qed.

Lemma boundary_stopped sc payload st : boundary sc st -> stopped sc payload st.
Proof. intros H. exists []. rewrite app_nil_r. split; [apply prefix_nil|by left]. Qed.

(** The storage and the source, which socket writes do not touch. *)
Definition framed (wr : list byte) (cap : Z) (src : Transport) (st : TlsApplicationWriter) : Prop :=
  wt_write_record st = wr /\ wt_capacity st = cap /\ wt_source st = src.

Lemma on_drop_broken {A} (P : TlsApplicationWriter -> Prop) (m : IO TlsApplicationWriter WriteStop A) Q sc wr cap src :
  triple P m Q (fun st => torn sc st /\ framed wr cap src st) -> triple P (on_drop m) Q (fun st => broken sc st /\ framed wr cap src st).
Proof.
  intros H st Hst. specialize (H st Hst). unfold on_drop. destruct (m st) as [[a|e|] st']; [done| |done].
  destruct H as [(items & l & Hs & Hp) Hf]. split; [|done]. split; [|done]. by exists items, l.
Qed.

Lemma write_all_torn env sc bytes wr cap src :
  triple (fun st => owing sc bytes st /\ framed wr cap src st) (idle_write_all env bytes)
    (fun _ st => boundary sc st /\ framed wr cap src st) (fun st => torn sc st /\ framed wr cap src st).
Proof.
  intros st [(items & Hs & Hl & Hw) Hf]. unfold idle_write_all.
  assert (Hpart : forall n, torn sc (sent_to (take n bytes) (wt_shut st) st)).
  { intros n. exists items, (wt_records st). split; [done|]. cbn. rewrite Hw. apply prefix_app. exists (drop n bytes). by rewrite take_drop. }
  destruct (wr_answer env (wt_ops st)); [|by split; [apply Hpart|]..]. split; [|done]. exists items. rewrite app_nil_r. by split_and!.
Qed.

Lemma lift_seal_triple {A} (m : result Tls13RecordError A) (P : TlsApplicationWriter -> Prop) (Q : A -> TlsApplicationWriter -> Prop) X :
  no_panic m -> (forall a st, m = Ok a -> P st -> Q a st) -> (forall st, P st -> X st) -> triple P (lift_record m) Q X.
Proof. intros Hn HQ HX st Hst. unfold lift_record. destruct m; [by apply HQ|by apply HX|done]. Qed.

Lemma ensure_ready_triple (P X : TlsApplicationWriter -> Prop) :
  (forall st, P st -> X st) -> triple P ensure_ready (fun _ st => P st /\ rl_write_failed (wt_records st) = false) X.
Proof.
  intros HX st Hst. unfold ensure_ready, io_reads. rewrite io_get_bind. unfold ensure_write_ready.
  destruct (rl_write_failed (wt_records st)) eqn:E; cbn; [by apply HX|done].
Qed.

Lemma idle_reset_triple env (P X : TlsApplicationWriter -> Prop) : (forall st, P st -> X st) -> triple P (idle_reset env) (fun _ => P) X.
Proof. intros HX st Hst. unfold idle_reset, io_reads. rewrite io_get_bind. unfold io_check. destruct (wr_armed env _); cbn; [done|by apply HX]. Qed.

(** The flags are the only state their accesses touch. *)
Lemma response_requested_flags env st : exists b looks k, response_requested env st = (Ok b, with_flags looks k st).
Proof.
  unfold response_requested, or_else, load_pending, io_reads, io_get, load_observed, look, mbind, IO_bind, mret, IO_ret.
  destruct st as [w s o lk src l wr cap [[] ob]]; cbn; by repeat eexists.
Qed.

Lemma take_response_flags env st : exists b looks k, take_response env st = (Ok b, with_flags looks k st).
Proof.
  unfold take_response, and_then, load_pending, swap_pending, io_reads, io_get, load_observed, swap_observed, look, mbind, IO_bind, mret, IO_ret.
  destruct st as [w s o lk src l wr cap [[] ob]]; cbn; destruct (ob || _); cbn; by repeat eexists.
Qed.

(** A KeyUpdate's two steps, sealed and applied. *)
Lemma key_update_sealed sc items l record l1 :
  sealed_to l0 sc items l -> live l -> guarded_seal (fun _ => true) l CtHandshake KEY_UPDATE_RESPONSE 0 = Ok (record, l1) ->
  exists l2, update_traffic_secret l1 = Ok l2 /\ live l1 /\ live l2 /\ sealed_to l0 (sc ++ [WiKeyUpdate]) (items ++ [WRecord record; WUpdate]) l2.
Proof.
  intros Hs Hl Hg. pose proof (live_sealed _ _ _ _ _ _ Hl Hg) as Hl1. destruct (live_update l1 Hl1) as (l2 & Hu & Hl2).
  exists l2. split_and!; try done. eapply sealed_snoc; [done|]. apply guarded_seal_any in Hg. cbn [fst snd] in Hg.
  apply (seal_run_app _ [OpSeal CtHandshake KEY_UPDATE_RESPONSE 0] [OpUpdate] _ _ _ _ _ Hg). cbn [seal_run]. by rewrite Hu.
Qed.

Lemma key_update_response_seal l :
  seal_filled l CtHandshake KEY_UPDATE_MESSAGE_LEN (overwrite (zero_bytes KEY_UPDATE_RECORD_WIRE_LEN) TLS_RECORD_HEADER_LEN KEY_UPDATE_RESPONSE) =
    ('(record, l) ← guarded_seal (fun _ => true) l CtHandshake KEY_UPDATE_RESPONSE 0; Ok (len record, record ++ [], l)).
Proof. rewrite <- (seal_filled_guarded l CtHandshake (replicate 5 x00) KEY_UPDATE_RESPONSE (replicate 17 x00) []) by done. done. Qed.

Lemma key_update_triple env sc wr cap src :
  triple (fun st => boundary sc st /\ framed wr cap src st) (write_key_update_if_needed env)
    (fun _ st => finished sc [] st /\ framed wr cap src st) (fun st => stopped sc [] st /\ wt_source st = src).
Proof.
  intros st [Hb Hf]. assert (Hstop : forall st', boundary sc st' -> wt_source st' = src -> stopped sc [] st' /\ wt_source st' = src)
    by (intros; split; [by apply boundary_stopped|done]).
  pose proof Hb as (items & Hs & Hl & Hw). rewrite app_nil_r in Hw. pose proof Hl as (_ & Hlw & _). pose proof Hf as (_ & _ & Hsrc).
  assert (Hready : forall st', wt_records st' = wt_records st -> ensure_ready st' = (Ok tt, st')).
  { intros st' E. unfold ensure_ready, io_reads. rewrite io_get_bind. unfold ensure_write_ready. by rewrite E, Hlw. }
  unfold write_key_update_if_needed. rewrite (io_bind_ok _ _ _ _ _ (Hready st eq_refl)).
  destruct (response_requested_flags env st) as (b & looks & k & Hr). rewrite (io_bind_ok _ _ _ _ _ Hr), io_get_bind.
  set (st1 := with_flags looks k st). destruct (negb b && _); [by split; [exists []; rewrite app_nil_r|]|].
  rewrite (io_bind_ok _ _ _ _ _ (Hready st1 eq_refl)). destruct (wr_armed env (wt_ops st1)) eqn:Harm.
  2: { rewrite (io_bind_err _ _ _ (StopError TaTimeout) st1); [by apply Hstop|]. unfold idle_reset, io_reads. rewrite io_get_bind. by rewrite Harm. }
  rewrite (io_bind_ok _ _ _ tt st1) by (unfold idle_reset, io_reads; rewrite io_get_bind; by rewrite Harm).
  change (wt_records st1) with (wt_records st). rewrite key_update_response_seal.
  pose proof (guarded_seal_no_panic (fun _ => true) (wt_records st) CtHandshake KEY_UPDATE_RESPONSE (proj1 Hl)) as Hnp.
  destruct (guarded_seal _ (wt_records st) CtHandshake KEY_UPDATE_RESPONSE 0) as [[record l1]|e|] eqn:Hg; [|by apply Hstop|done].
  destruct (key_update_sealed _ _ _ _ _ Hs Hl Hg) as (l2 & Hu & Hl1 & Hl2 & Hs2).
  cbn [mbind result_bind]. rewrite (io_bind_ok _ _ _ (len record, record ++ [], l1) st1) by done. cbn beta iota. rewrite io_get_bind.
  rewrite (io_bind_ok _ _ _ tt (with_records l1 st1)) by done. unfold on_drop. set (st2 := with_records l1 st1).
  destruct (take_response_flags env st2) as (b2 & looks2 & k2 & Ht). rewrite (io_bind_ok _ _ _ _ _ Ht). set (st3 := with_flags looks2 k2 st2).
  rewrite get_range_prefix by done. rewrite (io_bind_ok _ _ _ record st3) by done.
  assert (Hpart : forall n e, stopped sc [] (with_records (fail_write l1) (sent_to (take n record) (wt_shut st) st3)) /\ wt_source (with_records (fail_write l1) (sent_to (take n record) e st3)) = src).
  { intros n e. split; [|done]. exists [WiKeyUpdate]. split; [done|]. right. split; [|done]. exists (items ++ [WRecord record; WUpdate]), l2. split; [done|].
    cbn. rewrite wire_bytes_app, <- Hw. apply prefix_app. exists (drop n record). cbn. by rewrite app_nil_r, take_drop. }
  unfold mbind at 1, IO_bind at 1, idle_write_all. change (wt_shut st3) with (wt_shut st).
  destruct (wr_answer env (wt_ops st3)); [|apply (Hpart sent (wt_shut st))..]. rewrite io_get_bind. cbn [wt_records sent_to with_flags with_records st3 st2].
  rewrite Hu. rewrite (io_bind_ok _ _ _ l2 (sent_to record (wt_shut st) st3)) by done. cbn.
  split; [|done]. exists [WiKeyUpdate]. split; [done|]. exists (items ++ [WRecord record; WUpdate]). split_and!; [done|done|].
  cbn. rewrite wire_bytes_app, <- Hw. cbn. by rewrite !app_nil_r.
Qed.
(** ** Whole records *)

Lemma seal_owes sc i t pt alloc record l' st st' :
  boundary sc st -> item_ops i = [OpSeal t pt 0] -> guarded_seal alloc (wt_records st) t pt 0 = Ok (record, l') ->
  wt_records st' = l' -> wt_wire st' = wt_wire st -> owing (sc ++ [i]) record st'.
Proof.
  intros (items & Hs & Hl & Hw) Hi Hg Hr Hwire. pose proof (live_sealed _ _ _ _ _ _ Hl Hg) as Hl'.
  apply guarded_seal_any in Hg. cbn [fst snd] in Hg. rewrite <- Hi in Hg. exists (items ++ [WRecord record]). rewrite Hr, Hwire, app_nil_r in *.
  split_and!; [by eapply sealed_snoc|done|]. rewrite wire_bytes_app, Hw. cbn. by rewrite app_nil_r.
Qed.

(** A seal into the storage followed by its write. *)
Lemma sealed_write_triple env sc i t pt src (seal : Tls13RecordLayer -> result Tls13RecordError (list byte * Tls13RecordLayer)) :
  item_ops i = [OpSeal t pt 0] -> (forall l, exists alloc, seal l = guarded_seal alloc l t pt 0) ->
  triple (fun st => boundary sc st /\ wt_source st = src)
    (st ← io_get;
     '(record, l) ← lift_record (seal (wt_records st));
     _ ← io_put (with_storage record (Z.max (wt_capacity st) (len record)) (with_records l st));
     on_drop (idle_write_all env record))
    (fun _ st => boundary (sc ++ [i]) st /\ wt_source st = src)
    (fun st => (boundary sc st \/ broken (sc ++ [i]) st) /\ wt_source st = src).
Proof.
  intros Hi Hseal. apply triple_get_bind. intros st [Hb Hsrc]. destruct (Hseal (wt_records st)) as (alloc & ->).
  pose proof Hb as (items & _ & Hl & _). pose proof (guarded_seal_no_panic alloc (wt_records st) t pt (proj1 Hl)) as Hnp.
  intros ? ->. destruct (guarded_seal alloc (wt_records st) t pt 0) as [[record l']|e|] eqn:Hg; [|by split; [left|]|done].
  rewrite (io_bind_ok _ _ _ (record, l') st) by done. set (cap := Z.max _ _). set (st1 := with_storage record cap (with_records l' st)).
  rewrite (io_bind_ok _ _ _ tt st1) by done.
  assert (H1 : owing (sc ++ [i]) record st1) by (by eapply seal_owes).
  pose proof (on_drop_broken _ _ _ _ _ _ _ (write_all_torn env (sc ++ [i]) record record cap src) st1 (conj H1 (conj eq_refl (conj eq_refl Hsrc)))) as H2.
  destruct (on_drop (idle_write_all env record) st1) as [[[]|e|] st2]; [|destruct H2 as [H2 H3]; split; [by right|apply H3]|done].
  destruct H2 as [H2 H3]. split; [done|apply H3].
Qed.

Lemma write_record_triple env sc i t pt src :
  item_ops i = [OpSeal t pt 0] ->
  triple (fun st => boundary sc st /\ wt_source st = src) (write_content env t pt)
    (fun _ st => boundary (sc ++ [i]) st /\ wt_source st = src)
    (fun st => (boundary sc st \/ broken (sc ++ [i]) st) /\ wt_source st = src).
Proof.
  intros Hi. unfold write_content. eapply triple_bind.
  - apply (ensure_ready_triple (fun st => boundary sc st /\ wt_source st = src)). intros st [H ?]. split; [by left|done].
  - intros []. eapply triple_consequence; [apply (sealed_write_triple env sc i t pt src (fun l => seal_into (wr_alloc env) l t pt 0) Hi)| |done|done].
    + intros l. exists (wr_alloc env). by apply seal_into_guarded.
    + by intros st [? _].
Qed.

(** ** Operations with a payload *)

(** From any record boundary the operation seals exactly [payload] into the
    script, or stops with a prefix of it; the source is not read. *)
Definition performs {A} (src : Transport) (m : IO TlsApplicationWriter WriteStop A) (payload : list (option byte)) : Prop :=
  forall sc, triple (fun st => boundary sc st /\ wt_source st = src) m
    (fun _ st => finished sc payload st /\ wt_source st = src) (fun st => stopped sc payload st /\ wt_source st = src).

Lemma finished_then sc p q more st : script_view more = p -> finished (sc ++ more) q st -> finished sc (p ++ q) st.
Proof.
  intros <- (more2 & <- & Hb). exists (more ++ more2). rewrite app_assoc, script_view_app. done.
Qed.

Lemma stopped_then sc p q more st : script_view more = p -> stopped (sc ++ more) q st -> stopped sc (p ++ q) st.
Proof.
  intros <- (more2 & Hp & Hb). exists (more ++ more2). rewrite app_assoc, script_view_app. split; [by apply prefix_app|done].
Qed.

Lemma stopped_weaken sc p q st : stopped sc p st -> stopped sc (p ++ q) st.
Proof. intros (more & Hp & Hb). exists more. split; [by apply prefix_app_r|done]. Qed.

Lemma performs_bind {A B} src (m : IO TlsApplicationWriter WriteStop A) (f : A -> IO TlsApplicationWriter WriteStop B) p q :
  performs src m p -> (forall a, performs src (f a) q) -> performs src (m ≫= f) (p ++ q).
Proof.
  intros Hm Hf sc st Hst. specialize (Hm sc st Hst). unfold mbind, IO_bind. destruct (m st) as [[a|e|] st1]; [| |done].
  - destruct Hm as [(more & Hd & Hb) Hsrc]. specialize (Hf a (sc ++ more) st1 (conj Hb Hsrc)). destruct (f a st1) as [[b|e|] st2]; [| |done].
    + destruct Hf as [Hf ?]. split; [by eapply finished_then|done].
    + destruct Hf as [Hf ?]. split; [by eapply stopped_then|done].
  - destruct Hm as [Hm ?]. split; [by apply stopped_weaken|done].
Qed.

Lemma performs_silent {A B} src (m : IO TlsApplicationWriter WriteStop A) (f : A -> IO TlsApplicationWriter WriteStop B) q :
  performs src m [] -> (forall a, performs src (f a) q) -> performs src (m ≫= f) q.
Proof. apply performs_bind. Qed.

Lemma finished_here sc st : boundary sc st -> finished sc [] st.
Proof. intros H. exists []. by rewrite app_nil_r. Qed.

Lemma performs_ret {A} src (a : A) : performs src (mret a) [].
Proof. intros sc st [Hb Hs]. split; [by apply finished_here|done]. Qed.

Lemma performs_ensure_ready src : performs src ensure_ready [].
Proof.
  intros sc. eapply triple_consequence; [apply (ensure_ready_triple (fun st => boundary sc st /\ wt_source st = src) (fun st => boundary sc st /\ wt_source st = src)); done|done| |].
  - intros [] st [[Hb Hs] _]. split; [by apply finished_here|done].
  - intros st [Hb Hs]. split; [by apply boundary_stopped|done].
Qed.

Lemma performs_idle_reset env src : performs src (idle_reset env) [].
Proof.
  intros sc. eapply triple_consequence; [apply (idle_reset_triple env (fun st => boundary sc st /\ wt_source st = src) (fun st => boundary sc st /\ wt_source st = src)); done|done| |].
  - intros [] st [Hb Hs]. split; [by apply finished_here|done].
  - intros st [Hb Hs]. split; [by apply boundary_stopped|done].
Qed.

Lemma performs_key_update env src : performs src (write_key_update_if_needed env) [].
Proof.
  intros sc st [Hb Hs]. pose proof (key_update_triple env sc (wt_write_record st) (wt_capacity st) src st (conj Hb (conj eq_refl (conj eq_refl Hs)))) as H.
  destruct (write_key_update_if_needed env st) as [[a|e|] st1]; [|done|done]. destruct H as [Hf (_ & _ & ?)]. by split.
Qed.

(** One sealed item that ends the operation. *)
Lemma performs_item {A} src (m : IO TlsApplicationWriter WriteStop A) i :
  (forall sc, triple (fun st => boundary sc st /\ wt_source st = src) m (fun _ st => boundary (sc ++ [i]) st /\ wt_source st = src)
    (fun st => (boundary sc st \/ broken (sc ++ [i]) st) /\ wt_source st = src)) ->
  performs src m (item_view i).
Proof.
  intros H sc st Hst. assert (Hd : script_view [i] = item_view i) by (unfold script_view; cbn; by rewrite app_nil_r).
  specialize (H sc st Hst). destruct (m st) as [[a|e|] st1]; [| |done]; destruct H as [H Hs].
  - split; [|done]. by exists [i].
  - split; [|done]. destruct H as [H|H]; [by apply boundary_stopped|]. exists [i]. rewrite Hd. split; [done|by right].
Qed.

Lemma performs_write_content env src i t pt : item_ops i = [OpSeal t pt 0] -> performs src (write_content env t pt) (item_view i).
Proof. intros Hi. apply performs_item. intros sc. by apply write_record_triple. Qed.

Lemma performs_write_chunks env src fuel : forall pt count, (length pt <= fuel)%nat -> performs src (write_chunks env fuel pt count) (data_view pt).
Proof.
  induction fuel as [|fuel IH]; intros [|b pt] count Hfuel; cbn [write_chunks]; [apply performs_ret|cbn in Hfuel; lia|apply performs_ret|].
  apply performs_silent; [apply performs_key_update|]. intros _. apply performs_silent; [apply performs_idle_reset|]. intros [].
  assert (Hn : (1 <= Z.to_nat MAX_PLAINTEXT_LEN)%nat) by (unfold MAX_PLAINTEXT_LEN; lia).
  revert Hn. generalize (Z.to_nat MAX_PLAINTEXT_LEN). intros n Hn. rewrite <- (take_drop n (b :: pt)) at 2. rewrite data_view_app. apply performs_bind.
  - exact (performs_write_content env src (WiData (take n (b :: pt))) CtApplicationData (take n (b :: pt)) eq_refl).
  - intros []. apply IH. rewrite length_drop. cbn [length] in *. lia.
Qed.

Lemma performs_write_application env src pt : performs src (write_application_data env pt) (data_view pt).
Proof.
  apply performs_silent; [apply performs_ensure_ready|]. intros []. rewrite <- (app_nil_r (data_view pt)).
  apply performs_bind; [by apply performs_write_chunks|]. intros count. apply performs_ret.
Qed.

Lemma performs_shutdown env src : performs src (shutdown_tls_writer env) [None].
Proof.
  apply performs_silent; [apply performs_key_update|]. intros _. apply performs_silent; [apply performs_ensure_ready|]. intros [].
  apply performs_silent; [apply performs_idle_reset|]. intros []. apply (performs_bind src _ _ [None] []); [by apply (performs_write_content env src WiClose)|]. intros [].
  intros sc st [Hb Hs]. pose proof Hb as (items & Hseal & Hl & Hw).
  assert (Hbr : forall s, stopped sc [] (with_records (fail_write (wt_records st)) (sent_to [] s st))).
  { intros s. exists []. split; [done|]. right. split; [|done]. exists items, (wt_records st). rewrite app_nil_r in *. split; [done|]. cbn. by rewrite app_nil_r, Hw. }
  unfold on_drop, idle_shutdown. destruct (wr_answer env (wt_ops st)); [|by split; [apply Hbr|]..].
  split; [|done]. apply finished_here. exists items. cbn. by rewrite !app_nil_r in *.
Qed.

Lemma performs_write_assembled env src pt assemble :
  assemble (replicate (length pt) x00) = pt -> performs src (write_assembled env (len pt) assemble) (data_view pt).
Proof.
  intros Ha. apply performs_silent; [apply performs_key_update|]. intros _. apply performs_silent; [apply performs_idle_reset|]. intros [].
  apply performs_silent; [apply performs_ensure_ready|]. intros []. apply (performs_item src _ (WiData pt)). intros sc.
  apply (sealed_write_triple env sc (WiData pt) CtApplicationData pt src (fun l => seal_assembled (wr_alloc env) l CtApplicationData (len pt) 0 assemble)); [done|].
  intros l. exists (wr_alloc env). by apply seal_assembled_guarded.
Qed.

(** ** Relays: one source read per operation *)

Definition relays {A} (m : IO TlsApplicationWriter WriteStop A) : Prop :=
  forall sc st, boundary sc st ->
    match m st with
    | (Ok _, st') => exists bytes, tp_stream (wt_source st) = bytes ++ tp_stream (wt_source st') /\ finished sc (data_view bytes) st'
    | (Err _, st') => exists bytes, tp_stream (wt_source st) = bytes ++ tp_stream (wt_source st') /\ stopped sc (data_view bytes) st'
    | (Panic, _) => False
    end.

Lemma performs_relays {A} (m : IO TlsApplicationWriter WriteStop A) : (forall src, performs src m []) -> relays m.
Proof.
  intros H sc st Hb. specialize (H (wt_source st) sc st (conj Hb eq_refl)).
  destruct (m st) as [[a|e|] st1]; [| |done]; destruct H as [H ->]; by exists [].
Qed.

(** An operation that failed before reading. *)
Lemma stopped_unread sc st st' : boundary sc st' -> wt_source st' = wt_source st ->
  exists bytes, tp_stream (wt_source st) = bytes ++ tp_stream (wt_source st') /\ stopped sc (data_view bytes) st'.
Proof. intros Hb ->. exists []. split; [done|by apply boundary_stopped]. Qed.

Lemma boundary_ready sc st : boundary sc st -> ensure_ready st = (Ok tt, st).
Proof.
  intros (_ & _ & (_ & Hw & _) & _). unfold ensure_ready, io_reads. rewrite io_get_bind. unfold ensure_write_ready. by rewrite Hw.
Qed.

Lemma idle_reset_cases env st : idle_reset env st = (Ok tt, st) \/ idle_reset env st = (Err (StopError TaTimeout), st).
Proof. unfold idle_reset, io_reads. rewrite io_get_bind. unfold io_check. destruct (wr_armed env _); auto. Qed.

Lemma grow_storage_cases env size st :
  (exists wr cap, grow_storage env size st = (Ok tt, with_storage wr cap st) /\ size <= len wr) \/
  (exists e, grow_storage env size st = (Err e, st)).
Proof.
  unfold grow_storage. rewrite io_get_bind. destruct (Z.ltb_spec (len (wt_write_record st)) size) as [Hlt|Hge].
  - unfold io_check. destruct (_ || _); [left|right; by eexists].
    exists (resize (wt_write_record st) size), (Z.max (wt_capacity st) size). split; [done|]. unfold resize. rewrite len_app, len_zero_bytes by lia. lia.
  - left. exists (wt_write_record st), (wt_capacity st). split; [by destruct st|done].
Qed.

Lemma idle_read_split renv room tp :
  match idle_read renv room tp with
  | (IrBytes bytes, tp') => tp_stream tp = bytes ++ tp_stream tp' /\ len bytes <= Z.of_nat room
  | (_, tp') => tp_stream tp' = tp_stream tp
  end.
Proof.
  unfold idle_read. destruct (tp_stream tp) as [|b s] eqn:E.
  - destruct (read_end renv); cbn; try done. split; [done|]. change (len []) with 0. lia.
  - set (n := Nat.min _ _). cbn [tp_stream]. split; [by rewrite take_drop|]. unfold len. rewrite length_take. unfold n. lia.
Qed.

Lemma overwrite_slot wr bytes :
  RECORD_SLOT_WIRE_CAPACITY <= len wr -> len bytes <= MAX_PLAINTEXT_LEN ->
  exists h room rest, overwrite wr HEADER_LEN bytes = h ++ bytes ++ room ++ rest /\ len h = HEADER_LEN /\ len room = 1 + TAG_LEN.
Proof.
  unfold RECORD_SLOT_WIRE_CAPACITY, MAX_INNER_PLAINTEXT_LEN, HEADER_LEN, TAG_LEN. intros Hw Hb. pose proof (len_nonneg bytes).
  destruct (split_prefix 5 wr ltac:(lia)) as (h & w1 & -> & Hh). rewrite len_app in Hw.
  destruct (split_prefix (len bytes) w1 ltac:(lia)) as (old & w2 & -> & Ho). rewrite len_app in Hw.
  destruct (split_prefix 17 w2 ltac:(lia)) as (room & rest & -> & Hr).
  exists h, room, rest. split_and!; [by apply overwrite_mid|lia|lia].
Qed.

(** The part of a relay after its read: KeyUpdate, seal in place, write. *)
Lemma filled_tail_triple env sc h bytes room rest cap src :
  len h = HEADER_LEN -> len room = 1 + TAG_LEN ->
  triple (fun st => boundary sc st /\ framed (h ++ bytes ++ room ++ rest) cap src st)
    (key_update_written ← write_key_update_if_needed env;
     _ ← (if (key_update_written : bool) then idle_reset env else mret tt);
     _ ← ensure_ready;
     st ← io_get;
     '(record_len, storage, l) ← lift_record (seal_filled (wt_records st) CtApplicationData (len bytes) (wt_write_record st));
     _ ← io_put (with_storage storage (wt_capacity st) (with_records l st));
     on_drop (record ← get_or_invalid (get_range storage 0 record_len); _ ← idle_write_all env record; mret (len bytes)))
    (fun _ st => finished sc (data_view bytes) st /\ wt_source st = src) (fun st => stopped sc (data_view bytes) st /\ wt_source st = src).
Proof.
  intros Hh Hr. set (wr := h ++ bytes ++ room ++ rest).
  apply (triple_bind _ _ _ (fun _ st => finished sc [] st /\ framed wr cap src st)).
  { eapply triple_consequence; [apply (key_update_triple env sc wr cap src)|done|done|]. intros st [Hs Hf]. split; [|done]. by apply (stopped_weaken sc [] (data_view bytes)). }
  intros b. assert (HX : forall st, finished sc [] st /\ framed wr cap src st -> stopped sc (data_view bytes) st /\ wt_source st = src).
  { intros st [(more & Hd & Hb) (_ & _ & Hs)]. split; [|done]. exists more. rewrite Hd. split; [apply prefix_nil|by left]. }
  apply (triple_bind _ _ _ (fun _ st => finished sc [] st /\ framed wr cap src st)).
  { destruct b; [by apply idle_reset_triple|]. by apply triple_ret. }
  intros []. apply (triple_bind _ _ _ (fun _ st => finished sc [] st /\ framed wr cap src st)).
  { eapply triple_consequence; [apply ensure_ready_triple, HX|done| |done]. by intros [] st [? _]. }
  intros []. apply triple_get_bind. intros st [(more & Hd & Hb) Hf]. pose proof Hf as (Hwr & Hcap & Hsrc). intros ? ->.
  pose proof Hb as (items & _ & Hl & _). rewrite Hwr. unfold wr. rewrite seal_filled_guarded by done.
  pose proof (guarded_seal_no_panic (fun _ => true) (wt_records st) CtApplicationData bytes (proj1 Hl)) as Hnp.
  destruct (guarded_seal _ (wt_records st) CtApplicationData bytes 0) as [[record l']|e|] eqn:Hg; [|by apply HX; split; [exists more|]|done].
  cbn [mbind result_bind]. rewrite (io_bind_ok _ _ _ (len record, record ++ rest, l') st) by done. cbn beta iota. rewrite Hcap.
  set (st1 := with_storage (record ++ rest) cap (with_records l' st)). rewrite (io_bind_ok _ _ _ tt st1) by done.
  assert (H1 : owing ((sc ++ more) ++ [WiData bytes]) record st1) by (by eapply seal_owes).
  assert (Hdata : script_view (more ++ [WiData bytes]) = data_view bytes) by (rewrite script_view_app, Hd; cbn; by rewrite app_nil_r).
  rewrite get_range_prefix by done. rewrite <- app_assoc in H1.
  assert (H2 : triple (fun s => owing (sc ++ more ++ [WiData bytes]) record s /\ framed (record ++ rest) cap src s)
    (on_drop (record ← get_or_invalid (Some record); _ ← idle_write_all env record; mret (len bytes)))
    (fun _ s => boundary (sc ++ more ++ [WiData bytes]) s /\ framed (record ++ rest) cap src s)
    (fun s => broken (sc ++ more ++ [WiData bytes]) s /\ framed (record ++ rest) cap src s)).
  { apply on_drop_broken. intros s Hs. rewrite (io_bind_ok _ _ _ record s) by done. revert s Hs.
    eapply triple_bind; [apply write_all_torn|]. intros []. by apply triple_ret. }
  specialize (H2 st1 (conj H1 (conj eq_refl (conj eq_refl Hsrc)))).
  destruct (on_drop _ st1) as [[n|e|] st2]; [| |done]; destruct H2 as [H2 (_ & _ & H3)]; (split; [|done]).
  - by exists (more ++ [WiData bytes]).
  - exists (more ++ [WiData bytes]). rewrite Hdata. split; [done|by right].
Qed.

Lemma idle_read_source_cases renv room st :
  (exists bytes src, idle_read_source renv room st = (Ok bytes, with_source src st) /\
     tp_stream (wt_source st) = bytes ++ tp_stream src /\ len bytes <= Z.of_nat room) \/
  (exists e src, idle_read_source renv room st = (Err e, with_source src st) /\ tp_stream src = tp_stream (wt_source st)).
Proof.
  unfold idle_read_source. rewrite io_get_bind. pose proof (idle_read_split renv room (wt_source st)) as H.
  destruct (idle_read renv room (wt_source st)) as [[bytes| |] src].
  - left. by exists bytes, src.
  - right. by eexists _, src.
  - right. by eexists _, src.
Qed.

Lemma relays_read_from env renv : relays (write_application_read_from env renv).
Proof.
  intros sc st Hb. unfold write_application_read_from. rewrite (io_bind_ok _ _ _ _ _ (boundary_ready sc st Hb)).
  destruct (idle_reset_cases env st) as [E|E]; [rewrite (io_bind_ok _ _ _ _ _ E)|rewrite (io_bind_err _ _ _ _ _ E); by apply stopped_unread].
  assert (Hregion : (exists wr cap region, application_plaintext_region env st = (Ok region, with_storage wr cap st) /\ len region = MAX_PLAINTEXT_LEN /\
      RECORD_SLOT_WIRE_CAPACITY <= len wr) \/ exists e, application_plaintext_region env st = (Err e, st)).
  { unfold application_plaintext_region. destruct (grow_storage_cases env RECORD_SLOT_WIRE_CAPACITY st) as [(wr & cap & Eg & Hlen)|(e & Eg)].
    - left. rewrite (io_bind_ok _ _ _ _ _ Eg). unfold io_reads. rewrite io_get_bind. cbn [wt_write_record with_storage]. unfold slot_plaintext_region.
      unfold RECORD_SLOT_WIRE_CAPACITY, MAX_INNER_PLAINTEXT_LEN, HEADER_LEN, TAG_LEN, MAX_PLAINTEXT_LEN in *.
      rewrite get_range_some by lia. eexists wr, cap, _. split; [reflexivity|]. split; [|done]. rewrite len_take, len_drop. lia.
    - right. exists e. by rewrite (io_bind_err _ _ _ _ _ Eg). }
  destruct Hregion as [(wr & cap & region & Er & Hrl & Hlen)|(e & Er)];
    [rewrite (io_bind_ok _ _ _ _ _ Er)|rewrite (io_bind_err _ _ _ _ _ Er); by apply stopped_unread].
  destruct (idle_read_source_cases renv (length region) (with_storage wr cap st)) as [(bytes & src & Es & Hsplit & Hbl)|(e & src & Es & Hsplit)].
  2: { rewrite (io_bind_err _ _ _ _ _ Es). exists []. cbn in *. split; [by rewrite Hsplit|]. by apply boundary_stopped. }
  rewrite (io_bind_ok _ _ _ _ _ Es), io_get_bind. cbn [wt_write_record wt_capacity wt_source with_source with_storage] in *.
  destruct (overwrite_slot wr bytes Hlen) as (h & room & rest & How & Hh & Hr); [unfold len in *; lia|]. rewrite How.
  set (st1 := with_storage _ cap _). rewrite (io_bind_ok _ _ _ tt st1) by done.
  destruct (Z.eqb_spec (len bytes) 0) as [Hz|Hnz].
  - assert (bytes = []) as -> by (destruct bytes; [done|slen]). exists []. split; [done|]. by apply finished_here.
  - pose proof (filled_tail_triple env sc h bytes room rest cap src Hh Hr st1 (conj Hb (conj eq_refl (conj eq_refl eq_refl)))) as Ht.
    match type of Ht with match ?m with _ => _ end => destruct m as [[n|e|] st2] eqn:Em end; [| |done]; destruct Ht as [Ht Hs];
      exists bytes; rewrite Hs; by split.
Qed.

(** ** Batches *)

(** [data] fills the record slots from the front: every slot but the last holds a
    maximal plaintext. *)
Inductive slots_hold : list byte -> list byte -> Prop :=
| slots_done rest : slots_hold [] rest
| slots_cons h pt room rest data :
    len h = HEADER_LEN -> 1 <= len pt <= MAX_PLAINTEXT_LEN -> (data = [] \/ len pt = MAX_PLAINTEXT_LEN) ->
    len room = MAX_PLAINTEXT_LEN - len pt + 1 + TAG_LEN -> slots_hold data rest ->
    slots_hold (pt ++ data) (h ++ pt ++ room ++ rest).

Lemma max_plaintext_nat : Z.of_nat (Z.to_nat MAX_PLAINTEXT_LEN) = 16384.
Proof. rewrite Z2Nat.id; [reflexivity|discriminate]. Qed.
Lemma slot_capacity_nat : Z.of_nat (Z.to_nat RECORD_SLOT_WIRE_CAPACITY) = 16406.
Proof. rewrite Z2Nat.id; [reflexivity|discriminate]. Qed.

Lemma scatter_holds n : forall bytes buffer,
  Z.of_nat n * 16406 <= len buffer -> len bytes <= Z.of_nat n * 16384 -> slots_hold bytes (scatter n bytes buffer).
Proof.
  induction n as [|n IH]; intros bytes buffer Hbuf Hbytes; cbn [scatter].
  { assert (bytes = []) as -> by (destruct bytes; [done|slen]). apply slots_done. }
  pose proof max_plaintext_nat as Hm. pose proof slot_capacity_nat as Hs. revert Hm Hs.
  generalize (Z.to_nat MAX_PLAINTEXT_LEN) (Z.to_nat RECORD_SLOT_WIRE_CAPACITY). intros m s Hm Hs.
  destruct (decide (bytes = [])) as [->|Hne]; [apply slots_done|]. rewrite <- (take_drop m bytes) at 1.
  assert (Hpt : len (take m bytes) = Z.min 16384 (len bytes)) by (rewrite len_take; lia).
  assert (Hdrop : len (drop m bytes) = Z.max 0 (len bytes - 16384)) by (rewrite len_drop; lia).
  assert (Hslot : len (take s buffer) = 16406) by (rewrite len_take; lia).
  assert (Hrest : len (drop s buffer) = len buffer - 16406) by (rewrite len_drop; lia).
  assert (Hpos : 1 <= len bytes) by (destruct bytes; [done|slen]).
  revert Hpt Hslot. generalize (take m bytes) (take s buffer). intros pt slot Hpt Hslot.
  destruct (split_prefix 5 slot ltac:(lia)) as (h & w1 & -> & Hh). rewrite len_app in Hslot.
  destruct (split_prefix (len pt) w1 ltac:(lia)) as (old & room & -> & Ho). rewrite len_app in Hslot.
  rewrite overwrite_mid by (unfold HEADER_LEN; lia). rewrite <- !app_assoc.
  apply slots_cons; unfold HEADER_LEN, TAG_LEN, MAX_PLAINTEXT_LEN; [lia|lia| |lia|apply IH; lia].
  destruct (decide (16384 <= len bytes)); [right; lia|left]. destruct (drop m bytes); [done|slen].
Qed.

Section Batch.
Context (env : WriteEnv) (src : Transport).

(** Records sealed but not sent are contiguous, in front of the slots still to
    be sealed. *)
Definition batching (sc : list WriterItem) (unsent data : list byte) (slot sealed_len wire_start : Z) (st : TlsApplicationWriter) : Prop :=
  owing sc unsent st /\ wt_source st = src /\
  exists sent slots, wt_write_record st = sent ++ unsent ++ slots /\ len sent = wire_start /\ sealed_len = wire_start + len unsent /\
    slots_hold data slots /\ (data <> [] -> sealed_len = slot * RECORD_SLOT_WIRE_CAPACITY).

(** How an unguarded step of the batch may fail. *)
Definition cut (exposed : bool) (sc : list WriterItem) (st : TlsApplicationWriter) : Prop :=
  exists more, script_view more = [] /\ torn (sc ++ more) st /\ wt_source st = src /\
    (exposed = false -> boundary (sc ++ more) st \/ broken (sc ++ more) st).

Lemma guarded_cut {A} armed (m : IO TlsApplicationWriter WriteStop A) P Q sc :
  triple P m Q (cut armed sc) -> triple P (guarded armed m) Q (fun st => stopped sc [] st /\ wt_source st = src).
Proof.
  intros H st Hst. specialize (H st Hst). unfold guarded, on_drop.
  destruct armed; destruct (m st) as [[a|e|] st']; try done; destruct H as (more & Hd & Ht & Hs & Hx); (split; [|done]);
    exists more; rewrite Hd; (split; [done|]).
  - right. destruct Ht as (items & l & Hseal & Hp). split; [by exists items, l|done].
  - by apply Hx.
Qed.

Lemma owing_cut sc unsent exposed st : owing sc unsent st -> wt_source st = src -> (exposed = false -> unsent = []) -> cut exposed sc st.
Proof.
  intros Ho Hs Hx. exists []. rewrite app_nil_r. split_and!; [done|by eapply owing_torn|done|]. intros E. left. by rewrite (Hx E) in Ho.
Qed.

Lemma flush_guarded_triple sc unsent data slot sealed_len wire_start armed :
  (armed = false -> unsent = []) ->
  triple (batching sc unsent data slot sealed_len wire_start) (flush_for_key_update env sealed_len wire_start)
    (fun start' st => exists more unsent', script_view more = [] /\ (armed = false -> unsent' = []) /\ batching (sc ++ more) unsent' data slot sealed_len start' st)
    (cut armed sc).
Proof.
  intros Harm st Hst. pose proof Hst as (Ho & Hs & sent & slots & Hwr & Hlen & Hsealed & Hslots & Hpos).
  unfold flush_for_key_update. destruct (response_requested_flags env st) as (b & looks & k & Hr).
  rewrite (io_bind_ok _ _ _ _ _ Hr), io_get_bind. set (st1 := with_flags looks k st).
  destruct (b || _); [|exists [], unsent; rewrite app_nil_r; by split_and!].
  assert (Hflush :
    match (if wire_start <? sealed_len then
        wire ← get_or_invalid (get_range (wt_write_record st1) wire_start sealed_len); _ ← idle_write_all env wire; mret sealed_len
      else mret wire_start) st1 with
    | (Ok start', st2) => start' = sealed_len /\ boundary sc st2 /\ framed (wt_write_record st) (wt_capacity st) src st2
    | (Err _, st2) => armed = true /\ torn sc st2 /\ wt_source st2 = src
    | (Panic, _) => False
    end).
  { destruct (Z.ltb_spec wire_start sealed_len) as [Hlt|Hge].
    - assert (Hg : get_range (wt_write_record st1) wire_start sealed_len = Some unsent)
        by (change (wt_write_record st1) with (wt_write_record st); rewrite Hwr; apply get_range_mid; lia).
      rewrite Hg, (io_bind_ok _ _ _ unsent st1) by done.
      pose proof (write_all_torn env sc unsent (wt_write_record st) (wt_capacity st) src st1 (conj Ho (conj eq_refl (conj eq_refl Hs)))) as Hw.
      unfold mbind, IO_bind. destruct (idle_write_all env unsent st1) as [[[]|e|] st2]; [by split|destruct Hw as [Hw Hf]|done].
      split; [|by split; [|apply Hf]]. destruct armed; [done|]. rewrite (Harm eq_refl), len_nil in Hsealed. lia.
    - assert (unsent = []) as -> by (destruct unsent; [done|slen]). rewrite len_nil in Hsealed. split; [lia|]. split; [exact Ho|by split_and!]. }
  unfold mbind at 1, IO_bind at 1.
  match type of Hflush with match ?m with _ => _ end => destruct m as [[start'|e|] st2] end; [| |done].
  2: { destruct Hflush as (-> & Ht & Hs2). exists []. rewrite app_nil_r. by split_and!. }
  destruct Hflush as (-> & Hb & Hf).
  pose proof (key_update_triple env sc (wt_write_record st) (wt_capacity st) src st2 (conj Hb Hf)) as Hku.
  unfold mbind at 1, IO_bind at 1. destruct (write_key_update_if_needed env st2) as [[u|e|] st3]; [| |done].
  2: { destruct Hku as [(more & Hd & Hx) Hs3]. exists more. apply prefix_nil_inv in Hd. split_and!; [done| |done|done].
       destruct Hx as [Hx|Hx]; [by eapply owing_torn|apply Hx]. }
  destruct Hku as [(more & Hd & Hb3) Hf3].
  assert (Hok : batching (sc ++ more) [] data slot sealed_len sealed_len st3).
  { refine (conj Hb3 (conj (proj2 (proj2 Hf3)) _)). exists (sent ++ unsent), slots. rewrite (proj1 Hf3), Hwr, len_nil.
    split_and!; [by rewrite <- app_assoc|rewrite len_app; lia|lia|done|done]. }
  destruct u; [|by exists more, []]. destruct (idle_reset_cases env st3) as [E|E].
  - rewrite (io_bind_ok _ _ _ _ _ E). by exists more, [].
  - rewrite (io_bind_err _ _ _ _ _ E). exists more. split_and!; [done|by eapply owing_torn|apply Hf3|by left].
Qed.

Lemma seal_slot_triple sc unsent data slot sealed_len wire_start armed :
  data <> [] -> (armed = false -> unsent = []) ->
  triple (batching sc unsent data slot sealed_len wire_start) (seal_slot slot (Z.min (len data) MAX_PLAINTEXT_LEN))
    (fun record_len st => exists pt data' record, data = pt ++ data' /\ len pt = Z.min (len data) MAX_PLAINTEXT_LEN /\
       batching (sc ++ [WiData pt]) (unsent ++ record) data' (slot + 1) (sealed_len + record_len) wire_start st)
    (cut armed sc).
Proof.
  intros Hne Harm st Hst. pose proof Hst as (Ho & Hs & sent & slots & Hwr & Hlen & Hsealed & Hslots & Hpos). specialize (Hpos Hne).
  destruct Hslots as [|h pt room rest data' Hh Hpt Hfull Hroom Hrest]; [done|].
  assert (Hmin : Z.min (len (pt ++ data')) MAX_PLAINTEXT_LEN = len pt).
  { rewrite len_app. destruct Hfull as [-> | ->]; [rewrite len_nil; lia|]. pose proof (len_nonneg data'). lia. }
  rewrite Hmin. destruct (split_prefix (1 + TAG_LEN) room) as (room1 & extra & -> & Hr1); [unfold TAG_LEN in *; lia|].
  rewrite len_app in Hroom. unfold seal_slot. rewrite io_get_bind. rewrite <- Hpos.
  assert (Hslice : get_range (wt_write_record st) sealed_len (sealed_len + RECORD_SLOT_WIRE_CAPACITY) = Some (h ++ pt ++ room1 ++ extra)).
  { rewrite Hwr, app_assoc. rewrite <- !app_assoc. rewrite (app_assoc sent unsent). rewrite (app_assoc pt), (app_assoc h), <- !(app_assoc h).
    replace ((sent ++ unsent) ++ h ++ (pt ++ room1) ++ extra ++ rest) with ((sent ++ unsent) ++ (h ++ pt ++ room1 ++ extra) ++ rest) by (by rewrite <- !app_assoc).
    apply get_range_mid; rewrite ?len_app; [lia|]. unfold RECORD_SLOT_WIRE_CAPACITY, MAX_INNER_PLAINTEXT_LEN, HEADER_LEN, TAG_LEN in *. lia. }
  rewrite Hslice, (io_bind_ok _ _ _ (h ++ pt ++ room1 ++ extra) st) by done. rewrite seal_filled_guarded by done.
  pose proof Ho as (items & Hseal & Hl & Hw).
  pose proof (guarded_seal_no_panic (fun _ => true) (wt_records st) CtApplicationData pt (proj1 Hl)) as Hnp.
  destruct (guarded_seal _ (wt_records st) CtApplicationData pt 0) as [[record l']|e|] eqn:Hg; [|by eapply owing_cut|done].
  cbn [mbind result_bind]. rewrite (io_bind_ok _ _ _ (len record, record ++ extra, l') st) by done. cbn beta iota.
  pose proof (live_sealed _ _ _ _ _ _ Hl Hg) as Hl'. pose proof (guarded_seal_ok _ _ _ _ 0 _ _ (proj1 Hl) ltac:(lia) Hg) as (_ & _ & _ & _ & body & tag & Hrs & Hrec).
  apply guarded_seal_any in Hg as Hrun. cbn [fst snd] in Hrun.
  assert (Hrl : len record = HEADER_LEN + len pt + 1 + TAG_LEN).
  { apply record_seal_len in Hrs as [Hb Ht]. rewrite len_inner in Hb by lia. rewrite Hrec, !len_app, len_record_header. unfold TAG_LEN in *. lia. }
  assert (How : overwrite (wt_write_record st) sealed_len (record ++ extra) = sent ++ (unsent ++ record) ++ extra ++ rest).
  { rewrite Hwr. replace (sent ++ unsent ++ h ++ pt ++ (room1 ++ extra) ++ rest) with ((sent ++ unsent) ++ (h ++ pt ++ room1 ++ extra) ++ rest) by (by rewrite <- !app_assoc).
    rewrite overwrite_mid; [by rewrite <- !app_assoc|rewrite len_app; lia|rewrite !len_app; lia]. }
  rewrite How. cbn. exists pt, data', record. split_and!; [done|done|]. split; [|split; [done|]].
  - exists (items ++ [WRecord record]). split_and!; [by eapply (sealed_snoc _ _ _ _ (WiData pt))|done|].
    cbn. rewrite wire_bytes_app, Hw. cbn. by rewrite app_nil_r, app_assoc.
  - exists sent, (extra ++ rest). split_and!; [done|done|rewrite len_app; lia| |].
    + destruct Hfull as [-> | Hmax]; [apply slots_done|]. assert (extra = []) as -> by (destruct extra; [done|slen]). done.
    + intros Hd. destruct Hfull as [-> | Hmax]; [done|]. rewrite Hpos, Hrl, Hmax. unfold RECORD_SLOT_WIRE_CAPACITY, MAX_INNER_PLAINTEXT_LEN. lia.
Qed.

Lemma send_batch_triple sc unsent slot sealed_len wire_start :
  triple (batching sc unsent [] slot sealed_len wire_start) (guarded true (send_batch env sealed_len wire_start))
    (fun _ st => finished sc [] st /\ wt_source st = src) (fun st => stopped sc [] st /\ wt_source st = src).
Proof.
  apply guarded_cut. intros st (Ho & Hs & sent & slots & Hwr & Hlen & Hsealed & _). unfold send_batch. rewrite io_get_bind.
  assert (Hg : get_range (wt_write_record st) wire_start sealed_len = Some unsent) by (rewrite Hwr; apply get_range_mid; lia).
  rewrite Hg, (io_bind_ok _ _ _ unsent st) by done.
  pose proof (write_all_torn env sc unsent (wt_write_record st) (wt_capacity st) src st (conj Ho (conj eq_refl (conj eq_refl Hs)))) as Hw.
  destruct (idle_write_all env unsent st) as [[[]|e|] st2]; [| |done]; destruct Hw as [Hw (_ & _ & Hsrc)].
  - split; [by apply finished_here|done].
  - exists []. rewrite app_nil_r. by split_and!.
Qed.

Lemma batch_loop_triple n : forall sc unsent data slot sealed_len wire_start armed,
  len data <= Z.of_nat n * MAX_PLAINTEXT_LEN -> (armed = false -> unsent = [] /\ data <> []) ->
  triple (batching sc unsent data slot sealed_len wire_start) (batch_loop env n slot armed sealed_len wire_start (len data))
    (fun _ st => finished sc (data_view data) st /\ wt_source st = src) (fun st => stopped sc (data_view data) st /\ wt_source st = src).
Proof.
  assert (Hend : forall sc unsent data slot sealed_len wire_start armed, data = [] -> (armed = false -> unsent = [] /\ data <> []) ->
    triple (batching sc unsent data slot sealed_len wire_start) (guarded armed (send_batch env sealed_len wire_start))
      (fun _ st => finished sc (data_view data) st /\ wt_source st = src) (fun st => stopped sc (data_view data) st /\ wt_source st = src)).
  { intros sc unsent data slot sealed_len wire_start [] -> Harm; [apply send_batch_triple|]. by destruct (Harm eq_refl). }
  induction n as [|n IH]; intros sc unsent data slot sealed_len wire_start armed Hn Harm; cbn [batch_loop].
  { apply Hend; [|done]. destruct data; [done|slen]. }
  destruct (Z.eqb_spec (len data) 0) as [Hz|Hnz]; [apply Hend; [|done]; destruct data; [done|slen]|].
  assert (Hne : data <> []) by (intros ->; by rewrite len_nil in Hnz).
  assert (HX : forall sc2 st, stopped sc2 [] st -> stopped sc2 (data_view data) st) by (intros sc2 st; apply (stopped_weaken sc2 [] (data_view data))).
  intros st Hst. pose proof (guarded_cut armed _ _ _ _ (flush_guarded_triple sc unsent data slot sealed_len wire_start armed ltac:(by intros E; apply Harm)) st Hst) as Hf.
  unfold mbind at 1, IO_bind at 1. destruct (guarded armed (flush_for_key_update env sealed_len wire_start) st) as [[start'|e|] st1]; [| |done].
  2: { destruct Hf as [Hf ?]. split; [by apply HX|done]. }
  destruct Hf as (more & unsent' & Hd & Harm' & Hst1).
  pose proof (guarded_cut armed _ _ _ _ (seal_slot_triple (sc ++ more) unsent' data slot sealed_len start' armed Hne Harm') st1 Hst1) as Hsl.
  unfold mbind at 1, IO_bind at 1. destruct (guarded armed (seal_slot slot _) st1) as [[record_len|e|] st2]; [| |done].
  2: { destruct Hsl as [Hsl ?]. split; [|done]. apply (stopped_then sc [] (data_view data) more); [done|by apply HX]. }
  destruct Hsl as (pt & data' & record & -> & Hpt & Hst2). rewrite len_app in *.
  replace (len pt + len data' - Z.min (len pt + len data') MAX_PLAINTEXT_LEN) with (len data') by lia.
  assert (Hd2 : script_view (more ++ [WiData pt]) = data_view pt) by (rewrite script_view_app, Hd; cbn; by rewrite app_nil_r).
  rewrite <- app_assoc in Hst2. rewrite data_view_app.
  specialize (IH (sc ++ more ++ [WiData pt]) (unsent' ++ record) data' (slot + 1) (sealed_len + record_len) start' true ltac:(unfold MAX_PLAINTEXT_LEN in *; lia) ltac:(done) st2 Hst2).
  destruct (batch_loop env n (slot + 1) true (sealed_len + record_len) start' (len data') st2) as [[[]|e|] st3]; [| |done]; destruct IH as [IH ?]; (split; [|done]).
  - by eapply finished_then.
  - by eapply stopped_then.
Qed.

Lemma write_filled_batch_triple sc data :
  data <> [] -> len data <= 65536 ->
  triple (fun st => boundary sc st /\ wt_source st = src /\ slots_hold data (wt_write_record st)) (write_filled_batch env (len data))
    (fun _ st => finished sc (data_view data) st /\ wt_source st = src) (fun st => stopped sc (data_view data) st /\ wt_source st = src).
Proof.
  intros Hne Hlen st (Hb & Hs & Hslots). unfold write_filled_batch. rewrite (io_bind_ok _ _ _ _ _ (boundary_ready sc st Hb)).
  apply (batch_loop_triple BATCHED_SLOT_COUNT sc [] data 0 0 0 false); [exact Hlen|done|].
  refine (conj Hb (conj Hs _)). by exists [], (wt_write_record st).
Qed.
End Batch.

Lemma relays_batched env renv : relays (write_application_read_from_batched env renv).
Proof.
  intros sc st Hb. unfold write_application_read_from_batched. rewrite (io_bind_ok _ _ _ _ _ (boundary_ready sc st Hb)), io_get_bind.
  destruct (wt_capacity st <? BATCHED_WIRE_CAPACITY).
  - pose proof (relays_read_from env renv sc st Hb) as H. unfold mbind at 1, IO_bind at 1.
    destruct (write_application_read_from env renv st) as [[n|e|] st1]; [|done|done]. destruct H as (bytes & Hsplit & more & Hd & Hb1).
    assert (Hfin : forall st2, wt_records st2 = wt_records st1 -> wt_wire st2 = wt_wire st1 -> boundary (sc ++ more) st2).
    { intros st2 Hr Hw. destruct Hb1 as (items & ? & ? & ?). exists items. by rewrite Hr, Hw. }
    destruct (n =? MAX_PLAINTEXT_LEN).
    + unfold grow_batched_record_storage. destruct (grow_storage_cases env BATCHED_WIRE_CAPACITY st1) as [(wr & cap & E & _)|(e & E)].
      * rewrite (io_bind_ok _ _ _ _ _ E). exists bytes. split; [done|]. exists more. split; [done|by apply Hfin].
      * rewrite (io_bind_err _ _ _ _ _ E). exists bytes. split; [done|]. exists more. rewrite Hd. split; [done|by left].
    + exists bytes. split; [done|]. by exists more.
  - unfold grow_batched_record_storage. destruct (grow_storage_cases env BATCHED_WIRE_CAPACITY st) as [(wr & cap & E & Hlen)|(e & E)];
      [rewrite (io_bind_ok _ _ _ _ _ E)|rewrite (io_bind_err _ _ _ _ _ E); by apply stopped_unread].
    set (st1 := with_storage wr cap st). destruct (idle_reset_cases env st1) as [E1|E1];
      [rewrite (io_bind_ok _ _ _ _ _ E1)|rewrite (io_bind_err _ _ _ _ _ E1); by apply stopped_unread].
    rewrite io_get_bind. unfold batched_plaintext_regions. rewrite (proj2 (Z.ltb_ge _ _)) by done.
    rewrite (io_bind_ok _ _ _ (Z.of_nat BATCHED_SLOT_COUNT * MAX_PLAINTEXT_LEN) st1) by done.
    destruct (idle_read_source_cases renv (Z.to_nat (Z.of_nat BATCHED_SLOT_COUNT * MAX_PLAINTEXT_LEN)) st1) as [(bytes & src & Es & Hsplit & Hbl)|(e & src & Es & Hsplit)].
    2: { rewrite (io_bind_err _ _ _ _ _ Es). exists []. cbn in *. split; [by rewrite Hsplit|]. by apply boundary_stopped. }
    rewrite (io_bind_ok _ _ _ _ _ Es), io_get_bind. rewrite Z2Nat.id in Hbl by done. change (Z.of_nat BATCHED_SLOT_COUNT * MAX_PLAINTEXT_LEN) with 65536 in Hbl.
    change BATCHED_WIRE_CAPACITY with 65624 in Hlen.
    pose proof (scatter_holds BATCHED_SLOT_COUNT bytes wr ltac:(change (Z.of_nat BATCHED_SLOT_COUNT) with 4; lia) ltac:(change (Z.of_nat BATCHED_SLOT_COUNT) with 4; lia)) as Hslots.
    change (wt_write_record (with_source src st1)) with wr. revert Hslots. generalize (scatter BATCHED_SLOT_COUNT bytes wr). intros wr2 Hslots.
    set (st2 := with_storage wr2 _ _). rewrite (io_bind_ok _ _ _ tt st2) by done.
    destruct (Z.eqb_spec (len bytes) 0) as [Hz|Hnz].
    + assert (bytes = []) as -> by (destruct bytes; [done|slen]). exists []. split; [done|]. by apply finished_here.
    + pose proof (write_filled_batch_triple env src sc bytes ltac:(by intros ->) Hbl st2 (conj Hb (conj eq_refl Hslots))) as Ht.
      unfold mbind, IO_bind. destruct (write_filled_batch env (len bytes) st2) as [[[]|e|] st3]; [| |done]; destruct Ht as [Ht Hs]; exists bytes; cbn; rewrite Hs; by split.
Qed.

(** The client's storage, filled by scattering [data]. *)
Lemma performs_filled_storage env src data storage capacity :
  (len data <= 32768 -> slots_hold data storage) -> performs src (write_filled_storage env storage capacity (len data)) (data_view data).
Proof.
  intros Hslots sc st [Hb Hs]. unfold write_filled_storage. destruct (negb _) eqn:Ec.
  2: { split; [by apply boundary_stopped|done]. }
  apply negb_true_iff, orb_false_iff in Ec as [[Hc1%Z.eqb_neq Hc2%Z.ltb_ge]%orb_false_iff _].
  rewrite (io_bind_ok _ _ _ tt st) by done. rewrite (io_bind_ok _ _ _ _ _ (boundary_ready sc st Hb)).
  destruct (idle_reset_cases env st) as [E|E]; [rewrite (io_bind_ok _ _ _ _ _ E)|rewrite (io_bind_err _ _ _ _ _ E); split; [by apply boundary_stopped|done]].
  rewrite io_get_bind. rewrite (io_bind_ok _ _ _ tt (with_storage storage capacity st)) by done.
  assert (Hlen : 1 <= len data <= 32768).
  { unfold div_ceil, MAX_PLAINTEXT_LEN in *. pose proof (len_nonneg data). Z.to_euclidean_division_equations. lia. }
  pose proof (write_filled_batch_triple env src sc data ltac:(by intros ->) ltac:(lia) (with_storage storage capacity st) (conj Hb (conj Hs (Hslots ltac:(lia))))) as Ht.
  unfold swap_back. destruct (write_filled_batch env (len data) (with_storage storage capacity st)) as [[[]|[e|]|] st1]; [| | |done]; done.
Qed.
End States.
End Scripts.

(** ** Calls *)

Inductive WriterCall :=
| CallWrite (plaintext : list byte) | CallAssembled (plaintext : list byte) | CallReadFrom | CallBatched
| CallFilled (data : list byte) | CallShutdown.

Section Calls.
Context {C : Tls13Ops} (env : WriteEnv) (renv : ReadEnv).

Definition run_call (c : WriterCall) : IO TlsApplicationWriter WriteStop unit :=
  match c with
  | CallWrite plaintext => _ ← write_application_data env plaintext; mret tt
  | CallAssembled plaintext => write_assembled env (len plaintext) (fun _ => plaintext)
  | CallReadFrom => _ ← write_application_read_from env renv; mret tt
  | CallBatched => _ ← write_application_read_from_batched env renv; mret tt
  | CallFilled data =>
    let size := 2 * RECORD_SLOT_WIRE_CAPACITY in
    _ ← write_filled_storage env (scatter 2 data (zero_bytes size)) size (len data); mret tt
  | CallShutdown => shutdown_tls_writer env
  end.

(** The plaintext a call writes, [consumed] being what it read from the source. *)
Definition call_payload (c : WriterCall) (consumed : list byte) : list (option byte) :=
  match c with
  | CallWrite plaintext | CallAssembled plaintext => data_view plaintext
  | CallFilled data => data_view data
  | CallReadFrom | CallBatched => data_view consumed
  | CallShutdown => [None]
  end.

(** All calls, also after a failed one. *)
Fixpoint run_calls (cs : list WriterCall) (st : TlsApplicationWriter) : list (result WriteStop unit) * TlsApplicationWriter :=
  match cs with
  | [] => ([], st)
  | c :: cs => let '(r, st) := run_call c st in let '(rs, st) := run_calls cs st in (r :: rs, st)
  end.
End Calls.

Section CallLemmas.
Context {C : Tls13Ops} {L : Tls13Laws C} (l0 : Tls13RecordLayer).

Lemma relays_bind_ret {A} (m : IO TlsApplicationWriter WriteStop A) : relays l0 m -> relays l0 (_ ← m; mret tt).
Proof.
  intros H sc st Hb. specialize (H sc st Hb). unfold mbind, IO_bind. by destruct (m st) as [[a|e|] st1].
Qed.

Lemma performs_bind_ret {A} src (m : IO TlsApplicationWriter WriteStop A) p : performs l0 src m p -> performs l0 src (_ ← m; mret tt) p.
Proof.
  intros H. rewrite <- (app_nil_r p). apply performs_bind; [done|]. intros _. apply performs_ret.
Qed.

Lemma call_outcome env renv c sc st :
  boundary l0 sc st ->
  match run_call env renv c st with
  | (Ok _, st') => exists consumed, tp_stream (wt_source st) = consumed ++ tp_stream (wt_source st') /\ finished l0 sc (call_payload c consumed) st'
  | (Err _, st') => exists consumed, tp_stream (wt_source st) = consumed ++ tp_stream (wt_source st') /\ stopped l0 sc (call_payload c consumed) st'
  | (Panic, _) => False
  end.
Proof.
  intros Hb. assert (Hperf : forall m : IO TlsApplicationWriter WriteStop unit, (forall src, performs l0 src m (call_payload c [])) ->
    match m st with
    | (Ok _, st') => exists consumed, tp_stream (wt_source st) = consumed ++ tp_stream (wt_source st') /\ finished l0 sc (call_payload c consumed) st'
    | (Err _, st') => exists consumed, tp_stream (wt_source st) = consumed ++ tp_stream (wt_source st') /\ stopped l0 sc (call_payload c consumed) st'
    | (Panic, _) => False
    end).
  { intros m Hm. specialize (Hm (wt_source st) sc st (conj Hb eq_refl)).
    destruct (m st) as [[a|e|] st1]; [| |done]; destruct Hm as [Hm ->]; by exists []. }
  destruct c as [pt|pt| | |data|]; cbn [run_call].
  - apply Hperf. intros src. apply performs_bind_ret, performs_write_application.
  - apply Hperf. intros src. by apply performs_write_assembled.
  - apply (relays_bind_ret _ (relays_read_from l0 env renv) sc st Hb).
  - apply (relays_bind_ret _ (relays_batched l0 env renv) sc st Hb).
  - apply Hperf. intros src. apply performs_bind_ret, performs_filled_storage. intros Hd.
    apply scatter_holds; [rewrite len_zero_bytes; done|exact Hd].
  - apply Hperf. intros src. apply performs_shutdown.
Qed.

(** A failed direction. *)
Lemma failed_ready st : rl_write_failed (wt_records st) = true -> ensure_ready st = (Err (StopError (TaRecord RWriteFailed)), st).
Proof. intros H. unfold ensure_ready, io_reads. rewrite io_get_bind. unfold ensure_write_ready. by rewrite H. Qed.

Lemma failed_call env renv c st :
  rl_write_failed (wt_records st) = true -> exists e, run_call env renv c st = (Err e, st).
Proof.
  intros H. pose proof (failed_ready st H) as E.
  assert (Hku : write_key_update_if_needed env st = (Err (StopError (TaRecord RWriteFailed)), st))
    by (unfold write_key_update_if_needed; by rewrite (io_bind_err _ _ _ _ _ E)).
  destruct c as [pt|pt| | |data|]; cbn [run_call].
  - eexists. apply io_bind_err. by apply io_bind_err.
  - eexists. by apply io_bind_err.
  - eexists. apply io_bind_err. by apply io_bind_err.
  - eexists. apply io_bind_err. by apply io_bind_err.
  - unfold write_filled_storage. destruct (negb _) eqn:Ec; [|by eexists].
    eexists. apply io_bind_err. rewrite (io_bind_ok _ _ _ tt st) by done. by apply io_bind_err.
  - eexists. by apply io_bind_err.
Qed.

Lemma failed_calls env renv cs st :
  rl_write_failed (wt_records st) = true ->
  let '(rs, st') := run_calls env renv cs st in st' = st /\ Forall (fun r => exists e, r = Err e) rs.
Proof.
  intros H. induction cs as [|c cs IH]; cbn [run_calls]; [done|]. destruct (failed_call env renv c st H) as (e & ->).
  destruct (run_calls env renv cs st) as [rs st']. destruct IH as [-> IH]. split; [done|]. constructor; [by exists e|done].
Qed.

Lemma run_calls_inv env renv cs : forall sc st, boundary l0 sc st \/ broken l0 sc st ->
  let '(rs, st') := run_calls env renv cs st in
  Forall no_panic rs /\ exists more, boundary l0 (sc ++ more) st' \/ broken l0 (sc ++ more) st'.
Proof.
  induction cs as [|c cs IH]; intros sc st Hst; cbn [run_calls].
  { split; [done|]. exists []. by rewrite app_nil_r. }
  destruct Hst as [Hb|Hb].
  - pose proof (call_outcome env renv c sc st Hb) as Hc.
    assert (Hnext : exists more, (boundary l0 (sc ++ more) (snd (run_call env renv c st)) \/ broken l0 (sc ++ more) (snd (run_call env renv c st))) /\ fst (run_call env renv c st) <> Panic).
    { destruct (run_call env renv c st) as [[[]|e|] st1]; [| |done]; destruct Hc as (_ & _ & more & _ & H); exists more; split; try done; by left. }
    destruct Hnext as (more & Hm & Hnp). destruct (run_call env renv c st) as [r st1]. cbn [fst snd] in *. specialize (IH (sc ++ more) st1 Hm).
    destruct (run_calls env renv cs st1) as [rs st2]. destruct IH as [IH (more2 & IH2)]. split; [by constructor|]. exists (more ++ more2). by rewrite app_assoc.
  - pose proof (failed_calls env renv (c :: cs) st (proj2 Hb)) as Hf. cbn [run_calls] in Hf. destruct (run_call env renv c st) as [r st1].
    destruct (run_calls env renv cs st1) as [rs st2]. destruct Hf as [-> Hf]. split.
    + eapply Forall_impl; [exact Hf|]. by intros ? (e & ->).
    + exists []. rewrite app_nil_r. by right.
Qed.

Lemma new_writer_boundary coordination source : live l0 -> boundary l0 [] (new_writer l0 coordination source).
Proof. intros H. exists []. by split_and!. Qed.
End CallLemmas.

(** C22: a write direction fails closed. Over any sequence of writer operations and
    any behaviour of the socket (short writes, errors, timeouts, dropped
    futures at every await) and of the reader's KeyUpdate requests, nothing
    panics and the wire is always a prefix of one legitimate record stream of
    this direction. Either the direction is usable and the wire ends exactly on
    the record boundary its keys and sequence stand at, or the direction is
    failed: then every further operation returns an error and sends no byte,
    and the direction cannot be exported to a handoff. *)
Theorem writer_fails_closed {C : Tls13Ops} {L : Tls13Laws C} (env : WriteEnv) (renv : ReadEnv) (calls : list WriterCall)
    (records : Tls13RecordLayer) (coordination : KeyUpdateCoordination) (source : Transport) :
  layer_wf records -> rl_write_failed records = false -> rl_traffic records <> TsHandshake ->
  let '(rs, st) := run_calls env renv calls (new_writer records coordination source) in
  Forall no_panic rs /\
  exists script items l, seal_run (fun _ => true) records (script_ops script) = Ok (items, l) /\
    (rl_write_failed (wt_records st) = false /\ wt_records st = l /\ wt_wire st = wire_bytes items \/
     rl_write_failed (wt_records st) = true /\ wt_wire st `prefix_of` wire_bytes items /\
       is_ok (into_exported_state (wt_records st)) = false /\
       forall env' renv' more, let '(rs', st') := run_calls env' renv' more st in st' = st /\ Forall (fun r => exists e, r = Err e) rs').
Proof.
  intros Hwf Hw Ht. pose proof (run_calls_inv records env renv calls [] _ (or_introl (new_writer_boundary records coordination source (conj Hwf (conj Hw Ht))))) as H.
  destruct (run_calls env renv calls _) as [rs st]. destruct H as [Hnp (sc & H)]. split; [done|]. exists sc. cbn [app] in H.
  destruct H as [(items & Hs & Hl & Hwire)|[(items & l & Hs & Hp) Hf]].
  - exists items, (wt_records st). split; [done|]. left. split_and!; [apply Hl|done|by rewrite app_nil_r in Hwire].
  - exists items, l. split; [done|]. right. split_and!; [done|done|by unfold into_exported_state, ensure_write_ready; rewrite Hf|].
    intros env' renv' more. by apply failed_calls.
Qed.

(** ** Example: the second record's write is dropped after four bytes *)

Definition example_write_env : WriteEnv :=
  {| wr_alloc := fun _ => true; wr_armed := fun _ => true;
     wr_answer := fun k => match k with 1%nat => WaDropped 4 | _ => WaDone end; wr_request := fun k => Nat.eqb k 2 |}.

Definition example_calls : list WriterCall := [CallWrite [x61; x62]; CallReadFrom; CallWrite [x64]].

Definition example_writer : TlsApplicationWriter :=
  new_writer example_layer (new_coordination false) {| tp_stream := [x63]; tp_reads := 0 |}.

Lemma example_layer_live : rl_write_failed example_layer = false /\ rl_traffic example_layer <> TsHandshake.
Proof. vm_compute. split; [reflexivity|discriminate]. Qed.

Lemma writer_fails_closed_witness :
  let '(rs, st) := run_calls example_write_env (example_read_env 9) example_calls example_writer in
  rs = [Ok tt; Err StopDropped; Err (StopError (TaRecord RWriteFailed))] /\ is_ok (into_exported_state (wt_records st)) = false.
Proof.
  pose proof (writer_fails_closed example_write_env (example_read_env 9) example_calls example_layer (new_coordination false)
    {| tp_stream := [x63]; tp_reads := 0 |} example_layer_wf (proj1 example_layer_live) (proj2 example_layer_live)) as H.
  fold example_writer in H.
  assert (Hrun : fst (run_calls example_write_env (example_read_env 9) example_calls example_writer) =
      [Ok tt; Err StopDropped; Err (StopError (TaRecord RWriteFailed))] /\
    rl_write_failed (wt_records (snd (run_calls example_write_env (example_read_env 9) example_calls example_writer))) = true)
    by (vm_compute; split; reflexivity).
  destruct (run_calls example_write_env (example_read_env 9) example_calls example_writer) as [rs st]. cbn [fst snd] in Hrun.
  destruct Hrun as [-> Hfail]. split; [reflexivity|].
  destruct H as (_ & script & items & l & _ & [(Hf & _)|(_ & _ & He & _)]); [rewrite Hf in Hfail; discriminate Hfail|exact He].
Defined.
