(* ===== verification/TlsChannel.v ===== *)
(** * The TLS application channel

    The writer of one end composed with the buffered reader of the other: what a
    session's application data becomes on its way through record sealing,
    KeyUpdates, arbitrary socket interruptions and arbitrary read sizes. *)

From S2P Require Import Prelude Cursor Effects Tls13Keys HandoffBlob Tls13Record TlsReader TlsWriter.
#[local] Open Scope Z_scope.

Section Run.
Context {C : Tls13Ops} (env : WriteEnv) (renv : ReadEnv).

(** The calls up to the first that does not complete. *)
Fixpoint run_until (cs : list WriterCall) (st : TlsApplicationWriter) : result WriteStop unit * TlsApplicationWriter :=
  match cs with
  | [] => (Ok tt, st)
  | c :: cs => match run_call env renv c st with (Ok _, st) => run_until cs st | (r, st) => (r, st) end
  end.

(** What these calls were asked to write, relayed source bytes included. *)
Fixpoint offered (cs : list WriterCall) (st : TlsApplicationWriter) : list (option byte) :=
  match cs with
  | [] => []
  | c :: cs =>
    let '(r, st') := run_call env renv c st in
    let before := tp_stream (wt_source st) in
    let consumed := take (length before - length (tp_stream (wt_source st'))) before in
    call_payload c consumed ++ (match r with Ok _ => offered cs st' | _ => [] end)
  end.
End Run.

(** What the peer's application sees: plaintext bytes, and [None] for an
    authenticated close_notify. *)
Definition result_view (r : result TlsApplicationIoError (list byte)) : list (option byte) :=
  match r with
  | Ok plaintext => data_view plaintext
  | Err (TaPeerAlert x01 x00) => [None]
  | _ => []
  end.
Definition results_view (rs : list (result TlsApplicationIoError (list byte))) : list (option byte) := concat (map result_view rs).

Fixpoint upto_close (v : list (option byte)) : list (option byte) :=
  match v with
  | [] => []
  | Some b :: v => Some b :: upto_close v
  | None :: _ => [None]
  end.

(** The reads of a script whose wire ends in [last]. *)
Fixpoint script_reads (sc : list WriterItem) (last : result TlsApplicationIoError (list byte)) : list (result TlsApplicationIoError (list byte)) :=
  match sc with
  | [] => [last]
  | WiData plaintext :: sc => Ok plaintext :: script_reads sc last
  | WiKeyUpdate :: sc => Ok [] :: script_reads sc last
  | WiClose :: _ => [Err (TaPeerAlert ALERT_LEVEL_WARNING ALERT_CLOSE_NOTIFY)]
  end.

Section Lemmas.
Context {C : Tls13Ops} {L : Tls13Laws C}.

Lemma run_until_outcome l0 env renv cs : forall sc st, boundary l0 sc st ->
  match run_until env renv cs st with
  | (Ok _, st') => finished l0 sc (offered env renv cs st) st'
  | (Err _, st') => stopped l0 sc (offered env renv cs st) st'
  | (Panic, _) => False
  end.
Proof.
  induction cs as [|c cs IH]; intros sc st Hb; cbn [run_until offered]; [by apply finished_here|].
  pose proof (call_outcome l0 env renv c sc st Hb) as Hc. destruct (run_call env renv c st) as [[[]|e|] st1]; [| |done];
    destruct Hc as (consumed & Hsplit & Hc);
    (assert (Htake : take (length (tp_stream (wt_source st)) - length (tp_stream (wt_source st1))) (tp_stream (wt_source st)) = consumed)
      by (rewrite Hsplit, length_app; apply take_app_length'; lia)); rewrite Htake.
  - destruct Hc as (more & Hd & Hb1). specialize (IH (sc ++ more) st1 Hb1). destruct (run_until env renv cs st1) as [[[]|e|] st2]; [| |done].
    + by eapply finished_then.
    + by eapply stopped_then.
  - by rewrite app_nil_r.
Qed.

(** ** Reading a script *)

Lemma sealed_record_frame alloc l t pt record l' :
  layer_wf l -> guarded_seal alloc l t pt 0 = Ok (record, l') ->
  (forall rest, frame_of (record ++ rest) = FrRecord record rest) /\
  (forall p, p `prefix_of` record -> p <> record -> frame_of p = FrIncomplete).
Proof.
  intros Hwf Hg. apply guarded_seal_ok in Hg as (_ & _ & Hfit & _ & body & tag & Hs & ->); [|done..].
  apply record_seal_len in Hs as [Hb Ht]. rewrite len_inner in Hb by done. unfold record_fits in Hfit. apply andb_true_iff in Hfit as [_ Hmax%Z.leb_le].
  set (n := len pt + 1 + 0 + TAG_LEN) in *. pose proof (len_nonneg pt). unfold TAG_LEN, MAX_INNER_PLAINTEXT_LEN, MAX_PLAINTEXT_LEN in *.
  assert (Hh : len (record_header n) = 5) by apply len_record_header.
  assert (Hbl : header_body_len (record_header n) = n).
  { unfold header_body_len. change (take 2 (drop 3 (record_header n))) with (to_be 2 n). apply from_be_to_be. change (256 ^ Z.of_nat 2) with 65536. lia. }
  assert (Hv : body_len_invalid (header_body_len (record_header n)) = false).
  { rewrite Hbl. apply body_len_valid. unfold MAX_TLS13_CIPHERTEXT_LEN, MAX_PLAINTEXT_LEN. lia. }
  assert (Hbt : len (body ++ tag) = header_body_len (record_header n)) by (rewrite Hbl, len_app; lia).
  revert Hh Hv Hbt. generalize (record_header n) (body ++ tag). intros header rest0 Hh Hv Hbt. split.
  - intros rest. by apply frame_of_full.
  - intros p [q Hq] Hne. assert (Hlt : len p < len (header ++ rest0)).
    { rewrite Hq, len_app. destruct q; [by rewrite app_nil_r in Hq|slen]. }
    destruct (decide (len p < 5)) as [Hs|Hs]; [by apply frame_of_short|].
    destruct (split_prefix 5 p) as (h & r & -> & Hhl); [pose proof (len_nonneg p); lia|]. rewrite <- app_assoc in Hq.
    apply app_inj_1 in Hq as [-> Hq]; [|unfold len in *; lia]. apply frame_of_partial; [done|done|]. rewrite !len_app in *. unfold TLS_RECORD_HEADER_LEN. lia.
Qed.

Lemma guarded_seal_wf alloc l t pt record l' : layer_wf l -> guarded_seal alloc l t pt 0 = Ok (record, l') -> layer_wf l'.
Proof.
  intros Hwf H. apply guarded_seal_ok in H as (_ & Hlt & _ & -> & _); [|done..]. apply set_sequence_wf; [done|]. destruct Hwf as (_ & _ & Hs & _). lia.
Qed.

(** A session about to read the peer's stream from [l]. *)
Definition fresh_session (l : Tls13RecordLayer) (s : ReadSession) : Prop :=
  rs_records s = l /\ len (ku_message (rs_key_update s)) = 5 /\ ku_length (rs_key_update s) = 0.

Lemma push_key_update ku : len (ku_message ku) = 5 -> ku_length ku = 0 ->
  push_record KEY_UPDATE_RESPONSE ku = (Ok (Some NotRequested), {| ku_message := KEY_UPDATE_RESPONSE; ku_length := 0 |}).
Proof.
  intros Hm Hl. destruct ku as [m n]. cbn in Hm, Hl. subst n. destruct m as [|a [|b [|c [|d [|e [|]]]]]]; try (exfalso; slen). reflexivity.
Qed.

Lemma deliver_data alloc l s pt record l' :
  layer_wf l -> fresh_session l s -> guarded_seal alloc l CtApplicationData pt 0 = Ok (record, l') ->
  exists s', deliver record s = (Ok pt, s') /\ fresh_session l' s'.
Proof.
  intros Hwf (Hr & Hm & Hk) Hg. apply open_sealed in Hg; [|done..]. unfold deliver. rewrite Hr, Hg.
  unfold process_opened_record, io_reads, io_get, mbind, IO_bind, ku_is_empty. rewrite Hk. cbn. eexists. split; [done|]. by split_and!.
Qed.

Lemma deliver_key_update alloc l s record l1 l2 :
  layer_wf l -> fresh_session l s -> guarded_seal alloc l CtHandshake KEY_UPDATE_RESPONSE 0 = Ok (record, l1) -> update_traffic_secret l1 = Ok l2 ->
  exists s', deliver record s = (Ok [], s') /\ fresh_session l2 s'.
Proof.
  intros Hwf (Hr & Hm & Hk) Hg Hu. apply open_sealed in Hg; [|done..]. unfold deliver. rewrite Hr, Hg.
  unfold process_opened_record, process_key_update_record, io_reads, io_get, mbind, IO_bind. rewrite push_key_update, Hu by done.
  cbn. eexists. split; [done|]. by split_and!.
Qed.

Lemma deliver_close alloc l s record l' :
  layer_wf l -> fresh_session l s -> guarded_seal alloc l CtAlert [ALERT_LEVEL_WARNING; ALERT_CLOSE_NOTIFY] 0 = Ok (record, l') ->
  exists s', deliver record s = (Err (TaPeerAlert ALERT_LEVEL_WARNING ALERT_CLOSE_NOTIFY), s').
Proof.
  intros Hwf (Hr & Hm & Hk) Hg. apply open_sealed in Hg; [|done..]. unfold deliver. rewrite Hr, Hg.
  unfold process_opened_record, io_reads, io_get, mbind, IO_bind, ku_is_empty. rewrite Hk. by eexists.
Qed.

Lemma spec_reads_ok e s stream n a s' rest :
  read_spec e s stream = (Ok a, s', rest) -> fst (spec_reads e s stream (S n)) = Ok a :: fst (spec_reads e s' rest n).
Proof.
  intros H. unfold spec_reads. cbn [read_run]. rewrite H. by destruct (read_run _ n (s', rest)) as [rs [s2 x]].
Qed.

Lemma spec_reads_err e s stream n err s' rest :
  read_spec e s stream = (Err err, s', rest) -> fst (spec_reads e s stream (S n)) = [Err err].
Proof. intros H. unfold spec_reads. cbn [read_run]. by rewrite H. Qed.

Lemma prefix_app_cases {A} (p r w : list A) :
  p `prefix_of` r ++ w -> (exists p2, p = r ++ p2 /\ p2 `prefix_of` w) \/ (p `prefix_of` r /\ p <> r).
Proof.
  intros Hp. destruct (decide (length p < length r)%nat) as [Hlt|Hge].
  - right. split; [|intros ->; lia]. destruct Hp as [q Hq]. exists (take (length r - length p) q).
    apply (f_equal (take (length r))) in Hq. rewrite take_app_length, take_app_ge in Hq by lia. done.
  - left. destruct Hp as [q Hq]. exists (drop (length r) p). split.
    + rewrite <- (take_drop (length r) p) at 1. f_equal. apply (f_equal (take (length r))) in Hq. by rewrite take_app_length, take_app_le in Hq by lia.
    + exists q. apply (f_equal (drop (length r))) in Hq. by rewrite drop_app_length, drop_app_le in Hq by lia.
Qed.

(** The first record of a script: read whole, or cut short. *)
Lemma script_step e s alloc l t pt record l1 p w n :
  layer_wf l -> guarded_seal alloc l t pt 0 = Ok (record, l1) -> p `prefix_of` record ++ w ->
  (exists p2, p = record ++ p2 /\ p2 `prefix_of` w /\ read_spec e s p = (let '(r, s') := deliver record s in (r, s', p2))) \/
  (p <> record ++ w /\ fst (spec_reads e s p (S n)) = [Err (TaRead {| read_kind := end_kind e; wire_prefix := p |})]).
Proof.
  intros Hwf Hg Hp. pose proof (sealed_record_frame _ _ _ _ _ _ Hwf Hg) as [Hfull Hpart].
  destruct (prefix_app_cases p record w Hp) as [(p2 & -> & Hp2)|[Hp2 Hne]].
  - left. exists p2. split_and!; [done|done|]. unfold read_spec. by rewrite Hfull.
  - right. split.
    + intros ->. destruct Hp2 as [q Hq]. apply Hne. apply (f_equal length) in Hq as Hl. rewrite !length_app in Hl.
      destruct w; [by rewrite app_nil_r|cbn in Hl; lia].
    + eapply spec_reads_err. unfold read_spec. by rewrite (Hpart p Hp2 Hne).
Qed.

Lemma spec_reads_script e sc : forall l s items l' p n,
  layer_wf l -> fresh_session l s -> seal_run (fun _ => true) l (script_ops sc) = Ok (items, l') -> p `prefix_of` wire_bytes items -> (length sc < n)%nat ->
  exists sc1 part, sc1 `prefix_of` sc /\ (p = wire_bytes items -> sc1 = sc /\ part = []) /\
    fst (spec_reads e s p n) = script_reads sc1 (Err (TaRead {| read_kind := end_kind e; wire_prefix := part |})).
Proof.
  induction sc as [|i sc IH]; intros l s items l' p n Hwf Hs Hrun Hp Hn; destruct n as [|n]; try (cbn in Hn; lia).
  { injection Hrun as <- <-. apply prefix_nil_inv in Hp as ->. exists [], []. split_and!; [done|done|]. by eapply spec_reads_err. }
  assert (Hcut : forall record w items, wire_bytes items = record ++ w -> p <> record ++ w ->
    fst (spec_reads e s p (S n)) = [Err (TaRead {| read_kind := end_kind e; wire_prefix := p |})] ->
    exists sc1 part, sc1 `prefix_of` i :: sc /\ (p = wire_bytes items -> sc1 = i :: sc /\ part = []) /\
      fst (spec_reads e s p (S n)) = script_reads sc1 (Err (TaRead {| read_kind := end_kind e; wire_prefix := part |}))).
  { intros record w items' Hw Hne Hf. exists [], p. split_and!; [apply prefix_nil|by rewrite Hw|done]. }
  assert (Hnext : forall p2 a s2 l2 items2 rest record, read_spec e s p = (Ok a, s2, p2) -> layer_wf l2 -> fresh_session l2 s2 ->
    seal_run (fun _ => true) l2 (script_ops sc) = Ok (items2, l') -> p = record ++ p2 -> p2 `prefix_of` wire_bytes items2 -> wire_bytes rest = record ++ wire_bytes items2 ->
    (forall sc1 last, Ok a :: script_reads sc1 last = script_reads (i :: sc1) last) ->
    exists sc1 part, sc1 `prefix_of` i :: sc /\ (p = wire_bytes rest -> sc1 = i :: sc /\ part = []) /\
      fst (spec_reads e s p (S n)) = script_reads sc1 (Err (TaRead {| read_kind := end_kind e; wire_prefix := part |}))).
  { intros p2 a s2 l2 items2 rest record Hspec Hwf2 Hs2 Hrun2 Hsplit Hp2 Hw Hcons.
    destruct (IH l2 s2 items2 l' p2 n Hwf2 Hs2 Hrun2 Hp2 ltac:(cbn in Hn; lia)) as (sc1 & part & Hpre & Heq & Hreads).
    exists (i :: sc1), part. split_and!; [by apply prefix_cons| |].
    - rewrite Hw, Hsplit. intros E%app_inv_head. by destruct (Heq E) as [-> ->].
    - rewrite (spec_reads_ok _ _ _ _ _ _ _ Hspec), Hreads. apply Hcons. }
  unfold script_ops in Hrun. cbn [map concat] in Hrun. fold (script_ops sc) in Hrun. destruct i as [pt| |]; cbn [item_ops app seal_run] in Hrun.
  - apply bind_ok in Hrun as ([record l1] & Hg & Hrun). apply bind_ok in Hrun as ([w l2] & Hrun & E). injection E as <- <-.
    rewrite seal_into_guarded in Hg by done. change (wire_bytes (WRecord record :: w)) with (record ++ wire_bytes w) in Hp.
    destruct (script_step e s _ _ _ _ _ _ p (wire_bytes w) n Hwf Hg Hp) as [(p2 & Hsplit & Hp2 & Hspec)|[Hne Hf]]; [|by eapply Hcut].
    destruct (deliver_data _ _ _ _ _ _ Hwf Hs Hg) as (s2 & Hd & Hs2). rewrite Hd in Hspec.
    eapply (Hnext p2 pt s2 l1 w _ record); try done. by eapply guarded_seal_wf.
  - apply bind_ok in Hrun as ([record l1] & Hg & Hrun). apply bind_ok in Hrun as ([w0 l2] & Hrun & E). injection E as <- <-.
    apply bind_ok in Hrun as (l2' & Hu & Hrun). apply bind_ok in Hrun as ([w l3] & Hrun & E). injection E as <- <-.
    rewrite seal_into_guarded in Hg by done. change (wire_bytes (WRecord record :: WUpdate :: w)) with (record ++ wire_bytes w) in Hp.
    destruct (script_step e s _ _ _ _ _ _ p (wire_bytes w) n Hwf Hg Hp) as [(p2 & Hsplit & Hp2 & Hspec)|[Hne Hf]]; [|by eapply Hcut].
    destruct (deliver_key_update _ _ _ _ _ _ Hwf Hs Hg Hu) as (s2 & Hd & Hs2). rewrite Hd in Hspec.
    eapply (Hnext p2 [] s2 l2' w _ record); try done. eapply update_inv; [|done]. by eapply guarded_seal_wf.
  - apply bind_ok in Hrun as ([record l1] & Hg & Hrun). apply bind_ok in Hrun as ([w l2] & Hrun & E). injection E as <- <-.
    rewrite seal_into_guarded in Hg by done. change (wire_bytes (WRecord record :: w)) with (record ++ wire_bytes w) in Hp.
    destruct (script_step e s _ _ _ _ _ _ p (wire_bytes w) n Hwf Hg Hp) as [(p2 & Hsplit & Hp2 & Hspec)|[Hne Hf]]; [|by eapply Hcut].
    destruct (deliver_close _ _ _ _ _ Hwf Hs Hg) as (s2 & Hd). rewrite Hd in Hspec.
    exists (WiClose :: sc), []. split_and!; [done|done|]. by eapply spec_reads_err.
Qed.

(** ** Views *)

Lemma upto_close_prefix v : upto_close v `prefix_of` v.
Proof.
  induction v as [|[b|] v IH]; cbn; [done|by apply prefix_cons|]. by exists v.
Qed.

Lemma upto_close_app a b : upto_close (data_view a ++ b) = data_view a ++ upto_close b.
Proof. unfold data_view. induction a as [|x a IH]; cbn; [done|by rewrite IH]. Qed.

Lemma script_reads_view sc kind part :
  results_view (script_reads sc (Err (TaRead {| read_kind := kind; wire_prefix := part |}))) = upto_close (script_view sc).
Proof.
  unfold results_view, script_view. induction sc as [|[pt| |] sc IH]; cbn [script_reads map concat item_view]; [done| | |done].
  - cbn [result_view]. by rewrite upto_close_app, IH.
  - exact IH.
Qed.

Lemma script_reads_last sc err : exists rs e, script_reads sc (Err err) = rs ++ [Err e].
Proof.
  induction sc as [|[pt| |] sc (rs & e & IH)]; cbn [script_reads]; [by exists [], err| | |by eexists [], _].
  - exists (Ok pt :: rs), e. by rewrite IH.
  - exists (Ok [] :: rs), e. by rewrite IH.
Qed.

Lemma split_reader_reads s stream : reads_from s stream (split_reader {| tp_stream := stream; tp_reads := 0 |} s).
Proof.
  exists [], stream. split; [done|]. refine (conj eq_refl (conj eq_refl (conj _ (conj _ _)))); cbn; [unfold ISIZE_MAX; lia|done|]. by exists [], [].
Qed.

Lemma script_view_mono a b : a `prefix_of` b -> script_view a `prefix_of` script_view b.
Proof. intros [q ->]. rewrite script_view_app. by apply prefix_app_r. Qed.
End Lemmas.

(** C5: the TLS channel delivers. One end runs any sequence of writer operations
    until one fails, over any socket behaviour and with KeyUpdates forced by key
    usage or requested by the peer at any moment; the other end reads that wire
    with the buffered reader, whatever its read sizes. The reads then never
    panic and end after finitely many, and what they deliver is a prefix of what
    was offered: no byte is lost, duplicated, reordered or invented, across
    record boundaries, key changes and interrupted writes. If every operation
    completed, everything offered up to the first close_notify is delivered. *)
Theorem tls_channel_delivers {C : Tls13Ops} {L : Tls13Laws C} (env : WriteEnv) (source_env reader_env : ReadEnv)
    (calls : list WriterCall) (records : Tls13RecordLayer) (coordination : KeyUpdateCoordination) (source : Transport) :
  layer_wf records -> rl_write_failed records = false -> rl_traffic records <> TsHandshake -> read_env_ok reader_env ->
  let writer := new_writer records coordination source in
  let '(r, st) := run_until env source_env calls writer in
  exists count, forall n, (count <= n)%nat ->
    let reader := split_reader {| tp_stream := wt_wire st; tp_reads := 0 |}
      {| rs_records := records; rs_key_update := new_reassembly; rs_coordination := new_coordination false |} in
    let '(reads, _) := read_run (read_application reader_env) n reader in
    Forall no_panic reads /\ (exists reads' err, reads = reads' ++ [Err err]) /\
    results_view reads `prefix_of` offered env source_env calls writer /\
    (is_ok r = true -> results_view reads = upto_close (offered env source_env calls writer)).
Proof.
  intros Hwf Hw Ht Henv writer.
  pose proof (run_until_outcome records env source_env calls [] writer (new_writer_boundary records coordination source (conj Hwf (conj Hw Ht)))) as H.
  destruct (run_until env source_env calls writer) as [r st]. set (payload := offered env source_env calls writer) in *.
  assert (Hsc : exists sc items l, sealed_to records sc items l /\ wt_wire st `prefix_of` wire_bytes items /\ script_view sc `prefix_of` payload /\
      (is_ok r = true -> wt_wire st = wire_bytes items /\ script_view sc = payload)).
  { destruct r as [[]|e|]; [| |done].
    - destruct H as (sc & Hd & items & Hs & _ & Hwire). rewrite app_nil_r in Hwire. exists sc, items, (wt_records st). rewrite Hwire, Hd. by split_and!.
    - destruct H as (sc & Hd & [(items & Hs & _ & Hwire)|[(items & l & Hs & Hp) _]]).
      + exists sc, items, (wt_records st). rewrite app_nil_r in Hwire. rewrite Hwire. by split_and!.
      + exists sc, items, l. by split_and!. }
  destruct Hsc as (sc & items & l & Hs & Hp & Hview & Hok). exists (S (length sc)). intros n Hn. set (s := {| rs_records := records |}).
  pose proof (buffered_run reader_env n Henv s (wt_wire st) _ (split_reader_reads s (wt_wire st))) as Hrun. cbv zeta.
  pose proof (spec_reads_no_panic (read_end reader_env) n s (wt_wire st)) as Hnp.
  destruct (spec_reads_script (read_end reader_env) sc records s items l (wt_wire st) n Hwf ltac:(by split_and!) Hs Hp Hn) as (sc1 & part & Hpre & Heq & Hreads).
  destruct (read_run (read_application reader_env) n _) as [reads st2]. rewrite Hrun in Hreads, Hnp. cbn [fst] in Hreads, Hnp. subst reads.
  split_and!.
  - apply Hnp. split; [exact Hwf|]. split; [done|cbn; lia].
  - apply script_reads_last.
  - rewrite script_reads_view. etrans; [apply upto_close_prefix|]. etrans; [by apply script_view_mono|done].
  - intros Hr. destruct (Hok Hr) as [Hwire <-]. destruct (Heq Hwire) as [-> _]. apply script_reads_view.
Qed.

(** ** Example: data, relayed data under a requested KeyUpdate, and the close *)

Definition example_open_env : WriteEnv :=
  {| wr_alloc := fun _ => true; wr_armed := fun _ => true; wr_answer := fun _ => WaDone; wr_request := fun k => Nat.eqb k 1 |}.

Definition example_session : list WriterCall := [CallWrite [x61; x62]; CallReadFrom; CallShutdown].

Lemma tls_channel_delivers_witness :
  let '(r, st) := run_until example_open_env (example_read_env 9) example_session example_writer in
  exists count, forall n, (count <= n)%nat ->
    results_view (fst (read_run (read_application (example_read_env 2)) n
      (split_reader {| tp_stream := wt_wire st; tp_reads := 0 |}
        {| rs_records := example_layer; rs_key_update := new_reassembly; rs_coordination := new_coordination false |}))) =
      [Some x61; Some x62; Some x63; None].
Proof.
  pose proof (tls_channel_delivers example_open_env (example_read_env 9) (example_read_env 2) example_session example_layer (new_coordination false)
    {| tp_stream := [x63]; tp_reads := 0 |} example_layer_wf (proj1 example_layer_live) (proj2 example_layer_live) (example_read_env_ok 2)) as H.
  cbv zeta in H. fold example_writer in H.
  assert (Hok : is_ok (fst (run_until example_open_env (example_read_env 9) example_session example_writer)) = true) by (vm_compute; reflexivity).
  assert (Hoff : upto_close (offered example_open_env (example_read_env 9) example_session example_writer) = [Some x61; Some x62; Some x63; None])
    by (vm_compute; reflexivity).
  destruct (run_until example_open_env (example_read_env 9) example_session example_writer) as [r st]. cbn [fst] in Hok.
  destruct H as (count & H). exists count. intros n Hn. specialize (H n Hn).
  destruct (read_run (read_application (example_read_env 2)) n _) as [reads st2]. destruct H as (_ & _ & _ & H). cbn [fst].
  rewrite <- Hoff. exact (H Hok).
Defined.
