(* ===== verification/Threads.v ===== *)
(** Interleaving of threads over shared atomic cells.

    A thread is a program counter of type [T]; one scheduled step of it reads or
    writes the shared cells atomically ([tstep]), with a choice of type [C] for
    what the environment decides (which call an idle thread makes, whether a weak
    compare-exchange fails spuriously, whether a future is cancelled). A schedule
    is any sequence of thread numbers and choices, so a statement over all
    schedules is a statement over all sequentially consistent interleavings of
    any number of calls. Instances: the soft-ceiling semaphore (Ceiling), the dial
    rate gate (DialGate), the descriptor budget (FdBudget) and the pressure gauge
    (Pressure). *)
From stdpp Require Import base list.
From S2P Require Import Prelude.
#[local] Open Scope Z_scope.

Section Pool.
Context {S T C : Type} (tstep : C -> S -> T -> S * T).

Record ThreadPool := { cells : S; threads : list T }.

Definition step_at (i : nat) (c : C) (p : ThreadPool) : ThreadPool :=
  match threads p !! i with
  | None => p
  | Some t => let '(s', t') := tstep c (cells p) t in {| cells := s'; threads := <[i := t']> (threads p) |}
  end.

Definition run_pool (p : ThreadPool) (sched : list (nat * C)) : ThreadPool :=
  foldl (fun p '(i, c) => step_at i c p) p sched.

(** A property that every enabled step preserves holds after every schedule;
    [okc] restricts the choices the schedule may contain. *)
Lemma run_pool_invariant (okc : C -> Prop) (I : ThreadPool -> Prop) :
  (forall p i t c, I p -> okc c -> threads p !! i = Some t ->
    I {| cells := (tstep c (cells p) t).1; threads := <[i := (tstep c (cells p) t).2]> (threads p) |}) ->
  forall sched p, I p -> Forall (fun '(_, c) => okc c) sched -> I (run_pool p sched).
Proof.
  intros Hstep sched. unfold run_pool. induction sched as [|[i c] sched IH]; intros p Hp Hs; cbn; [done|].
  apply Forall_cons in Hs as [Hc Hs]. apply IH; [|done]. unfold step_at.
  destruct (threads p !! i) as [t|] eqn:Ht; [|done]. specialize (Hstep p i t c Hp Hc Ht). by destruct (tstep c (cells p) t).
Qed.

Lemma run_pool_app p s1 s2 : run_pool p (s1 ++ s2) = run_pool (run_pool p s1) s2.
Proof. unfold run_pool. by rewrite foldl_app. Qed.

Lemma step_at_length i c p : length (threads (step_at i c p)) = length (threads p).
Proof. unfold step_at. destruct (threads p !! i); [|done]. destruct (tstep c (cells p) t). cbn. by rewrite length_insert. Qed.
End Pool.
Arguments ThreadPool : clear implicits.

(** After updating thread [i], every other thread is as before. *)
Lemma insert_thread_cases {T} (ts : list T) i j t t' u :
  ts !! i = Some t -> <[i := t']> ts !! j = Some u -> (i = j /\ u = t') \/ ts !! j = Some u.
Proof.
  intros Hi Hj. destruct (decide (i = j)) as [->|Hn].
  - rewrite list_lookup_insert_eq in Hj by (by eapply lookup_lt_Some). injection Hj as <-. by left.
  - rewrite list_lookup_insert_ne in Hj by done. by right.
Qed.

(** A property of every thread, with the updated thread's part left to show. *)
Lemma all_threads_insert {T} (P Q : T -> Prop) (ts : list T) i t t' :
  ts !! i = Some t -> (forall j u, ts !! j = Some u -> P u) -> (forall u, P u -> Q u) -> Q t' ->
  forall j u, <[i := t']> ts !! j = Some u -> Q u.
Proof. intros Hi HP HPQ Ht' j u Hj. destruct (insert_thread_cases ts i j t t' u Hi Hj) as [[_ ->]|Hu]; eauto. Qed.

#[global] Arguments zsum : simpl never.
