(* ===== verification/Ceiling.v ===== *)
(** The soft-ceiling semaphore (src/runtime/ceiling.rs).

    A pool is a tokio semaphore of [hard_bound] permits, an atomic in-flight
    counter and an adjustable soft ceiling. [try_acquire] reads the ceiling once,
    raises the counter by compare-exchange while it is below the ceiling, then
    takes a semaphore permit, undoing the count when there is none; dropping a
    permit lowers the counter and then returns the semaphore permit. Every load,
    store, exchange and semaphore operation is one step of a thread. *)
From stdpp Require Import base list.
From S2P Require Import Prelude Threads.
#[local] Open Scope Z_scope.

Record CeilingSemaphore := {
  cs_permits : Z;       (** available permits of the tokio semaphore *)
  cs_in_flight : Z;
  cs_ceiling : Z;
  cs_hard_bound : Z
}.

Definition ceiling_new (hard_bound : Z) : CeilingSemaphore :=
  {| cs_permits := default USIZE_MAX (try_from USIZE_MAX hard_bound); cs_in_flight := 0;
     cs_ceiling := hard_bound; cs_hard_bound := hard_bound |}.

Definition ceiling (s : CeilingSemaphore) : Z := cs_ceiling s.
Definition in_flight (s : CeilingSemaphore) : Z := cs_in_flight s.

Definition with_in_flight (s : CeilingSemaphore) (v : Z) : CeilingSemaphore :=
  {| cs_permits := cs_permits s; cs_in_flight := v; cs_ceiling := cs_ceiling s; cs_hard_bound := cs_hard_bound s |}.
Definition with_permits (s : CeilingSemaphore) (v : Z) : CeilingSemaphore :=
  {| cs_permits := v; cs_in_flight := cs_in_flight s; cs_ceiling := cs_ceiling s; cs_hard_bound := cs_hard_bound s |}.

Definition set_ceiling (s : CeilingSemaphore) (v : Z) : CeilingSemaphore :=
  {| cs_permits := cs_permits s; cs_in_flight := cs_in_flight s;
     cs_ceiling := Z.min v (cs_hard_bound s); cs_hard_bound := cs_hard_bound s |}.

(** Where a caller of the pool is. [CDenied] is the return of [None], [CHeld]
    owns a [CeilingPermit]. *)
Inductive CeilingPc :=
| CIdle
| CRead (ceiling : Z)
| CLoop (ceiling observed : Z)
| CReserved
| CRollback
| CDenied
| CHeld
| CReleasing.

(** What the environment decides at a step: which call an idle caller makes, and
    whether a weak compare-exchange fails although the values agree. *)
Inductive CeilingChoice := DoAcquire | DoSetCeiling (v : Z) | DoStep | DoSpurious.

Definition acquire_loop (spurious : bool) (s : CeilingSemaphore) (c observed : Z) : CeilingSemaphore * CeilingPc :=
  if c <=? observed then (s, CDenied)
  else if spurious || negb (cs_in_flight s =? observed) then (s, CLoop c (cs_in_flight s))
  else (with_in_flight s (observed + 1), CReserved).

Definition try_acquire_owned (s : CeilingSemaphore) : CeilingSemaphore * CeilingPc :=
  if 0 <? cs_permits s then (with_permits s (cs_permits s - 1), CHeld) else (s, CRollback).

(** [Drop for CeilingPermit]: the body lowers the counter, then the
    [OwnedSemaphorePermit] field is dropped. *)
Definition drop_permit (s : CeilingSemaphore) : CeilingSemaphore * CeilingPc :=
  (with_in_flight s (fetch_sub_u64 (cs_in_flight s) 1), CReleasing).
Definition drop_owned (s : CeilingSemaphore) : CeilingSemaphore * CeilingPc := (with_permits s (cs_permits s + 1), CIdle).

Definition ceiling_step (ch : CeilingChoice) (s : CeilingSemaphore) (pc : CeilingPc) : CeilingSemaphore * CeilingPc :=
  match pc with
  | CIdle =>
    match ch with
    | DoAcquire => (s, CRead (ceiling s))
    | DoSetCeiling v => (set_ceiling s v, CIdle)
    | _ => (s, CIdle)
    end
  | CRead c => (s, CLoop c (cs_in_flight s))
  | CLoop c observed => acquire_loop (match ch with DoSpurious => true | _ => false end) s c observed
  | CReserved => try_acquire_owned s
  | CRollback => (with_in_flight s (fetch_sub_u64 (cs_in_flight s) 1), CDenied)
  | CDenied => (s, CIdle)
  | CHeld => drop_permit s
  | CReleasing => drop_owned s
  end.

Definition CeilingPool : Type := ThreadPool CeilingSemaphore CeilingPc.
Definition run_ceiling : CeilingPool -> list (nat * CeilingChoice) -> CeilingPool := run_pool ceiling_step.
Definition ceiling_pool (hard_bound : Z) (callers : nat) : CeilingPool :=
  {| cells := ceiling_new hard_bound; threads := replicate callers CIdle |}.

(** ** The accounting invariant *)

(** A caller's share of the in-flight counter, and of the semaphore. *)
Definition counted (pc : CeilingPc) : Z := match pc with CReserved | CRollback | CHeld => 1 | _ => 0 end.
Definition owning (pc : CeilingPc) : Z := match pc with CHeld | CReleasing => 1 | _ => 0 end.
Definition is_held (pc : CeilingPc) : Z := match pc with CHeld => 1 | _ => 0 end.

Definition ceiling_read_le (m : Z) (pc : CeilingPc) : Prop :=
  match pc with CRead c | CLoop c _ => c <= m | _ => True end.

Record ceiling_inv (hb : Z) (p : CeilingPool) : Prop := {
  ci_hard : cs_hard_bound (cells p) = hb;
  ci_ceiling : cs_ceiling (cells p) <= hb;
  ci_flight : cs_in_flight (cells p) = zsum counted (threads p);
  ci_bound : cs_in_flight (cells p) <= hb;
  ci_permits : cs_permits (cells p) = hb - zsum owning (threads p);
  ci_left : 0 <= cs_permits (cells p);
  ci_reads : forall i t, threads p !! i = Some t -> ceiling_read_le hb t
}.

Lemma counted_nonneg pc : 0 <= counted pc. Proof. by destruct pc. Qed.
Lemma owning_nonneg pc : 0 <= owning pc. Proof. by destruct pc. Qed.
Lemma is_held_nonneg pc : 0 <= is_held pc. Proof. by destruct pc. Qed.

Lemma ceiling_pool_inv hb n : u32_range hb -> ceiling_inv hb (ceiling_pool hb n).
Proof.
  intros Hb. unfold u32_range, U32_MAX in Hb. assert (Ht : try_from USIZE_MAX hb = Some hb).
  { apply try_from_some. unfold USIZE_MAX, U64_MAX. lia. }
  assert (Hz : forall f, f CIdle = 0 -> zsum f (replicate n CIdle) = 0).
  { intros f Hf. apply zsum_zero. by intros x [-> _]%elem_of_replicate. }
  unfold ceiling_pool, ceiling_new. rewrite Ht. split; cbn [cells threads cs_hard_bound cs_ceiling cs_in_flight cs_permits default from_option id]; rewrite ?Hz by done; try lia.
  intros i t [-> _]%lookup_replicate_1. done.
Qed.

(** One step of any caller keeps the accounts. *)
Lemma ceiling_step_inv hb p i t ch : u32_range hb -> ceiling_inv hb p -> threads p !! i = Some t ->
  ceiling_inv hb {| cells := (ceiling_step ch (cells p) t).1; threads := <[i := (ceiling_step ch (cells p) t).2]> (threads p) |}.
Proof.
  intros Hb [Hh Hc Hf Hbd Hp Hl Hr] Hi. pose proof (Hr i t Hi) as Hti.
  pose proof (zsum_member counted _ _ _ counted_nonneg Hi) as Hm.
  pose proof (zsum_member owning _ _ _ owning_nonneg Hi) as Ho.
  unfold u32_range, U32_MAX in Hb.
  assert (Hsub : 1 <= cs_in_flight (cells p) -> fetch_sub_u64 (cs_in_flight (cells p)) 1 = cs_in_flight (cells p) - 1).
  { intros. apply fetch_sub_exact. unfold U64_MAX. lia. }
  destruct t; cbn [ceiling_step counted owning ceiling_read_le] in *;
    unfold acquire_loop, try_acquire_owned, drop_permit, drop_owned, ceiling, set_ceiling, with_in_flight, with_permits;
    repeat case_match; split; cbn;
    rewrite ?(zsum_insert counted _ _ _ _ Hi), ?(zsum_insert owning _ _ _ _ Hi), ?Hsub; cbn [counted owning]; try lia;
    try (refine (all_threads_insert _ _ _ _ _ _ Hi Hr _ _); [done|cbn; lia]).
Qed.

Lemma run_ceiling_inv hb p sched : u32_range hb -> ceiling_inv hb p -> ceiling_inv hb (run_ceiling p sched).
Proof.
  intros Hb Hp. apply (run_pool_invariant ceiling_step (fun _ => True)); [|done|by apply Forall_forall; intros []].
  intros q i t c Hq _ Ht. by apply ceiling_step_inv.
Qed.

(** ** The soft ceiling *)

(** Nobody can still act on a ceiling above [m]. *)
Record lowered (m : Z) (p : CeilingPool) : Prop := {
  lw_ceiling : cs_ceiling (cells p) <= m;
  lw_reads : forall i t, threads p !! i = Some t -> ceiling_read_le m t
}.

Definition sets_at_most (m : Z) (ch : CeilingChoice) : Prop := match ch with DoSetCeiling v => v <= m | _ => True end.

Lemma lowered_step hb m k p i t ch : u32_range hb -> ceiling_inv hb p -> lowered m p -> cs_in_flight (cells p) <= Z.max m k ->
  sets_at_most m ch -> threads p !! i = Some t ->
  lowered m {| cells := (ceiling_step ch (cells p) t).1; threads := <[i := (ceiling_step ch (cells p) t).2]> (threads p) |} /\
  cs_in_flight (ceiling_step ch (cells p) t).1 <= Z.max m k.
Proof.
  intros Hb I [Hc Hr] Hk Hs Hi. pose proof (Hr i t Hi) as Hti.
  pose proof (ceiling_step_inv hb p i t ch Hb I Hi) as I'. apply ci_flight in I', I.
  pose proof (zsum_member counted _ _ _ counted_nonneg Hi) as Hm.
  cbn [cells threads] in I'. rewrite (zsum_insert counted _ _ _ _ Hi), <- I in I'.
  destruct t; cbn [ceiling_step counted ceiling_read_le] in *;
    unfold acquire_loop, try_acquire_owned, drop_permit, drop_owned, ceiling, set_ceiling, with_in_flight, with_permits in *;
    repeat case_match; cbn [fst snd cs_in_flight counted sets_at_most cs_ceiling] in *; split; try lia; split; cbn; try lia;
    try (refine (all_threads_insert _ _ _ _ _ _ Hi Hr _ _); [done|cbn; lia]).
Qed.

Lemma run_lowered hb m p sched : u32_range hb -> ceiling_inv hb p -> lowered m p ->
  Forall (fun '(_, ch) => sets_at_most m ch) sched ->
  cs_in_flight (cells (run_ceiling p sched)) <= Z.max m (cs_in_flight (cells p)).
Proof.
  intros Hb Hp Hl Hs. set (k := cs_in_flight (cells p)).
  refine (proj2 (proj2 (run_pool_invariant ceiling_step (sets_at_most m)
    (fun q => ceiling_inv hb q /\ lowered m q /\ cs_in_flight (cells q) <= Z.max m k) _ sched p _ Hs))); [|split_and!; [done|done|lia]].
  intros q i t c (Iq & Lq & Kq) Hc Ht. split; [by apply ceiling_step_inv|by eapply lowered_step].
Qed.

(** ** Claims *)

(** The soft-ceiling semaphore under every interleaving of any number of
    callers (acquires, drops, ceiling moves, spurious compare-exchange
    failures). The number of held permits never exceeds the hard bound, the
    in-flight counter counts exactly the callers between reservation and drop,
    the semaphore's permits are exactly those not owned (so neither counter ever
    wraps), and once every caller has returned both are back at their initial
    values. Whenever nobody is still acting on a ceiling above [m], no later
    sequence of steps that keeps the ceiling at or below [m] lifts the in-flight
    count above the larger of [m] and its current value: a lowered ceiling binds
    every later acquire and revokes nothing. *)
Theorem ceiling_semaphore_safe (hb m : Z) (callers : nat) (before after : list (nat * CeilingChoice)) :
  u32_range hb ->
  let p := run_ceiling (ceiling_pool hb callers) before in
  zsum is_held (threads p) <= hb /\
  cs_in_flight (cells p) = zsum counted (threads p) /\
  cs_permits (cells p) = hb - zsum owning (threads p) /\ 0 <= cs_permits (cells p) /\
  (Forall (fun pc => pc = CIdle) (threads p) -> cs_in_flight (cells p) = 0 /\ cs_permits (cells p) = hb) /\
  (lowered m p -> Forall (fun '(_, ch) => sets_at_most m ch) after ->
    cs_in_flight (cells (run_ceiling p after)) <= Z.max m (cs_in_flight (cells p))).
Proof.
  intros Hb p. assert (I : ceiling_inv hb p) by (apply run_ceiling_inv; [done|by apply ceiling_pool_inv]).
  split; [|split; [apply I|split; [apply I|split; [apply I|split]]]].
  - assert (zsum is_held (threads p) <= zsum owning (threads p)); [|pose proof (ci_permits _ _ I); pose proof (ci_left _ _ I); lia].
    apply zsum_le. by intros [].
  - intros Hidle. assert (Hz : forall f, f CIdle = 0 -> zsum f (threads p) = 0).
    { intros f Hf. apply zsum_zero. intros x Hx. rewrite Forall_forall in Hidle. by rewrite (Hidle x Hx). }
    rewrite (ci_flight _ _ I), (ci_permits _ _ I), !Hz by done. split; [done|lia].
  - intros Hl Hs. by apply (run_lowered hb).
Qed.

(** Two callers hold both permits of a pool of two, the ceiling drops to one,
    and one of the holders returns its permit: the count falls to one and the
    idle third caller is refused. *)
Lemma ceiling_semaphore_safe_witness :
  let p := run_ceiling (ceiling_pool 2 3)
    [(0%nat, DoAcquire); (1%nat, DoAcquire); (0%nat, DoStep); (1%nat, DoStep); (0%nat, DoStep); (1%nat, DoStep); (1%nat, DoStep);
     (0%nat, DoStep); (1%nat, DoStep); (2%nat, DoSetCeiling 1)] in
  threads p = [CHeld; CHeld; CIdle] /\ lowered 1 p /\
  cs_in_flight (cells (run_ceiling p [(2%nat, DoAcquire); (2%nat, DoStep); (1%nat, DoStep); (2%nat, DoStep); (2%nat, DoStep)])) <=
    Z.max 1 (cs_in_flight (cells p)).
Proof.
  intros p. assert (Hl : lowered 1 p).
  { split; [by vm_compute|]. intros [|[|[|i]]] t; vm_compute; intros [= <-]; exact I. }
  split; [by vm_compute|]. split; [exact Hl|].
  refine (proj2 (proj2 (proj2 (proj2 (proj2 (ceiling_semaphore_safe 2 1 3 _ _ _))))) Hl _);
    [unfold u32_range, U32_MAX; lia|repeat (constructor; [exact I|]); constructor].
Defined.

(** The rollback arm of [try_acquire] is reachable. A drop lowers the counter
    before it returns the semaphore permit, so a caller scheduled between the
    two reserves a count and finds no permit, although the ceiling never moved. *)
Theorem rollback_reachable :
  threads (run_ceiling (ceiling_pool 1 2)
    [(0%nat, DoAcquire); (0%nat, DoStep); (0%nat, DoStep); (0%nat, DoStep); (0%nat, DoStep);
     (1%nat, DoAcquire); (1%nat, DoStep); (1%nat, DoStep); (1%nat, DoStep)]) = [CReleasing; CRollback].
Proof. reflexivity. Qed.

(** It is reached only while a drop is between its two halves. *)
Theorem rollback_needs_release (hb : Z) (callers : nat) (sched : list (nat * CeilingChoice)) i :
  u32_range hb -> let p := run_ceiling (ceiling_pool hb callers) sched in
  threads p !! i = Some CReserved -> cs_permits (cells p) = 0 -> exists j, threads p !! j = Some CReleasing.
Proof.
  intros Hb p Hi H0. assert (I : ceiling_inv hb p) by (apply run_ceiling_inv; [done|by apply ceiling_pool_inv]).
  pose proof (ci_permits _ _ I). pose proof (ci_bound _ _ I). rewrite (ci_flight _ _ I) in *.
  assert (Hsum : zsum owning (threads p) + zsum (fun pc => match pc with CReserved => 1 | _ => 0 end) (threads p) <=
    zsum counted (threads p) + zsum (fun pc => match pc with CReleasing => 1 | _ => 0 end) (threads p)).
  { rewrite <- !zsum_plus. apply zsum_le. by intros []. }
  pose proof (zsum_member (fun pc => match pc with CReserved => 1 | _ => 0 end) _ _ _ ltac:(by intros []) Hi) as Hm. cbn in Hm.
  destruct (zsum_pos (fun pc => match pc with CReleasing => 1 | _ => 0 end) (threads p)) as (j & t & Hj & Ht); [lia|].
  exists j. by destruct t.
Qed.
