(* ===== verification/DialGate.v ===== *)
(** The direct-dial rate gate (src/runtime/admission.rs, [DialRateGate]).

    A lock-free GCRA gate: one theoretical arrival time [next_nanos], moved
    forward by compare-exchange, against an emission interval and a burst
    allowance that the adaptive controller may retarget at any moment. Every load,
    store and exchange is one step of a thread; the instant a call read is a
    choice of the schedule, so instants of different callers need not be ordered.
    The cells carry a log of the grants, newest first, which no operation reads. *)
From stdpp Require Import base list.
From S2P Require Import Prelude Threads.
#[local] Open Scope Z_scope.

Definition NANOS_PER_SECOND : Z := 1000000000.

Definition rate_timing (rate : Z) : Z * Z :=
  let interval_nanos := if rate =? 0 then 0 else div_ceil NANOS_PER_SECOND rate in
  (interval_nanos, saturating_mul_u64 interval_nanos rate).

Record DialRateGate := {
  dg_rate_per_second : Z;
  dg_interval_nanos : Z;
  dg_burst_nanos : Z;
  dg_next_nanos : Z;
  dg_grants : list (Z * Z)   (** (instant of the call, arrival time it was given) *)
}.

Definition dial_gate_new (max_per_second : Z) : DialRateGate :=
  let '(interval_nanos, burst_nanos) := rate_timing max_per_second in
  {| dg_rate_per_second := max_per_second; dg_interval_nanos := interval_nanos; dg_burst_nanos := burst_nanos;
     dg_next_nanos := 0; dg_grants := [] |}.

Definition gate_rate (g : DialRateGate) : Z := default U32_MAX (try_from U32_MAX (dg_rate_per_second g)).

Definition store_burst (g : DialRateGate) (v : Z) : DialRateGate :=
  {| dg_rate_per_second := dg_rate_per_second g; dg_interval_nanos := dg_interval_nanos g; dg_burst_nanos := v;
     dg_next_nanos := dg_next_nanos g; dg_grants := dg_grants g |}.
Definition store_interval (g : DialRateGate) (v : Z) : DialRateGate :=
  {| dg_rate_per_second := dg_rate_per_second g; dg_interval_nanos := v; dg_burst_nanos := dg_burst_nanos g;
     dg_next_nanos := dg_next_nanos g; dg_grants := dg_grants g |}.
Definition store_rate (g : DialRateGate) (v : Z) : DialRateGate :=
  {| dg_rate_per_second := v; dg_interval_nanos := dg_interval_nanos g; dg_burst_nanos := dg_burst_nanos g;
     dg_next_nanos := dg_next_nanos g; dg_grants := dg_grants g |}.
Definition grant (g : DialRateGate) (now next : Z) : DialRateGate :=
  {| dg_rate_per_second := dg_rate_per_second g; dg_interval_nanos := dg_interval_nanos g; dg_burst_nanos := dg_burst_nanos g;
     dg_next_nanos := next; dg_grants := (now, next) :: dg_grants g |}.

(** Where a caller of [try_take_at] or of [set_rate] is. *)
Inductive GatePc :=
| GIdle
| GBurst (now interval : Z)
| GNext (now interval latest : Z)
| GLoop (now interval latest observed : Z)
| GDone (granted : bool)
| GSetInterval (rate : Z)
| GSetRate (rate : Z).

Inductive GateChoice := TakeAt (now : Z) | SetRate (rate : Z) | GateStep | GateSpurious.

Definition take_loop (spurious : bool) (g : DialRateGate) (now interval latest observed : Z) : DialRateGate * GatePc :=
  match checked_add U64_MAX (Z.max observed now) interval with
  | None => (g, GDone false)
  | Some next =>
    if latest <? next then (g, GDone false)
    else if spurious || negb (dg_next_nanos g =? observed) then (g, GLoop now interval latest (dg_next_nanos g))
    else (grant g now next, GDone true)
  end.

Definition gate_step (ch : GateChoice) (g : DialRateGate) (pc : GatePc) : DialRateGate * GatePc :=
  match pc with
  | GIdle =>
    match ch with
    | TakeAt now => if dg_interval_nanos g =? 0 then (g, GDone false) else (g, GBurst now (dg_interval_nanos g))
    | SetRate r => (store_burst g (rate_timing r).2, GSetInterval r)
    | _ => (g, GIdle)
    end
  | GBurst now interval => (g, GNext now interval (saturating_add_u64 now (dg_burst_nanos g)))
  | GNext now interval latest => (g, GLoop now interval latest (dg_next_nanos g))
  | GLoop now interval latest observed =>
    take_loop (match ch with GateSpurious => true | _ => false end) g now interval latest observed
  | GDone _ => (g, GIdle)
  | GSetInterval r => (store_interval g (rate_timing r).1, GSetRate r)
  | GSetRate r => (store_rate g r, GIdle)
  end.

Definition GatePool : Type := ThreadPool DialRateGate GatePc.
Definition run_gate : GatePool -> list (nat * GateChoice) -> GatePool := run_pool gate_step.
Definition gate_pool (rate : Z) (callers : nat) : GatePool :=
  {| cells := dial_gate_new rate; threads := replicate callers GIdle |}.

(** An uncontended call: the steps of one caller run to its return. *)
Definition try_take_at (g : DialRateGate) (now : Z) : DialRateGate * bool :=
  let fix go (fuel : nat) (g : DialRateGate) (pc : GatePc) : DialRateGate * bool :=
    match fuel, pc with
    | _, GDone b => (g, b)
    | O, _ => (g, false)
    | S fuel, _ => let '(g, pc) := gate_step (TakeAt now) g pc in go fuel g pc
    end in
  go 4%nat g GIdle.

(** [set_rate] by one caller, uninterrupted. *)
Definition set_rate (g : DialRateGate) (rate : Z) : DialRateGate :=
  let '(g, pc) := gate_step (SetRate rate) g GIdle in
  let '(g, pc) := gate_step (SetRate rate) g pc in
  (gate_step (SetRate rate) g pc).1.

(** ** Timing *)

Lemma div_ceil_bounds a b : 0 < b -> a <= div_ceil a b * b < a + b.
Proof. intros Hb. unfold div_ceil. pose proof (Z.div_mod (a + b - 1) b ltac:(lia)). pose proof (Z.mod_pos_bound (a + b - 1) b Hb). nia. Qed.

(** For a positive u32 rate the interval is positive and the burst is the exact
    product, at least a second and less than a second plus [rate] nanoseconds. *)
Lemma rate_timing_spec r : 0 < r <= U32_MAX ->
  0 < (rate_timing r).1 /\ (rate_timing r).2 = (rate_timing r).1 * r /\
  NANOS_PER_SECOND <= (rate_timing r).2 < NANOS_PER_SECOND + r.
Proof.
  intros [H0 H1]. unfold rate_timing. destruct (Z.eqb_spec r 0); [lia|]. cbn [fst snd]. pose proof (div_ceil_bounds NANOS_PER_SECOND r H0) as Hd.
  unfold NANOS_PER_SECOND, U32_MAX, saturating_mul_u64, U64_MAX in *. rewrite Z.min_r by lia. split_and!; [nia|done|lia|lia].
Qed.

Lemma interval_antitone r R : 0 < r <= R -> (rate_timing R).1 <= (rate_timing r).1.
Proof.
  intros [H0 H1]. unfold rate_timing. destruct (Z.eqb_spec r 0), (Z.eqb_spec R 0); try lia. cbn [fst].
  pose proof (div_ceil_bounds NANOS_PER_SECOND r H0) as Hr. pose proof (div_ceil_bounds NANOS_PER_SECOND R ltac:(lia)) as HR.
  set (x := div_ceil NANOS_PER_SECOND r) in *. set (y := div_ceil NANOS_PER_SECOND R) in *. unfold NANOS_PER_SECOND in *.
  assert (0 <= x) by nia. assert (x * r <= x * R) by nia. destruct (Z_le_gt_dec y x); [done|]. assert ((x + 1) * R <= y * R) by nia. lia.
Qed.

(** ** The bound on grants *)

(** Newest first: a later grant's arrival time is at least [d] after every
    earlier one, at least [d] after its own instant, and at most [B] after it. *)
Fixpoint spaced (d B : Z) (log : list (Z * Z)) : Prop :=
  match log with
  | [] => True
  | (now, next) :: log => Forall (fun e => e.2 + d <= next) log /\ now + d <= next <= now + B /\ spaced d B log
  end.

Definition in_window (a b : Z) (e : Z * Z) : bool := (a <=? e.1) && (e.1 <=? b).
Definition grants_between (a b : Z) (log : list (Z * Z)) : Z := len (filter (fun e => in_window a b e = true) log).

Lemma spaced_window d B a b log : spaced d B log ->
  grants_between a b log = 0 \/ exists e, e ∈ log /\ in_window a b e = true /\ a + grants_between a b log * d <= e.2.
Proof.
  unfold grants_between. induction log as [|[now next] log IH]; [by left|]. intros (Hf & Hn & Hs). rewrite filter_cons.
  destruct (decide (in_window a b (now, next) = true)) as [Hw|Hw].
  - right. exists (now, next). split; [by left|]. split; [done|]. rewrite len_cons. cbn [snd].
    destruct (IH Hs) as [->|(e & He & _ & Hb)].
    + unfold in_window in Hw. cbn in Hw. lia.
    + rewrite Forall_forall in Hf. specialize (Hf e He). cbn in Hf. lia.
  - destruct (IH Hs) as [->|(e & He & Hew & Hb)]; [by left|]. right. exists e. split; [by right|done].
Qed.

Lemma spaced_in d B log e : spaced d B log -> e ∈ log -> e.2 <= e.1 + B.
Proof.
  induction log as [|[now next] log IH]; [by intros _ ?%elem_of_nil|]. intros (_ & Hn & Hs) [->|He]%elem_of_cons; [cbn; lia|by apply IH].
Qed.

Lemma window_bound d B a b log : spaced d B log -> 0 <= B -> a <= b -> grants_between a b log * d <= b - a + B.
Proof.
  intros Hs HB Hab. destruct (spaced_window d B a b log Hs) as [->|(e & He & Hw & Hb)]; [lia|].
  pose proof (spaced_in d B log e Hs He). unfold in_window in Hw. lia.
Qed.

(** What every reachable state of a gate whose rates stay within [R] satisfies. *)
Definition interval_ok (d v : Z) : Prop := v = 0 \/ (0 < v /\ d <= v).
Definition gate_thread_ok (d B : Z) (t : GatePc) : Prop :=
  match t with
  | GBurst now interval => d <= interval
  | GNext now interval latest | GLoop now interval latest _ => d <= interval /\ latest <= now + B
  | GSetInterval r => interval_ok d (rate_timing r).1
  | _ => True
  end.

Record gate_inv (d B : Z) (p : GatePool) : Prop := {
  gi_interval : interval_ok d (dg_interval_nanos (cells p));
  gi_burst : 0 <= dg_burst_nanos (cells p) <= B;
  gi_next : Forall (fun e => e.2 <= dg_next_nanos (cells p)) (dg_grants (cells p));
  gi_log : spaced d B (dg_grants (cells p));
  gi_threads : forall i t, threads p !! i = Some t -> gate_thread_ok d B t
}.

Definition rates_at_most (R : Z) (ch : GateChoice) : Prop := match ch with SetRate r => 0 <= r <= R | _ => True end.

Lemma timing_within r R : 0 <= r <= R -> 0 < R <= U32_MAX ->
  interval_ok (rate_timing R).1 (rate_timing r).1 /\
  0 <= (rate_timing r).2 <= NANOS_PER_SECOND + R.
Proof.
  intros Hr HR. destruct (decide (r = 0)) as [->|Hn].
  - cbn. unfold NANOS_PER_SECOND, saturating_mul_u64, U64_MAX. split; [by left|lia].
  - destruct (rate_timing_spec r ltac:(lia)) as (Hi & _ & Hb). pose proof (interval_antitone r R ltac:(lia)).
    unfold NANOS_PER_SECOND in *. split; [right|]; lia.
Qed.

Lemma take_loop_inv d B spurious p i now interval latest observed : 0 <= d -> gate_inv d B p ->
  threads p !! i = Some (GLoop now interval latest observed) ->
  gate_inv d B {| cells := (take_loop spurious (cells p) now interval latest observed).1;
                  threads := <[i := (take_loop spurious (cells p) now interval latest observed).2]> (threads p) |}.
Proof.
  intros Hd0 [Hi Hb Hn Hl Ht] Hp. pose proof (Ht _ _ Hp) as [Hd Hlate]. unfold take_loop.
  assert (Hkeep : forall t, gate_thread_ok d B t -> gate_inv d B {| cells := cells p; threads := <[i := t]> (threads p) |}).
  { intros t Hok. split; try done. by refine (all_threads_insert _ _ _ _ _ _ Hp Ht _ Hok). }
  destruct (checked_add U64_MAX (Z.max observed now) interval) as [next|] eqn:Ha; [|by apply Hkeep].
  apply checked_add_some in Ha as [-> _]. destruct (Z.ltb_spec latest (Z.max observed now + interval)); [by apply Hkeep|].
  destruct (spurious || negb (dg_next_nanos (cells p) =? observed)) eqn:Hc; [by apply Hkeep|].
  apply orb_false_iff in Hc as [_ Hc]. apply negb_false_iff, Z.eqb_eq in Hc.
  split; cbn; try done.
  - constructor; [cbn; lia|]. eapply Forall_impl; [exact Hn|]. cbn. lia.
  - split; [|split; [lia|done]]. eapply Forall_impl; [exact Hn|]. cbn. lia.
  - by refine (all_threads_insert _ _ _ _ _ _ Hp Ht _ _).
Qed.

Lemma gate_step_inv R p i t ch : 0 < R <= U32_MAX -> gate_inv (rate_timing R).1 (NANOS_PER_SECOND + R) p ->
  rates_at_most R ch -> threads p !! i = Some t ->
  gate_inv (rate_timing R).1 (NANOS_PER_SECOND + R)
    {| cells := (gate_step ch (cells p) t).1; threads := <[i := (gate_step ch (cells p) t).2]> (threads p) |}.
Proof.
  intros HR I Hc Hp. destruct (rate_timing_spec R HR) as [Hd0 _]. destruct t as [|now interval|now interval latest|now interval latest observed|b|r|r];
    cbn [gate_step]; [| | |apply take_loop_inv; [lia|done|done]| | |];
    destruct I as [Hi Hb Hn Hl Ht]; pose proof (Ht _ _ Hp) as Hok; cbn [gate_thread_ok] in Hok.
  1: destruct ch as [now|r| |]; [destruct (Z.eqb_spec (dg_interval_nanos (cells p)) 0)| | |].
  all: try (destruct (timing_within r R Hc HR) as [Hti Htb]).
  all: split; cbn [fst snd cells threads store_burst store_interval store_rate dg_interval_nanos dg_burst_nanos dg_next_nanos dg_grants]; try done.
  all: refine (all_threads_insert _ _ _ _ _ _ Hp Ht _ _); [done|]; cbn [gate_thread_ok]; try done.
  - by destruct Hi as [?|[_ ?]].
  - unfold saturating_add_u64. split; [done|lia].
Qed.

Lemma gate_pool_inv R r n : 0 < R <= U32_MAX -> 0 <= r <= R -> gate_inv (rate_timing R).1 (NANOS_PER_SECOND + R) (gate_pool r n).
Proof.
  intros HR Hr. destruct (timing_within r R Hr HR) as [Hi Hb]. unfold gate_pool, dial_gate_new.
  destruct (rate_timing r) as [interval burst]. split; cbn in *; try done. by intros i t [-> _]%lookup_replicate_1.
Qed.

(** ** Claims *)

(** The gate never exceeds the configured rate. Take any number of callers,
    any schedule of their loads, exchanges and spurious failures, any instants
    (ordered or not), and any retargeting of the rate in between, even
    interrupted between its stores, as long as no configured rate exceeds [R].
    Then for every window of instants [a, b] the dials granted in it number at
    most [R] per second of the window beyond one second's burst: [n] grants
    occupy [n] emission intervals of [R] within the window plus one second and
    [R] nanoseconds. *)
Theorem dial_rate_bounded (R rate : Z) (callers : nat) (sched : list (nat * GateChoice)) (a b : Z) :
  0 < R <= U32_MAX -> 0 <= rate <= R -> Forall (fun '(_, ch) => rates_at_most R ch) sched -> a <= b ->
  let n := grants_between a b (dg_grants (cells (run_gate (gate_pool rate callers) sched))) in
  n * (rate_timing R).1 <= b - a + NANOS_PER_SECOND + R /\
  n * NANOS_PER_SECOND <= R * (b - a + NANOS_PER_SECOND + R).
Proof.
  intros HR Hr Hs Hab n.
  assert (I : gate_inv (rate_timing R).1 (NANOS_PER_SECOND + R) (run_gate (gate_pool rate callers) sched)).
  { apply (run_pool_invariant gate_step (rates_at_most R)); [|by apply gate_pool_inv|done]. intros. by apply gate_step_inv. }
  assert (Hn : n * (rate_timing R).1 <= b - a + NANOS_PER_SECOND + R).
  { pose proof (window_bound _ _ a b _ (gi_log _ _ _ I)) as Hw. fold n in Hw. unfold NANOS_PER_SECOND in *. lia. }
  split; [done|]. destruct (rate_timing_spec R HR) as (Hi & Hb & Hc). assert (0 <= n) by apply len_nonneg.
  unfold NANOS_PER_SECOND in *. nia.
Qed.

(** Two callers racing for one dial a second: the loser of the exchange retries
    and is refused. *)
Lemma dial_rate_bounded_witness :
  let sched := [(0%nat, TakeAt 5); (1%nat, TakeAt 7); (0%nat, GateStep); (1%nat, GateStep); (0%nat, GateStep); (1%nat, GateStep);
                (0%nat, GateStep); (1%nat, GateStep); (1%nat, GateStep)] in
  let p := run_gate (gate_pool 1 2) sched in
  threads p = [GDone true; GDone false] /\
  grants_between 0 10 (dg_grants (cells p)) * NANOS_PER_SECOND <= 1 * (10 - 0 + NANOS_PER_SECOND + 1).
Proof.
  intros sched p. split; [by vm_compute|].
  refine (proj2 (dial_rate_bounded 1 1 2 sched 0 10 _ _ _ _));
    [unfold U32_MAX; lia|lia|repeat (constructor; [exact I|]); constructor|lia].
Defined.

(** ** An uncontended gate *)

Lemma try_take_at_spec g now : dg_interval_nanos g <> 0 ->
  try_take_at g now =
  match checked_add U64_MAX (Z.max (dg_next_nanos g) now) (dg_interval_nanos g) with
  | Some next => if next <=? saturating_add_u64 now (dg_burst_nanos g) then (grant g now next, true) else (g, false)
  | None => (g, false)
  end.
Proof.
  intros Hi. unfold try_take_at. cbn [gate_step]. apply Z.eqb_neq in Hi. rewrite Hi. cbn [gate_step]. unfold take_loop.
  destruct (checked_add U64_MAX (Z.max (dg_next_nanos g) now) (dg_interval_nanos g)) as [next|]; [|done].
  rewrite Z.leb_antisym. destruct (saturating_add_u64 now (dg_burst_nanos g) <? next); [done|].
  by rewrite Z.eqb_refl.
Qed.

Lemma ltb_iff a b c d : (a < b <-> c < d) -> (a <? b) = (c <? d).
Proof. intros H. destruct (Z.ltb_spec a b), (Z.ltb_spec c d); try done; lia. Qed.

Fixpoint take_all (g : DialRateGate) (nows : list Z) : DialRateGate * list bool :=
  match nows with
  | [] => (g, [])
  | now :: nows => let '(g, b) := try_take_at g now in let '(g, bs) := take_all g nows in (g, b :: bs)
  end.

Definition gate_set_to (r : Z) (g : DialRateGate) : Prop :=
  dg_interval_nanos g = (rate_timing r).1 /\ dg_burst_nanos g = (rate_timing r).2.

(** [k] calls at one instant on a gate that has [used] of its burst spent. *)
Lemma take_all_burst r now k : 0 < r <= U32_MAX -> 0 <= now -> now + (rate_timing r).2 <= U64_MAX -> forall used g,
  0 <= used <= r -> gate_set_to r g -> Z.max (dg_next_nanos g) now = now + used * (rate_timing r).1 ->
  (take_all g (replicate k now)).2 = map (fun j => Z.of_nat j <? r - used) (seq 0 k).
Proof.
  intros Hr Hnow Hfit. destruct (rate_timing_spec r Hr) as (Hi & Hb & _). induction k as [|k IH]; intros used g Hu [Hgi Hgb] Hn; [done|].
  cbn [replicate take_all seq map]. rewrite try_take_at_spec, Hn, Hgi, Hgb by lia. unfold saturating_add_u64. rewrite Z.min_r by done.
  rewrite <- seq_shift, map_map. unfold checked_add.
  assert (Hfull : forall n, map (fun x => Z.of_nat (S x) <? r - r) (seq 0 n) = map (fun x => Z.of_nat x <? r - r) (seq 0 n)).
  { intros n. apply map_ext. intros x. apply ltb_iff. lia. }
  destruct (Z.leb_spec (now + used * (rate_timing r).1 + (rate_timing r).1) U64_MAX) as [Hf|Hf];
    [destruct (Z.leb_spec (now + used * (rate_timing r).1 + (rate_timing r).1) (now + (rate_timing r).2)) as [Hle|Hgt]|].
  2, 3: assert (used = r) as -> by (destruct (Z_lt_le_dec used r); [|lia];
    pose proof (Z.mul_le_mono_nonneg_r (used + 1) r (rate_timing r).1 ltac:(lia) ltac:(lia)); lia);
    specialize (IH r g Hu (conj Hgi Hgb) Hn); destruct (take_all _ _) as [g' bs]; cbn [snd] in *;
    rewrite IH, Hfull; f_equal; symmetry; apply Z.ltb_ge; lia.
  assert (Hlt : used < r) by (destruct (Z_lt_le_dec used r); [done|];
    pose proof (Z.mul_le_mono_nonneg_r r used (rate_timing r).1 ltac:(lia) ltac:(lia)); lia).
  specialize (IH (used + 1) (grant g now (now + used * (rate_timing r).1 + (rate_timing r).1)) ltac:(lia) (conj Hgi Hgb)).
  destruct (take_all _ _) as [g' bs]. cbn [snd] in *. rewrite IH by (cbn [grant dg_next_nanos]; pose proof (Z.mul_nonneg_nonneg used (rate_timing r).1); lia).
  f_equal; [symmetry; apply Z.ltb_lt; lia|]. apply map_ext. intros j. apply ltb_iff. lia.
Qed.

(** A gate that has been idle grants exactly one second's worth of dials at
    once: of any number of calls at one instant the first [rate] are granted and
    every later one refused. *)
Theorem dial_burst_exact (r now : Z) (k : nat) (g : DialRateGate) :
  0 < r <= U32_MAX -> 0 <= dg_next_nanos g <= now -> now + (rate_timing r).2 <= U64_MAX -> gate_set_to r g ->
  (take_all g (replicate k now)).2 = map (fun j => Z.of_nat j <? r) (seq 0 k).
Proof.
  intros Hr Hn Hfit Hg. rewrite (take_all_burst r now k Hr ltac:(lia) Hfit 0 g ltac:(lia) Hg) by lia. by rewrite Z.sub_0_r.
Qed.
