(* ===== verification/FdBudget.v ===== *)
(** The descriptor budget (src/transport/fd_budget.rs).

    A strict reservation counter with hysteresis watermarks, a pressure flag, and
    waiters parked on a [Notify]. Each atomic operation is one step of a thread:
    the compare-exchange loop of [try_acquire], the observation of a crossed
    watermark, the registration and re-check of [acquire], the cancellation of a
    parked acquire, and the release in [Drop] with its two notifications. A
    [Notify] is the number of [notify_waiters] calls made on it: an enabled
    [Notified] holds the number it saw and completes once it differs.

    Memory order. Read-modify-writes act on the latest value of their cell. The
    Relaxed loads (of [used] in [try_acquire], also in a failed exchange, and of
    [waiters] in [release]) return the latest value unless the schedule says
    [FdStale v]: then they return [v]. Strictness (C24) is proved with stale loads
    anywhere. The absence of lost wakeups (C27) is a store-to-load property: it is
    proved for schedules without stale loads, that is, when the atomic operations
    take effect in one total order, and [stale_waiters_lose_wakeup] shows that one
    stale load of [waiters], which the code's Relaxed order permits, breaks it.
    [release]'s own update and the [Notify]s need no such choice: a releasing
    caller has already seen the value its units are part of, and tokio's [Notify]
    takes its lock in [enable] and in [notify_waiters]. *)
From stdpp Require Import base list.
From S2P Require Import Prelude Threads.
#[local] Open Scope Z_scope.

Definition UNITS_INBOUND_SOCKET : Z := 1.
Definition UNITS_OUTBOUND_SOCKET : Z := 1.
Definition UNITS_SPLICE_RELAY : Z := 4.
Definition UNITS_SPLICE_DIRECTION : Z := 2.

Inductive FdPressure := FdNormal | FdHigh.
#[export] Instance fd_pressure_eq_dec : EqDecision FdPressure.
Proof. solve_decision. Defined.

Record FdBudgetInner := {
  fd_used : Z;
  fd_capacity : Z;
  fd_high_watermark : Z;
  fd_low_watermark : Z;
  fd_under_pressure : bool;
  fd_released : Z;
  fd_pressure_changed : Z;
  fd_waiters : Z;
  fd_peak_used : Z;
  fd_denials : Z;
  fd_underflows : Z;
  fd_pressure_transitions : Z
}.

(** Adjusted in place, one atomic at a time. *)
Definition set_used (b : FdBudgetInner) (v : Z) : FdBudgetInner :=
  {| fd_used := v; fd_capacity := fd_capacity b; fd_high_watermark := fd_high_watermark b; fd_low_watermark := fd_low_watermark b;
     fd_under_pressure := fd_under_pressure b; fd_released := fd_released b; fd_pressure_changed := fd_pressure_changed b;
     fd_waiters := fd_waiters b; fd_peak_used := fd_peak_used b; fd_denials := fd_denials b; fd_underflows := fd_underflows b;
     fd_pressure_transitions := fd_pressure_transitions b |}.
Definition set_pressure (b : FdBudgetInner) (v : bool) : FdBudgetInner :=
  {| fd_used := fd_used b; fd_capacity := fd_capacity b; fd_high_watermark := fd_high_watermark b; fd_low_watermark := fd_low_watermark b;
     fd_under_pressure := v; fd_released := fd_released b; fd_pressure_changed := fd_pressure_changed b;
     fd_waiters := fd_waiters b; fd_peak_used := fd_peak_used b; fd_denials := fd_denials b; fd_underflows := fd_underflows b;
     fd_pressure_transitions := fd_pressure_transitions b |}.
Definition set_waiters (b : FdBudgetInner) (v : Z) : FdBudgetInner :=
  {| fd_used := fd_used b; fd_capacity := fd_capacity b; fd_high_watermark := fd_high_watermark b; fd_low_watermark := fd_low_watermark b;
     fd_under_pressure := fd_under_pressure b; fd_released := fd_released b; fd_pressure_changed := fd_pressure_changed b;
     fd_waiters := v; fd_peak_used := fd_peak_used b; fd_denials := fd_denials b; fd_underflows := fd_underflows b;
     fd_pressure_transitions := fd_pressure_transitions b |}.
Definition set_notifies (b : FdBudgetInner) (released changed : Z) : FdBudgetInner :=
  {| fd_used := fd_used b; fd_capacity := fd_capacity b; fd_high_watermark := fd_high_watermark b; fd_low_watermark := fd_low_watermark b;
     fd_under_pressure := fd_under_pressure b; fd_released := released; fd_pressure_changed := changed;
     fd_waiters := fd_waiters b; fd_peak_used := fd_peak_used b; fd_denials := fd_denials b; fd_underflows := fd_underflows b;
     fd_pressure_transitions := fd_pressure_transitions b |}.
Definition set_counters (b : FdBudgetInner) (peak denials underflows transitions : Z) : FdBudgetInner :=
  {| fd_used := fd_used b; fd_capacity := fd_capacity b; fd_high_watermark := fd_high_watermark b; fd_low_watermark := fd_low_watermark b;
     fd_under_pressure := fd_under_pressure b; fd_released := fd_released b; fd_pressure_changed := fd_pressure_changed b;
     fd_waiters := fd_waiters b; fd_peak_used := peak; fd_denials := denials; fd_underflows := underflows;
     fd_pressure_transitions := transitions |}.

Definition released_notify_waiters (b : FdBudgetInner) := set_notifies b (fd_released b + 1) (fd_pressure_changed b).
Definition pressure_notify_waiters (b : FdBudgetInner) := set_notifies b (fd_released b) (fd_pressure_changed b + 1).
Definition count_peak (b : FdBudgetInner) (v : Z) :=
  set_counters b (Z.max (fd_peak_used b) v) (fd_denials b) (fd_underflows b) (fd_pressure_transitions b).
Definition count_denial (b : FdBudgetInner) :=
  set_counters b (fd_peak_used b) (fetch_add_u64 (fd_denials b) 1) (fd_underflows b) (fd_pressure_transitions b).
Definition count_underflow (b : FdBudgetInner) :=
  set_counters b (fd_peak_used b) (fd_denials b) (fetch_add_u64 (fd_underflows b) 1) (fd_pressure_transitions b).
Definition count_transition (b : FdBudgetInner) :=
  set_counters b (fd_peak_used b) (fd_denials b) (fd_underflows b) (fetch_add_u64 (fd_pressure_transitions b) 1).

Definition fd_budget_new (capacity : Z) : FdBudgetInner :=
  let capacity := Z.max capacity 1 in
  let high_watermark := saturating_mul_u64 capacity 15 / 16 in
  let high_watermark := clamp 1 capacity high_watermark in
  let low_watermark := saturating_mul_u64 capacity 13 / 16 in
  let low_watermark := Z.min low_watermark high_watermark in
  {| fd_used := 0; fd_capacity := capacity; fd_high_watermark := high_watermark; fd_low_watermark := low_watermark;
     fd_under_pressure := false; fd_released := 0; fd_pressure_changed := 0; fd_waiters := 0; fd_peak_used := 0;
     fd_denials := 0; fd_underflows := 0; fd_pressure_transitions := 0 |}.

Definition pressure (b : FdBudgetInner) : FdPressure := if fd_under_pressure b then FdHigh else FdNormal.
#[global] Arguments pressure : simpl never.

(** ** Threads *)

(** The call a compare-exchange loop belongs to: [try_acquire] itself, the first
    attempt of [acquire], or its re-check with an enabled [Notified]. *)
Inductive FdContext := InTry | InFirst | InRecheck (ticket : Z).

(** Why a [WaiterCount] is dropped. *)
Inductive WaitExit := ExitHeld (units : Z) | ExitRetry (units : Z) | ExitCancelled.

Inductive FdPc :=
| FIdle
| FLoad (k : FdContext) (units : Z)
| FLoop (k : FdContext) (units current : Z)
| FDeny (k : FdContext) (units : Z)
| FPeak (k : FdContext) (units next : Z)
| FMark (k : FdContext) (units next : Z)
| FMarkCount (k : FdContext) (units : Z)
| FMarkNotify (k : FdContext) (units : Z)
| FRegister (units : Z)
| FEnable (units : Z)
| FParked (units ticket : Z)
| FUnwait (e : WaitExit)
| FHeld (units : Z)
| FRelease (units : Z)
| FUnderflow
| FRelMark (remaining : Z)
| FRelCount
| FRelPressure
| FRelWake
| FRelNotify
| FWatch (observed : FdPressure)
| FWatchCheck (observed : FdPressure) (ticket : Z)
| FWatchParked (observed : FdPressure) (ticket : Z).

(** What the environment decides: the call an idle caller makes, a spurious
    failure of a weak exchange, the cancellation of a parked future, and the older
    value a Relaxed load returns. *)
Inductive FdChoice :=
| TryAcquire (units : Z) | Acquire (units : Z) | WaitPressure (observed : FdPressure)
| FdGo | FdSpurious | FdCancel | FdStale (v : Z).

(** A Relaxed load of a cell that holds [v]. *)
Definition relaxed_load (ch : FdChoice) (v : Z) : Z := match ch with FdStale old => old | _ => v end.

(** An exchange may fail although the cell holds the expected value. *)
Definition spuriously (ch : FdChoice) : bool := match ch with FdSpurious | FdStale _ => true | _ => false end.

(** [try_acquire] returns a permit, or [None], to the call it belongs to. *)
Definition after_grant (k : FdContext) (units : Z) : FdPc :=
  match k with InRecheck _ => FUnwait (ExitHeld units) | _ => FHeld units end.
Definition after_denial (k : FdContext) (units : Z) : FdPc :=
  match k with InTry => FIdle | InFirst => FRegister units | InRecheck ticket => FParked units ticket end.

Definition start_acquire (k : FdContext) (units : Z) : FdPc := if units =? 0 then FHeld 0 else FLoad k units.

Definition fd_acquire_loop (ch : FdChoice) (b : FdBudgetInner) (k : FdContext) (units current : Z) : FdBudgetInner * FdPc :=
  match checked_add U64_MAX current units with
  | None => (b, FDeny k units)
  | Some next =>
    if fd_capacity b <? next then (b, FDeny k units)
    else if spuriously ch || negb (fd_used b =? current) then (b, FLoop k units (relaxed_load ch (fd_used b)))
    else (set_used b next, FPeak k units next)
  end.

Definition observe_mark (b : FdBudgetInner) (k : FdContext) (units next : Z) : FdBudgetInner * FdPc :=
  if fd_high_watermark b <=? next then
    if fd_under_pressure b then (b, after_grant k units) else (set_pressure b true, FMarkCount k units)
  else (b, after_grant k units).

Definition fd_release (b : FdBudgetInner) (units : Z) : FdBudgetInner * FdPc :=
  match checked_sub (fd_used b) units with
  | None => (b, FUnderflow)
  | Some remaining => (set_used b remaining, FRelMark (saturating_sub (fd_used b) units))
  end.

Definition release_mark (b : FdBudgetInner) (remaining : Z) : FdBudgetInner * FdPc :=
  if remaining <=? fd_low_watermark b then
    if fd_under_pressure b then (set_pressure b false, FRelCount) else (b, FRelWake)
  else (b, FRelWake).

Definition unwait (e : WaitExit) : FdPc :=
  match e with ExitHeld units => FHeld units | ExitRetry units => FLoad InFirst units | ExitCancelled => FIdle end.

Definition fd_step (ch : FdChoice) (b : FdBudgetInner) (pc : FdPc) : FdBudgetInner * FdPc :=
  match pc with
  | FIdle =>
    match ch with
    | TryAcquire units => (b, start_acquire InTry units)
    | Acquire units => (b, start_acquire InFirst units)
    | WaitPressure observed => (b, FWatch observed)
    | _ => (b, FIdle)
    end
  | FLoad k units => (b, FLoop k units (relaxed_load ch (fd_used b)))
  | FLoop k units current => fd_acquire_loop ch b k units current
  | FDeny k units => (count_denial b, after_denial k units)
  | FPeak k units next => (count_peak b next, FMark k units next)
  | FMark k units next => observe_mark b k units next
  | FMarkCount k units => (count_transition b, FMarkNotify k units)
  | FMarkNotify k units => (pressure_notify_waiters b, after_grant k units)
  | FRegister units => (set_waiters b (fetch_add_u64 (fd_waiters b) 1), FEnable units)
  | FEnable units => (b, FLoad (InRecheck (fd_released b)) units)
  | FParked units ticket =>
    match ch with
    | FdCancel => (b, FUnwait ExitCancelled)
    | _ => if fd_released b =? ticket then (b, FParked units ticket) else (b, FUnwait (ExitRetry units))
    end
  | FUnwait e => (set_waiters b (fetch_sub_u64 (fd_waiters b) 1), unwait e)
  | FHeld units =>
    match ch with FdGo => (b, if units =? 0 then FIdle else FRelease units) | _ => (b, FHeld units) end
  | FRelease units => fd_release b units
  | FUnderflow => (count_underflow b, FIdle)
  | FRelMark remaining => release_mark b remaining
  | FRelCount => (count_transition b, FRelPressure)
  | FRelPressure => (pressure_notify_waiters b, FRelWake)
  | FRelWake => (b, if 0 <? relaxed_load ch (fd_waiters b) then FRelNotify else FIdle)
  | FRelNotify => (released_notify_waiters b, FIdle)
  | FWatch observed => (b, FWatchCheck observed (fd_pressure_changed b))
  | FWatchCheck observed ticket => (b, if decide (pressure b = observed) then FWatchParked observed ticket else FIdle)
  | FWatchParked observed ticket =>
    match ch with
    | FdCancel => (b, FIdle)
    | _ => (b, if fd_pressure_changed b =? ticket then FWatchParked observed ticket else FWatch observed)
    end
  end.

Definition FdPool : Type := ThreadPool FdBudgetInner FdPc.
Definition run_fd : FdPool -> list (nat * FdChoice) -> FdPool := run_pool fd_step.
Definition fd_pool (capacity : Z) (callers : nat) : FdPool :=
  {| cells := fd_budget_new capacity; threads := replicate callers FIdle |}.

(** ** Permits as values *)

(** A permit names its budget (the identity [Arc::ptr_eq] compares) and its units. *)
Record FdPermit := { permit_budget : nat; permit_units : Z }.

(** [merge]: the merged permit, or both unchanged. The emptied [other] is dropped
    and releases zero units. *)
Definition merge (self other : FdPermit) : FdPermit + FdPermit * FdPermit :=
  if bool_decide (permit_budget self = permit_budget other) then
    match checked_add U32_MAX (permit_units self) (permit_units other) with
    | Some total => inl {| permit_budget := permit_budget self; permit_units := total |}
    | None => inr (self, other)
    end
  else inr (self, other).

(** [release_now] takes the units out of the permit and releases them; the drop
    that follows releases zero. *)
Definition release_now (p : FdPermit) : FdPermit * Z :=
  ({| permit_budget := permit_budget p; permit_units := 0 |}, permit_units p).

(** ** Accounting *)

(** The units of the budget a caller is answerable for. *)
Definition owned (pc : FdPc) : Z :=
  match pc with
  | FPeak _ u _ | FMark _ u _ | FMarkCount _ u | FMarkNotify _ u | FUnwait (ExitHeld u) | FHeld u | FRelease u => u
  | _ => 0
  end.

Definition recheck (k : FdContext) : Z := match k with InRecheck _ => 1 | _ => 0 end.

(** Its share of the waiter count. *)
Definition waiting (pc : FdPc) : Z :=
  match pc with
  | FLoad k _ | FLoop k _ _ | FDeny k _ | FPeak k _ _ | FMark k _ _ | FMarkCount k _ | FMarkNotify k _ => recheck k
  | FEnable _ | FParked _ _ | FUnwait _ => 1
  | _ => 0
  end.

(** Releases that have freed units and not yet decided whom to wake, and pressure
    changes not yet announced. *)
Definition waking (pc : FdPc) : Z :=
  match pc with FRelMark _ | FRelCount | FRelPressure | FRelWake | FRelNotify => 1 | _ => 0 end.
Definition announcing (pc : FdPc) : Z :=
  match pc with FMarkCount _ _ | FMarkNotify _ _ | FRelCount | FRelPressure => 1 | _ => 0 end.
(** Releases about to clear the pressure flag. *)
Definition clearing (low : Z) (pc : FdPc) : Z := match pc with FRelMark r => if r <=? low then 1 else 0 | _ => 0 end.

Definition pc_units (pc : FdPc) : option Z :=
  match pc with
  | FLoad _ u | FLoop _ u _ | FDeny _ u | FPeak _ u _ | FMark _ u _ | FMarkCount _ u | FMarkNotify _ u | FRegister u
  | FEnable u | FParked u _ | FUnwait (ExitHeld u) | FUnwait (ExitRetry u) | FRelease u => Some u
  | _ => None
  end.

Definition context (pc : FdPc) : option FdContext :=
  match pc with
  | FLoad k _ | FLoop k _ _ | FDeny k _ | FPeak k _ _ | FMark k _ _ | FMarkCount k _ | FMarkNotify k _ => Some k
  | _ => None
  end.

(** A ticket never runs ahead of its [Notify]. *)
Definition tickets_ok (b : FdBudgetInner) (pc : FdPc) : Prop :=
  match pc with
  | FParked _ t => t <= fd_released b
  | FWatchCheck _ t | FWatchParked _ t => t <= fd_pressure_changed b
  | _ => match context pc with Some (InRecheck t) => t <= fd_released b | _ => True end
  end.

(** No lost wakeup: a registered waiter that has not been notified has seen no
    room that is not already taken, unless a release is still on its way to
    notify it; and likewise for a watcher of the pressure state. *)
Definition wakeup_ok (b : FdBudgetInner) (wake announce : Z) (pc : FdPc) : Prop :=
  match pc with
  | FLoop (InRecheck t) u current => t < fd_released b \/ current <= fd_used b \/ 0 < wake
  | FDeny (InRecheck t) u | FParked u t => t < fd_released b \/ fd_capacity b < fd_used b + u \/ 0 < wake
  | FWatchParked o t => t < fd_pressure_changed b \/ pressure b = o \/ 0 < announce
  | _ => True
  end.

Definition shape_ok (b : FdBudgetInner) (pc : FdPc) : Prop :=
  match pc with
  | FUnderflow => False
  | FHeld u => 0 <= u
  | FPeak _ u next | FMark _ u next => 0 < u /\ next <= fd_capacity b
  | _ => match pc_units pc with Some u => 0 < u | None => True end
  end.

(** The invariant; [fresh] says that no load so far was stale, which only the
    wakeup conditions need. *)
Record fd_inv (fresh : bool) (p : FdPool) : Prop := {
  fi_callers : len (threads p) <= U64_MAX;
  fi_capacity : 0 < fd_capacity (cells p) <= U64_MAX;
  fi_low : 0 <= fd_low_watermark (cells p);
  fi_used : fd_used (cells p) = zsum owned (threads p);
  fi_bound : fd_used (cells p) <= fd_capacity (cells p);
  fi_peak : fd_peak_used (cells p) <= fd_capacity (cells p);
  fi_underflows : fd_underflows (cells p) = 0;
  fi_waiters : fd_waiters (cells p) = zsum waiting (threads p);
  fi_flag : fd_under_pressure (cells p) = true ->
    0 < fd_used (cells p) \/ 0 < zsum (clearing (fd_low_watermark (cells p))) (threads p);
  fi_shape : forall i t, threads p !! i = Some t -> shape_ok (cells p) t;
  fi_tickets : forall i t, threads p !! i = Some t -> tickets_ok (cells p) t;
  fi_wakeup : fresh = true -> forall i t, threads p !! i = Some t ->
    wakeup_ok (cells p) (zsum waking (threads p)) (zsum announcing (threads p)) t
}.

Definition fd_choice_ok (ch : FdChoice) : Prop :=
  match ch with TryAcquire u | Acquire u => u32_range u | FdStale v => u64_range v | _ => True end.

(** Every load returns the latest value. *)
Definition loads_latest (ch : FdChoice) : bool := match ch with FdStale _ => false | _ => true end.

Lemma owned_nonneg b pc : shape_ok b pc -> 0 <= owned pc.
Proof. destruct pc as [| | | | | | | | | | |[]| | | | | | | | | | |]; cbn; lia. Qed.
Lemma waiting_bounds pc : 0 <= waiting pc <= 1.
Proof. destruct pc; cbn; try lia; by destruct k. Qed.
Lemma waking_nonneg pc : 0 <= waking pc. Proof. by destruct pc. Qed.
Lemma announcing_nonneg pc : 0 <= announcing pc. Proof. by destruct pc. Qed.
Lemma clearing_nonneg low pc : 0 <= clearing low pc.
Proof. destruct pc; cbn; try lia. by case_match. Qed.

Lemma zsum_waiting_le ts : zsum waiting ts <= len ts.
Proof.
  induction ts as [|t ts IH]; [done|]. change (zsum waiting (t :: ts)) with (waiting t + zsum waiting ts).
  rewrite len_cons. pose proof (waiting_bounds t). lia.
Qed.

(** [owned] sums over threads whose shape is known. *)
Lemma owned_member b ts i t : (forall j u, ts !! j = Some u -> shape_ok b u) -> ts !! i = Some t -> owned t <= zsum owned ts.
Proof.
  revert i. induction ts as [|u ts IH]; intros [|i] Hs; cbn; try done; change (zsum owned (u :: ts)) with (owned u + zsum owned ts).
  - intros [= ->]. assert (0 <= zsum owned ts); [|lia]. apply zsum_nonneg. intros x [j Hj]%list_elem_of_lookup_1.
    apply (owned_nonneg b), (Hs (S j) x Hj).
  - intros Hi%IH; [|by intros j v Hv; apply (Hs (S j) v)]. pose proof (owned_nonneg b u (Hs O u eq_refl)). lia.
Qed.

(** Case analysis on a step: the program counter, the context it belongs to, the
    choice, and every test the step makes. *)
Ltac fd_cases t ch :=
  destruct t as [|k u|k u cur|k u|k u nx|k u nx|k u|k u|u|u|u tk|[u|u|]|u|u| |r| | | | |o|o tk|o tk];
  try destruct k as [| |tk];
  cbn [fd_step after_grant after_denial unwait fst snd recheck];
  unfold fd_acquire_loop, relaxed_load, spuriously, observe_mark, fd_release, release_mark, start_acquire, checked_add, checked_sub, saturating_sub;
  repeat case_match; simplify_eq; cbn [fst snd after_grant after_denial unwait recheck].

(** The counter moves with the units the caller owns, within the capacity, and
    never below zero. *)
Lemma fd_step_used b t ch : 0 < fd_capacity b <= U64_MAX -> owned t <= fd_used b <= fd_capacity b ->
  fd_peak_used b <= fd_capacity b -> fd_underflows b = 0 -> shape_ok b t -> fd_choice_ok ch ->
  let b' := (fd_step ch b t).1 in let t' := (fd_step ch b t).2 in
  (fd_used b' = fd_used b - owned t + owned t' /\ fd_used b' <= fd_capacity b' /\
   fd_peak_used b' <= fd_capacity b' /\ fd_underflows b' = 0 /\ shape_ok b' t') /\
  fd_capacity b' = fd_capacity b /\ fd_low_watermark b' = fd_low_watermark b.
Proof.
  intros Hc Hu Hp Hz Ht Hch b' t'. subst b' t'.
  fd_cases t ch; cbn in *; unfold u32_range in *; split_and!; try done; try lia.
Qed.

Lemma fd_step_waiters b t ch : 0 <= fd_waiters b - waiting t -> fd_waiters b <= U64_MAX ->
  fd_waiters b - waiting t + waiting (fd_step ch b t).2 <= U64_MAX ->
  fd_waiters (fd_step ch b t).1 = fd_waiters b - waiting t + waiting (fd_step ch b t).2.
Proof.
  intros Hlo Hhi. fd_cases t ch; cbn in *; intros Hnew; try lia; rewrite ?fetch_add_exact, ?fetch_sub_exact; lia.
Qed.

(** The pressure flag is only up while units are reserved, or a release is about
    to take it down. *)
Lemma fd_step_flag b t ch n : shape_ok b t -> 0 <= fd_low_watermark b -> owned t <= fd_used b -> 0 <= n - clearing (fd_low_watermark b) t ->
  (fd_under_pressure b = true -> 0 < fd_used b \/ 0 < n) -> fd_under_pressure (fd_step ch b t).1 = true ->
  0 < fd_used (fd_step ch b t).1 \/
  0 < n - clearing (fd_low_watermark b) t + clearing (fd_low_watermark b) (fd_step ch b t).2.
Proof.
  intros Ht Hl Ho Hn Hf. fd_cases t ch; cbn in *; intros Hp; try specialize (Hf Hp); try discriminate; repeat case_match; try lia; congruence.
Qed.

Lemma fd_step_tickets b t ch : tickets_ok b t ->
  tickets_ok (fd_step ch b t).1 (fd_step ch b t).2 /\ fd_released b <= fd_released (fd_step ch b t).1 /\
  fd_pressure_changed b <= fd_pressure_changed (fd_step ch b t).1.
Proof. fd_cases t ch; cbn in *; intros Hold; split_and!; try done; lia. Qed.

(** The stepping caller's own wakeup condition. *)
Lemma fd_step_wakeup b t ch wake announce : loads_latest ch = true -> fd_capacity b <= U64_MAX -> tickets_ok b t -> wakeup_ok b wake announce t ->
  wakeup_ok (fd_step ch b t).1 (wake - waking t + waking (fd_step ch b t).2)
    (announce - announcing t + announcing (fd_step ch b t).2) (fd_step ch b t).2.
Proof.
  intros Hf Hc. fd_cases t ch; cbn in *; try discriminate Hf; intros Ht Hw; rewrite ?Z.sub_0_r, ?Z.add_0_r; try done; try lia.
  all: try (destruct Hw as [?|[?|?]]); auto.
Qed.

(** What a step leaves to the other callers' conditions. *)
Lemma fd_step_effects b t ch : loads_latest ch = true -> shape_ok b t ->
  let b' := (fd_step ch b t).1 in let t' := (fd_step ch b t).2 in
  (fd_released b < fd_released b' \/ waking t <= waking t' /\ (fd_used b <= fd_used b' \/ 0 < waking t') \/
     fd_waiters b <= 0) /\
  (fd_pressure_changed b < fd_pressure_changed b' \/ announcing t <= announcing t' /\ (fd_under_pressure b' = fd_under_pressure b \/ 0 < announcing t')).
Proof.
  intros Hl Hs b' t'. subst b' t'. fd_cases t ch; cbn in *; try discriminate Hl; (split; [lia|]); first [left; lia|right; split; [lia|first [left; congruence|right; lia]]].
Qed.

(** A caller that did not step keeps its conditions. *)
Lemma tickets_frame b b' t : tickets_ok b t -> fd_released b <= fd_released b' -> fd_pressure_changed b <= fd_pressure_changed b' ->
  tickets_ok b' t.
Proof. intros Ht Hr Hp. destruct t; cbn in *; repeat case_match; lia || done. Qed.

Lemma wakeup_frame b b' wake wake' announce announce' t :
  tickets_ok b t -> wakeup_ok b wake announce t -> fd_capacity b' = fd_capacity b ->
  fd_released b <= fd_released b' -> fd_pressure_changed b <= fd_pressure_changed b' ->
  (fd_released b < fd_released b' \/ (0 < wake -> 0 < wake') /\ (fd_used b <= fd_used b' \/ 0 < wake') \/ waiting t = 0) ->
  (fd_pressure_changed b < fd_pressure_changed b' \/
    (0 < announce -> 0 < announce') /\ (fd_under_pressure b' = fd_under_pressure b \/ 0 < announce')) ->
  wakeup_ok b' wake' announce' t.
Proof.
  intros Ht Hw Hc Hr Hp Hwake Hann. destruct t as [| |[]| | | | | | | | | | | | | | | | | | | |]; cbn in *; repeat case_match;
    cbn [recheck] in *; try done; try lia.
  destruct Hann as [?|[Ha [Hf|?]]]; [left; lia| |right; right; done].
  destruct Hw as [?|[Ho|?]]; [left; lia|right; left|right; right; auto]. unfold pressure in *. by rewrite Hf.
Qed.

Lemma insert_len {A} (l : list A) i x : len (<[i := x]> l) = len l.
Proof. unfold len. by rewrite length_insert. Qed.

Lemma fd_step_inv fresh p i t ch : fd_inv fresh p -> fd_choice_ok ch -> (fresh = true -> loads_latest ch = true) -> threads p !! i = Some t ->
  fd_inv fresh {| cells := (fd_step ch (cells p) t).1; threads := <[i := (fd_step ch (cells p) t).2]> (threads p) |}.
Proof.
  intros I Hch Hfr Hi. pose proof I as [Hn Hc Hl Hu Hb Hp Hz Hw Hf Hs Ht Hwk].
  pose proof (owned_member _ _ _ _ Hs Hi) as Hm. rewrite <- Hu in Hm.
  pose proof (zsum_member waiting _ _ _ (fun x => proj1 (waiting_bounds x)) Hi) as Hmw.
  pose proof (zsum_member waking _ _ _ waking_nonneg Hi) as Hmk. pose proof (zsum_member announcing _ _ _ announcing_nonneg Hi) as Hma.
  pose proof (zsum_member (clearing (fd_low_watermark (cells p))) _ _ _ (clearing_nonneg _) Hi) as Hmc.
  pose proof (zsum_waiting_le (threads p)) as Hle. set (b := cells p) in *. set (t' := (fd_step ch b t).2). set (b' := (fd_step ch b t).1).
  pose proof (zsum_waiting_le (<[i := t']> (threads p))) as Hle'. rewrite insert_len in Hle'.
  destruct (fd_step_used b t ch Hc (conj Hm Hb) Hp Hz (Hs i t Hi) Hch) as ((Hu' & Hb' & Hp' & Hz' & Hs') & Hc' & Hl').
  destruct (fd_step_tickets b t ch (Ht i t Hi)) as (Ht' & Hr' & Hpc').
  fold b' t' in Hu', Hb', Hp', Hz', Hs', Hc', Hl', Ht', Hr', Hpc'.
  rewrite (zsum_insert waiting _ _ _ _ Hi) in Hle'.
  split; cbn [cells threads]; fold b'; rewrite ?insert_len, ?(zsum_insert owned _ _ _ _ Hi), ?(zsum_insert waiting _ _ _ _ Hi),
    ?(zsum_insert waking _ _ _ _ Hi), ?(zsum_insert announcing _ _ _ _ Hi); fold t'; try lia.
  - unfold b'. rewrite (fd_step_waiters b t ch); fold t'; lia.
  - rewrite Hl', (zsum_insert _ _ _ _ _ Hi). apply fd_step_flag; [by apply (Hs i)|done|done|lia|done].
  - refine (all_threads_insert _ _ _ _ _ _ Hi Hs _ Hs'). intros u Hu0. clear -Hu0 Hc'.
    destruct u as [| | | | | | | | | | |[]| | | | | | | | | | |]; cbn in *; lia || done.
  - refine (all_threads_insert _ _ _ _ _ _ Hi Ht _ Ht'). intros u Hu0.
    by apply (tickets_frame b).
  - intros Hfresh j u Hj. specialize (Hfr Hfresh). specialize (Hwk Hfresh).
    destruct (fd_step_effects b t ch Hfr (Hs i t Hi)) as [He1 He2].
    pose proof (fd_step_wakeup b t ch _ _ Hfr (proj2 Hc) (Ht i t Hi) (Hwk i t Hi)) as Hwk'. fold b' t' in He1, He2, Hwk'.
    destruct (insert_thread_cases _ _ _ _ _ _ Hi Hj) as [[_ ->]|Hju]; [exact Hwk'|].
    apply (wakeup_frame b b' _ _ _ _ u (Ht j u Hju) (Hwk j u Hju) Hc' Hr' Hpc'); [|destruct He2 as [?|[? [?|?]]]; lia || auto].
    + destruct He1 as [?|[?|H0]]; [by left|right; left; lia|]. right; right.
      pose proof (zsum_member waiting _ _ _ (fun x => proj1 (waiting_bounds x)) Hju). pose proof (waiting_bounds u). lia.
    + right. split; [lia|by left].
Qed.

Lemma fd_step_capacity ch b t : fd_capacity (fd_step ch b t).1 = fd_capacity b.
Proof. by fd_cases t ch. Qed.

Lemma fd_pool_inv fresh capacity n : u64_range capacity -> Z.of_nat n <= U64_MAX -> fd_inv fresh (fd_pool capacity n).
Proof.
  intros [H0 H1] Hn. assert (Hz : forall f, f FIdle = 0 -> zsum f (replicate n FIdle) = 0).
  { intros f Hf. apply zsum_zero. by intros x [-> _]%elem_of_replicate. }
  assert (Hlow : 0 <= fd_low_watermark (fd_budget_new capacity)).
  { cbn. unfold clamp, saturating_mul_u64, U64_MAX in *. apply Z.min_glb; [|lia]. apply Z.div_pos; lia. }
  unfold U64_MAX in *. split; cbn [cells threads fd_pool]; rewrite ?Hz, ?len_replicate by done; try done; try (cbn; unfold U64_MAX in *; lia).
  3: intros _. all: by intros i t [-> _]%lookup_replicate_1.
Qed.

Lemma run_fd_inv p sched : fd_inv false p -> Forall (fun '(_, ch) => fd_choice_ok ch) sched -> fd_inv false (run_fd p sched).
Proof. intros Hp Hs. apply (run_pool_invariant fd_step fd_choice_ok); [|done|done]. intros. by apply fd_step_inv. Qed.

Lemma run_fd_fresh_inv p sched : fd_inv true p -> Forall (fun '(_, ch) => fd_choice_ok ch /\ loads_latest ch = true) sched ->
  fd_inv true (run_fd p sched).
Proof.
  intros Hp Hs. apply (run_pool_invariant fd_step (fun ch => fd_choice_ok ch /\ loads_latest ch = true)); [|done|done].
  intros q i t ch Hq [? ?] ?. by apply fd_step_inv.
Qed.

(** ** Claims *)

(** C24: the descriptor budget is strict and leaks nothing. Under every
    interleaving of any callers that try, acquire and wait, are cancelled while
    parked, and drop permits of any u32 sizes, and whatever older values the
    Relaxed loads return: the reserved count is exactly the
    units of the live permits (from the winning exchange to the release) and
    never exceeds the capacity, nor does the recorded peak; no release ever finds
    fewer units than it returns, so the underflow counter stays zero; and once
    every caller is idle again the count and the waiter count are zero and the
    pressure flag is down. *)
Theorem fd_budget_strict (capacity : Z) (callers : nat) (sched : list (nat * FdChoice)) :
  u64_range capacity -> Z.of_nat callers <= U64_MAX -> Forall (fun '(_, ch) => fd_choice_ok ch) sched ->
  let p := run_fd (fd_pool capacity callers) sched in
  fd_used (cells p) = zsum owned (threads p) /\ fd_used (cells p) <= Z.max capacity 1 /\
  fd_peak_used (cells p) <= Z.max capacity 1 /\ fd_underflows (cells p) = 0 /\
  (Forall (fun pc => pc = FIdle) (threads p) ->
    fd_used (cells p) = 0 /\ fd_waiters (cells p) = 0 /\ pressure (cells p) = FdNormal).
Proof.
  intros Hc Hn Hs p. assert (I : fd_inv false p) by (apply run_fd_inv; [by apply fd_pool_inv|done]).
  assert (Hcap : fd_capacity (cells p) = Z.max capacity 1).
  { apply (run_pool_invariant fd_step (fun _ => True) (fun q => fd_capacity (cells q) = Z.max capacity 1));
      [|done|by apply Forall_forall; intros []]. intros q i t ch Hq _ _. rewrite <- Hq. apply fd_step_capacity. }
  rewrite <- Hcap. destruct I as [_ _ Hl Hu Hb Hp Hz Hw Hf _ _ _]. split_and!; try done. intros Hidle.
  assert (Hsum : forall f, f FIdle = 0 -> zsum f (threads p) = 0).
  { intros f Hf0. apply zsum_zero. intros x Hx. rewrite Forall_forall in Hidle. by rewrite (Hidle x Hx). }
  rewrite Hu, Hw, !Hsum by done. split_and!; try done. unfold pressure. destruct (fd_under_pressure (cells p)); [|done].
  rewrite Hu, !Hsum in Hf by done. destruct (Hf eq_refl); lia.
Qed.

(** C27: no wakeup is lost, as long as the atomic operations take effect in one
    total order: the statement is for schedules in which every load returns the
    latest value, which the Relaxed orderings of [waiters] do not by themselves
    guarantee (see [stale_waiters_lose_wakeup]). In every so reachable state in which no release is still
    between freeing its units and notifying, a caller parked in [acquire] either
    has been notified (its next step leaves the wait and retries) or its request
    does not fit beside the units reserved now; and when no pressure change is
    waiting to be announced, a parked watcher has been notified or still sees
    the state it observed. So nobody sleeps through a release or a transition. *)
Theorem fd_no_lost_wakeup (capacity : Z) (callers : nat) (sched : list (nat * FdChoice)) :
  u64_range capacity -> Z.of_nat callers <= U64_MAX ->
  Forall (fun '(_, ch) => fd_choice_ok ch /\ loads_latest ch = true) sched ->
  let p := run_fd (fd_pool capacity callers) sched in
  (forall i units ticket, threads p !! i = Some (FParked units ticket) -> Forall (fun pc => waking pc = 0) (threads p) ->
    fd_step FdGo (cells p) (FParked units ticket) = (cells p, FUnwait (ExitRetry units)) \/
    fd_capacity (cells p) < fd_used (cells p) + units) /\
  (forall i observed ticket, threads p !! i = Some (FWatchParked observed ticket) -> Forall (fun pc => announcing pc = 0) (threads p) ->
    fd_step FdGo (cells p) (FWatchParked observed ticket) = (cells p, FWatch observed) \/ pressure (cells p) = observed).
Proof.
  intros Hc Hn Hs p. assert (I : fd_inv true p) by (apply run_fd_fresh_inv; [by apply fd_pool_inv|done]).
  assert (Hsum : forall f, Forall (fun pc => f pc = 0) (threads p) -> zsum f (threads p) = 0).
  { intros f Hf. rewrite Forall_forall in Hf. by apply zsum_zero. }
  split; intros i u ticket Hi Hq; pose proof (fi_wakeup _ _ I eq_refl i _ Hi) as Hw; cbn [wakeup_ok fd_step] in *;
    rewrite (Hsum _ Hq) in Hw; destruct Hw as [Hw|[Hw|?]]; try lia; try (by right); left.
  - destruct (Z.eqb_spec (fd_released (cells p)) ticket); [lia|done].
  - destruct (Z.eqb_spec (fd_pressure_changed (cells p)) ticket); [lia|done].
Qed.

(** A budget of two: caller 0 takes both units, caller 1 parks for one, caller 0
    drops its permit. *)
Definition example_sched : list (nat * FdChoice) :=
  [(0%nat, TryAcquire 2)] ++ replicate 6 (0%nat, FdGo) ++ [(1%nat, Acquire 1)] ++ replicate 8 (1%nat, FdGo) ++ replicate 7 (0%nat, FdGo).

Lemma example_sched_ok : Forall (fun '(_, ch) => fd_choice_ok ch) example_sched.
Proof. repeat (constructor; [vm_compute; split; congruence || exact I|]). constructor. Qed.

Lemma example_sched_fresh : Forall (fun '(_, ch) => fd_choice_ok ch /\ loads_latest ch = true) example_sched.
Proof.
  apply Forall_forall. intros [i ch] Hi. split.
  - pose proof example_sched_ok as H. rewrite Forall_forall in H. exact (H _ Hi).
  - revert Hi. unfold example_sched. rewrite !elem_of_app, !elem_of_replicate, !list_elem_of_singleton. naive_solver.
Qed.

Lemma fd_budget_strict_witness :
  let p := run_fd (fd_pool 2 2) (example_sched ++ [(1%nat, FdCancel); (1%nat, FdGo)]) in
  threads p = [FIdle; FIdle] /\ fd_used (cells p) = 0 /\ fd_waiters (cells p) = 0 /\ pressure (cells p) = FdNormal.
Proof.
  intros p. split; [by vm_compute|].
  refine (proj2 (proj2 (proj2 (proj2 (fd_budget_strict 2 2 (example_sched ++ [(1%nat, FdCancel); (1%nat, FdGo)]) _ _ _)))) _).
  - unfold u64_range, U64_MAX. lia.
  - unfold U64_MAX. lia.
  - apply Forall_app. split; [apply example_sched_ok|]. repeat (constructor; [exact I|]). constructor.
  - vm_compute. repeat constructor.
Defined.

Lemma fd_no_lost_wakeup_witness :
  let p := run_fd (fd_pool 2 2) example_sched in
  threads p !! 1%nat = Some (FParked 1 0) /\
  (fd_step FdGo (cells p) (FParked 1 0) = (cells p, FUnwait (ExitRetry 1)) \/ fd_capacity (cells p) < fd_used (cells p) + 1).
Proof.
  intros p. split; [by vm_compute|].
  refine (proj1 (fd_no_lost_wakeup 2 2 example_sched _ _ example_sched_fresh) 1%nat 1 0 _ _).
  - unfold u64_range, U64_MAX. lia.
  - unfold U64_MAX. lia.
  - by vm_compute.
  - vm_compute. repeat constructor.
Defined.

(** A stale load of [waiters] loses a wakeup. The two units of the budget are taken,
    the second caller fails to get one, registers, re-checks and parks; the first
    caller then frees both, but its load of [waiters] still returns the zero the
    cell held before the registration, so it notifies nobody. At rest the budget is
    empty and the second caller sleeps on. Nothing orders the Relaxed increment of
    [acquire] before the Relaxed load of [release]: only if both were sequentially
    consistent operations (or separated by fences) would the load see it. *)
Lemma stale_waiters_lose_wakeup :
  let p := run_fd (fd_pool 2 2) ([(0%nat, TryAcquire 2)] ++ replicate 6 (0%nat, FdGo) ++ [(1%nat, Acquire 1)] ++
    replicate 8 (1%nat, FdGo) ++ replicate 5 (0%nat, FdGo) ++ [(0%nat, FdStale 0)]) in
  threads p = [FIdle; FParked 1 0] /\ fd_used (cells p) = 0 /\ fd_waiters (cells p) = 1 /\
  fd_step FdGo (cells p) (FParked 1 0) = (cells p, FParked 1 0).
Proof. vm_compute. auto. Qed.

(** The flag is not exact in between. A release that has freed its units but not
    yet swapped the flag can take it down after a newcomer has filled the budget:
    at rest the budget is full and reports normal pressure. *)
Theorem pressure_normal_when_full :
  let p := run_fd (fd_pool 16 2) ([(0%nat, TryAcquire 16)] ++ replicate 8 (0%nat, FdGo) ++ [(1%nat, TryAcquire 16)] ++
    replicate 4 (1%nat, FdGo) ++ replicate 4 (0%nat, FdGo)) in
  threads p = [FIdle; FHeld 16] /\ fd_used (cells p) = fd_capacity (cells p) /\ pressure (cells p) = FdNormal.
Proof. vm_compute. auto. Qed.

(** And an acquire that crossed the high watermark can raise it after the units
    that made it cross are back: at rest two units of sixteen are reserved and
    pressure is high. *)
Theorem pressure_high_when_low :
  let p := run_fd (fd_pool 16 2) ([(0%nat, TryAcquire 13)] ++ replicate 4 (0%nat, FdGo) ++ [(1%nat, TryAcquire 2)] ++
    replicate 3 (1%nat, FdGo) ++ replicate 4 (0%nat, FdGo) ++ replicate 3 (1%nat, FdGo)) in
  threads p = [FIdle; FHeld 2] /\ fd_used (cells p) = 2 /\ fd_low_watermark (cells p) = 13 /\ pressure (cells p) = FdHigh.
Proof. vm_compute. auto. Qed.

(** Merging permits of one budget keeps their units; otherwise both come back. *)
Lemma merge_units (a b : FdPermit) :
  match merge a b with
  | inl c => permit_budget a = permit_budget b /\ permit_budget c = permit_budget a /\ permit_units c = permit_units a + permit_units b
  | inr both => both = (a, b) /\ (permit_budget a = permit_budget b -> U32_MAX < permit_units a + permit_units b)
  end.
Proof.
  unfold merge. case_bool_decide as Hb; [|done]. unfold checked_add.
  destruct (Z.leb_spec (permit_units a + permit_units b) U32_MAX); cbn; auto.
Qed.
