(* ===== verification/Pressure.v ===== *)
(** Resource pressure (src/runtime/pressure.rs, src/runtime/machine.rs, and the
    publication step of src/server/production/monitor.rs).

    The effective state is the worse of the descriptor and the memory dimension,
    published in one atomic with a [Notify]. The waits register with the [Notify]
    before they re-check the state; every load, swap and notification is one step
    of a thread. The memory dimension moves between watermarks. *)
From stdpp Require Import base list.
From S2P Require Import Prelude Threads FdBudget.
#[local] Open Scope Z_scope.

Inductive ResourcePressure := Normal | Pressure | Critical.
#[export] Instance resource_pressure_eq_dec : EqDecision ResourcePressure.
Proof. solve_decision. Defined.

(** The derived order, and [Ord::max]. *)
Definition pressure_rank (s : ResourcePressure) : Z := match s with Normal => 0 | Pressure => 1 | Critical => 2 end.
Definition pressure_max (a b : ResourcePressure) : ResourcePressure := if pressure_rank b <? pressure_rank a then a else b.

Inductive AdmissionKind := Connection | PreAuthIdle | Handshake | Fallback | CryptoOperation | ReplayEntry | DnsLookup.
#[export] Instance admission_kind_eq_dec : EqDecision AdmissionKind.
Proof. solve_decision. Defined.

Definition admits (s : ResourcePressure) (kind : AdmissionKind) : bool :=
  match s with
  | Normal => true
  | Pressure => match kind with PreAuthIdle | Handshake | Fallback => false | _ => true end
  | Critical => false
  end.

Definition pressure_from_fd (s : FdPressure) : ResourcePressure := match s with FdNormal => Normal | FdHigh => Pressure end.

Definition encode (s : ResourcePressure) : Z := match s with Normal => 0 | Pressure => 1 | Critical => 2 end.
Definition decode (v : Z) : ResourcePressure := if v =? 1 then Pressure else if v =? 2 then Critical else Normal.

(** ** The gauge *)

Record PressureGauge := { pg_state : Z; pg_changed : Z; pg_transitions : Z }.
Definition gauge_new : PressureGauge := {| pg_state := 0; pg_changed := 0; pg_transitions := 0 |}.
Definition gauge_state (g : PressureGauge) : ResourcePressure := decode (pg_state g).

(** The three waits, and the states in which each keeps waiting. *)
Inductive Wait := WhileCritical | UntilPressure | ForChange (observed : ResourcePressure).
Definition keeps_waiting (w : Wait) (s : ResourcePressure) : bool :=
  match w with
  | WhileCritical => bool_decide (s = Critical)
  | UntilPressure => bool_decide (s = Normal)
  | ForChange observed => bool_decide (s = observed)
  end.

Inductive GaugePc :=
| PIdle
| PCheck (w : Wait)
| PEnable (w : Wait)
| PRecheck (w : Wait) (ticket : Z)
| PParked (w : Wait) (ticket : Z)
| PReturned (w : Wait) (seen : ResourcePressure)
| PCount
| PNotify.

Inductive GaugeChoice := CallSet (s : ResourcePressure) | CallWait (w : Wait) | GaugeGo | GaugeCancel.

(** [while cond] tests the state before it registers; [wait_for_change] does not. *)
Definition start_wait (w : Wait) : GaugePc := match w with ForChange _ => PEnable w | _ => PCheck w end.

Definition gauge_step (ch : GaugeChoice) (g : PressureGauge) (pc : GaugePc) : PressureGauge * GaugePc :=
  match pc with
  | PIdle =>
    match ch with
    | CallSet s =>
      ({| pg_state := encode s; pg_changed := pg_changed g; pg_transitions := pg_transitions g |},
       if pg_state g =? encode s then PIdle else PCount)
    | CallWait w => (g, start_wait w)
    | _ => (g, PIdle)
    end
  | PCheck w => (g, if keeps_waiting w (gauge_state g) then PEnable w else PReturned w (gauge_state g))
  | PEnable w => (g, PRecheck w (pg_changed g))
  | PRecheck w ticket => (g, if keeps_waiting w (gauge_state g) then PParked w ticket else PReturned w (gauge_state g))
  | PParked w ticket =>
    match ch with
    | GaugeCancel => (g, PIdle)
    | _ => (g, if pg_changed g =? ticket then PParked w ticket else start_wait w)
    end
  | PReturned _ _ => (g, PIdle)
  | PCount => ({| pg_state := pg_state g; pg_changed := pg_changed g; pg_transitions := fetch_add_u64 (pg_transitions g) 1 |}, PNotify)
  | PNotify => ({| pg_state := pg_state g; pg_changed := pg_changed g + 1; pg_transitions := pg_transitions g |}, PIdle)
  end.

Definition GaugePool : Type := ThreadPool PressureGauge GaugePc.
Definition run_gauge : GaugePool -> list (nat * GaugeChoice) -> GaugePool := run_pool gauge_step.
Definition gauge_pool (callers : nat) : GaugePool := {| cells := gauge_new; threads := replicate callers PIdle |}.

(** [set] by one caller, uninterrupted. *)
Definition gauge_set (g : PressureGauge) (s : ResourcePressure) : PressureGauge * bool :=
  match gauge_step (CallSet s) g PIdle with
  | (g, PCount) => ((gauge_step GaugeGo (gauge_step GaugeGo g PCount).1 PNotify).1, true)
  | (g, _) => (g, false)
  end.

Definition setting (pc : GaugePc) : Z := match pc with PCount | PNotify => 1 | _ => 0 end.

Definition gauge_thread_ok (g : PressureGauge) (pending : Z) (pc : GaugePc) : Prop :=
  match pc with
  | PRecheck w t => t <= pg_changed g
  | PParked w t => t <= pg_changed g /\ (t < pg_changed g \/ keeps_waiting w (gauge_state g) = true \/ 0 < pending)
  | PReturned w seen => keeps_waiting w seen = false
  | _ => True
  end.

Definition gauge_inv (p : GaugePool) : Prop :=
  forall i t, threads p !! i = Some t -> gauge_thread_ok (cells p) (zsum setting (threads p)) t.

Lemma setting_nonneg pc : 0 <= setting pc. Proof. by destruct pc. Qed.

Lemma decode_encode s : decode (encode s) = s. Proof. by destruct s. Qed.

Lemma gauge_step_own ch g n t : gauge_thread_ok g n t ->
  gauge_thread_ok (gauge_step ch g t).1 (n - setting t + setting (gauge_step ch g t).2) (gauge_step ch g t).2.
Proof.
  destruct t as [|w|w|w t|w t|w s| |]; cbn [gauge_step]; try destruct ch; cbn; intros H;
    repeat match goal with |- context [if ?b then _ else _] => destruct b eqn:? end; cbn; try done; try lia; auto.
  all: try destruct w; cbn; try done; rewrite ?Z.sub_0_r, ?Z.add_0_r; tauto || auto.
Qed.

Lemma gauge_step_effect ch g t :
  pg_changed g < pg_changed (gauge_step ch g t).1 \/
  (pg_changed (gauge_step ch g t).1 = pg_changed g /\ setting t <= setting (gauge_step ch g t).2 /\
   (pg_state (gauge_step ch g t).1 = pg_state g \/ 0 < setting (gauge_step ch g t).2)).
Proof.
  destruct t; cbn [gauge_step]; try destruct ch; cbn; try (left; lia); right; split_and!; try done;
    repeat match goal with |- context [if ?b then _ else _] => destruct b eqn:? end; cbn; try lia; auto.
  all: try destruct w; cbn; lia.
Qed.

Lemma gauge_step_inv p i t ch : gauge_inv p -> threads p !! i = Some t ->
  gauge_inv {| cells := (gauge_step ch (cells p) t).1; threads := <[i := (gauge_step ch (cells p) t).2]> (threads p) |}.
Proof.
  intros I Hi j u Hj. cbn [cells threads] in *. rewrite (zsum_insert setting _ _ _ _ Hi).
  destruct (insert_thread_cases _ _ _ _ _ _ Hi Hj) as [[_ ->]|Hju]; [apply gauge_step_own, (I i t Hi)|].
  pose proof (I j u Hju) as Hu. pose proof (zsum_member setting _ _ _ setting_nonneg Hi) as Hm.
  pose proof (gauge_step_effect ch (cells p) t) as He. set (g' := (gauge_step ch (cells p) t).1) in *.
  set (t' := (gauge_step ch (cells p) t).2) in *. destruct u as [|w|w|w k|w k|w s| |]; cbn in *; try done; [lia|].
  destruct Hu as [Hk Hw]. split; [lia|]. destruct He as [?|(Hc & Hset & [Hst|?])]; [left; lia| |right; right; lia].
  rewrite Hc. unfold gauge_state in *. rewrite Hst. destruct Hw as [?|[?|?]]; auto. right; right; lia.
Qed.

(** ** Memory watermarks *)

Record MemoryPlan := {
  mp_total : Z; mp_usable : Z; mp_pressure_enter : Z; mp_pressure_exit : Z; mp_critical_enter : Z; mp_critical_exit : Z
}.

Definition memory_plan_derive (total : Z) : option MemoryPlan :=
  if total =? 0 then None
  else
    let usable := total / 5 * 4 in
    Some {| mp_total := total; mp_usable := usable; mp_pressure_enter := usable / 4 * 3; mp_pressure_exit := total / 2;
            mp_critical_enter := total / 10 * 9; mp_critical_exit := usable |}.

Definition classify (p : MemoryPlan) (current : ResourcePressure) (usage : Z) : ResourcePressure :=
  match current with
  | Normal => if mp_pressure_enter p <=? usage then Pressure else Normal
  | Pressure =>
    if mp_critical_enter p <=? usage then Critical
    else if usage <=? mp_pressure_exit p then Normal
    else Pressure
  | Critical => if usage <=? mp_critical_exit p then Pressure else Critical
  end.

(** [sample_and_publish_pressure]: an unreadable sample keeps the memory state;
    the worse dimension is published. *)
Definition sample_and_publish_pressure (fd : FdPressure) (plan : MemoryPlan) (sample : option Z) (memory_state : ResourcePressure)
    (g : PressureGauge) : ResourcePressure * PressureGauge * bool :=
  let fd_state := pressure_from_fd fd in
  let memory_state := match sample with Some bytes => classify plan memory_state bytes | None => memory_state end in
  let effective := pressure_max fd_state memory_state in
  let '(g, changed) := gauge_set g effective in
  (memory_state, g, changed).

(** ** Claims *)

(** The waits on the pressure gauge neither miss a transition nor return
    early. Under every interleaving of any number of setters and waiters, with
    waits cancelled at any moment: a wait that returned saw a state that ends it,
    and whenever no setter is between its swap and its notification, a parked
    waiter has been notified (its next step re-checks the state) or the state
    still asks it to wait. *)
Theorem gauge_waits_exact (callers : nat) (sched : list (nat * GaugeChoice)) (i : nat) :
  let p := run_gauge (gauge_pool callers) sched in
  match threads p !! i with
  | Some (PReturned w seen) => keeps_waiting w seen = false
  | Some (PParked w ticket) =>
    Forall (fun pc => setting pc = 0) (threads p) ->
    gauge_step GaugeGo (cells p) (PParked w ticket) = (cells p, start_wait w) \/ keeps_waiting w (gauge_state (cells p)) = true
  | _ => True
  end.
Proof.
  intros p. assert (I : gauge_inv p).
  { apply (run_pool_invariant gauge_step (fun _ => True)); [intros; by apply gauge_step_inv| |by apply Forall_forall; intros []].
    by intros j t [-> _]%lookup_replicate_1. }
  destruct (threads p !! i) as [[]|] eqn:Hi; try done; pose proof (I i _ Hi) as Hok; cbn in Hok; [|done].
  intros Hq. rewrite zsum_zero in Hok by (by apply Forall_forall). destruct Hok as [_ [Hl|[?|?]]]; [left|by right|lia].
  cbn. destruct (Z.eqb_spec (pg_changed (cells p)) ticket); [lia|done].
Qed.

Lemma memory_plan_order total p : 64 <= total -> memory_plan_derive total = Some p ->
  mp_pressure_exit p < mp_pressure_enter p /\ mp_pressure_enter p <= mp_critical_exit p /\
  mp_critical_exit p < mp_critical_enter p /\ mp_critical_enter p <= total.
Proof.
  intros Ht. unfold memory_plan_derive. destruct (Z.eqb_spec total 0); [lia|]. intros [= <-]. cbn.
  pose proof (Z.div_mod total 5 ltac:(lia)). pose proof (Z.mod_pos_bound total 5 ltac:(lia)).
  pose proof (Z.div_mod total 2 ltac:(lia)). pose proof (Z.mod_pos_bound total 2 ltac:(lia)).
  pose proof (Z.div_mod total 10 ltac:(lia)). pose proof (Z.mod_pos_bound total 10 ltac:(lia)).
  rewrite Z.div_mul by lia. lia.
Qed.

(** Memory pressure has hysteresis. For a plan derived from any total of at
    least 64 bytes the watermarks are strictly ordered (exit below enter below
    critical exit below critical enter, within the total); two samples at one
    usage settle the state, whatever it was; and a move costs a real change of
    usage: between leaving and re-entering pressure, or critical pressure, usage
    must rise from the exit to the enter watermark. *)
Theorem memory_hysteresis (total usage again : Z) (p : MemoryPlan) (s : ResourcePressure) :
  64 <= total -> memory_plan_derive total = Some p ->
  (mp_pressure_exit p < mp_pressure_enter p /\ mp_pressure_enter p <= mp_critical_exit p < mp_critical_enter p /\
   mp_critical_enter p <= total) /\
  classify p (classify p (classify p s usage) usage) usage = classify p (classify p s usage) usage /\
  (pressure_rank (classify p s usage) < pressure_rank s -> pressure_rank s <= pressure_rank (classify p (classify p s usage) again) ->
   mp_pressure_enter p - mp_pressure_exit p <= again - usage \/ mp_critical_enter p - mp_critical_exit p <= again - usage).
Proof.
  intros Ht Hp. destruct (memory_plan_order total p Ht Hp) as (H1 & H2 & H3 & H4). split; [lia|]. unfold classify.
  split; destruct s; repeat match goal with |- context [?a <=? ?b] => destruct (Z.leb_spec a b) end; cbn; try done; lia.
Qed.

(** The monitor publishes the worse dimension: after a publication the gauge
    shows the larger of the two states, it reports a change exactly when the
    published state moved, and an unreadable sample leaves the memory dimension
    alone. *)
Lemma publish_spec fd plan sample memory_state g : 0 <= pg_state g <= 2 ->
  let '(m, g', changed) := sample_and_publish_pressure fd plan sample memory_state g in
  gauge_state g' = pressure_max (pressure_from_fd fd) m /\ (sample = None -> m = memory_state) /\
  changed = negb (bool_decide (gauge_state g' = gauge_state g)).
Proof.
  intros Hr. unfold sample_and_publish_pressure, gauge_set. cbn [gauge_step].
  set (m := match sample with Some bytes => classify plan memory_state bytes | None => memory_state end).
  set (e := pressure_max (pressure_from_fd fd) m). destruct (Z.eqb_spec (pg_state g) (encode e)) as [He|He]; cbn [pg_state].
  - unfold gauge_state. cbn [pg_state]. rewrite He, decode_encode. split_and!; [done|by intros ->|by rewrite bool_decide_eq_true_2].
  - cbn. unfold gauge_state. cbn [pg_state]. rewrite decode_encode. split_and!; [done|by intros ->|].
    rewrite bool_decide_eq_false_2; [done|]. intros Heq. apply He. rewrite Heq. unfold decode.
    destruct (Z.eqb_spec (pg_state g) 1) as [->|]; [done|]. destruct (Z.eqb_spec (pg_state g) 2) as [->|]; [done|]. cbn. lia.
Qed.
