(* ===== verification/FdPlan.v ===== *)
(** The descriptor plan and the machine view (src/runtime/fd_plan.rs and the pure
    parts of src/runtime/machine.rs).

    [fd_plan_derive] turns a measured [RLIMIT_NOFILE] into a dynamic budget, or
    refuses to start; [effective_cpus], [assemble] and [tenancy_boundary_observable]
    combine the readings of the kernel and of the cgroup files, which are taken as
    given. *)
From stdpp Require Import base strings.
From S2P Require Import Prelude.
#[local] Open Scope Z_scope.

(** ** Descriptor budget plan *)

Record FixedFdReserve := { fr_listeners : Z; fr_logger : Z; fr_runtime : Z; fr_resolver : Z; fr_emergency : Z }.

Definition STANDARD_STREAMS : Z := 3.
Definition LOGGER_SINK : Z := 1.
Definition RUNTIME_DESCRIPTORS : Z := 16.
Definition RESOLVER_DESCRIPTORS : Z := 32.

Definition fixed_reserve_new (listeners : Z) : FixedFdReserve :=
  {| fr_listeners := listeners; fr_logger := STANDARD_STREAMS + LOGGER_SINK; fr_runtime := RUNTIME_DESCRIPTORS;
     fr_resolver := RESOLVER_DESCRIPTORS; fr_emergency := listeners |}.

Definition reserve_total (r : FixedFdReserve) : Z :=
  saturating_add_u64 (saturating_add_u64 (saturating_add_u64 (saturating_add_u64 (fr_listeners r) (fr_logger r)) (fr_runtime r))
    (fr_resolver r)) (fr_emergency r).

Definition MINIMUM_DYNAMIC_UNITS : Z := 64.
Definition MAXIMUM_PLANNED_SOFT_LIMIT : Z := 1048576.

Inductive FdHeadroomPolicy := HeadroomStandard | HeadroomDedicated.

Definition headroom (policy : FdHeadroomPolicy) (planned_soft : Z) : Z :=
  let divisor := match policy with HeadroomStandard => 16 | HeadroomDedicated => 10 end in
  let fraction := planned_soft / divisor in
  if 64 <? fraction then fraction else 64.

Record FdBudgetPlan := {
  fp_soft_limit : Z; fp_hard_limit : Z; fp_fixed_reserve : FixedFdReserve; fp_safety_headroom : Z;
  fp_effective_budget : Z; fp_theoretical_peak : Z
}.

Inductive FdBudgetError := LimitTooLow (soft_limit hard_limit required : Z).

Definition planned_soft (soft_limit : Z) : Z :=
  if MAXIMUM_PLANNED_SOFT_LIMIT <? soft_limit then MAXIMUM_PLANNED_SOFT_LIMIT else soft_limit.

Definition fd_plan_derive (soft_limit hard_limit : Z) (fixed_reserve : FixedFdReserve) (theoretical_peak : Z)
    (headroom_policy : FdHeadroomPolicy) : result FdBudgetError FdBudgetPlan :=
  let planned_soft := planned_soft soft_limit in
  let reserve := reserve_total fixed_reserve in
  let safety_headroom := headroom headroom_policy planned_soft in
  let required := saturating_add_u64 (saturating_add_u64 reserve safety_headroom) MINIMUM_DYNAMIC_UNITS in
  if planned_soft <? required then Err (LimitTooLow soft_limit hard_limit required)
  else Ok {| fp_soft_limit := soft_limit; fp_hard_limit := hard_limit; fp_fixed_reserve := fixed_reserve;
             fp_safety_headroom := safety_headroom;
             fp_effective_budget := saturating_sub (saturating_sub planned_soft reserve) safety_headroom;
             fp_theoretical_peak := theoretical_peak |}.

Definition is_clamped (p : FdBudgetPlan) : bool := fp_effective_budget p <? fp_theoretical_peak p.

Definition recommended_soft_limit (p : FdBudgetPlan) : Z :=
  saturating_add_u64 (saturating_add_u64 (fp_theoretical_peak p) (reserve_total (fp_fixed_reserve p))) (fp_safety_headroom p).

(** ** The machine view *)

Record MachineReport := {
  fd_soft_limit : Z; fd_hard_limit : Z; memlock_soft_limit : Z; memlock_hard_limit : Z; available_cpus : Z;
  cpu_quota_us : option Z; cpu_period_us : option Z; cpuset_effective : option string; memory_source : string;
  memory_current : option Z; memory_high : option Z; memory_max : option Z; memory_total : Z
}.

Record CgroupReading := {
  cg_cpu_quota_us : option Z; cg_cpu_period_us : option Z; cg_cpuset_effective : option string;
  cg_memory_current : option Z; cg_memory_high : option Z; cg_memory_max : option Z
}.

Definition conservative : MachineReport :=
  {| fd_soft_limit := 1024; fd_hard_limit := 1024; memlock_soft_limit := 0; memlock_hard_limit := 0; available_cpus := 1;
     cpu_quota_us := None; cpu_period_us := None; cpuset_effective := None; memory_source := "unavailable";
     memory_current := None; memory_high := None; memory_max := None; memory_total := 0 |}.

Definition effective_memory_total (cgroup_max meminfo_total : option Z) : Z :=
  match cgroup_max, meminfo_total with
  | Some max, Some total => Z.min max total
  | Some max, None => max
  | None, Some total => total
  | None, None => 0
  end.

Definition assemble_report (fd memlock : option (Z * Z)) (meminfo_total : option Z) (cgroup : option CgroupReading)
    (available_cpus : Z) : MachineReport :=
  let '(memory_source, memory_total) :=
    match cgroup, meminfo_total with
    | Some reading, _ => ("cgroup_v2", effective_memory_total (cg_memory_max reading) meminfo_total)
    | None, Some total => ("proc_meminfo", total)
    | None, None => ("unavailable", 0)
    end in
  {| fd_soft_limit := from_option fst (fd_soft_limit conservative) fd;
     fd_hard_limit := from_option snd (fd_hard_limit conservative) fd;
     memlock_soft_limit := from_option fst 0 memlock; memlock_hard_limit := from_option snd 0 memlock;
     available_cpus := available_cpus;
     cpu_quota_us := cgroup ≫= cg_cpu_quota_us; cpu_period_us := cgroup ≫= cg_cpu_period_us;
     cpuset_effective := cgroup ≫= cg_cpuset_effective; memory_source := memory_source;
     memory_current := cgroup ≫= cg_memory_current; memory_high := cgroup ≫= cg_memory_high;
     memory_max := cgroup ≫= cg_memory_max; memory_total := memory_total |}.

Definition effective_cpus (m : MachineReport) : Z :=
  let quota :=
    match cpu_quota_us m, cpu_period_us m with
    | Some quota, Some period =>
      if 0 <? period then try_from USIZE_MAX (saturating_add_u64 quota (period - 1) / period) else None
    | _, _ => None
    end in
  match quota with Some count => Z.min (available_cpus m) (Z.max count 1) | None => available_cpus m end.

Definition tenancy_boundary_observable (m : MachineReport) : bool :=
  match cpu_quota_us m, memory_max m with Some _, Some _ => true | _, _ => false end.

Definition soft_limit_raise_target (soft hard : Z) : option Z := if soft <? hard then Some hard else None.

(** ** Claims *)

Lemma headroom_bounds policy n : 64 <= headroom policy n.
Proof. unfold headroom. destruct policy; destruct (Z.ltb_spec 64 (n / 16)), (Z.ltb_spec 64 (n / 10)); cbn; lia. Qed.

(** The descriptor plan never promises what the limit does not hold. For any
    measured limits, reserve and peak: either the plan is refused, exactly when
    the planned limit (the soft limit, capped at 1048576) is below reserve,
    headroom and the 64-unit minimum, and the error names that requirement; or
    the dynamic budget is at least 64 and budget, fixed reserve and headroom add
    up to exactly the planned limit, which is at most the soft limit. *)
Theorem fd_plan_sound (soft hard peak : Z) (r : FixedFdReserve) (policy : FdHeadroomPolicy) :
  0 <= soft ->
  match fd_plan_derive soft hard r peak policy with
  | Ok p => MINIMUM_DYNAMIC_UNITS <= fp_effective_budget p /\
      fp_effective_budget p + reserve_total r + fp_safety_headroom p = planned_soft soft /\ planned_soft soft <= soft /\
      fp_theoretical_peak p = peak
  | Err (LimitTooLow s h required) => s = soft /\ h = hard /\ planned_soft soft < required /\
      required <= reserve_total r + headroom policy (planned_soft soft) + MINIMUM_DYNAMIC_UNITS
  | Panic => False
  end.
Proof.
  intros Hs. unfold fd_plan_derive. set (ps := planned_soft soft). set (res := reserve_total r).
  pose proof (headroom_bounds policy ps) as Hh. set (hr := headroom policy ps) in *.
  assert (Hps : ps <= soft /\ ps <= MAXIMUM_PLANNED_SOFT_LIMIT).
  { subst ps. unfold planned_soft. destruct (Z.ltb_spec MAXIMUM_PLANNED_SOFT_LIMIT soft); lia. }
  unfold MINIMUM_DYNAMIC_UNITS, MAXIMUM_PLANNED_SOFT_LIMIT, U64_MAX in *.
  destruct (Z.ltb_spec ps (saturating_add_u64 (saturating_add_u64 res hr) 64)) as [Hlt|Hge];
    unfold saturating_add_u64, U64_MAX in *; [split_and!; try done; lia|].
  cbn. unfold saturating_sub. subst res. lia.
Qed.

(** The recommendation does not avoid the clamp: it adds the headroom of the
    limit that was measured, and the headroom grows with the limit. Following the
    advice of the clamped 1024 plan yields a plan that is clamped again. *)
Theorem recommendation_still_clamped :
  exists p q, fd_plan_derive 1024 1048576 (fixed_reserve_new 1) 24000 HeadroomStandard = Ok p /\ is_clamped p = true /\
    recommended_soft_limit p = 24118 /\
    fd_plan_derive (recommended_soft_limit p) 1048576 (fixed_reserve_new 1) 24000 HeadroomStandard = Ok q /\ is_clamped q = true.
Proof. eexists _, _. split_and!; reflexivity. Qed.

(** The CPU count of a plan is between one and the visible CPUs, and a quota of
    [q] per period allows exactly the CPUs it pays for, rounded up. *)
Lemma effective_cpus_spec m : 1 <= available_cpus m <= USIZE_MAX ->
  1 <= effective_cpus m <= available_cpus m /\
  (forall q p, cpu_quota_us m = Some q -> cpu_period_us m = Some p -> 0 < p -> 0 <= q -> q + p <= U64_MAX ->
    effective_cpus m = Z.min (available_cpus m) (Z.max 1 (div_ceil q p))).
Proof.
  intros Ha. split.
  - unfold effective_cpus. repeat case_match; lia.
  - intros q p Hq Hp H0 Hq0 Hf. unfold effective_cpus. rewrite Hq, Hp. destruct (Z.ltb_spec 0 p); [|lia].
    unfold saturating_add_u64. rewrite Z.min_r by lia. unfold div_ceil. replace (q + (p - 1)) with (q + p - 1) by lia.
    assert (Hr : 0 <= (q + p - 1) / p <= USIZE_MAX).
    { split; [apply Z.div_pos; lia|]. unfold USIZE_MAX. transitivity (q + p - 1); [|lia]. apply Z.div_le_upper_bound; nia. }
    rewrite (proj2 (try_from_some USIZE_MAX _ _) (conj eq_refl Hr)). lia.
Qed.
