(* ===== verification/Policy.v ===== *)
(** The startup policy (src/runtime/policy.rs and src/runtime/plan).

    The derivation of every admission, dialling and relay limit from the machine:
    the balanced derivation, the objective scaling, the caps and the floors in the
    order of the code, then the operator's pins with the provenance report.
    [linux] stands for the compile-time [cfg!(target_os = "linux")]. A multiplier
    is reported as the fraction it is computed from. *)
From stdpp Require Import base list strings.
From S2P Require Import Prelude FdPlan.
#[local] Open Scope Z_scope.

(** ** Policy *)

Record ResourceGovernorPolicy := {
  max_connections : Z; max_handshakes : Z; max_pre_auth_idle_connections : Z; max_fallbacks : Z; max_crypto_operations : Z;
  max_replay_entries : Z; max_dns_lookups : Z; replay_retention_ms : Z; client_hello_timeout_ms : Z; handshake_timeout_ms : Z;
  connect_timeout_ms : Z; fallback_timeout_ms : Z
}.

Definition governor_default : ResourceGovernorPolicy :=
  {| max_connections := 16384; max_handshakes := 1024; max_pre_auth_idle_connections := 1024; max_fallbacks := 512;
     max_crypto_operations := 128; max_replay_entries := 65536; max_dns_lookups := 64; replay_retention_ms := 120000;
     client_hello_timeout_ms := 3000; handshake_timeout_ms := 10000; connect_timeout_ms := 10000; fallback_timeout_ms := 120000 |}.

Record DirectBarrierPolicy := { max_concurrent : Z; max_per_second : Z }.
Definition barrier_default : DirectBarrierPolicy := {| max_concurrent := 2048; max_per_second := 4096 |}.

Record RelayPolicy := {
  buffer_bytes : Z; max_pooled_buffers : Z; max_splice_relays : Z; max_relay_memory_bytes : Z; splice : bool; pipe_pool : bool;
  max_pooled_pipes : Z
}.
Definition relay_default : RelayPolicy :=
  {| buffer_bytes := 32 * 1024; max_pooled_buffers := 4096; max_splice_relays := 256; max_relay_memory_bytes := 536870912;
     splice := true; pipe_pool := true; max_pooled_pipes := 256 |}.

Record WarmConnectionPolicy := {
  min_ready : Z; max_ready : Z; max_connecting : Z; refill_batch : Z; idle_timeout_ms : Z; max_lifetime_ms : Z; shrink_delay_ms : Z
}.
Definition warm_default : WarmConnectionPolicy :=
  {| min_ready := 4; max_ready := 256; max_connecting := 64; refill_batch := 16; idle_timeout_ms := 30000;
     max_lifetime_ms := 300000; shrink_delay_ms := 30000 |}.

Record EffectivePolicy := {
  governor : ResourceGovernorPolicy; direct_barrier : DirectBarrierPolicy; relay : RelayPolicy; warm_connections : WarmConnectionPolicy
}.
Definition policy_default : EffectivePolicy :=
  {| governor := governor_default; direct_barrier := barrier_default; relay := relay_default; warm_connections := warm_default |}.

Inductive ResourceMode := Standard | Dedicated.
Inductive RuntimeProfile := Auto | Shared | DedicatedProfile.

Definition resolve_resource_mode (profile : RuntimeProfile) (m : MachineReport) : ResourceMode :=
  match profile with
  | Shared => Standard
  | DedicatedProfile => Dedicated
  | Auto => if tenancy_boundary_observable m then Dedicated else Standard
  end.

Inductive Objective := Latency | Balanced | Throughput.

Record LimitOverrides := {
  ov_max_connections : option Z; ov_max_handshakes : option Z; ov_client_hello_timeout_ms : option Z;
  ov_handshake_timeout_ms : option Z; ov_connect_timeout_ms : option Z; ov_fallback_timeout_ms : option Z;
  ov_splice : option bool; ov_pipe_pool : option bool
}.
Definition no_overrides : LimitOverrides :=
  {| ov_max_connections := None; ov_max_handshakes := None; ov_client_hello_timeout_ms := None; ov_handshake_timeout_ms := None;
     ov_connect_timeout_ms := None; ov_fallback_timeout_ms := None; ov_splice := None; ov_pipe_pool := None |}.

(** ** Inputs *)

Definition MEBIBYTE : Z := 1024 * 1024.

Record MachineCapabilities := {
  mc_logical_cpus : Z; mc_effective_cpus : Z; mc_fd_soft_limit : Z; mc_fd_hard_limit : Z; mc_memory_source : string;
  mc_memory_total_bytes : Z; mc_memory_current_bytes : option Z; mc_cpu_quota_microseconds : option Z;
  mc_cpu_period_microseconds : option Z
}.

Definition from_report (r : MachineReport) : MachineCapabilities :=
  {| mc_logical_cpus := available_cpus r; mc_effective_cpus := effective_cpus r; mc_fd_soft_limit := fd_soft_limit r;
     mc_fd_hard_limit := fd_hard_limit r; mc_memory_source := memory_source r; mc_memory_total_bytes := memory_total r;
     mc_memory_current_bytes := memory_current r; mc_cpu_quota_microseconds := cpu_quota_us r;
     mc_cpu_period_microseconds := cpu_period_us r |}.

Record SafetyLimits := {
  sl_max_planned_fds : Z; sl_max_connections : Z; sl_max_splice_relays : Z; sl_max_pooled_buffers : Z;
  sl_planned_connection_bytes : Z; sl_pipe_pair_memory_bytes : Z
}.

Definition limits_default : SafetyLimits :=
  {| sl_max_planned_fds := 1048576; sl_max_connections := 262144; sl_max_splice_relays := 8192; sl_max_pooled_buffers := 65536;
     sl_planned_connection_bytes := 64 * 1024; sl_pipe_pair_memory_bytes := 2 * 512 * 1024 |}.

Definition headroom_divisor (mode : ResourceMode) : Z := match mode with Standard => 16 | Dedicated => 10 end.

Definition relay_memory_budget (memory_total_bytes : Z) : Z :=
  if memory_total_bytes =? 0 then 256 * MEBIBYTE
  else clamp (16 * MEBIBYTE) (2 * 1024 * MEBIBYTE) (memory_total_bytes / 8).

Definition connection_memory_limit (l : SafetyLimits) (memory_total_bytes : Z) (mode : ResourceMode) : Z :=
  if memory_total_bytes =? 0 then sl_max_connections l
  else
    let budget := match mode with Standard => saturating_mul_u64 memory_total_bytes 3 / 8 | Dedicated => memory_total_bytes / 2 end in
    Z.max (budget / sl_planned_connection_bytes l) 64.

(** ** Derivation *)

Definition DEFAULT_BUFFER_BYTES : Z := 32 * 1024.

Definition to_u32 (v : Z) : Z := default U32_MAX (try_from U32_MAX v).

Section Derive.
Context (linux : bool).

Definition derive_balanced (c : MachineCapabilities) (limits : SafetyLimits) (mode : ResourceMode) (listener_count : Z)
    (ov : LimitOverrides) : EffectivePolicy :=
  let timeouts := governor_default in
  let cpus := Z.max (mc_effective_cpus c) 1 in
  let selected_limit := Z.min (match mode with Standard => mc_fd_soft_limit c | Dedicated => mc_fd_hard_limit c end) (sl_max_planned_fds limits) in
  let headroom := Z.max (selected_limit / headroom_divisor mode) 64 in
  let fixed := saturating_add_u64 (saturating_mul_u64 listener_count 2) (3 + 1 + 16 + 32) in
  let dynamic_fds := Z.max (saturating_sub (saturating_sub selected_limit headroom) fixed) 64 in
  let relay_budget := relay_memory_budget (mc_memory_total_bytes c) in
  let desired_splice := clamp 1 (sl_max_splice_relays limits) (saturating_mul_u64 cpus 256) in
  let memory_splice := Z.max (relay_budget / 2 / (2 * sl_pipe_pair_memory_bytes limits)) 1 in
  let splice_relays := Z.max (Z.min (Z.min desired_splice (dynamic_fds / 12)) memory_splice) 1 in
  let pooled_pipes := saturating_mul_u64 splice_relays 2 in
  let accelerator_fds := saturating_add_u64 (saturating_mul_u64 splice_relays 4) (saturating_mul_u64 pooled_pipes 2) in
  let fd_connection_limit := saturating_sub dynamic_fds accelerator_fds / 2 in
  let memory_connection_limit := connection_memory_limit limits (mc_memory_total_bytes c) mode in
  let connections := clamp 64 (sl_max_connections limits) (Z.min fd_connection_limit memory_connection_limit) in
  let bytes := DEFAULT_BUFFER_BYTES in
  let pipe_memory := saturating_mul_u64 pooled_pipes (sl_pipe_pair_memory_bytes limits) in
  let buffer_memory := Z.max (saturating_sub relay_budget pipe_memory) (2 * bytes) in
  let pooled_buffers := Z.min (clamp 2 (sl_max_pooled_buffers limits) (buffer_memory / bytes)) (saturating_mul_u64 connections 2) in
  let relay_memory := saturating_add_u64 pipe_memory (saturating_mul_u64 pooled_buffers bytes) in
  let handshakes := Z.max (Z.min (saturating_mul_u64 cpus 128) connections) 1 in
  let crypto_operations := Z.max (Z.min (saturating_mul_u64 cpus 32) handshakes) 1 in
  let fallbacks := Z.min connections (Z.max (saturating_mul_u64 cpus 128) 64) in
  let dns_lookups := Z.min connections (Z.max (saturating_mul_u64 cpus 32) 16) in
  let replay_entries := clamp 1024 1000000 (saturating_mul_u64 connections 4) in
  let direct_concurrent := Z.min connections (Z.max (saturating_mul_u64 cpus 512) 64) in
  let direct_per_second := clamp 64 U32_MAX (saturating_mul_u64 cpus 2048) in
  let warm_max_ready := Z.min (clamp 1 4096 (saturating_mul_u64 cpus 32)) connections in
  let warm_max_connecting := Z.min (clamp 1 1024 (saturating_mul_u64 cpus 8)) warm_max_ready in
  {| governor := {|
       max_connections := to_u32 connections; max_handshakes := to_u32 handshakes;
       max_pre_auth_idle_connections := to_u32 (Z.min handshakes connections); max_fallbacks := to_u32 fallbacks;
       max_crypto_operations := to_u32 crypto_operations; max_replay_entries := to_u32 replay_entries;
       max_dns_lookups := to_u32 dns_lookups; replay_retention_ms := replay_retention_ms timeouts;
       client_hello_timeout_ms := default (client_hello_timeout_ms timeouts) (ov_client_hello_timeout_ms ov);
       handshake_timeout_ms := default (handshake_timeout_ms timeouts) (ov_handshake_timeout_ms ov);
       connect_timeout_ms := default (connect_timeout_ms timeouts) (ov_connect_timeout_ms ov);
       fallback_timeout_ms := default (fallback_timeout_ms timeouts) (ov_fallback_timeout_ms ov) |};
     direct_barrier := {| max_concurrent := to_u32 direct_concurrent; max_per_second := to_u32 direct_per_second |};
     relay := {|
       buffer_bytes := bytes; max_pooled_buffers := default 65536 (try_from USIZE_MAX pooled_buffers);
       max_splice_relays := to_u32 (Z.min splice_relays connections); max_relay_memory_bytes := relay_memory;
       splice := linux; pipe_pool := linux; max_pooled_pipes := if linux then to_u32 pooled_pipes else 0 |};
     warm_connections := {|
       min_ready := Z.min (min_ready warm_default) (to_u32 warm_max_ready); max_ready := to_u32 warm_max_ready;
       max_connecting := to_u32 warm_max_connecting;
       refill_batch := Z.min (refill_batch warm_default) (to_u32 warm_max_connecting);
       idle_timeout_ms := idle_timeout_ms warm_default; max_lifetime_ms := max_lifetime_ms warm_default;
       shrink_delay_ms := shrink_delay_ms warm_default |} |}.
End Derive.

(** ** Objective *)

Record ObjectiveMultipliers := {
  m_connections : Z * Z; m_fallbacks : Z * Z; m_direct_concurrent : Z * Z; m_direct_per_second : Z * Z; m_pooled_buffers : Z * Z;
  m_splice_relays : Z * Z; m_relay_memory : Z * Z; m_buffer_tier_shift : Z
}.

Definition multipliers (o : Objective) : ObjectiveMultipliers :=
  match o with
  | Latency =>
    {| m_connections := (1, 2); m_fallbacks := (1, 2); m_direct_concurrent := (1, 2); m_direct_per_second := (1, 2);
       m_pooled_buffers := (1, 2); m_splice_relays := (1, 1); m_relay_memory := (3, 4); m_buffer_tier_shift := -1 |}
  | Balanced =>
    {| m_connections := (1, 1); m_fallbacks := (1, 1); m_direct_concurrent := (1, 1); m_direct_per_second := (1, 1);
       m_pooled_buffers := (1, 1); m_splice_relays := (1, 1); m_relay_memory := (1, 1); m_buffer_tier_shift := 0 |}
  | Throughput =>
    {| m_connections := (3, 2); m_fallbacks := (1, 1); m_direct_concurrent := (3, 2); m_direct_per_second := (2, 1);
       m_pooled_buffers := (2, 1); m_splice_relays := (2, 1); m_relay_memory := (3, 2); m_buffer_tier_shift := 1 |}
  end.

Definition scale (value : Z) (m : Z * Z) : Z := saturating_mul_u64 value m.1 / m.2.

Definition TIERS : list Z := [16 * 1024; 32 * 1024; 64 * 1024].

Fixpoint tier_position (tiers : list Z) (bytes : Z) : option Z :=
  match tiers with [] => None | t :: tiers => if bytes <=? t then Some 0 else Z.succ <$> tier_position tiers bytes end.

Definition shift_buffer_tier (bytes shift : Z) : Z :=
  let index := default (len TIERS - 1) (tier_position TIERS bytes) in
  let shifted := clamp 0 (len TIERS - 1) (index + shift) in
  default 0 (TIERS !! Z.to_nat shifted).

Definition scale_for_objective (balanced : EffectivePolicy) (objective : Objective) (limits : SafetyLimits) (c : MachineCapabilities)
    : EffectivePolicy :=
  match objective with
  | Balanced => balanced
  | _ =>
    let m := multipliers objective in
    let g := governor balanced in
    let connections := clamp 64 (sl_max_connections limits) (scale (max_connections g) (m_connections m)) in
    let handshakes := Z.max (Z.min (max_handshakes g) connections) 1 in
    let pre_auth_idle := Z.max (Z.min (max_pre_auth_idle_connections g) connections) 1 in
    let crypto_operations := Z.max (Z.min (max_crypto_operations g) handshakes) 1 in
    let fallbacks := Z.max (Z.min (scale (max_fallbacks g) (m_fallbacks m)) connections) 1 in
    let dns_lookups := Z.max (Z.min (max_dns_lookups g) connections) 1 in
    let replay_entries := clamp 1024 1000000 (saturating_mul_u64 connections 4) in
    let direct_concurrent := Z.max (Z.min (scale (max_concurrent (direct_barrier balanced)) (m_direct_concurrent m)) connections) 1 in
    let direct_per_second := clamp 64 U32_MAX (scale (max_per_second (direct_barrier balanced)) (m_direct_per_second m)) in
    let bytes := shift_buffer_tier (buffer_bytes (relay balanced)) (m_buffer_tier_shift m) in
    let splice_relays := Z.min (clamp 1 (sl_max_splice_relays limits) (scale (max_splice_relays (relay balanced)) (m_splice_relays m))) connections in
    let pooled_pipes := if max_pooled_pipes (relay balanced) =? 0 then 0 else saturating_mul_u64 splice_relays 2 in
    let pooled_buffers :=
      Z.min (clamp 2 (sl_max_pooled_buffers limits) (scale (max_pooled_buffers (relay balanced)) (m_pooled_buffers m)))
        (saturating_mul_u64 connections 2) in
    let pipe_memory := saturating_mul_u64 pooled_pipes (sl_pipe_pair_memory_bytes limits) in
    let required_memory := saturating_add_u64 pipe_memory (saturating_mul_u64 pooled_buffers bytes) in
    let relay_memory := Z.max (scale (max_relay_memory_bytes (relay balanced)) (m_relay_memory m)) required_memory in
    let memory_cap := mc_memory_total_bytes c / 4 in
    let '(pooled_buffers, relay_memory) :=
      if (0 <? mc_memory_total_bytes c) && (memory_cap <? relay_memory) then
        let relay_memory := Z.max memory_cap (saturating_add_u64 pipe_memory (2 * bytes)) in
        let pooled_buffers :=
          Z.min (clamp 2 (sl_max_pooled_buffers limits) (saturating_sub relay_memory pipe_memory / bytes)) (saturating_mul_u64 connections 2) in
        (pooled_buffers, Z.max relay_memory (saturating_add_u64 pipe_memory (saturating_mul_u64 pooled_buffers bytes)))
      else (pooled_buffers, relay_memory) in
    {| governor := {|
         max_connections := to_u32 connections; max_handshakes := to_u32 handshakes;
         max_pre_auth_idle_connections := to_u32 pre_auth_idle; max_fallbacks := to_u32 fallbacks;
         max_crypto_operations := to_u32 crypto_operations; max_replay_entries := to_u32 replay_entries;
         max_dns_lookups := to_u32 dns_lookups; replay_retention_ms := replay_retention_ms g;
         client_hello_timeout_ms := client_hello_timeout_ms g; handshake_timeout_ms := handshake_timeout_ms g;
         connect_timeout_ms := connect_timeout_ms g; fallback_timeout_ms := fallback_timeout_ms g |};
       direct_barrier := {| max_concurrent := to_u32 direct_concurrent; max_per_second := to_u32 direct_per_second |};
       relay := {|
         buffer_bytes := bytes; max_pooled_buffers := default 65536 (try_from USIZE_MAX pooled_buffers);
         max_splice_relays := to_u32 splice_relays; max_relay_memory_bytes := relay_memory; splice := splice (relay balanced);
         pipe_pool := pipe_pool (relay balanced); max_pooled_pipes := to_u32 pooled_pipes |};
       warm_connections := warm_connections balanced |}
  end.

Record PlannedPolicy := { plan_policy : EffectivePolicy; plan_hard_bounds : EffectivePolicy }.

Definition derive (linux : bool) (c : MachineCapabilities) (limits : SafetyLimits) (mode : ResourceMode) (objective : Objective)
    (listener_count : Z) (ov : LimitOverrides) : PlannedPolicy :=
  let policy := derive_balanced linux c limits mode listener_count ov in
  {| plan_policy := scale_for_objective policy objective limits c; plan_hard_bounds := policy |}.

(** ** Resolution *)

Inductive FieldSource := Derived | Pinned | DefaultValue.

Record FieldResolution := {
  field : string; value : Z; source : FieldSource; multiplier : option (Z * Z); floor : option Z; cap : option Z
}.

Record PolicyResolution := { pr_policy : EffectivePolicy; pr_fields : list FieldResolution; pr_plan : option PlannedPolicy }.

(** [resolve_field!]: the pin, or the derived value with its multiplier. *)
Definition resolve_field (path : string) (pin : option Z) (derived : Z) (mult : option (Z * Z)) (fl cp : option Z) : FieldResolution :=
  match pin with
  | Some pinned => {| field := path; value := pinned; source := Pinned; multiplier := None; floor := fl; cap := cp |}
  | None => {| field := path; value := derived; source := Derived; multiplier := mult; floor := fl; cap := cp |}
  end.

(** [resolve_carried!]: the pin, or the built-in default. *)
Definition resolve_carried (path : string) (pin : option Z) (dflt : Z) : FieldResolution :=
  match pin with
  | Some pinned => {| field := path; value := pinned; source := Pinned; multiplier := None; floor := None; cap := None |}
  | None => {| field := path; value := dflt; source := DefaultValue; multiplier := None; floor := None; cap := None |}
  end.

Definition bool_value (b : bool) : Z := if b then 1 else 0.

Definition resolve_policy (linux : bool) (ov : LimitOverrides) (objective : Objective) (machine : MachineReport) (mode : ResourceMode)
    (listener_count : Z) : PolicyResolution :=
  let plan := derive linux (from_report machine) limits_default mode objective listener_count ov in
  let d := plan_policy plan in
  let dg := governor d in
  let m := multipliers objective in
  let bounds := limits_default in
  let effective := {|
    governor := {|
      max_connections := default (max_connections dg) (ov_max_connections ov);
      max_handshakes := default (max_handshakes dg) (ov_max_handshakes ov);
      max_pre_auth_idle_connections := max_pre_auth_idle_connections dg; max_fallbacks := max_fallbacks dg;
      max_crypto_operations := max_crypto_operations dg; max_replay_entries := max_replay_entries dg;
      max_dns_lookups := max_dns_lookups dg; replay_retention_ms := replay_retention_ms governor_default;
      client_hello_timeout_ms := default (client_hello_timeout_ms governor_default) (ov_client_hello_timeout_ms ov);
      handshake_timeout_ms := default (handshake_timeout_ms governor_default) (ov_handshake_timeout_ms ov);
      connect_timeout_ms := default (connect_timeout_ms governor_default) (ov_connect_timeout_ms ov);
      fallback_timeout_ms := default (fallback_timeout_ms governor_default) (ov_fallback_timeout_ms ov) |};
    direct_barrier := direct_barrier d;
    relay := {|
      buffer_bytes := buffer_bytes (relay d); max_pooled_buffers := max_pooled_buffers (relay d);
      max_splice_relays := max_splice_relays (relay d); max_relay_memory_bytes := max_relay_memory_bytes (relay d);
      splice := default (splice (relay d)) (ov_splice ov);
      pipe_pool := default (pipe_pool (relay d)) (ov_pipe_pool ov) && default (splice (relay d)) (ov_splice ov);
      max_pooled_pipes := max_pooled_pipes (relay d) |};
    warm_connections := warm_connections d |} in
  let fields := [
    resolve_field "governor.maxConnections" (ov_max_connections ov) (max_connections dg) (Some (m_connections m)) (Some 64) (Some (sl_max_connections bounds));
    resolve_field "governor.maxHandshakes" (ov_max_handshakes ov) (max_handshakes dg) (Some (1, 1)) (Some 1) None;
    resolve_field "governor.maxPreAuthIdleConnections" None (max_pre_auth_idle_connections dg) (Some (1, 1)) (Some 1) None;
    resolve_field "governor.maxFallbacks" None (max_fallbacks dg) (Some (m_fallbacks m)) (Some 1) None;
    resolve_field "governor.maxCryptoOperations" None (max_crypto_operations dg) (Some (1, 1)) (Some 1) None;
    resolve_field "governor.maxReplayEntries" None (max_replay_entries dg) (Some (1, 1)) (Some 1024) (Some 1000000);
    resolve_field "governor.maxDnsLookups" None (max_dns_lookups dg) (Some (1, 1)) (Some 16) None;
    resolve_carried "governor.replayRetentionMs" None (replay_retention_ms governor_default);
    resolve_carried "governor.clientHelloTimeoutMs" (ov_client_hello_timeout_ms ov) (client_hello_timeout_ms governor_default);
    resolve_carried "governor.handshakeTimeoutMs" (ov_handshake_timeout_ms ov) (handshake_timeout_ms governor_default);
    resolve_carried "governor.connectTimeoutMs" (ov_connect_timeout_ms ov) (connect_timeout_ms governor_default);
    resolve_carried "governor.fallbackTimeoutMs" (ov_fallback_timeout_ms ov) (fallback_timeout_ms governor_default);
    resolve_field "directBarrier.maxConcurrent" None (max_concurrent (direct_barrier d)) (Some (m_direct_concurrent m)) (Some 64) None;
    resolve_field "directBarrier.maxPerSecond" None (max_per_second (direct_barrier d)) (Some (m_direct_per_second m)) (Some 64) None;
    resolve_field "relay.bufferBytes" None (buffer_bytes (relay d)) None None None;
    resolve_field "relay.maxPooledBuffers" None (max_pooled_buffers (relay d)) (Some (m_pooled_buffers m)) (Some 2) (Some (sl_max_pooled_buffers bounds));
    resolve_field "relay.maxSpliceRelays" None (max_splice_relays (relay d)) (Some (m_splice_relays m)) (Some 1) (Some (sl_max_splice_relays bounds));
    resolve_field "relay.maxRelayMemoryBytes" None (max_relay_memory_bytes (relay d)) None None None;
    resolve_field "relay.splice" (bool_value <$> ov_splice ov) (bool_value (splice (relay d))) None None None;
    resolve_field "relay.pipePool" (bool_value <$> ov_pipe_pool ov) (bool_value (pipe_pool (relay d))) None None None;
    resolve_field "relay.maxPooledPipes" None (max_pooled_pipes (relay d)) (Some (m_splice_relays m)) None None;
    resolve_field "warmConnections.minReady" None (min_ready (warm_connections d)) None None None;
    resolve_field "warmConnections.maxReady" None (max_ready (warm_connections d)) None None None;
    resolve_field "warmConnections.maxConnecting" None (max_connecting (warm_connections d)) None None None;
    resolve_field "warmConnections.refillBatch" None (refill_batch (warm_connections d)) None None None ] in
  {| pr_policy := effective; pr_fields := fields; pr_plan := Some plan |}.

(** ** Consistency *)

Definition pipe_pair : Z := sl_pipe_pair_memory_bytes limits_default.

(** What the pools, the governor and the relay rely on. *)
Record consistent (p : EffectivePolicy) : Prop := {
  co_connections : 64 <= max_connections (governor p) <= sl_max_connections limits_default;
  co_handshakes : 1 <= max_handshakes (governor p) <= max_connections (governor p);
  co_pre_auth : 1 <= max_pre_auth_idle_connections (governor p) <= max_connections (governor p);
  co_crypto : 1 <= max_crypto_operations (governor p) <= max_handshakes (governor p);
  co_fallbacks : 1 <= max_fallbacks (governor p) <= max_connections (governor p);
  co_dns : 1 <= max_dns_lookups (governor p) <= max_connections (governor p);
  co_replay : 1024 <= max_replay_entries (governor p) <= 1000000;
  co_concurrent : 1 <= max_concurrent (direct_barrier p) <= max_connections (governor p);
  co_per_second : 64 <= max_per_second (direct_barrier p) <= U32_MAX;
  co_splice : 1 <= max_splice_relays (relay p) <= sl_max_splice_relays limits_default;
  co_splice_connections : max_splice_relays (relay p) <= max_connections (governor p);
  co_buffer_bytes : In (buffer_bytes (relay p)) TIERS;
  co_buffers : 2 <= max_pooled_buffers (relay p) <= sl_max_pooled_buffers limits_default;
  co_buffers_connections : max_pooled_buffers (relay p) <= 2 * max_connections (governor p);
  co_pipes : 0 <= max_pooled_pipes (relay p) <= 2 * sl_max_splice_relays limits_default;
  co_memory : max_pooled_pipes (relay p) * pipe_pair + max_pooled_buffers (relay p) * buffer_bytes (relay p) <= max_relay_memory_bytes (relay p);
  co_warm : min_ready (warm_connections p) <= max_ready (warm_connections p) /\
    refill_batch (warm_connections p) <= max_connecting (warm_connections p) <= max_ready (warm_connections p)
}.

Lemma to_u32_exact v : 0 <= v <= U32_MAX -> to_u32 v = v.
Proof. intros H. unfold to_u32. by rewrite (proj2 (try_from_some U32_MAX v v) (conj eq_refl H)). Qed.

Lemma clamp_range lo hi v : lo <= hi -> lo <= clamp lo hi v <= hi.
Proof. unfold clamp. lia. Qed.

Lemma usize_exact v : 0 <= v <= 65536 -> default 65536 (try_from USIZE_MAX v) = v.
Proof. intros H. rewrite (proj2 (try_from_some USIZE_MAX v v)); [done|]. unfold USIZE_MAX, U64_MAX. lia. Qed.

Section Consistent.
Context (linux : bool) (c : MachineCapabilities) (mode : ResourceMode) (ov : LimitOverrides) (listeners : Z).

Lemma balanced_consistent : consistent (derive_balanced linux c limits_default mode listeners ov).
Proof.
  unfold derive_balanced. cbv zeta.
  change (sl_max_connections limits_default) with 262144. change (sl_max_splice_relays limits_default) with 8192.
  change (sl_max_pooled_buffers limits_default) with 65536. change (sl_pipe_pair_memory_bytes limits_default) with 1048576.
  set (sp := Z.max (Z.min (Z.min (clamp 1 8192 _) _) _) 1).
  assert (Hsp : 1 <= sp <= 8192) by (subst sp; unfold clamp; lia). clearbody sp.
  set (conns := clamp 64 262144 _). assert (Hc : 64 <= conns <= 262144) by (apply clamp_range; lia). clearbody conns.
  assert (Hpipes : saturating_mul_u64 sp 2 = 2 * sp) by (unfold saturating_mul_u64, U64_MAX; lia). rewrite Hpipes.
  assert (Hmem : saturating_mul_u64 (2 * sp) 1048576 = 2 * sp * 1048576) by (unfold saturating_mul_u64, U64_MAX; lia). rewrite Hmem.
  assert (Hconn2 : saturating_mul_u64 conns 2 = 2 * conns) by (unfold saturating_mul_u64, U64_MAX; lia). rewrite Hconn2.
  set (bufs := Z.min (clamp 2 65536 _) (2 * conns)).
  assert (Hb : 2 <= bufs <= 65536 /\ bufs <= 2 * conns) by (subst bufs; unfold clamp; lia). clearbody bufs.
  assert (Hbm : saturating_mul_u64 bufs DEFAULT_BUFFER_BYTES = bufs * 32768) by (unfold saturating_mul_u64, U64_MAX, DEFAULT_BUFFER_BYTES; lia).
  assert (Hrm : saturating_add_u64 (2 * sp * 1048576) (bufs * 32768) = 2 * sp * 1048576 + bufs * 32768)
    by (unfold saturating_add_u64, U64_MAX; lia). rewrite Hbm, Hrm.
  assert (Hm : forall k, 0 <= k -> 0 <= saturating_mul_u64 (Z.max (mc_effective_cpus c) 1) k)
    by (intros k Hk; unfold saturating_mul_u64, U64_MAX; nia).
  pose proof (Hm 128 ltac:(lia)) as H128. pose proof (Hm 32 ltac:(lia)) as H32. pose proof (Hm 512 ltac:(lia)) as H512.
  pose proof (Hm 8 ltac:(lia)) as H8. clear Hm.
  assert (Hid : forall v, 0 <= v <= 4194304 -> to_u32 v = v) by (intros v Hv; apply to_u32_exact; unfold U32_MAX; lia).
  split; cbn [governor direct_barrier relay warm_connections max_connections max_handshakes max_pre_auth_idle_connections max_fallbacks
    max_crypto_operations max_replay_entries max_dns_lookups max_concurrent max_per_second max_splice_relays buffer_bytes
    max_pooled_buffers max_relay_memory_bytes max_pooled_pipes min_ready max_ready max_connecting refill_batch];
    rewrite ?usize_exact by lia; rewrite ?Hid by (unfold clamp; lia); unfold pipe_pair;
    try (unfold clamp; cbn; lia).
  - rewrite to_u32_exact; unfold clamp, U32_MAX; lia.
  - cbn. auto.
  - change (sl_max_splice_relays limits_default) with 8192. destruct linux; lia.
  - change (sl_pipe_pair_memory_bytes limits_default) with 1048576. change DEFAULT_BUFFER_BYTES with 32768. destruct linux; lia.
Qed.

Lemma tier_in bytes shift : In (shift_buffer_tier bytes shift) TIERS.
Proof.
  unfold shift_buffer_tier. set (k := clamp 0 (len TIERS - 1) _). assert (Hk : 0 <= k <= 2) by (apply clamp_range; cbn; lia). clearbody k.
  assert (k = 0 \/ k = 1 \/ k = 2) as [->|[->| ->]] by lia; cbn; auto.
Qed.

Lemma tier_range bytes shift : 16384 <= shift_buffer_tier bytes shift <= 65536.
Proof. destruct (tier_in bytes shift) as [<-|[<-|[<-|[]]]]; lia. Qed.

(** The memory of the pools, at sizes within the limits, is not cut by saturation. *)
Lemma pool_memory pipes bufs bytes : 0 <= pipes <= 16384 -> 0 <= bufs <= 65536 -> 0 <= bytes <= 65536 ->
  saturating_add_u64 (pipes * 1048576) (saturating_mul_u64 bufs bytes) = pipes * 1048576 + bufs * bytes.
Proof.
  intros Hp Hb Hy. assert (0 <= bufs * bytes <= 65536 * 65536) by nia. unfold saturating_add_u64, saturating_mul_u64, U64_MAX. lia.
Qed.

Lemma scaled_consistent (b : EffectivePolicy) (o : Objective) : consistent b -> consistent (scale_for_objective b o limits_default c).
Proof.
  intros B. unfold scale_for_objective. destruct o; [|done|].
  all: change (sl_max_connections limits_default) with 262144; change (sl_max_splice_relays limits_default) with 8192;
    change (sl_max_pooled_buffers limits_default) with 65536; change (sl_pipe_pair_memory_bytes limits_default) with 1048576.
  all: set (m := multipliers _); clearbody m; cbv zeta.
  all: pose proof (tier_range (buffer_bytes (relay b)) (m_buffer_tier_shift m)) as Ht; pose proof (tier_in (buffer_bytes (relay b)) (m_buffer_tier_shift m)) as Hin.
  all: set (bytes := shift_buffer_tier _ _) in *; clearbody bytes.
  all: set (conns := clamp 64 262144 _); assert (Hc : 64 <= conns <= 262144) by (apply clamp_range; lia); clearbody conns.
  all: assert (Hconn2 : saturating_mul_u64 conns 2 = 2 * conns) by (unfold saturating_mul_u64, U64_MAX; lia); rewrite Hconn2.
  all: set (sp := Z.min (clamp 1 8192 _) conns); assert (Hsp : 1 <= sp <= 8192 /\ sp <= conns) by (subst sp; unfold clamp; lia); clearbody sp.
  all: assert (Hpipes : saturating_mul_u64 sp 2 = 2 * sp) by (unfold saturating_mul_u64, U64_MAX; lia); rewrite Hpipes.
  all: set (pipes := if max_pooled_pipes (relay b) =? 0 then 0 else 2 * sp);
    assert (Hp : 0 <= pipes <= 2 * sp) by (subst pipes; destruct (_ =? 0); lia); clearbody pipes.
  all: assert (Hmem : saturating_mul_u64 pipes 1048576 = pipes * 1048576) by (unfold saturating_mul_u64, U64_MAX; lia); rewrite Hmem.
  all: set (pools := if _ && _ then _ else _);
    assert (Hpools : 2 <= pools.1 <= 65536 /\ pools.1 <= 2 * conns /\ pipes * 1048576 + pools.1 * bytes <= pools.2)
      by (subst pools; destruct (_ && _); cbn [fst snd]; (match goal with |- context [Z.min (clamp 2 65536 ?v) ?w] =>
        set (bufs := Z.min (clamp 2 65536 v) w) end);
        assert (Hb : 2 <= bufs <= 65536 /\ bufs <= 2 * conns) by (subst bufs; unfold clamp; lia); clearbody bufs;
        rewrite (pool_memory pipes bufs bytes) by lia; lia);
    clearbody pools; destruct pools as [bufs mem]; cbn [fst snd] in Hpools; destruct Hpools as (Hb1 & Hb2 & Hb3).
  all: assert (Hid : forall v, 0 <= v <= 4194304 -> to_u32 v = v) by (intros v Hv; apply to_u32_exact; unfold U32_MAX; lia).
  all: destruct B; split; cbn [governor direct_barrier relay warm_connections max_connections max_handshakes
    max_pre_auth_idle_connections max_fallbacks max_crypto_operations max_replay_entries max_dns_lookups max_concurrent max_per_second
    max_splice_relays buffer_bytes max_pooled_buffers max_relay_memory_bytes max_pooled_pipes];
    rewrite ?usize_exact by lia; rewrite ?Hid by (unfold clamp; lia); unfold pipe_pair; change (sl_max_connections limits_default) with 262144;
    change (sl_max_splice_relays limits_default) with 8192; change (sl_max_pooled_buffers limits_default) with 65536;
    change (sl_pipe_pair_memory_bytes limits_default) with 1048576; try done; try (unfold clamp; lia).
  all: rewrite to_u32_exact; unfold clamp, U32_MAX; lia.
Qed.
End Consistent.

(** ** Claims *)

(** C34: every plan is usable. Whatever the machine reports (any CPU count,
    descriptor limits, memory total, tenancy mode, listener count, platform) and
    whichever objective scales it, the derived policy is consistent: connections
    between 64 and the absolute cap, every child limit between one and its
    parent, replay entries, dial rate, splice relays, buffers and pipes within
    their caps and floors, buffer sizes from the supported tiers, and a relay
    memory budget that covers the pools it pays for, without overflow or
    truncation to u32 anywhere. *)
Theorem plan_consistent (linux : bool) (c : MachineCapabilities) (mode : ResourceMode) (o : Objective) (listeners : Z) (ov : LimitOverrides) :
  consistent (plan_policy (derive linux c limits_default mode o listeners ov)) /\
  consistent (plan_hard_bounds (derive linux c limits_default mode o listeners ov)).
Proof. split; [apply scaled_consistent|]; apply balanced_consistent. Qed.

(** The values of a policy in the order of the report. *)
Definition policy_values (p : EffectivePolicy) : list Z :=
  let g := governor p in let r := relay p in let w := warm_connections p in
  [max_connections g; max_handshakes g; max_pre_auth_idle_connections g; max_fallbacks g; max_crypto_operations g;
   max_replay_entries g; max_dns_lookups g; replay_retention_ms g; client_hello_timeout_ms g; handshake_timeout_ms g;
   connect_timeout_ms g; fallback_timeout_ms g; max_concurrent (direct_barrier p); max_per_second (direct_barrier p);
   buffer_bytes r; max_pooled_buffers r; max_splice_relays r; max_relay_memory_bytes r; bool_value (splice r);
   bool_value (pipe_pool r); max_pooled_pipes r; min_ready w; max_ready w; max_connecting w; refill_batch w].

Definition override_pins (ov : LimitOverrides) : list (option Z) :=
  [ov_max_connections ov; ov_max_handshakes ov; None; None; None; None; None; None; ov_client_hello_timeout_ms ov;
   ov_handshake_timeout_ms ov; ov_connect_timeout_ms ov; ov_fallback_timeout_ms ov; None; None; None; None; None; None;
   bool_value <$> ov_splice ov; bool_value <$> ov_pipe_pool ov; None; None; None; None; None].

Lemma resolve_field_value path pin d m f c : value (resolve_field path pin d m f c) = default d pin.
Proof. by destruct pin. Qed.
Lemma resolve_carried_value path pin d : value (resolve_carried path pin d) = default d pin.
Proof. by destruct pin. Qed.
Lemma bool_value_default o d : default (bool_value d) (bool_value <$> o) = bool_value (default d o).
Proof. by destruct o. Qed.

Definition pin_reported (f : FieldResolution) (pin : option Z) : Prop :=
  match pin with
  | Some v => source f = Pinned /\ value f = v /\ multiplier f = None
  | None => source f <> Pinned
  end.
Lemma resolve_field_pin path pin d m f c : pin_reported (resolve_field path pin d m f c) pin.
Proof. by destruct pin. Qed.
Lemma resolve_carried_pin path pin d : pin_reported (resolve_carried path pin d) pin.
Proof. by destruct pin. Qed.

(** The provenance report is the policy. Whenever splice stays enabled, the
    reported values are, field by field, the values of the effective policy; and
    always a field is reported as pinned exactly when the operator pinned it,
    with the pinned value. *)
Theorem resolution_reports_policy (linux : bool) (ov : LimitOverrides) (o : Objective) (machine : MachineReport) (mode : ResourceMode)
    (listeners : Z) :
  let r := resolve_policy linux ov o machine mode listeners in
  (splice (relay (pr_policy r)) = true -> map value (pr_fields r) = policy_values (pr_policy r)) /\
  Forall2 pin_reported (pr_fields r) (override_pins ov).
Proof.
  intros r. split.
  - subst r. unfold resolve_policy, policy_values. cbn [pr_policy pr_fields relay splice map]. set (plan := plan_policy _). intros Hs.
    cbn [governor direct_barrier relay warm_connections max_connections max_handshakes max_pre_auth_idle_connections max_fallbacks
      max_crypto_operations max_replay_entries max_dns_lookups replay_retention_ms client_hello_timeout_ms handshake_timeout_ms
      connect_timeout_ms fallback_timeout_ms buffer_bytes max_pooled_buffers max_splice_relays max_relay_memory_bytes splice pipe_pool
      max_pooled_pipes]. rewrite Hs, andb_true_r.
    rewrite !resolve_field_value, !resolve_carried_value, !bool_value_default, Hs. reflexivity.
  - subst r. unfold resolve_policy, override_pins. cbn [pr_fields]. set (plan := plan_policy _). clearbody plan.
    repeat (constructor; [first [apply resolve_field_pin|apply resolve_carried_pin]|]). constructor.
Qed.

(** With splice switched off the report still shows the derived pipe pool, which
    the effective policy has disabled. *)
Theorem report_pipe_pool_diverges :
  let ov := {| ov_max_connections := None; ov_max_handshakes := None; ov_client_hello_timeout_ms := None; ov_handshake_timeout_ms := None;
     ov_connect_timeout_ms := None; ov_fallback_timeout_ms := None; ov_splice := Some false; ov_pipe_pool := None |} in
  let r := resolve_policy true ov Balanced conservative Standard 1 in
  pipe_pool (relay (pr_policy r)) = false /\
  In {| field := "relay.pipePool"; value := 1; source := Derived; multiplier := None; floor := None; cap := None |} (pr_fields r).
Proof. vm_compute. split; [reflexivity|]. do 19 right. left. reflexivity. Qed.

(** Under the latency objective on a 256-descriptor machine the direct-dial
    concurrency is 32, below the safety floor of 64 the report states for it. *)
Theorem latency_below_reported_floor :
  let machine := {| fd_soft_limit := 256; fd_hard_limit := 256; memlock_soft_limit := 0; memlock_hard_limit := 0; available_cpus := 1;
     cpu_quota_us := None; cpu_period_us := None; cpuset_effective := None; memory_source := "unavailable"; memory_current := None;
     memory_high := None; memory_max := None; memory_total := 0 |} in
  In {| field := "directBarrier.maxConcurrent"; value := 32; source := Derived; multiplier := Some (1, 2); floor := Some 64; cap := None |}
    (pr_fields (resolve_policy true no_overrides Latency machine Standard 1)).
Proof. vm_compute. do 12 right. left. reflexivity. Qed.

(** Under the throughput objective the plan exceeds the balanced derivation that
    [hard_bounds] documents as the ceiling of the adaptive controller. *)
Theorem throughput_exceeds_hard_bounds :
  let plan := derive true (from_report conservative) limits_default Standard Throughput 1 no_overrides in
  max_connections (governor (plan_hard_bounds plan)) = 197 /\ max_connections (governor (plan_policy plan)) = 295.
Proof. vm_compute. split; reflexivity. Qed.
