(* ===== verification/Admission.v ===== *)
(** Admission control (src/runtime/admission.rs).

    The governor holds one soft-ceiling pool per category and consults the
    pressure gauge first; the direct-dial barrier combines a concurrency pool with
    the rate gate. Operations are modelled call by call: each runs the steps of
    its pool and gate uninterrupted (Ceiling and DialGate treat the interleavings
    inside those steps). The instant of a dial is an argument. *)
From stdpp Require Import base list.
From S2P Require Import Prelude Threads Ceiling DialGate FdBudget Pressure FdPlan Policy.
#[local] Open Scope Z_scope.

(** ** One pool, call by call *)

(** [try_acquire] of one caller: the permit is granted when the caller ends up
    holding one. Seven steps suffice without interference. *)
Definition pool_try_acquire (s : CeilingSemaphore) : CeilingSemaphore * bool :=
  let fix go (fuel : nat) (s : CeilingSemaphore) (pc : CeilingPc) : CeilingSemaphore * bool :=
    match fuel, pc with
    | _, CHeld => (s, true)
    | _, CDenied => (s, false)
    | O, _ => (s, false)
    | S fuel, _ => let '(s, pc) := ceiling_step DoAcquire s pc in go fuel s pc
    end in
  go 7%nat s CIdle.

(** Dropping a held permit. *)
Definition pool_drop (s : CeilingSemaphore) : CeilingSemaphore :=
  let '(s, pc) := ceiling_step DoStep s CHeld in (ceiling_step DoStep s pc).1.

(** ** The governor *)

Inductive AdmissionDenied :=
| Limit (kind : AdmissionKind)
| DeniedPressure (kind : AdmissionKind)
| DirectConcurrency
| DirectRate
| DirectPressure
| Unavailable.

Record Governor := {
  connections : CeilingSemaphore; pre_auth_idle : CeilingSemaphore; handshakes : CeilingSemaphore; fallbacks : CeilingSemaphore;
  dns_lookups : CeilingSemaphore; crypto_operations : CeilingSemaphore; replay_entries : CeilingSemaphore;
  gov_pressure : option PressureGauge
}.

Definition pools (config : ResourceGovernorPolicy) (pressure : option PressureGauge) : Governor :=
  {| connections := ceiling_new (max_connections config); pre_auth_idle := ceiling_new (max_pre_auth_idle_connections config);
     handshakes := ceiling_new (max_handshakes config); fallbacks := ceiling_new (max_fallbacks config);
     dns_lookups := ceiling_new (max_dns_lookups config); crypto_operations := ceiling_new (max_crypto_operations config);
     replay_entries := ceiling_new (max_replay_entries config); gov_pressure := pressure |}.

Definition governor_new (config : ResourceGovernorPolicy) : Governor := pools config None.
Definition with_pressure (config : ResourceGovernorPolicy) (pressure : PressureGauge) : Governor := pools config (Some pressure).

Definition pool (g : Governor) (kind : AdmissionKind) : CeilingSemaphore :=
  match kind with
  | Connection => connections g | PreAuthIdle => pre_auth_idle g | Handshake => handshakes g | Fallback => fallbacks g
  | CryptoOperation => crypto_operations g | ReplayEntry => replay_entries g | DnsLookup => dns_lookups g
  end.

Definition set_pool (g : Governor) (kind : AdmissionKind) (s : CeilingSemaphore) : Governor :=
  {| connections := if decide (kind = Connection) then s else connections g;
     pre_auth_idle := if decide (kind = PreAuthIdle) then s else pre_auth_idle g;
     handshakes := if decide (kind = Handshake) then s else handshakes g;
     fallbacks := if decide (kind = Fallback) then s else fallbacks g;
     dns_lookups := if decide (kind = DnsLookup) then s else dns_lookups g;
     crypto_operations := if decide (kind = CryptoOperation) then s else crypto_operations g;
     replay_entries := if decide (kind = ReplayEntry) then s else replay_entries g;
     gov_pressure := gov_pressure g |}.

(** The gauge is shared: [set] by the monitor is seen by the governor. *)
Definition set_governor_pressure (g : Governor) (p : option PressureGauge) : Governor :=
  {| connections := connections g; pre_auth_idle := pre_auth_idle g; handshakes := handshakes g; fallbacks := fallbacks g;
     dns_lookups := dns_lookups g; crypto_operations := crypto_operations g; replay_entries := replay_entries g; gov_pressure := p |}.

Definition pressure_refuses (g : Governor) (kind : AdmissionKind) : bool :=
  match gov_pressure g with Some gauge => negb (admits (gauge_state gauge) kind) | None => false end.

(** [try_acquire]: the permit is identified by its kind. *)
Definition governor_try_acquire (g : Governor) (kind : AdmissionKind) : result AdmissionDenied AdmissionKind * Governor :=
  if pressure_refuses g kind then (Err (DeniedPressure kind), g)
  else
    let '(s, granted) := pool_try_acquire (pool g kind) in
    (if granted then Ok kind else Err (Limit kind), set_pool g kind s).

Definition governor_drop (g : Governor) (kind : AdmissionKind) : Governor := set_pool g kind (pool_drop (pool g kind)).
Definition governor_ceiling (g : Governor) (kind : AdmissionKind) : Z := ceiling (pool g kind).
Definition governor_set_ceiling (g : Governor) (kind : AdmissionKind) (v : Z) : Governor := set_pool g kind (set_ceiling (pool g kind) v).
Definition governor_in_flight (g : Governor) (kind : AdmissionKind) : Z := in_flight (pool g kind).

(** ** The direct-dial barrier *)

Record DirectBarrier := { concurrency : CeilingSemaphore; rate : DialRateGate; bar_pressure : option PressureGauge }.

Definition barrier (config : DirectBarrierPolicy) (pressure : option PressureGauge) : DirectBarrier :=
  {| concurrency := ceiling_new (max_concurrent config); rate := dial_gate_new (max_per_second config); bar_pressure := pressure |}.

Definition barrier_critical (b : DirectBarrier) : bool :=
  match bar_pressure b with Some gauge => bool_decide (gauge_state gauge = Critical) | None => false end.

(** The permit taken for the concurrency pool is dropped again when the rate
    gate refuses. *)
Definition barrier_try_acquire (b : DirectBarrier) (now : Z) : result AdmissionDenied unit * DirectBarrier :=
  if barrier_critical b then (Err DirectPressure, b)
  else
    let '(s, granted) := pool_try_acquire (concurrency b) in
    if granted then
      let '(r, taken) := try_take_at (rate b) now in
      if taken then (Ok tt, {| concurrency := s; rate := r; bar_pressure := bar_pressure b |})
      else (Err DirectRate, {| concurrency := pool_drop s; rate := r; bar_pressure := bar_pressure b |})
    else (Err DirectConcurrency, {| concurrency := s; rate := rate b; bar_pressure := bar_pressure b |}).

Definition barrier_drop (b : DirectBarrier) : DirectBarrier :=
  {| concurrency := pool_drop (concurrency b); rate := rate b; bar_pressure := bar_pressure b |}.
Definition concurrency_ceiling (b : DirectBarrier) : Z := ceiling (concurrency b).
Definition barrier_in_flight (b : DirectBarrier) : Z := in_flight (concurrency b).
Definition set_concurrency_ceiling (b : DirectBarrier) (v : Z) : DirectBarrier :=
  {| concurrency := set_ceiling (concurrency b) v; rate := rate b; bar_pressure := bar_pressure b |}.
Definition rate_per_second (b : DirectBarrier) : Z := gate_rate (rate b).
Definition set_rate_per_second (b : DirectBarrier) (v : Z) : DirectBarrier :=
  {| concurrency := concurrency b; rate := set_rate (rate b) v; bar_pressure := bar_pressure b |}.

(** ** Pools between calls *)

(** Between calls a pool counts the permits that are out, [held]. *)
Record pool_ok (hb held : Z) (s : CeilingSemaphore) : Prop := {
  po_hard : cs_hard_bound s = hb;
  po_flight : cs_in_flight s = held;
  po_permits : cs_permits s = hb - held;
  po_held : 0 <= held <= hb;
  po_ceiling : cs_ceiling s <= hb
}.

Lemma ceiling_new_ok hb : u32_range hb -> pool_ok hb 0 (ceiling_new hb).
Proof.
  intros Hb. unfold u32_range, U32_MAX in Hb. unfold ceiling_new.
  rewrite (proj2 (try_from_some USIZE_MAX hb hb)) by (unfold USIZE_MAX, U64_MAX; lia). split; cbn; lia.
Qed.

(** An uncontended acquire: granted exactly below the ceiling, and then one more
    permit is out. *)
Lemma pool_try_acquire_spec hb held s : u32_range hb -> pool_ok hb held s ->
  pool_try_acquire s =
    (if held <? cs_ceiling s then with_permits (with_in_flight s (held + 1)) (cs_permits s - 1) else s, held <? cs_ceiling s) /\
  pool_ok hb (if held <? cs_ceiling s then held + 1 else held) (pool_try_acquire s).1.
Proof.
  intros Hb [Hh Hf Hp Hl Hc]. destruct s as [pm fl ce hd]. cbn in *. subst. unfold pool_try_acquire.
  cbn [ceiling_step ceiling cs_ceiling]. unfold acquire_loop. cbn [cs_in_flight]. rewrite Z.leb_antisym, Z.eqb_refl.
  destruct (Z.ltb_spec held ce) as [Hlt|Hge]; cbn; [|split; [done|split; cbn; lia]].
  unfold try_acquire_owned. cbn. destruct (Z.ltb_spec 0 (hb - held)); [|lia]. cbn. split; [done|]. split; cbn; lia.
Qed.

Lemma pool_drop_ok hb held s : u32_range hb -> pool_ok hb held s -> 0 < held -> pool_ok hb (held - 1) (pool_drop s).
Proof.
  intros Hb [Hh Hf Hp Hl Hc] Hpos. unfold u32_range, U32_MAX in Hb. unfold pool_drop. cbn. rewrite fetch_sub_exact by (unfold U64_MAX; lia).
  split; cbn; lia.
Qed.

Lemma set_ceiling_ok hb held s v : pool_ok hb held s -> pool_ok hb held (set_ceiling s v).
Proof. intros [Hh Hf Hp Hl Hc]. split; cbn; lia. Qed.

(** ** Histories of the governor *)

Definition configured (config : ResourceGovernorPolicy) (kind : AdmissionKind) : Z :=
  match kind with
  | Connection => max_connections config | PreAuthIdle => max_pre_auth_idle_connections config | Handshake => max_handshakes config
  | Fallback => max_fallbacks config | CryptoOperation => max_crypto_operations config | ReplayEntry => max_replay_entries config
  | DnsLookup => max_dns_lookups config
  end.

(** Calls on the governor; dropping is possible for a held permit only. *)
Inductive GovernorCall :=
| AcquireKind (kind : AdmissionKind)
| DropKind (kind : AdmissionKind)
| SetCeilingKind (kind : AdmissionKind) (v : Z)
| SetPressure (s : ResourcePressure).

(** The governor with the permits that are out, and what the calls returned. *)
Record GovernorHistory := {
  gh_governor : Governor;
  gh_held : AdmissionKind -> Z;
  gh_results : list (AdmissionKind * result AdmissionDenied AdmissionKind)
}.

Definition bump (f : AdmissionKind -> Z) (kind : AdmissionKind) (d : Z) : AdmissionKind -> Z :=
  fun k => if decide (k = kind) then f k + d else f k.

Definition governor_call (h : GovernorHistory) (c : GovernorCall) : GovernorHistory :=
  let g := gh_governor h in
  match c with
  | AcquireKind kind =>
    let '(r, g) := governor_try_acquire g kind in
    {| gh_governor := g; gh_held := if is_ok r then bump (gh_held h) kind 1 else gh_held h; gh_results := (kind, r) :: gh_results h |}
  | DropKind kind =>
    if 0 <? gh_held h kind then
      {| gh_governor := governor_drop g kind; gh_held := bump (gh_held h) kind (-1); gh_results := gh_results h |}
    else h
  | SetCeilingKind kind v => {| gh_governor := governor_set_ceiling g kind v; gh_held := gh_held h; gh_results := gh_results h |}
  | SetPressure s =>
    {| gh_governor := set_governor_pressure g ((fun p => (gauge_set p s).1) <$> gov_pressure g); gh_held := gh_held h;
       gh_results := gh_results h |}
  end.

Definition governor_history (config : ResourceGovernorPolicy) (pressure : option PressureGauge) (calls : list GovernorCall) : GovernorHistory :=
  foldl governor_call {| gh_governor := pools config pressure; gh_held := fun _ => 0; gh_results := [] |} calls.

Lemma pool_set_pool g kind s k : pool (set_pool g kind s) k = if decide (k = kind) then s else pool g k.
Proof. destruct kind, k; reflexivity. Qed.

Definition governor_ok (config : ResourceGovernorPolicy) (held : AdmissionKind -> Z) (g : Governor) : Prop :=
  forall k, pool_ok (configured config k) (held k) (pool g k).

(** Replacing one pool leaves the others alone. *)
Lemma governor_ok_set config held g kind s d : governor_ok config held g -> pool_ok (configured config kind) (held kind + d) s ->
  governor_ok config (bump held kind d) (set_pool g kind s).
Proof.
  intros Hg Hs k. rewrite pool_set_pool. unfold bump. destruct (decide (k = kind)) as [->|]; [done|apply Hg].
Qed.

Lemma governor_ok_ext config held held' g : (forall k, held k = held' k) -> governor_ok config held g -> governor_ok config held' g.
Proof. intros He Hg k. rewrite <- He. apply Hg. Qed.

Lemma governor_acquire_ok config held g kind : (forall k, u32_range (configured config k)) -> governor_ok config held g ->
  let '(r, g') := governor_try_acquire g kind in
  r = (if pressure_refuses g kind then Err (DeniedPressure kind)
       else if held kind <? governor_ceiling g kind then Ok kind else Err (Limit kind)) /\
  governor_ok config (if is_ok r then bump held kind 1 else held) g' /\ gov_pressure g' = gov_pressure g /\
  (forall k, k <> kind -> pool g' k = pool g k).
Proof.
  intros Hr Hg. unfold governor_try_acquire. destruct (pressure_refuses g kind); [done|].
  destruct (pool_try_acquire_spec _ _ _ (Hr kind) (Hg kind)) as [Heq Hok]. unfold governor_ceiling, ceiling. rewrite Heq in *.
  destruct (Z.ltb_spec (held kind) (cs_ceiling (pool g kind))) as [Hlt|Hge]; cbn [fst is_ok] in *; split_and!; try done.
  - by apply governor_ok_set.
  - intros k Hk. rewrite pool_set_pool. by rewrite decide_False.
  - intros k. rewrite pool_set_pool. destruct (decide (k = kind)) as [->|]; [done|apply Hg].
  - intros k Hk. rewrite pool_set_pool. by rewrite decide_False.
Qed.

Lemma governor_call_ok config h c : (forall k, u32_range (configured config k)) -> governor_ok config (gh_held h) (gh_governor h) ->
  governor_ok config (gh_held (governor_call h c)) (gh_governor (governor_call h c)).
Proof.
  intros Hr Hg. destruct c as [kind|kind|kind v|s]; cbn [governor_call].
  - pose proof (governor_acquire_ok config _ _ kind Hr Hg) as Ha. destruct (governor_try_acquire (gh_governor h) kind) as [r g'].
    cbn. apply Ha.
  - destruct (Z.ltb_spec 0 (gh_held h kind)) as [Hp|]; [|done]. cbn. apply governor_ok_set; [done|]. by apply pool_drop_ok.
  - cbn. refine (governor_ok_ext _ (bump (gh_held h) kind 0) _ _ _ _).
    + intros k. unfold bump. destruct (decide (k = kind)); lia.
    + apply governor_ok_set; [done|]. rewrite Z.add_0_r. apply set_ceiling_ok, Hg.
  - intros k. specialize (Hg k). by destruct k.
Qed.

Lemma governor_history_ok config pressure calls : (forall k, u32_range (configured config k)) ->
  governor_ok config (gh_held (governor_history config pressure calls)) (gh_governor (governor_history config pressure calls)).
Proof.
  intros Hr. unfold governor_history.
  assert (Hg : governor_ok config (fun _ => 0) (pools config pressure)).
  { intros k. specialize (Hr k). destruct k; cbn; by apply ceiling_new_ok. }
  set (h := {| gh_governor := pools config pressure; gh_held := fun _ => 0; gh_results := [] |}).
  change (fun _ : AdmissionKind => 0) with (gh_held h) in Hg. change (pools config pressure) with (gh_governor h) in Hg. clearbody h.
  revert h Hg. induction calls as [|c calls IH]; intros h Hg; cbn; [done|]. apply IH. by apply governor_call_ok.
Qed.

(** ** Claims *)

(** C35: the governor bounds each category and nothing else. After any history of
    acquires, drops, ceiling moves and pressure changes, the permits out of each
    category are what its pool counts and never exceed the configured limit. The
    next acquire of a category is decided exactly by the gauge (refused with
    [Pressure] when the state does not admit the category), then by the soft
    ceiling (granted below it, refused with [Limit] otherwise); it changes no
    other category, and a refusal changes nothing that is counted. *)
Theorem governor_admission_exact (config : ResourceGovernorPolicy) (pressure : option PressureGauge) (calls : list GovernorCall)
    (kind : AdmissionKind) :
  (forall k, u32_range (configured config k)) ->
  let h := governor_history config pressure calls in
  let g := gh_governor h in
  (forall k, governor_in_flight g k = gh_held h k /\ 0 <= gh_held h k <= configured config k) /\
  let '(r, g') := governor_try_acquire g kind in
  r = (if pressure_refuses g kind then Err (DeniedPressure kind)
       else if gh_held h kind <? governor_ceiling g kind then Ok kind else Err (Limit kind)) /\
  governor_in_flight g' kind = (if is_ok r then gh_held h kind + 1 else gh_held h kind) /\
  (forall k, k <> kind -> pool g' k = pool g k).
Proof.
  intros Hr h g. pose proof (governor_history_ok config pressure calls Hr) as Hg. fold h g in Hg. split.
  - intros k. split; [apply (po_flight _ _ _ (Hg k))|apply (po_held _ _ _ (Hg k))].
  - pose proof (governor_acquire_ok config _ g kind Hr Hg) as Ha. destruct (governor_try_acquire g kind) as [r g'].
    destruct Ha as (Hres & Hok & _ & Hiso). split_and!; try done. unfold governor_in_flight, in_flight.
    rewrite (po_flight _ _ _ (Hok kind)). destruct (is_ok r); [|done]. unfold bump. by rewrite decide_True.
Qed.

(** Under pressure new handshakes are refused while connections are admitted up
    to the lowered ceiling. *)
Lemma governor_admission_exact_witness :
  let calls := [AcquireKind Connection; SetCeilingKind Connection 1; SetPressure Pressure] in
  let g := gh_governor (governor_history governor_default (Some gauge_new) calls) in
  (governor_try_acquire g Handshake).1 = Err (DeniedPressure Handshake) /\ (governor_try_acquire g Connection).1 = Err (Limit Connection) /\
  governor_in_flight g Connection = 1.
Proof.
  intros calls g. split; [by vm_compute|]. split; [by vm_compute|].
  refine (eq_trans (proj1 (proj1 (governor_admission_exact governor_default (Some gauge_new) calls Connection _) Connection)) _);
    [|by vm_compute]. intros []; unfold u32_range, U32_MAX; cbn; lia.
Defined.

(** A direct dial is admitted exactly when the gauge is not critical, the
    concurrency pool has room under its ceiling and the rate gate grants it; the
    reasons are tested in that order. A refused dial leaves the concurrency count
    as it was, and only an admitted one moves the rate gate, so refusals for
    concurrency never spend the rate and refusals for rate never leak a permit. *)
Theorem direct_barrier_exact (hb held now : Z) (b : DirectBarrier) :
  u32_range hb -> pool_ok hb held (concurrency b) ->
  let '(r, b') := barrier_try_acquire b now in
  r = (if barrier_critical b then Err DirectPressure
       else if held <? concurrency_ceiling b then
         if (try_take_at (rate b) now).2 then Ok tt else Err DirectRate
       else Err DirectConcurrency) /\
  pool_ok hb (if is_ok r then held + 1 else held) (concurrency b') /\
  concurrency_ceiling b' = concurrency_ceiling b /\
  rate b' = (if is_ok r then (try_take_at (rate b) now).1 else rate b).
Proof.
  intros Hb Hp. unfold barrier_try_acquire. destruct (barrier_critical b); [done|].
  destruct (pool_try_acquire_spec hb held _ Hb Hp) as [Heq Hok]. unfold concurrency_ceiling, ceiling. rewrite Heq in *.
  destruct (Z.ltb_spec held (cs_ceiling (concurrency b))) as [Hlt|Hge]; cbn [fst] in *; [|done].
  assert (Hrate : (try_take_at (rate b) now).2 = false -> (try_take_at (rate b) now).1 = rate b).
  { destruct (Z.eqb_spec (dg_interval_nanos (rate b)) 0) as [Hz|Hz].
    - unfold try_take_at. cbn [gate_step]. by rewrite (proj2 (Z.eqb_eq _ _) Hz).
    - rewrite try_take_at_spec by done. repeat case_match; done. }
  destruct (try_take_at (rate b) now) as [r taken]. destruct taken; cbn [is_ok fst snd concurrency rate] in *; split_and!; try done; auto.
  pose proof (pool_drop_ok hb (held + 1) _ Hb Hok ltac:(pose proof (po_held _ _ _ Hp); lia)) as Hd. by rewrite Z.add_simpl_r in Hd.
Qed.
