(* ===== verification/Adaptive.v ===== *)
(** The adaptive controller (src/runtime/adaptive.rs).

    Eight knobs, each a soft ceiling moved between a floor and its startup value
    by one tick at a time: hysteresis counters, a dwell between changes, quantized
    steps, and a one-step clamp under critical pressure. The controller samples
    the pools, decides and applies. The wall clock of a tick is an argument; the
    status file and its serialization are not modelled. *)
From stdpp Require Import base list.
From S2P Require Import Prelude Threads Ceiling DialGate FdBudget Pressure FdPlan Policy Admission.
#[local] Open Scope Z_scope.

Definition TICK_INTERVAL_SECS : Z := 5.
Definition DWELL_SECS : Z := 30.
Definition DWELL_TICKS : Z := DWELL_SECS / TICK_INTERVAL_SECS.
Definition SCALE_UP_TICKS : Z := 3.
Definition SCALE_DOWN_TICKS : Z := 6.
Definition HIGH_UTILIZATION_PERCENT : Z := 85.
Definition LOW_UTILIZATION_PERCENT : Z := 40.
Definition COUNT_QUANTUM : Z := 64.
Definition RATE_QUANTUM : Z := 16.

Inductive Knob := Connections | Handshakes | Fallbacks | CryptoOperations | ReplayEntries | DnsLookups | DirectConcurrent | DirectPerSecond.
#[export] Instance knob_eq_dec : EqDecision Knob.
Proof. solve_decision. Defined.

Definition ALL_KNOBS : list Knob :=
  [Connections; Handshakes; Fallbacks; CryptoOperations; ReplayEntries; DnsLookups; DirectConcurrent; DirectPerSecond].

Definition admission_kind (k : Knob) : option AdmissionKind :=
  match k with
  | Connections => Some Connection | Handshakes => Some Handshake | Fallbacks => Some Fallback
  | CryptoOperations => Some CryptoOperation | ReplayEntries => Some ReplayEntry | DnsLookups => Some DnsLookup
  | DirectConcurrent | DirectPerSecond => None
  end.

Definition quantum (k : Knob) : Z := match k with DirectPerSecond => RATE_QUANTUM | _ => COUNT_QUANTUM end.

Inductive ChangeReason := CriticalPressure | HighUtilization | LowUtilization.
#[export] Instance change_reason_eq_dec : EqDecision ChangeReason.
Proof. solve_decision. Defined.

Record CeilingChange := { ch_knob : Knob; ch_reason : ChangeReason; ch_from : Z; ch_to : Z; ch_floor : Z; ch_ceiling : Z }.
Record ChangeRecord := { cr_tick : Z; cr_at_unix_ms : Z; cr_reason : ChangeReason; cr_from : Z; cr_to : Z }.

Definition quantized_step (startup_value quantum : Z) : Z := Z.max (startup_value / 4 / quantum * quantum) quantum.

Record KnobState := {
  ks_knob : Knob; ks_value : Z; ks_floor : Z; ks_hard : Z; ks_step : Z; ks_above_ticks : Z; ks_below_ticks : Z;
  ks_last_change_tick : option Z; ks_ticks_in_state : Z; ks_last_change : option ChangeRecord
}.

Definition knob_new (knob : Knob) (startup_value floor : Z) : KnobState :=
  let floor := Z.max (Z.min floor startup_value) 1 in
  {| ks_knob := knob; ks_value := startup_value; ks_floor := floor; ks_hard := startup_value;
     ks_step := quantized_step startup_value (quantum knob); ks_above_ticks := 0; ks_below_ticks := 0; ks_last_change_tick := None;
     ks_ticks_in_state := 0; ks_last_change := None |}.

Definition dwell_elapsed (k : KnobState) (tick : Z) : bool :=
  match ks_last_change_tick k with None => true | Some last => DWELL_TICKS <=? saturating_sub tick last end.

Definition record (k : KnobState) (tick at_unix_ms : Z) (reason : ChangeReason) (to : Z) : KnobState :=
  {| ks_knob := ks_knob k; ks_value := to; ks_floor := ks_floor k; ks_hard := ks_hard k; ks_step := ks_step k; ks_above_ticks := 0;
     ks_below_ticks := 0; ks_last_change_tick := Some tick; ks_ticks_in_state := 0;
     ks_last_change := Some {| cr_tick := tick; cr_at_unix_ms := at_unix_ms; cr_reason := reason; cr_from := ks_value k; cr_to := to |} |}.

Definition with_ticks (k : KnobState) (above below : Z) : KnobState :=
  {| ks_knob := ks_knob k; ks_value := ks_value k; ks_floor := ks_floor k; ks_hard := ks_hard k; ks_step := ks_step k;
     ks_above_ticks := above; ks_below_ticks := below; ks_last_change_tick := ks_last_change_tick k;
     ks_ticks_in_state := ks_ticks_in_state k; ks_last_change := ks_last_change k |}.

Definition age (k : KnobState) : KnobState :=
  {| ks_knob := ks_knob k; ks_value := ks_value k; ks_floor := ks_floor k; ks_hard := ks_hard k; ks_step := ks_step k;
     ks_above_ticks := ks_above_ticks k; ks_below_ticks := ks_below_ticks k; ks_last_change_tick := ks_last_change_tick k;
     ks_ticks_in_state := saturating_add_u64 (ks_ticks_in_state k) 1; ks_last_change := ks_last_change k |}.

Definition change_of (k : KnobState) (reason : ChangeReason) (to : Z) : CeilingChange :=
  {| ch_knob := ks_knob k; ch_reason := reason; ch_from := ks_value k; ch_to := to; ch_floor := ks_floor k; ch_ceiling := ks_hard k |}.

Definition clamp_to_floor (k : KnobState) (tick at_unix_ms : Z) : KnobState * option CeilingChange :=
  let k := with_ticks k 0 0 in
  if ks_value k =? ks_floor k then (k, None)
  else (record k tick at_unix_ms CriticalPressure (ks_floor k), Some (change_of k CriticalPressure (ks_floor k))).

(** [u8::saturating_add]. *)
Definition saturating_inc_u8 (v : Z) : Z := Z.min U8_MAX (v + 1).

Definition is_high (k : KnobState) (sample : Z) : bool :=
  saturating_mul_u64 (ks_value k) HIGH_UTILIZATION_PERCENT <=? saturating_mul_u64 sample 100.
Definition is_low (k : KnobState) (sample : Z) : bool :=
  saturating_mul_u64 sample 100 <=? saturating_mul_u64 (ks_value k) LOW_UTILIZATION_PERCENT.

(** The move itself, once a counter has tripped. *)
Definition knob_move (k : KnobState) (tick at_unix_ms : Z) (reason : ChangeReason) (direction_up : bool) : KnobState * option CeilingChange :=
  if negb (dwell_elapsed k tick) then (k, None)
  else
    let target := if direction_up then Z.min (saturating_add_u64 (ks_value k) (ks_step k)) (ks_hard k)
                  else Z.max (saturating_sub (ks_value k) (ks_step k)) (ks_floor k) in
    if target =? ks_value k then (with_ticks k 0 0, None)
    else (record k tick at_unix_ms reason target, Some (change_of k reason target)).

Definition knob_tick (k : KnobState) (sample tick at_unix_ms : Z) : KnobState * option CeilingChange :=
  let k := age k in
  let decide_move (k : KnobState) :=
    if SCALE_UP_TICKS <=? ks_above_ticks k then knob_move k tick at_unix_ms HighUtilization true
    else if SCALE_DOWN_TICKS <=? ks_below_ticks k then knob_move k tick at_unix_ms LowUtilization false
    else (k, None) in
  if is_high k sample then decide_move (with_ticks k (saturating_inc_u8 (ks_above_ticks k)) 0)
  else if is_low k sample then decide_move (with_ticks k 0 (saturating_inc_u8 (ks_below_ticks k)))
  else (with_ticks k 0 0, None).

(** ** The controller *)

Record AdaptiveController := {
  ac_knobs : list KnobState; ac_governor : Governor; ac_barrier : DirectBarrier; ac_pressure : PressureGauge;
  ac_tick_index : Z; ac_last_pressure : ResourcePressure
}.

Definition startup_values (p : EffectivePolicy) : list Z :=
  [max_connections (governor p); max_handshakes (governor p); max_fallbacks (governor p); max_crypto_operations (governor p);
   max_replay_entries (governor p); max_dns_lookups (governor p); max_concurrent (direct_barrier p); max_per_second (direct_barrier p)].

Definition controller_new (g : Governor) (b : DirectBarrier) (pressure : PressureGauge) (policy : EffectivePolicy) : AdaptiveController :=
  {| ac_knobs := zip_with (fun k '(startup, floor) => knob_new k startup floor) ALL_KNOBS
       (zip (startup_values policy) (startup_values policy_default));
     ac_governor := g; ac_barrier := b; ac_pressure := pressure; ac_tick_index := 0; ac_last_pressure := Normal |}.

Definition knob_in_flight (g : Governor) (b : DirectBarrier) (k : Knob) : Z :=
  match admission_kind k with Some kind => governor_in_flight g kind | None => barrier_in_flight b end.

Definition apply_change (gb : Governor * DirectBarrier) (c : CeilingChange) : Governor * DirectBarrier :=
  let '(g, b) := gb in
  match admission_kind (ch_knob c) with
  | Some kind => (governor_set_ceiling g kind (ch_to c), b)
  | None =>
    if decide (ch_knob c = DirectConcurrent) then (g, set_concurrency_ceiling b (ch_to c))
    else (g, set_rate_per_second b (default U32_MAX (try_from U32_MAX (ch_to c))))
  end.

(** The loop over the knobs: new states and the changes, in knob order. *)
Definition tick_knobs (f : KnobState -> KnobState * option CeilingChange) (ks : list KnobState) : list KnobState * list CeilingChange :=
  (map (fun k => (f k).1) ks, omap (fun k => (f k).2) ks).

Definition controller_tick (c : AdaptiveController) (now_unix_ms : Z) : AdaptiveController * (list CeilingChange * ResourcePressure * bool) :=
  let tick := saturating_add_u64 (ac_tick_index c) 1 in
  let pressure := gauge_state (ac_pressure c) in
  let pressure_changed := negb (bool_decide (pressure = ac_last_pressure c)) in
  let '(ks, changes) :=
    if decide (pressure = Critical) then tick_knobs (fun k => clamp_to_floor k tick now_unix_ms) (ac_knobs c)
    else tick_knobs (fun k => knob_tick k (knob_in_flight (ac_governor c) (ac_barrier c) (ks_knob k)) tick now_unix_ms) (ac_knobs c) in
  let '(g, b) := foldl apply_change (ac_governor c, ac_barrier c) changes in
  ({| ac_knobs := ks; ac_governor := g; ac_barrier := b; ac_pressure := ac_pressure c; ac_tick_index := tick;
      ac_last_pressure := pressure |}, (changes, pressure, pressure_changed)).

(** ** One knob *)

Record knob_ok (k : KnobState) : Prop := {
  ko_range : 1 <= ks_floor k <= ks_value k /\ ks_value k <= ks_hard k <= U32_MAX;
  ko_step : 1 <= ks_step k;
  ko_above : 0 <= ks_above_ticks k <= U8_MAX;
  ko_below : 0 <= ks_below_ticks k <= U8_MAX
}.

(** The parts of a knob that never move. *)
Definition knob_frame (k k' : KnobState) : Prop :=
  ks_knob k' = ks_knob k /\ ks_floor k' = ks_floor k /\ ks_hard k' = ks_hard k /\ ks_step k' = ks_step k.

(** A step of a knob: in range, framed, and its value moves exactly by the change
    it reports. *)
Definition knob_step_ok (k : KnobState) (r : KnobState * option CeilingChange) : Prop :=
  knob_ok r.1 /\ knob_frame k r.1 /\
  match r.2 with
  | Some c => ch_knob c = ks_knob k /\ ch_from c = ks_value k /\ ch_to c = ks_value r.1 /\ ch_from c <> ch_to c
  | None => ks_value r.1 = ks_value k
  end.

Lemma knob_new_ok knob startup dflt : 1 <= startup <= U32_MAX -> 0 <= dflt -> knob_ok (knob_new knob startup dflt).
Proof.
  intros Hs Hd. split; cbn; try (unfold U8_MAX; lia). unfold quantized_step. destruct knob; cbn; unfold COUNT_QUANTUM, RATE_QUANTUM; lia.
Qed.

Lemma clamp_to_floor_ok k tick now : knob_ok k -> knob_step_ok k (clamp_to_floor k tick now) /\ ks_value (clamp_to_floor k tick now).1 = ks_floor k.
Proof.
  intros [[H1 H2] H3 H4 H5]. unfold clamp_to_floor, with_ticks. cbn.
  destruct (Z.eqb_spec (ks_value k) (ks_floor k)) as [He|He]; (split; [split_and!|]); cbn; try done; try lia;
    try (split; cbn; unfold U8_MAX in *; lia); by repeat split.
Qed.

Lemma knob_move_ok k k0 tick now reason up : knob_ok k -> knob_frame k0 k -> ks_value k = ks_value k0 -> knob_step_ok k0 (knob_move k tick now reason up).
Proof.
  intros [[H1 H2] H3 H4 H5] (F1 & F2 & F3 & F4) Hv. unfold knob_move. destruct (dwell_elapsed k tick); cbn [negb]; [|by repeat split; cbn; try done; lia].
  set (target := if up then _ else _).
  assert (Ht : ks_floor k <= target <= ks_hard k).
  { subst target. unfold saturating_add_u64, saturating_sub, U64_MAX, U32_MAX in *. destruct up; lia. }
  destruct (Z.eqb_spec target (ks_value k)); cbn; (split_and!; [split; cbn; unfold U8_MAX; lia|by repeat split|]); cbn; try lia.
  split_and!; try done; lia.
Qed.

Lemma knob_tick_ok k sample tick now : knob_ok k -> knob_step_ok k (knob_tick k sample tick now).
Proof.
  intros K. unfold knob_tick.
  assert (Hk : forall a b, 0 <= a <= U8_MAX -> 0 <= b <= U8_MAX -> knob_ok (with_ticks (age k) a b) /\ knob_frame k (with_ticks (age k) a b)).
  { intros a b Ha Hb. destruct K. split; [by split|by repeat split]. }
  assert (Hinc : forall v, 0 <= v <= U8_MAX -> 0 <= saturating_inc_u8 v <= U8_MAX) by (unfold saturating_inc_u8; lia).
  assert (Hno : forall a b, 0 <= a <= U8_MAX -> 0 <= b <= U8_MAX -> knob_step_ok k (with_ticks (age k) a b, None)).
  { intros a b Ha Hb. destruct (Hk a b Ha Hb). by split_and!. }
  pose proof (Hinc _ (ko_above k K)) as Ha. pose proof (Hinc _ (ko_below k K)) as Hb. unfold U8_MAX in *.
  destruct (is_high (age k) sample); [|destruct (is_low (age k) sample)]; [| |apply Hno; lia].
  all: repeat case_match; try (apply Hno; cbn in *; lia); apply knob_move_ok; try done; apply Hk; cbn in *; lia.
Qed.

(** ** Decisions reach the pools *)

(** The ceiling or rate in effect for a knob, and the bound its pool enforces. *)
Definition in_effect (gb : Governor * DirectBarrier) (k : Knob) : Z :=
  match admission_kind k with
  | Some kind => governor_ceiling gb.1 kind
  | None => if decide (k = DirectConcurrent) then concurrency_ceiling gb.2 else rate_per_second gb.2
  end.
Definition pool_bound (gb : Governor * DirectBarrier) (k : Knob) : Z :=
  match admission_kind k with
  | Some kind => cs_hard_bound (pool gb.1 kind)
  | None => if decide (k = DirectConcurrent) then cs_hard_bound (concurrency gb.2) else U32_MAX
  end.

Lemma gate_rate_set g v : 0 <= v <= U32_MAX -> gate_rate (set_rate g v) = v.
Proof. intros H. unfold set_rate, gate_rate. cbn. by rewrite (proj2 (try_from_some U32_MAX v v)). Qed.

Lemma apply_change_effect gb c k : 0 <= ch_to c <= U32_MAX -> ch_to c <= pool_bound gb (ch_knob c) ->
  in_effect (apply_change gb c) k = (if decide (k = ch_knob c) then ch_to c else in_effect gb k) /\
  pool_bound (apply_change gb c) k = pool_bound gb k.
Proof.
  intros Hr Hb. destruct gb as [g b]. destruct c as [ck reason from to fl ce]. cbn [ch_to ch_knob] in *.
  assert (Hu : default U32_MAX (try_from U32_MAX to) = to) by (by rewrite (proj2 (try_from_some U32_MAX to to))).
  unfold apply_change, in_effect, pool_bound, governor_set_ceiling, governor_ceiling, set_concurrency_ceiling, concurrency_ceiling,
    set_rate_per_second, rate_per_second, ceiling in *. cbn [ch_to ch_knob fst snd] in *.
  destruct ck; cbn in Hb |- *; rewrite ?Hu; destruct k; cbn; repeat (rewrite decide_True in * by done || rewrite decide_False in * by done);
    cbn in *; split; try done; try lia; by apply gate_rate_set.
Qed.

(** Applying the changes of a round: every knob's value is in effect afterwards. *)
Lemma apply_round (f : KnobState -> KnobState * option CeilingChange) ks : forall gb, NoDup (map ks_knob ks) ->
  (forall k, k ∈ ks -> knob_step_ok k (f k) /\ in_effect gb (ks_knob k) = ks_value k /\ ks_hard k <= pool_bound gb (ks_knob k)) ->
  let gb' := foldl apply_change gb (omap (fun k => (f k).2) ks) in
  (forall k, k ∈ ks -> in_effect gb' (ks_knob k) = ks_value (f k).1) /\ (forall n, pool_bound gb' n = pool_bound gb n) /\
  (forall n, n ∉ map ks_knob ks -> in_effect gb' n = in_effect gb n).
Proof.
  induction ks as [|k ks IH]; intros gb Hnd Hk gb'; [split_and!; [by intros ? ?%elem_of_nil|done|done]|].
  cbn [map] in Hnd. apply NoDup_cons in Hnd as [Hnot Hnd]. destruct (Hk k ltac:(left)) as ((Hok & (Hfk & _ & Hfh & _) & Hch) & He & Hb).
  set (gb1 := match (f k).2 with Some c => apply_change gb c | None => gb end).
  assert (Hone : in_effect gb1 (ks_knob k) = ks_value (f k).1 /\ (forall n, pool_bound gb1 n = pool_bound gb n) /\
    (forall n, n <> ks_knob k -> in_effect gb1 n = in_effect gb n)).
  { subst gb1. destruct (f k).2 as [c|]; [|split_and!; [congruence|done|done]]. destruct Hch as (Hc1 & _ & Hc3 & _). destruct Hok as [[? ?] _ _ _].
    pose proof (fun n => apply_change_effect gb c n ltac:(lia) ltac:(rewrite Hc1; lia)) as Ha. split_and!.
    - rewrite (proj1 (Ha (ks_knob k))), Hc1, decide_True by done. done.
    - intros n. apply Ha.
    - intros n Hn. rewrite (proj1 (Ha n)), Hc1. by rewrite decide_False. }
  destruct Hone as (Hone1 & Hone2 & Hone3).
  assert (gb' = foldl apply_change gb1 (omap (fun k => (f k).2) ks)) as -> by (subst gb' gb1; cbn; by destruct (f k).2).
  destruct (IH gb1 Hnd) as (IH1 & IH2 & IH3).
  { intros k' Hk'. destruct (Hk k' ltac:(by right)) as (Hs & He' & Hb'). rewrite Hone2. split_and!; try done.
    rewrite Hone3; [done|]. intros Heq. apply Hnot. rewrite <- Heq. apply list_elem_of_fmap. by exists k'. }
  split_and!.
  - intros k' [->|Hk']%elem_of_cons; [|by apply IH1]. by rewrite IH3.
  - intros n. by rewrite IH2.
  - intros n [Hn1 Hn2]%not_elem_of_cons. rewrite IH3 by done. by apply Hone3.
Qed.

(** ** Histories of the controller *)

(** What happens between ticks: admissions and drops, dials, and transitions of
    the shared pressure gauge. *)
Inductive ControllerEvent :=
| Tick (now_unix_ms : Z)
| Admit (kind : AdmissionKind)
| Leave (kind : AdmissionKind)
| Dial (now : Z)
| DialDone
| Gauge (s : ResourcePressure).

Definition with_authorities (c : AdaptiveController) (g : Governor) (b : DirectBarrier) : AdaptiveController :=
  {| ac_knobs := ac_knobs c; ac_governor := g; ac_barrier := b; ac_pressure := ac_pressure c; ac_tick_index := ac_tick_index c;
     ac_last_pressure := ac_last_pressure c |}.

Definition controller_event (c : AdaptiveController) (e : ControllerEvent) : AdaptiveController :=
  match e with
  | Tick now => (controller_tick c now).1
  | Admit kind => with_authorities c (governor_try_acquire (ac_governor c) kind).2 (ac_barrier c)
  | Leave kind => with_authorities c (governor_drop (ac_governor c) kind) (ac_barrier c)
  | Dial now => with_authorities c (ac_governor c) (barrier_try_acquire (ac_barrier c) now).2
  | DialDone => with_authorities c (ac_governor c) (barrier_drop (ac_barrier c))
  | Gauge s =>
    let p := (gauge_set (ac_pressure c) s).1 in
    {| ac_knobs := ac_knobs c; ac_governor := set_governor_pressure (ac_governor c) (Some p);
       ac_barrier := {| concurrency := concurrency (ac_barrier c); rate := rate (ac_barrier c); bar_pressure := Some p |};
       ac_pressure := p; ac_tick_index := ac_tick_index c; ac_last_pressure := ac_last_pressure c |}
  end.

Definition controller_start (policy : EffectivePolicy) : AdaptiveController :=
  controller_new (with_pressure (governor policy) gauge_new) (barrier (direct_barrier policy) (Some gauge_new)) gauge_new policy.

Definition controller_run (policy : EffectivePolicy) (events : list ControllerEvent) : AdaptiveController :=
  foldl controller_event (controller_start policy) events.

(** A knob agrees with the authority it steers. *)
Definition knob_agrees (gb : Governor * DirectBarrier) (k : KnobState) : Prop :=
  in_effect gb (ks_knob k) = ks_value k /\ ks_hard k <= pool_bound gb (ks_knob k).

(** The knobs' identities and bounds, as startup fixed them. *)
Definition bounds_fixed (policy : EffectivePolicy) (ks : list KnobState) : Prop :=
  map ks_knob ks = ALL_KNOBS /\ map ks_hard ks = startup_values policy /\
  map ks_floor ks = zip_with (fun s d => Z.max (Z.min d s) 1) (startup_values policy) (startup_values policy_default).

Record controller_inv (policy : EffectivePolicy) (c : AdaptiveController) : Prop := {
  cv_bounds : bounds_fixed policy (ac_knobs c);
  cv_knobs : Forall knob_ok (ac_knobs c);
  cv_agree : Forall (knob_agrees (ac_governor c, ac_barrier c)) (ac_knobs c)
}.

Definition startup_ok (policy : EffectivePolicy) : Prop := Forall (fun v => 1 <= v <= U32_MAX) (startup_values policy).

Lemma all_knobs_nodup : NoDup ALL_KNOBS.
Proof. by apply (bool_decide_unpack (NoDup ALL_KNOBS)); vm_compute. Qed.

(** A round of any step that keeps its knob in range keeps the controller's
    invariant. *)
Lemma round_inv policy (f : KnobState -> KnobState * option CeilingChange) ks gb :
  (forall k, knob_ok k -> knob_step_ok k (f k)) -> bounds_fixed policy ks -> Forall knob_ok ks -> Forall (knob_agrees gb) ks ->
  let '(ks', changes) := tick_knobs f ks in
  let gb' := foldl apply_change gb changes in
  bounds_fixed policy ks' /\ Forall knob_ok ks' /\ Forall (knob_agrees gb') ks'.
Proof.
  intros Hf (Hb1 & Hb2 & Hb3) Hk Ha. unfold tick_knobs. rewrite Forall_forall in Hk, Ha.
  assert (Hstep : forall k, k ∈ ks -> knob_step_ok k (f k)) by (intros k Hin; apply Hf, Hk, Hin).
  destruct (apply_round f ks gb) as (A1 & A2 & _); [rewrite Hb1; apply all_knobs_nodup|intros k Hin; split; [by apply Hstep|by apply Ha]|].
  assert (Hmap : forall A (g : KnobState -> A), (forall k, k ∈ ks -> g (f k).1 = g k) -> map g (map (fun k => (f k).1) ks) = map g ks).
  { intros A g Hg. rewrite map_map. apply map_ext_in. intros k Hin. apply Hg. by apply list_elem_of_In. }
  split_and!.
  - unfold bounds_fixed. rewrite !Hmap; try done; intros k Hin; destruct (Hstep k Hin) as (_ & (? & ? & ? & ?) & _); congruence.
  - apply Forall_map, Forall_forall. intros k Hin. by apply Hstep.
  - apply Forall_map, Forall_forall. intros k Hin. destruct (Hstep k Hin) as (_ & (Hn & _ & Hh & _) & _).
    split; [rewrite Hn; by apply A1|]. rewrite Hh, Hn, A2. by apply Ha.
Qed.

(** Everything but a tick leaves the ceilings, the rate and the bounds alone. *)
Lemma acquire_keeps s : cs_ceiling (pool_try_acquire s).1 = cs_ceiling s /\ cs_hard_bound (pool_try_acquire s).1 = cs_hard_bound s.
Proof.
  unfold pool_try_acquire. cbn [ceiling_step]. unfold acquire_loop. cbn [cs_in_flight]. rewrite Z.eqb_refl. cbn [orb negb].
  destruct (ceiling s <=? cs_in_flight s); [done|]. cbn [ceiling_step]. unfold try_acquire_owned. destruct (0 <? _); done.
Qed.

Lemma try_take_rate g now : gate_rate (try_take_at g now).1 = gate_rate g.
Proof.
  destruct (Z.eqb_spec (dg_interval_nanos g) 0) as [Hz|Hz].
  - unfold try_take_at. cbn [gate_step]. by rewrite (proj2 (Z.eqb_eq _ _) Hz).
  - rewrite try_take_at_spec by done. repeat case_match; done.
Qed.

Lemma event_keeps c e k : (forall now, e <> Tick now) ->
  ac_knobs (controller_event c e) = ac_knobs c /\
  in_effect (ac_governor (controller_event c e), ac_barrier (controller_event c e)) k = in_effect (ac_governor c, ac_barrier c) k /\
  pool_bound (ac_governor (controller_event c e), ac_barrier (controller_event c e)) k = pool_bound (ac_governor c, ac_barrier c) k.
Proof.
  intros Hn. destruct e as [now|kind|kind|now| |s]; [by destruct (Hn now)|..]; cbn [controller_event with_authorities ac_knobs ac_governor ac_barrier];
    (split; [done|]); unfold in_effect, pool_bound, governor_ceiling, concurrency_ceiling, rate_per_second, ceiling; cbn [fst snd].
  - unfold governor_try_acquire. destruct (pressure_refuses (ac_governor c) kind); [done|].
    pose proof (acquire_keeps (pool (ac_governor c) kind)) as [H1 H2]. destruct (pool_try_acquire (pool (ac_governor c) kind)) as [s g].
    cbn [fst snd] in *. destruct (admission_kind k) as [j|]; [|done]. rewrite !pool_set_pool. by destruct (decide (j = kind)) as [->|].
  - unfold governor_drop. destruct (admission_kind k) as [j|]; [|done]. rewrite !pool_set_pool. by destruct (decide (j = kind)) as [->|].
  - unfold barrier_try_acquire. destruct (barrier_critical (ac_barrier c)); [done|].
    pose proof (acquire_keeps (concurrency (ac_barrier c))) as [H1 H2]. pose proof (try_take_rate (rate (ac_barrier c)) now) as H3.
    destruct (pool_try_acquire (concurrency (ac_barrier c))) as [s []]; destruct (try_take_at (rate (ac_barrier c)) now) as [r []];
      cbn [fst snd concurrency rate pool_drop ceiling_step drop_permit drop_owned cs_ceiling cs_hard_bound with_permits with_in_flight] in *;
      rewrite ?H1, ?H2, ?H3; done.
  - done.
  - destruct k; done.
Qed.

Lemma tick_inv policy c now : controller_inv policy c -> controller_inv policy (controller_tick c now).1 /\
  (gauge_state (ac_pressure c) = Critical -> Forall (fun k => ks_value k = ks_floor k) (ac_knobs (controller_tick c now).1)).
Proof.
  intros [Hb Hk Ha]. unfold controller_tick. destruct (decide (gauge_state (ac_pressure c) = Critical)) as [Hc|Hc].
  - pose proof (round_inv policy (fun k => clamp_to_floor k (saturating_add_u64 (ac_tick_index c) 1) now) _ _
      (fun k Hk => proj1 (clamp_to_floor_ok k _ _ Hk)) Hb Hk Ha) as (R1 & R2 & R3).
    unfold tick_knobs in *. destruct (foldl apply_change (ac_governor c, ac_barrier c) _) as [g b].
    split; [by split|]. intros _. cbn. apply Forall_map. eapply Forall_impl; [exact Hk|]. intros k Hok.
    destruct (clamp_to_floor_ok k (saturating_add_u64 (ac_tick_index c) 1) now Hok) as [(_ & (_ & Hf & _) & _) Hv]. by rewrite Hv, Hf.
  - pose proof (round_inv policy (fun k => knob_tick k (knob_in_flight (ac_governor c) (ac_barrier c) (ks_knob k))
      (saturating_add_u64 (ac_tick_index c) 1) now) _ _ (fun k Hk => knob_tick_ok k _ _ _ Hk) Hb Hk Ha) as (R1 & R2 & R3).
    unfold tick_knobs in *. destruct (foldl apply_change (ac_governor c, ac_barrier c) _) as [g b]. split; [by split|done].
Qed.

Lemma event_inv policy c e : controller_inv policy c -> controller_inv policy (controller_event c e).
Proof.
  intros I. destruct e as [now|kind|kind|now| |s]; [by apply (tick_inv policy c now)|..]; destruct I as [Hb Hk Ha]; (split; [done|done|]);
    (eapply Forall_impl; [exact Ha|]); intros k [H1 H2]; unfold knob_agrees.
  all: match goal with |- context [controller_event ?x ?e] => destruct (event_keeps x e (ks_knob k)) as (_ & E1 & E2); [done|] end;
    by rewrite E1, E2.
Qed.

Lemma controller_start_inv policy : startup_ok policy -> controller_inv policy (controller_start policy).
Proof.
  unfold startup_ok, startup_values. intros H. repeat (apply Forall_cons in H as [? H]). split.
  - by repeat split.
  - cbn. repeat (constructor; [apply knob_new_ok; [done|lia]|]). constructor.
  - cbn. repeat apply Forall_cons_2; try apply Forall_nil_2; split; cbn; try done; try lia.
    all: rewrite decide_False by done; try lia. unfold rate_per_second, gate_rate. cbn [barrier rate dial_gate_new].
    unfold dial_gate_new. destruct (rate_timing _). cbn [dg_rate_per_second].
    rewrite (proj2 (try_from_some U32_MAX _ (max_per_second (direct_barrier policy)))); [done|lia].
Qed.

Lemma controller_run_inv policy events : startup_ok policy -> controller_inv policy (controller_run policy events).
Proof.
  intros Hs. unfold controller_run. assert (I : controller_inv policy (controller_start policy)) by by apply controller_start_inv.
  revert I. generalize (controller_start policy). induction events as [|e events IH]; intros c I; cbn; [done|]. apply IH. by apply event_inv.
Qed.

(** ** Claims *)

(** C33: the controller only moves ceilings inside the bounds startup fixed, and
    what it decided is what the pools enforce. For any policy with positive u32
    limits, after any interleaving of ticks with admissions, drops, dials and
    pressure transitions: the eight knobs keep their startup bounds and floors,
    each value lies between its floor and its startup value, and the soft ceiling
    (or dial rate) in effect at the knob's pool is exactly that value. A tick
    under critical pressure puts every one of them at its floor at once. *)
Theorem adaptive_ceilings_bounded (policy : EffectivePolicy) (events : list ControllerEvent) (now : Z) :
  startup_ok policy ->
  let c := controller_run policy events in
  bounds_fixed policy (ac_knobs c) /\
  Forall (fun k => ks_floor k <= ks_value k <= ks_hard k /\ in_effect (ac_governor c, ac_barrier c) (ks_knob k) = ks_value k) (ac_knobs c) /\
  (gauge_state (ac_pressure c) = Critical ->
   let c' := controller_event c (Tick now) in
   Forall (fun k => in_effect (ac_governor c', ac_barrier c') (ks_knob k) = ks_floor k) (ac_knobs c')).
Proof.
  intros Hs c. pose proof (controller_run_inv policy events Hs) as I. fold c in I. split_and!; [apply I| |].
  - destruct I as [_ Hk Ha]. apply Forall_forall. intros k Hin. rewrite Forall_forall in Hk, Ha.
    destruct (Hk k Hin) as [[? ?] _ _ _]. destruct (Ha k Hin) as [? _]. split; [lia|done].
  - intros Hc c'. destruct (tick_inv policy c now I) as [[_ _ Ha] Hf]. specialize (Hf Hc). apply Forall_forall. intros k Hin.
    rewrite Forall_forall in Ha, Hf. rewrite <- (Hf k Hin). by apply Ha.
Qed.

Lemma adaptive_ceilings_bounded_witness :
  let events := [Admit Connection; Gauge Critical] in
  let c := controller_run policy_default events in
  startup_ok policy_default /\ gauge_state (ac_pressure c) = Critical /\
  Forall (fun k => in_effect (ac_governor (controller_event c (Tick 7)), ac_barrier (controller_event c (Tick 7))) (ks_knob k) = ks_floor k)
    (ac_knobs (controller_event c (Tick 7))).
Proof.
  intros events c. assert (Hs : startup_ok policy_default) by (repeat (constructor; [vm_compute; split; congruence|]); constructor).
  split; [exact Hs|]. split; [by vm_compute|].
  exact (proj2 (proj2 (adaptive_ceilings_bounded policy_default events 7 Hs)) eq_refl).
Defined.

(** A consistent plan is a policy the controller can steer. *)
Lemma consistent_startup p : consistent p -> startup_ok p.
Proof.
  intros []. unfold startup_ok, startup_values. change (sl_max_connections limits_default) with 262144 in *. unfold U32_MAX in *.
  repeat (constructor; [lia|]). constructor.
Qed.

(** ** A knob under sustained demand *)

(** Samples at consecutive ticks, the first at [tick + 1]. *)
Fixpoint knob_samples (k : KnobState) (tick : Z) (samples : list Z) : KnobState :=
  match samples with
  | [] => k
  | s :: samples => knob_samples (knob_tick k s (tick + 1) 0).1 (tick + 1) samples
  end.

Definition last_change_by (k : KnobState) (tick : Z) : Prop := match ks_last_change_tick k with Some l => l <= tick | None => True end.

(** A sample that saturates the knob whatever its value. *)
Definition saturating_sample (k : KnobState) (s : Z) : Prop := ks_hard k * HIGH_UTILIZATION_PERCENT <= s * 100 /\ 0 <= s <= U32_MAX.

Lemma saturating_is_high k s : knob_ok k -> saturating_sample k s -> is_high (age k) s = true.
Proof.
  intros [[H1 H2] _ _ _] [Hs Hr]. unfold is_high, saturating_mul_u64, age, HIGH_UTILIZATION_PERCENT, U32_MAX, U64_MAX in *. cbn. lia.
Qed.

(** What one such tick does: at the hard bound nothing, otherwise a step up once
    three high ticks and the dwell have passed. *)
Lemma high_tick k s t : knob_ok k -> saturating_sample k s ->
  let k' := (knob_tick k s t 0).1 in
  (ks_value k = ks_hard k -> ks_value k' = ks_hard k /\ ks_last_change_tick k' = ks_last_change_tick k) /\
  (ks_value k < ks_hard k ->
   if (SCALE_UP_TICKS <=? saturating_inc_u8 (ks_above_ticks k)) && dwell_elapsed k t
   then ks_value k' = Z.min (ks_hard k) (ks_value k + ks_step k) /\ ks_last_change_tick k' = Some t
   else ks_value k' = ks_value k /\ ks_last_change_tick k' = ks_last_change_tick k /\
        ks_above_ticks k' = saturating_inc_u8 (ks_above_ticks k)).
Proof.
  intros K Hs k'. subst k'. pose proof K as [[H1 H2] H3 _ _]. unfold knob_tick. rewrite (saturating_is_high k s K Hs). cbn [with_ticks ks_above_ticks ks_below_ticks age].
  destruct (SCALE_UP_TICKS <=? saturating_inc_u8 (ks_above_ticks k)) eqn:Hup; cbn [andb];
    [|destruct (Z.leb_spec SCALE_DOWN_TICKS 0) as [Hx|_]; [by vm_compute in Hx|by cbn]].
  unfold knob_move. change (dwell_elapsed (with_ticks (age k) _ _) t) with (dwell_elapsed k t).
  destruct (dwell_elapsed k t); cbn [negb]; [|by cbn].
  cbn [with_ticks age ks_value ks_step ks_hard]. unfold saturating_add_u64, U32_MAX, U64_MAX in *.
  destruct (Z.eqb_spec (Z.min (Z.min 18446744073709551615 (ks_value k + ks_step k)) (ks_hard k)) (ks_value k)); cbn; split; intros; lia || (split; [lia|done]).
Qed.

Lemma knob_tick_frame k s t : knob_ok k -> knob_ok (knob_tick k s t 0).1 /\ knob_frame k (knob_tick k s t 0).1.
Proof. intros K. destruct (knob_tick_ok k s t 0 K) as (? & ? & _). done. Qed.

(** [j] high ticks into a block of six that began after tick [t0]: either the
    block's step has been taken, or the high ticks are all counted. *)
Definition block_state (v0 hard step t0 : Z) (j : nat) (k : KnobState) : Prop :=
  (ks_value k = Z.min hard (v0 + step) /\ exists l, ks_last_change_tick k = Some l /\ t0 < l <= t0 + Z.of_nat j) \/
  (ks_value k = v0 /\ Z.of_nat j <= ks_above_ticks k /\ last_change_by k t0).

Lemma block_step v0 hard step t0 j k s : (j < 6)%nat -> v0 < hard -> knob_ok k -> ks_hard k = hard -> ks_step k = step -> saturating_sample k s ->
  block_state v0 hard step t0 j k -> block_state v0 hard step t0 (S j) (knob_tick k s (t0 + Z.of_nat j + 1) 0).1.
Proof.
  intros Hj Hv K Hh Hst Hs Hb. destruct (high_tick k s (t0 + Z.of_nat j + 1) K Hs) as [Hhard Hlow]. pose proof K as [[H1 H2] H3 Hab _].
  set (k' := (knob_tick k s (t0 + Z.of_nat j + 1) 0).1) in *. unfold block_state, dwell_elapsed, SCALE_UP_TICKS, saturating_inc_u8, U8_MAX in *.
  change DWELL_TICKS with 6 in *. unfold saturating_sub in *.
  destruct Hb as [(Hval & l & Hl & Hlr)|(Hval & Habove & Hlast)].
  - left. destruct (Z.eq_dec (ks_value k) (ks_hard k)) as [He|He].
    + destruct (Hhard He) as [E1 E2]. split; [lia|]. exists l. rewrite E2. split; [done|lia].
    + specialize (Hlow ltac:(lia)). rewrite Hl in Hlow. destruct (Z.leb_spec 6 (Z.max 0 (t0 + Z.of_nat j + 1 - l))); [lia|].
      rewrite andb_false_r in Hlow. destruct Hlow as (E1 & E2 & _). split; [lia|]. exists l. rewrite E2. split; [done|lia].
  - specialize (Hlow ltac:(lia)).
    destruct ((3 <=? Z.min 255 (ks_above_ticks k + 1)) && _).
    + left. destruct Hlow as [E1 E2]. split; [lia|]. exists (t0 + Z.of_nat j + 1). split; [done|lia].
    + right. destruct Hlow as (E1 & E2 & E3). split_and!; [lia|lia|]. unfold last_change_by in *. by rewrite E2.
Qed.

Lemma block_last v0 hard step t0 k s : v0 < hard -> knob_ok k -> ks_hard k = hard -> ks_step k = step -> saturating_sample k s ->
  block_state v0 hard step t0 5 k ->
  ks_value (knob_tick k s (t0 + 6) 0).1 = Z.min hard (v0 + step) /\ last_change_by (knob_tick k s (t0 + 6) 0).1 (t0 + 6).
Proof.
  intros Hv K Hh Hst Hs Hb. pose proof (block_step v0 hard step t0 5 k s ltac:(lia) Hv K Hh Hst Hs Hb) as Hn.
  replace (t0 + Z.of_nat 5 + 1) with (t0 + 6) in Hn by lia. unfold last_change_by.
  destruct Hn as [(Hval & l & -> & Hl)|(Hval & _ & _)]; [split; [done|lia]|]. exfalso.
  destruct (high_tick k s (t0 + 6) K Hs) as [Hhard Hlow]. pose proof K as [[H1 H2] H3 _ _].
  destruct Hb as [(Hv1 & _)|(Hv1 & Ha & Hl)].
  - assert (ks_value k <> v0) by lia. destruct (Z.eq_dec (ks_value k) (ks_hard k)) as [He|He]; [destruct (Hhard He); lia|].
    specialize (Hlow ltac:(lia)). destruct (_ && _); destruct Hlow; lia.
  - specialize (Hlow ltac:(lia)). unfold saturating_inc_u8, SCALE_UP_TICKS, U8_MAX, dwell_elapsed, last_change_by in *.
    change DWELL_TICKS with 6 in *. unfold saturating_sub in *.
    destruct (Z.leb_spec 3 (Z.min 255 (ks_above_ticks k + 1))); [|lia].
    destruct (ks_last_change_tick k) as [l|]; [destruct (Z.leb_spec 6 (Z.max 0 (t0 + 6 - l))); [|lia]|]; destruct Hlow; lia.
Qed.

(** Samples keep the knob in range and framed. *)
Lemma knob_samples_ok samples : forall k t, knob_ok k -> knob_ok (knob_samples k t samples) /\ knob_frame k (knob_samples k t samples).
Proof.
  induction samples as [|s samples IH]; intros k t K; cbn; [done|]. destruct (knob_tick_frame k s (t + 1) K) as [K1 (F1 & F2 & F3 & F4)].
  destruct (IH _ (t + 1) K1) as [K2 (G1 & G2 & G3 & G4)]. split; [done|]. unfold knob_frame. split_and!; congruence.
Qed.

Lemma knob_samples_app s1 s2 : forall k t, knob_samples k t (s1 ++ s2) = knob_samples (knob_samples k t s1) (t + len s1) s2.
Proof.
  induction s1 as [|s s1 IH]; intros k t; cbn [app knob_samples]; [by rewrite len_nil, Z.add_0_r|]. rewrite IH, len_cons. f_equal. lia.
Qed.

(** At the hard bound demand changes nothing. *)
Lemma samples_at_hard samples : forall k t, knob_ok k -> ks_value k = ks_hard k -> last_change_by k t -> Forall (saturating_sample k) samples ->
  ks_value (knob_samples k t samples) = ks_hard k /\ last_change_by (knob_samples k t samples) (t + len samples).
Proof.
  induction samples as [|s samples IH]; intros k t K Hv Hl Hs; [by rewrite len_nil, Z.add_0_r|]. apply Forall_cons in Hs as [Hs Hss].
  destruct (high_tick k s (t + 1) K Hs) as [Hh _]. destruct (Hh Hv) as [E1 E2]. destruct (knob_tick_frame k s (t + 1) K) as [K1 (F1 & F2 & F3 & F4)].
  cbn [knob_samples]. destruct (IH _ (t + 1) K1) as [G1 G2]; [congruence| |by unfold saturating_sample in *; rewrite F3|].
  - unfold last_change_by in *. rewrite E2. destruct (ks_last_change_tick k); [lia|done].
  - rewrite len_cons, Z.add_assoc. split; [congruence|done].
Qed.

(** A block of six saturated ticks takes exactly one step. *)
Lemma block_of_six k t samples : knob_ok k -> last_change_by k t -> length samples = 6%nat -> Forall (saturating_sample k) samples ->
  ks_value (knob_samples k t samples) = Z.min (ks_hard k) (ks_value k + ks_step k) /\ last_change_by (knob_samples k t samples) (t + 6).
Proof.
  intros K Hl Hlen Hs. pose proof K as [[H1 H2] H3 Hab _]. destruct (Z.eq_dec (ks_value k) (ks_hard k)) as [He|He].
  { destruct (samples_at_hard samples k t K He Hl Hs) as [E1 E2]. unfold len in E2. rewrite Hlen in E2. split; [lia|done]. }
  assert (Hn : forall j k', (j <= 5)%nat -> forall ss, length ss = j -> Forall (saturating_sample k) ss ->
    k' = knob_samples k t ss -> block_state (ks_value k) (ks_hard k) (ks_step k) t j k').
  { induction j as [|j IH]; intros k' Hj ss Hss Hsat ->.
    - destruct ss; [|done]. right. cbn. split_and!; [done|lia|done].
    - destruct (@exists_last _ ss ltac:(by intros ->)) as (ss1 & s & ->). rewrite length_app in Hss. cbn in Hss.
      apply Forall_app in Hsat as [Hsat1 Hsat2]. apply Forall_cons in Hsat2 as [Hs1 _].
      rewrite knob_samples_app. cbn [knob_samples]. destruct (knob_samples_ok ss1 k t K) as [K1 (F1 & F2 & F3 & F4)].
      replace (t + len ss1 + 1) with (t + Z.of_nat j + 1) by (unfold len; lia).
      apply block_step; try done; try lia; [unfold saturating_sample in *; by rewrite F3|]. by apply (IH _ ltac:(lia) ss1 ltac:(lia)). }
  destruct (@exists_last _ samples ltac:(by intros ->)) as (ss1 & s & ->). rewrite length_app in Hlen. cbn in Hlen.
  apply Forall_app in Hs as [Hs1 Hs2]. apply Forall_cons in Hs2 as [Hs2 _].
  rewrite knob_samples_app. cbn [knob_samples]. destruct (knob_samples_ok ss1 k t K) as [K1 (F1 & F2 & F3 & F4)].
  replace (t + len ss1 + 1) with (t + 6) by (unfold len; lia).
  apply block_last; try done; [lia|unfold saturating_sample in *; by rewrite F3|]. by apply (Hn 5%nat _ ltac:(lia) ss1 ltac:(lia)).
Qed.

(** A knob recovers at the designed pace. From any state a knob can be in,
    however far critical pressure clamped it, every six consecutive ticks of
    saturated demand raise its ceiling by exactly one quantized step, until it is
    back at its startup value, where it stays: after [6 n] such ticks the value is
    the startup value or [n] steps above where it began, whichever is smaller.
    Neither the hysteresis counters nor the dwell can hold it back longer, nor let
    it move faster. *)
Theorem knob_recovers (n : nat) (k : KnobState) (t : Z) (samples : list Z) :
  knob_ok k -> last_change_by k t -> length samples = (6 * n)%nat -> Forall (saturating_sample k) samples ->
  ks_value (knob_samples k t samples) = Z.min (ks_hard k) (ks_value k + Z.of_nat n * ks_step k).
Proof.
  revert k t samples. induction n as [|n IH]; intros k t samples K Hl Hlen Hs.
  { destruct samples; [|done]. cbn. pose proof K as [[? ?] _ _ _]. lia. }
  assert (exists a b, samples = a ++ b /\ length a = 6%nat) as (a & b & -> & Ha).
  { exists (take 6 samples), (drop 6 samples). rewrite take_drop, length_take. split; [done|lia]. }
  apply Forall_app in Hs as [Hsa Hsb]. rewrite length_app in Hlen.
  destruct (block_of_six k t a K Hl Ha Hsa) as [Hv Hl']. destruct (knob_samples_ok a k t K) as [K1 (F1 & F2 & F3 & F4)].
  rewrite knob_samples_app. replace (t + len a) with (t + 6) by (unfold len; lia).
  rewrite (IH _ (t + 6) b K1 Hl') by (lia || (unfold saturating_sample in *; by rewrite F3)). rewrite F3, F4, Hv.
  pose proof K as [[? ?] ? _ _]. nia.
Qed.

(** From its floor this connection knob is back after three blocks of six ticks. *)
Lemma knob_recovers_witness :
  let k := (clamp_to_floor (knob_new Connections 65536 16384) 10 0).1 in
  ks_value k = 16384 /\ ks_value (knob_samples k 10 (replicate 18 60000)) = 65536.
Proof.
  intros k. split; [by vm_compute|]. refine (eq_trans (knob_recovers 3 k 10 (replicate 18 60000) _ _ _ _) _).
  - split; vm_compute; first [split; split; congruence|split; congruence|congruence].
  - vm_compute. congruence.
  - reflexivity.
  - apply Forall_forall. intros x [-> _]%elem_of_replicate. split; [|split]; vm_compute; congruence.
  - by vm_compute.
Defined.
