(* ===== verification/Routing.v ===== *)
(** * Server-side routing ([src/server/routing.rs], [src/config/node/routing.rs])

    Rules compiled from the configuration, the candidate index of long rule
    lists, and the selection of an outbound with and without name resolution. The
    asset snapshot is the class [AssetMatcher], the code's trait; the [regex] and
    [aho_corasick] crates are the classes [RegexOps] and [SearchOps]. *)

From stdpp Require Import gmap pretty.
From S2P Require Import Prelude SortedTable NetText VlessRequest Effects Replay ServerName HandoffPolicy UserMap Pressure Policy Admission.
#[local] Open Scope Z_scope.

Definition MAX_RESOLVED_IPS : Z := 64.
Definition INDEXED_RULE_LIMIT : Z := 64.

(** ** The outside *)

Inductive AssetSource := GeoSite | GeoIp | External (file : list byte).

Class AssetMatcher := {
  matches_domain : AssetSource -> list byte -> list byte -> bool;
  matches_ip : AssetSource -> list byte -> IpAddr -> bool;
}.

Definition EmptyAssetMatcher : AssetMatcher := {| matches_domain _ _ _ := false; matches_ip _ _ _ := false |}.

(** A case-insensitive regular expression. *)
Class RegexOps := { Regex : Type; regex_build : list byte -> option Regex; is_match : Regex -> list byte -> bool }.

(** The automaton over a list of patterns; [find_iter] gives the pattern and the
    start of each match, in the order they are found. *)
Class SearchOps := {
  Automaton : Type;
  ac_build : list (list byte) -> option Automaton;
  find_iter : Automaton -> list byte -> list (nat * nat);
}.

(** ** Configuration *)

Record RouteRule := {
  rr_name : option (list byte); rr_domain : option (list (list byte)); rr_ip : option (list (list byte)); rr_port : option (list (list byte));
  rr_outbound : list byte;
}.
Definition rule_domain (r : RouteRule) : list (list byte) := default [] (rr_domain r).
Definition rule_ip (r : RouteRule) : list (list byte) := default [] (rr_ip r).
Definition rule_port (r : RouteRule) : list (list byte) := default [] (rr_port r).

Inductive DomainStrategy := AsIs | ResolveIfNoMatch | ResolveOnDemand.
#[export] Instance DomainStrategy_eq_dec : EqDecision DomainStrategy.
Proof. solve_decision. Defined.

Record RoutePolicy := { rp_default : list byte; rp_rules : option (list RouteRule) }.

(** [policies]: a [BTreeMap], in the order of its names. *)
Record RoutingConfig := {
  rg_default : list byte; rg_strategy : option DomainStrategy; rg_rules : option (list RouteRule);
  rg_policies : option (list (list byte * RoutePolicy));
}.
Definition config_strategy (c : RoutingConfig) : DomainStrategy := default ResolveIfNoMatch (rg_strategy c).
Definition config_rules (c : RoutingConfig) : list RouteRule := default [] (rg_rules c).
Definition config_policies (c : RoutingConfig) : list (list byte * RoutePolicy) := default [] (rg_policies c).
Definition policy_rules (p : RoutePolicy) : list RouteRule := default [] (rp_rules p).

(** The part of [UserConfig] the router reads. *)
Record UserConfig := { uc_id : list byte; uc_policy : option (list byte) }.

Inductive RoutingCompileError := RcInvalidUuid | RcInvalidRegex | RcInvalidIp | RcInvalidPort | RcUnknownPolicy.

Inductive RouteResolutionError := RtUnknownUser | RtDnsTimeout | RtDnsLimit | RtDns | RtNoAddresses | RtTooManyAddresses | RtAllocation.

(** ** Matchers *)

Definition external_matcher (input : list byte) : option (list byte * list byte) :=
  if (length input <? 4)%nat then None
  else if eq_ignore_ascii_case (take 4 input) (bytes_of "ext:") then split_once x3a (drop 4 input) else None.

(** *** Networks and ports *)

Inductive IpNetwork := NwV4 (network prefix : Z) | NwV6 (network prefix : Z).

(** [uN::MAX << (N - prefix)]. [parse_prefix] keeps the prefix within the width,
    so the subtraction does not overflow. *)
Definition width_mask (width prefix : Z) : Z :=
  if prefix =? 0 then 0 else Z.land (Z.shiftl (Z.ones width) (width - prefix)) (Z.ones width).
Definition prefix_mask_u32 : Z -> Z := width_mask 32.
Definition prefix_mask_u128 : Z -> Z := width_mask 128.

Definition parse_prefix (prefix : option (list byte)) (maximum : Z) : result RoutingCompileError Z :=
  prefix ← match prefix with None => Ok maximum | Some value => ok_or RcInvalidIp (parse_unsigned 255 value) end;
  guard! maximum <? prefix else RcInvalidIp;
  Ok prefix.

Definition network_compile (input : list byte) : result RoutingCompileError IpNetwork :=
  let '(address, prefix) := match split_once x2f input with None => (input, None) | Some (a, p) => (a, Some p) end in
  address ← ok_or RcInvalidIp (parse_ip address);
  match address with
  | IpV4 o => prefix ← parse_prefix prefix 32; Ok (NwV4 (Z.land (from_be o) (prefix_mask_u32 prefix)) prefix)
  | IpV6 o => prefix ← parse_prefix prefix 128; Ok (NwV6 (Z.land (from_be o) (prefix_mask_u128 prefix)) prefix)
  end.

Definition net_contains (n : IpNetwork) (a : IpAddr) : bool :=
  match n, a with
  | NwV4 network prefix, IpV4 o => Z.land (from_be o) (prefix_mask_u32 prefix) =? network
  | NwV6 network prefix, IpV6 o => Z.land (from_be o) (prefix_mask_u128 prefix) =? network
  | _, _ => false
  end.

Record PortRange := { po_start : Z; po_end : Z }.

Definition port_compile (input : list byte) : result RoutingCompileError PortRange :=
  let '(s, e) := match split_once x2d input with None => (input, input) | Some (s, e) => (s, e) end in
  s ← ok_or RcInvalidPort (parse_unsigned 65535 s);
  e ← ok_or RcInvalidPort (parse_unsigned 65535 e);
  guard! (s =? 0) || (e <? s) else RcInvalidPort;
  Ok {| po_start := s; po_end := e |}.

Definition port_contains (r : PortRange) (port : Z) : bool := (po_start r <=? port) && (port <=? po_end r).

(** *** Domains *)

(** [windows] of a positive width: the empty needle is settled before it. *)
Definition keyword_matches (domain needle : list byte) : bool :=
  (len needle =? 0) || existsb (fun window => bytes_eqb window needle) (windows (length needle) domain).

Definition domain_suffix_matches (domain suffix : list byte) : bool :=
  bytes_eqb domain suffix ||
  ((len suffix <? len domain) && ends_with domain suffix && bool_decide (domain !! (length domain - length suffix - 1)%nat = Some DOT)).

(** ASCII-lowercased once per request; a name already in lower case is borrowed. *)
Definition normalized_domain (d : Destination) : option (list byte) :=
  match address d with
  | Domain name => Some (if existsb is_ascii_uppercase name then to_ascii_lowercase name else name)
  | Ipv4 _ | Ipv6 _ => None
  end.

Section Routing.
Context {AM : AssetMatcher} {RX : RegexOps} {SX : SearchOps}.

Inductive DomainMatcher :=
| DmFull (value : list byte) | DmSuffix (value : list byte) | DmKeyword (value : list byte)
| DmRegex (r : Regex) | DmAsset (source : AssetSource) (label : list byte).

Definition domain_compile (input : list byte) : result RoutingCompileError DomainMatcher :=
  let lower := to_ascii_lowercase input in
  match strip_prefix (bytes_of "full:") lower with
  | Some value => Ok (DmFull value)
  | None =>
  match strip_prefix (bytes_of "domain:") lower with
  | Some value => Ok (DmSuffix (trim_start_matches DOT value))
  | None =>
  match strip_prefix (bytes_of "keyword:") lower with
  | Some value => Ok (DmKeyword value)
  | None =>
  match strip_prefix (bytes_of "regexp:") input with
  | Some value => r ← ok_or RcInvalidRegex (regex_build value); Ok (DmRegex r)
  | None =>
  match strip_prefix (bytes_of "geosite:") lower with
  | Some label => Ok (DmAsset GeoSite label)
  | None =>
  match external_matcher input with
  | Some (file, label) => Ok (DmAsset (External file) (to_ascii_lowercase label))
  | None => Ok (DmSuffix (trim_start_matches DOT lower))
  end end end end end end.

Definition is_indexable (m : DomainMatcher) : bool :=
  match m with
  | DmFull _ | DmSuffix _ => true
  | DmKeyword value => negb (len value =? 0)
  | DmRegex _ | DmAsset _ _ => false
  end.

Definition domain_matcher_matches (m : DomainMatcher) (domain : list byte) : bool :=
  match m with
  | DmFull value => bytes_eqb domain value
  | DmSuffix value => domain_suffix_matches domain value
  | DmKeyword value => keyword_matches domain value
  | DmRegex r => is_match r domain
  | DmAsset source label => matches_domain source label domain
  end.

Inductive IpMatcher := ImNetwork (n : IpNetwork) | ImAsset (source : AssetSource) (label : list byte).

Definition ip_compile (input : list byte) : result RoutingCompileError IpMatcher :=
  let lower := to_ascii_lowercase input in
  match strip_prefix (bytes_of "geoip:") lower with
  | Some label => Ok (ImAsset GeoIp label)
  | None =>
    match external_matcher input with
    | Some (file, label) => Ok (ImAsset (External file) (to_ascii_lowercase label))
    | None => n ← network_compile lower; Ok (ImNetwork n)
    end
  end.

Definition ip_matcher_matches (m : IpMatcher) (a : IpAddr) : bool :=
  match m with ImNetwork n => net_contains n a | ImAsset source label => matches_ip source label a end.

(** ** Compiled rules *)

Record CompiledRule := {
  cr_name : list byte; cr_outbound : list byte; cr_domains : list DomainMatcher; cr_residual_domains : list DomainMatcher;
  cr_ips : list IpMatcher; cr_ports : list PortRange;
}.

(** [.map(f).collect::<Result<Vec<_>, _>>()]. *)
Fixpoint collect_results {E A B} (f : A -> result E B) (l : list A) : result E (list B) :=
  match l with
  | [] => Ok []
  | x :: l => y ← f x; ys ← collect_results f l; Ok (y :: ys)
  end.

Definition rule_compile (r : RouteRule) (label : list byte) : result RoutingCompileError CompiledRule :=
  domains ← collect_results domain_compile (rule_domain r);
  ips ← collect_results ip_compile (rule_ip r);
  ports ← collect_results port_compile (rule_port r);
  Ok {| cr_name := default label (rr_name r); cr_outbound := rr_outbound r; cr_domains := domains;
        cr_residual_domains := filter (fun m => is_indexable m = false) domains; cr_ips := ips; cr_ports := ports |}.

Fixpoint compile_rules_from (i : nat) (rules : list RouteRule) (label : list byte) : result RoutingCompileError (list CompiledRule) :=
  match rules with
  | [] => Ok []
  | r :: rules =>
    c ← rule_compile r (label ++ bytes_of "[" ++ bytes_of (pretty (N.of_nat i)) ++ bytes_of "]");
    cs ← compile_rules_from (S i) rules label;
    Ok (c :: cs)
  end.
Definition compile_rules : list RouteRule -> list byte -> result RoutingCompileError (list CompiledRule) := compile_rules_from 0.

(** ** Evaluation of one rule *)

Record RouteContext := { rc_user_id : UserId; rc_inbound_tag : list byte; rc_destination : Destination; rc_resolved_ips : list IpAddr }.

Definition destination_ips (c : RouteContext) : list IpAddr :=
  match address (rc_destination c) with Ipv4 o => [IpV4 o] | Ipv6 o => [IpV6 o] | Domain _ => [] end ++ rc_resolved_ips c.

Definition domain_group_matches (r : CompiledRule) (domain : option (list byte)) : bool :=
  if len (cr_domains r) =? 0 then true
  else match domain with None => false | Some d => existsb (fun m => domain_matcher_matches m d) (cr_domains r) end.

Definition indexed_domain_matches (r : CompiledRule) (hit : bool) (domain : option (list byte)) : bool :=
  if (len (cr_domains r) =? 0) || hit then true
  else match domain with None => false | Some d => existsb (fun m => domain_matcher_matches m d) (cr_residual_domains r) end.

Definition ip_group_matches (r : CompiledRule) (c : RouteContext) : bool :=
  (len (cr_ips r) =? 0) || existsb (fun a => existsb (fun m => ip_matcher_matches m a) (cr_ips r)) (destination_ips c).

Definition static_groups_match (r : CompiledRule) (c : RouteContext) : bool :=
  (len (cr_ports r) =? 0) || existsb (fun range => port_contains range (port (rc_destination c))) (cr_ports r).

Definition route_matches (r : CompiledRule) (c : RouteContext) (domain : option (list byte)) : bool :=
  domain_group_matches r domain && ip_group_matches r c && static_groups_match r c.
Definition matches_indexed (r : CompiledRule) (hit : bool) (c : RouteContext) (domain : option (list byte)) : bool :=
  indexed_domain_matches r hit domain && ip_group_matches r c && static_groups_match r c.
Definition matches_besides_ip (r : CompiledRule) (c : RouteContext) (domain : option (list byte)) : bool :=
  domain_group_matches r domain && static_groups_match r c.
Definition matches_besides_ip_indexed (r : CompiledRule) (hit : bool) (c : RouteContext) (domain : option (list byte)) : bool :=
  indexed_domain_matches r hit domain && static_groups_match r c.

Inductive RouteScope := ScopeGlobal | ScopePolicy | ScopeDefaultOutbound.
Record RouteDecision := { rd_outbound : list byte; rd_rule_name : list byte; rd_scope : RouteScope }.

Definition decision (r : CompiledRule) (scope : RouteScope) : RouteDecision :=
  {| rd_outbound := cr_outbound r; rd_rule_name := cr_name r; rd_scope := scope |}.

(** ** The candidate index *)

(** The maps are keyed by the matcher's text; their hasher is not modelled. *)
Record RuleIndex := {
  ri_full : gmap (list byte) (list nat); ri_suffix : gmap (list byte) (list nat); ri_keywords : option Automaton;
  ri_keyword_rules : list (list nat); ri_keyword_pattern_bytes : Z; ri_always : list nat;
}.

Definition sum_len (l : list (list byte)) : Z := foldr (fun p n => len p + n) 0 l.

(** The locals of [build]. *)
Record IndexBuilder := {
  ib_full : gmap (list byte) (list nat); ib_suffix : gmap (list byte) (list nat); ib_patterns : list (list byte);
  ib_ids : gmap (list byte) nat; ib_keyword_rules : list (list nat); ib_always : list nat;
}.

(** [entry(key).or_default().push(position)]. *)
Definition push_entry (m : gmap (list byte) (list nat)) (key : list byte) (position : nat) : gmap (list byte) (list nat) :=
  <[key := default [] (m !! key) ++ [position]]> m.

(** [keyword_rules[pattern].push(position)]; a pattern's number is the length of
    [keyword_rules] when it was entered, so the index is in range. *)
Definition index_keyword (b : IndexBuilder) (value : list byte) (position : nat) : option IndexBuilder :=
  if U32_MAX <? len (ib_patterns b) then None
  else
    match ib_ids b !! value with
    | Some pattern =>
      Some {| ib_full := ib_full b; ib_suffix := ib_suffix b; ib_patterns := ib_patterns b; ib_ids := ib_ids b;
              ib_keyword_rules := alter (fun ps => ps ++ [position]) pattern (ib_keyword_rules b); ib_always := ib_always b |}
    | None =>
      let next := length (ib_patterns b) in
      Some {| ib_full := ib_full b; ib_suffix := ib_suffix b; ib_patterns := ib_patterns b ++ [value]; ib_ids := <[value := next]> (ib_ids b);
              ib_keyword_rules := alter (fun ps => ps ++ [position]) next (ib_keyword_rules b ++ [[]]); ib_always := ib_always b |}
    end.

(** One matcher: the builder and whether it was indexed. *)
Definition index_matcher (b : IndexBuilder) (m : DomainMatcher) (position : nat) : option (IndexBuilder * bool) :=
  match m with
  | DmFull value =>
    Some ({| ib_full := push_entry (ib_full b) value position; ib_suffix := ib_suffix b; ib_patterns := ib_patterns b; ib_ids := ib_ids b;
             ib_keyword_rules := ib_keyword_rules b; ib_always := ib_always b |}, true)
  | DmSuffix value =>
    Some ({| ib_full := ib_full b; ib_suffix := push_entry (ib_suffix b) value position; ib_patterns := ib_patterns b; ib_ids := ib_ids b;
             ib_keyword_rules := ib_keyword_rules b; ib_always := ib_always b |}, true)
  | DmKeyword value => if len value =? 0 then Some (b, false) else b ← index_keyword b value position; Some (b, true)
  | DmRegex _ | DmAsset _ _ => Some (b, false)
  end.

Fixpoint index_matchers (b : IndexBuilder) (ms : list DomainMatcher) (position : nat) (indexed : bool) : option (IndexBuilder * bool) :=
  match ms with
  | [] => Some (b, indexed)
  | m :: ms => '(b, hit) ← index_matcher b m position; index_matchers b ms position (indexed || hit)
  end.

Definition push_always (b : IndexBuilder) (position : nat) : IndexBuilder :=
  {| ib_full := ib_full b; ib_suffix := ib_suffix b; ib_patterns := ib_patterns b; ib_ids := ib_ids b;
     ib_keyword_rules := ib_keyword_rules b; ib_always := ib_always b ++ [position] |}.

Fixpoint index_rules (b : IndexBuilder) (rules : list CompiledRule) (position : nat) : option IndexBuilder :=
  match rules with
  | [] => Some b
  | r :: rules =>
    '(b, indexed) ← index_matchers b (cr_domains r) position false;
    let b := if negb indexed || negb (len (cr_residual_domains r) =? 0) then push_always b position else b in
    index_rules b rules (S position)
  end.

Definition empty_builder : IndexBuilder :=
  {| ib_full := ∅; ib_suffix := ∅; ib_patterns := []; ib_ids := ∅; ib_keyword_rules := []; ib_always := [] |}.

Definition build_index (rules : list CompiledRule) : option RuleIndex :=
  if (len rules <? INDEXED_RULE_LIMIT) || (U32_MAX <? len rules) then None
  else
    b ← index_rules empty_builder rules 0;
    keywords ← (if len (ib_patterns b) =? 0 then Some None else a ← ac_build (ib_patterns b); Some (Some a));
    Some {| ri_full := ib_full b; ri_suffix := ib_suffix b; ri_keywords := keywords; ri_keyword_rules := ib_keyword_rules b;
            ri_keyword_pattern_bytes := sum_len (ib_patterns b); ri_always := ib_always b |}.

(** [&domain[index + 1..]] for each dot. *)
Fixpoint after_dots (domain : list byte) : list (list byte) :=
  match domain with
  | [] => []
  | b :: t => if bool_decide (b = DOT) then t :: after_dots t else after_dots t
  end.

Definition positions_of (m : gmap (list byte) (list nat)) (key : list byte) : list nat := default [] (m !! key).

(** An index the code takes for granted. *)
Definition in_range {E A} (o : option A) : result E A := match o with Some a => Ok a | None => Panic end.

(** [keyword_rules[found.pattern()]] panics on a pattern the automaton was not
    built with. *)
Fixpoint keyword_hits {E} (rules : list (list nat)) (found : list (nat * nat)) : result E (list nat) :=
  match found with
  | [] => Ok []
  | (pattern, _) :: found => ps ← in_range (E := E) (rules !! pattern); rest ← keyword_hits rules found; Ok (ps ++ rest)
  end.

Definition domain_hits {E} (ix : RuleIndex) (domain : list byte) : result E (list nat) :=
  keywords ← match ri_keywords ix with None => Ok [] | Some a => keyword_hits (E := E) (ri_keyword_rules ix) (find_iter a domain) end;
  Ok (positions_of (ri_full ix) domain ++ positions_of (ri_suffix ix) domain ++ concat (positions_of (ri_suffix ix) <$> after_dots domain) ++ keywords).

(** [OrderedCandidates::next], to the end: the positions in order, each with
    whether an indexed matcher hit. *)
Fixpoint merge_candidates (always : list nat) {struct always} : list nat -> list (nat * bool) :=
  fix merge (hits : list nat) : list (nat * bool) :=
    match always, hits with
    | a :: always', h :: hits' =>
      if (a <? h)%nat then (a, false) :: merge_candidates always' hits
      else if (h <? a)%nat then (h, true) :: merge hits'
      else (a, true) :: merge_candidates always' hits'
    | a :: always', [] => (a, false) :: merge_candidates always' []
    | [], h :: hits' => (h, true) :: merge hits'
    | [], [] => []
    end.

Definition ordered_candidates {E} (ix : RuleIndex) (domain : option (list byte)) : result E (list (nat * bool)) :=
  hits ← match domain with None => Ok [] | Some d => domain_hits ix d end;
  Ok (merge_candidates (ri_always ix) (dedup_by_key Z.of_nat (sort_by_key Z.of_nat hits))).

(** ** Selection *)

Fixpoint select_candidates {E} (rules : list CompiledRule) (candidates : list (nat * bool)) (c : RouteContext) (domain : option (list byte))
    : result E (option CompiledRule) :=
  match candidates with
  | [] => Ok None
  | (position, hit) :: candidates =>
    match rules !! position with
    | None => Panic
    | Some r => if matches_indexed r hit c domain then Ok (Some r) else select_candidates rules candidates c domain
    end
  end.

Definition select_from_rules {E} (rules : list CompiledRule) (index : option RuleIndex) (c : RouteContext) (domain : option (list byte))
    : result E (option CompiledRule) :=
  match index with
  | None => Ok (List.find (fun r => route_matches r c domain) rules)
  | Some ix => candidates ← ordered_candidates ix domain; select_candidates rules candidates c domain
  end.

Notation pending := (list (CompiledRule * RouteScope)).

(** The two loops of [collect_besides_ip]: the rule found, and [pending] extended. *)
Fixpoint collect_linear (rules : list CompiledRule) (c : RouteContext) (domain : option (list byte)) (scope : RouteScope) (p : pending)
    : option CompiledRule * pending :=
  match rules with
  | [] => (None, p)
  | r :: rules =>
    if negb (matches_besides_ip r c domain) then collect_linear rules c domain scope p
    else if len (cr_ips r) =? 0 then (Some r, p)
    else collect_linear rules c domain scope (p ++ [(r, scope)])
  end.

Fixpoint collect_candidates {E} (rules : list CompiledRule) (candidates : list (nat * bool)) (c : RouteContext) (domain : option (list byte))
    (scope : RouteScope) (p : pending) : result E (option CompiledRule * pending) :=
  match candidates with
  | [] => Ok (None, p)
  | (position, hit) :: candidates =>
    match rules !! position with
    | None => Panic
    | Some r =>
      if negb (matches_besides_ip_indexed r hit c domain) then collect_candidates rules candidates c domain scope p
      else if len (cr_ips r) =? 0 then Ok (Some r, p)
      else collect_candidates rules candidates c domain scope (p ++ [(r, scope)])
    end
  end.

Definition collect_besides_ip {E} (rules : list CompiledRule) (index : option RuleIndex) (c : RouteContext) (domain : option (list byte))
    (scope : RouteScope) (p : pending) : result E (option CompiledRule * pending) :=
  match index with
  | None => Ok (collect_linear rules c domain scope p)
  | Some ix => candidates ← ordered_candidates ix domain; collect_candidates rules candidates c domain scope p
  end.

(** ** The table *)

Record CompiledUserPolicy := {
  cp_name : list byte; cp_default_outbound : list byte; cp_rules : list CompiledRule; cp_index : option RuleIndex; cp_has_ip_rules : bool;
}.

Definition has_ip_rules (rules : list CompiledRule) : bool := existsb (fun r => negb (len (cr_ips r) =? 0)) rules.

Definition policy_compile (name default_outbound : list byte) (rule_list : list RouteRule) : result RoutingCompileError CompiledUserPolicy :=
  rules ← compile_rules rule_list name;
  Ok {| cp_name := name; cp_default_outbound := default_outbound; cp_rules := rules; cp_index := build_index rules;
        cp_has_ip_rules := has_ip_rules rules |}.

Definition default_decision (p : CompiledUserPolicy) : RouteDecision :=
  {| rd_outbound := cp_default_outbound p; rd_rule_name := cp_name p; rd_scope := ScopeDefaultOutbound |}.

(** The asset snapshot is the instance [AM]; the governor is the state of
    [resolve_domain]. *)
Record RoutingTable := {
  rt_global_rules : list CompiledRule; rt_global_index : option RuleIndex; rt_users : AdaptiveUserMap CompiledUserPolicy;
  rt_global_has_ip_rules : bool;
}.

Fixpoint compile_policies (policies : list (list byte * RoutePolicy)) (named : gmap (list byte) CompiledUserPolicy)
    : result RoutingCompileError (gmap (list byte) CompiledUserPolicy) :=
  match policies with
  | [] => Ok named
  | (name, policy) :: policies =>
    compiled ← policy_compile (bytes_of "routing.policies." ++ name) (rp_default policy) (policy_rules policy);
    compile_policies policies (<[name := compiled]> named)
  end.

Section Table.
(** [Uuid::parse_str] of the uuid crate. *)
Context (parse_uuid : list byte -> option UserId).

Fixpoint compile_users (named : gmap (list byte) CompiledUserPolicy) (fallback : CompiledUserPolicy) (clients : list UserConfig)
    : result RoutingCompileError (list (UserId * CompiledUserPolicy)) :=
  match clients with
  | [] => Ok []
  | client :: clients =>
    policy ← match uc_policy client with Some name => ok_or RcUnknownPolicy (named !! name) | None => Ok fallback end;
    uuid ← ok_or RcInvalidUuid (parse_uuid (uc_id client));
    users ← compile_users named fallback clients;
    Ok ((uuid, policy) :: users)
  end.

Definition compile_table (config : RoutingConfig) (clients : list UserConfig) : result RoutingCompileError RoutingTable :=
  global_rules ← compile_rules (config_rules config) (bytes_of "routing.rules");
  fallback ← policy_compile (bytes_of "routing") (rg_default config) (config_rules config);
  named ← compile_policies (config_policies config) ∅;
  users ← compile_users named fallback clients;
  Ok {| rt_global_rules := global_rules; rt_global_index := build_index global_rules; rt_users := from_entries users;
        rt_global_has_ip_rules := has_ip_rules global_rules |}.
End Table.

Definition select_for_user {E} (t : RoutingTable) (c : RouteContext) (domain : option (list byte)) (user : CompiledUserPolicy)
    : result E RouteDecision :=
  global ← select_from_rules (rt_global_rules t) (rt_global_index t) c domain;
  match global with
  | Some r => Ok (decision r ScopeGlobal)
  | None =>
    own ← select_from_rules (cp_rules user) (cp_index user) c domain;
    match own with Some r => Ok (decision r ScopePolicy) | None => Ok (default_decision user) end
  end.

Definition select (t : RoutingTable) (c : RouteContext) : result RouteResolutionError RouteDecision :=
  found ← get (rt_users t) (rc_user_id c);
  user ← ok_or RtUnknownUser found;
  select_for_user t c (normalized_domain (rc_destination c)) user.

Definition select_besides_ip {E} (t : RoutingTable) (c : RouteContext) (domain : option (list byte)) (user : CompiledUserPolicy) (p : pending)
    : result E (option (CompiledRule * RouteScope) * pending) :=
  '(found, p) ← collect_besides_ip (rt_global_rules t) (rt_global_index t) c domain ScopeGlobal p;
  match found with
  | Some r => Ok (Some (r, ScopeGlobal), p)
  | None =>
    '(found, p) ← collect_besides_ip (cp_rules user) (cp_index user) c domain ScopePolicy p;
    match found with Some r => Ok (Some (r, ScopePolicy), p) | None => Ok (None, p) end
  end.

(** ** Resolution *)

(** What the blocking lookup did within the timeout: nothing yet, its task
    failed, it failed, or it returned these addresses. *)
Inductive LookupAnswer := LkTimeout | LkTaskFailed | LkFailed | LkAddresses (addresses : list IpAddr).

(** What one resolution meets: the lookup's answer and the allocator's. *)
Record LookupEnv := { lk_answer : LookupAnswer; lk_alloc : bool }.

Fixpoint collect_addresses (addresses resolved : list IpAddr) : result RouteResolutionError (list IpAddr) :=
  match addresses with
  | [] => Ok resolved
  | ip :: addresses =>
    if bool_decide (ip ∈ resolved) then collect_addresses addresses resolved
    else if len resolved =? MAX_RESOLVED_IPS then Err RtTooManyAddresses
    else collect_addresses addresses (resolved ++ [ip])
  end.

(** The permit lives in the blocking task: it is returned when the lookup ends,
    and kept past a timeout. *)
Definition resolve_domain_with (env : LookupEnv) : IO Governor RouteResolutionError (list IpAddr) := fun g =>
  match governor_try_acquire g DnsLookup with
  | (Ok _, g) =>
    match lk_answer env with
    | LkTimeout => (Err RtDnsTimeout, g)
    | LkTaskFailed | LkFailed => (Err RtDns, governor_drop g DnsLookup)
    | LkAddresses addresses =>
      (guard! negb (lk_alloc env) else RtAllocation;
       resolved ← collect_addresses addresses [];
       guard! len resolved =? 0 else RtNoAddresses;
       Ok resolved, governor_drop g DnsLookup)
    end
  | (_, g) => (Err RtDnsLimit, g)
  end.

Definition resolve_domain (env : LookupEnv) (d : Destination) : IO Governor RouteResolutionError (list IpAddr) :=
  match address d with
  | Domain name => match parse_ip name with Some ip => mret [ip] | None => resolve_domain_with env end
  | Ipv4 _ | Ipv6 _ => mret []
  end.

Definition resolve_udp_egress (env : LookupEnv) (d : Destination) : IO Governor RouteResolutionError (list IpAddr) := resolve_domain env d.

Record ResolvedRoute := { rv_decision : RouteDecision; rv_resolved_ips : list IpAddr }.

Fixpoint first_pending (p : pending) (c : RouteContext) : option (CompiledRule * RouteScope) :=
  match p with
  | [] => None
  | (r, scope) :: p => if ip_group_matches r c then Some (r, scope) else first_pending p c
  end.

Definition pure_io {S E A} (r : result E A) : IO S E A := fun s => (r, s).

Definition select_with_dns (t : RoutingTable) (env : LookupEnv) (user_id : UserId) (inbound_tag : list byte) (d : Destination)
    (strategy : DomainStrategy) : IO Governor RouteResolutionError ResolvedRoute :=
  found ← pure_io (get (rt_users t) user_id);
  user ← pure_io (ok_or RtUnknownUser found);
  let needs_ip := rt_global_has_ip_rules t || cp_has_ip_rules user in
  let context := fun ips => {| rc_user_id := user_id; rc_inbound_tag := inbound_tag; rc_destination := d; rc_resolved_ips := ips |} in
  let domain := normalized_domain d in
  if negb (match address d with Domain _ => true | _ => false end) || bool_decide (strategy = AsIs) || negb needs_ip then
    decision ← pure_io (select_for_user t (context []) domain user);
    mret {| rv_decision := decision; rv_resolved_ips := [] |}
  else if bool_decide (strategy = ResolveIfNoMatch) then
    '(found, p) ← pure_io (select_besides_ip t (context []) domain user []);
    match found with
    | Some (r, scope) => mret {| rv_decision := decision r scope; rv_resolved_ips := [] |}
    | None =>
      ips ← resolve_domain env d;
      match first_pending p (context ips) with
      | Some (r, scope) => mret {| rv_decision := decision r scope; rv_resolved_ips := ips |}
      | None => mret {| rv_decision := default_decision user; rv_resolved_ips := ips |}
      end
    end
  else
    ips ← resolve_domain env d;
    decision ← pure_io (select_for_user t (context ips) domain user);
    mret {| rv_decision := decision; rv_resolved_ips := ips |}.
End Routing.
