(* ===== verification/RoutingExact.v ===== *)
(** * Routing decides as the rules say

    The candidate index gives the same answers as the ordered scan as long as the
    keywords of different rules do not overlap in the name; then the whole
    selection is the first match of the global rules, then of the user's policy,
    then the default. *)

From stdpp Require Import gmap sorting.
From S2P Require Import Prelude SortedTable NetText VlessRequest Effects Replay ServerName HandoffPolicy UserMap Pressure Policy Admission Routing.
#[local] Open Scope Z_scope.

(** ** The pattern search *)

Definition occurs_at (p d : list byte) (s : nat) : Prop := exists a b, d = a ++ p ++ b /\ length a = s.
Definition overlap (s n t m : nat) : Prop := (s < t + m)%nat /\ (t < s + n)%nat.

(** What [aho_corasick] documents of [find_iter]: the matches are occurrences, in
    order and without overlaps, and the search goes on until nothing is left, so
    an occurrence that is not reported overlaps one that is. *)
Class SearchLaws (SX : SearchOps) : Prop := {
  search_found ps a d i s : ac_build ps = Some a -> (i, s) ∈ find_iter a d -> exists p, ps !! i = Some p /\ occurs_at p d s;
  search_disjoint ps a d k l i s j t p : ac_build ps = Some a -> (k < l)%nat -> find_iter a d !! k = Some (i, s) ->
    find_iter a d !! l = Some (j, t) -> ps !! i = Some p -> (s + length p <= t)%nat;
  search_covers ps a d i p s : ac_build ps = Some a -> p <> [] -> ps !! i = Some p -> occurs_at p d s ->
    exists j q t, (j, t) ∈ find_iter a d /\ ps !! j = Some q /\ overlap s (length p) t (length q);
}.

Lemma keyword_occurs d k : k <> [] -> keyword_matches d k = true <-> exists s, occurs_at k d s.
Proof.
  intros Hk. unfold keyword_matches. destruct (Z.eqb_spec (len k) 0) as [H|H]; [destruct k; [done|slen]|]. cbn [orb].
  rewrite existsb_elem. split.
  - intros (w & Hw & ->%bytes_eqb_eq). apply windows_elem in Hw as (p & s & -> & _); [|unfold len in H; lia]. exists (length p), p, s. done.
  - intros (s & a & b & -> & _). exists k. split; [|apply bytes_eqb_refl]. apply windows_elem; [unfold len in H; lia|]. by exists a, b.
Qed.

Lemma after_dots_elem d k : k ∈ after_dots d <-> exists a, d = a ++ DOT :: k.
Proof.
  induction d as [|b d IH]; cbn; [split; [intros H; inversion H|intros [[|? ?] H]; done]|]. case_bool_decide as Hb.
  - subst b. rewrite elem_of_cons, IH. split; [intros [->|[a ->]]; [by exists []|by exists (DOT :: a)]|].
    intros [[|c a] H]; injection H as <-; [by left|right; by exists a].
  - rewrite IH. split; [intros [a ->]; by exists (b :: a)|]. intros [[|c a] H]; injection H as -> H; [done|by exists a].
Qed.

Lemma suffix_matches d k : domain_suffix_matches d k = true <-> d = k \/ k ∈ after_dots d.
Proof.
  unfold domain_suffix_matches. rewrite orb_true_iff, bytes_eqb_eq, !andb_true_iff, Z.ltb_lt, ends_with_true, bool_decide_eq_true, after_dots_elem.
  split; (intros [->|H]; [by left|right]).
  - destruct H as [[Hl [p ->]] Hd]. rewrite len_app in Hl. destruct p as [|c p _] using rev_ind; [slen|]. exists p. rewrite <- app_assoc. cbn.
    rewrite !length_app in Hd. cbn in Hd. replace (length p + 1 + length k - length k - 1)%nat with (length p + 0)%nat in Hd by lia.
    rewrite <- app_assoc, lookup_app_r in Hd by lia. replace (length p + 0 - length p)%nat with 0%nat in Hd by lia. by injection Hd as ->.
  - destruct H as [a ->]. split_and!; [rewrite len_app, len_cons; slen|exists (a ++ [DOT]); by rewrite <- app_assoc|].
    rewrite length_app. cbn. replace (length a + S (length k) - length k - 1)%nat with (length a + 0)%nat by lia.
    rewrite lookup_app_r by lia. by replace (length a + 0 - length a)%nat with 0%nat by lia.
Qed.

(** ** Networks *)

Definition network_covers (a : IpAddr) (prefix : Z) (x : IpAddr) : Prop :=
  match a, x with
  | IpV4 o, IpV4 o' => forall i, 32 - prefix <= i < 32 -> Z.testbit (from_be o') i = Z.testbit (from_be o) i
  | IpV6 o, IpV6 o' => forall i, 128 - prefix <= i < 128 -> Z.testbit (from_be o') i = Z.testbit (from_be o) i
  | _, _ => False
  end.

Lemma width_mask_ok width prefix : 0 <= prefix <= width -> prefix_mask width prefix = Ok (width_mask width prefix).
Proof.
  intros H. unfold prefix_mask, width_mask. destruct (_ =? 0); [done|]. by rewrite (proj2 (Z.ltb_ge width prefix)) by lia.
Qed.

Lemma masked_eq width prefix a b : 0 <= prefix <= width ->
  (Z.land a (width_mask width prefix) =? Z.land b (width_mask width prefix)) = true <-> forall i, width - prefix <= i < width -> Z.testbit a i = Z.testbit b i.
Proof. intros H. destruct (mask_decides width prefix a b H) as (x & Hx & <-). rewrite width_mask_ok in Hx by done. injection Hx as <-. done. Qed.

Lemma parse_prefix_ok p maximum n : 0 <= maximum -> parse_prefix p maximum = Ok n -> 0 <= n <= maximum.
Proof.
  unfold parse_prefix. intros Hm (v & Hv & H)%bind_ok. apply bind_ok in H as (u & Hle%reject_ok%Z.ltb_ge & [= <-]). split; [|done].
  destruct p as [l|]; [|injection Hv as <-; done]. apply ok_or_ok in Hv.
  assert (Hd : forall l acc z, 0 <= acc -> parse_digits 255 l acc = Some z -> 0 <= z).
  { clear. induction l as [|b l IH]; intros acc z Ha; cbn; [by intros [= <-]|]. destruct (digit_value 10 b) as [d|] eqn:Ed; cbn; [|done].
    destruct (_ <? _); [done|]. apply IH. unfold digit_value in Ed. destruct (_ <? 10); [|done]. injection Ed as <-.
    unfold in_rangeb. pose proof (u8_range b). destruct (Z.leb_spec 48 (u8 b)), (Z.leb_spec (u8 b) 57), (Z.leb_spec 97 (u8 b)), (Z.leb_spec 65 (u8 b)), (Z.leb_spec (u8 b) 122), (Z.leb_spec (u8 b) 90); cbn; lia. }
  unfold parse_unsigned in Hv. destruct l as [|b l]; [done|]. case_bool_decide; [destruct l; [done|]|]; by apply Hd in Hv.
Qed.

(** A compiled network contains the addresses that share its leading bits. *)
Lemma network_compile_exact input net : network_compile input = Ok net ->
  exists a prefix, parse_ip (match split_once x2f input with None => input | Some (a, _) => a end) = Some a /\
    0 <= prefix <= (match a with IpV4 _ => 32 | IpV6 _ => 128 end) /\ forall x, net_contains net x = true <-> network_covers a prefix x.
Proof.
  unfold network_compile. destruct (match split_once x2f input with None => _ | Some _ => _ end) as [text prefix] eqn:Et.
  assert (Htext : text = match split_once x2f input with None => input | Some (a, _) => a end) by (destruct (split_once x2f input) as [[]|]; congruence).
  rewrite <- Htext. intros (a & Ha%ok_or_ok & H)%bind_ok. exists a.
  destruct a as [o|o]; apply bind_ok in H as (n & Hn%parse_prefix_ok & [= <-]); try done; exists n; (split_and!; [done|lia|lia|]);
    intros [o'|o']; cbn; try done; by apply masked_eq.
Qed.

Section Index.
Context {AM : AssetMatcher} {RX : RegexOps} {SX : SearchOps}.

(** ** What the builder registers *)

(** [Reg m p]: the matcher [m] was entered for the rule at position [p]. *)
Record registered (Reg : DomainMatcher -> nat -> Prop) (b : IndexBuilder) : Prop := {
  rg_full k p : p ∈ positions_of (ib_full b) k <-> Reg (DmFull k) p;
  rg_suffix k p : p ∈ positions_of (ib_suffix b) k <-> Reg (DmSuffix k) p;
  rg_keyword k p : k <> [] -> (exists i ps, ib_patterns b !! i = Some k /\ ib_keyword_rules b !! i = Some ps /\ p ∈ ps) <-> Reg (DmKeyword k) p;
  rg_ids k i : ib_ids b !! k = Some i <-> ib_patterns b !! i = Some k;
  rg_len : length (ib_keyword_rules b) = length (ib_patterns b);
  rg_nonempty i k : ib_patterns b !! i = Some k -> k <> [];
  rg_used i k : ib_patterns b !! i = Some k -> exists p, Reg (DmKeyword k) p;
}.

Lemma push_entry_elem m k0 n k p : p ∈ positions_of (push_entry m k0 n) k <-> p ∈ positions_of m k \/ k = k0 /\ p = n.
Proof.
  unfold positions_of, push_entry. destruct (decide (k = k0)) as [->|Hne].
  - rewrite lookup_insert_eq. cbn. rewrite elem_of_app, list_elem_of_singleton. naive_solver.
  - rewrite lookup_insert_ne by done. naive_solver.
Qed.

Lemma index_keyword_ok Reg b k n b' : k <> [] -> registered Reg b -> index_keyword b k n = Some b' ->
  registered (fun m p => Reg m p \/ m = DmKeyword k /\ p = n) b' /\ ib_always b' = ib_always b.
Proof.
  intros Hk HR. pose proof (rg_len _ _ HR) as Hlen. unfold index_keyword. destruct (_ <? _); [done|]. destruct (ib_ids b !! k) as [i0|] eqn:Eid.
  - intros [= <-]. split; [|done]. apply (rg_ids _ _ HR) in Eid as Hp.
    assert (Hkr : is_Some (ib_keyword_rules b !! i0)) by (apply lookup_lt_is_Some; rewrite Hlen; by apply lookup_lt_Some in Hp).
    destruct Hkr as [ps0 Hps0]. constructor; cbn; try apply HR.
    + intros k' p. rewrite (rg_full _ _ HR). naive_solver.
    + intros k' p. rewrite (rg_suffix _ _ HR). naive_solver.
    + intros k' p Hk'. rewrite <- (rg_keyword _ _ HR) by done. split.
      * intros (i & ps & Hi & Hps & Hin). destruct (decide (i = i0)) as [->|Hne].
        { rewrite list_lookup_alter_eq, Hps0 in Hps. injection Hps as <-. apply elem_of_app in Hin as [Hin | ->%list_elem_of_singleton]; [left; eauto|].
          right. split; [congruence|done]. }
        { rewrite list_lookup_alter_ne in Hps by done. left. eauto. }
      * intros [(i & ps & Hi & Hps & Hin)|[[= ->] ->]].
        { destruct (decide (i = i0)) as [->|Hne].
          - exists i0, (ps ++ [n]). rewrite list_lookup_alter_eq, Hps. split_and!; [done|done|]. apply elem_of_app. by left.
          - exists i, ps. by rewrite list_lookup_alter_ne. }
        { exists i0, (ps0 ++ [n]). rewrite list_lookup_alter_eq, Hps0. split_and!; [done|done|]. apply elem_of_app. right. by left. }
    + by rewrite length_alter.
    + intros i k' Hi. destruct (rg_used _ _ HR _ _ Hi) as [p ?]. exists p. by left.
  - intros [= <-]. split; [|done]. assert (Hnew : forall i, ib_patterns b !! i <> Some k) by (intros i Hi; apply (rg_ids _ _ HR) in Hi; congruence).
    constructor; cbn.
    + intros k' p. rewrite (rg_full _ _ HR). naive_solver.
    + intros k' p. rewrite (rg_suffix _ _ HR). naive_solver.
    + intros k' p Hk'. rewrite <- (rg_keyword _ _ HR) by done. split.
      * intros (i & ps & Hi & Hps & Hin). destruct (decide (i = length (ib_patterns b))) as [->|Hne].
        { rewrite list_lookup_alter_eq, <- Hlen, list_lookup_middle in Hps by done. injection Hps as <-. apply list_elem_of_singleton in Hin as ->.
          rewrite list_lookup_middle in Hi by done. injection Hi as ->. by right. }
        { rewrite list_lookup_alter_ne in Hps by done. apply lookup_app_Some in Hi as [Hi|[Hge Hi]].
          - left. exists i, ps. split_and!; [done| |done]. rewrite lookup_app_l in Hps by (rewrite Hlen; by apply lookup_lt_Some in Hi). done.
          - apply list_lookup_singleton_Some in Hi as [Hz _]. lia. }
      * intros [(i & ps & Hi & Hps & Hin)|[[= ->] ->]].
        { pose proof (lookup_lt_Some _ _ _ Hi). exists i, ps. split_and!; [by rewrite lookup_app_l|rewrite list_lookup_alter_ne by lia; rewrite lookup_app_l by lia; done|done]. }
        { exists (length (ib_patterns b)), [n]. rewrite list_lookup_alter_eq, <- Hlen at 1. rewrite !list_lookup_middle by done.
          split_and!; [done|done|by left]. }
    + intros k' i. destruct (decide (k' = k)) as [->|Hne].
      * rewrite lookup_insert_eq. split; [intros [= <-]; by apply list_lookup_middle|]. intros [Hi|[Hge [Hz _]%list_lookup_singleton_Some]]%lookup_app_Some; [by destruct (Hnew i)|].
        f_equal. lia.
      * rewrite lookup_insert_ne, (rg_ids _ _ HR) by done. split; [intros Hi; by apply lookup_app_l_Some|].
        intros [Hi|[_ [_ ->]%list_lookup_singleton_Some]]%lookup_app_Some; done.
    + rewrite length_alter, !length_app. cbn. lia.
    + intros i k' [Hi|[_ [_ <-]%list_lookup_singleton_Some]]%lookup_app_Some; [by eapply (rg_nonempty _ _ HR)|done].
    + intros i k' [Hi|[_ [_ <-]%list_lookup_singleton_Some]]%lookup_app_Some; [|exists n; by right].
      destruct (rg_used _ _ HR _ _ Hi) as [p ?]. exists p. by left.
Qed.

Lemma registered_equiv R1 R2 b : (forall m p, R1 m p <-> R2 m p) -> registered R1 b -> registered R2 b.
Proof. intros H HR. destruct HR as [? ? ? ? ? ? Hu]. constructor; intros; rewrite <- ?H; eauto. edestruct Hu as [p Hp]; [done|]. exists p. by apply H. Qed.

Lemma index_matcher_ok Reg b m n b' hit : registered Reg b -> index_matcher b m n = Some (b', hit) ->
  hit = is_indexable m /\ registered (fun m' p => Reg m' p \/ (m' = m /\ is_indexable m = true) /\ p = n) b' /\ ib_always b' = ib_always b.
Proof.
  intros HR. destruct m as [k|k|k|r|src lab]; cbn [index_matcher is_indexable].
  - intros [= <- <-]. split_and!; try done. constructor; cbn; try apply HR.
    + intros k' p. rewrite push_entry_elem, (rg_full _ _ HR). naive_solver.
    + intros k' p. rewrite (rg_suffix _ _ HR). naive_solver.
    + intros k' p Hk. rewrite (rg_keyword _ _ HR) by done. naive_solver.
    + intros i k' Hi. destruct (rg_used _ _ HR _ _ Hi) as [p ?]. exists p. by left.
  - intros [= <- <-]. split_and!; try done. constructor; cbn; try apply HR.
    + intros k' p. rewrite (rg_full _ _ HR). naive_solver.
    + intros k' p. rewrite push_entry_elem, (rg_suffix _ _ HR). naive_solver.
    + intros k' p Hk. rewrite (rg_keyword _ _ HR) by done. naive_solver.
    + intros i k' Hi. destruct (rg_used _ _ HR _ _ Hi) as [p ?]. exists p. by left.
  - destruct (Z.eqb_spec (len k) 0) as [H0|H0].
    + intros [= <- <-]. split_and!; try done. eapply registered_equiv; [|exact HR]. naive_solver.
    + destruct (index_keyword b k n) as [b1|] eqn:E; cbn; [|done]. intros [= <- <-].
      apply (index_keyword_ok Reg) in E as [HR1 Ha]; [|by intros ->|done]. split_and!; try done. eapply registered_equiv; [|exact HR1]. naive_solver.
  - intros [= <- <-]. split_and!; try done. eapply registered_equiv; [|exact HR]. naive_solver.
  - intros [= <- <-]. split_and!; try done. eapply registered_equiv; [|exact HR]. naive_solver.
Qed.

Lemma index_matchers_ok ms n : forall Reg b indexed b' hit, registered Reg b -> index_matchers b ms n indexed = Some (b', hit) ->
  hit = indexed || existsb is_indexable ms /\
  registered (fun m p => Reg m p \/ (m ∈ ms /\ is_indexable m = true) /\ p = n) b' /\ ib_always b' = ib_always b.
Proof.
  induction ms as [|m ms IH]; intros Reg b indexed b' hit HR; cbn [index_matchers].
  - intros [= <- <-]. rewrite orb_false_r. split_and!; try done. eapply registered_equiv; [|exact HR]. intros m p. rewrite elem_of_nil. naive_solver.
  - destruct (index_matcher b m n) as [[b1 h1]|] eqn:E; cbn [mbind option_bind]; [|done]. apply (index_matcher_ok Reg) in E as (-> & HR1 & Ha); [|done].
    intros (-> & HR2 & Ha2)%(IH _ _ _ _ _ HR1). split_and!; [cbn; by rewrite orb_assoc| |congruence].
    eapply registered_equiv; [|exact HR2]. intros m' p. rewrite elem_of_cons. naive_solver.
Qed.

(** A rule that must be evaluated directly: nothing of it is indexed, or not all
    of it is. *)
Definition needs_direct (r : CompiledRule) : bool := negb (existsb is_indexable (cr_domains r)) || negb (len (cr_residual_domains r) =? 0).

Fixpoint always_from (n : nat) (rs : list CompiledRule) : list nat :=
  match rs with [] => [] | r :: rs => (if needs_direct r then [n] else []) ++ always_from (S n) rs end.

(** The matcher [m] is in the domain group of rule [p] of [rs], counted from [n]. *)
Definition listed (rs : list CompiledRule) (n : nat) (m : DomainMatcher) (p : nat) : Prop :=
  exists i r, rs !! i = Some r /\ p = (n + i)%nat /\ m ∈ cr_domains r /\ is_indexable m = true.

Lemma listed_cons r rs n m p : listed (r :: rs) n m p <-> ((m ∈ cr_domains r /\ is_indexable m = true) /\ p = n) \/ listed rs (S n) m p.
Proof.
  unfold listed. split.
  - intros ([|i] & x & Hi & -> & Hm & Hx); cbn in Hi; [injection Hi as <-; left; split; [done|lia]|]. right. exists i, x. split_and!; try done. lia.
  - intros [[[Hm Hx] ->]|(i & x & Hi & -> & Hm & Hx)]; [exists 0%nat, r; split_and!; try done; lia|]. exists (S i), x. split_and!; try done. lia.
Qed.

Lemma index_rules_ok rs : forall Reg b n b', registered Reg b -> index_rules b rs n = Some b' ->
  registered (fun m p => Reg m p \/ listed rs n m p) b' /\ ib_always b' = ib_always b ++ always_from n rs.
Proof.
  induction rs as [|r rs IH]; intros Reg b n b' HR; cbn [index_rules].
  - intros [= <-]. rewrite app_nil_r. split; [|done]. eapply registered_equiv; [|exact HR]. intros m p. unfold listed. naive_solver.
  - destruct (index_matchers b (cr_domains r) n false) as [[b1 hit]|] eqn:E; cbn [mbind option_bind]; [|done].
    apply (index_matchers_ok _ _ Reg) in E as (-> & HR1 & Ha); [|done]. cbn [orb]. fold (needs_direct r).
    set (b2 := if needs_direct r then push_always b1 n else b1).
    assert (HR2 : registered (fun m p => Reg m p \/ (m ∈ cr_domains r /\ is_indexable m = true) /\ p = n) b2) by (unfold b2; destruct (needs_direct r); [by destruct HR1|done]).
    intros [HR3 Ha3]%(IH _ _ _ _ HR2). split.
    + eapply registered_equiv; [|exact HR3]. intros m p. rewrite listed_cons. naive_solver.
    + rewrite Ha3. cbn [always_from]. unfold b2. destruct (needs_direct r); cbn; rewrite Ha; [by rewrite <- app_assoc|done].
Qed.

Lemma empty_registered : registered (fun _ _ => False) empty_builder.
Proof.
  constructor; cbn; try done.
  - intros k p. unfold positions_of. rewrite lookup_empty. cbn. split; [intros H; inversion H|done].
  - intros k p. unfold positions_of. rewrite lookup_empty. cbn. split; [intros H; inversion H|done].
  - intros k p _. split; [intros (i & ps & Hi & _); by rewrite lookup_nil in Hi|done].
Qed.

(** ** The hits of a name *)

Definition rule_hit (d : list byte) (r : CompiledRule) : bool := existsb (fun m => is_indexable m && domain_matcher_matches m d) (cr_domains r).
Definition hit_in (domain : option (list byte)) (r : CompiledRule) : bool := match domain with Some d => rule_hit d r | None => false end.

Definition used_keyword (rules : list CompiledRule) (k : list byte) : Prop := k <> [] /\ exists r, r ∈ rules /\ DmKeyword k ∈ cr_domains r.

(** No two different keywords of the rules overlap in the name. *)
Definition keywords_apart (rules : list CompiledRule) (domain : option (list byte)) : Prop :=
  forall d k1 k2 s1 s2, domain = Some d -> used_keyword rules k1 -> used_keyword rules k2 -> k1 <> k2 ->
    occurs_at k1 d s1 -> occurs_at k2 d s2 -> ~ overlap s1 (length k1) s2 (length k2).

Lemma listed_at rules m p : listed rules 0 m p <-> exists r, rules !! p = Some r /\ m ∈ cr_domains r /\ is_indexable m = true.
Proof. unfold listed. split; [intros (i & r & Hi & -> & H); by exists r|intros (r & Hp & H); exists p, r; naive_solver]. Qed.

Lemma rule_hit_true d r : rule_hit d r = true <-> exists m, (m ∈ cr_domains r /\ is_indexable m = true) /\ domain_matcher_matches m d = true.
Proof. unfold rule_hit. rewrite existsb_elem. setoid_rewrite andb_true_iff. naive_solver. Qed.

Lemma keyword_hits_ok {E} rules found : (forall i s, (i, s) ∈ found -> (i < length rules)%nat) ->
  exists hits, keyword_hits (E := E) rules found = Ok hits /\ forall p, p ∈ hits <-> exists i s ps, (i, s) ∈ found /\ rules !! i = Some ps /\ p ∈ ps.
Proof.
  induction found as [|[i s] found IH]; intros Hr; cbn [keyword_hits].
  - exists []. split; [done|]. intros p. split; [intros H; inversion H|]. intros (i & s & ps & H & _). by apply elem_of_nil in H.
  - destruct (lookup_lt_is_Some_2 rules i) as [ps Hps]; [apply (Hr i s); by left|]. rewrite Hps. cbn.
    destruct IH as (hits & -> & Hh); [intros j t H; apply (Hr j t); by right|]. cbn. exists (ps ++ hits). split; [done|]. intros p.
    rewrite elem_of_app, Hh. split.
    + intros [H|(j & t & qs & Hj & Hq & H)]; [exists i, s, ps; split_and!; [by left|done..]|exists j, t, qs; split_and!; [by right|done..]].
    + intros (j & t & qs & [[= -> ->]|Hj]%elem_of_cons & Hq & H); [left; congruence|right; by exists j, t, qs].
Qed.

(** ** The candidates in order *)

Fixpoint hits_from (domain : option (list byte)) (n : nat) (rs : list CompiledRule) : list nat :=
  match rs with [] => [] | r :: rs => (if hit_in domain r then [n] else []) ++ hits_from domain (S n) rs end.

Fixpoint candidates_from (domain : option (list byte)) (n : nat) (rs : list CompiledRule) : list (nat * bool) :=
  match rs with
  | [] => []
  | r :: rs => (if hit_in domain r then [(n, true)] else if needs_direct r then [(n, false)] else []) ++ candidates_from domain (S n) rs
  end.

Lemma hits_from_elem domain rs : forall n p, p ∈ hits_from domain n rs <-> exists i r, rs !! i = Some r /\ p = (n + i)%nat /\ hit_in domain r = true.
Proof.
  induction rs as [|r rs IH]; intros n p; cbn; [split; [intros H; inversion H|naive_solver]|]. rewrite elem_of_app, IH. split.
  - intros [H|(i & x & Hi & -> & Hx)].
    + destruct (hit_in domain r) eqn:Er; [|inversion H]. apply list_elem_of_singleton in H as ->. exists 0%nat, r. split_and!; [done|lia|done].
    + exists (S i), x. split_and!; [done|lia|done].
  - intros ([|i] & x & Hi & -> & Hx); cbn in Hi; [injection Hi as <-; left; rewrite Hx; apply list_elem_of_singleton; lia|].
    right. exists i, x. split_and!; [done|lia|done].
Qed.

Lemma hits_from_ge domain rs n p : p ∈ hits_from domain n rs -> (n <= p)%nat.
Proof. intros (i & r & _ & -> & _)%hits_from_elem. lia. Qed.

Lemma always_from_ge rs : forall n p, p ∈ always_from n rs -> (n <= p)%nat.
Proof.
  induction rs as [|r rs IH]; intros n p; cbn; [intros H; inversion H|]. intros [H|H]%elem_of_app; [|apply IH in H; lia].
  destruct (needs_direct r); [apply list_elem_of_singleton in H; lia|inversion H].
Qed.

Lemma hits_from_sorted domain rs : forall n, StronglySorted (fun a b => Z.of_nat a < Z.of_nat b) (hits_from domain n rs).
Proof.
  induction rs as [|r rs IH]; intros n; cbn; [constructor|]. destruct (hit_in domain r); [|apply IH]. constructor; [apply IH|].
  apply Forall_forall. intros p H%hits_from_ge. lia.
Qed.

Lemma hits_sorted domain rs hits : (forall p, p ∈ hits <-> exists r, rs !! p = Some r /\ hit_in domain r = true) ->
  dedup_by_key Z.of_nat (sort_by_key Z.of_nat hits) = hits_from domain 0 rs.
Proof.
  intros Hin. pose proof (dedup_sorted Z.of_nat hits) as Hs. pose proof (hits_from_sorted domain rs 0) as Hs'.
  assert (Hnd : forall l, StronglySorted (fun a b => Z.of_nat a < Z.of_nat b) l -> NoDup l).
  { induction 1 as [|a l Hl IH Ha]; constructor; [|done]. intros H. pose proof (proj1 (Forall_forall _ _) Ha a H) as Hlt. cbn in Hlt. lia. }
  eapply (StronglySorted_unique_strong (fun a b => Z.of_nat a < Z.of_nat b)); [|exact Hs|exact Hs'|].
  { intros a b _ _ H1 H2. lia. }
  apply NoDup_Permutation; [by apply Hnd..|]. intros p. rewrite hits_from_elem. split.
  - intros (r & Hr & Hh)%dedup_elem%Hin. exists p, r. by split_and!.
  - intros (i & r & Hr & -> & Hh). destruct (dedup_repr Z.of_nat hits i) as (y & Hy & E); [apply Hin; by exists r|]. assert (y = i) as -> by lia. done.
Qed.

Lemma merge_nil hits : merge_candidates [] hits = (fun h => (h, true)) <$> hits.
Proof. induction hits as [|h hits IH]; [done|]. cbn. by f_equal. Qed.

Lemma merge_cons a always h hits : merge_candidates (a :: always) (h :: hits) =
  if (a <? h)%nat then (a, false) :: merge_candidates always (h :: hits)
  else if (h <? a)%nat then (h, true) :: merge_candidates (a :: always) hits
  else (a, true) :: merge_candidates always hits.
Proof. done. Qed.

Lemma merge_from domain rs : forall n, merge_candidates (always_from n rs) (hits_from domain n rs) = candidates_from domain n rs.
Proof.
  induction rs as [|r rs IH]; intros n; [done|]. cbn [always_from hits_from candidates_from]. specialize (IH (S n)).
  pose proof (always_from_ge rs (S n)) as HA. pose proof (hits_from_ge domain rs (S n)) as HH.
  set (A := always_from (S n) rs) in *. set (H := hits_from domain (S n) rs) in *.
  destruct (hit_in domain r), (needs_direct r); cbn [app]; [| | |done].
  - rewrite merge_cons, Nat.ltb_irrefl. by rewrite IH.
  - destruct A as [|a A]; [cbn; f_equal; exact IH|]. rewrite merge_cons. pose proof (HA a ltac:(by left)).
    destruct (Nat.ltb_spec a n); [lia|]. destruct (Nat.ltb_spec n a); [|lia]. by rewrite IH.
  - destruct H as [|h H]; [cbn; f_equal; exact IH|]. rewrite merge_cons. pose proof (HH h ltac:(by left)).
    destruct (Nat.ltb_spec n h); [|lia]. by rewrite IH.
Qed.

(** ** Evaluating the candidates *)

Definition rule_ok (r : CompiledRule) : Prop := cr_residual_domains r = filter (fun m => is_indexable m = false) (cr_domains r).

Lemma existsb_residual (f : DomainMatcher -> bool) ms : existsb (fun m => is_indexable m && f m) ms = false ->
  existsb f (filter (fun m => is_indexable m = false) ms) = existsb f ms.
Proof.
  induction ms as [|m ms IH]; [done|]. intros [Hm Hms]%orb_false_iff. rewrite filter_cons. destruct (is_indexable m) eqn:Ei; cbn [andb existsb decide] in *.
  - rewrite decide_False, Hm by done. by apply IH.
  - rewrite decide_True by done. cbn [existsb]. by rewrite IH.
Qed.

(** What an index hit, or its absence, says about the domain group. *)
Lemma indexed_group r domain : rule_ok r ->
  if hit_in domain r then indexed_domain_matches r true domain = domain_group_matches r domain
  else if needs_direct r then indexed_domain_matches r false domain = domain_group_matches r domain
  else domain_group_matches r domain = false.
Proof.
  intros Hok. unfold indexed_domain_matches, domain_group_matches. rewrite orb_true_r. destruct (hit_in domain r) eqn:Eh.
  - destruct domain as [d|]; [|done]. apply rule_hit_true in Eh as (m & [Hm _] & Hd). destruct (_ =? 0); [done|]. symmetry.
    apply existsb_elem. by exists m.
  - destruct (needs_direct r) eqn:En.
    + rewrite orb_false_r. destruct (_ =? 0); [done|]. destruct domain as [d|]; [|done]. rewrite Hok. by apply existsb_residual.
    + apply orb_false_iff in En as [Hi%negb_false_iff Hr%negb_false_iff%Z.eqb_eq].
      destruct (Z.eqb_spec (len (cr_domains r)) 0) as [H0|_]; [destruct (cr_domains r); [done|slen]|]. destruct domain as [d|]; [|done].
      cbn in Eh. unfold rule_hit in Eh. rewrite <- (existsb_residual _ _ Eh), <- Hok. destruct (cr_residual_domains r); [done|slen].
Qed.

Lemma lookup_here (pre : list CompiledRule) r rs : (pre ++ r :: rs) !! length pre = Some r.
Proof. by apply list_lookup_middle. Qed.

Lemma snoc_app (pre : list CompiledRule) r rs : pre ++ r :: rs = (pre ++ [r]) ++ rs.
Proof. by rewrite <- app_assoc. Qed.

Lemma select_candidates_ok {E} c domain rs : Forall rule_ok rs -> forall pre,
  select_candidates (E := E) (pre ++ rs) (candidates_from domain (length pre) rs) c domain = Ok (List.find (fun r => route_matches r c domain) rs).
Proof.
  induction 1 as [|r rs Hr Hrs IH]; intros pre; [done|]. cbn [candidates_from List.find]. pose proof (indexed_group r domain Hr) as Hg.
  specialize (IH (pre ++ [r])). rewrite length_app, Nat.add_1_r, <- snoc_app in IH. unfold route_matches.
  destruct (hit_in domain r); [|destruct (needs_direct r)]; cbn [app select_candidates].
  - rewrite lookup_here. unfold matches_indexed. rewrite Hg. by destruct (_ && _).
  - rewrite lookup_here. unfold matches_indexed. rewrite Hg. by destruct (_ && _).
  - rewrite Hg. done.
Qed.

Lemma collect_candidates_ok {E} c domain scope rs : Forall rule_ok rs -> forall pre p,
  collect_candidates (E := E) (pre ++ rs) (candidates_from domain (length pre) rs) c domain scope p = Ok (collect_linear rs c domain scope p).
Proof.
  induction 1 as [|r rs Hr Hrs IH]; intros pre p; [done|]. cbn [candidates_from collect_linear]. pose proof (indexed_group r domain Hr) as Hg.
  assert (IH' : forall p, collect_candidates (E := E) (pre ++ r :: rs) (candidates_from domain (S (length pre)) rs) c domain scope p = Ok (collect_linear rs c domain scope p)).
  { intros q. specialize (IH (pre ++ [r]) q). by rewrite length_app, Nat.add_1_r, <- snoc_app in IH. }
  unfold matches_besides_ip. destruct (hit_in domain r); [|destruct (needs_direct r)]; cbn [app collect_candidates].
  - rewrite lookup_here. unfold matches_besides_ip_indexed. rewrite Hg. destruct (_ && _), (_ =? 0); cbn; done.
  - rewrite lookup_here. unfold matches_besides_ip_indexed. rewrite Hg. destruct (_ && _), (_ =? 0); cbn; done.
  - rewrite Hg. cbn. done.
Qed.

Section Hits.
Context {SL : SearchLaws SX} (rules : list CompiledRule) (ix : RuleIndex).
Context (Hbuild : build_index rules = Some ix).

Lemma index_parts : exists b, registered (listed rules 0) b /\ ri_full ix = ib_full b /\ ri_suffix ix = ib_suffix b /\
  ri_keyword_rules ix = ib_keyword_rules b /\ ri_always ix = always_from 0 rules /\
  match ri_keywords ix with None => ib_patterns b = [] | Some a => ac_build (ib_patterns b) = Some a end.
Proof.
  unfold build_index in Hbuild. destruct (_ || _); [done|]. destruct (index_rules empty_builder rules 0) as [b|] eqn:E; cbn in Hbuild; [|done].
  apply (index_rules_ok _ _ _ _ _ empty_registered) in E as [HR Ha]. exists b.
  split; [eapply registered_equiv; [|exact HR]; naive_solver|]. destruct (Z.eqb_spec (len (ib_patterns b)) 0) as [H0|H0]; cbn in Hbuild.
  - injection Hbuild as <-. split_and!; try done. cbn. destruct (ib_patterns b); [done|slen].
  - destruct (ac_build (ib_patterns b)) as [a|] eqn:Ea; cbn in Hbuild; [|done]. injection Hbuild as <-. by split_and!.
Qed.

Lemma domain_hits_ok {E} d : keywords_apart rules (Some d) ->
  exists hits, domain_hits (E := E) ix d = Ok hits /\ forall p, p ∈ hits <-> exists r, rules !! p = Some r /\ rule_hit d r = true.
Proof.
  intros Hapart. destruct index_parts as (b & HR & Hf & Hs & Hk & _ & Ha). unfold domain_hits. rewrite Hf, Hs, Hk.
  assert (Hkw : exists hits, match ri_keywords ix with None => Ok [] | Some a => keyword_hits (E := E) (ib_keyword_rules b) (find_iter a d) end = Ok hits /\
    forall p, p ∈ hits <-> exists k, (k <> [] /\ keyword_matches d k = true) /\ listed rules 0 (DmKeyword k) p).
  { destruct (ri_keywords ix) as [a|].
    - destruct (keyword_hits_ok (E := E) (ib_keyword_rules b) (find_iter a d)) as (hits & Hh & Hin).
      { intros i s H. destruct (search_found _ _ _ _ _ Ha H) as (q & Hq & _). rewrite (rg_len _ _ HR). by apply lookup_lt_Some in Hq. }
      exists hits. split; [done|]. intros p. rewrite Hin. split.
      + intros (i & s & ps & Hi & Hps & Hp). destruct (search_found _ _ _ _ _ Ha Hi) as (k & Hpat & Hocc).
        pose proof (rg_nonempty _ _ HR _ _ Hpat) as Hne. exists k. split; [split; [done|apply keyword_occurs; [done|by exists s]]|].
        apply (rg_keyword _ _ HR); [done|]. by exists i, ps.
      + intros (k & [Hne [s Hocc]%keyword_occurs] & Hl); [|done]. pose proof (proj2 (rg_keyword _ _ HR k p Hne) Hl) as (i & ps & Hi & Hps & Hp).
        destruct (search_covers _ _ _ _ _ _ Ha Hne Hi Hocc) as (j & q & t & Hj & Hq & Hov).
        destruct (decide (q = k)) as [->|Hqk].
        { apply (rg_ids _ _ HR) in Hi, Hq. exists j, t, ps. split_and!; [done|congruence|done]. }
        exfalso. destruct (search_found _ _ _ _ _ Ha Hj) as (q' & Hq' & Hocc'). assert (q' = q) as -> by congruence.
        assert (Huse : forall x y, ib_patterns b !! x = Some y -> used_keyword rules y).
        { intros x y Hx. split; [by eapply (rg_nonempty _ _ HR)|]. destruct (rg_used _ _ HR _ _ Hx) as [w (r & Hw & Hm & _)%listed_at].
          exists r. split; [by eapply list_elem_of_lookup_2|done]. }
        by apply (Hapart d k q s t eq_refl (Huse _ _ Hi) (Huse _ _ Hq)).
    - exists []. split; [done|]. intros p. split; [intros H; inversion H|]. intros (k & [Hne _] & Hl).
      apply (rg_keyword _ _ HR) in Hl as (i & ps & Hi & _); [|done]. by rewrite Ha, lookup_nil in Hi. }
  destruct Hkw as (hits & -> & Hin). cbn. eexists. split; [done|]. intros p.
  rewrite !elem_of_app, Hin, (rg_full _ _ HR), (rg_suffix _ _ HR). rewrite list_elem_of_In, in_concat. setoid_rewrite <- list_elem_of_In.
  setoid_rewrite rule_hit_true. split.
  - intros [H|[H|[H|H]]].
    + apply listed_at in H as (r & Hr & Hm & Hi). exists r. split; [done|]. exists (DmFull d). split; [done|]. apply bytes_eqb_refl.
    + apply listed_at in H as (r & Hr & Hm & Hi). exists r. split; [done|]. exists (DmSuffix d). split; [done|]. apply suffix_matches. by left.
    + destruct H as (l & (k & -> & Hdot)%list_elem_of_fmap & H). apply (rg_suffix _ _ HR), listed_at in H as (r & Hr & Hm & Hi). exists r. split; [done|].
      exists (DmSuffix k). split; [done|]. apply suffix_matches. by right.
    + destruct H as (k & [Hne Hocc] & (r & Hr & Hm & Hi)%listed_at). exists r. split; [done|]. by exists (DmKeyword k).
  - intros (r & Hr & m & [Hm Hi] & Hd). destruct m as [k|k|k|x|x y]; try done; cbn in Hd.
    + left. apply bytes_eqb_eq in Hd as <-. apply listed_at. by exists r.
    + right. apply suffix_matches in Hd as [<-|Hd]; [left; apply listed_at; by exists r|]. right; left. exists (positions_of (ib_suffix b) k).
      split; [by apply list_elem_of_fmap_2|]. apply (rg_suffix _ _ HR), listed_at. by exists r.
    + right; right; right. exists k. cbn in Hi. split; [split; [by intros ->|done]|]. apply listed_at. by exists r.
Qed.

Lemma ordered_candidates_ok {E} domain : keywords_apart rules domain -> ordered_candidates (E := E) ix domain = Ok (candidates_from domain 0 rules).
Proof.
  intros Hapart. destruct index_parts as (b & _ & _ & _ & _ & Ha & _). unfold ordered_candidates.
  assert (Hh : exists hits, match domain with None => Ok [] | Some d => domain_hits (E := E) ix d end = Ok hits /\
    forall p, p ∈ hits <-> exists r, rules !! p = Some r /\ hit_in domain r = true).
  { destruct domain as [d|]; [by apply domain_hits_ok|]. exists []. split; [done|]. intros p. split; [intros H; inversion H|by intros (r & _ & ?)]. }
  destruct Hh as (hits & -> & Hin). cbn. rewrite (hits_sorted domain rules hits Hin), Ha. by rewrite merge_from.
Qed.
End Hits.

Lemma select_from_rules_ok `{!SearchLaws SX} {E} rules c domain : Forall rule_ok rules -> keywords_apart rules domain ->
  select_from_rules (E := E) rules (build_index rules) c domain = Ok (List.find (fun r => route_matches r c domain) rules).
Proof.
  intros Hok Hapart. unfold select_from_rules. destruct (build_index rules) as [ix|] eqn:Hb; [|done].
  rewrite (ordered_candidates_ok rules ix Hb) by done. cbn. by apply (select_candidates_ok c domain rules Hok []).
Qed.

Lemma collect_besides_ip_ok `{!SearchLaws SX} {E} rules c domain scope p : Forall rule_ok rules -> keywords_apart rules domain ->
  collect_besides_ip (E := E) rules (build_index rules) c domain scope p = Ok (collect_linear rules c domain scope p).
Proof.
  intros Hok Hapart. unfold collect_besides_ip. destruct (build_index rules) as [ix|] eqn:Hb; [|done].
  rewrite (ordered_candidates_ok rules ix Hb) by done. cbn. by apply (collect_candidates_ok c domain scope rules Hok []).
Qed.

(** ** The decision *)

(** The rules a user is subject to, in order. *)
Definition scoped_rules (t : RoutingTable) (user : CompiledUserPolicy) : list (CompiledRule * RouteScope) :=
  ((fun r => (r, ScopeGlobal)) <$> rt_global_rules t) ++ ((fun r => (r, ScopePolicy)) <$> cp_rules user).

Definition first_match (t : RoutingTable) (user : CompiledUserPolicy) (c : RouteContext) : option (CompiledRule * RouteScope) :=
  List.find (fun x => route_matches x.1 c (normalized_domain (rc_destination c))) (scoped_rules t user).

Definition decide_route (user : CompiledUserPolicy) (found : option (CompiledRule * RouteScope)) : RouteDecision :=
  match found with Some (r, scope) => decision r scope | None => default_decision user end.

(** The tables the indices of which were built from their rules. *)
Definition table_ok (t : RoutingTable) : Prop := rt_global_index t = build_index (rt_global_rules t) /\ Forall rule_ok (rt_global_rules t).
Definition policy_ok (p : CompiledUserPolicy) : Prop := cp_index p = build_index (cp_rules p) /\ Forall rule_ok (cp_rules p).

Lemma find_app {A} (f : A -> bool) l1 l2 : List.find f (l1 ++ l2) = match List.find f l1 with Some x => Some x | None => List.find f l2 end.
Proof. induction l1 as [|x l1 IH]; [done|]. cbn. by destruct (f x). Qed.

Lemma find_fmap {A B} (g : A -> B) (f : B -> bool) l : List.find f (g <$> l) = g <$> List.find (fun x => f (g x)) l.
Proof. induction l as [|x l IH]; [done|]. cbn. by destruct (f (g x)). Qed.

Lemma find_filter {A} (f g : A -> bool) l : List.find f (List.filter g l) = List.find (fun x => g x && f x) l.
Proof. induction l as [|x l IH]; [done|]. cbn. destruct (g x); cbn; [|done]. by destruct (f x). Qed.

Lemma find_ext {A} (f g : A -> bool) l : (forall x, f x = g x) -> List.find f l = List.find g l.
Proof. intros H. induction l as [|x l IH]; [done|]. cbn. rewrite H, IH. done. Qed.

Section Decision.
Context `{!SearchLaws SX} (t : RoutingTable) (user : CompiledUserPolicy).
Context (Ht : table_ok t) (Hu : policy_ok user).

Lemma select_for_user_ok {E} c : keywords_apart (rt_global_rules t) (normalized_domain (rc_destination c)) ->
  keywords_apart (cp_rules user) (normalized_domain (rc_destination c)) ->
  select_for_user (E := E) t c (normalized_domain (rc_destination c)) user = Ok (decide_route user (first_match t user c)).
Proof.
  intros H1 H2. unfold select_for_user. destruct Ht as [-> Htr], Hu as [-> Hur]. rewrite !select_from_rules_ok by done. cbn.
  unfold first_match, scoped_rules. rewrite find_app, !find_fmap. cbn. destruct (List.find _ (rt_global_rules t)); [done|]. cbn.
  by destruct (List.find _ (cp_rules user)).
Qed.

(** Without an address, a rule matches when its other conditions do and it has no
    address condition. *)
Lemma collect_linear_ok rs c domain scope : destination_ips c = [] -> forall p,
  (collect_linear rs c domain scope p).1 = List.find (fun r => route_matches r c domain) rs /\
  (List.find (fun r => route_matches r c domain) rs = None ->
   (collect_linear rs c domain scope p).2 = p ++ ((fun r => (r, scope)) <$> List.filter (fun r => matches_besides_ip r c domain) rs)).
Proof.
  intros Hd. induction rs as [|r rs IH]; intros p; cbn; [split; [done|]; intros _; by rewrite app_nil_r|].
  unfold route_matches at 1 3. unfold ip_group_matches. rewrite Hd. cbn. rewrite orb_false_r, <- (andb_comm (static_groups_match r c)), andb_assoc.
  rewrite (andb_comm (static_groups_match r c)). fold (matches_besides_ip r c domain). destruct (matches_besides_ip r c domain); cbn; [|apply IH].
  destruct (_ =? 0); [done|]. destruct (IH (p ++ [(r, scope)])) as [H1 H2]. split; [done|]. intros H%H2. by rewrite H, <- app_assoc.
Qed.

Lemma first_pending_find p c : first_pending p c = List.find (fun x => ip_group_matches x.1 c) p.
Proof. induction p as [|[r scope] p IH]; [done|]. cbn. by destruct (ip_group_matches r c). Qed.

(** The two passes: the first finds what matches without addresses, the second
    what matches with them. *)
Lemma two_passes {E} c c' : destination_ips c = [] -> rc_destination c' = rc_destination c ->
  keywords_apart (rt_global_rules t) (normalized_domain (rc_destination c)) -> keywords_apart (cp_rules user) (normalized_domain (rc_destination c)) ->
  exists p, select_besides_ip (E := E) t c (normalized_domain (rc_destination c)) user [] = Ok (first_match t user c, p) /\
    (first_match t user c = None -> first_pending p c' = first_match t user c').
Proof.
  intros Hd Hc' H1 H2. unfold select_besides_ip. destruct Ht as [-> Htr], Hu as [-> Hur]. rewrite collect_besides_ip_ok by done. cbn.
  set (dom := normalized_domain (rc_destination c)) in *.
  destruct (collect_linear_ok (rt_global_rules t) c dom ScopeGlobal Hd []) as [F1 P1].
  unfold first_match, scoped_rules. rewrite !find_app, !find_fmap. cbn [fst]. rewrite Hc'. fold dom.
  destruct (collect_linear (rt_global_rules t) c dom ScopeGlobal []) as [f1 p1]. cbn [fst snd] in F1, P1. rewrite <- F1 in P1 |- *.
  destruct f1 as [r1|]; [by exists p1|]. cbn [fmap option_fmap option_map]. rewrite collect_besides_ip_ok by done. cbn [mbind result_bind].
  destruct (collect_linear_ok (cp_rules user) c dom ScopePolicy Hd p1) as [F2 P2].
  destruct (collect_linear (cp_rules user) c dom ScopePolicy p1) as [f2 p2]. cbn [fst snd] in F2, P2. rewrite <- F2 in P2 |- *.
  destruct f2 as [r2|]; [by exists p2|]. exists p2. split; [done|]. intros _. rewrite P2, P1 by done. cbn [app].
  rewrite first_pending_find, find_app, !find_fmap. cbn [fst]. rewrite !find_filter.
  assert (Heq : forall r, matches_besides_ip r c dom && ip_group_matches r c' = route_matches r c' dom).
  { intros r. unfold matches_besides_ip, route_matches, static_groups_match. rewrite Hc'. rewrite <- !andb_assoc. f_equal. apply andb_comm. }
  by rewrite !(find_ext _ _ _ Heq).
Qed.
End Decision.

(** ** Compilation *)

Lemma rule_compile_ok r label c : rule_compile r label = Ok c -> rule_ok c.
Proof.
  unfold rule_compile. intros (ds & _ & H)%bind_ok. apply bind_ok in H as (is_ & _ & H). apply bind_ok in H as (ps & _ & [= <-]). done.
Qed.

Lemma compile_rules_ok rules label : forall i cs, compile_rules_from i rules label = Ok cs -> Forall rule_ok cs.
Proof.
  induction rules as [|r rules IH]; intros i cs; cbn [compile_rules_from]; [by intros [= <-]|].
  intros (c & Hc%rule_compile_ok & H)%bind_ok. apply bind_ok in H as (cs' & H%IH & [= <-]). by constructor.
Qed.

Lemma policy_compile_ok name d rules p : policy_compile name d rules = Ok p -> policy_ok p.
Proof. unfold policy_compile. intros (cs & H%compile_rules_ok & [= <-])%bind_ok. by split. Qed.

(** The policy a configured user follows. *)
Definition follows (config : RoutingConfig) (client : UserConfig) (p : CompiledUserPolicy) : Prop :=
  match uc_policy client with
  | None => policy_compile (bytes_of "routing") (rg_default config) (config_rules config) = Ok p
  | Some name => exists policy, (name, policy) ∈ config_policies config /\
      policy_compile (bytes_of "routing.policies." ++ name) (rp_default policy) (policy_rules policy) = Ok p
  end.

Lemma follows_ok config client p : follows config client p -> policy_ok p.
Proof. unfold follows. destruct (uc_policy client); [intros (? & _ & H)|intros H]; by eapply policy_compile_ok. Qed.

Lemma compile_policies_ok policies : forall named named', compile_policies policies named = Ok named' -> forall name p, named' !! name = Some p ->
  named !! name = Some p \/ exists policy, (name, policy) ∈ policies /\
    policy_compile (bytes_of "routing.policies." ++ name) (rp_default policy) (policy_rules policy) = Ok p.
Proof.
  induction policies as [|[n po] policies IH]; intros named named'; cbn [compile_policies]; [intros [= <-]; by left|].
  intros (c & Hc & H)%bind_ok name p Hp. destruct (IH _ _ H name p Hp) as [Hl|(q & Hq & Hcq)].
  - destruct (decide (name = n)) as [->|Hne]; [|rewrite lookup_insert_ne in Hl by done; by left].
    rewrite lookup_insert_eq in Hl. injection Hl as <-. right. exists po. split; [by left|done].
  - right. exists q. split; [by right|done].
Qed.

Section Compiled.
Context (parse_uuid : list byte -> option UserId) (Huuid : forall s u, parse_uuid s = Some u -> length u = 16%nat).

Lemma compile_users_ok config named fallback : (forall client name, uc_policy client = Some name -> forall p, named !! name = Some p -> follows config client p) ->
  (forall client, uc_policy client = None -> follows config client fallback) ->
  forall clients users, compile_users parse_uuid named fallback clients = Ok users ->
  users.*1 = omap (fun c => parse_uuid (uc_id c)) clients /\ user_ids_ok users /\
  forall u p, (u, p) ∈ users -> exists client, client ∈ clients /\ parse_uuid (uc_id client) = Some u /\ follows config client p.
Proof.
  intros Hn Hf. induction clients as [|c clients IH]; intros users; cbn [compile_users].
  { intros [= <-]. split_and!; [done|constructor|]. intros u p H. by apply elem_of_nil in H. }
  intros (p & Hp & H)%bind_ok. apply bind_ok in H as (u & Hu%ok_or_ok & H). apply bind_ok in H as (us & Hus & [= <-]).
  destruct (IH us Hus) as (H1 & H2 & H3). cbn. rewrite Hu, H1. split_and!; [done|constructor; [by eapply Huuid|done]|].
  intros u' p' [[= -> ->]|Hin]%elem_of_cons.
  - exists c. split_and!; [by left|done|]. destruct (uc_policy c) as [name|] eqn:Ep; [|injection Hp as <-; by apply Hf].
    apply ok_or_ok in Hp. by eapply Hn.
  - destruct (H3 u' p' Hin) as (client & Hc & Hcu & Hfo). exists client. split_and!; [by right|done..].
Qed.

Lemma compile_table_ok config clients t : compile_table parse_uuid config clients = Ok t ->
  table_ok t /\ compile_rules (config_rules config) (bytes_of "routing.rules") = Ok (rt_global_rules t) /\
  rt_global_has_ip_rules t = has_ip_rules (rt_global_rules t) /\
  exists users, rt_users t = from_entries users /\ user_ids_ok users /\ users.*1 = omap (fun c => parse_uuid (uc_id c)) clients /\
    forall u p, (u, p) ∈ users -> exists client, client ∈ clients /\ parse_uuid (uc_id client) = Some u /\ follows config client p.
Proof.
  unfold compile_table. intros (g & Hg & H)%bind_ok. apply bind_ok in H as (f & Hf & H). apply bind_ok in H as (named & Hn & H).
  apply bind_ok in H as (users & Hus & [= <-]). cbn. split_and!; [split; [done|by eapply compile_rules_ok]|done|done|]. exists users.
  destruct (compile_users_ok config named f) with clients users as (H1 & H2 & H3); try done.
  - intros client name Hc p Hp. unfold follows. rewrite Hc. destruct (compile_policies_ok _ _ _ Hn name p Hp) as [Hl|Hl]; [by rewrite lookup_empty in Hl|done].
  - intros client Hc. unfold follows. by rewrite Hc.
Qed.
End Compiled.

(** ** Resolution *)

Lemma collect_addresses_ok l : forall acc ips, collect_addresses l acc = Ok ips -> NoDup acc -> len acc <= MAX_RESOLVED_IPS -> NoDup ips /\ len ips <= MAX_RESOLVED_IPS.
Proof.
  induction l as [|ip l IH]; intros acc ips; cbn [collect_addresses]; [by intros [= <-]|]. case_bool_decide as Hin; [apply IH|].
  destruct (Z.eqb_spec (len acc) MAX_RESOLVED_IPS) as [|Hne]; [done|]. intros H Hn Hl. eapply IH; [exact H| |rewrite len_app; change (len [ip]) with 1; lia].
  apply NoDup_app. split_and!; [done|intros x Hx ->%list_elem_of_singleton; done|apply NoDup_singleton].
Qed.

Lemma resolve_bounded env d g ips g' : resolve_domain env d g = (Ok ips, g') -> NoDup ips /\ len ips <= MAX_RESOLVED_IPS.
Proof.
  unfold resolve_domain. destruct (address d) as [o|name|o]; [intros [= <- _]; split; [constructor|done]| |intros [= <- _]; split; [constructor|done]].
  destruct (parse_ip name) as [ip|]; [intros [= <- _]; split; [apply NoDup_singleton|done]|]. unfold resolve_domain_with.
  destruct (governor_try_acquire g DnsLookup) as [[k|e|] g1]; try done. destruct (lk_answer env) as [| | |l]; try done.
  intros [= H _]. apply bind_ok in H as (u & _ & H). apply bind_ok in H as (r & Hr & H). apply bind_ok in H as (u' & _ & [= <-]).
  eapply collect_addresses_ok; [exact Hr|constructor|done].
Qed.

(** What routing promises: the first rule that matches, of the global rules and
    then of the user's, else the user's default; addresses are looked up only for
    a name, when some rule needs them, and under [ResolveIfNoMatch] only when no
    rule matches without them. *)
Definition route_spec (t : RoutingTable) (user : CompiledUserPolicy) (env : LookupEnv) (user_id : UserId) (inbound_tag : list byte) (d : Destination)
    (strategy : DomainStrategy) : IO Governor RouteResolutionError ResolvedRoute :=
  let context ips := {| rc_user_id := user_id; rc_inbound_tag := inbound_tag; rc_destination := d; rc_resolved_ips := ips |} in
  let answer ips := {| rv_decision := decide_route user (first_match t user (context ips)); rv_resolved_ips := ips |} in
  let resolved := ips ← resolve_domain env d; mret (answer ips) in
  let needs_ip := has_ip_rules (rt_global_rules t) || has_ip_rules (cp_rules user) in
  match address d, strategy with
  | Ipv4 _, _ | Ipv6 _, _ | Domain _, AsIs => mret (answer [])
  | Domain _, ResolveIfNoMatch =>
    if needs_ip then match first_match t user (context []) with Some _ => mret (answer []) | None => resolved end else mret (answer [])
  | Domain _, ResolveOnDemand => if needs_ip then resolved else mret (answer [])
  end.

Lemma policy_has_ip name d rules p : policy_compile name d rules = Ok p -> cp_has_ip_rules p = has_ip_rules (cp_rules p).
Proof. unfold policy_compile. by intros (cs & _ & [= <-])%bind_ok. Qed.

Lemma follows_has_ip config client p : follows config client p -> cp_has_ip_rules p = has_ip_rules (cp_rules p).
Proof. unfold follows. destruct (uc_policy client); [intros (? & _ & H)|intros H]; by eapply policy_has_ip. Qed.

Lemma select_with_dns_ok `{!SearchLaws SX} t user env u tag d strategy g :
  table_ok t -> policy_ok user -> rt_global_has_ip_rules t = has_ip_rules (rt_global_rules t) -> cp_has_ip_rules user = has_ip_rules (cp_rules user) ->
  get (E := RouteResolutionError) (rt_users t) u = Ok (Some user) ->
  keywords_apart (rt_global_rules t) (normalized_domain d) -> keywords_apart (cp_rules user) (normalized_domain d) ->
  select_with_dns t env u tag d strategy g = route_spec t user env u tag d strategy g.
Proof.
  intros Ht Hu Hip Hup Hget H1 H2. unfold select_with_dns, route_spec. unfold mbind at 1, IO_bind, pure_io. rewrite Hget. unfold mbind at 1, IO_bind. cbn [ok_or]. rewrite Hip, Hup.
  set (ctx := fun ips => {| rc_user_id := u; rc_inbound_tag := tag; rc_destination := d; rc_resolved_ips := ips |}).
  set (needs := has_ip_rules (rt_global_rules t) || has_ip_rules (cp_rules user)).
  assert (Hsel : forall ips, select_for_user (E := RouteResolutionError) t (ctx ips) (normalized_domain d) user = Ok (decide_route user (first_match t user (ctx ips)))).
  { intros ips. apply (select_for_user_ok t user Ht Hu (ctx ips)); done. }
  destruct (address d) as [o|name|o] eqn:Ead; cbn [negb orb]; [unfold mbind, IO_bind; by rewrite Hsel| |unfold mbind, IO_bind; by rewrite Hsel].
  destruct strategy; cbn [orb]; rewrite ?bool_decide_false, ?bool_decide_true by done; cbn [orb].
  - unfold mbind, IO_bind. by rewrite Hsel.
  - destruct needs; cbn [negb]; [|unfold mbind, IO_bind; by rewrite Hsel].
    assert (Hnone : destination_ips (ctx []) = []) by (unfold destination_ips; cbn; by rewrite Ead).
    destruct (two_passes (E := RouteResolutionError) t user Ht Hu (ctx []) (ctx []) Hnone eq_refl H1 H2) as (p & Hp & _). change (rc_destination (ctx [])) with d in Hp.
    unfold mbind, IO_bind. rewrite Hp. destruct (first_match t user (ctx [])) as [[r scope]|] eqn:Ef; [done|].
    destruct (resolve_domain env d g) as [[ips|e|] g']; [|done|done].
    destruct (two_passes (E := RouteResolutionError) t user Ht Hu (ctx []) (ctx ips) Hnone eq_refl H1 H2) as (p' & Hp' & Hf). change (rc_destination (ctx [])) with d in Hp'.
    assert (p' = p) as -> by congruence. rewrite (Hf Ef). by destruct (first_match t user (ctx ips)) as [[r scope]|].
  - destruct needs; cbn [negb]; [|unfold mbind, IO_bind; by rewrite Hsel]. unfold mbind, IO_bind.
    destruct (resolve_domain env d g) as [[ips|e|] g']; [|done|done]. by rewrite Hsel.
Qed.
End Index.

(** ** A concrete search

    Left to right, at each place the first pattern that fits. *)

Fixpoint first_prefix (i : nat) (ps : list (list byte)) (d : list byte) : option (nat * nat) :=
  match ps with
  | [] => None
  | p :: ps => if negb (len p =? 0) && bytes_eqb (take (length p) d) p then Some (i, length p) else first_prefix (S i) ps d
  end.

Fixpoint scan (fuel : nat) (ps : list (list byte)) (d : list byte) (pos : nat) : list (nat * nat) :=
  match fuel, d with
  | S fuel, _ :: t =>
    match first_prefix 0 ps d with
    | Some (i, n) => (i, pos) :: scan fuel ps (drop n d) (pos + n)
    | None => scan fuel ps t (S pos)
    end
  | _, _ => []
  end.

#[export] Instance toy_search : SearchOps :=
  {| Automaton := list (list byte); ac_build := Some; find_iter ps d := scan (length d) ps d 0 |}.

Lemma first_prefix_some ps d : forall i j n, first_prefix i ps d = Some (j, n) ->
  exists p rest, (i <= j)%nat /\ ps !! (j - i)%nat = Some p /\ n = length p /\ p <> [] /\ d = p ++ rest.
Proof.
  induction ps as [|p ps IH]; intros i j n; cbn; [done|]. destruct (negb _ && _) eqn:E.
  - apply andb_true_iff in E as [Hn%negb_true_iff%Z.eqb_neq Hp%bytes_eqb_eq]. intros [= <- <-]. exists p, (drop (length p) d).
    rewrite Nat.sub_diag. split_and!; [lia|done|done|by intros ->|]. rewrite <- Hp at 1. by rewrite take_drop.
  - intros (q & rest & Hle & Hq & H)%IH. exists q, rest. split; [lia|]. split; [|done]. replace (j - i)%nat with (S (j - S i))%nat by lia. done.
Qed.

Lemma first_prefix_none ps d : forall i, first_prefix i ps d = None -> forall p rest, p ∈ ps -> p <> [] -> d <> p ++ rest.
Proof.
  induction ps as [|q ps IH]; intros i H p rest Hp Hne Hd; [by apply elem_of_nil in Hp|]. cbn in H. destruct (negb _ && _) eqn:E; [done|].
  apply elem_of_cons in Hp as [->|Hp]; [|by apply (IH _ H p rest)]. subst d. rewrite take_app_length, bytes_eqb_refl, andb_true_r in E.
  apply negb_false_iff, Z.eqb_eq in E. destruct q; [done|slen].
Qed.

(** The matches: occurrences, apart and in order, and every occurrence meets one. *)
Record scanned (ps : list (list byte)) (d : list byte) (pos : nat) (found : list (nat * nat)) : Prop := {
  sc_found i s : (i, s) ∈ found -> exists p a b, ps !! i = Some p /\ d = a ++ p ++ b /\ s = (pos + length a)%nat;
  sc_apart : forall k l i s j t p, (k < l)%nat -> found !! k = Some (i, s) -> found !! l = Some (j, t) -> ps !! i = Some p -> (s + length p <= t)%nat;
  sc_covers i p a b : p <> [] -> ps !! i = Some p -> d = a ++ p ++ b ->
    exists j q t, (j, t) ∈ found /\ ps !! j = Some q /\ overlap (pos + length a) (length p) t (length q);
}.

Lemma scan_ok ps fuel : forall d pos, (length d <= fuel)%nat -> scanned ps d pos (scan fuel ps d pos).
Proof.
  assert (Hnil : forall pos, scanned ps [] pos []).
  { intros pos. constructor; [intros i s H; by apply elem_of_nil in H|intros k l i s j t p _ H; done|].
    intros i p a b Hp _ H. symmetry in H. apply app_eq_nil in H as [_ [-> _]%app_eq_nil]. done. }
  induction fuel as [|fuel IH]; intros [|x d] pos Hf; try apply Hnil; [cbn in Hf; lia|]. cbn [scan].
  destruct (first_prefix 0 ps (x :: d)) as [[i n]|] eqn:Ef.
  - apply first_prefix_some in Ef as (q & rest & _ & Hq & -> & Hne & Hd). rewrite Nat.sub_0_r in Hq. rewrite Hd, drop_app_length.
    assert (Hlen : (length rest <= fuel)%nat) by (apply (f_equal length) in Hd; rewrite length_app in Hd; destruct q; [done|]; cbn in Hd, Hf; lia).
    destruct (IH rest (pos + length q)%nat Hlen) as [Hfo Hap Hco]. constructor.
    + intros j s [[= -> ->]|H]%elem_of_cons; [exists q, [], rest; split_and!; [done|done|cbn; lia]|].
      destruct (Hfo j s H) as (p & a & b & Hp & -> & ->). exists p, (q ++ a), b. split_and!; [done|by rewrite <- app_assoc|rewrite length_app; lia].
    + intros [|k] [|l] j s j' t p Hkl Hk Hl Hp; try lia; cbn in Hk, Hl; [|by apply (Hap k l j s j' t p); [lia|..]].
      injection Hk as -> ->. assert (p = q) as -> by congruence. apply list_elem_of_lookup_2 in Hl.
      destruct (Hfo j' t Hl) as (p' & a & b & _ & _ & ->). lia.
    + intros j p a b Hp Hj Hdec. destruct (decide (length a < length q)%nat) as [Hlt|Hge].
      * exists i, q, pos. split_and!; [by left|done|]. unfold overlap. destruct p; [done|]. cbn. lia.
      * destruct (app_eq_inv q rest a (p ++ b) Hdec) as [(k & -> & Hk)|(k & -> & Hk)].
        { rewrite length_app in Hge. assert (k = []) as -> by (apply length_zero_iff_nil; lia). cbn in Hk. subst rest.
          destruct (Hco j p [] b Hp Hj eq_refl) as (j' & q' & t & Hin & Hq' & Hov). exists j', q', t. split_and!; [by right|done|].
          by rewrite app_nil_r, Nat.add_0_r in Hov. }
        { destruct (Hco j p k b Hp Hj Hk) as (j' & q' & t & Hin & Hq' & Hov). exists j', q', t. split_and!; [by right|done|].
          rewrite length_app, Nat.add_assoc. done. }
  - assert (Hlen : (length d <= fuel)%nat) by (cbn in Hf; lia). destruct (IH d (S pos) Hlen) as [Hfo Hap Hco]. constructor; [|done|].
    + intros j s H. destruct (Hfo j s H) as (p & a & b & Hp & -> & ->). exists p, (x :: a), b. split_and!; [done|done|cbn; lia].
    + intros j p a b Hp Hj Hdec. destruct a as [|y a].
      { by destruct (first_prefix_none _ _ _ Ef p b (list_elem_of_lookup_2 _ _ _ Hj) Hp). }
      injection Hdec as <- Hdec. destruct (Hco j p a b Hp Hj Hdec) as (j' & q' & t & Hin & Hq' & Hov). exists j', q', t. split_and!; [done|done|].
      cbn. by rewrite Nat.add_succ_r.
Qed.

#[export] Instance toy_search_laws : SearchLaws toy_search.
Proof.
  constructor; cbn.
  - intros ps a d i s [= <-] H. destruct (sc_found _ _ _ _ (scan_ok ps (length d) d 0 (le_n _)) i s H) as (p & x & b & Hp & -> & ->).
    exists p. split; [done|]. by exists x, b.
  - intros ps a d k l i s j t p [= <-]. apply (sc_apart _ _ _ _ (scan_ok ps (length d) d 0 (le_n _))).
  - intros ps a d i p s [= <-] Hne Hp (x & b & -> & <-). by apply (sc_covers _ _ _ _ (scan_ok ps _ _ 0 (le_n _)) i p x b).
Qed.

(** ** The properties *)

(** C9: routing follows the rules. For a compiled configuration and a name in
    which no two different keywords overlap, [select_with_dns] never panics and is
    the specification [route_spec]: an identifier that is not configured is
    refused before any lookup; a configured one gets the first matching rule of
    the global list, then of the policy it follows, then that policy's default,
    with names looked up only under the strategy's conditions. The candidate index
    of long lists and the two passes of [ResolveIfNoMatch] change nothing, and the
    addresses reported are at most 64, without repetition. *)
Theorem routing_follows_rules {AM : AssetMatcher} {RX : RegexOps} {SX : SearchOps} {SL : SearchLaws SX} (parse_uuid : list byte -> option UserId)
    (config : RoutingConfig) (clients : list UserConfig) (t : RoutingTable) (env : LookupEnv) (u : UserId) (tag : list byte) (d : Destination)
    (strategy : DomainStrategy) (g : Governor) :
  (forall s v, parse_uuid s = Some v -> length v = 16%nat) -> compile_table parse_uuid config clients = Ok t -> length u = 16%nat ->
  (u ∉ omap (fun c => parse_uuid (uc_id c)) clients -> select_with_dns t env u tag d strategy g = (Err RtUnknownUser, g)) /\
  (u ∈ omap (fun c => parse_uuid (uc_id c)) clients -> exists client user, client ∈ clients /\ parse_uuid (uc_id client) = Some u /\ follows config client user /\
    (keywords_apart (rt_global_rules t) (normalized_domain d) -> keywords_apart (cp_rules user) (normalized_domain d) ->
     select_with_dns t env u tag d strategy g = route_spec t user env u tag d strategy g)) /\
  forall ips g', resolve_domain env d g = (Ok ips, g') -> NoDup ips /\ len ips <= MAX_RESOLVED_IPS.
Proof.
  intros Huuid Hc Hlen. destruct (compile_table_ok parse_uuid Huuid _ _ _ Hc) as (Ht & _ & Hip & users & Hus & Hids & Hdom & Hfol).
  destruct (user_map_get (E := RouteResolutionError) users u Hids Hlen) as (o & Ho & Hspec). rewrite <- Hus in Ho. split_and!.
  - intros Hn. destruct o as [p|]; [exfalso; apply Hn; rewrite <- Hdom; apply list_elem_of_fmap; by exists (u, p)|].
    unfold select_with_dns, mbind, IO_bind, pure_io. by rewrite Ho.
  - intros Hin. destruct o as [p|]; [|rewrite <- Hdom in Hin; done]. destruct (Hfol u p Hspec) as (client & Hcl & Hid & Hf).
    exists client, p. split_and!; try done. intros H1 H2. apply select_with_dns_ok; try done; [by eapply follows_ok|by eapply follows_has_ip].
  - intros ips g'. apply resolve_bounded.
Qed.

(** All keywords of the rules are one. *)
Definition one_keyword {RX : RegexOps} (k : list byte) (rules : list CompiledRule) : bool :=
  forallb (fun r => forallb (fun m => match m with DmKeyword v => bytes_eqb v k | _ => true end) (cr_domains r)) rules.

Lemma one_keyword_apart {RX : RegexOps} k rules domain : one_keyword k rules = true -> keywords_apart rules domain.
Proof.
  intros H d k1 k2 s1 s2 _ (_ & r1 & Hr1 & Hm1) (_ & r2 & Hr2 & Hm2) Hne. destruct Hne. unfold one_keyword in H. rewrite forallb_forall in H.
  assert (Hall : forall r v, r ∈ rules -> DmKeyword v ∈ cr_domains r -> v = k).
  { intros r v Hr Hv. apply list_elem_of_In, H in Hr. rewrite forallb_forall in Hr. apply list_elem_of_In, Hr in Hv. by apply bytes_eqb_eq. }
  by rewrite (Hall _ _ Hr1 Hm1), (Hall _ _ Hr2 Hm2).
Qed.

#[export] Instance toy_regex : RegexOps := {| Regex := unit; regex_build _ := None; is_match _ _ := false |}.

Definition text_rule (domain ip port : option (list (list byte))) (outbound : string) : RouteRule :=
  {| rr_name := None; rr_domain := domain; rr_ip := ip; rr_port := port; rr_outbound := bytes_of outbound |}.

(** A keyword rule, a network rule, and enough others for the index. *)
Definition example_config : RoutingConfig :=
  {| rg_default := bytes_of "direct"; rg_strategy := None;
     rg_rules := Some ([text_rule (Some [bytes_of "keyword:ads"]) None None "block"; text_rule None (Some [bytes_of "10.0.0.0/8"]) None "block"] ++
                       replicate 62 (text_rule (Some [bytes_of "example.com"]) None (Some [bytes_of "1-9"]) "other"));
     rg_policies := Some [(bytes_of "split", {| rp_default := bytes_of "landing-1"; rp_rules := None |})] |}.
Definition example_uuid (s : list byte) : option UserId := if (length s =? 16)%nat then Some s else None.
Definition example_clients : list UserConfig := [{| uc_id := replicate 16 x41; uc_policy := Some (bytes_of "split") |}].
Definition example_table : RoutingTable :=
  match compile_table example_uuid example_config example_clients with
  | Ok t => t
  | _ => {| rt_global_rules := []; rt_global_index := None; rt_users := UmSorted []; rt_global_has_ip_rules := false |}
  end.
Definition example_lookup : LookupEnv := {| lk_answer := LkAddresses [IpV4 [x0a; x01; x02; x03]]; lk_alloc := true |}.
Definition example_name : Destination := {| address := Domain (bytes_of "Intra.Test"); port := 443 |}.

Lemma routing_follows_rules_witness : exists user, (select_with_dns (AM := EmptyAssetMatcher) example_table example_lookup (replicate 16 x41) [] example_name ResolveIfNoMatch
    (pools governor_default None) =
  route_spec (AM := EmptyAssetMatcher) example_table user example_lookup (replicate 16 x41) [] example_name ResolveIfNoMatch (pools governor_default None)) /\
  cp_default_outbound user = bytes_of "landing-1".
Proof.
  destruct (routing_follows_rules (AM := EmptyAssetMatcher) example_uuid example_config example_clients example_table example_lookup (replicate 16 x41) []
    example_name ResolveIfNoMatch (pools governor_default None)) as (_ & H & _).
  - unfold example_uuid. intros s v. destruct (Nat.eqb_spec (length s) 16); [|discriminate]. intros [= <-]. assumption.
  - vm_compute. reflexivity.
  - reflexivity.
  - destruct H as (client & user & Hcl & _ & Hf & H); [by left|]. apply list_elem_of_singleton in Hcl as ->.
    destruct Hf as (policy & Hp & Hf). apply list_elem_of_singleton in Hp. injection Hp as ->. injection Hf as <-.
    eexists. split; [apply H|reflexivity].
    + apply (one_keyword_apart (bytes_of "ads")). vm_compute. reflexivity.
    + apply (one_keyword_apart []). reflexivity.
Defined.

(** ** Overlapping keywords

    The two keywords of these rules overlap in the name below, wherever the
    search reports one of them. *)
Definition overlapping_rules : list RouteRule :=
  [text_rule (Some [bytes_of "keyword:google"]) None (Some [bytes_of "80"]) "a"; text_rule (Some [bytes_of "keyword:googlevideo"]) None (Some [bytes_of "443"]) "b"] ++
  replicate 62 (text_rule None None (Some [bytes_of "9"]) "c").
Definition overlapping_patterns : list (list byte) := [bytes_of "google"; bytes_of "googlevideo"].
Definition video_name : list byte := bytes_of "googlevideo.com".
Definition video_context (port : Z) : RouteContext :=
  {| rc_user_id := replicate 16 x41; rc_inbound_tag := []; rc_destination := {| address := Domain video_name; port := port |}; rc_resolved_ips := [] |}.

Section Overlap.
Context {AM : AssetMatcher} {RX : RegexOps} {SX : SearchOps}.

Definition overlapping_compiled : list CompiledRule :=
  match compile_rules overlapping_rules (bytes_of "routing.rules") with Ok cs => cs | _ => [] end.

Lemma overlapping_builder : exists b, index_rules empty_builder overlapping_compiled 0 = Some b /\ ib_patterns b = overlapping_patterns /\
  ib_full b = ∅ /\ ib_suffix b = ∅ /\ ib_keyword_rules b = [[0%nat]; [1%nat]] /\ ib_always b = seq 2 62.
Proof. eexists. split; [vm_compute; reflexivity|]. split_and!; reflexivity. Qed.

Lemma overlapping_index a : ac_build overlapping_patterns = Some a -> exists n, build_index overlapping_compiled =
  Some {| ri_full := ∅; ri_suffix := ∅; ri_keywords := Some a; ri_keyword_rules := [[0%nat]; [1%nat]]; ri_keyword_pattern_bytes := n; ri_always := seq 2 62 |}.
Proof.
  intros Ha. unfold build_index. change (len overlapping_compiled) with 64. cbn [Z.ltb orb].
  destruct overlapping_builder as (b & -> & Hp & Hf & Hs & Hk & Hal). cbn [mbind option_bind]. rewrite Hp, Ha, Hf, Hs, Hk, Hal. by eexists.
Qed.

Lemma occurs_zero p : p ∈ overlapping_patterns -> forall s, occurs_at p video_name s -> s = 0%nat.
Proof.
  intros Hp s (a & b & H & <-). apply (f_equal (fun l => bytes_eqb (take (length p) (drop (length a) l)) p)) in H.
  rewrite drop_app_length, take_app_length, bytes_eqb_refl in H.
  assert (Hall : forallb (fun n => forallb (fun p => (n =? 0)%nat || negb (bytes_eqb (take (length p) (drop n video_name)) p)) overlapping_patterns) (seq 0 16) = true) by (vm_compute; reflexivity).
  rewrite forallb_forall in Hall. destruct (decide (length a < 16)%nat) as [Hlt|Hge].
  - specialize (Hall (length a) ltac:(apply in_seq; lia)). rewrite forallb_forall in Hall. apply list_elem_of_In, Hall in Hp.
    rewrite H in Hp. cbn in Hp. rewrite orb_false_r in Hp. by apply Nat.eqb_eq.
  - exfalso. rewrite drop_ge in H by (change (length video_name) with 15%nat; lia). rewrite take_nil in H.
    apply elem_of_cons in Hp as [-> | ->%list_elem_of_singleton]; discriminate H.
Qed.

(** A search without overlaps reports exactly one of the two keywords. *)
Lemma overlapping_found `{!SearchLaws SX} a : ac_build overlapping_patterns = Some a ->
  find_iter a video_name = [(0%nat, 0%nat)] \/ find_iter a video_name = [(1%nat, 0%nat)].
Proof.
  intros Ha. assert (Hz : forall i s, (i, s) ∈ find_iter a video_name -> (i < 2)%nat /\ s = 0%nat /\ exists p, overlapping_patterns !! i = Some p).
  { intros i s Hi. destruct (search_found _ _ _ _ _ Ha Hi) as (p & Hp & Ho). split_and!; [by apply lookup_lt_Some in Hp| |by exists p].
    apply (occurs_zero p); [by eapply list_elem_of_lookup_2|done]. }
  destruct (search_covers overlapping_patterns a video_name 0 (bytes_of "google") 0 Ha) as (j & q & s & Hj & _); [done|done|by exists [], (bytes_of "video.com")|].
  destruct (find_iter a video_name) as [|[i s1] [|[i' s2] l]] eqn:E; [by apply elem_of_nil in Hj| |].
  - destruct (Hz i s1 ltac:(by left)) as (Hi & -> & _). destruct i as [|[|i]]; [by left|by right|lia].
  - exfalso. destruct (Hz i s1 ltac:(by left)) as (Hi & -> & p & Hp). destruct (Hz i' s2 ltac:(right; by left)) as (_ & -> & _).
    pose proof (search_disjoint overlapping_patterns a video_name 0 1 i 0 i' 0 p Ha ltac:(lia)) as Hd. rewrite E in Hd. specialize (Hd eq_refl eq_refl Hp).
    destruct i as [|[|i]]; [injection Hp as <-|injection Hp as <-|lia]; cbn in Hd; lia.
Qed.

(** C40: where keywords overlap, the index of a long list loses rules. For every
    search with the documented laws, [routing.rules] below holds two keyword
    rules, [google] and [googlevideo], and 62 others; for the name
    [googlevideo.com] one of the two is never a candidate, so there is a port at
    which the ordered scan finds a rule and the indexed selection finds none. *)
Theorem overlapping_keywords_lost `{!SearchLaws SX} (a : Automaton) :
  ac_build overlapping_patterns = Some a ->
  exists p r, (p = 80 \/ p = 443) /\ List.find (fun r => route_matches r (video_context p) (Some video_name)) overlapping_compiled = Some r /\
    select_from_rules (E := RouteResolutionError) overlapping_compiled (build_index overlapping_compiled) (video_context p) (Some video_name) = Ok None.
Proof.
  intros Ha. destruct (overlapping_index a Ha) as [n ->]. unfold select_from_rules, ordered_candidates, domain_hits. cbn [ri_keywords ri_full ri_suffix ri_keyword_rules ri_always].
  destruct (overlapping_found a Ha) as [-> | ->]; [exists 443|exists 80]; eexists; (split; [auto|]); split; vm_compute; reflexivity.
Qed.
End Overlap.

Lemma overlapping_keywords_lost_witness : exists p r, (p = 80 \/ p = 443) /\
  List.find (fun r => route_matches (AM := EmptyAssetMatcher) r (video_context p) (Some video_name)) overlapping_compiled = Some r /\
  select_from_rules (AM := EmptyAssetMatcher) (E := RouteResolutionError) overlapping_compiled (build_index overlapping_compiled) (video_context p) (Some video_name) = Ok None.
Proof. apply (overlapping_keywords_lost (AM := EmptyAssetMatcher) (RX := toy_regex) (SX := toy_search) overlapping_patterns). reflexivity. Defined.
