(* ===== verification/TlsMessages.v ===== *)
(** * TLS 1.3 handshake messages ([src/protocol/reality/tls13/messages.rs])

    EncryptedExtensions, the forged certificate, CertificateVerify and Finished
    as the server writes them. Ed25519 and HMAC-SHA512 come from external crates
    and are the class [SignOps]; [alloc n] answers whether a buffer of [n] bytes
    can be reserved. *)

From S2P Require Import Prelude Crypto.
#[local] Open Scope Z_scope.

Definition HANDSHAKE_HEADER_LEN : Z := 4.
Definition MAX_HANDSHAKE_BODY_LEN : Z := 16777215.
Definition HANDSHAKE_ENCRYPTED_EXTENSIONS : byte := x08.
Definition HANDSHAKE_CERTIFICATE : byte := x0b.
Definition HANDSHAKE_CERTIFICATE_VERIFY : byte := x0f.
Definition HANDSHAKE_FINISHED : byte := x14.
Definition EXTENSION_ALPN : Z := 16.
Definition ED25519_SIGNATURE_SCHEME : Z := 2055.
Definition CERTIFICATE_VERIFY_CONTEXT : list byte := bytes_of "TLS 1.3, server CertificateVerify".
Definition CERTIFICATE_PUBLIC_KEY_OFFSET : Z := 72.
Definition CERTIFICATE_SIGNATURE_OFFSET : Z := 114.
Definition CERTIFICATE_PUBLIC_KEY_LEN : Z := 32.
Definition CERTIFICATE_SIGNATURE_LEN : Z := 64.

Definition CERTIFICATE_TEMPLATE : list byte := as_u8 <$>
  [48; 129; 175; 48; 99; 160; 3; 2; 1; 2; 2; 1; 0; 48; 5; 6;
   3; 43; 101; 112; 48; 0; 48; 34; 24; 15; 48; 48; 48; 49; 48; 49;
   48; 49; 48; 48; 48; 48; 48; 48; 90; 24; 15; 48; 48; 48; 49; 48;
   49; 48; 49; 48; 48; 48; 48; 48; 48; 90; 48; 0; 48; 42; 48; 5;
   6; 3; 43; 101; 112; 3; 33; 0; 33; 82; 248; 209; 155; 121; 29; 36;
   69; 50; 66; 225; 95; 46; 171; 108; 183; 207; 250; 123; 106; 94; 211; 0;
   151; 150; 14; 6; 152; 129; 219; 18; 48; 5; 6; 3; 43; 101; 112; 3;
   65; 0; 82; 200; 77; 61; 200; 241; 35; 187; 136; 155; 5; 152; 254; 17;
   77; 54; 208; 89; 159; 32; 243; 208; 145; 177; 40; 74; 132; 90; 93; 129;
   140; 159; 133; 31; 68; 16; 8; 210; 248; 74; 95; 158; 188; 204; 142; 130;
   67; 217; 51; 43; 22; 12; 3; 142; 82; 186; 138; 44; 230; 247; 0; 96;
   54; 4].

Inductive HandshakeMessageError := MInvalidLength | MRandom | MCrypto | MBufferAllocation.

(** What ed25519-dalek and hmac provide. *)
Class SignOps := {
  SigningKey : Type;
  VerifyingKey : Type;
  signing_from_seed : list byte -> SigningKey;
  verifying_bytes : SigningKey -> list byte;
  sign : SigningKey -> list byte -> list byte;
  (** [VerifyingKey::from_bytes] and [verify_strict]. *)
  verifying_from_bytes : list byte -> option VerifyingKey;
  verify_strict : VerifyingKey -> list byte -> list byte -> bool;
  (** [HMAC-SHA512(key, data)]; [new_from_slice] takes keys of any length. *)
  hmac_sha512 : list byte -> list byte -> list byte;
}.

Class SignLaws (S : SignOps) : Prop := {
  verifying_bytes_len : forall k, len (verifying_bytes k) = 32;
  sign_len : forall k m, len (sign k m) = 64;
  verify_sign : forall k m, exists v, verifying_from_bytes (verifying_bytes k) = Some v /\ verify_strict v m (sign k m) = true;
  hmac_sha512_len : forall k m, len (hmac_sha512 k m) = 64;
}.

(** [v.get_mut(i..j).ok_or(e)?.copy_from_slice(b)]: the copy panics when the
    lengths differ. *)
Definition copy_into {E} (l : list byte) (i j : Z) (b : list byte) (e : E) : result E (list byte) :=
  match get_range l i j with
  | None => Err e
  | Some _ => if len b =? j - i then Ok (take (Z.to_nat i) l ++ b ++ drop (Z.to_nat j) l) else Panic
  end.

Definition push_u24 (value : Z) : result HandshakeMessageError (list byte) :=
  guard! MAX_HANDSHAKE_BODY_LEN <? value else MInvalidLength;
  encoded ← ok_or MInvalidLength (try_from U32_MAX value);
  Ok (drop 1 (to_be 4 encoded)).

Section Messages.
Context (alloc : Z -> bool).

Definition encode_handshake (message_type : byte) (body : list byte) : result HandshakeMessageError (list byte) :=
  guard! MAX_HANDSHAKE_BODY_LEN <? len body else MInvalidLength;
  capacity ← ok_or MInvalidLength (checked_add USIZE_MAX HANDSHAKE_HEADER_LEN (len body));
  guard! negb (alloc capacity) else MBufferAllocation;
  encoded ← push_u24 (len body);
  Ok ([message_type] ++ encoded ++ body).

Definition encrypted_extensions (selected_alpn : option (list byte)) : result HandshakeMessageError (list byte) :=
  match selected_alpn with
  | None => encode_handshake HANDSHAKE_ENCRYPTED_EXTENSIONS [x00; x00]
  | Some protocol =>
    protocol_len ← ok_or MInvalidLength (n ← try_from U8_MAX (len protocol); if n =? 0 then None else Some n);
    let protocol_list_len := protocol_len + 1 in
    let alpn_body_len := protocol_list_len + 2 in
    let extension_len := alpn_body_len + 4 in
    guard! negb (alloc (extension_len + 2)) else MBufferAllocation;
    a ← ok_or MInvalidLength (try_from U16_MAX extension_len);
    b ← ok_or MInvalidLength (try_from U16_MAX alpn_body_len);
    c ← ok_or MInvalidLength (try_from U16_MAX protocol_list_len);
    encode_handshake HANDSHAKE_ENCRYPTED_EXTENSIONS
      (to_be 2 a ++ to_be 2 EXTENSION_ALPN ++ to_be 2 b ++ to_be 2 c ++ [as_u8 protocol_len] ++ protocol)
  end.

Definition certificate_message (certificate_der : list byte) : result HandshakeMessageError (list byte) :=
  let certificate_len := len certificate_der in
  guard! (certificate_len =? 0) || (MAX_HANDSHAKE_BODY_LEN <? certificate_len) else MInvalidLength;
  entry_len ← ok_or MInvalidLength (checked_add USIZE_MAX certificate_len 5);
  body_len ← ok_or MInvalidLength (checked_add USIZE_MAX entry_len 4);
  guard! (MAX_HANDSHAKE_BODY_LEN <? body_len) || (MAX_HANDSHAKE_BODY_LEN <? entry_len) else MInvalidLength;
  guard! negb (alloc body_len) else MBufferAllocation;
  a ← push_u24 entry_len;
  b ← push_u24 certificate_len;
  encode_handshake HANDSHAKE_CERTIFICATE ([x00] ++ a ++ b ++ certificate_der ++ [x00; x00]).

Definition finished_message (verify_data : list byte) : result HandshakeMessageError (list byte) :=
  guard! negb (len verify_data =? 32) && negb (len verify_data =? 48) else MInvalidLength;
  encode_handshake HANDSHAKE_FINISHED verify_data.

(** ** The certificate identity *)

Context {S : SignOps}.

Record CertificateIdentity := { signing_key : SigningKey }.

(** [entropy] is what the operating system returned, if it did. *)
Definition generate_identity (entropy : option (list byte)) : result HandshakeMessageError CertificateIdentity :=
  seed ← ok_or MRandom entropy;
  Ok {| signing_key := signing_from_seed seed |}.

Definition forge_certificate (i : CertificateIdentity) (auth_key : list byte) : result HandshakeMessageError (list byte) :=
  let public_key := verifying_bytes (signing_key i) in
  let public_key_end := CERTIFICATE_PUBLIC_KEY_OFFSET + CERTIFICATE_PUBLIC_KEY_LEN in
  certificate ← copy_into CERTIFICATE_TEMPLATE CERTIFICATE_PUBLIC_KEY_OFFSET public_key_end public_key MInvalidLength;
  let signature := hmac_sha512 auth_key public_key in
  let signature_end := CERTIFICATE_SIGNATURE_OFFSET + CERTIFICATE_SIGNATURE_LEN in
  copy_into certificate CERTIFICATE_SIGNATURE_OFFSET signature_end signature MInvalidLength.

Definition certificate_verify (i : CertificateIdentity) (transcript_hash : list byte) : result HandshakeMessageError (list byte) :=
  guard! negb (len transcript_hash =? 32) && negb (len transcript_hash =? 48) else MInvalidLength;
  signed_len ← ok_or MInvalidLength
    (n ← checked_add USIZE_MAX 64 (len CERTIFICATE_VERIFY_CONTEXT); n ← checked_add USIZE_MAX n 1;
     checked_add USIZE_MAX n (len transcript_hash));
  guard! negb (alloc signed_len) else MBufferAllocation;
  let signed := replicate 64 x20 ++ CERTIFICATE_VERIFY_CONTEXT ++ [x00] ++ transcript_hash in
  let signature := sign (signing_key i) signed in
  guard! negb (alloc (4 + len signature)) else MBufferAllocation;
  n ← ok_or MInvalidLength (try_from U16_MAX (len signature));
  encode_handshake HANDSHAKE_CERTIFICATE_VERIFY (to_be 2 ED25519_SIGNATURE_SCHEME ++ to_be 2 n ++ signature).
End Messages.
