(* ===== verification/ServerHello.v ===== *)
(** * ServerHello templates ([src/protocol/reality/tls13/server_hello.rs])

    The parser of a cover's ServerHello against the client's offer, the
    replacement of its key share, the profile skeleton with every session field
    erased, and the plaintext record around a handshake message. *)

From S2P Require Import Prelude Cursor ClientHello HelloSpec HelloExact Tls13Keys TlsMessages.
#[local] Open Scope Z_scope.

Definition HANDSHAKE_SERVER_HELLO : byte := x02.
Definition HELLO_RETRY_REQUEST_RANDOM : list byte := as_u8 <$>
  [207; 33; 173; 116; 229; 154; 97; 17; 190; 29; 140; 2; 30; 101; 184; 145;
   194; 162; 17; 22; 122; 187; 140; 94; 7; 158; 9; 226; 200; 168; 51; 156].
Definition LEGACY_TLS12_VERSION : Z := 771.
Definition EXTENSION_PRE_SHARED_KEY : Z := 41.
Definition EXTENSION_SUPPORTED_VERSIONS : Z := 43.
Definition EXTENSION_KEY_SHARE : Z := 51.
Definition MAX_SERVER_HELLO_LEN : Z := 8 * 1024.
Definition MAX_SERVER_EXTENSIONS : Z := 64.
Definition X25519_KEY_EXCHANGE_LEN : Z := 32.
Definition MLKEM768_CIPHERTEXT_LEN : Z := 1088.
Definition X25519_MLKEM768_SERVER_SHARE_LEN : Z := MLKEM768_CIPHERTEXT_LEN + 32.
Definition SERVER_RANDOM_START : Z := 6.
Definition SERVER_RANDOM_END : Z := SERVER_RANDOM_START + 32.
Definition SESSION_ID_LENGTH_OFFSET : Z := SERVER_RANDOM_END.
Definition SESSION_ID_START : Z := SESSION_ID_LENGTH_OFFSET + 1.

Inductive ServerHelloError :=
| ShTruncated | ShTooLarge | ShMalformed | ShHelloRetryRequest | ShUnsupportedVersion | ShUnsupportedCipherSuite
| ShUnsupportedKeyShare | ShPreSharedKeySelected | ShSessionIdMismatch | ShReplacementLength | ShRecordLength | ShBufferAllocation.

Record ServerHelloTemplate := { t_message : list byte; t_suite : CipherSuite; t_key_share_group : Z; t_key_exchange : Range }.
Record ServerHelloProfileTemplate := { p_message : list byte; p_suite : CipherSuite; p_key_share_group : Z; p_key_exchange : Range }.

Definition validate_key_share (group exchange_len : Z) (client : ClientHello) : result ServerHelloError unit :=
  expected_len ← (if group =? P256_GROUP then Ok 65
                  else if group =? X25519_GROUP then Ok X25519_KEY_EXCHANGE_LEN
                  else if group =? X25519_MLKEM768_GROUP then Ok X25519_MLKEM768_SERVER_SHARE_LEN
                  else Err ShUnsupportedKeyShare);
  reject_if (negb (exchange_len =? expected_len) || negb (key_share_group_offered client group)) ShUnsupportedKeyShare.

(** ** [Reader]

    A cursor over its own slice; [base] is where the slice starts in the message. *)

Notation SH := (M Cursor ServerHelloError).

Definition sh_read_bytes (length : Z) : SH (list byte) := fun c =>
  match checked_add USIZE_MAX (position c) length with
  | None => Err ShTooLarge
  | Some stop =>
    match get_range (input c) (position c) stop with
    | None => Err ShTruncated
    | Some b => Ok (b, {| input := input c; position := stop |})
    end
  end.

Definition sh_read_u8 : SH byte := fun c =>
  match input c !! Z.to_nat (position c) with
  | None => Err ShTruncated
  | Some b => Ok (b, {| input := input c; position := position c + 1 |})
  end.

Definition sh_read_u16 : SH Z :=
  b ← sh_read_bytes 2;
  return! ShTruncated when negb (len b =? 2);
  mret (from_be b).

Definition sh_read_u24 : SH Z :=
  b ← sh_read_bytes 3;
  b0 ← lift (index b 0); b1 ← lift (index b 1); b2 ← lift (index b 2);
  mret (from_be [b0; b1; b2]).

Definition sh_offset (base : Z) : SH Z := c ← get_state; lift (ok_or ShTooLarge (checked_add USIZE_MAX base (position c))).

Definition sh_read_range (base length : Z) : SH Range :=
  start ← sh_offset base;
  _ ← sh_read_bytes length;
  stop ← sh_offset base;
  mret (start, stop).

(** The sub-reader's base and cursor. *)
Definition subreader (base length : Z) : SH (Z * Cursor) :=
  start ← sh_offset base;
  b ← sh_read_bytes length;
  mret (start, new_cursor b).

Definition cursor_empty (c : Cursor) : bool := position c =? len (input c).
Definition cursor_remaining (c : Cursor) : Z := saturating_sub (len (input c)) (position c).
Definition sh_is_empty : SH bool := c ← get_state; mret (cursor_empty c).
Definition sh_skip_remaining : SH unit := c ← get_state; put_state {| input := input c; position := len (input c) |}.

(** ** [ServerHelloTemplate::parse] *)

Record ServerExtensions := { x_seen : list Z; x_tls13 : bool; x_key_share : option (Z * Range) }.

Definition server_extension_body (client : ClientHello) (t base : Z) (st : ServerExtensions) : SH ServerExtensions :=
  if t =? EXTENSION_SUPPORTED_VERSIONS then
    v ← sh_read_u16;
    mret {| x_seen := x_seen st; x_tls13 := v =? TLS13_VERSION; x_key_share := x_key_share st |}
  else if t =? EXTENSION_KEY_SHARE then
    group ← sh_read_u16;
    exchange_len ← sh_read_u16;
    exchange ← sh_read_range base exchange_len;
    _ ← lift (validate_key_share group exchange_len client);
    mret {| x_seen := x_seen st; x_tls13 := x_tls13 st; x_key_share := Some (group, exchange) |}
  else if t =? EXTENSION_PRE_SHARED_KEY then throw ShPreSharedKeySelected
  else _ ← sh_skip_remaining; mret st.

Definition server_extension_step (client : ClientHello) (base : Z) (st : ServerExtensions) : SH ServerExtensions :=
  return! ShMalformed when MAX_SERVER_EXTENSIONS <=? len (x_seen st);
  t ← sh_read_u16;
  return! ShMalformed when bool_decide (t ∈ x_seen st);
  let st := {| x_seen := x_seen st ++ [t]; x_tls13 := x_tls13 st; x_key_share := x_key_share st |} in
  extension_len ← sh_read_u16;
  '(ebase, extension) ← subreader base extension_len;
  '(st, extension) ← lift (server_extension_body client t ebase st extension);
  return! ShMalformed when negb (cursor_empty extension);
  mret st.

(** [while !extensions.is_empty()]; every round reads four bytes at least. *)
Fixpoint server_extensions_loop (fuel : nat) (client : ClientHello) (base : Z) (st : ServerExtensions) : SH ServerExtensions :=
  match fuel with
  | O => fun _ => Panic
  | S fuel =>
    e ← sh_is_empty;
    if (e : bool) then mret st else st ← server_extension_step client base st; server_extensions_loop fuel client base st
  end.

Definition server_extensions (client : ClientHello) (base : Z) (c : Cursor) : result ServerHelloError ServerExtensions :=
  fst <$> server_extensions_loop (S (length (input c))) client base {| x_seen := []; x_tls13 := false; x_key_share := None |} c.

Definition server_hello_body (message : list byte) (client : ClientHello) : SH ServerHelloTemplate :=
  kind ← sh_read_u8;
  return! ShMalformed when negb (bool_decide (kind = HANDSHAKE_SERVER_HELLO));
  declared ← sh_read_u24;
  c ← get_state;
  return! ShMalformed when negb (declared =? cursor_remaining c);
  legacy ← sh_read_u16;
  return! ShMalformed when negb (legacy =? LEGACY_TLS12_VERSION);
  server_random ← sh_read_bytes 32;
  return! ShHelloRetryRequest when bytes_eqb server_random HELLO_RETRY_REQUEST_RANDOM;
  session_id_len ← sh_read_u8;
  return! ShMalformed when 32 <? u8 session_id_len;
  session ← sh_read_bytes (u8 session_id_len);
  return! ShSessionIdMismatch when negb (bool_decide (session_id client = Some session));
  suite_wire ← sh_read_u16;
  suite ← lift (ok_or ShUnsupportedCipherSuite (s ← suite_from_wire suite_wire; if cipher_offered client suite_wire then Some s else None));
  compression ← sh_read_u8;
  return! ShMalformed when negb (bool_decide (compression = x00));
  extensions_len ← sh_read_u16;
  '(base, extensions) ← subreader 0 extensions_len;
  e ← sh_is_empty;
  return! ShMalformed when negb e;
  st ← lift (server_extensions client base extensions);
  return! ShUnsupportedVersion when negb (x_tls13 st);
  '(group, exchange) ← lift (ok_or ShUnsupportedKeyShare (x_key_share st));
  mret {| t_message := message; t_suite := suite; t_key_share_group := group; t_key_exchange := exchange |}.

Definition parse_server_hello (message : list byte) (client : ClientHello) : result ServerHelloError ServerHelloTemplate :=
  guard! MAX_SERVER_HELLO_LEN <? len message else ShTooLarge;
  fst <$> server_hello_body message client (new_cursor message).

Definition observed_key_exchange (t : ServerHelloTemplate) : option (list byte) :=
  get_range (t_message t) (t_key_exchange t).1 (t_key_exchange t).2.

(** [Range::len] of a range that is not reversed. *)
Definition range_len (r : Range) : Z := saturating_sub r.2 r.1.

Definition into_patched_message (t : ServerHelloTemplate) (replacement : list byte) : result ServerHelloError (list byte) :=
  guard! negb (len replacement =? range_len (t_key_exchange t)) else ShReplacementLength;
  copy_into (t_message t) (t_key_exchange t).1 (t_key_exchange t).2 replacement ShMalformed.

(** [v.get_mut(i..j).ok_or(e)?.fill(0)]. *)
Definition fill_zero {E} (l : list byte) (i j : Z) (e : E) : result E (list byte) :=
  b ← ok_or e (get_range l i j);
  Ok (take (Z.to_nat i) l ++ replicate (length b) x00 ++ drop (Z.to_nat j) l).

Definition stored_session_len (message : list byte) : result ServerHelloError Z :=
  b ← ok_or ShMalformed (message !! Z.to_nat SESSION_ID_LENGTH_OFFSET);
  Ok (u8 b).

Definition into_profile_template (t : ServerHelloTemplate) : result ServerHelloError ServerHelloProfileTemplate :=
  session_len ← stored_session_len (t_message t);
  session_end ← ok_or ShTooLarge (checked_add USIZE_MAX SESSION_ID_START session_len);
  m ← fill_zero (t_message t) SERVER_RANDOM_START SERVER_RANDOM_END ShMalformed;
  m ← fill_zero m SESSION_ID_START session_end ShMalformed;
  m ← fill_zero m (t_key_exchange t).1 (t_key_exchange t).2 ShMalformed;
  Ok {| p_message := m; p_suite := t_suite t; p_key_share_group := t_key_share_group t; p_key_exchange := t_key_exchange t |}.

Definition materialize (alloc : Z -> bool) (p : ServerHelloProfileTemplate) (client : ClientHello) (server_random : list byte)
    : result ServerHelloError ServerHelloTemplate :=
  guard! negb (cipher_offered client (suite_wire_value (p_suite p))) else ShUnsupportedCipherSuite;
  _ ← validate_key_share (p_key_share_group p) (range_len (p_key_exchange p)) client;
  session ← ok_or ShSessionIdMismatch (session_id client);
  stored ← stored_session_len (p_message p);
  guard! negb (len session =? stored) else ShSessionIdMismatch;
  session_end ← ok_or ShTooLarge (checked_add USIZE_MAX SESSION_ID_START stored);
  guard! negb (alloc (len (p_message p))) else ShBufferAllocation;
  m ← copy_into (p_message p) SERVER_RANDOM_START SERVER_RANDOM_END server_random ShMalformed;
  m ← copy_into m SESSION_ID_START session_end session ShMalformed;
  Ok {| t_message := m; t_suite := p_suite p; t_key_share_group := p_key_share_group p; t_key_exchange := p_key_exchange p |}.

Definition plaintext_handshake_record (alloc : Z -> bool) (message : list byte) : result ServerHelloError (list byte) :=
  encoded_len ← ok_or ShRecordLength (try_from U16_MAX (len message));
  capacity ← ok_or ShRecordLength (checked_add USIZE_MAX 5 (len message));
  guard! negb (alloc capacity) else ShBufferAllocation;
  Ok ([x16; x03; x03] ++ to_be 2 encoded_len ++ message).

Definition change_cipher_spec_record : list byte := [x14; x03; x03; x00; x01; x01].
