(* ===== verification/ServerHelloExact.v ===== *)
(** * What the ServerHello parser accepts

    A reference encoder of ServerHello messages: [parse_server_hello] accepts
    exactly its outputs that answer the client's offer, and replacing the key
    share of an accepted message gives an accepted message. *)

From S2P Require Import Prelude Cursor ClientHello HelloSpec HelloExact Tls13Keys TlsMessages ServerHello.
#[local] Open Scope Z_scope.

(** ** Parsers over slices and encoders *)

(** [p] reads exactly the encodings of well-formed values, at a reader of base
    [base] that has consumed [pre]. *)
Definition sparses {A X} (base : Z) (pre : list byte) (p : SH A) (enc : X -> list byte) (wf : X -> Prop) (val : X -> A) : Prop :=
  forall s v c', 0 <= base -> base + len pre + len s <= 16777216 ->
    (p (at_pos pre s) = Ok (v, c') <->
     exists x rest, wf x /\ s = enc x ++ rest /\ v = val x /\ c' = at_pos (pre ++ enc x) rest).

Section Combinators.
Context {A B X Y : Type} (base : Z) (pre : list byte).

Lemma sp_ret (a : A) : sparses base pre (mret a) (fun _ : unit => []) (fun _ => True) (fun _ => a).
Proof.
  intros s v c' _ _. cbn. split.
  - intros [= <- <-]. exists tt, s. by rewrite app_nil_r.
  - intros (_ & rest & _ & -> & -> & ->). by rewrite app_nil_r.
Qed.

Lemma sp_bind (p : SH A) (f : A -> SH B) (e1 : X -> list byte) w1 v1 (e2 : X -> Y -> list byte) w2 v2 :
  sparses base pre p e1 w1 v1 -> (forall x, w1 x -> sparses base (pre ++ e1 x) (f (v1 x)) (e2 x) (w2 x) (v2 x)) ->
  sparses base pre (p ≫= f) (fun '(x, y) => e1 x ++ e2 x y) (fun '(x, y) => w1 x /\ w2 x y) (fun '(x, y) => v2 x y).
Proof.
  intros Hp Hf s v c' Hb Hs. unfold mbind, M_bind. split.
  - destruct (p (at_pos pre s)) as [[a c]| |] eqn:E; [|done..]. intros H.
    apply Hp in E as (x & rest & Hw & -> & -> & ->); [|done..]. rewrite len_app in Hs.
    apply (Hf x Hw) in H as (y & rest' & Hw2 & -> & -> & ->); [|done|slen].
    exists (x, y), rest'. rewrite <- !app_assoc. done.
  - intros ([x y] & rest & [Hw1 Hw2] & -> & -> & ->). rewrite !len_app in Hs.
    destruct (Hp ((e1 x ++ e2 x y) ++ rest) (v1 x) (at_pos (pre ++ e1 x) (e2 x y ++ rest))) as [_ ->]; [done|slen| |].
    + apply (Hf x Hw1); [done|slen|]. exists y, rest. rewrite <- !app_assoc. done.
    + exists x, (e2 x y ++ rest). by rewrite <- app_assoc.
Qed.

Lemma sp_guard b e (k : unit -> SH A) (enc : X -> list byte) wf val :
  sparses base pre (k tt) enc wf val -> sparses base pre (u ← return_if b e; k u) enc (fun x => b = false /\ wf x) val.
Proof.
  intros Hk s v c' Hb Hs. unfold return_if, mbind, M_bind. destruct b; cbn.
  - split; [done|]. by intros (x & rest & [[=] _] & _).
  - rewrite (Hk s v c' Hb Hs). naive_solver.
Qed.

Lemma sp_lift (r : result ServerHelloError A) (k : A -> SH B) (enc : X -> list byte) wf val :
  (forall a, r = Ok a -> sparses base pre (k a) enc (wf a) (val a)) ->
  sparses base pre (a ← lift r; k a) (fun '(_, x) => enc x) (fun '(a, x) => r = Ok a /\ wf a x) (fun '(a, x) => val a x).
Proof.
  intros Hk s v c' Hb Hs. unfold mbind, M_bind, lift. destruct r as [a|e|].
  - rewrite (Hk a eq_refl s v c' Hb Hs). split.
    + intros (x & rest & Hw & -> & -> & ->). by exists (a, x), rest.
    + intros ([a' x] & rest & [[= <-] Hw] & -> & -> & ->). by exists x, rest.
  - split; [done|]. by intros ([? ?] & ? & [[=] _] & _).
  - split; [done|]. by intros ([? ?] & ? & [[=] _] & _).
Qed.

Lemma sp_iso (p : SH A) (enc : X -> list byte) wf val (enc' : Y -> list byte) wf' val' :
  sparses base pre p enc wf val ->
  (forall x, wf x -> exists y, wf' y /\ enc' y = enc x /\ val' y = val x) ->
  (forall y, wf' y -> exists x, wf x /\ enc' y = enc x /\ val' y = val x) ->
  sparses base pre p enc' wf' val'.
Proof.
  intros Hp H1 H2 s v c' Hb Hs. rewrite (Hp s v c' Hb Hs). split.
  - intros (x & rest & Hw & -> & -> & ->). destruct (H1 x Hw) as (y & Hy & <- & <-). by exists y, rest.
  - intros (y & rest & Hw & -> & -> & ->). destruct (H2 y Hw) as (x & Hx & -> & ->). by exists x, rest.
Qed.
End Combinators.

Lemma sh_read_bytes_at pre s n : 0 <= n -> len pre + n <= USIZE_MAX ->
  sh_read_bytes n (at_pos pre s) =
    if len s <? n then Err ShTruncated else Ok (take (Z.to_nat n) s, at_pos (pre ++ take (Z.to_nat n) s) (drop (Z.to_nat n) s)).
Proof.
  intros Hn Hl. unfold sh_read_bytes. cbn [at_pos position input].
  rewrite (proj2 (checked_add_some _ _ _ (len pre + n)) (conj eq_refl Hl)). rewrite get_range_app_r by lia.
  replace (len pre - len pre) with 0 by lia. replace (len pre + n - len pre) with n by lia.
  destruct (Z.ltb_spec (len s) n).
  - by rewrite get_range_none by lia.
  - rewrite get_range_some by lia. rewrite Z.sub_0_r. cbn. do 2 f_equal. unfold at_pos. rewrite <- app_assoc, take_drop. f_equal. slen.
Qed.

Lemma sp_bytes base pre n : 0 <= n <= 65535 -> sparses base pre (sh_read_bytes n) (fun b : list byte => b) (fun b => len b = n) (fun b => b).
Proof.
  intros Hn s v c' Hb Hs. rewrite sh_read_bytes_at by (unfold USIZE_MAX, U64_MAX; slen). split.
  - destruct (Z.ltb_spec (len s) n); [done|]. intros [= <- <-]. exists (take (Z.to_nat n) s), (drop (Z.to_nat n) s).
    rewrite take_drop. split_and!; try done. slen.
  - intros (b & rest & Hl & -> & -> & ->). rewrite (proj2 (Z.ltb_ge _ _)) by slen. by destruct (take_exact b rest n Hl) as [-> ->].
Qed.

Lemma sp_u8 base pre : sparses base pre sh_read_u8 (fun b => [b]) (fun _ => True) (fun b => b).
Proof.
  intros s v c' Hb Hs. unfold sh_read_u8. cbn [at_pos input position]. unfold len at 1. rewrite Nat2Z.id, lookup_app_r, Nat.sub_diag by done.
  split.
  - destruct s as [|b s]; [done|]. cbn. intros [= <- <-]. exists b, s. split_and!; try done. unfold at_pos. rewrite <- app_assoc. f_equal. slen.
  - intros (b & rest & _ & -> & -> & ->). cbn. unfold at_pos. rewrite <- app_assoc. do 3 f_equal. slen.
Qed.

Lemma sp_u16 base pre : sparses base pre sh_read_u16 (to_be 2) u16_range (fun v => v).
Proof.
  unfold sh_read_u16. eapply sp_iso.
  - eapply sp_bind; [apply sp_bytes; lia|intros b Hl]. apply sp_guard, sp_ret.
  - intros [b []] [Hl _]. exists (from_be b). rewrite app_nil_r. split_and!; [by apply from_be_u16_range|apply to_be_from_be; unfold len in Hl; lia|done].
  - intros v Hv. exists (to_be 2 v, tt). rewrite app_nil_r. split_and!; [done|done|done|done|]. cbn. symmetry. by apply from_be_u16.
Qed.

Lemma sp_u24 base pre : sparses base pre sh_read_u24 (to_be 3) (fun z => 0 <= z < 16777216) (fun z => z).
Proof.
  unfold sh_read_u24. eapply sp_iso.
  - eapply sp_bind; [apply sp_bytes; lia|intros b Hl]. eapply sp_lift. intros b0 H0. eapply sp_lift. intros b1 H1. eapply sp_lift. intros b2 H2. apply sp_ret.
  - intros (b & b0 & b1 & b2 & []) (Hl & H0 & H1 & H2 & _). exists (from_be b). rewrite app_nil_r.
    destruct b as [|c0 [|c1 [|c2 [|]]]]; try (exfalso; revert Hl; unfold len; cbn; lia).
    vm_compute in H0, H1, H2. injection H0 as ->. injection H1 as ->. injection H2 as ->.
    split_and!; [| |by apply to_be_from_be|done]; pose proof (from_be_range_n [b0; b1; b2] 3 eq_refl); lia.
  - intros z Hz. pose proof (length_to_be 3 z) as Hl. destruct (to_be 3 z) as [|c0 [|c1 [|c2 [|]]]] eqn:E; try done.
    exists (to_be 3 z, (c0, (c1, (c2, tt)))). rewrite E, app_nil_r. split_and!; try done. rewrite <- E. symmetry. by apply from_be_to_be.
Qed.

Lemma sp_offset {A X} base pre (k : Z -> SH A) (enc : X -> list byte) wf val :
  sparses base pre (k (base + len pre)) enc wf val -> sparses base pre (o ← sh_offset base; k o) enc wf val.
Proof.
  intros Hk s v c' Hb Hs. rewrite <- (Hk s v c' Hb Hs). unfold sh_offset, mbind, M_bind. cbn [get_state at_pos position].
  pose proof (len_nonneg s). rewrite (proj2 (checked_add_some _ _ _ (base + len pre))) by (unfold USIZE_MAX, U64_MAX; lia). done.
Qed.

Lemma sp_range base pre n : 0 <= n <= 65535 ->
  sparses base pre (sh_read_range base n) (fun b : list byte => b) (fun b => len b = n) (fun _ => (base + len pre, base + len pre + n)).
Proof.
  intros Hn. unfold sh_read_range. apply sp_offset. eapply sp_iso.
  - eapply sp_bind; [by apply sp_bytes|intros b Hl]. apply sp_offset, sp_ret.
  - intros [b []] [Hl _]. exists b. rewrite app_nil_r, len_app, Hl, Z.add_assoc. done.
  - intros b Hl. exists (b, tt). rewrite app_nil_r, len_app, Hl, Z.add_assoc. done.
Qed.

Lemma sp_sub base pre n : 0 <= n <= 65535 ->
  sparses base pre (subreader base n) (fun b : list byte => b) (fun b => len b = n) (fun b => (base + len pre, new_cursor b)).
Proof.
  intros Hn. unfold subreader. apply sp_offset. eapply sp_iso.
  - eapply sp_bind; [by apply sp_bytes|intros b Hl]. apply sp_ret.
  - intros [b []] [Hl _]. exists b. by rewrite app_nil_r.
  - intros b Hl. exists (b, tt). by rewrite app_nil_r.
Qed.

(** ** Extensions *)

Inductive SExt := XVersion (v : Z) | XShare (group : Z) (exchange : list byte) | XOther (t : Z) (body : list byte).

Definition sext_type (e : SExt) : Z :=
  match e with XVersion _ => EXTENSION_SUPPORTED_VERSIONS | XShare _ _ => EXTENSION_KEY_SHARE | XOther t _ => t end.
Definition sext_body (e : SExt) : list byte :=
  match e with XVersion v => to_be 2 v | XShare g x => to_be 2 g ++ vec16 x | XOther _ b => b end.
Definition enc_sext (e : SExt) : list byte := to_be 2 (sext_type e) ++ vec16 (sext_body e).

(** A well-formed extension that answers the client's offer. *)
Definition sext_ok (client : ClientHello) (e : SExt) : Prop :=
  match e with
  | XVersion v => u16_range v
  | XShare g x => u16_range g /\ validate_key_share g (len x) client = Ok tt
  | XOther t b => u16_range t /\ t <> EXTENSION_SUPPORTED_VERSIONS /\ t <> EXTENSION_KEY_SHARE /\ t <> EXTENSION_PRE_SHARED_KEY
  end.

(** The parser's state after an extension whose encoding starts at [off]. *)
Definition sext_val (off : Z) (st : ServerExtensions) (e : SExt) : ServerExtensions :=
  {| x_seen := x_seen st ++ [sext_type e];
     x_tls13 := match e with XVersion v => v =? TLS13_VERSION | _ => x_tls13 st end;
     x_key_share := match e with XShare g x => Some (g, (off + 8, off + 8 + len x)) | _ => x_key_share st end |}.

Definition sext_wf (client : ClientHello) (st : ServerExtensions) (e : SExt) : Prop :=
  len (x_seen st) < MAX_SERVER_EXTENSIONS /\ sext_type e ∉ x_seen st /\ sext_ok client e /\ len (sext_body e) <= U16_MAX.

(** A parser that must consume its slice. *)
Definition swhole {A X} (base : Z) (p : SH A) (enc : X -> list byte) (wf : X -> Prop) (val : X -> A) : Prop :=
  forall s v c', 0 <= base -> base + len s <= 16777216 ->
    (p (new_cursor s) = Ok (v, c') /\ cursor_empty c' = true <-> exists x, wf x /\ s = enc x /\ v = val x /\ c' = at_pos s []).

Lemma cursor_empty_at pre s : cursor_empty (at_pos pre s) = bool_decide (s = []).
Proof.
  unfold cursor_empty. cbn. destruct s as [|b s]; [rewrite app_nil_r, Z.eqb_refl; done|].
  rewrite bool_decide_false by done. apply Z.eqb_neq. slen.
Qed.

Lemma sparses_whole {A X} base (p : SH A) (enc : X -> list byte) wf val : sparses base [] p enc wf val -> swhole base p enc wf val.
Proof.
  intros Hp s v c' Hb Hs. rewrite <- at_pos_new. rewrite (Hp s v c' Hb) by (rewrite len_nil; lia). split.
  - intros [(x & rest & Hw & -> & -> & ->) He]. rewrite cursor_empty_at in He. apply bool_decide_eq_true in He as ->.
    exists x. by rewrite app_nil_r.
  - intros (x & Hw & -> & -> & ->). split; [exists x, []; by rewrite app_nil_r|]. by rewrite cursor_empty_at, bool_decide_true.
Qed.

Lemma sp_lift2 {A1 A2 B X} base pre (r : result ServerHelloError (A1 * A2)) (k : A1 * A2 -> SH B) (enc : X -> list byte) wf val :
  (forall a1 a2, r = Ok (a1, a2) -> sparses base pre (k (a1, a2)) enc (wf a1 a2) (val a1 a2)) ->
  sparses base pre (a ← lift r; k a) (fun '(_, _, x) => enc x) (fun '(a1, a2, x) => r = Ok (a1, a2) /\ wf a1 a2 x) (fun '(a1, a2, x) => val a1 a2 x).
Proof.
  intros Hk. eapply sp_iso; [eapply (sp_lift _ _ r k enc (fun a => wf a.1 a.2) (fun a => val a.1 a.2)); intros [a1 a2]; apply Hk| |].
  - intros [[a1 a2] x] H. by exists (a1, a2, x).
  - intros [[a1 a2] x] H. by exists (a1, a2, x).
Qed.

Definition sbody_val (base : Z) (st : ServerExtensions) (e : SExt) : ServerExtensions :=
  {| x_seen := x_seen st; x_tls13 := match e with XVersion v => v =? TLS13_VERSION | _ => x_tls13 st end;
     x_key_share := match e with XShare g x => Some (g, (base + 4, base + 4 + len x)) | _ => x_key_share st end |}.

Lemma validate_unit g n client u : validate_key_share g n client = Ok u -> u = tt.
Proof. by destruct u. Qed.

(** An extension's parser accepts exactly the bodies of its type. *)
Lemma sbody_whole client t base st : u16_range t ->
  swhole base (server_extension_body client t base st) sext_body (fun e => sext_type e = t /\ sext_ok client e) (sbody_val base st).
Proof.
  intros Ht. unfold server_extension_body.
  destruct (Z.eqb_spec t EXTENSION_SUPPORTED_VERSIONS) as [->|N1]; [|destruct (Z.eqb_spec t EXTENSION_KEY_SHARE) as [->|N2];
    [|destruct (Z.eqb_spec t EXTENSION_PRE_SHARED_KEY) as [->|N3]]].
  - apply sparses_whole. eapply sp_iso.
    + eapply sp_bind; [apply sp_u16|intros v Hv]. apply sp_ret.
    + intros [v []] [Hv _]. exists (XVersion v). by rewrite app_nil_r.
    + intros [v|g x|t b] [E Ho]; [|done|by destruct Ho as (_ & ? & _)]. exists (v, tt). by rewrite app_nil_r.
  - apply sparses_whole. eapply sp_iso.
    + eapply sp_bind; [apply sp_u16|intros g Hg]. eapply sp_bind; [apply sp_u16|intros n Hn]. unfold u16_range, U16_MAX in Hn.
      eapply sp_bind; [apply sp_range; lia|intros b Hl]. eapply sp_lift. intros u Hu. apply sp_ret.
    + intros (g & n & b & u & []) (Hg & Hn & Hl & Hu & _). rewrite (validate_unit _ _ _ _ Hu) in Hu. exists (XShare g b). cbn [sext_type sext_ok sext_body].
      rewrite Hl, app_nil_r. split_and!; [done|done|done| |].
      * unfold vec16. by rewrite Hl.
      * unfold sbody_val. rewrite Hl. do 3 f_equal; rewrite ?len_app, ?len_to_be; f_equal; lia.
    + intros [v|g x|t b] [E Ho]; [done| |by destruct Ho as (_ & _ & ? & _)]. destruct Ho as [Hg Hv].
      assert (Hx : u16_range (len x)).
      { unfold validate_key_share in Hv. pose proof (len_nonneg x). unfold u16_range, U16_MAX.
        destruct (g =? P256_GROUP); [|destruct (g =? X25519_GROUP); [|destruct (g =? X25519_MLKEM768_GROUP); [|done]]]; cbn in Hv;
          apply reject_ok in Hv; apply orb_false_iff in Hv as [Hv%negb_false_iff%Z.eqb_eq _];
          unfold X25519_KEY_EXCHANGE_LEN, X25519_MLKEM768_SERVER_SHARE_LEN, MLKEM768_CIPHERTEXT_LEN in Hv; lia. }
      exists (g, (len x, (x, (tt, tt)))). split_and!; try done. cbn. by rewrite app_nil_r.
  - intros s v c' _ _. split; [by intros [? _]|]. intros ([?|? ?|t b] & [E Ho] & _); [done|done|by destruct Ho as (_ & _ & _ & ?)].
  - intros s v c' Hb Hs. unfold sh_skip_remaining, mbind, M_bind. cbn. split.
    + intros [[= <- <-] _]. exists (XOther t s). split_and!; try done; [by destruct st|]. unfold at_pos. by rewrite app_nil_r.
    + intros ([?|? ?|t' b] & [E Ho] & -> & -> & ->); [by subst..|]. cbn in E. subst t'. split.
      * destruct st. unfold at_pos. by rewrite app_nil_r.
      * by rewrite cursor_empty_at, bool_decide_true.
Qed.

Lemma sext_step_parses client base pre st : 0 <= base -> base + len pre <= 8192 ->
  sparses base pre (server_extension_step client base st) enc_sext (sext_wf client st) (sext_val (base + len pre) st).
Proof.
  intros Hb Hoff. pose proof (len_nonneg pre). unfold server_extension_step. eapply sp_iso.
  - apply sp_guard. eapply sp_bind; [apply sp_u16|intros t Ht]. apply sp_guard. cbv zeta.
    eapply sp_bind; [apply sp_u16|intros n Hn]. unfold u16_range, U16_MAX in Hn.
    eapply sp_bind; [apply sp_sub; lia|intros b Hl]. cbv beta iota. eapply sp_lift2. intros st' c' Hbody. cbv beta iota. apply sp_guard, sp_ret.
  - intros (t & n & b & [[st' c'] []]) (Hlen & Ht & Hseen & Hn & Hl & Hbody & He & _). apply negb_false_iff in He.
    apply Z.leb_gt in Hlen. apply bool_decide_eq_false in Hseen. pose proof Hn as Hn'. unfold u16_range, U16_MAX in Hn'.
    assert (Hbase : 0 <= base + len ((pre ++ to_be 2 t) ++ to_be 2 n) <= 8200) by (rewrite !len_app, !len_to_be; lia).
    destruct (proj1 (sbody_whole client t _ _ Ht b st' c' ltac:(apply Hbase) ltac:(lia)) (conj Hbody He)) as (e & [<- Ho] & -> & -> & ->).
    exists e. unfold sext_wf, U16_MAX. split_and!; try done; [lia|unfold enc_sext, vec16; by rewrite Hl, app_nil_r|].
    unfold sext_val, sbody_val. cbn [x_seen x_tls13 x_key_share]. rewrite !len_app, !len_to_be. destruct e; [done| |done]. do 2 f_equal. f_equal; f_equal; lia.
  - intros e (Hlen & Hseen & Ho & Hl).
    assert (Ht : u16_range (sext_type e)) by (destruct e; [by split|by split|apply Ho]).
    pose proof (len_nonneg (sext_body e)). unfold U16_MAX in Hl.
    set (eb := base + len ((pre ++ to_be 2 (sext_type e)) ++ to_be 2 (len (sext_body e)))).
    assert (Hbase : 0 <= eb <= 8200) by (unfold eb; rewrite !len_app, !len_to_be; lia).
    set (st1 := {| x_seen := x_seen st ++ [sext_type e]; x_tls13 := x_tls13 st; x_key_share := x_key_share st |}).
    destruct (proj2 (sbody_whole client (sext_type e) eb st1 Ht (sext_body e) (sbody_val eb st1 e) (at_pos (sext_body e) []) ltac:(lia) ltac:(lia)) (ex_intro _ e (conj (conj eq_refl Ho) (conj eq_refl (conj eq_refl eq_refl))))) as [Hbody He].
    exists (sext_type e, (len (sext_body e), (sext_body e, (sbody_val eb st1 e, at_pos (sext_body e) [], tt)))).
    split_and!; try done; [by apply Z.leb_gt|by apply bool_decide_eq_false|by rewrite He|unfold enc_sext, vec16; by rewrite app_nil_r|].
    unfold sext_val, sbody_val, st1, eb. cbn [x_seen x_tls13 x_key_share]. rewrite !len_app, !len_to_be. destruct e; [done| |done]. do 2 f_equal. f_equal; f_equal; lia.
Qed.

(** ** The extension block *)

Section Items.
Context (client : ClientHello).

Fixpoint sitems_wf (off : Z) (st : ServerExtensions) (xs : list SExt) : Prop :=
  match xs with [] => True | e :: xs => sext_wf client st e /\ sitems_wf (off + len (enc_sext e)) (sext_val off st e) xs end.

Fixpoint sitems_val (off : Z) (st : ServerExtensions) (xs : list SExt) : ServerExtensions :=
  match xs with [] => st | e :: xs => sitems_val (off + len (enc_sext e)) (sext_val off st e) xs end.

Lemma enc_sext_len e : len (enc_sext e) = 4 + len (sext_body e).
Proof. unfold enc_sext. rewrite len_app, len_to_be, len_vec16. lia. Qed.

Lemma concat_sext_cons e xs : concat (enc_sext <$> e :: xs) = enc_sext e ++ concat (enc_sext <$> xs).
Proof. done. Qed.

Lemma sext_loop_parses base fuel : forall pre s st v c', (length s < fuel)%nat -> 0 <= base -> base + len pre + len s <= 8192 ->
  (server_extensions_loop fuel client base st (at_pos pre s) = Ok (v, c') <->
   exists xs, sitems_wf (base + len pre) st xs /\ s = concat (enc_sext <$> xs) /\ v = sitems_val (base + len pre) st xs /\ c' = at_pos (pre ++ s) []).
Proof.
  induction fuel as [|fuel IH]; intros pre s st v c' Hf Hb Hs; [lia|]. pose proof (len_nonneg s). pose proof (len_nonneg pre).
  cbn [server_extensions_loop]. unfold sh_is_empty. rewrite (M_bind_step _ _ _ (bool_decide (s = [])) (at_pos pre s)).
  2: { unfold mbind, M_bind. cbn [get_state]. by rewrite cursor_empty_at. }
  case_bool_decide as Es.
  - subst s. rewrite app_nil_r. split.
    + intros [= <- <-]. by exists [].
    + intros ([|e xs] & _ & E & -> & ->); [done|]. apply (f_equal len) in E. rewrite concat_sext_cons, len_app, enc_sext_len in E. pose proof (len_nonneg (sext_body e)).
      pose proof (len_nonneg (concat (enc_sext <$> xs))). rewrite len_nil in E. lia.
  - unfold mbind, M_bind. split.
    + destruct (server_extension_step client base st (at_pos pre s)) as [[st1 c1]| |] eqn:E; [|done..]. intros Hl.
      apply (sext_step_parses client base pre st) in E as (e & rest & Hw & -> & -> & ->); [|lia..]. pose proof (enc_sext_len e) as Hel. pose proof (len_nonneg (sext_body e)).
      rewrite len_app in Hs. apply IH in Hl as (xs & Hws & -> & -> & ->); [|rewrite length_app in Hf; unfold len in Hel; lia|done|rewrite len_app; lia].
      exists (e :: xs). cbn [sitems_wf sitems_val]. rewrite concat_sext_cons, len_app, Z.add_assoc in *. rewrite <- app_assoc. done.
    + intros ([|e xs] & Hw & E & -> & ->); [done|]. destruct Hw as [Hw Hws]. rewrite concat_sext_cons in E. pose proof (enc_sext_len e) as Hel. pose proof (len_nonneg (sext_body e)).
      pose proof Hs as Hs0. rewrite E, len_app in Hs. pose proof (len_nonneg (concat (enc_sext <$> xs))).
      rewrite (proj2 (sext_step_parses client base pre st Hb ltac:(lia) s (sext_val (base + len pre) st e) (at_pos (pre ++ enc_sext e) (concat (enc_sext <$> xs))) Hb ltac:(lia))).
      2: { exists e, (concat (enc_sext <$> xs)). done. }
      apply IH; [rewrite E, length_app in Hf; unfold len in Hel; lia|done|rewrite len_app; lia|].
      exists xs. rewrite len_app, Z.add_assoc. rewrite E, <- app_assoc. done.
Qed.

Definition st0 : ServerExtensions := {| x_seen := []; x_tls13 := false; x_key_share := None |}.

Lemma sitems_wf_iff xs : forall off st, NoDup (x_seen st) ->
  (sitems_wf off st xs <-> Forall (fun e => sext_ok client e /\ len (sext_body e) <= U16_MAX) xs /\ NoDup (x_seen st ++ (sext_type <$> xs)) /\
   (xs = [] \/ len (x_seen st) + len xs <= MAX_SERVER_EXTENSIONS)).
Proof.
  induction xs as [|e xs IH]; intros off st Hnd; cbn [sitems_wf fmap list_fmap].
  - rewrite app_nil_r. split; [intros _; split_and!; [constructor|done|by left]|done].
  - assert (Hl : len (x_seen (sext_val off st e)) = len (x_seen st) + 1) by (cbn; slen).
    split.
    + intros [(Hlen & Hseen & Ho & Hb) Hws].
      assert (Hnd' : NoDup (x_seen (sext_val off st e))).
      { cbn. apply NoDup_app. split_and!; [done| |apply NoDup_singleton]. intros t Ht ->%list_elem_of_singleton. done. }
      apply IH in Hws as (Hf & Hn & Hle); [|done]. cbn in Hn. rewrite <- app_assoc in Hn. split_and!; [by constructor|done|right].
      rewrite Hl in Hle. destruct Hle as [-> | Hle]; [unfold MAX_SERVER_EXTENSIONS in *; slen|slen].
    + intros (Hf & Hn & Hle). apply Forall_cons in Hf as [[Ho Hb] Hf]. destruct Hle as [[=]|Hle]. rewrite len_cons in Hle. pose proof (len_nonneg xs).
      pose proof Hn as Hn2. change (sext_type e :: (sext_type <$> xs)) with ([sext_type e] ++ (sext_type <$> xs)) in Hn2. rewrite app_assoc in Hn2.
      split; [split_and!; try done; [lia|]|].
      * intros Hin. apply NoDup_app in Hn as (_ & Hn & _). apply (Hn _ Hin). left.
      * apply IH; [cbn; by apply NoDup_app in Hn2 as (? & _)|]. split_and!; [done|by cbn|]. right. rewrite Hl. lia.
Qed.

Lemma sitems_val_app xs : forall off st ys, sitems_val off st (xs ++ ys) = sitems_val (off + len (concat (enc_sext <$> xs))) (sitems_val off st xs) ys.
Proof.
  induction xs as [|e xs IH]; intros off st ys; [cbn; by rewrite Z.add_0_r|]. rewrite concat_sext_cons, len_app, Z.add_assoc. apply IH.
Qed.

Definition is_version (e : SExt) : bool := match e with XVersion _ => true | _ => false end.
Definition is_share (e : SExt) : bool := match e with XShare _ _ => true | _ => false end.

Lemma sitems_share_same xs : forall off st, Forall (fun e => is_share e = false) xs -> x_key_share (sitems_val off st xs) = x_key_share st.
Proof. induction xs as [|e xs IH]; intros off st Hf; cbn; [done|]. apply Forall_cons in Hf as [He Hf]. rewrite IH by done. by destruct e. Qed.

Lemma sitems_version_same xs : forall off st, Forall (fun e => is_version e = false) xs -> x_tls13 (sitems_val off st xs) = x_tls13 st.
Proof. induction xs as [|e xs IH]; intros off st Hf; cbn; [done|]. apply Forall_cons in Hf as [He Hf]. rewrite IH by done. by destruct e. Qed.

Lemma not_typed (f : SExt -> bool) t (xs : list SExt) :
  (forall e, f e = true -> sext_type e = t) -> t ∉ sext_type <$> xs -> Forall (fun e => f e = false) xs.
Proof.
  intros Hf Hn. apply Forall_forall. intros e He. destruct (f e) eqn:E; [|done]. destruct Hn. apply list_elem_of_fmap. exists e. split; [|done]. by rewrite (Hf e E).
Qed.
End Items.

(** ** The reference encoding *)

(** The extensions before and after the key share are kept apart. *)
Record AbsServerHello := {
  as_random : list byte; as_session : list byte; as_suite : Z; as_before : list SExt; as_group : Z; as_exchange : list byte; as_after : list SExt;
}.

Definition as_exts (a : AbsServerHello) : list SExt := as_before a ++ XShare (as_group a) (as_exchange a) :: as_after a.

Definition enc_sfixed (a : AbsServerHello) : list byte :=
  to_be 2 LEGACY_TLS12_VERSION ++ as_random a ++ vec8 (as_session a) ++ to_be 2 (as_suite a) ++ [x00].
Definition enc_sbody (a : AbsServerHello) : list byte := enc_sfixed a ++ vec16 (concat (enc_sext <$> as_exts a)).
Definition enc_server_hello (a : AbsServerHello) : list byte := [HANDSHAKE_SERVER_HELLO] ++ to_be 3 (len (enc_sbody a)) ++ enc_sbody a.

(** A ServerHello that answers the client's offer. *)
Record server_hello_wf (client : ClientHello) (a : AbsServerHello) (suite : CipherSuite) : Prop := {
  sw_random : len (as_random a) = 32 /\ as_random a <> HELLO_RETRY_REQUEST_RANDOM;
  sw_session : session_id client = Some (as_session a) /\ len (as_session a) <= 32;
  sw_suite : suite_from_wire (as_suite a) = Some suite /\ cipher_offered client (as_suite a) = true;
  sw_exts : Forall (sext_ok client) (as_exts a);
  sw_types : NoDup (sext_type <$> as_exts a);
  sw_count : len (as_exts a) <= MAX_SERVER_EXTENSIONS;
  sw_tls13 : XVersion TLS13_VERSION ∈ as_exts a;
  sw_len : len (enc_server_hello a) <= MAX_SERVER_HELLO_LEN;
}.

(** Where the key exchange starts. *)
Definition exchange_at (a : AbsServerHello) : Z := 4 + len (enc_sfixed a) + 2 + len (concat (enc_sext <$> as_before a)) + 8.

Definition template_of (a : AbsServerHello) (suite : CipherSuite) : ServerHelloTemplate :=
  {| t_message := enc_server_hello a; t_suite := suite; t_key_share_group := as_group a;
     t_key_exchange := (exchange_at a, exchange_at a + len (as_exchange a)) |}.

(** ** The whole message *)

(** [p] accepts exactly the rests of a message that encode a well-formed value. *)
Definition sends {A X} (base : Z) (pre : list byte) (p : SH A) (enc : X -> list byte) (wf : X -> Prop) (val : X -> A) : Prop :=
  forall s v, 0 <= base -> base + len pre + len s <= 8192 ->
    ((exists c', p (at_pos pre s) = Ok (v, c')) <-> exists x, wf x /\ s = enc x /\ v = val x).

Section Sends.
Context {A B X Y : Type} (base : Z) (pre : list byte).

Lemma send_bind (p : SH A) (f : A -> SH B) (e1 : X -> list byte) w1 v1 (e2 : X -> Y -> list byte) w2 v2 :
  sparses base pre p e1 w1 v1 -> (forall x, w1 x -> sends base (pre ++ e1 x) (f (v1 x)) (e2 x) (w2 x) (v2 x)) ->
  sends base pre (p ≫= f) (fun '(x, y) => e1 x ++ e2 x y) (fun '(x, y) => w1 x /\ w2 x y) (fun '(x, y) => v2 x y).
Proof.
  intros Hp Hf s v Hb Hs. unfold mbind, M_bind. split.
  - intros (c' & H). destruct (p (at_pos pre s)) as [[a c]| |] eqn:E; [|done..].
    apply Hp in E as (x & rest & Hw & -> & -> & ->); [|done|lia]. rewrite len_app in Hs.
    destruct (proj1 (Hf x Hw rest v Hb ltac:(slen)) (ex_intro _ c' H)) as (y & Hw2 & -> & ->). by exists (x, y).
  - intros ([x y] & [Hw1 Hw2] & -> & ->). rewrite !len_app in Hs.
    rewrite (proj2 (Hp (e1 x ++ e2 x y) (v1 x) (at_pos (pre ++ e1 x) (e2 x y)) Hb ltac:(slen))) by (by exists x, (e2 x y)).
    apply (Hf x Hw1); [done|slen|]. by exists y.
Qed.

Lemma send_guard b e (k : unit -> SH A) (enc : X -> list byte) wf val :
  sends base pre (k tt) enc wf val -> sends base pre (u ← return_if b e; k u) enc (fun x => b = false /\ wf x) val.
Proof.
  intros Hk s v Hb Hs. unfold return_if, mbind, M_bind. destruct b; cbn.
  - split; [by intros (? & ?)|]. by intros (x & [[=] _] & _).
  - rewrite (Hk s v Hb Hs). naive_solver.
Qed.

Lemma send_lift (r : result ServerHelloError A) (k : A -> SH B) (enc : X -> list byte) wf val :
  (forall a, r = Ok a -> sends base pre (k a) enc (wf a) (val a)) ->
  sends base pre (a ← lift r; k a) (fun '(_, x) => enc x) (fun '(a, x) => r = Ok a /\ wf a x) (fun '(a, x) => val a x).
Proof.
  intros Hk s v Hb Hs. unfold mbind, M_bind, lift. destruct r as [a|e|].
  - rewrite (Hk a eq_refl s v Hb Hs). split.
    + intros (x & Hw & -> & ->). by exists (a, x).
    + intros ([a' x] & [[= <-] Hw] & -> & ->). by exists x.
  - split; [by intros (? & ?)|]. by intros ([? ?] & [[=] _] & _).
  - split; [by intros (? & ?)|]. by intros ([? ?] & [[=] _] & _).
Qed.

(** The declared length is what remains. *)
Lemma send_remaining n e (k : unit -> SH A) (enc : X -> list byte) wf val :
  sends base pre (k tt) enc wf val ->
  sends base pre (c ← get_state; u ← return_if (negb (n =? cursor_remaining c)) e; k u) enc (fun x => len (enc x) = n /\ wf x) val.
Proof.
  intros Hk s v Hb Hs.
  transitivity (exists c', (u ← return_if (negb (n =? cursor_remaining (at_pos pre s))) e; k u) (at_pos pre s) = Ok (v, c')); [done|].
  replace (cursor_remaining (at_pos pre s)) with (len s) by (unfold cursor_remaining, saturating_sub; cbn; slen).
  rewrite (send_guard (negb (n =? len s)) e k enc wf val Hk s v Hb Hs). split.
  - intros (x & [Hn%negb_false_iff%Z.eqb_eq Hw] & -> & ->). by exists x.
  - intros (x & [<- Hw] & -> & ->). exists x. by rewrite Z.eqb_refl.
Qed.

Lemma send_end e (k : unit -> SH A) (wf : X -> Prop) (val : X -> A) :
  (forall c v, (exists c', k tt c = Ok (v, c')) <-> exists x, wf x /\ v = val x) ->
  sends base pre (b ← sh_is_empty; u ← return_if (negb b) e; k u) (fun _ => []) wf val.
Proof.
  intros Hk s v Hb Hs. unfold sh_is_empty, mbind, M_bind. cbn [get_state]. rewrite cursor_empty_at. case_bool_decide as E.
  - cbn. rewrite Hk. split; [intros (x & Hw & ->); by exists x|intros (x & Hw & _ & ->); by exists x].
  - cbn. split; [by intros (? & ?)|]. by intros (x & _ & ? & _).
Qed.
End Sends.

(** The state of a block that ends the message, and what it says of it. *)
Lemma exts_state off xs client st : sitems_wf client off st0 xs -> st = sitems_val off st0 xs ->
  (x_tls13 st = true <-> XVersion TLS13_VERSION ∈ xs) /\
  (forall g r, x_key_share st = Some (g, r) <-> exists l1 x l2, xs = l1 ++ XShare g x :: l2 /\
     r = (off + len (concat (enc_sext <$> l1)) + 8, off + len (concat (enc_sext <$> l1)) + 8 + len x)).
Proof.
  intros Hw ->. apply sitems_wf_iff in Hw as (_ & Hnd & _); [|constructor]. cbn in Hnd.
  assert (Hsplit : forall e l1 l2, xs = l1 ++ e :: l2 -> sext_type e ∉ sext_type <$> l1 /\ sext_type e ∉ sext_type <$> l2).
  { intros e l1 l2 ->. rewrite fmap_app in Hnd. cbn in Hnd. apply NoDup_app in Hnd as (_ & Hd & Hnd2). apply NoDup_cons in Hnd2 as [Hn _].
    split; [|done]. intros Hin. apply (Hd _ Hin). left. }
  assert (Hv : forall e, is_version e = true -> sext_type e = EXTENSION_SUPPORTED_VERSIONS) by by intros [].
  assert (Hsh : forall e, is_share e = true -> sext_type e = EXTENSION_KEY_SHARE) by by intros [].
  split.
  - split.
    + intros Ht. destruct (decide (Exists (fun e => is_version e = true) xs)) as [Hex|Hno].
      * apply Exists_exists in Hex as (e & (l1 & l2 & E)%list_elem_of_split & He). destruct (Hsplit _ _ _ E) as [_ N2].
        rewrite E, sitems_val_app in Ht. cbn in Ht. rewrite sitems_version_same in Ht by (eapply not_typed; [exact Hv|by rewrite <- (Hv _ He)]).
        destruct e as [v| |]; [|done..]. cbn in Ht. apply Z.eqb_eq in Ht as ->. rewrite E. apply elem_of_app. right. left.
      * rewrite sitems_version_same in Ht; [done|]. apply Forall_forall. intros e He. destruct (is_version e) eqn:E; [|done].
        destruct Hno. apply Exists_exists. by exists e.
    + intros (l1 & l2 & E)%list_elem_of_split. destruct (Hsplit _ _ _ E) as [_ N2]. rewrite E, sitems_val_app. cbn.
      rewrite sitems_version_same by (by eapply not_typed; [exact Hv|]). done.
  - assert (Hat : forall g x l1 l2, xs = l1 ++ XShare g x :: l2 ->
      x_key_share (sitems_val off st0 xs) = Some (g, (off + len (concat (enc_sext <$> l1)) + 8, off + len (concat (enc_sext <$> l1)) + 8 + len x))).
    { intros g x l1 l2 E. destruct (Hsplit _ _ _ E) as [_ N2]. rewrite E, sitems_val_app. cbn.
      rewrite sitems_share_same by (by eapply not_typed; [exact Hsh|]). done. }
    intros g r. split.
    + intros Hk. destruct (decide (Exists (fun e => is_share e = true) xs)) as [Hex|Hno].
      * apply Exists_exists in Hex as (e & (l1 & l2 & E)%list_elem_of_split & He). destruct e as [|g' x|]; [done| |done].
        rewrite (Hat g' x l1 l2 E) in Hk. injection Hk as -> <-. by exists l1, x, l2.
      * rewrite sitems_share_same in Hk; [done|]. apply Forall_forall. intros e He. destruct (is_share e) eqn:E; [|done].
        destruct Hno. apply Exists_exists. by exists e.
    + intros (l1 & x & l2 & E & ->). by apply (Hat g x l1 l2).
Qed.

Lemma send_iso {A X Y} base pre (p : SH A) (enc : X -> list byte) wf val (enc' : Y -> list byte) wf' val' :
  sends base pre p enc wf val ->
  (forall x, wf x -> exists y, wf' y /\ enc' y = enc x /\ val' y = val x) ->
  (forall y, wf' y -> exists x, wf x /\ enc' y = enc x /\ val' y = val x) ->
  sends base pre p enc' wf' val'.
Proof.
  intros Hp H1 H2 s v Hb Hs. rewrite (Hp s v Hb Hs). split.
  - intros (x & Hw & -> & ->). destruct (H1 x Hw) as (y & Hy & <- & <-). by exists y.
  - intros (y & Hw & -> & ->). destruct (H2 y Hw) as (x & Hx & -> & ->). by exists x.
Qed.

Lemma server_extensions_iff client base b st : 0 <= base -> base + len b <= 8192 ->
  server_extensions client base (new_cursor b) = Ok st <->
  exists xs, sitems_wf client base st0 xs /\ b = concat (enc_sext <$> xs) /\ st = sitems_val base st0 xs.
Proof.
  intros Hb Hl. unfold server_extensions. cbn [new_cursor input]. change {| x_seen := []; x_tls13 := false; x_key_share := None |} with st0.
  pose proof (sext_loop_parses client base (S (length b)) [] b st0) as H. rewrite at_pos_new in H. change (len (@nil byte)) with 0 in H. rewrite Z.add_0_r in H.
  split.
  - destruct (server_extensions_loop _ client base _ (new_cursor b)) as [[v c']| |] eqn:E; [|done..]. intros [= <-].
    destruct (proj1 (H v c' ltac:(lia) Hb Hl) eq_refl) as (xs & Hw & Eb & -> & _). by exists xs.
  - intros (xs & Hw & Eb & ->). destruct (H (sitems_val base st0 xs) (at_pos b [])) as [_ H2]; [lia..|]. rewrite H2; [done|]. by exists xs.
Qed.

(** The end of the parser: the extension block, the version, the key share. *)
Lemma ext_end_iff message client suite base b (c : Cursor) t : 0 <= base -> base + len b <= 8192 ->
  (exists c', (st ← lift (server_extensions client base (new_cursor b));
     return! ShUnsupportedVersion when negb (x_tls13 st);
     '(group, exchange) ← lift (ok_or ShUnsupportedKeyShare (x_key_share st));
     mret {| t_message := message; t_suite := suite; t_key_share_group := group; t_key_exchange := exchange |}) c = Ok (t, c')) <->
  exists l1 g x l2, let xs := l1 ++ XShare g x :: l2 in let o := base + len (concat (enc_sext <$> l1)) + 8 in
    sitems_wf client base st0 xs /\ b = concat (enc_sext <$> xs) /\ XVersion TLS13_VERSION ∈ xs /\
    t = {| t_message := message; t_suite := suite; t_key_share_group := g; t_key_exchange := (o, o + len x) |}.
Proof.
  intros Hb Hl. pose proof (server_extensions_iff client base b) as Hiff. unfold mbind, M_bind, lift, return_if. split.
  - intros (c' & H). destruct (server_extensions client base (new_cursor b)) as [st| |] eqn:E; [|done..].
    destruct (proj1 (Hiff st Hb Hl) eq_refl) as (xs & Hw & -> & Est). clear E Hiff. destruct (exts_state _ _ _ _ Hw Est) as [Hv Hk].
    destruct (x_tls13 st) eqn:Ev; [|done]. cbn in H. destruct (x_key_share st) as [[g r]|] eqn:Ek; [|done]. cbn in H. injection H as <- _.
    destruct (proj1 (Hk g r) eq_refl) as (l1 & x & l2 & -> & ->). exists l1, g, x, l2. split_and!; try done. by apply Hv.
  - intros (l1 & g & x & l2 & Hw & -> & Hin & ->). rewrite (proj2 (Hiff _ Hb Hl)) by (by eexists).
    destruct (exts_state _ _ _ _ Hw eq_refl) as [Hv Hk]. rewrite (proj2 Hv Hin). cbn. rewrite (proj2 (Hk g _)) by (by exists l1, x, l2). by eexists.
Qed.

Definition ExtBlock : Type := list SExt * Z * list byte * list SExt.

Lemma send_ext_end message client suite pre b :
  sends 0 (pre ++ b)
    (e ← sh_is_empty;
     return! ShMalformed when negb e;
     st ← lift (server_extensions client (0 + len pre) (new_cursor b));
     return! ShUnsupportedVersion when negb (x_tls13 st);
     '(group, exchange) ← lift (ok_or ShUnsupportedKeyShare (x_key_share st));
     mret {| t_message := message; t_suite := suite; t_key_share_group := group; t_key_exchange := exchange |})
    (fun _ : ExtBlock => [])
    (fun '(l1, g, x, l2) => let xs := l1 ++ XShare g x :: l2 in
       sitems_wf client (len pre) st0 xs /\ b = concat (enc_sext <$> xs) /\ XVersion TLS13_VERSION ∈ xs)
    (fun '(l1, g, x, l2) => let o := len pre + len (concat (enc_sext <$> l1)) + 8 in
       {| t_message := message; t_suite := suite; t_key_share_group := g; t_key_exchange := (o, o + len x) |}).
Proof.
  intros s v Hz Hs. rewrite len_app in Hs. pose proof (len_nonneg s). pose proof (len_nonneg pre).
  eapply (send_end 0 (pre ++ b)); [|done|rewrite len_app; lia]. intros c t. cbv beta. rewrite Z.add_0_l, ext_end_iff by lia. split.
  - intros (l1 & g & x & l2 & Hw & Eb & Hin & ->). by exists (l1, g, x, l2).
  - intros ([[[l1 g] x] l2] & (Hw & Eb & Hin) & ->). by exists l1, g, x, l2.
Qed.

Lemma sends_message m client :
  sends 0 [] (server_hello_body m client)
    (fun '(a, _) => enc_server_hello a)
    (fun '(a, s) => len (as_random a) = 32 /\ as_random a <> HELLO_RETRY_REQUEST_RANDOM /\ session_id client = Some (as_session a) /\ len (as_session a) <= 32 /\
       suite_from_wire (as_suite a) = Some s /\ cipher_offered client (as_suite a) = true /\
       sitems_wf client (4 + len (enc_sfixed a) + 2) st0 (as_exts a) /\ len (concat (enc_sext <$> as_exts a)) <= U16_MAX /\ XVersion TLS13_VERSION ∈ as_exts a /\
       len (enc_sbody a) < 16777216)
    (fun '(a, s) => {| t_message := m; t_suite := s; t_key_share_group := as_group a; t_key_exchange := (exchange_at a, exchange_at a + len (as_exchange a)) |}).
Proof.
  unfold server_hello_body. eapply send_iso.
  - eapply send_bind; [apply sp_u8|intros kind _]. apply send_guard. eapply send_bind; [apply sp_u24|intros n Hn]. apply send_remaining.
    eapply send_bind; [apply sp_u16|intros legacy Hleg]. apply send_guard. eapply send_bind; [apply sp_bytes; lia|intros rnd Hrnd]. apply send_guard.
    eapply send_bind; [apply sp_u8|intros sl _]. apply send_guard. eapply send_bind; [apply sp_bytes; pose proof (u8_range sl); lia|intros sid Hsid]. apply send_guard.
    eapply send_bind; [apply sp_u16|intros sw Hsw]. eapply send_lift. intros suite Hsuite.
    eapply send_bind; [apply sp_u8|intros comp _]. apply send_guard. eapply send_bind; [apply sp_u16|intros en Hen].
    eapply send_bind; [apply sp_sub; unfold u16_range, U16_MAX in Hen; lia|intros b Hb]. cbv beta iota. apply send_ext_end.
  - intros (kind & n & legacy & rnd & sl & sid & sw & suite & comp & en & b & [[[l1 g] x] l2]).
    intros (_ & Hkind & Hn & Hlen & Hleg & Hlv & Hrnd & Hhrr & _ & Hsl & Hsid & Hsm & Hsw & Hsuite & _ & Hcomp & Hen & Hb & Hw & Eb & Hin).
    apply negb_false_iff, bool_decide_eq_true in Hkind, Hsm, Hcomp. apply negb_false_iff, Z.eqb_eq in Hlv. apply Z.ltb_ge in Hsl.
    apply bool_decide_eq_false in Hhrr. cbn beta in *. subst kind legacy comp.
    assert (Hs2 : suite_from_wire sw = Some suite /\ cipher_offered client sw = true).
    { destruct (suite_from_wire sw); [|done]. cbn in Hsuite. destruct (cipher_offered client sw); [|done]. by injection Hsuite as ->. }
    exists ({| as_random := rnd; as_session := sid; as_suite := sw; as_before := l1; as_group := g; as_exchange := x; as_after := l2 |}, suite).
    set (a := {| as_random := rnd |}).
    assert (Hbody : enc_sbody a = to_be 2 LEGACY_TLS12_VERSION ++ rnd ++ [sl] ++ sid ++ to_be 2 sw ++ [x00] ++ to_be 2 en ++ b).
    { unfold enc_sbody, enc_sfixed, a, as_exts. cbn [as_random as_session as_suite as_before as_group as_exchange as_after].
      rewrite (vec8_head sl sid) by done. unfold vec16. rewrite <- Eb, Hb, <- !app_assoc. done. }
    rewrite !app_nil_r in Hlen. rewrite <- Hbody in Hlen.
    match type of Hw with sitems_wf _ (len ?p) _ _ => assert (Hpre : len p = 4 + len (enc_sfixed a) + 2) end.
    { unfold enc_sfixed, a. cbn [as_random as_session as_suite]. rewrite (vec8_head sl sid) by done. slen. }
    rewrite Hpre in Hw. unfold u16_range in Hen. split_and!; try done; [change (as_session a) with sid; lia|apply Hs2|apply Hs2|change (as_exts a) with (l1 ++ XShare g x :: l2); rewrite <- Eb; lia|lia| |].
    + unfold enc_server_hello. rewrite Hlen, Hbody, !app_nil_r. done.
    + unfold exchange_at, a. cbn [as_before as_group as_exchange]. fold a. by rewrite Hpre.
  - intros [a s] (Hrnd & Hhrr & Hsm & Hsl & Hs1 & Hs2 & Hw & Hel & Hin & Hbl). pose proof (len_nonneg (as_session a)). pose proof (len_nonneg (concat (enc_sext <$> as_exts a))).
    pose proof (len_nonneg (enc_sbody a)).
    exists (HANDSHAKE_SERVER_HELLO, (len (enc_sbody a), (LEGACY_TLS12_VERSION, (as_random a, (as_u8 (len (as_session a)), (as_session a, (as_suite a,
      (s, (x00, (len (concat (enc_sext <$> as_exts a)), (concat (enc_sext <$> as_exts a), (as_before a, as_group a, as_exchange a, as_after a)))))))))))).
    cbv beta iota zeta. assert (Hu8 : u8 (as_u8 (len (as_session a))) = len (as_session a)) by (apply u8_as_u8_small; unfold U8_MAX; lia). rewrite Hu8.
    match goal with |- context [sitems_wf _ (len ?p) _ _] => assert (Hpre : len p = 4 + len (enc_sfixed a) + 2) end.
    { unfold enc_sfixed, vec8. slen. }
    rewrite Hpre.
    assert (Hu : u16_range (as_suite a)).
    { unfold suite_from_wire in Hs1. unfold u16_range, U16_MAX. repeat case_match; try done; lia. }
    split_and!; try done.
    + unfold enc_sbody, enc_sfixed, vec8, vec16. rewrite app_nil_r, <- !app_assoc. done.
    + by apply bool_decide_eq_false.
    + by apply Z.ltb_ge.
    + by rewrite bool_decide_true.
    + by rewrite Hs1, Hs2.
    + unfold enc_server_hello, enc_sbody, enc_sfixed, vec8, vec16. rewrite app_nil_r, <- !app_assoc. done.
Qed.

(** ** No input makes the parser panic *)

Lemma safe_sh_bytes n : 0 <= n -> safe (sh_read_bytes n).
Proof.
  intros Hn c [Hc1 Hc2]. unfold sh_read_bytes. destruct (checked_add _ _ _) as [e|] eqn:E; [|done]. apply checked_add_some in E as [-> _].
  destruct (get_range _ _ _) as [b|] eqn:Eg; [|done]. apply get_range_inv in Eg as (? & ?). split; cbn; lia.
Qed.

Lemma safe_sh_u8 : safe sh_read_u8.
Proof. intros c [Hc1 Hc2]. unfold sh_read_u8. destruct (_ !! _) as [b|] eqn:E; [|done]. apply lookup_lt_Some in E. split; cbn; unfold len in *; lia. Qed.

Lemma safe_sh_u16 : safe sh_read_u16.
Proof. apply safe_bind; [by apply safe_sh_bytes|]. intros b. apply safe_bind; [apply safe_return_if|intros; apply safe_ret]. Qed.

Lemma safe_sh_u24 : safe sh_read_u24.
Proof.
  intros c Hc. unfold sh_read_u24, mbind at 1, M_bind at 1. pose proof (safe_sh_bytes 3 ltac:(lia) c Hc) as Hs.
  destruct (sh_read_bytes 3 c) as [[b c']| |] eqn:E; [|done..].
  assert (Hl : len b = 3).
  { unfold sh_read_bytes in E. destruct (checked_add _ _ _) as [e|] eqn:Ea; [|done]. apply checked_add_some in Ea as [-> _].
    destruct (get_range _ _ _) as [b'|] eqn:Eg; [|done]. injection E as -> _. apply get_range_inv in Eg as (_ & _ & _ & Hl & _). lia. }
  destruct b as [|b0 [|b1 [|b2 [|]]]]; try (exfalso; revert Hl; unfold len; cbn; lia). exact Hs.
Qed.

Lemma safe_get {A} (k : Cursor -> SH A) : (forall c, safe (k c)) -> safe (c ← get_state; k c).
Proof. intros Hk c Hc. by apply Hk. Qed.

Lemma safe_offset base : safe (sh_offset base).
Proof. apply safe_get. intros c. apply safe_lift. by destruct (checked_add _ _ _). Qed.

Lemma safe_sub base n : 0 <= n -> safe (subreader base n).
Proof. intros Hn. apply safe_bind; [apply safe_offset|intros o]. apply safe_bind; [by apply safe_sh_bytes|intros; apply safe_ret]. Qed.

Lemma validate_no_panic g n client : no_panic (validate_key_share g n client).
Proof. unfold validate_key_share, reject_if. by repeat (case_match; cbn). Qed.

(** A read whose value is bounded keeps the bound for its continuation. *)
Lemma safe_u16_bind {B} (k : Z -> SH B) : (forall n, u16_range n -> safe (k n)) -> safe (n ← sh_read_u16; k n).
Proof.
  intros Hk c Hc. unfold mbind, M_bind. pose proof (safe_sh_u16 c Hc) as Hs. destruct (sh_read_u16 c) as [[n c']| |] eqn:E; [|done..].
  apply Hk; [|done]. unfold sh_read_u16, mbind, M_bind in E. destruct (sh_read_bytes 2 c) as [[b c1]| |]; [|done..].
  unfold return_if, lift in E. destruct (negb (len b =? 2)) eqn:El; [done|]. cbn in E. injection E as <- _.
  apply from_be_u16_range. by apply negb_false_iff, Z.eqb_eq in El.
Qed.

Lemma safe_ext_body client t base st : safe (server_extension_body client t base st).
Proof.
  unfold server_extension_body. destruct (_ =? _); [|destruct (_ =? _); [|destruct (_ =? _)]].
  - apply safe_bind; [apply safe_sh_u16|intros; apply safe_ret].
  - apply safe_bind; [apply safe_sh_u16|intros g]. apply safe_u16_bind. intros n [Hn _]. apply safe_bind.
    + apply safe_bind; [apply safe_offset|intros o]. apply safe_bind; [by apply safe_sh_bytes|intros _]. apply safe_bind; [apply safe_offset|intros; apply safe_ret].
    + intros r. apply safe_bind; [apply safe_lift, validate_no_panic|intros; apply safe_ret].
  - apply safe_throw.
  - apply safe_bind; [|intros; apply safe_ret]. intros c [H1 H2]. cbn. split; cbn; lia.
Qed.

Lemma safe_ext_step client base st : safe (server_extension_step client base st).
Proof.
  unfold server_extension_step. apply safe_bind; [apply safe_return_if|intros _]. apply safe_bind; [apply safe_sh_u16|intros t].
  apply safe_bind; [apply safe_return_if|intros _]. apply safe_u16_bind. intros n [Hn _]. intros c Hc. unfold mbind at 1, M_bind at 1.
  pose proof (safe_sub base n Hn c Hc) as Hs. destruct (subreader base n c) as [[[eb ext] c1]| |] eqn:E; [|done..].
  assert (Hx : cursor_ok ext).
  { unfold subreader, mbind, M_bind in E. destruct (sh_offset base c) as [[o c2]| |]; [|done..]. destruct (sh_read_bytes n c2) as [[b c3]| |]; [|done..].
    injection E as <- <- _. split; cbn; slen. }
  set (st' := {| x_seen := x_seen st ++ [t] |}). pose proof (safe_ext_body client t eb st' ext Hx) as Hb. revert Hb.
  match goal with |- _ -> match ?m c1 with _ => _ end => enough (forall r, no_panic r -> safe (a ← lift r; (let '(st, extension) := a in
    return! ShMalformed when negb (cursor_empty extension); mret st) : SH ServerExtensions)) as Hk end.
  - intros Hb. apply (Hk (server_extension_body client t eb st' ext)); [|done]. by destruct (server_extension_body client t eb st' ext) as [[]| |].
  - intros r Hr. apply safe_bind; [by apply safe_lift|]. intros [a x]. apply safe_bind; [apply safe_return_if|intros; apply safe_ret].
Qed.

Lemma ext_loop_no_panic client base fuel : forall pre s st, (length s < fuel)%nat -> 0 <= base -> base + len pre + len s <= 8192 ->
  no_panic (server_extensions_loop fuel client base st (at_pos pre s)).
Proof.
  induction fuel as [|fuel IH]; intros pre s st Hf Hb Hs; [lia|]. cbn [server_extensions_loop]. unfold sh_is_empty.
  rewrite (M_bind_step _ _ _ (bool_decide (s = [])) (at_pos pre s)) by (unfold mbind, M_bind; cbn [get_state]; by rewrite cursor_empty_at).
  case_bool_decide; [done|]. unfold mbind, M_bind. pose proof (safe_ext_step client base st (at_pos pre s) (at_pos_ok pre s)) as Hsafe.
  destruct (server_extension_step client base st (at_pos pre s)) as [[st1 c1]| |] eqn:E; [|done..].
  pose proof (len_nonneg s). pose proof (len_nonneg pre).
  apply (sext_step_parses client base pre st) in E as (e & rest & _ & -> & -> & ->); [|lia..]. pose proof (enc_sext_len e). pose proof (len_nonneg (sext_body e)).
  rewrite len_app in Hs. rewrite length_app in Hf. apply IH; [unfold len in *; lia|done|rewrite len_app; lia].
Qed.

Definition squiet {A} (pre : list byte) (p : SH A) : Prop := forall s, len pre + len s <= 8192 -> no_panic (p (at_pos pre s)).

Lemma squiet_safe {A} pre (p : SH A) : safe p -> squiet pre p.
Proof. intros Hp s _. pose proof (Hp (at_pos pre s) (at_pos_ok pre s)). by destruct (p (at_pos pre s)) as [[]| |]. Qed.

Lemma squiet_bind {A B X} pre (p : SH A) (f : A -> SH B) (e : X -> list byte) w v :
  safe p -> sparses 0 pre p e w v -> (forall x, w x -> squiet (pre ++ e x) (f (v x))) -> squiet pre (p ≫= f).
Proof.
  intros Hs Hp Hf s Hl. unfold mbind, M_bind. pose proof (Hs (at_pos pre s) (at_pos_ok pre s)) as Hc.
  destruct (p (at_pos pre s)) as [[a c]| |] eqn:E; [|done..]. apply Hp in E as (x & rest & Hw & -> & -> & ->); [|lia|lia].
  apply Hf; [done|]. slen.
Qed.

Lemma squiet_guard {A} pre b e (k : unit -> SH A) : squiet pre (k tt) -> squiet pre (u ← return_if b e; k u).
Proof. intros Hk s Hl. unfold return_if, lift, mbind, M_bind. destruct b; [done|]. by apply Hk. Qed.

Lemma squiet_message m client : squiet [] (server_hello_body m client).
Proof.
  unfold server_hello_body. eapply squiet_bind; [apply safe_sh_u8|apply sp_u8|intros kind _]. apply squiet_guard.
  eapply squiet_bind; [apply safe_sh_u24|apply sp_u24|intros n _]. intros s Hl. apply squiet_guard; [|done]. clear s Hl.
  eapply squiet_bind; [apply safe_sh_u16|apply sp_u16|intros legacy _]. apply squiet_guard.
  eapply squiet_bind; [apply safe_sh_bytes; lia|apply sp_bytes; lia|intros rnd _]. apply squiet_guard.
  eapply squiet_bind; [apply safe_sh_u8|apply sp_u8|intros sl _]. pose proof (u8_range sl). apply squiet_guard.
  eapply squiet_bind; [apply safe_sh_bytes; lia|apply sp_bytes; lia|intros sid _]. apply squiet_guard.
  eapply squiet_bind; [apply safe_sh_u16|apply sp_u16|intros sw _].
  match goal with |- squiet ?p (a ← lift ?r; @?k a) => intros s0 Hl0; unfold mbind at 1, M_bind at 1, lift at 1; destruct r as [suite| |] eqn:Hr;
    [revert s0 Hl0; change (squiet p (k suite)); cbv beta|done|by destruct (suite_from_wire sw) as [?|]; [cbn in Hr; destruct (cipher_offered client sw)|]] end.
  eapply squiet_bind; [apply safe_sh_u8|apply sp_u8|intros comp _]. apply squiet_guard.
  eapply squiet_bind; [apply safe_sh_u16|apply sp_u16|intros en Hen]. unfold u16_range, U16_MAX in Hen.
  eapply squiet_bind; [apply safe_sub; lia|apply sp_sub; lia|intros b Hb]. cbv beta iota.
  intros s Hl. unfold sh_is_empty. rewrite (M_bind_step _ _ _ (bool_decide (s = [])) (at_pos _ s)) by (unfold mbind, M_bind; cbn [get_state]; by rewrite cursor_empty_at).
  revert s Hl. intros s Hl. apply squiet_guard; [|done]. clear s Hl. intros s Hl.
  match goal with |- no_panic ((lift ?r ≫= _) _) => assert (Hx : no_panic r) end.
  { unfold server_extensions. match goal with |- no_panic (fst <$> ?m) => enough (no_panic m) by (by destruct m as [[]| |]) end.
    cbn [new_cursor input]. rewrite <- at_pos_new. rewrite len_app in Hl. pose proof (len_nonneg s).
    apply ext_loop_no_panic; [lia|slen|]. change (len (@nil byte)) with 0. lia. }
  unfold mbind at 1, M_bind at 1, lift at 1. match goal with |- no_panic (match (match ?r with _ => _ end) with _ => _ end) => destruct r as [st| |] end; [|done..].
  unfold return_if, lift, mbind, M_bind. destruct (negb (x_tls13 st)); [done|]. cbn. by destruct (x_key_share st) as [[]|].
Qed.

(** ** Exactness *)

Lemma server_parse_exact m client :
  parse_server_hello m client <> Panic /\
  forall t, parse_server_hello m client = Ok t <-> exists a s, server_hello_wf client a s /\ m = enc_server_hello a /\ t = template_of a s.
Proof.
  unfold parse_server_hello. destruct (Z.ltb_spec MAX_SERVER_HELLO_LEN (len m)) as [Hl|Hl]; cbn [reject_if mbind result_bind].
  { split; [done|]. intros t. split; [done|]. intros (a & s & Hw & -> & _). destruct Hw. lia. }
  unfold MAX_SERVER_HELLO_LEN in Hl. rewrite <- at_pos_new. pose proof (squiet_message m client m ltac:(rewrite len_nil; lia)) as Hq.
  split; [by destruct (server_hello_body m client (at_pos [] m)) as [[]| |]|]. intros t.
  transitivity (exists c', server_hello_body m client (at_pos [] m) = Ok (t, c')).
  { destruct (server_hello_body m client (at_pos [] m)) as [[t' c]| |]; split; try done; try (by intros (? & ?)); [intros [= ->]; by eexists|by intros (c' & [= -> ->])]. }
  assert (Hlm : 0 + len (@nil byte) + len m <= 8192) by (change (len (@nil byte)) with 0; lia).
  rewrite (sends_message m client m t ltac:(lia) Hlm). clear Hlm. split.
  - intros ([a s] & (H1 & H2 & H3 & H4 & H5 & H6 & Hw & Hel & Hin & Hbl) & -> & ->). exists a, s.
    apply sitems_wf_iff in Hw as (Hf & Hnd & Hc); [|constructor]. split; [|done]. split; try done.
    + eapply Forall_impl; [exact Hf|]. by intros e [? _].
    + destruct Hc as [Hc|Hc]; [by unfold as_exts in Hc; destruct (as_before a)|]. change (len (x_seen st0)) with 0 in Hc. lia.
  - intros (a & s & [[H1 H2] [H3 H4] [H5 H6] Hf Hnd Hc Hin Hlen] & -> & ->). exists (a, s).
    assert (Hbody : len (enc_sbody a) = len (enc_sfixed a) + 2 + len (concat (enc_sext <$> as_exts a))).
    { unfold enc_sbody. rewrite len_app, len_vec16. lia. }
    assert (Hall : len (enc_server_hello a) = 4 + len (enc_sbody a)) by (unfold enc_server_hello; slen).
    unfold MAX_SERVER_HELLO_LEN in Hlen. pose proof (len_nonneg (enc_sfixed a)). unfold U16_MAX. split_and!; try done; [|lia|lia].
    apply sitems_wf_iff; [constructor|]. split_and!; [|done|right; change (len (x_seen st0)) with 0; lia].
    apply Forall_forall. intros e He. split; [by eapply Forall_forall in Hf|].
    pose proof (concat_le enc_sext _ _ He) as Hle. rewrite enc_sext_len in Hle. unfold U16_MAX. lia.
Qed.

(** ** Replacing the key share *)

Definition with_exchange (a : AbsServerHello) (x : list byte) : AbsServerHello :=
  {| as_random := as_random a; as_session := as_session a; as_suite := as_suite a; as_before := as_before a; as_group := as_group a;
     as_exchange := x; as_after := as_after a |}.

(** The message around its key exchange. *)
Definition exchange_prefix (a : AbsServerHello) : list byte :=
  [HANDSHAKE_SERVER_HELLO] ++ to_be 3 (len (enc_sbody a)) ++ enc_sfixed a ++ to_be 2 (len (concat (enc_sext <$> as_exts a))) ++
  concat (enc_sext <$> as_before a) ++ to_be 2 EXTENSION_KEY_SHARE ++ to_be 2 (4 + len (as_exchange a)) ++ to_be 2 (as_group a) ++ to_be 2 (len (as_exchange a)).
Definition exchange_suffix (a : AbsServerHello) : list byte := concat (enc_sext <$> as_after a).

Lemma enc_exts_around a : concat (enc_sext <$> as_exts a) =
  concat (enc_sext <$> as_before a) ++ to_be 2 EXTENSION_KEY_SHARE ++ to_be 2 (4 + len (as_exchange a)) ++ to_be 2 (as_group a) ++ to_be 2 (len (as_exchange a)) ++
  as_exchange a ++ exchange_suffix a.
Proof.
  unfold as_exts. rewrite fmap_app, concat_app. f_equal. rewrite concat_sext_cons. unfold enc_sext at 1. cbn [sext_type sext_body].
  unfold vec16 at 1. replace (len (to_be 2 (as_group a) ++ vec16 (as_exchange a))) with (4 + len (as_exchange a)) by (unfold vec16; slen).
  unfold vec16. rewrite <- !app_assoc. done.
Qed.

Lemma enc_around a : enc_server_hello a = exchange_prefix a ++ as_exchange a ++ exchange_suffix a.
Proof.
  transitivity ([HANDSHAKE_SERVER_HELLO] ++ to_be 3 (len (enc_sbody a)) ++ enc_sfixed a ++ to_be 2 (len (concat (enc_sext <$> as_exts a))) ++
    concat (enc_sext <$> as_exts a)); [done|].
  rewrite (enc_exts_around a) at 2. unfold exchange_prefix. rewrite <- !app_assoc. done.
Qed.

Lemma exchange_prefix_len a : len (exchange_prefix a) = exchange_at a.
Proof. unfold exchange_prefix, exchange_at. slen. Qed.

Lemma sext_type_with a x : sext_type <$> as_exts (with_exchange a x) = sext_type <$> as_exts a.
Proof. unfold as_exts. rewrite !fmap_app. done. Qed.

Lemma exts_len_with a x : len x = len (as_exchange a) -> len (concat (enc_sext <$> as_exts (with_exchange a x))) = len (concat (enc_sext <$> as_exts a)).
Proof. intros Hx. rewrite !enc_exts_around. unfold exchange_suffix, with_exchange. cbn [as_before as_group as_exchange as_after]. rewrite Hx. slen. Qed.

Lemma prefix_with a x : len x = len (as_exchange a) -> exchange_prefix (with_exchange a x) = exchange_prefix a.
Proof.
  intros Hx. unfold exchange_prefix. rewrite (exts_len_with a x Hx). unfold with_exchange at 2 3 4 5 6. cbn [as_before as_group as_exchange as_after]. rewrite Hx.
  do 3 f_equal. unfold enc_sbody. rewrite !len_app, !len_vec16, (exts_len_with a x Hx). done.
Qed.

Lemma wf_with client a s x : len x = len (as_exchange a) -> server_hello_wf client a s -> server_hello_wf client (with_exchange a x) s.
Proof.
  intros Hx [H1 H2 H3 H4 H5 H6 H7 H8]. split; try done.
  - unfold as_exts in *. apply Forall_app in H4 as [Hb [Hs Ha]%Forall_cons]. apply Forall_app. split; [done|]. apply Forall_cons. split; [|done].
    cbn in *. by rewrite Hx.
  - by rewrite sext_type_with.
  - unfold as_exts in *. revert H6. unfold len. rewrite !length_app. done.
  - unfold as_exts in *. apply elem_of_app in H7 as [H7|H7]; apply elem_of_app; [by left|right].
    inversion H7; subst; by right.
  - rewrite enc_around in H8 |- *. rewrite (prefix_with a x Hx). revert H8. unfold with_exchange, exchange_suffix. cbn [as_exchange as_after]. rewrite !len_app, Hx. done.
Qed.

Lemma copy_at {E} (p o q n : list byte) (e : E) : len n = len o -> copy_into (p ++ o ++ q) (len p) (len p + len o) n e = Ok (p ++ n ++ q).
Proof.
  intros Hn. unfold copy_into. rewrite get_range_app_r by lia. rewrite get_range_some by slen.
  replace (len n =? len p + len o - len p) with true by (symmetry; apply Z.eqb_eq; lia).
  do 2 f_equal; [unfold len; by rewrite Nat2Z.id, take_app_length|]. f_equal. rewrite app_assoc. rewrite <- len_app. unfold len. by rewrite Nat2Z.id, drop_app_length.
Qed.

(** The patched message of a template is the reference message with its key
    share, and parses to the same template around it. *)
Lemma patched_message client a s share : server_hello_wf client a s -> len share = len (as_exchange a) ->
  into_patched_message (template_of a s) share = Ok (enc_server_hello (with_exchange a share)) /\
  parse_server_hello (enc_server_hello (with_exchange a share)) client = Ok (template_of (with_exchange a share) s).
Proof.
  intros Hw Hs. split.
  - unfold into_patched_message, range_len, saturating_sub. cbn [template_of t_key_exchange t_message fst snd].
    replace (len share =? Z.max 0 (exchange_at a + len (as_exchange a) - exchange_at a)) with true
      by (symmetry; apply Z.eqb_eq; pose proof (len_nonneg (as_exchange a)); lia).
    cbn [negb reject_if mbind result_bind]. rewrite enc_around, <- exchange_prefix_len, (copy_at _ _ _ share) by done. rewrite enc_around, (prefix_with a share Hs). done.
  - apply server_parse_exact. exists (with_exchange a share), s. split; [by apply wf_with|done].
Qed.

Lemma template_exchange a s : observed_key_exchange (template_of a s) = Some (as_exchange a).
Proof.
  unfold observed_key_exchange. cbn [template_of t_message t_key_exchange fst snd]. rewrite enc_around, <- exchange_prefix_len.
  rewrite get_range_app_r by lia. rewrite Z.sub_diag. apply get_range_prefix. lia.
Qed.

(** ** Profile skeletons *)

Definition with_session (a : AbsServerHello) (rnd sid : list byte) : AbsServerHello :=
  {| as_random := rnd; as_session := sid; as_suite := as_suite a; as_before := as_before a; as_group := as_group a;
     as_exchange := as_exchange a; as_after := as_after a |}.

Definition hello_head (a : AbsServerHello) : list byte := [HANDSHAKE_SERVER_HELLO] ++ to_be 3 (len (enc_sbody a)) ++ to_be 2 LEGACY_TLS12_VERSION.
Definition hello_tail (a : AbsServerHello) : list byte := to_be 2 (as_suite a) ++ [x00] ++ vec16 (concat (enc_sext <$> as_exts a)).

Lemma enc_fields a : enc_server_hello a = hello_head a ++ as_random a ++ [as_u8 (len (as_session a))] ++ as_session a ++ hello_tail a.
Proof. unfold enc_server_hello, hello_head, hello_tail, enc_sbody at 2, enc_sfixed, vec8. rewrite <- !app_assoc. done. Qed.

Lemma head_with a rnd sid : len rnd = len (as_random a) -> len sid = len (as_session a) -> hello_head (with_session a rnd sid) = hello_head a.
Proof.
  intros Hr Hs. unfold hello_head. do 3 f_equal. unfold enc_sbody, enc_sfixed, with_session, as_exts, vec8.
  cbn [as_random as_session as_suite as_before as_group as_exchange as_after]. rewrite !len_app, !len_cons, Hr, Hs. done.
Qed.

Lemma fill_at {E} (p o q : list byte) (e : E) : fill_zero (p ++ o ++ q) (len p) (len p + len o) e = Ok (p ++ replicate (length o) x00 ++ q).
Proof.
  unfold fill_zero. rewrite get_range_app_r by lia. rewrite Z.sub_diag. replace (len p + len o - len p) with (len o) by lia.
  rewrite get_range_prefix by done. cbn [ok_or mbind result_bind].
  do 2 f_equal; [unfold len; by rewrite Nat2Z.id, take_app_length|]. f_equal. rewrite app_assoc. rewrite <- len_app. unfold len. by rewrite Nat2Z.id, drop_app_length.
Qed.

Lemma len_erased (l : list byte) : len (replicate (length l) x00) = len l.
Proof. unfold len. by rewrite length_replicate. Qed.

Definition erased (a : AbsServerHello) : AbsServerHello :=
  with_exchange (with_session a (replicate 32 x00) (replicate (length (as_session a)) x00)) (replicate (length (as_exchange a)) x00).

Definition profile_of (a : AbsServerHello) (s : CipherSuite) : ServerHelloProfileTemplate :=
  {| p_message := enc_server_hello (erased a); p_suite := s; p_key_share_group := as_group a;
     p_key_exchange := (exchange_at a, exchange_at a + len (as_exchange a)) |}.

Lemma hello_head_len a : len (hello_head a) = 6.
Proof. unfold hello_head. slen. Qed.

Lemma stored_len a : len (as_random a) = 32 -> len (as_session a) <= 32 -> stored_session_len (enc_server_hello a) = Ok (len (as_session a)).
Proof.
  intros Hr Hs. unfold stored_session_len. rewrite enc_fields. pose proof (hello_head_len a) as Hh. pose proof (u8_as_u8_small (len (as_session a))) as Hu. unfold U8_MAX in Hu.
  pose proof (len_nonneg (as_session a)). specialize (Hu ltac:(lia)). unfold len in Hh, Hr.
  change (Z.to_nat SESSION_ID_LENGTH_OFFSET) with 38%nat. rewrite !lookup_app_r by lia.
  replace (38 - length (hello_head a) - length (as_random a))%nat with 0%nat by lia.
  cbn [app lookup list_lookup ok_or mbind result_bind]. by rewrite Hu.
Qed.

Lemma exchange_at_with a rnd sid : len rnd = len (as_random a) -> len sid = len (as_session a) -> exchange_at (with_session a rnd sid) = exchange_at a.
Proof.
  intros Hr Hs. unfold exchange_at, enc_sfixed, with_session, vec8. cbn [as_random as_session as_suite as_before].
  rewrite !len_app, !len_cons, Hr, Hs. done.
Qed.

Lemma fields_with a rnd sid : len rnd = len (as_random a) -> len sid = len (as_session a) ->
  enc_server_hello (with_session a rnd sid) = hello_head a ++ rnd ++ [as_u8 (len (as_session a))] ++ sid ++ hello_tail a.
Proof. intros Hr Hs. rewrite enc_fields, (head_with a rnd sid Hr Hs). cbn [with_session as_random as_session]. rewrite Hs. done. Qed.

(** An operation on the random's range, and on the session identifier's. *)
Section Ranges.
Context {E : Type} (f : list byte -> Z -> Z -> E -> result E (list byte)) (a : AbsServerHello) (e : E) (new : list byte).
Context (Hr : len (as_random a) = 32).

Lemma random_range : len new = 32 ->
  (forall p q, f (p ++ as_random a ++ q) (len p) (len p + len (as_random a)) e = Ok (p ++ new ++ q)) ->
  f (enc_server_hello a) SERVER_RANDOM_START SERVER_RANDOM_END e = Ok (enc_server_hello (with_session a new (as_session a))).
Proof.
  intros Hn Hf. rewrite (fields_with a new (as_session a)) by lia. rewrite enc_fields.
  specialize (Hf (hello_head a) ([as_u8 (len (as_session a))] ++ as_session a ++ hello_tail a)). rewrite hello_head_len, Hr in Hf. exact Hf.
Qed.

Lemma session_range : len new = len (as_session a) ->
  (forall p q, f (p ++ as_session a ++ q) (len p) (len p + len (as_session a)) e = Ok (p ++ new ++ q)) ->
  f (enc_server_hello a) SESSION_ID_START (SESSION_ID_START + len (as_session a)) e = Ok (enc_server_hello (with_session a (as_random a) new)).
Proof.
  intros Hn Hf. rewrite (fields_with a (as_random a) new) by lia. rewrite enc_fields.
  specialize (Hf (hello_head a ++ as_random a ++ [as_u8 (len (as_session a))]) (hello_tail a)).
  replace (len (hello_head a ++ as_random a ++ [as_u8 (len (as_session a))])) with SESSION_ID_START in Hf.
  2: { rewrite !len_app, hello_head_len, Hr, len_cons, len_nil. done. }
  assert (Hassoc : forall x, (hello_head a ++ as_random a ++ [as_u8 (len (as_session a))]) ++ x = hello_head a ++ as_random a ++ [as_u8 (len (as_session a))] ++ x)
    by (intros x; by rewrite <- !app_assoc).
  rewrite !Hassoc in Hf. exact Hf.
Qed.
End Ranges.

Lemma profile_template_ok client a s : server_hello_wf client a s -> into_profile_template (template_of a s) = Ok (profile_of a s).
Proof.
  intros [[Hr _] [_ Hs] _ _ _ _ _ _]. unfold into_profile_template. cbn [template_of t_message t_suite t_key_share_group t_key_exchange fst snd].
  rewrite (stored_len a Hr Hs). cbn [mbind result_bind]. pose proof (len_nonneg (as_session a)).
  rewrite (proj2 (checked_add_some _ _ _ (SESSION_ID_START + len (as_session a)))) by (split; [done|]; unfold USIZE_MAX, U64_MAX, SESSION_ID_START, SESSION_ID_LENGTH_OFFSET, SERVER_RANDOM_END, SERVER_RANDOM_START; lia).
  cbn [ok_or mbind result_bind].
  rewrite (random_range fill_zero a ShMalformed (replicate 32 x00) Hr); [|slen|].
  2: { intros p q. rewrite fill_at. unfold len in Hr. replace (length (as_random a)) with 32%nat by lia. done. }
  cbn [mbind result_bind]. set (a1 := with_session a (replicate 32 x00) (as_session a)).
  pose proof (session_range fill_zero a1 ShMalformed (replicate (length (as_session a)) x00) eq_refl) as Hsr.
  change (as_session a1) with (as_session a) in Hsr. rewrite Hsr by (apply len_erased || (intros; apply fill_at)).
  cbn [mbind result_bind]. set (a2 := with_session a1 (as_random a1) (replicate (length (as_session a)) x00)).
  assert (Ha : exchange_at a2 = exchange_at a).
  { unfold a2, a1. rewrite !exchange_at_with; cbn [with_session as_random as_session]; rewrite ?len_erased; [done..|slen|done]. }
  rewrite <- Ha, <- exchange_prefix_len, enc_around. rewrite fill_at. cbn [mbind result_bind]. unfold profile_of. rewrite <- Ha, <- exchange_prefix_len. do 2 f_equal.
  change (erased a) with (with_exchange a2 (replicate (length (as_exchange a)) x00)). rewrite enc_around, prefix_with by apply len_erased. done.
Qed.

(** ** Materialized profiles *)

Lemma wf_session client client' a s rnd sid : server_hello_wf client a s ->
  len rnd = 32 -> rnd <> HELLO_RETRY_REQUEST_RANDOM -> session_id client' = Some sid -> len sid = len (as_session a) ->
  cipher_offered client' (as_suite a) = true -> validate_key_share (as_group a) (len (as_exchange a)) client' = Ok tt ->
  server_hello_wf client' (with_session a rnd sid) s.
Proof.
  intros [[H1 H1'] [H2 H2'] [H3 _] H4 H5 H6 H7 H8] Hr Hh Hs Hsl Hc Hv. split; try done.
  - split; [done|]. cbn. by rewrite Hsl.
  - change (as_exts (with_session a rnd sid)) with (as_exts a). apply Forall_app in H4 as [Hb [[Hg _] Ha]%Forall_cons].
    assert (Hmove : forall l, is_share <$> l = replicate (length l) false -> Forall (sext_ok client) l -> Forall (sext_ok client') l).
    { induction l as [|e l IH]; intros El Hl; [done|]. apply Forall_cons in Hl as [He Hl]. cbn in El. injection El as Ee El.
      constructor; [by destruct e|by apply IH]. }
    unfold as_exts in H5. rewrite fmap_app in H5. cbn in H5. apply NoDup_app in H5 as (_ & Hd & [Hn _]%NoDup_cons).
    assert (Hno : forall l, EXTENSION_KEY_SHARE ∉ sext_type <$> l -> is_share <$> l = replicate (length l) false).
    { intros l Hl. induction l as [|e l IH]; [done|]. cbn in *. apply not_elem_of_cons in Hl as [He Hl]. rewrite (IH Hl). by destruct e. }
    apply Forall_app. split; [apply Hmove; [|done]; apply Hno; intros Hin; apply (Hd _ Hin); left|]. constructor; [done|]. apply Hmove; [|done]. by apply Hno.
  - rewrite (fields_with a rnd sid) by lia. rewrite enc_fields in H8. revert H8. rewrite !len_app, Hr, Hsl, H1. done.
Qed.

Lemma suite_wire_inv z s : suite_from_wire z = Some s -> suite_wire_value s = z.
Proof. unfold suite_from_wire. repeat case_match; intros [= <-]; cbn; lia. Qed.

Lemma erased_with a rnd sid x : len sid = len (as_session a) -> len x = len (as_exchange a) ->
  erased (with_exchange (with_session a rnd sid) x) = erased a.
Proof.
  unfold len. intros Hs Hx. unfold erased, with_exchange, with_session. cbn [as_random as_session as_suite as_before as_group as_exchange as_after].
  by replace (length sid) with (length (as_session a)) by lia; replace (length x) with (length (as_exchange a)) by lia.
Qed.

Lemma materialize_ok alloc client client' a s rnd sid :
  server_hello_wf client a s -> (forall n, alloc n = true) -> len rnd = 32 -> session_id client' = Some sid -> len sid = len (as_session a) ->
  cipher_offered client' (as_suite a) = true -> validate_key_share (as_group a) (len (as_exchange a)) client' = Ok tt ->
  materialize alloc (profile_of a s) client' rnd =
    Ok (template_of (with_exchange (with_session a rnd sid) (replicate (length (as_exchange a)) x00)) s).
Proof.
  intros [[Hr0 _] [_ Hs0] [Hsuite _] _ _ _ _ _] Hal Hr Hs Hsl Hc Hv. unfold materialize.
  cbn [profile_of p_message p_suite p_key_share_group p_key_exchange]. rewrite (suite_wire_inv _ _ Hsuite), Hc. cbn [negb reject_if mbind result_bind].
  replace (range_len (exchange_at a, exchange_at a + len (as_exchange a))) with (len (as_exchange a))
    by (unfold range_len, saturating_sub; cbn [fst snd]; pose proof (len_nonneg (as_exchange a)); lia).
  rewrite Hv, Hs. cbn [ok_or mbind result_bind].
  set (z := replicate (length (as_exchange a)) x00).
  set (b := with_exchange a z).
  assert (Eb : forall r t, enc_server_hello (with_session b r t) = enc_server_hello (with_exchange (with_session a r t) z)) by done.
  assert (Eer : enc_server_hello (erased a) = enc_server_hello (with_session b (replicate 32 x00) (replicate (length (as_session a)) x00))) by done.
  rewrite Eer. set (c := with_session b (replicate 32 x00) (replicate (length (as_session a)) x00)).
  assert (Hcr : len (as_random c) = 32) by (cbn; slen).
  assert (Hcs : len (as_session c) = len (as_session a)) by apply len_erased.
  rewrite (stored_len c Hcr) by lia. cbn [mbind result_bind]. rewrite Hcs, Hsl, Z.eqb_refl. cbn [negb reject_if mbind result_bind].
  pose proof (len_nonneg (as_session a)).
  rewrite (proj2 (checked_add_some _ _ _ (SESSION_ID_START + len (as_session a)))) by (split; [done|]; unfold USIZE_MAX, U64_MAX, SESSION_ID_START, SESSION_ID_LENGTH_OFFSET, SERVER_RANDOM_END, SERVER_RANDOM_START; lia).
  cbn [ok_or mbind result_bind]. rewrite Hal. cbn [negb reject_if mbind result_bind].
  rewrite (random_range (fun l i j => copy_into l i j rnd) c ShMalformed rnd Hcr Hr) by (intros p q; apply copy_at; lia). cbn [mbind result_bind].
  pose proof (session_range (fun l i j => copy_into l i j sid) (with_session c rnd (as_session c)) ShMalformed sid Hr) as Hsr.
  change (as_session (with_session c rnd (as_session c))) with (as_session c) in Hsr. rewrite Hcs in Hsr.
  rewrite Hsr by (try done; intros p q; rewrite <- Hcs; apply copy_at; lia). cbn [mbind result_bind]. unfold template_of. do 2 f_equal.
  assert (Ha : exchange_at (with_exchange (with_session a rnd sid) z) = exchange_at a) by (change (exchange_at (with_session a rnd sid) = exchange_at a); apply exchange_at_with; lia).
  rewrite Ha. cbn [with_exchange as_exchange]. unfold z. by rewrite len_erased.
Qed.

(** C13: the parser of a cover's ServerHello never panics and accepts exactly the
    reference encodings that answer the client's offer: not a HelloRetryRequest,
    the client's session identifier echoed, an offered suite, TLS 1.3 selected,
    no pre-shared key, distinct extensions within the limits, and one key share
    of an offered group with that group's length. Replacing the key share of an
    accepted message by another of its length changes nothing else: the patched
    message is accepted with the same negotiation, and its key share is the new
    one. *)
Theorem server_hello_exact m client :
  parse_server_hello m client <> Panic /\
  (forall t, parse_server_hello m client = Ok t <-> exists a s, server_hello_wf client a s /\ m = enc_server_hello a /\ t = template_of a s) /\
  (forall t share, parse_server_hello m client = Ok t -> len share = range_len (t_key_exchange t) ->
    exists m', into_patched_message t share = Ok m' /\ len m' = len m /\
      let t' := {| t_message := m'; t_suite := t_suite t; t_key_share_group := t_key_share_group t; t_key_exchange := t_key_exchange t |} in
      parse_server_hello m' client = Ok t' /\ observed_key_exchange t' = Some share).
Proof.
  destruct (server_parse_exact m client) as [Hp Hiff]. split; [done|]. split; [done|]. intros t share (a & s & Hw & -> & ->)%Hiff Hs.
  assert (Hx : len share = len (as_exchange a)).
  { rewrite Hs. unfold range_len, saturating_sub. cbn [template_of t_key_exchange fst snd]. pose proof (len_nonneg (as_exchange a)). lia. }
  destruct (patched_message client a s share Hw Hx) as [Hpatch Hparse]. exists (enc_server_hello (with_exchange a share)).
  assert (Ht : {| t_message := enc_server_hello (with_exchange a share); t_suite := t_suite (template_of a s);
    t_key_share_group := t_key_share_group (template_of a s); t_key_exchange := t_key_exchange (template_of a s) |} = template_of (with_exchange a share) s).
  { unfold template_of at 4. cbn [template_of t_suite t_key_share_group t_key_exchange]. f_equal. rewrite <- !exchange_prefix_len, (prefix_with a share Hx). cbn [with_exchange as_exchange]. by rewrite Hx. }
  split; [done|]. split; [rewrite !enc_around, (prefix_with a share Hx), !len_app; change (exchange_suffix (with_exchange a share)) with (exchange_suffix a); cbn [with_exchange as_exchange]; lia|].
  cbv zeta. rewrite Ht. split; [done|apply template_exchange].
Qed.

(** C14: a cover profile answers any later hello of the class. The profile of an
    accepted ServerHello exists and does not depend on its random, session
    identifier or key share; materialized for a client that offers the suite and
    the group with a session identifier of the same length, with a fresh random
    (not the retry value) and patched with a fresh share, it is a ServerHello
    this client's parser accepts, with the profile's suite and group and the
    fresh share. *)
Theorem cover_profile_answers alloc client client' m t sid rnd share :
  parse_server_hello m client = Ok t -> (forall n, alloc n = true) ->
  session_id client' = Some sid -> stored_session_len m = Ok (len sid) ->
  cipher_offered client' (suite_wire_value (t_suite t)) = true ->
  validate_key_share (t_key_share_group t) (len share) client' = Ok tt -> len share = range_len (t_key_exchange t) ->
  len rnd = 32 -> rnd <> HELLO_RETRY_REQUEST_RANDOM ->
  exists p t' m', into_profile_template t = Ok p /\ materialize alloc p client' rnd = Ok t' /\ into_patched_message t' share = Ok m' /\
    parse_server_hello m' client' = Ok {| t_message := m'; t_suite := t_suite t; t_key_share_group := t_key_share_group t; t_key_exchange := t_key_exchange t |} /\
    get_range m' (t_key_exchange t).1 (t_key_exchange t).2 = Some share /\ get_range m' SERVER_RANDOM_START SERVER_RANDOM_END = Some rnd /\
    (forall t2, parse_server_hello m' client' = Ok t2 -> into_profile_template t2 = Ok p).
Proof.
  intros (a & s & Hw & -> & ->)%server_parse_exact Hal Hsid Hst Hc Hv Hsh Hr Hh. cbn [template_of t_suite t_key_share_group t_key_exchange fst snd] in *.
  assert (Hx : len share = len (as_exchange a)).
  { rewrite Hsh. unfold range_len, saturating_sub. cbn [fst snd]. pose proof (len_nonneg (as_exchange a)). lia. }
  pose proof Hw as [[Hr0 _] [_ Hs0] [Hsu _] _ _ _ _ _]. rewrite (stored_len a Hr0 Hs0) in Hst. injection Hst as Hsl. symmetry in Hsl. rewrite Hx in Hv.
  rewrite (suite_wire_inv _ _ Hsu) in Hc.
  pose proof (wf_session client client' a s rnd sid Hw Hr Hh Hsid Hsl Hc Hv) as Hw1. set (z := replicate (length (as_exchange a)) x00).
  assert (Hz : len z = len (as_exchange a)) by apply len_erased.
  pose proof (wf_with client' (with_session a rnd sid) s z Hz Hw1) as Hw2.
  destruct (patched_message client' (with_exchange (with_session a rnd sid) z) s share Hw2 ltac:(cbn [with_exchange as_exchange]; lia)) as [Hpatch Hparse].
  set (b := with_exchange (with_session a rnd sid) share).
  assert (Hat : exchange_at b = exchange_at a) by (change (exchange_at (with_session a rnd sid) = exchange_at a); apply exchange_at_with; lia).
  assert (Htb : template_of b s = {| t_message := enc_server_hello b; t_suite := s; t_key_share_group := as_group a;
    t_key_exchange := (exchange_at a, exchange_at a + len (as_exchange a)) |}).
  { unfold template_of. rewrite Hat. unfold b at 3. cbn [with_exchange as_exchange]. by rewrite Hx. }
  exists (profile_of a s), (template_of (with_exchange (with_session a rnd sid) z) s), (enc_server_hello b).
  split; [by eapply profile_template_ok|]. split; [by eapply materialize_ok|]. split; [done|]. rewrite <- Htb.
  split; [exact Hparse|]. split; [|split].
  - pose proof (template_exchange b s) as Ho. rewrite Htb in Ho. exact Ho.
  - rewrite enc_fields. replace SERVER_RANDOM_START with (len (hello_head b)) by (rewrite hello_head_len; done).
    rewrite get_range_app_r by (rewrite hello_head_len; unfold SERVER_RANDOM_END, SERVER_RANDOM_START; lia). rewrite Z.sub_diag. apply get_range_prefix.
    rewrite hello_head_len. cbn [b with_exchange with_session as_random]. rewrite Hr. done.
  - intros t2 Ht2. change (enc_server_hello b) with (enc_server_hello (with_exchange (with_exchange (with_session a rnd sid) z) share)) in Ht2.
    rewrite Hparse in Ht2. injection Ht2 as <-.
    rewrite (profile_template_ok client' _ s) by (apply wf_with; [cbn [with_exchange as_exchange]; lia|done]). unfold profile_of. do 2 f_equal.
    + change (with_exchange (with_exchange (with_session a rnd sid) z) share) with b. unfold b. by rewrite erased_with by lia.
    + change (with_exchange (with_exchange (with_session a rnd sid) z) share) with b. rewrite Hat. unfold b. cbn [with_exchange as_exchange]. by rewrite Hx.
Qed.

Definition sample_client : ClientHello :=
  match parse_message (enc_hello sample_hello) with
  | Ok h => h
  | _ => {| raw_message := []; random := []; session_id_range := (0, 0); server_name_range := None; alpn_ranges := []; key_share_ranges := [];
            cipher_suites := []; offers_tls13 := false; offers_psk := false |}
  end.

Definition sample_answer : AbsServerHello :=
  {| as_random := replicate 32 x42; as_session := replicate 32 x09; as_suite := 4865; as_before := [XVersion 772]; as_group := X25519_GROUP;
     as_exchange := replicate 32 x55; as_after := [XOther 5 []] |}.

Definition sample_template : ServerHelloTemplate := template_of sample_answer Aes128GcmSha256.

Lemma sample_answer_parses : parse_server_hello (enc_server_hello sample_answer) sample_client = Ok sample_template.
Proof. vm_compute. reflexivity. Qed.

Lemma server_hello_exact_witness : exists m', into_patched_message sample_template (replicate 32 x66) = Ok m' /\
  exists t', parse_server_hello m' sample_client = Ok t' /\ observed_key_exchange t' = Some (replicate 32 x66).
Proof.
  destruct (server_hello_exact (enc_server_hello sample_answer) sample_client) as (_ & _ & H).
  destruct (H sample_template (replicate 32 x66) sample_answer_parses ltac:(vm_compute; reflexivity)) as (m' & Hm & _ & Hp & Ho).
  exists m'. split; [exact Hm|]. eexists. split; [exact Hp|exact Ho].
Defined.

Lemma cover_profile_answers_witness : exists p t' m', into_profile_template sample_template = Ok p /\
  materialize (fun _ => true) p sample_client (replicate 32 x77) = Ok t' /\ into_patched_message t' (replicate 32 x66) = Ok m' /\
  get_range m' SERVER_RANDOM_START SERVER_RANDOM_END = Some (replicate 32 x77).
Proof.
  destruct (cover_profile_answers (fun _ => true) sample_client sample_client (enc_server_hello sample_answer) sample_template (replicate 32 x09) (replicate 32 x77)
    (replicate 32 x66) sample_answer_parses (fun _ => eq_refl) ltac:(vm_compute; reflexivity) ltac:(vm_compute; reflexivity) ltac:(vm_compute; reflexivity)
    ltac:(vm_compute; reflexivity) ltac:(vm_compute; reflexivity) ltac:(vm_compute; reflexivity) ltac:(vm_compute; discriminate))
    as (p & t' & m' & H1 & H2 & H3 & _ & _ & H4 & _).
  exists p, t', m'. split; [exact H1|]. split; [exact H2|]. split; [exact H3|exact H4].
Defined.
