(* ===== verification/RecordRead.v ===== *)
(** * Reading one TLS record ([src/protocol/reality/tls13/record_read.rs])

    [read_tls_record]: the handshake's record reader, with storage of its own for
    every record. It runs [read_tls_record_into] of the application readers; what
    it returns is characterised by the framing of the byte stream alone. *)

From S2P Require Import Prelude Cursor Effects Tls13Keys HandoffBlob Tls13Record TlsReader.
#[local] Open Scope Z_scope.

(** [read_tls_record_into] works on a stream and a buffer; the model's reader
    also carries a session, which it leaves alone. *)
Definition no_session : ReadSession :=
  {| rs_records := {| rl_key := []; rl_suite := Aes128GcmSha256; rl_iv := []; rl_traffic := TsHandshake; rl_sequence := 0; rl_write_failed := false |};
     rs_key_update := new_reassembly; rs_coordination := new_coordination false |}.

(** [outer_content_type]: [first().copied().unwrap_or_default()]. *)
Definition outer_content_type (wire : list byte) : byte := default x00 (head wire).

Section RecordRead.
Context (env : ReadEnv).

Definition read_tls_record : IO Transport TlsRecordReadError (list byte) := fun t =>
  if negb (read_alloc env (tp_reads t)) then (Err {| read_kind := RkRecordTooLarge; wire_prefix := [] |}, t)
  else if negb (read_armed env (tp_reads t)) then (Err {| read_kind := RkTimeout; wire_prefix := [] |}, t)
  else
    match read_tls_record_into env {| ti_io := t; ti_session := no_session; ti_wire := []; ti_capacity := MAX_TLS_RECORD_WIRE_LEN |} with
    | (Ok n, st) => (Ok (take (Z.to_nat n) (ti_wire st)), ti_io st)
    | (Err e, st) => (Err e, ti_io st)
    | (Panic, st) => (Panic, ti_io st)
    end.
End RecordRead.

(** The reader's answer is the framing of the stream. *)
Lemma read_tls_record_spec env t :
  read_env_ok env ->
  match read_tls_record env t with
  | (Ok record, t') => frame_of (tp_stream t) = FrRecord record (tp_stream t')
  | (Err e, _) => framing_error env (tp_stream t) e
  | (Panic, _) => False
  end.
Proof.
  intros Henv. pose proof Henv as (Ha & Hb & _). unfold read_tls_record. rewrite Ha, Hb. cbn [negb].
  match goal with |- context [read_tls_record_into env ?s] => pose proof (read_tls_record_into_holds env Henv no_session (tp_stream t) s (conj eq_refl eq_refl)) as H end.
  destruct (read_tls_record_into env _) as [[n|e|] st]; [|by destruct H|done].
  destruct H as (record & rest & Hf & -> & Hs & _ & _ & stale & Hw). rewrite Hf, Hw. f_equal; [|done].
  rewrite take_app_le by (unfold len; lia). symmetry. apply take_ge. unfold len. lia.
Qed.

Lemma read_framed env t record rest :
  read_env_ok env -> frame_of (tp_stream t) = FrRecord record rest ->
  exists t', read_tls_record env t = (Ok record, t') /\ tp_stream t' = rest.
Proof.
  intros Henv Hf. pose proof (read_tls_record_spec env t Henv) as H. destruct (read_tls_record env t) as [[r|e|] t'].
  - rewrite Hf in H. injection H as -> ->. by exists t'.
  - unfold framing_error in H. by rewrite Hf in H.
  - done.
Qed.

Lemma frame_of_split stream record rest : frame_of stream = FrRecord record rest -> stream = record ++ rest /\ 6 <= len record.
Proof.
  unfold frame_of. destruct (Z.ltb_spec (len stream) TLS_RECORD_HEADER_LEN); [done|]. destruct (body_len_invalid _) eqn:Ev; [done|].
  destruct (Z.ltb_spec (len stream) (TLS_RECORD_HEADER_LEN + header_body_len (take 5 stream))) as [|Hge]; [done|]. intros [= <- <-].
  split; [by rewrite take_drop|]. apply orb_false_iff in Ev as [Hz%Z.eqb_neq _]. unfold TLS_RECORD_HEADER_LEN, header_body_len in *.
  pose proof (from_be_range (take 2 (drop 3 (take 5 stream)))). unfold len in *. rewrite length_take. lia.
Qed.

(** A record is framed by its own header. *)
Lemma frame_of_record header body rest :
  len header = 5 -> header_body_len header = len body -> 1 <= len body <= MAX_TLS13_CIPHERTEXT_LEN ->
  frame_of ((header ++ body) ++ rest) = FrRecord (header ++ body) rest.
Proof.
  intros Hh Hb Hl. apply frame_of_full; [done| |done]. rewrite Hb. unfold body_len_invalid. apply orb_false_iff.
  split; [apply Z.eqb_neq|apply Z.ltb_ge]; lia.
Qed.
