(* ===== verification/ServerFlight.v ===== *)
(** * The server's handshake flight ([src/protocol/reality/tls13/handshake.rs],
      [handshake_read.rs], and the flight plan of [target_read.rs])

    Key agreement with the share the client offered, the messages from
    EncryptedExtensions to Finished, their records in the shape of the cover's
    flight, and the verification of the client's Finished. Entropy is the state
    of the monad, as in the client's offer; [alloc n] answers whether a buffer of
    [n] bytes can be reserved. *)

From S2P Require Import Prelude Cursor Effects Crypto ClientHello RealityAuth ClientOffer Tls13Keys HandoffBlob Tls13Record TlsReader TlsMessages ServerHello RecordRead.
#[local] Open Scope Z_scope.

Definition FINISHED_HANDSHAKE_TYPE : byte := x14.
Definition MAX_FLIGHT_PLAINTEXT : Z := 16 * 1024.
Definition MLKEM768_ENCAPSULATION_KEY_LEN : Z := 1184.
Definition UNPADDED_RECORD_WIRE_OVERHEAD : Z := HEADER_LEN + 1 + TAG_LEN.
Definition OUTER_CHANGE_CIPHER_SPEC : byte := x14.

Inductive RealityHandshakeError :=
| HsRandom | HsMissingClientKeyShare | HsNonContributoryKey | HsMlKem | HsAlpnNotOffered | HsServerHello | HsKeySchedule | HsMessage
| HsRecord | HsBufferAllocation | HsClientFinished.

(** [wire_lens] is an array of four: one field per position. *)
Inductive CoverHandshakeRecordShape :=
| Coalesced (wire_len : Z)
| PositionalRecords (ee_len certificate_len verify_len finished_len : Z) (nst_wire_len : option Z).

Record CoverHandshakePlan := { emit_ccs : bool; shape : CoverHandshakeRecordShape }.

(** The [From] conversions. *)
Definition from_server_hello {A} (r : result ServerHelloError A) : result RealityHandshakeError A := map_err (fun _ => HsServerHello) r.
Definition from_key_schedule {A} (r : result Tls13KeyScheduleError A) : result RealityHandshakeError A := map_err (fun _ => HsKeySchedule) r.
Definition from_message {A} (r : result HandshakeMessageError A) : result RealityHandshakeError A := map_err (fun _ => HsMessage) r.
Definition from_record {A} (r : result Tls13RecordError A) : result RealityHandshakeError A := map_err (fun _ => HsRecord) r.

Notation F := (M (list byte) RealityHandshakeError).

(** [generate().map_err(|_| RealityHandshakeError::Random)]. *)
Definition or_random {A} (p : G A) : F A := fun e => map_err (fun _ => HsRandom) (p e).

Inductive ServerShare := ShareP256 (b : list byte) | ShareX25519 (b : list byte) | ShareHybrid (b : list byte).
Definition share_as_slice (s : ServerShare) : list byte := match s with ShareP256 b | ShareX25519 b | ShareHybrid b => b end.

Record KeyAgreement := { ka_server_share : ServerShare; ka_shared : list byte; ka_shared_len : Z }.

(** [shared.get(..shared_len).unwrap_or_default()]. *)
Definition ka_shared_secret (a : KeyAgreement) : list byte := default [] (get_range (ka_shared a) 0 (ka_shared_len a)).

Definition zeroed_shared : list byte := replicate 64 x00.

(** [<[u8; 32]>::try_from(slice)]. *)
Definition array32 (b : list byte) : option (list byte) := if len b =? 32 then Some b else None.

(** [shared[i..].copy_from_slice(secret)] into the 64-byte array. *)
Definition store_shared (i : Z) (secret shared : list byte) : F (list byte) := lift ('(_, shared) ← store i secret shared; Ok shared).

Section ServerFlight.
Context {C : CryptoOps} {K : KemOps} {T : Tls13Ops} {S : SignOps} (secret_of : list byte -> Crypto.Secret) (alloc : Z -> bool).

Definition x25519_generate : F Crypto.Secret := b ← or_random (entropy 32); mret (secret_of b).

Definition agree_key_share (client : ClientHello) (group : Z) : F KeyAgreement :=
  share ← lift (ok_or HsMissingClientKeyShare (snd <$> list_find (fun s => s.1 = group) (key_shares client)));
  if group =? P256_GROUP then
    ephemeral ← or_random p256_generate;
    let server_public := p256_public ephemeral in
    secret ← lift (ok_or HsNonContributoryKey (p256_agree ephemeral share.2));
    shared ← store_shared 0 secret zeroed_shared;
    mret {| ka_server_share := ShareP256 server_public; ka_shared := shared; ka_shared_len := 32 |}
  else
    ephemeral ← x25519_generate;
    let server_public := x25519_public ephemeral in
    if group =? X25519_GROUP then
      client_public ← lift (ok_or HsMissingClientKeyShare (array32 share.2));
      secret ← lift (ok_or HsNonContributoryKey (x25519_agree ephemeral client_public));
      shared ← store_shared 0 secret zeroed_shared;
      mret {| ka_server_share := ShareX25519 server_public; ka_shared := shared; ka_shared_len := 32 |}
    else if group =? X25519_MLKEM768_GROUP then
      encapsulation_key ← lift (ok_or HsMissingClientKeyShare (get_range share.2 0 MLKEM768_ENCAPSULATION_KEY_LEN));
      tail ← lift (ok_or HsMissingClientKeyShare (get_range share.2 MLKEM768_ENCAPSULATION_KEY_LEN (len share.2)));
      client_public ← lift (ok_or HsMissingClientKeyShare (array32 tail));
      return! HsMlKem when negb (mlkem_import encapsulation_key);
      randomness ← or_random (entropy 32);
      let '(ciphertext, mlkem_shared) := mlkem_encapsulate encapsulation_key randomness in
      x25519_shared ← lift (ok_or HsNonContributoryKey (x25519_agree ephemeral client_public));
      return! HsBufferAllocation when negb (alloc (MLKEM768_CIPHERTEXT_LEN + 32));
      let server_share := ciphertext ++ server_public in
      shared ← store_shared 0 mlkem_shared zeroed_shared;
      shared ← store_shared 32 x25519_shared shared;
      mret {| ka_server_share := ShareHybrid server_share; ka_shared := shared; ka_shared_len := 64 |}
    else throw HsMissingClientKeyShare.

(** ** Record lengths *)

Definition unpadded_record_wire_len (plaintext_len : Z) : result RealityHandshakeError Z :=
  ok_or HsBufferAllocation (checked_add USIZE_MAX plaintext_len UNPADDED_RECORD_WIRE_OVERHEAD).

Definition shaped_record_padding (plaintext_len target_wire_len : Z) : result RealityHandshakeError Z :=
  natural_wire_len ← unpadded_record_wire_len plaintext_len;
  ok_or HsRecord (checked_sub target_wire_len natural_wire_len).

Definition alpn_extension_fits_slot (protocol : list byte) (ee_slot_wire_len : Z) : bool :=
  match encrypted_extensions alloc (Some protocol) with
  | Ok message =>
    match unpadded_record_wire_len (len message) with
    | Ok wire_len => wire_len <=? ee_slot_wire_len
    | _ => false
    end
  | _ => false
  end.

Definition cover_compatible_alpn (client : ClientHello) (preferred : option (list byte)) (plan : CoverHandshakePlan) : option (list byte) :=
  match shape plan with
  | PositionalRecords ee_slot _ _ _ _ =>
    match preferred with
    | Some protocol =>
      if alpn_extension_fits_slot protocol ee_slot then Some protocol
      else snd <$> list_find (fun p => alpn_extension_fits_slot p ee_slot = true) (alpn_protocols client)
    | None => snd <$> list_find (fun p => alpn_extension_fits_slot p ee_slot = true) (alpn_protocols client)
    end
  | Coalesced _ => preferred
  end.

(** One record: the wire bytes and the layer. *)
Definition seal_shaped_handshake_record (records : Tls13RecordLayer) (plaintext : list byte) (target_wire_len : Z) (wire : list byte)
    : result RealityHandshakeError (list byte * Tls13RecordLayer) :=
  padding_len ← shaped_record_padding (len plaintext) target_wire_len;
  '(scratch, records) ← from_record (seal_into alloc records CtHandshake plaintext padding_len);
  guard! negb (len scratch =? target_wire_len) else HsRecord;
  Ok (wire ++ scratch, records).

(** [for (message, wire_len) in handshake_messages.iter().zip(wire_lens)], the
    loop that adds up the lengths. *)
Fixpoint sum_lengths (slots : list (list byte * Z)) (total largest : Z) : result RealityHandshakeError (Z * Z) :=
  match slots with
  | [] => Ok (total, largest)
  | (message, wire_len) :: slots =>
    _ ← shaped_record_padding (len message) wire_len;
    total ← ok_or HsBufferAllocation (checked_add USIZE_MAX total wire_len);
    sum_lengths slots total (Z.max largest wire_len)
  end.

(** The same loop when it seals. *)
Fixpoint seal_slots (records : Tls13RecordLayer) (slots : list (list byte * Z)) (wire : list byte)
    : result RealityHandshakeError (list byte * Tls13RecordLayer) :=
  match slots with
  | [] => Ok (wire, records)
  | (message, wire_len) :: slots =>
    '(wire, records) ← seal_shaped_handshake_record records message wire_len wire;
    seal_slots records slots wire
  end.

(** ** The messages and the secrets of one flight *)

Record FlightMessages := {
  fm_encrypted_extensions : list byte; fm_certificate : list byte; fm_certificate_verify : list byte; fm_finished : list byte;
  fm_server_handshake : Tls13RecordLayer; fm_client_handshake : Tls13RecordLayer;
  fm_expected_client_finished : FinishedVerifyData; fm_client_secret : TrafficSecret; fm_server_application : Tls13RecordLayer;
}.

Definition flight_messages (suite : CipherSuite) (shared_secret client_hello server_hello auth_key : list byte)
    (identity : CertificateIdentity) (selected_alpn : option (list byte)) : result RealityHandshakeError FlightMessages :=
  let hasher := update (update (new_hasher (suite_hash suite)) client_hello) server_hello in
  schedule ← from_key_schedule (new_schedule suite shared_secret (snapshot hasher));
  server_keys ← from_key_schedule (derive_traffic_keys (ks_suite schedule) (ks_server_handshake schedule));
  client_keys ← from_key_schedule (derive_traffic_keys (ks_suite schedule) (ks_client_handshake schedule));
  server_handshake ← from_record (new_layer suite server_keys);
  client_handshake ← from_record (new_layer suite client_keys);
  ee ← from_message (encrypted_extensions alloc selected_alpn);
  let hasher := update hasher ee in
  certificate_der ← from_message (forge_certificate identity auth_key);
  certificate ← from_message (certificate_message alloc certificate_der);
  let hasher := update hasher certificate in
  verify ← from_message (certificate_verify alloc identity (hb_as_bytes (snapshot hasher)));
  let hasher := update hasher verify in
  finished_data ← from_key_schedule (finished_verify_data schedule (ks_server_handshake schedule) (snapshot hasher));
  finished ← from_message (finished_message alloc (hb_as_bytes finished_data));
  let hasher := update hasher finished in
  expected ← from_key_schedule (finished_verify_data schedule (ks_client_handshake schedule) (snapshot hasher));
  application ← from_key_schedule (application_traffic_secrets schedule (snapshot hasher));
  server_application ← from_record (from_traffic_secret suite (ap_server application));
  Ok {| fm_encrypted_extensions := ee; fm_certificate := certificate; fm_certificate_verify := verify; fm_finished := finished;
        fm_server_handshake := server_handshake; fm_client_handshake := client_handshake; fm_expected_client_finished := expected;
        fm_client_secret := ap_client application; fm_server_application := server_application |}.

Definition message_list (f : FlightMessages) : list (list byte) :=
  [fm_encrypted_extensions f; fm_certificate f; fm_certificate_verify f; fm_finished f].

(** [(encrypted_wire_len, largest_record_len)]. *)
Definition record_lengths (s : option CoverHandshakeRecordShape) (messages : list (list byte)) (flight_plaintext : list byte)
    : result RealityHandshakeError (Z * Z) :=
  match s with
  | None => n ← unpadded_record_wire_len (len flight_plaintext); Ok (n, n)
  | Some (Coalesced wire_len) => _ ← shaped_record_padding (len flight_plaintext) wire_len; Ok (wire_len, wire_len)
  | Some (PositionalRecords a b c d nst) =>
    '(total, largest) ← sum_lengths (zip messages [a; b; c; d]) 0 0;
    match nst with
    | None => Ok (total, largest)
    | Some n =>
      _ ← shaped_record_padding 0 n;
      total ← ok_or HsBufferAllocation (checked_add USIZE_MAX total n);
      Ok (total, Z.max largest n)
    end
  end.

(** The records after the optional ChangeCipherSpec: the wire and the server's
    application layer, which a fake session ticket moves. *)
Definition seal_flight (s : option CoverHandshakeRecordShape) (handshake application : Tls13RecordLayer)
    (messages : list (list byte)) (flight_plaintext wire : list byte) : result RealityHandshakeError (list byte * Tls13RecordLayer) :=
  match s with
  | None =>
    n ← unpadded_record_wire_len (len flight_plaintext);
    '(wire, _) ← seal_shaped_handshake_record handshake flight_plaintext n wire;
    Ok (wire, application)
  | Some (Coalesced wire_len) =>
    '(wire, _) ← seal_shaped_handshake_record handshake flight_plaintext wire_len wire;
    Ok (wire, application)
  | Some (PositionalRecords a b c d nst) =>
    '(wire, _) ← seal_slots handshake (zip messages [a; b; c; d]) wire;
    match nst with
    | None => Ok (wire, application)
    | Some n =>
      padding_len ← shaped_record_padding 0 n;
      '(scratch, application) ← from_record (seal_into alloc application CtApplicationData [] padding_len);
      guard! negb (len scratch =? n) else HsRecord;
      Ok (wire ++ scratch, application)
    end
  end.

(** ** [ServerFlight] *)

Record ServerFlight := {
  sf_wire : list byte; sf_server_hello_end : Z; sf_encrypted_handshake_start : Z;
  sf_client_handshake_records : Tls13RecordLayer; sf_expected_client_finished : FinishedVerifyData; sf_established : EstablishedTls;
}.

Definition build_server_flight_inner (client : ClientHello) (auth_key : list byte) (target : ServerHelloTemplate)
    (identity : CertificateIdentity) (selected_alpn : option (list byte)) (plan : option CoverHandshakePlan) : F ServerFlight :=
  let selected_alpn := match plan with Some plan => cover_compatible_alpn client selected_alpn plan | None => selected_alpn end in
  return! HsAlpnNotOffered when match selected_alpn with Some p => negb (bool_decide (p ∈ alpn_protocols client)) | None => false end;
  let suite := t_suite target in
  agreement ← agree_key_share client (t_key_share_group target);
  server_hello ← lift (from_server_hello (into_patched_message target (share_as_slice (ka_server_share agreement))));
  initial_capacity ← lift (ok_or HsBufferAllocation
    (n ← checked_add USIZE_MAX (len (raw_message client)) (len server_hello); checked_add USIZE_MAX n 1024));
  return! HsBufferAllocation when negb (alloc initial_capacity);
  f ← lift (flight_messages suite (ka_shared_secret agreement) (raw_message client) server_hello auth_key identity selected_alpn);
  let transcript := raw_message client ++ server_hello in
  let flight_plaintext_start := len transcript in
  let transcript := transcript ++ concat (message_list f) in
  flight_plaintext ← lift (ok_or HsBufferAllocation
    (p ← get_range transcript flight_plaintext_start (len transcript); if len p <=? MAX_FLIGHT_PLAINTEXT then Some p else None));
  let ccs := match plan with Some plan => emit_ccs plan | None => true end in
  let s := shape <$> plan in
  '(encrypted_wire_len, largest_record_len) ← lift (record_lengths s (message_list f) flight_plaintext);
  return! HsBufferAllocation when negb (alloc largest_record_len);
  wire ← lift (from_server_hello (plaintext_handshake_record alloc server_hello));
  let server_hello_end := len wire in
  let change_cipher_spec := if ccs then change_cipher_spec_record else [] in
  remaining ← lift (ok_or HsBufferAllocation (checked_add USIZE_MAX (len change_cipher_spec) encrypted_wire_len));
  return! HsBufferAllocation when negb (alloc remaining);
  let wire := wire ++ change_cipher_spec in
  let encrypted_handshake_start := len wire in
  '(wire, server_application) ← lift (seal_flight s (fm_server_handshake f) (fm_server_application f) (message_list f) flight_plaintext wire);
  client_application ← lift (from_record (from_traffic_secret suite (fm_client_secret f)));
  mret {| sf_wire := wire; sf_server_hello_end := server_hello_end; sf_encrypted_handshake_start := encrypted_handshake_start;
          sf_client_handshake_records := fm_client_handshake f; sf_expected_client_finished := fm_expected_client_finished f;
          sf_established := {| tls_suite := suite; client_records := client_application; server_records := server_application |} |}.

Definition build_server_flight (client : ClientHello) (auth_key : list byte) (target : ServerHelloTemplate)
    (identity : CertificateIdentity) (selected_alpn : option (list byte)) : F ServerFlight :=
  build_server_flight_inner client auth_key target identity selected_alpn None.

Definition build_server_flight_with_shape (client : ClientHello) (auth_key : list byte) (target : ServerHelloTemplate)
    (identity : CertificateIdentity) (selected_alpn : option (list byte)) (plan : CoverHandshakePlan) : F ServerFlight :=
  build_server_flight_inner client auth_key target identity selected_alpn (Some plan).

(** The accessors; the [expect]s panic. *)
Definition server_hello_record (f : ServerFlight) : result RealityHandshakeError (list byte) :=
  match get_range (sf_wire f) 0 (sf_server_hello_end f) with Some b => Ok b | None => Panic end.

Definition flight_change_cipher_spec (f : ServerFlight) : option (list byte) :=
  b ← get_range (sf_wire f) (sf_server_hello_end f) (sf_encrypted_handshake_start f); if len b =? 6 then Some b else None.

Definition encrypted_handshake_records (f : ServerFlight) : result RealityHandshakeError (list byte) :=
  match get_range (sf_wire f) (sf_encrypted_handshake_start f) (len (sf_wire f)) with Some b => Ok b | None => Panic end.

(** ** The client's Finished *)

(** [bytes[0] << 16 | bytes[1] << 8 | bytes[2]] of three bytes. *)
Definition declared_len (bytes : list byte) : Z := from_be bytes.

Definition verify_client_finished (f : ServerFlight) (record : list byte) : result RealityHandshakeError EstablishedTls :=
  '(content_type, message) ← from_record (open_in_place (sf_client_handshake_records f) record).1;
  guard! match content_type with CtHandshake => false | _ => true end else HsClientFinished;
  let expected := hb_as_bytes (sf_expected_client_finished f) in
  declared ← ok_or HsClientFinished (declared_len <$> get_range message 1 4);
  verify_data ← ok_or HsClientFinished (get_range message 4 (len message));
  guard! negb (bool_decide (head message = Some FINISHED_HANDSHAKE_TYPE)) || negb (declared =? len expected) ||
         negb (len verify_data =? declared) || negb (bytes_eqb verify_data expected) else HsClientFinished;
  Ok (sf_established f).

Inductive ClientFinishedReadError :=
| CfTimeout | CfRecord (e : TlsRecordReadError) | CfInvalidChangeCipherSpec | CfUnexpectedRecord | CfVerify (e : RealityHandshakeError).

Definition io_map_err {S E E' A} (f : E -> E') (m : IO S E A) : IO S E' A := fun s => let '(r, s) := m s in (map_err f r, s).
Definition io_lift {S E A} (r : result E A) : IO S E A := fun s => (r, s).

(** [deadline]: whether the absolute deadline can be represented. *)
Definition read_client_finished (env : ReadEnv) (deadline : bool) (f : ServerFlight) : IO Transport ClientFinishedReadError EstablishedTls :=
  _ ← io_check deadline CfTimeout;
  first ← io_map_err CfRecord (read_tls_record env);
  encrypted ← (if bool_decide (outer_content_type first = OUTER_CHANGE_CIPHER_SPEC) then
      _ ← io_check (bytes_eqb first change_cipher_spec_record) CfInvalidChangeCipherSpec;
      io_map_err CfRecord (read_tls_record env)
    else mret first);
  _ ← io_check (bool_decide (outer_content_type encrypted = OUTER_APPLICATION_DATA)) CfUnexpectedRecord;
  io_lift (map_err CfVerify (verify_client_finished f encrypted)).
End ServerFlight.
