(* ===== verification/ClientVerify.v ===== *)
(** * Verifying the server's flight ([src/protocol/reality/client_verify.rs])

    What the client checks of EncryptedExtensions, the certificate bound to its
    REALITY key, CertificateVerify and Finished. The message reader is the list
    of bytes it has not read yet: [read(n)] fails exactly when fewer than [n]
    remain, an overflowing end included. *)

From S2P Require Import Prelude Cursor Crypto TlsMessages.
#[local] Open Scope Z_scope.

Definition ED25519_SCHEME : Z := 2055.
Definition CERTIFICATE_VERIFY_PAD_LEN : nat := 64.
Definition PUBLIC_KEY_OFFSET : Z := 72.
Definition BINDING_OFFSET : Z := 114.
Definition PUBLIC_KEY_LEN : Z := 32.
Definition BINDING_LEN : Z := 64.
Definition CERTIFICATE_DER_LEN : Z := BINDING_OFFSET + BINDING_LEN.
Definition ED25519_SIGNATURE_LEN : Z := 64.

Inductive CertificateError := CeTruncated | CeMalformed (field : string) | CeBinding | CeSignature | CeFinished.

(** ** The reader *)

Notation V := (M (list byte) CertificateError).

(** [reader.read(n).ok_or(e)?]. *)
Definition cv_read (e : CertificateError) (n : Z) : V (list byte) := fun s =>
  if n <=? len s then Ok (take (Z.to_nat n) s, drop (Z.to_nat n) s) else Err e.

Definition cv_read_u8 : V byte :=
  b ← cv_read CeTruncated 1;
  lift (ok_or CeTruncated (head b)).
Definition cv_read_u16 : V Z := b ← cv_read CeTruncated 2; mret (from_be b).
Definition cv_read_u24 : V Z := b ← cv_read CeTruncated 3; mret (from_be b).

Definition cv_is_empty : V bool := s ← get_state; mret (bool_decide (s = [])).

(** The body of one expected message. *)
Definition body (expected_type : byte) (message : list byte) : result CertificateError (list byte) :=
  fst <$>
  (kind ← cv_read_u8;
   return! CeMalformed "handshake type" when negb (bool_decide (kind = expected_type));
   declared ← cv_read_u24;
   rest ← get_state;
   return! CeMalformed "declared length" when negb (declared =? len rest);
   cv_read (CeMalformed "declared length") declared) message.

Definition read_vector (field : string) : V (list byte) :=
  length ← cv_read_u16;
  cv_read (CeMalformed field) length.

Definition read_vector_u24 (field : string) : V (list byte) :=
  length ← cv_read_u24;
  cv_read (CeMalformed field) length.

(** ** EncryptedExtensions *)

(** [while !protocols.is_empty()]; every round reads a byte at least. *)
Fixpoint claimed_loop (fuel : nat) (claimed : option (list byte)) : V (option (list byte)) :=
  done ← cv_is_empty;
  if (done : bool) then mret claimed
  else
    match fuel with
    | O => lift Panic
    | S fuel =>
      length ← cv_read_u8;
      candidate ← cv_read CeTruncated (u8 length);
      return! CeMalformed "alpn protocol" when bool_decide (candidate = []) || bool_decide (is_Some claimed);
      claimed_loop fuel (Some candidate)
    end.

Definition alpn_extension (offered : list (list byte)) (selected : option (list byte)) : V (option (list byte)) :=
  protocols ← read_vector "alpn list";
  '(claimed, _) ← lift (claimed_loop (length protocols) None protocols);
  claimed ← lift (ok_or (CeMalformed "empty alpn") claimed);
  return! CeMalformed "unoffered alpn" when negb (bool_decide (claimed ∈ offered));
  return! CeMalformed "duplicate alpn" when bool_decide (is_Some selected);
  mret (Some claimed).

(** [while !extensions.is_empty()]; every round reads four bytes at least. *)
Fixpoint selected_loop (fuel : nat) (offered : list (list byte)) (seen : list Z) (selected : option (list byte)) : V (option (list byte)) :=
  done ← cv_is_empty;
  if (done : bool) then mret selected
  else
    match fuel with
    | O => lift Panic
    | S fuel =>
      extension_type ← cv_read_u16;
      return! CeMalformed "duplicate extension" when bool_decide (extension_type ∈ seen);
      extension ← read_vector "extension length";
      '(selected, rest) ← lift ((if extension_type =? EXTENSION_ALPN then alpn_extension offered selected else mret selected) extension);
      return! CeMalformed "extension length" when negb (bool_decide (rest = []));
      selected_loop fuel offered (seen ++ [extension_type]) selected
    end.

Definition parse_encrypted_extensions (message : list byte) (offered : list (list byte)) : result CertificateError (option (list byte)) :=
  b ← body HANDSHAKE_ENCRYPTED_EXTENSIONS message;
  '(extensions, rest) ← read_vector "extensions trailing bytes" b;
  guard! negb (bool_decide (rest = [])) else CeMalformed "extensions trailing bytes";
  fst <$> selected_loop (length extensions) offered [] None extensions.

(** ** The certificate *)

Section Verify.
Context {S : SignOps}.

Definition expected_binding (auth_key public_key : list byte) : list byte := hmac_sha512 auth_key public_key.

Definition binding_matches (expected observed : list byte) : bool := (len observed =? len expected) && bytes_eqb expected observed.

Definition read_certificate_entry : V (list byte) :=
  entry ← read_vector_u24 "certificate entry length";
  '(certificate, _) ← lift (
    (der_len ← cv_read_u24;
     certificate ← cv_read (CeMalformed "certificate length") der_len;
     extensions ← cv_read_u16;
     _ ← cv_read (CeMalformed "certificate extensions") extensions;
     e ← cv_is_empty;
     return! CeMalformed "certificate entry trailing bytes" when negb e;
     mret certificate) entry);
  mret certificate.

Definition verify_server_certificate (message auth_key : list byte) : result CertificateError (list byte) :=
  b ← body HANDSHAKE_CERTIFICATE message;
  '(certificate, rest) ← (
    context ← cv_read_u8;
    return! CeMalformed "certificate context" when negb (bool_decide (context = x00));
    read_certificate_entry) b;
  guard! negb (bool_decide (rest = [])) else CeMalformed "certificate trailing bytes";
  guard! negb (len certificate =? CERTIFICATE_DER_LEN) else CeBinding;
  embedded ← ok_or CeBinding (get_range certificate PUBLIC_KEY_OFFSET (PUBLIC_KEY_OFFSET + PUBLIC_KEY_LEN));
  observed ← ok_or CeBinding (get_range certificate BINDING_OFFSET (len certificate));
  guard! negb (binding_matches (expected_binding auth_key embedded) observed) else CeBinding;
  Ok embedded.

(** The structure CertificateVerify signs. *)
Definition signed_content (transcript_hash : list byte) : list byte :=
  replicate CERTIFICATE_VERIFY_PAD_LEN x20 ++ CERTIFICATE_VERIFY_CONTEXT ++ [x00] ++ transcript_hash.

Definition verify_certificate_signature (message public_key transcript_hash : list byte) : result CertificateError unit :=
  guard! negb (len transcript_hash =? 32) && negb (len transcript_hash =? 48) else CeMalformed "transcript hash";
  b ← body HANDSHAKE_CERTIFICATE_VERIFY message;
  '(signature, rest) ← (
    scheme ← cv_read_u16;
    return! CeMalformed "signature scheme" when negb (scheme =? ED25519_SCHEME);
    read_vector "certificate verify trailing bytes") b;
  guard! negb (bool_decide (rest = [])) else CeMalformed "certificate verify trailing bytes";
  guard! negb (len signature =? ED25519_SIGNATURE_LEN) else CeSignature;
  verifying ← ok_or CeSignature (verifying_from_bytes public_key);
  if verify_strict verifying (signed_content transcript_hash) signature then Ok tt else Err CeSignature.

Definition verify_finished (message expected : list byte) : result CertificateError unit :=
  b ← body HANDSHAKE_FINISHED message;
  guard! negb (len b =? len expected) else CeFinished;
  if bytes_eqb b expected then Ok tt else Err CeFinished.
End Verify.

(** ** Running the reader *)

Lemma m_bind_ok {St E A B} (m : M St E A) (f : A -> M St E B) s v :
  (m ≫= f) s = Ok v <-> exists a s', m s = Ok (a, s') /\ f a s' = Ok v.
Proof. unfold mbind, M_bind. destruct (m s) as [[a s']|e|]; naive_solver. Qed.

Lemma m_guard_ok {St E A} b (e : E) (k : M St E A) s v :
  (u ← return_if b e; k) s = Ok v <-> b = false /\ k s = Ok v.
Proof. unfold return_if, lift, reject_if, mbind, M_bind. destruct b; naive_solver. Qed.

Lemma m_lift_ok {St E A} (r : result E A) (s : St) a s' : lift r s = Ok (a, s') <-> r = Ok a /\ s' = s.
Proof. unfold lift. destruct r; naive_solver. Qed.

Lemma fst_ok {E A St} (m : result E (A * St)) a : fst <$> m = Ok a <-> exists s, m = Ok (a, s).
Proof. destruct m as [[x s]|e|]; cbn; naive_solver. Qed.

Lemma cv_read_ok e n s b s' : 0 <= n -> cv_read e n s = Ok (b, s') <-> s = b ++ s' /\ len b = n.
Proof.
  intros Hn. unfold cv_read. destruct (Z.leb_spec n (len s)) as [H|H].
  - split.
    + intros [= <- <-]. split; [by rewrite take_drop|]. unfold len in *. rewrite length_take. lia.
    + intros [-> Hb]. unfold len in *. by rewrite take_app_length', drop_app_length' by lia.
  - split; [done|]. intros [-> Hb]. rewrite len_app in H. pose proof (len_nonneg s'). lia.
Qed.

Lemma cv_u8_ok s b s' : cv_read_u8 s = Ok (b, s') <-> s = b :: s'.
Proof.
  unfold cv_read_u8. rewrite m_bind_ok. setoid_rewrite cv_read_ok; [|done]. setoid_rewrite m_lift_ok. setoid_rewrite ok_or_ok. split.
  - intros (l & s1 & [-> Hl] & Hh & ->). destruct l as [|x [|y l]]; [done| |unfold len in Hl; cbn in Hl; lia]. by injection Hh as ->.
  - intros ->. by exists [b], s'.
Qed.

Lemma cv_word_ok n s v s' :
  (b ← cv_read CeTruncated (Z.of_nat n); mret (from_be b)) s = Ok (v, s') <-> s = to_be n v ++ s' /\ 0 <= v < 256 ^ Z.of_nat n.
Proof.
  rewrite m_bind_ok. setoid_rewrite cv_read_ok; [|lia]. split.
  - intros (b & s1 & [-> Hl] & [= <- <-]). split; [|by apply from_be_range_n]. f_equal. symmetry. apply to_be_from_be. unfold len in Hl. lia.
  - intros [-> Hv]. exists (to_be n v), s'. split; [split; [done|slen]|]. cbn. by rewrite from_be_to_be.
Qed.

Lemma cv_u16_ok s v s' : cv_read_u16 s = Ok (v, s') <-> s = to_be 2 v ++ s' /\ 0 <= v < 65536.
Proof. exact (cv_word_ok 2 s v s'). Qed.
Lemma cv_u24_ok s v s' : cv_read_u24 s = Ok (v, s') <-> s = to_be 3 v ++ s' /\ 0 <= v < 16777216.
Proof. exact (cv_word_ok 3 s v s'). Qed.

Lemma cv_empty_ok s e s' : cv_is_empty s = Ok (e, s') <-> s' = s /\ e = bool_decide (s = []).
Proof. unfold cv_is_empty, get_state, mbind, M_bind, mret, M_ret. naive_solver. Qed.

Lemma read_vector_ok f s b s' : read_vector f s = Ok (b, s') <-> s = to_be 2 (len b) ++ b ++ s' /\ len b < 65536.
Proof.
  unfold read_vector. rewrite m_bind_ok. split.
  - intros (n & s1 & [-> Hn]%cv_u16_ok & [-> <-]%cv_read_ok); [|lia]. split; [done|lia].
  - intros [-> Hb]. pose proof (len_nonneg b). exists (len b), (b ++ s'). split; [apply cv_u16_ok; split; [done|lia]|by apply cv_read_ok].
Qed.

Lemma read_vector_u24_ok f s b s' : read_vector_u24 f s = Ok (b, s') <-> s = to_be 3 (len b) ++ b ++ s' /\ len b < 16777216.
Proof.
  unfold read_vector_u24. rewrite m_bind_ok. split.
  - intros (n & s1 & [-> Hn]%cv_u24_ok & [-> <-]%cv_read_ok); [|lia]. split; [done|lia].
  - intros [-> Hb]. pose proof (len_nonneg b). exists (len b), (b ++ s'). split; [apply cv_u24_ok; split; [done|lia]|by apply cv_read_ok].
Qed.

(** ** Handshake messages *)

(** One framed message: type, 24-bit length, body. *)
Definition framed (t : byte) (b : list byte) : list byte := t :: to_be 3 (len b) ++ b.

Lemma body_ok t m b : body t m = Ok b <-> m = framed t b /\ len b < 16777216.
Proof.
  unfold body. rewrite fst_ok. setoid_rewrite m_bind_ok. split.
  - intros (s & k & s1 & ->%cv_u8_ok & H). apply m_guard_ok in H as [->%negb_false_iff%bool_decide_eq_true H]. apply m_bind_ok in H as (n & s2 & [-> Hn]%cv_u24_ok & H).
    apply m_bind_ok in H as (r & s3 & [= <- <-] & H). apply m_guard_ok in H as [Hd%negb_false_iff%Z.eqb_eq H].
    apply cv_read_ok in H as [-> Hb]; [|lia]. rewrite len_app in Hd. assert (s = []) as -> by (apply length_zero_iff_nil; unfold len in *; lia).
    rewrite app_nil_r. unfold framed. rewrite Hb. split; [done|lia].
  - intros [-> Hb]. pose proof (len_nonneg b). exists [], t, (to_be 3 (len b) ++ b). split; [by apply cv_u8_ok|].
    apply m_guard_ok. split; [by rewrite bool_decide_true|]. apply m_bind_ok. exists (len b), b. split; [apply cv_u24_ok; split; [done|lia]|].
    apply m_bind_ok. exists b, b. split; [done|]. apply m_guard_ok. rewrite Z.eqb_refl. split; [done|].
    apply cv_read_ok; [lia|]. by rewrite app_nil_r.
Qed.

Lemma verify_finished_exact m expected :
  verify_finished m expected = Ok tt <-> m = framed HANDSHAKE_FINISHED expected /\ len expected < 16777216.
Proof.
  unfold verify_finished. rewrite bind_ok. setoid_rewrite body_ok. split.
  - intros (b & [-> Hb] & H). apply bind_ok in H as (u & _ & H). destruct (bytes_eqb b expected) eqn:E; [|done]. apply bytes_eqb_eq in E as ->. done.
  - intros [-> He]. exists expected. split; [done|]. rewrite guard_pass by (by rewrite Z.eqb_refl). by rewrite bytes_eqb_refl.
Qed.

(** ** The certificate *)

Definition certificate_entry (der exts : list byte) : list byte := to_be 3 (len der) ++ der ++ to_be 2 (len exts) ++ exts.
Definition certificate_body (der exts : list byte) : list byte :=
  [x00] ++ to_be 3 (len (certificate_entry der exts)) ++ certificate_entry der exts.

Section Exact.
Context {SO : SignOps} {SL : SignLaws SO}.

(** A certificate bound to an authentication key: the embedded Ed25519 key and
    its MAC under that key, at their fixed places. *)
Definition bound_certificate (auth_key der public_key : list byte) : Prop :=
  len der = CERTIFICATE_DER_LEN /\ get_range der PUBLIC_KEY_OFFSET (PUBLIC_KEY_OFFSET + PUBLIC_KEY_LEN) = Some public_key /\
  get_range der BINDING_OFFSET CERTIFICATE_DER_LEN = Some (hmac_sha512 auth_key public_key).

Lemma entry_ok s der s' :
  read_certificate_entry s = Ok (der, s') <->
  exists exts, s = to_be 3 (len (certificate_entry der exts)) ++ certificate_entry der exts ++ s' /\
    len (certificate_entry der exts) < 16777216 /\ len exts < 65536.
Proof.
  unfold read_certificate_entry. rewrite m_bind_ok. split.
  - intros (e & s1 & [-> He]%read_vector_u24_ok & H). apply m_bind_ok in H as ([d r] & s2 & [H ->]%m_lift_ok & [= -> ->]).
    apply m_bind_ok in H as (n & s3 & [-> Hn]%cv_u24_ok & H). apply m_bind_ok in H as (d & s4 & [-> <-]%cv_read_ok & H); [|lia].
    apply m_bind_ok in H as (x & s5 & [-> Hx]%cv_u16_ok & H). apply m_bind_ok in H as (ex & s6 & [-> <-]%cv_read_ok & H); [|lia].
    apply m_bind_ok in H as (b & s7 & [-> ->]%cv_empty_ok & H). apply m_guard_ok in H as [->%negb_false_iff%bool_decide_eq_true [= <- <-]].
    rewrite app_nil_r in *. exists ex. split; [done|]. split; [exact He|lia].
  - intros (exts & -> & He & Hx). pose proof (len_nonneg exts). pose proof (len_nonneg der).
    exists (certificate_entry der exts), s'. split; [by apply read_vector_u24_ok|].
    apply m_bind_ok. exists (der, []), s'. split; [|done]. apply m_lift_ok. split; [|done].
    assert (Hd : len der < 16777216) by (unfold certificate_entry in He; rewrite !len_app in He; pose proof (len_nonneg (to_be 3 (len der))); pose proof (len_nonneg (to_be 2 (len exts))); lia).
    apply m_bind_ok. exists (len der), (der ++ to_be 2 (len exts) ++ exts). split; [apply cv_u24_ok; split; [done|lia]|].
    apply m_bind_ok. exists der, (to_be 2 (len exts) ++ exts). split; [by apply cv_read_ok|].
    apply m_bind_ok. exists (len exts), exts. split; [apply cv_u16_ok; split; [done|lia]|].
    apply m_bind_ok. exists exts, []. split; [apply cv_read_ok; [lia|by rewrite app_nil_r]|].
    apply m_bind_ok. exists true, []. split; [by apply cv_empty_ok|]. by apply m_guard_ok.
Qed.

Lemma certificate_exact m auth_key public_key :
  verify_server_certificate m auth_key = Ok public_key <->
  exists der exts, m = framed HANDSHAKE_CERTIFICATE (certificate_body der exts) /\ len (certificate_body der exts) < 16777216 /\
    len exts < 65536 /\ bound_certificate auth_key der public_key.
Proof.
  unfold verify_server_certificate. rewrite bind_ok. setoid_rewrite body_ok. split.
  - intros (b & [-> Hb] & H). apply bind_ok in H as ([der rest] & Hr & H). apply m_bind_ok in Hr as (c & s1 & ->%cv_u8_ok & Hr).
    apply m_guard_ok in Hr as [->%negb_false_iff%bool_decide_eq_true (exts & -> & He & Hx)%entry_ok].
    apply bind_ok in H as (u & ->%reject_ok%negb_false_iff%bool_decide_eq_true & H). rewrite app_nil_r in *.
    apply bind_ok in H as (u1 & Hl%reject_ok%negb_false_iff%Z.eqb_eq & H). apply bind_ok in H as (pk & Hpk%ok_or_ok & H).
    apply bind_ok in H as (obs & Hobs%ok_or_ok & H). apply bind_ok in H as (u2 & Hm%reject_ok%negb_false_iff & [= ->]).
    apply andb_true_iff in Hm as [_ <-%bytes_eqb_eq]. rewrite Hl in Hobs. exists der, exts. by split_and!.
  - intros (der & exts & -> & Hb & Hx & Hl & Hpk & Hobs). exists (certificate_body der exts). split; [done|].
    rewrite (bind_step _ (der, [])).
    2: { apply m_bind_ok. eexists x00, _. split; [by apply cv_u8_ok|]. apply m_guard_ok. split; [done|]. apply entry_ok. exists exts.
         rewrite app_nil_r. split; [done|]. unfold certificate_body in Hb. rewrite !len_app in Hb. change (len [x00]) with 1 in Hb.
         rewrite len_to_be in Hb. split; [lia|done]. }
    rewrite guard_pass by (by rewrite bool_decide_true). rewrite guard_pass by (by rewrite Hl, Z.eqb_refl).
    rewrite (bind_step _ public_key) by (by apply ok_or_ok). rewrite Hl, (bind_step _ (hmac_sha512 auth_key public_key)) by (by apply ok_or_ok).
    rewrite guard_pass; [done|]. unfold binding_matches, expected_binding. by rewrite Z.eqb_refl, bytes_eqb_refl.
Qed.

(** ** CertificateVerify *)

Definition signature_body (signature : list byte) : list byte := to_be 2 ED25519_SCHEME ++ to_be 2 (len signature) ++ signature.

Lemma signature_exact m public_key hash :
  verify_certificate_signature m public_key hash = Ok tt <->
  (len hash = 32 \/ len hash = 48) /\
  exists signature v, m = framed HANDSHAKE_CERTIFICATE_VERIFY (signature_body signature) /\ len signature = ED25519_SIGNATURE_LEN /\
    verifying_from_bytes public_key = Some v /\ verify_strict v (signed_content hash) signature = true.
Proof.
  unfold verify_certificate_signature. rewrite bind_ok. setoid_rewrite reject_ok. split.
  - intros (u & Hh & H). apply bind_ok in H as (b & [-> Hb]%body_ok & H). apply bind_ok in H as ([sg rest] & Hr & H).
    apply m_bind_ok in Hr as (sc & s1 & [-> Hs]%cv_u16_ok & Hr). apply m_guard_ok in Hr as [->%negb_false_iff%Z.eqb_eq [-> Hl]%read_vector_ok].
    apply bind_ok in H as (u1 & ->%reject_ok%negb_false_iff%bool_decide_eq_true & H). rewrite app_nil_r in *.
    apply bind_ok in H as (u2 & Hlen%reject_ok%negb_false_iff%Z.eqb_eq & H). apply bind_ok in H as (v & Hv%ok_or_ok & H).
    destruct (verify_strict v _ sg) eqn:Ev; [|done]. split; [|by exists sg, v].
    apply andb_false_iff in Hh as [H1|H1]; apply negb_false_iff, Z.eqb_eq in H1; auto.
  - intros (Hh & sg & v & -> & Hl & Hv & Hs). exists tt. split.
    { apply andb_false_iff. rewrite !negb_false_iff, !Z.eqb_eq. done. }
    unfold ED25519_SIGNATURE_LEN in Hl. rewrite (bind_step _ (signature_body sg)).
    2: { apply body_ok. split; [done|]. unfold signature_body. rewrite !len_app, !len_to_be. lia. }
    rewrite (bind_step _ (sg, [])).
    2: { apply m_bind_ok. exists ED25519_SCHEME, (to_be 2 (len sg) ++ sg). split; [by apply cv_u16_ok|]. apply m_guard_ok. split; [done|].
         apply read_vector_ok. rewrite app_nil_r. split; [done|lia]. }
    rewrite guard_pass by (by rewrite bool_decide_true). rewrite guard_pass by (by rewrite Hl).
    rewrite (bind_step _ v) by (by apply ok_or_ok). by rewrite Hs.
Qed.
End Exact.

(** ** EncryptedExtensions *)

Definition alpn_body (protocol : list byte) : list byte := to_be 2 (len protocol + 1) ++ [as_u8 (len protocol)] ++ protocol.

Lemma claimed_one fuel p : 1 <= len p <= 255 -> (1 <= fuel)%nat ->
  claimed_loop fuel None ([as_u8 (len p)] ++ p) = Ok (Some p, []).
Proof.
  intros Hp Hf. destruct fuel as [|fuel]; [lia|]. cbn [claimed_loop]. apply m_bind_ok. exists false, ([as_u8 (len p)] ++ p).
  split; [by apply cv_empty_ok|]. apply m_bind_ok. exists (as_u8 (len p)), p. split; [by apply cv_u8_ok|].
  rewrite u8_as_u8_small by (unfold U8_MAX; lia). apply m_bind_ok. exists p, []. split; [apply cv_read_ok; [lia|by rewrite app_nil_r]|].
  apply m_guard_ok. split.
  { rewrite bool_decide_false, bool_decide_false; [done|by intros [? ?]|]. intros ->. change (len []) with 0 in Hp. lia. }
  destruct fuel; cbn [claimed_loop]; apply m_bind_ok; exists true, []; by split; [apply cv_empty_ok|].
Qed.

Lemma alpn_extension_one offered p : 1 <= len p <= 255 -> p ∈ offered -> alpn_extension offered None (alpn_body p) = Ok (Some p, []).
Proof.
  intros Hp Ho. unfold alpn_extension. apply m_bind_ok. exists ([as_u8 (len p)] ++ p), []. split.
  { apply read_vector_ok. rewrite app_nil_r, len_app. change (len [as_u8 (len p)]) with 1. rewrite (Z.add_comm 1). split; [done|lia]. }
  apply m_bind_ok. exists (Some p, []), []. split; [apply m_lift_ok; split; [|done]; apply claimed_one; [done|rewrite length_app; cbn; lia]|].
  apply m_bind_ok. exists p, []. split; [by apply m_lift_ok|]. apply m_guard_ok. split; [by rewrite bool_decide_true|].
  apply m_guard_ok. by split.
Qed.

(** The two forms the server sends. *)
Lemma extensions_none offered : parse_encrypted_extensions (framed HANDSHAKE_ENCRYPTED_EXTENSIONS [x00; x00]) offered = Ok None.
Proof. done. Qed.

Lemma extensions_alpn offered p : 1 <= len p <= 255 -> p ∈ offered ->
  let exts := to_be 2 EXTENSION_ALPN ++ to_be 2 (len (alpn_body p)) ++ alpn_body p in
  parse_encrypted_extensions (framed HANDSHAKE_ENCRYPTED_EXTENSIONS (to_be 2 (len exts) ++ exts)) offered = Ok (Some p).
Proof.
  intros Hp Ho exts. assert (Hb : len (alpn_body p) = len p + 3) by (unfold alpn_body; rewrite !len_app, len_to_be; change (len [_]) with 1; lia).
  assert (He : len exts = len p + 7) by (unfold exts; rewrite !len_app, !len_to_be; lia).
  unfold parse_encrypted_extensions. rewrite (bind_step _ (to_be 2 (len exts) ++ exts)).
  2: { apply body_ok. split; [done|]. rewrite len_app, len_to_be. lia. }
  rewrite (bind_step _ (exts, [])) by (apply read_vector_ok; rewrite app_nil_r; split; [done|lia]).
  rewrite guard_pass by (by rewrite bool_decide_true). apply fst_ok. exists [].
  destruct (length exts) as [|fuel] eqn:El; [unfold len in He; lia|]. cbn [selected_loop]. apply m_bind_ok. exists false, exts.
  split; [apply cv_empty_ok; by rewrite bool_decide_false by (intros E; by rewrite E in El)|].
  apply m_bind_ok. exists EXTENSION_ALPN, (to_be 2 (len (alpn_body p)) ++ alpn_body p). split; [by apply cv_u16_ok|].
  apply m_guard_ok. split; [by rewrite bool_decide_false by (by intros ?%elem_of_nil)|].
  apply m_bind_ok. exists (alpn_body p), []. split; [apply read_vector_ok; rewrite app_nil_r; split; [done|lia]|].
  apply m_bind_ok. exists (Some p, []), []. split; [apply m_lift_ok; split; [by apply alpn_extension_one|done]|].
  apply m_guard_ok. split; [done|]. destruct fuel; cbn [selected_loop]; apply m_bind_ok; exists true, []; by split; [apply cv_empty_ok|].
Qed.
