(* ===== verification/ClientHandshake.v ===== *)
(** * The client's handshake ([src/protocol/reality/client_handshake.rs])

    [complete]: from the ServerHello record to the application traffic state,
    over a byte stream the environment cuts and ends as it likes. The bytes sent
    are part of the state and stay sent when a later step fails. *)

From S2P Require Import Prelude Cursor Effects Crypto ClientHello RealityAuth ClientOffer Tls13Keys HandoffBlob Tls13Record TlsReader TlsMessages ServerHello RecordRead ServerFlight ClientVerify.
#[local] Open Scope Z_scope.

Definition OUTER_HANDSHAKE : byte := x16.
Definition OUTER_ALERT : byte := x15.
Definition RECORD_HEADER_LEN : Z := 5.
Definition MAX_HANDSHAKE_BUFFER : Z := 64 * 1024.

Inductive ClientHandshakeError :=
| ChsServerHello (e : ServerHelloError) | ChsKeyAgreement | ChsCertificate (e : CertificateError) | ChsKeySchedule | ChsRecord (e : Tls13RecordError)
| ChsMessage | ChsProtocol (what : string) | ChsUnexpectedEof | ChsTimeout | ChsIo | ChsBufferAllocation.

(** [From<TlsRecordReadError>]. *)
Definition from_record_read (e : TlsRecordReadError) : ClientHandshakeError :=
  match read_kind e with
  | RkTimeout => ChsTimeout
  | RkUnexpectedEof => ChsUnexpectedEof
  | RkIo => ChsIo
  | RkRecordTooLarge => ChsProtocol "record length"
  end.

(** What a failed write reports: the peer is gone, or another error. *)
Inductive WriteFailure := WfPeerGone | WfOther.
Definition socket_failure (f : WriteFailure) : ClientHandshakeError :=
  match f with WfPeerGone => ChsUnexpectedEof | WfOther => ChsIo end.

(** The socket: whether a write fails, after how many bytes, and the flush. *)
Record WriteEnv := { write_cut : option (nat * WriteFailure); flush_cut : option WriteFailure }.

Record ClientIo := { ci_in : Transport; ci_out : list byte }.

Definition on_read {E A} (m : IO Transport E A) : IO ClientIo E A := fun st =>
  let '(r, t) := m (ci_in st) in (r, {| ci_in := t; ci_out := ci_out st |}).

Definition write_all (wenv : WriteEnv) (bytes : list byte) : IO ClientIo ClientHandshakeError unit := fun st =>
  match write_cut wenv with
  | None => (Ok tt, {| ci_in := ci_in st; ci_out := ci_out st ++ bytes |})
  | Some (n, f) => (Err (socket_failure f), {| ci_in := ci_in st; ci_out := ci_out st ++ take n bytes |})
  end.

Definition flush (wenv : WriteEnv) : IO ClientIo ClientHandshakeError unit :=
  match flush_cut wenv with None => mret tt | Some f => io_throw (socket_failure f) end.

(** ** [MessageBuffer]: the bytes of messages not taken yet *)

Section Handshake.
Context {C : CryptoOps} {K : KemOps} {T : Tls13Ops} {SO : SignOps} (alloc : Z -> bool) (env : ReadEnv) (wenv : WriteEnv).

Definition push_message (bytes plaintext : list byte) : result ClientHandshakeError (list byte) :=
  _ ← ok_or ChsBufferAllocation (n ← checked_add USIZE_MAX (len bytes) (len plaintext); if n <=? MAX_HANDSHAKE_BUFFER then Some n else None);
  guard! negb (alloc (len plaintext)) else ChsBufferAllocation;
  Ok (bytes ++ plaintext).

Definition take_message (bytes : list byte) : result ClientHandshakeError (option (list byte) * list byte) :=
  if len bytes <? 4 then Ok (None, bytes)
  else
    n ← slice bytes 1 4;
    total ← ok_or (ChsProtocol "handshake length") (checked_add USIZE_MAX (from_be n) 4);
    if len bytes <? total then Ok (None, bytes)
    else Ok (Some (take (Z.to_nat total) bytes), drop (Z.to_nat total) bytes).

(** ** Reading the flight *)

Definition read_server_hello (client : ClientHello) : IO Transport ClientHandshakeError ServerHelloTemplate :=
  wire ← io_map_err from_record_read (read_tls_record env);
  _ ← io_check (bool_decide (outer_content_type wire = OUTER_HANDSHAKE)) (ChsProtocol "server hello was not a plaintext handshake record");
  b ← io_lift (ok_or (ChsProtocol "server hello record") (get_range wire RECORD_HEADER_LEN (len wire)));
  io_lift (map_err ChsServerHello (parse_server_hello b client)).

(** The message, and the record layer and the buffer after it. Each round that
    goes on consumes a record. *)
Fixpoint next_message_loop (fuel : nat) (records : Tls13RecordLayer) (flight : list byte)
    : IO Transport ClientHandshakeError (list byte * Tls13RecordLayer * list byte) :=
  '(taken, flight) ← io_lift (take_message flight);
  match taken with
  | Some message => mret (message, records, flight)
  | None =>
    match fuel with
    | O => io_lift Panic
    | S fuel =>
      wire ← io_map_err from_record_read (read_tls_record env);
      let outer := outer_content_type wire in
      if bool_decide (outer = OUTER_CHANGE_CIPHER_SPEC) then
        _ ← io_check (bytes_eqb wire change_cipher_spec_record) (ChsProtocol "invalid change cipher spec record");
        next_message_loop fuel records flight
      else if bool_decide (outer = OUTER_APPLICATION_DATA) then
        let '(opened, records) := open_in_place records wire in
        '(content_type, plaintext) ← io_lift (map_err (fun _ => ChsCertificate CeBinding) opened);
        _ ← io_check (match content_type with CtHandshake => true | _ => false end) (ChsProtocol "encrypted record was not a handshake message");
        flight ← io_lift (push_message flight plaintext);
        next_message_loop fuel records flight
      else if bool_decide (outer = OUTER_ALERT) then io_throw (ChsProtocol "peer sent a plaintext alert")
      else io_throw (ChsProtocol "unexpected record before server finished")
    end
  end.

Definition next_message (records : Tls13RecordLayer) (flight : list byte)
    : IO Transport ClientHandshakeError (list byte * Tls13RecordLayer * list byte) :=
  io_reads (fun t => next_message_loop (S (length (tp_stream t))) records flight).

(** ** [complete] *)

Record Negotiated := { n_suite : CipherSuite; n_alpn : option (list byte); n_key_share_group : Z }.
Record ClientSession := { session_negotiated : Negotiated; session_write : Tls13RecordLayer; session_read : Tls13RecordLayer }.

Definition shared_as_bytes (s : TlsSharedSecret) : list byte := match s with SX25519 b | SP256 b | SHybrid b => b end.

Definition schedule_or {A} (r : result Tls13KeyScheduleError A) : IO ClientIo ClientHandshakeError A := io_lift (map_err (fun _ => ChsKeySchedule) r).
Definition record_or {A} (r : result Tls13RecordError A) : IO ClientIo ClientHandshakeError A := io_lift (map_err ChsRecord r).
Definition certificate_or {A} (r : result CertificateError A) : IO ClientIo ClientHandshakeError A := io_lift (map_err ChsCertificate r).

(** The end: the client's Finished is sealed and sent, and the application
    layers are made. *)
Definition finish_handshake (suite : CipherSuite) (schedule : Tls13KeySchedule) (through_server_finished : TranscriptHash)
    (alpn : option (list byte)) (group : Z) : IO ClientIo ClientHandshakeError ClientSession :=
  client_keys ← schedule_or (derive_traffic_keys (ks_suite schedule) (ks_client_handshake schedule));
  client_records ← record_or (new_layer suite client_keys);
  client_finished ← schedule_or (finished_verify_data schedule (ks_client_handshake schedule) through_server_finished);
  finished ← io_lift (map_err (fun _ => ChsMessage) (finished_message alloc (hb_as_bytes client_finished)));
  _ ← io_check (alloc (len change_cipher_spec_record + RECORD_HEADER_LEN + len finished + 64)) ChsBufferAllocation;
  '(sealed, _) ← record_or (seal_into alloc client_records CtHandshake finished 0);
  _ ← write_all wenv (change_cipher_spec_record ++ sealed);
  _ ← flush wenv;
  application ← schedule_or (application_traffic_secrets schedule through_server_finished);
  write ← record_or (from_traffic_secret suite (ap_client application));
  read ← record_or (from_traffic_secret suite (ap_server application));
  mret {| session_negotiated := {| n_suite := suite; n_alpn := alpn; n_key_share_group := group |}; session_write := write; session_read := read |}.

(** The four encrypted messages, verified as they come: what the transcript holds
    after them and the protocol selected. *)
Definition verify_flight (schedule : Tls13KeySchedule) (records : Tls13RecordLayer) (hasher : TranscriptHasher) (auth_key : list byte)
    (offered_alpn : list (list byte)) : IO ClientIo ClientHandshakeError (TranscriptHasher * option (list byte)) :=
  '(ee, records, flight) ← on_read (next_message records []);
  alpn ← certificate_or (parse_encrypted_extensions ee offered_alpn);
  let hasher := update hasher ee in
  '(certificate, records, flight) ← on_read (next_message records flight);
  certificate_key ← certificate_or (verify_server_certificate certificate auth_key);
  let hasher := update hasher certificate in
  '(verify, records, flight) ← on_read (next_message records flight);
  _ ← certificate_or (verify_certificate_signature verify certificate_key (hb_as_bytes (snapshot hasher)));
  let hasher := update hasher verify in
  '(finished, _, _) ← on_read (next_message records flight);
  expected ← schedule_or (finished_verify_data schedule (ks_server_handshake schedule) (snapshot hasher));
  _ ← certificate_or (verify_finished finished (hb_as_bytes expected));
  mret (update hasher finished, alpn).

Definition complete (hello : HelloRecord) (keys : ClientKeyAgreement) (auth_key : list byte) (offered_alpn : list (list byte))
    : IO ClientIo ClientHandshakeError ClientSession :=
  client ← io_lift (map_err (fun _ => ChsProtocol "client hello parse") (parse_message (hr_message hello)));
  _ ← io_check (alloc (RECORD_HEADER_LEN + 16 * 1024)) ChsBufferAllocation;
  server_hello ← on_read (read_server_hello client);
  exchange ← io_lift (ok_or ChsKeyAgreement (observed_key_exchange server_hello));
  shared ← io_lift (ok_or ChsKeyAgreement (tls_shared_secret keys (t_key_share_group server_hello) exchange));
  let suite := t_suite server_hello in
  let hasher := update (update (new_hasher (suite_hash suite)) (hr_message hello)) (t_message server_hello) in
  schedule ← schedule_or (new_schedule suite (shared_as_bytes shared) (snapshot hasher));
  server_keys ← schedule_or (derive_traffic_keys (ks_suite schedule) (ks_server_handshake schedule));
  server_records ← record_or (new_layer suite server_keys);
  '(hasher, alpn) ← verify_flight schedule server_records hasher auth_key offered_alpn;
  finish_handshake suite schedule (snapshot hasher) alpn (t_key_share_group server_hello).

(** Directional KeyUpdates of an established session. *)
Definition session_update_write (s : ClientSession) : result Tls13RecordError ClientSession :=
  l ← update_traffic_secret (session_write s);
  Ok {| session_negotiated := session_negotiated s; session_write := l; session_read := session_read s |}.

Definition session_update_read (s : ClientSession) : result Tls13RecordError ClientSession :=
  l ← update_traffic_secret (session_read s);
  Ok {| session_negotiated := session_negotiated s; session_write := session_write s; session_read := l |}.
End Handshake.
