(* ===== verification/HandshakeAgree.v ===== *)
(** * Both ends of the REALITY handshake

    The flight a server builds for a hello, read by the client that sent the
    hello, and the client's Finished read by the server: they agree on the
    application traffic state, whatever the shape of the records and however the
    transports cut the streams. Conversely, what a client or a server that
    finished has checked. *)

From S2P Require Import Prelude Cursor Effects Crypto ClientHello HelloExact RealityAuth ClientOffer RealityAgree Tls13Keys HandoffBlob Tls13Record TlsReader TlsMessages ServerHello ServerHelloExact RecordRead ServerFlight ClientVerify ClientHandshake.
#[local] Open Scope Z_scope.

(** ** The server's messages *)

Lemma push_u24_ok v b : 0 <= v -> push_u24 v = Ok b -> b = to_be 3 v /\ v < 16777216.
Proof.
  intros Hv H. unfold push_u24, MAX_HANDSHAKE_BODY_LEN in H. apply bind_ok in H as (u & Hm%reject_ok%Z.ltb_ge & H).
  apply bind_ok in H as (w & [-> Hw]%ok_or_ok%try_from_some & [= <-]). split; [|lia].
  cbn [to_be app drop]. replace (v / 256 / 256 / 256) with 0; [|rewrite !Z.div_div by lia; symmetry; apply Z.div_small; lia]. done.
Qed.

Section Messages.
Context (alloc : Z -> bool) {SO : SignOps} {SL : SignLaws SO}.

Lemma handshake_encode_ok t b m : encode_handshake alloc t b = Ok m -> m = framed t b /\ len b < 16777216.
Proof.
  unfold encode_handshake. intros H. apply bind_ok in H as (u & _ & H). apply bind_ok in H as (c & _ & H). apply bind_ok in H as (u1 & _ & H).
  apply bind_ok in H as (e & [-> Hl]%push_u24_ok & [= <-]); [|apply len_nonneg]. done.
Qed.

Lemma ee_ok sel m offered :
  encrypted_extensions alloc sel = Ok m -> (forall p, sel = Some p -> p ∈ offered) ->
  parse_encrypted_extensions m offered = Ok sel /\ exists b, m = framed HANDSHAKE_ENCRYPTED_EXTENSIONS b /\ len b < 16777216.
Proof.
  intros H Ho. destruct sel as [p|]; cbn [encrypted_extensions] in H.
  - apply bind_ok in H as (n & Hn%ok_or_ok & H). destruct (try_from U8_MAX (len p)) as [x|] eqn:E; [|done]. apply try_from_some in E as [-> Hx].
    cbn in Hn. destruct (Z.eqb_spec (len p) 0); [done|]. injection Hn as <-. unfold U8_MAX in Hx.
    apply bind_ok in H as (u & _ & H). apply bind_ok in H as (a & [-> _]%ok_or_ok%try_from_some & H). apply bind_ok in H as (b & [-> _]%ok_or_ok%try_from_some & H).
    apply bind_ok in H as (c & [-> _]%ok_or_ok%try_from_some & [-> Hl]%handshake_encode_ok).
    pose proof (extensions_alpn offered p ltac:(lia) (Ho p eq_refl)) as Hp. cbv zeta in Hp.
    assert (Hb : len (alpn_body p) = len p + 1 + 2) by (unfold alpn_body; rewrite !len_app, len_to_be; change (len [_]) with 1; lia).
    assert (He : len (to_be 2 EXTENSION_ALPN ++ to_be 2 (len (alpn_body p)) ++ alpn_body p) = len p + 1 + 2 + 4) by (rewrite !len_app, !len_to_be; lia).
    rewrite He, Hb in Hp. split; [exact Hp|]. by eexists.
  - apply handshake_encode_ok in H as [-> Hl]. split; [apply extensions_none|]. by eexists.
Qed.

Lemma forge_ok i key der : forge_certificate i key = Ok der -> bound_certificate key der (verifying_bytes (signing_key i)).
Proof.
  intros H. unfold forge_certificate in H. set (pk := verifying_bytes (signing_key i)) in *.
  assert (Hpk : len pk = 32) by apply verifying_bytes_len. pose proof (hmac_sha512_len key pk) as Hm. set (mac := hmac_sha512 key pk) in *.
  assert (Ht : exists a o m1 m2, CERTIFICATE_TEMPLATE = a ++ o ++ m1 ++ m2 /\ len a = 72 /\ len o = 32 /\ len m1 = 10 /\ len m2 = 64).
  { exists (take 72 CERTIFICATE_TEMPLATE), (take 32 (drop 72 CERTIFICATE_TEMPLATE)), (take 10 (drop 104 CERTIFICATE_TEMPLATE)), (drop 114 CERTIFICATE_TEMPLATE).
    split_and!; vm_compute; reflexivity. }
  destruct Ht as (a & o & m1 & m2 & Ht & Ha & Ho & Hm1 & Hm2). rewrite Ht in H.
  assert (Hpre : len (a ++ pk ++ m1) = 114) by (rewrite !len_app; lia).
  replace (CERTIFICATE_PUBLIC_KEY_OFFSET + CERTIFICATE_PUBLIC_KEY_LEN) with (len a + len o) in H by (rewrite Ha, Ho; done).
  replace CERTIFICATE_PUBLIC_KEY_OFFSET with (len a) in H by done.
  rewrite copy_at in H by lia. cbn [mbind result_bind] in H. rewrite (app_assoc pk m1), (app_assoc a (pk ++ m1)), <- (app_nil_r m2) in H.
  replace (CERTIFICATE_SIGNATURE_OFFSET + CERTIFICATE_SIGNATURE_LEN) with (len (a ++ pk ++ m1) + len m2) in H by (rewrite Hpre, Hm2; done).
  replace CERTIFICATE_SIGNATURE_OFFSET with (len (a ++ pk ++ m1)) in H by done.
  rewrite copy_at in H by lia.
  injection H as <-. rewrite app_nil_r. unfold bound_certificate, CERTIFICATE_DER_LEN, BINDING_OFFSET, BINDING_LEN, PUBLIC_KEY_OFFSET, PUBLIC_KEY_LEN.
  split_and!.
  - rewrite len_app. lia.
  - rewrite <- !app_assoc. rewrite get_range_app_r by lia. rewrite Ha. apply get_range_prefix. lia.
  - rewrite get_range_app_r by lia. rewrite Hpre. apply get_range_all. fold mac. lia.
Qed.

Lemma certificate_message_ok der m : certificate_message alloc der = Ok m ->
  m = framed HANDSHAKE_CERTIFICATE (certificate_body der []) /\ len (certificate_body der []) < 16777216.
Proof.
  unfold certificate_message. intros H. apply bind_ok in H as (u & _ & H). pose proof (len_nonneg der).
  apply bind_ok in H as (e & [-> He]%ok_or_ok%checked_add_some & H). apply bind_ok in H as (b & [-> Hb]%ok_or_ok%checked_add_some & H).
  apply bind_ok in H as (u1 & _ & H). apply bind_ok in H as (u2 & _ & H). apply bind_ok in H as (x & [-> Hx]%push_u24_ok & H); [|lia].
  apply bind_ok in H as (y & [-> Hy]%push_u24_ok & [-> Hl]%handshake_encode_ok); [|lia].
  assert (Hc : certificate_body der [] = [x00] ++ to_be 3 (len der + 5) ++ to_be 3 (len der) ++ der ++ [x00; x00]).
  { unfold certificate_body. replace (len (certificate_entry der [])) with (len der + 5); [done|].
    unfold certificate_entry. rewrite !len_app, !len_to_be. change (len []) with 0. lia. }
  by rewrite Hc.
Qed.

Lemma certificate_verify_ok i hash m : certificate_verify alloc i hash = Ok m ->
  m = framed HANDSHAKE_CERTIFICATE_VERIFY (signature_body (sign (signing_key i) (signed_content hash))) /\
  len (signature_body (sign (signing_key i) (signed_content hash))) < 16777216 /\ (len hash = 32 \/ len hash = 48).
Proof.
  unfold certificate_verify. intros H. apply bind_ok in H as (u & Hh%reject_ok & H). apply bind_ok in H as (n & _ & H). apply bind_ok in H as (u1 & _ & H).
  cbv zeta in H. apply bind_ok in H as (u2 & _ & H). apply bind_ok in H as (k & [-> _]%ok_or_ok%try_from_some & [-> Hl]%handshake_encode_ok).
  split_and!; [done|done|]. apply andb_false_iff in Hh as [Hh|Hh]; apply negb_false_iff, Z.eqb_eq in Hh; auto.
Qed.

Lemma finished_ok d m : finished_message alloc d = Ok m -> m = framed HANDSHAKE_FINISHED d /\ len d < 16777216.
Proof. unfold finished_message. intros H. by apply bind_ok in H as (u & _ & H%handshake_encode_ok). Qed.

(** The client takes what the server signed. *)
Lemma signature_verifies i hash m : certificate_verify alloc i hash = Ok m ->
  verify_certificate_signature m (verifying_bytes (signing_key i)) hash = Ok tt.
Proof.
  intros (-> & _ & Hh)%certificate_verify_ok. apply signature_exact. split; [done|].
  destruct (verify_sign (signing_key i) (signed_content hash)) as (v & Hv & Hs). exists (sign (signing_key i) (signed_content hash)), v.
  split_and!; [done|apply sign_len|done|done].
Qed.

Lemma certificate_verifies i key der m : forge_certificate i key = Ok der -> certificate_message alloc der = Ok m ->
  verify_server_certificate m key = Ok (verifying_bytes (signing_key i)).
Proof.
  intros Hf%forge_ok [-> Hl]%certificate_message_ok. apply certificate_exact. by exists der, [].
Qed.
End Messages.

(** ** Records that carry messages *)

Lemma take_framed t b rest : len b < 16777216 -> take_message (framed t b ++ rest) = Ok (Some (framed t b), rest).
Proof.
  intros Hb. pose proof (len_nonneg b). pose proof (len_nonneg rest).
  assert (Hl : len (framed t b) = 4 + len b) by (unfold framed; rewrite len_cons, len_app, len_to_be; lia).
  unfold take_message. rewrite (proj2 (Z.ltb_ge _ _)) by (rewrite len_app; lia).
  rewrite (bind_step _ (to_be 3 (len b))).
  2: { unfold framed. change (t :: to_be 3 (len b) ++ b) with ([t] ++ to_be 3 (len b) ++ b). rewrite <- !app_assoc. apply slice_mid; [done|by rewrite len_to_be]. }
  rewrite from_be_to_be by (change (256 ^ Z.of_nat 3) with 16777216; lia).
  rewrite (bind_step _ (len b + 4)) by (apply ok_or_ok, checked_add_some; unfold USIZE_MAX, U64_MAX; split; [done|lia]).
  rewrite (proj2 (Z.ltb_ge _ _)) by (rewrite len_app; lia).
  assert (Hn : Z.to_nat (len b + 4) = length (framed t b)) by (unfold len in *; lia).
  by rewrite Hn, take_app_length, drop_app_length.
Qed.

Section Stream.
Context {T : Tls13Ops} {L : Tls13Laws T}.

Definition is_framed (m : list byte) : Prop := exists t b, m = framed t b /\ len b < 16777216.

(** A stream, and the bytes already buffered, from which the client takes the
    messages [ms]; [rest] is what it leaves unread. *)
Inductive serves (alloc : Z -> bool) : Tls13RecordLayer -> list byte -> list byte -> list (list byte) -> list byte -> Prop :=
| serves_end l stream : serves alloc l [] stream [] stream
| serves_buffered l m flight stream ms rest :
    is_framed m -> serves alloc l flight stream ms rest -> serves alloc l (m ++ flight) stream (m :: ms) rest
| serves_record l l' ccs m flight pad r stream ms rest :
    is_framed m -> ccs = [] \/ ccs = change_cipher_spec_record -> layer_wf l -> 0 <= pad ->
    guarded_seal alloc l CtHandshake (m ++ flight) pad = Ok (r, l') -> serves alloc l' flight stream ms rest ->
    serves alloc l [] (ccs ++ r ++ stream) (m :: ms) rest.

Lemma sealed_frame alloc l t pt pad r l' rest :
  layer_wf l -> 0 <= pad -> guarded_seal alloc l t pt pad = Ok (r, l') ->
  frame_of (r ++ rest) = FrRecord r rest /\ outer_content_type r = OUTER_APPLICATION_DATA /\ len pt <= MAX_PLAINTEXT_LEN /\ layer_wf l' /\
  l' = set_sequence l (rl_sequence l + 1) /\ len r = len pt + pad + UNPADDED_RECORD_WIRE_OVERHEAD.
Proof.
  intros Hw Hp H. apply guarded_seal_ok in H as (Hf & Hlt & Hfit & -> & body & tag & Hs & ->); [|done..].
  apply andb_true_iff in Hfit as [Hf1%Z.leb_le Hf2%Z.leb_le]. destruct (record_seal_len _ _ _ _ _ _ _ Hs) as [Hb Ht]. rewrite len_inner in Hb by done.
  pose proof (len_nonneg pt). unfold MAX_INNER_PLAINTEXT_LEN, MAX_PLAINTEXT_LEN, TAG_LEN in *. pose proof (len_record_header (len pt + 1 + pad + 16)) as Hh.
  unfold HEADER_LEN in Hh. split_and!; [|done|done| |done|].
  - apply frame_of_record; [done| |].
    + unfold header_body_len. change (drop 3 (record_header (len pt + 1 + pad + 16))) with (to_be 2 (len pt + 1 + pad + 16)). rewrite take_ge by (by rewrite length_to_be).
      rewrite from_be_to_be by (change (256 ^ Z.of_nat 2) with 65536; lia). rewrite len_app. lia.
    + rewrite len_app. unfold MAX_TLS13_CIPHERTEXT_LEN, MAX_PLAINTEXT_LEN. lia.
  - apply set_sequence_wf; [done|]. destruct Hw as (_ & _ & Hq & _). lia.
  - rewrite !len_app, Hh. unfold UNPADDED_RECORD_WIRE_OVERHEAD, HEADER_LEN, TAG_LEN. lia.
Qed.

Lemma ccs_frame rest : frame_of (change_cipher_spec_record ++ rest) = FrRecord change_cipher_spec_record rest.
Proof. change change_cipher_spec_record with ([x14; x03; x03; x00; x01] ++ [x01]). by apply frame_of_record. Qed.

Section Client.
Context (calloc : Z -> bool) (Hcalloc : forall n, calloc n = true) (env : ReadEnv) (Henv : read_env_ok env).

Lemma next_ccs fuel l t rest : tp_stream t = change_cipher_spec_record ++ rest ->
  exists t', next_message_loop calloc env (S fuel) l [] t = next_message_loop calloc env fuel l [] t' /\ tp_stream t' = rest.
Proof.
  intros Ht. destruct (read_framed env t change_cipher_spec_record rest Henv ltac:(by rewrite Ht, ccs_frame)) as (t' & Hr & Ht').
  exists t'. split; [|done]. cbn [next_message_loop]. rewrite (io_bind_ok _ _ t (None, []) t) by done. cbv beta iota.
  rewrite (io_bind_ok _ _ t change_cipher_spec_record t') by (unfold io_map_err; by rewrite Hr). done.
Qed.

Lemma next_sealed alloc fuel l t m flight pad r l' rest :
  is_framed m -> layer_wf l -> 0 <= pad -> guarded_seal alloc l CtHandshake (m ++ flight) pad = Ok (r, l') -> tp_stream t = r ++ rest ->
  exists t', next_message_loop calloc env (S (S fuel)) l [] t = (Ok (m, l', flight), t') /\ tp_stream t' = rest.
Proof.
  intros (ty & b & -> & Hb) Hw Hp Hs Ht. destruct (sealed_frame _ _ _ _ _ _ _ rest Hw Hp Hs) as (Hf & Ho & Hl & _).
  destruct (read_framed env t r rest Henv ltac:(by rewrite Ht, Hf)) as (t' & Hr & Ht'). exists t'. split; [|done].
  cbn [next_message_loop]. rewrite (io_bind_ok _ _ t (None, []) t) by done. cbv beta iota.
  rewrite (io_bind_ok _ _ t r t') by (unfold io_map_err; by rewrite Hr). rewrite Ho. rewrite bool_decide_false by done. rewrite bool_decide_true by done.
  rewrite (open_sealed alloc l CtHandshake _ pad r l') by done. cbv beta iota.
  rewrite (io_bind_ok _ _ t' (CtHandshake, framed ty b ++ flight) t') by done. cbv beta iota. rewrite (io_bind_ok _ _ t' tt t') by done.
  rewrite (io_bind_ok _ _ t' (framed ty b ++ flight) t').
  2: { unfold io_lift. f_equal. unfold push_message. change (len []) with 0. unfold MAX_PLAINTEXT_LEN in Hl. pose proof (len_nonneg (framed ty b ++ flight)).
       rewrite (proj2 (checked_add_some _ _ _ (len (framed ty b ++ flight)))) by (unfold USIZE_MAX, U64_MAX; split; lia).
       cbn [mbind option_bind]. rewrite (proj2 (Z.leb_le _ _)) by (unfold MAX_HANDSHAKE_BUFFER; lia). cbn [ok_or mbind result_bind].
       by rewrite Hcalloc. }
  by rewrite (io_bind_ok _ _ t' (Some (framed ty b), flight) t') by (unfold io_lift; by rewrite take_framed).
Qed.

(** The next message of a stream that serves one. *)
Lemma next_served alloc l flight t m ms rest :
  serves alloc l flight (tp_stream t) (m :: ms) rest ->
  exists l' flight' t', next_message calloc env l flight t = (Ok (m, l', flight'), t') /\ serves alloc l' flight' (tp_stream t') ms rest.
Proof.
  intros H. unfold next_message, io_reads. rewrite io_get_bind. remember (tp_stream t) as stream eqn:Hst.
  inversion H as [|? ? flight' ? ? ? (ty & b & -> & Hb) Hserve|? l' ccs ? flight' pad r stream' ? ? Hm Hccs Hw Hp Hs Hserve]; subst.
  - exists l, flight', t. split; [|done]. cbn [next_message_loop].
    by rewrite (io_bind_ok _ _ t (Some (framed ty b), flight') t) by (unfold io_lift; by rewrite take_framed).
  - destruct (sealed_frame _ _ _ _ _ _ _ stream' Hw Hp Hs) as (_ & _ & _ & _ & _ & Hlr).
    assert (Hlen : (2 <= length r)%nat).
    { unfold UNPADDED_RECORD_WIRE_OVERHEAD, HEADER_LEN, TAG_LEN in Hlr. pose proof (len_nonneg (m ++ flight')). unfold len in *. lia. }
    match goal with E : _ = tp_stream t |- _ => symmetry in E; rename E into Ht end.
    destruct Hccs as [->| ->].
    + cbn [app] in *. destruct (length (r ++ stream')) as [|[|n]] eqn:El; [rewrite length_app in El; lia..|].
      destruct (next_sealed alloc (S n) l t m flight' pad r l' stream' Hm Hw Hp Hs Ht) as (t' & Hn & Ht'). exists l', flight', t'. by rewrite Ht'.
    + destruct (next_ccs (length (change_cipher_spec_record ++ r ++ stream')) l t (r ++ stream') Ht) as (t1 & -> & Ht1).
      rewrite length_app. cbn [length change_cipher_spec_record Nat.add].
      destruct (next_sealed alloc (S (S (S (S (length (r ++ stream')))))) l t1 m flight' pad r l' stream' Hm Hw Hp Hs Ht1) as (t' & Hn & Ht').
      exists l', flight', t'. by rewrite Ht'.
Qed.
End Client.
End Stream.

(** ** Sealing the flight *)

Section Sealing.
Context {T : Tls13Ops} {L : Tls13Laws T}.

Lemma padding_ok n target pad : 0 <= n -> shaped_record_padding n target = Ok pad -> pad = target - (n + UNPADDED_RECORD_WIRE_OVERHEAD) /\ 0 <= pad.
Proof.
  intros Hn H. unfold shaped_record_padding, unpadded_record_wire_len in H. apply bind_ok in H as (w & [-> _]%ok_or_ok%checked_add_some & H).
  apply ok_or_ok, checked_sub_some in H as [-> Hle]. lia.
Qed.

Lemma seal_shaped_ok alloc l pt n wire wire' l' : seal_shaped_handshake_record alloc l pt n wire = Ok (wire', l') ->
  exists pad r, 0 <= pad /\ guarded_seal alloc l CtHandshake pt pad = Ok (r, l') /\ wire' = wire ++ r.
Proof.
  unfold seal_shaped_handshake_record. intros H. apply bind_ok in H as (pad & [_ Hp]%padding_ok & H); [|apply len_nonneg].
  apply bind_ok in H as ([r l1] & Hs%map_err_ok & H). apply bind_ok in H as (u & _ & [= <- <-]). rewrite seal_into_guarded in Hs by done.
  by exists pad, r.
Qed.

Definition ccs_or_none (ccs : list byte) : Prop := ccs = [] \/ ccs = change_cipher_spec_record.

Lemma seal_slots_serve alloc ms : forall lens l wire wire' l', layer_wf l -> Forall is_framed ms -> length lens = length ms ->
  seal_slots alloc l (zip ms lens) wire = Ok (wire', l') ->
  exists s, wire' = wire ++ s /\ forall ccs rest, ccs_or_none ccs -> (ms = [] -> ccs = []) -> serves alloc l [] (ccs ++ s ++ rest) ms rest.
Proof.
  induction ms as [|m ms IH]; intros [|n lens] l wire wire' l' Hw Hm Hl H; try done.
  - injection H as <- <-. exists []. rewrite app_nil_r. split; [done|]. intros ccs rest _ Hc. rewrite (Hc eq_refl). apply serves_end.
  - inversion Hm; subst. cbn [zip zip_with seal_slots] in H. apply bind_ok in H as ([w1 l1] & (pad & r & Hp & Hs & ->)%seal_shaped_ok & H).
    destruct (sealed_frame _ _ _ _ _ _ _ [] Hw Hp Hs) as (_ & _ & _ & Hw1 & _).
    destruct (IH lens l1 _ wire' l' Hw1 ltac:(done) ltac:(cbn in Hl; lia) H) as (s & -> & Hserve).
    exists (r ++ s). rewrite <- app_assoc. split; [done|]. intros ccs rest Hc _. rewrite <- !app_assoc.
    eapply (serves_record alloc l l1 ccs m []); [done|done|done|exact Hp|by rewrite app_nil_r|].
    by apply (Hserve [] rest (or_introl eq_refl)).
Qed.

Lemma serve_buffered alloc l ms stream : Forall is_framed ms -> serves alloc l (concat ms) stream ms stream.
Proof. induction 1; [apply serves_end|]. by apply serves_buffered. Qed.

Lemma seal_one_serve alloc l l' m ms n wire wire' : layer_wf l -> Forall is_framed (m :: ms) ->
  seal_shaped_handshake_record alloc l (concat (m :: ms)) n wire = Ok (wire', l') ->
  exists s, wire' = wire ++ s /\ forall ccs rest, ccs_or_none ccs -> serves alloc l [] (ccs ++ s ++ rest) (m :: ms) rest.
Proof.
  intros Hw Hm (pad & r & Hp & Hs & ->)%seal_shaped_ok. inversion Hm; subst. exists r. split; [done|]. intros ccs rest Hc.
  eapply serves_record; [done|done|done|exact Hp|exact Hs|]. by apply serve_buffered.
Qed.

(** The fake session ticket, when the plan has one: an empty application record. *)
Definition ticket (alloc : Z -> bool) (app : Tls13RecordLayer) (nst : list byte) (app' : Tls13RecordLayer) : Prop :=
  (nst = [] /\ app' = app) \/ exists pad, 0 <= pad /\ seal_into alloc app CtApplicationData [] pad = Ok (nst, app').

Lemma seal_flight_serve alloc s l app a b c d wire wire' app' :
  layer_wf l -> Forall is_framed [a; b; c; d] -> seal_flight alloc s l app [a; b; c; d] (concat [a; b; c; d]) wire = Ok (wire', app') ->
  exists enc nst, wire' = wire ++ enc ++ nst /\ ticket alloc app nst app' /\
    forall ccs rest, ccs_or_none ccs -> serves alloc l [] (ccs ++ enc ++ rest) [a; b; c; d] rest.
Proof.
  intros Hw Hm H. destruct s as [[n|na nb nc nd nst]|]; cbn [seal_flight] in H.
  - apply bind_ok in H as ([w l1] & (s & -> & Hs)%seal_one_serve & [= <- <-]); [|done..]. exists s, []. rewrite app_nil_r. split; [done|]. split; [by left|done].
  - apply bind_ok in H as ([w l1] & (s & -> & Hs)%seal_slots_serve & H); [|done..].
    assert (Hs' : forall ccs rest, ccs_or_none ccs -> serves alloc l [] (ccs ++ s ++ rest) [a; b; c; d] rest) by (intros ccs rest Hc; by apply Hs).
    destruct nst as [n|]; [|injection H as <- <-; exists s, []; rewrite app_nil_r; split; [done|]; split; [by left|done]].
    apply bind_ok in H as (pad & [_ Hp]%padding_ok & H); [|done]. apply bind_ok in H as ([r l2] & Hr%map_err_ok & H).
    apply bind_ok in H as (u & _ & [= <- <-]). exists s, r. rewrite app_assoc. split; [done|]. split; [right; by exists pad|done].
  - apply bind_ok in H as (n & _ & H). apply bind_ok in H as ([w l1] & (s & -> & Hs)%seal_one_serve & [= <- <-]); [|done..].
    exists s, []. rewrite app_nil_r. split; [done|]. split; [by left|done].
Qed.

(** ** Keys and layers *)

Lemma snapshot_wf h m : hb_wf (snapshot (update h m)) /\ hb_algorithm (snapshot (update h m)) = th_algorithm h.
Proof. apply digest_wf. Qed.

Lemma schedule_ok suite shared t ks : hb_wf t -> new_schedule suite shared t = Ok ks -> ks_suite ks = suite /\ schedule_wf ks.
Proof.
  intros Ht H. pose proof H as H'. unfold new_schedule in H'. apply bind_ok in H' as (u & [Hz%Z.eqb_neq Hl%Z.ltb_ge]%reject_ok%orb_false_iff & H').
  apply bind_ok in H' as (u1 & Hh%reject_ok%negb_false_iff%bool_decide_eq_true & _). pose proof (len_nonneg shared).
  destruct (new_schedule_total suite shared t ltac:(lia) Ht Hh) as (ks' & H2 & H3). rewrite H in H2. by injection H2 as <-.
Qed.

(** A fresh handshake layer: what sealing and opening need of it. *)
Lemma handshake_layer suite s keys l :
  hb_wf s -> hb_algorithm s = suite_hash suite -> derive_traffic_keys suite s = Ok keys -> new_layer suite keys = Ok l ->
  layer_wf l /\ rl_write_failed l = false /\ rl_sequence l = 0.
Proof.
  intros Hs Hh Hd H. destruct (derive_traffic_keys_total suite s Hs Hh) as (k & Hk & Hkk & Hiv). rewrite Hd in Hk. injection Hk as <-.
  unfold new_layer, record_cipher in H. rewrite Hkk, Z.eqb_refl in H. injection H as <-. split; [|done].
  refine (conj Hkk (conj Hiv (conj _ I))). unfold key_usage_limit; cbn. destruct suite; vm_compute; split; congruence.
Qed.

(** Sealing a small plaintext on such a layer succeeds. *)
Lemma seal_small alloc l t pt : (forall n, alloc n = true) -> layer_wf l -> rl_write_failed l = false -> rl_sequence l = 0 -> len pt <= 1000 ->
  exists r l', seal_into alloc l t pt 0 = Ok (r, l') /\ guarded_seal alloc l t pt 0 = Ok (r, l').
Proof.
  intros Ha Hw Hf Hq Hl. rewrite seal_into_guarded by done. pose proof (len_nonneg pt). unfold guarded_seal.
  rewrite (bind_step _ tt) by (apply ensure_key_available_ok; split; [done|]; pose proof (key_usage_limit_bounds l); lia).
  rewrite guard_pass by (unfold record_fits, MAX_INNER_PLAINTEXT_LEN, MAX_PLAINTEXT_LEN; rewrite !(proj2 (Z.leb_le _ _)) by lia; done).
  rewrite guard_pass by (by rewrite Ha). unfold reference_seal. cbv zeta.
  destruct (record_seal_some (rl_suite l) (rl_key l) (nonce l) (record_header (len (inner_plaintext t pt 0) + TAG_LEN)) (inner_plaintext t pt 0)) as [[b tg] Hs].
  - apply Hw.
  - by apply len_nonce.
  - rewrite len_inner by done. lia.
  - rewrite Hs. cbn [ok_or mbind result_bind]. rewrite advance_live by done. cbn. eauto.
Qed.
End Sealing.

(** ** Key agreement *)

Section KeyShares.
Context {C : CryptoOps} {CL : CryptoLaws C} {K : KemOps} {KL : KemLaws K} (secret_of : list byte -> Crypto.Secret) (alloc : Z -> bool).

(** The public halves are those of the secrets. *)
Definition keys_honest (k : ClientKeyAgreement) : Prop :=
  k_x25519_public k = x25519_public (k_x25519 k) /\ k_hybrid_x25519_public k = x25519_public (k_hybrid_x25519 k) /\
  k_hybrid_encap k = mlkem_encapsulation_key (k_hybrid_mlkem k).

Lemma for_profile_honest profile : given (for_profile secret_of profile) keys_honest.
Proof.
  unfold for_profile. do 3 (eapply given_bind; [apply given_any|intros ? _]).
  apply (given_bind _ _ (fun '(m, e) => e = mlkem_encapsulation_key m)).
  - unfold generate_mlkem. eapply given_bind; [apply given_any|intros ? _]. by apply given_ret.
  - intros [m e] ->. by apply given_ret.
Qed.

Lemma store_first a : len a = 32 -> forall e, store_shared 0 a zeroed_shared e = Ok (a ++ replicate 32 x00, e).
Proof.
  intros Ha e. unfold store_shared, store. rewrite Ha. change (len zeroed_shared) with 64. cbn [Z.leb Z.compare andb Z.add mbind result_bind].
  unfold lift. cbn. done.
Qed.

Lemma store_second a b : len a = 32 -> len b = 32 -> forall e, store_shared 32 b (a ++ replicate 32 x00) e = Ok (a ++ b, e).
Proof.
  intros Ha Hb e. unfold store_shared, store. rewrite Hb, len_app, Ha. change (len (replicate 32 x00)) with 32. cbn [Z.leb Z.compare andb Z.add mbind result_bind].
  unfold lift. cbn -[take drop replicate]. unfold len in Ha. rewrite take_app_length' by lia.
  rewrite drop_ge by (rewrite length_app, length_replicate; lia). by rewrite app_nil_r.
Qed.

Lemma shared_prefix share a rest n : len a = n -> ka_shared_secret {| ka_server_share := share; ka_shared := a ++ rest; ka_shared_len := n |} = a.
Proof. intros <-. unfold ka_shared_secret. cbn. by rewrite get_range_prefix. Qed.

Lemma find_share k g group sh :
  grease_ok g -> snd <$> list_find (fun s => s.1 = group) (offer_shares k g) = Some sh ->
  (is_grease group = true /\ sh.1 = group) \/ (group = X25519_MLKEM768_GROUP /\ sh.2 = k_hybrid_encap k ++ k_hybrid_x25519_public k) \/
  (group = X25519_GROUP /\ sh.2 = k_x25519_public k) \/ (group = P256_GROUP /\ exists p, k_p256 k = Some p /\ sh.2 = p256_public p).
Proof.
  intros [_ Hg] H. destruct (list_find _ _) as [[i x]|] eqn:E; [|done]. injection H as ->.
  apply list_find_Some in E as (Hi & Hgr & _). apply list_elem_of_lookup_2 in Hi. unfold offer_shares in Hi.
  rewrite !elem_of_app in Hi. destruct Hi as [Hi|[Hi|Hi]].
  - destruct (bool_decide _); [|by apply elem_of_nil in Hi]. apply list_elem_of_singleton in Hi as ->. cbn in Hgr. subst. by left.
  - rewrite elem_of_cons, list_elem_of_singleton in Hi. destruct Hi as [->| ->]; cbn in Hgr; subst; auto.
  - destruct (k_p256 k) as [p|]; [|by apply elem_of_nil in Hi]. apply list_elem_of_singleton in Hi as ->. cbn in Hgr. subst.
    do 3 right. split; [done|]. by exists p.
Qed.

Lemma p256_agree_public k p : p256_agree k (p256_public p) = p256_ecdh k (p256_public p).
Proof. unfold p256_agree. by rewrite p256_public_len, p256_public_head. Qed.

(** What both ends agree on: the server's share and secret against the client's
    keys. *)
Definition agreed (keys : ClientKeyAgreement) (group : Z) (ka : KeyAgreement) : Prop :=
  exists s, tls_shared_secret keys group (share_as_slice (ka_server_share ka)) = Some s /\ shared_as_bytes s = ka_shared_secret ka.

Lemma agreed_p256 keys p eph sec : k_p256 keys = Some p -> p256_agree eph (p256_public p) = Some sec ->
  agreed keys P256_GROUP {| ka_server_share := ShareP256 (p256_public eph); ka_shared := sec ++ replicate 32 x00; ka_shared_len := 32 |}.
Proof.
  intros Hp Hag. rewrite p256_agree_public in Hag. exists (SP256 sec). split; [|cbn; by rewrite shared_prefix by (by eapply p256_ecdh_len)].
  unfold tls_shared_secret. rewrite Z.eqb_refl, Hp. cbn [mbind option_bind ka_server_share share_as_slice].
  by rewrite p256_agree_public, p256_ecdh_comm, Hag.
Qed.

Lemma agreed_x25519 keys eph sec : x25519_agree eph (x25519_public (k_x25519 keys)) = Some sec ->
  agreed keys X25519_GROUP {| ka_server_share := ShareX25519 (x25519_public eph); ka_shared := sec ++ replicate 32 x00; ka_shared_len := 32 |}.
Proof.
  intros Hag. exists (SX25519 sec). split; [|cbn; by rewrite shared_prefix by (by eapply agree_len)].
  unfold tls_shared_secret. rewrite (proj2 (Z.eqb_neq _ _)), Z.eqb_refl by done. cbn [ka_server_share share_as_slice]. rewrite public_len.
  change (negb (32 =? X25519_PUBLIC_LEN)) with false. cbv iota. by rewrite agree_comm, Hag.
Qed.

Lemma agreed_hybrid keys eph rnd xs :
  let encap := mlkem_encapsulate (mlkem_encapsulation_key (k_hybrid_mlkem keys)) rnd in
  x25519_agree eph (x25519_public (k_hybrid_x25519 keys)) = Some xs ->
  agreed keys X25519_MLKEM768_GROUP {| ka_server_share := ShareHybrid (encap.1 ++ x25519_public eph); ka_shared := encap.2 ++ xs; ka_shared_len := 64 |}.
Proof.
  intros encap Hag. pose proof (agree_len _ _ _ Hag) as Hxl. set (ek := mlkem_encapsulation_key (k_hybrid_mlkem keys)) in *.
  pose proof (mlkem_shared_len ek rnd) as Hml. pose proof (mlkem_ciphertext_len ek rnd) as Hcl. fold encap in Hml, Hcl.
  exists (SHybrid (encap.2 ++ xs)). split.
  2: { cbn [shared_as_bytes]. rewrite <- (app_nil_r (encap.2 ++ xs)) at 2. rewrite shared_prefix; [done|]. rewrite len_app. lia. }
  unfold tls_shared_secret. rewrite (proj2 (Z.eqb_neq _ _)), (proj2 (Z.eqb_neq _ _)), Z.eqb_refl by done. cbn [ka_server_share share_as_slice].
  rewrite get_range_prefix by done. cbn [mbind option_bind]. rewrite get_range_app_r by lia.
  rewrite Hcl, Z.sub_diag, get_range_all by (rewrite len_app; lia). cbn [mbind option_bind]. rewrite public_len.
  change (negb (32 =? X25519_PUBLIC_LEN)) with false. cbv iota. rewrite agree_comm, Hag. cbn [mbind option_bind].
  by rewrite (mlkem_correct (k_hybrid_mlkem keys) rnd : mlkem_decapsulate _ encap.1 = encap.2).
Qed.

(** Both ends compute the same secret, for whichever offered group the target
    selected; a share of any other group is refused. *)
Lemma agreement_ok keys g client group e ka e' :
  keys_honest keys -> grease_ok g -> key_shares client = offer_shares keys g ->
  agree_key_share secret_of alloc client group e = Ok (ka, e') -> agreed keys group ka.
Proof.
  intros (Hx & Hhx & Hek) Hg Hs H. unfold agree_key_share in H. rewrite Hs in H.
  apply m_bind_ok in H as (sh & e1 & [Hfind%ok_or_ok ->]%m_lift_ok & H).
  destruct (Z.eqb_spec group P256_GROUP) as [->|Hnp].
  { apply find_share in Hfind as [[Hf _]|[[Hf _]|[[Hf _]|(_ & p & Hp & Hsh)]]]; [done..| |done].
    apply m_bind_ok in H as (eph & e2 & _ & H). apply m_bind_ok in H as (sec & e3 & [Hag%ok_or_ok ->]%m_lift_ok & H). rewrite Hsh in Hag.
    pose proof Hag as Hl. rewrite p256_agree_public in Hl. apply p256_ecdh_len in Hl.
    apply m_bind_ok in H as (shd & e4 & Hst & [= <- <-]). rewrite store_first in Hst by done. injection Hst as <- <-. by eapply agreed_p256. }
  apply m_bind_ok in H as (eph & e2 & _ & H). cbv zeta in H. destruct (Z.eqb_spec group X25519_GROUP) as [->|Hnx].
  { apply find_share in Hfind as [[Hf _]|[[Hf _]|[(_ & Hsh)|(Hf & _)]]]; [done..| |done|done].
    apply m_bind_ok in H as (cp & e3 & [Hcp%ok_or_ok ->]%m_lift_ok & H). unfold array32 in Hcp. destruct (len sh.2 =? 32); [|done]. injection Hcp as <-.
    apply m_bind_ok in H as (sec & e4 & [Hag%ok_or_ok ->]%m_lift_ok & H). rewrite Hsh, Hx in Hag. pose proof (agree_len _ _ _ Hag) as Hl.
    apply m_bind_ok in H as (shd & e5 & Hst & [= <- <-]). rewrite store_first in Hst by done. injection Hst as <- <-. by apply agreed_x25519. }
  destruct (Z.eqb_spec group X25519_MLKEM768_GROUP) as [->|Hnh]; [|done].
  apply find_share in Hfind as [[Hf _]|[(_ & Hsh)|[[Hf _]|(Hf & _)]]]; [done| |done|done|done].
  assert (Hekl : len (k_hybrid_encap keys) = MLKEM768_ENCAPSULATION_KEY_LEN) by (rewrite Hek; apply mlkem_encap_len).
  rewrite Hsh in H. apply m_bind_ok in H as (ek & e3 & [Hg1%ok_or_ok ->]%m_lift_ok & H). rewrite get_range_prefix in Hg1 by done. injection Hg1 as <-.
  apply m_bind_ok in H as (tl & e4 & [Hg2%ok_or_ok ->]%m_lift_ok & H). rewrite get_range_app_r in Hg2 by lia.
  rewrite Hekl, Z.sub_diag, get_range_all in Hg2 by (rewrite len_app; lia). injection Hg2 as <-.
  apply m_bind_ok in H as (cp & e5 & [Hcp%ok_or_ok ->]%m_lift_ok & H). unfold array32 in Hcp. destruct (_ =? 32); [|done]. injection Hcp as <-.
  apply m_guard_ok in H as [_ H]. apply m_bind_ok in H as (rnd & e6 & _ & H). rewrite Hek in H.
  pose proof (mlkem_shared_len (mlkem_encapsulation_key (k_hybrid_mlkem keys)) rnd) as Hml.
  destruct (mlkem_encapsulate _ rnd) as [ct ms] eqn:Henc. cbn [snd] in Hml.
  apply m_bind_ok in H as (xs & e7 & [Hag%ok_or_ok ->]%m_lift_ok & H). apply m_guard_ok in H as [_ H]. rewrite Hhx in Hag. pose proof (agree_len _ _ _ Hag) as Hxl.
  apply m_bind_ok in H as (s1 & e8 & Hst & H). rewrite store_first in Hst by done. injection Hst as <- <-.
  apply m_bind_ok in H as (s2 & e9 & Hst & [= <- <-]). rewrite store_second in Hst by done. injection Hst as <- <-.
  pose proof (agreed_hybrid keys eph rnd xs Hag) as Hh. by rewrite Henc in Hh.
Qed.
End KeyShares.

(** ** One flight, from both ends *)

Section Flight.
Context {T : Tls13Ops} {L : Tls13Laws T} {SO : SignOps} {SL : SignLaws SO}.

(** The transcript at each point of the handshake. *)
Definition hash_hello (suite : CipherSuite) (ch sh : list byte) : TranscriptHasher := update (update (new_hasher (suite_hash suite)) ch) sh.
Definition hash_through (suite : CipherSuite) (ch sh : list byte) (ms : list (list byte)) : TranscriptHasher := foldl update (hash_hello suite ch sh) ms.

(** What the messages and keys of a flight are derived from. *)
Record derived (alloc : Z -> bool) (suite : CipherSuite) (shared ch sh key : list byte) (i : CertificateIdentity) (alpn : option (list byte))
    (f : FlightMessages) (ks : Tls13KeySchedule) (app : ApplicationTrafficSecrets) : Prop := {
  dv_schedule : new_schedule suite shared (snapshot (hash_hello suite ch sh)) = Ok ks;
  dv_server : exists k, derive_traffic_keys (ks_suite ks) (ks_server_handshake ks) = Ok k /\ new_layer suite k = Ok (fm_server_handshake f);
  dv_client : exists k, derive_traffic_keys (ks_suite ks) (ks_client_handshake ks) = Ok k /\ new_layer suite k = Ok (fm_client_handshake f);
  dv_ee : encrypted_extensions alloc alpn = Ok (fm_encrypted_extensions f);
  dv_certificate : exists der, forge_certificate i key = Ok der /\ certificate_message alloc der = Ok (fm_certificate f);
  dv_verify : certificate_verify alloc i (hb_as_bytes (snapshot (hash_through suite ch sh (take 2 (message_list f))))) = Ok (fm_certificate_verify f);
  dv_finished : exists d, finished_verify_data ks (ks_server_handshake ks) (snapshot (hash_through suite ch sh (take 3 (message_list f)))) = Ok d /\
    finished_message alloc (hb_as_bytes d) = Ok (fm_finished f);
  dv_expected : finished_verify_data ks (ks_client_handshake ks) (snapshot (hash_through suite ch sh (message_list f))) = Ok (fm_expected_client_finished f);
  dv_application : application_traffic_secrets ks (snapshot (hash_through suite ch sh (message_list f))) = Ok app;
  dv_client_secret : fm_client_secret f = ap_client app;
  dv_server_application : from_traffic_secret suite (ap_server app) = Ok (fm_server_application f);
}.

#[local] Arguments dv_schedule {_ _ _ _ _ _ _ _ _ _ _}.
#[local] Arguments dv_server {_ _ _ _ _ _ _ _ _ _ _}.
#[local] Arguments dv_client {_ _ _ _ _ _ _ _ _ _ _}.
#[local] Arguments dv_ee {_ _ _ _ _ _ _ _ _ _ _}.
#[local] Arguments dv_certificate {_ _ _ _ _ _ _ _ _ _ _}.
#[local] Arguments dv_verify {_ _ _ _ _ _ _ _ _ _ _}.
#[local] Arguments dv_finished {_ _ _ _ _ _ _ _ _ _ _}.
#[local] Arguments dv_expected {_ _ _ _ _ _ _ _ _ _ _}.
#[local] Arguments dv_application {_ _ _ _ _ _ _ _ _ _ _}.
#[local] Arguments dv_client_secret {_ _ _ _ _ _ _ _ _ _ _}.
#[local] Arguments dv_server_application {_ _ _ _ _ _ _ _ _ _ _}.

Lemma flight_messages_derived alloc suite shared ch sh key i alpn f :
  flight_messages alloc suite shared ch sh key i alpn = Ok f -> exists ks app, derived alloc suite shared ch sh key i alpn f ks app.
Proof.
  unfold flight_messages, from_key_schedule, from_record, from_message. cbv zeta. intros H.
  apply bind_ok in H as (ks & H1%map_err_ok & H). apply bind_ok in H as (k1 & H2%map_err_ok & H). apply bind_ok in H as (k2 & H3%map_err_ok & H).
  apply bind_ok in H as (l1 & H4%map_err_ok & H). apply bind_ok in H as (l2 & H5%map_err_ok & H). apply bind_ok in H as (ee & H6%map_err_ok & H).
  apply bind_ok in H as (der & H7%map_err_ok & H). apply bind_ok in H as (cert & H8%map_err_ok & H). apply bind_ok in H as (cv & H9%map_err_ok & H).
  apply bind_ok in H as (fd & H10%map_err_ok & H). apply bind_ok in H as (fin & H11%map_err_ok & H). apply bind_ok in H as (ex & H12%map_err_ok & H).
  apply bind_ok in H as (app & H13%map_err_ok & H). apply bind_ok in H as (sa & H14%map_err_ok & [= <-]).
  exists ks, app. constructor; cbn; eauto.
Qed.

Context (alloc : Z -> bool) (suite : CipherSuite) (shared ch sh key : list byte) (i : CertificateIdentity) (alpn : option (list byte))
  (f : FlightMessages) (ks : Tls13KeySchedule) (app : ApplicationTrafficSecrets) (Hd : derived alloc suite shared ch sh key i alpn f ks app).

Lemma derived_schedule : ks_suite ks = suite /\ schedule_wf ks.
Proof. eapply schedule_ok; [|apply (dv_schedule Hd)]. apply snapshot_wf. Qed.

Lemma derived_secrets :
  (hb_wf (ks_client_handshake ks) /\ hb_algorithm (ks_client_handshake ks) = suite_hash suite) /\
  (hb_wf (ks_server_handshake ks) /\ hb_algorithm (ks_server_handshake ks) = suite_hash suite).
Proof.
  destruct derived_schedule as [<- Hw]. unfold schedule_wf in Hw. rewrite !Forall_cons in Hw. destruct Hw as (_ & H1 & H2 & _). done.
Qed.

Lemma derived_layers :
  (layer_wf (fm_server_handshake f) /\ rl_write_failed (fm_server_handshake f) = false /\ rl_sequence (fm_server_handshake f) = 0) /\
  (layer_wf (fm_client_handshake f) /\ rl_write_failed (fm_client_handshake f) = false /\ rl_sequence (fm_client_handshake f) = 0).
Proof.
  destruct derived_schedule as [Hsu _]. destruct derived_secrets as [[Hc1 Hc2] [Hs1 Hs2]].
  destruct (dv_server Hd) as (k1 & Hk1 & Hl1). destruct (dv_client Hd) as (k2 & Hk2 & Hl2).
  rewrite Hsu in *. split; [by apply (handshake_layer suite (ks_server_handshake ks) k1)|by apply (handshake_layer suite (ks_client_handshake ks) k2)].
Qed.

Lemma derived_framed : Forall is_framed (message_list f).
Proof.
  destruct (dv_certificate Hd) as (der & Hf & Hc). destruct (dv_finished Hd) as (d & _ & Hfin).
  repeat apply Forall_cons_2; [| | | |apply Forall_nil_2].
  - destruct (ee_ok alloc alpn (fm_encrypted_extensions f) (option_list alpn) (dv_ee Hd)) as (_ & b & Hb).
    + intros p ->. left.
    + by exists HANDSHAKE_ENCRYPTED_EXTENSIONS, b.
  - apply certificate_message_ok in Hc. eexists _, _. exact Hc.
  - destruct (certificate_verify_ok alloc i _ _ (dv_verify Hd)) as (H1 & H2 & _). by eexists _, _.
  - apply finished_ok in Hfin. eexists _, _. exact Hfin.
Qed.

(** The expected data of the client's Finished, and its message. *)
Lemma derived_expected : len (hb_as_bytes (fm_expected_client_finished f)) = output_len (suite_hash suite).
Proof.
  destruct derived_schedule as [Hsu _]. destruct derived_secrets as [[Hc1 Hc2] _].
  destruct (finished_total ks (ks_client_handshake ks) (snapshot (hash_through suite ch sh (message_list f))) Hc1) as (v & Hv & Hvw & Hva).
  - by rewrite Hsu.
  - apply snapshot_wf.
  - rewrite Hsu. apply snapshot_wf.
  - rewrite (dv_expected Hd) in Hv. injection Hv as <-. by rewrite hb_wf_len, Hva, Hsu by done.
Qed.

(** *** The client reads the flight *)

Context (calloc : Z -> bool) (Hcalloc : forall n, calloc n = true) (env : ReadEnv) (Henv : read_env_ok env).

Lemma on_read_ok {E A} (m : IO Transport E A) st a t' : m (ci_in st) = (Ok a, t') -> on_read m st = (Ok a, {| ci_in := t'; ci_out := ci_out st |}).
Proof. intros H. unfold on_read. by rewrite H. Qed.

Lemma serves_none l flight stream rest : serves alloc l flight stream [] rest -> stream = rest.
Proof. by inversion 1. Qed.

Lemma verify_flight_ok offered st rest :
  serves alloc (fm_server_handshake f) [] (tp_stream (ci_in st)) (message_list f) rest -> (forall p, alpn = Some p -> p ∈ offered) ->
  exists t', verify_flight calloc env ks (fm_server_handshake f) (hash_hello suite ch sh) key offered st =
    (Ok (hash_through suite ch sh (message_list f), alpn), {| ci_in := t'; ci_out := ci_out st |}) /\ tp_stream t' = rest.
Proof.
  intros Hs Ho. unfold verify_flight. unfold message_list in Hs.
  destruct (dv_certificate Hd) as (der & Hforge & Hcert). destruct (dv_finished Hd) as (fd & Hfd & Hfin).
  destruct (next_served calloc Hcalloc env Henv _ _ _ _ _ _ _ Hs) as (l1 & b1 & t1 & Hn1 & Hs1).
  rewrite (io_bind_ok _ _ _ _ _ (on_read_ok _ st _ _ Hn1)). cbv beta iota.
  destruct (ee_ok alloc alpn _ offered (dv_ee Hd) Ho) as [Hee _]. set (st1 := {| ci_in := t1; ci_out := ci_out st |}).
  rewrite (io_bind_ok _ _ st1 alpn st1) by (unfold certificate_or, io_lift; by rewrite Hee). cbv zeta.
  destruct (next_served calloc Hcalloc env Henv _ _ _ _ _ _ _ Hs1) as (l2 & b2 & t2 & Hn2 & Hs2).
  rewrite (io_bind_ok _ _ _ _ _ (on_read_ok _ st1 _ _ Hn2)). cbv beta iota. set (st2 := {| ci_in := t2; ci_out := ci_out st1 |}).
  rewrite (io_bind_ok _ _ st2 (verifying_bytes (signing_key i)) st2)
    by (unfold certificate_or, io_lift; by rewrite (certificate_verifies alloc i key der _ Hforge Hcert)).
  destruct (next_served calloc Hcalloc env Henv _ _ _ _ _ _ _ Hs2) as (l3 & b3 & t3 & Hn3 & Hs3).
  rewrite (io_bind_ok _ _ _ _ _ (on_read_ok _ st2 _ _ Hn3)). cbv beta iota. set (st3 := {| ci_in := t3; ci_out := ci_out st2 |}).
  rewrite (io_bind_ok _ _ st3 tt st3) by (unfold certificate_or, io_lift; by rewrite (signature_verifies alloc i _ _ (dv_verify Hd) : verify_certificate_signature _ _ (hb_as_bytes (snapshot (update _ _))) = _)).
  destruct (next_served calloc Hcalloc env Henv _ _ _ _ _ _ _ Hs3) as (l4 & b4 & t4 & Hn4 & Hs4).
  rewrite (io_bind_ok _ _ _ _ _ (on_read_ok _ st3 _ _ Hn4)). cbv beta iota. set (st4 := {| ci_in := t4; ci_out := ci_out st3 |}).
  rewrite (io_bind_ok _ _ st4 fd st4) by (unfold schedule_or, io_lift; by rewrite (Hfd : finished_verify_data _ _ (snapshot (update _ _)) = _)).
  rewrite (io_bind_ok _ _ st4 tt st4).
  2: { unfold certificate_or, io_lift. apply finished_ok in Hfin as [-> Hl]. by rewrite (proj2 (verify_finished_exact _ _) (conj eq_refl Hl)). }
  exists t4. split; [done|]. by apply serves_none in Hs4.
Qed.

(** *** The client's answer *)

Context (wenv : WriteEnv) (Hwrite : write_cut wenv = None) (Hflush : flush_cut wenv = None).

Lemma finish_ok group st : exists session sealed l',
  finish_handshake calloc wenv suite ks (snapshot (hash_through suite ch sh (message_list f))) alpn group st =
    (Ok session, {| ci_in := ci_in st; ci_out := ci_out st ++ change_cipher_spec_record ++ sealed |}) /\
  guarded_seal calloc (fm_client_handshake f) CtHandshake (framed HANDSHAKE_FINISHED (hb_as_bytes (fm_expected_client_finished f))) 0 = Ok (sealed, l') /\
  session_negotiated session = {| n_suite := suite; n_alpn := alpn; n_key_share_group := group |} /\
  from_traffic_secret suite (fm_client_secret f) = Ok (session_write session) /\ session_read session = fm_server_application f.
Proof.
  destruct derived_schedule as [Hsu Hks]. destruct (dv_client Hd) as (ck & Hck & Hcl). destruct derived_layers as [_ (Hlw & Hlf & Hlq)].
  set (expected := fm_expected_client_finished f). pose proof derived_expected as Hel. fold expected in Hel. pose proof (output_len_bounds (suite_hash suite)) as Hob.
  unfold MAX_HASH_BYTES in Hob.
  assert (Hfm : finished_message calloc (hb_as_bytes expected) = Ok (framed HANDSHAKE_FINISHED (hb_as_bytes expected))).
  { unfold finished_message. rewrite guard_pass by (rewrite Hel; by destruct (suite_hash suite)). unfold encode_handshake.
    rewrite guard_pass by (apply Z.ltb_ge; unfold MAX_HANDSHAKE_BODY_LEN; lia).
    rewrite (bind_step _ (HANDSHAKE_HEADER_LEN + len (hb_as_bytes expected)))
      by (apply ok_or_ok, checked_add_some; unfold USIZE_MAX, U64_MAX, HANDSHAKE_HEADER_LEN; split; [done|lia]).
    rewrite guard_pass by (by rewrite Hcalloc). unfold push_u24. rewrite guard_pass by (apply Z.ltb_ge; unfold MAX_HANDSHAKE_BODY_LEN; lia).
    rewrite (bind_step (ok_or _ _) (len (hb_as_bytes expected))) by (apply ok_or_ok, try_from_some; unfold U32_MAX; split; [done|lia]).
    unfold framed. rewrite Hel. by destruct (suite_hash suite). }
  assert (Hfl : len (framed HANDSHAKE_FINISHED (hb_as_bytes expected)) <= 1000) by (unfold framed; rewrite len_cons, len_app, len_to_be; lia).
  destruct (seal_small calloc _ CtHandshake _ Hcalloc Hlw Hlf Hlq Hfl) as (sealed & l' & Hseal & Hguard).
  destruct (application_secrets_total ks (snapshot (hash_through suite ch sh (message_list f))) Hks) as (app' & Happ & Hall);
    [apply snapshot_wf|rewrite Hsu; apply snapshot_wf|].
  rewrite (dv_application Hd) in Happ. injection Happ as <-. rewrite !Forall_cons in Hall. destruct Hall as ([Ha1 Ha2] & _). rewrite Hsu in Ha2.
  destruct (from_traffic_secret_total suite (ap_client app) Ha1 Ha2) as (wl & Hwl & _).
  exists {| session_negotiated := {| n_suite := suite; n_alpn := alpn; n_key_share_group := group |}; session_write := wl; session_read := fm_server_application f |}, sealed, l'.
  split; [|split_and!; [done|done|by rewrite (dv_client_secret Hd)|done]].
  unfold finish_handshake, schedule_or, record_or, io_lift.
  rewrite (io_bind_ok _ _ st ck st) by (by rewrite Hck). rewrite (io_bind_ok _ _ st (fm_client_handshake f) st) by (by rewrite Hcl).
  rewrite (io_bind_ok _ _ st expected st) by (by rewrite (dv_expected Hd)).
  rewrite (io_bind_ok _ _ st (framed HANDSHAKE_FINISHED (hb_as_bytes expected)) st) by (by rewrite Hfm).
  rewrite (io_bind_ok _ _ st tt st) by (by rewrite Hcalloc).
  rewrite (io_bind_ok _ _ st (sealed, l') st) by (by rewrite Hseal). cbv beta iota.
  set (st1 := {| ci_in := ci_in st; ci_out := ci_out st ++ change_cipher_spec_record ++ sealed |}).
  rewrite (io_bind_ok _ _ st tt st1) by (unfold write_all; by rewrite Hwrite). rewrite (io_bind_ok _ _ st1 tt st1) by (unfold flush; by rewrite Hflush).
  rewrite (io_bind_ok _ _ st1 app st1) by (by rewrite (dv_application Hd)). rewrite (io_bind_ok _ _ st1 wl st1) by (by rewrite Hwl).
  by rewrite (io_bind_ok _ _ st1 (fm_server_application f) st1) by (by rewrite (dv_server_application Hd)).
Qed.
End Flight.

(** ** The built flight *)

Lemma hello_frame alloc sh r rest : 1 <= len sh <= 8192 -> plaintext_handshake_record alloc sh = Ok r ->
  frame_of (r ++ rest) = FrRecord r rest /\ outer_content_type r = OUTER_HANDSHAKE /\ get_range r RECORD_HEADER_LEN (len r) = Some sh.
Proof.
  intros Hl H. unfold plaintext_handshake_record in H. apply bind_ok in H as (n & [-> _]%ok_or_ok%try_from_some & H). apply bind_ok in H as (c & _ & H).
  apply bind_ok in H as (u & _ & H). set (hd := [x16; x03; x03] ++ to_be 2 (len sh)). assert (r = hd ++ sh) as -> by (by injection H as <-).
  assert (Hh : len hd = 5) by done. split_and!; [|done|].
  - apply frame_of_record; [done| |unfold MAX_TLS13_CIPHERTEXT_LEN, MAX_PLAINTEXT_LEN; lia]. unfold header_body_len.
    change (drop 3 hd) with (to_be 2 (len sh)). rewrite take_ge by (by rewrite length_to_be). apply from_be_to_be. change (256 ^ Z.of_nat 2) with 65536. lia.
  - unfold RECORD_HEADER_LEN. rewrite get_range_app_r by lia. rewrite Hh. apply get_range_all. rewrite len_app. lia.
Qed.

Section Built.
Context {C : CryptoOps} {K : KemOps} {T : Tls13Ops} {L : Tls13Laws T} {SO : SignOps} {SL : SignLaws SO}.
Context (secret_of : list byte -> Crypto.Secret) (alloc : Z -> bool).

(** The parts of a flight that was built. *)
Record flight_parts (client : ClientHello) (key : list byte) (target : ServerHelloTemplate) (i : CertificateIdentity) (flight : ServerFlight)
    (alpn : option (list byte)) (ka : KeyAgreement) (sh hello ccs enc nst : list byte) (f : FlightMessages) (ks : Tls13KeySchedule) (app : ApplicationTrafficSecrets) : Prop := {
  fp_alpn : forall p, alpn = Some p -> p ∈ alpn_protocols client;
  fp_patched : into_patched_message target (share_as_slice (ka_server_share ka)) = Ok sh;
  fp_derived : derived alloc (t_suite target) (ka_shared_secret ka) (raw_message client) sh key i alpn f ks app;
  fp_hello : plaintext_handshake_record alloc sh = Ok hello;
  fp_ccs : ccs_or_none ccs;
  fp_wire : sf_wire flight = hello ++ ccs ++ enc ++ nst;
  fp_serves : forall rest, serves alloc (fm_server_handshake f) [] (ccs ++ enc ++ rest) (message_list f) rest;
  fp_client_handshake : sf_client_handshake_records flight = fm_client_handshake f;
  fp_expected : sf_expected_client_finished flight = fm_expected_client_finished f;
  fp_suite : tls_suite (sf_established flight) = t_suite target;
  fp_client : from_traffic_secret (t_suite target) (fm_client_secret f) = Ok (client_records (sf_established flight));
  fp_ticket : ticket alloc (fm_server_application f) nst (server_records (sf_established flight));
}.

Lemma build_parts client key target i selected plan flight e e' :
  build_server_flight_inner secret_of alloc client key target i selected plan e = Ok (flight, e') ->
  exists alpn ka sh hello ccs enc nst f ks app e1, agree_key_share secret_of alloc client (t_key_share_group target) e = Ok (ka, e1) /\
    flight_parts client key target i flight alpn ka sh hello ccs enc nst f ks app.
Proof.
  unfold build_server_flight_inner. cbv zeta. set (sel := match plan with Some plan => cover_compatible_alpn alloc client selected plan | None => selected end). intros H.
  apply m_guard_ok in H as [Hsel H]. apply m_bind_ok in H as (ka & e1 & Hka & H). apply m_bind_ok in H as (sh & e2 & [Hsh%map_err_ok ->]%m_lift_ok & H).
  apply m_bind_ok in H as (cap & e3 & [_ ->]%m_lift_ok & H). apply m_guard_ok in H as [_ H]. apply m_bind_ok in H as (f & e4 & [Hf ->]%m_lift_ok & H).
  apply m_bind_ok in H as (pt & e5 & [Hpt%ok_or_ok ->]%m_lift_ok & H). apply m_bind_ok in H as ([n1 n2] & e6 & [_ ->]%m_lift_ok & H).
  apply m_guard_ok in H as [_ H]. apply m_bind_ok in H as (hello & e7 & [Hhello%map_err_ok ->]%m_lift_ok & H).
  apply m_bind_ok in H as (rem & e8 & [_ ->]%m_lift_ok & H). apply m_guard_ok in H as [_ H].
  apply m_bind_ok in H as ([wire sa] & e9 & [Hseal ->]%m_lift_ok & H). apply m_bind_ok in H as (cl & e10 & [Hcl%map_err_ok ->]%m_lift_ok & [= <- <-]).
  destruct (flight_messages_derived _ _ _ _ _ _ _ _ _ Hf) as (ks & app & Hd).
  assert (pt = concat (message_list f)) as ->.
  { rewrite get_range_app_r in Hpt by lia. rewrite Z.sub_diag, get_range_all in Hpt by (rewrite !len_app; lia). cbn [mbind option_bind] in Hpt. destruct (len (concat (message_list f)) <=? MAX_FLIGHT_PLAINTEXT); [by injection Hpt as <-|done]. }
  destruct (derived_layers _ _ _ _ _ _ _ _ _ _ _ Hd) as [[Hlw _] _].
  destruct (seal_flight_serve alloc _ _ _ _ _ _ _ _ _ _ Hlw (derived_framed _ _ _ _ _ _ _ _ _ _ _ Hd) Hseal) as (enc & nst & -> & Hticket & Hserve).
  set (ccs := if match plan with Some plan => emit_ccs plan | None => true end then change_cipher_spec_record else []) in *.
  assert (Hccs : ccs_or_none ccs) by (unfold ccs; destruct plan as [p|]; [destruct (emit_ccs p)|]; [by right|by left|by right]).
  exists sel, ka, sh, hello, ccs, enc, nst, f, ks, app, e1. split; [done|]. constructor; cbn; try done.
  - intros p Hp. rewrite Hp in Hsel. by apply negb_false_iff, bool_decide_eq_true in Hsel.
  - by rewrite <- app_assoc.
  - intros rest. by apply Hserve.
Qed.

(** *** The client's Finished on the server *)

Lemma finished_opened flight record l' :
  len (hb_as_bytes (sf_expected_client_finished flight)) < 16777216 ->
  open_in_place (sf_client_handshake_records flight) record = (Ok (CtHandshake, framed HANDSHAKE_FINISHED (hb_as_bytes (sf_expected_client_finished flight))), l') ->
  verify_client_finished flight record = Ok (sf_established flight).
Proof.
  intros Hl Hs. unfold verify_client_finished. set (d := hb_as_bytes (sf_expected_client_finished flight)) in *. pose proof (len_nonneg d).
  rewrite Hs. cbn [fst from_record map_err mbind result_bind reject_if].
  assert (H1 : get_range (framed HANDSHAKE_FINISHED d) 1 4 = Some (to_be 3 (len d))).
  { change (framed HANDSHAKE_FINISHED d) with ([HANDSHAKE_FINISHED] ++ to_be 3 (len d) ++ d). rewrite get_range_app_r by done. by apply get_range_prefix. }
  assert (H2 : get_range (framed HANDSHAKE_FINISHED d) 4 (len (framed HANDSHAKE_FINISHED d)) = Some d).
  { change (framed HANDSHAKE_FINISHED d) with (([HANDSHAKE_FINISHED] ++ to_be 3 (len d)) ++ d). rewrite get_range_app_r by done.
    apply get_range_all. rewrite len_app. change (len ([HANDSHAKE_FINISHED] ++ to_be 3 (len d))) with 4. lia. }
  rewrite H1, H2. cbn [fmap option_fmap option_map ok_or mbind result_bind]. unfold declared_len.
  rewrite from_be_to_be by (change (256 ^ Z.of_nat 3) with 16777216; lia). by rewrite !Z.eqb_refl, bytes_eqb_refl.
Qed.

Lemma finished_accepted flight calloc sealed l' :
  layer_wf (sf_client_handshake_records flight) -> len (hb_as_bytes (sf_expected_client_finished flight)) < 16777216 ->
  guarded_seal calloc (sf_client_handshake_records flight) CtHandshake (framed HANDSHAKE_FINISHED (hb_as_bytes (sf_expected_client_finished flight))) 0 = Ok (sealed, l') ->
  verify_client_finished flight sealed = Ok (sf_established flight).
Proof. intros Hw Hl Hs. apply (finished_opened flight sealed l'); [done|]. by apply (open_sealed calloc _ CtHandshake _ 0 sealed l'). Qed.

Lemma finished_read flight calloc env sealed l' t rest :
  read_env_ok env -> layer_wf (sf_client_handshake_records flight) -> len (hb_as_bytes (sf_expected_client_finished flight)) < 16777216 ->
  guarded_seal calloc (sf_client_handshake_records flight) CtHandshake (framed HANDSHAKE_FINISHED (hb_as_bytes (sf_expected_client_finished flight))) 0 = Ok (sealed, l') ->
  tp_stream t = (change_cipher_spec_record ++ sealed) ++ rest ->
  exists t', read_client_finished env true flight t = (Ok (sf_established flight), t') /\ tp_stream t' = rest.
Proof.
  intros Henv Hw Hl Hs Ht. rewrite <- app_assoc in Ht. unfold read_client_finished.
  destruct (read_framed env t _ _ Henv ltac:(by rewrite Ht, ccs_frame)) as (t1 & Hr1 & Ht1).
  destruct (sealed_frame _ _ _ _ _ _ _ rest Hw (Z.le_refl 0) Hs) as (Hf & Ho & _).
  destruct (read_framed env t1 _ _ Henv ltac:(by rewrite Ht1, Hf)) as (t2 & Hr2 & Ht2). exists t2. split; [|done].
  rewrite (io_bind_ok _ _ t tt t) by done. rewrite (io_bind_ok _ _ t change_cipher_spec_record t1) by (unfold io_map_err; by rewrite Hr1).
  rewrite (io_bind_ok _ _ t1 sealed t2).
  2: { rewrite bool_decide_true by done. rewrite (io_bind_ok _ _ t1 tt t1) by (by rewrite bytes_eqb_refl). unfold io_map_err. by rewrite Hr2. }
  rewrite (io_bind_ok _ _ t2 tt t2) by (by rewrite Ho). unfold io_lift. by rewrite (finished_accepted flight calloc sealed l').
Qed.
End Built.

(** ** Agreement *)

Lemma patched_parses m client target share sh :
  parse_server_hello m client = Ok target -> into_patched_message target share = Ok sh ->
  exists t', parse_server_hello sh client = Ok t' /\ t_message t' = sh /\ t_suite t' = t_suite target /\
    t_key_share_group t' = t_key_share_group target /\ observed_key_exchange t' = Some share /\ 1 <= len sh <= 8192.
Proof.
  intros (a & s & Hw & -> & ->)%server_parse_exact Hp. pose proof Hp as Hl. unfold into_patched_message in Hl.
  apply bind_ok in Hl as (u & Hl%reject_ok%negb_false_iff%Z.eqb_eq & _). unfold range_len, saturating_sub in Hl. cbn [template_of t_key_exchange fst snd] in Hl.
  pose proof (len_nonneg (as_exchange a)). assert (Hx : len share = len (as_exchange a)) by lia.
  destruct (patched_message client a s share Hw Hx) as [Hpatch Hparse]. rewrite Hpatch in Hp. injection Hp as <-.
  exists (template_of (with_exchange a share) s). split_and!; try done; [apply template_exchange| |].
  - unfold enc_server_hello. rewrite len_app. pose proof (len_nonneg (to_be 3 (len (enc_sbody (with_exchange a share))) ++ enc_sbody (with_exchange a share))).
    change (len [HANDSHAKE_SERVER_HELLO]) with 1. lia.
  - apply (proj2 (server_parse_exact _ _)) in Hparse as (a2 & s2 & Hw2 & Heq & _). rewrite Heq. destruct Hw2. assumption.
Qed.

(** A hello the server authenticates with the key of its own configuration gives
    both ends one authentication key. *)
Lemma same_auth_key `{CL : CryptoLaws} `{KL : KemLaws} (secret_of : list byte -> Crypto.Secret) (b64_decode : list byte -> option (list byte))
    name alpn keys sk auth rec key client cfg users a now r :
  RealityAgree.keys_wf keys -> plaintext_wf auth -> built name alpn keys (x25519_public (secret_of sk)) auth rec key -> parse_record (record rec) = Ok client ->
  compile secret_of b64_decode cfg users = Ok a -> b64_decode (private_key cfg) = Some sk -> authenticate a client now = Ok r -> auth_key r = key.
Proof.
  intros Hk Hw Hb Hp Hc Hsk Ha. destruct (built_parses _ _ _ _ _ _ _ Hk Hw Hb) as (h & m0 & Hp' & Hr & _ & _ & _ & Hpeer & _).
  rewrite Hp in Hp'. injection Hp' as <-. destruct (built_key _ _ _ _ _ _ _ _ Hb) as (shared & Hag & Hh).
  apply (authenticate_exact secret_of b64_decode cfg users a client now Hc) in Ha; [|rewrite Hr; apply (bl_random _ _ _ _ _ _ _ Hb)].
  destruct (au_key _ _ _ _ _ _ _ Ha) as (k' & peer & sh & Hk' & Hpe & Hag' & Hh'). rewrite Hsk in Hk'. injection Hk' as <-.
  rewrite Hpeer in Hpe. injection Hpe as <-. rewrite Hag in Hag'. injection Hag' as <-. rewrite Hr in Hh'. congruence.
Qed.

Section Complete.
Context {T : Tls13Ops} {TL : Tls13Laws T} {SO : SignOps} {SL : SignLaws SO} `{CL : CryptoLaws} `{KL : KemLaws} (alloc : Z -> bool).

(** The client completes the handshake on a flight built for its hello. *)
Lemma complete_ok client key target i flight alpn ka sh hello ccs enc nst f ks app m rec keys offered calloc env wenv st rest :
  flight_parts alloc client key target i flight alpn ka sh hello ccs enc nst f ks app -> agreed keys (t_key_share_group target) ka ->
  parse_server_hello m client = Ok target -> parse_message (hr_message rec) = Ok client -> raw_message client = hr_message rec ->
  (forall p, p ∈ alpn_protocols client -> p ∈ offered) ->
  (forall n, calloc n = true) -> read_env_ok env -> write_cut wenv = None -> flush_cut wenv = None -> tp_stream (ci_in st) = sf_wire flight ++ rest ->
  exists session t' sealed l',
    complete calloc env wenv rec keys key offered st =
      (Ok session, {| ci_in := t'; ci_out := ci_out st ++ change_cipher_spec_record ++ sealed |}) /\ tp_stream t' = nst ++ rest /\
    guarded_seal calloc (fm_client_handshake f) CtHandshake (framed HANDSHAKE_FINISHED (hb_as_bytes (fm_expected_client_finished f))) 0 = Ok (sealed, l') /\
    session_negotiated session = {| n_suite := t_suite target; n_alpn := alpn; n_key_share_group := t_key_share_group target |} /\
    session_write session = client_records (sf_established flight) /\ session_read session = fm_server_application f.
Proof.
  intros Hfp (shared & Hshared & Hbytes) Hparse Hmsg Hraw Hoff Hca Henv Hwr Hfl Hst. pose proof (fp_derived _ _ _ _ _ _ _ _ _ _ _ _ _ _ _ _ Hfp) as Hd.
  destruct (patched_parses _ _ _ _ _ Hparse (fp_patched _ _ _ _ _ _ _ _ _ _ _ _ _ _ _ _ Hfp)) as (t' & Hpt & Htm & Hts & Htg & Htx & Hlen).
  rewrite (fp_wire _ _ _ _ _ _ _ _ _ _ _ _ _ _ _ _ Hfp), <- app_assoc in Hst.
  destruct (hello_frame alloc sh hello ((ccs ++ enc ++ nst) ++ rest) Hlen (fp_hello _ _ _ _ _ _ _ _ _ _ _ _ _ _ _ _ Hfp)) as (Hfr & Hout & Hbody).
  destruct (read_framed env (ci_in st) _ _ Henv ltac:(by rewrite Hst, Hfr)) as (t1 & Hr1 & Ht1).
  set (st1 := {| ci_in := t1; ci_out := ci_out st |}).
  assert (Hserves : serves alloc (fm_server_handshake f) [] (tp_stream (ci_in st1)) (message_list f) (nst ++ rest)).
  { cbn. rewrite Ht1, <- !app_assoc. apply (fp_serves _ _ _ _ _ _ _ _ _ _ _ _ _ _ _ _ Hfp). }
  destruct (verify_flight_ok _ _ _ _ _ _ _ _ _ _ _ Hd calloc Hca env Henv offered st1 _ Hserves) as (t2 & Hverify & Ht2).
  { intros p Hp. by apply Hoff, (fp_alpn _ _ _ _ _ _ _ _ _ _ _ _ _ _ _ _ Hfp). }
  set (st2 := {| ci_in := t2; ci_out := ci_out st1 |}) in *.
  destruct (finish_ok _ _ _ _ _ _ _ _ _ _ _ Hd calloc Hca wenv Hwr Hfl (t_key_share_group target) st2) as (session & sealed & l' & Hfinish & Hseal & Hneg & Hwrite & Hread).
  exists session, t2, sealed, l'. split; [|split_and!; try done]. 2: { pose proof (fp_client _ _ _ _ _ _ _ _ _ _ _ _ _ _ _ _ Hfp) as Hc. congruence. }
  unfold complete. rewrite (io_bind_ok _ _ st client st) by (unfold io_lift; by rewrite Hmsg). rewrite (io_bind_ok _ _ st tt st) by (by rewrite Hca).
  rewrite (io_bind_ok _ _ st t' st1).
  2: { apply on_read_ok. unfold read_server_hello. rewrite (io_bind_ok _ _ _ hello t1) by (unfold io_map_err; by rewrite Hr1).
       rewrite (io_bind_ok _ _ t1 tt t1) by (by rewrite Hout). rewrite (io_bind_ok _ _ t1 sh t1) by (unfold io_lift; by rewrite Hbody).
       unfold io_lift. by rewrite Hpt. }
  rewrite (io_bind_ok _ _ st1 (share_as_slice (ka_server_share ka)) st1) by (unfold io_lift; by rewrite Htx).
  rewrite (io_bind_ok _ _ st1 shared st1) by (unfold io_lift; by rewrite Htg, Hshared). cbv zeta. rewrite Hts, Htm, Hbytes, <- Hraw.
  change (update (update (new_hasher (suite_hash (t_suite target))) (raw_message client)) sh) with (hash_hello (t_suite target) (raw_message client) sh).
  rewrite (io_bind_ok _ _ st1 ks st1) by (unfold schedule_or, io_lift; by rewrite (dv_schedule _ _ _ _ _ _ _ _ _ _ _ Hd)).
  destruct (dv_server _ _ _ _ _ _ _ _ _ _ _ Hd) as (sk & Hsk & Hsl). rewrite (io_bind_ok _ _ st1 sk st1) by (unfold schedule_or, io_lift; by rewrite Hsk).
  rewrite (io_bind_ok _ _ st1 (fm_server_handshake f) st1) by (unfold record_or, io_lift; by rewrite Hsl).
  rewrite (io_bind_ok _ _ _ _ _ Hverify). cbv beta iota. rewrite Htg. exact Hfinish.
Qed.
End Complete.

(** C2: a REALITY handshake agrees end to end. A client sends the hello it built
    with fresh keys for a server's public key; that server authenticates the
    hello and builds its flight on a ServerHello that answers it (a live cover's
    or a materialized profile), in one record or in the cover's four with or
    without a fake ticket. Then the client, whatever cuts the transport makes,
    completes on the flight's bytes: it selects the target's suite and group and
    an offered protocol (or none), its write layer is the server's read layer,
    its read layer is the server's write layer (behind the ticket record, the
    only bytes of the flight it leaves unread), and the server, reading the
    client's answer, accepts its Finished and enters the same state. *)
Theorem handshake_agreement `{CL : CryptoLaws} `{KL : KemLaws} `{TL : Tls13Laws} `{SL : SignLaws}
    (secret_of : list byte -> Crypto.Secret) (b64_decode : list byte -> option (list byte)) (alloc calloc : Z -> bool)
    profile keys name alpn auth rec key cfg users a sk now r client target identity selected plan flight e0 e1 e2 e3 e4 e5 env wenv st rest :
  for_profile secret_of profile e0 = Ok (keys, e1) -> alpn <> [] -> len alpn <= MAX_ALPN_PROTOCOLS -> plaintext_wf auth ->
  build_client_hello secret_of name alpn keys (x25519_public (secret_of sk)) auth e2 = Ok ((rec, key), e3) ->
  compile secret_of b64_decode cfg users = Ok a -> b64_decode (private_key cfg) = Some sk ->
  parse_record (record rec) = Ok client -> authenticate a client now = Ok r ->
  parse_server_hello (t_message target) client = Ok target ->
  build_server_flight_inner secret_of alloc client (auth_key r) target identity selected plan e4 = Ok (flight, e5) ->
  (forall n, calloc n = true) -> read_env_ok env -> write_cut wenv = None -> flush_cut wenv = None ->
  tp_stream (ci_in st) = sf_wire flight ++ rest ->
  exists session t' response nst,
    complete calloc env wenv rec keys key alpn st = (Ok session, {| ci_in := t'; ci_out := ci_out st ++ response |}) /\ tp_stream t' = nst ++ rest /\
    n_suite (session_negotiated session) = t_suite target /\ n_key_share_group (session_negotiated session) = t_key_share_group target /\
    (forall p, n_alpn (session_negotiated session) = Some p -> p ∈ alpn) /\
    session_write session = client_records (sf_established flight) /\ ticket alloc (session_read session) nst (server_records (sf_established flight)) /\
    (forall env' t rest', read_env_ok env' -> tp_stream t = response ++ rest' ->
      exists t'', read_client_finished env' true flight t = (Ok (sf_established flight), t'') /\ tp_stream t'' = rest').
Proof.
  intros Hprof Ha Hac Hw Hbuild Hcomp Hsk Hrec Hauth Htarget Hflight Hca Henv Hwr Hfl Hst.
  destruct (for_profile_wf secret_of profile _ _ _ Hprof) as [Hk _]. pose proof (for_profile_honest secret_of profile _ _ _ Hprof) as Hhon.
  pose proof (build_built secret_of name alpn keys _ auth Ha Hac Hk _ _ _ Hbuild) as Hb. cbn in Hb.
  rewrite (same_auth_key _ _ _ _ _ _ _ _ _ _ _ _ _ _ _ Hk Hw Hb Hrec Hcomp Hsk Hauth) in Hflight.
  destruct (built_offers _ _ _ _ _ _ _ Hw Hb) as (h & g & Hm & Hp & Hraw & Halpn & Hg & Hshares). rewrite Hrec in Hp. injection Hp as <-.
  destruct (build_parts _ _ _ _ _ _ _ _ _ _ _ Hflight) as (sel & ka & sh & hello & ccs & enc & nst & f & ks & app & e6 & Hka & Hfp).
  pose proof (agreement_ok _ _ _ _ _ _ _ _ _ Hhon Hg Hshares Hka) as Hagreed.
  destruct (complete_ok alloc _ _ _ _ _ _ _ _ _ _ _ _ _ _ _ _ rec keys alpn calloc env wenv st rest Hfp Hagreed Htarget Hm Hraw ltac:(by rewrite Halpn) Hca Henv Hwr Hfl Hst)
    as (session & t' & sealed & l' & Hc & Ht' & Hseal & Hneg & Hwrite & Hread).
  exists session, t', (change_cipher_spec_record ++ sealed), nst. rewrite Hneg, Hread.
  destruct (derived_layers _ _ _ _ _ _ _ _ _ _ _ (fp_derived _ _ _ _ _ _ _ _ _ _ _ _ _ _ _ _ Hfp)) as [_ (Hlw & _)].
  pose proof (derived_expected _ _ _ _ _ _ _ _ _ _ _ (fp_derived _ _ _ _ _ _ _ _ _ _ _ _ _ _ _ _ Hfp)) as Hel. pose proof (output_len_bounds (suite_hash (t_suite target))).
  rewrite <- (fp_client_handshake _ _ _ _ _ _ _ _ _ _ _ _ _ _ _ _ Hfp) in Hlw, Hseal. rewrite <- (fp_expected _ _ _ _ _ _ _ _ _ _ _ _ _ _ _ _ Hfp) in Hel, Hseal.
  split_and!; try done.
  - intros p Hsel. rewrite <- Halpn. by apply (fp_alpn _ _ _ _ _ _ _ _ _ _ _ _ _ _ _ _ Hfp).
  - apply (fp_ticket _ _ _ _ _ _ _ _ _ _ _ _ _ _ _ _ Hfp).
  - intros env' t rest' Henv' Ht. apply (finished_read flight calloc env' sealed l'); try done. unfold MAX_HASH_BYTES in *. lia.
Qed.

(** ** A concrete run on the transparent primitives *)

#[export] Instance toy_sign : SignOps := {
  SigningKey := list byte; VerifyingKey := list byte; signing_from_seed s := s; verifying_bytes k := fit 32 k;
  sign k m := fit 64 (fit 32 k ++ drop 98 m); verifying_from_bytes b := Some b;
  verify_strict v m s := bytes_eqb s (fit 64 (v ++ drop 98 m)); hmac_sha512 k m := fit 64 (fit 32 k ++ m);
}.

#[export] Instance toy_sign_laws : SignLaws toy_sign.
Proof.
  constructor; cbn -[fit drop].
  - intros k. apply (len_fit 32).
  - intros k m. apply (len_fit 64).
  - intros k m. exists (fit 32 k). split; [done|apply bytes_eqb_refl].
  - intros k m. apply (len_fit 64).
Qed.

Definition run_target : ServerHelloTemplate :=
  template_of {| as_random := replicate 32 x42; as_session := hr_session_id sample_record.1; as_suite := 4866; as_before := [XVersion 772];
    as_group := X25519_MLKEM768_GROUP; as_exchange := replicate 1120 x55; as_after := [] |} Aes256GcmSha384.

(** The cover's plan: four records, no ChangeCipherSpec, and a ticket. *)
Definition run_plan : CoverHandshakePlan := {| emit_ccs := false; shape := PositionalRecords 100 300 200 120 (Some 90) |}.

Definition run_identity : CertificateIdentity := {| signing_key := replicate 32 x07 |}.

Definition run_build : result RealityHandshakeError (ServerFlight * list byte) :=
  build_server_flight_inner toy_secret (fun _ => true) sample_parsed sample_record.2 run_target run_identity (Some (bytes_of "h2")) (Some run_plan) (replicate 64 x09).

Definition run_flight : ServerFlight :=
  match run_build with
  | Ok (f, _) => f
  | _ => {| sf_wire := []; sf_server_hello_end := 0; sf_encrypted_handshake_start := 0; sf_client_handshake_records := rs_records no_session;
            sf_expected_client_finished := zeroed Sha256;
            sf_established := {| tls_suite := Aes128GcmSha256; client_records := rs_records no_session; server_records := rs_records no_session |} |}
  end.
Definition run_left : list byte := match run_build with Ok (_, e) => e | _ => [] end.

Definition run_start : ClientIo := {| ci_in := {| tp_stream := sf_wire run_flight ++ [x01]; tp_reads := 0 |}; ci_out := [] |}.
Definition run_wenv : WriteEnv := {| write_cut := None; flush_cut := None |}.

Definition run_auth : RealityAuthResult :=
  {| client_version := CLIENT_VERSION; client_time := 1700000000; r_user_id := sample_user; auth_key := sample_record.2 |}.

Lemma handshake_agreement_witness : exists session t' response nst,
  complete (fun _ => true) (example_read_env 40) run_wenv sample_record.1 sample_keys sample_record.2 [bytes_of "h2"] run_start =
    (Ok session, {| ci_in := t'; ci_out := response |}) /\
  tp_stream t' = nst ++ [x01] /\ session_write session = client_records (sf_established run_flight).
Proof.
  destruct (handshake_agreement (C := toy_ops) (K := toy_kem) (C0 := toy_tls) (S0 := toy_sign) toy_secret toy_b64 (fun _ => true) (fun _ => true) Chrome
    sample_keys (bytes_of "www.example.com") [bytes_of "h2"] sample_auth sample_record.1 sample_record.2 sample_config sample_users sample_server
    (replicate 32 x11) 1700000042 run_auth sample_parsed run_target run_identity (Some (bytes_of "h2")) (Some run_plan) run_flight
    sample_entropy [] (replicate 600 x06) sample_left (replicate 64 x09) run_left (example_read_env 40) run_wenv run_start [x01])
    as (session & t' & response & nst & Hc & Ht & _ & _ & _ & Hw & _).
  - vm_compute. reflexivity.
  - done.
  - vm_compute. discriminate.
  - split; [reflexivity|]. split; [vm_compute; split; discriminate|reflexivity].
  - vm_compute. reflexivity.
  - exact sample_compiles.
  - reflexivity.
  - vm_compute. reflexivity.
  - vm_compute. reflexivity.
  - vm_compute. reflexivity.
  - vm_compute. reflexivity.
  - done.
  - apply example_read_env_ok.
  - reflexivity.
  - reflexivity.
  - reflexivity.
  - exists session, t', response, nst. split; [exact Hc|]. split; [exact Ht|exact Hw].
Defined.
