(* ===== verification/HandshakeSound.v ===== *)
(** * What a completed handshake has checked

    The client never panics on the bytes a server sends and completes only on an
    authenticated flight; the server accepts exactly the Finished it expects. *)

From S2P Require Import Prelude Cursor Effects Crypto ClientHello HelloExact RealityAuth ClientOffer RealityAgree Tls13Keys HandoffBlob Tls13Record TlsReader TlsMessages ServerHello ServerHelloExact RecordRead ServerFlight ClientVerify ClientHandshake HandshakeAgree.
#[local] Open Scope Z_scope.

(** ** No panics *)

Ltac np :=
  repeat first
    [ apply no_panic_guard; intros _
    | apply no_panic_bind; [|intros ? _]
    | solve [auto with rust]
    | match goal with |- no_panic (match ?x with _ => _ end) => destruct x end ].

Section KeysNoPanic.
Context {T : Tls13Ops}.

Lemma np_expand_label h s label context n : no_panic (expand_label h s label context n).
Proof. unfold expand_label, hkdf_label. np. Qed.

Lemma np_derive_secret h s label t : no_panic (derive_secret h s label t).
Proof. unfold derive_secret. np. Qed.

Lemma np_new_schedule suite shared t : no_panic (new_schedule suite shared t).
Proof. unfold new_schedule. cbv zeta. np. Qed.

Lemma np_traffic_keys suite s : no_panic (derive_traffic_keys suite s).
Proof. unfold derive_traffic_keys. cbv zeta. np. Qed.

Lemma np_finished_data ks s t : no_panic (finished_verify_data ks s t).
Proof. unfold finished_verify_data. cbv zeta. np. Qed.

Lemma np_application ks t : no_panic (application_traffic_secrets ks t).
Proof. unfold application_traffic_secrets. cbv zeta. np. Qed.

Lemma np_record_cipher suite k : no_panic (record_cipher suite k).
Proof. unfold record_cipher. np. Qed.

Lemma np_new_layer suite k : no_panic (new_layer suite k).
Proof. unfold new_layer. np; apply np_record_cipher. Qed.

Lemma np_from_traffic_secret suite s : no_panic (from_traffic_secret suite s).
Proof. unfold from_traffic_secret. np; [apply no_panic_map_err, np_traffic_keys|apply np_record_cipher]. Qed.

Lemma np_seal_into alloc l t pt pad : no_panic (seal_into alloc l t pt pad).
Proof.
  unfold seal_into, advance, ensure_key_available, ensure_write_ready. cbv zeta. np.
Qed.

Lemma np_open_in_place l record : no_panic (open_in_place l record).1.
Proof.
  unfold open_in_place. pose proof (record_checked_no_panic l record) as Hn. unfold advance.
  destruct (open_checked l record) as [region|e|]; [|done|by destruct Hn].
  destruct (checked_add U64_MAX (rl_sequence l) 1); [|done]. cbn. pose proof (strip_content_outcome region) as Hs. unfold no_panic. intros E. by rewrite E in Hs.
Qed.
End KeysNoPanic.

(** ** The messages *)

Section VerifyNoPanic.
Context {SO : SignOps}.

(** [V] computations that end, leaving no more than they were given. *)
Definition quiet_v {A} (p : V A) : Prop := forall s, no_panic (p s) /\ forall a s', p s = Ok (a, s') -> (length s' <= length s)%nat.

Lemma cvq_bind {A B} (p : V A) (q : A -> V B) : quiet_v p -> (forall a, quiet_v (q a)) -> quiet_v (p ≫= q).
Proof.
  intros Hp Hq s. destruct (Hp s) as [Hn Hl]. split.
  - apply no_panic_M_bind; [done|]. intros a s' _. apply Hq.
  - intros b s' (a & s1 & H1 & H2)%m_bind_ok. apply Hl in H1. apply (Hq a) in H2. lia.
Qed.

Lemma cvq_ret {A} (a : A) : quiet_v (mret a).
Proof. intros s. split; [done|]. by intros ? ? [= <- <-]. Qed.

Lemma quiet_lift {A} (r : result CertificateError A) : no_panic r -> quiet_v (lift r).
Proof. intros Hr s. split; [unfold lift; by destruct r|]. by intros a s' [_ ->]%m_lift_ok. Qed.

Lemma cvq_guard {A} b e (k : V A) : quiet_v k -> quiet_v (u ← return_if b e; k).
Proof. intros Hk. apply cvq_bind; [|done]. apply quiet_lift. by destruct b. Qed.

Lemma quiet_read e n : quiet_v (cv_read e n).
Proof.
  intros s. unfold cv_read. destruct (n <=? len s); (split; [done|]); [|done]. intros b s' [= <- <-]. rewrite length_drop. lia.
Qed.

Lemma cvq_empty {A} (k : bool -> V A) : (forall b, quiet_v (k b)) -> quiet_v (b ← cv_is_empty; k b).
Proof. intros Hk. apply cvq_bind; [|done]. intros s. split; [done|]. by intros b s' [-> _]%cv_empty_ok. Qed.

Lemma cvq_u8 : quiet_v cv_read_u8.
Proof. apply cvq_bind; [apply quiet_read|]. intros b. apply quiet_lift. auto with rust. Qed.
Lemma cvq_u16 : quiet_v cv_read_u16.
Proof. apply cvq_bind; [apply quiet_read|]. intros. apply cvq_ret. Qed.
Lemma cvq_u24 : quiet_v cv_read_u24.
Proof. apply cvq_bind; [apply quiet_read|]. intros. apply cvq_ret. Qed.
Lemma quiet_vector f : quiet_v (read_vector f).
Proof. apply cvq_bind; [apply cvq_u16|]. intros. apply quiet_read. Qed.
Lemma quiet_vector24 f : quiet_v (read_vector_u24 f).
Proof. apply cvq_bind; [apply cvq_u24|]. intros. apply quiet_read. Qed.

(** A read that succeeds where there is input consumes some. *)
Lemma u8_shorter s b s' : cv_read_u8 s = Ok (b, s') -> (length s' < length s)%nat.
Proof. intros ->%cv_u8_ok. cbn. lia. Qed.
Lemma u16_shorter s v s' : cv_read_u16 s = Ok (v, s') -> (length s' < length s)%nat.
Proof. intros [-> _]%cv_u16_ok. rewrite length_app, length_to_be. lia. Qed.

Lemma np_body t m : no_panic (body t m).
Proof.
  unfold body, no_panic. intros E. destruct ((kind ← cv_read_u8; _) m) as [[a s]|e|] eqn:H; try done. revert H.
  apply (cvq_bind cv_read_u8 _ cvq_u8). intros k. apply cvq_guard, cvq_bind; [apply cvq_u24|]. intros n.
  apply cvq_bind; [|intros r; apply cvq_guard, quiet_read]. intros s. split; [done|]. by intros a s' [= <- <-].
Qed.

Lemma np_claimed fuel : forall claimed s, (length s <= fuel)%nat -> no_panic (claimed_loop fuel claimed s).
Proof.
  induction fuel as [|fuel IH]; intros claimed s Hs; cbn [claimed_loop]; apply no_panic_M_bind; try done; intros b s' [-> ->]%cv_empty_ok.
  - destruct s; [done|cbn in Hs; lia].
  - case_bool_decide; [done|]. apply no_panic_M_bind; [apply cvq_u8|]. intros n s1 H1%u8_shorter.
    apply no_panic_M_bind; [apply quiet_read|]. intros c s2 H2. apply (quiet_read CeTruncated (u8 n) s1) in H2.
    apply no_panic_M_bind; [by destruct (_ || _)|]. intros u s3 H3. apply m_lift_ok in H3 as [_ ->]. apply IH. lia.
Qed.

Lemma np_alpn offered selected s : no_panic (alpn_extension offered selected s).
Proof.
  unfold alpn_extension. apply no_panic_M_bind; [apply quiet_vector|]. intros p s1 _. apply no_panic_M_bind.
  - unfold lift. pose proof (np_claimed (length p) None p (Nat.le_refl _)) as Hn. destruct (claimed_loop _ _ _); done.
  - intros [c r] s2 _. apply cvq_bind; [apply quiet_lift; auto with rust|]. intros x. do 2 apply cvq_guard. apply cvq_ret.
Qed.

Lemma np_selected fuel offered : forall seen selected s, (length s <= fuel)%nat -> no_panic (selected_loop fuel offered seen selected s).
Proof.
  induction fuel as [|fuel IH]; intros seen selected s Hs; cbn [selected_loop]; apply no_panic_M_bind; try done; intros b s' [-> ->]%cv_empty_ok.
  - destruct s; [done|cbn in Hs; lia].
  - case_bool_decide; [done|]. apply no_panic_M_bind; [apply cvq_u16|]. intros t s1 H1%u16_shorter.
    apply no_panic_M_bind; [by case_bool_decide|]. intros u s2 [_ ->]%m_lift_ok.
    apply no_panic_M_bind; [apply quiet_vector|]. intros x s3 H3. apply (quiet_vector "extension length" s1) in H3.
    apply no_panic_M_bind.
    + unfold lift. destruct (t =? EXTENSION_ALPN); [|done]. pose proof (np_alpn offered selected x) as Hn. by destruct (alpn_extension _ _ _).
    + intros [sel rest] s4 [_ ->]%m_lift_ok. apply no_panic_M_bind; [by case_bool_decide|]. intros u1 s5 [_ ->]%m_lift_ok. apply IH. lia.
Qed.

Lemma np_extensions m offered : no_panic (parse_encrypted_extensions m offered).
Proof.
  unfold parse_encrypted_extensions. apply no_panic_bind; [apply np_body|]. intros b _. apply no_panic_bind; [apply quiet_vector|].
  intros [x r] _. apply no_panic_guard; intros _. pose proof (np_selected (length x) offered [] None x (Nat.le_refl _)) as Hn.
  by destruct (selected_loop _ _ _ _ _).
Qed.

Lemma quiet_entry : quiet_v read_certificate_entry.
Proof.
  apply cvq_bind; [apply quiet_vector24|]. intros e. apply cvq_bind.
  - apply quiet_lift. apply cvq_bind; [apply cvq_u24|]. intros n. apply cvq_bind; [apply quiet_read|]. intros c.
    apply cvq_bind; [apply cvq_u16|]. intros x. apply cvq_bind; [apply quiet_read|]. intros _. apply cvq_empty. intros b. apply cvq_guard, cvq_ret.
  - intros [c r]. apply cvq_ret.
Qed.

Lemma np_certificate m key : no_panic (verify_server_certificate m key).
Proof.
  unfold verify_server_certificate. apply no_panic_bind; [apply np_body|]. intros b _. apply no_panic_bind.
  - apply (cvq_bind cv_read_u8); [apply cvq_u8|]. intros c. apply cvq_guard, quiet_entry.
  - intros [c r] _. np.
Qed.

Lemma np_signature m pk h : no_panic (verify_certificate_signature m pk h).
Proof.
  unfold verify_certificate_signature. apply no_panic_guard; intros _. apply no_panic_bind; [apply np_body|]. intros b _. apply no_panic_bind.
  - apply (cvq_bind cv_read_u16); [apply cvq_u16|]. intros c. apply cvq_guard, quiet_vector.
  - intros [c r] _. np.
Qed.

Lemma np_finished m d : no_panic (verify_finished m d).
Proof. unfold verify_finished. apply no_panic_bind; [apply np_body|]. intros b _. np. Qed.
End VerifyNoPanic.

(** ** What the client took from the stream *)

Lemma io_bind_inv {St E A B} (m : IO St E A) (k : A -> IO St E B) s b s' :
  (m ≫= k) s = (Ok b, s') -> exists a s1, m s = (Ok a, s1) /\ k a s1 = (Ok b, s').
Proof. unfold mbind, IO_bind. destruct (m s) as [[a|e|] s1]; naive_solver. Qed.

Lemma io_check_inv {St E} b (e : E) u (s s' : St) : io_check b e s = (Ok u, s') -> b = true /\ s' = s.
Proof. unfold io_check. destruct b; [by intros [= _ ->]|done]. Qed.

Lemma io_lift_inv {St E A} (r : result E A) (s s' : St) a : io_lift r s = (Ok a, s') -> r = Ok a /\ s' = s.
Proof. by intros [= -> ->]. Qed.

Lemma io_map_err_inv {St E E' A} (f : E -> E') (m : IO St E A) s a s' : io_map_err f m s = (Ok a, s') -> m s = (Ok a, s').
Proof. unfold io_map_err. destruct (m s) as [[x|e|] s1]; naive_solver. Qed.

Lemma io_quiet_bind {St E A B} (m : IO St E A) (k : A -> IO St E B) s :
  no_panic (m s).1 -> (forall a s', m s = (Ok a, s') -> no_panic (k a s').1) -> no_panic ((m ≫= k) s).1.
Proof. unfold mbind, IO_bind, no_panic. destruct (m s) as [[a|e|] s1]; naive_solver. Qed.

Lemma io_quiet_check {St E} b (e : E) (s : St) : no_panic (io_check b e s).1.
Proof. unfold io_check. by destruct b. Qed.

Section Reading.
Context {T : Tls13Ops}.

(** [delivered l stream bytes l' rest]: the records at the head of [stream] are
    compatibility ChangeCipherSpecs and handshake records that open one after the
    other under [l], with the contents [bytes]. *)
Inductive delivered : Tls13RecordLayer -> list byte -> list byte -> Tls13RecordLayer -> list byte -> Prop :=
| delivered_end l s : delivered l s [] l s
| delivered_ccs l s bytes l' rest : delivered l s bytes l' rest -> delivered l (change_cipher_spec_record ++ s) bytes l' rest
| delivered_record l l1 r s pt bytes l' rest :
    open_in_place l r = (Ok (CtHandshake, pt), l1) -> delivered l1 s bytes l' rest -> delivered l (r ++ s) (pt ++ bytes) l' rest.

Lemma delivered_trans l s b1 l1 s1 b2 l2 s2 : delivered l s b1 l1 s1 -> delivered l1 s1 b2 l2 s2 -> delivered l s (b1 ++ b2) l2 s2.
Proof.
  induction 1 as [| |? ? ? ? ? ? ? ? Ho _ IH]; intros H2; [done|by apply delivered_ccs; auto|]. rewrite <- app_assoc. eapply delivered_record; [exact Ho|]. auto.
Qed.

Context (alloc : Z -> bool) (env : ReadEnv) (Henv : read_env_ok env).

Lemma take_message_split bytes r : take_message bytes = Ok r -> bytes = default [] r.1 ++ r.2.
Proof.
  unfold take_message. destruct (len bytes <? 4); [by intros [= <-]|]. intros H. apply bind_ok in H as (n & _ & H). apply bind_ok in H as (t & _ & H).
  destruct (len bytes <? t); injection H as <-; cbn; [done|]. by rewrite take_drop.
Qed.

Lemma push_message_ok bytes pt r : push_message alloc bytes pt = Ok r -> r = bytes ++ pt.
Proof. unfold push_message. intros H. apply bind_ok in H as (n & _ & H). by apply bind_ok in H as (u & _ & [= <-]). Qed.

Lemma next_message_delivered fuel : forall l flight t m l' flight' t',
  next_message_loop alloc env fuel l flight t = (Ok (m, l', flight'), t') ->
  exists bytes, delivered l (tp_stream t) bytes l' (tp_stream t') /\ flight ++ bytes = m ++ flight'.
Proof.
  induction fuel as [|fuel IH]; intros l flight t m l' flight' t' H; cbn [next_message_loop] in H;
    apply io_bind_inv in H as ([taken fl] & t1 & [Htake ->]%io_lift_inv & H); pose proof (take_message_split _ _ Htake) as Hsplit; cbn [fst snd] in Hsplit.
  - destruct taken as [msg|]; [|done]. injection H as <- <- <- <-. exists []. rewrite app_nil_r. split; [apply delivered_end|done].
  - destruct taken as [msg|]; [injection H as <- <- <- <-; exists []; rewrite app_nil_r; split; [apply delivered_end|done]|]. cbn [default app] in Hsplit. subst fl.
    apply io_bind_inv in H as (wire & t2 & Hread%io_map_err_inv & H). pose proof (read_tls_record_spec env t Henv) as Hspec. rewrite Hread in Hspec.
    apply frame_of_split in Hspec as [Hst _]. cbv zeta in H. case_bool_decide as Hccs.
    + apply io_bind_inv in H as (u & t3 & [->%bytes_eqb_eq ->]%io_check_inv & H). destruct (IH _ _ _ _ _ _ _ H) as (bytes & Hd & Hb).
      exists bytes. rewrite Hst. split; [by apply delivered_ccs|done].
    + case_bool_decide as Hout; [|case_bool_decide; done]. destruct (open_in_place l wire) as [opened l1] eqn:Ho.
      apply io_bind_inv in H as ([ct pt] & t3 & [Hop%map_err_ok ->]%io_lift_inv & H). subst opened.
      apply io_bind_inv in H as (u & t4 & [Hct ->]%io_check_inv & H). destruct ct; try done.
      apply io_bind_inv in H as (fl & t5 & [->%push_message_ok ->]%io_lift_inv & H). destruct (IH _ _ _ _ _ _ _ H) as (bytes & Hd & Hb).
      exists (pt ++ bytes). rewrite Hst. split; [by eapply delivered_record|]. by rewrite app_assoc.
Qed.

(** The fuel is enough. *)
Lemma np_take_message bytes : no_panic (take_message bytes).
Proof.
  unfold take_message. destruct (Z.ltb_spec (len bytes) 4); [done|]. apply no_panic_bind; [apply slice_no_panic; lia|]. intros n _. np.
Qed.

Lemma np_next_message fuel : forall l flight t, (length (tp_stream t) < fuel)%nat -> no_panic (next_message_loop alloc env fuel l flight t).1.
Proof.
  induction fuel as [|fuel IH]; intros l flight t Hf; [lia|]. cbn [next_message_loop]. apply io_quiet_bind; [apply np_take_message|].
  intros [[msg|] fl] t1 [_ ->]%io_lift_inv; [done|]. pose proof (read_tls_record_spec env t Henv) as Hspec. apply io_quiet_bind.
  { unfold io_map_err. destruct (read_tls_record env t) as [[w|e|] t2]; cbn; done. }
  intros wire t2 Hread%io_map_err_inv. rewrite Hread in Hspec. apply frame_of_split in Hspec as [Hst Hlen].
  assert (Hs : (length (tp_stream t2) < fuel)%nat) by (rewrite Hst, length_app in Hf; unfold len in Hlen; lia). cbv zeta.
  case_bool_decide; [apply io_quiet_bind; [apply io_quiet_check|]; intros u t3 [_ ->]%io_check_inv; by apply IH|].
  case_bool_decide; [|by case_bool_decide]. pose proof (np_open_in_place l wire) as Hn. destruct (open_in_place l wire) as [opened l1].
  apply io_quiet_bind; [unfold io_lift; by apply no_panic_map_err|]. intros [ct pt] t3 [_ ->]%io_lift_inv.
  apply io_quiet_bind; [apply io_quiet_check|]. intros u t4 [_ ->]%io_check_inv. apply io_quiet_bind.
  { unfold io_lift, push_message. np. }
  intros fl' t5 [_ ->]%io_lift_inv. by apply IH.
Qed.
End Reading.

(** ** A completed handshake *)

Lemma alpn_offered offered fuel : forall seen selected s v s', (forall p, selected = Some p -> p ∈ offered) ->
  selected_loop fuel offered seen selected s = Ok (v, s') -> forall p, v = Some p -> p ∈ offered.
Proof.
  induction fuel as [|fuel IH]; intros seen selected s v s' Hsel H; cbn [selected_loop] in H; apply m_bind_ok in H as (b & s1 & [-> ->]%cv_empty_ok & H);
    case_bool_decide; try done; [by injection H as <- <-..|].
  apply m_bind_ok in H as (t & s2 & _ & H). apply m_guard_ok in H as [_ H]. apply m_bind_ok in H as (x & s3 & _ & H).
  apply m_bind_ok in H as ([sel r] & s4 & [Hx ->]%m_lift_ok & H). apply m_guard_ok in H as [_ H]. eapply IH; [|exact H].
  intros p ->. destruct (t =? EXTENSION_ALPN); [|injection Hx as -> _; by apply Hsel].
  unfold alpn_extension in Hx. apply m_bind_ok in Hx as (ps & s5 & _ & Hx). apply m_bind_ok in Hx as ([c r1] & s6 & _ & Hx).
  apply m_bind_ok in Hx as (c' & s7 & _ & Hx). apply m_guard_ok in Hx as [Hin%negb_false_iff%bool_decide_eq_true Hx].
  apply m_guard_ok in Hx as [_ [= <- <-]]. done.
Qed.

Lemma extensions_offered m offered v p : parse_encrypted_extensions m offered = Ok v -> v = Some p -> p ∈ offered.
Proof.
  unfold parse_encrypted_extensions. intros H Hv. apply bind_ok in H as (b & _ & H). apply bind_ok in H as ([x r] & _ & H).
  apply bind_ok in H as (u & _ & H). apply fst_ok in H as (s & H). by eapply alpn_offered; [|exact H|].
Qed.

Section Proved.
Context {C : CryptoOps} {K : KemOps} {T : Tls13Ops} {SO : SignOps} {SL : SignLaws SO}.

(** What a session rests on: a ServerHello that answers the client's own hello,
    the schedule of the secret agreed with it, four messages opened from the
    stream under that schedule's server keys (and what the stream holds after
    them), the certificate bound to the authentication key, the signature and the
    Finished over the transcript, and the traffic secrets of that transcript. *)
Record server_proved (hello : HelloRecord) (keys : ClientKeyAgreement) (auth_key : list byte) (offered : list (list byte)) (stream rest : list byte)
    (session : ClientSession) (t : ServerHelloTemplate) (ks : Tls13KeySchedule) (ee cert cv fin : list byte) : Prop := {
  sp_answers : exists client, parse_message (hr_message hello) = Ok client /\ parse_server_hello (t_message t) client = Ok t;
  sp_keys : exists x shared, observed_key_exchange t = Some x /\ tls_shared_secret keys (t_key_share_group t) x = Some shared /\
    new_schedule (t_suite t) (shared_as_bytes shared) (snapshot (hash_hello (t_suite t) (hr_message hello) (t_message t))) = Ok ks;
  sp_stream : exists record s1 k l l' unread, stream = record ++ s1 /\ get_range record RECORD_HEADER_LEN (len record) = Some (t_message t) /\
    derive_traffic_keys (ks_suite ks) (ks_server_handshake ks) = Ok k /\ new_layer (t_suite t) k = Ok l /\
    delivered l s1 (ee ++ cert ++ cv ++ fin ++ unread) l' rest;
  sp_certificate : exists der exts public_key signature v,
    cert = framed HANDSHAKE_CERTIFICATE (certificate_body der exts) /\ bound_certificate auth_key der public_key /\
    cv = framed HANDSHAKE_CERTIFICATE_VERIFY (signature_body signature) /\ verifying_from_bytes public_key = Some v /\
    verify_strict v (signed_content (hb_as_bytes (snapshot (hash_through (t_suite t) (hr_message hello) (t_message t) [ee; cert])))) signature = true;
  sp_finished : exists d, finished_verify_data ks (ks_server_handshake ks) (snapshot (hash_through (t_suite t) (hr_message hello) (t_message t) [ee; cert; cv])) = Ok d /\
    fin = framed HANDSHAKE_FINISHED (hb_as_bytes d);
  sp_session : exists app, application_traffic_secrets ks (snapshot (hash_through (t_suite t) (hr_message hello) (t_message t) [ee; cert; cv; fin])) = Ok app /\
    from_traffic_secret (t_suite t) (ap_client app) = Ok (session_write session) /\ from_traffic_secret (t_suite t) (ap_server app) = Ok (session_read session);
  sp_negotiated : n_suite (session_negotiated session) = t_suite t /\ n_key_share_group (session_negotiated session) = t_key_share_group t /\
    forall p, n_alpn (session_negotiated session) = Some p -> p ∈ offered;
}.

Context (alloc : Z -> bool) (env : ReadEnv) (Henv : read_env_ok env) (wenv : WriteEnv).

Lemma on_read_inv {E A} (m : IO Transport E A) st a st' :
  on_read m st = (Ok a, st') -> m (ci_in st) = (Ok a, ci_in st') /\ ci_out st' = ci_out st.
Proof. unfold on_read. destruct (m (ci_in st)) as [r t]. by intros [= -> <-]. Qed.

Lemma next_inv l flight st m l' flight' st' : on_read (next_message alloc env l flight) st = (Ok (m, l', flight'), st') ->
  ci_out st' = ci_out st /\ exists bytes, delivered l (tp_stream (ci_in st)) bytes l' (tp_stream (ci_in st')) /\ flight ++ bytes = m ++ flight'.
Proof.
  intros [H Ho]%on_read_inv. split; [done|]. unfold next_message, io_reads in H. rewrite io_get_bind in H.
  by apply next_message_delivered in H.
Qed.

Lemma verify_flight_inv ks l h0 key offered st h alpn st' :
  verify_flight alloc env ks l h0 key offered st = (Ok (h, alpn), st') ->
  ci_out st' = ci_out st /\ exists ee cert cv fin l' unread pk d,
    delivered l (tp_stream (ci_in st)) (ee ++ cert ++ cv ++ fin ++ unread) l' (tp_stream (ci_in st')) /\
    parse_encrypted_extensions ee offered = Ok alpn /\ verify_server_certificate cert key = Ok pk /\
    verify_certificate_signature cv pk (hb_as_bytes (snapshot (update (update h0 ee) cert))) = Ok tt /\
    finished_verify_data ks (ks_server_handshake ks) (snapshot (update (update (update h0 ee) cert) cv)) = Ok d /\
    verify_finished fin (hb_as_bytes d) = Ok tt /\ h = update (update (update (update h0 ee) cert) cv) fin.
Proof.
  unfold verify_flight, certificate_or, schedule_or. cbv zeta. intros H.
  apply io_bind_inv in H as ([[ee l1] f1] & s1 & [Ho1 (b1 & D1 & E1)]%next_inv & H). apply io_bind_inv in H as (al & s1' & [P1%map_err_ok ->]%io_lift_inv & H).
  apply io_bind_inv in H as ([[cert l2] f2] & s2 & [Ho2 (b2 & D2 & E2)]%next_inv & H). apply io_bind_inv in H as (pk & s2' & [P2%map_err_ok ->]%io_lift_inv & H).
  apply io_bind_inv in H as ([[cv l3] f3] & s3 & [Ho3 (b3 & D3 & E3)]%next_inv & H). apply io_bind_inv in H as ([] & s3' & [P3%map_err_ok ->]%io_lift_inv & H).
  apply io_bind_inv in H as ([[fin l4] f4] & s4 & [Ho4 (b4 & D4 & E4)]%next_inv & H). apply io_bind_inv in H as (d & s4' & [P4%map_err_ok ->]%io_lift_inv & H).
  apply io_bind_inv in H as ([] & s4'' & [P5%map_err_ok ->]%io_lift_inv & [= <- <- <-]). split; [congruence|].
  exists ee, cert, cv, fin, l4, f4, pk, d. split; [|by split_and!].
  assert (Hb : b1 ++ b2 ++ b3 ++ b4 = ee ++ cert ++ cv ++ fin ++ f4).
  { cbn [app] in E1. rewrite E1, <- app_assoc, (app_assoc f1), E2, <- app_assoc, (app_assoc f2), E3, <- app_assoc, E4. done. }
  rewrite <- Hb. eapply delivered_trans; [exact D1|]. eapply delivered_trans; [exact D2|]. by eapply delivered_trans.
Qed.

(** The client's answer is its Finished over the whole flight. *)
Lemma finish_inv suite ks h alpn group st session st' :
  finish_handshake alloc wenv suite ks h alpn group st = (Ok session, st') ->
  ci_in st' = ci_in st /\ (exists k l d m sealed l', derive_traffic_keys (ks_suite ks) (ks_client_handshake ks) = Ok k /\ new_layer suite k = Ok l /\
    finished_verify_data ks (ks_client_handshake ks) h = Ok d /\ finished_message alloc (hb_as_bytes d) = Ok m /\
    seal_into alloc l CtHandshake m 0 = Ok (sealed, l') /\ ci_out st' = ci_out st ++ change_cipher_spec_record ++ sealed) /\
  session_negotiated session = {| n_suite := suite; n_alpn := alpn; n_key_share_group := group |} /\
  exists app, application_traffic_secrets ks h = Ok app /\ from_traffic_secret suite (ap_client app) = Ok (session_write session) /\
    from_traffic_secret suite (ap_server app) = Ok (session_read session).
Proof.
  unfold finish_handshake, schedule_or, record_or. intros H.
  apply io_bind_inv in H as (k & s1 & [H1%map_err_ok ->]%io_lift_inv & H). apply io_bind_inv in H as (l & s2 & [H2%map_err_ok ->]%io_lift_inv & H).
  apply io_bind_inv in H as (d & s3 & [H3%map_err_ok ->]%io_lift_inv & H). apply io_bind_inv in H as (m & s4 & [H4%map_err_ok ->]%io_lift_inv & H).
  apply io_bind_inv in H as (u & s5 & [_ ->]%io_check_inv & H). apply io_bind_inv in H as ([sealed l'] & s6 & [H5%map_err_ok ->]%io_lift_inv & H).
  apply io_bind_inv in H as (u1 & s7 & H6 & H). apply io_bind_inv in H as (u2 & s8 & H7 & H).
  apply io_bind_inv in H as (app & s9 & [H8%map_err_ok ->]%io_lift_inv & H). apply io_bind_inv in H as (wl & s10 & [H9%map_err_ok ->]%io_lift_inv & H).
  apply io_bind_inv in H as (rl & s11 & [H10%map_err_ok ->]%io_lift_inv & [= <- <-]).
  unfold write_all in H6. destruct (write_cut wenv) as [[n f]|]; [done|]. injection H6 as _ <-. unfold flush in H7. destruct (flush_cut wenv); [done|]. injection H7 as _ <-.
  split; [done|]. split; [by exists k, l, d, m, sealed, l'|]. split; [done|]. by exists app.
Qed.

Lemma complete_inv hello keys key offered st session st' :
  complete alloc env wenv hello keys key offered st = (Ok session, st') ->
  exists t ks ee cert cv fin, server_proved hello keys key offered (tp_stream (ci_in st)) (tp_stream (ci_in st')) session t ks ee cert cv fin /\
    exists h0 al g, finish_handshake alloc wenv (t_suite t) ks (snapshot (hash_through (t_suite t) (hr_message hello) (t_message t) [ee; cert; cv; fin])) al g h0 = (Ok session, st') /\
      ci_out h0 = ci_out st.
Proof.
  unfold complete, schedule_or, record_or. intros H. apply io_bind_inv in H as (client & s1 & [H1%map_err_ok ->]%io_lift_inv & H).
  apply io_bind_inv in H as (u & s2 & [_ ->]%io_check_inv & H). apply io_bind_inv in H as (t & s3 & [Hr Ho3]%on_read_inv & H).
  unfold read_server_hello in Hr. apply io_bind_inv in Hr as (wire & t1 & Hread%io_map_err_inv & Hr). pose proof (read_tls_record_spec env (ci_in st) Henv) as Hspec.
  rewrite Hread in Hspec. apply frame_of_split in Hspec as [Hst _]. apply io_bind_inv in Hr as (u1 & t2 & [_ ->]%io_check_inv & Hr).
  apply io_bind_inv in Hr as (b & t3 & [Hbody%ok_or_ok ->]%io_lift_inv & Hr). apply io_lift_inv in Hr as [Hparse%map_err_ok Ht3].
  assert (Hmsg : t_message t = b) by (apply server_parse_exact in Hparse as (a & s & _ & -> & ->); done). rewrite <- Hmsg in Hbody, Hparse.
  apply io_bind_inv in H as (x & s4 & [H4%ok_or_ok ->]%io_lift_inv & H). apply io_bind_inv in H as (shared & s5 & [H5%ok_or_ok ->]%io_lift_inv & H). cbv zeta in H.
  apply io_bind_inv in H as (ks & s6 & [H6%map_err_ok ->]%io_lift_inv & H). apply io_bind_inv in H as (k & s7 & [H7%map_err_ok ->]%io_lift_inv & H).
  apply io_bind_inv in H as (l & s8 & [H8%map_err_ok ->]%io_lift_inv & H).
  apply io_bind_inv in H as ([h al] & s9 & (Ho9 & ee & cert & cv & fin & l' & unread & pk & d & Hd & Hee & Hcert & Hcv & Hfd & Hfin & ->)%verify_flight_inv & H).
  pose proof (finish_inv _ _ _ _ _ _ _ _ H) as (Hin & _ & Hneg & app & Happ & Hw & Hrd). rewrite Ht3 in Hd.
  exists t, ks, ee, cert, cv, fin. split; [|exists s9, al, (t_key_share_group t); split; [exact H|congruence]]. constructor.
  - by exists client.
  - by exists x, shared.
  - exists wire, (tp_stream t1), k, l, l', unread. rewrite Hin. by split_and!.
  - apply certificate_exact in Hcert as (der & exts & -> & _ & _ & Hb). apply signature_exact in Hcv as (_ & sg & v & -> & _ & Hv & Hs). by exists der, exts, pk, sg, v.
  - exists d. split; [done|]. by apply verify_finished_exact in Hfin as [-> _].
  - by exists app.
  - rewrite Hneg. split_and!; [done|done|]. intros p Hp. by eapply extensions_offered.
Qed.

Lemma np_on_read {E A} (m : IO Transport E A) st : no_panic (m (ci_in st)).1 -> no_panic (on_read m st).1.
Proof. unfold on_read. by destruct (m (ci_in st)). Qed.

Lemma np_next l flight st : no_panic (on_read (next_message alloc env l flight) st).1.
Proof. apply np_on_read. unfold next_message, io_reads. rewrite io_get_bind. apply np_next_message; [done|lia]. Qed.

Lemma np_verify_flight ks l h key offered st : no_panic (verify_flight alloc env ks l h key offered st).1.
Proof.
  unfold verify_flight. cbv zeta. apply io_quiet_bind; [apply np_next|]. intros [[ee l1] f1] s1 _.
  apply io_quiet_bind; [apply no_panic_map_err, np_extensions|]. intros al s2 _. apply io_quiet_bind; [apply np_next|]. intros [[cert l2] f2] s3 _.
  apply io_quiet_bind; [apply no_panic_map_err, np_certificate|]. intros pk s4 _. apply io_quiet_bind; [apply np_next|]. intros [[cv l3] f3] s5 _.
  apply io_quiet_bind; [apply no_panic_map_err, np_signature|]. intros u s6 _. apply io_quiet_bind; [apply np_next|]. intros [[fin l4] f4] s7 _.
  apply io_quiet_bind; [apply no_panic_map_err, np_finished_data|]. intros d s8 _. apply io_quiet_bind; [apply no_panic_map_err, np_finished|]. done.
Qed.

Lemma np_finish suite ks h alpn group st : no_panic (finish_handshake alloc wenv suite ks h alpn group st).1.
Proof.
  unfold finish_handshake. apply io_quiet_bind; [apply no_panic_map_err, np_traffic_keys|]. intros k s1 _.
  apply io_quiet_bind; [apply no_panic_map_err, np_new_layer|]. intros l s2 _. apply io_quiet_bind; [apply no_panic_map_err, np_finished_data|]. intros d s3 _.
  apply io_quiet_bind; [unfold io_lift, finished_message, encode_handshake, push_u24; apply no_panic_map_err; np|]. intros m s4 _.
  apply io_quiet_bind; [apply io_quiet_check|]. intros u s5 _. apply io_quiet_bind; [apply no_panic_map_err, np_seal_into|]. intros [sealed l'] s6 _.
  apply io_quiet_bind; [unfold write_all; by destruct (write_cut wenv) as [[]|]|]. intros u1 s7 _.
  apply io_quiet_bind; [unfold flush; by destruct (flush_cut wenv)|]. intros u2 s8 _.
  apply io_quiet_bind; [apply no_panic_map_err, np_application|]. intros app s9 _. apply io_quiet_bind; [apply no_panic_map_err, np_from_traffic_secret|]. intros wl s10 _.
  apply io_quiet_bind; [apply no_panic_map_err, np_from_traffic_secret|]. done.
Qed.

Lemma np_ok_or {E A St} (e : E) (o : option A) (st : St) : no_panic (io_lift (ok_or e o) st).1.
Proof. by destruct o. Qed.

Lemma np_complete hello keys key offered st : no_panic (complete alloc env wenv hello keys key offered st).1.
Proof.
  unfold complete. apply io_quiet_bind; [apply no_panic_map_err, parse_message_exact|]. intros client s1 _.
  apply io_quiet_bind; [apply io_quiet_check|]. intros u s2 _. apply io_quiet_bind.
  { apply np_on_read. unfold read_server_hello. pose proof (read_tls_record_spec env (ci_in s2) Henv) as Hspec. apply io_quiet_bind.
    { unfold io_map_err. by destruct (read_tls_record env (ci_in s2)) as [[w|e|] t]. }
    intros w t _. apply io_quiet_bind; [apply io_quiet_check|]. intros u1 t1 _. apply io_quiet_bind; [apply np_ok_or|]. intros b t2 _.
    apply no_panic_map_err, server_parse_exact. }
  intros t s3 _. apply io_quiet_bind; [apply np_ok_or|]. intros x s4 _. apply io_quiet_bind; [apply np_ok_or|]. intros sh s5 _. cbv zeta.
  apply io_quiet_bind; [apply no_panic_map_err, np_new_schedule|]. intros ks s6 _. apply io_quiet_bind; [apply no_panic_map_err, np_traffic_keys|]. intros k s7 _.
  apply io_quiet_bind; [apply no_panic_map_err, np_new_layer|]. intros l s8 _. apply io_quiet_bind; [apply np_verify_flight|]. intros [h al] s9 _. apply np_finish.
Qed.
End Proved.

(** C3: the client completes only on an authenticated flight. Whatever bytes the
    stream delivers, [complete] does not panic; when it returns a session, the
    stream began with a ServerHello that answers the client's own hello, four
    messages opened under the keys agreed with it carried a certificate bound to
    the REALITY authentication key, an Ed25519 signature by the embedded key over
    the transcript and the Finished of the whole transcript, the protocol was
    offered, both traffic secrets are those of that transcript, and the bytes
    sent are one ChangeCipherSpec and the client's Finished over it. *)
Theorem client_authenticates_server `{SL : SignLaws} {C : CryptoOps} {K : KemOps} {T : Tls13Ops} (alloc : Z -> bool) (env : ReadEnv) (wenv : WriteEnv)
    (hello : HelloRecord) (keys : ClientKeyAgreement) (key : list byte) (offered : list (list byte)) (st : ClientIo) :
  read_env_ok env ->
  (complete alloc env wenv hello keys key offered st).1 <> Panic /\
  forall session st', complete alloc env wenv hello keys key offered st = (Ok session, st') ->
    exists t ks ee cert cv fin,
      server_proved hello keys key offered (tp_stream (ci_in st)) (tp_stream (ci_in st')) session t ks ee cert cv fin /\
      exists k l d m sealed l', derive_traffic_keys (ks_suite ks) (ks_client_handshake ks) = Ok k /\ new_layer (t_suite t) k = Ok l /\
        finished_verify_data ks (ks_client_handshake ks) (snapshot (hash_through (t_suite t) (hr_message hello) (t_message t) [ee; cert; cv; fin])) = Ok d /\
        finished_message alloc (hb_as_bytes d) = Ok m /\ seal_into alloc l CtHandshake m 0 = Ok (sealed, l') /\
        ci_out st' = ci_out st ++ change_cipher_spec_record ++ sealed.
Proof.
  intros Henv. split; [by apply np_complete|]. intros session st' H.
  destruct (complete_inv alloc env Henv wenv _ _ _ _ _ _ _ H) as (t & ks & ee & cert & cv & fin & Hp & s0 & al & g & Hf & Ho).
  exists t, ks, ee, cert, cv, fin. split; [done|]. apply finish_inv in Hf as (_ & Hf & _). rewrite Ho in Hf. exact Hf.
Qed.

Lemma client_authenticates_server_witness : exists session st',
  complete (fun _ => true) (example_read_env 40) run_wenv sample_record.1 sample_keys sample_record.2 [bytes_of "h2"] run_start = (Ok session, st') /\
  exists t ks ee cert cv fin, server_proved sample_record.1 sample_keys sample_record.2 [bytes_of "h2"] (tp_stream (ci_in run_start)) (tp_stream (ci_in st')) session t ks ee cert cv fin.
Proof.
  destruct (client_authenticates_server (S0 := toy_sign) (C := toy_ops) (K := toy_kem) (T := toy_tls) (fun _ => true) (example_read_env 40) run_wenv
    sample_record.1 sample_keys sample_record.2 [bytes_of "h2"] run_start (example_read_env_ok 40)) as [_ H].
  destruct (complete (fun _ => true) (example_read_env 40) run_wenv sample_record.1 sample_keys sample_record.2 [bytes_of "h2"] run_start) as [r st'] eqn:E.
  assert (Hr : exists session, r = Ok session) by (apply (f_equal fst) in E; vm_compute in E; subst r; eexists; reflexivity).
  destruct Hr as [session ->]. exists session, st'. split; [reflexivity|].
  destruct (H session st' eq_refl) as (t & ks & ee & cert & cv & fin & Hp & _). exists t, ks, ee, cert, cv, fin. exact Hp.
Defined.

(** ** The server's half *)

Section ServerHalf.
Context {T : Tls13Ops}.

Lemma record_frame l record opened l' rest : open_in_place l record = (Ok opened, l') ->
  frame_of (record ++ rest) = FrRecord record rest /\ outer_content_type record = OUTER_APPLICATION_DATA.
Proof.
  unfold open_in_place. destruct (open_checked l record) as [region|e|] eqn:E; [|done|done]. intros _.
  apply record_checked_inv in E as (_ & _ & b & tag & -> & Ht & Hb & _). split; [|done]. unfold TAG_LEN, MAX_INNER_PLAINTEXT_LEN, MAX_PLAINTEXT_LEN in *.
  apply frame_of_record; [done| |rewrite len_app; unfold MAX_TLS13_CIPHERTEXT_LEN, MAX_PLAINTEXT_LEN; lia].
  unfold record_header, header_body_len. change (take 2 _) with (to_be 2 (len b + 16)). rewrite len_app, Ht. apply from_be_to_be.
  change (256 ^ Z.of_nat 2) with 65536. lia.
Qed.

Lemma verify_client_inv f record est : verify_client_finished f record = Ok est ->
  est = sf_established f /\ exists l', open_in_place (sf_client_handshake_records f) record =
    (Ok (CtHandshake, framed HANDSHAKE_FINISHED (hb_as_bytes (sf_expected_client_finished f))), l').
Proof.
  unfold verify_client_finished. intros H. apply bind_ok in H as ([ct m] & H1%map_err_ok & H).
  destruct (open_in_place (sf_client_handshake_records f) record) as [r l']. cbn [fst] in H1. subst r.
  apply bind_ok in H as (u & Hct%reject_ok & H). destruct ct; try done. apply bind_ok in H as (n & Hn%ok_or_ok & H).
  destruct (get_range m 1 4) as [b|] eqn:Hb; [|done]. injection Hn as <-. apply bind_ok in H as (v & Hv%ok_or_ok & H).
  apply bind_ok in H as (u1 & Hg%reject_ok & [= <-]). split; [done|]. exists l'.
  apply orb_false_iff in Hg as [[[Hh%negb_false_iff%bool_decide_eq_true Hd%negb_false_iff%Z.eqb_eq]%orb_false_iff Hlv%negb_false_iff%Z.eqb_eq]%orb_false_iff Hv'%negb_false_iff%bytes_eqb_eq].
  subst v. destruct m as [|h m]; [done|]. injection Hh as ->. unfold declared_len in Hd.
  apply get_range_inv in Hb as (_ & _ & _ & Hbl & Hb). apply get_range_inv in Hv as (_ & _ & _ & _ & Hv). unfold len in Hv. rewrite Nat2Z.id, drop_all, app_nil_r in Hv.
  repeat f_equal. unfold framed. rewrite <- Hd, to_be_from_be by (unfold len in Hbl; lia).
  change (Z.to_nat 1) with 1%nat in Hb. change (Z.to_nat 4) with 4%nat in Hb, Hv. cbn [take drop app] in Hb, Hv. injection Hb as Hb. injection Hv as Hv.
  rewrite Hv. f_equal. f_equal. rewrite Hb, take_app_length' by (unfold len in Hbl; lia). done.
Qed.

Lemma np_verify_client f record : no_panic (verify_client_finished f record).
Proof. unfold verify_client_finished. apply no_panic_bind; [apply no_panic_map_err, np_open_in_place|]. intros [ct m] _. np. Qed.
End ServerHalf.

(** C12: the server's acceptance of the client's Finished is exact. Whatever the
    client sends, [read_client_finished] does not panic, and it returns the
    established session if and only if the stream is an optional
    ChangeCipherSpec record, then a record that opens under the client handshake
    keys to exactly the Finished message over the expected verify data; what
    follows that record is left unread. *)
Theorem client_finished_exact {T : Tls13Ops} (env : ReadEnv) (f : ServerFlight) (t : Transport) :
  read_env_ok env -> len (hb_as_bytes (sf_expected_client_finished f)) < 16777216 ->
  (read_client_finished env true f t).1 <> Panic /\
  forall est rest, (exists t', read_client_finished env true f t = (Ok est, t') /\ tp_stream t' = rest) <->
    est = sf_established f /\ exists ccs record l', ccs_or_none ccs /\ tp_stream t = ccs ++ record ++ rest /\
      open_in_place (sf_client_handshake_records f) record = (Ok (CtHandshake, framed HANDSHAKE_FINISHED (hb_as_bytes (sf_expected_client_finished f))), l').
Proof.
  intros Henv Hl. split.
  - unfold read_client_finished. apply io_quiet_bind; [done|]. intros u t0 _. pose proof (read_tls_record_spec env t0 Henv) as H1. apply io_quiet_bind.
    { unfold io_map_err. by destruct (read_tls_record env t0) as [[]]. }
    intros first t1 _. apply io_quiet_bind.
    { case_bool_decide; [|done]. apply io_quiet_bind; [apply io_quiet_check|]. intros u1 t2 _. pose proof (read_tls_record_spec env t2 Henv) as H2.
      unfold io_map_err. by destruct (read_tls_record env t2) as [[]]. }
    intros enc t2 _. apply io_quiet_bind; [apply io_quiet_check|]. intros u1 t3 _. apply no_panic_map_err, np_verify_client.
  - intros est rest. split.
    + intros (t' & H & <-). unfold read_client_finished in H. apply io_bind_inv in H as (u & t0 & [_ ->]%io_check_inv & H).
      apply io_bind_inv in H as (first & t1 & Hr%io_map_err_inv & H). pose proof (read_tls_record_spec env t Henv) as Hs. rewrite Hr in Hs. apply frame_of_split in Hs as [Hs _].
      apply io_bind_inv in H as (enc & t2 & He & H). apply io_bind_inv in H as (u1 & t3 & [_ ->]%io_check_inv & H).
      apply io_lift_inv in H as [[-> (l' & Ho)]%map_err_ok%verify_client_inv ->]. split; [done|]. case_bool_decide.
      * apply io_bind_inv in He as (u2 & t4 & [->%bytes_eqb_eq ->]%io_check_inv & Hr2%io_map_err_inv). pose proof (read_tls_record_spec env t1 Henv) as Hs2.
        rewrite Hr2 in Hs2. apply frame_of_split in Hs2 as [Hs2 _]. exists change_cipher_spec_record, enc, l'. rewrite Hs, Hs2. split_and!; [by right|done|done].
      * injection He as -> ->. exists [], enc, l'. split_and!; [by left|done|done].
    + intros (-> & ccs & record & l' & Hccs & Ht & Ho). destruct (record_frame _ _ _ _ rest Ho) as [Hf Hout]. unfold read_client_finished.
      pose proof (finished_opened f record l' Hl Ho) as Hv. destruct Hccs as [-> | ->].
      * destruct (read_framed env t _ _ Henv ltac:(by rewrite Ht, app_nil_l, Hf)) as (t1 & Hr1 & Ht1). exists t1. split; [|done].
        rewrite (io_bind_ok _ _ t tt t) by done. rewrite (io_bind_ok _ _ t record t1) by (unfold io_map_err; by rewrite Hr1).
        rewrite (io_bind_ok _ _ t1 record t1) by (by rewrite Hout). rewrite (io_bind_ok _ _ t1 tt t1) by (by rewrite Hout). unfold io_lift. by rewrite Hv.
      * destruct (read_framed env t _ _ Henv ltac:(by rewrite Ht, ccs_frame)) as (t1 & Hr1 & Ht1).
        destruct (read_framed env t1 _ _ Henv ltac:(by rewrite Ht1, Hf)) as (t2 & Hr2 & Ht2). exists t2. split; [|done].
        rewrite (io_bind_ok _ _ t tt t) by done. rewrite (io_bind_ok _ _ t change_cipher_spec_record t1) by (unfold io_map_err; by rewrite Hr1).
        rewrite (io_bind_ok _ _ t1 record t2).
        2: { rewrite bool_decide_true by done. rewrite (io_bind_ok _ _ t1 tt t1) by (by rewrite bytes_eqb_refl). unfold io_map_err. by rewrite Hr2. }
        rewrite (io_bind_ok _ _ t2 tt t2) by (by rewrite Hout). unfold io_lift. by rewrite Hv.
Qed.

(** The bytes the sample client answered with. *)
Definition run_response : Transport :=
  {| tp_stream := ci_out (complete (fun _ => true) (example_read_env 40) run_wenv sample_record.1 sample_keys sample_record.2 [bytes_of "h2"] run_start).2; tp_reads := 0 |}.

Lemma client_finished_exact_witness : exists ccs record l', ccs_or_none ccs /\ tp_stream run_response = ccs ++ record ++ [] /\
  open_in_place (sf_client_handshake_records run_flight) record =
    (Ok (CtHandshake, framed HANDSHAKE_FINISHED (hb_as_bytes (sf_expected_client_finished run_flight))), l').
Proof.
  destruct (client_finished_exact (example_read_env 40) run_flight run_response (example_read_env_ok 40) ltac:(vm_compute; reflexivity)) as [_ H].
  apply (H (sf_established run_flight) []). exists (read_client_finished (example_read_env 40) true run_flight run_response).2.
  split; vm_compute; reflexivity.
Defined.
