(* ===== verification/Dat.v ===== *)
(** * GeoIP and GeoSite files ([src/assets/dat.rs])

    The protobuf reader of the asset files, the domain and address sets compiled
    from one label, and the prefix trie behind an address set. The [regex] and
    [aho_corasick] crates are the class [AssetSearch], with what the code relies
    on as [AssetSearchLaws]. *)

From stdpp Require Import gmap.
From S2P Require Import Prelude NetText Cursor Replay ServerName VlessRequest Routing.
#[local] Open Scope Z_scope.

(** ** Errors and outside code *)

Inductive AssetDownloadFailure :=
| BadUrl | DlTimeout | NameResolution | DlTls | Redirect | HttpStatus (status : Z) | DlProtocol | DlTransport | CacheUnavailable.

Inductive AssetLoadError :=
| AlIo (path : list byte) (source : Z) | AlTooLarge (path : list byte) (maximum : Z) | Download (failure : AssetDownloadFailure)
| SizeLimitUnsupported | InvalidCachePath | InvalidExternalPath | InvalidCacheMetadata | AlRandom
| InvalidProtobuf | TruncatedProtobuf | InvalidUtf8 | MissingCode | MissingValue | MissingLabel (label : list byte)
| InvalidDomainType (kind : Z) | InvalidRegexSyntax | RegexTooLarge | InvalidSubstringSet | InvalidCidr | TooManyNetworks
| DuplicateLabel (label : list byte).

Inductive RegexError := CompiledTooBig | RegexOther.

(** Case-insensitive expressions under the code's size limits, and the
    case-insensitive automaton over a list of patterns. *)
Class AssetSearch := {
  ARegex : Type; aregex_build : list byte -> result RegexError ARegex; aregex_is_match : ARegex -> list byte -> bool;
  ASubstrings : Type; asub_build : list (list byte) -> option ASubstrings; asub_is_match : ASubstrings -> list byte -> bool;
}.

(** ** The protobuf reader *)

Inductive FieldValue := FvVarint (value : Z) | FvBytes (bytes : list byte) | FvIgnored.

Record ProtoField := { pf_number : Z; pf_value : FieldValue }.

Definition proto_byte : M Cursor AssetLoadError byte := fun c =>
  match get_range (input c) (position c) (position c + 1) with
  | Some (b :: _) => Ok (b, {| input := input c; position := position c + 1 |})
  | _ => Err TruncatedProtobuf
  end.

Fixpoint varint_loop (shifts : list Z) (value : Z) : M Cursor AssetLoadError Z :=
  match shifts with
  | [] => throw InvalidProtobuf
  | shift :: shifts =>
    byte ← proto_byte;
    return! InvalidProtobuf when (shift =? 63) && (1 <? u8 byte);
    let value := Z.lor value (Z.shiftl (Z.land (u8 byte) 127) shift) in
    if Z.land (u8 byte) 128 =? 0 then mret value else varint_loop shifts value
  end.

(** [(0..=63).step_by(7)]. *)
Definition read_varint : M Cursor AssetLoadError Z := varint_loop [0; 7; 14; 21; 28; 35; 42; 49; 56; 63] 0.

Definition skip (length : Z) : M Cursor AssetLoadError unit := fun c =>
  stop ← ok_or InvalidProtobuf (checked_add USIZE_MAX (position c) length);
  guard! len (input c) <? stop else TruncatedProtobuf;
  Ok (tt, {| input := input c; position := stop |}).

(** The length-delimited arm of [ProtoReader::next]. *)
Definition take_bytes (length : Z) : M Cursor AssetLoadError (list byte) := fun c =>
  length ← ok_or InvalidProtobuf (try_from USIZE_MAX length);
  stop ← ok_or InvalidProtobuf (checked_add USIZE_MAX (position c) length);
  bytes ← ok_or TruncatedProtobuf (get_range (input c) (position c) stop);
  Ok (bytes, {| input := input c; position := stop |}).

(** [ProtoReader::next] on a reader that is not at its end. *)
Definition next_field : M Cursor AssetLoadError ProtoField :=
  key ← read_varint;
  let number := Z.shiftr key 3 in
  return! InvalidProtobuf when number =? 0;
  let wire := Z.land key 7 in
  value ← (if wire =? 0 then v ← read_varint; mret (FvVarint v)
           else if wire =? 1 then _ ← skip 8; mret FvIgnored
           else if wire =? 2 then length ← read_varint; bytes ← take_bytes length; mret (FvBytes bytes)
           else if wire =? 5 then _ ← skip 4; mret FvIgnored
           else throw InvalidProtobuf);
  mret {| pf_number := number; pf_value := value |}.

Definition next : M Cursor AssetLoadError (option ProtoField) := fun c =>
  if position c =? len (input c) then Ok (None, c) else (f ← next_field; mret (Some f)) c.

(** [while let Some(field) = reader.next()? { .. }]; running out of fuel is
    [Panic], which [proto_fold_no_panic] excludes. *)
Fixpoint proto_loop {A} (fuel : nat) (step : A -> ProtoField -> result AssetLoadError A) (acc : A) : M Cursor AssetLoadError A :=
  field ← next;
  match field, fuel with
  | None, _ => mret acc
  | Some _, O => lift Panic
  | Some field, S fuel => acc ← lift (step acc field); proto_loop fuel step acc
  end.

Definition proto_fold {A} (step : A -> ProtoField -> result AssetLoadError A) (acc : A) (l : list byte) : result AssetLoadError A :=
  fst <$> proto_loop (length l) step acc (new_cursor l).

(** ** Messages *)

Definition utf8 (l : list byte) : result AssetLoadError (list byte) := if from_utf8 l then Ok l else Err InvalidUtf8.

Definition geosite_field (acc : option (list byte) * list (list byte)) (f : ProtoField) : result AssetLoadError (option (list byte) * list (list byte)) :=
  match pf_value f with
  | FvBytes value =>
    if pf_number f =? 1 then value ← utf8 value; Ok (Some (to_ascii_lowercase value), acc.2)
    else if pf_number f =? 2 then Ok (acc.1, acc.2 ++ [value]) else Ok acc
  | _ => Ok acc
  end.

(** [.filter(|value| !value.is_empty()).ok_or(error)]. *)
Definition present (e : AssetLoadError) (value : option (list byte)) : result AssetLoadError (list byte) :=
  match value with Some (b :: v) => Ok (b :: v) | _ => Err e end.

Definition scan_geosite (l : list byte) : result AssetLoadError (list byte * list (list byte)) :=
  '(code, entries) ← proto_fold geosite_field (None, []) l;
  code ← present MissingCode code;
  Ok (code, entries).

Definition domain_field (acc : Z * option (list byte)) (f : ProtoField) : result AssetLoadError (Z * option (list byte)) :=
  match pf_value f with
  | FvVarint raw => Ok (if pf_number f =? 1 then (raw, acc.2) else acc)
  | FvBytes raw => if pf_number f =? 2 then value ← utf8 raw; Ok (acc.1, Some value) else Ok acc
  | FvIgnored => Ok acc
  end.

Definition parse_domain (l : list byte) : result AssetLoadError (Z * list byte) :=
  '(kind, value) ← proto_fold domain_field (0, None) l;
  value ← present MissingValue value;
  Ok (kind, value).

Definition geoip_field (acc : option (list byte) * list (list byte) * bool) (f : ProtoField) : result AssetLoadError (option (list byte) * list (list byte) * bool) :=
  let '(code, networks, reverse) := acc in
  match pf_value f with
  | FvBytes value =>
    if pf_number f =? 1 then value ← utf8 value; Ok (Some (to_ascii_lowercase value), networks, reverse)
    else if pf_number f =? 2 then Ok (code, networks ++ [value], reverse) else Ok acc
  | FvVarint value => Ok (if pf_number f =? 3 then (code, networks, negb (value =? 0)) else acc)
  | FvIgnored => Ok acc
  end.

Definition scan_geoip (l : list byte) : result AssetLoadError (list byte * list (list byte) * bool) :=
  '(code, networks, reverse) ← proto_fold geoip_field (None, [], false) l;
  code ← present MissingCode code;
  Ok (code, networks, reverse).

Definition cidr_field (acc : option (list byte) * Z) (f : ProtoField) : result AssetLoadError (option (list byte) * Z) :=
  Ok match pf_value f with
     | FvBytes value => if pf_number f =? 1 then (Some value, acc.2) else acc
     | FvVarint value => if pf_number f =? 2 then (acc.1, value) else acc
     | FvIgnored => acc
     end.

(** ** Networks *)

Definition mask_u32 : Z -> Z := width_mask 32.
Definition mask_u128 : Z -> Z := width_mask 128.

(** [IpNetwork::new]; the type is that of the router's networks. *)
Definition network_new (address : list byte) (prefix : Z) : result AssetLoadError IpNetwork :=
  if (len address =? 4) && (prefix <=? 32) then
    prefix ← ok_or InvalidCidr (try_from U8_MAX prefix);
    Ok (NwV4 (Z.land (from_be address) (mask_u32 prefix)) prefix)
  else if (len address =? 16) && (prefix <=? 128) then
    prefix ← ok_or InvalidCidr (try_from U8_MAX prefix);
    Ok (NwV6 (Z.land (from_be address) (mask_u128 prefix)) prefix)
  else Err InvalidCidr.

Definition parse_cidr (l : list byte) : result AssetLoadError IpNetwork :=
  '(address, prefix) ← proto_fold cidr_field (None, 0) l;
  address ← ok_or InvalidCidr address;
  network_new address prefix.

(** ** The prefix trie *)

Record PrefixNode := { child0 : option Z; child1 : option Z; terminal : bool }.
Record PrefixTrie := { width : Z; nodes : list PrefixNode }.

Definition default_node : PrefixNode := {| child0 := None; child1 := None; terminal := false |}.
Definition trie_new (w : Z) : PrefixTrie := {| width := w; nodes := [default_node] |}.

(** [node.children[branch]], read and written. *)
Definition child (n : PrefixNode) (branch : bool) : option Z := if branch then child1 n else child0 n.
Definition set_child (n : PrefixNode) (branch : bool) (c : Z) : PrefixNode :=
  if branch then {| child0 := child0 n; child1 := Some c; terminal := terminal n |}
  else {| child0 := Some c; child1 := child1 n; terminal := terminal n |}.
Definition set_terminal (n : PrefixNode) : PrefixNode := {| child0 := child0 n; child1 := child1 n; terminal := true |}.

(** [((value >> (width - offset - 1)) & 1) != 0]; every offset is below the width. *)
Definition branch_at (w value : Z) (offset : nat) : bool := negb (Z.land (Z.shiftr value (w - Z.of_nat offset - 1)) 1 =? 0).

(** The child of a node, created when it is missing. *)
Definition trie_child (ns : list PrefixNode) (node_index : Z) (branch : bool) : result AssetLoadError (list PrefixNode * Z) :=
  node ← index ns node_index;
  match child node branch with
  | Some c => c ← ok_or TooManyNetworks (try_from USIZE_MAX c); Ok (ns, c)
  | None =>
    c ← ok_or TooManyNetworks (try_from U32_MAX (len ns));
    let ns := <[Z.to_nat node_index := set_child node branch c]> (ns ++ [default_node]) in
    c ← ok_or TooManyNetworks (try_from USIZE_MAX c); Ok (ns, c)
  end.

(** [for offset in offset..offset + count]. *)
Fixpoint insert_loop (w value : Z) (offset count : nat) (ns : list PrefixNode) (node_index : Z) : result AssetLoadError (list PrefixNode * Z) :=
  match count with
  | O => Ok (ns, node_index)
  | S count => '(ns, c) ← trie_child ns node_index (branch_at w value offset); insert_loop w value (S offset) count ns c
  end.

Definition trie_insert (t : PrefixTrie) (value prefix : Z) : result AssetLoadError PrefixTrie :=
  '(ns, node_index) ← insert_loop (width t) value 0 (Z.to_nat prefix) (nodes t) 0;
  node ← index ns node_index;
  Ok {| width := width t; nodes := <[Z.to_nat node_index := set_terminal node]> ns |}.

Fixpoint contains_loop (w value : Z) (offset count : nat) (ns : list PrefixNode) (node_index : Z) : bool :=
  match ns !! Z.to_nat node_index, count with
  | None, _ => false
  | Some node, O => terminal node
  | Some node, S count =>
    if terminal node then true
    else match child node (branch_at w value offset) with
         | None => false
         | Some c => match try_from USIZE_MAX c with None => false | Some c => contains_loop w value (S offset) count ns c end
         end
  end.

Definition trie_contains (t : PrefixTrie) (value : Z) : bool := contains_loop (width t) value 0 (Z.to_nat (width t)) (nodes t) 0.

(** ** Sets *)

Record IpSet := { is_v4 : PrefixTrie; is_v6 : PrefixTrie; is_reverse : bool }.

Fixpoint insert_networks (networks : list (list byte)) (v4 v6 : PrefixTrie) : result AssetLoadError (PrefixTrie * PrefixTrie) :=
  match networks with
  | [] => Ok (v4, v6)
  | encoded :: networks =>
    n ← parse_cidr encoded;
    match n with
    | NwV4 network prefix => v4 ← trie_insert v4 network prefix; insert_networks networks v4 v6
    | NwV6 network prefix => v6 ← trie_insert v6 network prefix; insert_networks networks v4 v6
    end
  end.

Definition ipset_compile (networks : list (list byte)) (reverse : bool) : result AssetLoadError IpSet :=
  '(v4, v6) ← insert_networks networks (trie_new 32) (trie_new 128);
  Ok {| is_v4 := v4; is_v6 := v6; is_reverse := reverse |}.

Definition ipset_matches (s : IpSet) (a : IpAddr) : bool :=
  xorb (match a with IpV4 o => trie_contains (is_v4 s) (from_be o) | IpV6 o => trie_contains (is_v6 s) (from_be o) end) (is_reverse s).

(** The tails after each dot are those the routing index looks up. *)
Definition suffix_set_matches (suffixes : gset (list byte)) (domain : list byte) : bool :=
  bool_decide (domain ∈ suffixes) || existsb (fun tail => bool_decide (tail ∈ suffixes)) (after_dots domain).

Section Sets.
Context {AX : AssetSearch}.

Record DomainSet := { ds_substrings : option ASubstrings; ds_regexes : list ARegex; ds_suffixes : gset (list byte); ds_full : gset (list byte) }.

(** The vectors and sets [DomainSet::compile] fills. *)
Record DomainParts := { dp_substrings : list (list byte); dp_regexes : list ARegex; dp_suffixes : gset (list byte); dp_full : gset (list byte) }.
Definition no_parts : DomainParts := {| dp_substrings := []; dp_regexes := []; dp_suffixes := ∅; dp_full := ∅ |}.

Definition regex_error (e : RegexError) : AssetLoadError := match e with CompiledTooBig => RegexTooLarge | RegexOther => InvalidRegexSyntax end.

Definition domain_entry (p : DomainParts) (kind : Z) (value : list byte) : result AssetLoadError DomainParts :=
  if kind =? 0 then
    Ok {| dp_substrings := dp_substrings p ++ [to_ascii_lowercase value]; dp_regexes := dp_regexes p; dp_suffixes := dp_suffixes p; dp_full := dp_full p |}
  else if kind =? 1 then
    r ← map_err regex_error (aregex_build value);
    Ok {| dp_substrings := dp_substrings p; dp_regexes := dp_regexes p ++ [r]; dp_suffixes := dp_suffixes p; dp_full := dp_full p |}
  else if kind =? 2 then
    Ok {| dp_substrings := dp_substrings p; dp_regexes := dp_regexes p;
          dp_suffixes := {[ to_ascii_lowercase (trim_start_matches DOT value) ]} ∪ dp_suffixes p; dp_full := dp_full p |}
  else if kind =? 3 then
    Ok {| dp_substrings := dp_substrings p; dp_regexes := dp_regexes p; dp_suffixes := dp_suffixes p; dp_full := {[ to_ascii_lowercase value ]} ∪ dp_full p |}
  else Err (InvalidDomainType kind).

Fixpoint domain_entries (entries : list (list byte)) (p : DomainParts) : result AssetLoadError DomainParts :=
  match entries with
  | [] => Ok p
  | entry :: entries => '(kind, value) ← parse_domain entry; p ← domain_entry p kind value; domain_entries entries p
  end.

Definition domainset_compile (entries : list (list byte)) : result AssetLoadError DomainSet :=
  p ← domain_entries entries no_parts;
  substrings ← (if len (dp_substrings p) =? 0 then Ok None else m ← ok_or InvalidSubstringSet (asub_build (dp_substrings p)); Ok (Some m));
  Ok {| ds_substrings := substrings; ds_regexes := dp_regexes p; ds_suffixes := dp_suffixes p; ds_full := dp_full p |}.

Definition domainset_matches (s : DomainSet) (domain : list byte) : bool :=
  let domain := if existsb is_ascii_uppercase domain then to_ascii_lowercase domain else domain in
  bool_decide (domain ∈ ds_full s) || suffix_set_matches (ds_suffixes s) domain ||
  match ds_substrings s with Some m => asub_is_match m domain | None => false end ||
  existsb (fun r => aregex_is_match r domain) (ds_regexes s).

(** ** Files *)

(** Any of the missing labels: the order of a [HashSet] is unspecified. *)
Definition ensure_required_labels {T : Type} (required : gset (list byte)) (parsed : gmap (list byte) T) : result AssetLoadError unit :=
  match filter (fun label => parsed !! label = None) (elements required) with [] => Ok tt | missing :: _ => Err (MissingLabel missing) end.

(** [labels.insert(code, set)], an error when the label was there. *)
Definition insert_label {T : Type} (labels : gmap (list byte) T) (code : list byte) (set : T) : result AssetLoadError (gmap (list byte) T) :=
  match labels !! code with Some _ => Err (DuplicateLabel code) | None => Ok (<[code := set]> labels) end.

Definition geosite_message (required : gset (list byte)) (labels : gmap (list byte) DomainSet) (f : ProtoField) : result AssetLoadError (gmap (list byte) DomainSet) :=
  match pf_value f with
  | FvBytes message =>
    if pf_number f =? 1 then
      '(code, entries) ← scan_geosite message;
      if bool_decide (code ∈ required) then set ← domainset_compile entries; insert_label labels code set else Ok labels
    else Ok labels
  | _ => Ok labels
  end.

Definition parse_geosite_list (l : list byte) (required : gset (list byte)) : result AssetLoadError (gmap (list byte) DomainSet) :=
  labels ← proto_fold (geosite_message required) ∅ l;
  _ ← ensure_required_labels required labels;
  Ok labels.

Definition geoip_message (required : gset (list byte)) (labels : gmap (list byte) IpSet) (f : ProtoField) : result AssetLoadError (gmap (list byte) IpSet) :=
  match pf_value f with
  | FvBytes message =>
    if pf_number f =? 1 then
      '(code, networks, reverse) ← scan_geoip message;
      if bool_decide (code ∈ required) then set ← ipset_compile networks reverse; insert_label labels code set else Ok labels
    else Ok labels
  | _ => Ok labels
  end.

Definition parse_geoip_list (l : list byte) (required : gset (list byte)) : result AssetLoadError (gmap (list byte) IpSet) :=
  labels ← proto_fold (geoip_message required) ∅ l;
  _ ← ensure_required_labels required labels;
  Ok labels.
End Sets.
