(* ===== verification/DatExact.v ===== *)
(** * What the asset files mean ([src/assets/dat.rs])

    The prefix trie holds exactly the networks inserted; a GeoIP or GeoSite file
    is read back as the lists it encodes, and a compiled set answers as a scan of
    its list would. The reference encoding is the list of protobuf fields of
    [Addons]. *)

From stdpp Require Import gmap.
From S2P Require Import Prelude NetText Cursor Replay ServerName VlessRequest HandoffPolicy Addons Routing RoutingExact Dat.
#[local] Open Scope Z_scope.

(** ** Paths *)

Fixpoint walk (ns : list PrefixNode) (i : nat) (p : list bool) : option nat :=
  node ← ns !! i;
  match p with
  | [] => Some i
  | b :: p => c ← child node b; walk ns (Z.to_nat c) p
  end.

Lemma walk_app ns p : forall i q, walk ns i (p ++ q) = (j ← walk ns i p; walk ns j q).
Proof.
  induction p as [|b p IH]; intros i q; cbn.
  - destruct (ns !! i) as [n|] eqn:E; cbn; [done|]. destruct q; cbn; by rewrite E.
  - destruct (ns !! i) as [n|]; cbn; [|done]. destruct (child n b); cbn; [apply IH|done].
Qed.

(** [lab] names every node by its path, and [S] is the set of inserted paths. *)
Record trie_ok (ns : list PrefixNode) (lab : list (list bool)) (S : list bool -> Prop) : Prop := {
  to_len : length lab = length ns;
  to_lab i p : lab !! i = Some p <-> walk ns 0 p = Some i;
  to_child i n b c : ns !! i = Some n -> child n b = Some c -> 0 <= c < len ns /\ c <= U32_MAX;
  to_term i n p : ns !! i = Some n -> lab !! i = Some p -> terminal n = true <-> S p;
  to_in p : S p -> exists i, lab !! i = Some p;
  to_root : lab !! 0%nat = Some [];
}.

Definition trie_paths (ns : list PrefixNode) (S : list bool -> Prop) : Prop := exists lab, trie_ok ns lab S.

Lemma trie_new_ok : trie_paths [default_node] (fun _ => False).
Proof.
  exists [[]]. split.
  - done.
  - intros [|i] [|b p]; cbn; try done. + split; [done|]. by destruct b. + by destruct b.
  - intros [|i] n b c; cbn; [|done]. intros [= <-]. by destruct b.
  - intros [|i] n p; cbn; [|done]. by intros [= <-] [= <-].
  - done.
  - done.
Qed.

Lemma child_set_same n b c : child (set_child n b c) b = Some c.
Proof. by destruct b. Qed.
Lemma child_set_other n b b' c : b <> b' -> child (set_child n b c) b' = child n b'.
Proof. by destruct b, b'. Qed.
Lemma terminal_set_child n b c : terminal (set_child n b c) = terminal n.
Proof. by destruct b. Qed.

(** Walks over the nodes extended by one child of node [i]. *)
Section Extend.
Context (ns : list PrefixNode) (i : nat) (n : PrefixNode) (b : bool) (p : list bool).
Context (Hn : ns !! i = Some n) (Hc : child n b = None) (Hi : walk ns 0 p = Some i).
Context (Hr : forall j m x c, ns !! j = Some m -> child m x = Some c -> 0 <= c < len ns).
Let ns' := <[i := set_child n b (len ns)]> (ns ++ [default_node]).

Lemma ext_self : ns' !! i = Some (set_child n b (len ns)).
Proof. unfold ns'. apply list_lookup_insert_eq. apply lookup_lt_Some in Hn. rewrite length_app; cbn; lia. Qed.
Lemma ext_new : ns' !! length ns = Some default_node.
Proof.
  unfold ns'. apply lookup_lt_Some in Hn as Hl. rewrite list_lookup_insert_ne by lia. by apply list_lookup_middle.
Qed.
Lemma ext_old j m : j <> i -> ns !! j = Some m -> ns' !! j = Some m.
Proof. intros Hj Hm. unfold ns'. rewrite list_lookup_insert_ne by done. by apply lookup_app_l_Some. Qed.
Lemma ext_inv j m : ns' !! j = Some m -> (j = i /\ m = set_child n b (len ns)) \/ (j = length ns /\ m = default_node) \/ (j <> i /\ ns !! j = Some m).
Proof.
  intros H. destruct (decide (j = i)) as [->|Hj]; [rewrite ext_self in H; left; by injection H as <-|]. right.
  unfold ns' in H. rewrite list_lookup_insert_ne in H by done. apply lookup_app_Some in H as [?|[Hl H]]; [by right|left].
  destruct (j - length ns)%nat eqn:E; [|done]. injection H as <-. split; [lia|done].
Qed.

Lemma ext_walk q : forall j k, walk ns j q = Some k -> walk ns' j q = Some k.
Proof.
  induction q as [|x q IH]; intros j k; cbn; destruct (ns !! j) as [m|] eqn:E; cbn; try done.
  - destruct (decide (j = i)) as [->|Hj]; [by rewrite ext_self|by rewrite (ext_old j m)].
  - destruct (child m x) as [c|] eqn:Ec; cbn; [|done]. intros H%IH. destruct (decide (j = i)) as [->|Hj].
    + rewrite ext_self. cbn. assert (m = n) as -> by congruence. rewrite child_set_other by congruence. rewrite Ec. done.
    + rewrite (ext_old j m) by done. cbn. by rewrite Ec.
Qed.

Lemma ext_walk_new : walk ns' 0 (p ++ [b]) = Some (length ns).
Proof.
  rewrite walk_app, (ext_walk _ _ _ Hi). cbn. rewrite ext_self. cbn. rewrite child_set_same. cbn. unfold len. rewrite Nat2Z.id. by rewrite ext_new.
Qed.

(** A walk in the extended nodes is an old one or the new edge. *)
Lemma ext_walk_inv q : forall j k, walk ns' j q = Some k -> (j < length ns)%nat -> walk ns j q = Some k \/ (exists q1, q = q1 ++ [b] /\ walk ns j q1 = Some i /\ k = length ns).
Proof.
  induction q as [|x q IH]; intros j k; cbn; destruct (ns' !! j) as [m|] eqn:E; cbn; try done; intros H Hj.
  - injection H as <-. left. destruct (lookup_lt_is_Some_2 ns j Hj) as [m' ->]. done.
  - apply ext_inv in E as [[-> ->]|[[-> ->]|[Hne E]]]; [|lia|].
    + destruct (decide (x = b)) as [->|Hx].
      * rewrite child_set_same in H. cbn in H. unfold len in H. rewrite Nat2Z.id in H.
        destruct q as [|y q]; cbn in H; rewrite ext_new in H; cbn in H; [|by destruct y].
        injection H as <-. right. exists []. split_and!; [done| |done]. cbn. by rewrite Hn.
      * rewrite child_set_other in H by congruence. rewrite Hn. cbn. destruct (child n x) as [c|] eqn:Ec; cbn in *; [|done].
        apply IH in H as [H|(q1 & -> & H & ->)]; [by left| |].
        { right. exists (x :: q1). split_and!; [done| |done]. cbn. rewrite Hn. cbn. by rewrite Ec. }
        { pose proof (Hr _ _ _ _ Hn Ec). unfold len in *. lia. }
    + rewrite E. cbn. destruct (child m x) as [c|] eqn:Ec; cbn in *; [|done]. apply IH in H as [H|(q1 & -> & H & ->)]; [by left| |].
      { right. exists (x :: q1). split_and!; [done| |done]. cbn. rewrite E. cbn. by rewrite Ec. }
      { pose proof (Hr _ _ _ _ E Ec). unfold len in *. lia. }
Qed.
End Extend.

Lemma to_node ns lab S i p : trie_ok ns lab S -> lab !! i = Some p -> exists n, ns !! i = Some n.
Proof. intros H Hp. apply lookup_lt_is_Some_2. rewrite <- (to_len _ _ _ H). by apply lookup_lt_Some in Hp. Qed.

Lemma to_unique ns lab S i j p : trie_ok ns lab S -> lab !! i = Some p -> lab !! j = Some p -> i = j.
Proof. intros H Hi%(to_lab _ _ _ H) Hj%(to_lab _ _ _ H). congruence. Qed.

(** A missing child is created under its path. *)
Lemma to_extend ns lab S i n b p : trie_ok ns lab S -> ns !! i = Some n -> child n b = None -> lab !! i = Some p -> len ns <= U32_MAX ->
  trie_ok (<[i := set_child n b (len ns)]> (ns ++ [default_node])) (lab ++ [p ++ [b]]) S.
Proof.
  intros H Hn Hc Hp Hlen. pose proof (proj1 (to_lab _ _ _ H i p) Hp) as Hi. pose proof (fun j m x c A B => proj1 (to_child _ _ _ H j m x c A B)) as Hr.
  pose proof (to_len _ _ _ H) as Hl. apply lookup_lt_Some in Hn as Hil. split.
  - rewrite length_insert, !length_app, Hl. done.
  - intros j q. split.
    + intros [Hq|[Hj Hq]]%lookup_app_Some; [apply (ext_walk ns i n b Hn Hc), (to_lab _ _ _ H), Hq|].
      destruct (j - length lab)%nat eqn:E; [|done]. injection Hq as <-. replace j with (length ns) by lia. by apply ext_walk_new.
    + intros Hw. apply (ext_walk_inv ns i n b Hn Hr) in Hw as [Hw|(q1 & -> & Hw & ->)]; [| |lia].
      * apply lookup_app_l_Some. by apply (to_lab _ _ _ H).
      * apply (to_lab _ _ _ H) in Hw. replace q1 with p by congruence. rewrite <- Hl. by apply list_lookup_middle.
  - intros j m x c Hm Hx. assert (Hlen' : len (<[i := set_child n b (len ns)]> (ns ++ [default_node])) = len ns + 1).
    { unfold len. rewrite length_insert, length_app. cbn. lia. }
    rewrite Hlen'. apply (ext_inv ns i n b Hn) in Hm as [[-> ->]|[[-> ->]|[Hj Hm]]].
    + destruct (decide (x = b)) as [->|Hxb].
      * rewrite child_set_same in Hx. injection Hx as <-. pose proof (len_nonneg ns). lia.
      * rewrite child_set_other in Hx by congruence. pose proof (to_child _ _ _ H _ _ _ _ Hn Hx). lia.
    + by destruct x.
    + pose proof (to_child _ _ _ H _ _ _ _ Hm Hx). lia.
  - intros j m q Hm [Hq|[Hj Hq]]%lookup_app_Some.
    + apply (ext_inv ns i n b Hn) in Hm as [[-> ->]|[[-> ->]|[Hj Hm]]]; [|apply lookup_lt_Some in Hq; lia|by apply (to_term _ _ _ H j)].
      rewrite terminal_set_child. by apply (to_term _ _ _ H i).
    + destruct (j - length lab)%nat eqn:E; [|done]. injection Hq as <-. replace j with (length ns) in Hm by lia.
      rewrite (ext_new ns i n b Hn) in Hm. injection Hm as <-. split; [done|]. intros [k Hk]%(to_in _ _ _ H). exfalso.
      apply (to_lab _ _ _ H) in Hk. rewrite walk_app, Hi in Hk. cbn in Hk. rewrite Hn in Hk. cbn in Hk. by rewrite Hc in Hk.
  - intros q [j Hj]%(to_in _ _ _ H). exists j. by apply lookup_app_l_Some.
  - apply lookup_app_l_Some, (to_root _ _ _ H).
Qed.

(** The one failure is a table of more nodes than a child index can name. *)
Lemma trie_child_spec ns lab S i p b : trie_ok ns lab S -> lab !! i = Some p ->
  match trie_child ns (Z.of_nat i) b with
  | Ok (ns', c) => exists lab' j, c = Z.of_nat j /\ trie_ok ns' lab' S /\ lab' !! j = Some (p ++ [b]) /\ len ns' <= len ns + 1
  | Err _ => U32_MAX < len ns
  | Panic => False
  end.
Proof.
  intros H Hp. destruct (to_node _ _ _ _ _ H Hp) as [n Hn]. unfold trie_child.
  rewrite (proj2 (index_ok ns (Z.of_nat i) n)) by (split; [lia|by rewrite Nat2Z.id]). cbn. rewrite Nat2Z.id.
  destruct (child n b) as [c|] eqn:Ec.
  - destruct (to_child _ _ _ H _ _ _ _ Hn Ec) as [Hr Hm]. rewrite (proj2 (try_from_some USIZE_MAX c c)) by (unfold U32_MAX, USIZE_MAX, U64_MAX in *; lia).
    cbn. exists lab, (Z.to_nat c). rewrite Z2Nat.id by lia. split_and!; [done|done| |lia]. apply (to_lab _ _ _ H).
    rewrite walk_app, (proj1 (to_lab _ _ _ H _ _) Hp). cbn. rewrite Hn. cbn. rewrite Ec. cbn.
    destruct (lookup_lt_is_Some_2 ns (Z.to_nat c)) as [m ->]; [unfold len in *; lia|done].
  - pose proof (len_nonneg ns). destruct (try_from U32_MAX (len ns)) as [c|] eqn:Et; cbn.
    2: { apply Z.nle_gt. intros Hle. by rewrite (proj2 (try_from_some U32_MAX (len ns) (len ns))) in Et by lia. }
    apply try_from_some in Et as [-> Hlen].
    rewrite (proj2 (try_from_some USIZE_MAX (len ns) (len ns))) by (unfold U32_MAX, USIZE_MAX, U64_MAX in *; lia). cbn.
    exists (lab ++ [p ++ [b]]), (length ns). split_and!; [done|apply to_extend; lia || done| |].
    + rewrite <- (to_len _ _ _ H). by apply list_lookup_middle.
    + unfold len. rewrite length_insert, length_app. cbn. lia.
Qed.

(** ** Bits of an address *)

Definition bits (w value : Z) (from count : nat) : list bool := map (branch_at w value) (seq from count).

Lemma insert_loop_spec w value S : forall count offset ns lab i p, trie_ok ns lab S -> lab !! i = Some p ->
  match insert_loop w value offset count ns (Z.of_nat i) with
  | Ok (ns', c) => exists lab' j, c = Z.of_nat j /\ trie_ok ns' lab' S /\ lab' !! j = Some (p ++ bits w value offset count) /\ len ns' <= len ns + Z.of_nat count
  | Err _ => U32_MAX + 1 < len ns + Z.of_nat count
  | Panic => False
  end.
Proof.
  induction count as [|count IH]; intros offset ns lab i p H Hp; cbn [insert_loop].
  - exists lab, i. rewrite app_nil_r. split_and!; [done|done|done|lia].
  - pose proof (trie_child_spec _ _ _ _ _ (branch_at w value offset) H Hp) as Hc. unfold mbind, result_bind.
    destruct (trie_child _ _ _) as [[ns1 c]| |]; [|lia|done]. destruct Hc as (lab1 & j & -> & H1 & Hp1 & Hl1).
    specialize (IH (Datatypes.S offset) _ _ _ _ H1 Hp1). destruct (insert_loop _ _ _ _ _ _) as [[ns2 c]| |]; [|lia|done].
    destruct IH as (lab2 & k & -> & H2 & Hp2 & Hl2). exists lab2, k. split_and!; [done|done| |lia]. by rewrite Hp2, <- app_assoc.
Qed.

Lemma child_set_terminal n b : child (set_terminal n) b = child n b.
Proof. done. Qed.

Lemma walk_set_terminal ns i n : ns !! i = Some n -> forall p j, walk (<[i := set_terminal n]> ns) j p = walk ns j p.
Proof.
  intros Hn. apply lookup_lt_Some in Hn as Hl. induction p as [|b p IH]; intros j; cbn; (destruct (decide (j = i)) as [->|Hj];
    [rewrite list_lookup_insert_eq by done; rewrite Hn|rewrite list_lookup_insert_ne by done]); cbn; try done.
  - rewrite child_set_terminal. by destruct (child n b); cbn.
  - destruct (ns !! j) as [m|]; cbn; [|done]. by destruct (child m b); cbn.
Qed.

Lemma to_mark ns lab S i n p : trie_ok ns lab S -> ns !! i = Some n -> lab !! i = Some p ->
  trie_ok (<[i := set_terminal n]> ns) lab (fun q => S q \/ q = p).
Proof.
  intros H Hn Hp. apply lookup_lt_Some in Hn as Hl.
  assert (Hinv : forall j m, <[i := set_terminal n]> ns !! j = Some m -> (j = i /\ m = set_terminal n) \/ (j <> i /\ ns !! j = Some m)).
  { intros j m Hm. destruct (decide (j = i)) as [->|Hj]; [rewrite list_lookup_insert_eq in Hm by done; left; split; congruence|].
    rewrite list_lookup_insert_ne in Hm by done. by right. }
  split.
  - rewrite length_insert. apply (to_len _ _ _ H).
  - intros j q. rewrite (walk_set_terminal _ _ _ Hn). apply (to_lab _ _ _ H).
  - intros j m b c [[-> ->]|[Hj Hm]]%Hinv; unfold len; rewrite length_insert; [apply (to_child _ _ _ H _ _ b c Hn)|apply (to_child _ _ _ H _ _ b c Hm)].
  - intros j m q [[-> ->]|[Hj Hm]]%Hinv Hq.
    + assert (q = p) as -> by congruence. cbn. naive_solver.
    + rewrite (to_term _ _ _ H _ _ _ Hm Hq). split; [by left|]. intros [?| ->]; [done|]. by destruct Hj; apply (to_unique _ _ _ _ _ _ H Hq Hp).
  - intros q [Hq| ->]; [by apply (to_in _ _ _ H)|by exists i].
  - apply (to_root _ _ _ H).
Qed.

(** Insertion adds the leading bits of the value to the inserted paths. *)
Lemma trie_insert_spec t S value prefix : trie_paths (nodes t) S -> 0 <= prefix ->
  match trie_insert t value prefix with
  | Ok t' => width t' = width t /\ trie_paths (nodes t') (fun q => S q \/ q = bits (width t) value 0 (Z.to_nat prefix)) /\ len (nodes t') <= len (nodes t) + prefix
  | Err _ => U32_MAX + 1 < len (nodes t) + prefix
  | Panic => False
  end.
Proof.
  intros [lab H] Hp. unfold trie_insert. pose proof (insert_loop_spec (width t) value S (Z.to_nat prefix) 0 _ _ _ _ H (to_root _ _ _ H)) as Hi.
  change (Z.of_nat 0) with 0 in Hi. unfold mbind at 1, result_bind at 1. destruct (insert_loop _ _ _ _ _ _) as [[ns c]| |]; [|lia|done].
  destruct Hi as (lab' & j & -> & H' & Hl & Hn). destruct (to_node _ _ _ _ _ H' Hl) as [n Hnode].
  rewrite (proj2 (index_ok ns (Z.of_nat j) n)) by (split; [lia|by rewrite Nat2Z.id]). cbn. rewrite Nat2Z.id. split_and!; [done| |].
  - exists lab'. by apply to_mark.
  - unfold len in *. rewrite length_insert. lia.
Qed.

Lemma bits_app w value k m : bits w value 0 (k + m) = bits w value 0 k ++ bits w value k m.
Proof. unfold bits. by rewrite seq_app, map_app. Qed.

Lemma len_bits w value from count : length (bits w value from count) = count.
Proof. unfold bits. by rewrite length_map, length_seq. Qed.

(** The search meets every inserted path that the value's bits extend. *)
Lemma contains_loop_exact w value ns lab S : trie_ok ns lab S -> forall count offset i, lab !! i = Some (bits w value 0 offset) ->
  contains_loop w value offset count ns (Z.of_nat i) = true <-> exists k, (offset <= k <= offset + count)%nat /\ S (bits w value 0 k).
Proof.
  intros H. induction count as [|count IH]; intros offset i Hi; destruct (to_node _ _ _ _ _ H Hi) as [n Hn]; cbn [contains_loop]; rewrite Nat2Z.id, Hn.
  - rewrite (to_term _ _ _ H _ _ _ Hn Hi). split; [exists offset; split; [lia|done]|]. intros (k & Hk & HS). by replace offset with k by lia.
  - destruct (terminal n) eqn:Et.
    + split; [intros _|done]. exists offset. split; [lia|]. by apply (to_term _ _ _ H _ _ _ Hn Hi).
    + assert (Hno : ~ S (bits w value 0 offset)) by (rewrite <- (to_term _ _ _ H _ _ _ Hn Hi); by rewrite Et).
      assert (Hstep : forall k, (offset <= k <= offset + Datatypes.S count)%nat -> S (bits w value 0 k) ->
        (Datatypes.S offset <= k)%nat /\ exists c, child n (branch_at w value offset) = Some c).
      { intros k Hk HS. destruct (decide (k = offset)) as [->|Hne]; [done|]. split; [lia|]. destruct (to_in _ _ _ H _ HS) as [j Hj].
        apply (to_lab _ _ _ H) in Hj. replace k with (offset + Datatypes.S (k - offset - 1))%nat in Hj by lia.
        rewrite bits_app, walk_app, (proj1 (to_lab _ _ _ H _ _) Hi) in Hj. cbn in Hj. rewrite Hn in Hj. cbn in Hj.
        destruct (child n _) as [c|]; [eauto|done]. }
      destruct (child n (branch_at w value offset)) as [c|] eqn:Ec.
      * destruct (to_child _ _ _ H _ _ _ _ Hn Ec) as [Hr Hm]. rewrite (proj2 (try_from_some USIZE_MAX c c)) by (unfold U32_MAX, USIZE_MAX, U64_MAX in *; lia).
        replace c with (Z.of_nat (Z.to_nat c)) by lia. rewrite IH.
        -- split; intros (k & Hk & HS); exists k; (split; [|done]); [lia|]. destruct (Hstep k Hk HS). lia.
        -- apply (to_lab _ _ _ H). replace (Datatypes.S offset) with (offset + 1)%nat by lia.
           rewrite bits_app, walk_app, (proj1 (to_lab _ _ _ H _ _) Hi). cbn. rewrite Hn. cbn. rewrite Ec. cbn.
           destruct (lookup_lt_is_Some_2 ns (Z.to_nat c)) as [m ->]; [unfold len in *; lia|done].
      * split; [done|]. intros (k & Hk & HS). by destruct (Hstep k Hk HS) as (_ & c & ?).
Qed.

Lemma branch_at_bit w value o : Z.of_nat o < w -> branch_at w value o = Z.testbit value (w - Z.of_nat o - 1).
Proof.
  intros Ho. unfold branch_at. rewrite Z.testbit_odd. change 1 with (Z.ones 1) at 2. rewrite Z.land_ones by done.
  change (2 ^ 1) with 2. rewrite Zmod_odd. by destruct (Z.odd _).
Qed.

Lemma bits_eq w a b k : Z.of_nat k <= w ->
  bits w a 0 k = bits w b 0 k <-> forall i, w - Z.of_nat k <= i < w -> Z.testbit a i = Z.testbit b i.
Proof.
  intros Hk. unfold bits. split.
  - intros H i Hi. set (o := Z.to_nat (w - i - 1)).
    assert (Hl : map (branch_at w a) (seq 0 k) !! o = map (branch_at w b) (seq 0 k) !! o) by by rewrite H.
    change (map ?f ?l) with (f <$> l) in Hl. rewrite !list_lookup_fmap, lookup_seq_lt in Hl by lia. cbn in Hl. injection Hl as Hl.
    rewrite !branch_at_bit in Hl by lia. by replace (w - Z.of_nat o - 1) with i in Hl by lia.
  - intros H. apply map_ext_in. intros o Ho%in_seq. rewrite !branch_at_bit by lia. apply H. lia.
Qed.

(** ** A trie and its networks *)

Definition trie_holds (t : PrefixTrie) (w : Z) (nets : list (Z * Z)) : Prop :=
  width t = w /\ trie_paths (nodes t) (fun q => Exists (fun n => q = bits w n.1 0 (Z.to_nat n.2)) nets) /\
  Forall (fun n => 0 <= n.2 <= w) nets.

Lemma trie_paths_ext ns (S S' : list bool -> Prop) : (forall p, S p <-> S' p) -> trie_paths ns S -> trie_paths ns S'.
Proof.
  intros He [lab [A B C D F G]]. exists lab. split; [done|done|done| | |done].
  - intros i n p Hn Hp. by rewrite <- He, D.
  - intros p Hp%He. by apply F.
Qed.

Lemma trie_new_holds w : trie_holds (trie_new w) w [].
Proof. split_and!; [done| |done]. eapply trie_paths_ext; [|apply trie_new_ok]. intros p. by rewrite Exists_nil. Qed.

Lemma trie_insert_holds t w nets value prefix : trie_holds t w nets -> 0 <= prefix <= w ->
  match trie_insert t value prefix with
  | Ok t' => trie_holds t' w (nets ++ [(value, prefix)]) /\ len (nodes t') <= len (nodes t) + prefix
  | Err _ => U32_MAX + 1 < len (nodes t) + prefix
  | Panic => False
  end.
Proof.
  intros (Hw & Hp & Hf) Hpre. pose proof (trie_insert_spec t _ value prefix Hp ltac:(lia)) as Hi.
  destruct (trie_insert t value prefix) as [t'| |]; [|done|done]. destruct Hi as (Hw' & Hp' & Hl). split; [|done].
  split_and!; [congruence| |apply Forall_app; split; [done|by apply Forall_singleton]].
  eapply trie_paths_ext; [|apply Hp']. intros p. rewrite Exists_app, Exists_cons, Exists_nil, Hw. cbn. tauto.
Qed.

(** The trie answers as a scan of the inserted networks. *)
Lemma trie_contains_exact t w nets value : trie_holds t w nets ->
  trie_contains t value = true <-> Exists (fun n => forall i, w - n.2 <= i < w -> Z.testbit value i = Z.testbit n.1 i) nets.
Proof.
  intros (Hw & [lab Hp] & Hf). unfold trie_contains. rewrite Hw. change 0 with (Z.of_nat 0).
  rewrite (contains_loop_exact w value _ _ _ Hp _ 0 0 (to_root _ _ _ Hp)). rewrite Exists_exists. split.
  - intros (k & Hk & H). rewrite Exists_exists in H. destruct H as ([v p] & Hin & Hb). exists (v, p). split; [done|]. cbn in *.
    rewrite Forall_forall in Hf. specialize (Hf _ Hin). cbn in Hf. apply (f_equal length) in Hb as Hl. rewrite !len_bits in Hl. subst k.
    rewrite bits_eq in Hb by lia. intros i Hi. apply Hb. lia.
  - intros ([v p] & Hin & Hb). cbn in *. rewrite Forall_forall in Hf. specialize (Hf _ Hin). cbn in Hf. exists (Z.to_nat p). split; [lia|].
    apply Exists_exists. exists (v, p). split; [done|]. cbn. apply bits_eq; [lia|]. intros i Hi. apply Hb. lia.
Qed.

(** ** Address sets *)

Definition net_ok (n : IpNetwork) : Prop :=
  match n with
  | NwV4 network prefix => 0 <= prefix <= 32 /\ Z.land network (width_mask 32 prefix) = network
  | NwV6 network prefix => 0 <= prefix <= 128 /\ Z.land network (width_mask 128 prefix) = network
  end.

Definition v4_part (n : IpNetwork) : option (Z * Z) := match n with NwV4 v p => Some (v, p) | NwV6 _ _ => None end.
Definition v6_part (n : IpNetwork) : option (Z * Z) := match n with NwV6 v p => Some (v, p) | NwV4 _ _ => None end.
Definition prefix_of (n : IpNetwork) : Z := match n with NwV4 _ p | NwV6 _ p => p end.

Lemma zsum_cons {A} (f : A -> Z) x l : zsum f (x :: l) = f x + zsum f l.
Proof. done. Qed.

Lemma insert_networks_ok encoded ns : Forall2 (fun e n => parse_cidr e = Ok n) encoded ns -> Forall net_ok ns -> forall v4 v6 l4 l6,
  trie_holds v4 32 l4 -> trie_holds v6 128 l6 -> len (nodes v4) + len (nodes v6) + zsum prefix_of ns <= U32_MAX + 1 ->
  exists v4' v6', insert_networks encoded v4 v6 = Ok (v4', v6') /\ trie_holds v4' 32 (l4 ++ omap v4_part ns) /\ trie_holds v6' 128 (l6 ++ omap v6_part ns).
Proof.
  induction 1 as [|e n encoded ns He _ IH]; intros Hok v4 v6 l4 l6 H4 H6 Hlen.
  - exists v4, v6. by rewrite !app_nil_r.
  - apply Forall_cons in Hok as [Hn Hok]. cbn [insert_networks]. rewrite He. cbn.
    assert (Hz : 0 <= zsum prefix_of ns). { apply zsum_nonneg. intros m Hm. rewrite Forall_forall in Hok. specialize (Hok m Hm). destruct m; cbn in *; lia. }
    pose proof (len_nonneg (nodes v4)). pose proof (len_nonneg (nodes v6)).
    rewrite zsum_cons in Hlen.
    destruct n as [v p|v p]; cbn in Hn; destruct Hn as [Hp _]; cbn [prefix_of] in Hlen.
    + pose proof (trie_insert_holds v4 32 l4 v p H4 Hp) as Ht. destruct (trie_insert v4 v p) as [t| |]; [destruct Ht as [Ht Hl]|lia|done]. cbn.
      destruct (IH Hok t v6 _ _ Ht H6) as (v4' & v6' & Hi & A & B); [lia|]. exists v4', v6'. rewrite <- app_assoc in A. done.
    + pose proof (trie_insert_holds v6 128 l6 v p H6 Hp) as Ht. destruct (trie_insert v6 v p) as [t| |]; [destruct Ht as [Ht Hl]|lia|done]. cbn.
      destruct (IH Hok v4 t _ _ H4 Ht) as (v4' & v6' & Hi & A & B); [lia|]. exists v4', v6'. rewrite <- app_assoc in B. done.
Qed.

Lemma masked_net w p a v : 0 <= p <= w /\ Z.land v (width_mask w p) = v ->
  (Z.land a (width_mask w p) =? v) = true <-> forall i, w - p <= i < w -> Z.testbit a i = Z.testbit v i.
Proof. intros [Hp Hm]. rewrite <- Hm at 1. by apply masked_eq. Qed.

(** A compiled set answers as a scan of its networks, negated when reversed. *)
Lemma ipset_exact encoded ns reverse : Forall2 (fun e n => parse_cidr e = Ok n) encoded ns -> Forall net_ok ns -> zsum prefix_of ns <= U32_MAX - 1 ->
  exists s, ipset_compile encoded reverse = Ok s /\ forall a, ipset_matches s a = xorb (existsb (fun n => net_contains n a) ns) reverse.
Proof.
  intros He Hok Hlen. destruct (insert_networks_ok _ _ He Hok _ _ _ _ (trie_new_holds 32) (trie_new_holds 128)) as (v4 & v6 & Hi & A & B).
  { change (len (nodes (trie_new 32))) with 1. change (len (nodes (trie_new 128))) with 1. lia. }
  unfold ipset_compile. rewrite Hi. cbn. eexists. split; [done|]. intros a. unfold ipset_matches. cbn [is_reverse is_v4 is_v6]. f_equal.
  rewrite Forall_forall in Hok.
  destruct a as [o|o]; apply eq_true_iff_eq.
  - rewrite (trie_contains_exact _ _ _ _ A). cbn. rewrite Exists_exists, existsb_exists. setoid_rewrite list_elem_of_omap. split.
    + intros (x & ([v p|v p] & Hin & [= <-]) & Hb). exists (NwV4 v p). rewrite <- list_elem_of_In. split; [done|]. apply masked_net; [apply (Hok _ Hin)|done].
    + intros ([v p|v p] & Hin%list_elem_of_In & Hb); [|done]. exists (v, p). split; [by exists (NwV4 v p)|]. by apply (masked_net _ _ _ _ (Hok _ Hin)).
  - rewrite (trie_contains_exact _ _ _ _ B). cbn. rewrite Exists_exists, existsb_exists. setoid_rewrite list_elem_of_omap. split.
    + intros (x & ([v p|v p] & Hin & [= <-]) & Hb). exists (NwV6 v p). rewrite <- list_elem_of_In. split; [done|]. apply masked_net; [apply (Hok _ Hin)|done].
    + intros ([v p|v p] & Hin%list_elem_of_In & Hb); [done|]. exists (v, p). split; [by exists (NwV6 v p)|]. by apply (masked_net _ _ _ _ (Hok _ Hin)).
Qed.

(** ** The protobuf reader *)

(** Two readers that differ in their error values only. *)
Definition alike {E F A} (m : M Cursor E A) (m' : M Cursor F A) : Prop :=
  forall c, match m c, m' c with Ok x, Ok y => x = y | Err _, Err _ | Panic, Panic => True | _, _ => False end.

Lemma alike_reads {E F A} (m : M Cursor E A) (m' : M Cursor F A) s a : alike m m' -> reads m s a -> reads m' s a.
Proof. intros H Hr pre rest Hl. specialize (H (at_pos pre (s ++ rest))). rewrite Hr in H by done. destruct (m' _); [congruence|done|done]. Qed.

Lemma alike_safe {E F A} (m : M Cursor E A) (m' : M Cursor F A) : alike m m' -> safe m -> safe m'.
Proof. intros H Hs c Hc. specialize (H c). specialize (Hs c Hc). destruct (m c) as [[]| |], (m' c) as [[]| |]; try done. by injection H as <- <-. Qed.

Lemma alike_sound {E F A} (m : M Cursor E A) (m' : M Cursor F A) P : alike m m' -> sound m P -> sound m' P.
Proof. intros H Hs pre rest a c' Hm. specialize (H (at_pos pre rest)). rewrite Hm in H. destruct (m _) eqn:E'; [|done|done]. subst. by apply Hs in E'. Qed.

Lemma alike_bind {E F A B} (m : M Cursor E A) (m' : M Cursor F A) (f : A -> M Cursor E B) (f' : A -> M Cursor F B) :
  alike m m' -> (forall a, alike (f a) (f' a)) -> alike (x ← m; f x) (x ← m'; f' x).
Proof.
  intros Hm Hf c. specialize (Hm c). unfold mbind, M_bind. destruct (m c) as [[a c1]| |], (m' c) as [[a' c1']| |]; try done.
  injection Hm as <- <-. apply Hf.
Qed.

Lemma alike_byte : alike next_byte proto_byte.
Proof. intros c. unfold next_byte, proto_byte. by destruct (get_range _ _ _) as [[]|]. Qed.

Lemma alike_varint_loop shifts : forall v, alike (Addons.varint_loop shifts v) (varint_loop shifts v).
Proof.
  induction shifts as [|s shifts IH]; intros v; [done|]. cbn [Addons.varint_loop varint_loop]. apply alike_bind; [apply alike_byte|]. intros b.
  apply alike_bind; [intros c; by destruct (_ && _)|]. intros _. by destruct (_ =? 0).
Qed.

(** The reader's varints are those of the Addons parser. *)
Lemma alike_varint : alike Addons.read_varint read_varint.
Proof. apply alike_varint_loop. Qed.

Lemma alike_take n : alike (take_checked n) (take_bytes n).
Proof.
  intros c. unfold take_checked, take_bytes. destruct (try_from _ _); cbn; [|done]. destruct (checked_add _ _ _); cbn; [|done].
  by destruct (get_range _ _ _).
Qed.

Lemma alike_skip n : alike (skip_bytes n) (skip n).
Proof. intros c. unfold skip_bytes, skip. destruct (checked_add _ _ _); cbn; [|done]. by destruct (_ <? _). Qed.

(** A well-formed field, and what the reader makes of it. *)
Definition wire_ok (f : Field) : Prop :=
  1 <= field_number f <= MAX_FIELD_NUMBER /\
  match f with FVarint _ v => u64_range v | FFixed64 _ b => len b = 8 | FFixed32 _ b => len b = 4 | FBytes _ b => len b <= U64_MAX end.

Definition field_of (f : Field) : ProtoField :=
  {| pf_number := field_number f;
     pf_value := match f with FVarint _ v => FvVarint v | FBytes _ b => FvBytes b | FFixed64 _ _ | FFixed32 _ _ => FvIgnored end |}.

Lemma reads_key {B} n w (k : Z -> M Cursor AssetLoadError B) s b : 1 <= n <= MAX_FIELD_NUMBER -> 0 <= w < 8 ->
  reads (k (n * 8 + w)) s b -> reads (x ← read_varint; k x) (varint (n * 8 + w) ++ s) b.
Proof.
  intros Hn Hw Hk. eapply reads_bind; [|exact Hk]. eapply alike_reads; [apply alike_varint|]. apply reads_varint.
  unfold MAX_FIELD_NUMBER, u64_range, U64_MAX in *. lia.
Qed.

Lemma reads_next_field f : wire_ok f -> reads next_field (enc_field f) (field_of f).
Proof.
  intros [Hn Hf]. unfold next_field, field_of.
  destruct f as [n v|n b|n b|n b]; cbn [field_number] in *; [replace (enc_field _) with (varint (n * 8 + 0) ++ varint v) by (cbn; by rewrite Z.add_0_r)|..];
    cbn [enc_field]; (apply reads_key; [done|lia|]);
    (match goal with |- context [Z.shiftr (?n * 8 + ?w) 3] => destruct (key_split n w ltac:(lia)) as [-> ->] end);
    (apply reads_return_if; [apply Z.eqb_neq; lia|]); cbn [Z.eqb Pos.eqb].
  - eapply reads_bind_nil; [|apply reads_ret]. eapply reads_bind_nil; [|apply reads_ret]. eapply alike_reads; [apply alike_varint|by apply reads_varint].
  - eapply reads_bind_nil; [|apply reads_ret]. eapply reads_bind_nil; [|apply reads_ret]. eapply alike_reads; [apply alike_skip|]. rewrite <- Hf. apply reads_skip_bytes.
  - eapply reads_bind_nil; [|apply reads_ret]. eapply reads_bind.
    + eapply alike_reads; [apply alike_varint|apply reads_varint]. pose proof (len_nonneg b). unfold u64_range. lia.
    + eapply reads_bind_nil; [|apply reads_ret]. eapply alike_reads; [apply alike_take|apply reads_take_checked].
  - eapply reads_bind_nil; [|apply reads_ret]. eapply reads_bind_nil; [|apply reads_ret]. eapply alike_reads; [apply alike_skip|]. rewrite <- Hf. apply reads_skip_bytes.
Qed.

Lemma sound_next_field : sound next_field nonempty.
Proof.
  apply (sound_weaken _ (fun s b => exists s1 (a : Z) s2, s = s1 ++ s2 /\ nonempty s1 a /\ True)).
  2: { intros s x (s1 & k & s2 & -> & Hne & _). unfold nonempty in *. by destruct s1. }
  assert (Hv : sound read_varint (fun _ _ => True)). { eapply alike_sound; [apply alike_varint|]. eapply sound_weaken; [apply sound_varint_loop|done]. }
  apply (sound_bind _ _ nonempty (fun _ _ _ => True)); [eapply alike_sound; [apply alike_varint|apply sound_varint_loop]|]. intros key.
  assert (Hb : forall A B (m : M Cursor AssetLoadError A) (f : A -> M Cursor AssetLoadError B),
    sound m (fun _ _ => True) -> (forall a, sound (f a) (fun _ _ => True)) -> sound (x ← m; f x) (fun _ _ => True)).
  { intros A B m f Hm Hf. eapply sound_weaken; [eapply (sound_bind _ _ _ (fun _ _ _ => True)); [exact Hm|exact Hf]|done]. }
  assert (Hr : forall A (a : A), sound (mret a : M Cursor AssetLoadError A) (fun _ _ => True)). { intros A a. eapply sound_weaken; [apply sound_ret|done]. }
  apply Hb; [eapply sound_weaken; [apply sound_return_if|done]|]. intros _. apply Hb; [|intros; apply Hr].
  repeat case_match; [apply Hb; [done|intros; apply Hr]|..|apply sound_throw].
  - apply Hb; [|intros; apply Hr]. eapply alike_sound; [apply alike_skip|by apply sound_skip_bytes].
  - apply Hb; [done|]. intros n. apply Hb; [|intros; apply Hr]. eapply alike_sound; [apply alike_take|apply sound_take_checked].
  - apply Hb; [|intros; apply Hr]. eapply alike_sound; [apply alike_skip|by apply sound_skip_bytes].
Qed.

Lemma safe_next_field : safe next_field.
Proof.
  assert (Hv : safe read_varint) by (eapply alike_safe; [apply alike_varint|apply safe_varint_loop]).
  apply safe_bind; [done|]. intros key. apply safe_bind; [apply safe_return_if|]. intros _. apply safe_bind; [|intros; apply safe_ret].
  repeat case_match; [apply safe_bind; [done|intros; apply safe_ret]|..|apply safe_throw].
  - apply safe_bind; [|intros; apply safe_ret]. eapply alike_safe; [apply alike_skip|by apply safe_skip_bytes].
  - apply safe_bind; [done|]. intros n. apply safe_bind; [|intros; apply safe_ret]. eapply alike_safe; [apply alike_take|apply safe_take_checked].
  - apply safe_bind; [|intros; apply safe_ret]. eapply alike_safe; [apply alike_skip|by apply safe_skip_bytes].
Qed.

(** ** Field loops *)

Fixpoint fold_fields {A} (step : A -> ProtoField -> result AssetLoadError A) (acc : A) (fs : list ProtoField) : result AssetLoadError A :=
  match fs with [] => Ok acc | f :: fs => acc ← step acc f; fold_fields step acc fs end.

Definition enc_fields (fs : list Field) : list byte := concat (map enc_field fs).

Lemma enc_field_nonempty f : wire_ok f -> enc_field f <> [].
Proof.
  intros Hf He. assert (Hl : len ([] ++ enc_field f ++ []) <= USIZE_MAX) by (rewrite He; done).
  pose proof (reads_next_field f Hf [] [] Hl) as H. rewrite He in H. cbn in H.
  destruct (sound_next_field [] [] _ _ H) as (s & r & Hs & _ & Hne). destruct s; [by apply Hne|done].
Qed.

Lemma next_end pre : next (at_pos pre []) = Ok (None, at_pos pre []).
Proof. unfold next. cbn. rewrite app_nil_r, Z.eqb_refl. done. Qed.

Lemma next_more pre rest : rest <> [] -> next (at_pos pre rest) = (f ← next_field; mret (Some f)) (at_pos pre rest).
Proof. intros H. unfold next. cbn [input position at_pos]. rewrite (proj2 (Z.eqb_neq _ _)); [done|]. destruct rest; [done|]. slen. Qed.

Lemma proto_loop_enc {A} (step : A -> ProtoField -> result AssetLoadError A) fs : Forall wire_ok fs -> forall fuel acc pre,
  (length fs <= fuel)%nat -> len (pre ++ enc_fields fs) <= USIZE_MAX ->
  proto_loop fuel step acc (at_pos pre (enc_fields fs)) =
    match fold_fields step acc (map field_of fs) with Ok a => Ok (a, at_pos (pre ++ enc_fields fs) []) | Err e => Err e | Panic => Panic end.
Proof.
  induction 1 as [|f fs Hf _ IH]; intros fuel acc pre Hfuel Hl.
  - destruct fuel; cbn [proto_loop enc_fields map concat]; unfold mbind, M_bind; rewrite next_end; cbn; by rewrite app_nil_r.
  - destruct fuel as [|fuel]; [cbn in Hfuel; lia|]. change (enc_fields (f :: fs)) with (enc_field f ++ enc_fields fs) in *. cbn [proto_loop map fold_fields].
    pose proof (reads_next_field f Hf pre (enc_fields fs) Hl) as Hn.
    assert (Hne : enc_field f ++ enc_fields fs <> []) by (pose proof (enc_field_nonempty f Hf); by destruct (enc_field f)).
    unfold mbind at 1, M_bind at 1. rewrite next_more by done. unfold mbind at 1, M_bind at 1. rewrite Hn. cbn [mret M_ret].
    unfold mbind, M_bind, result_bind, lift. destruct (step acc (field_of f)) as [a| |]; [|done|done].
    rewrite IH; [by rewrite <- app_assoc|cbn in Hfuel; lia|by rewrite <- app_assoc].
Qed.

Lemma enc_fields_length fs : Forall wire_ok fs -> (length fs <= length (enc_fields fs))%nat.
Proof.
  induction 1 as [|f fs Hf _ IH]; [done|]. change (enc_fields (f :: fs)) with (enc_field f ++ enc_fields fs). rewrite length_app. cbn.
  pose proof (enc_field_nonempty f Hf). destruct (enc_field f); [done|]. cbn. lia.
Qed.

(** A loop over an encoding folds the fields it encodes. *)
Lemma proto_fold_enc {A} (step : A -> ProtoField -> result AssetLoadError A) acc fs : Forall wire_ok fs -> len (enc_fields fs) <= USIZE_MAX ->
  proto_fold step acc (enc_fields fs) = fold_fields step acc (map field_of fs).
Proof.
  intros Hf Hl. unfold proto_fold. rewrite <- at_pos_new, proto_loop_enc; [|done|by apply enc_fields_length|done].
  by destruct (fold_fields _ _ _).
Qed.

Lemma proto_loop_no_panic {A} (step : A -> ProtoField -> result AssetLoadError A) : (forall a f, no_panic (step a f)) ->
  forall fuel acc pre rest, len rest <= Z.of_nat fuel -> no_panic (proto_loop fuel step acc (at_pos pre rest)).
Proof.
  intros Hs. induction fuel as [|fuel IH]; intros acc pre rest Hl; cbn [proto_loop]; unfold mbind, M_bind.
  - destruct rest; [|slen]. by rewrite next_end.
  - destruct rest as [|x rest]; [by rewrite next_end|]. rewrite next_more by done. unfold mbind, M_bind.
    pose proof (safe_next_field _ (at_pos_ok pre (x :: rest))) as Hsafe.
    destruct (next_field (at_pos pre (x :: rest))) as [[f c]| |] eqn:Hn; [|done|done]. cbn. unfold lift.
    destruct (sound_next_field _ _ _ _ Hn) as (s & r & Heq & -> & Hne). specialize (Hs acc f). destruct (step acc f) as [a| |]; [|done|done].
    apply IH. unfold nonempty in Hne. destruct s; [done|]. rewrite Heq in Hl. slen.
Qed.

Lemma proto_fold_no_panic {A} (step : A -> ProtoField -> result AssetLoadError A) acc l : (forall a f, no_panic (step a f)) -> no_panic (proto_fold step acc l).
Proof.
  intros Hs. unfold proto_fold, no_panic. rewrite <- at_pos_new. pose proof (proto_loop_no_panic step Hs (length l) acc [] l ltac:(unfold len; lia)) as H.
  unfold no_panic in H. by destruct (proto_loop _ _ _ _).
Qed.

(** ** Any bytes at all *)

Lemma no_panic_utf8 l : no_panic (utf8 l).
Proof. unfold utf8. by destruct (from_utf8 l). Qed.
Lemma no_panic_present e v : no_panic (present e v).
Proof. by destruct v as [[]|]. Qed.
#[local] Hint Resolve no_panic_utf8 no_panic_present : rust.

Lemma network_new_ok address prefix n : network_new address prefix = Ok n -> net_ok n.
Proof.
  unfold network_new. repeat case_match; try done; intros (x & [-> Hp]%ok_or_ok%try_from_some & [= <-])%bind_ok; cbn;
    (split; [|by rewrite <- Z.land_assoc, Z.land_diag]); match goal with H : _ && _ = true |- _ => apply andb_true_iff in H as [_ ?%Z.leb_le] end; lia.
Qed.

Lemma parse_cidr_no_panic l : no_panic (parse_cidr l).
Proof.
  apply no_panic_bind; [by apply proto_fold_no_panic|]. intros [a p] _. apply no_panic_bind; [auto with rust|]. intros x _.
  unfold network_new. repeat case_match; [apply no_panic_bind; [auto with rust|done]..|done].
Qed.

Lemma insert_networks_no_panic encoded : forall v4 v6 l4 l6, trie_holds v4 32 l4 -> trie_holds v6 128 l6 -> no_panic (insert_networks encoded v4 v6).
Proof.
  induction encoded as [|e encoded IH]; intros v4 v6 l4 l6 H4 H6; [done|]. cbn [insert_networks]. apply no_panic_bind; [apply parse_cidr_no_panic|]. intros n Hn.
  assert (Hok : net_ok n). { unfold parse_cidr in Hn. apply bind_ok in Hn as ([a p] & _ & Hn). apply bind_ok in Hn as (x & _ & Hn). by apply network_new_ok in Hn. }
  destruct n as [v p|v p]; destruct Hok as [Hp _].
  - pose proof (trie_insert_holds v4 32 l4 v p H4 Hp) as Ht. unfold mbind, result_bind. destruct (trie_insert v4 v p) as [t| |]; [|done|done]. by apply (IH _ _ (l4 ++ [(v, p)]) l6); [apply Ht|].
  - pose proof (trie_insert_holds v6 128 l6 v p H6 Hp) as Ht. unfold mbind, result_bind. destruct (trie_insert v6 v p) as [t| |]; [|done|done]. by apply (IH _ _ l4 (l6 ++ [(v, p)])); [|apply Ht].
Qed.

Lemma no_panic_insert_label {T : Type} (m : gmap (list byte) T) code set : no_panic (insert_label m code set).
Proof. unfold insert_label. by destruct (m !! code). Qed.
Lemma no_panic_ensure {T : Type} (required : gset (list byte)) (m : gmap (list byte) T) : no_panic (ensure_required_labels required m).
Proof. unfold ensure_required_labels. by destruct (filter _ _). Qed.
#[local] Hint Resolve no_panic_insert_label no_panic_ensure : rust.

(** The address parser answers or reports an error on any bytes. *)
Lemma parse_geoip_no_panic l required : no_panic (parse_geoip_list l required).
Proof.
  apply no_panic_bind; [|intros m _; apply no_panic_bind; [auto with rust|done]]. apply proto_fold_no_panic. intros m f. unfold geoip_message.
  destruct (pf_value f); [done| |done]. destruct (_ =? 1); [|done]. apply no_panic_bind.
  - apply no_panic_bind; [|intros [[c ns] r] _; apply no_panic_bind; [auto with rust|done]]. apply proto_fold_no_panic. intros [[c ns] r] g. cbn.
    destruct (pf_value g); [done| |done]. destruct (_ =? 1); [apply no_panic_bind; [auto with rust|done]|by destruct (_ =? 2)].
  - intros [[c ns] r] _. case_bool_decide; [|done]. apply no_panic_bind; [|auto with rust]. apply no_panic_bind; [|by intros []].
    apply (insert_networks_no_panic _ _ _ _ _ (trie_new_holds 32) (trie_new_holds 128)).
Qed.

(** ** Files of labelled messages *)

Section Labels.
Context {E T : Type} (code : E -> list byte) (build : E -> T) (required : gset (list byte)).

(** What both list loops do with entries that scan and compile. *)
Fixpoint label_fold (labels : gmap (list byte) T) (es : list E) : result AssetLoadError (gmap (list byte) T) :=
  match es with
  | [] => Ok labels
  | e :: es =>
    labels ← (if bool_decide (code e ∈ required) then insert_label labels (code e) (build e) else Ok labels);
    label_fold labels es
  end.

Definition required_codes (es : list E) : list (list byte) := filter (fun c => c ∈ required) (map code es).

Lemma label_fold_snoc es e : forall labels, label_fold labels (es ++ [e]) =
  (labels ← label_fold labels es; if bool_decide (code e ∈ required) then insert_label labels (code e) (build e) else Ok labels).
Proof.
  induction es as [|e' es IH]; intros labels; cbn.
  - case_bool_decide; [|done]. unfold insert_label. by destruct (labels !! code e).
  - destruct (if bool_decide _ then _ else _) as [m| |]; cbn; [apply IH|done|done].
Qed.

Lemma elem_required es l : l ∈ required_codes es <-> l ∈ required /\ exists e, e ∈ es /\ code e = l.
Proof.
  unfold required_codes. rewrite list_elem_of_filter, list_elem_of_In, in_map_iff. setoid_rewrite <- list_elem_of_In.
  split; intros [Hr (e & H & H')]; (split; [exact Hr|exists e; split; [exact H'|exact H]]).
Qed.

Lemma required_snoc es e : required_codes (es ++ [e]) = required_codes es ++ (if decide (code e ∈ required) then [code e] else []).
Proof. unfold required_codes. rewrite map_app, filter_app. cbn. done. Qed.

(** A label carried by two positions of the list. *)
Definition repeated (es : list E) (l : list byte) : Prop :=
  exists i j e e', (i < j)%nat /\ es !! i = Some e /\ es !! j = Some e' /\ code e = l /\ code e' = l.

Lemma required_unique es : NoDup (required_codes es) -> forall i j e e',
  es !! i = Some e -> es !! j = Some e' -> code e = code e' -> code e ∈ required -> i = j.
Proof.
  induction es as [|x es IH]; intros Hnd i j e e' He He' Hc Hr; [done|].
  assert (Hx : required_codes (x :: es) = (if decide (code x ∈ required) then [code x] else []) ++ required_codes es).
  { unfold required_codes. cbn [map]. rewrite filter_cons. by destruct (decide _). }
  rewrite Hx in Hnd. apply NoDup_app in Hnd as (_ & Hd & Hnd).
  assert (Hno : forall k y, es !! k = Some y -> code y = code e -> code x = code e -> False).
  { intros k y Hy Hcy Hcx. apply (Hd (code e)); [rewrite Hcx, decide_True by done; by left|]. apply elem_required. split; [done|]. exists y.
    split; [by eapply list_elem_of_lookup_2|done]. }
  destruct i as [|i], j as [|j]; cbn in He, He'; [done|injection He as ->; by destruct (Hno j e' He')|injection He' as ->; by destruct (Hno i e He)|].
  f_equal. by apply (IH Hnd i j e e').
Qed.

(** Each required label maps to the entry that carries it; a second entry of a
    required label is the error. *)
Lemma label_fold_spec es :
  match label_fold ∅ es with
  | Ok m => NoDup (required_codes es) /\ forall l s, m !! l = Some s <-> exists e, e ∈ es /\ code e = l /\ l ∈ required /\ build e = s
  | Err x => exists c, x = DuplicateLabel c /\ c ∈ required /\ repeated es c
  | Panic => False
  end.
Proof.
  induction es as [|e es IH] using rev_ind.
  - cbn. split; [constructor|]. intros l s. rewrite lookup_empty. split; [done|]. intros (e & He & _). by apply not_elem_of_nil in He.
  - rewrite label_fold_snoc, required_snoc. destruct (label_fold ∅ es) as [m|x|]; cbn; [|destruct IH as (c & -> & Hc & Hn)|done].
    2: { exists c. split_and!; [done|done|]. destruct Hn as (i & j & e1 & e2 & Hij & H1 & H2 & Hc'). exists i, j, e1, e2. split_and!; [done|by apply lookup_app_l_Some..|apply Hc'|apply Hc']. }
    destruct IH as [Hnd Hm]. assert (He : forall Q : E -> Prop, (exists x, x ∈ es ++ [e] /\ Q x) <-> (exists x, x ∈ es /\ Q x) \/ Q e).
    { intros Q. setoid_rewrite elem_of_app. setoid_rewrite list_elem_of_singleton. split; [intros (x & [?| ->] & ?); eauto|]. intros [(x & ? & ?)|?]; eauto. }
    case_bool_decide as Hr.
    + rewrite decide_True by done. unfold insert_label. destruct (m !! code e) as [s|] eqn:El.
      * exists (code e). split_and!; [done|done|]. apply Hm in El as (e' & He' & Hc & _). apply list_elem_of_lookup in He' as [i Hi].
        exists i, (length es), e', e. split_and!; [by apply lookup_lt_Some in Hi|by apply lookup_app_l_Some|by apply list_lookup_middle|done|done].
      * assert (Hnew : code e ∉ required_codes es). { intros (_ & e' & He' & Hc)%elem_required. assert (m !! code e = Some (build e')) as ? by (apply Hm; eauto). congruence. }
        split; [apply NoDup_app; split_and!; [done| |apply NoDup_singleton]; intros x Hx ->%list_elem_of_singleton; done|]. intros l s.
        rewrite He. destruct (decide (l = code e)) as [->|Hn].
        -- rewrite lookup_insert_eq. split; [intros [= <-]; by right|]. intros [(e' & He' & Hc & _)|(_ & _ & <-)]; [|done].
           destruct Hnew. apply elem_required. eauto.
        -- rewrite lookup_insert_ne, Hm by done. split; [by left|]. intros [?|(? & _)]; congruence.
    + rewrite decide_False by done. rewrite app_nil_r. split; [done|]. intros l s. rewrite Hm, He. split; [by left|]. intros [?|(<- & ? & _)]; done.
Qed.
End Labels.

(** ** Address files *)

(** One label: its code, its networks as an address and a prefix, and whether
    the list is to be negated. Default values are left out, as in proto3. *)
Record GeoIpEntry := { ge_code : list byte; ge_networks : list (list byte * Z); ge_reverse : bool }.

Definition cidr_fields (n : list byte * Z) : list Field := FBytes 1 n.1 :: (if n.2 =? 0 then [] else [FVarint 2 n.2]).
Definition geoip_fields (e : GeoIpEntry) : list Field :=
  FBytes 1 (ge_code e) :: map (fun n => FBytes 2 (enc_fields (cidr_fields n))) (ge_networks e) ++ (if ge_reverse e then [FVarint 3 1] else []).
Definition geoip_file (es : list GeoIpEntry) : list byte := enc_fields (map (fun e => FBytes 1 (enc_fields (geoip_fields e))) es).

Definition network_ok (n : list byte * Z) : Prop := (length n.1 = 4%nat /\ 0 <= n.2 <= 32) \/ (length n.1 = 16%nat /\ 0 <= n.2 <= 128).
Definition geoip_ok (e : GeoIpEntry) : Prop :=
  ge_code e <> [] /\ from_utf8 (ge_code e) = true /\ Forall network_ok (ge_networks e) /\ zsum snd (ge_networks e) <= U32_MAX - 1.

Definition address_of (l : list byte) : IpAddr := if (length l =? 4)%nat then IpV4 l else IpV6 l.

(** An address is of a label when a network of its list covers it, or when none
    does and the list is negated. *)
Definition geoip_has (e : GeoIpEntry) (a : IpAddr) : Prop :=
  let covered := Exists (fun n => network_covers (address_of n.1) n.2 a) (ge_networks e) in
  if ge_reverse e then ~ covered else covered.

(** *** Messages within an addressable file *)

Lemma len_fields_cons f fs : len (enc_fields (f :: fs)) = len (enc_field f) + len (enc_fields fs).
Proof. change (enc_fields (f :: fs)) with (enc_field f ++ enc_fields fs). slen. Qed.

Lemma len_bytes_field n b : len b <= len (enc_field (FBytes n b)).
Proof. cbn. slen. Qed.

Lemma inner_len fs f : f ∈ fs -> len (enc_field f) <= len (enc_fields fs).
Proof.
  induction 1 as [f fs|f g fs _ IH]; rewrite len_fields_cons; pose proof (len_nonneg (enc_fields fs)); pose proof (len_nonneg (enc_field f)); [lia|].
  pose proof (len_nonneg (enc_field g)). lia.
Qed.

Lemma inner_bytes fs n b : FBytes n b ∈ fs -> len (enc_fields fs) <= USIZE_MAX -> len b <= USIZE_MAX.
Proof. intros Hin Hl. pose proof (inner_len _ _ Hin). pose proof (len_bytes_field n b). lia. Qed.

(** The fields of a message are well formed when its numbers and varints are:
    the lengths follow from the size of the message. *)
Lemma wire_all fs : len (enc_fields fs) <= USIZE_MAX ->
  Forall (fun f => 1 <= field_number f <= MAX_FIELD_NUMBER /\ match f with FVarint _ v => u64_range v | FBytes _ _ => True | _ => False end) fs ->
  Forall wire_ok fs.
Proof.
  intros Hl. rewrite !Forall_forall. intros H f Hf. destruct (H f Hf) as [Hn Hv]. split; [done|]. destruct f; try done. by apply inner_bytes in Hf.
Qed.

Lemma cidr_wire n : network_ok n -> len (enc_fields (cidr_fields n)) <= USIZE_MAX -> Forall wire_ok (cidr_fields n).
Proof.
  intros Hn Hl. apply wire_all; [done|]. unfold cidr_fields. constructor; [unfold MAX_FIELD_NUMBER; cbn; lia|]. destruct (_ =? 0); [done|]. constructor; [|done].
  unfold MAX_FIELD_NUMBER, u64_range, U64_MAX. cbn. destruct Hn as [[_ ?]|[_ ?]]; lia.
Qed.

Lemma land_mask_idem w p v : Z.land (Z.land v (width_mask w p)) (width_mask w p) = Z.land v (width_mask w p).
Proof. by rewrite <- Z.land_assoc, Z.land_diag. Qed.

(** A network is read back, masked, and contains what it covers. *)
Lemma parse_cidr_enc n : network_ok n -> len (enc_fields (cidr_fields n)) <= USIZE_MAX ->
  exists net, parse_cidr (enc_fields (cidr_fields n)) = Ok net /\ net_ok net /\ prefix_of net = n.2 /\
    forall a, net_contains net a = true <-> network_covers (address_of n.1) n.2 a.
Proof.
  intros Hn Hl. unfold parse_cidr. rewrite proto_fold_enc; [|by apply cidr_wire|done].
  assert (Hf : fold_fields cidr_field (None, 0) (map field_of (cidr_fields n)) = Ok (Some n.1, n.2)).
  { unfold cidr_fields. destruct (Z.eqb_spec n.2 0) as [->|]; done. }
  rewrite Hf. cbn. unfold network_new, len, address_of. destruct Hn as [[-> Hp]|[-> Hp]]; cbn.
  - rewrite (proj2 (Z.leb_le n.2 32)) by lia. rewrite (proj2 (try_from_some U8_MAX n.2 n.2)) by (unfold U8_MAX; lia). cbn.
    eexists. split; [done|]. split; [split; [done|apply land_mask_idem]|]. split; [done|].
    intros [o|o]; [|done]. cbn. by apply masked_eq.
  - rewrite (proj2 (Z.leb_le n.2 128)) by lia. rewrite (proj2 (try_from_some U8_MAX n.2 n.2)) by (unfold U8_MAX; lia). cbn.
    eexists. split; [done|]. split; [split; [done|apply land_mask_idem]|]. split; [done|].
    intros [o|o]; [done|]. cbn. by apply masked_eq.
Qed.

(** *** Labels *)

Lemma geoip_networks_fold ns acc :
  fold_fields geoip_field acc (map field_of (map (fun n => FBytes 2 (enc_fields (cidr_fields n))) ns)) =
    Ok (acc.1.1, acc.1.2 ++ map (fun n => enc_fields (cidr_fields n)) ns, acc.2).
Proof.
  revert acc. induction ns as [|n ns IH]; intros [[c l] r]; cbn; [by rewrite app_nil_r|]. rewrite IH. cbn. by rewrite <- app_assoc.
Qed.

Lemma fold_fields_app {A} (step : A -> ProtoField -> result AssetLoadError A) fs gs : forall acc,
  fold_fields step acc (fs ++ gs) = (a ← fold_fields step acc fs; fold_fields step a gs).
Proof. induction fs as [|f fs IH]; intros acc; cbn; [done|]. destruct (step acc f); cbn; [apply IH|done|done]. Qed.

Lemma scan_geoip_enc e : geoip_ok e -> len (enc_fields (geoip_fields e)) <= USIZE_MAX ->
  scan_geoip (enc_fields (geoip_fields e)) = Ok (to_ascii_lowercase (ge_code e), map (fun n => enc_fields (cidr_fields n)) (ge_networks e), ge_reverse e).
Proof.
  intros (Hc & Hu & Hn & _) Hl. unfold scan_geoip. rewrite proto_fold_enc; [| |done].
  2: { apply wire_all; [done|]. unfold geoip_fields. constructor; [unfold MAX_FIELD_NUMBER; cbn; lia|]. apply Forall_app. split.
    - apply Forall_map, Forall_true. intros n. unfold MAX_FIELD_NUMBER. cbn. lia.
    - destruct (ge_reverse e); [|done]. constructor; [|done]. unfold MAX_FIELD_NUMBER, u64_range, U64_MAX. cbn. lia. }
  unfold geoip_fields. cbn [map fold_fields]. change (geoip_field (None, [], false) (field_of (FBytes 1 (ge_code e)))) with (v ← utf8 (ge_code e); Ok (Some (to_ascii_lowercase v), [] : list (list byte), false)).
  unfold utf8. rewrite Hu. cbn [mbind result_bind].
  rewrite map_app, fold_fields_app, geoip_networks_fold. cbn.
  assert (Hp : present MissingCode (Some (to_ascii_lowercase (ge_code e))) = Ok (to_ascii_lowercase (ge_code e))) by (by destruct (ge_code e)).
  destruct (ge_reverse e); cbn [map fold_fields geoip_field field_of pf_value pf_number]; cbn -[present]; rewrite Hp; done.
Qed.

Lemma parse_cidrs_enc l : Forall network_ok l -> Forall (fun n => len (enc_fields (cidr_fields n)) <= USIZE_MAX) l ->
  exists ns, Forall2 (fun e n => parse_cidr e = Ok n) (map (fun n => enc_fields (cidr_fields n)) l) ns /\ Forall net_ok ns /\ zsum prefix_of ns = zsum snd l /\
    forall a, existsb (fun n => net_contains n a) ns = true <-> Exists (fun n => network_covers (address_of n.1) n.2 a) l.
Proof.
  induction l as [|n l IH]; intros Hok Hl.
  - exists []. split_and!; [constructor|constructor|done|]. intros a. rewrite Exists_nil. done.
  - apply Forall_cons in Hok as [Hn Hok]. apply Forall_cons in Hl as [Hln Hl]. destruct (IH Hok Hl) as (ns & Hp & Hns & Hz & He).
    destruct (parse_cidr_enc n Hn Hln) as (net & Hnet & Hnok & Hpre & Hc). exists (net :: ns).
    split_and!; [by constructor|by constructor|by rewrite !zsum_cons, Hpre, Hz|]. intros a. cbn [existsb]. rewrite orb_true_iff, Exists_cons, Hc, He. done.
Qed.

(** The set compiled for an entry; empty networks stand for an entry that does
    not compile, which [geoip_set_spec] excludes. *)
Definition geoip_set (e : GeoIpEntry) : IpSet :=
  match ipset_compile (map (fun n => enc_fields (cidr_fields n)) (ge_networks e)) (ge_reverse e) with
  | Ok s => s
  | _ => {| is_v4 := trie_new 32; is_v6 := trie_new 128; is_reverse := false |}
  end.

Lemma geoip_set_spec e : geoip_ok e -> len (enc_fields (geoip_fields e)) <= USIZE_MAX ->
  ipset_compile (map (fun n => enc_fields (cidr_fields n)) (ge_networks e)) (ge_reverse e) = Ok (geoip_set e) /\
  forall a, ipset_matches (geoip_set e) a = true <-> geoip_has e a.
Proof.
  intros (_ & _ & Hn & Hz) Hl. destruct (parse_cidrs_enc (ge_networks e) Hn) as (ns & Hp & Hns & Hzs & He).
  { apply Forall_forall. intros n Hin. eapply (inner_bytes _ 2); [|exact Hl]. right. apply elem_of_app. left. apply list_elem_of_In, in_map_iff.
    exists n. split; [done|by apply list_elem_of_In]. }
  destruct (ipset_exact _ _ (ge_reverse e) Hp Hns) as (s & Hs & Hm); [lia|].
  assert (geoip_set e = s) as -> by (unfold geoip_set; by rewrite Hs). split; [done|]. intros a. rewrite Hm. unfold geoip_has. cbv zeta.
  specialize (He a). destruct (ge_reverse e), (existsb _ ns); cbn; intuition congruence.
Qed.

(** *** Reading the file *)

Lemma geoip_fold required es : Forall geoip_ok es -> len (geoip_file es) <= USIZE_MAX -> forall labels,
  fold_fields (geoip_message required) labels (map field_of (map (fun e => FBytes 1 (enc_fields (geoip_fields e))) es)) =
    label_fold (fun e => to_ascii_lowercase (ge_code e)) geoip_set required labels es.
Proof.
  unfold geoip_file. induction es as [|e es IH]; intros Hok Hl labels; [done|]. apply Forall_cons in Hok as [He Hok]. cbn [map] in Hl. rewrite len_fields_cons in Hl.
  pose proof (len_bytes_field 1 (enc_fields (geoip_fields e))) as Hb. pose proof (len_nonneg (enc_fields (map (fun e => FBytes 1 (enc_fields (geoip_fields e))) es))) as Hr.
  cbn [map fold_fields label_fold].
  assert (Hm : forall b, geoip_message required labels (field_of (FBytes 1 b)) = ('(code, networks, reverse) ← scan_geoip b;
    if bool_decide (code ∈ required) then set ← ipset_compile networks reverse; insert_label labels code set else Ok labels)) by done.
  rewrite Hm, scan_geoip_enc by (done || lia). cbn [mbind result_bind]. rewrite (proj1 (geoip_set_spec e He ltac:(lia))). cbn [mbind result_bind].
  destruct (if bool_decide _ then _ else _) as [m| |]; [|done|done]. apply IH; [done|]. pose proof (len_nonneg (enc_field (FBytes 1 (enc_fields (geoip_fields e))))). lia.
Qed.

Lemma ensure_spec {T : Type} (required : gset (list byte)) (parsed : gmap (list byte) T) :
  (ensure_required_labels required parsed = Ok tt /\ forall l, l ∈ required -> is_Some (parsed !! l)) \/
  (exists l, ensure_required_labels required parsed = Err (MissingLabel l) /\ l ∈ required /\ parsed !! l = None).
Proof.
  unfold ensure_required_labels. destruct (filter _ _) as [|l ls] eqn:E.
  - left. split; [done|]. intros l Hl%elem_of_elements. destruct (parsed !! l) eqn:Ep; [by eexists|]. exfalso.
    assert (Hin : l ∈ filter (fun l => parsed !! l = None) (elements required)) by (by apply list_elem_of_filter). rewrite E in Hin. by apply not_elem_of_nil in Hin.
  - right. exists l. assert (Hin : l ∈ filter (fun l => parsed !! l = None) (elements required)) by (rewrite E; by left).
    apply list_elem_of_filter in Hin as [? ?%elem_of_elements]. done.
Qed.

(** What a list parser yields: every required label mapped to the set of its
    entry, or the error of a repeated or an absent label. *)
Lemma labels_outcome {E T : Type} (code : E -> list byte) (build : E -> T) (required : gset (list byte)) es :
  let parsed := labels ← label_fold code build required ∅ es; _ ← ensure_required_labels required labels; Ok labels in
  (exists m, parsed = Ok m /\ NoDup (required_codes code required es) /\ (forall l, l ∈ required -> is_Some (m !! l)) /\
     forall l s, m !! l = Some s <-> exists e, e ∈ es /\ code e = l /\ l ∈ required /\ build e = s) \/
  (exists l, parsed = Err (MissingLabel l) /\ l ∈ required /\ forall e, e ∈ es -> code e <> l) \/
  (exists l, parsed = Err (DuplicateLabel l) /\ l ∈ required /\ repeated code es l).
Proof.
  cbv zeta. pose proof (label_fold_spec code build required es) as H. destruct (label_fold _ _ _ _ es) as [m|x|]; [| |done].
  - destruct H as [Hnd Hm]. cbn. destruct (ensure_spec required m) as [[-> Hall]|(l & -> & Hl & Hn)]; [left; eauto|]. right. left. exists l. split_and!; [done|done|].
    intros e He Hc. assert (m !! l = Some (build e)) by (apply Hm; eauto). congruence.
  - destruct H as (c & -> & Hc & Hnd). right. right. eauto.
Qed.

Lemma parse_geoip_enc es required : Forall geoip_ok es -> len (geoip_file es) <= USIZE_MAX ->
  parse_geoip_list (geoip_file es) required =
    (labels ← label_fold (fun e => to_ascii_lowercase (ge_code e)) geoip_set required ∅ es; _ ← ensure_required_labels required labels; Ok labels).
Proof.
  intros Hok Hl. unfold parse_geoip_list, geoip_file. rewrite proto_fold_enc; [by rewrite geoip_fold| |done].
  apply wire_all; [done|]. apply Forall_map, Forall_true. intros e. unfold MAX_FIELD_NUMBER. cbn. lia.
Qed.

(** C19: a GeoIP file answers as the list of networks it encodes. On any bytes
    the parser returns or reports an error. For every addressable file of
    well-formed entries and every set of required labels, one of three things
    happens. It returns, and then each required label is carried by exactly one
    position of the list, and an address is in the label's set if and only if a
    network of that entry covers it, or none does and the entry is negated. It
    reports a required label that no entry carries. Or it reports a required
    label that two positions of the list carry, equal entries included. So it
    returns exactly when each required label occurs once. *)
Theorem geoip_file_exact es required : Forall geoip_ok es -> len (geoip_file es) <= USIZE_MAX ->
  (forall l labels, no_panic (parse_geoip_list l labels)) /\
  ((exists m, parse_geoip_list (geoip_file es) required = Ok m /\
     forall l, l ∈ required -> exists s i e, m !! l = Some s /\ es !! i = Some e /\ to_ascii_lowercase (ge_code e) = l /\
       (forall j e', es !! j = Some e' -> to_ascii_lowercase (ge_code e') = l -> j = i) /\ forall a, ipset_matches s a = true <-> geoip_has e a) \/
  (exists l, parse_geoip_list (geoip_file es) required = Err (MissingLabel l) /\ l ∈ required /\ forall e, e ∈ es -> to_ascii_lowercase (ge_code e) <> l) \/
  (exists l, parse_geoip_list (geoip_file es) required = Err (DuplicateLabel l) /\ l ∈ required /\
     repeated (fun e => to_ascii_lowercase (ge_code e)) es l)).
Proof.
  intros Hok Hl. split; [apply parse_geoip_no_panic|]. rewrite parse_geoip_enc by done.
  destruct (labels_outcome (fun e => to_ascii_lowercase (ge_code e)) geoip_set required es) as [(m & -> & Hnd & Hall & Hm)|[H|H]]; [|eauto..].
  left. exists m. split; [done|]. intros l Hr. destruct (Hall l Hr) as [s Hs]. destruct (proj1 (Hm l s) Hs) as (e & He & Hc & _ & <-).
  destruct (proj1 (list_elem_of_lookup _ _) He) as [i Hi]. exists (geoip_set e), i, e. split_and!; [done|done|done| |].
  - intros j e' He' Hc'. eapply required_unique; [exact Hnd|done|done|cbn; congruence|cbn; by rewrite Hc'].
  - apply geoip_set_spec; [by apply (proj1 (Forall_forall _ _) Hok)|]. eapply (inner_bytes _ 1); [|exact Hl].
    apply list_elem_of_In, in_map_iff. exists e. split; [done|by apply list_elem_of_In].
Qed.

Definition sample_geoip : list GeoIpEntry :=
  [{| ge_code := bytes_of "CN"; ge_networks := [([x01; x02; x03; x09], 24); ([x0a; x00; x00; x00], 8)]; ge_reverse := false |};
   {| ge_code := bytes_of "other"; ge_networks := [([x01; x02; x03; x09], 24)]; ge_reverse := true |}].

Lemma geoip_file_exact_witness : exists m s e,
  parse_geoip_list (geoip_file sample_geoip) {[ bytes_of "cn" ]} = Ok m /\ m !! bytes_of "cn" = Some s /\ ge_code e = bytes_of "CN" /\
  forall a, ipset_matches s a = true <-> geoip_has e a.
Proof.
  assert (Hok : is_ok (parse_geoip_list (geoip_file sample_geoip) {[ bytes_of "cn" ]}) = true) by (vm_compute; reflexivity).
  destruct (geoip_file_exact sample_geoip {[ bytes_of "cn" ]}) as [_ [(m & Hm & Hl)|[(l & H & _)|(l & H & _)]]].
  - unfold sample_geoip. repeat constructor; try done; cbn; (left + right); split; done || lia.
  - vm_compute. done.
  - destruct (Hl (bytes_of "cn")) as (s & i & e & Hs & He & Hc & _ & Hm'); [by apply elem_of_singleton|]. exists m, s, e. split_and!; [done|done| |done].
    apply list_elem_of_lookup_2 in He. unfold sample_geoip in He. apply elem_of_cons in He as [->|He]; [done|]. apply list_elem_of_singleton in He as ->. discriminate Hc.
  - rewrite H in Hok. discriminate Hok.
  - rewrite H in Hok. discriminate Hok.
Defined.
