(* ===== verification/DatDomains.v ===== *)
(** * GeoSite files ([src/assets/dat.rs])

    The domain set compiled from a label matches a name exactly when one of the
    label's entries does, and a GeoSite file is read back as the list of entries
    it encodes. *)

From stdpp Require Import gmap.
From S2P Require Import Prelude NetText Cursor Replay ServerName VlessRequest HandoffPolicy Addons Routing RoutingExact Dat DatExact.
#[local] Open Scope Z_scope.

(** What the code relies on from [aho_corasick]: a case-insensitive automaton
    finds a match when a pattern occurs in the text, whatever the case. *)
Class AssetSearchLaws (AX : AssetSearch) : Prop := {
  asub_exact ps m d : asub_build ps = Some m ->
    asub_is_match m d = true <-> exists p a b, p ∈ ps /\ to_ascii_lowercase d = a ++ to_ascii_lowercase p ++ b;
}.

Section Domains.
Context {AX : AssetSearch} {AL : AssetSearchLaws AX}.

(** ** Entries *)

(** A name, in lower case, and an entry of a label. *)
Definition entry_has (entry : Z * list byte) (name : list byte) : Prop :=
  let '(kind, value) := entry in
  if kind =? 0 then exists a b, name = a ++ to_ascii_lowercase value ++ b
  else if kind =? 1 then exists r, aregex_build value = Ok r /\ aregex_is_match r name = true
  else if kind =? 2 then domain_suffix_matches name (to_ascii_lowercase (trim_start_matches DOT value)) = true
  else name = to_ascii_lowercase value.

Definition entry_ok (entry : Z * list byte) : Prop :=
  let '(kind, value) := entry in
  0 <= kind <= 3 /\ value <> [] /\ from_utf8 value = true /\ (kind = 1 -> exists r, aregex_build value = Ok r).

Definition parts_have (p : DomainParts) (name : list byte) : Prop :=
  name ∈ dp_full p \/ suffix_set_matches (dp_suffixes p) name = true \/ Exists (fun v => exists a b, name = a ++ v ++ b) (dp_substrings p) \/
  existsb (fun r => aregex_is_match r name) (dp_regexes p) = true.

Lemma suffix_set_insert (s : gset (list byte)) v name :
  suffix_set_matches ({[ v ]} ∪ s) name = true <-> domain_suffix_matches name v = true \/ suffix_set_matches s name = true.
Proof.
  rewrite suffix_matches. unfold suffix_set_matches. rewrite !orb_true_iff, !bool_decide_eq_true, !existsb_exists.
  assert (Hx : forall t : gset (list byte), (exists x, In x (after_dots name) /\ bool_decide (x ∈ t) = true) <-> exists x, x ∈ after_dots name /\ x ∈ t).
  { intros t. setoid_rewrite <- list_elem_of_In. by setoid_rewrite bool_decide_eq_true. }
  rewrite !Hx. setoid_rewrite elem_of_union. setoid_rewrite elem_of_singleton. clear. split.
  - intros [[->|?]|(x & Hx & [->|?])]; eauto.
  - intros [[->|?]|[?|(x & ? & ?)]]; eauto.
Qed.

(** An accepted entry adds the names it matches, and no other. *)
Lemma domain_entry_exact p entry : entry_ok entry ->
  exists p', domain_entry p entry.1 entry.2 = Ok p' /\ forall name, parts_have p' name <-> parts_have p name \/ entry_has entry name.
Proof.
  destruct entry as [kind value]. intros (Hk & _ & _ & Hr). unfold domain_entry, entry_has. cbn [fst snd].
  destruct (Z.eqb_spec kind 0); [|destruct (Z.eqb_spec kind 1) as [->|]; [|destruct (Z.eqb_spec kind 2); [|destruct (Z.eqb_spec kind 3); [|lia]]]].
  - eexists. split; [done|]. intros name. unfold parts_have. cbn. rewrite Exists_app, Exists_cons, Exists_nil. tauto.
  - destruct (Hr eq_refl) as [r Hb]. rewrite Hb. cbn. eexists. split; [done|]. intros name. unfold parts_have. cbn. rewrite existsb_app. cbn.
    rewrite !orb_true_iff. split; [intros [?|[?|[?|[?|[?|?]]]]]; [by left; left|by left; right; left|by left; right; right; left|by left; do 3 right|right; eauto|done]|].
    intros [[?|[?|[?|?]]]|(r' & [= <-] & ?)]; [by left|by right; left|by right; right; left|by do 3 right; left|by do 4 right; left].
  - eexists. split; [done|]. intros name. unfold parts_have. cbn. rewrite suffix_set_insert. tauto.
  - eexists. split; [done|]. intros name. unfold parts_have. cbn. rewrite elem_of_union, elem_of_singleton. tauto.
Qed.

(** ** Messages *)

Definition domain_fields (entry : Z * list byte) : list Field := (if entry.1 =? 0 then [] else [FVarint 1 entry.1]) ++ [FBytes 2 entry.2].

Lemma parse_domain_enc entry : entry_ok entry -> len (enc_fields (domain_fields entry)) <= USIZE_MAX ->
  parse_domain (enc_fields (domain_fields entry)) = Ok entry.
Proof.
  destruct entry as [kind value]. intros (Hk & Hv & Hu & _) Hl. unfold parse_domain. rewrite proto_fold_enc; [| |done].
  2: { apply wire_all; [done|]. unfold domain_fields. apply Forall_app. split; [|constructor; [unfold MAX_FIELD_NUMBER; cbn; lia|done]].
    destruct (_ =? 0); [done|]. constructor; [|done]. unfold MAX_FIELD_NUMBER, u64_range, U64_MAX. cbn. lia. }
  assert (Hlast : forall acc, domain_field acc (field_of (FBytes 2 value)) = Ok (acc.1, Some value)) by (intros acc; unfold domain_field, utf8; cbn; by rewrite Hu).
  assert (Hf : fold_fields domain_field (0, None) (map field_of (domain_fields (kind, value))) = Ok (kind, Some value)).
  { unfold domain_fields. cbn [fst snd]. rewrite map_app, fold_fields_app. destruct (Z.eqb_spec kind 0) as [->|]; cbn [map fold_fields mbind result_bind].
    - by rewrite Hlast.
    - change (domain_field (0, None) (field_of (FVarint 1 kind))) with (Ok (kind, None) : result AssetLoadError (Z * option (list byte))).
      cbn [mbind result_bind]. by rewrite Hlast. }
  rewrite Hf. cbn. by destruct value.
Qed.

Lemma domain_entries_exact entries : Forall entry_ok entries -> Forall (fun e => len (enc_fields (domain_fields e)) <= USIZE_MAX) entries -> forall p,
  exists p', domain_entries (map (fun e => enc_fields (domain_fields e)) entries) p = Ok p' /\
    (forall name, parts_have p' name <-> parts_have p name \/ Exists (fun e => entry_has e name) entries) /\
    dp_substrings p' = dp_substrings p ++ map (fun e => to_ascii_lowercase e.2) (filter (fun e => e.1 = 0) entries).
Proof.
  induction entries as [|e entries IH]; intros Hok Hl p.
  - exists p. rewrite app_nil_r. split_and!; [done| |done]. intros name. rewrite Exists_nil. tauto.
  - apply Forall_cons in Hok as [He Hok]. apply Forall_cons in Hl as [Hle Hl]. cbn [map domain_entries]. rewrite parse_domain_enc by done. cbn [mbind result_bind].
    destruct (domain_entry_exact p e He) as (p1 & Hp1 & Hh1). destruct (IH Hok Hl p1) as (p2 & Hp2 & Hh2 & Hs2). exists p2. destruct e as [kind value]. cbn [fst snd] in Hp1.
    rewrite Hp1. cbn [mbind result_bind]. split_and!; [done| |].
    + intros name. rewrite Hh2, Hh1, Exists_cons. tauto.
    + rewrite Hs2, filter_cons. cbn [fst snd]. unfold domain_entry in Hp1. destruct (Z.eqb_spec kind 0) as [->|Hne].
      * rewrite decide_True by done. injection Hp1 as <-. cbn. by rewrite <- app_assoc.
      * rewrite decide_False by done. f_equal. destruct (kind =? 1); [destruct (aregex_build value); [|done|done]|destruct (kind =? 2); [|destruct (kind =? 3); [|done]]]; by injection Hp1 as <-.
Qed.

(** ** Labels *)

Record GeoSiteEntry := { gs_code : list byte; gs_domains : list (Z * list byte) }.

Definition geosite_fields (e : GeoSiteEntry) : list Field := FBytes 1 (gs_code e) :: map (fun d => FBytes 2 (enc_fields (domain_fields d))) (gs_domains e).
Definition geosite_file (es : list GeoSiteEntry) : list byte := enc_fields (map (fun e => FBytes 1 (enc_fields (geosite_fields e))) es).

Definition keywords_of (e : GeoSiteEntry) : list (list byte) := map (fun d => to_ascii_lowercase d.2) (filter (fun d => d.1 = 0) (gs_domains e)).

Definition geosite_ok (e : GeoSiteEntry) : Prop :=
  gs_code e <> [] /\ from_utf8 (gs_code e) = true /\ Forall entry_ok (gs_domains e) /\ (keywords_of e <> [] -> is_Some (asub_build (keywords_of e))).

(** A name is of a label, in any case, when an entry of the label matches it. *)
Definition geosite_has (e : GeoSiteEntry) (name : list byte) : Prop := Exists (fun d => entry_has d (to_ascii_lowercase name)) (gs_domains e).

Lemma lower_byte_idem b : to_ascii_lowercase_byte (to_ascii_lowercase_byte b) = to_ascii_lowercase_byte b.
Proof. destruct b; vm_compute; reflexivity. Qed.

Lemma lower_idem l : to_ascii_lowercase (to_ascii_lowercase l) = to_ascii_lowercase l.
Proof. unfold to_ascii_lowercase. rewrite map_map. apply map_ext, lower_byte_idem. Qed.

Lemma lower_normal l : (if existsb is_ascii_uppercase l then to_ascii_lowercase l else l) = to_ascii_lowercase l.
Proof.
  destruct (existsb is_ascii_uppercase l) eqn:E; [done|]. induction l as [|b l IH]; [done|]. cbn in E. apply orb_false_iff in E as [Hb E].
  cbn. unfold to_ascii_lowercase_byte. rewrite Hb. f_equal. by apply IH.
Qed.

(** A compiled set matches the names its entries match. *)
Lemma domainset_exact e : geosite_ok e -> Forall (fun d => len (enc_fields (domain_fields d)) <= USIZE_MAX) (gs_domains e) ->
  exists s, domainset_compile (map (fun d => enc_fields (domain_fields d)) (gs_domains e)) = Ok s /\
    forall name, domainset_matches s name = true <-> geosite_has e name.
Proof.
  intros (_ & _ & Hok & Hb) Hl. unfold domainset_compile. destruct (domain_entries_exact _ Hok Hl no_parts) as (p & -> & Hp & Hs). cbn [mbind result_bind].
  change (dp_substrings p = keywords_of e) in Hs. rewrite Hs.
  assert (Hm : exists m, (if len (keywords_of e) =? 0 then Ok None else m ← ok_or InvalidSubstringSet (asub_build (keywords_of e)); Ok (Some m)) = (Ok m : result AssetLoadError _) /\
    forall name, match m with Some m => asub_is_match m (to_ascii_lowercase name) | None => false end = true <->
      Exists (fun v => exists a b, to_ascii_lowercase name = a ++ v ++ b) (keywords_of e)).
  { destruct (keywords_of e) as [|k ks] eqn:Ek.
    - exists None. split; [done|]. intros name. by rewrite Exists_nil.
    - destruct (Hb ltac:(done)) as [m Hm]. exists (Some m). rewrite Hm. split; [done|]. intros name. rewrite (asub_exact _ _ _ Hm), lower_idem, Exists_exists, <- Ek.
      assert (Hk : forall v, v ∈ keywords_of e -> to_ascii_lowercase v = v).
      { intros v Hv. apply list_elem_of_In, in_map_iff in Hv as (d & <- & _). apply lower_idem. }
      split; [intros (v & a & b & Hv & H); exists v; rewrite (Hk v Hv) in H; eauto|intros (v & Hv & a & b & H); exists v, a, b; by rewrite (Hk v Hv)]. }
  destruct Hm as (m & -> & Hm). cbn [mbind result_bind]. eexists. split; [done|]. intros name. unfold domainset_matches. cbn [ds_full ds_suffixes ds_substrings ds_regexes].
  rewrite lower_normal, !orb_true_iff, bool_decide_eq_true, Hm, <- Hs. unfold geosite_has.
  specialize (Hp (to_ascii_lowercase name)). unfold parts_have in Hp. cbn [dp_full dp_suffixes dp_substrings dp_regexes no_parts] in Hp.
  assert (Hno : ~ (to_ascii_lowercase name ∈ (∅ : gset (list byte)) \/ suffix_set_matches ∅ (to_ascii_lowercase name) = true \/
    Exists (fun v => exists a b, to_ascii_lowercase name = a ++ v ++ b) [] \/ existsb (fun r => aregex_is_match r (to_ascii_lowercase name)) [] = true)).
  { rewrite Exists_nil. unfold suffix_set_matches. rewrite orb_true_iff, bool_decide_eq_true, existsb_exists. setoid_rewrite bool_decide_eq_true.
    by intros [[]%not_elem_of_empty|[[[]%not_elem_of_empty|(x & _ & []%not_elem_of_empty)]|[?|?]]]. }
  split; intros H.
  - destruct (proj1 Hp) as [?|?]; [|by destruct Hno|done]. destruct H as [[[?|?]|?]|?]; [by left|by right; left|by right; right; left|by do 3 right].
  - destruct (proj2 Hp (or_intror H)) as [?|[?|[?|?]]]; [by do 3 left|by left; left; right|by left; right|by right].
Qed.

(** ** Reading the file *)

Lemma geosite_entries_fold ds acc :
  fold_fields geosite_field acc (map field_of (map (fun d => FBytes 2 (enc_fields (domain_fields d))) ds)) = Ok (acc.1, acc.2 ++ map (fun d => enc_fields (domain_fields d)) ds).
Proof. revert acc. induction ds as [|d ds IH]; intros [c l]; cbn; [by rewrite app_nil_r|]. rewrite IH. cbn. by rewrite <- app_assoc. Qed.

Lemma scan_geosite_enc e : geosite_ok e -> len (enc_fields (geosite_fields e)) <= USIZE_MAX ->
  scan_geosite (enc_fields (geosite_fields e)) = Ok (to_ascii_lowercase (gs_code e), map (fun d => enc_fields (domain_fields d)) (gs_domains e)).
Proof.
  intros (Hc & Hu & _) Hl. unfold scan_geosite. rewrite proto_fold_enc; [| |done].
  2: { apply wire_all; [done|]. unfold geosite_fields. constructor; [unfold MAX_FIELD_NUMBER; cbn; lia|].
    apply Forall_map, Forall_true. intros d. unfold MAX_FIELD_NUMBER. cbn. lia. }
  unfold geosite_fields. cbn [map fold_fields].
  change (geosite_field (None, []) (field_of (FBytes 1 (gs_code e)))) with (v ← utf8 (gs_code e); Ok (Some (to_ascii_lowercase v), [] : list (list byte))).
  unfold utf8. rewrite Hu. cbn [mbind result_bind]. rewrite geosite_entries_fold. by destruct (gs_code e).
Qed.

(** The set compiled for an entry; [geosite_set_spec] excludes the empty one. *)
Definition geosite_set (e : GeoSiteEntry) : DomainSet :=
  match domainset_compile (map (fun d => enc_fields (domain_fields d)) (gs_domains e)) with
  | Ok s => s
  | _ => {| ds_substrings := None; ds_regexes := []; ds_suffixes := ∅; ds_full := ∅ |}
  end.

Lemma geosite_set_spec e : geosite_ok e -> len (enc_fields (geosite_fields e)) <= USIZE_MAX ->
  domainset_compile (map (fun d => enc_fields (domain_fields d)) (gs_domains e)) = Ok (geosite_set e) /\
  forall name, domainset_matches (geosite_set e) name = true <-> geosite_has e name.
Proof.
  intros Hok Hl. destruct (domainset_exact e Hok) as (s & Hs & Hm).
  { apply Forall_forall. intros d Hin. eapply (inner_bytes _ 2); [|exact Hl]. right. apply list_elem_of_In, in_map_iff. exists d. split; [done|by apply list_elem_of_In]. }
  unfold geosite_set. rewrite Hs. done.
Qed.

Lemma geosite_fold required es : Forall geosite_ok es -> len (geosite_file es) <= USIZE_MAX -> forall labels,
  fold_fields (geosite_message required) labels (map field_of (map (fun e => FBytes 1 (enc_fields (geosite_fields e))) es)) =
    label_fold (fun e => to_ascii_lowercase (gs_code e)) geosite_set required labels es.
Proof.
  unfold geosite_file. induction es as [|e es IH]; intros Hok Hl labels; [done|]. apply Forall_cons in Hok as [He Hok]. cbn [map] in Hl. rewrite len_fields_cons in Hl.
  pose proof (len_bytes_field 1 (enc_fields (geosite_fields e))) as Hb. pose proof (len_nonneg (enc_fields (map (fun e => FBytes 1 (enc_fields (geosite_fields e))) es))) as Hr.
  cbn [map fold_fields label_fold].
  assert (Hm : forall b, geosite_message required labels (field_of (FBytes 1 b)) = ('(code, entries) ← scan_geosite b;
    if bool_decide (code ∈ required) then set ← domainset_compile entries; insert_label labels code set else Ok labels)) by done.
  rewrite Hm, scan_geosite_enc by (done || lia). cbn [mbind result_bind]. rewrite (proj1 (geosite_set_spec e He ltac:(lia))). cbn [mbind result_bind].
  destruct (if bool_decide _ then _ else _) as [m| |]; [|done|done]. apply IH; [done|]. pose proof (len_nonneg (enc_field (FBytes 1 (enc_fields (geosite_fields e))))). lia.
Qed.

(** The domain parser answers or reports an error on any bytes, when building an
    expression does. *)
Lemma parse_geosite_no_panic l required : (forall v, no_panic (aregex_build v)) -> no_panic (parse_geosite_list l required).
Proof.
  intros Hr. assert (Hu : forall l, no_panic (utf8 l)) by (intros x; unfold utf8; by destruct (from_utf8 x)).
  assert (Hp : forall e v, no_panic (present e v)) by (by intros e [[]|]).
  apply no_panic_bind; [|intros m _; apply no_panic_bind; [apply no_panic_ensure|done]]. apply proto_fold_no_panic. intros m f. unfold geosite_message.
  destruct (pf_value f); [done| |done]. destruct (_ =? 1); [|done]. apply no_panic_bind.
  - apply no_panic_bind; [|intros [c es] _; by apply no_panic_bind]. apply proto_fold_no_panic. intros [c es] g. unfold geosite_field.
    destruct (pf_value g); [done| |done]. destruct (_ =? 1); [by apply no_panic_bind|by destruct (_ =? 2)].
  - intros [c es] _. case_bool_decide; [|done]. apply no_panic_bind; [|intros; apply no_panic_insert_label]. apply no_panic_bind.
    + generalize no_parts. induction es as [|e es IH]; intros p; [done|]. cbn [domain_entries]. apply no_panic_bind.
      * apply no_panic_bind; [|intros [k v] _; by apply no_panic_bind]. apply proto_fold_no_panic. intros [k v] g. unfold domain_field.
        destruct (pf_value g); [done| |done]. destruct (_ =? 2); [by apply no_panic_bind|done].
      * intros [k v] _. apply no_panic_bind; [|intros; apply IH]. unfold domain_entry. destruct (k =? 0); [done|]. destruct (k =? 1); [|by destruct (k =? 2), (k =? 3)].
        apply no_panic_bind; [by apply no_panic_map_err|done].
    + intros p _. apply no_panic_bind; [|done]. destruct (_ =? 0); [done|]. apply no_panic_bind; [apply no_panic_ok_or|done].
Qed.

(** A GeoSite file answers as the list of domain entries it encodes. For
    every addressable file of well-formed entries and every set of required
    labels, the parser returns the labels exactly when each required label is
    carried once: then a name is in a label's set if and only if one of its
    substrings, expressions, suffixes or full names matches the name in lower
    case. Otherwise it reports a required label that is absent or repeated. *)
Theorem geosite_file_exact es required : Forall geosite_ok es -> len (geosite_file es) <= USIZE_MAX ->
  (exists m, parse_geosite_list (geosite_file es) required = Ok m /\
     forall l, l ∈ required -> exists s i e, m !! l = Some s /\ es !! i = Some e /\ to_ascii_lowercase (gs_code e) = l /\
       (forall j e', es !! j = Some e' -> to_ascii_lowercase (gs_code e') = l -> j = i) /\ forall name, domainset_matches s name = true <-> geosite_has e name) \/
  (exists l, parse_geosite_list (geosite_file es) required = Err (MissingLabel l) /\ l ∈ required /\ forall e, e ∈ es -> to_ascii_lowercase (gs_code e) <> l) \/
  (exists l, parse_geosite_list (geosite_file es) required = Err (DuplicateLabel l) /\ l ∈ required /\
     repeated (fun e => to_ascii_lowercase (gs_code e)) es l).
Proof.
  intros Hok Hl. assert (Hp : parse_geosite_list (geosite_file es) required =
    (labels ← label_fold (fun e => to_ascii_lowercase (gs_code e)) geosite_set required ∅ es; _ ← ensure_required_labels required labels; Ok labels)).
  { unfold parse_geosite_list, geosite_file. rewrite proto_fold_enc; [by rewrite geosite_fold| |done].
    apply wire_all; [done|]. apply Forall_map, Forall_true. intros e. unfold MAX_FIELD_NUMBER. cbn. lia. }
  rewrite Hp. destruct (labels_outcome (fun e => to_ascii_lowercase (gs_code e)) geosite_set required es) as [(m & -> & Hnd & Hall & Hm)|[H|H]]; [|eauto..].
  left. exists m. split; [done|]. intros l Hr. destruct (Hall l Hr) as [s Hs]. destruct (proj1 (Hm l s) Hs) as (e & He & Hc & _ & <-).
  destruct (proj1 (list_elem_of_lookup _ _) He) as [i Hi]. exists (geosite_set e), i, e. split_and!; [done|done|done| |].
  - intros j e' He' Hc'. eapply required_unique; [exact Hnd|done|done|cbn; congruence|cbn; by rewrite Hc'].
  - apply geosite_set_spec; [by apply (proj1 (Forall_forall _ _) Hok)|]. eapply (inner_bytes _ 1); [|exact Hl].
    apply list_elem_of_In, in_map_iff. exists e. split; [done|by apply list_elem_of_In].
Qed.
End Domains.

(** A search that compares literally, for concrete files. *)
#[local] Instance literal_search : AssetSearch := {|
  ARegex := list byte; aregex_build v := Ok v; aregex_is_match r d := bytes_eqb r d;
  ASubstrings := list (list byte); asub_build ps := Some ps;
  asub_is_match ps d := existsb (fun p => keyword_matches (to_ascii_lowercase d) (to_ascii_lowercase p)) ps |}.

#[local] Instance literal_laws : AssetSearchLaws literal_search.
Proof.
  constructor. intros ps m d [= <-]. cbn [asub_is_match literal_search]. rewrite existsb_exists. setoid_rewrite <- list_elem_of_In.
  assert (Hk : forall d k, keyword_matches d k = true <-> exists a b, d = a ++ k ++ b).
  { intros x k. unfold keyword_matches. destruct k as [|b k]; [split; [by exists [], x|done]|].
    rewrite (proj2 (Z.eqb_neq (len (b :: k)) 0)) by slen. cbn [orb]. rewrite existsb_exists. setoid_rewrite <- list_elem_of_In.
    setoid_rewrite bytes_eqb_eq. setoid_rewrite windows_elem; [|cbn; lia..]. split.
    - intros (w & (p & s & H & _) & ->). by exists p, s.
    - intros (p & s & ->). exists (b :: k). split; [by exists p, s|done]. }
  split.
  - intros (p & Hp & (a & b & H)%Hk). eauto.
  - intros (p & a & b & Hp & H). exists p. split; [done|]. apply Hk. eauto.
Qed.

Definition sample_geosite : list GeoSiteEntry :=
  [{| gs_code := bytes_of "CN"; gs_domains := [(2, bytes_of "Example.com"); (3, bytes_of "host.test"); (0, bytes_of "ads")] |};
   {| gs_code := bytes_of "other"; gs_domains := [(1, bytes_of "x")] |}].

Lemma sample_geosite_ok : Forall geosite_ok sample_geosite.
Proof.
  assert (He : forall kind value, 0 <= kind <= 3 -> value <> [] -> from_utf8 value = true -> entry_ok (kind, value)) by (intros k v H1 H2 H3; unfold entry_ok; eauto).
  repeat (apply Forall_cons; split); [| |apply Forall_nil; done]; unfold geosite_ok; (split; [discriminate|split; [reflexivity|split; [|intros _; eexists; reflexivity]]]); cbn [gs_domains];
    repeat (apply Forall_cons; split); try (apply Forall_nil; exact I); (apply He; [lia|discriminate|reflexivity]).
Qed.

Lemma geosite_file_exact_witness : exists m s e,
  parse_geosite_list (geosite_file sample_geosite) {[ bytes_of "cn" ]} = Ok m /\ m !! bytes_of "cn" = Some s /\ gs_code e = bytes_of "CN" /\
  forall name, domainset_matches s name = true <-> geosite_has e name.
Proof.
  assert (Hok : is_ok (parse_geosite_list (geosite_file sample_geosite) {[ bytes_of "cn" ]}) = true) by (vm_compute; reflexivity).
  destruct (geosite_file_exact sample_geosite {[ bytes_of "cn" ]}) as [(m & Hm & Hl)|[(l & H & _)|(l & H & _)]].
  - exact sample_geosite_ok.
  - vm_compute. done.
  - destruct (Hl (bytes_of "cn")) as (s & i & e & Hs & He & Hc & _ & Hm'); [by apply elem_of_singleton|]. exists m, s, e. split_and!; [done|done| |done].
    apply list_elem_of_lookup_2 in He. unfold sample_geosite in He. apply elem_of_cons in He as [->|He]; [done|]. apply list_elem_of_singleton in He as ->. discriminate Hc.
  - rewrite H in Hok. discriminate Hok.
  - rewrite H in Hok. discriminate Hok.
Defined.
