(* ===== verification/Assets.v ===== *)
(** * Asset snapshots ([src/assets/mod.rs], [src/config/node/assets.rs])

    Which labels a configuration needs, the choice between a download and the
    cached file, the loading of one generation and its publication. The file
    system and the HTTP client are the class [AssetIo]; the metadata's JSON form
    is two of its operations. *)

From stdpp Require Import gmap.
From S2P Require Import Prelude NetText Cursor Replay ServerName VlessRequest Routing Dat DatExact.
#[local] Open Scope Z_scope.

Definition MAX_ASSET_BYTES : Z := 128 * 1024 * 1024.

#[export] Instance AssetSource_eq_dec : EqDecision AssetSource.
Proof. solve_decision. Defined.
#[export] Instance AssetSource_countable : Countable AssetSource.
Proof.
  refine (inj_countable' (fun s => match s with GeoSite => inl true | GeoIp => inl false | External f => inr f end)
    (fun x => match x with inl true => GeoSite | inl false => GeoIp | inr f => External f end) _).
  by intros [].
Defined.

(** ** Configuration *)

Record AssetsConfig := { ac_geoip : option (list byte); ac_geosite : option (list byte); ac_cache_directory : option (list byte) }.
Definition default_assets : AssetsConfig := {| ac_geoip := None; ac_geosite := None; ac_cache_directory := None |}.

Definition DEFAULT_GEOIP_URL : list byte := bytes_of "https://cdn.jsdelivr.net/gh/Loyalsoldier/v2ray-rules-dat@release/geoip.dat".
Definition DEFAULT_GEOSITE_URL : list byte := bytes_of "https://cdn.jsdelivr.net/gh/Loyalsoldier/v2ray-rules-dat@release/geosite.dat".
Definition DEFAULT_CACHE_DIRECTORY : list byte := bytes_of "/var/lib/rust-reality/assets".

Definition geoip (c : AssetsConfig) : list byte := default DEFAULT_GEOIP_URL (ac_geoip c).
Definition geosite (c : AssetsConfig) : list byte := default DEFAULT_GEOSITE_URL (ac_geosite c).
Definition cache_directory (c : AssetsConfig) : list byte := default DEFAULT_CACHE_DIRECTORY (ac_cache_directory c).

(** The parts of [EntryConfig] the assets are loaded from. *)
Record EntryAssets := { ea_routing : RoutingConfig; ea_assets : option AssetsConfig }.

(** ** Required labels *)

Record AssetRequirements := {
  rq_geosite : gset (list byte); rq_geoip : gset (list byte);
  rq_external_domains : gmap (list byte) (gset (list byte)); rq_external_ips : gmap (list byte) (gset (list byte));
}.
Definition no_requirements : AssetRequirements := {| rq_geosite := ∅; rq_geoip := ∅; rq_external_domains := ∅; rq_external_ips := ∅ |}.

(** [input.get(..n).is_some_and(|p| p.eq_ignore_ascii_case(prefix))]: a prefix of
    ASCII bytes ends at a character boundary. *)
Definition has_prefix (prefix input : list byte) : bool :=
  (length prefix <=? length input)%nat && eq_ignore_ascii_case (take (length prefix) input) prefix.

Definition parse_external (input : list byte) : option (list byte * list byte) :=
  if has_prefix (bytes_of "ext:") input then split_once x3a (drop 4 input) else None.

(** [map.entry(file).or_default().insert(label)]. *)
Definition add_external (m : gmap (list byte) (gset (list byte))) (file label : list byte) : gmap (list byte) (gset (list byte)) :=
  <[file := {[ label ]} ∪ default ∅ (m !! file)]> m.

Definition require_domain (r : AssetRequirements) (matcher : list byte) : AssetRequirements :=
  if has_prefix (bytes_of "geosite:") matcher then
    {| rq_geosite := {[ to_ascii_lowercase (drop 8 matcher) ]} ∪ rq_geosite r; rq_geoip := rq_geoip r;
       rq_external_domains := rq_external_domains r; rq_external_ips := rq_external_ips r |}
  else match parse_external matcher with
       | Some (file, label) =>
         {| rq_geosite := rq_geosite r; rq_geoip := rq_geoip r;
            rq_external_domains := add_external (rq_external_domains r) file (to_ascii_lowercase label); rq_external_ips := rq_external_ips r |}
       | None => r
       end.

Definition require_ip (r : AssetRequirements) (matcher : list byte) : AssetRequirements :=
  if has_prefix (bytes_of "geoip:") matcher then
    {| rq_geosite := rq_geosite r; rq_geoip := {[ to_ascii_lowercase (drop 6 matcher) ]} ∪ rq_geoip r;
       rq_external_domains := rq_external_domains r; rq_external_ips := rq_external_ips r |}
  else match parse_external matcher with
       | Some (file, label) =>
         {| rq_geosite := rq_geosite r; rq_geoip := rq_geoip r;
            rq_external_domains := rq_external_domains r; rq_external_ips := add_external (rq_external_ips r) file (to_ascii_lowercase label) |}
       | None => r
       end.

Definition require_rule (r : AssetRequirements) (rule : RouteRule) : AssetRequirements :=
  foldl require_ip (foldl require_domain r (rule_domain rule)) (rule_ip rule).

(** The rules of the router, then those of each policy. *)
Definition all_rules (c : RoutingConfig) : list RouteRule := config_rules c ++ concat (map (fun p => policy_rules p.2) (config_policies c)).

Definition from_config (c : EntryAssets) : AssetRequirements := foldl require_rule no_requirements (all_rules (ea_routing c)).

(** ** Files and downloads *)

Record CacheMetadata := { cm_source : list byte; cm_etag : option (list byte); cm_last_modified : option (list byte) }.
Record CacheUpdate := { cu_data_path : list byte; cu_metadata_path : list byte; cu_bytes : list byte; cu_metadata : CacheMetadata }.

Inductive AssetCandidate := Cached (bytes : list byte) | Downloaded (bytes : list byte) (fallback_path : list byte) (update : CacheUpdate).

(** The variants of [ureq::Error] that the code tells apart. *)
Inductive UreqError :=
| UHttp | UBadUri | URequireHttpsOnly | UTimeout | UHostNotFound | UTls | URustls | UPem | URedirectFailed | UTooManyRedirects
| UStatusCode (status : Z) | UProtocol | ULargeResponseHeader | UBodyExceedsLimit | UOther.

Definition from_ureq (e : UreqError) : AssetDownloadFailure :=
  match e with
  | UHttp | UBadUri | URequireHttpsOnly => BadUrl
  | UTimeout => DlTimeout
  | UHostNotFound => NameResolution
  | UTls | URustls | UPem => DlTls
  | URedirectFailed | UTooManyRedirects => Redirect
  | UStatusCode status => HttpStatus status
  | UProtocol | ULargeResponseHeader => DlProtocol
  | UBodyExceedsLimit | UOther => DlTransport
  end.

(** An opened file: its length and its contents, or the error of reading them. *)
Record FileView := { fv_len : result Z Z; fv_content : result Z (list byte) }.

(** A response: its status, the readable values of two headers, and the body
    under a limit. *)
Record HttpResponse := {
  hr_status : Z; hr_etag : option (list byte); hr_last_modified : option (list byte); hr_body : Z -> result UreqError (list byte);
}.

Class AssetIo := {
  file_open : list byte -> result Z FileView;
  is_file : list byte -> bool;
  (** [agent.get(url)] with the conditional headers *)
  http_get : list byte -> option (list byte) -> option (list byte) -> result UreqError HttpResponse;
  metadata_from_json : list byte -> option CacheMetadata;
  (** [CacheUpdate::commit]: the atomic replacement of both files *)
  commit_update : CacheUpdate -> result AssetLoadError unit;
}.

(** [Path::join] with a relative name. *)
Definition path_join (base name : list byte) : list byte :=
  match last base with Some b => if bool_decide (b = x2f) then base ++ name else base ++ x2f :: name | None => name end.

(** The components of a Unix path: empty ones and inner dots are dropped. *)
Definition path_normal (l : list byte) : bool :=
  match split x2f l with
  | first :: rest => negb (bytes_eqb first (bytes_of ".")) && forallb (fun c => negb (bytes_eqb c (bytes_of ".."))) (first :: rest)
  | [] => true
  end.

Definition resolve_external (directory external : list byte) : result AssetLoadError (list byte) :=
  guard! starts_with external (bytes_of "/") || negb (path_normal external) else InvalidExternalPath;
  Ok (path_join directory external).

Section Load.
Context {AX : AssetSearch} {IO : AssetIo}.

Definition io_error {A} (path : list byte) (r : result Z A) : result AssetLoadError A := map_err (AlIo path) r.

(** [file.take(limit).read_to_end(..)]. *)
Definition take_limit (limit : Z) (content : list byte) : list byte := if len content <=? limit then content else take (Z.to_nat limit) content.

Definition read_bounded (path : list byte) (maximum : Z) : result AssetLoadError (list byte) :=
  file ← io_error path (file_open path);
  length ← io_error path (fv_len file);
  limit ← ok_or SizeLimitUnsupported (try_from U64_MAX maximum);
  guard! limit <? length else AlTooLarge path maximum;
  read_limit ← ok_or SizeLimitUnsupported (checked_add U64_MAX limit 1);
  content ← io_error path (fv_content file);
  let bytes := take_limit read_limit content in
  guard! maximum <? len bytes else AlTooLarge path maximum;
  Ok bytes.

Definition read_cache_metadata (path source : list byte) : option CacheMetadata :=
  match read_bounded path (16 * 1024) with
  | Ok bytes => metadata ← metadata_from_json bytes; if bytes_eqb (cm_source metadata) source then Some metadata else None
  | _ => None
  end.

(** [.filter(|value| value.len() <= 8 * 1024)]. *)
Definition response_header (value : option (list byte)) : option (list byte) :=
  value ← value; if len value <=? 8 * 1024 then Some value else None.

Definition cached_candidate (path : list byte) (maximum : Z) (failure : AssetDownloadFailure) : result AssetLoadError AssetCandidate :=
  map_err (fun _ => Download failure) (Cached <$> read_bounded path maximum).

(** The body of a 200 response. *)
Definition read_body (r : HttpResponse) (data_path : list byte) (maximum : Z) : result AssetLoadError (list byte) :=
  body_limit ← ok_or SizeLimitUnsupported (checked_add USIZE_MAX maximum 1);
  limit ← ok_or SizeLimitUnsupported (try_from U64_MAX body_limit);
  bytes ← map_err (fun e => match e with UBodyExceedsLimit => AlTooLarge data_path maximum | _ => Download (from_ureq e) end) (hr_body r limit);
  guard! maximum <? len bytes else AlTooLarge data_path maximum;
  Ok bytes.

Definition fetch (directory name url : list byte) (maximum : Z) : result AssetLoadError AssetCandidate :=
  let data_path := path_join directory name in
  let metadata_path := path_join directory (name ++ bytes_of ".metadata.json") in
  let metadata := if is_file data_path then read_cache_metadata metadata_path url else None in
  let downloaded :=
    match http_get url (m ← metadata; cm_etag m) (m ← metadata; cm_last_modified m) with
    | Ok r =>
      if hr_status r =? 200 then
        bytes ← read_body r data_path maximum;
        Ok (bytes, response_header (hr_etag r), response_header (hr_last_modified r))
      else if hr_status r =? 304 then Err (Download CacheUnavailable)
      else Err (Download (HttpStatus (hr_status r)))
    | Err e => Err (Download (from_ureq e))
    | Panic => Panic
    end in
  match downloaded with
  | Ok (bytes, etag, last_modified) =>
    Ok (Downloaded bytes data_path {| cu_data_path := data_path; cu_metadata_path := metadata_path; cu_bytes := bytes;
          cu_metadata := {| cm_source := url; cm_etag := etag; cm_last_modified := last_modified |} |})
  | Err (Download failure) => cached_candidate data_path maximum failure
  | Err e => Err e
  | Panic => Panic
  end.

(** A download that does not parse falls back to the cached file. *)
Definition parse_candidate {T : Type} (candidate : AssetCandidate) (maximum : Z) (parse : list byte -> result AssetLoadError T) : result AssetLoadError (T * option CacheUpdate) :=
  match candidate with
  | Cached bytes => parsed ← parse bytes; Ok (parsed, None)
  | Downloaded bytes fallback_path update =>
    match parse bytes with
    | Ok parsed => Ok (parsed, Some update)
    | Err download_error =>
      match (cached ← read_bounded fallback_path maximum; parse cached) with
      | Ok parsed => Ok (parsed, None)
      | Err _ => Err download_error
      | Panic => Panic
      end
    | Panic => Panic
    end
  end.

(** ** One generation *)

Record AssetSnapshot := {
  sn_generation : Z; sn_domains : gmap AssetSource (gmap (list byte) DomainSet); sn_ips : gmap AssetSource (gmap (list byte) IpSet);
}.

Definition snapshot_matches_domain (s : AssetSnapshot) (source : AssetSource) (label domain : list byte) : bool :=
  match (labels ← sn_domains s !! source; labels !! label) with Some set => domainset_matches set domain | None => false end.
Definition snapshot_matches_ip (s : AssetSnapshot) (source : AssetSource) (label : list byte) (a : IpAddr) : bool :=
  match (labels ← sn_ips s !! source; labels !! label) with Some set => ipset_matches set a | None => false end.

(** The snapshot as the router sees it. *)
Definition snapshot_matcher (s : AssetSnapshot) : AssetMatcher :=
  {| matches_domain := snapshot_matches_domain s; matches_ip := snapshot_matches_ip s |}.

(** The community file of one kind, when any label of it is required. *)
Definition load_default {T : Type} (directory name url : list byte) (source : AssetSource) (required : gset (list byte))
    (parse : list byte -> gset (list byte) -> result AssetLoadError (gmap (list byte) T)) :
    result AssetLoadError (gmap AssetSource (gmap (list byte) T) * list CacheUpdate) :=
  if bool_decide (required = ∅) then Ok (∅, [])
  else
    candidate ← fetch directory name url MAX_ASSET_BYTES;
    '(parsed, update) ← parse_candidate candidate MAX_ASSET_BYTES (fun input => parse input required);
    Ok ({[ source := parsed ]}, match update with Some u => [u] | None => [] end).

(** The external files of one kind. *)
Fixpoint load_external {T : Type} (directory : list byte) (files : list (list byte * gset (list byte)))
    (parse : list byte -> gset (list byte) -> result AssetLoadError (gmap (list byte) T)) (sets : gmap AssetSource (gmap (list byte) T)) :
    result AssetLoadError (gmap AssetSource (gmap (list byte) T)) :=
  match files with
  | [] => Ok sets
  | (file, labels) :: files =>
    path ← resolve_external directory file;
    bytes ← read_bounded path MAX_ASSET_BYTES;
    parsed ← parse bytes labels;
    load_external directory files parse (<[External file := parsed]> sets)
  end.

Fixpoint commit_updates (updates : list CacheUpdate) : result AssetLoadError unit :=
  match updates with [] => Ok tt | u :: updates => _ ← commit_update u; commit_updates updates end.

Definition load_generation (c : EntryAssets) (generation : Z) : result AssetLoadError AssetSnapshot :=
  let requirements := from_config c in
  let assets := default default_assets (ea_assets c) in
  let directory := cache_directory assets in
  '(domains, u1) ← load_default directory (bytes_of "geosite.dat") (geosite assets) GeoSite (rq_geosite requirements) parse_geosite_list;
  '(ips, u2) ← load_default directory (bytes_of "geoip.dat") (geoip assets) GeoIp (rq_geoip requirements) parse_geoip_list;
  domains ← load_external directory (map_to_list (rq_external_domains requirements)) parse_geosite_list domains;
  ips ← load_external directory (map_to_list (rq_external_ips requirements)) parse_geoip_list ips;
  _ ← commit_updates (u1 ++ u2);
  Ok {| sn_generation := generation; sn_domains := domains; sn_ips := ips |}.

(** ** Publication *)

Record AssetStore := { as_current : AssetSnapshot; as_generation : Z }.

Inductive AssetUpdateError := AuLoad (source : AssetLoadError) | AuGenerationExhausted | AuUnavailable.

Definition store_new (c : EntryAssets) : result AssetLoadError AssetStore :=
  snapshot ← load_generation c 0;
  Ok {| as_current := snapshot; as_generation := 0 |}.

(** [reload] under the update lock; [poisoned] is the lock's verdict. *)
Definition reload (poisoned : bool) (c : EntryAssets) (s : AssetStore) : result AssetUpdateError Z * AssetStore :=
  match (guard! poisoned else AuUnavailable;
         generation ← ok_or AuGenerationExhausted (checked_add U64_MAX (as_generation s) 1);
         snapshot ← map_err AuLoad (load_generation c generation);
         Ok (generation, snapshot)) with
  | Ok (generation, snapshot) => (Ok generation, {| as_current := snapshot; as_generation := generation |})
  | Err e => (Err e, s)
  | Panic => (Panic, s)
  end.
End Load.

(** ** Requirements cover the compiled matchers *)

Definition required_domain (r : AssetRequirements) (source : AssetSource) (label : list byte) : Prop :=
  match source with
  | GeoSite => label ∈ rq_geosite r
  | GeoIp => False
  | External file => exists labels, rq_external_domains r !! file = Some labels /\ label ∈ labels
  end.
Definition required_ip (r : AssetRequirements) (source : AssetSource) (label : list byte) : Prop :=
  match source with
  | GeoSite => False
  | GeoIp => label ∈ rq_geoip r
  | External file => exists labels, rq_external_ips r !! file = Some labels /\ label ∈ labels
  end.

Lemma add_external_mono m file label f labels l : m !! f = Some labels -> l ∈ labels ->
  exists labels', add_external m file label !! f = Some labels' /\ l ∈ labels'.
Proof.
  intros Hm Hl. unfold add_external. destruct (decide (f = file)) as [->|Hn].
  - rewrite lookup_insert_eq, Hm. eexists. split; [done|]. by apply elem_of_union_r.
  - rewrite lookup_insert_ne by done. eauto.
Qed.

Lemma add_external_has m file label : exists labels, add_external m file label !! file = Some labels /\ label ∈ labels.
Proof. unfold add_external. rewrite lookup_insert_eq. eexists. split; [done|]. by apply elem_of_union_l, elem_of_singleton. Qed.

Definition covers (r r' : AssetRequirements) : Prop :=
  forall source label, (required_domain r source label -> required_domain r' source label) /\ (required_ip r source label -> required_ip r' source label).

Lemma covers_trans r1 r2 r3 : covers r1 r2 -> covers r2 r3 -> covers r1 r3.
Proof. intros H1 H2 s l. specialize (H1 s l). specialize (H2 s l). tauto. Qed.

Lemma covers_foldl {A} (f : AssetRequirements -> A -> AssetRequirements) : (forall r x, covers r (f r x)) -> forall l r, covers r (foldl f r l).
Proof. intros Hf. induction l as [|x l IH]; intros r; cbn; [by intros s k|]. eapply covers_trans; [apply Hf|apply IH]. Qed.

Lemma require_domain_covers r m : covers r (require_domain r m).
Proof.
  unfold require_domain. intros source label. destruct (has_prefix _ _).
  - destruct source; cbn; split; try done. apply elem_of_union_r.
  - destruct (parse_external m) as [[f k]|]; [|done]. destruct source; cbn; split; try done. intros (labels & H & Hl). by apply (add_external_mono _ _ _ _ labels).
Qed.

Lemma require_ip_covers r m : covers r (require_ip r m).
Proof.
  unfold require_ip. intros source label. destruct (has_prefix _ _).
  - destruct source; cbn; split; try done. apply elem_of_union_r.
  - destruct (parse_external m) as [[f k]|]; [|done]. destruct source; cbn; split; try done. intros (labels & H & Hl). by apply (add_external_mono _ _ _ _ labels).
Qed.

(** An element that establishes [P] has it in the end. *)
Lemma foldl_reaches {A} (f : AssetRequirements -> A -> AssetRequirements) (P : AssetRequirements -> Prop) x l :
  (forall r y, P r -> P (f r y)) -> (forall r, P (f r x)) -> x ∈ l -> forall r, P (foldl f r l).
Proof.
  intros Hm Hx Hin. assert (Hk : forall l r, P r -> P (foldl f r l)) by (clear -Hm; induction l; cbn; auto).
  induction Hin as [x l|x y l _ IH]; intros r; cbn; [by apply Hk|by apply IH].
Qed.

Lemma strip_prefix_some p l r : strip_prefix p l = Some r <-> l = p ++ r.
Proof.
  unfold strip_prefix. destruct (bytes_eqb _ _) eqn:E.
  - apply bytes_eqb_eq in E. split; [intros [= <-]; rewrite <- (take_drop (length p) l) at 1; by rewrite E|]. intros ->. by rewrite drop_app_length.
  - split; [done|]. intros ->. rewrite take_app_length, bytes_eqb_refl in E. done.
Qed.

Lemma has_prefix_strip p l : to_ascii_lowercase p = p ->
  has_prefix p l = true <-> strip_prefix p (to_ascii_lowercase l) = Some (to_ascii_lowercase (drop (length p) l)).
Proof.
  intros Hp. unfold has_prefix, eq_ignore_ascii_case. rewrite andb_true_iff, Nat.leb_le, bytes_eqb_eq, Hp, strip_prefix_some. unfold to_ascii_lowercase in *.
  split.
  - intros [_ H]. rewrite <- (take_drop (length p) l) at 1. by rewrite map_app, H.
  - intros H. assert (Hl : (length p <= length l)%nat) by (apply (f_equal length) in H; rewrite length_map, length_app in H; lia). split; [done|].
    rewrite <- firstn_map. rewrite H. apply take_app_length.
Qed.

Lemma parse_external_matcher l : parse_external l = external_matcher l.
Proof.
  unfold parse_external, external_matcher, has_prefix. change (length (bytes_of "ext:")) with 4%nat.
  destruct (Nat.leb_spec 4 (length l)), (Nat.ltb_spec (length l) 4); try lia; done.
Qed.

Section Coverage.
Context {AX : AssetSearch} {AM : AssetMatcher} {RX : RegexOps}.

(** A matcher that compiles to a lookup has its label required. *)
Lemma domain_label_required r input source label : domain_compile input = Ok (DmAsset source label) -> required_domain (require_domain r input) source label.
Proof.
  unfold domain_compile. destruct (strip_prefix (bytes_of "full:") _); [discriminate|]. destruct (strip_prefix (bytes_of "domain:") _); [discriminate|].
  destruct (strip_prefix (bytes_of "keyword:") _); [discriminate|]. destruct (strip_prefix (bytes_of "regexp:") input) as [v|]; [destruct (regex_build v); discriminate|].
  pose proof (has_prefix_strip (bytes_of "geosite:") input eq_refl) as Hg. unfold require_domain. destruct (strip_prefix (bytes_of "geosite:") _) as [l|] eqn:E.
  - intros [= <- <-]. apply strip_prefix_some in E as E'. assert (Hl : l = to_ascii_lowercase (drop 8 input)).
    { apply (f_equal (drop 8)) in E'. unfold to_ascii_lowercase in *. rewrite <- skipn_map, E'. done. }
    rewrite (proj2 Hg) by (by rewrite Hl). cbn. rewrite Hl. by apply elem_of_union_l, elem_of_singleton.
  - destruct (has_prefix _ _); [discriminate (proj1 Hg eq_refl)|]. rewrite parse_external_matcher. destruct (external_matcher input) as [[f k]|]; [|discriminate].
    intros [= <- <-]. apply add_external_has.
Qed.

Lemma ip_label_required r input source label : ip_compile input = Ok (ImAsset source label) -> required_ip (require_ip r input) source label.
Proof.
  unfold ip_compile. pose proof (has_prefix_strip (bytes_of "geoip:") input eq_refl) as Hg. unfold require_ip. destruct (strip_prefix (bytes_of "geoip:") _) as [l|] eqn:E.
  - intros [= <- <-]. apply strip_prefix_some in E as E'. assert (Hl : l = to_ascii_lowercase (drop 6 input)).
    { apply (f_equal (drop 6)) in E'. unfold to_ascii_lowercase in *. rewrite <- skipn_map, E'. done. }
    rewrite (proj2 Hg) by (by rewrite Hl). cbn. rewrite Hl. by apply elem_of_union_l, elem_of_singleton.
  - destruct (has_prefix _ _); [discriminate (proj1 Hg eq_refl)|]. rewrite parse_external_matcher. destruct (external_matcher input) as [[f k]|].
    + intros [= <- <-]. apply add_external_has.
    + destruct (network_compile _); discriminate.
Qed.

Lemma require_rule_covers r rule : covers r (require_rule r rule).
Proof. unfold require_rule. eapply covers_trans; [apply (covers_foldl _ require_domain_covers)|apply (covers_foldl _ require_ip_covers)]. Qed.

Lemma from_config_domain c rule input source label : rule ∈ all_rules (ea_routing c) -> input ∈ rule_domain rule ->
  domain_compile input = Ok (DmAsset source label) -> required_domain (from_config c) source label.
Proof.
  intros Hr Hi Hc. unfold from_config. apply (foldl_reaches require_rule (fun r => required_domain r source label) rule); [|intros r|done].
  - intros r y. apply require_rule_covers.
  - unfold require_rule. apply (covers_foldl require_ip require_ip_covers). apply (foldl_reaches require_domain (fun r => required_domain r source label) input); [|intros r'; by apply domain_label_required|done].
    intros r' y. apply require_domain_covers.
Qed.

Lemma from_config_ip c rule input source label : rule ∈ all_rules (ea_routing c) -> input ∈ rule_ip rule ->
  ip_compile input = Ok (ImAsset source label) -> required_ip (from_config c) source label.
Proof.
  intros Hr Hi Hc. unfold from_config. apply (foldl_reaches require_rule (fun r => required_ip r source label) rule); [|intros r|done].
  - intros r y. apply require_rule_covers.
  - unfold require_rule. apply (foldl_reaches require_ip (fun r => required_ip r source label) input); [|intros r'; by apply ip_label_required|done].
    intros r' y. apply require_ip_covers.
Qed.
End Coverage.

(** ** A loaded generation is complete *)

Section Complete.
Context {AX : AssetSearch} {IO : AssetIo}.

(** A list parser that succeeds has every required label. *)
Definition total {T : Type} (parse : list byte -> gset (list byte) -> result AssetLoadError (gmap (list byte) T)) : Prop :=
  forall input required m, parse input required = Ok m -> forall l, l ∈ required -> is_Some (m !! l).

Lemma ensured {T : Type} (r : result AssetLoadError (gmap (list byte) T)) required m :
  (labels ← r; _ ← ensure_required_labels required labels; Ok labels) = Ok m -> forall l, l ∈ required -> is_Some (m !! l).
Proof.
  intros (labels & _ & H)%bind_ok. apply bind_ok in H as (u & Hu & [= <-]).
  destruct (ensure_spec required labels) as [[_ Hall]|(l & He & _)]; [done|]. by rewrite He in Hu.
Qed.

Lemma geosite_total : total parse_geosite_list.
Proof. intros input required m. apply ensured. Qed.
Lemma geoip_total : total parse_geoip_list.
Proof. intros input required m. apply ensured. Qed.

Definition has_set {T : Type} (sets : gmap AssetSource (gmap (list byte) T)) (source : AssetSource) (label : list byte) : Prop :=
  exists labels, sets !! source = Some labels /\ is_Some (labels !! label).

Lemma parse_candidate_total {T : Type} candidate maximum (parse : list byte -> result AssetLoadError T) x u :
  parse_candidate candidate maximum parse = Ok (x, u) -> exists input, parse input = Ok x.
Proof.
  destruct candidate as [b|b path up]; cbn.
  - intros (y & Hy & [= <- <-])%bind_ok. eauto.
  - destruct (parse b) as [y| |] eqn:Hb; [intros [= <- <-]; eauto| |done]. destruct (cached ← read_bounded path maximum; parse cached) as [y| |] eqn:Hc; [|done|done].
    intros [= <- <-]. apply bind_ok in Hc as (z & _ & Hz). eauto.
Qed.

Lemma load_default_has {T : Type} (parse : list byte -> gset (list byte) -> result AssetLoadError (gmap (list byte) T)) directory name url source required sets u :
  total parse -> load_default directory name url source required parse = Ok (sets, u) -> forall l, l ∈ required -> has_set sets source l.
Proof.
  unfold load_default. intros Ht. case_bool_decide as He; [intros _ l Hl; rewrite He in Hl; by apply not_elem_of_empty in Hl|].
  intros (cand & _ & H)%bind_ok. apply bind_ok in H as ([parsed up] & Hp & [= <- _]). apply parse_candidate_total in Hp as [input Hp].
  intros l Hl. exists parsed. rewrite lookup_singleton_eq. split; [done|]. by apply (Ht _ _ _ Hp).
Qed.

Lemma load_external_has {T : Type} (parse : list byte -> gset (list byte) -> result AssetLoadError (gmap (list byte) T)) directory files : total parse -> NoDup files.*1 ->
  forall sets sets', load_external directory files parse sets = Ok sets' ->
    (forall source, source ∉ (External <$> files.*1) -> sets' !! source = sets !! source) /\
    (forall file labels l, (file, labels) ∈ files -> l ∈ labels -> has_set sets' (External file) l).
Proof.
  intros Ht. induction files as [|[file labels] files IH]; intros Hnd sets sets' H.
  - cbn in H. injection H as <-. split; [done|]. intros f ls l Hin. by apply not_elem_of_nil in Hin.
  - apply NoDup_cons in Hnd as [Hfresh Hnd]. cbn in H. apply bind_ok in H as (path & _ & H). apply bind_ok in H as (bytes & _ & H). apply bind_ok in H as (parsed & Hp & H).
    destruct (IH Hnd _ _ H) as [Hold Hnew]. split.
    + intros source Hs. cbn in Hs. apply not_elem_of_cons in Hs as [Hne Hs]. rewrite Hold by done. by apply lookup_insert_ne.
    + intros f ls l [[= -> ->]|Hin]%elem_of_cons Hl; [|by apply (Hnew f ls)]. exists parsed. rewrite Hold.
      * rewrite lookup_insert_eq. split; [done|]. by apply (Ht _ _ _ Hp).
      * intros (x & [= <-] & Hx)%list_elem_of_fmap. done.
Qed.

(** The sets of one kind, the community file and the external ones. *)
Lemma load_kind {T : Type} (parse : list byte -> gset (list byte) -> result AssetLoadError (gmap (list byte) T)) directory name url source required external sets u sets' :
  total parse -> (forall f, source <> External f) -> load_default directory name url source required parse = Ok (sets, u) ->
  load_external directory (map_to_list external) parse sets = Ok sets' ->
  (forall l, l ∈ required -> has_set sets' source l) /\ (forall file labels l, external !! file = Some labels -> l ∈ labels -> has_set sets' (External file) l).
Proof.
  intros Ht Hs Hd He. destruct (load_external_has parse _ _ Ht (NoDup_fst_map_to_list external) _ _ He) as [Hold Hnew]. split.
  - intros l Hl. destruct (load_default_has parse _ _ _ _ _ _ _ Ht Hd l Hl) as (labels & Hx & Hy). exists labels. split; [|done].
    rewrite Hold; [done|]. intros (f & Hf & _)%list_elem_of_fmap. by apply (Hs f).
  - intros file labels l Hf Hl. apply (Hnew file labels); [by apply elem_of_map_to_list|done].
Qed.

Lemma load_generation_complete c generation s : load_generation c generation = Ok s -> sn_generation s = generation /\
  (forall source l, required_domain (from_config c) source l -> has_set (sn_domains s) source l) /\
  (forall source l, required_ip (from_config c) source l -> has_set (sn_ips s) source l).
Proof.
  unfold load_generation. intros ([domains u1] & Hd & H)%bind_ok. apply bind_ok in H as ([ips u2] & Hi & H). apply bind_ok in H as (domains' & Hd' & H).
  apply bind_ok in H as (ips' & Hi' & H). apply bind_ok in H as (u & _ & [= <-]). cbn.
  assert (Hgs : forall f, GeoSite <> External f) by done. assert (Hgi : forall f, GeoIp <> External f) by done.
  destruct (load_kind _ _ _ _ _ _ _ _ _ _ geosite_total Hgs Hd Hd') as [D1 D2]. destruct (load_kind _ _ _ _ _ _ _ _ _ _ geoip_total Hgi Hi Hi') as [I1 I2].
  split_and!; [done| |]; intros [| |f] l; cbn; try done; [apply D1|intros (labels & Hf & Hl); by apply (D2 f labels)|apply I1|intros (labels & Hf & Hl); by apply (I2 f labels)].
Qed.

(** The rules the router compiles ([Routing.compile_table]): its own and those of
    each policy. *)
Definition configured (c : RoutingConfig) (rule : RouteRule) : Prop :=
  rule ∈ config_rules c \/ exists name policy, (name, policy) ∈ config_policies c /\ rule ∈ policy_rules policy.

Lemma configured_enumerated c rule : configured c rule -> rule ∈ all_rules c.
Proof.
  unfold all_rules. rewrite elem_of_app. intros [?|(name & policy & Hp & Hr)]; [by left|]. right. apply list_elem_of_In, in_concat.
  exists (policy_rules policy). split; [|by apply list_elem_of_In]. apply in_map_iff. exists (name, policy). split; [done|by apply list_elem_of_In].
Qed.

(** What the router is promised: each asset matcher of the configuration is
    answered by a set of its label, never by an absent one. *)
Definition serves (c : EntryAssets) (s : AssetSnapshot) {AM : AssetMatcher} {RX : RegexOps} : Prop :=
  forall rule, configured (ea_routing c) rule ->
  (forall input source label, input ∈ rule_domain rule -> domain_compile input = Ok (DmAsset source label) ->
     exists labels set, sn_domains s !! source = Some labels /\ labels !! label = Some set /\
       forall name, @matches_domain (snapshot_matcher s) source label name = domainset_matches set name) /\
  (forall input source label, input ∈ rule_ip rule -> ip_compile input = Ok (ImAsset source label) ->
     exists labels set, sn_ips s !! source = Some labels /\ labels !! label = Some set /\
       forall a, @matches_ip (snapshot_matcher s) source label a = ipset_matches set a).

Lemma loaded_serves {AM : AssetMatcher} {RX : RegexOps} c generation s : load_generation c generation = Ok s -> serves c s.
Proof.
  intros Hl rule Hr%configured_enumerated. destruct (load_generation_complete _ _ _ Hl) as (_ & Hd & Hi). split; intros input source label Hin Hc.
  - destruct (Hd source label) as (labels & Hs & [set Hset]); [by apply (from_config_domain c rule input)|]. exists labels, set. split_and!; [done|done|].
    intros name. cbn. unfold snapshot_matches_domain. rewrite Hs. cbn. by rewrite Hset.
  - destruct (Hi source label) as (labels & Hs & [set Hset]); [by apply (from_config_ip c rule input)|]. exists labels, set. split_and!; [done|done|].
    intros name. cbn. unfold snapshot_matches_ip. rewrite Hs. cbn. by rewrite Hset.
Qed.

(** C20: a reload publishes a complete generation or nothing. For any file
    system, HTTP client and configuration: a reload that fails, whatever the
    reason, leaves the published snapshot and the generation as they were; one
    that succeeds publishes the next generation, in which every asset matcher
    that compiles from a rule of the router or of any of its policies finds the
    set of its label, so that no rule is silently without data. *)
Theorem reload_complete {AM : AssetMatcher} {RX : RegexOps} poisoned c s r s' : reload poisoned c s = (r, s') ->
  match r with
  | Ok generation => generation = as_generation s + 1 /\ generation <= U64_MAX /\ as_generation s' = generation /\
      sn_generation (as_current s') = generation /\ serves c (as_current s')
  | _ => s' = s
  end.
Proof.
  unfold reload. destruct (guard! poisoned else AuUnavailable; _) as [[g snapshot]|e|] eqn:E; intros [= <- <-]; [|done|done].
  apply bind_ok in E as (u & _ & E). apply bind_ok in E as (g' & [-> Hg]%ok_or_ok%checked_add_some & E). apply bind_ok in E as (sn & Hl%map_err_ok & [= <- <-]).
  split_and!; [done|done|done|by destruct (load_generation_complete _ _ _ Hl)|by apply (loaded_serves c (as_generation s + 1))].
Qed.
End Complete.

(** ** A concrete world *)

(** No network; every file is the same small GeoIP list. *)
#[local] Instance cached_world : AssetIo := {|
  file_open _ := Ok {| fv_len := Ok (len (geoip_file sample_geoip)); fv_content := Ok (geoip_file sample_geoip) |};
  is_file _ := true; http_get _ _ _ := Err UHostNotFound; metadata_from_json _ := None; commit_update _ := Ok tt |}.
#[local] Instance no_search : AssetSearch := {|
  ARegex := unit; aregex_build _ := Err RegexOther; aregex_is_match _ _ := false;
  ASubstrings := unit; asub_build _ := None; asub_is_match _ _ := false |}.
#[local] Instance no_regex : RegexOps := {| Regex := unit; regex_build _ := None; is_match _ _ := false |}.

Definition sample_policy_rule : RouteRule :=
  {| rr_name := None; rr_domain := None; rr_ip := Some [bytes_of "geoip:Other"]; rr_port := None; rr_outbound := bytes_of "relay" |}.

Definition sample_config : EntryAssets := {|
  ea_routing := {| rg_default := bytes_of "direct"; rg_strategy := None;
    rg_rules := Some [{| rr_name := None; rr_domain := None; rr_ip := Some [bytes_of "GeoIP:cn"]; rr_port := None; rr_outbound := bytes_of "block" |}];
    rg_policies := Some [(bytes_of "staff", {| rp_default := bytes_of "direct"; rp_rules := Some [sample_policy_rule] |})] |};
  ea_assets := None |}.

Definition sample_store : AssetStore := {| as_current := {| sn_generation := 0; sn_domains := ∅; sn_ips := ∅ |}; as_generation := 0 |}.

Lemma reload_complete_witness : exists s' labels set, (reload false sample_config sample_store).2 = s' /\ as_generation s' = 1 /\
  sn_ips (as_current s') !! GeoIp = Some labels /\ labels !! bytes_of "other" = Some set.
Proof.
  assert (Hok : is_ok (reload false sample_config sample_store).1 = true) by (vm_compute; reflexivity).
  destruct (reload false sample_config sample_store) as [r s'] eqn:E.
  pose proof (reload_complete (AM := EmptyAssetMatcher) false sample_config sample_store r s' E) as H.
  destruct r as [g| |]; [|discriminate Hok|discriminate Hok]. destruct H as (Hg & _ & Hs & _ & H).
  destruct (H sample_policy_rule) as [_ Hip].
  { right. exists (bytes_of "staff"), {| rp_default := bytes_of "direct"; rp_rules := Some [sample_policy_rule] |}. split; apply list_elem_of_singleton; reflexivity. }
  destruct (Hip (bytes_of "geoip:Other") GeoIp (bytes_of "other")) as (labels & set & Hl & Hset & _); [apply list_elem_of_singleton; reflexivity|reflexivity|].
  exists s', labels, set. split; [reflexivity|]. split; [rewrite Hs; exact Hg|]. split; [exact Hl|exact Hset].
Defined.
